(* ===== verification/_CoqProject ===== *)
-Q . S2P
Prelude.v
Rational.v
Time.v
Bits.v
Source.v
Reader.v
Golomb.v
Writer.v
AnnexB.v
Bytes.v
Error.v
Limits.v
Escape.v
Interleave.v
MuxTs.v
Ebml.v
DemuxTime.v
Arq.v
ExprLex.v
ExprParse.v
ExprEval.v
ExprPrint.v
Cabac.v
CabacCode.v
CodecCore.v
Vlc.v
OneShot.v
PixFmt.v
Media.v
Qoi.v
RtmpChunk.v
Rtmp.v
RtmpControl.v
RtmpHandshake.v
Amf0.v
FilterFormat.v
FilterLink.v
FilterSolve.v
FilterGraph.v
FilterRun.v
GraphLex.v
GraphAst.v
GraphSuggest.v
GraphBuild.v
OggPage.v
OggTime.v
OggMux.v
OggDemux.v
OggRead.v
OggRound.v
OggReplay.v
OggFile.v
