(* ===== verification/Prelude.v ===== *)
(** * A verification library for vaco's core

    vaco reimplements a media toolkit in Rust as layers of crates: [core]
    (numbers, bits, limits, options, expressions), [model] (packets, frames),
    [signal] and [codec] (entropy coders, transforms, codecs), [format] and [io]
    (containers, protocols), [filter], [registry], [hw] and [app]. Untrusted
    bytes enter through [io] and [format], are cut into packets, timed, decoded
    or copied, and leave through a muxer. This library models the layers every
    such path shares, operation by operation, and proves what the layers above
    rely on.

    ** Reading guide: files, sources, interaction

    Paths are under [src/crates]. Each file names its own source lines in its
    sections; one definition stands for one function, with the source's name.

    - [Prelude]: results, machine integers at a width, slices, tactics, the
      hint database [vaco].
    - [Rational], [Time] ([core/vaco-core]): exact fractions; timestamps in a
      time base, rescaling, durations. [Time] computes through [Rational]; the
      format layer ([Interleave], [MuxTs], [DemuxTime]) orders and converts
      time stamps through [Time].
    - [Escape] ([core/vaco-core]): the option grammar's escaping and the ordered
      option dictionary, against [gmap] with an order.
    - [Bits], [Source], [Reader], [Golomb], [Writer], [AnnexB], [Bytes]
      ([core/vaco-bitstream]): [Bits] is the mathematical bit string. [Source] is
      the class of bit sources; [Reader], the cached reader, is its instance, and
      [Golomb] decodes over any instance. [Writer] appends bits that [Reader]
      reads back. [AnnexB] frames NAL units; [Bytes] is the byte cursor and the
      length-prefixed framing.
    - [Error], [Limits] ([core/vaco-core], [core/vaco-limits]): the shared error
      type, and the meter each parser, decoder and protocol charges for memory
      and loop turns.
    - [ExprLex], [ExprParse], [ExprEval], [ExprPrint] ([core/vaco-expr]): the
      expression language of filters and options: scanner, parser into a node
      arena, evaluator, and a printer that states what the grammar means.
    - [Interleave], [MuxTs] ([format/vaco-format-core], muxing): the packet queue
      and the timestamp chain in front of it.
    - [DemuxTime] ([format/vaco-format-core], demuxing): wraparound, reorder
      window, timestamp repair.
    - [Ebml] ([format/vaco-format-ebml]): Matroska's integers, elements and
      open-element stack.
    - [Arq] ([io/vaco-protocol-srt]): the retransmission windows of SRT.
    - [Cabac], [CabacCode] ([signal/vaco-codec-cabac]): the arithmetic coder's
      two engines over any bit source, and the proof that they agree.
    - [Vlc] ([signal/vaco-codec-vlc]): prefix-code tables and their lookups.
    - [CodecCore], [OneShot] ([signal/vaco-codec-core]): the send/receive machine,
      its protocol as a class with laws, the validator and the reference codec;
      [OneShot] gives the laws once for all codecs of one output per input.
    - [PixFmt], [Media] ([model]): pixel formats and plane geometry; buffers,
      packets and frames charged to a budget of [Limits].
    - [Qoi] ([codec/vaco-codec-qoi]): a whole codec, on frames of [Media] with
      formats of [PixFmt], behind the protocol of [CodecCore] by [OneShot].
    - [RtmpChunk], [Rtmp], [RtmpControl], [RtmpHandshake], [Amf0]
      ([io/vaco-protocol-rtmp]): chunk headers; the reassembly of messages under a
      budget and its inverse; control messages; SHA-256 and the handshakes; the
      values and commands that messages carry.
    - [FilterFormat], [FilterLink], [FilterSolve], [FilterGraph], [FilterRun]
      ([filter/vaco-filter-core]): the filter graph. Formats as constraints; the
      queues between filters, and an activation as a program over its context's
      calls; negotiation of one format per link, with converters spliced in;
      the graph and its configuration; the scheduler. The trait of filters is the
      class [Filter]; time stamps on links go through [Time].
    - [GraphLex], [GraphAst], [GraphSuggest], [GraphBuild]
      ([filter/vaco-filter-graph]): the text a filter graph is written in: scanner,
      tree, parser, printer; the name suggested for an unknown filter; and the
      builder, which makes the tree into a graph of [FilterGraph].
    - [OggPage], [OggTime], [OggMux], [OggDemux], [OggRead] ([format/vaco-demux-ogg],
      [format/vaco-mux-ogg]): a whole container: pages and their checksum; the codecs'
      first packets and the time a granule position means; the muxer, from streams and
      packets to pages; the demuxer's search for pages and reassembly of packets, on an
      [Error] and a budget of [Limits]; and the demuxer as its callers see it, from
      opening to the packets with their time stamps and seeking. [OggRound] says
      what segment tables spell and that one page is read so; [OggReplay], that a file of
      such pages is opened and read to its end; [OggFile], that the muxer writes such a file.

    ** What the theorems show

    - Values: rational and time arithmetic is exact or refused, never wrapped;
      orders are total and agree with the numbers; conversions round as asked.
    - Refinement: the cached reader, the dictionary, the meter, the queue and the
      retransmission window implement a short abstract specification, for every
      sequence of calls; codecs keep the laws of the send/receive protocol.
    - Round trips: what an encoder, escaper, writer, framer or printer of the
      code writes, the code's reader gives back, for all inputs: bits, NAL units,
      EBML, expressions, CABAC bins, QOI images, RTMP messages interleaved on one
      connection, AMF0 commands, filter graphs, Ogg files.
    - Equivalence: an optimised routine (strided scan, padded reads, compiled
      expressions, table lookups, SHA-256 in place) equals its plain definition,
      and a stream fed in pieces equals the stream fed whole.
    - Scheduling: a run of the filter graph ends; no frame is lost to a full link,
      no wake-up of a parked node, no failure of a filter; formats agree along
      every link, or the conflict named is real.
    - Building: the graph made of a description leaves no pad lost or doubled, and
      names every node of a circle.
    - Time: the packets of an Ogg stream lie end to end, and pages end when they say.
    - Termination and bounds: every loop on untrusted input ends and stays
      inside the buffer, the allowance or the window.
    - Damage: a burst of 32 bits in an Ogg page is noticed; reading damaged bytes ends.
    - Findings: lemmas at the end of a file record where the code and its
      documentation differ; each is a concrete computed case.

    ** Conventions

    A [w]-bit integer is a [Z] with its wrap, saturation or check written out at
    each operation; [usize] is 64 bits; bytes are [Z] in [0, 256). Mutation is
    state passing; [Result] is [result]; a [debug_assert] is absent, as in
    release builds. An [f64] is [SpecFloat]'s binary64.

    Loops that are not structural take fuel. The fuel is computed from the input
    at the call (the bytes left, the budget, the bits of an operand: Euclid's loop
    takes the bit width, the parser the text and the depth limit), and a theorem
    of the file shows it suffices; where running out is visible it is an extra
    outcome that the theorem rules out.

    Parameters: the allocator ([Limits], [Media], [Qoi], [Rtmp], [OggRead]: whether it
    agrees, where, and with what capacity), the parsers a demuxer is offered ([OggRead]), the C library's transcendental
    functions, the clock and user callbacks ([ExprLex], [ExprEval]), the seed of
    the handshake's filler ([RtmpHandshake]), the pixels of a frame, a filter's own
    state, the factory of converters and the registry of filters (the [Filter] files
    and [GraphBuild]), the text of an operating system's error.

    ** Not modelled

    The codecs' signal processing, the filters' pixel and sample kernels, SIMD and
    GPU code (numeric kernels, mostly on floats); sockets, files, TLS and threads
    (effects of libraries outside the repository); the registry's generated
    tables; the command line; benches, fuzzers and conformance tools. Inside the
    modelled components the [f64] conversions of [Rational] and [Time], the
    IEEE-754 reads of [Bytes] and [Ebml], [Display] and [Debug], and the [f64]
    pacer of [Arq] are left out; of [Media], pools, sharing and audio frames; of an Ogg stream, the channel layout. The
    manifest lists every part with its reason. Parts that remain to be modelled
    with the same means: seek indexes, probing, RTP framing, further lossless codecs and containers. *)

From Stdlib Require Import ZArith Lia Zquot Ascii String.
From stdpp Require Import prelude strings.

Open Scope Z_scope.

(** ** Results *)

(** Rust's [Result], with the error first so that [result E] is a monad: [?]
    is stdpp's bind, [x ← r; k], as it is for [option]. *)
Inductive result (E A : Type) : Type :=
  | Ok (a : A)
  | Err (e : E).
Arguments Ok {E A} _.
Arguments Err {E A} _.

#[export] Instance result_eq_dec {E A : Type} `{EqDecision E, EqDecision A} : EqDecision (result E A).
Proof. solve_decision. Defined.

#[export] Instance result_ret {E : Type} : MRet (result E) := fun A a => Ok a.
#[export] Instance result_bind {E : Type} : MBind (result E) := fun A B k r =>
  match r with
  | Ok a => k a
  | Err e => Err e
  end.
#[export] Instance result_fmap {E : Type} : FMap (result E) := fun A B f r =>
  match r with
  | Ok a => Ok (f a)
  | Err e => Err e
  end.

(** [Option::ok_or]. *)
Definition ok_or {E A : Type} (o : option A) (e : E) : result E A :=
  match o with
  | Some a => Ok a
  | None => Err e
  end.

Definition is_ok {E A : Type} (r : result E A) : bool :=
  match r with
  | Ok _ => true
  | Err _ => false
  end.

(** ** Machine integers

    A [w]-bit Rust integer is a [Z] in range. The checked, saturating and
    wrapping operations are written over the exact result. *)

Definition in_u (w z : Z) : bool := (0 <=? z) && (z <? 2 ^ w).
Definition in_i (w z : Z) : bool := (- 2 ^ (w - 1) <=? z) && (z <? 2 ^ (w - 1)).

Definition wrap_u (w z : Z) : Z := z mod 2 ^ w.
Definition wrap_i (w z : Z) : Z := (z + 2 ^ (w - 1)) mod 2 ^ w - 2 ^ (w - 1).

Definition checked_u (w z : Z) : option Z := if in_u w z then Some z else None.
Definition checked_i (w z : Z) : option Z := if in_i w z then Some z else None.

Definition sat_u (w z : Z) : Z := Z.max 0 (Z.min z (2 ^ w - 1)).
Definition sat_i (w z : Z) : Z := Z.max (- 2 ^ (w - 1)) (Z.min z (2 ^ (w - 1) - 1)).

(** [leading_zeros] of a [w]-bit word. *)
Definition leading_zeros (w z : Z) : Z := if z =? 0 then w else w - 1 - Z.log2 z.

Lemma in_u_spec w z : in_u w z = true <-> 0 <= z < 2 ^ w.
Proof. unfold in_u. rewrite andb_true_iff, Z.leb_le, Z.ltb_lt. lia. Qed.

Lemma in_i_spec w z : in_i w z = true <-> - 2 ^ (w - 1) <= z < 2 ^ (w - 1).
Proof. unfold in_i. rewrite andb_true_iff, Z.leb_le, Z.ltb_lt. lia. Qed.

Lemma in_u_spec_false w z : in_u w z = false <-> ~ 0 <= z < 2 ^ w.
Proof. rewrite <- in_u_spec. destruct (in_u w z); naive_solver. Qed.

Lemma in_i_spec_false w z :
  in_i w z = false <-> ~ - 2 ^ (w - 1) <= z < 2 ^ (w - 1).
Proof. rewrite <- in_i_spec. destruct (in_i w z); naive_solver. Qed.

Lemma checked_u_Some w z v : checked_u w z = Some v <-> v = z /\ 0 <= z < 2 ^ w.
Proof.
  unfold checked_u. destruct (in_u w z) eqn:E.
  - apply in_u_spec in E as ?. split; [intros [= <-]|intros [-> _]]; done.
  - apply in_u_spec_false in E. split; [done|tauto].
Qed.

Lemma checked_i_Some w z v :
  checked_i w z = Some v <-> v = z /\ - 2 ^ (w - 1) <= z < 2 ^ (w - 1).
Proof.
  unfold checked_i. destruct (in_i w z) eqn:E.
  - apply in_i_spec in E as ?. split; [intros [= <-]|intros [-> _]]; done.
  - apply in_i_spec_false in E. split; [done|tauto].
Qed.

Lemma checked_u_None w z : checked_u w z = None <-> ~ 0 <= z < 2 ^ w.
Proof. unfold checked_u. rewrite <- in_u_spec. destruct (in_u w z); naive_solver. Qed.

Lemma checked_i_None w z :
  checked_i w z = None <-> ~ - 2 ^ (w - 1) <= z < 2 ^ (w - 1).
Proof. unfold checked_i. rewrite <- in_i_spec. destruct (in_i w z); naive_solver. Qed.

Lemma checked_u_in w z : in_u w z = true -> checked_u w z = Some z.
Proof. unfold checked_u. by intros ->. Qed.

Lemma checked_i_in w z : in_i w z = true -> checked_i w z = Some z.
Proof. unfold checked_i. by intros ->. Qed.

Lemma sat_u_id w z : 0 <= z < 2 ^ w -> sat_u w z = z.
Proof. unfold sat_u. lia. Qed.

Lemma sat_u_range w z : 0 <= w -> 0 <= sat_u w z < 2 ^ w.
Proof. intros Hw. pose proof (Z.pow_pos_nonneg 2 w). unfold sat_u. lia. Qed.

Lemma sat_i_id w z : - 2 ^ (w - 1) <= z < 2 ^ (w - 1) -> sat_i w z = z.
Proof. unfold sat_i. lia. Qed.

Lemma sat_i_range w z :
  0 < w -> - 2 ^ (w - 1) <= sat_i w z < 2 ^ (w - 1).
Proof. intros Hw. pose proof (Z.pow_pos_nonneg 2 (w - 1)). unfold sat_i. lia. Qed.

Lemma wrap_u_range w z : 0 <= w -> 0 <= wrap_u w z < 2 ^ w.
Proof. intros Hw. apply Z.mod_pos_bound, Z.pow_pos_nonneg; lia. Qed.

Lemma wrap_u_id w z : 0 <= z < 2 ^ w -> wrap_u w z = z.
Proof. apply Z.mod_small. Qed.

Lemma leading_zeros_range w z :
  0 < w -> 0 <= z < 2 ^ w -> 0 <= leading_zeros w z <= w.
Proof.
  intros Hw Hz. unfold leading_zeros. destruct (Z.eqb_spec z 0); [lia|].
  pose proof (Z.log2_nonneg z). assert (Z.log2 z < w) by (apply Z.log2_lt_pow2; lia). lia.
Qed.

(** ** Automation *)

(** Case analysis on the boolean comparisons of the goal and hypotheses. *)
Ltac zbool_step :=
  match goal with
  | |- context [Z.eqb ?a ?b] => destruct (Z.eqb_spec a b)
  | |- context [Z.ltb ?a ?b] => destruct (Z.ltb_spec a b)
  | |- context [Z.leb ?a ?b] => destruct (Z.leb_spec a b)
  | H : context [Z.eqb ?a ?b] |- _ => destruct (Z.eqb_spec a b)
  | H : context [Z.ltb ?a ?b] |- _ => destruct (Z.ltb_spec a b)
  | H : context [Z.leb ?a ?b] |- _ => destruct (Z.leb_spec a b)
  end.
Ltac zbool := repeat (zbool_step; simpl in *; try done; try lia).

(** Reflect the hypotheses that are boolean equations. *)
Ltac breflect :=
  repeat match goal with
  | H : (_ && _)%bool = true |- _ => apply andb_true_iff in H; destruct H
  | H : (_ || _)%bool = false |- _ => apply orb_false_iff in H; destruct H
  | H : negb _ = true |- _ => apply negb_true_iff in H
  | H : negb _ = false |- _ => apply negb_false_iff in H
  | H : (_ =? _) = true |- _ => apply Z.eqb_eq in H
  | H : (_ =? _) = false |- _ => apply Z.eqb_neq in H
  | H : (_ <=? _) = true |- _ => apply Z.leb_le in H
  | H : (_ <=? _) = false |- _ => apply Z.leb_gt in H
  | H : (_ <? _) = true |- _ => apply Z.ltb_lt in H
  | H : (_ <? _) = false |- _ => apply Z.ltb_ge in H
  | H : in_u _ _ = true |- _ => apply in_u_spec in H
  | H : in_u _ _ = false |- _ => apply in_u_spec_false in H
  | H : in_i _ _ = true |- _ => apply in_i_spec in H
  | H : in_i _ _ = false |- _ => apply in_i_spec_false in H
  | H : checked_u _ _ = Some _ |- _ => apply checked_u_Some in H; destruct H as [-> H]
  | H : checked_i _ _ = Some _ |- _ => apply checked_i_Some in H; destruct H as [-> H]
  end.

Create HintDb vaco.
#[export] Hint Resolve wrap_u_range sat_u_range sat_i_range : vaco.

(** ** Division *)

(** Rust's truncating [/] and [%] agree with the floor ones on an exact
    division. *)
Lemma quot_exact a b : b <> 0 -> (b | a) -> Z.quot a b = a / b.
Proof.
  intros Hb [k ->]. by rewrite Z.quot_mul, Z.div_mul by lia.
Qed.

Lemma rem_abs_divide a b g :
  b <> 0 -> (g | Z.abs (Z.rem a b)) -> (g | b) -> (g | a).
Proof.
  intros Hb Hr Hg. apply (proj1 (Z.divide_abs_r _ _)) in Hr.
  rewrite (Z.quot_rem a b Hb). apply Z.divide_add_r; [|done].
  by apply Z.divide_mul_l.
Qed.

Lemma div_exact_mul a b : b <> 0 -> (b | a) -> a / b * b = a.
Proof. intros Hb [k ->]. by rewrite Z.div_mul by lia. Qed.

(** Dividing both sides by the gcd leaves a coprime pair. *)
Lemma gcd_div_coprime a b g :
  g = Z.gcd a b -> g <> 0 -> Z.gcd (a / g) (b / g) = 1.
Proof. intros -> Hg. by apply Z.gcd_div_gcd. Qed.

(** Two fractions in lowest terms that are equal as numbers are equal as
    pairs. *)
Lemma lowest_terms_unique n d n' d' :
  0 < d -> 0 < d' -> Z.gcd n d = 1 -> Z.gcd n' d' = 1 -> n * d' = n' * d ->
  n = n' /\ d = d'.
Proof.
  intros Hd Hd' Hg Hg' Heq.
  assert ((d | d')) as H1.
  { apply (Z.gauss d n d'); [|by rewrite Z.gcd_comm].
    rewrite Heq. apply Z.divide_factor_r. }
  assert ((d' | d)) as H2.
  { apply (Z.gauss d' n' d); [|by rewrite Z.gcd_comm].
    rewrite <- Heq. apply Z.divide_factor_r. }
  assert (d = d') as -> by (apply Z.divide_antisym_nonneg; auto with lia).
  split; [nia|done].
Qed.

(** ** Text

    A Rust [str] is its list of Unicode scalar values. *)

Abbreviation rstr := (list Z).

Fixpoint str (s : string) : rstr :=
  match s with
  | EmptyString => []
  | String c s => Z.of_N (Ascii.N_of_ascii c) :: str s
  end.
Arguments str _%_string.

Definition is_ascii_digit (c : Z) : bool := (48 <=? c) && (c <=? 57).

(** [str::strip_prefix] on one character. *)
Definition strip_prefix (c : Z) (s : rstr) : option rstr :=
  match s with
  | x :: s => if x =? c then Some s else None
  | [] => None
  end.

(** [str::split_once] on one character. *)
Fixpoint split_once (sep : Z) (s : rstr) : option (rstr * rstr) :=
  match s with
  | [] => None
  | c :: s =>
    if c =? sep then Some ([], s)
    else '(l, r) ← split_once sep s; Some (c :: l, r)
  end.

(** [parse] of a [w]-bit signed integer on a string of ASCII digits: every
    intermediate product and sum is checked. *)
Fixpoint parse_digits_from (w acc : Z) (s : rstr) : option Z :=
  match s with
  | [] => Some acc
  | c :: s =>
    m ← checked_i w (acc * 10);
    a ← checked_i w (m + (c - 48));
    parse_digits_from w a s
  end.

(** The number a string of digits denotes, without bounds. *)
Definition digits_value (acc : Z) (s : rstr) : Z :=
  fold_left (fun acc c => acc * 10 + (c - 48)) s acc.

Lemma digits_value_mono acc s :
  0 <= acc -> forallb is_ascii_digit s = true -> acc <= digits_value acc s.
Proof.
  revert acc. induction s as [|c s IH]; intros acc Ha; simpl; [lia|].
  intros H. apply andb_true_iff in H as [Hc Hs]. unfold is_ascii_digit in Hc. breflect.
  etransitivity; [|apply IH; [lia|done]]. lia.
Qed.

Lemma parse_digits_from_value w acc s v :
  parse_digits_from w acc s = Some v -> v = digits_value acc s.
Proof.
  revert acc. induction s as [|c s IH]; intros acc; simpl; [by intros [= <-]|].
  destruct (checked_i w (acc * 10)) eqn:E1; simpl; [|done]. breflect.
  destruct (checked_i w (acc * 10 + (c - 48))) eqn:E2; simpl; [|done]. breflect. apply IH.
Qed.

(** Parsing digits fails exactly when the number does not fit. *)
Lemma parse_digits_from_None w acc s :
  0 < w -> 0 <= acc < 2 ^ (w - 1) -> forallb is_ascii_digit s = true ->
  parse_digits_from w acc s = None <-> 2 ^ (w - 1) <= digits_value acc s.
Proof.
  intros Hw. revert acc. induction s as [|c s IH]; intros acc Ha; simpl.
  { intros _. split; [done|]. unfold digits_value. simpl. lia. }
  intros H. apply andb_true_iff in H as [Hc Hs]. unfold is_ascii_digit in Hc. breflect.
  pose proof (digits_value_mono (acc * 10 + (c - 48)) s ltac:(lia) Hs) as Hm.
  change (digits_value acc (c :: s)) with (digits_value (acc * 10 + (c - 48)) s).
  destruct (checked_i w (acc * 10)) eqn:E1; simpl.
  - breflect. destruct (checked_i w (acc * 10 + (c - 48))) eqn:E2; simpl.
    + breflect. apply IH; [lia|done].
    + apply checked_i_None in E2. split; [lia|done].
  - apply checked_i_None in E1. split; [lia|done].
Qed.
