(* ===== verification/Rational.v ===== *)
(** * Rational: exact rational arithmetic

    Models [crates/core/vaco-core/src/rational.rs]: the raw [i32/i32] pair, its
    three classes of value, canonical forms, the exact total order, the checked
    and the saturating arithmetic and the continued-fraction approximation.
    [f64] conversions and the text formats are not modelled here. *)

From stdpp Require Import prelude.
From Stdlib Require Import ZArith Lia QArith Qfield.
From S2P Require Import Prelude.
Open Scope Z_scope.

(** ** Data *)

Record rational : Type := Rational { num : Z; den : Z }.

#[export] Instance rational_eq_dec : EqDecision rational.
Proof. solve_decision. Defined.

(** Both fields are [i32]. *)
Definition rat_wf (r : rational) : Prop :=
  in_i 32 (num r) = true /\ in_i 32 (den r) = true.

Definition i32_max : Z := 2 ^ 31 - 1.
Definition i32_min : Z := - 2 ^ 31.

Definition ZERO : rational := Rational 0 1.
Definition ONE : rational := Rational 1 1.
Definition UNDEFINED : rational := Rational 0 0.
Definition INFINITY : rational := Rational 1 0.
Definition NEG_INFINITY : rational := Rational (-1) 0.
Definition MICROSECONDS : rational := Rational 1 1000000.

Definition is_defined (r : rational) : bool := negb (den r =? 0).
Definition is_undefined (r : rational) : bool := (den r =? 0) && (num r =? 0).
Definition is_infinite (r : rational) : bool := (den r =? 0) && negb (num r =? 0).
Definition is_zero (r : rational) : bool := (num r =? 0) && negb (den r =? 0).
Definition signum (r : rational) : Z :=
  if den r =? 0 then Z.sgn (num r) else Z.sgn (num r) * Z.sgn (den r).

(** ** Canonical forms *)

(** The loop of [gcd_u128], one unit of fuel per iteration. *)
Fixpoint gcd_loop (fuel : nat) (a b : Z) : Z :=
  match fuel with
  | O => a
  | S f => if b =? 0 then a else gcd_loop f b (a mod b)
  end.

(** Two iterations halve [b], so [2 * 128 + 1] of them finish a [u128]. *)
Definition gcd_u128 (a b : Z) : Z := gcd_loop 257 a b.

Definition canonicalise (n d : Z) : Z * Z :=
  if d =? 0 then (Z.sgn n, 0)
  else if n =? 0 then (0, 1)
  else
    let g := gcd_u128 (Z.abs n) (Z.abs d) in
    let n := Z.quot n g in
    let d := Z.quot d g in
    if d <? 0 then (- n, - d) else (n, d).

Definition canonical (r : rational) : Z * Z := canonicalise (num r) (den r).

Definition exact_from_canonical (n d : Z) : option rational :=
  if d =? 0 then Some (Rational (Z.sgn n) 0)
  else n ← checked_i 32 n; d ← checked_i 32 d; Some (Rational n d).

Definition reduced (r : rational) : rational :=
  let '(n, d) := canonical r in default r (exact_from_canonical n d).

Definition checked_reduced (r : rational) : option rational :=
  let '(n, d) := canonical r in exact_from_canonical n d.

(** ** Order *)

Definition class (n d : Z) : Z :=
  if negb (d =? 0) then 0
  else if n =? 0 then -2
  else if 0 <? n then 1 else -1.

Definition cmp_exact (a b : rational) : comparison :=
  let '(an, ad) := canonical a in
  let '(bn, bd) := canonical b in
  match class an ad ?= class bn bd with
  | Eq => if ad =? 0 then Eq else an * bd ?= bn * ad
  | c => c
  end.

(** [PartialEq::eq]. *)
Definition rat_eqb (a b : rational) : bool :=
  match cmp_exact a b with Eq => true | _ => false end.

(** [PartialOrd::partial_cmp]. *)
Definition partial_cmp (a b : rational) : option comparison :=
  if is_undefined a || is_undefined b then None else Some (cmp_exact a b).

(** ** Approximation *)

Definition closer (n d p q r s : Z) : bool :=
  let ea := Z.abs (n * q - p * d) in
  let eb := Z.abs (n * s - r * d) in
  match checked_i 128 (ea * s), checked_i 128 (eb * q) with
  | Some la, Some lb => la <? lb
  | _, _ => false
  end.

(** The semiconvergent step taken when the next convergent is over budget:
    the new [(h1, k1)]. *)
Definition semiconvergent (n d max_num max_den a h0 h1 k0 k1 : Z) : Z * Z :=
  let t_den := if k1 =? 0 then a else Z.min (Z.quot (max_den - k0) k1) a in
  let t_num := if h1 =? 0 then t_den else Z.min (Z.quot (max_num - h0) h1) t_den in
  let t := Z.max t_num 0 in
  if 0 <? t then
    let hs := h0 + t * h1 in
    let ks := k0 + t * k1 in
    if closer (Z.abs n) d hs ks h1 k1 then (hs, ks) else (h1, k1)
  else (h1, k1).

(** The [while y != 0] loop: the final [(h1, k1, accepted)]. *)
Fixpoint approx_loop (fuel : nat) (n d max_num max_den x y h0 h1 k0 k1 : Z)
    (accepted : bool) : Z * Z * bool :=
  match fuel with
  | O => (h1, k1, accepted)
  | S f =>
    if y =? 0 then (h1, k1, accepted)
    else
      let a := Z.quot x y in
      let h := a * h1 + h0 in
      let k := a * k1 + k0 in
      if (max_num <? h) || (max_den <? k) then
        if accepted then
          (semiconvergent n d max_num max_den a h0 h1 k0 k1, accepted)
        else (h1, k1, accepted)
      else approx_loop f n d max_num max_den y (x - a * y) h1 h k1 k true
  end.

(** The loop divides as Euclid does, so the gcd's fuel is enough. *)
Definition approx_canonical (n d max_den : Z) : Z * Z :=
  let max_num := i32_max in
  let neg := n <? 0 in
  let '(h1, k1, accepted) :=
    approx_loop 257 n d max_num max_den (Z.abs n) d 0 1 1 0 false in
  if negb accepted || (k1 =? 0) then ((if neg then - max_num else max_num), 1)
  else ((if neg then - h1 else h1), k1).

Definition from_canonical (n d : Z) : rational :=
  match exact_from_canonical n d with
  | Some exact => exact
  | None =>
    let '(an, ad) := approx_canonical n d i32_max in
    Rational (wrap_i 32 an) (wrap_i 32 ad)
  end.

Definition reduce (n d max : Z) : rational * bool :=
  let max := Z.max 1 (Z.min max i32_max) in
  let '(n, d) := canonicalise n d in
  let approx :=
    if d =? 0 then (from_canonical n d, true)
    else
      let '(an, ad) := approx_canonical n d max in
      (from_canonical an ad, (an =? n) && (ad =? d)) in
  if negb (d =? 0) && (d <=? max) then
    match exact_from_canonical n d with
    | Some exact => (exact, true)
    | None => approx
    end
  else approx.

(** ** Arithmetic *)

Definition inverse (r : rational) : rational := Rational (den r) (num r).

Definition checked_inverse (r : rational) : option rational :=
  if num r =? 0 then None else Some (inverse r).

Definition neg_value (r : rational) : rational :=
  if negb (num r =? i32_min) then Rational (- num r) (den r)
  else if negb (den r =? i32_min) then Rational (num r) (- den r)
  else Rational (-1) 1.

Definition cross_reduce (a b : Z) : Z * Z :=
  if (a =? 0) || (b =? 0) then (a, b)
  else
    let g := gcd_u128 (Z.abs a) (Z.abs b) in
    (Z.quot a g, Z.quot b g).

Definition undefined_pair (p : Z * Z) : bool := (fst p =? 0) && (snd p =? 0).

Definition mul_canonical (a b : rational) : option (Z * Z) :=
  let '(an, ad) := canonical a in
  let '(bn, bd) := canonical b in
  if undefined_pair (an, ad) || undefined_pair (bn, bd) then None
  else if (ad =? 0) || (bd =? 0) then
    if (an =? 0) || (bn =? 0) then None else Some (Z.sgn an * Z.sgn bn, 0)
  else
    let '(an, bd) := cross_reduce an bd in
    let '(bn, ad) := cross_reduce bn ad in
    Some (canonicalise (an * bn) (ad * bd)).

Definition add_canonical (a b : rational) : option (Z * Z) :=
  let '(an, ad) := canonical a in
  let '(bn, bd) := canonical b in
  if undefined_pair (an, ad) || undefined_pair (bn, bd) then None
  else if ad =? 0 then
    if bd =? 0 then (if an =? bn then Some (an, 0) else None)
    else Some (an, 0)
  else if bd =? 0 then Some (bn, 0)
  else Some (canonicalise (an * bd + bn * ad) (ad * bd)).

Definition checked_add (a b : rational) : option rational :=
  '(n, d) ← add_canonical a b; exact_from_canonical n d.
Definition checked_sub (a b : rational) : option rational :=
  checked_add a (neg_value b).
Definition checked_mul (a b : rational) : option rational :=
  '(n, d) ← mul_canonical a b; exact_from_canonical n d.
Definition checked_div (a b : rational) : option rational :=
  '(n, d) ← mul_canonical a (inverse b); exact_from_canonical n d.

Definition rat_neg (a : rational) : rational := neg_value a.
Definition rat_add (a b : rational) : rational :=
  match add_canonical a b with
  | Some (n, d) => from_canonical n d
  | None => UNDEFINED
  end.
Definition rat_sub (a b : rational) : rational := rat_add a (neg_value b).
Definition rat_mul (a b : rational) : rational :=
  match mul_canonical a b with
  | Some (n, d) => from_canonical n d
  | None => UNDEFINED
  end.
Definition rat_div (a b : rational) : rational := rat_mul a (inverse b).

Example add_ex : rat_add (Rational 1 2) (Rational 1 3) = Rational 5 6.
Proof. vm_compute. reflexivity. Qed.
Example approx_ex : approx_canonical 314159265 100000000 1000 = (355, 113).
Proof. vm_compute. reflexivity. Qed.

(** ** The Euclid loop *)

Lemma gcd_loop_enough (n : nat) : forall fuel a b,
  (2 * n + 1 <= fuel)%nat -> 0 <= a -> 0 <= b < 2 ^ Z.of_nat n ->
  gcd_loop fuel a b = Z.gcd a b.
Proof.
  induction n as [|n IH]; intros fuel a b Hf Ha Hb.
  - destruct fuel as [|f]; [lia|]. simpl in *. rewrite (proj2 (Z.eqb_eq b 0)) by lia.
    replace b with 0 by lia. rewrite Z.gcd_0_r. lia.
  - destruct fuel as [|[|f]]; [lia..|]. simpl.
    destruct (Z.eqb_spec b 0) as [->|Hb0]; [rewrite Z.gcd_0_r; lia|].
    pose proof (Z.mod_pos_bound a b).
    rewrite (Z.gcd_comm a b), <- (Z.gcd_mod_r b a).
    destruct (Z.eqb_spec (a mod b) 0) as [->|Hr0].
    { rewrite Z.gcd_0_r. lia. }
    pose proof (Z.mod_pos_bound b (a mod b)).
    rewrite IH; [|lia..|].
    + by rewrite Z.gcd_mod_r, Z.gcd_comm.
    + split; [lia|]. rewrite Nat2Z.inj_succ, Z.pow_succ_r in Hb by lia.
      pose proof (Z.div_mod b (a mod b)). pose proof (Z.div_str_pos b (a mod b)). nia.
Qed.

Lemma gcd_u128_gcd a b : 0 <= a -> 0 <= b < 2 ^ 128 -> gcd_u128 a b = Z.gcd a b.
Proof. intros. apply (gcd_loop_enough 128); simpl; lia. Qed.

(** ** Canonical pairs *)

(** Lowest terms with a positive denominator, or one of the three non-finite
    pairs. *)
Definition canon_pair (p : Z * Z) : Prop :=
  let '(n, d) := p in
  (0 < d /\ Z.gcd n d = 1) \/ (d = 0 /\ (n = -1 \/ n = 0 \/ n = 1)).

Lemma canonicalise_inf n : canonicalise n 0 = (Z.sgn n, 0).
Proof. done. Qed.

(** The finite case, with the defining equations of the lowest-terms pair. *)
Lemma canonicalise_finite n d :
  d <> 0 -> Z.abs d < 2 ^ 128 ->
  exists n' d', canonicalise n d = (n', d') /\ 0 < d' /\ Z.gcd n' d' = 1 /\
    n * d' = n' * d /\ d' <= Z.abs d /\ Z.abs n' <= Z.abs n.
Proof.
  intros Hd Hb. unfold canonicalise. rewrite (proj2 (Z.eqb_neq d 0) Hd).
  destruct (Z.eqb_spec n 0) as [->|Hn].
  { exists 0, 1. repeat split; simpl; lia. }
  rewrite gcd_u128_gcd, Z.gcd_abs_l, Z.gcd_abs_r by lia.
  set (g := Z.gcd n d).
  assert (Hg : 0 < g).
  { pose proof (Z.gcd_nonneg n d). assert (g <> 0); [|unfold g in *; lia].
    intros E. by apply Z.gcd_eq_0_l in E. }
  assert (Hgn : (g | n)) by apply Z.gcd_divide_l.
  assert (Hgd : (g | d)) by apply Z.gcd_divide_r.
  rewrite !quot_exact by (done || lia).
  assert (Hc : Z.gcd (n / g) (d / g) = 1) by (apply gcd_div_coprime; [done|lia]).
  pose proof (div_exact_mul n g ltac:(lia) Hgn) as En.
  pose proof (div_exact_mul d g ltac:(lia) Hgd) as Ed.
  destruct (Z.ltb_spec (d / g) 0).
  - exists (- (n / g)), (- (d / g)). rewrite Z.gcd_opp_l, Z.gcd_opp_r. repeat split; nia.
  - exists (n / g), (d / g). repeat split; nia.
Qed.

Lemma canonicalise_canon n d :
  Z.abs d < 2 ^ 128 -> canon_pair (canonicalise n d).
Proof.
  intros Hb. destruct (decide (d = 0)) as [->|Hd].
  - right. destruct n; simpl; auto.
  - destruct (canonicalise_finite n d Hd Hb) as (n' & d' & -> & ? & ? & _). by left.
Qed.

Lemma canonicalise_unique n d n' d' :
  d <> 0 -> Z.abs d < 2 ^ 128 -> 0 < d' -> Z.gcd n' d' = 1 -> n * d' = n' * d ->
  canonicalise n d = (n', d').
Proof.
  intros Hd Hb Hd' Hg Heq.
  destruct (canonicalise_finite n d Hd Hb) as (n1 & d1 & -> & ? & ? & E & _).
  destruct (lowest_terms_unique n1 d1 n' d') as [-> ->]; try done. nia.
Qed.

Lemma canonicalise_id n d :
  canon_pair (n, d) -> Z.abs d < 2 ^ 128 -> canonicalise n d = (n, d).
Proof.
  intros [[Hd Hg]|[-> Hn]] Hb.
  - apply canonicalise_unique; lia.
  - rewrite canonicalise_inf. by destruct Hn as [->|[->| ->]].
Qed.

(** Scaling both sides of a fraction does not change its canonical form. *)
Lemma canonicalise_eq n d n' d' :
  d <> 0 -> d' <> 0 -> Z.abs d < 2 ^ 128 -> Z.abs d' < 2 ^ 128 ->
  (canonicalise n d = canonicalise n' d' <-> n * d' = n' * d).
Proof.
  intros Hd Hd' Hb Hb'.
  destruct (canonicalise_finite n d Hd Hb) as (n1 & d1 & E1 & ? & ? & Q1 & _).
  split.
  - intros E. destruct (canonicalise_finite n' d' Hd' Hb') as (n2 & d2 & E2 & ? & ? & Q2 & _).
    rewrite E1, E2 in E. simplify_eq. nia.
  - intros E. rewrite E1. symmetry. apply canonicalise_unique; try done. nia.
Qed.

Lemma rat_wf_bounds r :
  rat_wf r -> - 2 ^ 31 <= num r < 2 ^ 31 /\ - 2 ^ 31 <= den r < 2 ^ 31.
Proof. intros [H1 H2]. apply in_i_spec in H1, H2. done. Qed.

Lemma rat_wf_den128 r : rat_wf r -> Z.abs (den r) < 2 ^ 128.
Proof. intros H%rat_wf_bounds. lia. Qed.
#[export] Hint Resolve rat_wf_den128 : vaco.

(** The canonical form of a well-formed rational, by class. *)
Lemma canonical_finite r :
  rat_wf r -> den r <> 0 ->
  exists n d, canonical r = (n, d) /\ 0 < d <= 2 ^ 31 /\ Z.abs n <= 2 ^ 31 /\
    Z.gcd n d = 1 /\ num r * d = n * den r.
Proof.
  intros Hw Hd. pose proof (rat_wf_bounds r Hw).
  destruct (canonicalise_finite (num r) (den r)) as (n & d & E & ?); [lia..|].
  exists n, d. repeat split; try done; lia.
Qed.

Lemma canonical_inf r : den r = 0 -> canonical r = (Z.sgn (num r), 0).
Proof. unfold canonical. intros ->. apply canonicalise_inf. Qed.

Lemma canonical_den_zero r :
  rat_wf r -> (snd (canonical r) = 0 <-> den r = 0).
Proof.
  intros Hw. destruct (decide (den r = 0)) as [E|E].
  - by rewrite canonical_inf.
  - destruct (canonical_finite r Hw E) as (n & d & -> & ? & _). simpl. lia.
Qed.

(** ** The number a rational names *)

(** The value of a finite rational, independent of the canonical form. *)
Definition rat_Q (r : rational) : Q := (inject_Z (num r) / inject_Z (den r))%Q.

Lemma inject_div_eq n d p q :
  d <> 0 -> 0 < q ->
  (inject_Z n / inject_Z d == p # Z.to_pos q)%Q <-> n * q = p * d.
Proof.
  intros Hd Hq. rewrite (Qmake_Qdiv p (Z.to_pos q)), Z2Pos.id by done.
  assert (Hd' : ~ (inject_Z d == 0)%Q) by (unfold Qeq; simpl; lia).
  assert (Hq' : ~ (inject_Z q == 0)%Q) by (unfold Qeq; simpl; lia).
  rewrite <- (inject_Z_injective (n * q) (p * d)), !inject_Z_mult. split; intros H.
  - transitivity (inject_Z n / inject_Z d * inject_Z d * inject_Z q)%Q; [by field|].
    rewrite H. by field.
  - transitivity (inject_Z n * inject_Z q / (inject_Z d * inject_Z q))%Q; [by field|].
    rewrite H. by field.
Qed.

Lemma rat_Q_canonical r n d :
  rat_wf r -> den r <> 0 -> canonical r = (n, d) -> (rat_Q r == n # Z.to_pos d)%Q.
Proof.
  intros Hw Hd E. destruct (canonical_finite r Hw Hd) as (n' & d' & E' & ? & _ & _ & H).
  rewrite E in E'. simplify_eq. apply inject_div_eq; lia.
Qed.

Lemma rat_Q_eq a b :
  den a <> 0 -> den b <> 0 -> (rat_Q a == rat_Q b)%Q <-> num a * den b = num b * den a.
Proof.
  intros Ha Hb. unfold rat_Q.
  assert (Ha' : ~ (inject_Z (den a) == 0)%Q) by (unfold Qeq; simpl; lia).
  assert (Hb' : ~ (inject_Z (den b) == 0)%Q) by (unfold Qeq; simpl; lia).
  rewrite <- (inject_Z_injective (num a * den b)), !inject_Z_mult. split; intros H.
  - transitivity (inject_Z (num a) / inject_Z (den a) * inject_Z (den a) * inject_Z (den b))%Q;
      [by field|]. rewrite H. by field.
  - transitivity (inject_Z (num a) * inject_Z (den b) / (inject_Z (den a) * inject_Z (den b)))%Q;
      [by field|]. rewrite H. by field.
Qed.

(** ** The exact order *)

Lemma canonical_eq_iff a b :
  rat_wf a -> rat_wf b ->
  (canonical a = canonical b <->
   (den a <> 0 /\ den b <> 0 /\ (rat_Q a == rat_Q b)%Q) \/
   (den a = 0 /\ den b = 0 /\ Z.sgn (num a) = Z.sgn (num b))).
Proof.
  intros Ha Hb. pose proof (canonical_den_zero a Ha) as Za.
  pose proof (canonical_den_zero b Hb) as Zb.
  destruct (decide (den a = 0)) as [Ea|Ea], (decide (den b = 0)) as [Eb|Eb].
  - rewrite !canonical_inf by done. naive_solver congruence.
  - split; [intros E; rewrite E in Za; tauto|naive_solver].
  - split; [intros E; rewrite E in Za; tauto|naive_solver].
  - unfold canonical. rewrite canonicalise_eq, <- rat_Q_eq by (auto with vaco).
    naive_solver.
Qed.

(** The order key: the class first, then the value. *)
Definition rank (r : rational) : Z * Q :=
  let '(n, d) := canonical r in
  (class n d, if d =? 0 then 0%Q else n # Z.to_pos d).

Lemma cmp_exact_rank a b :
  rat_wf a -> rat_wf b ->
  cmp_exact a b =
    match fst (rank a) ?= fst (rank b) with
    | Eq => (snd (rank a) ?= snd (rank b))%Q
    | c => c
    end.
Proof.
  intros Ha Hb. unfold cmp_exact, rank.
  pose proof (canonicalise_canon (num a) (den a) (rat_wf_den128 a Ha)) as Ca.
  pose proof (canonicalise_canon (num b) (den b) (rat_wf_den128 b Hb)) as Cb.
  fold (canonical a) in Ca. fold (canonical b) in Cb.
  destruct (canonical a) as [an ad], (canonical b) as [bn bd]. simpl.
  destruct (class an ad ?= class bn bd) eqn:E; [|done..].
  apply Z.compare_eq_iff in E.
  destruct Ca as [[Ha' _]|[-> Hna]], Cb as [[Hb' _]|[-> Hnb]].
  - rewrite !(proj2 (Z.eqb_neq _ _)) by lia. unfold Qcompare. simpl.
    by rewrite !Z2Pos.id.
  - exfalso. unfold class in E. rewrite (proj2 (Z.eqb_neq ad 0)) in E by lia.
    simpl in E. destruct Hnb as [->|[->| ->]]; simpl in E; lia.
  - exfalso. unfold class in E. rewrite (proj2 (Z.eqb_neq bd 0)) in E by lia.
    simpl in E. destruct Hna as [->|[->| ->]]; simpl in E; lia.
  - done.
Qed.

(** The comparison is antisymmetric as a function. *)
Lemma cmp_exact_antisym a b :
  rat_wf a -> rat_wf b -> cmp_exact b a = CompOpp (cmp_exact a b).
Proof.
  intros Ha Hb. rewrite !cmp_exact_rank by done.
  rewrite (Z.compare_antisym (fst (rank a))).
  destruct (fst (rank a) ?= fst (rank b)); simpl; [|done..].
  by rewrite Qcompare_antisym.
Qed.

Definition rat_le (a b : rational) : Prop := cmp_exact a b <> Gt.

Lemma rat_le_rank a b :
  rat_wf a -> rat_wf b ->
  rat_le a b <-> fst (rank a) < fst (rank b) \/
    (fst (rank a) = fst (rank b) /\ (snd (rank a) <= snd (rank b))%Q).
Proof.
  intros Ha Hb. unfold rat_le. rewrite cmp_exact_rank by done.
  destruct (Z.compare_spec (fst (rank a)) (fst (rank b))) as [E|E|E].
  - rewrite Qle_alt. split; [auto|]. intros [?|[_ ?]]; [lia|done].
  - split; [auto|done].
  - split; [done|]. intros [?|[? _]]; lia.
Qed.

(** ** The approximation loop *)

(** What every state of the loop satisfies: the convergents reconstruct the
    input from the remainders, have determinant [±1], and are within budget once
    one has been accepted. *)
Record approx_inv (N D max_num max_den x y h0 h1 k0 k1 : Z) (accepted : bool) : Prop :=
  ApproxInv {
    ai_num : h1 * x + h0 * y = N;
    ai_den : k1 * x + k0 * y = D;
    ai_pos : 0 <= x /\ 0 <= y /\ 0 <= h0 /\ 0 <= h1 /\ 0 <= k0 /\ 0 <= k1;
    ai_det : h1 * k0 - h0 * k1 = 1 \/ h1 * k0 - h0 * k1 = -1;
    ai_budget0 : h0 <= max_num /\ k0 <= max_den;
    ai_acc : accepted = true -> h1 <= max_num /\ 1 <= k1 <= max_den /\ y < x;
    ai_init : accepted = false -> h0 = 0 /\ h1 = 1 /\ k0 = 1 /\ k1 = 0 /\ 0 < y
  }.

Lemma approx_inv_start N D max_num max_den :
  0 <= N -> 0 < D -> 0 < max_num -> 0 < max_den ->
  approx_inv N D max_num max_den N D 0 1 1 0 false.
Proof. intros. split; try done; lia. Qed.

(** An accepted step preserves the invariant. *)
Lemma approx_inv_step N D max_num max_den x y h0 h1 k0 k1 accepted :
  1 <= max_num -> 0 <= max_den ->
  approx_inv N D max_num max_den x y h0 h1 k0 k1 accepted -> y <> 0 ->
  x / y * h1 + h0 <= max_num -> x / y * k1 + k0 <= max_den ->
  approx_inv N D max_num max_den y (x - x / y * y)
    h1 (x / y * h1 + h0) k1 (x / y * k1 + k0) true.
Proof.
  intros Hm Hmd [En Ed (?&?&?&?&?&?) Hdet _ Hacc Hini] Hy Hh Hk.
  pose proof (Z.div_mod x y Hy). pose proof (Z.mod_pos_bound x y).
  pose proof (Z.div_pos x y).
  split; try done.
  - nia.
  - nia.
  - repeat split; nia.
  - nia.
  - destruct accepted; [|lia]. destruct (Hacc eq_refl) as (? & ? & ?). lia.
  - intros _. repeat split; try lia. destruct accepted.
    + destruct (Hacc eq_refl) as (? & ? & ?).
      assert (1 <= x / y) by (apply Z.div_le_lower_bound; lia). nia.
    + lia.
Qed.

Lemma det_coprime a b c d :
  a * d - c * b = 1 \/ a * d - c * b = -1 -> Z.gcd a b = 1.
Proof.
  intros Hdet. apply Z.bezout_1_gcd.
  destruct Hdet; [exists d, (- c)|exists (- d), c]; lia.
Qed.

(** The semiconvergent keeps the budget and stays in lowest terms. *)
Lemma semiconvergent_inv N D n max_num max_den x y h0 h1 k0 k1 h k :
  approx_inv N D max_num max_den x y h0 h1 k0 k1 true ->
  semiconvergent n D max_num max_den (Z.quot x y) h0 h1 k0 k1 = (h, k) ->
  0 <= h <= max_num /\ 1 <= k <= max_den /\ Z.gcd h k = 1.
Proof.
  intros [_ _ (?&?&?&?&?&?) Hdet [Hb0 Hb1] Hacc _] E.
  destruct (Hacc eq_refl) as (? & [? ?] & ?).
  assert (Hold : 0 <= h1 <= max_num /\ 1 <= k1 <= max_den /\ Z.gcd h1 k1 = 1).
  { repeat split; try lia. by eapply det_coprime. }
  unfold semiconvergent in E. rewrite (proj2 (Z.eqb_neq k1 0)) in E by lia.
  rewrite (Z.quot_div_nonneg (max_den - k0) k1) in E by lia.
  set (td := Z.min ((max_den - k0) / k1) (Z.quot x y)) in *.
  set (tn := if h1 =? 0 then td else Z.min (Z.quot (max_num - h0) h1) td) in *.
  destruct (Z.ltb_spec 0 (Z.max tn 0)); [|by simplify_eq].
  destruct (closer _ _ _ _ _ _); simplify_eq; [|done].
  assert (Htn : Z.max tn 0 = tn) by lia. rewrite Htn.
  assert (tn <= td) by (unfold tn; destruct (Z.eqb_spec h1 0); lia).
  pose proof (Z.mul_div_le (max_den - k0) k1).
  assert (tn * h1 <= max_num - h0).
  { unfold tn in *. destruct (Z.eqb_spec h1 0) as [->|?]; [lia|].
    rewrite Z.quot_div_nonneg in * by lia.
    pose proof (Z.mul_div_le (max_num - h0) h1). nia. }
  repeat split; try nia.
  apply (det_coprime _ _ h1 k1). nia.
Qed.

Lemma approx_loop_budget fuel : forall N D n max_num max_den x y h0 h1 k0 k1 acc h k acc',
  1 <= max_num -> 1 <= max_den ->
  approx_inv N D max_num max_den x y h0 h1 k0 k1 acc ->
  approx_loop fuel n D max_num max_den x y h0 h1 k0 k1 acc = (h, k, acc') ->
  acc' = true -> 0 <= h <= max_num /\ 1 <= k <= max_den /\ Z.gcd h k = 1.
Proof.
  induction fuel as [|f IH]; intros N D n max_num max_den x y h0 h1 k0 k1 acc h k acc' Hmn Hmd Hi E Ha;
    simpl in E.
  - simplify_eq. destruct Hi as [_ _ ? ? _ Hacc _]. destruct (Hacc eq_refl).
    repeat split; try lia. by eapply det_coprime.
  - destruct (Z.eqb_spec y 0) as [->|Hy].
    { simplify_eq. destruct Hi as [_ _ ? ? _ Hacc _]. destruct (Hacc eq_refl).
      repeat split; try lia. by eapply det_coprime. }
    destruct (_ || _) eqn:Eb.
    + destruct acc; simplify_eq.
      destruct (semiconvergent _ _ _ _ _ _ _ _ _) eqn:Es. simplify_eq.
      by eapply semiconvergent_inv.
    + breflect. rewrite Z.quot_div_nonneg in * by (destruct Hi; lia).
      eapply IH; [done..| |exact E|done]. by eapply approx_inv_step; eauto with lia.
Qed.

(** Every approximation is in lowest terms and within its budget: nothing wraps
    whatever the input. *)
Lemma approx_canonical_budget n d max_den an ad :
  0 < d -> 1 <= max_den -> approx_canonical n d max_den = (an, ad) ->
  - i32_max <= an <= i32_max /\ 1 <= ad <= max_den /\ Z.gcd an ad = 1.
Proof.
  intros Hd Hm. unfold approx_canonical.
  destruct (approx_loop _ _ _ _ _ _ _ _ _ _ _ _) as [[h k] acc] eqn:E.
  destruct acc; simpl.
  - eapply approx_loop_budget in E as (? & ? & Hg);
      [|done|done|apply approx_inv_start; (done || lia)|done].
    rewrite (proj2 (Z.eqb_neq k 0)) by lia.
    destruct (n <? 0); intros; simplify_eq; rewrite ?Z.gcd_opp_l; repeat split; (done || lia).
  - destruct (n <? 0); intros; simplify_eq; repeat split; (done || lia).
Qed.

(** When the input itself is within budget the loop runs to the end and returns
    it. *)
Section approx_exact.
  Context (N D n0 max_num max_den : Z).
  Context (Hmn : 1 <= max_num) (Hmd : 1 <= max_den).
  Context (HN : N <= max_num) (HD : D <= max_den) (Hg : Z.gcd N D = 1).

Lemma approx_exact_end x h0 h1 k0 k1 acc :
  approx_inv N D max_num max_den x 0 h0 h1 k0 k1 acc -> (h1, k1, acc) = (N, D, true).
Proof using Hg.
  intros [En Ed ? _ _ _ Hini]. rewrite !Z.mul_0_r, !Z.add_0_r in *.
  destruct acc; [|destruct (Hini eq_refl); lia].
  assert (Hx : (x | 1)).
  { rewrite <- Hg. apply Z.gcd_greatest; [rewrite <- En|rewrite <- Ed];
      apply Z.divide_factor_r. }
  apply Z.divide_1_r_nonneg in Hx; [|lia]. subst x. repeat f_equal; lia.
Qed.

Lemma approx_exact_step x y h0 h1 k0 k1 acc :
  approx_inv N D max_num max_den x y h0 h1 k0 k1 acc -> y <> 0 ->
  exists h0' h1' k0' k1', approx_inv N D max_num max_den y (x mod y) h0' h1' k0' k1' true /\
    forall f, approx_loop (S f) n0 D max_num max_den x y h0 h1 k0 k1 acc =
      approx_loop f n0 D max_num max_den y (x mod y) h0' h1' k0' k1' true.
Proof using Hmn Hmd HN HD.
  intros Hi Hy. pose proof Hi as [En Ed ? _ _ _ _].
  pose proof (Z.div_mod x y Hy). pose proof (Z.mod_pos_bound x y).
  pose proof (Z.div_pos x y).
  assert (Hh : x / y * h1 + h0 <= max_num) by nia.
  assert (Hk : x / y * k1 + k0 <= max_den) by nia.
  assert (E : x - x / y * y = x mod y) by lia.
  pose proof (approx_inv_step N D max_num max_den x y h0 h1 k0 k1 acc Hmn ltac:(lia) Hi Hy Hh Hk) as Hi'.
  rewrite E in Hi'. do 4 eexists. split; [exact Hi'|]. intros f. simpl approx_loop.
  rewrite (proj2 (Z.eqb_neq y 0)), Z.quot_div_nonneg by lia.
  by rewrite (proj2 (Z.ltb_ge _ _) Hh), (proj2 (Z.ltb_ge _ _) Hk), E.
Qed.

(** [2 * n + 1] iterations are enough for a remainder below [2 ^ n]. *)
Lemma approx_loop_exact (n : nat) : forall fuel x y h0 h1 k0 k1 acc,
  (2 * n + 1 <= fuel)%nat -> y < 2 ^ Z.of_nat n ->
  approx_inv N D max_num max_den x y h0 h1 k0 k1 acc ->
  approx_loop fuel n0 D max_num max_den x y h0 h1 k0 k1 acc = (N, D, true).
Proof using Hmn Hmd HN HD Hg.
  assert (Hz : forall fuel x h0 h1 k0 k1 acc, (1 <= fuel)%nat ->
    approx_inv N D max_num max_den x 0 h0 h1 k0 k1 acc ->
    approx_loop fuel n0 D max_num max_den x 0 h0 h1 k0 k1 acc = (N, D, true)).
  { intros [|f] x h0 h1 k0 k1 acc ? Hi; [lia|]. by eapply approx_exact_end. }
  induction n as [|n IH]; intros fuel x y h0 h1 k0 k1 acc Hf Hy Hi.
  all: assert (0 <= y) by (destruct Hi; lia).
  all: destruct (decide (y = 0)) as [->|Hy0]; [apply Hz; (done || lia)|].
  { simpl in Hy. lia. }
  destruct fuel as [|[|f]]; [lia..|].
  destruct (approx_exact_step _ _ _ _ _ _ _ Hi Hy0) as (a0 & a1 & b0 & b1 & Hi1 & ->).
  destruct (decide (x mod y = 0)) as [Er|Hr]; [rewrite Er in *; apply Hz; (done || lia)|].
  destruct (approx_exact_step _ _ _ _ _ _ _ Hi1 Hr) as (? & ? & ? & ? & Hi2 & ->).
  apply IH; [lia| |done]. rewrite Nat2Z.inj_succ, Z.pow_succ_r in Hy by lia.
  pose proof (Z.mod_pos_bound x y). pose proof (Z.mod_pos_bound y (x mod y)).
  pose proof (Z.div_mod y (x mod y)). pose proof (Z.div_str_pos y (x mod y)). nia.
Qed.
End approx_exact.

Lemma approx_canonical_exact n d max_den :
  0 < d < 2 ^ 128 -> Z.gcd n d = 1 -> Z.abs n <= i32_max -> d <= max_den ->
  approx_canonical n d max_den = (n, d).
Proof.
  intros Hd Hg Hn Hm. unfold approx_canonical.
  rewrite (approx_loop_exact (Z.abs n) d n i32_max max_den) with (n := 128%nat);
    try (done || lia); [|by rewrite Z.gcd_abs_l|apply approx_inv_start; (done || lia)].
  simpl. rewrite (proj2 (Z.eqb_neq d 0)) by lia.
  destruct (Z.ltb_spec n 0); f_equal; lia.
Qed.

(** ** Back to a rational *)

Lemma exact_from_canonical_Some n d r :
  0 < d -> exact_from_canonical n d = Some r <->
  r = Rational n d /\ - 2 ^ 31 <= n < 2 ^ 31 /\ d < 2 ^ 31.
Proof.
  intros Hd. unfold exact_from_canonical. rewrite (proj2 (Z.eqb_neq d 0)) by lia. split.
  - destruct (checked_i 32 n) eqn:En; simpl; [|done].
    destruct (checked_i 32 d) eqn:Ed; simpl; [|done]. intros [= <-].
    breflect. simpl in *. repeat split; lia.
  - intros (-> & Hn & Hd'). unfold checked_i.
    rewrite (proj2 (in_i_spec 32 n)), (proj2 (in_i_spec 32 d)) by lia. done.
Qed.

Lemma wrap_i_id w z : 0 < w -> - 2 ^ (w - 1) <= z < 2 ^ (w - 1) -> wrap_i w z = z.
Proof.
  intros Hw Hz. unfold wrap_i. rewrite Z.mod_small; [lia|].
  replace w with (1 + (w - 1)) at 3 by lia. rewrite Z.pow_add_r by lia. lia.
Qed.

(** Whatever the canonical pair, the rational is well formed: the [as i32] casts
    of the fallback never change a value. *)
Lemma from_canonical_wf n d :
  0 <= d -> rat_wf (from_canonical n d) /\ (0 < d -> 0 < den (from_canonical n d)).
Proof.
  intros Hd. unfold from_canonical.
  destruct (decide (d = 0)) as [->|Hd0].
  { simpl. split; [|lia]. split; simpl; [destruct n; done|done]. }
  destruct (exact_from_canonical n d) as [r|] eqn:E.
  { apply exact_from_canonical_Some in E as (-> & ? & ?); [|lia].
    split; [|simpl; lia]. split; apply in_i_spec; simpl; lia. }
  destruct (approx_canonical n d i32_max) as [an ad] eqn:Ea.
  apply approx_canonical_budget in Ea as (? & ? & _); [|lia|done].
  unfold i32_max in *. rewrite !wrap_i_id by lia.
  split; [|simpl; lia]. split; apply in_i_spec; simpl; lia.
Qed.

Lemma from_canonical_exact n d :
  0 < d < 2 ^ 31 -> - 2 ^ 31 <= n < 2 ^ 31 -> from_canonical n d = Rational n d.
Proof.
  intros Hd Hn. unfold from_canonical.
  rewrite (proj2 (exact_from_canonical_Some n d (Rational n d) ltac:(lia))); [done|].
  repeat split; lia.
Qed.

(** ** Value of the arithmetic *)

Lemma pair_Q_add an ad bn bd n d :
  0 < ad -> 0 < bd -> 0 < d -> n * (ad * bd) = (an * bd + bn * ad) * d ->
  (n # Z.to_pos d == (an # Z.to_pos ad) + (bn # Z.to_pos bd))%Q.
Proof.
  intros Ha Hb Hd E. unfold Qeq, Qplus. simpl.
  rewrite Pos2Z.inj_mul, !Z2Pos.id by done. lia.
Qed.

Lemma pair_Q_mul an ad bn bd n d :
  0 < ad -> 0 < bd -> 0 < d -> n * (ad * bd) = an * bn * d ->
  (n # Z.to_pos d == (an # Z.to_pos ad) * (bn # Z.to_pos bd))%Q.
Proof.
  intros Ha Hb Hd E. unfold Qeq, Qmult. simpl.
  rewrite Pos2Z.inj_mul, !Z2Pos.id by done. lia.
Qed.

Lemma cross_reduce_spec a b a' b' :
  Z.abs b < 2 ^ 128 -> cross_reduce a b = (a', b') ->
  a * b' = a' * b /\ (0 < b -> 0 < b' <= b) /\ Z.abs a' <= Z.abs a.
Proof.
  intros Hb. unfold cross_reduce.
  destruct ((a =? 0) || (b =? 0)) eqn:E; [intros; simplify_eq; lia|]. breflect.
  rewrite gcd_u128_gcd, Z.gcd_abs_l, Z.gcd_abs_r by lia. set (g := Z.gcd a b).
  assert (Hg : 0 < g).
  { pose proof (Z.gcd_nonneg a b). assert (g <> 0); [|unfold g in *; lia].
    intros Eg. by apply Z.gcd_eq_0_l in Eg. }
  assert (Hga : (g | a)) by apply Z.gcd_divide_l.
  assert (Hgb : (g | b)) by apply Z.gcd_divide_r.
  rewrite !quot_exact by (done || lia). intros [= <- <-].
  pose proof (div_exact_mul a g ltac:(lia) Hga). pose proof (div_exact_mul b g ltac:(lia) Hgb).
  repeat split; nia.
Qed.

(** The pair computed for two finite operands: lowest terms, and the right
    number. *)
Definition pair_of (q : Q) (o : option (Z * Z)) : Prop :=
  exists n d, o = Some (n, d) /\ 0 < d < 2 ^ 128 /\ Z.gcd n d = 1 /\
    (n # Z.to_pos d == q)%Q.

#[export] Instance pair_of_proper : Proper (Qeq ==> eq ==> iff) pair_of.
Proof.
  intros p q E o ? <-. unfold pair_of.
  split; intros (n & d & ? & ? & ? & H); exists n, d; repeat split; try tauto.
  - by rewrite H.
  - by rewrite H.
Qed.

Lemma add_canonical_value a b :
  rat_wf a -> rat_wf b -> den a <> 0 -> den b <> 0 ->
  pair_of (rat_Q a + rat_Q b)%Q (add_canonical a b).
Proof.
  intros Ha Hb Hda Hdb.
  destruct (canonical_finite a Ha Hda) as (an & ad & Ea & ? & ? & _ & _).
  destruct (canonical_finite b Hb Hdb) as (bn & bd & Eb & ? & ? & _ & _).
  pose proof (rat_Q_canonical a an ad Ha Hda Ea) as Qa.
  pose proof (rat_Q_canonical b bn bd Hb Hdb Eb) as Qb. rewrite Qa, Qb. clear Qa Qb.
  unfold add_canonical. rewrite Ea, Eb. unfold undefined_pair. simpl.
  rewrite (proj2 (Z.eqb_neq ad 0)), (proj2 (Z.eqb_neq bd 0)), !andb_false_r by lia. simpl.
  destruct (canonicalise_finite (an * bd + bn * ad) (ad * bd))
    as (n & d & -> & ? & ? & E & Hd & _); [nia..|].
  exists n, d. repeat split; try done; [nia|]. apply pair_Q_add; (done || lia).
Qed.

Lemma mul_canonical_value a b :
  rat_wf a -> rat_wf b -> den a <> 0 -> den b <> 0 ->
  pair_of (rat_Q a * rat_Q b)%Q (mul_canonical a b).
Proof.
  intros Ha Hb Hda Hdb.
  destruct (canonical_finite a Ha Hda) as (an & ad & Ea & ? & ? & _ & _).
  destruct (canonical_finite b Hb Hdb) as (bn & bd & Eb & ? & ? & _ & _).
  pose proof (rat_Q_canonical a an ad Ha Hda Ea) as Qa.
  pose proof (rat_Q_canonical b bn bd Hb Hdb Eb) as Qb. rewrite Qa, Qb. clear Qa Qb.
  unfold mul_canonical. rewrite Ea, Eb. unfold undefined_pair. simpl.
  rewrite (proj2 (Z.eqb_neq ad 0)), (proj2 (Z.eqb_neq bd 0)), !andb_false_r by lia. simpl.
  destruct (cross_reduce an bd) as [an' bd'] eqn:E1.
  apply cross_reduce_spec in E1 as (X1 & Y1 & W1); [|lia].
  destruct (cross_reduce bn ad) as [bn' ad'] eqn:E2.
  apply cross_reduce_spec in E2 as (X2 & Y2 & W2); [|lia].
  destruct (canonicalise_finite (an' * bn') (ad' * bd'))
    as (n & d & -> & ? & ? & E & Hd & _); [nia..|].
  exists n, d. repeat split; try done; [nia|].
  apply pair_Q_mul; try lia.
  apply (Z.mul_reg_r _ _ (ad' * bd')); [nia|].
  transitivity (n * (ad' * bd') * (ad * bd)); [lia|]. rewrite <- E.
  transitivity ((an' * bd) * (bn' * ad) * d); [lia|]. rewrite <- X1, <- X2. lia.
Qed.

(** What a [checked_*] operation promises about the number [q]: the exact
    answer in lowest terms, or [None] because no pair with a positive
    denominator holds it. *)
Definition exact_result (o : option rational) (q : Q) : Prop :=
  match o with
  | Some c => rat_wf c /\ 0 < den c /\ Z.gcd (num c) (den c) = 1 /\ (rat_Q c == q)%Q
  | None => forall c, rat_wf c -> 0 < den c -> ~ (rat_Q c == q)%Q
  end.

#[export] Instance exact_result_proper o : Proper (Qeq ==> iff) (exact_result o).
Proof.
  intros p q E. unfold exact_result. destruct o; [by rewrite E|].
  split; intros H c Hc Hd; [rewrite <- E|rewrite E]; auto.
Qed.

Lemma rat_Q_make n d : 0 < d -> (rat_Q (Rational n d) == n # Z.to_pos d)%Q.
Proof. intros. unfold rat_Q. simpl. apply inject_div_eq; lia. Qed.

Lemma exact_from_pair n d q :
  0 < d -> Z.gcd n d = 1 -> (n # Z.to_pos d == q)%Q ->
  exact_result (exact_from_canonical n d) q.
Proof.
  intros Hd Hg <-. destruct (exact_from_canonical n d) as [r|] eqn:E; simpl.
  - apply exact_from_canonical_Some in E as (-> & ? & ?); [|done]. simpl.
    repeat split; try done; [apply in_i_spec; simpl; lia..|by apply rat_Q_make].
  - intros c Hc Hdc HQ. destruct (canonical_finite c Hc) as (n' & d' & Ec & ? & ? & ? & V); [lia|].
    pose proof (rat_Q_canonical c n' d' Hc ltac:(lia) Ec) as Qc. rewrite Qc in HQ.
    unfold Qeq in HQ. simpl in HQ. rewrite !Z2Pos.id in HQ by lia.
    destruct (lowest_terms_unique n' d' n d) as [-> ->]; try done; [lia|].
    pose proof (rat_wf_bounds c Hc) as [? ?].
    assert (Hdd : d <= den c).
    { apply Z.divide_pos_le; [done|]. apply (Z.gauss d n); [|by rewrite Z.gcd_comm].
      exists (num c). lia. }
    assert (- 2 ^ 31 <= n < 2 ^ 31) by nia.
    rewrite (proj2 (exact_from_canonical_Some n d (Rational n d) Hd)) in E; [done|].
    repeat split; lia.
Qed.

Lemma neg_value_spec a :
  rat_wf a ->
  rat_wf (neg_value a) /\ (den a <> 0 <-> den (neg_value a) <> 0) /\
  (den a <> 0 -> (rat_Q (neg_value a) == - rat_Q a)%Q).
Proof.
  intros Hw. pose proof (rat_wf_bounds a Hw) as [? ?]. unfold neg_value, i32_min, rat_Q.
  destruct (Z.eqb_spec (num a) (- 2 ^ 31)) as [En|En];
    [destruct (Z.eqb_spec (den a) (- 2 ^ 31)) as [Ed|Ed]|]; simpl.
  - rewrite En, Ed. repeat split; done.
  - split; [split; apply in_i_spec; simpl; lia|]. split; [lia|]. intros Hd.
    assert (~ (inject_Z (den a) == 0)%Q) by (unfold Qeq; simpl; lia).
    rewrite (inject_Z_opp (den a)). field. done.
  - split; [split; apply in_i_spec; simpl; lia|]. split; [lia|]. intros Hd.
    rewrite (inject_Z_opp (num a)). unfold Qdiv. ring.
Qed.

Lemma inverse_spec a :
  rat_wf a -> num a <> 0 ->
  rat_wf (inverse a) /\ den (inverse a) <> 0 /\
  (den a <> 0 -> (rat_Q (inverse a) == / rat_Q a)%Q).
Proof.
  intros [? ?] Hn. split; [by split|]. split; [done|]. intros Hd. unfold rat_Q, inverse. simpl.
  assert (~ (inject_Z (den a) == 0)%Q) by (unfold Qeq; simpl; lia).
  assert (~ (inject_Z (num a) == 0)%Q) by (unfold Qeq; simpl; lia).
  field. done.
Qed.

(** ** Setoid structure

    Equality of canonical forms is the equality [PartialEq] decides and [Hash]
    hashes. *)

Definition rat_eq (a b : rational) : Prop := canonical a = canonical b.

#[export] Instance rat_eq_equivalence : Equivalence rat_eq.
Proof. split; [by intros ?|by intros ??|intros ???; unfold rat_eq; congruence]. Qed.

#[export] Instance add_canonical_proper :
  Proper (rat_eq ==> rat_eq ==> eq) add_canonical.
Proof. intros a a' Ea b b' Eb. unfold add_canonical. by rewrite Ea, Eb. Qed.

#[export] Instance mul_canonical_proper :
  Proper (rat_eq ==> rat_eq ==> eq) mul_canonical.
Proof. intros a a' Ea b b' Eb. unfold mul_canonical. by rewrite Ea, Eb. Qed.

#[export] Instance rat_add_proper : Proper (rat_eq ==> rat_eq ==> eq) rat_add.
Proof. intros a a' Ea b b' Eb. unfold rat_add. by rewrite Ea, Eb. Qed.

#[export] Instance rat_mul_proper : Proper (rat_eq ==> rat_eq ==> eq) rat_mul.
Proof. intros a a' Ea b b' Eb. unfold rat_mul. by rewrite Ea, Eb. Qed.

#[export] Instance cmp_exact_proper : Proper (rat_eq ==> rat_eq ==> eq) cmp_exact.
Proof. intros a a' Ea b b' Eb. unfold cmp_exact. by rewrite Ea, Eb. Qed.

Lemma rat_eqb_spec a b :
  rat_wf a -> rat_wf b -> rat_eqb a b = true <-> rat_eq a b.
Proof.
  intros Ha Hb. unfold rat_eqb, rat_eq.
  pose proof (canonicalise_canon (num a) (den a) (rat_wf_den128 a Ha)) as Ca.
  pose proof (canonicalise_canon (num b) (den b) (rat_wf_den128 b Hb)) as Cb.
  fold (canonical a) in Ca. fold (canonical b) in Cb. unfold cmp_exact.
  destruct (canonical a) as [an ad], (canonical b) as [bn bd].
  destruct Ca as [[Ha' Hga]|[-> Hna]], Cb as [[Hb' Hgb]|[-> Hnb]]; unfold class.
  - rewrite (proj2 (Z.eqb_neq ad 0)), (proj2 (Z.eqb_neq bd 0)) by lia.
    cbn [negb]. rewrite Z.compare_refl.
    destruct (Z.compare_spec (an * bd) (bn * ad)) as [E|E|E].
    + split; [|done]. intros _.
      destruct (lowest_terms_unique an ad bn bd) as [-> ->]; (done || lia).
    + split; [done|]. intros [= -> ->]. lia.
    + split; [done|]. intros [= -> ->]. lia.
  - rewrite (proj2 (Z.eqb_neq ad 0)) by lia.
    destruct Hnb as [->|[->| ->]]; (split; [done|intros [= -> ->]; lia]).
  - rewrite (proj2 (Z.eqb_neq bd 0)) by lia.
    destruct Hna as [->|[->| ->]]; (split; [done|intros [= ? <-]; lia]).
  - destruct Hna as [->|[->| ->]], Hnb as [->|[->| ->]]; (split; done).
Qed.

(** ** Properties *)

(** The checked operations are exact on finite operands: [Some c] is the
    mathematical result in lowest terms with a positive denominator, and [None]
    means that no such pair of [i32] holds it. *)
Theorem checked_arith_exact a b :
  rat_wf a -> rat_wf b -> den a <> 0 -> den b <> 0 ->
  exact_result (checked_add a b) (rat_Q a + rat_Q b) /\
  exact_result (checked_sub a b) (rat_Q a - rat_Q b) /\
  exact_result (checked_mul a b) (rat_Q a * rat_Q b) /\
  (num b <> 0 -> exact_result (checked_div a b) (rat_Q a / rat_Q b)).
Proof.
  intros Ha Hb Hda Hdb.
  assert (Hadd : forall c, rat_wf c -> den c <> 0 ->
    exact_result (checked_add a c) (rat_Q a + rat_Q c)).
  { intros c Hc Hdc. destruct (add_canonical_value a c) as (n & d & E & ? & ? & ?); try done.
    unfold checked_add. rewrite E. apply exact_from_pair; (done || lia). }
  assert (Hmul : forall c, rat_wf c -> den c <> 0 ->
    exact_result (checked_mul a c) (rat_Q a * rat_Q c)).
  { intros c Hc Hdc. destruct (mul_canonical_value a c) as (n & d & E & ? & ? & ?); try done.
    unfold checked_mul. rewrite E. apply exact_from_pair; (done || lia). }
  split; [by apply Hadd|split; [|split; [by apply Hmul|]]].
  - destruct (neg_value_spec b Hb) as (Hw & Hd & HQ).
    unfold Qminus. rewrite <- (HQ Hdb). apply Hadd; tauto.
  - intros Hn. destruct (inverse_spec b Hb Hn) as (Hw & Hd & HQ).
    unfold Qdiv. rewrite <- (HQ Hdb).
    change (checked_div a b) with (checked_mul a (inverse b)). by apply Hmul.
Qed.

Lemma checked_arith_exact_witness :
  exact_result (checked_add (Rational 1 2) (Rational 1 3)) (rat_Q (Rational 1 2) + rat_Q (Rational 1 3)).
Proof.
  refine (proj1 (checked_arith_exact (Rational 1 2) (Rational 1 3) _ _ _ _));
    first [split; reflexivity | discriminate].
Defined.

(** The comparison is the numeric order on finite values, a total order on
    all of them (undefined first, then the infinities at the ends), and its
    [Equal] is equality of canonical forms, which is what is hashed. *)
Theorem cmp_exact_total_order a b c :
  rat_wf a -> rat_wf b -> rat_wf c ->
  (den a <> 0 -> den b <> 0 -> cmp_exact a b = (rat_Q a ?= rat_Q b)%Q) /\
  cmp_exact b a = CompOpp (cmp_exact a b) /\
  (rat_le a b -> rat_le b c -> rat_le a c) /\
  (cmp_exact a b = Eq <-> canonical a = canonical b).
Proof.
  intros Ha Hb Hc. split; [|split; [|split]].
  - intros Hda Hdb. rewrite cmp_exact_rank by done.
    destruct (canonical_finite a Ha Hda) as (an & ad & Ea & ? & _).
    destruct (canonical_finite b Hb Hdb) as (bn & bd & Eb & ? & _).
    rewrite (rat_Q_canonical a an ad Ha Hda Ea), (rat_Q_canonical b bn bd Hb Hdb Eb).
    unfold rank, class. rewrite Ea, Eb.
    by rewrite (proj2 (Z.eqb_neq ad 0)), (proj2 (Z.eqb_neq bd 0)) by lia.
  - by apply cmp_exact_antisym.
  - rewrite !rat_le_rank by done.
    intros [?|[? H1]] [?|[? H2]]; [left; lia..|right].
    split; [lia|]. by apply Qle_trans with (snd (rank b)).
  - rewrite <- (rat_eqb_spec a b Ha Hb). unfold rat_eqb. by destruct (cmp_exact a b).
Qed.

Lemma cmp_exact_total_order_witness :
  cmp_exact (Rational 2 4) (Rational 1 2) = Eq <-> canonical (Rational 2 4) = canonical (Rational 1 2).
Proof.
  refine (proj2 (proj2 (proj2 (cmp_exact_total_order (Rational 2 4) (Rational 1 2) ZERO _ _ _))));
    split; reflexivity.
Defined.

Lemma add_canonical_den a b n d : 
  rat_wf a -> rat_wf b -> add_canonical a b = Some (n, d) -> 0 <= d /\ canon_pair (n, d).
Proof.
  intros Ha Hb. pose proof (canonicalise_canon (num a) (den a) (rat_wf_den128 a Ha)) as Ca.
  pose proof (canonicalise_canon (num b) (den b) (rat_wf_den128 b Hb)) as Cb.
  fold (canonical a) in Ca. fold (canonical b) in Cb.
  destruct (decide (den a <> 0 /\ den b <> 0)) as [[Hda Hdb]|Hd].
  { destruct (add_canonical_value a b) as (n' & d' & -> & ? & ? & _); try done.
    intros [= <- <-]. split; [lia|]. left. lia. }
  assert (Hz : snd (canonical a) = 0 \/ snd (canonical b) = 0).
  { rewrite !canonical_den_zero by done. destruct (decide (den a = 0)); [by left|right].
    destruct (decide (den b = 0)); tauto. }
  unfold add_canonical. destruct (canonical a) as [an ad], (canonical b) as [bn bd].
  simpl in Hz. destruct (undefined_pair _ || undefined_pair _); [done|].
  destruct (Z.eqb_spec ad 0) as [->|?], (Z.eqb_spec bd 0) as [->|?]; [..|lia].
  - destruct (Z.eqb_spec an bn); [|done]. intros [= <- <-]. by split.
  - intros [= <- <-]. by split.
  - intros [= <- <-]. by split.
Qed.

Lemma mul_canonical_den a b n d :
  rat_wf a -> rat_wf b -> mul_canonical a b = Some (n, d) -> 0 <= d.
Proof.
  intros Ha Hb. destruct (decide (den a <> 0 /\ den b <> 0)) as [[Hda Hdb]|Hd].
  { destruct (mul_canonical_value a b) as (n' & d' & -> & ? & ? & _); try done.
    intros [= <- <-]. lia. }
  assert (Hz : snd (canonical a) = 0 \/ snd (canonical b) = 0).
  { rewrite !canonical_den_zero by done. destruct (decide (den a = 0)); [by left|right].
    destruct (decide (den b = 0)); tauto. }
  unfold mul_canonical. destruct (canonical a) as [an ad], (canonical b) as [bn bd].
  simpl in Hz. destruct (undefined_pair _ || undefined_pair _); [done|].
  assert (Hor : (ad =? 0) || (bd =? 0) = true).
  { apply orb_true_iff. rewrite !Z.eqb_eq. tauto. }
  rewrite Hor. destruct ((an =? 0) || (bn =? 0)); [done|]. by intros [= <- <-].
Qed.

Lemma from_canonical_checked n d c :
  exact_from_canonical n d = Some c -> from_canonical n d = c.
Proof. unfold from_canonical. by intros ->. Qed.

(** The operator forms never wrap: on any operands the result is a pair of
    [i32], and it is the checked operation's answer whenever that exists. *)
Theorem operators_agree_or_saturate a b :
  rat_wf a -> rat_wf b ->
  (rat_wf (rat_add a b) /\ forall c, checked_add a b = Some c -> rat_add a b = c) /\
  (rat_wf (rat_sub a b) /\ forall c, checked_sub a b = Some c -> rat_sub a b = c) /\
  (rat_wf (rat_mul a b) /\ forall c, checked_mul a b = Some c -> rat_mul a b = c) /\
  (rat_wf (rat_div a b) /\ forall c, checked_div a b = Some c -> rat_div a b = c).
Proof.
  intros Ha Hb.
  assert (Hundef : rat_wf UNDEFINED) by (split; reflexivity).
  assert (Hadd : forall c, rat_wf c -> rat_wf (rat_add a c) /\
    forall r, checked_add a c = Some r -> rat_add a c = r).
  { intros c Hc. unfold rat_add, checked_add.
    destruct (add_canonical a c) as [[n d]|] eqn:E; simpl; [|by split].
    apply add_canonical_den in E as [Hd _]; [|done..].
    split; [by apply from_canonical_wf|]. apply from_canonical_checked. }
  assert (Hmul : forall c, rat_wf c -> rat_wf (rat_mul a c) /\
    forall r, checked_mul a c = Some r -> rat_mul a c = r).
  { intros c Hc. unfold rat_mul, checked_mul.
    destruct (mul_canonical a c) as [[n d]|] eqn:E; simpl; [|by split].
    apply mul_canonical_den in E; [|done..].
    split; [by apply from_canonical_wf|]. apply from_canonical_checked. }
  split; [by apply Hadd|split; [|split; [by apply Hmul|]]].
  - apply (Hadd (neg_value b)). by apply neg_value_spec.
  - apply (Hmul (inverse b)). by destruct Hb.
Qed.

Lemma operators_agree_or_saturate_witness :
  rat_wf (rat_add (Rational (2 ^ 31 - 1) 1) ONE) /\
  forall c, checked_add (Rational (2 ^ 31 - 1) 1) ONE = Some c ->
    rat_add (Rational (2 ^ 31 - 1) 1) ONE = c.
Proof.
  refine (proj1 (operators_agree_or_saturate (Rational (2 ^ 31 - 1) 1) ONE _ _));
    split; reflexivity.
Defined.

(** [reduce] on a 64-bit pair: the denominator bound is honoured, nothing
    wraps, and the flag is set exactly when the value was kept. *)
Theorem reduce_flag_exact n d max r exact :
  in_i 64 n = true -> in_i 64 d = true -> d <> 0 -> reduce n d max = (r, exact) ->
  rat_wf r /\ 1 <= den r <= Z.max 1 (Z.min max i32_max) /\
  Z.gcd (num r) (den r) = 1 /\ (exact = true <-> num r * d = n * den r).
Proof.
  intros Hn%in_i_spec Hd%in_i_spec Hd0. unfold reduce.
  set (mx := Z.max 1 (Z.min max i32_max)).
  assert (Hmx : 1 <= mx <= i32_max) by (unfold mx, i32_max; lia).
  destruct (canonicalise_finite n d Hd0) as (n' & d' & -> & ? & Hg & E & _ & _); [lia|].
  rewrite (proj2 (Z.eqb_neq d' 0)) by lia. simpl.
  assert (Hsame : forall p q, 0 < q -> Z.gcd p q = 1 ->
    (p = n' /\ q = d' <-> p * d = n * q)).
  { intros p q Hq Hpq. split; [intros [-> ->]; lia|intros E'].
    apply lowest_terms_unique; try done. nia. }
  assert (Hap : forall r b, (let '(an, ad) := approx_canonical n' d' mx in
      (from_canonical an ad, (an =? n') && (ad =? d'))) = (r, b) ->
    rat_wf r /\ 1 <= den r <= mx /\ Z.gcd (num r) (den r) = 1 /\
    (b = true <-> num r * d = n * den r)).
  { intros r' b. destruct (approx_canonical n' d' mx) as [an ad] eqn:Ea.
    apply approx_canonical_budget in Ea as (? & ? & Hag); [|done|lia].
    unfold i32_max in *. rewrite from_canonical_exact by lia. intros [= <- <-]. simpl.
    rewrite <- Hsame, andb_true_iff, !Z.eqb_eq by (done || lia).
    repeat split; try tauto; try lia; apply in_i_spec; simpl; lia. }
  destruct (d' <=? mx) eqn:Ed; [|apply Hap]. apply Z.leb_le in Ed.
  destruct (exact_from_canonical n' d') as [e|] eqn:Ee; [|apply Hap].
  apply exact_from_canonical_Some in Ee as (-> & ? & ?); [|done].
  intros [= <- <-]. simpl. repeat split; try done; try lia; apply in_i_spec; simpl; lia.
Qed.

Lemma reduce_flag_exact_witness :
  reduce 6 4 1000 = (Rational 3 2, true) /\ (true = true <-> 3 * 4 = 6 * 2).
Proof.
  split; [vm_compute; reflexivity|].
  refine (proj2 (proj2 (proj2 (reduce_flag_exact 6 4 1000 (Rational 3 2) true _ _ _ _))));
    first [reflexivity | discriminate].
Defined.

(** [reduced] never changes the number: the result equals the input, is in
    range, and is the lowest-terms form whenever that form is representable. *)
Theorem reduced_same_value r :
  rat_wf r ->
  rat_wf (reduced r) /\ rat_eq (reduced r) r /\
  forall c, checked_reduced r = Some c ->
    reduced r = c /\ (num c, den c) = canonical r.
Proof.
  intros Hr. pose proof (canonicalise_canon (num r) (den r) (rat_wf_den128 r Hr)) as C.
  fold (canonical r) in C. unfold reduced, checked_reduced.
  assert (Hin : forall c, (let '(n, d) := canonical r in exact_from_canonical n d) = Some c ->
    rat_wf c /\ (num c, den c) = canonical r).
  { destruct (canonical r) as [n d]. intros c Hc. destruct C as [[? ?]|[-> Hn]].
    - apply exact_from_canonical_Some in Hc as (-> & ? & ?); [|done].
      split; [|done]. split; apply in_i_spec; simpl; lia.
    - destruct Hn as [->|[->| ->]]; injection Hc as <-; repeat split. }
  destruct (canonical r) as [n d] eqn:E.
  destruct (exact_from_canonical n d) as [c|] eqn:Ec; simpl; [|done].
  destruct (Hin c eq_refl) as [Hwc Hcc]. split; [done|]. split.
  - unfold rat_eq. rewrite E, <- Hcc. unfold canonical.
    apply canonicalise_id; [by rewrite Hcc|by apply rat_wf_den128].
  - by intros c' [= <-].
Qed.

Lemma reduced_same_value_witness : rat_eq (reduced (Rational 6 (-4))) (Rational 6 (-4)).
Proof.
  refine (proj1 (proj2 (reduced_same_value (Rational 6 (-4)) _))). split; reflexivity.
Defined.

(** Division is not compatible with the type's own equality: two zeros that
    compare equal and hash alike have opposite infinities as reciprocals, so
    [1 / x] depends on which spelling of zero [x] is. *)
Theorem div_not_congruent :
  exists x y z, rat_wf x /\ rat_wf y /\ rat_wf z /\ rat_eqb x y = true /\
    rat_eqb (rat_div z x) (rat_div z y) = false.
Proof.
  exists (Rational 0 1), (Rational 0 (-1)), ONE.
  repeat split; vm_compute; reflexivity.
Qed.
