(* ===== verification/Time.v ===== *)
(** * Time: timestamps, rounding and exact durations

    Models [crates/core/vaco-core/src/time.rs]: tick counts in an explicit time
    base, the multiply-divide-round primitive with its wide path, rescaling and
    cross-base comparison, and durations as reduced rational seconds. *)

From Stdlib Require Import ZArith Lia QArith Qfield String.
From stdpp Require Import prelude strings.
From S2P Require Import Prelude Rational.
Open Scope Z_scope.

(** ** Rounding *)

Inductive rounding : Type := RZero | RInfinity | RDown | RUp | RNearestAwayFromZero.

#[export] Instance rounding_eq_dec : EqDecision rounding.
Proof. solve_decision. Defined.

(** [Rounding::ALL]. *)
Definition ALL : list rounding := [RZero; RInfinity; RDown; RUp; RNearestAwayFromZero].

(** [Rounding::default()]. *)
Definition rounding_default : rounding := RNearestAwayFromZero.

(** [usub], [uadd], [umul] on [u128], as checked operations. *)
Abbreviation u128 := (checked_u 128).
Abbreviation i128 := (checked_i 128).

(** One iteration of the loop of [unsigned_muldiv]. *)
Definition muldiv_bit (b den addend bit : Z) (st : Z * Z) : option (Z * Z) :=
  let '(quotient, remainder) := st in
  quotient ← u128 (quotient * 2);
  '(quotient, remainder) ←
    (if den - remainder <=? remainder
     then q ← u128 (quotient + 1); Some (q, remainder - (den - remainder))
     else Some (quotient, remainder + remainder));
  if negb (Z.land (Z.shiftr b bit) 1 =? 0) then
    if den - addend <=? remainder
    then q ← u128 (quotient + 1); Some (q, remainder - (den - addend))
    else Some (quotient, remainder + addend)
  else Some (quotient, remainder).

(** [for bit in (0..n).rev()]. *)
Fixpoint muldiv_loop (n : nat) (b den addend : Z) (st : Z * Z) : option (Z * Z) :=
  match n with
  | O => Some st
  | S n => st ← muldiv_bit b den addend (Z.of_nat n) st; muldiv_loop n b den addend st
  end.

#[global] Arguments muldiv_bit : simpl never.
#[global] Arguments muldiv_loop : simpl never.

Definition unsigned_muldiv (a b den : Z) : option (Z * Z) :=
  match u128 (a * b) with
  | Some product => Some (product / den, product mod den)
  | None =>
    whole ← u128 (a / den * b);
    '(quotient, remainder) ← muldiv_loop 128 b den (a mod den) (0, 0);
    q ← u128 (whole + quotient);
    Some (q, remainder)
  end.

Definition muldiv_rnd (a b c : Z) (r : rounding) : option Z :=
  if c =? 0 then None
  else
    let negative := xorb (xorb (a <? 0) (b <? 0)) (c <? 0) in
    let denominator := Z.abs c in
    '(quotient, remainder) ← unsigned_muldiv (Z.abs a) (Z.abs b) denominator;
    quotient ←
      (if negb (remainder =? 0) then
         let away :=
           match r with
           | RZero => false
           | RInfinity => true
           | RDown => negative
           | RUp => negb negative
           | RNearestAwayFromZero => denominator - remainder <=? remainder
           end in
         if away then u128 (quotient + 1) else Some quotient
       else Some quotient);
    if negative && (quotient =? 2 ^ 127) then Some (- 2 ^ 127)
    else
      result ← i128 quotient;
      Some (if negative then - result else result).

Definition rescale_rnd (a b c : Z) (r : rounding) : option Z :=
  v ← muldiv_rnd a b c r; checked_i 64 v.

Definition clamp_i64 (v : Z) : Z := Z.max (- 2 ^ 63) (Z.min v (2 ^ 63 - 1)).

(** ** Timestamps *)

(** [Timestamp(Option<i64>)]. *)
Abbreviation timestamp := (option Z).

Definition TS_NONE : timestamp := None.
Definition TS_ZERO : timestamp := Some 0.

Definition offset (t : timestamp) (delta : Z) : timestamp :=
  match t with
  | Some t => Some (sat_i 64 (t + delta))
  | None => None
  end.

Definition finite_base (tb : rational) : option (Z * Z) :=
  if (den tb =? 0) || (num tb =? 0) then None
  else if den tb <? 0 then Some (- num tb, - den tb) else Some (num tb, den tb).

Definition rescale_factors (from to : rational) : option (Z * Z) :=
  '(fnum, fden) ← finite_base from;
  '(tnum, tden) ← finite_base to;
  Some (fnum * tden, fden * tnum).

Definition rescale (t : timestamp) (from to : rational) (r : rounding) : timestamp :=
  match t with
  | None => None
  | Some ticks =>
    match rescale_factors from to with
    | None => None
    | Some (b, c) =>
      match muldiv_rnd ticks b c r with
      | Some v => Some (clamp_i64 v)
      | None => None
      end
    end
  end.

Definition checked_rescale (t : timestamp) (from to : rational) (r : rounding)
    : option timestamp :=
  ticks ← t;
  '(b, c) ← rescale_factors from to;
  v ← muldiv_rnd ticks b c r;
  v ← checked_i 64 v;
  Some (Some v).

Definition ts_compare (a : timestamp) (abase : rational) (b : timestamp) (bbase : rational)
    : option comparison :=
  a ← a; b ← b;
  '(an, ad) ← finite_base abase;
  '(bn, bd) ← finite_base bbase;
  Some (a * an * bd ?= b * bn * ad).

(** ** Durations *)

Record duration : Type := Duration { numerator : Z; denominator : Z }.

#[export] Instance duration_eq_dec : EqDecision duration.
Proof. solve_decision. Defined.

Definition DUR_ZERO : duration := Duration 0 1.

(** [gcd_i128] on non-negative operands, where [%] is the floor remainder. *)
Definition gcd_i128 (a b : Z) : Z :=
  let a := gcd_loop 257 a b in if 1 <? a then a else 1.

Definition from_ratio (n d : Z) : duration :=
  if n =? 0 then DUR_ZERO
  else
    let g := gcd_i128 (Z.abs (Z.rem n d)) d in
    Duration (Z.quot n g) (Z.quot d g).

Definition from_micros (micros : Z) : duration := from_ratio micros 1000000.

(** The scale [10 ^ n], folding [checked_mul]. *)
Fixpoint decimal_scale (n : nat) (scale : Z) : option Z :=
  match n with
  | O => Some scale
  | S n => s ← i128 (scale * 10); decimal_scale n s
  end.

Definition parse_or_zero (s : rstr) : option Z :=
  match s with
  | [] => Some 0
  | _ => parse_digits_from 128 0 s
  end.

Definition from_decimal_seconds (value : rstr) : option duration :=
  let '(negative, value) :=
    match strip_prefix 45 value with
    | Some rest => (true, rest)
    | None => (false, value)
    end in
  let '(whole, fraction) := default (value, []) (split_once 46 value) in
  if (bool_decide (whole = []) && bool_decide (fraction = []))
     || negb (forallb is_ascii_digit whole) || negb (forallb is_ascii_digit fraction)
  then None
  else
    whole ← parse_or_zero whole;
    let fraction_digits := length fraction in
    fraction ← parse_or_zero fraction;
    scale ← decimal_scale fraction_digits 1;
    n ← i128 (whole * scale);
    n ← i128 (n + fraction);
    n ← (if negative : bool then i128 (- n) else Some n);
    Some (from_ratio n scale).

Definition from_ticks (ticks : Z) (base : rational) : option duration :=
  '(n, d) ← finite_base base; Some (from_ratio (ticks * n) d).

Definition from_fraction (n d : Z) : option duration :=
  if 0 <? d then Some (from_ratio n d) else None.

Definition as_ratio (d : duration) : Z * Z := (numerator d, denominator d).

Definition as_micros (d : duration) : Z :=
  match muldiv_rnd (numerator d) 1000000 (denominator d) rounding_default with
  | Some v => clamp_i64 v
  | None => if numerator d <? 0 then - 2 ^ 63 else 2 ^ 63 - 1
  end.

Definition checked_micros (d : duration) (r : rounding) : option Z :=
  micros ← muldiv_rnd (numerator d) 1000000 (denominator d) r; checked_i 64 micros.

Definition to_ticks_rounding (d : duration) (base : rational) (r : rounding) : option Z :=
  '(n, b) ← finite_base base;
  c ← i128 (denominator d * n);
  ticks ← muldiv_rnd (numerator d) b c r;
  checked_i 64 ticks.

Definition to_ticks (d : duration) (base : rational) : option Z :=
  to_ticks_rounding d base rounding_default.

Definition dur_to_duration (d : duration) (r : rounding) : option duration :=
  micros ← checked_micros d r; Some (from_micros micros).

(** [Timestamp::to_duration]. *)
Definition to_duration (t : timestamp) (base : rational) : option duration :=
  ticks ← t; from_ticks ticks base.

Definition checked_combine (a b : duration) (subtract : bool) : option duration :=
  let gcd := gcd_i128 (denominator a) (denominator b) in
  lhs ← i128 (numerator a * Z.quot (denominator b) gcd);
  rhs ← i128 (numerator b * Z.quot (denominator a) gcd);
  n ← (if subtract then i128 (lhs - rhs) else i128 (lhs + rhs));
  if n =? 0 then Some DUR_ZERO
  else
    let reduction := gcd_i128 (Z.abs (Z.rem n gcd)) gcd in
    d ← i128 (Z.quot (denominator a) gcd * Z.quot (denominator b) reduction);
    Some (from_ratio (Z.quot n reduction) d).

Definition dur_checked_add (a b : duration) : option duration := checked_combine a b false.
Definition dur_checked_sub (a b : duration) : option duration := checked_combine a b true.

(** The loop of [cmp_nonnegative_ratios], one unit of fuel per iteration. *)
Fixpoint cmp_ratios_loop (fuel : nat) (a b c d : Z) (reverse : bool) : option comparison :=
  match fuel with
  | O => None
  | S f =>
    let left := a / b in
    let right := c / d in
    if negb (left =? right) then
      Some (if reverse then right ?= left else left ?= right)
    else
      let left_rem := a mod b in
      let right_rem := c mod d in
      match left_rem =? 0, right_rem =? 0 with
      | true, true => Some Eq
      | true, false => Some (if reverse then Gt else Lt)
      | false, true => Some (if reverse then Lt else Gt)
      | false, false => cmp_ratios_loop f b left_rem d right_rem (negb reverse)
      end
  end.

(** [None] is never the answer: see [cmp_ratios_loop_spec]. *)
Definition cmp_nonnegative_ratios (a b c d : Z) : option comparison :=
  cmp_ratios_loop 257 a b c d false.

(** [Ord::cmp]; the outer [None] stands for the loop running out of fuel. *)
Definition dur_cmp (a b : duration) : option comparison :=
  match Z.sgn (numerator a) ?= Z.sgn (numerator b) with
  | Eq =>
    if numerator a =? 0 then Some Eq
    else if 0 <? numerator a then
      cmp_nonnegative_ratios (Z.abs (numerator a)) (denominator a)
        (Z.abs (numerator b)) (denominator b)
    else
      cmp_nonnegative_ratios (Z.abs (numerator b)) (denominator b)
        (Z.abs (numerator a)) (denominator a)
  | c => Some c
  end.

Example decimal_ex : from_decimal_seconds (str "-1.250") = Some (Duration (-5) 4).
Proof. vm_compute. reflexivity. Qed.
Example wide_ex : muldiv_rnd (2 ^ 126) (2 ^ 100 + 1) (- 2 ^ 100) RNearestAwayFromZero
  = Some (- (2 ^ 126 + 2 ^ 26)).
Proof. vm_compute. reflexivity. Qed.

(** ** Multiply, divide, round *)

(** The quotient [p / c] rounded as asked, on exact integers. *)
Definition round_div (r : rounding) (p c : Z) : Z :=
  match r with
  | RZero => Z.quot p c
  | RDown => p / c
  | RUp => - (- p / c)
  | RInfinity => Z.sgn p * Z.sgn c * - (- Z.abs p / Z.abs c)
  | RNearestAwayFromZero => Z.sgn p * Z.sgn c * ((2 * Z.abs p + Z.abs c) / (2 * Z.abs c))
  end.

(** The loop invariant of the wide path: [quotient] and [remainder] divide the
    product by the bits of [b] consumed so far. *)
Lemma muldiv_bit_spec b den addend bit q r :
  0 <= bit -> 0 <= b < 2 ^ 128 -> 0 < den -> 0 <= addend < den -> 0 <= r < den ->
  addend * Z.shiftr b (bit + 1) = q * den + r ->
  exists q' r', muldiv_bit b den addend bit (q, r) = Some (q', r') /\
    0 <= r' < den /\ addend * Z.shiftr b bit = q' * den + r'.
Proof.
  intros Hbit Hb Hden Hadd Hr Hinv.
  set (hi := Z.shiftr b (bit + 1)) in *. set (lo := Z.shiftr b bit).
  assert (Hlo : lo = 2 * hi + Z.land lo 1).
  { unfold hi, lo. rewrite <- Z.shiftr_shiftr by lia.
    change (Z.land (Z.shiftr b bit) 1) with (Z.land (Z.shiftr b bit) (Z.ones 1)).
    rewrite Z.land_ones, (Z.shiftr_div_pow2 (Z.shiftr b bit)) by lia.
    apply (Z.div_mod (Z.shiftr b bit) 2). lia. }
  assert (Hbit1 : Z.land lo 1 = 0 \/ Z.land lo 1 = 1).
  { change (Z.land lo 1) with (Z.land lo (Z.ones 1)). rewrite Z.land_ones by lia.
    pose proof (Z.mod_pos_bound lo (2 ^ 1)). lia. }
  assert (Hlob : 0 <= lo < 2 ^ 128).
  { unfold lo. rewrite Z.shiftr_div_pow2 by lia. split; [apply Z.div_pos; lia|].
    apply Z.div_lt_upper_bound; [lia|]. pose proof (Z.pow_pos_nonneg 2 bit). nia. }
  assert (Hq : 0 <= q <= hi) by nia.
  unfold muldiv_bit, checked_u. rewrite (proj2 (in_u_spec 128 (q * 2))) by lia. simpl.
  destruct (Z.leb_spec (den - r) r) as [Hd|Hd].
  - rewrite (proj2 (in_u_spec 128 (q * 2 + 1))) by nia. simpl.
    fold lo. destruct Hbit1 as [E|E]; rewrite E; simpl.
    { do 2 eexists. split; [done|]. nia. }
    destruct (Z.leb_spec (den - addend) (r - (den - r))).
    + rewrite (proj2 (in_u_spec 128 (q * 2 + 1 + 1))) by nia.
      simpl. do 2 eexists. split; [done|]. nia.
    + do 2 eexists. split; [done|]. nia.
  - simpl. fold lo. destruct Hbit1 as [E|E]; rewrite E; simpl.
    { do 2 eexists. split; [done|]. nia. }
    destruct (Z.leb_spec (den - addend) (r + r)).
    + rewrite (proj2 (in_u_spec 128 (q * 2 + 1))) by nia.
      simpl. do 2 eexists. split; [done|]. nia.
    + do 2 eexists. split; [done|]. nia.
Qed.

Lemma muldiv_loop_spec (n : nat) : forall b den addend q r,
  0 <= b < 2 ^ 128 -> 0 < den -> 0 <= addend < den -> 0 <= r < den ->
  addend * Z.shiftr b (Z.of_nat n) = q * den + r ->
  exists q' r', muldiv_loop n b den addend (q, r) = Some (q', r') /\
    0 <= r' < den /\ addend * b = q' * den + r'.
Proof.
  induction n as [|n IH]; intros b den addend q r Hb Hden Hadd Hr Hinv.
  - rewrite Z.shiftr_0_r in Hinv. by exists q, r.
  - rewrite Nat2Z.inj_succ, <- Z.add_1_r in Hinv.
    destruct (muldiv_bit_spec b den addend (Z.of_nat n) q r)
      as (q1 & r1 & E & ? & ?); try (done || lia).
    change (muldiv_loop (S n) b den addend (q, r)) with
      (st ← muldiv_bit b den addend (Z.of_nat n) (q, r); muldiv_loop n b den addend st).
    rewrite E. simpl. by apply IH.
Qed.

(** Both paths compute the exact quotient and remainder; the only failure is a
    quotient that is not a [u128]. *)
Lemma unsigned_muldiv_spec a b den :
  0 <= a < 2 ^ 128 -> 0 <= b < 2 ^ 128 -> 0 < den ->
  unsigned_muldiv a b den =
    q ← u128 (a * b / den); Some (q, (a * b) mod den).
Proof.
  intros Ha Hb Hden. unfold unsigned_muldiv, checked_u.
  pose proof (Z.div_pos (a * b) den).
  destruct (in_u 128 (a * b)) eqn:E.
  { breflect. rewrite (proj2 (in_u_spec 128 (a * b / den))); [done|].
    split; [nia|]. apply Z.div_lt_upper_bound; nia. }
  pose proof (Z.div_mod a den). pose proof (Z.mod_pos_bound a den).
  pose proof (Z.div_pos a den).
  destruct (muldiv_loop_spec 128 b den (a mod den) 0 0) as (q & r & El & Hr & Hq);
    try lia.
  { change (Z.of_nat 128) with 128. rewrite Z.shiftr_div_pow2, Z.div_small by lia. lia. }
  assert (Hdiv : a * b / den = a / den * b + q /\ (a * b) mod den = r).
  { assert (Hab : a * b = den * (a / den * b + q) + r) by nia.
    split; [symmetry; apply (Z.div_unique_pos _ _ _ r)|symmetry; eapply Z.mod_unique_pos];
      (done || lia). }
  destruct Hdiv as [-> ->]. assert (0 <= q) by nia. assert (0 <= a / den * b) by nia.
  destruct (in_u 128 (a / den * b)) eqn:Ew.
  - simpl. rewrite El. simpl. done.
  - breflect. simpl. destruct (in_u 128 (a / den * b + q)) eqn:Es; [|done].
    breflect. lia.
Qed.

(** The magnitude the code computes from quotient and remainder. *)
Definition round_up_mag (r : rounding) (negative : bool) (rem den : Z) : bool :=
  match r with
  | RZero => false
  | RInfinity => true
  | RDown => negative
  | RUp => negb negative
  | RNearestAwayFromZero => den - rem <=? rem
  end.

Lemma ceil_div P C : 0 < C -> - (- P / C) = P / C + (if P mod C =? 0 then 0 else 1).
Proof.
  intros HC. pose proof (Z.div_mod P C). pose proof (Z.mod_pos_bound P C).
  destruct (Z.eqb_spec (P mod C) 0) as [E|E].
  - rewrite (Z.div_opp_l_z P C) by lia. lia.
  - rewrite (Z.div_opp_l_nz P C) by lia. lia.
Qed.

Lemma nearest_div P C :
  0 < C -> (2 * P + C) / (2 * C) = P / C + (if C - P mod C <=? P mod C then 1 else 0).
Proof.
  intros HC. pose proof (Z.div_mod P C). pose proof (Z.mod_pos_bound P C).
  destruct (Z.leb_spec (C - P mod C) (P mod C)); symmetry.
  - apply (Z.div_unique_pos _ _ _ (2 * (P mod C) - C)); lia.
  - apply (Z.div_unique_pos _ _ _ (2 * (P mod C) + C)); lia.
Qed.

(** The rounded magnitude: the quotient, one more when the code rounds away. *)
Definition round_mag (r : rounding) (negative : bool) (P C : Z) : Z :=
  P / C + (if negb (P mod C =? 0) && round_up_mag r negative (P mod C) C then 1 else 0).

Lemma round_div_opp_opp r p c : c <> 0 -> round_div r (- p) (- c) = round_div r p c.
Proof.
  intros Hc. destruct r; simpl.
  - by rewrite Z.quot_opp_opp.
  - rewrite !Z.sgn_opp, !Z.abs_opp. lia.
  - by rewrite Z.div_opp_opp.
  - by rewrite Z.div_opp_opp.
  - rewrite !Z.sgn_opp, !Z.abs_opp. lia.
Qed.

Lemma round_mag_0 r negative C : 0 < C -> round_mag r negative 0 C = 0.
Proof. intros. unfold round_mag. by rewrite Zmod_0_l, Zdiv_0_l. Qed.

Lemma round_div_pos r P C : 0 <= P -> 0 < C -> round_div r P C = round_mag r false P C.
Proof.
  intros HP HC. destruct (decide (P = 0)) as [->|HP0].
  { rewrite round_mag_0 by done. destruct r; simpl; rewrite ?Zdiv_0_l; done. }
  pose proof (ceil_div P C HC) as Hceil. pose proof (nearest_div P C HC) as Hnear.
  pose proof (Z.mod_pos_bound P C HC).
  unfold round_mag, round_div, round_up_mag. destruct r; rewrite ?Z.abs_eq, ?(Z.sgn_pos P), ?(Z.sgn_pos C) by lia;
  destruct (Z.eqb_spec (P mod C) 0); simpl; rewrite ?Z.quot_div_nonneg by lia; try lia;
  destruct (Z.leb_spec (C - P mod C) (P mod C)); lia.
Qed.

Lemma round_div_neg r P C : 0 <= P -> 0 < C -> round_div r (- P) C = - round_mag r true P C.
Proof.
  intros HP HC. destruct (decide (P = 0)) as [->|HP0].
  { rewrite round_mag_0 by done. change (- 0) with 0.
    rewrite round_div_pos, round_mag_0; done. }
  pose proof (ceil_div P C HC) as Hceil. pose proof (nearest_div P C HC) as Hnear.
  pose proof (Z.mod_pos_bound P C HC).
  unfold round_mag, round_div, round_up_mag. destruct r;
  rewrite ?Z.abs_opp, ?Z.sgn_opp, ?Z.opp_involutive, ?Z.abs_eq, ?(Z.sgn_pos P), ?(Z.sgn_pos C),
    ?Z.quot_opp_l by lia;
  destruct (Z.eqb_spec (P mod C) 0); simpl; rewrite ?Z.quot_div_nonneg by lia; try lia;
  destruct (Z.leb_spec (C - P mod C) (P mod C)); lia.
Qed.

(** [round_div] through sign and magnitude. *)
Lemma round_div_mag r p c negative :
  c <> 0 -> (p = 0 \/ negative = xorb (p <? 0) (c <? 0)) ->
  round_div r p c = (if negative then -1 else 1) * round_mag r negative (Z.abs p) (Z.abs c).
Proof.
  intros Hc Hneg.
  assert (Hpos : forall p c, 0 < c -> (p = 0 \/ negative = (p <? 0)) ->
    round_div r p c = (if negative then -1 else 1) * round_mag r negative (Z.abs p) c).
  { clear. intros p c Hc [->|Hn].
    - rewrite round_div_pos, !round_mag_0 by lia. lia.
    - subst negative. destruct (Z.ltb_spec p 0).
      + rewrite <- (Z.opp_involutive p) at 1. rewrite round_div_neg by lia.
        rewrite Z.abs_neq by lia. lia.
      + rewrite round_div_pos, Z.abs_eq by lia. lia. }
  destruct (Z.ltb_spec c 0) as [Hlt|Hge].
  - rewrite <- round_div_opp_opp, Hpos, Z.abs_opp, (Z.abs_neq c); try lia.
    destruct Hneg as [->|Hneg]; [by left|].
    destruct (Z.eq_dec p 0) as [->|]; [by left|right]. subst negative.
    destruct (Z.ltb_spec p 0), (Z.ltb_spec (- p) 0); simpl; (done || lia).
  - rewrite Hpos; [by rewrite (Z.abs_eq c) by lia|lia|]. destruct Hneg as [->|Hneg]; [by left|right].
    by rewrite xorb_false_r in Hneg.
Qed.

(** The last step of [muldiv_rnd]: the sign is put back and the result narrowed,
    with [i128::MIN] handled on its own. *)
Lemma signed_narrow (negative : bool) q :
  0 <= q ->
  (if negative && (q =? 2 ^ 127) then Some (- 2 ^ 127)
   else result ← i128 q; Some (if negative then - result else result)) =
  i128 ((if negative then -1 else 1) * q).
Proof.
  intros Hq. unfold checked_i. destruct negative; simpl andb.
  - destruct (Z.eqb_spec q (2 ^ 127)) as [->|]; [done|].
    destruct (in_i 128 q) eqn:E; simpl; destruct (in_i 128 (-1 * q)) eqn:E'; breflect;
      repeat f_equal; lia.
  - rewrite Z.mul_1_l. by destruct (in_i 128 q).
Qed.

(** The primitive is the exact rounded quotient, refused exactly when it does
    not fit in an [i128]. *)
Lemma muldiv_rnd_exact a b c r :
  in_i 128 a = true -> in_i 128 b = true -> in_i 128 c = true ->
  muldiv_rnd a b c r = if c =? 0 then None else checked_i 128 (round_div r (a * b) c).
Proof.
  intros Ha%in_i_spec Hb%in_i_spec Hc%in_i_spec. unfold muldiv_rnd.
  destruct (Z.eqb_spec c 0) as [|Hc0]; [done|].
  set (negative := xorb (xorb (a <? 0) (b <? 0)) (c <? 0)).
  rewrite (round_div_mag r (a * b) c negative Hc0), Z.abs_mul.
  2: { unfold negative. destruct (Z.ltb_spec a 0), (Z.ltb_spec b 0), (Z.ltb_spec (a * b) 0);
       simpl; try (right; done); left; nia. }
  rewrite unsigned_muldiv_spec by lia. unfold round_mag.
  set (P := Z.abs a * Z.abs b). set (C := Z.abs c).
  assert (HP : 0 <= P) by (unfold P; lia). assert (HC : 0 < C) by (unfold C; lia).
  pose proof (Z.div_pos P C HP HC) as Hq. clearbody negative P C. clear - Hq.
  change (match r with RZero => false | RInfinity => true | RDown => negative
    | RUp => negb negative | RNearestAwayFromZero => C - P mod C <=? P mod C end)
    with (round_up_mag r negative (P mod C) C).
  unfold checked_u. destruct (in_u 128 (P / C)) eqn:Eq; simpl.
  - breflect. destruct (P mod C =? 0); simpl; [rewrite Z.add_0_r; by apply signed_narrow|].
    change (match r with RZero => false | RInfinity => true | RDown => negative
      | RUp => negb negative | RNearestAwayFromZero => C - P mod C <=? P mod C end)
      with (round_up_mag r negative (P mod C) C).
    destruct (round_up_mag _ _ _ _); simpl; [|rewrite Z.add_0_r; by apply signed_narrow].
    destruct (in_u 128 (P / C + 1)) eqn:E1; simpl; [apply signed_narrow; lia|].
    symmetry. apply checked_i_None. breflect. destruct negative; lia.
  - breflect. symmetry. apply checked_i_None. destruct negative, (_ && _); lia.
Qed.

(** ** Facts about the rounded quotient *)

Lemma round_div_exact r k c : c <> 0 -> round_div r (k * c) c = k.
Proof.
  intros Hc. rewrite (round_div_mag r (k * c) c (xorb (k * c <? 0) (c <? 0)) Hc) by auto.
  unfold round_mag. rewrite Z.abs_mul, Z.mod_mul, Z.div_mul by lia. simpl. rewrite Z.add_0_r.
  destruct (Z.ltb_spec (k * c) 0), (Z.ltb_spec c 0); simpl; nia.
Qed.

Lemma round_div_mono r p q c : 0 < c -> p <= q -> round_div r p c <= round_div r q c.
Proof.
  intros Hc Hpq.
  assert (Hmag : forall n P Q, 0 <= P <= Q -> round_mag r n P c <= round_mag r n Q c).
  { intros n P Q HPQ. unfold round_mag, round_up_mag.
    pose proof (Z.div_le_mono P Q c Hc ltac:(lia)).
    pose proof (Z.div_mod P c). pose proof (Z.mod_pos_bound P c Hc).
    pose proof (Z.div_mod Q c). pose proof (Z.mod_pos_bound Q c Hc).
    destruct (Z.eqb_spec (P mod c) 0), (Z.eqb_spec (Q mod c) 0), r, n; simpl; zbool; nia. }
  assert (Hnn : forall n P, 0 <= P -> 0 <= round_mag r n P c).
  { intros n P HP. rewrite <- (round_mag_0 r n c Hc). apply Hmag. lia. }
  destruct (Z.ltb_spec p 0), (Z.ltb_spec q 0).
  - rewrite <- (Z.opp_involutive p), <- (Z.opp_involutive q), !round_div_neg by lia.
    pose proof (Hmag true (- q) (- p)). lia.
  - rewrite <- (Z.opp_involutive p), round_div_neg, round_div_pos by lia.
    pose proof (Hnn true (- p)). pose proof (Hnn false q). lia.
  - lia.
  - rewrite !round_div_pos by lia. apply Hmag. lia.
Qed.

(** Each mode's error, in units of the divisor. *)
Lemma round_div_error r p c :
  0 < c ->
  let v := round_div r p c in
  Z.abs (v * c - p) < c /\
  match r with
  | RZero => Z.abs (v * c) <= Z.abs p
  | RInfinity => Z.abs p <= Z.abs (v * c)
  | RDown => v * c <= p
  | RUp => p <= v * c
  | RNearestAwayFromZero => 2 * Z.abs (v * c - p) <= c
  end.
Proof.
  intros Hc v. subst v.
  assert (Hmag : forall n P, 0 <= P -> exists e, round_mag r n P c * c = P + e /\ (- c < e < c /\ 0 <= P + e) /\
    match r with
    | RZero => e <= 0
    | RInfinity => 0 <= e
    | RDown => if n then 0 <= e else e <= 0
    | RUp => if n then e <= 0 else 0 <= e
    | RNearestAwayFromZero => 2 * Z.abs e <= c
    end).
  { intros n P HP. exists (round_mag r n P c * c - P). unfold round_mag, round_up_mag.
    pose proof (Z.div_mod P c). pose proof (Z.mod_pos_bound P c Hc).
    pose proof (Z.div_pos P c HP Hc).
    destruct (Z.eqb_spec (P mod c) 0), r, n; simpl; zbool; nia. }
  destruct (Z.ltb_spec p 0).
  - assert (exists P, 0 < P /\ p = - P) as (P & HP & ->) by (exists (- p); lia).
    rewrite round_div_neg by lia.
    destruct (Hmag true P) as (e & He & Hb & Hr); [lia|].
    rewrite !Z.mul_opp_l, He. destruct r; split; lia.
  - rewrite round_div_pos by lia.
    destruct (Hmag false p) as (e & He & Hb & Hr); [lia|].
    rewrite !He. destruct r; split; lia.
Qed.

(** ** Bases *)

(** A base that names a tick length. *)
Definition usable (tb : rational) : Prop := rat_wf tb /\ den tb <> 0 /\ num tb <> 0.

Lemma finite_base_usable tb :
  usable tb ->
  exists n d, finite_base tb = Some (n, d) /\ 0 < d <= 2 ^ 31 /\ n <> 0 /\
    Z.abs n <= 2 ^ 31 /\ (rat_Q tb == n # Z.to_pos d)%Q.
Proof.
  intros (Hw & Hd & Hn). pose proof (rat_wf_bounds tb Hw) as [? ?]. unfold finite_base.
  rewrite (proj2 (Z.eqb_neq _ _) Hd), (proj2 (Z.eqb_neq _ _) Hn). simpl.
  destruct (Z.ltb_spec (den tb) 0); do 2 eexists;
    (split; [reflexivity|]); repeat split; try lia; apply inject_div_eq; lia.
Qed.

Lemma finite_base_None tb : finite_base tb = None <-> den tb = 0 \/ num tb = 0.
Proof.
  unfold finite_base. destruct (Z.eqb_spec (den tb) 0), (Z.eqb_spec (num tb) 0); simpl;
    try tauto. destruct (den tb <? 0); split; (done || tauto).
Qed.

Lemma rescale_factors_usable from to :
  usable from -> usable to ->
  exists b c, rescale_factors from to = Some (b, c) /\ b <> 0 /\ c <> 0 /\
    Z.abs b <= 2 ^ 62 /\ Z.abs c <= 2 ^ 62.
Proof.
  intros Hf Ht.
  destruct (finite_base_usable from Hf) as (fn & fd & Ef & ? & ? & ? & _).
  destruct (finite_base_usable to Ht) as (tn & td & Et & ? & ? & ? & _).
  unfold rescale_factors. rewrite Ef, Et. simpl.
  do 2 eexists. split; [reflexivity|]. repeat split; try nia.
Qed.

(** On any 64-bit tick count and usable bases the two rescaling functions are
    the exact rounded quotient, narrowed by clamping or by refusing. *)
Lemma rescale_round_div t from to r b c :
  in_i 64 t = true -> usable from -> usable to -> rescale_factors from to = Some (b, c) ->
  rescale (Some t) from to r = Some (clamp_i64 (round_div r (t * b) c)) /\
  checked_rescale (Some t) from to r =
    (v ← checked_i 64 (round_div r (t * b) c); Some (Some v)).
Proof.
  intros Ht Hf Hto E. destruct (rescale_factors_usable from to Hf Hto)
    as (b' & c' & E' & ? & ? & ? & ?). rewrite E in E'. simplify_eq.
  unfold rescale, checked_rescale. simpl. rewrite E. simpl.
  apply in_i_spec in Ht. rewrite muldiv_rnd_exact by (apply in_i_spec; simpl in *; lia).
  rewrite (proj2 (Z.eqb_neq c' 0)) by done.
  enough (Hv : - 2 ^ (128 - 1) <= round_div r (t * b') c' < 2 ^ (128 - 1)).
  { by rewrite (proj2 (checked_i_Some 128 _ _) (conj eq_refl Hv)). }
  assert (Hb : exists p q, 0 < q /\ round_div r (t * b') c' = round_div r p q /\
    Z.abs p <= 2 ^ 125 /\ q <= 2 ^ 62).
  { destruct (Z.ltb_spec c' 0).
    - exists (- (t * b')), (- c'). rewrite round_div_opp_opp by done. simpl in *. repeat split; nia.
    - exists (t * b'), c'. simpl in *. repeat split; nia. }
  destruct Hb as (p & q & Hq & -> & Hp & Hq'). simpl in Ht.
  destruct (round_div_error r p q Hq) as [He _]. set (v := round_div r p q) in *. nia.
Qed.

Lemma clamp_i64_id v : in_i 64 v = true -> clamp_i64 v = v.
Proof. intros H%in_i_spec. unfold clamp_i64. simpl in H. lia. Qed.

Lemma clamp_i64_mono u v : u <= v -> clamp_i64 u <= clamp_i64 v.
Proof. unfold clamp_i64. lia. Qed.

(** A base with a positive tick length, the kind every real stream has. *)
Definition positive_base (tb : rational) : Prop := rat_wf tb /\ 0 < num tb * den tb.

Lemma positive_base_usable tb : positive_base tb -> usable tb.
Proof. intros [Hw Hp]. split; [done|]. split; intros E; rewrite E in Hp; lia. Qed.

Lemma finite_base_positive tb :
  positive_base tb ->
  exists n d, finite_base tb = Some (n, d) /\ 0 < n <= 2 ^ 31 /\ 0 < d <= 2 ^ 31.
Proof.
  intros Hp. destruct (finite_base_usable tb (positive_base_usable tb Hp))
    as (n & d & E & ? & ? & ? & _). exists n, d. split; [done|].
  destruct Hp as [_ Hp]. unfold finite_base in E. destruct (_ || _); [done|].
  destruct (Z.ltb_spec (den tb) 0); simplify_eq; split; nia.
Qed.

Lemma rescale_factors_positive from to :
  positive_base from -> positive_base to ->
  exists b c, rescale_factors from to = Some (b, c) /\ rescale_factors to from = Some (c, b) /\
    0 < b <= 2 ^ 62 /\ 0 < c <= 2 ^ 62 /\ ((rat_Q to <= rat_Q from)%Q <-> c <= b).
Proof.
  intros Hf Ht.
  destruct (finite_base_positive from Hf) as (fn & fd & Ef & ? & ?).
  destruct (finite_base_positive to Ht) as (tn & td & Et & ? & ?).
  destruct (finite_base_usable from (positive_base_usable from Hf))
    as (fn' & fd' & Ef' & _ & _ & _ & Qf). rewrite Ef in Ef'. simplify_eq.
  destruct (finite_base_usable to (positive_base_usable to Ht))
    as (tn' & td' & Et' & _ & _ & _ & Qt). rewrite Et in Et'. simplify_eq.
  unfold rescale_factors. rewrite Ef, Et. simpl.
  exists (fn' * td'), (fd' * tn').
  assert (HQ : (rat_Q to <= rat_Q from <->
    (tn' # Z.to_pos td') <= (fn' # Z.to_pos fd'))%Q) by (by rewrite Qf, Qt).
  rewrite HQ. unfold Qle. simpl. rewrite !Z2Pos.id by lia.
  repeat split; try nia. do 2 f_equal; lia.
Qed.

(** ** Properties of rescaling *)

(** The multiply-divide-round primitive is exact: for every [i128] operands
    and every mode, including products far wider than 128 bits, it returns the
    rounded mathematical quotient, and fails exactly on a zero divisor or a
    quotient that is not an [i128]. *)
Theorem muldiv_rnd_correct a b c r :
  in_i 128 a = true -> in_i 128 b = true -> in_i 128 c = true ->
  muldiv_rnd a b c r =
    if c =? 0 then None
    else if in_i 128 (round_div r (a * b) c) then Some (round_div r (a * b) c) else None.
Proof. apply muldiv_rnd_exact. Qed.

Lemma muldiv_rnd_correct_witness :
  muldiv_rnd (2 ^ 126) (2 ^ 126) (3 * 2 ^ 125) RNearestAwayFromZero =
    Some ((2 ^ 128 + 3) / 6).
Proof.
  rewrite (muldiv_rnd_correct (2 ^ 126) (2 ^ 126) (3 * 2 ^ 125)) by reflexivity.
  vm_compute. reflexivity.
Defined.



(** Converting to a base at least as fine and back is the identity under
    round-to-nearest, provided the first conversion did not saturate. *)
Theorem rescale_finer_roundtrip t u from to :
  in_i 64 t = true -> positive_base from -> positive_base to ->
  (rat_Q to <= rat_Q from)%Q ->
  checked_rescale (Some t) from to rounding_default = Some (Some u) ->
  rescale (Some u) to from rounding_default = Some t.
Proof.
  intros Ht Hf Hto Hle Hu.
  destruct (rescale_factors_positive from to Hf Hto) as (b & c & E & E' & Hb & Hc & Hbc).
  apply Hbc in Hle.
  destruct (rescale_round_div t from to rounding_default b c) as [_ Et];
    auto using positive_base_usable.
  rewrite Et in Hu. destruct (checked_i 64 _) as [v|] eqn:Ev; simpl in Hu; [|done].
  simplify_eq. apply checked_i_Some in Ev as [-> Hv].
  destruct (rescale_round_div (round_div rounding_default (t * b) c) to from rounding_default c b)
    as [-> _]; auto using positive_base_usable; [by apply in_i_spec|].
  f_equal. rewrite <- (clamp_i64_id t Ht) at 2. f_equal. unfold rounding_default in *.
  destruct (round_div_error RNearestAwayFromZero (t * b) c) as [_ H1]; [lia|].
  set (u := round_div RNearestAwayFromZero (t * b) c) in *.
  destruct (round_div_error RNearestAwayFromZero (u * c) b) as [_ H2]; [lia|].
  destruct (decide (b = c)) as [->|Hne].
  - unfold u. rewrite round_div_exact, round_div_exact; lia.
  - set (v := round_div RNearestAwayFromZero (u * c) b) in *. nia.
Qed.

Lemma rescale_finer_roundtrip_witness :
  rescale (Some 1126125) (Rational 1 90000) (Rational 1001 30000) rounding_default = Some 375.
Proof.
  apply (rescale_finer_roundtrip 375 1126125 (Rational 1001 30000) (Rational 1 90000));
    [vm_compute; reflexivity|repeat split; vm_compute; reflexivity..|
     vm_compute; discriminate|vm_compute; reflexivity].
Defined.

(** Cross-base comparison is the order of the exact instants in seconds. *)
Theorem ts_compare_seconds a abase b bbase :
  usable abase -> usable bbase ->
  ts_compare (Some a) abase (Some b) bbase =
    Some (inject_Z a * rat_Q abase ?= inject_Z b * rat_Q bbase)%Q.
Proof.
  intros Ha Hb.
  destruct (finite_base_usable abase Ha) as (an & ad & Ea & ? & _ & _ & Qa).
  destruct (finite_base_usable bbase Hb) as (bn & bd & Eb & ? & _ & _ & Qb).
  unfold ts_compare. simpl. rewrite Ea, Eb. simpl. rewrite Qa, Qb.
  unfold Qcompare. simpl. by rewrite !Pos.mul_1_l, !Z2Pos.id by lia.
Qed.

Lemma ts_compare_seconds_witness :
  ts_compare (Some 90000) (Rational 1 90000) (Some 47999) (Rational 1 48000) = Some Gt.
Proof.
  rewrite (ts_compare_seconds 90000 (Rational 1 90000) 47999 (Rational 1 48000));
    [vm_compute; reflexivity|repeat split; discriminate..].
Defined.

(** ** Durations *)

(** What [from_ratio] establishes: lowest terms with a positive denominator, in
    [i128]. *)
Definition dur_wf (d : duration) : Prop :=
  in_i 128 (numerator d) = true /\ 0 < denominator d < 2 ^ 127 /\
  Z.gcd (numerator d) (denominator d) = 1.

Definition dur_Q (d : duration) : Q := numerator d # Z.to_pos (denominator d).

Lemma gcd_i128_gcd a b : 0 <= a -> 0 < b < 2 ^ 128 -> gcd_i128 a b = Z.gcd a b.
Proof.
  intros Ha Hb. unfold gcd_i128. rewrite (gcd_loop_enough 128) by (simpl; lia).
  pose proof (Z.gcd_nonneg a b). assert (Z.gcd a b <> 0).
  { intros E. apply Z.gcd_eq_0_r in E. lia. }
  destruct (Z.ltb_spec 1 (Z.gcd a b)); lia.
Qed.

Lemma gcd_rem_abs n d : d <> 0 -> Z.gcd (Z.abs (Z.rem n d)) d = Z.gcd n d.
Proof.
  intros Hd. rewrite Z.gcd_abs_l. apply Z.gcd_unique.
  - apply Z.gcd_nonneg.
  - rewrite (Z.rem_eq n d Hd). apply Z.divide_sub_r; [apply Z.gcd_divide_l|].
    apply Z.divide_mul_l, Z.gcd_divide_r.
  - apply Z.gcd_divide_r.
  - intros q H1 H2. apply Z.gcd_greatest; [|done].
    rewrite (Z.quot_rem n d Hd). apply Z.divide_add_r; [|done]. by apply Z.divide_mul_l.
Qed.

(** The reduced pair, and the ratio it stands for. *)
Lemma from_ratio_spec n d :
  in_i 128 n = true -> 0 < d < 2 ^ 127 ->
  dur_wf (from_ratio n d) /\
  numerator (from_ratio n d) * d = n * denominator (from_ratio n d) /\
  denominator (from_ratio n d) <= d.
Proof.
  intros Hn%in_i_spec Hd. unfold from_ratio.
  destruct (Z.eqb_spec n 0) as [->|Hn0]; [repeat split; simpl; lia|].
  rewrite gcd_i128_gcd, gcd_rem_abs by lia. set (g := Z.gcd n d).
  assert (Hg : 0 < g).
  { pose proof (Z.gcd_nonneg n d). assert (g <> 0); [|unfold g in *; lia].
    intros E. by apply Z.gcd_eq_0_l in E. }
  assert (Hgn : (g | n)) by apply Z.gcd_divide_l.
  assert (Hgd : (g | d)) by apply Z.gcd_divide_r.
  rewrite !quot_exact by (done || lia). unfold dur_wf. simpl numerator. simpl denominator.
  pose proof (div_exact_mul n g ltac:(lia) Hgn) as En.
  pose proof (div_exact_mul d g ltac:(lia) Hgd) as Ed.
  rewrite in_i_spec. repeat split; try nia. apply gcd_div_coprime; [done|lia].
Qed.

(** The stored pair is the only one for its value: derived field equality is
    equality of spans. *)
Lemma dur_wf_unique a b :
  dur_wf a -> dur_wf b -> numerator a * denominator b = numerator b * denominator a -> a = b.
Proof.
  intros (_ & ? & ?) (_ & ? & ?) E. destruct a, b; simpl in *.
  by destruct (lowest_terms_unique numerator0 denominator0 numerator1 denominator1) as [-> ->];
    try lia.
Qed.

(** ** Ordering *)

(** The value the comparison loop stands for. *)
Definition ratio_cmp (a b c d : Z) (reverse : bool) : comparison :=
  if reverse then c * b ?= a * d else a * d ?= c * b.

Lemma div_lt_cross a b c d : 0 < b -> 0 < d -> a / b < c / d -> a * d < c * b.
Proof.
  intros Hb Hd Hq.
  assert (H1 : a < b * (a / b + 1)) by (pose proof (Z.div_mod a b); pose proof (Z.mod_pos_bound a b); lia).
  assert (H2 : d * (c / d) <= c) by (apply Z.mul_div_le; lia).
  assert (H3 : b * d * (a / b + 1) <= b * d * (c / d)) by (apply Z.mul_le_mono_nonneg_l; lia).
  nia.
Qed.

Lemma compare_same_quot a b c d :
  b <> 0 -> d <> 0 -> a / b = c / d ->
  (a * d ?= c * b) = ((a mod b) * d ?= (c mod d) * b).
Proof.
  intros Hb Hd Hq. rewrite (Z.div_mod a b Hb) at 1. rewrite (Z.div_mod c d Hd) at 1.
  rewrite Hq. set (r := a mod b). set (s := c mod d).
  replace ((b * (c / d) + r) * d) with (b * (c / d) * d + r * d) by lia.
  replace ((d * (c / d) + s) * b) with (b * (c / d) * d + s * b) by lia.
  apply Z.add_compare_mono_l.
Qed.

(** One iteration either decides or moves to the reciprocals of the fractional
    parts, with the direction flipped. *)
Lemma cmp_ratios_step f a b c d reverse :
  0 < b -> 0 < d ->
  cmp_ratios_loop (S f) a b c d reverse = Some (ratio_cmp a b c d reverse) \/
  (0 < a mod b /\ 0 < c mod d /\
   cmp_ratios_loop (S f) a b c d reverse =
     cmp_ratios_loop f b (a mod b) d (c mod d) (negb reverse) /\
   ratio_cmp a b c d reverse = ratio_cmp b (a mod b) d (c mod d) (negb reverse)).
Proof.
  intros Hb Hd. cbn [cmp_ratios_loop].
  pose proof (Z.mod_pos_bound a b Hb). pose proof (Z.mod_pos_bound c d Hd).
  unfold ratio_cmp. rewrite (Z.compare_antisym (a * d) (c * b)).
  destruct (Z.compare_spec (a / b) (c / d)) as [E|E|E].
  - rewrite (proj2 (Z.eqb_eq _ _) E), (compare_same_quot a b c d) by (done || lia).
    simpl negb. cbn iota. set (ra := a mod b) in *. set (rc := c mod d) in *.
    destruct (Z.eqb_spec ra 0) as [Ea|Ea], (Z.eqb_spec rc 0) as [Ec|Ec].
    + left. rewrite Ea, Ec. by destruct reverse.
    + left. rewrite Ea. replace (0 * d ?= rc * b) with Lt
        by (symmetry; apply Z.compare_lt_iff; nia). by destruct reverse.
    + left. rewrite Ec. replace (ra * d ?= 0 * b) with Gt
        by (symmetry; apply Z.compare_gt_iff; nia). by destruct reverse.
    + right. repeat split; try lia.
      rewrite (Z.mul_comm b rc), (Z.mul_comm d ra), (Z.compare_antisym (ra * d) (rc * b)).
      by destruct reverse.
  - left. rewrite (proj2 (Z.eqb_neq _ _)) by lia. simpl negb. cbn iota.
    apply div_lt_cross in E as E'; [|done..].
    rewrite (proj2 (Z.compare_lt_iff (a * d) (c * b)) E'), (Z.compare_antisym (a / b)).
    rewrite (proj2 (Z.compare_lt_iff (a / b) (c / d)) E). by destruct reverse.
  - left. rewrite (proj2 (Z.eqb_neq _ _)) by lia. simpl negb. cbn iota.
    apply div_lt_cross in E as E'; [|done..].
    rewrite (proj2 (Z.compare_gt_iff (a * d) (c * b)) E'), (Z.compare_antisym (a / b)).
    rewrite (proj2 (Z.compare_gt_iff (a / b) (c / d)) E). by destruct reverse.
Qed.

(** Two iterations halve the divisor [b], so [2 * n + 1] are enough below
    [2 ^ n], and the loop decides the cross products. *)
Lemma cmp_ratios_loop_spec (n : nat) : forall fuel a b c d reverse,
  (2 * n + 1 <= fuel)%nat -> 0 < b < 2 ^ Z.of_nat n -> 0 < d ->
  cmp_ratios_loop fuel a b c d reverse = Some (ratio_cmp a b c d reverse).
Proof.
  induction n as [|n IH]; intros fuel a b c d reverse Hf Hb Hd; [simpl in Hb; lia|].
  destruct fuel as [|[|f]]; [lia..|].
  destruct (cmp_ratios_step (S f) a b c d reverse) as [->|(Hra & Hrc & -> & ->)]; [lia..|done|].
  destruct (cmp_ratios_step f b (a mod b) d (c mod d) (negb reverse))
    as [->|(Hr & Hs & -> & ->)]; [lia..|done|].
  apply IH; [lia| |done]. rewrite Nat2Z.inj_succ, Z.pow_succ_r in Hb by lia.
  pose proof (Z.mod_pos_bound a b). pose proof (Z.mod_pos_bound b (a mod b) Hra).
  pose proof (Z.div_mod b (a mod b)). pose proof (Z.div_str_pos b (a mod b)). nia.
Qed.

(** ** Properties of durations *)

(** Duration order: the continued-fraction loop always terminates within
    its fuel, decides the exact numeric order, and reports [Equal] only for
    equal pairs, so [Ord] and the derived [PartialEq] agree. *)
Theorem dur_cmp_exact a b :
  dur_wf a -> dur_wf b ->
  dur_cmp a b = Some (dur_Q a ?= dur_Q b)%Q /\ (dur_cmp a b = Some Eq <-> a = b).
Proof.
  intros Ha Hb. assert (Hu := dur_wf_unique a b Ha Hb).
  destruct Ha as (Hna & Hda & _), Hb as (Hnb & Hdb & _).
  assert (E : dur_cmp a b = Some (dur_Q a ?= dur_Q b)%Q).
  { unfold dur_cmp, dur_Q, Qcompare. simpl. rewrite !Z2Pos.id by lia.
    destruct (Z.compare_spec (Z.sgn (numerator a)) (Z.sgn (numerator b))) as [E|E|E].
    - destruct (Z.eqb_spec (numerator a) 0) as [Ez|Ez].
      { assert (numerator b = 0) as -> by lia. by rewrite Ez. }
      unfold cmp_nonnegative_ratios.
      destruct (Z.ltb_spec 0 (numerator a));
        rewrite (cmp_ratios_loop_spec 128) by (simpl in *; lia); unfold ratio_cmp; f_equal.
      + by rewrite !Z.abs_eq by lia.
      + by rewrite !Z.abs_neq, !Z.mul_opp_l, Z.compare_opp by lia.
    - symmetry. f_equal. apply Z.compare_lt_iff. nia.
    - symmetry. f_equal. apply Z.compare_gt_iff. nia. }
  split; [done|]. rewrite E. unfold Qcompare, dur_Q. simpl. rewrite !Z2Pos.id by lia. split.
  - intros [= H%Z.compare_eq_iff]. by apply Hu.
  - intros ->. by rewrite Z.compare_refl.
Qed.

Lemma dur_cmp_exact_witness :
  dur_cmp (from_ratio (-7) 3) (from_ratio (-9) 4) = Some Lt.
Proof.
  rewrite (proj1 (dur_cmp_exact (from_ratio (-7) 3) (from_ratio (-9) 4)
    ltac:(repeat split; vm_compute; reflexivity) ltac:(repeat split; vm_compute; reflexivity))).
  vm_compute. reflexivity.
Defined.

Lemma i128_some z v : i128 z = Some v -> v = z /\ in_i 128 z = true.
Proof. intros H%checked_i_Some. rewrite in_i_spec. tauto. Qed.

(** The sum over the least common denominator, before the last reduction. *)
Lemma combine_ratio n1 d1 n2 d2 g red :
  0 < g -> (g | d1) -> (g | d2) -> 0 < red -> (red | g) ->
  (red | n1 * (d2 / g) + n2 * (d1 / g)) ->
  (n1 * (d2 / g) + n2 * (d1 / g)) / red * (d1 * d2) =
    (n1 * d2 + n2 * d1) * (d1 / g * (d2 / red)).
Proof.
  intros Hg [x ->] [y ->] Hr [k ->] [m Hm].
  assert (0 < k) by nia.
  rewrite (Z.div_mul y), (Z.div_mul x) in * by lia. rewrite Hm, Z.div_mul by lia.
  replace (y * (k * red)) with (y * k * red) by lia. rewrite Z.div_mul by lia.
  transitivity (m * red * (x * y * k * k * red)); [nia|].
  rewrite <- Hm. nia.
Qed.

(** The tail of [checked_combine] from the combined numerator on. *)
Lemma combine_tail na da nb db n c :
  let g := Z.gcd da db in
  0 < da < 2 ^ 127 -> 0 < db < 2 ^ 127 -> in_i 128 n = true ->
  n = na * (db / g) + nb * (da / g) ->
  (if n =? 0 then Some DUR_ZERO
   else
     let reduction := gcd_i128 (Z.abs (Z.rem n g)) g in
     d ← i128 (da / g * Z.quot db reduction);
     Some (from_ratio (Z.quot n reduction) d)) = Some c ->
  dur_wf c /\ numerator c * (da * db) = (na * db + nb * da) * denominator c.
Proof.
  intros g Hda Hdb Hn En. unfold g in *. clear g.
  assert (Hg : 0 < Z.gcd da db).
  { pose proof (Z.gcd_nonneg da db). assert (Z.gcd da db <> 0); [|lia].
    intros E. apply Z.gcd_eq_0_l in E. lia. }
  pose proof (Z.gcd_divide_l da db) as Hga. pose proof (Z.gcd_divide_r da db) as Hgb.
  set (g := Z.gcd da db) in *.
  assert (Hgle : g <= da) by (apply Z.divide_pos_le; (done || lia)).
  destruct (Z.eqb_spec n 0) as [Hn0|Hn0].
  { intros [= <-]. split; [repeat split; simpl; lia|]. simpl.
    pose proof (div_exact_mul da g ltac:(lia) Hga). pose proof (div_exact_mul db g ltac:(lia) Hgb).
    transitivity (n * g); nia. }
  rewrite gcd_i128_gcd, gcd_rem_abs by lia. set (red := Z.gcd n g).
  assert (Hr : 0 < red).
  { pose proof (Z.gcd_nonneg n g). assert (red <> 0); [|unfold red in *; lia].
    intros E. apply Z.gcd_eq_0_l in E. lia. }
  assert (Hrn : (red | n)) by apply Z.gcd_divide_l.
  assert (Hrg : (red | g)) by apply Z.gcd_divide_r.
  assert (Hrb : (red | db)) by (by transitivity g).
  rewrite !quot_exact by (done || lia). simpl.
  destruct (i128 _) as [D|] eqn:ED; simpl; [|done]. apply i128_some in ED as [-> ED].
  intros [= <-]. apply in_i_spec in Hn, ED. set (D := da / g * (db / red)) in *.
  assert (HD : 0 < D) by (apply Z.mul_pos_pos; apply Z.div_str_pos; split; try lia;
    apply Z.divide_pos_le; (done || lia)).
  pose proof (div_exact_mul n red ltac:(lia) Hrn) as Ediv.
  destruct (from_ratio_spec (n / red) D) as (Hw & Hv & _); [apply in_i_spec; nia|simpl in *; lia|].
  split; [done|]. rewrite En in Hrn.
  pose proof (combine_ratio na da nb db g red Hg Hga Hgb Hr Hrg Hrn) as Hc.
  rewrite <- En in Hc. fold D in Hc.
  apply (Z.mul_reg_r _ _ D); [lia|].
  transitivity (n / red * (da * db) * denominator (from_ratio (n / red) D)); [|rewrite Hc; lia].
  rewrite (Z.mul_shuffle0 _ (da * db)), Hv. lia.
Qed.

(** Duration addition and subtraction are exact: a result is the
    mathematical sum or difference in lowest terms; only an intermediate or
    result outside [i128] is refused. *)
Theorem dur_add_sub_exact a b c sub :
  dur_wf a -> dur_wf b -> checked_combine a b sub = Some c ->
  dur_wf c /\ (dur_Q c == if sub then dur_Q a - dur_Q b else dur_Q a + dur_Q b)%Q.
Proof.
  intros (_ & Hda & _) (_ & Hdb & _). unfold checked_combine.
  rewrite gcd_i128_gcd by lia. set (g := Z.gcd (denominator a) (denominator b)).
  assert (Hg : g <> 0).
  { intros E. apply Z.gcd_eq_0_l in E. lia. }
  rewrite !(quot_exact _ g) by (apply Z.gcd_divide_l || apply Z.gcd_divide_r || done).
  destruct (i128 (numerator a * _)) as [l|] eqn:El; simpl; [|done]. apply i128_some in El as [-> _].
  destruct (i128 (numerator b * _)) as [r|] eqn:Er; simpl; [|done]. apply i128_some in Er as [-> _].
  destruct (if sub then _ else _) as [n|] eqn:En; simpl; [|done]. intros Hc.
  assert (Hn : in_i 128 n = true /\ n = numerator a * (denominator b / g) +
    (if sub then - numerator b else numerator b) * (denominator a / g)).
  { destruct sub; apply i128_some in En as [-> En]; (split; [done|lia]). }
  destruct Hn as [Hn1 Hn2].
  destruct (combine_tail _ _ _ _ n c Hda Hdb Hn1 Hn2 Hc) as [Hw Hv].
  split; [done|]. destruct Hw as (_ & Hd & _). clear - Hv Hd Hda Hdb.
  destruct sub; unfold dur_Q, Qeq; simpl; rewrite Pos2Z.inj_mul, !Z2Pos.id by lia; lia.
Qed.

Lemma dur_add_sub_exact_witness :
  checked_combine (Duration 1 6) (Duration 1 10) true = Some (Duration 1 15) /\
  (dur_Q (Duration 1 15) == dur_Q (Duration 1 6) - dur_Q (Duration 1 10))%Q.
Proof.
  split; [vm_compute; reflexivity|].
  refine (proj2 (dur_add_sub_exact (Duration 1 6) (Duration 1 10) (Duration 1 15) true _ _ _));
    [repeat split; vm_compute; reflexivity..|vm_compute; reflexivity].
Defined.

(** Ticks survive the trip through an exact duration: whatever the rounding
    mode, no precision is lost and nothing overflows on the way back. *)
Theorem ticks_duration_roundtrip t base r :
  in_i 64 t = true -> usable base ->
  exists d, from_ticks t base = Some d /\ dur_wf d /\ to_ticks_rounding d base r = Some t.
Proof.
  intros Ht Hb. apply in_i_spec in Ht as Ht'.
  destruct (finite_base_usable base Hb) as (n & d & E & Hd & Hn & Hn' & _).
  unfold from_ticks, to_ticks_rounding. rewrite E. simpl.
  destruct (from_ratio_spec (t * n) d) as (Hw & Hv & Hle); [apply in_i_spec; simpl in *; nia|lia|].
  eexists. split; [reflexivity|]. split; [done|].
  destruct Hw as (Hwn & Hwd & _). set (x := from_ratio (t * n) d) in *.
  assert (Hi : in_i 128 (denominator x * n) = true) by (apply in_i_spec; simpl; nia).
  rewrite (checked_i_in 128 (denominator x * n)) by done. simpl.
  rewrite muldiv_rnd_exact; [|done|apply in_i_spec; simpl; lia|done].
  rewrite (proj2 (Z.eqb_neq _ _)) by nia.
  replace (numerator x * d) with (t * (denominator x * n)) by lia.
  rewrite round_div_exact by nia.
  rewrite (checked_i_in 128 t) by (apply in_i_spec; simpl in *; lia). simpl.
  by apply checked_i_in.
Qed.

Lemma ticks_duration_roundtrip_witness :
  exists d, from_ticks (-17) (Rational 1001 (-30000)) = Some d /\ dur_wf d /\
    to_ticks_rounding d (Rational 1001 (-30000)) RUp = Some (-17).
Proof.
  apply (ticks_duration_roundtrip (-17) (Rational 1001 (-30000)) RUp);
    [reflexivity|repeat split; vm_compute; (reflexivity || discriminate)].
Defined.

(** ** Decimal seconds *)

Lemma digits_no_sep s t :
  forallb is_ascii_digit s = true -> split_once 46 (s ++ 46 :: t) = Some (s, t).
Proof.
  induction s as [|c s IH]; simpl; [done|]. intros H. apply andb_true_iff in H as [Hc Hs].
  rewrite IH by done. unfold is_ascii_digit in Hc. breflect.
  rewrite (proj2 (Z.eqb_neq c 46)) by lia. done.
Qed.

Lemma decimal_scale_spec n : forall scale v,
  decimal_scale n scale = Some v -> v = scale * 10 ^ Z.of_nat n.
Proof.
  induction n as [|n IH]; intros scale v; [simpl; intros [= <-]; lia|].
  cbn [decimal_scale]. destruct (i128 (scale * 10)) as [x|] eqn:E; simpl; [|done].
  apply i128_some in E as [-> _]. intros ->%IH. rewrite Nat2Z.inj_succ, Z.pow_succ_r; lia.
Qed.

Lemma decimal_scale_ok n : forall scale,
  0 < scale -> scale * 10 ^ Z.of_nat n < 2 ^ 127 ->
  decimal_scale n scale = Some (scale * 10 ^ Z.of_nat n).
Proof.
  induction n as [|n IH]; intros scale Hs H; [simpl; f_equal; lia|].
  rewrite Nat2Z.inj_succ, Z.pow_succ_r in * by lia.
  pose proof (Z.pow_pos_nonneg 10 (Z.of_nat n)).
  cbn [decimal_scale]. rewrite checked_i_in by (apply in_i_spec; simpl; nia). simpl.
  rewrite IH by lia. f_equal. lia.
Qed.

Lemma parse_or_zero_ok s :
  forallb is_ascii_digit s = true -> digits_value 0 s < 2 ^ 127 ->
  parse_or_zero s = Some (digits_value 0 s).
Proof.
  intros Hs Hb. assert (Hp : parse_or_zero s = parse_digits_from 128 0 s) by (by destruct s).
  rewrite Hp. destruct (parse_digits_from 128 0 s) as [v|] eqn:E.
  - by rewrite (parse_digits_from_value _ _ _ _ E).
  - apply parse_digits_from_None in E; [simpl in *; lia|lia|simpl; lia|done].
Qed.

(** Decimal seconds are read exactly: for any digit strings whose number
    and scale fit in [i128], the sign, whole part and fraction written in the
    text denote the value of the parsed duration, with no binary rounding. *)
Theorem from_decimal_seconds_exact (neg : bool) whole fraction :
  forallb is_ascii_digit whole = true -> forallb is_ascii_digit fraction = true ->
  whole ++ fraction <> [] ->
  let k := 10 ^ Z.of_nat (length fraction) in
  let v := digits_value 0 whole * k + digits_value 0 fraction in
  k < 2 ^ 127 -> v < 2 ^ 127 ->
  exists d, from_decimal_seconds ((if neg then [45] else []) ++ whole ++ 46 :: fraction) = Some d /\
    dur_wf d /\ numerator d * k = (if neg then - v else v) * denominator d.
Proof.
  intros Hw Hf Hne k v Hk Hv. unfold from_decimal_seconds.
  assert (Hpos : 0 < k) by (apply Z.pow_pos_nonneg; lia).
  pose proof (digits_value_mono 0 whole ltac:(lia) Hw) as HW.
  pose proof (digits_value_mono 0 fraction ltac:(lia) Hf) as HF.
  assert (Hhead : strip_prefix 45 ((if neg then [45] else []) ++ whole ++ 46 :: fraction) =
    if neg then Some (whole ++ 46 :: fraction) else None).
  { destruct neg; [done|]. destruct whole as [|c w]; [done|]. simpl in Hw |- *.
    apply andb_true_iff in Hw as [Hc _]. unfold is_ascii_digit in Hc. breflect.
    by rewrite (proj2 (Z.eqb_neq c 45)) by lia. }
  rewrite Hhead. clear Hhead.
  assert (Hne' : bool_decide (whole = []) && bool_decide (fraction = []) = false).
  { destruct whole, fraction; done. }
  destruct (from_ratio_spec (if neg then - v else v) k) as (Hwf & Hval & _);
    [apply in_i_spec; simpl; destruct neg; nia|lia|].
  exists (from_ratio (if neg then - v else v) k). split; [|done].
  assert (Hscale : decimal_scale (length fraction) 1 = Some k).
  { rewrite decimal_scale_ok; unfold k in *; [f_equal; lia|lia|simpl in *; lia]. }
  destruct neg; simpl app; cbn iota beta;
    rewrite digits_no_sep by done; simpl default; cbn iota beta;
    rewrite Hne', Hw, Hf; cbn [orb negb];
    rewrite !parse_or_zero_ok by (done || (simpl in *; nia)); simpl;
    rewrite Hscale; simpl; rewrite checked_i_in by (apply in_i_spec; simpl; nia); simpl;
    rewrite checked_i_in by (apply in_i_spec; simpl; nia); simpl; [|done].
  rewrite checked_i_in by (apply in_i_spec; simpl; nia). done.
Qed.

Lemma from_decimal_seconds_exact_witness :
  exists d, from_decimal_seconds (str "-12.0375") = Some d /\ dur_wf d /\
    numerator d * 10000 = - 120375 * denominator d.
Proof.
  apply (from_decimal_seconds_exact true (str "12") (str "0375"));
    vm_compute; (reflexivity || discriminate).
Defined.
