(* ===== verification/Bits.v ===== *)
(** * Bits: the mathematical bit string under a byte buffer

    The reader, the writer and the Exp-Golomb codes are all proved against one
    model of a buffer: the function from bit positions to bits, most significant
    bit of each byte first, false outside the buffer. [bits_val] reads a field
    of it as a number; [bits_of] writes a number as a list of bits. *)

From Stdlib Require Import ZArith Lia.
From stdpp Require Import prelude.
From S2P Require Import Prelude.

(** ** Slices *)

Definition zlen {A : Type} (l : list A) : Z := Z.of_nat (length l).

(** [slice.get(i..)]. *)
Definition get_from {A : Type} (l : list A) (i : Z) : option (list A) :=
  if (0 <=? i) && (i <=? zlen l) then Some (drop (Z.to_nat i) l) else None.

(** [slice.get(a..b)]. *)
Definition get_range {A : Type} (l : list A) (a b : Z) : option (list A) :=
  if (0 <=? a) && (a <=? b) && (b <=? zlen l)
  then Some (take (Z.to_nat (b - a)) (drop (Z.to_nat a) l)) else None.

(** [slice.first_chunk::<n>()]. *)
Definition first_chunk {A : Type} (n : Z) (l : list A) : option (list A) :=
  if n <=? zlen l then Some (take (Z.to_nat n) l) else None.

Definition is_byte (b : Z) : bool := (0 <=? b) && (b <? 256).

(** A buffer of bytes no longer than [isize::MAX], as every Rust slice is. *)
Definition buffer (l : list Z) : Prop := Forall (fun b => 0 <= b < 256) l /\ zlen l < 2 ^ 63.

Lemma buffer_check l : forallb is_byte l && (zlen l <? 2 ^ 63) = true -> buffer l.
Proof.
  intros H. breflect. split; [|done]. apply Forall_forall. intros b Hb.
  rewrite forallb_forall in H. apply list_elem_of_In, H in Hb. unfold is_byte in Hb. breflect. lia.
Qed.

(** A continuation byte of UTF-8. *)
Definition continuation (b : Z) : bool := (128 <=? b) && (b <? 192).

(** [String::from_utf8]: whether the bytes are well formed. *)
Fixpoint utf8 (s : list Z) : bool :=
  match s with
  | [] => true
  | a :: s =>
    if a <? 128 then utf8 s
    else match s with
    | [] => false
    | b :: s =>
      if (194 <=? a) && (a <? 224) then continuation b && utf8 s
      else match s with
      | [] => false
      | c :: s =>
        if (224 <=? a) && (a <? 240) then
          ((if a =? 224 then 160 else 128) <=? b) && (b <? (if a =? 237 then 160 else 192)) && continuation c && utf8 s
        else match s with
        | [] => false
        | d :: s =>
          if (240 <=? a) && (a <? 245) then
            ((if a =? 240 then 144 else 128) <=? b) && (b <? (if a =? 244 then 144 else 192)) && continuation c && continuation d && utf8 s
          else false
        end
      end
    end
  end.

(** The byte at an index, zero outside the buffer. *)
Definition byte_at (l : list Z) (i : Z) : Z :=
  if (0 <=? i) && (i <? zlen l) then nth (Z.to_nat i) l 0 else 0.

(** [from_be_bytes] on a list of bytes. *)
Definition be_value (l : list Z) : Z := fold_left (fun w b => w * 256 + b) l 0.

(** [from_le_bytes] on a list of bytes. *)
Definition le_value (l : list Z) : Z := fold_right (fun b w => b + 256 * w) 0 l.

(** The bit at a position, most significant bit of each byte first. *)
Definition bit_at (l : list Z) (i : Z) : bool := Z.testbit (byte_at l (i / 8)) (7 - i mod 8).

(** The number written in the [n] bits from position [p]. *)
Fixpoint bits_val (f : Z -> bool) (p : Z) (n : nat) : Z :=
  match n with
  | O => 0
  | S n => 2 * bits_val f p n + Z.b2z (f (p + Z.of_nat n))
  end.

(** The low [n] bits of a number, most significant first. *)
Fixpoint bits_of (n : nat) (v : Z) : list bool :=
  match n with
  | O => []
  | S n => Z.testbit v (Z.of_nat n) :: bits_of n v
  end.

(** The bits of a buffer as a list. *)
Definition bits_of_bytes (l : list Z) : list bool := concat (map (bits_of 8) l).

(** ** Lengths and bytes *)

Lemma zlen_nonneg {A} (l : list A) : 0 <= zlen l.
Proof. unfold zlen. lia. Qed.
#[export] Hint Resolve zlen_nonneg : vaco.

Lemma zlen_app {A} (l k : list A) : zlen (l ++ k) = zlen l + zlen k.
Proof. unfold zlen. rewrite length_app. lia. Qed.

Lemma zlen_cons {A} (x : A) l : zlen (x :: l) = 1 + zlen l.
Proof. unfold zlen. simpl. lia. Qed.

Lemma zlen_replicate {A} n (x : A) : zlen (replicate n x) = Z.of_nat n.
Proof. unfold zlen. by rewrite length_replicate. Qed.

Lemma zlen_drop {A} (l : list A) n : 0 <= n <= zlen l -> zlen (drop (Z.to_nat n) l) = zlen l - n.
Proof. unfold zlen. rewrite length_drop. lia. Qed.

Lemma zlen_take {A} (l : list A) n : 0 <= n <= zlen l -> zlen (take (Z.to_nat n) l) = n.
Proof. unfold zlen. rewrite length_take. lia. Qed.

Lemma get_from_Some {A} (l k : list A) i :
  get_from l i = Some k <-> 0 <= i <= zlen l /\ k = drop (Z.to_nat i) l.
Proof.
  unfold get_from. destruct (_ && _) eqn:E; breflect.
  - split; [by intros [= <-]|by intros [_ ->]].
  - split; [done|]. intros [? _]. apply andb_false_iff in E as [E|E]; breflect; lia.
Qed.

Lemma get_from_drop {A} (l : list A) i : 0 <= i <= zlen l -> get_from l i = Some (drop (Z.to_nat i) l).
Proof. intros H. by apply get_from_Some. Qed.

Lemma get_from_at {A : Type} (pre post : list A) a : a = zlen pre -> get_from (pre ++ post) a = Some post.
Proof.
  intros ->. apply get_from_Some. pose proof (zlen_nonneg pre). pose proof (zlen_nonneg post). rewrite zlen_app. split; [lia|].
  unfold zlen. by rewrite Nat2Z.id, drop_app_length.
Qed.

Lemma get_range_mid {A} (a b c : list A) i j : zlen a = i -> zlen b = j - i -> get_range (a ++ b ++ c) i j = Some b.
Proof.
  intros Ha Hb. pose proof (zlen_nonneg a). pose proof (zlen_nonneg b). pose proof (zlen_nonneg c).
  unfold get_range. rewrite !zlen_app.
  destruct (_ && _) eqn:E.
  - f_equal. replace (Z.to_nat i) with (length a) by (unfold zlen in *; lia). rewrite drop_app_length.
    replace (Z.to_nat (j - i)) with (length b) by (unfold zlen in *; lia). by rewrite take_app_length.
  - exfalso. apply andb_false_iff in E as [E|E]; [apply andb_false_iff in E as [E|E]|]; apply Z.leb_gt in E; lia.
Qed.

Lemma get_range_Some {A} (l k : list A) i j : get_range l i j = Some k -> 0 <= i <= j /\ j <= zlen l /\ zlen k = j - i.
Proof.
  unfold get_range. destruct (_ && _) eqn:E; [|done]. breflect. intros [= <-]. split_and!; [lia..|].
  unfold zlen in *. rewrite length_take, length_drop. lia.
Qed.

Lemma get_range_Forall {A} (P : A -> Prop) (l k : list A) i j : Forall P l -> get_range l i j = Some k -> Forall P k.
Proof. unfold get_range. destruct (_ && _); [|done]. intros Hl [= <-]. by apply Forall_take, Forall_drop. Qed.

Lemma first_chunk_Some {A} n (l k : list A) :
  first_chunk n l = Some k <-> n <= zlen l /\ k = take (Z.to_nat n) l.
Proof.
  unfold first_chunk. destruct (_ <=? _) eqn:E; breflect.
  - split; [by intros [= <-]|by intros [_ ->]].
  - split; [done|]. lia.
Qed.

Lemma byte_at_nth l i : 0 <= i < zlen l -> byte_at l i = nth (Z.to_nat i) l 0.
Proof.
  intros H. unfold byte_at. rewrite (proj2 (Z.leb_le _ _)), (proj2 (Z.ltb_lt _ _)) by lia. done.
Qed.

Lemma byte_at_out l i : ~ 0 <= i < zlen l -> byte_at l i = 0.
Proof.
  intros H. unfold byte_at. destruct (_ && _) eqn:E; [|done]. breflect. lia.
Qed.

Lemma byte_at_range l i : Forall (fun b => 0 <= b < 256) l -> 0 <= byte_at l i < 256.
Proof.
  intros H. unfold byte_at. destruct (_ && _) eqn:E; [|lia]. breflect.
  rewrite Forall_forall in H. apply H, list_elem_of_In, nth_In. unfold zlen in *. lia.
Qed.

Lemma byte_at_cons b l i : 0 < i -> byte_at (b :: l) i = byte_at l (i - 1).
Proof.
  intros Hi. destruct (decide (0 <= i - 1 < zlen l)).
  - rewrite !byte_at_nth by (rewrite ?zlen_cons; lia).
    replace (Z.to_nat i) with (S (Z.to_nat (i - 1))) by lia. done.
  - rewrite !byte_at_out by (rewrite ?zlen_cons; lia). done.
Qed.

Lemma byte_at_app_l l k i : i < zlen l -> byte_at (l ++ k) i = byte_at l i.
Proof.
  intros Hi. destruct (decide (0 <= i)) as [H0|H0].
  - rewrite !byte_at_nth by (rewrite ?zlen_app; pose proof (zlen_nonneg k); lia).
    apply app_nth1. unfold zlen in *. lia.
  - rewrite !byte_at_out by lia. done.
Qed.

Lemma byte_at_app_r l k i : zlen l <= i -> byte_at (l ++ k) i = byte_at k (i - zlen l).
Proof.
  intros Hi. pose proof (zlen_nonneg l). destruct (decide (i < zlen l + zlen k)) as [H0|H0].
  - rewrite !byte_at_nth by (rewrite ?zlen_app; lia).
    rewrite app_nth2 by (unfold zlen in *; lia). f_equal. unfold zlen in *. lia.
  - rewrite !byte_at_out by (rewrite ?zlen_app; lia). done.
Qed.

Lemma byte_at_drop l n i : 0 <= n -> 0 <= i -> byte_at (drop (Z.to_nat n) l) i = byte_at l (n + i).
Proof.
  intros Hn Hi. destruct (decide (n + i < zlen l)) as [H0|H0].
  - rewrite !byte_at_nth by (rewrite ?zlen_drop; lia).
    rewrite nth_skipn. f_equal. lia.
  - assert (~ 0 <= i < zlen (drop (Z.to_nat n) l)).
    { unfold zlen in *. rewrite length_drop. lia. }
    rewrite !byte_at_out by lia. done.
Qed.

Lemma byte_at_take l n i : i < n -> byte_at (take (Z.to_nat n) l) i = byte_at l i.
Proof.
  intros Hn. destruct (decide (0 <= i < zlen l)) as [H0|H0].
  - assert (0 <= i < zlen (take (Z.to_nat n) l)) by (unfold zlen in *; rewrite length_take; lia).
    rewrite !byte_at_nth by lia. rewrite nth_firstn.
    by rewrite (proj2 (Nat.ltb_lt _ _)) by lia.
  - assert (~ 0 <= i < zlen (take (Z.to_nat n) l)).
    { unfold zlen in *. rewrite length_take. lia. }
    rewrite !byte_at_out by lia. done.
Qed.

(** ** Fields *)

Lemma bits_val_range f p n : 0 <= bits_val f p n < 2 ^ Z.of_nat n.
Proof.
  induction n as [|n IH]; simpl bits_val; [simpl; lia|].
  rewrite Nat2Z.inj_succ, Z.pow_succ_r by lia. destruct (f _); simpl Z.b2z; lia.
Qed.

Lemma bits_val_testbit f p n j :
  0 <= j -> Z.testbit (bits_val f p n) j = (j <? Z.of_nat n) && f (p + Z.of_nat n - 1 - j).
Proof.
  revert j. induction n as [|n IH]; intros j Hj; simpl bits_val.
  { rewrite Z.bits_0. by destruct (Z.ltb_spec j (Z.of_nat 0)); [lia|]. }
  destruct (decide (j = 0)) as [->|Hne].
  - rewrite Z.testbit_0_r. rewrite (proj2 (Z.ltb_lt _ _)) by lia. simpl. f_equal. lia.
  - replace j with (Z.succ (j - 1)) by lia. rewrite Z.testbit_succ_r, IH by lia.
    f_equal; [|f_equal; lia].
    destruct (Z.ltb_spec (j - 1) (Z.of_nat n)), (Z.ltb_spec (Z.succ (j - 1)) (Z.of_nat (S n))); lia.
Qed.

(** A number is the field when its bits are the field's. *)
Lemma bits_val_unique f p n v :
  0 <= v -> (forall j, 0 <= j -> Z.testbit v j = (j <? Z.of_nat n) && f (p + Z.of_nat n - 1 - j)) ->
  v = bits_val f p n.
Proof.
  intros Hv H. apply Z.bits_inj'. intros j Hj. by rewrite H, bits_val_testbit.
Qed.

Lemma bits_val_ext f g p q n :
  (forall i, 0 <= i < Z.of_nat n -> f (p + i) = g (q + i)) -> bits_val f p n = bits_val g q n.
Proof.
  induction n as [|n IH]; intros H; [done|]. simpl. rewrite IH by (intros; apply H; lia).
  by rewrite H by lia.
Qed.

Lemma bits_val_app f p n m :
  bits_val f p (n + m) = bits_val f p n * 2 ^ Z.of_nat m + bits_val f (p + Z.of_nat n) m.
Proof.
  induction m as [|m IH]; [rewrite Nat.add_0_r; simpl; lia|].
  rewrite Nat.add_succ_r. simpl bits_val. rewrite IH, Nat2Z.inj_succ, Z.pow_succ_r by lia.
  replace (p + Z.of_nat (n + m)) with (p + Z.of_nat n + Z.of_nat m) by lia. ring.
Qed.

Lemma bits_val_zeros f p n :
  (forall i, 0 <= i < Z.of_nat n -> f (p + i) = false) -> bits_val f p n = 0.
Proof.
  intros H. rewrite (bits_val_ext f (fun _ => false) p p) by done.
  clear H. induction n as [|n IH]; simpl; [done|]. by rewrite IH.
Qed.

(** A field that spells the low [n] bits of [v] reads as [v mod 2^n]. *)
Lemma bits_val_spells f p n v :
  (forall i, 0 <= i < Z.of_nat n -> f (p + i) = Z.testbit v (Z.of_nat n - 1 - i)) ->
  bits_val f p n = v mod 2 ^ Z.of_nat n.
Proof.
  intros H. symmetry. apply bits_val_unique; [apply Z.mod_pos_bound; lia|]. intros j Hj.
  destruct (Z.ltb_spec j (Z.of_nat n)).
  - rewrite Z.mod_pow2_bits_low by lia.
    replace (p + Z.of_nat n - 1 - j) with (p + (Z.of_nat n - 1 - j)) by lia.
    rewrite H by lia. simpl. f_equal. lia.
  - by rewrite Z.mod_pow2_bits_high by lia.
Qed.

(** ** Words *)

Lemma lor_disjoint a b n : 0 <= n -> 0 <= b < 2 ^ n -> Z.lor (Z.shiftl a n) b = a * 2 ^ n + b.
Proof.
  intros Hn Hb. rewrite <- Z.shiftl_mul_pow2 by done.
  assert (Z.land (Z.shiftl a n) b = 0) as H0.
  { apply Z.bits_inj'. intros j Hj. rewrite Z.land_spec, Z.bits_0.
    destruct (decide (j < n)).
    - rewrite Z.shiftl_spec_low by done. done.
    - rewrite <- (Z.mod_small b (2 ^ n)), Z.mod_pow2_bits_high by lia. apply andb_false_r. }
  pose proof (Z.add_lor_land (Z.shiftl a n) b). lia.
Qed.

Lemma land_range a b n :
  0 <= n -> 0 <= b < 2 ^ n -> 0 <= Z.land a b < 2 ^ n.
Proof.
  intros Hn Hb. rewrite <- (Z.mod_small b (2 ^ n)) by done.
  rewrite <- Z.land_ones, Z.land_assoc, Z.land_ones by done.
  apply Z.mod_pos_bound, Z.pow_pos_nonneg; lia.
Qed.

Lemma lor_range a b n :
  0 <= n -> 0 <= a < 2 ^ n -> 0 <= b < 2 ^ n -> 0 <= Z.lor a b < 2 ^ n.
Proof.
  intros Hn Ha Hb. rewrite <- (Z.mod_small a (2 ^ n)), <- (Z.mod_small b (2 ^ n)) by done.
  rewrite <- !Z.land_ones, <- Z.land_lor_distr_l, Z.land_ones by done.
  apply Z.mod_pos_bound, Z.pow_pos_nonneg; lia.
Qed.

Lemma be_value_app l k : be_value (l ++ k) = fold_left (fun w b => w * 256 + b) k (be_value l).
Proof. apply fold_left_app. Qed.

(** The big-endian encoding of a number in [n] bytes. *)
Fixpoint be_bytes (n : nat) (v : Z) : list Z :=
  match n with
  | O => []
  | S n => (v / 256 ^ Z.of_nat n) mod 256 :: be_bytes n v
  end.

Lemma length_be_bytes n v : length (be_bytes n v) = n.
Proof. induction n as [|n IH]; simpl; [done|by rewrite IH]. Qed.

Lemma be_value_acc l acc :
  fold_left (fun w b => w * 256 + b) l acc = acc * 256 ^ zlen l + be_value l.
Proof.
  revert acc. induction l as [|b l IH]; intros acc; [change (acc = acc * 1 + 0); lia|].
  unfold be_value. cbn [fold_left]. rewrite IH, (IH (0 * 256 + b)), zlen_cons.
  rewrite Z.pow_add_r by (pose proof (zlen_nonneg l); lia). ring.
Qed.

Lemma be_value_cons b l : be_value (b :: l) = b * 256 ^ zlen l + be_value l.
Proof. unfold be_value at 1. cbn [fold_left]. by rewrite be_value_acc. Qed.

Lemma be_value_range l : Forall (fun b => 0 <= b < 256) l -> 0 <= be_value l < 256 ^ zlen l.
Proof.
  intros Hl. induction Hl as [|b l Hb Hl IH]; [done|]. rewrite be_value_cons, zlen_cons.
  pose proof (zlen_nonneg l). rewrite Z.pow_add_r by lia. change (256 ^ 1) with 256. nia.
Qed.

Lemma be_value_be_bytes n v : be_value (be_bytes n v) = v mod 256 ^ Z.of_nat n.
Proof.
  induction n as [|n IH]; [by rewrite Z.mod_1_r|]. cbn [be_bytes].
  rewrite be_value_cons, IH. unfold zlen. rewrite length_be_bytes, Nat2Z.inj_succ.
  assert (0 < 256 ^ Z.of_nat n) by (apply Z.pow_pos_nonneg; lia).
  rewrite Z.pow_succ_r, (Z.mul_comm 256) by lia. rewrite Z.rem_mul_r by lia. ring.
Qed.

Lemma be_bytes_be_value l :
  Forall (fun b => 0 <= b < 256) l -> be_bytes (length l) (be_value l) = l.
Proof.
  intros Hl.
  enough (forall k, be_bytes (length l) (k * 256 ^ zlen l + be_value l) = l) as H.
  { specialize (H 0). by rewrite Z.mul_0_l, Z.add_0_l in H. }
  induction Hl as [|b l Hb Hl IH]; intros k; [done|]. cbn [length be_bytes].
  rewrite be_value_cons, zlen_cons. pose proof (be_value_range l Hl). pose proof (zlen_nonneg l).
  rewrite Z.pow_add_r by lia. change (256 ^ 1) with 256. fold (zlen l).
  replace (k * (256 * 256 ^ zlen l) + (b * 256 ^ zlen l + be_value l))
    with ((k * 256 + b) * 256 ^ zlen l + be_value l) by ring.
  f_equal; [|apply IH].
  rewrite Z.div_add_l, Z.div_small by lia. rewrite Z.add_0_r, Z.add_comm, Z.mod_add by lia.
  by apply Z.mod_small.
Qed.

(** The little-endian encoding: [to_le_bytes]. *)
Definition le_bytes (n : nat) (v : Z) : list Z := rev (be_bytes n v).

Lemma le_value_rev l : le_value (rev l) = be_value l.
Proof.
  unfold le_value, be_value. rewrite fold_left_rev_right. generalize 0. induction l as [|b l IH]; intros w; cbn [fold_left]; [done|].
  rewrite IH. f_equal. lia.
Qed.

Lemma le_value_range l : Forall (fun b => 0 <= b < 256) l -> 0 <= le_value l < 256 ^ zlen l.
Proof.
  intros Hl. pose proof (le_value_rev (rev l)) as E. rewrite rev_involutive in E. rewrite E.
  pose proof (be_value_range (rev l) ltac:(by rewrite <- Permutation_rev)) as H. unfold zlen in *. by rewrite length_rev in H.
Qed.

Lemma le_value_le_bytes n v : le_value (le_bytes n v) = v mod 256 ^ Z.of_nat n.
Proof. unfold le_bytes. by rewrite le_value_rev, be_value_be_bytes. Qed.

Lemma length_le_bytes n v : length (le_bytes n v) = n.
Proof. unfold le_bytes. by rewrite length_rev, length_be_bytes. Qed.

(** Eight bits of a byte. *)
Lemma bits_val_byte l i :
  Forall (fun b => 0 <= b < 256) l -> 0 <= i -> bits_val (bit_at l) (8 * i) 8 = byte_at l i.
Proof.
  intros Hl Hi. pose proof (byte_at_range l i Hl) as Hb. symmetry.
  apply bits_val_unique; [lia|]. intros j Hj. destruct (Z.ltb_spec j (Z.of_nat 8)).
  - rewrite andb_true_l. unfold bit_at. replace (8 * i + Z.of_nat 8 - 1 - j) with (i * 8 + (7 - j)) by lia.
    rewrite Z.div_add_l, Z.div_small, Z.add_0_r by lia.
    rewrite (Z.add_comm (i * 8)), Z.mod_add, Z.mod_small by lia. f_equal. lia.
  - simpl. rewrite <- (Z.mod_small (byte_at l i) (2 ^ 8)) by (simpl; lia).
    apply Z.mod_pow2_bits_high. simpl in *. lia.
Qed.

(** A big-endian word of [n] bytes is the field of [8 n] bits. *)
Lemma be_value_field l p n :
  Forall (fun b => 0 <= b < 256) l -> 0 <= p -> p + Z.of_nat n <= zlen l ->
  be_value (take n (drop (Z.to_nat p) l)) = bits_val (bit_at l) (8 * p) (8 * n).
Proof.
  intros Hl Hp. induction n as [|n IH]; intros Hn; [done|].
  assert (drop (Z.to_nat p) l !! n = Some (byte_at l (p + Z.of_nat n))) as Hx.
  { rewrite byte_at_nth by lia. rewrite lookup_drop.
    replace (Z.to_nat (p + Z.of_nat n)) with (Z.to_nat p + n)%nat by lia.
    destruct (nth_lookup_or_length l (Z.to_nat p + n) 0) as [?|?]; [done|].
    unfold zlen in *. lia. }
  rewrite (take_S_r _ _ _ Hx), be_value_app. simpl fold_left.
  rewrite IH by lia. replace (8 * S n)%nat with (8 * n + 8)%nat by lia.
  rewrite bits_val_app. f_equal.
  replace (8 * p + Z.of_nat (8 * n)) with (8 * (p + Z.of_nat n)) by lia.
  by rewrite bits_val_byte by (done || lia).
Qed.

(** ** Bit lists *)

Lemma length_bits_of n v : length (bits_of n v) = n.
Proof. induction n; simpl; congruence. Qed.

Lemma bits_of_lookup n v i :
  (i < n)%nat -> bits_of n v !! i = Some (Z.testbit v (Z.of_nat n - 1 - Z.of_nat i)).
Proof.
  revert i. induction n as [|n IH]; intros i Hi; [lia|]. destruct i as [|i]; simpl.
  - do 2 f_equal. lia.
  - rewrite IH by lia. do 2 f_equal. lia.
Qed.

Lemma bits_of_ext n v w :
  (forall j, 0 <= j < Z.of_nat n -> Z.testbit v j = Z.testbit w j) -> bits_of n v = bits_of n w.
Proof.
  induction n as [|n IH]; intros H; [done|]. simpl. f_equal; [apply H; lia|].
  apply IH. intros j Hj. apply H. lia.
Qed.

(** A wider field is its high part followed by its low part. *)
Lemma bits_of_app n m v : bits_of (n + m) v = bits_of n (Z.shiftr v (Z.of_nat m)) ++ bits_of m v.
Proof.
  induction n as [|n IH]; [done|]. simpl. rewrite IH. f_equal.
  rewrite Z.shiftr_spec by lia. f_equal. lia.
Qed.

Lemma bits_of_zero n : bits_of n 0 = replicate n false.
Proof. induction n; simpl; rewrite ?Z.bits_0; congruence. Qed.

Lemma bits_of_bytes_app l k : bits_of_bytes (l ++ k) = bits_of_bytes l ++ bits_of_bytes k.
Proof. unfold bits_of_bytes. by rewrite map_app, concat_app. Qed.

Lemma length_bits_of_bytes l : length (bits_of_bytes l) = (8 * length l)%nat.
Proof.
  unfold bits_of_bytes. induction l as [|b l IH]; [done|]. cbn [map concat].
  rewrite length_app, length_bits_of, IH. simpl length. lia.
Qed.

(** The list of bits is the bit function. *)
Lemma bits_of_bytes_lookup l i :
  (i < 8 * length l)%nat -> bits_of_bytes l !! i = Some (bit_at l (Z.of_nat i)).
Proof.
  revert i. induction l as [|b l IH]; intros i Hi; [simpl in Hi; lia|].
  unfold bits_of_bytes in *. cbn [map concat]. unfold bit_at.
  destruct (decide (i < 8)%nat) as [Hlt|Hge].
  - rewrite lookup_app_l by (rewrite length_bits_of; lia). rewrite bits_of_lookup by lia.
    rewrite Z.div_small, Z.mod_small by lia. rewrite byte_at_nth by (rewrite zlen_cons; pose proof (zlen_nonneg l); lia).
    simpl. do 2 f_equal; lia.
  - rewrite lookup_app_r by (rewrite length_bits_of; lia). rewrite length_bits_of.
    rewrite IH by (simpl in Hi; lia). unfold bit_at.
    replace (Z.of_nat i) with (Z.of_nat (i - 8) + 1 * 8) by lia.
    rewrite Z.div_add, Z.mod_add by lia. rewrite byte_at_cons; [do 3 f_equal; lia|].
    pose proof (Z.div_pos (Z.of_nat (i - 8)) 8). lia.
Qed.

(** Where a list of bits was written, the bit function spells it. *)
Definition spells (f : Z -> bool) (p : Z) (bs : list bool) : Prop :=
  forall i b, bs !! i = Some b -> f (p + Z.of_nat i) = b.

Lemma spells_app f p bs cs :
  spells f p (bs ++ cs) <-> spells f p bs /\ spells f (p + Z.of_nat (length bs)) cs.
Proof.
  unfold spells. split.
  - intros H. split; intros i b Hi.
    + apply H. by rewrite lookup_app_l by (by eapply lookup_lt_Some).
    + replace (p + Z.of_nat (length bs) + Z.of_nat i) with (p + Z.of_nat (length bs + i)) by lia.
      apply H. rewrite lookup_app_r by lia. rewrite <- Hi. f_equal. lia.
  - intros [H1 H2] i b Hi. destruct (decide (i < length bs)%nat).
    + rewrite lookup_app_l in Hi by done. auto.
    + rewrite lookup_app_r in Hi by lia. apply H2 in Hi. rewrite <- Hi. f_equal. lia.
Qed.

Lemma spells_bits_of f p n v :
  spells f p (bits_of n v) -> bits_val f p n = v mod 2 ^ Z.of_nat n.
Proof.
  intros H. apply bits_val_spells. intros i Hi.
  replace i with (Z.of_nat (Z.to_nat i)) by lia.
  assert (Hi' : (Z.to_nat i < n)%nat) by lia.
  by rewrite (H (Z.to_nat i) _ (bits_of_lookup n v _ Hi')).
Qed.

Lemma spells_bytes l : spells (bit_at l) 0 (bits_of_bytes l).
Proof.
  intros i b Hi. pose proof (lookup_lt_Some _ _ _ Hi) as Hl.
  rewrite length_bits_of_bytes in Hl. rewrite bits_of_bytes_lookup in Hi by done. by injection Hi.
Qed.

Lemma bit_at_out l i : ~ 0 <= i < 8 * zlen l -> bit_at l i = false.
Proof.
  intros H. unfold bit_at. rewrite byte_at_out; [apply Z.bits_0|].
  pose proof (Z.div_mod i 8). pose proof (Z.mod_pos_bound i 8). lia.
Qed.

Lemma bit_at_app_l l k i : i < 8 * zlen l -> bit_at (l ++ k) i = bit_at l i.
Proof.
  intros Hi. unfold bit_at. rewrite byte_at_app_l; [done|].
  apply Z.div_lt_upper_bound; lia.
Qed.

(** Reading a buffer as one field and the other way round. *)
Lemma bits_of_bits_val f p n :
  bits_of n (bits_val f p n) = map (fun i => f (p + Z.of_nat i)) (seq 0 n).
Proof.
  apply list_eq. intros i. destruct (decide (i < n)%nat) as [Hi|Hi].
  - rewrite bits_of_lookup, bits_val_testbit by lia.
    rewrite (proj2 (Z.ltb_lt _ _)) by lia. rewrite list_lookup_fmap, lookup_seq_lt by done.
    simpl. do 2 f_equal. lia.
  - rewrite !lookup_ge_None_2; [done|rewrite length_map, length_seq; lia|rewrite length_bits_of; lia].
Qed.
