(* ===== verification/Source.v ===== *)
(** * Source: what the bit-level decoders need of a reader

    The variable-length codes are written against the reader's calls only. The
    class [BitSource] states those calls and what they promise: the source
    stands at a position of a bit string, with a logical end and a malformed
    flag. [Reader] discharges it, [Golomb] is proved against it. *)

From Stdlib Require Import ZArith Lia.
From stdpp Require Import prelude.
From S2P Require Import Prelude Bits.

Inductive bitstream_error : Type :=
  | Overrun
  | Malformed
  | ValueTooLarge (value max : Z).

#[export] Instance bitstream_error_eq_dec : EqDecision bitstream_error.
Proof. solve_decision. Defined.

(** The field of [n] bits at [p], with the calls' clamp. *)
Definition field (f : Z -> bool) (p n : Z) : Z := bits_val f p (Z.to_nat n).

(** Positions stay below this bound: past it the reader's byte offset would
    saturate. *)
Definition LIM : Z := 2 ^ 62.

Lemma field_range f p n : 0 <= n -> 0 <= field f p n < 2 ^ n.
Proof. intros Hn. pose proof (bits_val_range f p (Z.to_nat n)). unfold field. by rewrite Z2Nat.id in H. Qed.

Lemma field_app f p n m :
  0 <= n -> 0 <= m -> field f p (n + m) = field f p n * 2 ^ m + field f (p + n) m.
Proof.
  intros Hn Hm. unfold field. rewrite Z2Nat.inj_add, bits_val_app by lia. by rewrite !Z2Nat.id by lia.
Qed.

Lemma field_ext f g p n : (forall i, f i = g i) -> field f p n = field g p n.
Proof. intros H. apply bits_val_ext. auto. Qed.

Class BitSource (R : Type) : Type := {
  src_peek : R -> Z -> Z * R;
  src_get : R -> Z -> Z * R;
  src_skip : R -> Z -> R;
  src_get_long : R -> Z -> Z * R;
  src_flag : R -> R;
  src_left : R -> Z;
  src_over : R -> bool;

  (** [src_at f limit r p fl]: [r] stands at bit [p] of [f], whose logical end
      is [limit], with the malformed flag [fl]. *)
  src_at : (Z -> bool) -> Z -> R -> Z -> bool -> Prop;

  src_peek_ok f limit r p fl n :
    src_at f limit r p fl -> 0 <= n <= 32 -> p <= LIM ->
    exists r', src_peek r n = (field f p n, r') /\ src_at f limit r' p fl;
  src_get_ok f limit r p fl n :
    src_at f limit r p fl -> 0 <= n <= 32 -> p <= LIM ->
    exists r', src_get r n = (field f p n, r') /\ src_at f limit r' (p + n) fl;
  src_skip_ok f limit r p fl n :
    src_at f limit r p fl -> 0 <= n -> p + n <= LIM ->
    src_at f limit (src_skip r n) (p + n) fl;
  src_get_long_ok f limit r p fl n :
    src_at f limit r p fl -> 0 <= n <= 64 -> p + 32 <= LIM ->
    exists r', src_get_long r n = (field f p n, r') /\ src_at f limit r' (p + n) fl;
  src_flag_ok f limit r p fl :
    src_at f limit r p fl -> src_at f limit (src_flag r) p true;
  src_left_ok f limit r p fl :
    src_at f limit r p fl -> p <= LIM ->
    src_left r = if fl then 0 else Z.max 0 (limit - p);
  src_over_ok f limit r p fl :
    src_at f limit r p fl -> p <= LIM ->
    src_over r = fl || (limit <? p);
}.
