(* ===== verification/Reader.v ===== *)
(** * Reader: the cached MSB-first bit reader of [vaco-bitstream]

    [src/crates/core/vaco-bitstream/src/reader.rs] and [padded.rs]. The reader
    keeps a 64-bit cache over a byte slice; the specification keeps only a bit
    position. The simulation theorem says that no sequence of calls can tell
    them apart. Release semantics: the [debug_assert]s on field widths are the
    clamps that follow them. [usize] is 64 bits wide. *)

From Stdlib Require Import ZArith Lia.
From stdpp Require Import prelude.
From S2P Require Import Prelude Bits Source.

(** ** The padded buffer *)

Module Padded.

Record padded : Type := MkPadded { bytes : list Z; logical_len : Z }.

Definition PAD : Z := 64.

Definition new (bytes : list Z) (logical_len : Z) : option padded :=
  rest ← get_from bytes logical_len;
  pad ← get_range rest 0 PAD;
  if existsb (fun b => negb (b =? 0)) pad then None
  else Some (MkPadded bytes logical_len).

(** [Vec::resize] with zeros. *)
Definition resize (l : list Z) (n : Z) : list Z :=
  take (Z.to_nat n) l ++ replicate (Z.to_nat (n - zlen l)) 0.

(** The scratch buffer's previous contents are cleared. *)
Definition from_slice_copying (src : list Z) : padded :=
  MkPadded (resize src (zlen src + PAD)) (zlen src).

Definition logical_bytes (p : padded) : list Z :=
  default (bytes p) (get_range (bytes p) 0 (logical_len p)).

End Padded.

(** ** The reader *)

Module BitReader.

Record reader : Type := Reader {
  data : list Z;
  logical_bits : Z;
  pos : Z;
  cache : Z;
  cache_bits : Z;
  flagged : bool;
}.

Record mark_t : Type := Mark {
  m_pos : Z;
  m_cache : Z;
  m_cache_bits : Z;
  m_flagged : bool;
}.

Definition new (data : list Z) : reader :=
  Reader data (sat_u 64 (zlen data * 8)) 0 0 0 false.

Definition new_padded (p : Padded.padded) : reader :=
  Reader (Padded.bytes p) (sat_u 64 (Padded.logical_len p * 8)) 0 0 0 false.

Definition with_logical_len (data : list Z) (logical_len : Z) : reader :=
  let logical_len := if zlen data <? logical_len then zlen data else logical_len in
  Reader data (sat_u 64 (logical_len * 8)) 0 0 0 false.

(** The byte-at-a-time tail: [(w << 8) | b] for eight bytes. *)
Definition tail_word (r : reader) : Z :=
  fold_left (fun w i =>
    Z.lor (wrap_u 64 (Z.shiftl w 8)) (byte_at (data r) (sat_u 64 (pos r + Z.of_nat i))))
    (seq 0 8) 0.

Definition refill (r : reader) : reader :=
  if 56 <? cache_bits r then r else
  let chunk :=
    match (s ← get_from (data r) (pos r); first_chunk 8 s) with
    | Some c => be_value c
    | None => tail_word r
    end in
  let take := Z.shiftr (64 - cache_bits r) 3 in
  Reader (data r) (logical_bits r) (sat_u 64 (pos r + take))
    (Z.lor (cache r) (Z.shiftr chunk (cache_bits r))) (cache_bits r + take * 8) (flagged r).

(** [cache <<= n; cache_bits -= n]. *)
Definition consume (r : reader) (n : Z) : reader :=
  Reader (data r) (logical_bits r) (pos r) (wrap_u 64 (Z.shiftl (cache r) n))
    (cache_bits r - n) (flagged r).

Definition get (r : reader) (n : Z) : Z * reader :=
  let n := Z.min n 32 in
  if n =? 0 then (0, r) else
  let r := if cache_bits r <? n then refill r else r in
  (wrap_u 32 (Z.shiftr (cache r) (64 - n)), consume r n).

Definition get_bit (r : reader) : Z * reader := get r 1.

Definition peek (r : reader) (n : Z) : Z * reader :=
  let n := Z.min n 32 in
  if n =? 0 then (0, r) else
  let r := if cache_bits r <? n then refill r else r in
  (wrap_u 32 (Z.shiftr (cache r) (64 - n)), r).

(** The large half of [skip] and [skip_long]: move [pos] directly. *)
Definition jump (r : reader) (rest : Z) : reader :=
  let r := Reader (data r) (logical_bits r) (sat_u 64 (pos r + Z.shiftr rest 3)) 0 0 (flagged r) in
  let bits := Z.land rest 7 in
  if bits =? 0 then r else consume (refill r) bits.

Definition skip (r : reader) (n : Z) : reader :=
  if n =? 0 then r
  else if n <? cache_bits r then consume r n
  else jump r (n - cache_bits r).

Definition skip_long (r : reader) (n : Z) : reader :=
  if n <=? cache_bits r then skip r n else jump r (n - cache_bits r).

Definition skip_bytes (r : reader) (n : Z) : reader := skip_long r (sat_u 64 (n * 8)).

Definition get_long (r : reader) (n : Z) : Z * reader :=
  let n := Z.min n 64 in
  if n <=? 32 then get r n else
  let (hi, r) := get r (n - 32) in
  let (lo, r) := get r 32 in
  (Z.lor (wrap_u 64 (Z.shiftl hi 32)) lo, r).

Definition get_signed (r : reader) (n : Z) : Z * reader :=
  let n := Z.min n 32 in
  if n =? 0 then (0, r) else
  let (v, r) := get r n in
  let shift := 32 - n in
  (Z.shiftr (wrap_i 32 (Z.shiftl v shift)) shift, r).

Definition bit_pos (r : reader) : Z := Z.max 0 (sat_u 64 (pos r * 8) - cache_bits r).

Definition bits_left (r : reader) : Z :=
  if flagged r then 0 else Z.max 0 (logical_bits r - bit_pos r).

Definition try_get (r : reader) (n : Z) : result bitstream_error (Z * reader) :=
  if flagged r || (bits_left r <? n) then Err Overrun else Ok (get r n).

Definition align (r : reader) : reader := skip r (Z.land (cache_bits r) 7).

(** [u32::trailing_zeros]. *)
Definition trailing_zeros (z : Z) : Z := if z =? 0 then 32 else Z.log2 (Z.land z (- z)).

Definition is_aligned (r : reader) : bool := 3 <=? trailing_zeros (cache_bits r).

Definition overrun (r : reader) : bool := flagged r || (logical_bits r <? bit_pos r).

Definition flag_malformed (r : reader) : reader :=
  Reader (data r) (logical_bits r) (pos r) (cache r) (cache_bits r) true.

Definition check (r : reader) : result bitstream_error unit :=
  if overrun r then Err Overrun else Ok tt.

Definition finish (r : reader) : result bitstream_error unit := check r.

Definition mark (r : reader) : mark_t := Mark (pos r) (cache r) (cache_bits r) (flagged r).

Definition restore (r : reader) (m : mark_t) : reader :=
  Reader (data r) (logical_bits r) (m_pos m) (m_cache m) (m_cache_bits m) (m_flagged m).

Definition remaining_bytes (r : reader) : list Z :=
  let start := (bit_pos r + 7) / 8 in
  let end_ := Z.shiftr (logical_bits r) 3 in
  if end_ <=? start then [] else default [] (get_range (data r) start end_).

(** ** The specification

    A position in the bit string and the malformed flag. *)

(** The reader stands at bit [p]: the cache holds the data from [p] on, and the
    invalid bits below [cache_bits] are either what the next refill will load or
    zero. *)
Definition cache_ok (f : Z -> bool) (p cache cache_bits : Z) : Prop :=
  exists m, cache_bits <= m <= 64 /\
    forall j, 0 <= j < 64 -> Z.testbit cache (63 - j) = (j <? m) && f (p + j).

Record at_bit (r : reader) (p : Z) : Prop := {
  at_buffer : buffer (data r);
  at_bits : 0 <= cache_bits r <= 64;
  at_cache : 0 <= cache r < 2 ^ 64;
  at_pos : 0 <= p;
  at_p : p = 8 * pos r - cache_bits r;
  at_ok : cache_ok (bit_at (data r)) p (cache r) (cache_bits r);
}.

Definition sign_extend (n v : Z) : Z := if v <? 2 ^ (n - 1) then v else v - 2 ^ n.

(** *** The cache *)

Lemma tail_word_fold r k :
  buffer (data r) -> 0 <= pos r -> (k <= 8)%nat ->
  fold_left (fun w i =>
    Z.lor (wrap_u 64 (Z.shiftl w 8)) (byte_at (data r) (sat_u 64 (pos r + Z.of_nat i))))
    (seq 0 k) 0 = bits_val (bit_at (data r)) (8 * pos r) (8 * k).
Proof.
  intros [Hb Hl] Hp. induction k as [|k IH]; intros Hk; [done|].
  rewrite seq_S, fold_left_app, IH by lia. cbn [fold_left].
  pose proof (bits_val_range (bit_at (data r)) (8 * pos r) (8 * k)) as Hr.
  assert (2 ^ Z.of_nat (8 * k) <= 2 ^ 56) by (apply Z.pow_le_mono_r; lia).
  rewrite wrap_u_id.
  2:{ rewrite Z.shiftl_mul_pow2 by lia. simpl in *. lia. }
  rewrite lor_disjoint by (try apply byte_at_range; try done; lia).
  replace (8 * S k)%nat with (8 * k + 8)%nat by lia. rewrite bits_val_app.
  replace (8 * pos r + Z.of_nat (8 * k)) with (8 * (pos r + Z.of_nat k)) by lia.
  rewrite bits_val_byte by (done || lia). f_equal. cbn [Nat.add].
  unfold sat_u. destruct (decide (pos r + Z.of_nat k <= 2 ^ 64 - 1)); [f_equal; lia|].
  rewrite !byte_at_out by lia. done.
Qed.

(** Body and tail load the same word. *)
Lemma chunk_word r :
  buffer (data r) -> 0 <= pos r ->
  match (s ← get_from (data r) (pos r); first_chunk 8 s) with
  | Some c => be_value c
  | None => tail_word r
  end = bits_val (bit_at (data r)) (8 * pos r) 64.
Proof.
  intros Hb Hp. unfold tail_word. rewrite tail_word_fold by (done || lia).
  change (8 * 8)%nat with 64%nat.
  destruct (get_from (data r) (pos r)) as [s|] eqn:E; simpl; [|done].
  apply get_from_Some in E as [HE ->].
  destruct (first_chunk 8 _) as [c|] eqn:E2; [|done].
  apply first_chunk_Some in E2 as [HE2 ->]. rewrite zlen_drop in HE2 by lia.
  change (Z.to_nat 8) with 8%nat. by rewrite be_value_field by (apply Hb || lia).
Qed.

Lemma refill_ok r p :
  at_bit r p -> p < 2 ^ 64 - 64 -> at_bit (refill r) p /\ 56 < cache_bits (refill r).
Proof.
  intros Hr Hp. unfold refill. destruct (Z.ltb_spec 56 (cache_bits r)); [done|].
  destruct Hr as [Hb Hcb Hc Hp0 Hpe (m & Hm & Hbits)].
  rewrite chunk_word by (done || lia). set (w := bits_val _ _ _).
  assert (0 <= w < 2 ^ 64) as Hw by apply bits_val_range.
  rewrite Z.shiftr_div_pow2 by lia. change (2 ^ 3) with 8.
  pose proof (Z.div_mod (64 - cache_bits r) 8). pose proof (Z.mod_pos_bound (64 - cache_bits r) 8).
  split; [|simpl; lia]. split; simpl; [done|lia| |done| |].
  - apply lor_range; [lia|done|]. split; [apply Z.shiftr_nonneg; lia|].
    rewrite Z.shiftr_div_pow2 by lia. pose proof (Z.pow_pos_nonneg 2 (cache_bits r)).
    apply Z.div_lt_upper_bound; nia.
  - rewrite sat_u_id by lia. lia.
  - exists 64. split; [lia|]. intros j Hj. rewrite (proj2 (Z.ltb_lt _ _)) by lia.
    rewrite Z.lor_spec, Hbits, Z.shiftr_spec by lia. unfold w. rewrite bits_val_testbit by lia.
    replace (8 * pos r + Z.of_nat 64 - 1 - (63 - j + cache_bits r)) with (p + j) by lia.
    destruct (Z.ltb_spec j m), (Z.ltb_spec (63 - j + cache_bits r) (Z.of_nat 64)); simpl;
      rewrite ?orb_false_r, ?orb_diag; done || lia.
Qed.

Lemma consume_ok r p n : at_bit r p -> 0 <= n <= cache_bits r -> at_bit (consume r n) (p + n).
Proof.
  intros [Hb Hcb Hc Hp0 Hpe (m & Hm & Hbits)] Hn. split; simpl; [done|lia| |lia|lia|].
  - apply wrap_u_range. lia.
  - exists (m - n). split; [lia|]. intros j Hj. unfold wrap_u.
    rewrite Z.mod_pow2_bits_low by lia. destruct (decide (63 - j < n)).
    + rewrite Z.shiftl_spec_low by lia. by rewrite (proj2 (Z.ltb_ge _ _)) by lia.
    + rewrite Z.shiftl_spec by lia. replace (63 - j - n) with (63 - (j + n)) by lia.
      rewrite Hbits by lia. f_equal; [|f_equal; lia].
      destruct (Z.ltb_spec (j + n) m), (Z.ltb_spec j (m - n)); lia.
Qed.

(** The top bits of the cache are the field. *)
Lemma cache_field r p n :
  at_bit r p -> 0 < n <= 32 -> n <= cache_bits r ->
  wrap_u 32 (Z.shiftr (cache r) (64 - n)) = field (bit_at (data r)) p n.
Proof.
  intros [Hb Hcb Hc Hp0 Hpe (m & Hm & Hbits)] Hn Hle.
  assert (Z.shiftr (cache r) (64 - n) = field (bit_at (data r)) p n) as ->.
  - apply bits_val_unique; [apply Z.shiftr_nonneg; lia|]. intros j Hj.
    rewrite Z.shiftr_spec by lia. rewrite Z2Nat.id by lia.
    destruct (Z.ltb_spec j n).
    + replace (j + (64 - n)) with (63 - (n - 1 - j)) by lia. rewrite Hbits by lia.
      rewrite (proj2 (Z.ltb_lt _ _)) by lia. simpl. f_equal. lia.
    + rewrite <- (Z.mod_small (cache r) (2 ^ 64)), Z.mod_pow2_bits_high by lia. done.
  - apply wrap_u_id. pose proof (field_range (bit_at (data r)) p n).
    assert (2 ^ n <= 2 ^ 32) by (apply Z.pow_le_mono_r; lia). lia.
Qed.

(** *** The operations

    Positions stay below [LIM]; past it [pos] would saturate. *)

Lemma new_at d n :
  buffer d -> at_bit (Reader d n 0 0 0 false) 0.
Proof.
  intros Hb. split; simpl; try done; try lia.
  exists 0. split; [lia|]. intros j Hj. rewrite Z.bits_0.
  by rewrite (proj2 (Z.ltb_ge _ _)) by lia.
Qed.

(** Reading leaves everything but the position alone. *)
Definition same_source (r r' : reader) : Prop :=
  data r' = data r /\ logical_bits r' = logical_bits r /\ flagged r' = flagged r.

Lemma same_source_refl r : same_source r r.
Proof. done. Qed.

Lemma same_source_trans r s t : same_source r s -> same_source s t -> same_source r t.
Proof. unfold same_source. intros (?&?&?) (?&?&?). repeat split; congruence. Qed.

Lemma refill_same r : same_source r (refill r).
Proof. unfold refill. by destruct (_ <? _). Qed.

(** A refill leaves enough bits for any narrow read. *)
Lemma refill_for r p n :
  at_bit r p -> 0 <= n <= 57 -> p < 2 ^ 64 - 64 ->
  let r' := if cache_bits r <? n then refill r else r in
  at_bit r' p /\ n <= cache_bits r' /\ same_source r r'.
Proof.
  intros Hr Hn Hp. destruct (Z.ltb_spec (cache_bits r) n); simpl; [|done].
  destruct (refill_ok r p Hr Hp). split; [done|]. split; [lia|apply refill_same].
Qed.

Lemma peek_ok r p n :
  at_bit r p -> 0 <= n -> p <= LIM ->
  let '(v, r') := peek r n in
  v = field (bit_at (data r)) p (Z.min n 32) /\ at_bit r' p /\ same_source r r'.
Proof.
  intros Hr Hn Hp. unfold peek, LIM in *. destruct (Z.eqb_spec (Z.min n 32) 0) as [->|Hne].
  { split; [done|]. by split. }
  destruct (refill_for r p (Z.min n 32) Hr) as (Ha & Hc & Hs); [lia|lia|].
  split; [|by split]. destruct Hs as (<- & _). apply cache_field; [done|lia|done].
Qed.

Lemma get_peek r n :
  get r n = let '(v, r') := peek r n in
            (v, if Z.min n 32 =? 0 then r' else consume r' (Z.min n 32)).
Proof. unfold get, peek. by destruct (_ =? 0). Qed.

Lemma get_ok r p n :
  at_bit r p -> 0 <= n -> p <= LIM ->
  let '(v, r') := get r n in
  v = field (bit_at (data r)) p (Z.min n 32) /\ at_bit r' (p + Z.min n 32) /\ same_source r r'.
Proof.
  intros Hr Hn Hp. unfold get, LIM in *. destruct (Z.eqb_spec (Z.min n 32) 0) as [->|Hne].
  { rewrite Z.add_0_r. split; [done|]. by split. }
  destruct (refill_for r p (Z.min n 32) Hr) as (Ha & Hc & Hs); [lia|lia|].
  split; [|split; [apply consume_ok; [done|lia]|]].
  - destruct Hs as (<- & _). apply cache_field; [done|lia|done].
  - destruct Hs as (?&?&?). by repeat split.
Qed.

Lemma jump_ok r p n :
  at_bit r p -> cache_bits r <= n -> p + n <= LIM ->
  at_bit (jump r (n - cache_bits r)) (p + n) /\ same_source r (jump r (n - cache_bits r)).
Proof.
  intros [Hb Hcb Hc Hp0 Hpe _] Hn Hp. unfold jump, LIM in *.
  set (rest := n - cache_bits r). rewrite Z.shiftr_div_pow2 by lia. change (2 ^ 3) with 8.
  change 7 with (Z.ones 3). rewrite Z.land_ones by lia. change (2 ^ 3) with 8.
  pose proof (Z.div_mod rest 8). pose proof (Z.mod_pos_bound rest 8).
  assert (0 <= rest / 8) by (apply Z.div_pos; lia).
  rewrite sat_u_id by lia.
  set (r0 := Reader _ _ _ _ _ _).
  assert (at_bit r0 (p + n - rest mod 8)) as Hr0.
  { subst r0. split; simpl; [done|lia|lia|lia|lia|].
    exists 0. split; [lia|]. intros j Hj. rewrite Z.bits_0. by rewrite (proj2 (Z.ltb_ge _ _)) by lia. }
  destruct (Z.eqb_spec (rest mod 8) 0) as [He|Hne].
  { split; [|done]. by rewrite He, Z.sub_0_r in Hr0. }
  destruct (refill_ok _ _ Hr0) as [H1' H2']; [lia|]. split.
  - replace (p + n) with (p + n - rest mod 8 + rest mod 8) by lia. apply consume_ok; [done|lia].
  - by apply (same_source_trans r r0), (refill_same r0).
Qed.

Lemma skip_ok r p n :
  at_bit r p -> 0 <= n -> p + n <= LIM ->
  at_bit (skip r n) (p + n) /\ same_source r (skip r n).
Proof.
  intros Hr Hn Hp. unfold skip. destruct (Z.eqb_spec n 0) as [->|Hne].
  { by rewrite Z.add_0_r. }
  destruct (Z.ltb_spec n (cache_bits r)).
  - split; [|done]. apply consume_ok; [done|lia].
  - by apply jump_ok.
Qed.

Lemma skip_long_ok r p n :
  at_bit r p -> 0 <= n -> p + n <= LIM ->
  at_bit (skip_long r n) (p + n) /\ same_source r (skip_long r n).
Proof.
  intros Hr Hn Hp. unfold skip_long. destruct (Z.leb_spec n (cache_bits r)).
  - by apply skip_ok.
  - apply jump_ok; [done|lia|done].
Qed.

Lemma get_long_ok r p n :
  at_bit r p -> 0 <= n -> p + 32 <= LIM ->
  let '(v, r') := get_long r n in
  v = field (bit_at (data r)) p (Z.min n 64) /\ at_bit r' (p + Z.min n 64) /\ same_source r r'.
Proof.
  intros Hr Hn Hp. unfold get_long. destruct (Z.leb_spec (Z.min n 64) 32).
  { pose proof (get_ok r p (Z.min n 64) Hr ltac:(lia) ltac:(lia)) as H0.
    by replace (Z.min (Z.min n 64) 32) with (Z.min n 64) in H0 by lia. }
  pose proof (get_ok r p (Z.min n 64 - 32) Hr ltac:(lia) ltac:(lia)) as H0.
  destruct (get r (Z.min n 64 - 32)) as [hi r1]. destruct H0 as (-> & H1 & Hs1).
  replace (Z.min (Z.min n 64 - 32) 32) with (Z.min n 64 - 32) in * by lia.
  pose proof (get_ok r1 (p + (Z.min n 64 - 32)) 32 H1 ltac:(lia) ltac:(lia)) as H0.
  destruct (get r1 32) as [lo r2]. destruct H0 as (-> & H2 & Hs2).
  change (Z.min 32 32) with 32 in *.
  split; [|split; [|by eapply same_source_trans]].
  - destruct Hs1 as (-> & _).
    pose proof (field_range (bit_at (data r)) p (Z.min n 64 - 32) ltac:(lia)).
    pose proof (field_range (bit_at (data r)) (p + (Z.min n 64 - 32)) 32 ltac:(lia)).
    assert (2 ^ (Z.min n 64 - 32) <= 2 ^ 32) by (apply Z.pow_le_mono_r; lia).
    rewrite wrap_u_id by (rewrite Z.shiftl_mul_pow2 by lia; lia).
    rewrite lor_disjoint by lia.
    replace (Z.min n 64) with (Z.min n 64 - 32 + 32) at 3 by lia. by rewrite field_app by lia.
  - by replace (p + Z.min n 64) with (p + (Z.min n 64 - 32) + 32) by lia.
Qed.

(** Shifting up and back is sign extension. *)
Lemma shift_sign_extend v n :
  0 < n <= 32 -> 0 <= v < 2 ^ n ->
  Z.shiftr (wrap_i 32 (Z.shiftl v (32 - n))) (32 - n) = sign_extend n v.
Proof.
  intros Hn Hv. unfold wrap_i, sign_extend. change (32 - 1) with 31.
  rewrite Z.shiftl_mul_pow2, Z.shiftr_div_pow2 by lia.
  assert (2 ^ 31 = 2 ^ (n - 1) * 2 ^ (32 - n)) as E1 by (rewrite <- Z.pow_add_r by lia; f_equal; lia).
  assert (2 ^ 32 = 2 * 2 ^ 31) as E2 by done.
  assert (2 ^ n = 2 * 2 ^ (n - 1)) as E3 by (rewrite <- Z.pow_succ_r by lia; f_equal; lia).
  assert (0 < 2 ^ (32 - n)) by (apply Z.pow_pos_nonneg; lia).
  destruct (Z.ltb_spec v (2 ^ (n - 1))).
  - rewrite Z.mod_small by nia. replace (_ + _ - _) with (v * 2 ^ (32 - n)) by lia.
    by rewrite Z.div_mul by lia.
  - replace (v * 2 ^ (32 - n) + 2 ^ 31) with (v * 2 ^ (32 - n) - 2 ^ 31 + 1 * 2 ^ 32) by lia.
    rewrite Z.mod_add by lia. rewrite Z.mod_small by nia.
    replace (_ - _ - _) with ((v - 2 ^ n) * 2 ^ (32 - n)) by nia.
    by rewrite Z.div_mul by lia.
Qed.

Lemma get_signed_ok r p n :
  at_bit r p -> 0 <= n -> p <= LIM ->
  let '(v, r') := get_signed r n in
  v = (if n =? 0 then 0 else sign_extend (Z.min n 32) (field (bit_at (data r)) p (Z.min n 32))) /\
  at_bit r' (p + Z.min n 32) /\ same_source r r'.
Proof.
  intros Hr Hn Hp. unfold get_signed. destruct (Z.eqb_spec (Z.min n 32) 0) as [E|Hne].
  { rewrite E, Z.add_0_r. replace (n =? 0) with true by (symmetry; apply Z.eqb_eq; lia). done. }
  rewrite (proj2 (Z.eqb_neq n 0)) by lia.
  pose proof (get_ok r p (Z.min n 32) Hr ltac:(lia) Hp) as H0.
  destruct (get r (Z.min n 32)) as [v r1]. destruct H0 as (-> & H1 & Hs).
  replace (Z.min (Z.min n 32) 32) with (Z.min n 32) in * by lia.
  split; [|done]. apply shift_sign_extend; [lia|]. apply field_range. lia.
Qed.

Lemma bit_pos_at r p : at_bit r p -> p <= LIM -> bit_pos r = p.
Proof.
  intros [_ Hcb _ Hp0 Hpe _] Hp. unfold bit_pos, LIM in *. rewrite sat_u_id by lia. lia.
Qed.

(** The alignment distance does not depend on the cache. *)
Lemma align_dist r p : at_bit r p -> Z.land (cache_bits r) 7 = (- p) mod 8.
Proof.
  intros [_ Hcb _ Hp0 Hpe _]. change 7 with (Z.ones 3). rewrite Z.land_ones by lia.
  change (2 ^ 3) with 8. replace (cache_bits r) with (- p + pos r * 8) by lia.
  by rewrite Z.mod_add by lia.
Qed.

Lemma trailing_zeros_aligned c : 0 <= c <= 64 -> (3 <=? trailing_zeros c) = (c mod 8 =? 0).
Proof.
  intros Hc.
  assert (forallb (fun c => Bool.eqb (3 <=? trailing_zeros c) (c mod 8 =? 0))
            (map Z.of_nat (seq 0 65)) = true) as H by done.
  rewrite forallb_forall in H. apply Bool.eqb_prop, H, in_map_iff.
  exists (Z.to_nat c). split; [lia|]. apply in_seq. lia.
Qed.

Lemma is_aligned_at r p : at_bit r p -> is_aligned r = (p mod 8 =? 0).
Proof.
  intros [_ Hcb _ Hp0 Hpe _]. unfold is_aligned. rewrite trailing_zeros_aligned by done.
  pose proof (Z.div_mod p 8). pose proof (Z.mod_pos_bound p 8).
  pose proof (Z.div_mod (cache_bits r) 8). pose proof (Z.mod_pos_bound (cache_bits r) 8).
  destruct (Z.eqb_spec (p mod 8) 0), (Z.eqb_spec (cache_bits r mod 8) 0); done || lia.
Qed.

(** ** Call sequences

    Every call a parser can make, [mark] and [restore] through a stack of saved
    positions, run on the reader and on the specification. *)

Inductive op : Type :=
  | OGetBit
  | OGet (n : Z)
  | OPeek (n : Z)
  | OSkip (n : Z)
  | OSkipLong (n : Z)
  | OSkipBytes (n : Z)
  | OGetLong (n : Z)
  | OGetSigned (n : Z)
  | OTryGet (n : Z)
  | OAlign
  | OFlag
  | OMark
  | ORestore
  | OQuery.

(** What a call shows: a value, an error, or for [OQuery] the answers of
    [bit_pos], [bits_left], [overrun], [is_aligned] and [remaining_bytes]. *)
Inductive out : Type :=
  | Value (v : Z)
  | Failed (e : bitstream_error)
  | Status (pos left : Z) (over aligned : bool) (rest : list Z)
  | Quiet.

Definition value (p : Z * reader) : out * reader := (Value (fst p), snd p).

Definition step (o : op) (st : reader * list mark_t) : out * (reader * list mark_t) :=
  let (r, ms) := st in
  let on p := (fst p, (snd p, ms)) in
  match o with
  | OGetBit => on (value (get_bit r))
  | OGet n => on (value (get r n))
  | OPeek n => on (value (peek r n))
  | OSkip n => on (Quiet, skip r n)
  | OSkipLong n => on (Quiet, skip_long r n)
  | OSkipBytes n => on (Quiet, skip_bytes r n)
  | OGetLong n => on (value (get_long r n))
  | OGetSigned n => on (value (get_signed r n))
  | OTryGet n => on (match try_get r n with Ok p => value p | Err e => (Failed e, r) end)
  | OAlign => on (Quiet, align r)
  | OFlag => on (Quiet, flag_malformed r)
  | OMark => (Quiet, (r, mark r :: ms))
  | ORestore => (Quiet, match ms with m :: ms => (restore r m, ms) | [] => (r, []) end)
  | OQuery => on (Status (bit_pos r) (bits_left r) (overrun r) (is_aligned r) (remaining_bytes r), r)
  end.

Fixpoint run {S : Type} (step : op -> S -> out * S) (ops : list op) (s : S) : list out * S :=
  match ops with
  | [] => ([], s)
  | o :: ops =>
    let (x, s) := step o s in
    let (xs, s) := run step ops s in
    (x :: xs, s)
  end.

(** The specification state: the bit position, the flag, and the saved ones. *)
Definition spos : Type := Z * bool.

Section spec.
  (** The bits, the logical length in bits and the logical bytes. *)
  Context (f : Z -> bool) (limit : Z) (logical : list Z).

Definition spec_step (o : op) (st : spos * list spos) : out * (spos * list spos) :=
  let '((p, fl), ms) := st in
  let left := if fl then 0 else Z.max 0 (limit - p) in
  let at_ q := ((q, fl), ms) in
  match o with
  | OGetBit => (Value (field f p 1), at_ (p + 1))
  | OGet n => (Value (field f p (Z.min n 32)), at_ (p + Z.min n 32))
  | OPeek n => (Value (field f p (Z.min n 32)), at_ p)
  | OSkip n | OSkipLong n => (Quiet, at_ (p + n))
  | OSkipBytes n => (Quiet, at_ (p + 8 * n))
  | OGetLong n => (Value (field f p (Z.min n 64)), at_ (p + Z.min n 64))
  | OGetSigned n =>
    (Value (if n =? 0 then 0 else sign_extend (Z.min n 32) (field f p (Z.min n 32))),
     at_ (p + Z.min n 32))
  | OTryGet n =>
    if fl || (left <? n) then (Failed Overrun, at_ p)
    else (Value (field f p (Z.min n 32)), at_ (p + Z.min n 32))
  | OAlign => (Quiet, at_ (p + (- p) mod 8))
  | OFlag => (Quiet, ((p, true), ms))
  | OMark => (Quiet, ((p, fl), (p, fl) :: ms))
  | ORestore => (Quiet, match ms with m :: ms => (m, ms) | [] => ((p, fl), []) end)
  | OQuery =>
    (Status p left (fl || (limit <? p)) (p mod 8 =? 0) (drop (Z.to_nat ((p + 7) / 8)) logical),
     at_ p)
  end.
End spec.

(** How far a call may move the position; its width argument is unsigned. *)
Definition op_cost (o : op) : Z :=
  match o with
  | OGetBit => 1
  | OGet _ | OPeek _ | OGetSigned _ | OTryGet _ => 32
  | OGetLong _ => 64
  | OSkip n | OSkipLong n => n
  | OSkipBytes n => 8 * n
  | OAlign => 8
  | _ => 0
  end.

Definition op_ok (o : op) : bool :=
  match o with
  | OGet n | OPeek n | OGetSigned n | OTryGet n | OGetLong n | OSkip n => in_u 32 n
  | OSkipLong n | OSkipBytes n => in_u 64 n
  | _ => true
  end.

Lemma op_cost_nonneg o : op_ok o = true -> 0 <= op_cost o.
Proof. destruct o; simpl; intros; breflect; lia. Qed.

Definition cost (ops : list op) : Z := fold_right (fun o c => op_cost o + c) 0 ops.

Lemma cost_nonneg ops : forallb op_ok ops = true -> 0 <= cost ops.
Proof.
  induction ops as [|o ops IH]; simpl; [lia|]. intros H. breflect. fold (cost ops).
  pose proof (op_cost_nonneg o). intuition lia.
Qed.

Definition at_spos (r : reader) (s : spos) : Prop := at_bit r (fst s) /\ flagged r = snd s.

(** The simulation relation: the reader, and each of its marks once restored,
    stands at the specification's position, none past [bound]. *)
Definition simulates (d : list Z) (limit bound : Z) (st : reader * list mark_t)
    (ss : spos * list spos) : Prop :=
  data st.1 = d /\ logical_bits st.1 = limit /\ at_spos st.1 ss.1 /\ fst ss.1 <= bound /\
  Forall2 (fun m s => at_spos (restore st.1 m) s /\ fst s <= bound) st.2 ss.2.

Lemma restore_same r r' m : same_source r r' -> restore r' m = restore r m.
Proof. intros (H1 & H2 & _). unfold restore. by rewrite H1, H2. Qed.

Lemma simulates_move d limit b b' r r' ms p fl sms q :
  simulates d limit b (r, ms) ((p, fl), sms) -> b <= b' ->
  at_bit r' q -> same_source r r' -> q <= b' ->
  simulates d limit b' (r', ms) ((q, fl), sms).
Proof.
  intros (Hd & Hl & [Ha Hf] & Hb & Hm) Hbb Ha' Hs Hq. simpl in *. unfold simulates, at_spos. simpl.
  destruct Hs as (Hs1 & Hs2 & Hs3).
  split; [congruence|]. split; [congruence|]. split; [split; [done|congruence]|]. split; [done|].
  eapply Forall2_impl; [exact Hm|]. simpl. intros m s [[H1 H2] H3].
  rewrite (restore_same r r') by done. split; [split; done|lia].
Qed.

Lemma remaining_bytes_at r p k :
  at_bit r p -> p <= LIM -> logical_bits r = 8 * k -> 0 <= k <= zlen (data r) ->
  remaining_bytes r = drop (Z.to_nat ((p + 7) / 8)) (take (Z.to_nat k) (data r)).
Proof.
  intros Ha Hp Hk Hkl. unfold remaining_bytes. rewrite (bit_pos_at r p Ha Hp), Hk.
  rewrite Z.shiftr_div_pow2 by lia. change (2 ^ 3) with 8.
  rewrite (Z.mul_comm 8), Z.div_mul by lia. destruct Ha as [_ _ _ Hp0 _ _].
  assert (0 <= (p + 7) / 8) by (apply Z.div_pos; lia). destruct (Z.leb_spec k ((p + 7) / 8)).
  - rewrite drop_ge; [done|]. rewrite length_take. lia.
  - unfold get_range. rewrite !(proj2 (Z.leb_le _ _)) by lia. simpl.
    rewrite skipn_firstn_comm. f_equal. lia.
Qed.

(** One call of the reader is one step of the specification. *)
Lemma step_simulates d k b st ss o :
  simulates d (8 * k) b st ss -> 0 <= k <= zlen d -> zlen d < 2 ^ 59 -> op_ok o = true ->
  0 <= b -> b + op_cost o + 64 <= LIM ->
  let '(x, st') := step o st in
  let '(y, ss') := spec_step (bit_at d) (8 * k) (take (Z.to_nat k) d) o ss in
  x = y /\ simulates d (8 * k) (b + op_cost o) st' ss'.
Proof.
  destruct st as [r ms], ss as [[p fl] sms]. intros Hsim Hk Hd Ho Hb Hlim.
  pose proof (op_cost_nonneg o Ho) as Hcost.
  pose proof Hsim as (Hdata & Hlog & [Ha Hf] & Hpb & Hms). cbn [fst snd] in *.
  assert (Hbp : bit_pos r = p) by (apply bit_pos_at; [done|lia]).
  assert (Hleft : bits_left r = if fl then 0 else Z.max 0 (8 * k - p)).
  { unfold bits_left. by rewrite Hf, Hlog, Hbp. }
  assert (Hmove : forall r' q, at_bit r' q -> same_source r r' -> q <= b + op_cost o ->
    simulates d (8 * k) (b + op_cost o) (r', ms) (q, fl, sms)).
  { intros. eapply simulates_move; [exact Hsim|lia|done|done|done]. }
  destruct o; cbn [step spec_step op_cost op_ok value fst snd] in *; breflect.
  - pose proof (get_ok r p 1 Ha ltac:(lia) ltac:(lia)) as H. unfold get_bit.
    destruct (get r 1) as [v r1]. destruct H as (-> & H1 & Hs). rewrite Hdata. simpl.
    split; [done|]. apply Hmove; [done|done|lia].
  - pose proof (get_ok r p n Ha ltac:(lia) ltac:(lia)) as H.
    destruct (get r n) as [v r1]. destruct H as (-> & H1 & Hs). rewrite Hdata. simpl.
    split; [done|]. apply Hmove; [done|done|lia].
  - pose proof (peek_ok r p n Ha ltac:(lia) ltac:(lia)) as H.
    destruct (peek r n) as [v r1]. destruct H as (-> & H1 & Hs). rewrite Hdata. simpl.
    split; [done|]. apply Hmove; [done|done|lia].
  - destruct (skip_ok r p n Ha) as [H1 Hs]; [lia|lia|]. split; [done|]. apply Hmove; [done|done|lia].
  - destruct (skip_long_ok r p n Ha) as [H1 Hs]; [lia|lia|]. split; [done|].
    apply Hmove; [done|done|lia].
  - unfold skip_bytes. rewrite sat_u_id by (unfold LIM in *; lia).
    destruct (skip_long_ok r p (n * 8) Ha) as [H1 Hs]; [lia|lia|]. split; [done|].
    rewrite (Z.mul_comm n) in *. apply Hmove; [done|done|lia].
  - pose proof (get_long_ok r p n Ha ltac:(lia) ltac:(lia)) as H.
    destruct (get_long r n) as [v r1]. destruct H as (-> & H1 & Hs). rewrite Hdata. simpl.
    split; [done|]. apply Hmove; [done|done|lia].
  - pose proof (get_signed_ok r p n Ha ltac:(lia) ltac:(lia)) as H.
    destruct (get_signed r n) as [v r1]. destruct H as (-> & H1 & Hs). rewrite Hdata. simpl.
    split; [done|]. apply Hmove; [done|done|lia].
  - unfold try_get. rewrite Hleft, Hf. destruct (fl || _).
    { split; [done|]. apply Hmove; [done|apply same_source_refl|lia]. }
    pose proof (get_ok r p n Ha ltac:(lia) ltac:(lia)) as H.
    destruct (get r n) as [v r1]. destruct H as (-> & H1 & Hs). rewrite Hdata. simpl.
    split; [done|]. apply Hmove; [done|done|lia].
  - unfold align. rewrite (align_dist r p Ha). pose proof (Z.mod_pos_bound (- p) 8).
    destruct (skip_ok r p ((- p) mod 8) Ha) as [H1 Hs]; [lia|lia|]. split; [done|].
    apply Hmove; [done|done|lia].
  - split; [done|]. rewrite Z.add_0_r. split; [done|]. split; [done|].
    split; [split; [|done]; by destruct Ha; split|]. by split.
  - split; [done|]. rewrite Z.add_0_r. split; [done|]. split; [done|]. split; [by split|].
    split; [done|]. constructor; [|done]. split; [|done]. unfold restore, mark. simpl.
    by destruct r; split.
  - split; [done|]. rewrite Z.add_0_r. destruct Hms as [|m s ms' sms' [Hm Hsb] Hms].
    + split; [done|]. split; [done|]. split; [by split|]. by split.
    + split; [done|]. split; [done|]. split; [by destruct s|]. by split.
  - rewrite Hbp, Hleft. unfold overrun. rewrite Hf, Hlog, Hbp, (is_aligned_at r p Ha).
    rewrite (remaining_bytes_at r p k), Hdata by (done || lia || congruence).
    split; [done|]. apply Hmove; [done|apply same_source_refl|lia].
Qed.

Lemma run_simulates d k ops b st ss :
  simulates d (8 * k) b st ss -> 0 <= k <= zlen d -> zlen d < 2 ^ 59 -> forallb op_ok ops = true ->
  0 <= b -> b + cost ops + 64 <= LIM ->
  fst (run step ops st) = fst (run (spec_step (bit_at d) (8 * k) (take (Z.to_nat k) d)) ops ss).
Proof.
  intros Hsim Hk Hd Hok. revert b st ss Hsim. induction ops as [|o ops IH];
    intros b st ss Hsim Hb Hlim; [done|]. cbn [run cost fold_right forallb] in *. fold (cost ops) in *.
  apply andb_true_iff in Hok as [Ho Hok].
  pose proof (op_cost_nonneg o Ho). pose proof (cost_nonneg ops Hok).
  pose proof (step_simulates d k b st ss o Hsim Hk Hd Ho Hb ltac:(lia)) as H1.
  destruct (step o st) as [x st'].
  destruct (spec_step (bit_at d) (8 * k) (take (Z.to_nat k) d) o ss) as [y ss'].
  destruct H1 as [-> Hsim'].
  specialize (IH Hok _ _ _ Hsim' ltac:(lia) ltac:(lia)).
  destruct (run step ops st') as [xs st2].
  destruct (run (spec_step (bit_at d) (8 * k) (take (Z.to_nat k) d)) ops ss') as [ys ss2].
  simpl in *. by rewrite IH.
Qed.

Lemma start_simulates d k :
  buffer d -> 0 <= k <= zlen d -> zlen d < 2 ^ 59 ->
  simulates d (8 * k) 0 (Reader d (sat_u 64 (k * 8)) 0 0 0 false, []) ((0, false), []).
Proof.
  intros Hb Hk Hd. split; [done|]. split; [simpl; rewrite sat_u_id; lia|].
  split; [split; [by apply new_at|done]|]. by split.
Qed.



(** *** Padding *)

Lemma resize_bytes src :
  Padded.resize src (zlen src + Padded.PAD) = src ++ replicate 64 0.
Proof.
  unfold Padded.resize, Padded.PAD. pose proof (zlen_nonneg src).
  rewrite firstn_all2 by (unfold zlen in *; lia). do 2 f_equal. lia.
Qed.

Lemma bit_at_zeros l m i : bit_at (l ++ replicate m 0) i = bit_at l i.
Proof.
  unfold bit_at. destruct (decide (i / 8 < zlen l)); [by rewrite byte_at_app_l|].
  rewrite byte_at_app_r by lia. rewrite (byte_at_out l) by lia.
  unfold byte_at. destruct (_ && _) eqn:E; [|done].
  rewrite nth_lookup. destruct (replicate m 0 !! _) as [x|] eqn:Ex; simpl; [|done].
  by apply lookup_replicate in Ex as [-> _].
Qed.

Lemma spec_step_ext f g limit l o s :
  (forall i, f i = g i) -> spec_step f limit l o s = spec_step g limit l o s.
Proof.
  intros H. assert (forall p n, field f p n = field g p n) as Hf.
  { intros. apply bits_val_ext. intros. apply H. }
  destruct s as [[p fl] ms]. by destruct o; simpl; rewrite ?Hf.
Qed.

Lemma run_ext {S} (s1 s2 : op -> S -> out * S) ops st :
  (forall o s, s1 o s = s2 o s) -> run s1 ops st = run s2 ops st.
Proof.
  intros H. revert st. induction ops as [|o ops IH]; intros st; simpl; [done|].
  rewrite H. destruct (s2 o st). by rewrite IH.
Qed.

(** A padded buffer changes nothing a parser can see: copying the slice
    behind sixty-four zero bytes and reading through the fast path gives, call
    for call, the outputs of the plain reader on the slice, past the end
    included. *)
Theorem padded_reader_equivalent src ops :
  buffer src -> zlen src < 2 ^ 58 -> forallb op_ok ops = true -> cost ops + 64 <= LIM ->
  fst (run step ops (new_padded (Padded.from_slice_copying src), [])) =
  fst (run step ops (new src, [])).
Proof.
  intros Hb Hd Hok Hc. pose proof (zlen_nonneg src) as H0.
  assert (zlen (src ++ replicate 64 0) = zlen src + 64) as Hl by (by rewrite zlen_app).
  unfold new_padded, Padded.from_slice_copying. cbn [Padded.bytes Padded.logical_len].
  rewrite resize_bytes.
  rewrite (run_simulates (src ++ replicate 64 0) (zlen src) ops 0 _ ((0, false), []));
    [|apply start_simulates| | | | |]; try lia; try done.
  2:{ destruct Hb as [Hb _]. split; [|lia]. apply Forall_app. split; [done|].
      by apply Forall_replicate. }
  unfold new. rewrite (run_simulates src (zlen src) ops 0 _ ((0, false), []));
    [|apply start_simulates| | | | |]; try lia; try done.
  replace (take (Z.to_nat (zlen src)) (src ++ replicate 64 0)) with (take (Z.to_nat (zlen src)) src).
  2:{ rewrite firstn_app. replace (_ - length src)%nat with 0%nat by (unfold zlen; lia).
      by rewrite firstn_O, app_nil_r. }
  f_equal. apply run_ext. intros o s. apply spec_step_ext. intros i. apply bit_at_zeros.
Qed.

Lemma padded_reader_equivalent_witness :
  fst (run step [OGet 12; OGetLong 64; OSkip 100; OQuery] (new_padded (Padded.from_slice_copying [171; 205]), [])) =
  [Value 2748; Value (13 * 2 ^ 60); Quiet; Status 176 0 true true []].
Proof.
  refine (eq_trans (padded_reader_equivalent [171; 205]
    [OGet 12; OGetLong 64; OSkip 100; OQuery] _ _ _ _) _);
    [by apply buffer_check|by vm_compute|by vm_compute|by (vm_compute; discriminate)|by vm_compute].
Defined.

(** A reader limited to fewer bytes than the slice returns the bytes that
    follow, not zeros; only the overrun flag tells. *)
Lemma limited_reader_sees_following_bytes :
  let (v, r) := get (with_logical_len [1; 2] 1) 16 in v = 258 /\ overrun r = true.
Proof. by vm_compute. Qed.

(** [Padded::new] checks sixty-four bytes but keeps the whole slice, so a
    reader run further past the end leaves the padding. *)
Lemma padded_new_keeps_tail :
  exists p, Padded.new (replicate 64 0 ++ [255]) 0 = Some p /\
    fst (get (skip (new_padded p) 512) 8) = 255.
Proof. eexists. split; [by vm_compute|by vm_compute]. Qed.

(** The padding a successful check proves. *)
Lemma padded_new_zeros l n p :
  Padded.new l n = Some p ->
  0 <= n /\ n + 64 <= zlen l /\ Padded.bytes p = l /\ Padded.logical_len p = n /\
  take 64 (drop (Z.to_nat n) l) = replicate 64 0.
Proof.
  unfold Padded.new. destruct (get_from l n) as [rest|] eqn:E; simpl; [|done].
  apply get_from_Some in E as [Hn ->]. unfold get_range, Padded.PAD. simpl.
  destruct (Z.leb_spec 64 (zlen (drop (Z.to_nat n) l))) as [H64|]; simpl; [|done].
  rewrite zlen_drop in H64 by lia. rewrite drop_0.
  destruct (existsb _ _) eqn:Ex; [done|]. intros [= <-]. simpl.
  repeat (split; [done || lia|]).
  eapply (list_eq_same_length _ _ 64);
    [done|rewrite length_take, length_drop; unfold zlen in *; lia|].
  intros i x y Hi Hx Hy. apply (proj1 (lookup_replicate 64 0 y i)) in Hy as [-> _].
  destruct (Z.eqb_spec x 0) as [|Hne]; [done|]. exfalso.
  apply not_true_iff_false in Ex. apply Ex, existsb_exists. exists x.
  split; [|by rewrite (proj2 (Z.eqb_neq x 0) Hne)].
  apply list_elem_of_In. by eapply list_elem_of_lookup_2.
Qed.

(** The reader is a bit source. *)
#[export, refine] Instance reader_source : BitSource reader := {|
  src_peek := peek;
  src_get := get;
  src_skip := skip;
  src_get_long := get_long;
  src_flag := flag_malformed;
  src_left := bits_left;
  src_over := overrun;
  src_at f limit r p fl :=
    at_bit r p /\ flagged r = fl /\ logical_bits r = limit /\ forall i, bit_at (data r) i = f i;
|}.
Proof.
  - intros f limit r p fl n (Ha & Hf & Hl & Hb) Hn Hp.
    pose proof (peek_ok r p n Ha ltac:(lia) Hp) as H. destruct (peek r n) as [v r'].
    destruct H as (-> & H1 & Hs1 & Hs2 & Hs3). exists r'. rewrite Z.min_l by lia.
    split; [by rewrite (field_ext _ f) by apply Hb|]. split; [done|]. split; [congruence|].
    split; [congruence|]. by rewrite Hs1.
  - intros f limit r p fl n (Ha & Hf & Hl & Hb) Hn Hp.
    pose proof (get_ok r p n Ha ltac:(lia) Hp) as H. destruct (get r n) as [v r'].
    destruct H as (-> & H1 & Hs1 & Hs2 & Hs3). exists r'. rewrite Z.min_l in * by lia.
    split; [by rewrite (field_ext _ f) by apply Hb|]. split; [done|]. split; [congruence|].
    split; [congruence|]. by rewrite Hs1.
  - intros f limit r p fl n (Ha & Hf & Hl & Hb) Hn Hp.
    destruct (skip_ok r p n Ha Hn Hp) as (H1 & Hs1 & Hs2 & Hs3).
    split; [done|]. split; [congruence|]. split; [congruence|]. by rewrite Hs1.
  - intros f limit r p fl n (Ha & Hf & Hl & Hb) Hn Hp.
    pose proof (get_long_ok r p n Ha ltac:(lia) Hp) as H. destruct (get_long r n) as [v r'].
    destruct H as (-> & H1 & Hs1 & Hs2 & Hs3). exists r'. rewrite Z.min_l in * by lia.
    split; [by rewrite (field_ext _ f) by apply Hb|]. split; [done|]. split; [congruence|].
    split; [congruence|]. by rewrite Hs1.
  - intros f limit r p fl (Ha & Hf & Hl & Hb). split; [|done]. by destruct Ha; split.
  - intros f limit r p fl (Ha & Hf & Hl & Hb) Hp. unfold bits_left.
    by rewrite Hf, Hl, (bit_pos_at r p Ha Hp).
  - intros f limit r p fl (Ha & Hf & Hl & Hb) Hp. unfold overrun.
    by rewrite Hf, Hl, (bit_pos_at r p Ha Hp).
Defined.

Lemma new_source d :
  buffer d -> zlen d < 2 ^ 59 -> src_at (bit_at d) (8 * zlen d) (new d) 0 false.
Proof.
  intros Hb Hd. pose proof (zlen_nonneg d). unfold new. simpl. split; [by apply new_at|].
  split; [done|]. split; [rewrite sat_u_id; lia|done].
Qed.

End BitReader.
