(* ===== verification/Golomb.v ===== *)
(** * Golomb: Exp-Golomb codes

    [src/crates/core/vaco-bitstream/src/golomb.rs], over any [BitSource]. The
    specification of a code is its prefix: [prefix_at f p k] says that [k] zeros
    and a one stand at bit [p]. *)

From Stdlib Require Import ZArith Lia.
From stdpp Require Import prelude.
From S2P Require Import Prelude Bits Source Reader.

Definition MAX_PREFIX_32 : Z := 31.
Definition MAX_PREFIX_64 : Z := 63.

Section golomb.
  Context {R : Type} `{BitSource R}.

Definition ue (r : R) : Z * R :=
  let (prefix, r) := src_peek r 32 in
  let lz := leading_zeros 32 prefix in
  if MAX_PREFIX_32 <? lz then (0, src_flag r) else
  let r := src_skip r (lz + 1) in
  let (suffix, r) := src_get r lz in
  (wrap_u 32 (Z.shiftl 1 lz - 1 + suffix), r).

(** [u32::cast_signed] of the halved code number. *)
Definition se_of (k : Z) : Z :=
  let half := wrap_i 32 (Z.shiftr k 1) in
  if Z.land k 1 =? 1 then half + 1 else - half.

Definition se (r : R) : Z * R :=
  let (k, r) := ue r in (se_of k, r).

Definition ue_max (r : R) (max : Z) : result bitstream_error Z * R :=
  let before := src_over r in
  let (v, r) := ue r in
  (if negb before && src_over r then Err (if src_left r =? 0 then Overrun else Malformed)
   else if max <? v then Err (ValueTooLarge v max)
   else Ok v, r).

Definition se_range (r : R) (min max : Z) : result bitstream_error Z * R :=
  let before := src_over r in
  let (v, r) := se r in
  (if negb before && src_over r then Err Overrun
   else if (v <? min) || (max <? v) then Err (ValueTooLarge (Z.abs v) (Z.abs max))
   else Ok v, r).

(** A [u32] left shift: the amount is taken modulo 32. *)
Definition shl32 (a k : Z) : Z := wrap_u 32 (Z.shiftl a (Z.land k 31)).

Definition ue_golomb_k (r : R) (k : Z) : Z * R :=
  if k =? 0 then ue r else
  let (prefix, r) := src_peek r 32 in
  let lz := leading_zeros 32 prefix in
  if (MAX_PREFIX_32 <? lz) || (32 <? wrap_u 32 (lz + k)) then (0, src_flag r) else
  let r := src_skip r (lz + 1) in
  let (suffix, r) := src_get r (wrap_u 32 (lz + k)) in
  (wrap_u 32 (shl32 (Z.shiftl 1 lz - 1) k + suffix), r).

(** The prefix loop of [ue_long]: [None] when the prefix is impossible. *)
Fixpoint ue_long_prefix (fuel : nat) (lz : Z) (r : R) : option Z * R :=
  match fuel with
  | O => (None, r)
  | S fuel =>
    let (x, r) := src_peek r 32 in
    let z := leading_zeros 32 x in
    if z <? 32 then
      let lz := lz + z in
      if MAX_PREFIX_64 <? lz then (None, src_flag r) else (Some lz, src_skip r (z + 1))
    else
      let lz := lz + 32 in
      if MAX_PREFIX_64 <? lz then (None, src_flag r) else ue_long_prefix fuel lz (src_skip r 32)
  end.

Definition ue_long (r : R) : Z * R :=
  match ue_long_prefix 3 0 r with
  | (None, r) => (0, r)
  | (Some lz, r) =>
    let (suffix, r) := src_get_long r lz in
    (wrap_u 64 (Z.shiftl 1 lz - 1 + suffix), r)
  end.

End golomb.

(** ** Specification *)

(** [k] zeros, then a one. *)
Definition prefix_at (f : Z -> bool) (p k : Z) : Prop :=
  0 <= k /\ (forall i, 0 <= i < k -> f (p + i) = false) /\ f (p + k) = true.

Definition zeros_at (f : Z -> bool) (p n : Z) : Prop :=
  forall i, 0 <= i < n -> f (p + i) = false.

(** The order-[o] code number whose prefix has [k] zeros. *)
Definition code_value (o : Z) (f : Z -> bool) (p k : Z) : Z :=
  (2 ^ k - 1) * 2 ^ o + field f (p + k + 1) (k + o).

(** H.264 9.1.1: code number to signed value. *)
Definition signed_of (k : Z) : Z := if Z.odd k then (k + 1) / 2 else - (k / 2).

Lemma prefix_check f p n :
  forallb (fun i => negb (f (p + Z.of_nat i))) (seq 0 n) && f (p + Z.of_nat n) = true ->
  prefix_at f p (Z.of_nat n).
Proof.
  intros H. breflect. split; [lia|]. split; [|done]. intros i Hi.
  match goal with H : forallb _ _ = true |- _ => rewrite forallb_forall in H;
    specialize (H (Z.to_nat i)); rewrite in_seq in H end.
  rewrite <- negb_true_iff. replace i with (Z.of_nat (Z.to_nat i)) by lia. auto with lia.
Qed.

Lemma zeros_field f p n : 0 <= n -> zeros_at f p n -> field f p n = 0.
Proof. intros Hn Hz. apply bits_val_zeros. intros i Hi. apply Hz. lia. Qed.

Lemma field_first f p n :
  0 < n -> f p = true -> 2 ^ (n - 1) <= field f p n < 2 ^ n.
Proof.
  intros Hn Hp. split; [|apply field_range; lia].
  replace n with (1 + (n - 1)) at 2 by lia. rewrite field_app by lia.
  pose proof (field_range f (p + 1) (n - 1) ltac:(lia)).
  unfold field at 1. simpl. rewrite Z.add_0_r, Hp. simpl. lia.
Qed.

(** The leading zeros of a word are the prefix. *)
Lemma leading_zeros_prefix f p k :
  k < 32 -> prefix_at f p k -> leading_zeros 32 (field f p 32) = k.
Proof.
  intros Hk (H0 & Hz & H1). replace 32 with (k + (32 - k)) at 2 by lia.
  rewrite field_app by lia. rewrite zeros_field by done. rewrite Z.mul_0_l, Z.add_0_l.
  pose proof (field_first f (p + k) (32 - k) ltac:(lia) H1) as Hr.
  unfold leading_zeros. assert (0 < 2 ^ (32 - k - 1)) by (apply Z.pow_pos_nonneg; lia).
  rewrite (proj2 (Z.eqb_neq _ 0)) by lia.
  rewrite (Z.log2_unique _ (32 - k - 1)); [lia|lia|]. split; [lia|].
  replace (Z.succ (32 - k - 1)) with (32 - k) by lia. lia.
Qed.

Lemma leading_zeros_all f p : zeros_at f p 32 -> leading_zeros 32 (field f p 32) = 32.
Proof. intros Hz. by rewrite zeros_field by done. Qed.

(** A window is all zeros or holds a first one. *)
Lemma zeros_or_prefix f p n :
  0 <= n -> zeros_at f p n \/ exists k, k < n /\ prefix_at f p k.
Proof.
  intros Hn. revert n Hn. apply natlike_ind; [by left; intros i Hi; lia|].
  intros n Hn [Hz|(k & Hk & Hp)]; [|right; exists k; split; [lia|done]].
  destruct (f (p + n)) eqn:E.
  - right. exists n. split; [lia|]. by split; [|split].
  - left. intros i Hi. destruct (decide (i = n)) as [->|]; [done|]. apply Hz. lia.
Qed.

Lemma prefix_unique f p k j : prefix_at f p k -> prefix_at f p j -> k = j.
Proof.
  intros (H0 & Hz & H1) (J0 & Jz & J1).
  destruct (Z.lt_trichotomy k j) as [Hl|[->|Hl]]; [|done|].
  - rewrite Jz in H1 by lia. done.
  - rewrite Hz in J1 by lia. done.
Qed.

Lemma code_value_range o f p k :
  0 <= o -> 0 <= k -> 0 <= code_value o f p k < 2 ^ (k + o + 1).
Proof.
  intros Ho Hk. unfold code_value. pose proof (field_range f (p + k + 1) (k + o) ltac:(lia)).
  rewrite (Z.pow_add_r 2 (k + o)), (Z.pow_add_r 2 k) in * by lia.
  assert (0 < 2 ^ k) by (apply Z.pow_pos_nonneg; lia).
  assert (0 < 2 ^ o) by (apply Z.pow_pos_nonneg; lia). change (2 ^ 1) with 2. nia.
Qed.

Lemma code_value_0 f p k : code_value 0 f p k = 2 ^ k - 1 + field f (p + k + 1) k.
Proof. unfold code_value. rewrite Z.add_0_r. change (2 ^ 0) with 1. lia. Qed.

Lemma se_of_signed k : 0 <= k <= 2 ^ 32 - 2 -> se_of k = signed_of k.
Proof.
  intros Hk. unfold se_of, signed_of. change (Z.land k 1) with (Z.land k (Z.ones 1)). rewrite Z.land_ones by lia.
  change (2 ^ 1) with 2. rewrite Z.shiftr_div_pow2 by lia. change (2 ^ 1) with 2.
  pose proof (Z.div_mod k 2). pose proof (Z.mod_pos_bound k 2).
  assert (wrap_i 32 (k / 2) = k / 2) as ->.
  { unfold wrap_i. rewrite Z.mod_small; lia. }
  rewrite Zmod_odd. destruct (Z.odd k) eqn:E; simpl; [|done].
  rewrite Zmod_odd, E in *. replace (k + 1) with ((k / 2 + 1) * 2) by lia.
  by rewrite Z.div_mul by lia.
Qed.

(** ** Decoding *)

Section decode.
  Context {R : Type} `{BitSource R}.
  Context (f : Z -> bool) (limit : Z).

(** The three shapes of a decoder's outcome. *)
Definition decodes (p : Z) (fl : bool) (x : Z * R) (v len : Z) : Prop :=
  exists r', x = (v, r') /\ src_at f limit r' (p + len) fl.

Definition rejects (p : Z) (x : Z * R) : Prop :=
  exists r', x = (0, r') /\ src_at f limit r' p true.

Lemma ue_prefix r p fl k :
  src_at f limit r p fl -> p + 64 <= LIM -> k <= 31 -> prefix_at f p k ->
  decodes p fl (ue r) (code_value 0 f p k) (2 * k + 1).
Proof.
  intros Hr Hp Hk Hpre. unfold ue, decodes. pose proof Hpre as (H0 & _).
  destruct (src_peek_ok f limit r p fl 32 Hr) as (r1 & -> & H1); [lia|lia|].
  rewrite (leading_zeros_prefix f p k ltac:(lia) Hpre).
  rewrite (proj2 (Z.ltb_ge _ _)) by (unfold MAX_PREFIX_32; lia).
  pose proof (src_skip_ok f limit r1 p fl (k + 1) H1 ltac:(lia) ltac:(lia)) as H2.
  destruct (src_get_ok f limit _ _ fl k H2) as (r3 & -> & H3); [lia|lia|].
  exists r3. replace (p + (2 * k + 1)) with (p + (k + 1) + k) by lia. split; [|done].
  f_equal. rewrite Z.shiftl_1_l, code_value_0. rewrite Z.add_assoc.
  pose proof (code_value_range 0 f p k ltac:(lia) H0) as Hv. rewrite code_value_0 in Hv.
  apply wrap_u_id. assert (2 ^ (k + 0 + 1) <= 2 ^ 32) by (apply Z.pow_le_mono_r; lia). lia.
Qed.

Lemma ue_zeros r p fl :
  src_at f limit r p fl -> p + 64 <= LIM -> zeros_at f p 32 -> rejects p (ue r).
Proof.
  intros Hr Hp Hz. unfold ue, rejects.
  destruct (src_peek_ok f limit r p fl 32 Hr) as (r1 & -> & H1); [lia|lia|].
  rewrite leading_zeros_all by done. simpl. exists (src_flag r1). split; [done|].
  by eapply src_flag_ok.
Qed.

Lemma se_ue r v len p fl :
  0 <= v <= 2 ^ 32 - 2 -> decodes p fl (ue r) v len -> decodes p fl (se r) (signed_of v) len.
Proof.
  intros Hv (r' & E & Hr'). unfold se, decodes. rewrite E. exists r'. split; [|done].
  by rewrite se_of_signed.
Qed.

(** A [u32] code number is at most [2^32 - 2]. *)
Lemma ue_value_bound p k : 0 <= k <= 31 -> 0 <= code_value 0 f p k <= 2 ^ 32 - 2.
Proof.
  intros Hk. rewrite code_value_0. pose proof (field_range f (p + k + 1) k ltac:(lia)).
  assert (2 ^ k <= 2 ^ 31) by (apply Z.pow_le_mono_r; lia). lia.
Qed.

Lemma golomb_k_prefix r p fl k o :
  src_at f limit r p fl -> p + 96 <= LIM -> 0 < o -> k + o <= 31 -> prefix_at f p k ->
  decodes p fl (ue_golomb_k r o) (code_value o f p k) (2 * k + 1 + o).
Proof.
  intros Hr Hp Ho Hk Hpre. unfold ue_golomb_k, decodes. pose proof Hpre as (H0 & _).
  rewrite (proj2 (Z.eqb_neq o 0)) by lia.
  destruct (src_peek_ok f limit r p fl 32 Hr) as (r1 & -> & H1); [lia|lia|].
  rewrite (leading_zeros_prefix f p k ltac:(lia) Hpre).
  rewrite (wrap_u_id 32 (k + o)) by lia. unfold MAX_PREFIX_32.
  rewrite (proj2 (Z.ltb_ge 31 k)), (proj2 (Z.ltb_ge 32 _)) by lia. cbn [orb].
  pose proof (src_skip_ok f limit r1 p fl (k + 1) H1 ltac:(lia) ltac:(lia)) as H2.
  destruct (src_get_ok f limit _ _ fl (k + o) H2) as (r3 & -> & H3); [lia|lia|].
  exists r3. replace (p + (2 * k + 1 + o)) with (p + (k + 1) + (k + o)) by lia. split; [|done].
  f_equal. unfold shl32. change 31 with (Z.ones 5). rewrite Z.land_ones by lia.
  rewrite (Z.mod_small o) by lia. rewrite Z.shiftl_1_l, Z.shiftl_mul_pow2 by lia.
  pose proof (code_value_range o f p k ltac:(lia) H0) as Hv. unfold code_value in *.
  rewrite Z.add_assoc.
  pose proof (field_range f (p + k + 1) (k + o) ltac:(lia)).
  assert (2 ^ (k + o + 1) <= 2 ^ 32) by (apply Z.pow_le_mono_r; lia).
  assert (0 <= (2 ^ k - 1) * 2 ^ o).
  { apply Z.mul_nonneg_nonneg; [pose proof (Z.pow_pos_nonneg 2 k); lia|].
    apply Z.pow_nonneg. lia. }
  rewrite (wrap_u_id 32 ((2 ^ k - 1) * 2 ^ o)) by lia. apply wrap_u_id. lia.
Qed.

(** Two windows of zeros make the prefix of a [u64] code. *)
Lemma ue_long_prefix_ok r p fl k :
  src_at f limit r p fl -> p + 160 <= LIM -> prefix_at f p k -> k <= 63 ->
  exists r', ue_long_prefix 3 0 r = (Some k, r') /\ src_at f limit r' (p + k + 1) fl.
Proof.
  intros Hr Hp Hpre Hk. pose proof Hpre as (H0 & Hz & H1). cbn [ue_long_prefix].
  destruct (src_peek_ok f limit r p fl 32 Hr) as (r1 & -> & Ha1); [lia|lia|].
  destruct (decide (k < 32)).
  - rewrite (leading_zeros_prefix f p k) by done. rewrite (proj2 (Z.ltb_lt k 32)) by lia.
    rewrite (proj2 (Z.ltb_ge _ _)) by (unfold MAX_PREFIX_64; lia).
    eexists. split; [done|]. rewrite <- Z.add_assoc. apply src_skip_ok; [done|lia|lia].
  - rewrite leading_zeros_all by (intros i Hi; apply Hz; lia). cbn.
    pose proof (src_skip_ok f limit r1 p fl 32 Ha1 ltac:(lia) ltac:(lia)) as H2.
    destruct (src_peek_ok f limit _ _ fl 32 H2) as (r2 & -> & H3); [lia|lia|].
    assert (prefix_at f (p + 32) (k - 32)) as Hp2.
    { split; [lia|]. split; [intros i Hi; rewrite <- Z.add_assoc; apply Hz; lia|].
      by replace (p + 32 + (k - 32)) with (p + k) by lia. }
    rewrite (leading_zeros_prefix f (p + 32) (k - 32)) by (done || lia).
    rewrite (proj2 (Z.ltb_lt (k - 32) 32)) by lia.
    replace (0 + 32 + (k - 32)) with k by lia.
    rewrite (proj2 (Z.ltb_ge MAX_PREFIX_64 k)) by (unfold MAX_PREFIX_64; lia). eexists. split; [done|].
    replace (p + k + 1) with (p + 32 + (k - 32 + 1)) by lia. apply src_skip_ok; [done|lia|lia].
Qed.

Lemma ue_long_prefix_zeros r p fl :
  src_at f limit r p fl -> p + 160 <= LIM -> zeros_at f p 64 ->
  exists r', ue_long_prefix 3 0 r = (None, r') /\ src_at f limit r' (p + 32) true.
Proof.
  intros Hr Hp Hz. cbn [ue_long_prefix].
  destruct (src_peek_ok f limit r p fl 32 Hr) as (r1 & -> & Ha1); [lia|lia|].
  rewrite leading_zeros_all by (intros i Hi; apply Hz; lia). cbn.
  pose proof (src_skip_ok f limit r1 p fl 32 Ha1 ltac:(lia) ltac:(lia)) as H2.
  destruct (src_peek_ok f limit _ _ fl 32 H2) as (r2 & -> & H3); [lia|lia|].
  rewrite leading_zeros_all by (intros i Hi; rewrite <- Z.add_assoc; apply Hz; lia). cbn.
  eexists. split; [done|]. by eapply src_flag_ok.
Qed.

(** Reading a code: [ue] and [se] on any bit source return the value of
    H.264 9.1 and stop right after the code when its prefix has at most 31
    zeros; thirty-two zeros are rejected with the flag and no progress. There is
    no third case, so neither call can hang. *)
Theorem ue_se_decode r p fl :
  src_at f limit r p fl -> p + 64 <= LIM ->
  (exists k, k <= 31 /\ prefix_at f p k /\
     decodes p fl (ue r) (2 ^ k - 1 + field f (p + k + 1) k) (2 * k + 1) /\
     decodes p fl (se r) (signed_of (2 ^ k - 1 + field f (p + k + 1) k)) (2 * k + 1)) \/
  (zeros_at f p 32 /\ rejects p (ue r) /\ rejects p (se r)).
Proof.
  intros Hr Hp. destruct (zeros_or_prefix f p 32 ltac:(lia)) as [Hz|(k & Hk & Hpre)].
  - right. split; [done|]. pose proof (ue_zeros r p fl Hr Hp Hz) as Hrej.
    split; [done|]. destruct Hrej as (r' & E & Hr'). exists r'. unfold se. by rewrite E.
  - left. exists k. split; [lia|]. split; [done|]. rewrite <- code_value_0.
    pose proof (ue_prefix r p fl k Hr Hp ltac:(lia) Hpre) as Hd. split; [done|].
    apply se_ue; [|done]. apply ue_value_bound. destruct Hpre. lia.
Qed.

(** The order-[o] and 64-bit codes: within 31 bits of suffix [ue_golomb_k]
    returns [(2^lz - 1) * 2^o + read(lz + o)]; [ue_long] returns the code value
    for every prefix up to 63 zeros and rejects a longer one, in at most two
    rounds of its loop. *)
Theorem golomb_k_and_long_decode r p fl k o :
  src_at f limit r p fl -> p + 160 <= LIM -> 0 < o ->
  (prefix_at f p k -> k + o <= 31 ->
     decodes p fl (ue_golomb_k r o) (code_value o f p k) (2 * k + 1 + o)) /\
  (prefix_at f p k -> k <= 63 ->
     decodes p fl (ue_long r) (2 ^ k - 1 + field f (p + k + 1) k) (2 * k + 1)) /\
  (zeros_at f p 64 -> rejects (p + 32) (ue_long r)).
Proof.
  intros Hr Hp Ho. split; [|split].
  - intros Hpre Hk. apply golomb_k_prefix; done || lia.
  - intros Hpre Hk. unfold ue_long, decodes.
    destruct (ue_long_prefix_ok r p fl k Hr Hp Hpre Hk) as (r1 & -> & H1). destruct Hpre as [H0 _].
    destruct (src_get_long_ok f limit r1 _ fl k H1) as (r2 & -> & H2); [lia|lia|].
    exists r2. replace (p + (2 * k + 1)) with (p + k + 1 + k) by lia. split; [|done].
    f_equal. rewrite Z.shiftl_1_l. pose proof (field_range f (p + k + 1) k ltac:(lia)).
    assert (2 ^ k <= 2 ^ 63) by (apply Z.pow_le_mono_r; lia). apply wrap_u_id. lia.
  - intros Hz. unfold ue_long, rejects.
    destruct (ue_long_prefix_zeros r p fl Hr Hp Hz) as (r1 & -> & H1). by exists r1.
Qed.

(** The checked read: on a source still inside its data, [ue_max] succeeds
    exactly when the code is complete before the logical end and within the
    ceiling; a complete code above the ceiling is [ValueTooLarge]; a code that
    runs past the end and an impossible prefix are both [Overrun], never
    [Malformed]. *)
Theorem ue_max_outcomes r p max :
  src_at f limit r p false -> p <= limit -> p + 64 <= LIM ->
  (exists k, k <= 31 /\ prefix_at f p k /\ let v := code_value 0 f p k in
     fst (ue_max r max) = (if limit <? p + 2 * k + 1 then Err Overrun
                           else if max <? v then Err (ValueTooLarge v max) else Ok v)) \/
  (zeros_at f p 32 /\ fst (ue_max r max) = Err Overrun).
Proof.
  intros Hr Hl Hp. unfold ue_max. rewrite (src_over_ok f limit r p false Hr) by lia.
  rewrite (proj2 (Z.ltb_ge limit p)) by lia. cbn [orb negb].
  destruct (zeros_or_prefix f p 32 ltac:(lia)) as [Hz|(k & Hk & Hpre)].
  - right. split; [done|]. destruct (ue_zeros r p false Hr Hp Hz) as (r' & -> & Hr').
    rewrite (src_over_ok f limit r' p true Hr') by lia.
    by rewrite (src_left_ok f limit r' p true Hr') by lia.
  - left. exists k. split; [lia|]. split; [done|]. simpl.
    destruct (ue_prefix r p false k Hr Hp ltac:(lia) Hpre) as (r' & -> & Hr').
    destruct Hpre as [H0 _].
    rewrite (src_over_ok f limit r' _ false Hr') by lia.
    rewrite (src_left_ok f limit r' _ false Hr') by lia.
    rewrite Z.add_assoc. cbn [orb andb]. destruct (Z.ltb_spec limit (p + 2 * k + 1)); [|done].
    cbn [fst]. rewrite (proj2 (Z.eqb_eq _ 0)) by lia. done.
Qed.

End decode.

(** ** On the bit reader *)

Import BitReader.

Lemma ue_se_decode_witness :
  exists k, k <= 31 /\ prefix_at (bit_at [0; 40]) 0 k /\ fst (ue (new [0; 40])) = 2 ^ k - 1 + field (bit_at [0; 40]) (k + 1) k.
Proof.
  assert (Hb : buffer [0; 40]) by (by apply buffer_check).
  destruct (ue_se_decode (bit_at [0; 40]) 16 (new [0; 40]) 0 false) as [(k & Hk & Hp & (r' & E & _) & _)|[Hz _]].
  - by apply (new_source [0; 40]).
  - by vm_compute.
  - exists k. split; [done|]. split; [done|]. by rewrite E.
  - specialize (Hz 10 ltac:(lia)). vm_compute in Hz. discriminate Hz.
Defined.

Lemma golomb_k_and_long_decode_witness :
  exists r', ue_golomb_k (new [40; 0]) 3 = (32, r') /\ bit_pos r' = 8.
Proof.
  assert (Hb : buffer [40; 0]) by (by apply buffer_check).
  destruct (proj1 (golomb_k_and_long_decode (bit_at [40; 0]) 16 (new [40; 0]) 0 false 2 3
    ltac:(by apply (new_source [40; 0])) ltac:(by vm_compute) ltac:(lia))) as (r' & E & Hr').
  - by apply (prefix_check _ 0 2).
  - lia.
  - exists r'. split; [by rewrite E; vm_compute|]. destruct Hr' as (Ha & _).
    by rewrite (bit_pos_at r' _ Ha) by (by vm_compute).
Defined.

Lemma ue_max_outcomes_witness :
  fst (ue_max (new [0; 40]) 300) = Err Overrun /\ fst (ue_max (new [40]) 3) = Err (ValueTooLarge 4 3).
Proof.
  assert (Hb : buffer [0; 40]) by (by apply buffer_check).
  split; [|by vm_compute].
  destruct (ue_max_outcomes (bit_at [0; 40]) 16 (new [0; 40]) 0 300) as [(k & Hk & Hp & E)|[_ E]].
  - by apply (new_source [0; 40]).
  - by vm_compute.
  - by vm_compute.
  - assert (k = 10) as ->; [|by rewrite E; vm_compute].
    by apply (prefix_unique (bit_at [0; 40]) 0); [|apply (prefix_check _ 0 10)].
  - done.
Defined.

(** With 32 bits of suffix the sum no longer fits: [ue_golomb_k] accepts the
    code and returns its value modulo [2^32]. *)
Lemma ue_golomb_k_wraps :
  let d := [0; 0; 255; 255; 255; 255; 255] in
  prefix_at (bit_at d) 0 16 /\ code_value 16 (bit_at d) 0 16 = 8589869055 /\
  fst (ue_golomb_k (new d) 16) = 4294901759 /\ overrun (snd (ue_golomb_k (new d) 16)) = false.
Proof.
  split; [by apply (prefix_check _ 0 16)|by vm_compute].
Qed.
