(* ===== verification/Writer.v ===== *)
(** * Writer: the MSB-first bit writer of [vaco-bitstream]

    [src/crates/core/vaco-bitstream/src/writer.rs]. The writer is proved to
    append the bits of each field to the bits already written; read back
    through [Reader] and [Golomb], every sequence of fields is recovered. As in
    [Reader], the [debug_assert]s are the clamps that follow them. *)

From Stdlib Require Import ZArith Lia.
From stdpp Require Import prelude.
From S2P Require Import Prelude Bits Source Reader Golomb.

Module BitWriter.

Record writer : Type := Writer { out : list Z; cache : Z; cache_bits : Z }.

Definition new : writer := Writer [] 0 0.

(** [while self.cache_bits >= 8]; at most eight bytes fit in the cache. *)
Fixpoint flush_loop (fuel : nat) (w : writer) : writer :=
  match fuel with
  | O => w
  | S fuel =>
    if 8 <=? cache_bits w then
      flush_loop fuel (Writer (out w ++ [wrap_u 8 (Z.shiftr (cache w) 56)])
        (wrap_u 64 (Z.shiftl (cache w) 8)) (cache_bits w - 8))
    else w
  end.

Definition flush_bytes (w : writer) : writer := flush_loop 8 w.

Definition put (w : writer) (n value : Z) : writer :=
  let n := Z.min n 32 in
  if n =? 0 then w else
  let masked := if n =? 32 then value else Z.land value (Z.shiftl 1 n - 1) in
  let shift := 64 - cache_bits w - n in
  flush_bytes (Writer (out w) (Z.lor (cache w) (wrap_u 64 (Z.shiftl masked shift)))
    (cache_bits w + n)).

Definition put_long (w : writer) (n value : Z) : writer :=
  let n := Z.min n 64 in
  if n <=? 32 then put w n (wrap_u 32 value) else
  let w := put w (n - 32) (wrap_u 32 (Z.shiftr value 32)) in
  put w 32 (wrap_u 32 value).

Definition put_signed (w : writer) (n value : Z) : writer := put w n (wrap_u 32 value).

(** [while left > 32]. *)
Fixpoint put_zeros_loop (fuel : nat) (w : writer) (left : Z) : writer * Z :=
  match fuel with
  | O => (w, left)
  | S fuel => if 32 <? left then put_zeros_loop fuel (put w 32 0) (left - 32) else (w, left)
  end.

Definition put_zeros (w : writer) (n : Z) : writer :=
  let (w, left) := put_zeros_loop (Z.to_nat (n / 32)) w n in put w left 0.

Definition u32_max : Z := 2 ^ 32 - 1.
Definition i32_max : Z := 2 ^ 31 - 1.

Definition ue (w : writer) (v : Z) : writer :=
  let code := Z.min v (u32_max - 1) + 1 in
  let bits := 64 - leading_zeros 64 code in
  put_long (put_zeros w (bits - 1)) bits code.

Definition se (w : writer) (v : Z) : writer :=
  let v := Z.max v (- i32_max) in
  ue w (if 0 <? v then v * 2 - 1 else Z.abs v * 2).

Definition align_zero (w : writer) : writer :=
  put w (Z.land (8 - Z.land (cache_bits w) 7) 7) 0.

Definition align_one (w : writer) : writer :=
  let pad := Z.land (8 - Z.land (cache_bits w) 7) 7 in
  if negb (pad =? 0) then put w pad u32_max else w.

Definition rbsp_trailing (w : writer) : writer := align_zero (put w 1 1).

Definition bit_len (w : writer) : Z :=
  sat_u 64 (sat_u 64 (zlen (out w) * 8) + cache_bits w).

Definition bytes (w : writer) : list Z := out w.

Definition finish (w : writer) : list Z := out (align_zero w).

Definition reset (w : writer) : list Z * writer := (out (align_zero w), Writer [] 0 0).

Definition clear (w : writer) : writer := Writer [] 0 0.

(** ** The written bits *)

(** [w] holds the bits [bs]: whole bytes in [out], the last [cache_bits] at the
    top of the cache, the rest of which is clear. *)
Record holds (w : writer) (bs : list bool) : Prop := {
  h_bits : 0 <= cache_bits w <= 64;
  h_out : Forall (fun b => 0 <= b < 256) (out w);
  h_rep : exists x, 0 <= x < 2 ^ cache_bits w /\ cache w = x * 2 ^ (64 - cache_bits w) /\
            bs = bits_of_bytes (out w) ++ bits_of (Z.to_nat (cache_bits w)) x;
}.

(** Between calls less than a byte is pending. *)
Definition written (w : writer) (bs : list bool) : Prop := holds w bs /\ cache_bits w < 8.

Lemma bits_of_mod n v : bits_of n (v mod 2 ^ Z.of_nat n) = bits_of n v.
Proof. apply bits_of_ext. intros j Hj. by rewrite Z.mod_pow2_bits_low by lia. Qed.

Lemma flush_step w bs :
  holds w bs -> 8 <= cache_bits w ->
  holds (Writer (out w ++ [wrap_u 8 (Z.shiftr (cache w) 56)])
          (wrap_u 64 (Z.shiftl (cache w) 8)) (cache_bits w - 8)) bs.
Proof.
  intros [Hb Ho (x & Hx & Hc & ->)] Hge. set (c := cache_bits w) in *.
  assert (2 ^ c = 2 ^ 8 * 2 ^ (c - 8)) as Ec by (rewrite <- Z.pow_add_r by lia; f_equal; lia).
  assert (2 ^ 56 = 2 ^ (c - 8) * 2 ^ (64 - c)) as E56 by (rewrite <- Z.pow_add_r by lia; f_equal; lia).
  assert (2 ^ (64 - (c - 8)) = 2 ^ 8 * 2 ^ (64 - c)) as E8
    by (rewrite <- Z.pow_add_r by lia; f_equal; lia).
  assert (0 < 2 ^ (c - 8)) by (apply Z.pow_pos_nonneg; lia).
  assert (0 < 2 ^ (64 - c)) by (apply Z.pow_pos_nonneg; lia).
  assert (Z.shiftr (cache w) 56 = x / 2 ^ (c - 8)) as Hbyte.
  { rewrite Z.shiftr_div_pow2, Hc, E56 by lia. by rewrite Z.div_mul_cancel_r by lia. }
  assert (0 <= x / 2 ^ (c - 8) < 2 ^ 8) as Hby.
  { split; [apply Z.div_pos; lia|]. apply Z.div_lt_upper_bound; lia. }
  rewrite Hbyte, (wrap_u_id 8) by done. split; cbn [cache_bits out cache]; [lia| |].
  - apply Forall_app. split; [done|]. constructor; [|done]. change 256 with (2 ^ 8). lia.
  - exists (x mod 2 ^ (c - 8)). split; [apply Z.mod_pos_bound; lia|]. split.
    + unfold wrap_u. rewrite Z.shiftl_mul_pow2, Hc, E8 by lia.
      replace (x * 2 ^ (64 - c) * 2 ^ 8) with (x * (2 ^ 8 * 2 ^ (64 - c))) by ring.
      replace (2 ^ 64) with (2 ^ (c - 8) * (2 ^ 8 * 2 ^ (64 - c)))
        by (rewrite <- !Z.pow_add_r by lia; f_equal; lia).
      by rewrite Z.mul_mod_distr_r by lia.
    + rewrite bits_of_bytes_app, <- app_assoc. f_equal.
      replace (Z.to_nat c) with (8 + Z.to_nat (c - 8))%nat by lia.
      rewrite bits_of_app. unfold bits_of_bytes. cbn [map concat]. rewrite app_nil_r. f_equal.
      * by rewrite Z.shiftr_div_pow2, Z2Nat.id by lia.
      * rewrite <- (bits_of_mod (Z.to_nat (c - 8)) x). by rewrite Z2Nat.id by lia.
Qed.

Lemma flush_loop_ok fuel w bs :
  holds w bs -> cache_bits w < 8 * (Z.of_nat fuel + 1) -> written (flush_loop fuel w) bs.
Proof.
  revert w. induction fuel as [|fuel IH]; intros w Hw Hf; cbn [flush_loop]; [by split; [|lia]|].
  destruct (Z.leb_spec 8 (cache_bits w)); [|by split].
  apply IH; [by apply flush_step|]. cbn [cache_bits]. lia.
Qed.

(** The bits a [put] of [n] bits appends. *)
Lemma put_ok w bs n v :
  written w bs -> 0 <= n -> 0 <= v < 2 ^ 32 ->
  written (put w n v) (bs ++ bits_of (Z.to_nat (Z.min n 32)) v).
Proof.
  intros [[Hb Ho (x & Hx & Hc & ->)] Hlt] Hn Hv. unfold put.
  destruct (Z.eqb_spec (Z.min n 32) 0) as [->|Hne].
  { rewrite app_nil_r. by split; [split; [lia|done|exists x]|]. }
  set (k := Z.min n 32) in *. set (c := cache_bits w) in *.
  assert ((if k =? 32 then v else Z.land v (Z.shiftl 1 k - 1)) = v mod 2 ^ k) as ->.
  { destruct (Z.eqb_spec k 32) as [->|]; [by rewrite Z.mod_small|].
    rewrite Z.shiftl_1_l. rewrite <- Z.land_ones by lia. by rewrite Z.ones_equiv, Z.sub_1_r. }
  pose proof (Z.mod_pos_bound v (2 ^ k) ltac:(apply Z.pow_pos_nonneg; lia)) as Hm.
  set (m := v mod 2 ^ k) in *.
  assert (2 ^ (64 - c) = 2 ^ k * 2 ^ (64 - c - k)) as E1 by (rewrite <- Z.pow_add_r by lia; f_equal; lia).
  assert (2 ^ 64 = 2 ^ c * 2 ^ (64 - c)) as E2 by (rewrite <- Z.pow_add_r by lia; f_equal; lia).
  assert (0 < 2 ^ (64 - c - k)) by (apply Z.pow_pos_nonneg; lia).
  assert (0 < 2 ^ c) by (apply Z.pow_pos_nonneg; lia).
  rewrite wrap_u_id.
  2:{ rewrite Z.shiftl_mul_pow2 by lia. split; [nia|]. rewrite E2, E1. nia. }
  unfold flush_bytes. apply flush_loop_ok; [|cbn [cache_bits]; lia].
  split; cbn [cache_bits out cache]; [lia|done|].
  exists (x * 2 ^ k + m). rewrite (Z.pow_add_r 2 c k) by lia. split; [nia|]. split.
  - rewrite Hc, E1, Z.mul_assoc. rewrite <- (Z.shiftl_mul_pow2 (x * 2 ^ k)) by lia.
    rewrite <- Z.shiftl_lor. rewrite <- (Z.shiftl_mul_pow2 x) by lia.
    rewrite lor_disjoint, !Z.shiftl_mul_pow2 by lia. f_equal. f_equal. lia.
  - rewrite <- app_assoc. f_equal. rewrite Z2Nat.inj_add, bits_of_app by lia. f_equal.
    + rewrite Z2Nat.id, Z.shiftr_div_pow2, Z.div_add_l, Z.div_small by lia. f_equal. lia.
    + rewrite <- (bits_of_mod _ (_ + _)), <- (bits_of_mod _ v), Z2Nat.id by lia.
      rewrite (Z.add_comm (x * 2 ^ k)), Z.mod_add by lia. by rewrite (Z.mod_small m) by lia.
Qed.

(** [put] of an unclamped width, with its bits given by any number that agrees
    on them. *)
Lemma put_bits w bs n v u :
  written w bs -> 0 <= n <= 32 -> 0 <= v < 2 ^ 32 ->
  bits_of (Z.to_nat n) v = bits_of (Z.to_nat n) u ->
  written (put w n v) (bs ++ bits_of (Z.to_nat n) u).
Proof.
  intros Hw Hn Hv <-. replace n with (Z.min n 32) at 2 by lia. apply put_ok; [done|lia|done].
Qed.

Lemma bits_of_wrap n w v : 0 <= w -> Z.of_nat n <= w -> bits_of n (wrap_u w v) = bits_of n v.
Proof. intros Hw Hn. apply bits_of_ext. intros j Hj. apply Z.mod_pow2_bits_low. lia. Qed.

Lemma put_wrap_ok w bs n v :
  written w bs -> 0 <= n <= 32 -> written (put w n (wrap_u 32 v)) (bs ++ bits_of (Z.to_nat n) v).
Proof.
  intros Hw Hn. apply put_bits; [done|done|by apply wrap_u_range|]. apply bits_of_wrap; lia.
Qed.

Lemma put_long_ok w bs n v :
  written w bs -> 0 <= n <= 64 -> written (put_long w n v) (bs ++ bits_of (Z.to_nat n) v).
Proof.
  intros Hw Hn. unfold put_long. rewrite (Z.min_l n 64) by lia. destruct (Z.leb_spec n 32).
  { apply put_wrap_ok; [done|lia]. }
  replace (Z.to_nat n) with (Z.to_nat (n - 32) + Z.to_nat 32)%nat by lia.
  rewrite bits_of_app, app_assoc. apply put_wrap_ok; [|lia].
  rewrite Z2Nat.id by lia. apply put_wrap_ok; [done|lia].
Qed.

Lemma put_zeros_ok w bs n :
  written w bs -> 0 <= n -> written (put_zeros w n) (bs ++ replicate (Z.to_nat n) false).
Proof.
  intros Hw Hn. unfold put_zeros.
  assert (forall fuel w bs n, written w bs -> 0 <= n < 32 * (Z.of_nat fuel + 1) ->
    let (w', left) := put_zeros_loop fuel w n in
    0 <= left <= 32 /\ exists k, written w' (bs ++ replicate k false) /\ Z.of_nat k + left = n) as Hloop.
  { clear. intros fuel. induction fuel as [|fuel IH]; intros w bs n Hw Hn; cbn [put_zeros_loop].
    { split; [lia|]. exists 0%nat. by rewrite app_nil_r. }
    destruct (Z.ltb_spec 32 n); [|split; [lia|exists 0%nat; by rewrite app_nil_r]].
    pose proof (put_ok w bs 32 0 Hw ltac:(lia) ltac:(lia)) as Hp. rewrite bits_of_zero in Hp.
    specialize (IH _ _ (n - 32) Hp ltac:(lia)).
    destruct (put_zeros_loop fuel (put w 32 0) (n - 32)) as [w' left].
    destruct IH as (Hl & k & Hw' & Hk). split; [done|]. exists (32 + k)%nat.
    rewrite replicate_add, app_assoc. split; [done|lia]. }
  pose proof (Z.div_mod n 32). pose proof (Z.mod_pos_bound n 32).
  assert (0 <= n / 32) by (apply Z.div_pos; lia).
  specialize (Hloop (Z.to_nat (n / 32)) w bs n Hw ltac:(lia)).
  destruct (put_zeros_loop _ w n) as [w' left]. destruct Hloop as (Hl & k & Hw' & Hk).
  replace (Z.to_nat n) with (k + Z.to_nat left)%nat by lia.
  rewrite replicate_add, app_assoc, <- (bits_of_zero (Z.to_nat left)).
  by apply put_bits.
Qed.

(** *** Exp-Golomb *)

(** The code word of H.264 9.1 for a code number. *)
Definition ue_bits (v : Z) : list bool :=
  let n := Z.log2 (v + 1) in
  replicate (Z.to_nat n) false ++ bits_of (Z.to_nat (n + 1)) (v + 1).

Lemma ue_ok w bs v :
  written w bs -> 0 <= v < 2 ^ 32 - 1 -> written (ue w v) (bs ++ ue_bits v).
Proof.
  intros Hw Hv. unfold ue, u32_max, ue_bits. rewrite Z.min_l by lia.
  unfold leading_zeros. rewrite (proj2 (Z.eqb_neq _ 0)) by lia.
  replace (64 - (64 - 1 - Z.log2 (v + 1))) with (Z.log2 (v + 1) + 1) by lia.
  pose proof (Z.log2_nonneg (v + 1)).
  assert (Z.log2 (v + 1) < 32) by (apply Z.log2_lt_pow2; lia).
  replace (Z.log2 (v + 1) + 1 - 1) with (Z.log2 (v + 1)) by lia.
  rewrite app_assoc. apply put_long_ok; [|lia]. by apply put_zeros_ok.
Qed.

(** The code number of a signed value. *)
Definition se_code (v : Z) : Z := if 0 <? v then 2 * v - 1 else - 2 * v.

Lemma se_code_signed v : signed_of (se_code v) = v.
Proof.
  unfold signed_of, se_code. destruct (Z.ltb_spec 0 v).
  - replace (2 * v - 1) with (1 + 2 * (v - 1)) by lia. rewrite Z.odd_add_mul_2. simpl Z.odd.
    replace (1 + 2 * (v - 1) + 1) with (v * 2) by lia. by apply Z.div_mul.
  - replace (-2 * v) with (0 + 2 * (- v)) by lia. rewrite Z.odd_add_mul_2. simpl Z.odd.
    replace (0 + 2 * - v) with (- v * 2) by lia. rewrite Z.div_mul by lia. lia.
Qed.

Lemma se_ok w bs v :
  written w bs -> - 2 ^ 31 < v < 2 ^ 31 -> written (se w v) (bs ++ ue_bits (se_code v)).
Proof.
  intros Hw Hv. unfold se, i32_max. rewrite Z.max_l by lia.
  replace (if 0 <? v then v * 2 - 1 else Z.abs v * 2) with (se_code v).
  - apply ue_ok; [done|]. unfold se_code. destruct (Z.ltb_spec 0 v); lia.
  - unfold se_code. destruct (Z.ltb_spec 0 v); lia.
Qed.

(** A written code is the prefix and suffix the reader looks for. *)
Lemma spells_ue f p v :
  0 <= v -> spells f p (ue_bits v) ->
  exists k, k = Z.log2 (v + 1) /\ prefix_at f p k /\ code_value 0 f p k = v.
Proof.
  intros Hv Hs. pose proof (Z.log2_nonneg (v + 1)) as Hn. exists (Z.log2 (v + 1)).
  pose proof (Z.log2_spec (v + 1) ltac:(lia)) as Hlog.
  unfold ue_bits in Hs. set (n := Z.log2 (v + 1)) in *.
  apply spells_app in Hs as [Hz Hb]. rewrite length_replicate, Z2Nat.id in Hb by lia.
  assert (prefix_at f p n) as Hpre.
  { split; [done|]. split.
    - intros i Hi. replace i with (Z.of_nat (Z.to_nat i)) by lia. apply Hz.
      apply lookup_replicate. split; [done|lia].
    - rewrite <- (Z.add_0_r (p + n)). apply (Hb 0%nat).
      rewrite bits_of_lookup by lia. f_equal.
      replace (Z.of_nat (Z.to_nat (n + 1)) - 1 - Z.of_nat 0) with n by lia.
      apply Z.bit_log2. lia. }
  split; [done|]. split; [done|].
  apply spells_bits_of in Hb. rewrite Z2Nat.id in Hb by lia.
  rewrite Z.mod_small in Hb by (rewrite Z.add_1_r; lia).
  rewrite code_value_0. fold (field f (p + n) (n + 1)) in Hb.
  replace (n + 1) with (1 + n) in Hb by lia. rewrite field_app in Hb by lia.
  destruct Hpre as (_ & _ & H1).
  unfold field at 1 in Hb. simpl in Hb. rewrite Z.add_0_r, H1 in Hb. simpl Z.b2z in Hb. lia.
Qed.

(** *** Alignment and the finished bytes *)

Lemma written_length w bs :
  written w bs -> Z.of_nat (length bs) = 8 * zlen (out w) + cache_bits w.
Proof.
  intros [[Hb _ (x & _ & _ & ->)] _]. rewrite length_app, length_bits_of_bytes, length_bits_of.
  unfold zlen. lia.
Qed.

Lemma pad_value c : 0 <= c < 8 -> Z.land (8 - Z.land c 7) 7 = (- c) mod 8.
Proof.
  intros Hc. change 7 with (Z.ones 3). rewrite !Z.land_ones by lia. change (2 ^ 3) with 8.
  rewrite (Z.mod_small c) by lia. replace (8 - c) with (- c + 1 * 8) by lia. by rewrite Z.mod_add by lia.
Qed.

Definition pad_len (bs : list bool) : nat := Z.to_nat ((- Z.of_nat (length bs)) mod 8).

Lemma pad_mod w bs : written w bs -> (- cache_bits w) mod 8 = (- Z.of_nat (length bs)) mod 8.
Proof.
  intros Hw. rewrite (written_length w bs Hw).
  replace (- (8 * zlen (out w) + cache_bits w)) with (- cache_bits w + (- zlen (out w)) * 8) by lia.
  by rewrite Z.mod_add by lia.
Qed.

Lemma align_zero_ok w bs :
  written w bs -> written (align_zero w) (bs ++ replicate (pad_len bs) false).
Proof.
  intros Hw. pose proof Hw as [[Hb _ _] Hlt]. unfold align_zero, pad_len.
  rewrite pad_value, (pad_mod w bs Hw) by lia.
  pose proof (Z.mod_pos_bound (- Z.of_nat (length bs)) 8).
  rewrite <- (bits_of_zero (Z.to_nat _)). apply put_bits; [done|lia|lia|done].
Qed.

(** The finished bytes are the written bits, zero-padded to a byte. *)
Lemma finish_ok w bs :
  written w bs ->
  bits_of_bytes (finish w) = bs ++ replicate (pad_len bs) false /\
  Forall (fun b => 0 <= b < 256) (finish w).
Proof.
  intros Hw. pose proof (align_zero_ok w bs Hw) as Ha. pose proof (written_length _ _ Ha) as Hl.
  destruct Ha as [[Hb Ho (x & _ & _ & E)] Hlt]. unfold finish. split; [|done].
  rewrite length_app, length_replicate in Hl. unfold pad_len in Hl.
  pose proof (Z.mod_pos_bound (- Z.of_nat (length bs)) 8).
  pose proof (Z.div_mod (- Z.of_nat (length bs)) 8).
  assert (cache_bits (align_zero w) = 0) as Hc0 by lia.
  rewrite Hc0 in E. rewrite E. by rewrite app_nil_r.
Qed.

Lemma new_written : written new [].
Proof. split; [|simpl; lia]. split; [simpl; lia|done|]. exists 0. by repeat split; simpl; lia. Qed.

End BitWriter.

(** ** Fields: what a header is made of *)

Import BitReader.

(** One syntax element and its value. *)
Inductive field_t : Type :=
  | FBits (n v : Z)
  | FLong (n v : Z)
  | FSigned (n v : Z)
  | FUe (v : Z)
  | FSe (v : Z).

Definition field_value (x : field_t) : Z :=
  match x with FBits _ v | FLong _ v | FSigned _ v | FUe v | FSe v => v end.

Definition field_ok (x : field_t) : bool :=
  match x with
  | FBits n v => (0 <=? n) && (n <=? 32) && in_u n v
  | FLong n v => (0 <=? n) && (n <=? 64) && in_u n v
  | FSigned n v => (1 <=? n) && (n <=? 32) && in_i n v
  | FUe v => (0 <=? v) && (v <? 2 ^ 32 - 1)
  | FSe v => (- 2 ^ 31 <? v) && (v <? 2 ^ 31)
  end.

Definition write_field (w : BitWriter.writer) (x : field_t) : BitWriter.writer :=
  match x with
  | FBits n v => BitWriter.put w n v
  | FLong n v => BitWriter.put_long w n v
  | FSigned n v => BitWriter.put_signed w n v
  | FUe v => BitWriter.ue w v
  | FSe v => BitWriter.se w v
  end.

(** The matching read; the element's value is not looked at. *)
Definition read_field (r : reader) (x : field_t) : Z * reader :=
  match x with
  | FBits n _ => get r n
  | FLong n _ => get_long r n
  | FSigned n _ => get_signed r n
  | FUe _ => ue r
  | FSe _ => se r
  end.

Fixpoint read_fields (r : reader) (xs : list field_t) : list Z * reader :=
  match xs with
  | [] => ([], r)
  | x :: xs =>
    let (v, r) := read_field r x in
    let (vs, r) := read_fields r xs in
    (v :: vs, r)
  end.

Definition field_bits (x : field_t) : list bool :=
  match x with
  | FBits n v | FLong n v | FSigned n v => bits_of (Z.to_nat n) v
  | FUe v => BitWriter.ue_bits v
  | FSe v => BitWriter.ue_bits (BitWriter.se_code v)
  end.

Lemma write_field_ok w bs x :
  BitWriter.written w bs -> field_ok x = true ->
  BitWriter.written (write_field w x) (bs ++ field_bits x).
Proof.
  intros Hw Hx. destruct x; simpl in *; breflect.
  - apply BitWriter.put_bits; [done|lia| |done].
    assert (2 ^ n <= 2 ^ 32) by (apply Z.pow_le_mono_r; lia). lia.
  - apply BitWriter.put_long_ok; [done|lia].
  - apply BitWriter.put_wrap_ok; [done|lia].
  - apply BitWriter.ue_ok; [done|lia].
  - apply BitWriter.se_ok; [done|lia].
Qed.

Lemma length_ue_bits v :
  0 <= v < 2 ^ 32 -> Z.of_nat (length (BitWriter.ue_bits v)) = 2 * Z.log2 (v + 1) + 1 /\
                     Z.log2 (v + 1) <= 32.
Proof.
  intros Hv. unfold BitWriter.ue_bits. rewrite length_app, length_replicate, length_bits_of.
  pose proof (Z.log2_nonneg (v + 1)). split; [lia|].
  assert (Z.log2 (v + 1) < 33) by (apply Z.log2_lt_pow2; lia). lia.
Qed.

Lemma sign_extend_mod n v :
  1 <= n -> - 2 ^ (n - 1) <= v < 2 ^ (n - 1) -> sign_extend n (v mod 2 ^ n) = v.
Proof.
  intros Hn Hv. unfold sign_extend.
  assert (2 ^ n = 2 * 2 ^ (n - 1)) by (rewrite <- Z.pow_succ_r by lia; f_equal; lia).
  destruct (decide (0 <= v)).
  - rewrite Z.mod_small by lia. destruct (Z.ltb_spec v (2 ^ (n - 1))); lia.
  - assert (v mod 2 ^ n = v + 2 ^ n) as ->.
    { rewrite <- (Z.mod_add v 1) by lia. rewrite Z.mod_small by lia. lia. }
    destruct (Z.ltb_spec (v + 2 ^ n) (2 ^ (n - 1))); lia.
Qed.

(** Reading the element that was spelled gives its value and moves past it. *)
Lemma read_field_ok f limit r p fl x :
  src_at f limit r p fl -> field_ok x = true -> spells f p (field_bits x) -> p + 64 <= LIM ->
  exists r', read_field r x = (field_value x, r') /\
    src_at f limit r' (p + Z.of_nat (length (field_bits x))) fl /\
    Z.of_nat (length (field_bits x)) <= 65.
Proof.
  intros Hr Hx Hs Hp. destruct x as [n v|n v|n v|v|v]; simpl field_ok in Hx;
    cbn [read_field field_value field_bits] in *; breflect.
  - destruct (src_get_ok f limit r p fl n Hr) as (r' & E & Hr'); [lia|lia|]. exists r'.
    rewrite length_bits_of, Z2Nat.id by lia. split; [|by split; [|lia]].
    change get with src_get. rewrite E. f_equal. unfold field. rewrite (spells_bits_of _ _ _ v Hs).
    rewrite Z2Nat.id by lia. apply Z.mod_small. lia.
  - destruct (src_get_long_ok f limit r p fl n Hr) as (r' & E & Hr'); [lia|lia|]. exists r'.
    rewrite length_bits_of, Z2Nat.id by lia. split; [|by split; [|lia]].
    change get_long with src_get_long. rewrite E. f_equal. unfold field.
    rewrite (spells_bits_of _ _ _ v Hs). rewrite Z2Nat.id by lia. apply Z.mod_small. lia.
  - destruct Hr as (Ha & Hf & Hl & Hb). pose proof (get_signed_ok r p n Ha ltac:(lia) ltac:(lia)) as Hg.
    destruct (get_signed r n) as [u r']. destruct Hg as (-> & Ha' & Hs1 & Hs2 & Hs3).
    rewrite Z.min_l in * by lia. exists r'. rewrite length_bits_of, Z2Nat.id by lia.
    split; [|split; [|lia]].
    + rewrite (proj2 (Z.eqb_neq n 0)) by lia. f_equal. rewrite (field_ext _ f) by done.
      unfold field. rewrite (spells_bits_of _ _ _ v Hs), Z2Nat.id by lia.
      apply sign_extend_mod; lia.
    + split; [done|]. split; [congruence|]. split; [congruence|]. by rewrite Hs1.
  - destruct (BitWriter.spells_ue f p v ltac:(lia) Hs) as (k & -> & Hpre & Hv).
    destruct (length_ue_bits v ltac:(lia)) as [Hlen Hk].
    assert (Z.log2 (v + 1) < 32) by (apply Z.log2_lt_pow2; lia).
    destruct (ue_prefix f limit r p fl (Z.log2 (v + 1)) Hr ltac:(lia) ltac:(lia) Hpre) as (r' & E & Hr').
    exists r'. rewrite E, Hv, Hlen. by split; [|split; [|lia]].
  - assert (0 <= BitWriter.se_code v <= 2 ^ 32 - 2)
      by (unfold BitWriter.se_code; destruct (Z.ltb_spec 0 v); lia).
    destruct (BitWriter.spells_ue f p (BitWriter.se_code v) ltac:(lia) Hs) as (k & -> & Hpre & Hv).
    destruct (length_ue_bits (BitWriter.se_code v) ltac:(lia)) as [Hlen Hk].
    assert (Z.log2 (BitWriter.se_code v + 1) < 32) by (apply Z.log2_lt_pow2; lia).
    pose proof (ue_prefix f limit r p fl (Z.log2 (BitWriter.se_code v + 1)) Hr ltac:(lia)
      ltac:(lia) Hpre) as Hd. rewrite Hv in Hd.
    apply se_ue in Hd as (r' & E & Hr'); [|done].
    exists r'. rewrite E, BitWriter.se_code_signed, Hlen. by split; [|split; [|lia]].
Qed.

Definition all_bits (xs : list field_t) : list bool := concat (map field_bits xs).

Lemma write_fields_ok xs w bs :
  BitWriter.written w bs -> forallb field_ok xs = true ->
  BitWriter.written (fold_left write_field xs w) (bs ++ all_bits xs).
Proof.
  revert w bs. induction xs as [|x xs IH]; intros w bs Hw Hok; cbn [fold_left].
  - unfold all_bits. simpl. by rewrite app_nil_r.
  - cbn [forallb] in Hok. breflect. unfold all_bits. cbn [map concat]. rewrite app_assoc.
    apply IH; [|done]. by apply write_field_ok.
Qed.

Lemma read_fields_ok f limit xs r p fl :
  src_at f limit r p fl -> forallb field_ok xs = true -> spells f p (all_bits xs) ->
  p + 65 * zlen xs + 64 <= LIM ->
  exists r', read_fields r xs = (map field_value xs, r') /\
    src_at f limit r' (p + Z.of_nat (length (all_bits xs))) fl /\
    Z.of_nat (length (all_bits xs)) <= 65 * zlen xs.
Proof.
  revert r p. induction xs as [|x xs IH]; intros r p Hr Hok Hs Hp; cbn [read_fields map].
  - exists r. unfold all_bits, zlen. simpl. by rewrite Z.add_0_r.
  - cbn [forallb] in Hok. breflect. unfold all_bits in *. cbn [map concat] in *.
    apply spells_app in Hs as [Hs1 Hs2]. rewrite zlen_cons in *. pose proof (zlen_nonneg xs).
    destruct (read_field_ok f limit r p fl x Hr ltac:(done) Hs1 ltac:(lia)) as (r1 & -> & Hr1 & Hl1).
    destruct (IH r1 _ Hr1 ltac:(done) Hs2 ltac:(lia)) as (r2 & -> & Hr2 & Hl2).
    exists r2. rewrite length_app, Nat2Z.inj_add, Z.add_assoc. split; [done|]. split; [done|lia].
Qed.

(** C3. What the writer writes the reader reads: any sequence of fixed-width,
    64-bit, signed and Exp-Golomb fields in the writer's domain, written from
    an empty [BitWriter] and taken with [finish], is read back from those bytes
    value for value, and the reader ends without an overrun. *)
Theorem fields_roundtrip xs :
  forallb field_ok xs = true -> zlen xs < 2 ^ 40 ->
  let bytes := BitWriter.finish (fold_left write_field xs BitWriter.new) in
  fst (read_fields (new bytes) xs) = map field_value xs /\
  finish (snd (read_fields (new bytes) xs)) = Ok tt.
Proof.
  intros Hok Hlen bytes. pose proof (zlen_nonneg xs).
  pose proof (write_fields_ok xs _ _ BitWriter.new_written Hok) as Hw.
  destruct (BitWriter.finish_ok _ _ Hw) as [Hbits Hbytes]. fold bytes in Hbits, Hbytes.
  cbn [app] in Hbits, Hw.
  assert (spells (bit_at bytes) 0 (all_bits xs)) as Hs.
  { pose proof (spells_bytes bytes) as Hsp. rewrite Hbits in Hsp. by apply spells_app in Hsp as [? _]. }
  pose proof (f_equal length Hbits) as Hl.
  rewrite length_bits_of_bytes, length_app, length_replicate in Hl.
  unfold BitWriter.pad_len in Hl.
  pose proof (Z.mod_pos_bound (- Z.of_nat (length (all_bits xs))) 8 ltac:(lia)) as Hpad.
  assert (Z.of_nat (length (all_bits xs)) <= 65 * zlen xs) as Hbound.
  { clear - Hok. induction xs as [|x xs IH]; [done|]. cbn [forallb] in Hok. breflect.
    unfold all_bits in *. cbn [map concat]. rewrite length_app, zlen_cons.
    enough (Z.of_nat (length (field_bits x)) <= 65) by (specialize (IH ltac:(done)); lia).
    destruct x; simpl field_ok in *; breflect; cbn [field_bits]; rewrite ?length_bits_of; try lia.
    - destruct (length_ue_bits v ltac:(lia)). lia.
    - assert (0 <= BitWriter.se_code v < 2 ^ 32)
        by (unfold BitWriter.se_code; destruct (Z.ltb_spec 0 v); lia).
      destruct (length_ue_bits (BitWriter.se_code v) ltac:(lia)). lia. }
  assert (buffer bytes) as Hbuf by (split; [done|unfold zlen; lia]).
  destruct (read_fields_ok (bit_at bytes) (8 * zlen bytes) xs (new bytes) 0 false)
    as (r' & -> & (Ha & Hf & Hlim & _) & _); [|done|done|unfold LIM; lia|].
  { apply new_source; [done|unfold zlen; lia]. }
  cbn [fst snd]. split; [done|]. unfold finish, check, overrun. rewrite Hf, Hlim.
  rewrite (bit_pos_at r' _ Ha) by (unfold LIM; lia). rewrite Z.add_0_l.
  by rewrite (proj2 (Z.ltb_ge _ _)) by (unfold zlen; lia).
Qed.

Lemma fields_roundtrip_witness :
  let bytes := BitWriter.finish (fold_left write_field
    [FBits 3 5; FUe 42; FSe (-7); FSigned 12 (-2048); FLong 40 (2 ^ 39 + 1)] BitWriter.new) in
  bytes = [160; 172; 124; 0; 64; 0; 0; 0; 0; 128] /\
  fst (read_fields (new bytes) [FBits 3 5; FUe 42; FSe (-7); FSigned 12 (-2048); FLong 40 (2 ^ 39 + 1)]) =
  [5; 42; -7; -2048; 2 ^ 39 + 1].
Proof.
  split; [by vm_compute|].
  refine (eq_trans (proj1 (fields_roundtrip
    [FBits 3 5; FUe 42; FSe (-7); FSigned 12 (-2048); FLong 40 (2 ^ 39 + 1)] eq_refl eq_refl)) _).
  by vm_compute.
Defined.
