(* ===== verification/AnnexB.v ===== *)
(** * AnnexB: start codes and emulation prevention

    [src/crates/core/vaco-bitstream/src/annexb.rs] and the escaping writer of
    [writer.rs]. The scan is proved equal to the naive search whatever its
    strides skip; escaping is proved to remove every forbidden sequence and to
    be undone exactly by the reader's side. *)

From Stdlib Require Import ZArith Lia.
From stdpp Require Import prelude.
From S2P Require Import Prelude Bits Source Reader Golomb Writer.

(** The word is loaded with [from_ne_bytes], here little-endian; the test does
    not depend on the order. *)
Definition has_zero_byte (w : Z) : bool :=
  negb (Z.land (Z.land (wrap_u 64 (w - 0x0101010101010101)) (Z.lxor w (2 ^ 64 - 1)))
          0x8080808080808080 =? 0).

(** The scan: a word without a zero byte is skipped by seven, a triple by three
    or one. *)
Fixpoint find_loop (fuel : nat) (buf : list Z) (i : Z) : option Z :=
  match fuel with
  | O => None
  | S fuel =>
    let triple :=
      match (s ← get_from buf i; first_chunk 3 s) with
      | Some [a; b; c] =>
        if c =? 0 then find_loop fuel buf (i + 1)
        else if (c =? 1) && (a =? 0) && (b =? 0) then Some i
        else find_loop fuel buf (i + 3)
      | _ => None
      end in
    match (s ← get_from buf i; first_chunk 8 s) with
    | Some w => if negb (has_zero_byte (le_value w)) then find_loop fuel buf (i + 7) else triple
    | None => triple
    end
  end.

(** Every round moves at least one byte, so the distance to the end is fuel
    enough. *)
Definition find_start_code (buf : list Z) (from : Z) : option Z :=
  find_loop (S (Z.to_nat (zlen buf - from))) buf from.

Record nal_iter : Type := NalIter { it_buf : list Z; it_next : option Z }.

Definition nal_units (buf : list Z) : nal_iter :=
  NalIter buf (i ← find_start_code buf 0; Some (i + 3)).

(** [iter().rposition(|&b| b != 0)]. *)
Fixpoint rposition_nonzero (l : list Z) : option nat :=
  match l with
  | [] => None
  | b :: l =>
    match rposition_nonzero l with
    | Some n => Some (S n)
    | None => if negb (b =? 0) then Some O else None
    end
  end.

(** [trailing_zero_8bits] removed. *)
Definition trim (u : list Z) : list Z :=
  match rposition_nonzero u with
  | Some last => take (S last) u
  | None => []
  end.

(** [Iterator::next]; empty units are passed over, each past a start code. *)
Fixpoint next_loop (fuel : nat) (it : nal_iter) : option (list Z) * nal_iter :=
  match fuel, it_next it with
  | O, _ | _, None => (None, it)
  | S fuel, Some start =>
    let '(end_, next) :=
      match find_start_code (it_buf it) start with
      | Some sc => (sc, Some (sc + 3))
      | None => (zlen (it_buf it), None)
      end in
    let it := NalIter (it_buf it) next in
    let trimmed := trim (default [] (get_range (it_buf it) start end_)) in
    if bool_decide (trimmed <> []) then (Some trimmed, it)
    else match next with None => (None, it) | Some _ => next_loop fuel it end
  end.

Definition next (it : nal_iter) : option (list Z) * nal_iter :=
  next_loop (S (length (it_buf it))) it.

(** [collect]: a unit is yielded at most once per start code. *)
Fixpoint collect_loop (fuel : nat) (it : nal_iter) : list (list Z) :=
  match fuel with
  | O => []
  | S fuel =>
    match next it with
    | (Some u, it) => u :: collect_loop fuel it
    | (None, _) => []
    end
  end.

Definition collect (it : nal_iter) : list (list Z) := collect_loop (S (length (it_buf it))) it.

Fixpoint rbsp_loop (zeros : Z) (ebsp : list Z) : list Z :=
  match ebsp with
  | [] => []
  | b :: ebsp =>
    if (2 <=? zeros) && (b =? 3) then rbsp_loop 0 ebsp
    else b :: rbsp_loop (if b =? 0 then wrap_u 32 (zeros + 1) else 0) ebsp
  end.

(** The scratch buffer is cleared first. *)
Definition to_rbsp (ebsp : list Z) : list Z := rbsp_loop 0 ebsp.

Fixpoint ebsp_loop (zeros : Z) (rbsp : list Z) : list Z :=
  match rbsp with
  | [] => []
  | b :: rbsp =>
    let '(escape, zeros) := if (2 <=? zeros) && (b <=? 3) then ([3], 0) else ([], zeros) in
    escape ++ b :: ebsp_loop (if b =? 0 then wrap_u 32 (zeros + 1) else 0) rbsp
  end.

(** Appends to [out]. *)
Definition to_ebsp (rbsp out : list Z) : list Z := out ++ ebsp_loop 0 rbsp.

(** [windows(3).any(...)]. *)
Fixpoint violates_ebsp_constraint (buf : list Z) : bool :=
  match buf with
  | a :: ((b :: c :: _) as rest) =>
    (a =? 0) && (b =? 0) && ((0 <=? c) && (c <=? 2)) || violates_ebsp_constraint rest
  | _ => false
  end.

(** [RbspWriter]: a bit writer escaped once, at the end. *)
Record rbsp_writer : Type := RbspWriter { inner : BitWriter.writer; escaped : list Z }.

Definition rbsp_new : rbsp_writer := RbspWriter BitWriter.new [].

Definition rbsp_finish (w : rbsp_writer) : list Z :=
  to_ebsp (BitWriter.finish (BitWriter.rbsp_trailing (inner w))) (escaped w).

Definition finish_annexb (w : rbsp_writer) : list Z := [0; 0; 0; 1] ++ rbsp_finish w.

(** ** The word test *)

Lemma testbit_concat n a b j :
  0 <= n -> 0 <= a < 2 ^ n -> 0 <= j ->
  Z.testbit (a + 2 ^ n * b) j = if j <? n then Z.testbit a j else Z.testbit b (j - n).
Proof.
  intros Hn Ha Hj. rewrite Z.add_comm, Z.mul_comm, <- lor_disjoint by done. rewrite Z.lor_spec.
  destruct (Z.ltb_spec j n).
  - by rewrite Z.shiftl_spec_low by done.
  - rewrite Z.shiftl_spec by done. rewrite <- (Z.mod_small a (2 ^ n)) by done.
    rewrite Z.mod_pow2_bits_high by lia. apply orb_false_r.
Qed.

Lemma land_concat n a b c d :
  0 <= n -> 0 <= a < 2 ^ n -> 0 <= c < 2 ^ n ->
  Z.land (a + 2 ^ n * b) (c + 2 ^ n * d) = Z.land a c + 2 ^ n * Z.land b d.
Proof.
  intros Hn Ha Hc. pose proof (land_range a c n Hn Hc) as Hac.
  apply Z.bits_inj'. intros j Hj. rewrite Z.land_spec, !testbit_concat by done.
  rewrite !Z.land_spec. by destruct (j <? n).
Qed.

Lemma lxor_concat n a b c d :
  0 <= n -> 0 <= a < 2 ^ n -> 0 <= c < 2 ^ n ->
  Z.lxor (a + 2 ^ n * b) (c + 2 ^ n * d) = Z.lxor a c + 2 ^ n * Z.lxor b d.
Proof.
  intros Hn Ha Hc. assert (0 <= Z.lxor a c < 2 ^ n) as Hac.
  { split; [apply Z.lxor_nonneg; lia|].
    destruct (decide (Z.lxor a c = 0)) as [->|Hne]; [apply Z.pow_pos_nonneg; lia|].
    assert (0 <= Z.lxor a c) by (apply Z.lxor_nonneg; lia).
    destruct (decide (n = 0)) as [->|]; [change (2 ^ 0) with 1 in *; assert (a = 0 /\ c = 0) as [-> ->] by lia; done|].
    apply Z.log2_lt_pow2; [lia|]. pose proof (Z.log2_lxor a c ltac:(lia) ltac:(lia)).
    assert (forall x, 0 <= x < 2 ^ n -> Z.log2 x < n) as Hl.
    { intros x Hx. destruct (decide (x = 0)) as [->|]; [simpl; lia|]. apply Z.log2_lt_pow2; lia. }
    pose proof (Hl a Ha). pose proof (Hl c Hc). lia. }
  apply Z.bits_inj'. intros j Hj. rewrite Z.lxor_spec, !testbit_concat by done.
  rewrite !Z.lxor_spec. by destruct (j <? n).
Qed.

(** The trick at any number of bytes. *)
Fixpoint spread (b : Z) (n : nat) : Z :=
  match n with O => 0 | S n => b + 2 ^ 8 * spread b n end.

Definition zero_flags (n : nat) (w : Z) : Z :=
  Z.land (Z.land ((w - spread 1 n) mod 2 ^ (8 * Z.of_nat n)) (Z.lxor w (2 ^ (8 * Z.of_nat n) - 1)))
    (spread 128 n).

Definition byte_flag (b : Z) : Z := Z.land (Z.land ((b - 1) mod 256) (Z.lxor b 255)) 128.

Lemma byte_flag_zero b : 0 <= b < 256 -> byte_flag b = if b =? 0 then 128 else 0.
Proof.
  intros Hb.
  assert (forallb (fun b => byte_flag b =? (if b =? 0 then 128 else 0)) (map Z.of_nat (seq 0 256)) = true)
    as H by (by vm_compute).
  rewrite forallb_forall in H. apply Z.eqb_eq, H, in_map_iff. exists (Z.to_nat b).
  split; [lia|]. apply in_seq. lia.
Qed.

Lemma byte_lxor b : 0 <= b < 256 -> 0 <= Z.lxor b 255 < 256.
Proof.
  intros Hb.
  assert (forallb (fun b => in_u 8 (Z.lxor b 255)) (map Z.of_nat (seq 0 256)) = true)
    as H by (by vm_compute).
  rewrite forallb_forall in H. apply (in_u_spec 8), H, in_map_iff. exists (Z.to_nat b).
  split; [lia|]. apply in_seq. lia.
Qed.

(** One byte at a time: its own flag, and the rest with the borrow a zero byte
    takes. *)
Lemma zero_flags_step n b w :
  0 <= b < 256 ->
  zero_flags (S n) (b + 256 * w) =
  byte_flag b + 2 ^ 8 *
    Z.land (Z.land ((w - spread 1 n - (if b =? 0 then 1 else 0)) mod 2 ^ (8 * Z.of_nat n))
              (Z.lxor w (2 ^ (8 * Z.of_nat n) - 1))) (spread 128 n).
Proof.
  intros Hb. unfold zero_flags. set (N := 2 ^ (8 * Z.of_nat n)).
  assert (0 < N) by (apply Z.pow_pos_nonneg; lia).
  assert (2 ^ (8 * Z.of_nat (S n)) = 2 ^ 8 * N) as ->
    by (unfold N; rewrite <- Z.pow_add_r by lia; f_equal; lia).
  set (e := if b =? 0 then 1 else 0).
  assert ((b + 256 * w - spread 1 (S n)) mod (2 ^ 8 * N) =
    (b - 1) mod 256 + 2 ^ 8 * ((w - spread 1 n - e) mod N)) as ->.
  { cbn [spread]. change 256 with (2 ^ 8).
    replace (b + 2 ^ 8 * w - (1 + 2 ^ 8 * spread 1 n)) with ((b - 1) + 2 ^ 8 * (w - spread 1 n)) by lia.
    rewrite Z.rem_mul_r by lia. rewrite (Z.mul_comm (2 ^ 8) (w - _)), Z.mod_add, Z.div_add by lia.
    do 3 f_equal. subst e. destruct (Z.eqb_spec b 0) as [->|].
    - change ((0 - 1) / 2 ^ 8) with (-1). lia.
    - rewrite Z.div_small by lia. lia. }
  replace (2 ^ 8 * N - 1) with (255 + 2 ^ 8 * (N - 1)) by lia.
  change 256 with (2 ^ 8) at 2. rewrite lxor_concat by (change (2 ^ 8) with 256; lia).
  pose proof (byte_lxor b Hb). pose proof (Z.mod_pos_bound (b - 1) 256).
  rewrite land_concat by (change (2 ^ 8) with 256; lia). cbn [spread].
  rewrite land_concat; [done|lia| |lia].
  apply land_range; change (2 ^ 8) with 256; lia.
Qed.

Lemma zero_flags_exact l :
  Forall (fun b => 0 <= b < 256) l ->
  (zero_flags (length l) (le_value l) =? 0) = negb (existsb (fun b => b =? 0) l).
Proof.
  intros Hl. induction Hl as [|b l Hb Hl IH]; [done|]. cbn [length le_value fold_right existsb].
  fold (le_value l). rewrite zero_flags_step, byte_flag_zero by done.
  set (T := Z.land _ _). assert (0 <= T) as HT.
  { apply Z.land_nonneg. right. clear. induction (length l) as [|n IH]; cbn [spread]; lia. }
  destruct (Z.eqb_spec b 0); cbn [orb negb].
  - apply Z.eqb_neq. change (2 ^ 8) with 256. lia.
  - rewrite <- IH. subst T. rewrite Z.sub_0_r. unfold zero_flags.
    set (T := Z.land _ _) in *. change (2 ^ 8) with 256 in *.
    destruct (Z.eqb_spec T 0), (Z.eqb_spec (0 + 256 * T) 0); done || lia.
Qed.

Lemma has_zero_byte_exact l :
  Forall (fun b => 0 <= b < 256) l -> length l = 8%nat ->
  has_zero_byte (le_value l) = existsb (fun b => b =? 0) l.
Proof.
  intros Hl Hlen. pose proof (zero_flags_exact l Hl) as H. rewrite Hlen in H.
  unfold has_zero_byte. unfold zero_flags in H.
  change (spread 1 8) with 0x0101010101010101 in H. change (spread 128 8) with 0x8080808080808080 in H.
  change (8 * Z.of_nat 8) with 64 in H. unfold wrap_u. by rewrite H, negb_involutive.
Qed.

(** ** The scan *)

(** A three-byte start code at [i]; outside the buffer bytes are zero. *)
Definition code_at (buf : list Z) (i : Z) : Prop :=
  byte_at buf i = 0 /\ byte_at buf (i + 1) = 0 /\ byte_at buf (i + 2) = 1 /\ 0 <= i.

(** The answer of a search from [i]: the least start code. *)
Definition first_code (buf : list Z) (i : Z) (o : option Z) : Prop :=
  match o with
  | Some k => i <= k /\ code_at buf k /\ forall j, i <= j < k -> ~ code_at buf j
  | None => forall j, i <= j -> ~ code_at buf j
  end.

Lemma first_code_skip buf i i' o :
  i <= i' -> (forall j, i <= j < i' -> ~ code_at buf j) -> first_code buf i' o -> first_code buf i o.
Proof.
  intros Hi Hj. destruct o as [k|]; simpl.
  - intros (H1 & H2 & H3). split; [lia|]. split; [done|]. intros j Hjk.
    destruct (decide (j < i')); [apply Hj; lia|apply H3; lia].
  - intros H j Hij. destruct (decide (j < i')); [apply Hj; lia|apply H; lia].
Qed.

Lemma first_code_unique buf i o o' : first_code buf i o -> first_code buf i o' -> o = o'.
Proof.
  destruct o as [k|], o' as [k'|]; simpl; [| | |done].
  - intros (H1 & H2 & H3) (H4 & H5 & H6). f_equal.
    destruct (Z.lt_trichotomy k k') as [?|[?|?]]; [|done|].
    + exfalso. apply (H6 k); [lia|done].
    + exfalso. apply (H3 k'); [lia|done].
  - intros (H1 & H2 & H3) H. exfalso. by apply (H k).
  - intros H (H1 & H2 & H3). exfalso. by apply (H k').
Qed.

(** A chunk read at [i] is the bytes from [i]. *)
Lemma chunk_at {A} buf i n (k : list Z -> option A) (z : option A) :
  0 <= i -> 0 <= n ->
  match (s ← get_from buf i; first_chunk n s) with Some w => k w | None => z end =
  if i + n <=? zlen buf then k (take (Z.to_nat n) (drop (Z.to_nat i) buf)) else z.
Proof.
  intros Hi Hn. destruct (get_from buf i) as [s|] eqn:E; simpl.
  - apply get_from_Some in E as [HE ->]. unfold first_chunk. rewrite zlen_drop by lia.
    destruct (Z.leb_spec n (zlen buf - i)), (Z.leb_spec (i + n) (zlen buf)); done || lia.
  - destruct (Z.leb_spec (i + n) (zlen buf)); [|done].
    assert (get_from buf i = Some (drop (Z.to_nat i) buf)) by (apply get_from_Some; split; [lia|done]).
    congruence.
Qed.

Lemma triple_at buf i :
  0 <= i -> i + 3 <= zlen buf ->
  take (Z.to_nat 3) (drop (Z.to_nat i) buf) = [byte_at buf i; byte_at buf (i + 1); byte_at buf (i + 2)].
Proof.
  intros Hi Hl. rewrite !byte_at_nth by lia.
  replace (Z.to_nat (i + 1)) with (S (Z.to_nat i)) by lia.
  replace (Z.to_nat (i + 2)) with (S (S (Z.to_nat i))) by lia.
  assert (Z.to_nat i + 3 <= length buf)%nat as H by (unfold zlen in *; lia). clear - H.
  generalize dependent (Z.to_nat i). intros n. revert buf.
  induction n as [|n IH]; intros buf H.
  - destruct buf as [|a [|b [|c buf]]]; simpl in H; done || lia.
  - destruct buf as [|a buf]; simpl in H; [lia|]. simpl drop. simpl nth. apply IH. lia.
Qed.

(** A word without a zero byte starts no code in its first seven positions. *)
Lemma word_skip buf i :
  Forall (fun b => 0 <= b < 256) buf -> 0 <= i -> i + 8 <= zlen buf ->
  has_zero_byte (le_value (take (Z.to_nat 8) (drop (Z.to_nat i) buf))) = false ->
  forall j, i <= j < i + 7 -> ~ code_at buf j.
Proof.
  intros Hb Hi Hl Hz j Hj (H0 & _).
  assert (length (take (Z.to_nat 8) (drop (Z.to_nat i) buf)) = 8%nat) as Hlen.
  { rewrite length_take, length_drop. unfold zlen in Hl. lia. }
  rewrite has_zero_byte_exact in Hz; [|by apply Forall_take, Forall_drop|done].
  apply not_true_iff_false in Hz. apply Hz, existsb_exists. exists 0. split; [|done].
  rewrite <- H0. replace j with (i + (j - i)) by lia.
  rewrite <- byte_at_drop, <- (byte_at_take _ 8), byte_at_nth by (try lia; unfold zlen; rewrite Hlen; lia).
  apply nth_In. rewrite Hlen. lia.
Qed.

Lemma find_loop_first fuel buf i :
  Forall (fun b => 0 <= b < 256) buf -> 0 <= i -> zlen buf - i < Z.of_nat fuel ->
  first_code buf i (find_loop fuel buf i).
Proof.
  intros Hb. revert i. induction fuel as [|fuel IH]; intros i Hi Hf.
  { intros j Hj (_ & _ & H & _). rewrite byte_at_out in H by lia. done. }
  cbn [find_loop]. rewrite !chunk_at by lia.
  assert (first_code buf i
    (if i + 3 <=? zlen buf
     then match take (Z.to_nat 3) (drop (Z.to_nat i) buf) with
          | [a; b; c] =>
            if c =? 0 then find_loop fuel buf (i + 1)
            else if (c =? 1) && (a =? 0) && (b =? 0) then Some i else find_loop fuel buf (i + 3)
          | _ => None
          end
     else None)) as Htriple.
  { destruct (Z.leb_spec (i + 3) (zlen buf)).
    2:{ intros j Hj (_ & _ & Hc & _). rewrite byte_at_out in Hc by lia. done. }
    rewrite triple_at by lia.
    destruct (Z.eqb_spec (byte_at buf (i + 2)) 0) as [E|E].
    { apply (first_code_skip buf i (i + 1)); [lia| |apply IH; lia].
      intros j Hj (_ & _ & Hc & _). replace j with i in Hc by lia. lia. }
    destruct (_ && _ && _) eqn:Ec; breflect.
    { split; [lia|]. split; [done|]. intros j Hj. lia. }
    apply (first_code_skip buf i (i + 3)); [lia| |apply IH; lia].
    intros j Hj (Ha & Hb' & Hc & _).
    assert (j = i \/ j = i + 1 \/ j = i + 2) as [->|[->| ->]] by lia.
    - by rewrite Ha, Hb', Hc in Ec.
    - replace (i + 1 + 1) with (i + 2) in Hb' by lia. done.
    - done. }
  destruct (Z.leb_spec (i + 8) (zlen buf)); [|done].
  destruct (has_zero_byte _) eqn:Ez; cbn [negb]; [done|].
  apply (first_code_skip buf i (i + 7)); [lia|by apply word_skip|apply IH; lia].
Qed.

(** The answer is the least start code. *)
Lemma find_first buf from :
  Forall (fun b => 0 <= b < 256) buf -> 0 <= from -> first_code buf from (find_start_code buf from).
Proof. intros Hb Hf. apply find_loop_first; [done|done|lia]. Qed.

(** The start-code scan is the naive search: with its seven-byte word skip
    and its three-byte stride, [find_start_code] returns the first position at
    or after [from] that holds [00 00 01], and [None] exactly when there is
    none. *)
Theorem find_start_code_first buf from i :
  buffer buf -> 0 <= from ->
  (find_start_code buf from = Some i <->
   from <= i /\ code_at buf i /\ forall j, from <= j < i -> ~ code_at buf j) /\
  (find_start_code buf from = None <-> forall j, from <= j -> ~ code_at buf j).
Proof.
  intros [Hb _] Hf. pose proof (find_first buf from Hb Hf) as H. split; split; intros E.
  - by rewrite E in H.
  - by apply (first_code_unique buf from).
  - by rewrite E in H.
  - by apply (first_code_unique buf from).
Qed.

Lemma find_start_code_first_witness :
  find_start_code [0; 0; 0; 1; 9; 9; 9; 9; 9; 9; 9; 9; 0; 0; 1; 7] 2 = Some 12.
Proof.
  apply (proj1 (find_start_code_first [0; 0; 0; 1; 9; 9; 9; 9; 9; 9; 9; 9; 0; 0; 1; 7] 2 12
    ltac:(by apply buffer_check) ltac:(lia))).
  split; [lia|]. split; [by split; [|split; [|split]]|]. intros j Hj (H0 & H1 & H2 & _).
  assert (j = 2 \/ j = 3 \/ j = 4 \/ j = 5 \/ j = 6 \/ j = 7 \/ j = 8 \/ j = 9 \/ j = 10 \/ j = 11) as Hc by lia.
  repeat destruct Hc as [-> | Hc]; subst; vm_compute in H0, H2; discriminate.
Defined.

(** ** Emulation prevention *)

Lemma rbsp_ebsp_loop z l :
  0 <= z <= 2 -> rbsp_loop z (ebsp_loop z l) = l.
Proof.
  revert z. induction l as [|b l IH]; intros z Hz; [done|]. cbn [ebsp_loop].
  assert (forall z', 0 <= z' <= 1 \/ z' = 2 /\ b <> 0 ->
    rbsp_loop (if b =? 0 then wrap_u 32 (z' + 1) else 0)
      (ebsp_loop (if b =? 0 then wrap_u 32 (z' + 1) else 0) l) = l) as Hrest.
  { intros z' Hz'. destruct (Z.eqb_spec b 0); [|apply IH; lia].
    rewrite wrap_u_id by lia. apply IH. lia. }
  destruct (Z.leb_spec 2 z); cbn [andb].
  - assert (z = 2) as -> by lia. destruct (Z.leb_spec b 3); cbn [app rbsp_loop].
    + simpl (2 <=? 2). simpl (3 =? 3). cbn [andb]. simpl (2 <=? 0). cbn [andb].
      f_equal. apply Hrest. lia.
    + rewrite (proj2 (Z.eqb_neq b 3)) by lia. rewrite andb_false_r. f_equal. apply Hrest. lia.
  - cbn [app rbsp_loop]. rewrite (proj2 (Z.leb_gt 2 z)) by lia. cbn [andb]. f_equal. apply Hrest. lia.
Qed.

Lemma violates_cons3 a b c l :
  violates_ebsp_constraint (a :: b :: c :: l) =
  (a =? 0) && (b =? 0) && ((0 <=? c) && (c <=? 2)) || violates_ebsp_constraint (b :: c :: l).
Proof. done. Qed.

Lemma violates_cons_nonzero b l :
  b <> 0 -> violates_ebsp_constraint (b :: l) = violates_ebsp_constraint l.
Proof.
  intros Hb. destruct l as [|c [|d l]]; [done|done|].
  by rewrite violates_cons3, (proj2 (Z.eqb_neq b 0) Hb).
Qed.

Lemma violates_cons2_nonzero a b l :
  b <> 0 -> violates_ebsp_constraint (a :: b :: l) = violates_ebsp_constraint l.
Proof.
  intros Hb. rewrite <- (violates_cons_nonzero b l Hb). destruct l as [|c l]; [done|].
  by rewrite violates_cons3, (proj2 (Z.eqb_neq b 0) Hb), andb_false_r.
Qed.

(** Nothing forbidden, counting the zeros already written. *)
Lemma ebsp_loop_clean z l :
  Forall (fun b => 0 <= b < 256) l -> (z <= 2)%nat ->
  violates_ebsp_constraint (replicate z 0 ++ ebsp_loop (Z.of_nat z) l) = false.
Proof.
  intros Hl. revert z. induction Hl as [|b l Hb Hl IH]; intros z Hz.
  { destruct z as [|[|[|z]]]; done || lia. }
  assert (violates_ebsp_constraint
    (b :: ebsp_loop (if b =? 0 then wrap_u 32 (0 + 1) else 0) l) = false) as H0.
  { destruct (Z.eqb_spec b 0) as [->|Hne].
    - apply (IH 1%nat). lia.
    - rewrite violates_cons_nonzero by done. apply (IH 0%nat). lia. }
  destruct z as [|[|[|z]]]; cbn [ebsp_loop]; [..|lia].
  - done.
  - change (2 <=? Z.of_nat 1) with false. cbn [andb app replicate].
    destruct (Z.eqb_spec b 0) as [->|Hne]; [apply (IH 2%nat); lia|].
    rewrite violates_cons2_nonzero by done. apply (IH 0%nat). lia.
  - change (2 <=? Z.of_nat 2) with true. cbn [andb]. destruct (Z.leb_spec b 3); cbn [app replicate].
    + by rewrite violates_cons3, violates_cons2_nonzero by lia.
    + rewrite (proj2 (Z.eqb_neq b 0)) by lia. rewrite violates_cons3.
      rewrite (proj2 (Z.leb_gt b 2)), !andb_false_r by lia. cbn [orb].
      rewrite violates_cons2_nonzero by lia. apply (IH 0%nat). lia.
Qed.

(** Emulation prevention: the escaped payload holds none of the sequences
    [00 00 00], [00 00 01], [00 00 02], so no start code, and [to_rbsp] gives
    back exactly the payload; what was already in the output buffer is kept. *)
Theorem ebsp_clean_and_roundtrip rbsp out :
  Forall (fun b => 0 <= b < 256) rbsp ->
  exists ebsp, to_ebsp rbsp out = out ++ ebsp /\
    violates_ebsp_constraint ebsp = false /\ to_rbsp ebsp = rbsp.
Proof.
  intros Hb. exists (ebsp_loop 0 rbsp). split; [done|]. split.
  - apply (ebsp_loop_clean 0); [done|lia].
  - apply rbsp_ebsp_loop. lia.
Qed.

Lemma ebsp_clean_and_roundtrip_witness :
  to_ebsp [0; 0; 0; 0; 1; 7; 0; 0] [9] = [9; 0; 0; 3; 0; 0; 3; 1; 7; 0; 0] /\
  to_rbsp [0; 0; 3; 0; 0; 3; 1; 7; 0; 0] = [0; 0; 0; 0; 1; 7; 0; 0].
Proof.
  destruct (ebsp_clean_and_roundtrip [0; 0; 0; 0; 1; 7; 0; 0] [9]) as (e & E & _ & R).
  - by apply (proj1 (buffer_check [0; 0; 0; 0; 1; 7; 0; 0] eq_refl)).
  - split; [by vm_compute|].
    assert (e = [0; 0; 3; 0; 0; 3; 1; 7; 0; 0]) as <-; [|done].
    by apply (app_inv_head [9]); rewrite <- E.
Defined.

(** ** NAL units *)

Lemma clean_no_code l i :
  violates_ebsp_constraint l = false -> ~ code_at l i.
Proof.
  intros Hv (H0 & H1 & H2 & Hi). assert (0 <= i + 2 < zlen l) as Hr.
  { destruct (decide (0 <= i + 2 < zlen l)); [done|]. by rewrite byte_at_out in H2. }
  rewrite byte_at_nth in H0, H1, H2 by lia.
  replace (Z.to_nat (i + 1)) with (S (Z.to_nat i)) in H1 by lia.
  replace (Z.to_nat (i + 2)) with (S (S (Z.to_nat i))) in H2 by lia.
  clear Hr. generalize dependent (Z.to_nat i). intros n. clear Hi.
  revert l Hv. induction n as [|n IH]; intros l Hv H0 H1 H2.
  - destruct l as [|a [|b [|c l]]]; try done. simpl in H0, H1, H2. subst.
    by rewrite violates_cons3 in Hv.
  - destruct l as [|a l]; [done|]. apply (IH l); [|done..].
    destruct l as [|b [|c l]]; [done|done|]. rewrite violates_cons3 in Hv.
    by apply orb_false_iff in Hv as [_ ?].
Qed.

Lemma rposition_zeros n : rposition_nonzero (replicate n 0) = None.
Proof. induction n as [|n IH]; [done|]. simpl. by rewrite IH. Qed.

Lemma rposition_app l b n :
  b <> 0 -> rposition_nonzero (l ++ b :: replicate n 0) = Some (length l).
Proof.
  intros Hb. induction l as [|a l IH]; simpl; [|by rewrite IH].
  by rewrite rposition_zeros, (proj2 (Z.eqb_neq b 0) Hb).
Qed.

(** A payload the framing can carry: bytes, not ending in a zero, free of start
    codes. *)
Record unit_ok (u : list Z) : Prop := {
  u_bytes : Forall (fun b => 0 <= b < 256) u;
  u_last : exists v b, u = v ++ [b] /\ b <> 0;
  u_code : forall i, ~ code_at u i;
}.

Lemma trim_unit u n : unit_ok u -> trim (u ++ replicate n 0) = u.
Proof.
  intros [_ (v & b & -> & Hb) _]. unfold trim. rewrite <- app_assoc. cbn [app].
  rewrite rposition_app by done. rewrite cons_middle, app_assoc.
  replace (S (length v)) with (length (v ++ [b])) by (rewrite length_app; simpl; lia).
  by rewrite take_app_length.
Qed.

Lemma byte_at_pre pre x i : 0 <= i -> byte_at (pre ++ x) (zlen pre + i) = byte_at x i.
Proof. intros Hi. rewrite byte_at_app_r by lia. f_equal. lia. Qed.

Lemma code_at_pre pre x i : 0 <= i -> code_at (pre ++ x) (zlen pre + i) <-> code_at x i.
Proof.
  intros Hi. unfold code_at. rewrite <- !Z.add_assoc, !byte_at_pre by lia.
  pose proof (zlen_nonneg pre). intuition lia.
Qed.

Lemma first_code_pre pre x o :
  first_code x 0 o ->
  first_code (pre ++ x) (zlen pre) (k ← o; Some (zlen pre + k)).
Proof.
  destruct o as [k|]; simpl.
  - intros (H1 & H2 & H3). split; [lia|]. split; [by apply code_at_pre|]. intros j Hj.
    replace j with (zlen pre + (j - zlen pre)) by lia. rewrite code_at_pre by lia. apply H3. lia.
  - intros H j Hj. replace j with (zlen pre + (j - zlen pre)) by lia.
    rewrite code_at_pre by lia. apply H. lia.
Qed.

(** Bytes of a unit followed by zeros. *)
Lemma unit_zeros_byte u n x i :
  0 <= i < zlen u + Z.of_nat n ->
  byte_at (u ++ replicate n 0 ++ x) i = byte_at u i.
Proof.
  intros Hi. destruct (decide (i < zlen u)); [by apply byte_at_app_l|].
  rewrite byte_at_app_r by lia. rewrite byte_at_app_l by (unfold zlen in *; rewrite length_replicate; lia).
  rewrite (byte_at_out u) by lia. unfold byte_at. destruct (_ && _); [|done].
  rewrite nth_lookup. destruct (replicate n 0 !! _) as [y|] eqn:E; [|done].
  by apply lookup_replicate in E as [-> _].
Qed.

Lemma unit_no_code u n x i :
  (u = [] \/ unit_ok u) -> 0 <= i -> i + 2 < zlen u + Z.of_nat n ->
  ~ code_at (u ++ replicate n 0 ++ x) i.
Proof.
  intros Hu Hi Hn. unfold code_at. rewrite !unit_zeros_byte by lia. destruct Hu as [->|Hu].
  { intros (_ & _ & H & _). rewrite byte_at_out in H; [done|]. unfold zlen. simpl. lia. }
  apply (u_code u Hu i).
Qed.

(** The next start code after a unit is the one that was written. *)
Lemma first_after_unit u n x :
  (u = [] \/ unit_ok u) ->
  first_code (u ++ replicate n 0 ++ [0; 0; 1] ++ x) 0 (Some (zlen u + Z.of_nat n)).
Proof.
  intros Hu. pose proof (zlen_nonneg u).
  replace (replicate n 0 ++ [0; 0; 1] ++ x) with (replicate (n + 2) 0 ++ [1] ++ x).
  2:{ rewrite replicate_add, <- app_assoc. done. }
  assert (Hlast : byte_at (u ++ replicate (n + 2) 0 ++ [1] ++ x) (zlen u + Z.of_nat n + 2) = 1).
  { rewrite <- Z.add_assoc, byte_at_pre by lia.
    replace (Z.of_nat n + 2) with (zlen (replicate (n + 2) 0) + 0)
      by (unfold zlen; rewrite length_replicate; lia).
    by rewrite byte_at_pre by lia. }
  split; [lia|]. split.
  - split; [|split; [|split; [done|lia]]]; rewrite unit_zeros_byte by lia; apply byte_at_out; lia.
  - intros j Hj. apply unit_no_code; [done|lia|lia].
Qed.

Lemma no_code_tail u n : (u = [] \/ unit_ok u) -> first_code (u ++ replicate n 0) 0 None.
Proof.
  intros Hu j Hj. rewrite <- (app_nil_r (replicate n 0)).
  destruct (decide (j + 2 < zlen u + Z.of_nat n)); [by apply unit_no_code|].
  intros (_ & _ & H & _). rewrite byte_at_out in H; [done|].
  rewrite app_nil_r, zlen_app. unfold zlen at 2. rewrite length_replicate. lia.
Qed.

(** An Annex-B stream: each unit behind its zeros and its start code, and zeros
    at the end. *)
Definition frame (x : nat * list Z) : list Z := replicate (fst x) 0 ++ [0; 0; 1] ++ snd x.

Definition stream (xs : list (nat * list Z)) (t : nat) : list Z :=
  concat (map frame xs) ++ replicate t 0.

Definition after (p : Z) (xs : list (nat * list Z)) : option Z :=
  match xs with [] => None | (k, _) :: _ => Some (p + Z.of_nat k + 3) end.

Lemma stream_cons k u xs t :
  stream ((k, u) :: xs) t = replicate k 0 ++ [0; 0; 1] ++ u ++ stream xs t.
Proof. unfold stream, frame. simpl. by rewrite <- !app_assoc. Qed.

Lemma next_unit pre u xs t :
  Forall (fun b => 0 <= b < 256) (pre ++ u ++ stream xs t) -> unit_ok u ->
  next (NalIter (pre ++ u ++ stream xs t) (Some (zlen pre))) =
  (Some u, NalIter (pre ++ u ++ stream xs t) (after (zlen pre + zlen u) xs)).
Proof.
  intros Hb Hu. set (buf := pre ++ u ++ stream xs t) in *. unfold next.
  assert (exists n rest, buf = pre ++ (u ++ replicate n 0) ++ rest /\
    match find_start_code buf (zlen pre) with
    | Some sc => (sc, Some (sc + 3))
    | None => (zlen buf, None)
    end = (zlen pre + zlen (u ++ replicate n 0), after (zlen pre + zlen u) xs)) as (n & rest & Hbuf & E).
  { pose proof (find_first buf (zlen pre) Hb (zlen_nonneg pre)) as Hf. destruct xs as [|[k v] xs].
    - exists t, []. split; [by rewrite app_nil_r|].
      assert (find_start_code buf (zlen pre) = None) as ->.
      { eapply first_code_unique; [exact Hf|]. apply (first_code_pre pre _ None).
        apply no_code_tail. by right. }
      f_equal. unfold buf. by rewrite zlen_app.
    - exists k, ([0; 0; 1] ++ v ++ stream xs t). split; [unfold buf; by rewrite stream_cons, <- !app_assoc|].
      assert (find_start_code buf (zlen pre) = Some (zlen pre + (zlen u + Z.of_nat k))) as ->.
      { eapply first_code_unique; [exact Hf|]. unfold buf. rewrite stream_cons.
        apply (first_code_pre pre _ (Some _)). apply first_after_unit. by right. }
      cbn [after]. rewrite zlen_app, zlen_replicate. by rewrite !Z.add_assoc. }
  assert (trim (default [] (get_range buf (zlen pre) (zlen pre + zlen (u ++ replicate n 0)))) = u) as Ht.
  { rewrite Hbuf, get_range_mid by lia. by apply trim_unit. }
  cbn [next_loop it_next it_buf]. rewrite E, Ht. clearbody buf.
  rewrite bool_decide_eq_true_2; [done|]. destruct Hu as [_ (w & b & -> & _) _]. by destruct w.
Qed.

Lemma collect_stream xs pre u t fuel :
  Forall (fun b => 0 <= b < 256) (pre ++ u ++ stream xs t) -> unit_ok u ->
  Forall unit_ok (map snd xs) -> (length xs + 1 < fuel)%nat ->
  collect_loop fuel (NalIter (pre ++ u ++ stream xs t) (Some (zlen pre))) = u :: map snd xs.
Proof.
  revert pre u fuel. induction xs as [|[k v] xs IH]; intros pre u fuel Hb Hu Hxs Hf;
    (destruct fuel as [|fuel]; [lia|]); cbn [collect_loop]; rewrite next_unit by done; f_equal.
  - simpl in Hf. destruct fuel as [|fuel]; [lia|]. done.
  - cbn [map snd] in Hxs |- *. apply Forall_cons in Hxs as [Hv Hxs]. cbn [after].
    replace (pre ++ u ++ stream ((k, v) :: xs) t)
      with ((pre ++ u ++ replicate k 0 ++ [0; 0; 1]) ++ v ++ stream xs t) in *
      by (rewrite stream_cons, <- !app_assoc; done).
    replace (zlen pre + zlen u + Z.of_nat k + 3) with (zlen (pre ++ u ++ replicate k 0 ++ [0; 0; 1])).
    + apply IH; [done..|simpl in Hf; lia].
    + rewrite !zlen_app, zlen_replicate. change (zlen [0; 0; 1]) with 3. lia.
Qed.

Lemma length_stream xs t : (3 * length xs <= length (stream xs t))%nat.
Proof.
  unfold stream. rewrite length_app. induction xs as [|[k v] xs IH]; [simpl; lia|].
  simpl. unfold frame at 1. rewrite !length_app in *. simpl. lia.
Qed.

(** The iterator yields the framed units. *)
Lemma collect_units xs t :
  Forall (fun b => 0 <= b < 256) (stream xs t) -> Forall unit_ok (map snd xs) ->
  collect (nal_units (stream xs t)) = map snd xs.
Proof.
  intros Hb Hxs. unfold collect, nal_units. cbn [it_buf].
  pose proof (find_first (stream xs t) 0 Hb ltac:(lia)) as Hf.
  destruct xs as [|[k v] xs].
  - assert (find_start_code (stream [] t) 0 = None) as ->; [|done].
    eapply first_code_unique; [exact Hf|]. apply (no_code_tail [] t). by left.
  - pose proof (length_stream ((k, v) :: xs) t) as Hl. rewrite stream_cons in *.
    assert (find_start_code (replicate k 0 ++ [0; 0; 1] ++ v ++ stream xs t) 0 =
      Some (Z.of_nat k)) as ->.
    { eapply first_code_unique; [exact Hf|]. apply (first_after_unit [] k). by left. }
    cbn [map snd] in Hxs. apply Forall_cons in Hxs as [Hv Hxs]. cbn [mbind option_bind].
    replace (Z.of_nat k + 3) with (zlen (replicate k 0 ++ [0; 0; 1]))
      by (by rewrite zlen_app, zlen_replicate).
    rewrite app_assoc. apply (collect_stream xs (replicate k 0 ++ [0; 0; 1]) v t).
    + by rewrite <- app_assoc.
    + done.
    + done.
    + rewrite !length_app, length_replicate in *. simpl in Hl |- *. pose proof (length_stream xs t). lia.
Qed.

(** ** Escaped payloads are units *)

Record payload_ok (l : list Z) : Prop := {
  p_bytes : Forall (fun b => 0 <= b < 256) l;
  p_last : exists v b, l = v ++ [b] /\ b <> 0;
}.

Lemma ebsp_loop_bytes z l :
  Forall (fun b => 0 <= b < 256) l -> Forall (fun b => 0 <= b < 256) (ebsp_loop z l).
Proof.
  intros Hl. revert z. induction Hl as [|b l Hb Hl IH]; intros z; [done|]. cbn [ebsp_loop].
  destruct (_ && _); cbn [app]; repeat constructor; try lia; apply IH.
Qed.

Lemma ebsp_loop_last z v b : exists w, ebsp_loop z (v ++ [b]) = w ++ [b].
Proof.
  revert z. induction v as [|a v IH]; intros z; cbn [app ebsp_loop].
  - destruct (_ && _); [by exists [3]|by exists []].
  - destruct (_ && _).
    + destruct (IH (if a =? 0 then wrap_u 32 (0 + 1) else 0)) as [w ->]. by exists (3 :: a :: w).
    + destruct (IH (if a =? 0 then wrap_u 32 (z + 1) else 0)) as [w ->]. by exists (a :: w).
Qed.

Lemma payload_unit l : payload_ok l -> unit_ok (to_ebsp l []).
Proof.
  intros [Hb (v & b & -> & Hne)]. unfold to_ebsp. cbn [app]. split.
  - by apply ebsp_loop_bytes.
  - destruct (ebsp_loop_last 0 v b) as [w ->]. by exists w, b.
  - intros i. apply clean_no_code. apply (ebsp_loop_clean 0); [done|lia].
Qed.

(** What [RbspWriter] hands to the escaper always is such a payload: the stop bit
    is in its last byte. *)
Lemma rbsp_payload w bs :
  BitWriter.written w bs -> payload_ok (BitWriter.finish (BitWriter.rbsp_trailing w)).
Proof.
  intros Hw. unfold BitWriter.rbsp_trailing.
  assert (bits_of (Z.to_nat (Z.min 1 32)) 1 = [true]) as E1 by done.
  pose proof (BitWriter.put_ok w bs 1 1 Hw ltac:(lia) ltac:(lia)) as H1. rewrite E1 in H1.
  generalize dependent (BitWriter.put w 1 1). intros w1 H1.
  pose proof (BitWriter.align_zero_ok _ _ H1) as H2. set (pad1 := BitWriter.pad_len _) in H2.
  destruct (BitWriter.finish_ok _ _ H2) as [Hbits Hbytes].
  set (l := BitWriter.finish _) in *. split; [done|].
  assert (Z.of_nat pad1 < 8) as Hp1.
  { unfold pad1, BitWriter.pad_len. pose proof (Z.mod_pos_bound (- Z.of_nat (length (bs ++ [true]))) 8). lia. }
  assert (BitWriter.pad_len ((bs ++ [true]) ++ replicate pad1 false) = 0%nat) as Hp2.
  { unfold pad1, BitWriter.pad_len. rewrite length_app, length_replicate.
    set (m := Z.of_nat (length (bs ++ [true]))).
    pose proof (Z.mod_pos_bound (- m) 8). rewrite Nat2Z.inj_add, Z2Nat.id by lia. fold m.
    replace (- (m + (- m) mod 8)) with (((- m) / 8) * 8) by (pose proof (Z.div_mod (- m) 8); lia).
    by rewrite Z.mod_mul by lia. }
  rewrite Hp2, app_nil_r in Hbits.
  pose proof (f_equal length Hbits) as Hlen.
  rewrite length_bits_of_bytes, !length_app, length_replicate in Hlen. simpl in Hlen.
  destruct (exists_last (l:=l)) as (v & b & Hl).
  { intros E. rewrite E in Hlen. simpl in Hlen. lia. }
  exists v, b. split; [done|]. intros ->. rewrite Hl in Hlen. rewrite length_app in Hlen. simpl in Hlen.
  assert (bits_of_bytes l !! length bs = Some true) as Htrue.
  { rewrite Hbits, <- app_assoc. rewrite lookup_app_r by lia. by rewrite Nat.sub_diag. }
  rewrite Hl, bits_of_bytes_app in Htrue.
  rewrite lookup_app_r in Htrue by (rewrite length_bits_of_bytes; lia).
  assert (bits_of_bytes [0] = replicate 8 false) as E0 by done. rewrite E0 in Htrue.
  by apply lookup_replicate in Htrue as [? _].
Qed.

(** C4. Annex-B framing end to end: payloads escaped by [to_ebsp] and framed
    with three- or four-byte start codes, after any number of zero bytes and
    with any trailing zeros, come out of [NalIter] and [to_rbsp] unchanged, in
    order, and nothing else does. *)
Theorem annexb_roundtrip xs t :
  Forall payload_ok (map snd xs) ->
  map to_rbsp (collect (nal_units (stream (map (fun '(k, l) => (k, to_ebsp l [])) xs) t))) = map snd xs.
Proof.
  intros Hxs. set (ys := map _ xs).
  assert (map snd ys = map (fun l => to_ebsp l []) (map snd xs)) as Hys.
  { unfold ys. rewrite !map_map. apply map_ext. by intros [k l]. }
  assert (Forall unit_ok (map snd ys)) as Hu.
  { rewrite Hys. apply Forall_map. eapply Forall_impl; [exact Hxs|]. intros l. apply payload_unit. }
  rewrite collect_units, Hys, map_map; [|..|done].
  - rewrite <- (map_id (map snd xs)) at 2. apply map_ext_in. intros l _.
    unfold to_rbsp, to_ebsp. cbn [app]. apply rbsp_ebsp_loop. lia.
  - unfold stream. apply Forall_app. split; [|by apply Forall_replicate].
    clear - Hu. induction ys as [|[k u] ys IH]; [done|]. simpl in *.
    apply Forall_cons in Hu as [Hu Hys]. apply Forall_app. split; [|by apply IH].
    unfold frame. simpl. apply Forall_app. split; [by apply Forall_replicate|].
    repeat (constructor; [lia|]). apply (u_bytes u Hu).
Qed.

Lemma annexb_roundtrip_witness :
  collect (nal_units ([0; 0; 0; 1; 0x67; 0; 0; 3; 1; 0xAA] ++ [0; 0; 1; 0x68; 0xBB] ++ [0; 0])) =
    [[0x67; 0; 0; 3; 1; 0xAA]; [0x68; 0xBB]] /\
  map to_rbsp (collect (nal_units ([0; 0; 0; 1; 0x67; 0; 0; 3; 1; 0xAA; 0; 0; 1; 0x68; 0xBB; 0; 0]))) =
    [[0x67; 0; 0; 1; 0xAA]; [0x68; 0xBB]].
Proof.
  split; [by vm_compute|].
  apply (annexb_roundtrip [(1%nat, [0x67; 0; 0; 1; 0xAA]); (0%nat, [0x68; 0xBB])] 2).
  repeat (apply Forall_cons; split); [..|by apply Forall_nil].
  - split; [by apply (proj1 (buffer_check [0x67; 0; 0; 1; 0xAA] eq_refl))|by exists [0x67; 0; 0; 1], 0xAA].
  - split; [by apply (proj1 (buffer_check [0x68; 0xBB] eq_refl))|by exists [0x68], 0xBB].
Defined.
