(* ===== verification/Bytes.v ===== *)
(** * Bytes: the byte cursor and length-prefixed NAL framing

    [src/crates/core/vaco-bitstream/src/bytes.rs] and [avcc.rs]: the
    endian-explicit reader of the containers, with the same sticky overrun as
    the bit reader, and the iterator of the ISO-BMFF in-band form built on it. *)

From Stdlib Require Import ZArith Lia.
From stdpp Require Import prelude.
From S2P Require Import Prelude Bits Source.

Module ByteReader.

Record reader : Type := Reader { data : list Z; pos : Z; overrun : bool }.

Definition new (data : list Z) : reader := Reader data 0 false.

(** [take::<N>]. *)
Definition take_n (n : Z) (r : reader) : list Z * reader :=
  match (s ← get_from (data r) (pos r); first_chunk n s) with
  | Some c => (c, Reader (data r) (pos r + n) (overrun r))
  | None => (replicate (Z.to_nat n) 0, Reader (data r) (zlen (data r)) true)
  end.

(** The typed reads: an interpretation of a fixed number of bytes. *)
Definition read (n : Z) (value : list Z -> Z) (r : reader) : Z * reader :=
  let (c, r) := take_n n r in (value c, r).

Definition u8 : reader -> Z * reader := read 1 be_value.
Definition i8 (r : reader) : Z * reader := let (b, r) := u8 r in (wrap_i 8 b, r).
Definition be16 : reader -> Z * reader := read 2 be_value.
Definition le16 : reader -> Z * reader := read 2 le_value.
Definition be24 : reader -> Z * reader := read 3 (fun c => be_value (0 :: c)).
Definition le24 : reader -> Z * reader := read 3 (fun c => le_value (c ++ [0])).
Definition be32 : reader -> Z * reader := read 4 be_value.
Definition le32 : reader -> Z * reader := read 4 le_value.
Definition be64 : reader -> Z * reader := read 8 be_value.
Definition le64 : reader -> Z * reader := read 8 le_value.

Definition bytes (n : Z) (r : reader) : list Z * reader :=
  match (s ← get_from (data r) (pos r); get_range s 0 n) with
  | Some s => (s, Reader (data r) (pos r + n) (overrun r))
  | None => (default [] (get_from (data r) (pos r)), Reader (data r) (zlen (data r)) true)
  end.

Definition skip (n : Z) (r : reader) : reader :=
  match checked_u 64 (pos r + n) with
  | Some p =>
    if p <=? zlen (data r) then Reader (data r) p (overrun r)
    else Reader (data r) (zlen (data r)) true
  | None => Reader (data r) (zlen (data r)) true
  end.

Definition seek (p : Z) (r : reader) : reader :=
  if zlen (data r) <? p then Reader (data r) (zlen (data r)) true
  else Reader (data r) p (overrun r).

Definition remaining (r : reader) : Z :=
  if overrun r then 0 else zlen (data r) - pos r.

Definition rest (r : reader) : list Z := default [] (get_from (data r) (pos r)).

Definition check (r : reader) : result bitstream_error unit :=
  if overrun r then Err Overrun else Ok tt.

Definition sub (n : Z) (r : reader) : reader * reader :=
  let (s, r) := bytes n r in (new s, r).

(** ** Call sequences *)

Inductive call : Type :=
  | CRead (big : bool) (n : Z)
  | CBytes (n : Z)
  | CSkip (n : Z)
  | CSeek (p : Z).

Definition call_ok (c : call) : bool :=
  match c with
  | CRead _ n => (1 <=? n) && (n <=? 8)
  | CBytes n | CSkip n | CSeek n => in_u 64 n
  end.

(** What a call shows: its value as bytes (of a typed read, a single number). *)
Definition run_call (c : call) (r : reader) : list Z * reader :=
  match c with
  | CRead big n => let (v, r) := read n (if big then be_value else le_value) r in ([v], r)
  | CBytes n => bytes n r
  | CSkip n => ([], skip n r)
  | CSeek p => ([], seek p r)
  end.

Fixpoint run_calls (cs : list call) (r : reader) : list (list Z) * reader :=
  match cs with
  | [] => ([], r)
  | c :: cs =>
    let (x, r) := run_call c r in
    let (xs, r) := run_calls cs r in (x :: xs, r)
  end.

(** The cursor stays in the buffer, which never changes. *)
Definition in_bounds (d : list Z) (r : reader) : Prop :=
  data r = d /\ 0 <= pos r <= zlen d.

(** The bytes of [d] between two positions. *)
Definition span (d : list Z) (a b : Z) : list Z := take (Z.to_nat (b - a)) (drop (Z.to_nat a) d).

Lemma take_n_spec d n r :
  in_bounds d r -> 0 <= n ->
  take_n n r =
  if pos r + n <=? zlen d then (span d (pos r) (pos r + n), Reader d (pos r + n) (overrun r))
  else (replicate (Z.to_nat n) 0, Reader d (zlen d) true).
Proof.
  intros [Hd Hp] Hn. unfold take_n, span. rewrite Hd.
  assert (get_from d (pos r) = Some (drop (Z.to_nat (pos r)) d)) as -> by (by apply get_from_Some).
  cbn [mbind option_bind]. unfold first_chunk. rewrite zlen_drop by lia.
  replace (pos r + n - pos r) with n by lia.
  destruct (Z.leb_spec n (zlen d - pos r)), (Z.leb_spec (pos r + n) (zlen d)); done || lia.
Qed.

Lemma bytes_spec d n r :
  in_bounds d r -> 0 <= n ->
  bytes n r =
  if pos r + n <=? zlen d then (span d (pos r) (pos r + n), Reader d (pos r + n) (overrun r))
  else (span d (pos r) (zlen d), Reader d (zlen d) true).
Proof.
  intros [Hd Hp] Hn. unfold bytes, span. rewrite Hd.
  assert (get_from d (pos r) = Some (drop (Z.to_nat (pos r)) d)) as -> by (by apply get_from_Some).
  cbn [mbind option_bind default from_option]. unfold get_range. rewrite zlen_drop by lia.
  rewrite (proj2 (Z.leb_le 0 n)) by lia. simpl.
  replace (pos r + n - pos r) with n by lia. rewrite Z.sub_0_r, drop_0.
  destruct (Z.leb_spec n (zlen d - pos r)), (Z.leb_spec (pos r + n) (zlen d)); try done; try lia.
  f_equal. symmetry. apply take_ge. rewrite length_drop. unfold zlen in *. lia.
Qed.

(** The specification of a call on the position and the flag. *)
Definition spec_call (d : list Z) (c : call) (s : Z * bool) : list Z * (Z * bool) :=
  let (p, o) := s in
  let short := (zlen d, true) in
  match c with
  | CRead big n =>
    if p + n <=? zlen d
    then ([(if big then be_value else le_value) (span d p (p + n))], (p + n, o))
    else ([0], short)
  | CBytes n => if p + n <=? zlen d then (span d p (p + n), (p + n, o)) else (span d p (zlen d), short)
  | CSkip n => ([], if p + n <=? zlen d then (p + n, o) else short)
  | CSeek q => ([], if q <=? zlen d then (q, o) else short)
  end.

Lemma be_value_zeros n : be_value (replicate n 0) = 0.
Proof. unfold be_value. induction n as [|n IH]; [done|]. by simpl. Qed.

Lemma le_value_zeros n : le_value (replicate n 0) = 0.
Proof. induction n as [|n IH]; [done|]. change (0 + 256 * le_value (replicate n 0) = 0). lia. Qed.

Lemma run_call_spec d c r :
  zlen d < 2 ^ 63 -> in_bounds d r -> call_ok c = true ->
  let '(x, r') := run_call c r in
  spec_call d c (pos r, overrun r) = (x, (pos r', overrun r')) /\ in_bounds d r' /\
  (overrun r = true -> overrun r' = true).
Proof.
  intros Hlen Hr Hc. pose proof Hr as [Hd Hp]. pose proof (zlen_nonneg d).
  destruct c as [big n|n|n|q]; cbn [run_call call_ok spec_call] in *; breflect.
  - unfold read. rewrite (take_n_spec d) by (done || lia).
    destruct (Z.leb_spec (pos r + n) (zlen d)); cbn [pos overrun data].
    + split; [done|]. split; [by split; simpl; [|lia]|done].
    + split; [|by split; [split; simpl; [done|lia]|]]. f_equal.
      destruct big; by rewrite ?be_value_zeros, ?le_value_zeros.
  - rewrite (bytes_spec d) by (done || lia).
    destruct (Z.leb_spec (pos r + n) (zlen d)); cbn [pos overrun data];
      (split; [done|]; split; [by split; simpl; [|lia]|done]).
  - unfold skip. rewrite Hd. destruct (checked_u 64 (pos r + n)) as [p|] eqn:E; breflect.
    + destruct (Z.leb_spec (pos r + n) (zlen d)); cbn [pos overrun data];
        (split; [done|]; split; [by split; simpl; [|lia]|done]).
    + apply checked_u_None in E. rewrite (proj2 (Z.leb_gt _ _)) by lia.
      split; [done|]. split; [by split; simpl; [|lia]|done].
  - unfold seek. rewrite Hd. destruct (Z.ltb_spec (zlen d) q), (Z.leb_spec q (zlen d)); try lia;
      (split; [done|]; split; [by split; simpl; [|lia]|done]).
Qed.

Fixpoint spec_calls (d : list Z) (cs : list call) (s : Z * bool) : list (list Z) * (Z * bool) :=
  match cs with
  | [] => ([], s)
  | c :: cs =>
    let (x, s) := spec_call d c s in
    let (xs, s) := spec_calls d cs s in (x :: xs, s)
  end.

(** The byte cursor: any sequence of reads, slices, skips and seeks on a
    buffer returns the bytes at the position the specification tracks, zeros
    (or the short remainder) once they run out, never leaves the buffer, and
    never clears the overrun flag; [remaining] is what is left, zero once
    flagged. *)
Theorem calls_follow_cursor d cs :
  zlen d < 2 ^ 63 -> forallb call_ok cs = true ->
  let '(xs, r) := run_calls cs (new d) in
  spec_calls d cs (0, false) = (xs, (pos r, overrun r)) /\
  data r = d /\ 0 <= pos r <= zlen d /\
  (check r = Ok tt -> remaining r = zlen d - pos r /\ rest r = drop (Z.to_nat (pos r)) d) /\
  (check r <> Ok tt -> remaining r = 0).
Proof.
  intros Hlen Hok.
  assert (forall r, in_bounds d r ->
    let '(xs, r') := run_calls cs r in
    spec_calls d cs (pos r, overrun r) = (xs, (pos r', overrun r')) /\ in_bounds d r') as Hrun.
  { induction cs as [|c cs IH]; intros r Hr; [done|]. cbn [run_calls spec_calls forallb] in *.
    breflect. pose proof (run_call_spec d c r Hlen Hr ltac:(done)) as Hc.
    destruct (run_call c r) as [x r1]. destruct Hc as (-> & Hr1 & _).
    specialize (IH ltac:(done) r1 Hr1). destruct (run_calls cs r1) as [xs r2].
    by destruct IH as (-> & ?). }
  specialize (Hrun (new d) ltac:(split; [done|simpl; pose proof (zlen_nonneg d); lia])).
  destruct (run_calls cs (new d)) as [xs r]. destruct Hrun as (Hs & Hd & Hp).
  split; [done|]. split; [done|]. split; [done|].
  unfold check, remaining, rest. rewrite Hd. destruct (overrun r); split; try done.
  intros _. split; [done|].
  assert (get_from d (pos r) = Some (drop (Z.to_nat (pos r)) d)) as -> by (by apply get_from_Some).
  done.
Qed.

Lemma calls_follow_cursor_witness :
  fst (run_calls [CRead true 2; CRead false 2; CSkip 1; CBytes 9; CRead true 4] (new [1; 2; 3; 4; 5; 6; 7])) =
  [[258]; [1027]; []; [6; 7]; [0]].
Proof.
  pose proof (calls_follow_cursor [1; 2; 3; 4; 5; 6; 7]
    [CRead true 2; CRead false 2; CSkip 1; CBytes 9; CRead true 4] ltac:(by vm_compute) eq_refl) as H.
  destruct (run_calls _ _) as [xs r]. destruct H as (H & _). by injection H as <-.
Defined.

End ByteReader.

(** ** Length-prefixed NAL units *)

Module Avcc.

Import ByteReader.

Record iter : Type := LengthPrefixedIter { rd : reader; length_size : Z; done_ : bool }.

Definition size_ok (n : Z) : bool := (n =? 1) || (n =? 2) || (n =? 4).

Definition nal_units (buf : list Z) (length_size : Z) : iter :=
  LengthPrefixedIter (new buf) length_size (negb (size_ok length_size)).

Definition read_length (it : iter) : Z * reader :=
  if length_size it =? 1 then u8 (rd it)
  else if length_size it =? 2 then be16 (rd it)
  else be32 (rd it).

Definition next (it : iter) : option (list Z) * iter :=
  if done_ it || (remaining (rd it) <? length_size it) then (None, it) else
  let (len, r) := read_length it in
  if (len =? 0) || (remaining r <? len)
  then (None, LengthPrefixedIter r (length_size it) true)
  else let (u, r) := bytes len r in (Some u, LengthPrefixedIter r (length_size it) (done_ it)).

(** [collect]: every unit takes at least two bytes. *)
Fixpoint collect_loop (fuel : nat) (it : iter) : list (list Z) :=
  match fuel with
  | O => []
  | S fuel =>
    match next it with
    | (Some u, it) => u :: collect_loop fuel it
    | (None, _) => []
    end
  end.

Definition collect (it : iter) : list (list Z) := collect_loop (S (length (data (rd it)))) it.

(** ** The format *)

Section format.
  Context (n : Z) (Hn : size_ok n = true).

Lemma size_range : 1 <= n <= 4.
Proof using Hn. unfold size_ok in Hn. destruct (Z.eqb_spec n 1), (Z.eqb_spec n 2), (Z.eqb_spec n 4); done || lia. Qed.

(** A unit behind its length. *)
Definition frame (u : list Z) : list Z := be_bytes (Z.to_nat n) (zlen u) ++ u.

Definition unit_ok (u : list Z) : Prop := u <> [] /\ zlen u < 256 ^ n.

(** What the iterator refuses: too short for a length, an empty unit, or more
    bytes declared than there are. *)
Definition refused (t : list Z) : Prop :=
  zlen t < n \/ be_value (take (Z.to_nat n) t) = 0 \/
  zlen t < n + be_value (take (Z.to_nat n) t).

(** The iterator at position [p] of the buffer. *)
Definition at_pos (d : list Z) (p : Z) : iter := LengthPrefixedIter (Reader d p false) n false.

Lemma read_length_at d p :
  0 <= p -> p + n <= zlen d ->
  read_length (at_pos d p) = (be_value (take (Z.to_nat n) (drop (Z.to_nat p) d)), Reader d (p + n) false).
Proof using Hn.
  intros Hp Hl. pose proof size_range.
  assert (read_length (at_pos d p) = read n be_value (Reader d p false)) as ->.
  { unfold read_length, at_pos, u8, be16, be32. cbn [length_size rd]. unfold size_ok in Hn.
    destruct (Z.eqb_spec n 1) as [E1|]; [by rewrite E1|].
    destruct (Z.eqb_spec n 2) as [E2|]; [by rewrite E2|].
    destruct (Z.eqb_spec n 4) as [E4|]; [by rewrite E4|done]. }
  unfold read. rewrite (take_n_spec d) by (try split; simpl; lia || done).
  cbn [pos overrun]. rewrite (proj2 (Z.leb_le _ _)) by lia. unfold span. do 3 f_equal. lia.
Qed.

(** One step: a complete unit is yielded, anything else ends the iteration. *)
Lemma next_at d p :
  Forall (fun b => 0 <= b < 256) d -> 0 <= p <= zlen d ->
  let t := drop (Z.to_nat p) d in let len := be_value (take (Z.to_nat n) t) in
  (refused t /\ fst (next (at_pos d p)) = None) \/
  (n + len <= zlen t /\ 0 < len /\
   next (at_pos d p) = (Some (take (Z.to_nat len) (drop (Z.to_nat n) t)), at_pos d (p + n + len))).
Proof using Hn.
  intros Hb Hp t len. pose proof size_range as Hn1. unfold refused, next. fold len.
  assert (zlen t = zlen d - p) as Ht by (apply zlen_drop; lia).
  cbn [at_pos done_ rd length_size orb remaining overrun data pos].
  change (remaining (Reader d p false)) with (zlen d - p).
  destruct (Z.ltb_spec (zlen d - p) n); [left; split; [lia|done]|].
  fold (at_pos d p). rewrite read_length_at by lia. fold t. fold len.
  change (remaining (Reader d (p + n) false)) with (zlen d - (p + n)).
  assert (0 <= len).
  { apply be_value_range. by apply Forall_take, Forall_drop. }
  destruct (Z.eqb_spec len 0); cbn [orb]; [left; split; [lia|done]|].
  destruct (Z.ltb_spec (zlen d - (p + n)) len); [left; split; [lia|done]|].
  right. split; [lia|]. split; [lia|].
  rewrite (bytes_spec d) by (try split; simpl; lia || done). cbn [pos overrun].
  rewrite (proj2 (Z.leb_le _ _)) by lia. unfold at_pos. do 2 f_equal. unfold span, t.
  rewrite drop_drop. do 2 f_equal; lia.
Qed.

Lemma collect_sound fuel d p :
  Forall (fun b => 0 <= b < 256) d -> 0 <= p <= zlen d -> zlen d - p < Z.of_nat fuel ->
  exists t, drop (Z.to_nat p) d = concat (map frame (collect_loop fuel (at_pos d p))) ++ t /\
    refused t /\ Forall unit_ok (collect_loop fuel (at_pos d p)).
Proof using Hn.
  intros Hb. pose proof size_range as Hn1. revert p.
  induction fuel as [|fuel IH]; intros p Hp Hf; [lia|]. cbn [collect_loop].
  destruct (next_at d p Hb Hp) as [[Hr E]|(Hl & Hpos & E)]; cbv zeta in *.
  - destruct (next (at_pos d p)) as [o it]. simpl in E. subst o. exists (drop (Z.to_nat p) d). by split.
  - rewrite E. set (t := drop (Z.to_nat p) d) in *. set (len := be_value _) in *.
    assert (zlen t = zlen d - p) as Ht by (apply zlen_drop; lia).
    destruct (IH (p + n + len)) as (t' & Ht' & Hr & Hu); [lia|lia|]. exists t'.
    assert (zlen (take (Z.to_nat len) (drop (Z.to_nat n) t)) = len) as Hul.
    { rewrite zlen_take; [done|]. rewrite zlen_drop; lia. }
    split; [|split; [done|constructor; [|done]]].
    + cbn [map concat]. rewrite <- app_assoc, <- Ht'. unfold frame at 1. rewrite Hul.
      assert (be_bytes (Z.to_nat n) len = take (Z.to_nat n) t) as ->.
      { unfold len. rewrite <- (be_bytes_be_value (take (Z.to_nat n) t)) at 2
          by (by apply Forall_take, Forall_drop).
        f_equal. rewrite length_take. unfold zlen in *. lia. }
      rewrite <- app_assoc. rewrite <- (take_drop (Z.to_nat n) t) at 1. f_equal.
      rewrite <- (take_drop (Z.to_nat len) (drop (Z.to_nat n) t)) at 1. f_equal.
      unfold t. rewrite !drop_drop. f_equal. lia.
    + split; [by intros E0; rewrite E0 in Hul; unfold zlen in Hul; simpl in Hul; lia|]. rewrite Hul.
      unfold len. pose proof (be_value_range (take (Z.to_nat n) t)
        ltac:(by apply Forall_take, Forall_drop)) as Hr'. rewrite zlen_take in Hr' by lia. lia.
Qed.

(** Decoding is deterministic: at most one reading of a buffer. *)
Lemma frames_unique us vs t s :
  Forall unit_ok us -> Forall unit_ok vs -> refused t -> refused s ->
  concat (map frame us) ++ t = concat (map frame vs) ++ s -> us = vs.
Proof using Hn.
  pose proof size_range as Hn1.
  assert (forall u w, unit_ok u -> ~ refused (frame u ++ w)) as Hframe.
  { intros u w [Hne Hu] Hr. unfold refused, frame in Hr. rewrite <- app_assoc in Hr.
    rewrite take_app_length' in Hr by (by rewrite length_be_bytes).
    rewrite be_value_be_bytes, Z2Nat.id, Z.mod_small in Hr by (pose proof (zlen_nonneg u); lia).
    assert (zlen (be_bytes (Z.to_nat n) (zlen u)) = n) as Hlb by (unfold zlen at 1; rewrite length_be_bytes; lia).
    rewrite !zlen_app, Hlb in Hr.
    pose proof (zlen_nonneg u). pose proof (zlen_nonneg w).
    assert (zlen u <> 0) by (unfold zlen; destruct u; simpl; done || lia). lia. }
  intros Hus. revert vs. induction Hus as [|u us Hu Hus IH]; intros vs Hvs Ht Hs E.
  - destruct Hvs as [|v vs Hv Hvs]; [done|]. exfalso. simpl in E. rewrite <- app_assoc in E.
    apply (Hframe v (concat (map frame vs) ++ s) Hv). by rewrite <- E.
  - destruct Hvs as [|v vs Hv Hvs].
    { exfalso. simpl in E. rewrite <- app_assoc in E.
      apply (Hframe u (concat (map frame us) ++ t) Hu). by rewrite E. }
    cbn [map concat] in E. rewrite <- !app_assoc in E. unfold frame at 1 3 in E.
    rewrite <- !app_assoc in E.
    apply app_inj_1 in E as [E1 E2]; [|by rewrite !length_be_bytes].
    assert (zlen u = zlen v) as Hl.
    { destruct Hu as [_ Hu], Hv as [_ Hv].
      apply (f_equal be_value) in E1. rewrite !be_value_be_bytes, !Z2Nat.id in E1 by lia.
      by rewrite !Z.mod_small in E1 by (pose proof (zlen_nonneg u); pose proof (zlen_nonneg v); lia). }
    apply app_inj_1 in E2 as [-> E2]; [|unfold zlen in Hl; lia]. f_equal. by apply IH.
Qed.

End format.

(** Length-prefixed framing: for the sizes 1, 2 and 4 the iterator reads
    every buffer as complete units followed by a refused tail, and that reading
    is the only one, so units framed by a muxer come back exactly, a truncated
    or empty tail is dropped, and the iteration always ends; any other size
    yields nothing. *)
Theorem avcc_parses buf n :
  Forall (fun b => 0 <= b < 256) buf ->
  if size_ok n then
    (exists t, buf = concat (map (frame n) (collect (nal_units buf n))) ++ t /\ refused n t) /\
    (forall us t, Forall (unit_ok n) us -> refused n t ->
       buf = concat (map (frame n) us) ++ t -> collect (nal_units buf n) = us)
  else collect (nal_units buf n) = [].
Proof.
  intros Hb. destruct (size_ok n) eqn:Hn.
  - assert (nal_units buf n = at_pos n buf 0) as Hi by (unfold nal_units; by rewrite Hn).
    unfold collect. rewrite Hi. cbn [at_pos rd data].
    destruct (collect_sound n Hn (S (length buf)) buf 0 Hb) as (t & Ht & Hr & Hu);
      [pose proof (zlen_nonneg buf); lia|unfold zlen; lia|].
    rewrite drop_0 in Ht. split; [by exists t|]. intros us s Hus Hs E.
    symmetry. apply (frames_unique n Hn _ _ s t); [done..|]. by rewrite <- E, <- Ht.
  - unfold collect, nal_units. rewrite Hn. done.
Qed.

Lemma avcc_parses_witness :
  collect (nal_units [0; 2; 0x67; 0xAA; 0; 1; 0x68; 0; 9; 1; 2] 2) = [[0x67; 0xAA]; [0x68]].
Proof.
  apply (proj2 (avcc_parses [0; 2; 0x67; 0xAA; 0; 1; 0x68; 0; 9; 1; 2] 2
    (proj1 (buffer_check [0; 2; 0x67; 0xAA; 0; 1; 0x68; 0; 9; 1; 2] eq_refl)))
    [[0x67; 0xAA]; [0x68]] [0; 9; 1; 2]).
  - repeat (apply Forall_cons; split); [by split|by split|by apply Forall_nil].
  - right. right. by vm_compute.
  - by vm_compute.
Defined.

End Avcc.
