(* ===== verification/Error.v ===== *)
(** * Error: the error type of the core

    [src/crates/core/vaco-core/src/error.rs]: the closed set of errors that the
    layers above share, and the split into those a caller can continue after. *)

From Stdlib Require Import ZArith.
From stdpp Require Import prelude strings.

Inductive error : Type :=
  | InvalidData (what : string)
  | UnexpectedEof
  | Eof
  | NeedMoreInput
  | OutputPending
  | Unsupported (what : string)
  | LimitExceeded (limit : string) (requested cap : Z)
  | OptionError (name detail : string)
  | Io (code : Z)
  | NotSeekable
  | Cancelled.

Definition is_recoverable (e : error) : bool :=
  match e with InvalidData _ | Unsupported _ => true | _ => false end.

#[export] Instance error_eq_dec : EqDecision error.
Proof. solve_decision. Defined.
