(* ===== verification/Limits.v ===== *)
(** * Limits: the resource meter of [vaco-limits]

    [src/crates/core/vaco-limits/src/{budget,limits,error,progress}.rs]. A
    [Budget] counts the bytes a component holds and the fuel its loops spend. A
    [Reservation] borrows the budget exclusively, so at most one is live: it is
    the budget together with the bytes held. The allocator is a parameter. *)

From Stdlib Require Import ZArith Lia Ascii String Sorted.
From stdpp Require Import prelude strings.
From S2P Require Import Prelude Error.

Inductive limit_error : Type :=
  | Exceeded (limit : rstr) (requested cap : Z)
  | Overflow
  | AllocFailed (bytes : Z)
  | FuelExhausted (spent : Z)
  | DeadlineExceeded
  | NoProgress (ticks : Z).

#[export] Instance limit_error_eq_dec : EqDecision limit_error.
Proof. solve_decision. Defined.

(** [From<LimitError> for Error]. *)
Definition text (s : rstr) : string := String.string_of_list_ascii (map (fun z => Ascii.ascii_of_N (Z.to_N z)) s).

Definition from_limit (e : limit_error) : error :=
  match e with
  | Exceeded limit requested cap => LimitExceeded (text limit) requested cap
  | Overflow => LimitExceeded "size_computation" (2 ^ 64 - 1) (2 ^ 64 - 1)
  | AllocFailed bytes => LimitExceeded "allocator" bytes bytes
  | FuelExhausted spent => LimitExceeded "fuel" spent spent
  | DeadlineExceeded => LimitExceeded "deadline" 0 0
  | NoProgress ticks => LimitExceeded "progress" ticks ticks
  end.

Definition MIB : Z := 2 ^ 20.

Record limits : Type := Limits {
  max_alloc_total : Z;
  max_alloc_single : Z;
  max_dimension : Z;
  max_frame_bytes : Z;
  max_channels : Z;
  max_sample_rate : Z;
  max_streams : Z;
  max_side_data : Z;
  max_probe_bytes : Z;
  max_metadata_bytes : Z;
  fuel : Z;
  deadline : option Z;
}.

Definition permissive : limits :=
  Limits (1024 * MIB) (512 * MIB) 65536 (512 * MIB) 128 2822400 4096 256 (32 * MIB) (16 * MIB) (2 ^ 32) None.

Definition strict : limits :=
  Limits (64 * MIB) (16 * MIB) 8192 (16 * MIB) 64 384000 256 64 MIB MIB (2 ^ 26) None.

Definition tiny : limits :=
  Limits (2 ^ 16) (2 ^ 14) 256 (2 ^ 16) 8 48000 8 4 4096 4096 (2 ^ 16) None.

Definition with_caps (l : limits) (total single fuel : Z) (deadline : option Z) : limits :=
  Limits total single (max_dimension l) (max_frame_bytes l) (max_channels l) (max_sample_rate l)
    (max_streams l) (max_side_data l) (max_probe_bytes l) (max_metadata_bytes l) fuel deadline.

Definition with_alloc_total (l : limits) (bytes : Z) : limits :=
  with_caps l bytes (max_alloc_single l) (fuel l) (deadline l).

Definition with_alloc_single (l : limits) (bytes : Z) : limits :=
  with_caps l (max_alloc_total l) bytes (fuel l) (deadline l).

Definition with_fuel (l : limits) (n : Z) : limits :=
  with_caps l (max_alloc_total l) (max_alloc_single l) n (deadline l).

Definition with_deadline (l : limits) (at_ : Z) : limits :=
  with_caps l (max_alloc_total l) (max_alloc_single l) (fuel l) (Some at_).

(** Every cap is a value of its width. *)
Definition limits_ok (l : limits) : Prop :=
  0 <= max_alloc_total l < 2 ^ 64 /\ 0 <= max_alloc_single l < 2 ^ 64 /\ 0 <= fuel l < 2 ^ 64.

(** ** The budget *)

Record budget : Type := Budget {
  policy : limits;
  committed : Z;
  pending : Z;
  peak : Z;
  fuel_spent : Z;
}.

Definition new (l : limits) : budget := Budget l 0 0 0 0.

Definition available (b : budget) : Z :=
  sat_u 64 (max_alloc_total (policy b) - sat_u 64 (committed b + pending b)).

Definition check (b : budget) (bytes : Z) : result limit_error unit :=
  if max_alloc_single (policy b) <? bytes then
    Err (Exceeded (str "max_alloc_single") bytes (max_alloc_single (policy b)))
  else
    total ← ok_or (t ← checked_u 64 (committed b + pending b); checked_u 64 (t + bytes)) Overflow;
    if max_alloc_total (policy b) <? total then
      Err (Exceeded (str "max_alloc_total") total (max_alloc_total (policy b)))
    else Ok tt.

Definition note_peak (b : budget) : budget :=
  let live := sat_u 64 (committed b + pending b) in
  if peak b <? live then Budget (policy b) (committed b) (pending b) live (fuel_spent b) else b.

Definition set_committed (b : budget) (c : Z) : budget :=
  Budget (policy b) c (pending b) (peak b) (fuel_spent b).

Definition set_pending (b : budget) (p : Z) : budget :=
  Budget (policy b) (committed b) p (peak b) (fuel_spent b).

(** A live reservation: the bytes it holds and the budget it borrows. *)
Record reservation : Type := Reservation { held : Z; on : budget }.

Definition reserve (b : budget) (bytes : Z) : result limit_error reservation :=
  _ ← check b bytes;
  Ok (Reservation bytes (note_peak (set_pending b (sat_u 64 (pending b + bytes))))).

(** [n * size_of::<T>()]; the element size is the instance's. *)
Definition byte_size (size n : Z) : result limit_error Z :=
  ok_or (checked_u 64 (n * size)) Overflow.

Definition reserve_array (b : budget) (size n : Z) : result limit_error reservation :=
  bytes ← byte_size size n; reserve b bytes.

Definition charge (b : budget) (bytes : Z) : result limit_error budget :=
  _ ← check b bytes;
  Ok (note_peak (set_committed b (sat_u 64 (committed b + bytes)))).

Definition release (b : budget) (bytes : Z) : budget :=
  set_committed b (sat_u 64 (committed b - bytes)).

(** [Drop]: the hold is released. *)
Definition drop_reservation (r : reservation) : budget :=
  set_pending (on r) (sat_u 64 (pending (on r) - held r)).

(** [commit] consumes the reservation: the drop follows. *)
Definition commit (r : reservation) : budget :=
  drop_reservation (Reservation (held r)
    (set_committed (on r) (sat_u 64 (committed (on r) + held r)))).

(** [Reservation::alloc]: [allowed] is the allocator's answer for that many
    bytes. Every exit drops the reservation. *)
Definition alloc_reserved (allowed : Z -> bool) (r : reservation) (size n : Z)
    : result limit_error Z * budget :=
  match byte_size size n with
  | Err e => (Err e, drop_reservation r)
  | Ok want =>
    if held r <? want then (Err Overflow, drop_reservation r)
    else if allowed want then (Ok n, commit r)
    else (Err (AllocFailed want), drop_reservation r)
  end.

Definition alloc (allowed : Z -> bool) (b : budget) (size n : Z) : result limit_error Z * budget :=
  match reserve_array b size n with
  | Err e => (Err e, b)
  | Ok r => alloc_reserved allowed r size n
  end.

Definition consume_fuel (b : budget) (n : Z) : result limit_error unit * budget :=
  let b := Budget (policy b) (committed b) (pending b) (peak b) (sat_u 64 (fuel_spent b + n)) in
  (if fuel (policy b) <? fuel_spent b then Err (FuelExhausted (fuel_spent b)) else Ok tt, b).

Definition fuel_remaining (b : budget) : Z := sat_u 64 (fuel (policy b) - fuel_spent b).

Definition refuel (b : budget) : budget :=
  Budget (policy b) (committed b) (pending b) (peak b) 0.

(** The clock is read by the caller's environment. *)
Definition check_deadline (b : budget) (now : Z) : result limit_error unit :=
  match deadline (policy b) with
  | Some at_ => if at_ <=? now then Err DeadlineExceeded else Ok tt
  | None => Ok tt
  end.

Definition check_count (limit : rstr) (n cap : Z) : result limit_error unit :=
  if cap <? n then Err (Exceeded limit n cap) else Ok tt.

Definition check_streams (b : budget) (n : Z) := check_count (str "max_streams") n (max_streams (policy b)).
Definition check_channels (b : budget) (n : Z) := check_count (str "max_channels") n (max_channels (policy b)).
Definition check_sample_rate (b : budget) (hz : Z) :=
  check_count (str "max_sample_rate") hz (max_sample_rate (policy b)).
Definition check_side_data (b : budget) (n : Z) :=
  check_count (str "max_side_data") n (max_side_data (policy b)).
Definition check_probe_bytes (b : budget) (n : Z) :=
  check_count (str "max_probe_bytes") n (max_probe_bytes (policy b)).
Definition check_metadata_bytes (b : budget) (n : Z) :=
  check_count (str "max_metadata_bytes") n (max_metadata_bytes (policy b)).

Definition check_frame (b : budget) (width height bytes_per_pixel : Z) : result limit_error Z :=
  let dim := max_dimension (policy b) in
  _ ← check_count (str "max_dimension (width)") width dim;
  _ ← check_count (str "max_dimension (height)") height dim;
  bytes ← ok_or (a ← checked_u 64 (width * height); checked_u 64 (a * bytes_per_pixel)) Overflow;
  _ ← check_count (str "max_frame_bytes") bytes (max_frame_bytes (policy b));
  Ok bytes.

(** ** The progress guard *)

Record guard : Type := ProgressGuard { stalls : Z; max_stalls : Z; last_position : option Z }.

Definition DEFAULT_MAX_STALLS : Z := 64.

Definition with_max_stalls (n : Z) : guard := ProgressGuard 0 n None.

Definition guard_new : guard := with_max_stalls DEFAULT_MAX_STALLS.

Definition tick (g : guard) (progressed : bool) : result limit_error unit * guard :=
  if progressed then (Ok tt, ProgressGuard 0 (max_stalls g) (last_position g)) else
  let s := sat_u 32 (stalls g + 1) in
  (if max_stalls g <? s then Err (NoProgress s) else Ok tt,
   ProgressGuard s (max_stalls g) (last_position g)).

Definition tick_position (g : guard) (position : Z) : result limit_error unit * guard :=
  let advanced := match last_position g with Some prev => prev <? position | None => true end in
  tick (ProgressGuard (stalls g) (max_stalls g) (Some position)) advanced.

Definition guard_reset (g : guard) : guard := ProgressGuard 0 (max_stalls g) None.

(** ** The growing buffer *)

Section incremental.
  Context {T : Type}.

(** A [Vec] and its capacity, in elements. *)
Record inc_vec : Type := IncrementalVec {
  items : list T;
  capacity : Z;
  declared : Z;
  charged : Z;
}.

Definition MIN_CAP : Z := 32.

Definition inc_new (declared : Z) : inc_vec := IncrementalVec [] 0 declared 0.

(** [size] is [size_of::<T>()]; [grow want] is the capacity the allocator gives
    when at least [want] elements are asked for, or its refusal. *)
Definition push_slice (size : Z) (grow : Z -> option Z) (v : inc_vec) (b : budget) (src : list T)
    : result limit_error unit * inc_vec * budget :=
  let len := Z.of_nat (length (items v)) in
  match checked_u 64 (len + Z.of_nat (length src)) with
  | None => (Err Overflow, v, b)
  | Some needed =>
    if declared v <? needed then (Err (Exceeded (str "declared_size") needed (declared v)), v, b)
    else if needed <=? capacity v then
      (Ok tt, IncrementalVec (items v ++ src) (capacity v) (declared v) (charged v), b)
    else
      let target := Z.min (Z.max (Z.max needed (sat_u 64 (capacity v * 2))) MIN_CAP)
                      (Z.max (declared v) needed) in
      match (extra ← byte_size size (sat_u 64 (target - capacity v)); b ← charge b extra; Ok (extra, b)) with
      | Err e => (Err e, v, b)
      | Ok (extra, b) =>
        let charged := sat_u 64 (charged v + extra) in
        match grow (len + sat_u 64 (target - len)) with
        | None => (Err (AllocFailed extra), IncrementalVec (items v) (capacity v) (declared v) charged, b)
        | Some cap => (Ok tt, IncrementalVec (items v ++ src) cap (declared v) charged, b)
        end
      end
  end.

End incremental.
Arguments inc_vec : clear implicits.

(** ** Accounting *)

(** What holds of a budget at every point of a run. *)
Record accounts (b : budget) : Prop := {
  acc_policy : limits_ok (policy b);
  acc_committed : 0 <= committed b;
  acc_pending : 0 <= pending b;
  acc_total : committed b + pending b <= max_alloc_total (policy b);
  acc_peak : committed b + pending b <= peak b <= max_alloc_total (policy b);
  acc_fuel : 0 <= fuel_spent b < 2 ^ 64;
}.

Lemma new_accounts l : limits_ok l -> accounts (new l).
Proof. intros Hl. pose proof Hl as (Ht & _ & _). split; simpl; lia || done. Qed.

(** A check succeeds exactly when the bytes fit under both caps. *)
Lemma check_ok b bytes :
  accounts b -> 0 <= bytes ->
  check b bytes = Ok tt <->
  bytes <= max_alloc_single (policy b) /\ committed b + pending b + bytes <= max_alloc_total (policy b).
Proof.
  intros [(Ht & Hs & _) Hc Hp Htot _ _] Hb. unfold check.
  destruct (Z.ltb_spec (max_alloc_single (policy b)) bytes); [split; [done|lia]|].
  rewrite checked_u_in by (apply in_u_spec; lia). cbn [mbind option_bind].
  destruct (checked_u 64 (committed b + pending b + bytes)) as [t|] eqn:E; simpl.
  - breflect. destruct (Z.ltb_spec (max_alloc_total (policy b)) (committed b + pending b + bytes));
      split; done || lia.
  - apply checked_u_None in E. split; [done|lia].
Qed.

Lemma check_case b bytes :
  accounts b -> 0 <= bytes ->
  (exists e, check b bytes = Err e) \/
  check b bytes = Ok tt /\ bytes <= max_alloc_single (policy b) /\
    committed b + pending b + bytes <= max_alloc_total (policy b).
Proof.
  intros Ha Hb. destruct (check b bytes) as [[]|e] eqn:E; [|left; by exists e].
  right. split; [done|]. by apply check_ok.
Qed.

(** Recording the peak changes nothing else and keeps the account. *)
Lemma note_peak_accounts b :
  limits_ok (policy b) -> 0 <= committed b -> 0 <= pending b ->
  committed b + pending b <= max_alloc_total (policy b) ->
  0 <= peak b <= max_alloc_total (policy b) -> 0 <= fuel_spent b < 2 ^ 64 ->
  accounts (note_peak b) /\ policy (note_peak b) = policy b /\
  committed (note_peak b) = committed b /\ pending (note_peak b) = pending b /\
  fuel_spent (note_peak b) = fuel_spent b /\
  peak (note_peak b) = Z.max (peak b) (committed b + pending b).
Proof.
  intros Hl Hc Hp Ht Hk Hf. pose proof Hl as (Hl1 & _). unfold note_peak.
  rewrite sat_u_id by lia. destruct (Z.ltb_spec (peak b) (committed b + pending b));
    (split; [split; simpl; done || lia|]); simpl; repeat (split; [done|]); lia.
Qed.

(** ** Runs

    What a component does with its budget, one step at a time. While a
    reservation is live the budget is borrowed: only the reservation can move. *)

Inductive state : Type :=
  | Free (b : budget)
  | Holding (r : reservation).

(** A step's effect on the bytes the component owns. *)
Inductive label : Type :=
  | Quiet
  | Took (bytes : Z)
  | Gave (bytes : Z).

Section runs.
  (** The allocator's answer for a number of bytes. *)
  Context (allowed : Z -> bool).

Inductive step : state -> label -> state -> Prop :=
  | s_reserve b n r :
      0 <= n -> reserve b n = Ok r -> step (Free b) Quiet (Holding r)
  | s_reserve_err b n e :
      0 <= n -> reserve b n = Err e -> step (Free b) Quiet (Free b)
  | s_drop r : step (Holding r) Quiet (Free (drop_reservation r))
  | s_commit r : step (Holding r) (Took (held r)) (Free (commit r))
  | s_alloc_reserved r size n x b :
      0 <= size -> 0 <= n -> alloc_reserved allowed r size n = (x, b) ->
      step (Holding r) (if is_ok x then Took (held r) else Quiet) (Free b)
  | s_alloc b size n x b' :
      0 <= size -> 0 <= n -> alloc allowed b size n = (x, b') ->
      step (Free b) (if is_ok x then Took (n * size) else Quiet) (Free b')
  | s_charge b n b' : 0 <= n -> charge b n = Ok b' -> step (Free b) (Took n) (Free b')
  | s_charge_err b n e : 0 <= n -> charge b n = Err e -> step (Free b) Quiet (Free b)
  | s_release b n : 0 <= n -> step (Free b) (Gave n) (Free (release b n))
  | s_fuel b n x b' : 0 <= n -> consume_fuel b n = (x, b') -> step (Free b) Quiet (Free b')
  | s_refuel b : step (Free b) Quiet (Free (refuel b)).

Inductive reach (l : limits) : list label -> state -> Prop :=
  | r_new : reach l [] (Free (new l))
  | r_step tr a s s' : reach l tr s -> step s a s' -> reach l (tr ++ [a]) s'.

(** The component's own ledger: over-releasing stops at zero. *)
Definition ledger (tr : list label) : Z :=
  fold_left (fun c a =>
    match a with Quiet => c | Took n => c + n | Gave n => Z.max 0 (c - n) end) tr 0.

(** The state's budget is in order, nothing is pending but the live reservation,
    and what is committed is what the ledger says. *)
Definition in_order (l : limits) (c : Z) (s : state) : Prop :=
  match s with
  | Free b => accounts b /\ policy b = l /\ pending b = 0 /\ committed b = c
  | Holding r =>
    accounts (on r) /\ policy (on r) = l /\ pending (on r) = held r /\ committed (on r) = c /\
    held r <= max_alloc_single l
  end.

Lemma reserve_in_order l c b n r :
  in_order l c (Free b) -> 0 <= n -> reserve b n = Ok r -> in_order l c (Holding r) /\ held r = n.
Proof.
  intros (Ha & Hl & Hp & Hc) Hn Hr. unfold reserve in Hr.
  destruct (check_case b n Ha Hn) as [[e E]|(E & Hs & Ht)]; rewrite E in Hr; [done|].
  cbn in Hr. injection Hr as <-. pose proof Ha as [Hpol Hcn Hpn Htot Hpk Hf]. pose proof Hpol as (Hm & _ & _).
  rewrite (sat_u_id 64 (pending b + n)) by lia.
  destruct (note_peak_accounts (set_pending b (pending b + n))) as (H1 & H2 & H3 & H4 & _);
    [done|simpl; lia..|]. simpl in H2, H3, H4.
  split; [|done]. simpl. rewrite H2, H3, H4, <- Hl.
  split; [done|]. split; [done|]. split; [lia|done].
Qed.

Lemma drop_in_order l c r : in_order l c (Holding r) -> in_order l c (Free (drop_reservation r)).
Proof.
  intros ([Hpol Hcn Hpn Htot Hpk Hf] & Hl & Hp & Hc & Hs). pose proof Hpol as (Hm & _ & _).
  unfold drop_reservation. rewrite sat_u_id by lia.
  split; [split; simpl; done || lia|]. simpl. split; [done|]. split; [lia|done].
Qed.

Lemma commit_in_order l c r :
  in_order l c (Holding r) -> in_order l (c + held r) (Free (commit r)).
Proof.
  intros ([Hpol Hcn Hpn Htot Hpk Hf] & Hl & Hp & Hc & Hs). pose proof Hpol as (Hm & _ & _).
  unfold commit, drop_reservation. simpl. rewrite !sat_u_id by lia.
  split; [split; simpl; done || lia|]. simpl. split; [done|]. split; lia.
Qed.

Lemma alloc_reserved_in_order l c r size n x b :
  in_order l c (Holding r) -> alloc_reserved allowed r size n = (x, b) ->
  in_order l (if is_ok x then c + held r else c) (Free b).
Proof.
  intros Hi Ha. unfold alloc_reserved in Ha.
  destruct (byte_size size n) as [want|e]; [|injection Ha as <- <-; by apply drop_in_order].
  destruct (held r <? want); [injection Ha as <- <-; by apply drop_in_order|].
  destruct (allowed want); injection Ha as <- <-; [by apply commit_in_order|by apply drop_in_order].
Qed.

Lemma byte_size_Ok size n k : byte_size size n = Ok k -> k = n * size /\ 0 <= n * size < 2 ^ 64.
Proof.
  unfold byte_size. destruct (checked_u 64 (n * size)) eqn:E; simpl; [|done]. breflect. by intros [= <-].
Qed.

Lemma alloc_in_order l c b size n x b' :
  in_order l c (Free b) -> alloc allowed b size n = (x, b') ->
  in_order l (if is_ok x then c + n * size else c) (Free b').
Proof.
  intros Hi Ha. unfold alloc, reserve_array in Ha.
  destruct (byte_size size n) as [k|e] eqn:Ek; cbn in Ha; [|by injection Ha as <- <-].
  apply byte_size_Ok in Ek as Hk. destruct Hk as [-> Hk].
  destruct (reserve b (n * size)) as [r|e] eqn:Er; [|by injection Ha as <- <-].
  destruct (reserve_in_order l c b (n * size) r Hi ltac:(lia) Er) as [Hr Hh].
  rewrite <- Hh. by apply (alloc_reserved_in_order l c r size n).
Qed.

(** An allocation that fits and that the allocator grants. *)
Lemma alloc_fits l c b n :
  in_order l c (Free b) -> 0 <= n <= max_alloc_single l -> c + n <= max_alloc_total l -> allowed n = true ->
  exists b', alloc allowed b 1 n = (Ok n, b') /\ in_order l (c + n) (Free b').
Proof.
  intros Hi Hn Ht Hal. destruct (alloc allowed b 1 n) as [x b'] eqn:E. pose proof (alloc_in_order l c b 1 n x b' Hi E) as H.
  pose proof Hi as (Ha & Hl & Hp & Hc). pose proof Ha as [(_ & Hl1 & _) _ _ _ _ _]. rewrite Hl in Hl1.
  unfold alloc, reserve_array, byte_size in E. rewrite Z.mul_1_r, checked_u_in in E by (apply in_u_spec; lia). cbn in E.
  assert (Ec : check b n = Ok tt) by (apply check_ok; [done|lia|rewrite Hl; lia]).
  destruct (reserve b n) as [r|e] eqn:Er; [|unfold reserve in Er; by rewrite Ec in Er].
  destruct (reserve_in_order l c b n r Hi ltac:(lia) Er) as [_ Hh].
  unfold alloc_reserved, byte_size in E. rewrite Z.mul_1_r, checked_u_in in E by (apply in_u_spec; lia). cbn in E.
  rewrite Hh, Z.ltb_irrefl, Hal in E. injection E as <- <-. exists (commit r). split; [done|]. cbn [is_ok] in H. by rewrite Z.mul_1_r in H.
Qed.

Lemma charge_in_order l c b n b' :
  in_order l c (Free b) -> 0 <= n -> charge b n = Ok b' -> in_order l (c + n) (Free b').
Proof.
  intros (Ha & Hl & Hp & Hc) Hn Hr. unfold charge in Hr.
  destruct (check_case b n Ha Hn) as [[e E]|(E & Hs & Ht)]; rewrite E in Hr; [done|].
  cbn in Hr. injection Hr as <-. pose proof Ha as [Hpol Hcn Hpn Htot Hpk Hf]. pose proof Hpol as (Hm & _ & _).
  rewrite (sat_u_id 64 (committed b + n)) by lia.
  destruct (note_peak_accounts (set_committed b (committed b + n))) as (H1 & H2 & H3 & H4 & _);
    [done|simpl; lia..|]. simpl in H2, H3, H4.
  simpl. rewrite H2, H3, H4. split; [done|]. split; [done|]. split; lia.
Qed.

Lemma release_in_order l c b n :
  in_order l c (Free b) -> 0 <= n -> in_order l (Z.max 0 (c - n)) (Free (release b n)).
Proof.
  intros ([Hpol Hcn Hpn Htot Hpk Hf] & Hl & Hp & Hc) Hn. pose proof Hpol as (Hm & _ & _).
  unfold release. assert (sat_u 64 (committed b - n) = Z.max 0 (c - n)) as -> by (unfold sat_u; lia).
  split; [split; simpl; done || lia|]. simpl. split; [done|]. split; lia.
Qed.

(** Every step keeps the account and moves the ledger by its label. *)
Lemma step_in_order l c s a s' :
  in_order l c s -> step s a s' ->
  in_order l (match a with Quiet => c | Took n => c + n | Gave n => Z.max 0 (c - n) end) s'.
Proof.
  intros Hi Hs. destruct Hs.
  - by eapply reserve_in_order.
  - done.
  - by apply drop_in_order.
  - by apply commit_in_order.
  - pose proof (alloc_reserved_in_order l c r size n x b Hi ltac:(done)). by destruct (is_ok x).
  - pose proof (alloc_in_order l c b size n x b' Hi ltac:(done)). by destruct (is_ok x).
  - by eapply charge_in_order.
  - done.
  - by apply release_in_order.
  - match goal with H : consume_fuel _ _ = _ |- _ => unfold consume_fuel in H; injection H as _ <- end.
    destruct Hi as ([Hpol Hcn Hpn Htot Hpk Hf] & Hl & Hp & Hc).
    split; [split; simpl; try done; try lia; by apply sat_u_range|done].
  - destruct Hi as ([Hpol Hcn Hpn Htot Hpk Hf] & Hl & Hp & Hc).
    split; [split; simpl; done || lia|done].
Qed.

Lemma reach_in_order l tr s : limits_ok l -> reach l tr s -> in_order l (ledger tr) s.
Proof.
  intros Hl Hr. induction Hr as [|tr a s s' Hr IH Hs].
  - split; [by apply new_accounts|done].
  - unfold ledger. rewrite fold_left_app. cbn [fold_left]. by apply (step_in_order l _ s).
Qed.

(** C6. The meter never lies: at every point of every run of a component, what
    it holds plus what its live reservation claims is within the total cap, the
    high-water mark covers it and is within the cap too, no reservation leaks
    (pending is exactly the live one, at most the single-allocation cap), and
    the committed bytes are what the component took minus what it gave back. *)
Theorem budget_never_exceeds l tr s :
  limits_ok l -> reach l tr s ->
  match s with
  | Free b =>
    committed b = ledger tr /\ pending b = 0 /\ committed b <= peak b <= max_alloc_total l
  | Holding r =>
    committed (on r) = ledger tr /\ pending (on r) = held r /\
    held r <= max_alloc_single l /\
    committed (on r) + held r <= peak (on r) <= max_alloc_total l
  end.
Proof.
  intros Hl Hr. pose proof (reach_in_order l tr s Hl Hr) as Hi.
  destruct s as [b|r]; cbn [in_order] in Hi.
  - destruct Hi as ([_ _ _ _ Hpk _] & Hp & H0 & Hc). rewrite Hp in Hpk.
    split; [done|]. split; [done|lia].
  - destruct Hi as ([_ _ _ _ Hpk _] & Hp & H0 & Hc & Hs). rewrite Hp in Hpk.
    split; [done|]. split; [done|]. split; [done|lia].
Qed.

(** Allocation is all or nothing: [alloc] of [n] elements succeeds exactly
    when their size fits in 64 bits, under both caps, and the allocator agrees;
    it then owns exactly those bytes, and after any failure it owns and reserves
    what it did before. *)
Theorem alloc_outcome b size n :
  accounts b -> pending b = 0 -> 0 <= size -> 0 <= n ->
  let '(x, b') := alloc allowed b size n in
  (x = Ok n <->
     n * size <= max_alloc_single (policy b) /\
     committed b + n * size <= max_alloc_total (policy b) /\ allowed (n * size) = true) /\
  committed b' = (if is_ok x then committed b + n * size else committed b) /\ pending b' = 0 /\
  accounts b'.
Proof.
  intros Ha Hp Hsz Hn. destruct (alloc allowed b size n) as [x b'] eqn:E.
  assert (in_order (policy b) (committed b) (Free b)) as Hi by (by split).
  pose proof (alloc_in_order _ _ _ _ _ _ _ Hi E) as (Ha' & _ & Hp' & Hc').
  split; [|by split; [destruct (is_ok x)|]].
  unfold alloc, reserve_array, byte_size in E. pose proof (acc_policy b Ha) as (_ & Hs & _).
  destruct (checked_u 64 (n * size)) as [k|] eqn:Ek; cbn in E.
  2:{ injection E as <- <-. apply checked_u_None in Ek. split; [done|]. intros (H1 & _). nia. }
  breflect. unfold reserve in E.
  destruct (check_case b (n * size) Ha ltac:(lia)) as [[e Ee]|(Ee & H1 & H2)]; rewrite Ee in E; cbn in E.
  - injection E as <- <-. split; [done|]. intros (H1 & H2 & _).
    pose proof (proj2 (check_ok b (n * size) Ha ltac:(lia))) as Hok. rewrite Ee in Hok.
    discriminate Hok. lia.
  - unfold alloc_reserved, byte_size in E. cbn [held] in E.
    rewrite checked_u_in in E by (by apply in_u_spec). cbn in E.
    rewrite (proj2 (Z.ltb_ge _ _)) in E by lia.
    destruct (allowed (n * size)); injection E as <- <-; [split; [|done]|by split; [|intros (_ & _ & ?)]].
    intros _. split; [done|]. split; [lia|done].
Qed.

End runs.

Lemma budget_never_exceeds_witness :
  exists s, reach (fun _ => true) tiny [Took 4096; Quiet; Gave 100] s /\
    match s with Free b => committed b = 3996 /\ peak b <= 65536 | Holding _ => False end.
Proof.
  assert (Hl : limits_ok tiny) by (repeat split; vm_compute; congruence).
  assert (Hr : exists s, reach (fun _ => true) tiny [Took 4096; Quiet; Gave 100] s /\
                 match s with Free b => True | Holding _ => False end).
  { eexists. split.
    - eapply (r_step _ _ [Took 4096; Quiet] (Gave 100));
        [eapply (r_step _ _ [Took 4096] Quiet); [eapply (r_step _ _ [] (Took 4096)); [apply r_new|]|]|].
      + by eapply s_charge; [lia|].
      + by eapply (s_reserve_err _ _ 20000); [lia|].
      + by apply s_release.
    - done. }
  destruct Hr as (s & Hr & Hs). exists s. split; [done|].
  pose proof (budget_never_exceeds (fun _ => true) tiny _ s Hl Hr) as H. destruct s as [b|]; [|done].
  destruct H as (Hc & _ & _ & Hp). split; [done|]. exact Hp.
Defined.

Lemma alloc_outcome_witness :
  fst (alloc (fun _ => true) (new tiny) 4 1000) = Ok 1000 /\
  committed (snd (alloc (fun _ => true) (new tiny) 4 1000)) = 4000.
Proof.
  assert (Hl : limits_ok tiny) by (repeat split; vm_compute; congruence).
  pose proof (alloc_outcome (fun _ => true) (new tiny) 4 1000 (new_accounts tiny Hl) eq_refl
    ltac:(lia) ltac:(lia)) as H.
  destruct (alloc _ _ _ _) as [x b'] eqn:E. destruct H as (Hx & Hc & _).
  assert (x = Ok 1000) as -> by (apply Hx; vm_compute; split; [|split]; congruence).
  split; [done|]. exact Hc.
Defined.

(** ** Fuel and progress *)

(** Charge a list of loop iterations, stopping at the first refusal. *)
Fixpoint burn (b : budget) (ns : list Z) : nat * budget :=
  match ns with
  | [] => (O, b)
  | n :: ns =>
    match consume_fuel b n with
    | (Ok _, b) => let (k, b) := burn b ns in (S k, b)
    | (Err _, b) => (O, b)
    end
  end.

(** Record a list of positions, stopping at the first refusal. *)
Fixpoint ticks (g : guard) (ps : list Z) : nat :=
  match ps with
  | [] => O
  | p :: ps =>
    match tick_position g p with
    | (Ok _, g) => S (ticks g ps)
    | (Err _, _) => O
    end
  end.

Lemma burn_bound b ns :
  0 <= fuel_spent b <= fuel (policy b) -> fuel (policy b) < 2 ^ 64 - 1 -> Forall (fun n => 0 <= n) ns ->
  let (k, b') := burn b ns in
  (k <= length ns)%nat /\
  fuel_spent b + fold_right Z.add 0 (take k ns) <= fuel (policy b) /\
  (forall n, ns !! k = Some n ->
     fuel (policy b) < fuel_spent b + fold_right Z.add 0 (take k ns) + n /\
     forall m, 0 <= m -> exists s, fst (consume_fuel b' m) = Err (FuelExhausted s)).
Proof.
  intros Hs Hf Hns. revert b Hs Hf. induction Hns as [|n ns Hn Hns IH]; intros b Hs Hf; cbn [burn].
  { simpl. split; [lia|]. split; [lia|done]. }
  unfold consume_fuel at 1. destruct (Z.ltb_spec (fuel (policy b)) (sat_u 64 (fuel_spent b + n))) as [Hlt|Hge].
  - cbn [fuel_spent policy] in *. rewrite (proj2 (Z.ltb_lt _ _)) by done.
    split; [lia|]. split; [simpl; lia|]. intros n' [= <-].
    split; [simpl; unfold sat_u in Hlt; lia|]. intros m Hm. unfold consume_fuel. cbn [fuel_spent policy].
    rewrite (proj2 (Z.ltb_lt _ _)); [by eexists|]. unfold sat_u in *. lia.
  - cbn [fuel_spent policy]. rewrite (proj2 (Z.ltb_ge _ _)) by done.
    assert (sat_u 64 (fuel_spent b + n) = fuel_spent b + n) as E by (unfold sat_u in *; lia).
    specialize (IH (Budget (policy b) (committed b) (pending b) (peak b) (sat_u 64 (fuel_spent b + n)))).
    cbn [fuel_spent policy] in IH. specialize (IH ltac:(lia) Hf).
    destruct (burn _ ns) as [k b']. destruct IH as (H1 & H2 & H3). rewrite E in *.
    split; [simpl; lia|]. split; [simpl; lia|]. intros n' Hn'. simpl in Hn'.
    destruct (H3 n' Hn') as [H4 H5]. split; [simpl; lia|done].
Qed.

Lemma ticks_bound g ps lo hi :
  0 <= stalls g <= max_stalls g -> max_stalls g < 2 ^ 32 - 1 ->
  last_position g = Some lo -> lo <= hi ->
  StronglySorted Z.le (lo :: ps) -> Forall (fun p => p <= hi) ps ->
  Z.of_nat (ticks g ps) <= max_stalls g - stalls g + (hi - lo) * (max_stalls g + 1).
Proof.
  intros Hst Hm. revert g lo Hst Hm. induction ps as [|p ps IH]; intros g lo Hst Hm Hl Hlo Hsort Hhi.
  { simpl. nia. }
  cbn [ticks]. apply Forall_cons in Hhi as [Hp Hhi].
  apply StronglySorted_inv in Hsort as [Hsort Hle]. apply Forall_cons in Hle as [Hlp _].
  unfold tick_position. rewrite Hl. unfold tick. cbn [stalls max_stalls last_position].
  destruct (Z.ltb_spec lo p).
  - specialize (IH (ProgressGuard 0 (max_stalls g) (Some p)) p). cbn in IH.
    specialize (IH ltac:(lia) Hm eq_refl Hp Hsort Hhi). nia.
  - assert (p = lo) as -> by lia. rewrite sat_u_id by lia.
    destruct (Z.ltb_spec (max_stalls g) (stalls g + 1)); [simpl; nia|].
    specialize (IH (ProgressGuard (stalls g + 1) (max_stalls g) (Some lo)) lo). cbn in IH.
    specialize (IH ltac:(lia) Hm eq_refl Hlo Hsort Hhi). lia.
Qed.

(** Loops end: a loop that charges fuel runs exactly until the allowance is
    spent and every later charge fails too; a loop that reports non-decreasing
    input positions in [lo, hi] to a [ProgressGuard] is stopped after at most
    [(hi - lo + 1) * (max_stalls + 1)] steps. *)
Theorem loops_end l ns max lo hi ps :
  0 <= fuel l < 2 ^ 64 - 1 -> Forall (fun n => 0 <= n) ns ->
  0 <= max < 2 ^ 32 - 1 -> StronglySorted Z.le ps -> Forall (fun p => lo <= p <= hi) ps ->
  (let (k, b) := burn (new l) ns in
   fold_right Z.add 0 (take k ns) <= fuel l /\
   forall n, ns !! k = Some n ->
     fuel l < fold_right Z.add 0 (take k ns) + n /\
     forall m, 0 <= m -> exists s, fst (consume_fuel b m) = Err (FuelExhausted s)) /\
  Z.of_nat (ticks (with_max_stalls max) ps) <= Z.max 0 ((hi - lo + 1) * (max + 1)).
Proof.
  intros Hf Hns Hm Hsort Hps. split.
  - pose proof (burn_bound (new l) ns ltac:(simpl; lia) ltac:(simpl; lia) Hns) as H.
    destruct (burn (new l) ns) as [k b]. by destruct H as (_ & H).
  - destruct ps as [|p ps]; [simpl; lia|]. apply Forall_cons in Hps as [Hp Hps].
    change (ticks (with_max_stalls max) (p :: ps)) with (S (ticks (ProgressGuard 0 max (Some p)) ps)).
    pose proof (ticks_bound (ProgressGuard 0 max (Some p)) ps p hi) as H. cbn in H.
    specialize (H ltac:(lia) ltac:(lia) eq_refl ltac:(lia) Hsort).
    assert (Forall (fun q => q <= hi) ps) as Hh by (eapply Forall_impl; [exact Hps|]; simpl; lia).
    specialize (H Hh). nia.
Qed.

Lemma loops_end_witness :
  fst (burn (new tiny) [65000; 500; 37; 10]) = 2%nat /\
  Z.of_nat (ticks (with_max_stalls 2) [7; 7; 8; 8; 8; 8; 8]) <= 6.
Proof.
  destruct (loops_end tiny [65000; 500; 37; 10] 2 7 8 [7; 7; 8; 8; 8; 8; 8]) as [H Ht];
    [by vm_compute|repeat constructor; lia|lia|repeat constructor; lia|repeat constructor; lia|].
  split; [|exact Ht]. by vm_compute.
Defined.

(** A reader that moves back and forth is never stopped: each step forward
    clears the count. *)
Lemma guard_misses_oscillation :
  ticks (with_max_stalls 1) [5; 3; 5; 3; 5; 3; 5; 3; 5; 3] = 10%nat.
Proof. done. Qed.

(** ** Growing buffers *)

Section growth.
  Context {T : Type} (size : Z) (grow : Z -> option Z).
  (** The allocator gives at least what is asked for and does not refuse. *)
  Context (Hsize : 0 <= size) (Hgrow : forall want, exists cap, grow want = Some cap /\ want <= cap).

(** Append slices as they arrive, keeping what was accepted. *)
Fixpoint pushes (v : inc_vec T) (b : budget) (xs : list (list T)) : inc_vec T * budget * list (list T) :=
  match xs with
  | [] => (v, b, [])
  | x :: xs =>
    let '(r, v, b) := push_slice size grow v b x in
    let '(v, b, acc) := pushes v b xs in
    (v, b, if is_ok r then x :: acc else acc)
  end.

Definition vlen (v : inc_vec T) : Z := Z.of_nat (length (items v)).

(** The most a buffer of [len] elements may have charged. *)
Definition paid_for (v : inc_vec T) : Z := Z.min (declared v) (Z.max MIN_CAP (2 * vlen v)).

Record inc_ok (v : inc_vec T) : Prop := {
  inc_cap : vlen v <= capacity v;
  inc_decl : 0 <= vlen v <= declared v;
  inc_charge : 0 <= charged v <= size * Z.min (capacity v) (paid_for v);
}.

(** One append: all of it or nothing, and the budget pays what the buffer
    records. *)
Lemma push_slice_ok v b src :
  inc_ok v -> accounts b -> pending b = 0 -> declared v < 2 ^ 64 -> charged v <= committed b ->
  let '(r, v', b') := push_slice size grow v b src in
  inc_ok v' /\ accounts b' /\ pending b' = 0 /\ declared v' = declared v /\
  charged v' <= committed b' /\
  items v' = (if is_ok r then items v ++ src else items v) /\
  committed b' - committed b = charged v' - charged v.
Proof using Hsize Hgrow.
  intros Hv Ha Hp Hd Hcc. pose proof Hv as [Hcap Hdecl Hch]. unfold push_slice. fold (vlen v).
  set (needed := vlen v + Z.of_nat (length src)).
  assert (Hsame : inc_ok v /\ accounts b /\ pending b = 0 /\ declared v = declared v /\
    charged v <= committed b /\ items v = items v /\
    committed b - committed b = charged v - charged v) by (repeat (split; [done|]); lia).
  destruct (checked_u 64 needed) as [n|] eqn:En; [|done].
  breflect. destruct (Z.ltb_spec (declared v) needed); [done|].
  assert (forall cap ch, vlen (IncrementalVec (items v ++ src) cap (declared v) ch) = needed) as Hlen.
  { intros. unfold vlen, needed. simpl. rewrite length_app. unfold vlen. lia. }
  destruct (Z.leb_spec needed (capacity v)).
  { split; [|by repeat (split; [done|]); simpl; lia].
    split; rewrite ?Hlen; simpl; [done|unfold needed; lia|].
    split; [lia|]. etransitivity; [apply Hch|]. apply Z.mul_le_mono_nonneg_l; [done|].
    unfold paid_for. rewrite Hlen. simpl. unfold needed. lia. }
  set (target := Z.min _ _). unfold MIN_CAP in *.
  assert (needed <= target <= declared v) as Ht.
  { unfold target, sat_u. split; [|lia]. apply Z.min_glb; lia. }
  assert (target <= Z.max 32 (2 * needed)) as Ht2 by (unfold target, sat_u; lia).
  rewrite (sat_u_id 64 (target - capacity v)), (sat_u_id 64 (target - vlen v)) by (unfold needed in *; lia).
  destruct (byte_size size (target - capacity v)) as [extra|e] eqn:Eb; cbn; [|done].
  apply byte_size_Ok in Eb as [-> Hx].
  destruct (charge b _) as [b'|e] eqn:Ec; cbn; [|done].
  destruct (charge_in_order (policy b) (committed b) b ((target - capacity v) * size) b' ltac:(by split) ltac:(lia) Ec)
    as (Ha' & Hpol' & Hp' & Hc').
  destruct (Hgrow (vlen v + (target - vlen v))) as (cap & -> & Hg).
  assert (charged v + (target - capacity v) * size <= size * target) as Hcharge.
  { assert (charged v <= size * capacity v); [|lia].
    etransitivity; [apply Hch|]. apply Z.mul_le_mono_nonneg_l; lia. }
  pose proof (acc_policy b' Ha') as (Hpol & _). pose proof (acc_total b' Ha').
  rewrite sat_u_id by lia.
  split; [|simpl; repeat (split; [done || lia|]); lia].
  split; rewrite ?Hlen; simpl; [lia|unfold needed in *; lia|]. split; [lia|].
  etransitivity; [apply Hcharge|]. apply Z.mul_le_mono_nonneg_l; [done|].
  unfold paid_for, MIN_CAP. rewrite Hlen. simpl. lia.
Qed.

Lemma pushes_ok xs v b :
  inc_ok v -> accounts b -> pending b = 0 -> declared v < 2 ^ 64 -> charged v <= committed b ->
  let '(v', b', acc) := pushes v b xs in
  inc_ok v' /\ declared v' = declared v /\ items v' = items v ++ concat acc /\
  committed b' - committed b = charged v' - charged v /\
  committed b' <= max_alloc_total (policy b').
Proof using Hsize Hgrow.
  revert v b. induction xs as [|x xs IH]; intros v b Hv Ha Hp Hd Hc; cbn [pushes].
  { simpl. rewrite app_nil_r. repeat (split; [done || lia|]).
    pose proof (acc_total b Ha). pose proof (acc_pending b Ha). lia. }
  pose proof (push_slice_ok v b x Hv Ha Hp Hd Hc) as H.
  destruct (push_slice size grow v b x) as [[r v1] b1]. destruct H as (Hv1 & Ha1 & Hp1 & Hd1 & Hc1 & Hi1 & He1).
  specialize (IH v1 b1 Hv1 Ha1 Hp1 ltac:(lia) Hc1).
  destruct (pushes v1 b1 xs) as [[v2 b2] acc]. destruct IH as (Hv2 & Hd2 & Hi2 & He2 & Ht2).
  split; [done|]. split; [congruence|]. split; [|split; [lia|done]].
  rewrite Hi2, Hi1. destruct (is_ok r); [|done]. by rewrite <- app_assoc.
Qed.

(** An append within the declared size whose whole declared size the budget could
    still pay never fails. *)
Lemma push_slice_succeeds v b src :
  inc_ok v -> accounts b -> pending b = 0 -> declared v < 2 ^ 64 ->
  vlen v + Z.of_nat (length src) <= declared v -> size * declared v <= max_alloc_single (policy b) ->
  committed b + (size * declared v - charged v) <= max_alloc_total (policy b) ->
  fst (fst (push_slice size grow v b src)) = Ok tt.
Proof using Hsize Hgrow.
  intros [Hcap Hdecl Hch] Ha Hp Hd Hn Hs Ht. pose proof (acc_policy b Ha) as (Hmt & Hms & _). unfold push_slice. fold (vlen v).
  set (needed := vlen v + Z.of_nat (length src)) in *. rewrite checked_u_in by (apply in_u_spec; lia).
  destruct (Z.ltb_spec (declared v) needed); [lia|]. destruct (Z.leb_spec needed (capacity v)); [done|].
  set (target := Z.min _ _). unfold MIN_CAP in *. assert (needed <= target <= declared v) as Htg.
  { unfold target, sat_u. split; [|lia]. apply Z.min_glb; lia. }
  rewrite (sat_u_id 64 (target - capacity v)) by (unfold needed in *; lia).
  assert (charged v <= size * capacity v) as Hc1.
  { etransitivity; [apply Hch|]. apply Z.mul_le_mono_nonneg_l; lia. }
  assert ((target - capacity v) * size <= size * declared v - size * capacity v) as Hx by nia.
  assert (0 <= capacity v) by lia. assert (0 <= size * capacity v) by nia.
  unfold byte_size. rewrite checked_u_in by (apply in_u_spec; nia). cbn [ok_or mbind result_bind].
  unfold charge. rewrite (proj2 (check_ok b ((target - capacity v) * size) Ha ltac:(nia))) by (split; lia).
  cbn [mbind result_bind]. rewrite sat_u_id by (unfold needed in *; lia).
  destruct (Hgrow (vlen v + (target - vlen v))) as (cap & -> & _). done.
Qed.

(** A claimed length costs nothing: however large the declared size, after
    any sequence of appends the buffer holds exactly the slices it accepted, no
    more than was declared, and has charged the budget for at most
    [max(32, 2 * delivered)] elements, never for more than declared. *)
Theorem incremental_charge_tracks_delivery l declared_ xs :
  limits_ok l -> 0 <= declared_ < 2 ^ 64 ->
  let '(v, b, acc) := pushes (inc_new declared_) (new l) xs in
  items v = concat acc /\ vlen v <= capacity v /\ vlen v <= declared_ /\
  committed b = charged v /\ committed b <= max_alloc_total (policy b) /\
  charged v <= size * Z.min declared_ (Z.max 32 (2 * vlen v)).
Proof using Hsize Hgrow.
  intros Hl Hd.
  assert (inc_ok (inc_new declared_)) as Hnew.
  { split; unfold vlen, paid_for, MIN_CAP; simpl; [lia|lia|]. rewrite Z.min_l by lia. lia. }
  pose proof (pushes_ok xs (inc_new declared_) (new l) Hnew (new_accounts l Hl) eq_refl
    ltac:(simpl; lia) ltac:(simpl; lia)) as H.
  destruct (pushes _ _ xs) as [[v b] acc]. destruct H as ([Hc Hd2 Hch] & Hdv & Hi & He & Ht).
  simpl in Hdv, Hi, He. rewrite Hdv in Hd2. split; [done|]. split; [done|]. split; [lia|]. split; [lia|].
  split; [done|]. etransitivity; [apply Hch|]. apply Z.mul_le_mono_nonneg_l; [done|].
  unfold paid_for, MIN_CAP. rewrite Hdv. lia.
Qed.

End growth.

Lemma incremental_charge_tracks_delivery_witness :
  let '(v, b, acc) := pushes 1 Some (inc_new (2 ^ 40)) (new tiny) [[1; 2; 3]; [4; 5]] in
  acc = [[1; 2; 3]; [4; 5]] /\ charged v <= 32 /\ items v = [1; 2; 3; 4; 5].
Proof.
  assert (Hl : limits_ok tiny) by (repeat split; vm_compute; congruence).
  pose proof (incremental_charge_tracks_delivery 1 Some ltac:(lia)
    (fun want => ex_intro _ want (conj eq_refl (Z.le_refl want))) tiny (2 ^ 40)
    [[1; 2; 3]; [4; 5]] Hl ltac:(lia)) as H.
  assert (E : pushes 1 Some (inc_new (2 ^ 40)) (new tiny) [[1; 2; 3]; [4; 5]] =
    (IncrementalVec [1; 2; 3; 4; 5] 32 (2 ^ 40) 32,
     Budget tiny 32 0 32 0, [[1; 2; 3]; [4; 5]])) by (by vm_compute).
  rewrite E in *. destruct H as (H & _ & _ & _ & _ & Hc). split; [done|]. split; [exact Hc|exact H].
Defined.

(** The capacity a first element buys is the floor of thirty-two, not twice
    what was delivered. *)
Lemma incremental_floor :
  let '(v, _, _) := pushes 1 Some (inc_new 1000) (new tiny) [[7]] in
  vlen v = 1 /\ capacity v = 32.
Proof. done. Qed.
