(* ===== verification/Escape.v ===== *)
(** * Escape: the option grammar's escaping, and the ordered dictionary

    [src/crates/core/vaco-core/src/escape.rs] and [dict.rs]. Strings are lists
    of Unicode scalar values; the slices the splitters return are the characters
    they cover. The round trips hold at every level of the grammar: what
    [escape] writes, [split_raw] keeps whole and [unescape] reads back. *)

From Stdlib Require Import ZArith Lia Ascii String.
From stdpp Require Import prelude strings gmap.
From S2P Require Import Prelude.

(** The three characters with a meaning of their own. *)
Definition quote : Z := 39.
Definition backslash : Z := 92.

Definition OPT_VALUE_SPECIAL : rstr := str ":=".
Definition FILTERGRAPH_SPECIAL : rstr := str "[],;".

Inductive mode : Type := Auto | Backslash | Quote.

Inductive escape_error : Type := UnterminatedQuote | TrailingBackslash.

(** [str::contains] of a character. *)
Definition contains (s : rstr) (c : Z) : bool := existsb (Z.eqb c) s.

Definition is_special (special : rstr) (c : Z) : bool :=
  (c =? backslash) || (c =? quote) || contains special c.

Definition needs_escaping (s special : rstr) : bool := existsb (is_special special) s.

Definition escape_backslash (s special : rstr) : rstr :=
  concat (map (fun c => if is_special special c then [backslash; c] else [c]) s).

(** A quote is closed, escaped and reopened. *)
Definition quote_char (c : Z) : rstr := if c =? quote then str "'\''" else [c].

Definition escape_quote (s : rstr) : rstr := [quote] ++ concat (map quote_char s) ++ [quote].

Definition escape (s special : rstr) (m : mode) : rstr :=
  match m with
  | Auto => if needs_escaping s special then escape_backslash s special else s
  | Backslash => escape_backslash s special
  | Quote => escape_quote s
  end.

Fixpoint unescape_loop (in_quote : bool) (s : rstr) : rstr :=
  match s with
  | [] => []
  | c :: s =>
    if c =? quote then unescape_loop (negb in_quote) s
    else if (c =? backslash) && negb in_quote then
      match s with
      | n :: s => n :: unescape_loop in_quote s
      | [] => [backslash]
      end
    else c :: unescape_loop in_quote s
  end.

Definition unescape (s : rstr) : result escape_error rstr := Ok (unescape_loop false s).

(** The scan of [split_raw]; [piece] is the text from [start]. *)
Fixpoint split_loop (seps : rstr) (in_quote : bool) (piece s : rstr) : list rstr :=
  match s with
  | [] => [piece]
  | c :: s =>
    if c =? quote then split_loop seps (negb in_quote) (piece ++ [c]) s
    else if (c =? backslash) && negb in_quote then
      match s with
      | n :: s => split_loop seps in_quote (piece ++ [c; n]) s
      | [] => [piece ++ [c]]
      end
    else if negb in_quote && contains seps c then piece :: split_loop seps in_quote [] s
    else split_loop seps in_quote (piece ++ [c]) s
  end.

Definition split_raw (s seps : rstr) : result escape_error (list rstr) :=
  Ok (split_loop seps false [] s).

Definition needs_unescaping (s : rstr) : bool := contains s backslash || contains s quote.

(** [collect] of fallible pieces: the first error wins. *)
Fixpoint collect {A B : Type} (f : A -> result escape_error B) (l : list A)
    : result escape_error (list B) :=
  match l with
  | [] => Ok []
  | x :: l => y ← f x; ys ← collect f l; Ok (y :: ys)
  end.

Definition split (s : rstr) (sep : Z) : result escape_error (list rstr) :=
  pieces ← split_raw s [sep];
  collect (fun p => if needs_unescaping p then unescape p else Ok p) pieces.

Fixpoint once_loop (seps : rstr) (in_quote : bool) (head s : rstr)
    : result escape_error (option (rstr * rstr)) :=
  match s with
  | [] => if in_quote then Err UnterminatedQuote else Ok None
  | c :: s =>
    if c =? quote then once_loop seps (negb in_quote) (head ++ [c]) s
    else if (c =? backslash) && negb in_quote then
      match s with
      | n :: s => once_loop seps in_quote (head ++ [c; n]) s
      | [] => if in_quote then Err UnterminatedQuote else Ok None
      end
    else if negb in_quote && contains seps c then Ok (Some (head, s))
    else once_loop seps in_quote (head ++ [c]) s
  end.

Definition split_once_raw (s seps : rstr) : result escape_error (option (rstr * rstr)) :=
  once_loop seps false [] s.

(** ** The dictionary *)

Module Dict.

(** Entries in insertion order, repeated keys allowed. *)
Abbreviation dict := (list (rstr * rstr)).

Record flags : Type := DictFlags {
  match_case : bool;
  ignore_suffix : bool;
  dont_overwrite : bool;
  append : bool;
  multikey : bool;
}.

Definition exact : flags := DictFlags true false false false false.

Definition lower (c : Z) : Z := if (65 <=? c) && (c <=? 90) then c + 32 else c.

Definition eq_ignore_ascii_case (a b : rstr) : bool := bool_decide (map lower a = map lower b).

Definition starts_with (have want : rstr) : bool := bool_decide (take (length want) have = want).

(** A byte prefix that matches up to ASCII case is a character prefix. *)
Definition key_matches (have want : rstr) (f : flags) : bool :=
  if ignore_suffix f then
    if match_case f then starts_with have want
    else (length want <=? length have)%nat && eq_ignore_ascii_case (take (length want) have) want
  else if match_case f then bool_decide (have = want)
  else eq_ignore_ascii_case have want.

(** [position] of the first matching entry. *)
Fixpoint position (p : rstr -> bool) (d : dict) : option nat :=
  match d with
  | [] => None
  | (k, _) :: d => if p k then Some O else S <$> position p d
  end.

Definition get_with (d : dict) (key : rstr) (prev : option nat) (f : flags)
    : option (nat * rstr * rstr) :=
  let start := match prev with Some p => S p | None => O end in
  i ← position (fun k => key_matches k key f) (drop start d);
  '(k, v) ← d !! (start + i)%nat;
  Some ((start + i)%nat, k, v).

Definition get (d : dict) (key : rstr) : option rstr :=
  '(_, _, v) ← get_with d key None exact; Some v.

Definition set_with (d : dict) (key val : rstr) (f : flags) : dict :=
  let existing :=
    if multikey f then None else
      i ← position (fun k => key_matches k key f) d; e ← d !! i; Some (i, e) in
  match existing with
  | Some (i, (k, v)) =>
    if dont_overwrite f then d
    else if append f then <[i := (k, v ++ val)]> d
    else <[i := (k, val)]> d
  | None => d ++ [(key, val)]
  end.

Definition set (d : dict) (key val : rstr) : dict := set_with d key val exact.

Definition remove (d : dict) (key : rstr) : option (rstr * dict) :=
  i ← position (fun k => bool_decide (k = key)) d;
  '(_, v) ← d !! i;
  Some (v, take i d ++ drop (S i) d).

(** The pairs of [parse_string]; the dictionary keeps what earlier pairs set. *)
Fixpoint parse_pairs (pairs : list rstr) (kv_sep : rstr) (f : flags) (d : dict)
    : result escape_error unit * dict :=
  match pairs with
  | [] => (Ok tt, d)
  | p :: pairs =>
    if bool_decide (p = []) then parse_pairs pairs kv_sep f d else
    match
      (o ← split_once_raw p kv_sep;
       match o with
       | Some (k, v) => k ← unescape k; v ← unescape v; Ok (k, v)
       | None => k ← unescape p; Ok (k, [])
       end)
    with
    | Ok (k, v) => parse_pairs pairs kv_sep f (set_with d k v f)
    | Err e => (Err e, d)
    end
  end.

Definition parse_string (d : dict) (s kv_sep pairs_sep : rstr) (f : flags)
    : result escape_error unit * dict :=
  if bool_decide (s = []) then (Ok tt, d) else
  match split_raw s pairs_sep with
  | Ok pairs => parse_pairs pairs kv_sep f d
  | Err e => (Err e, d)
  end.

(** The separator goes before every entry but the first. *)
Fixpoint render (d : dict) (first : bool) (kv_sep pairs_sep : Z) : rstr :=
  match d with
  | [] => []
  | (k, v) :: d =>
    let special := [kv_sep; pairs_sep] in
    (if first then [] else [pairs_sep]) ++
    escape k special Auto ++ [kv_sep] ++ escape v special Auto ++
    render d false kv_sep pairs_sep
  end.

Definition to_string_with (d : dict) (kv_sep pairs_sep : Z) : rstr := render d true kv_sep pairs_sep.

End Dict.

(** ** Fragments *)

(** [e] is text whose quotes and escapes are closed, holding no bare separator:
    it reads as [t] and no split looks inside it. *)
Definition encodes (seps e t : rstr) : Prop :=
  forall r acc,
    unescape_loop false (e ++ r) = t ++ unescape_loop false r /\
    split_loop seps false acc (e ++ r) = split_loop seps false (acc ++ e) r /\
    once_loop seps false acc (e ++ r) = once_loop seps false (acc ++ e) r.

Lemma encodes_nil seps : encodes seps [] [].
Proof. intros r acc. by rewrite app_nil_r. Qed.

Lemma encodes_app seps e1 e2 t1 t2 :
  encodes seps e1 t1 -> encodes seps e2 t2 -> encodes seps (e1 ++ e2) (t1 ++ t2).
Proof.
  intros H1 H2 r acc. rewrite <- !app_assoc.
  destruct (H1 (e2 ++ r) acc) as (-> & -> & ->). destruct (H2 r (acc ++ e1)) as (-> & -> & ->).
  by rewrite <- !app_assoc.
Qed.

(** A character with no meaning at this level. *)
Lemma encodes_char seps c :
  c <> quote -> c <> backslash -> contains seps c = false -> encodes seps [c] [c].
Proof.
  intros Hq Hb Hs r acc. cbn [app unescape_loop split_loop once_loop].
  rewrite (proj2 (Z.eqb_neq c quote)), (proj2 (Z.eqb_neq c backslash)), Hs by done. done.
Qed.

Lemma encodes_escaped seps c : encodes seps [backslash; c] [c].
Proof. intros r acc. done. Qed.

Lemma not_contains s c : (forall x, In x s -> x <> c) -> contains s c = false.
Proof.
  intros H. apply not_true_iff_false. intros E. apply existsb_exists in E as (x & Hx & E).
  apply Z.eqb_eq in E. by apply (H x).
Qed.

Lemma contains_In s c : contains s c = true <-> In c s.
Proof.
  unfold contains. rewrite existsb_exists. split.
  - intros (x & Hx & E). by apply Z.eqb_eq in E as ->.
  - intros H. exists c. by rewrite Z.eqb_refl.
Qed.

Lemma encodes_backslash special seps s :
  (forall c, In c seps -> In c special) -> encodes seps (escape_backslash s special) s.
Proof.
  intros Hs. unfold escape_backslash. induction s as [|c s IH]; [apply encodes_nil|].
  cbn [map concat]. apply (encodes_app seps _ _ [c] s); [|done].
  destruct (is_special special c) eqn:E; [apply encodes_escaped|].
  unfold is_special in E. apply orb_false_iff in E as [E E3]. apply orb_false_iff in E as [E1 E2].
  breflect. apply encodes_char; [done|done|].
  apply not_true_iff_false. intros Hc. apply not_true_iff_false in E3. apply E3.
  apply contains_In, Hs, contains_In, Hc.
Qed.

Lemma encodes_bare special seps s :
  (forall c, In c seps -> In c special) -> needs_escaping s special = false -> encodes seps s s.
Proof.
  intros Hs Hn. replace s with (escape_backslash s special) at 1; [by apply encodes_backslash|].
  unfold escape_backslash. induction s as [|c s IH]; [done|]. cbn [map concat].
  unfold needs_escaping in Hn. cbn [existsb] in Hn. apply orb_false_iff in Hn as [-> Hn].
  simpl. by rewrite IH.
Qed.

(** Inside quotes every character but the quote stands for itself. *)
Lemma quoted_body seps s r acc :
  let body := concat (map quote_char s) in
  unescape_loop true (body ++ r) = s ++ unescape_loop true r /\
  split_loop seps true acc (body ++ r) = split_loop seps true (acc ++ body) r /\
  once_loop seps true acc (body ++ r) = once_loop seps true (acc ++ body) r.
Proof.
  revert acc. induction s as [|c s IH]; intros acc; cbv zeta; cbn [map concat];
    [by rewrite app_nil_r|].
  rewrite <- !app_assoc. destruct (Z.eqb_spec c quote) as [->|Hc].
  - change (quote_char quote) with [quote; backslash; quote; quote]. cbn [app].
    cbn [unescape_loop split_loop once_loop]. change (quote =? quote) with true. cbn [negb].
    change (backslash =? quote) with false. change (backslash =? backslash) with true. cbn [andb negb].
    rewrite <- !app_assoc. cbn [app].
    destruct (IH (acc ++ [quote; backslash; quote; quote])) as (-> & -> & ->).
    rewrite <- !app_assoc. done.
  - assert (quote_char c = [c]) as -> by (unfold quote_char; by rewrite (proj2 (Z.eqb_neq c quote))).
    cbn [app unescape_loop split_loop once_loop]. rewrite (proj2 (Z.eqb_neq c quote)) by done.
    cbn [negb]. rewrite !andb_false_r. cbn [andb].
    destruct (IH (acc ++ [c])) as (-> & -> & ->). rewrite <- !app_assoc. done.
Qed.

Lemma encodes_quote seps s : encodes seps (escape_quote s) s.
Proof.
  intros r acc. unfold escape_quote. rewrite <- !app_assoc. cbn [app].
  cbn [unescape_loop split_loop once_loop]. change (quote =? quote) with true. cbn [negb].
  destruct (quoted_body seps s (quote :: r) (acc ++ [quote])) as (-> & -> & ->).
  cbn [unescape_loop split_loop once_loop]. change (quote =? quote) with true. cbn [negb].
  by rewrite <- !app_assoc.
Qed.

Lemma escape_encodes special seps s m :
  (forall c, In c seps -> In c special) -> encodes seps (escape s special m) s.
Proof.
  intros Hs. destruct m; cbn [escape].
  - destruct (needs_escaping s special) eqn:E; [by apply encodes_backslash|by eapply encodes_bare].
  - by apply encodes_backslash.
  - apply encodes_quote.
Qed.

Lemma encodes_unescape seps e t : encodes seps e t -> unescape_loop false e = t.
Proof.
  intros H. destruct (H [] []) as (H1 & _). by rewrite !app_nil_r in H1.
Qed.

(** Fragments joined by a separator. *)
Fixpoint join (sep : Z) (es : list rstr) : rstr :=
  match es with
  | [] => []
  | [e] => e
  | e :: es => e ++ sep :: join sep es
  end.

Lemma split_join seps sep es ts acc :
  In sep seps -> sep <> quote -> sep <> backslash -> es <> [] -> Forall2 (encodes seps) es ts ->
  split_loop seps false acc (join sep es) =
  match es with [] => [] | e :: es => (acc ++ e) :: es end.
Proof.
  intros Hin Hq Hb Hne H. revert acc Hne. induction H as [|e t es ts He Hes IH]; intros acc Hne; [done|].
  destruct es as [|e' es].
  - destruct (He [] acc) as (_ & H1 & _). rewrite app_nil_r in H1. simpl join. by rewrite H1.
  - change (join sep (e :: e' :: es)) with (e ++ sep :: join sep (e' :: es)).
    destruct (He (sep :: join sep (e' :: es)) acc) as (_ & -> & _).
    cbn [split_loop]. rewrite (proj2 (Z.eqb_neq sep quote)), (proj2 (Z.eqb_neq sep backslash)) by done.
    cbn [andb negb]. rewrite (proj2 (contains_In seps sep)) by done. by rewrite (IH [] ltac:(done)).
Qed.

(** One level of the grammar loses nothing: for every text, set of special
    characters and mode, [unescape] undoes [escape]; and pieces escaped with the
    separators among the specials, then joined, are split back into the same
    pieces, which unescape to the texts. *)
Theorem escape_roundtrip special seps sep m ts :
  In sep seps -> sep <> quote -> sep <> backslash -> (forall c, In c seps -> In c special) ->
  ts <> [] ->
  let es := map (fun t => escape t special m) ts in
  split_raw (join sep es) seps = Ok es /\ map unescape es = map Ok ts.
Proof.
  intros Hin Hq Hb Hs Hne es. split.
  - unfold split_raw. f_equal.
    assert (Forall2 (encodes seps) es ts) as H.
    { unfold es. clear Hne. induction ts as [|t ts IH]; constructor; [by apply escape_encodes|done]. }
    assert (es <> []) as Hes by (by destruct ts).
    rewrite (split_join seps sep es ts []) by done. by destruct es.
  - unfold es. rewrite map_map. apply map_ext. intros t. unfold unescape.
    by rewrite (encodes_unescape seps _ t) by (by apply escape_encodes).
Qed.

Lemma escape_roundtrip_witness :
  split_raw (str "a\:b:c:it\'s") (str ":") = Ok [str "a\:b"; str "c"; str "it\'s"] /\
  map unescape [str "a\:b"; str "c"; str "it\'s"] = map Ok [str "a:b"; str "c"; str "it's"].
Proof.
  apply (escape_roundtrip (str ":") (str ":") 58 Auto [str "a:b"; str "c"; str "it's"]);
    [by left|done|done|done|done].
Defined.

(** Neither [unescape] nor [split_raw] ever fails, whatever the quotes and the
    trailing backslash; [split_once_raw] does reject an open quote. *)
Lemma documented_errors :
  (forall s, is_ok (unescape s) = true) /\ (forall s seps, is_ok (split_raw s seps) = true) /\
  unescape (str "'ab") = Ok (str "ab") /\ split_once_raw (str "'ab") (str "=") = Err UnterminatedQuote /\
  split_once_raw (str "ab\") (str "=") = Ok None.
Proof. done. Qed.

(** ** Dictionary laws *)

Module DictLaws.

Import Dict.

(** The map a dictionary denotes: the first entry of a key wins. *)
Definition assoc (d : dict) : gmap rstr rstr := list_to_map d.

Definition keys (d : dict) : list rstr := map fst d.

(** Exact matching without repeated keys, in any of the three ways to treat a
    present key. *)
Definition single (f : flags) : bool := match_case f && negb (ignore_suffix f) && negb (multikey f).

Lemma single_matches f have want :
  single f = true -> key_matches have want f = bool_decide (have = want).
Proof.
  unfold single, key_matches. intros H. breflect.
  by replace (ignore_suffix f) with false; replace (match_case f) with true.
Qed.

Lemma position_ext p q d : (forall k, p k = q k) -> position p d = position q d.
Proof. intros H. induction d as [|[k v] d IH]; [done|]. simpl. by rewrite H, IH. Qed.

(** The value a write leaves at a present key. *)
Definition merged (f : flags) (old val : rstr) : rstr :=
  if dont_overwrite f then old else if append f then old ++ val else val.

Lemma set_with_cons f k v d key val :
  single f = true ->
  set_with ((k, v) :: d) key val f =
  if bool_decide (k = key) then (k, merged f v val) :: d else (k, v) :: set_with d key val f.
Proof.
  intros Hf. unfold set_with.
  assert (multikey f = false) as -> by (unfold single in Hf; by breflect).
  rewrite !(position_ext (fun k => key_matches k key f) (fun k => bool_decide (k = key)))
    by (intros; by apply single_matches).
  cbn [position]. destruct (bool_decide (k = key)); cbn.
  - unfold merged. destruct (dont_overwrite f); [done|]. by destruct (append f).
  - destruct (position _ d) as [i|] eqn:E; simpl; [|done].
    destruct (d !! i) as [[k' v']|] eqn:Ei; simpl; [|done].
    destruct (dont_overwrite f); [done|]. by destruct (append f).
Qed.

Lemma set_with_nil f key val : set_with [] key val f = [(key, val)].
Proof. unfold set_with. by destruct (multikey f). Qed.

Lemma set_with_assoc f d key val :
  single f = true ->
  assoc (set_with d key val f) =
  <[key := match assoc d !! key with Some old => merged f old val | None => val end]> (assoc d).
Proof.
  intros Hf. unfold assoc. induction d as [|[k v] d IH]; [by rewrite set_with_nil|].
  rewrite set_with_cons by done. case_bool_decide as Hk.
  - subst. simpl. rewrite lookup_insert_eq. by rewrite insert_insert_eq.
  - simpl. rewrite IH, lookup_insert_ne by done. by rewrite insert_insert_ne.
Qed.

Lemma set_with_keys f d key val :
  single f = true ->
  keys (set_with d key val f) = if bool_decide (key ∈ keys d) then keys d else keys d ++ [key].
Proof.
  intros Hf. unfold keys. induction d as [|[k v] d IH].
  { rewrite set_with_nil. case_bool_decide as H; [by apply not_elem_of_nil in H|done]. }
  rewrite set_with_cons by done. destruct (decide (k = key)) as [->|Hk].
  - rewrite (bool_decide_eq_true_2 (key = key)) by done.
    rewrite bool_decide_eq_true_2; [done|]. simpl. by left.
  - rewrite (bool_decide_eq_false_2 (k = key)) by done. simpl. rewrite IH. destruct (decide (key ∈ map fst d)) as [Hin|Hin].
    + rewrite (bool_decide_eq_true_2 (key ∈ map fst d)) by done.
      by rewrite bool_decide_eq_true_2 by (by right).
    + rewrite (bool_decide_eq_false_2 (key ∈ map fst d)) by done.
      rewrite bool_decide_eq_false_2; [done|]. intros Hc. apply elem_of_cons in Hc as [->|Hc]; done.
Qed.

(** The scan of [position]. *)
Lemma position_spec p d i :
  position p d = Some i <->
  (exists k v, d !! i = Some (k, v) /\ p k = true) /\
  forall j k v, (j < i)%nat -> d !! j = Some (k, v) -> p k = false.
Proof.
  revert i. induction d as [|[k v] d IH]; intros i; simpl; [split; [done|by intros [(?&?&?&_) _]]|].
  destruct (p k) eqn:Ek.
  - split.
    + intros [= <-]. split; [by exists k, v|]. intros j k' v' Hj. lia.
    + intros [(k' & v' & Hi & Hp) Hall]. destruct i as [|i]; [done|].
      specialize (Hall 0%nat k v ltac:(lia) eq_refl). congruence.
  - split.
    + intros H. apply fmap_Some in H as (i' & Hi' & ->). apply IH in Hi' as [(k' & v' & Hi & Hp) Hall].
      split; [by exists k', v'|]. intros [|j] k2 v2 Hj Hl; [by injection Hl as <- <-|].
      simpl in Hl. apply (Hall j k2 v2); [lia|done].
    + intros [(k' & v' & Hi & Hp) Hall]. destruct i as [|i].
      { injection Hi as <- <-. congruence. }
      apply fmap_Some. exists i. split; [|done]. apply IH. split; [by exists k', v'|].
      intros j k2 v2 Hj Hl. apply (Hall (S j) k2 v2); [lia|done].
Qed.

Lemma position_None p d :
  position p d = None <-> forall i k v, d !! i = Some (k, v) -> p k = false.
Proof.
  induction d as [|[k v] d IH]; simpl; [by split|]. destruct (p k) eqn:Ek.
  - split; [done|]. intros H. specialize (H 0%nat k v eq_refl). congruence.
  - rewrite fmap_None, IH. split.
    + intros H [|i] k' v' Hi; [by injection Hi as <- <-|by apply (H i k' v')].
    + intros H i k' v' Hi. by apply (H (S i) k' v').
Qed.

Lemma get_cons k v d key :
  get ((k, v) :: d) key = if bool_decide (k = key) then Some v else get d key.
Proof.
  unfold get, get_with. rewrite !drop_0. cbn [position]. change (key_matches k key exact) with (bool_decide (k = key)).
  case_bool_decide; [done|]. destruct (position _ d) as [i|]; simpl; [|done].
  by destruct (d !! i) as [[k' v']|].
Qed.

Lemma get_assoc d key : get d key = assoc d !! key.
Proof.
  induction d as [|[k v] d IH]; [done|]. rewrite get_cons. unfold assoc. simpl. case_bool_decide as Hk.
  - subst. by rewrite lookup_insert_eq.
  - by rewrite lookup_insert_ne, IH by done.
Qed.

Lemma remove_cons k v d key :
  remove ((k, v) :: d) key =
  if bool_decide (k = key) then Some (v, d) else '(w, d') ← remove d key; Some (w, (k, v) :: d').
Proof.
  unfold remove. cbn [position]. case_bool_decide; [done|].
  destruct (position _ d) as [i|]; simpl; [|done]. by destruct (d !! i) as [[k' v']|].
Qed.

Lemma filter_absent (key : rstr) (l : list rstr) : key ∉ l -> filter (fun k => k <> key) l = l.
Proof.
  induction l as [|x l IH]; intros Hn; [done|]. apply not_elem_of_cons in Hn as [Hx Hn].
  rewrite filter_cons_True by done. by rewrite IH.
Qed.

Lemma remove_assoc d key :
  NoDup (keys d) ->
  match remove d key with
  | Some (v, d') =>
    assoc d !! key = Some v /\ assoc d' = delete key (assoc d) /\
    keys d' = filter (fun k => k <> key) (keys d)
  | None => assoc d !! key = None
  end.
Proof.
  unfold assoc, keys. induction d as [|[k v] d IH]; intros Hnd; [done|]. rewrite remove_cons.
  cbn [map fst] in Hnd. apply NoDup_cons in Hnd as [Hk Hnd]. case_bool_decide as Hkey.
  - subst. cbn [list_to_map foldr map fst]. simpl. split; [by apply lookup_insert_eq|]. split.
    + rewrite delete_insert_eq, delete_id; [done|]. by apply not_elem_of_list_to_map.
    + rewrite filter_cons_False by naive_solver. symmetry. by apply filter_absent.
  - specialize (IH Hnd). destruct (remove d key) as [[w d']|]; cbn [mbind option_bind];
      rewrite !list_to_map_cons; cbn [map fst].
    + destruct IH as (H1 & H2 & H3). rewrite lookup_insert_ne by done. split; [done|]. split.
      * rewrite H2. by rewrite delete_insert_ne.
      * by rewrite filter_cons_True, H3 by done.
    + by rewrite lookup_insert_ne.
Qed.

(** C7. The dictionary is an insertion-ordered map: [get] reads the map it
    denotes; an exact write inserts, keeps or appends as its flags say, leaves
    every other key alone, keeps the place of a present key and puts a new one
    last; [remove] deletes; and [get_with] returns the first match after the
    given entry. *)
Theorem dict_refines_map f d key val prev :
  single f = true -> NoDup (keys d) ->
  get d key = assoc d !! key /\
  assoc (set_with d key val f) =
    <[key := match assoc d !! key with Some old => merged f old val | None => val end]> (assoc d) /\
  keys (set_with d key val f) = (if bool_decide (key ∈ keys d) then keys d else keys d ++ [key]) /\
  match remove d key with
  | Some (v, d') => assoc d !! key = Some v /\ assoc d' = delete key (assoc d) /\
                    keys d' = filter (fun k => k <> key) (keys d)
  | None => assoc d !! key = None
  end /\
  (forall i k v, get_with d key (Some prev) f = Some (i, k, v) <->
     (prev < i)%nat /\ d !! i = Some (k, v) /\ k = key /\
     forall j w, (prev < j < i)%nat -> d !! j <> Some (key, w)).
Proof.
  intros Hf Hnd. split; [apply get_assoc|]. split; [by apply set_with_assoc|].
  split; [by apply set_with_keys|]. split; [by apply remove_assoc|].
  intros i k v. unfold get_with.
  rewrite (position_ext _ (fun k => bool_decide (k = key))) by (intros; by apply single_matches).
  destruct (position _ (drop (S prev) d)) as [n|] eqn:E; cbn.
  - apply position_spec in E as [(k' & v' & Hi & Hk') Hall]. rewrite lookup_drop in Hi.
    apply bool_decide_eq_true_1 in Hk' as ->. change (S prev + n)%nat with (S (prev + n)) in Hi.
    rewrite Hi. cbn. split.
    + intros [= <- <- <-]. split; [lia|]. split; [done|]. split; [done|]. intros j w Hj Hl.
      specialize (Hall (j - S prev)%nat key w). rewrite lookup_drop in Hall.
      replace (S prev + (j - S prev))%nat with j in Hall by lia.
      specialize (Hall ltac:(lia) Hl). by apply bool_decide_eq_false_1 in Hall.
    + intros (H1 & H2 & -> & H3). destruct (Nat.lt_trichotomy i (S (prev + n))) as [Hlt|[->|Hgt]].
      * specialize (Hall (i - S prev)%nat key v). rewrite lookup_drop in Hall.
        replace (S prev + (i - S prev))%nat with i in Hall by lia.
        specialize (Hall ltac:(lia) H2). by apply bool_decide_eq_false_1 in Hall.
      * congruence.
      * exfalso. apply (H3 (S (prev + n)) v'); [lia|done].
  - rewrite position_None in E. split; [done|]. intros (H1 & H2 & -> & _).
    specialize (E (i - S prev)%nat key v). rewrite lookup_drop in E.
    replace (S prev + (i - S prev))%nat with i in E by lia.
    specialize (E H2). by apply bool_decide_eq_false_1 in E.
Qed.

Lemma dict_refines_map_witness :
  let d := [(str "title", str "A"); (str "artist", str "B")] in
  keys (set_with d (str "title") (str "x") exact) = [str "title"; str "artist"] /\
  get (set_with d (str "title") (str "x") exact) (str "title") = Some (str "x").
Proof.
  destruct (dict_refines_map exact [(str "title", str "A"); (str "artist", str "B")]
    (str "title") (str "x") 0) as (_ & Ha & Hk & _).
  - done.
  - by apply (bool_decide_eq_true_1 (NoDup [str "title"; str "artist"])); vm_compute.
  - split; [exact Hk|]. rewrite get_assoc, Ha. by apply lookup_insert_eq.
Defined.

(** Writes that always push. *)
Definition pushing : flags := DictFlags true false false false true.

Lemma render_join d kv ps :
  render d false kv ps =
  concat (map (fun '(k, v) => ps :: escape k [kv; ps] Auto ++ kv :: escape v [kv; ps] Auto) d).
Proof.
  induction d as [|[k v] d IH]; [done|]. cbn [render map concat]. rewrite IH.
  cbn [app]. by rewrite <- app_assoc.
Qed.

Definition pair_text (kv ps : Z) (e : rstr * rstr) : rstr :=
  escape (fst e) [kv; ps] Auto ++ kv :: escape (snd e) [kv; ps] Auto.

Lemma to_string_join d kv ps : to_string_with d kv ps = join ps (map (pair_text kv ps) d).
Proof.
  unfold to_string_with. destruct d as [|[k v] d]; [done|]. cbn [render app].
  rewrite render_join. revert k v. induction d as [|[k' v'] d IH]; intros k v.
  - cbn [map concat join]. unfold pair_text. cbn [fst snd]. by rewrite app_nil_r.
  - change (join ps (map (pair_text kv ps) ((k, v) :: (k', v') :: d))) with
      (pair_text kv ps (k, v) ++ ps :: join ps (map (pair_text kv ps) ((k', v') :: d))).
    rewrite <- IH. cbn [map concat]. unfold pair_text. cbn [fst snd].
    rewrite <- !app_assoc. cbn [app]. by rewrite <- !app_assoc.
Qed.

Section separators.
  Context (kv ps : Z).
  Context (Hkp : kv <> ps) (Hkq : kv <> quote) (Hkb : kv <> backslash)
    (Hpq : ps <> quote) (Hpb : ps <> backslash).

Lemma pair_encodes e : encodes [ps] (pair_text kv ps e) (fst e ++ kv :: snd e).
Proof using All.
  unfold pair_text. apply encodes_app; [apply escape_encodes; simpl; intuition|].
  apply (encodes_app [ps] [kv] _ [kv]).
  - apply encodes_char; [done|done|]. apply not_contains. simpl. intros x [<-|[]]. congruence.
  - apply escape_encodes. simpl. intuition.
Qed.

Lemma pair_parses e :
  (o ← split_once_raw (pair_text kv ps e) [kv];
   match o with
   | Some (k, v) => k ← unescape k; v ← unescape v; Ok (k, v)
   | None => k ← unescape (pair_text kv ps e); Ok (k, [])
   end) = Ok e.
Proof using All.
  destruct e as [k v]. unfold pair_text, split_once_raw. cbn [fst snd].
  assert (encodes [kv] (escape k [kv; ps] Auto) k) as Hk by (apply escape_encodes; simpl; intuition).
  assert (encodes [kv] (escape v [kv; ps] Auto) v) as Hv by (apply escape_encodes; simpl; intuition).
  destruct (Hk (kv :: escape v [kv; ps] Auto) []) as (_ & _ & ->).
  cbn [once_loop]. rewrite (proj2 (Z.eqb_neq kv quote)), (proj2 (Z.eqb_neq kv backslash)) by done.
  cbn [andb negb]. rewrite (proj2 (contains_In [kv] kv)) by (by left). cbn [mbind result_bind app].
  unfold unescape. cbn [mbind result_bind]. by rewrite (encodes_unescape _ _ _ Hk), (encodes_unescape _ _ _ Hv).
Qed.

Lemma parse_pairs_push d d0 :
  parse_pairs (map (pair_text kv ps) d) [kv] pushing d0 = (Ok tt, d0 ++ d).
Proof using All.
  revert d0. induction d as [|e d IH]; intros d0; [by rewrite app_nil_r|]. cbn [map parse_pairs].
  rewrite bool_decide_eq_false_2.
  2:{ unfold pair_text. intros E. by apply app_nil in E as [_ E]. }
  rewrite pair_parses. destruct e as [k v]. rewrite IH. unfold set_with. cbn [pushing multikey].
  by rewrite <- app_assoc.
Qed.

(** A rendered dictionary parses back: whatever the keys and values hold,
    repeated keys included, [parse_string] of [to_string_with] restores every
    entry in order, for any two distinct separators that are not the quote or
    the backslash. *)
Theorem dict_string_roundtrip d :
  parse_string [] (to_string_with d kv ps) [kv] [ps] pushing = (Ok tt, d).
Proof using All.
  unfold parse_string. rewrite to_string_join. destruct d as [|e d]; [done|].
  case_bool_decide as Hnil.
  { exfalso. destruct d as [|e' d]; simpl in Hnil; unfold pair_text in Hnil;
      by repeat (apply app_nil in Hnil as [? Hnil]). }
  unfold split_raw. rewrite (split_join [ps] ps _ (map (fun e => fst e ++ kv :: snd e) (e :: d)));
    [|by left|done|done|done|].
  - apply (parse_pairs_push (e :: d) []).
  - apply Forall2_fmap, Forall_Forall2_diag, Forall_forall. intros x _. apply pair_encodes.
Qed.

End separators.

Lemma dict_string_roundtrip_witness :
  parse_string [] (str "a\=b=c\:d:a\=b=it\'s:x=") (str "=") (str ":") pushing =
  (Ok tt, [(str "a=b", str "c:d"); (str "a=b", str "it's"); (str "x", [])]).
Proof.
  apply (dict_string_roundtrip 61 58 ltac:(done) ltac:(done) ltac:(done) ltac:(done) ltac:(done)
    [(str "a=b", str "c:d"); (str "a=b", str "it's"); (str "x", [])]).
Defined.

End DictLaws.
