(* ===== verification/Interleave.v ===== *)
(** * Interleave: the muxer's packet order and timestamp chain

    [src/crates/format/vaco-format-core/src/interleave.rs]. The queue holds one
    first-in first-out line per stream and decides which head goes out next. The
    chain a packet passes before it is queued is in MuxTs. Of a packet
    only the fields this module reads are modelled; everything else is its
    [body], which nothing here touches. *)

From Stdlib Require Import ZArith Lia Ascii String.
From stdpp Require Import prelude strings sorting.
From S2P Require Import Prelude Rational Time.

Record packet : Type := Packet {
  stream_index : Z;
  pts : timestamp;
  dts : timestamp;
  duration_ts : option Z;
  duration : Time.duration;
  len : Z;
  body : Z;
}.

Inductive error : Type := InvalidData (why : rstr).

Definition TIME_BASE_Q : rational := MICROSECONDS.

(** ** Options *)

(** The options this module reads. *)
Record format_options : Type := FormatOptions {
  chunk_duration : Z;
  chunk_size : Z;
  audio_preload : Z;
  max_interleave_delta : Z;
  avoid_negative_ts : Z;
  output_ts_offset : Time.duration;
}.

Record chunk_policy : Type := ChunkPolicy {
  max_duration_us : Z;
  max_size_bytes : Z;
  audio_preload_us : Z;
}.

Definition from_options (o : format_options) : chunk_policy :=
  ChunkPolicy (chunk_duration o) (default 0 (checked_u 64 (chunk_size o))) (audio_preload o).

Definition is_chunked (c : chunk_policy) : bool :=
  (0 <? max_duration_us c) || (0 <? max_size_bytes c).

(** ** The queue *)

Record queued : Type := Queued { pkt : packet; key_us : Z; seq : Z }.

Record queue : Type := InterleaveQueue {
  per_stream : list (list queued);
  live : list bool;
  time_bases : list rational;
  preload : list bool;
  max_delta_us : Z;
  chunk : chunk_policy;
  seq_counter : Z;
  newest_us : option Z;
  run_stream : option nat;
  run_bytes : Z;
  run_start_us : option Z;
  notimestamps : bool;
}.

Definition new (stream_count : nat) (o : format_options) : queue :=
  InterleaveQueue (replicate stream_count []) (replicate stream_count true)
    (replicate stream_count TIME_BASE_Q) (replicate stream_count false)
    (max_interleave_delta o) (from_options o) 0 None None 0 None false.

Definition with_lines (q : queue) (ps : list (list queued)) : queue :=
  InterleaveQueue ps (live q) (time_bases q) (preload q) (max_delta_us q) (chunk q)
    (seq_counter q) (newest_us q) (run_stream q) (run_bytes q) (run_start_us q) (notimestamps q).

Definition with_run (q : queue) (s : option nat) (bytes : Z) (start : option Z) : queue :=
  InterleaveQueue (per_stream q) (live q) (time_bases q) (preload q) (max_delta_us q) (chunk q)
    (seq_counter q) (newest_us q) s bytes start (notimestamps q).

Definition set_time_base (q : queue) (i : Z) (tb : rational) : queue :=
  InterleaveQueue (per_stream q) (live q) (<[Z.to_nat i := tb]> (time_bases q)) (preload q)
    (max_delta_us q) (chunk q) (seq_counter q) (newest_us q) (run_stream q) (run_bytes q)
    (run_start_us q) (notimestamps q).

Definition set_preloaded (q : queue) (i : Z) (b : bool) : queue :=
  InterleaveQueue (per_stream q) (live q) (time_bases q) (<[Z.to_nat i := b]> (preload q))
    (max_delta_us q) (chunk q) (seq_counter q) (newest_us q) (run_stream q) (run_bytes q)
    (run_start_us q) (notimestamps q).

Definition end_stream (q : queue) (i : Z) : queue :=
  InterleaveQueue (per_stream q) (<[Z.to_nat i := false]> (live q)) (time_bases q) (preload q)
    (max_delta_us q) (chunk q) (seq_counter q) (newest_us q) (run_stream q) (run_bytes q)
    (run_start_us q) (notimestamps q).

Definition without_timestamps (q : queue) : queue :=
  InterleaveQueue (per_stream q) (live q) (time_bases q) (preload q) (max_delta_us q) (chunk q)
    (seq_counter q) (newest_us q) (run_stream q) (run_bytes q) (run_start_us q) true.

Definition pending (q : queue) : nat := sum_list (map length (per_stream q)).

Definition empty_line (l : list queued) : bool := match l with [] => true | _ => false end.

Definition is_empty (q : queue) : bool := forallb empty_line (per_stream q).

Definition live_streams (q : queue) : nat := length (filter (fun l => l = true) (live q)).

Definition push (q : queue) (p : packet) : result error queue :=
  let i := Z.to_nat (stream_index p) in
  if negb (Z.of_nat i <? Z.of_nat (length (per_stream q))) then
    Err (InvalidData (str "packet names a stream the muxer does not have"))
  else
    let tb := default TIME_BASE_Q (time_bases q !! i) in
    match
      (match rescale (dts p) tb TIME_BASE_Q rounding_default with
       | Some t => Some t
       | None => if notimestamps q then Some 0 else None
       end)
    with
    | None => Err (InvalidData (str "packet has no dts; interleaving cannot order it"))
    | Some dts_us =>
      let key := if default false (preload q !! i) then sat_i 64 (dts_us - audio_preload_us (chunk q))
                 else dts_us in
      let newest := Some (match newest_us q with Some n => Z.max n dts_us | None => dts_us end) in
      let s := sat_u 64 (seq_counter q + 1) in
      let line := default [] (per_stream q !! i) in
      Ok (InterleaveQueue (<[i := line ++ [Queued p key s]]> (per_stream q)) (live q) (time_bases q)
            (preload q) (max_delta_us q) (chunk q) s newest (run_stream q) (run_bytes q)
            (run_start_us q) (notimestamps q))
    end.

(** The heads of the non-empty lines: stream, key and arrival. *)
Fixpoint heads_from (i : nat) (ls : list (list queued)) : list (nat * Z * Z) :=
  match ls with
  | [] => []
  | l :: ls =>
    match l with
    | h :: _ => (i, key_us h, seq h) :: heads_from (S i) ls
    | [] => heads_from (S i) ls
    end
  end.

(** Key first, then stream, then arrival. *)
Definition head_lt (a b : nat * Z * Z) : bool :=
  let '(i, k, s) := a in let '(j, l, t) := b in
  (k <? l) || ((k =? l) && ((i <? j)%nat || ((i =? j)%nat && (s <? t)))).

(** [Iterator::min_by]: the first of the least. *)
Definition min_by (hs : list (nat * Z * Z)) : option (nat * Z * Z) :=
  match hs with
  | [] => None
  | h :: hs => Some (fold_left (fun best h => if head_lt h best then h else best) hs h)
  end.

Definition oldest (q : queue) : option (nat * Z * Z) := min_by (heads_from 0 (per_stream q)).

Fixpoint ready_from (i : nat) (live : list bool) (ps : list (list queued)) : bool :=
  match live with
  | [] => true
  | l :: live =>
    (if l then match ps !! i with Some (_ :: _) => true | _ => false end else true) &&
    ready_from (S i) live ps
  end.

Definition all_ready (q : queue) : bool := ready_from 0 (live q) (per_stream q).

Definition sparse_escape (q : queue) : bool :=
  match newest_us q, oldest q with
  | Some newest, Some (_, old, _) => max_delta_us q <? sat_i 64 (newest - old)
  | _, _ => false
  end.

Definition run_exhausted (q : queue) (run : nat) : bool :=
  ((0 <? max_size_bytes (chunk q)) && (max_size_bytes (chunk q) <=? run_bytes q)) ||
  ((0 <? max_duration_us (chunk q)) &&
   match run_start_us q, (l ← per_stream q !! run; head l) with
   | Some start, Some h => max_duration_us (chunk q) <=? sat_i 64 (key_us h - start)
   | _, _ => false
   end).

Definition pick_stream (q : queue) : option nat * queue :=
  match (if is_chunked (chunk q) then run_stream q else None) with
  | Some run =>
    if negb (empty_line (default [] (per_stream q !! run))) && negb (run_exhausted q run) &&
       negb (sparse_escape q)
    then (Some run, q)
    else
      let q := with_run q None (run_bytes q) (run_start_us q) in
      ((fun h => fst (fst h)) <$> oldest q, q)
  | None =>
    match oldest q with
    | Some (i, _, _) => (Some i, with_run q None (run_bytes q) (run_start_us q))
    | None => (None, q)
    end
  end.

Definition advance_run (q : queue) (pick : nat) (taken : queued) : queue :=
  if bool_decide (run_stream q = Some pick) then
    with_run q (run_stream q) (sat_u 64 (run_bytes q + len (pkt taken))) (run_start_us q)
  else with_run q (Some pick) (len (pkt taken)) (Some (key_us taken)).

(** [next], keeping the queue's record of the packet. *)
Definition next_queued (q : queue) (flush : bool) : option queued * queue :=
  if is_empty q then (None, with_run q None (run_bytes q) (run_start_us q)) else
  if negb flush && negb (all_ready q) && negb (sparse_escape q) then (None, q) else
  match pick_stream q with
  | (None, q) => (None, q)
  | (Some pick, q) =>
    match per_stream q !! pick with
    | Some (out :: rest) =>
      (Some out, advance_run (with_lines q (<[pick := rest]> (per_stream q))) pick out)
    | _ => (None, q)
    end
  end.

Definition next (q : queue) (flush : bool) : option packet * queue :=
  let (o, q) := next_queued q flush in (pkt <$> o, q).

(** [while let Some(p) = self.next(true)]; each round takes one packet. *)
Fixpoint drain_loop (fuel : nat) (q : queue) : list queued * queue :=
  match fuel with
  | O => ([], q)
  | S fuel =>
    match next_queued q true with
    | (Some x, q) => let (xs, q) := drain_loop fuel q in (x :: xs, q)
    | (None, q) => ([], q)
    end
  end.

Definition drain (q : queue) : list packet * queue :=
  let (xs, q) := drain_loop (S (pending q)) q in (map pkt xs, q).

Definition interleave_per_dts (q : queue) (p : option packet) (flush : bool)
    : result error (option packet) * queue :=
  match (match p with Some p => push q p | None => Ok q end) with
  | Err e => (Err e, q)
  | Ok q => let (o, q) := next q flush in (Ok o, q)
  end.

Definition interleave_none (q : queue) (p : option packet) (flush : bool)
    : result error (option packet) * queue :=
  match next q true with
  | (Some held, q) =>
    match (match p with Some p => push q p | None => Ok q end) with
    | Err e => (Err e, q)
    | Ok q => (Ok (Some held), q)
    end
  | (None, q) => (Ok p, q)
  end.

(** ** The least head *)

Definition head_le (a b : nat * Z * Z) : Prop := head_lt b a = false.

Lemma head_lt_spec i k s j l t :
  head_lt (i, k, s) (j, l, t) = true <->
  k < l \/ k = l /\ ((i < j)%nat \/ i = j /\ s < t).
Proof.
  unfold head_lt. destruct (Z.ltb_spec k l), (Z.eqb_spec k l), (Nat.ltb_spec i j), (Nat.eqb_spec i j),
    (Z.ltb_spec s t); simpl; split; try done; lia.
Qed.

Lemma head_le_spec i k s j l t :
  head_le (i, k, s) (j, l, t) <-> k < l \/ k = l /\ ((i < j)%nat \/ i = j /\ s <= t).
Proof.
  unfold head_le. rewrite <- not_true_iff_false, head_lt_spec. lia.
Qed.

Lemma min_by_least hs m : min_by hs = Some m -> m ∈ hs /\ forall h, h ∈ hs -> head_le m h.
Proof.
  destruct hs as [|h0 hs]; [done|]. intros [= <-].
  assert (forall a b c, head_le a b -> head_lt c a = true -> head_le c b) as Htr.
  { intros [[i k] s] [[j l] t] [[i' k'] s'] H1 H2. apply head_le_spec in H1. apply head_lt_spec in H2.
    apply head_le_spec. lia. }
  assert (forall a, head_le a a) as Hrefl by (intros [[i k] s]; apply head_le_spec; lia).
  assert (forall best, let m := fold_left (fun best h => if head_lt h best then h else best) hs best in
    (m = best \/ m ∈ hs) /\ head_le m best /\ forall h, h ∈ hs -> head_le m h) as Hfold.
  { induction hs as [|h hs IH]; intros best; cbn [fold_left].
    - split; [by left|]. split; [done|]. intros h Hh. by apply not_elem_of_nil in Hh.
    - destruct (head_lt h best) eqn:E.
      + destruct (IH h) as (Hm & Hle & Hall). split; [right; destruct Hm as [->|?]; by constructor|].
        split.
        * clear - Hle E Htr. destruct (fold_left _ hs h) as [[i k] s], best as [[j l] t], h as [[a b] c].
          apply head_le_spec in Hle. apply head_lt_spec in E. apply head_le_spec. lia.
        * intros h' Hh'. apply elem_of_cons in Hh' as [->|Hh']; auto.
      + destruct (IH best) as (Hm & Hle & Hall). split; [destruct Hm as [->|?]; [by left|right; by constructor]|].
        split; [done|]. intros h' Hh'. apply elem_of_cons in Hh' as [->|Hh']; [|auto].
        clear - Hle E. destruct (fold_left _ hs best) as [[i k] s], best as [[j l] t], h as [[a b] c].
        change (head_le (j, l, t) (a, b, c)) in E. apply head_le_spec in E, Hle. apply head_le_spec. lia. }
  destruct (Hfold h0) as (Hm & Hle & Hall). split.
  - destruct Hm as [->|?]; by constructor.
  - intros h Hh. apply elem_of_cons in Hh as [->|Hh]; auto.
Qed.

(** The head of a line, as [oldest] sees it. *)
Definition head_of (i : nat) (x : queued) : nat * Z * Z := (i, key_us x, seq x).

Lemma heads_from_spec b ls h :
  h ∈ heads_from b ls <->
  exists i x l, ls !! i = Some (x :: l) /\ h = head_of (b + i) x.
Proof.
  revert b. induction ls as [|l ls IH]; intros b; cbn [heads_from].
  { split; [intros H; by apply not_elem_of_nil in H|by intros (i & x & l & H & _)]. }
  assert (h ∈ heads_from (S b) ls <-> exists i x k, (l :: ls) !! (S i) = Some (x :: k) /\ h = head_of (b + S i) x)
    as Htail.
  { rewrite IH. split; intros (i & x & k & H1 & H2); exists i, x, k; (split; [done|]);
      rewrite H2; f_equal; lia. }
  destruct l as [|y l].
  - rewrite Htail. split.
    + intros (i & x & k & H1 & H2). by exists (S i), x, k.
    + intros ([|i] & x & k & H1 & H2); [done|]. by exists i, x, k.
  - rewrite elem_of_cons, Htail. split.
    + intros [->|(i & x & k & H1 & H2)]; [|by exists (S i), x, k].
      exists 0%nat, y, l. split; [done|]. unfold head_of. do 2 f_equal. lia.
    + intros ([|i] & x & k & H1 & H2); [|right; by exists i, x, k]. left.
      injection H1 as <- <-. rewrite H2. unfold head_of. do 2 f_equal. lia.
Qed.

(** A stream's line, empty for a stream the queue does not have. *)
Definition line (q : queue) (i : nat) : list queued := default [] (per_stream q !! i).

Lemma oldest_least q i k s :
  oldest q = Some (i, k, s) ->
  (exists x l, per_stream q !! i = Some (x :: l) /\ k = key_us x /\ s = seq x) /\
  forall j y l, line q j = y :: l -> head_le (i, k, s) (head_of j y).
Proof.
  intros H. apply min_by_least in H as [Hin Hall]. split.
  - apply heads_from_spec in Hin as (i' & x & l & Hl & E). injection E as -> -> ->. by exists x, l.
  - intros j y l Hj. apply Hall, heads_from_spec. exists j, y, l. split; [|done].
    unfold line in Hj. destruct (per_stream q !! j); simpl in Hj; [by f_equal|done].
Qed.

Lemma is_empty_line q : is_empty q = true <-> forall i, line q i = [].
Proof.
  unfold is_empty, line. rewrite forallb_forall. split.
  - intros H i. destruct (per_stream q !! i) as [l|] eqn:E; [|done]. simpl.
    specialize (H l). destruct l; [done|]. discriminate H. apply list_elem_of_In.
    by eapply list_elem_of_lookup_2.
  - intros H l Hl. apply list_elem_of_In, list_elem_of_lookup_1 in Hl as [i Hi].
    specialize (H i). rewrite Hi in H. simpl in H. by subst.
Qed.

Lemma oldest_exists q i : line q i <> [] -> exists h, oldest q = Some h.
Proof.
  intros Hl. unfold oldest, min_by. destruct (heads_from 0 (per_stream q)) eqn:E; [|by eexists].
  exfalso. unfold line in Hl. destruct (per_stream q !! i) as [[|x l]|] eqn:Ei; [done| |done].
  assert (head_of (0 + i) x ∈ heads_from 0 (per_stream q)) as H
    by (apply heads_from_spec; by exists i, x, l).
  rewrite E in H. by apply not_elem_of_nil in H.
Qed.

(** Choosing a stream only touches the run. *)
Lemma pick_stream_spec q :
  is_empty q = false ->
  exists i q', pick_stream q = (Some i, q') /\ line q i <> [] /\
    per_stream q' = per_stream q /\ chunk q' = chunk q /\
    (is_chunked (chunk q) = false -> exists k s, oldest q = Some (i, k, s)).
Proof.
  intros He. assert (exists j, line q j <> []) as [j Hj].
  { apply not_true_iff_false in He. rewrite is_empty_line in He.
    destruct (decide (Forall (fun l => l = []) (per_stream q))) as [Hall|Hn].
    - exfalso. apply He. intros i. unfold line. destruct (per_stream q !! i) eqn:E; [|done].
      by apply (Forall_lookup_1 _ _ _ _ Hall E).
    - apply not_Forall_Exists in Hn; [|apply _]. apply Exists_exists in Hn as (l & Hl & Hne).
      apply list_elem_of_lookup_1 in Hl as [i Hi]. exists i. unfold line. by rewrite Hi. }
  destruct (oldest_exists q j Hj) as [[[i k] s] Ho].
  assert (line q i <> []) as Hi.
  { apply oldest_least in Ho as [(x & l & Hl & _) _]. unfold line. by rewrite Hl. }
  unfold pick_stream. destruct (is_chunked (chunk q)) eqn:Ec.
  - destruct (run_stream q) as [run|].
    + destruct (negb (empty_line (default [] (per_stream q !! run))) && _ && _) eqn:Ev.
      * exists run, q. split; [done|]. split; [|done]. breflect. unfold line.
        by destruct (default [] (per_stream q !! run)).
      * exists i, (with_run q None (run_bytes q) (run_start_us q)).
        assert (oldest (with_run q None (run_bytes q) (run_start_us q)) = oldest q) as -> by done.
        rewrite Ho. by split.
    + rewrite Ho. by eexists i, _.
  - rewrite Ho. eexists i, _. split; [done|]. split; [done|]. split; [done|]. split; [done|]. by exists k, s.
Qed.

Lemma advance_run_same q i x :
  per_stream (advance_run q i x) = per_stream q /\ chunk (advance_run q i x) = chunk q.
Proof. unfold advance_run. by case_bool_decide. Qed.

(** Taking a packet: nothing is withheld once the queue is ready or flushed, and
    what comes out is the head of one line, the others unchanged. *)
Lemma next_queued_spec q flush :
  match next_queued q flush with
  | (Some x, q') =>
    (flush = true \/ all_ready q = true \/ sparse_escape q = true) /\ chunk q' = chunk q /\
    exists i, line q i = x :: line q' i /\ (forall j, j <> i -> line q' j = line q j) /\
      length (per_stream q') = length (per_stream q) /\
      (is_chunked (chunk q) = false -> exists k s, oldest q = Some (i, k, s))
  | (None, q') =>
    (is_empty q = true \/ flush = false /\ all_ready q = false /\ sparse_escape q = false) /\
    per_stream q' = per_stream q
  end.
Proof.
  unfold next_queued. destruct (is_empty q) eqn:He; [by split; [left|]|].
  destruct (negb flush && negb (all_ready q) && negb (sparse_escape q)) eqn:Er.
  { breflect. split; [right; by repeat split|done]. }
  destruct (pick_stream_spec q He) as (i & q' & -> & Hi & Hp & Hc & Ho).
  rewrite Hp. unfold line in Hi. destruct (per_stream q !! i) as [[|x l]|] eqn:E; [done| |done].
  destruct (advance_run_same (with_lines q' (<[i := l]> (per_stream q))) i x) as [Ha Hc'].
  assert (i < length (per_stream q))%nat as Hlt by (by eapply lookup_lt_Some).
  split; [|split; [by rewrite Hc'|]].
  - destruct flush; [by left|]. destruct (all_ready q); [by right; left|].
    destruct (sparse_escape q); [by right; right|done].
  - exists i. unfold line. rewrite Ha, E. cbn [per_stream with_lines]. split.
    + by rewrite list_lookup_insert_eq.
    + split; [|split; [by rewrite length_insert|done]].
      intros j Hj. by rewrite list_lookup_insert_ne.
Qed.

(** ** Conservation *)

Inductive op : Type :=
  | Push (p : packet)
  | Next (flush : bool)
  | EndStream (i : Z)
  | SetTimeBase (i : Z) (tb : rational)
  | SetPreloaded (i : Z) (b : bool).

(** A run's accepted packets, its output, and the queue it leaves. *)
Fixpoint run (ops : list op) (q : queue) : list packet * list packet * queue :=
  match ops with
  | [] => ([], [], q)
  | o :: ops =>
    let '(acc, out, q) :=
      match o with
      | Push p => match push q p with Ok q => ([p], [], q) | Err _ => ([], [], q) end
      | Next flush => let (x, q) := next q flush in ([], option_list x, q)
      | EndStream i => ([], [], end_stream q i)
      | SetTimeBase i tb => ([], [], set_time_base q i tb)
      | SetPreloaded i b => ([], [], set_preloaded q i b)
      end in
    let '(acc', out', q) := run ops q in
    (acc ++ acc', out ++ out', q)
  end.

(** The packets of one stream. *)
Definition of_stream (i : nat) (ps : list packet) : list packet :=
  filter (fun p => Z.to_nat (stream_index p) = i) ps.

(** Every packet waits in its own stream's line. *)
Definition filed (q : queue) : Prop :=
  forall i x, x ∈ line q i -> Z.to_nat (stream_index (pkt x)) = i.

Lemma push_spec q p q' :
  push q p = Ok q' ->
  exists x, pkt x = p /\ chunk q' = chunk q /\
    length (per_stream q') = length (per_stream q) /\
    forall i, line q' i = if decide (i = Z.to_nat (stream_index p)) then line q i ++ [x] else line q i.
Proof.
  unfold push. set (i := Z.to_nat (stream_index p)).
  destruct (Z.ltb_spec (Z.of_nat i) (Z.of_nat (length (per_stream q)))); cbn [negb]; [|done].
  destruct (match rescale _ _ _ _ with Some t => _ | None => _ end) as [d|]; [|done].
  intros [= <-]. eexists (Queued p _ _). split; [done|]. split; [done|].
  split; [simpl; by rewrite length_insert|].
  intros j. unfold line. cbn [per_stream]. destruct (decide (j = i)) as [->|Hj].
  - by rewrite list_lookup_insert_eq by lia.
  - by rewrite list_lookup_insert_ne.
Qed.

Lemma of_stream_app i ps qs : of_stream i (ps ++ qs) = of_stream i ps ++ of_stream i qs.
Proof. apply filter_app. Qed.

Lemma of_stream_1 i p : of_stream i [p] = if decide (Z.to_nat (stream_index p) = i) then [p] else [].
Proof. unfold of_stream. rewrite filter_cons. by destruct (decide _). Qed.

Lemma run_conserves ops q :
  filed q ->
  let '(acc, out, q') := run ops q in
  filed q' /\ forall i, map pkt (line q i) ++ of_stream i acc = of_stream i out ++ map pkt (line q' i).
Proof.
  revert q. induction ops as [|o ops IH]; intros q Hq; cbn [run].
  { split; [done|]. intros i. unfold of_stream. by rewrite !app_nil_r. }
  destruct o as [p|flush|i|i tb|i b].
  - destruct (push q p) as [q1|e] eqn:E.
    + apply push_spec in E as (x & Hx & _ & _ & Hl).
      assert (filed q1) as Hq1.
      { intros i y. rewrite Hl. destruct (decide _) as [->|]; [|by apply Hq].
        rewrite elem_of_app. intros [Hy|Hy]; [by apply Hq|].
        apply list_elem_of_singleton in Hy as ->. by rewrite Hx. }
      specialize (IH q1 Hq1). destruct (run ops q1) as [[acc out] q2]. destruct IH as [Hq2 IH].
      split; [done|]. intros i. cbn [app]. specialize (IH i). rewrite Hl in IH.
      change (p :: acc) with ([p] ++ acc). rewrite of_stream_app, of_stream_1, app_assoc.
      destruct (decide (i = _)) as [->|Hne].
      * rewrite decide_True by done. rewrite map_app in IH. cbn [map] in IH. by rewrite Hx in IH.
      * rewrite decide_False by done. by rewrite app_nil_r.
    + specialize (IH q Hq). by destruct (run ops q) as [[acc out] q2].
  - unfold next. pose proof (next_queued_spec q flush) as Hn.
    destruct (next_queued q flush) as [[x|] q1].
    + destruct Hn as (_ & _ & i & Hi & Hj & _).
      assert (filed q1) as Hq1.
      { intros j y Hy. apply Hq. destruct (decide (j = i)) as [->|]; [rewrite Hi; by constructor|].
        by rewrite <- Hj. }
      specialize (IH q1 Hq1). cbn [fmap option_fmap option_map option_list].
      destruct (run ops q1) as [[acc out] q2]. destruct IH as [Hq2 IH].
      split; [done|]. intros j. cbn [app]. specialize (IH j).
      change (option_list (Some (pkt x))) with [pkt x]. rewrite of_stream_app, of_stream_1.
      assert (Z.to_nat (stream_index (pkt x)) = i) as -> by (apply Hq; rewrite Hi; by constructor).
      destruct (decide (i = j)) as [->|Hne].
      * rewrite Hi. cbn [map app]. by rewrite IH.
      * rewrite <- (Hj j) by done. by rewrite IH.
    + destruct Hn as [_ Hp].
      assert (forall j, line q1 j = line q j) as Hl by (intros; unfold line; by rewrite Hp).
      assert (filed q1) as Hq1 by (intros j y; rewrite Hl; apply Hq).
      specialize (IH q1 Hq1). cbn [fmap option_fmap option_map option_list].
      destruct (run ops q1) as [[acc out] q2]. destruct IH as [Hq2 IH].
      split; [done|]. intros j. rewrite <- Hl. apply IH.
  - specialize (IH (end_stream q i) Hq). by destruct (run ops _) as [[acc out] q2].
  - specialize (IH (set_time_base q i tb) Hq). by destruct (run ops _) as [[acc out] q2].
  - specialize (IH (set_preloaded q i b) Hq). by destruct (run ops _) as [[acc out] q2].
Qed.

(** A fresh queue has nothing waiting. *)
Lemma new_line n o i : line (new n o) i = [].
Proof.
  unfold line, new. cbn [per_stream]. destruct (replicate n [] !! i) as [l|] eqn:E; [|done].
  by apply lookup_replicate in E as [-> _].
Qed.

(** ** Draining *)

Lemma pending_zero q : pending q = 0%nat -> is_empty q = true.
Proof.
  unfold pending, is_empty. induction (per_stream q) as [|l ls IH]; [done|]. simpl.
  intros H. destruct l as [|x l]; [|simpl in H; lia]. apply IH. simpl in H. lia.
Qed.

Lemma sum_list_insert (ls : list (list queued)) i x l :
  ls !! i = Some (x :: l) -> sum_list (map length ls) = S (sum_list (map length (<[i := l]> ls))).
Proof.
  revert i. induction ls as [|k ls IH]; intros [|i] H; simpl in *; [done|done| |].
  - injection H as ->. simpl. lia.
  - rewrite (IH i H). lia.
Qed.

Lemma lines_ext q q' i x :
  length (per_stream q') = length (per_stream q) ->
  line q i = x :: line q' i -> (forall j, j <> i -> line q' j = line q j) ->
  pending q = S (pending q').
Proof.
  intros Hlen Hi Hj. unfold pending.
  assert (per_stream q !! i = Some (x :: line q' i)) as Hl.
  { unfold line in Hi at 1. destruct (per_stream q !! i); [|done]. simpl in Hi. by subst. }
  rewrite (sum_list_insert _ i x (line q' i)) by done. do 2 f_equal. f_equal.
  apply list_eq. intros j. destruct (decide (j = i)) as [->|Hne].
  - rewrite list_lookup_insert_eq by (by eapply lookup_lt_Some). unfold line.
    destruct (per_stream q' !! i) as [l|] eqn:E; [done|].
    apply lookup_ge_None in E. apply lookup_lt_Some in Hl. lia.
  - rewrite list_lookup_insert_ne by done. specialize (Hj j Hne). unfold line in Hj.
    destruct (per_stream q !! j) as [l|] eqn:E1, (per_stream q' !! j) as [l'|] eqn:E2; simpl in Hj.
    + by subst.
    + apply lookup_lt_Some in E1. apply lookup_ge_None in E2. lia.
    + apply lookup_ge_None in E1. apply lookup_lt_Some in E2. lia.
    + done.
Qed.

(** The order [drain] promises: key, then stream. *)
Definition before (x y : queued) : Prop :=
  key_us x < key_us y \/
  key_us x = key_us y /\ (Z.to_nat (stream_index (pkt x)) <= Z.to_nat (stream_index (pkt y)))%nat.

(** Keys never go back within a line. *)
Definition keys_sorted (q : queue) : Prop :=
  forall i, StronglySorted (fun x y => key_us x <= key_us y) (line q i).

Lemma drain_loop_spec fuel q :
  filed q -> (pending q < fuel)%nat ->
  let (xs, q') := drain_loop fuel q in
  is_empty q' = true /\
  (forall i, of_stream i (map pkt xs) = map pkt (line q i)) /\
  (forall x, x ∈ xs -> exists i, x ∈ line q i) /\
  (is_chunked (chunk q) = false -> keys_sorted q -> StronglySorted before xs).
Proof.
  revert q. induction fuel as [|fuel IH]; intros q Hq Hf; [lia|]. cbn [drain_loop].
  pose proof (next_queued_spec q true) as Hn. destruct (next_queued q true) as [[x|] q1].
  - destruct Hn as (_ & Hc & i & Hi & Hj & Hlen & Ho).
    assert (filed q1) as Hq1.
    { intros j y Hy. apply Hq. destruct (decide (j = i)) as [->|]; [rewrite Hi; by constructor|].
      by rewrite <- Hj. }
    pose proof (lines_ext q q1 i x Hlen Hi Hj) as Hp.
    specialize (IH q1 Hq1 ltac:(lia)). destruct (drain_loop fuel q1) as [xs q2].
    destruct IH as (He & Hs & Hin & Hsort).
    assert (Z.to_nat (stream_index (pkt x)) = i) as Hx by (apply Hq; rewrite Hi; by constructor).
    assert (forall y, y ∈ xs -> exists j, y ∈ line q j) as Hin'.
    { intros y Hy. destruct (Hin y Hy) as [j Hyj]. exists j.
      destruct (decide (j = i)) as [->|]; [rewrite Hi; by constructor|by rewrite <- Hj]. }
    split; [done|]. split; [|split].
    + intros j. cbn [map]. change (pkt x :: map pkt xs) with ([pkt x] ++ map pkt xs).
      rewrite of_stream_app, of_stream_1, Hx, Hs.
      destruct (decide (i = j)) as [<-|]; [by rewrite Hi|by rewrite Hj].
    + intros y Hy. apply elem_of_cons in Hy as [->|Hy]; [|auto]. exists i. rewrite Hi. by constructor.
    + intros Hch Hks. constructor.
      * apply Hsort; [by rewrite Hc|]. intros j. specialize (Hks j).
        destruct (decide (j = i)) as [->|]; [|by rewrite Hj].
        rewrite Hi in Hks. by apply StronglySorted_inv in Hks as [? _].
      * destruct (Ho Hch) as (k & s & Hold). apply oldest_least in Hold as [(x' & l' & Hl' & -> & ->) Hall].
        assert (x' = x) as -> by (unfold line in Hi; rewrite Hl' in Hi; simpl in Hi; congruence).
        apply Forall_forall. intros y Hy. destruct (Hin' y Hy) as [j Hyj].
        destruct (line q j) as [|h t] eqn:El; [by apply not_elem_of_nil in Hyj|].
        specialize (Hall j h t El). apply head_le_spec in Hall.
        assert (Z.to_nat (stream_index (pkt y)) = j) as Hsy by (apply Hq; by rewrite El).
        assert (key_us h <= key_us y) as Hhy.
        { specialize (Hks j). rewrite El in Hks. apply StronglySorted_inv in Hks as [_ Hfa].
          apply elem_of_cons in Hyj as [->|Hyt]; [lia|]. by apply (proj1 (Forall_forall _ _) Hfa). }
        unfold before. rewrite Hx, Hsy. lia.
  - destruct Hn as ([He|(? & _)] & Hp); [|done].
    assert (forall i, line q i = []) as Hl by (by apply is_empty_line).
    split; [unfold is_empty in *; by rewrite Hp|]. split; [intros i; by rewrite Hl|].
    split; [intros x Hx; by apply not_elem_of_nil in Hx|]. constructor.
Qed.

(** C8. The queue neither loses, duplicates nor reorders a stream: after any
    mix of pushes, reads, stream endings and settings, followed by the final
    drain, each stream's output is exactly its accepted packets in the order
    they were pushed, and the queue is empty. *)
Theorem queue_fifo n o ops :
  let '(acc, out, q) := run ops (new n o) in
  let (rest, q') := drain q in
  is_empty q' = true /\
  forall i, of_stream i acc = of_stream i (out ++ rest).
Proof.
  assert (filed (new n o)) as Hf.
  { intros i x Hx. rewrite new_line in Hx. by apply not_elem_of_nil in Hx. }
  pose proof (run_conserves ops (new n o) Hf) as Hrun.
  destruct (run ops (new n o)) as [[acc out] q]. destruct Hrun as [Hq Hcons].
  unfold drain. pose proof (drain_loop_spec (S (pending q)) q Hq ltac:(lia)) as Hd.
  destruct (drain_loop (S (pending q)) q) as [xs q']. destruct Hd as (He & Hs & _).
  split; [done|]. intros i. rewrite of_stream_app, Hs, <- Hcons, new_line. done.
Qed.

(** Readiness and order: [next] gives a packet exactly when one is waiting
    and the caller flushes, every live stream has one, or the oldest has waited
    past the sparse limit; without a chunk policy that packet has the least key,
    ties going to the lower stream. A drain of streams whose keys never go back
    comes out sorted by key, then stream. *)
Theorem next_ready_and_ordered q flush :
  filed q ->
  (fst (next_queued q flush) = None <->
     is_empty q = true \/ flush = false /\ all_ready q = false /\ sparse_escape q = false) /\
  (is_chunked (chunk q) = false ->
     (forall x q' y j, next_queued q flush = (Some x, q') -> head (line q j) = Some y -> before x y) /\
     (keys_sorted q -> StronglySorted before (fst (drain_loop (S (pending q)) q)))).
Proof.
  intros Hq. pose proof (next_queued_spec q flush) as Hn. split.
  - destruct (next_queued q flush) as [[x|] q1] eqn:E; cbn [fst].
    + destruct Hn as (Hr & _ & i & Hi & _). split; [done|]. intros [He|(-> & Ha & Hs)].
      * apply is_empty_line with (i := i) in He. by rewrite Hi in He.
      * destruct Hr as [?|[?|?]]; congruence.
    + destruct Hn as [Hr _]. done.
  - intros Hch. split.
    + intros x q' y j E Hy. rewrite E in Hn. destruct Hn as (_ & _ & i & Hi & _ & _ & Ho).
      destruct (Ho Hch) as (k & s & Hold). apply oldest_least in Hold as [(x' & l' & Hl' & -> & ->) Hall].
      assert (x' = x) as -> by (unfold line in Hi; rewrite Hl' in Hi; simpl in Hi; congruence).
      destruct (line q j) as [|h t] eqn:El; [done|]. injection Hy as ->.
      specialize (Hall j y t El). apply head_le_spec in Hall. unfold before.
      rewrite (Hq i x) by (rewrite Hi; by constructor). rewrite (Hq j y) by (rewrite El; by constructor). lia.
    + intros Hks. pose proof (drain_loop_spec (S (pending q)) q Hq ltac:(lia)) as Hd.
      destruct (drain_loop (S (pending q)) q) as [xs q']. destruct Hd as (_ & _ & _ & Hsort). auto.
Qed.

Definition example_packet (s d : Z) : packet := Packet s (Some d) (Some d) None DUR_ZERO 10 d.

(** Stream 0 holds one packet, stream 1 two, the first of them the oldest. *)
Definition example_queue : queue :=
  snd (run [Push (example_packet 1 3); Push (example_packet 0 5); Push (example_packet 1 7)]
         (new 2 (FormatOptions 0 0 0 10000000 (-1) DUR_ZERO))).

Lemma next_ready_and_ordered_witness :
  filed example_queue /\ fst (next_queued example_queue false) <> None.
Proof.
  assert (filed example_queue) as Hf.
  { intros [|[|i]] x Hx.
    - vm_compute in Hx. by repeat (apply elem_of_cons in Hx as [->|Hx]; [reflexivity|]);
        apply not_elem_of_nil in Hx.
    - vm_compute in Hx. by repeat (apply elem_of_cons in Hx as [->|Hx]; [reflexivity|]);
        apply not_elem_of_nil in Hx.
    - vm_compute in Hx. by apply not_elem_of_nil in Hx. }
  split; [done|]. intros E. apply (proj1 (next_ready_and_ordered example_queue false Hf)) in E.
  vm_compute in E. destruct E as [E|(_ & E & _)]; discriminate E.
Defined.
