(* ===== verification/MuxTs.v ===== *)
(** * MuxTs: the muxer's timestamp chain

    [MuxTimestamps] of [src/crates/format/vaco-format-core/src/interleave.rs]:
    rescale into the output base, fill a missing DTS, add the user's offset,
    shift once for every stream, refuse a DTS that does not advance. [apply]
    changes the packet in place and may then fail, so it returns the packet and
    the chain beside its result. *)

From Stdlib Require Import ZArith QArith Lia Ascii String.
From stdpp Require Import prelude strings sorting.
From S2P Require Import Prelude Rational Time Interleave.

Open Scope Z_scope.

(** ** Options and flags *)

Inductive avoid_negative : Type := Disabled | MakeNonNegative | MakeZero.

#[export] Instance avoid_negative_eq_dec : EqDecision avoid_negative.
Proof. solve_decision. Defined.

Definition resolve (value : Z) (ts_negative_ok : bool) : avoid_negative :=
  if value =? 0 then Disabled
  else if value =? 1 then MakeNonNegative
  else if value =? 2 then MakeZero
  else if ts_negative_ok then Disabled
  else MakeNonNegative.

(** The flag bits this module reads. *)
Definition NOTIMESTAMPS : Z := Z.shiftl 1 5.
Definition TS_NONSTRICT : Z := Z.shiftl 1 14.
Definition TS_NEGATIVE : Z := Z.shiftl 1 15.

Definition contains (flags bit : Z) : bool := Z.land flags bit =? bit.

Definition requires_strict_dts (flags : Z) : bool := negb (contains flags TS_NONSTRICT).

(** ** The packet's timestamps *)

Definition with_ts (p : packet) (pts dts : timestamp) : packet :=
  Packet (stream_index p) pts dts (duration_ts p) (duration p) (len p) (body p).

Definition set_duration_ts (p : packet) (ticks : Z) : packet :=
  Packet (stream_index p) (pts p) (dts p) (if 0 <=? ticks then Some ticks else None)
    (duration p) (len p) (body p).

Definition rescale_ts (p : packet) (from to : rational) (r : rounding) : packet :=
  let p := with_ts p (rescale (pts p) from to r) (rescale (dts p) from to r) in
  match duration_ts p with
  | Some ticks =>
    match rescale (Some ticks) from to r with
    | Some scaled => set_duration_ts p scaled
    | None => p
    end
  | None => p
  end.

Definition offset_ts (p : packet) (ticks : Z) : packet :=
  with_ts p (offset (pts p) ticks) (offset (dts p) ticks).

(** ** The chain *)

Record chain : Type := MuxTimestamps {
  policy : avoid_negative;
  offset_us : option Z;
  user_offset : Time.duration;
  flags : Z;
  last_dts : list timestamp;
  notimestamps : bool;
  reorder_delay : list Z;
  decode_index : list Z;
}.

Definition new (stream_count : nat) (flags : Z) (o : format_options) : chain :=
  MuxTimestamps (resolve (avoid_negative_ts o) (contains flags TS_NEGATIVE)) None
    (output_ts_offset o) flags (replicate stream_count TS_NONE) (contains flags NOTIMESTAMPS)
    (replicate stream_count 0) (replicate stream_count 0).

Definition with_offset (c : chain) (o : option Z) : chain :=
  MuxTimestamps (policy c) o (user_offset c) (flags c) (last_dts c) (notimestamps c)
    (reorder_delay c) (decode_index c).

Definition with_last_dts (c : chain) (l : list timestamp) : chain :=
  MuxTimestamps (policy c) (offset_us c) (user_offset c) (flags c) l (notimestamps c)
    (reorder_delay c) (decode_index c).

Definition with_decode_index (c : chain) (l : list Z) : chain :=
  MuxTimestamps (policy c) (offset_us c) (user_offset c) (flags c) (last_dts c) (notimestamps c)
    (reorder_delay c) l.

Definition set_reorder_delay (c : chain) (i : Z) (delay : Z) : chain :=
  MuxTimestamps (policy c) (offset_us c) (user_offset c) (flags c) (last_dts c) (notimestamps c)
    (<[Z.to_nat i := delay]> (reorder_delay c)) (decode_index c).

(** [MuxTimestamps::apply], the R19c arm: the DTS of a packet that came without
    one. *)
Definition backfill (delay index : Z) (p : packet) (to : rational) : timestamp :=
  let backfilled :=
    if (0 <? delay) && (index <? delay) then
      match to_ticks (duration p) to with
      | Some step =>
        if 0 <? step then
          let behind := default (2 ^ 63 - 1) (checked_i 64 (delay - index)) in
          Some (sat_i 64 (sat_i 64 (- behind) * step))
        else None
      | None => None
      end
    else None in
  match backfilled with Some d => Some d | None => pts p end.

(** [Ord::min] of the two, or whichever is there. *)
Definition earliest (a b : option Z) : option Z :=
  match a, b with
  | Some p, Some d => Some (Z.min p d)
  | Some p, None => Some p
  | None, d => d
  end.

Definition establish_offset (c : chain) (p : packet) (to : rational) : chain :=
  if bool_decide (is_Some (offset_us c)) || bool_decide (policy c = Disabled) then
    with_offset c (Some (default 0 (offset_us c)))
  else
    let dts_us := rescale (dts p) to TIME_BASE_Q RDown in
    let pts_us := rescale (pts p) to TIME_BASE_Q RDown in
    match earliest pts_us dts_us with
    | None => c
    | Some first_us =>
      with_offset c (Some
        match policy c with
        | MakeZero => sat_i 64 (- first_us)
        | MakeNonNegative => if first_us <? 0 then sat_i 64 (- first_us) else 0
        | Disabled => 0
        end)
    end.

Definition check_monotonic (prev d : timestamp) (flags : Z) : result error unit :=
  match prev, d with
  | Some p, Some d =>
    if requires_strict_dts flags then
      if d <=? p then
        Err (InvalidData (str "non-monotonic dts: this container requires strictly increasing timestamps"))
      else Ok tt
    else if d <? p then
      Err (InvalidData (str "decreasing dts: this container requires non-decreasing timestamps"))
    else Ok tt
  | _, _ => Ok tt
  end.

(** M2: the user's offset. *)
Definition add_user_offset (c : chain) (p : packet) (to : rational) : packet :=
  if bool_decide (user_offset c = DUR_ZERO) then p
  else match to_ticks (user_offset c) to with Some ticks => offset_ts p ticks | None => p end.

(** M3: the shift, once the offset is settled. *)
Definition shift (c : chain) (p : packet) (to : rational) : packet :=
  match offset_us c with
  | Some off =>
    if negb (off =? 0) then
      match to_ticks (from_micros off) to with Some ticks => offset_ts p ticks | None => p end
    else p
  | None => p
  end.

Definition apply (c : chain) (p : packet) (from to : rational) : result error unit * packet * chain :=
  let p := rescale_ts p from to rounding_default in
  if notimestamps c then (Ok tt, with_ts p TS_NONE TS_NONE, c) else
  let i := Z.to_nat (stream_index p) in
  let index := default 0 (decode_index c !! i) in
  let delay := default 0 (reorder_delay c !! i) in
  let c := with_decode_index c (alter (fun n => sat_u 64 (n + 1)) i (decode_index c)) in
  match dts p, pts p with
  | None, None =>
    (Err (InvalidData (str "this container needs timestamps and the packet has none")), p, c)
  | d, _ =>
    let p := match d with
             | None => with_ts p (pts p) (backfill delay index p to)
             | Some _ => p
             end in
    let p := add_user_offset c p to in
    let c := establish_offset c p to in
    let p := shift c p to in
    match (match last_dts c !! i with Some prev => check_monotonic prev (dts p) (flags c) | None => Ok tt end) with
    | Err e => (Err e, p, c)
    | Ok _ => (Ok tt, p, with_last_dts c (<[i := dts p]> (last_dts c)))
    end
  end.

(** ** The chain in stages *)

Definition counted (c : chain) (p : packet) : chain :=
  with_decode_index c (alter (fun n => sat_u 64 (n + 1)) (Z.to_nat (stream_index p)) (decode_index c)).

(** The packet as it stands before the shift, if it has a timestamp at all. *)
Definition timed (c : chain) (p : packet) (from to : rational) : option packet :=
  let p := rescale_ts p from to rounding_default in
  let i := Z.to_nat (stream_index p) in
  match dts p, pts p with
  | None, None => None
  | Some _, _ => Some (add_user_offset c p to)
  | None, Some _ =>
    Some (add_user_offset c
      (with_ts p (pts p) (backfill (default 0 (reorder_delay c !! i)) (default 0 (decode_index c !! i)) p to)) to)
  end.

(** The last DTS the chain accepted on a stream it has. *)
Definition last_of (c : chain) (i : nat) : option timestamp := last_dts c !! i.

Lemma rescale_ts_stream p from to r : stream_index (rescale_ts p from to r) = stream_index p.
Proof.
  unfold rescale_ts. destruct (duration_ts _); [|done]. by destruct (rescale (Some _) from to r).
Qed.

Lemma offset_ts_dts p ticks : is_Some (dts p) -> is_Some (dts (offset_ts p ticks)).
Proof. intros [d E]. unfold offset_ts, with_ts. simpl. by rewrite E. Qed.

Lemma add_user_offset_same c p to :
  stream_index (add_user_offset c p to) = stream_index p /\
  (is_Some (dts p) -> is_Some (dts (add_user_offset c p to))).
Proof.
  unfold add_user_offset. case_bool_decide; [done|]. destruct (to_ticks _ _); [|done].
  split; [done|apply offset_ts_dts].
Qed.

Lemma shift_same c p to :
  stream_index (shift c p to) = stream_index p /\
  (is_Some (dts p) -> is_Some (dts (shift c p to))).
Proof.
  unfold shift. destruct (offset_us c); [|done]. destruct (negb _); [|done].
  destruct (to_ticks _ _); [|done]. split; [done|apply offset_ts_dts].
Qed.

Lemma backfill_some delay index p to : is_Some (pts p) -> is_Some (backfill delay index p to).
Proof.
  intros H. unfold backfill. destruct (_ && _); [|done]. destruct (to_ticks _ _); [|done].
  by destruct (_ <? _).
Qed.

(** A packet that gets as far as the shift belongs to the stream it named and
    has a DTS. *)
Lemma timed_spec c p from to p0 :
  timed c p from to = Some p0 -> stream_index p0 = stream_index p /\ is_Some (dts p0).
Proof.
  unfold timed. set (p1 := rescale_ts p from to rounding_default).
  assert (stream_index p1 = stream_index p) as <- by apply rescale_ts_stream.
  destruct (dts p1) as [d|] eqn:Ed.
  - intros [= <-]. destruct (add_user_offset_same c p1 to) as [-> H].
    split; [done|]. apply H. rewrite Ed. by eexists.
  - destruct (pts p1) as [t|] eqn:Et; [|done]. intros [= <-].
    set (p2 := with_ts _ _ _). destruct (add_user_offset_same c p2 to) as [-> H].
    split; [done|]. apply H. apply backfill_some. rewrite Et. by eexists.
Qed.

Definition check_last (c : chain) (i : nat) (d : timestamp) : result error unit :=
  match last_of c i with Some prev => check_monotonic prev d (flags c) | None => Ok tt end.

Lemma apply_stages c p from to :
  apply c p from to =
  let i := Z.to_nat (stream_index p) in
  if notimestamps c then
    (Ok tt, with_ts (rescale_ts p from to rounding_default) TS_NONE TS_NONE, c)
  else
    match timed c p from to with
    | None =>
      (Err (InvalidData (str "this container needs timestamps and the packet has none")),
       rescale_ts p from to rounding_default, counted c p)
    | Some p0 =>
      let c1 := establish_offset (counted c p) p0 to in
      let p1 := shift c1 p0 to in
      match check_last c1 i (dts p1) with
      | Err e => (Err e, p1, c1)
      | Ok _ => (Ok tt, p1, with_last_dts c1 (<[i := dts p1]> (last_dts c1)))
      end
    end.
Proof.
  unfold apply, timed, check_last, last_of, counted. cbv zeta.
  destruct (notimestamps c); [done|]. rewrite (rescale_ts_stream p from to rounding_default).
  destruct (dts (rescale_ts p from to rounding_default)) eqn:Ed,
    (pts (rescale_ts p from to rounding_default)) eqn:Et; reflexivity.
Qed.

(** [establish_offset] only ever fills in the offset. *)
Lemma establish_offset_same c p to :
  let c' := establish_offset c p to in
  policy c' = policy c /\ flags c' = flags c /\ last_dts c' = last_dts c /\
  notimestamps c' = notimestamps c /\ reorder_delay c' = reorder_delay c /\
  (is_Some (offset_us c) -> offset_us c' = offset_us c).
Proof.
  unfold establish_offset. case_bool_decide as Hs; simpl.
  - repeat split; try done. intros [v ->]. done.
  - case_bool_decide; simpl.
    + by repeat split.
    + destruct (earliest _ _); by repeat split.
Qed.

(** ** Many packets *)

(** Feed a list of packets, each with its time base and its stream's output
    base; the accepted ones, and the chain they leave. *)
Fixpoint apply_all (c : chain) (ps : list (packet * rational * rational)) : list packet * chain :=
  match ps with
  | [] => ([], c)
  | (p, from, to) :: ps =>
    let '(r, p', c) := apply c p from to in
    let (out, c) := apply_all c ps in
    (match r with Ok _ => p' :: out | Err _ => out end, c)
  end.

(** The DTS values of one stream. *)
Fixpoint dts_of (i : nat) (ps : list packet) : list Z :=
  match ps with
  | [] => []
  | p :: ps =>
    (if decide (Z.to_nat (stream_index p) = i) then match dts p with Some d => [d] | None => [] end else [])
    ++ dts_of i ps
  end.

(** How far a DTS must be past the one before it. *)
Definition advances (flags : Z) (a b : Z) : Prop :=
  if requires_strict_dts flags then a < b else a <= b.

Lemma advances_trans f a b c : advances f a b -> advances f b c -> advances f a c.
Proof. unfold advances. destruct (requires_strict_dts f); lia. Qed.

Lemma check_monotonic_ok f a b : check_monotonic (Some a) (Some b) f = Ok tt <-> advances f a b.
Proof.
  unfold check_monotonic, advances. destruct (requires_strict_dts f).
  - destruct (Z.leb_spec b a); split; (done || lia).
  - destruct (Z.ltb_spec b a); split; (done || lia).
Qed.

(** What one packet does to the chain. *)
Lemma apply_step c p from to r p' c' :
  apply c p from to = (r, p', c') ->
  stream_index p' = stream_index p /\ flags c' = flags c /\ policy c' = policy c /\
  notimestamps c' = notimestamps c /\ (is_Some (offset_us c) -> offset_us c' = offset_us c) /\
  match r with
  | Err _ => last_dts c' = last_dts c
  | Ok _ =>
    if notimestamps c then dts p' = None /\ c' = c
    else exists d, dts p' = Some d /\ last_dts c' = <[Z.to_nat (stream_index p) := Some d]> (last_dts c) /\
           forall prev, last_of c (Z.to_nat (stream_index p)) = Some (Some prev) -> advances (flags c) prev d
  end.
Proof.
  rewrite apply_stages. cbv zeta. destruct (notimestamps c) eqn:En.
  { intros [= <- <- <-]. cbn [stream_index with_ts dts]. by rewrite rescale_ts_stream, En. }
  destruct (timed c p from to) as [p0|] eqn:Et.
  2:{ intros [= <- <- <-]. by rewrite rescale_ts_stream. }
  destruct (timed_spec _ _ _ _ _ Et) as [Hs [d0 Hd]].
  destruct (establish_offset_same (counted c p) p0 to) as (H1 & H2 & H3 & H4 & H5 & H6).
  set (c1 := establish_offset (counted c p) p0 to) in *.
  destruct (shift_same c1 p0 to) as [Hs1 Hd1]. destruct (Hd1 (ex_intro _ _ Hd)) as [d Ed].
  rewrite Ed. unfold check_last, last_of. rewrite H3.
  change (last_dts (counted c p)) with (last_dts c) in *. change (flags (counted c p)) with (flags c) in *.
  change (notimestamps (counted c p)) with (notimestamps c) in *.
  destruct (last_dts c !! Z.to_nat (stream_index p)) as [prev|] eqn:El; rewrite ?H2.
  - destruct (check_monotonic prev (Some d) (flags c)) as [[]|e] eqn:Ec; intros [= <- <- <-];
      cbn [flags policy notimestamps offset_us last_dts with_last_dts]; rewrite ?Hs1, ?Hs, ?H4, ?En;
      repeat (split; [done|]).
    + exists d. split; [done|]. split; [done|]. intros q [= ->]. by apply check_monotonic_ok.
    + done.
  - intros [= <- <- <-]. cbn [flags policy notimestamps offset_us last_dts with_last_dts].
    rewrite ?Hs1, ?Hs, ?H4, ?En. repeat (split; [done|]).
    exists d. split; [done|]. split; [done|]. done.
Qed.

Lemma dts_of_cons i p ps :
  dts_of i (p :: ps) =
  (if decide (Z.to_nat (stream_index p) = i) then match dts p with Some d => [d] | None => [] end else [])
  ++ dts_of i ps.
Proof. done. Qed.

(** The induction over a run: what has been accepted so far bounds what comes. *)
Lemma apply_all_spec c ps i :
  notimestamps c = false ->
  let (out, c') := apply_all c ps in
  notimestamps c' = false /\ flags c' = flags c /\
  (is_Some (offset_us c) -> offset_us c' = offset_us c) /\
  (forall l, last_of c i = Some l ->
    StronglySorted (advances (flags c)) (dts_of i out) /\
    (forall prev, l = Some prev -> Forall (advances (flags c) prev) (dts_of i out))).
Proof.
  revert c. induction ps as [|[[p from] to] ps IH]; intros c Hn; cbn [apply_all].
  { repeat (split; [done|]). intros l _. split; [constructor|]. intros. constructor. }
  destruct (apply c p from to) as [[r p'] c1] eqn:E.
  destruct (apply_step _ _ _ _ _ _ _ E) as (Hs & Hf & _ & Hn1 & Ho & Hr). rewrite Hn in *.
  specialize (IH c1 Hn1). destruct (apply_all c1 ps) as [out c2].
  destruct IH as (Hn2 & Hf2 & Ho2 & IH). rewrite Hf in *.
  split; [done|]. split; [done|]. split; [intros H; rewrite Ho2; rewrite Ho; done|].
  intros l Hl. destruct r as [[]|e].
  2:{ apply IH. unfold last_of in *. by rewrite Hr. }
  destruct Hr as (d & Hd & Hlast & Hadv). rewrite dts_of_cons, Hs, Hd.
  destruct (decide (Z.to_nat (stream_index p) = i)) as [Hi|Hne].
  - rewrite Hi in *. assert (last_of c1 i = Some (Some d)) as Hl1.
    { unfold last_of. rewrite Hlast. apply list_lookup_insert_eq. by eapply lookup_lt_Some. }
    destruct (IH _ Hl1) as [Hsort Hfa]. specialize (Hfa d eq_refl). cbn [app]. split; [by constructor|].
    intros prev ->. specialize (Hadv prev Hl). constructor; [done|].
    eapply Forall_impl; [exact Hfa|]. intros x. by apply advances_trans.
  - apply IH. unfold last_of. rewrite Hlast. by rewrite list_lookup_insert_ne.
Qed.

(** A container's DTS contract is kept, whatever the packets and time
    bases: per stream the accepted packets' DTS strictly increase (never
    decrease when the container is non-strict), a container without timestamps
    gets none at all, and once the shift is settled it is the same for every
    later packet of every stream. *)
Theorem mux_dts_contract n f o ps qs i :
  let (out, c) := apply_all (new n f o) ps in
  let (out', c') := apply_all c qs in
  (if contains f NOTIMESTAMPS then Forall (fun p => pts p = None /\ dts p = None) (out ++ out')
   else (i < n)%nat -> StronglySorted (advances f) (dts_of i (out ++ out'))) /\
  (is_Some (offset_us c) -> offset_us c' = offset_us c).
Proof.
  assert (forall ps c, apply_all c (ps ++ qs) =
    let (out, c') := apply_all c ps in let (out', c'') := apply_all c' qs in (out ++ out', c'')) as Happ.
  { clear. induction ps as [|[[p from] to] ps IH]; intros c; cbn [apply_all app].
    - by destruct (apply_all c qs).
    - destruct (apply c p from to) as [[r p'] c1]. rewrite IH.
      destruct (apply_all c1 ps) as [out c2], (apply_all c2 qs) as [out' c3]. by destruct r. }
  specialize (Happ ps (new n f o)).
  destruct (contains f NOTIMESTAMPS) eqn:En.
  - assert (forall ps c, notimestamps c = true ->
      let (out, c') := apply_all c ps in c' = c /\ Forall (fun p => pts p = None /\ dts p = None) out) as Hall.
    { clear. induction ps as [|[[p from] to] ps IH]; intros c Hc; cbn [apply_all]; [by split|].
      rewrite apply_stages, Hc. specialize (IH c Hc). cbv zeta beta iota.
      destruct (apply_all c ps) as [out c']. destruct IH as [-> IH]. split; [done|]. by constructor. }
    pose proof (Hall ps (new n f o) En) as H1. destruct (apply_all (new n f o) ps) as [out c].
    destruct H1 as [-> H1]. pose proof (Hall qs (new n f o) En) as H2.
    destruct (apply_all (new n f o) qs) as [out' c']. destruct H2 as [-> H2].
    split; [by apply Forall_app|done].
  - pose proof (apply_all_spec (new n f o) (ps ++ qs) i En) as H0. rewrite Happ in H0.
    pose proof (apply_all_spec (new n f o) ps i En) as H1.
    destruct (apply_all (new n f o) ps) as [out c]. destruct H1 as (Hc & _).
    pose proof (apply_all_spec c qs i Hc) as H2. destruct (apply_all c qs) as [out' c'].
    destruct H2 as (_ & _ & Ho & _). destruct H0 as (_ & _ & _ & H0).
    split; [|done]. intros Hi. apply (H0 TS_NONE). unfold last_of. cbn [last_dts new].
    by apply lookup_replicate_2.
Qed.

(** ** The shift *)

Lemma TIME_BASE_Q_positive : positive_base TIME_BASE_Q.
Proof. split; [split; reflexivity|done]. Qed.

(** The earlier of a packet's two timestamps. *)
Definition first_ts (p : packet) : option Z := earliest (pts p) (dts p).

Lemma min_clamp_mono a b : clamp_i64 (Z.min a b) = Z.min (clamp_i64 a) (clamp_i64 b).
Proof. unfold clamp_i64. lia. Qed.

(** 64-bit fields, as the code's types have it. *)
Definition ts_in (t : timestamp) : Prop := match t with Some v => in_i 64 v = true | None => True end.

Lemma earliest_rescale a b to n d :
  ts_in a -> ts_in b -> positive_base to -> rescale_factors to TIME_BASE_Q = Some (n, d) -> 0 < d ->
  earliest (rescale a to TIME_BASE_Q RDown) (rescale b to TIME_BASE_Q RDown) =
  (fun m => clamp_i64 (m * n / d)) <$> earliest a b.
Proof.
  intros Ha Hb Hto E Hd.
  assert (forall t, ts_in t -> rescale t to TIME_BASE_Q RDown = (fun m => clamp_i64 (m * n / d)) <$> t) as Hr.
  { intros [t|] Ht; [|done]. cbn [fmap option_fmap option_map].
    by rewrite (proj1 (rescale_round_div t to TIME_BASE_Q RDown n d Ht (positive_base_usable _ Hto)
      (positive_base_usable _ TIME_BASE_Q_positive) E)). }
  rewrite (Hr a Ha), (Hr b Hb). destruct a as [a|], b as [b|]; try done. cbn.
  rewrite <- min_clamp_mono. do 2 f_equal.
  assert (0 < n) as Hn.
  { destruct (rescale_factors_positive to TIME_BASE_Q Hto TIME_BASE_Q_positive) as (n' & d' & E' & _ & ? & _).
    rewrite E in E'. simplify_eq. lia. }
  destruct (Z.le_ge_cases a b).
  - assert (a * n / d <= b * n / d) by (apply Z.div_le_mono; nia). rewrite !Z.min_l by lia. done.
  - assert (b * n / d <= a * n / d) by (apply Z.div_le_mono; nia). rewrite !Z.min_r by lia. done.
Qed.

Lemma round_nearest_scale p c k :
  0 < c -> 0 < k -> round_div RNearestAwayFromZero (p * k) (c * k) = round_div RNearestAwayFromZero p c.
Proof.
  intros Hc Hk. unfold round_div. rewrite !Z.sgn_mul, !Z.abs_mul, (Z.sgn_pos k), (Z.abs_eq k), !Z.mul_1_r by lia.
  f_equal. replace (2 * (Z.abs p * k) + Z.abs c * k) with ((2 * Z.abs p + Z.abs c) * k) by lia.
  replace (2 * (Z.abs c * k)) with (2 * Z.abs c * k) by lia. apply Z.div_mul_cancel_r; lia.
Qed.

(** A microsecond shift in the output base: the nearest tick count. *)
Lemma shift_ticks off to n d :
  in_i 64 off = true -> positive_base to -> rescale_factors to TIME_BASE_Q = Some (n, d) ->
  to_ticks (from_micros off) to = checked_i 64 (round_div rounding_default (off * d) n).
Proof.
  intros Hoff Hto E.
  destruct (finite_base_positive to Hto) as (tn & td & Ef & Htn & Htd).
  unfold rescale_factors in E. rewrite Ef in E. cbn in E. injection E as <- <-.
  apply in_i_spec in Hoff as Hoff'. cbn in Hoff'.
  destruct (from_ratio_spec off 1000000) as (Hw & Hv & Hle); [apply in_i_spec; cbn; lia|lia|].
  unfold to_ticks, to_ticks_rounding, from_micros. rewrite Ef. cbn [mbind option_bind].
  set (x := from_ratio off 1000000) in *. destruct Hw as (Hwn & Hwd & _).
  rewrite (checked_i_in 128) by (apply in_i_spec; cbn; nia). cbn [mbind option_bind].
  rewrite muldiv_rnd_exact; [|done|apply in_i_spec; cbn; lia|apply in_i_spec; cbn; nia].
  rewrite (proj2 (Z.eqb_neq _ _)) by nia.
  assert (round_div rounding_default (numerator x * td) (denominator x * tn) =
          round_div rounding_default (off * (td * 1)) (tn * 1000000)) as ->.
  { unfold rounding_default. rewrite <- (round_nearest_scale _ (denominator x * tn) 1000000) by nia.
    rewrite <- (round_nearest_scale _ (tn * 1000000) (denominator x)) by nia. f_equal; nia. }
  unfold mbind, option_bind. destruct (checked_i 128 _) as [v|] eqn:Ev.
  - apply checked_i_Some in Ev as [-> _]. done.
  - apply checked_i_None in Ev. symmetry. apply checked_i_None. lia.
Qed.

Lemma earliest_offset a b t : earliest (offset a t) (offset b t) = offset (earliest a b) t.
Proof. destruct a, b; try done. cbn. f_equal. unfold sat_i. lia. Qed.

(** The shifted start: never negative, and within the two roundings of zero. *)
Lemma shift_bounds m n d :
  0 < n -> 0 < d ->
  let v := round_div RNearestAwayFromZero (- (m * n / d) * d) n in
  0 <= m + v /\ 2 * (m + v) * n < 2 * d + n.
Proof.
  intros Hn Hd v. pose proof (Z.mul_div_le (m * n) d Hd). pose proof (Z.mul_succ_div_gt (m * n) d Hd).
  destruct (round_div_error RNearestAwayFromZero (- (m * n / d) * d) n Hn) as [_ He].
  change (round_div _ _ n) with v in He. split; [|nia].
  assert (round_div RNearestAwayFromZero (- m * n) n <= v) as H1 by (apply round_div_mono; lia).
  rewrite round_div_exact in H1 by lia. lia.
Qed.

(** The shift does what its policy says: on the first packet that has a
    timestamp, the earlier of PTS and DTS leaves the chain unchanged when the
    policy is to avoid negative times and it is not negative; otherwise it
    leaves non-negative and less than a microsecond plus half a tick from zero,
    which is exactly zero whenever a tick is at least two microseconds long. The
    offset is then settled for every stream. *)
Theorem first_packet_shift c p to m n d :
  offset_us c = None -> policy c <> Disabled -> positive_base to ->
  ts_in (pts p) -> ts_in (dts p) -> first_ts p = Some m ->
  rescale_factors to TIME_BASE_Q = Some (n, d) -> - 2 ^ 62 <= m -> - 2 ^ 62 <= m * n / d < 2 ^ 62 ->
  let c' := establish_offset c p to in
  is_Some (offset_us c') /\
  exists m', first_ts (shift c' p to) = Some m' /\
    (if bool_decide (policy c = MakeZero) || (m <? 0) then 0 <= m' /\ 2 * m' * n < 2 * d + n
     else m' = m).
Proof.
  intros Ho Hp Hto Hpts Hdts Hm E Hlo Hus c'.
  destruct (finite_base_positive to Hto) as (tn & td & Ef & Htn & Htd).
  assert (d = td /\ n = tn * 1000000) as [Hdv Hnv].
  { unfold rescale_factors in E. rewrite Ef in E. cbn in E. simplify_eq. lia. }
  assert (in_i 64 m = true) as Hmi.
  { unfold first_ts in Hm. destruct (pts p), (dts p); cbn in *; simplify_eq; try done.
    apply in_i_spec in Hpts, Hdts. apply in_i_spec. lia. }
  apply in_i_spec in Hmi as Hmi'. cbn in Hmi'.
  set (f := m * n / d) in *.
  assert (offset_us c' = Some (if bool_decide (policy c = MakeZero) || (f <? 0) then - f else 0)) as Hc'.
  { unfold c', establish_offset. rewrite Ho. rewrite !bool_decide_false by (done || by intros []). cbn [orb].
    rewrite (earliest_rescale (pts p) (dts p) to n d) by (done || lia).
    fold (first_ts p). rewrite Hm. cbn [fmap option_fmap option_map]. fold f.
    rewrite clamp_i64_id by (apply in_i_spec; cbn; lia). cbn [offset_us with_offset].
    destruct (policy c); [done| |]; rewrite ?sat_i_id by (cbn; lia); cbn [bool_decide orb]; try done.
    all: by destruct (f <? 0). }
  split; [by rewrite Hc'|]. unfold shift. rewrite Hc'.
  assert ((f <? 0) = (m <? 0)) as ->.
  { pose proof (Z.mul_div_le (m * n) d ltac:(lia)). pose proof (Z.mul_succ_div_gt (m * n) d ltac:(lia)).
    fold f in H, H0. destruct (Z.ltb_spec f 0), (Z.ltb_spec m 0); (done || nia). }
  destruct (bool_decide (policy c = MakeZero) || (m <? 0)) eqn:Es; cbn [Z.eqb negb].
  2:{ exists m. by split. }
  destruct (shift_bounds m n d ltac:(lia) ltac:(lia)) as [H1 H2]. fold f in H1, H2.
  set (v := round_div RNearestAwayFromZero (- f * d) n) in *.
  destruct (Z.eqb_spec (- f) 0) as [Hf0|Hf0]; cbn [negb].
  { exists m. split; [done|]. assert (f = 0) as Hf by lia.
    pose proof (Z.mul_div_le (m * n) d ltac:(lia)). pose proof (Z.mul_succ_div_gt (m * n) d ltac:(lia)).
    fold f in H, H0. rewrite Hf in H, H0. assert (0 <= m) by nia. split; [lia|nia]. }
  assert (m + v <= 2 ^ 31) as Hv by nia.
  rewrite (shift_ticks (- f) to n d) by (done || (apply in_i_spec; cbn; lia)).
  unfold rounding_default. fold v. clearbody v. rewrite checked_i_in by (apply in_i_spec; simpl; lia).
  exists (m + v). unfold first_ts, offset_ts. cbn [pts dts with_ts]. rewrite earliest_offset.
  fold (first_ts p). rewrite Hm. cbn [offset]. rewrite sat_i_id by (simpl; lia). by split.
Qed.

(** A 90 kHz stream starting at DTS -3003 and PTS 1. *)
Lemma first_packet_shift_witness :
  let c := new 1 0 (FormatOptions 0 0 0 0 (-1) DUR_ZERO) in
  let p := Packet 0 (Some 1) (Some (-3003)) None DUR_ZERO 4 0 in
  is_Some (offset_us (establish_offset c p (Rational 1 90000))).
Proof.
  intros c p. refine (proj1 (first_packet_shift c p (Rational 1 90000) (-3003) 1000000 90000
    eq_refl _ _ eq_refl eq_refl eq_refl eq_refl _ _)).
  - discriminate.
  - split; [split; reflexivity|reflexivity].
  - lia.
  - split; vm_compute; [discriminate|reflexivity].
Defined.

(** The documentation of [AvoidNegativeTs] speaks of the first DTS, as does
    [make_zero]'s; the code takes the earlier of the two timestamps, so a first
    DTS of 5 leaves at 15 when its PTS is -10. *)
Lemma make_zero_follows_pts :
  let c := new 1 0 (FormatOptions 0 0 0 0 2 DUR_ZERO) in
  let p := Packet 0 (Some (-10)) (Some 5) None DUR_ZERO 4 0 in
  fst (apply c p TIME_BASE_Q TIME_BASE_Q)
    = (Ok tt, Packet 0 (Some 0) (Some 15) None DUR_ZERO 4 0).
Proof. vm_compute. reflexivity. Qed.
