(* ===== verification/Ebml.v ===== *)
(** * Ebml: variable-length integers, elements and the open-element stack

    [src/crates/format/vaco-format-ebml/src]: [vint.rs] (element IDs, data sizes
    and signed VINTs), [reader.rs] (children of a master held in memory, value
    accessors, one header off a stream), [writer.rs] (whole elements) and
    [stack.rs] (what an incoming ID terminates). The float accessor is left out;
    the stream [read_header] reads from is an instance of [ByteStream]. *)

From Stdlib Require Import ZArith Lia Ascii String.
From stdpp Require Import prelude strings.
From S2P Require Import Prelude Bits.

Inductive error : Type :=
  | InvalidData (why : rstr)
  | UnexpectedEof
  | Eof
  | Unsupported (what : rstr)
  | LimitExceeded (limit : rstr) (requested cap : Z)
  | Io (code : Z).

Abbreviation bytes := (list Z).

(** ** VINTs *)

Definition MAX_ID_LEN : Z := 4.
Definition MAX_SIZE_LEN : Z := 8.

Definition vint_len (first : Z) : option Z :=
  if first =? 0 then None else Some (leading_zeros 8 first + 1).

Inductive size : Type := Known (n : Z) | Unknown.

Definition known (s : size) : option Z := match s with Known n => Some n | Unknown => None end.

Definition all_ones (len : Z) : Z :=
  let data_bits := 7 * len in
  if 64 <=? data_bits then 2 ^ 64 - 1 else Z.shiftl 1 data_bits - 1.

(** [(acc << 8) | b] at the accumulator's width. *)
Definition shift_in (w acc b : Z) : Z := Z.lor (wrap_u w (Z.shiftl acc 8)) b.

Definition read_id (buf : bytes) (max_id_len : Z) : result error (Z * Z) :=
  match buf with
  | [] => Err UnexpectedEof
  | first :: _ =>
    match vint_len first with
    | None => Err (InvalidData (str "element id longer than 8 octets"))
    | Some len =>
      if max_id_len <? len then Err (InvalidData (str "element id longer than EBMLMaxIDLength"))
      else
        match first_chunk len buf with
        | None => Err UnexpectedEof
        | Some slice => Ok (fold_left (shift_in 32) slice 0, len)
        end
    end
  end.

(** The leading octet without its length marker. *)
Definition strip_marker (first len : Z) : Z := Z.land first (255 - Z.shiftr 128 (len - 1)).

Definition size_of (value len : Z) : size := if value =? all_ones len then Unknown else Known value.

Definition read_size (buf : bytes) (max_size_len : Z) : result error (size * Z) :=
  match buf with
  | [] => Err UnexpectedEof
  | first :: _ =>
    match vint_len first with
    | None => Err (InvalidData (str "element size longer than 8 octets"))
    | Some len =>
      if max_size_len <? len then Err (InvalidData (str "element size longer than EBMLMaxSizeLength"))
      else
        match first_chunk len buf with
        | None => Err UnexpectedEof
        | Some slice => Ok (size_of (fold_left (shift_in 64) (tail slice) (strip_marker first len)) len, len)
        end
    end
  end.

Definition read_signed_vint (buf : bytes) : result error (Z * Z) :=
  match read_size buf MAX_SIZE_LEN with
  | Err e => Err e
  | Ok (Unknown, _) => Err (InvalidData (str "lace size delta is the unknown marker"))
  | Ok (Known raw, used) =>
    let bias := Z.shiftl 1 (7 * used - 1) - 1 in
    Ok (wrap_i 64 (wrap_i 64 raw - bias), used)
  end.

(** The octets of [value], the [n] lowest ones, most significant first. *)
Fixpoint octets (n : nat) (value : Z) : bytes :=
  match n with
  | O => []
  | S n => Z.land (Z.shiftr value (8 * Z.of_nat n)) 255 :: octets n value
  end.

Definition clamp_len (len : Z) : Z := Z.max 1 (Z.min len 8).

Definition vint (value len : Z) : bytes :=
  let len := clamp_len len in
  match octets (Z.to_nat len) value with
  | first :: rest => Z.lor first (Z.shiftr 128 (len - 1)) :: rest
  | [] => []
  end.

(** [for len in 1..=8], returning at the first length that fits. *)
Fixpoint vint_min_from (fuel : nat) (len value : Z) : bytes :=
  match fuel with
  | O => vint value 8
  | S fuel => if value <? all_ones len then vint value len else vint_min_from fuel (len + 1) value
  end.

Definition vint_min (value : Z) : bytes := vint_min_from 8 1 value.

Definition vint_unknown (len : Z) : bytes := let len := clamp_len len in vint (all_ones len) len.

Definition id_len (id : Z) : Z :=
  if (128 <=? id) && (id <=? 255) then 1
  else if (16384 <=? id) && (id <=? 65535) then 2
  else if (2097152 <=? id) && (id <=? 16777215) then 3
  else 4.

Definition id_bytes (id : Z) : bytes := drop (Z.to_nat (4 - id_len id)) (be_bytes 4 id).

Fixpoint signed_vint_from (fuel : nat) (len value : Z) : bytes :=
  match fuel with
  | O => vint 0 8
  | S fuel =>
    let bias := Z.shiftl 1 (7 * len - 1) - 1 in
    match checked_i 64 (value + bias) with
    | None => signed_vint_from fuel (len + 1) value
    | Some biased =>
      let bits := 7 * len in
      let width_ok := if 64 <=? bits then true else (0 <=? biased) && (biased <? Z.shiftl 1 bits - 1) in
      if (0 <=? biased) && width_ok then vint biased len else signed_vint_from fuel (len + 1) value
    end
  end.

Definition signed_vint (value : Z) : bytes := signed_vint_from 8 1 value.

(** ** Caps and headers *)

Definition MAX_DEPTH : Z := 16.

Record header : Type := Header { id : Z; hsize : size; hpos : Z; data_pos : Z }.

Definition header_end (h : header) : option Z := n ← known (hsize h); checked_u 64 (data_pos h + n).

Record caps : Type := Caps { max_id_len : Z; max_size_len : Z }.

Definition caps_default : caps := Caps MAX_ID_LEN MAX_SIZE_LEN.

Definition adopt (id_len size_len : Z) : result error caps :=
  if MAX_ID_LEN <? id_len then Err (Unsupported (str "EBMLMaxIDLength above 4"))
  else if MAX_SIZE_LEN <? size_len then Err (Unsupported (str "EBMLMaxSizeLength above 8"))
  else Ok (Caps MAX_ID_LEN (if size_len =? 0 then MAX_SIZE_LEN else wrap_u 8 size_len)).

(** ** Reading *)

Record child : Type := Child { child_id : Z; child_data : bytes; child_offset : Z; data_offset : Z }.

(** [Children]: a cursor over a master's data. *)
Record children : Type := Children { data : bytes; pos : Z; ccaps : caps }.

Definition slice_children (data : bytes) (c : caps) : children := Children data 0 c.

Definition ok {E A : Type} (r : result E A) : option A := match r with Ok a => Some a | Err _ => None end.

Definition next (it : children) : option child * children :=
  match
    (rest ← get_from (data it) (pos it);
     match rest with
     | [] => None
     | _ =>
       '(id, id_len) ← ok (read_id rest (max_id_len (ccaps it)));
       after_id ← get_from rest id_len;
       '(s, size_len) ← ok (read_size after_id (max_size_len (ccaps it)));
       header_len ← checked_u 64 (id_len + size_len);
       body ← get_from rest header_len;
       let n := match s with
                | Known n => Z.min n (zlen body)
                | Unknown => zlen body
                end in
       data ← first_chunk n body;
       data_offset ← checked_u 64 (pos it + header_len);
       pos' ← checked_u 64 (data_offset + n);
       Some (Child id data (pos it) data_offset, pos')
     end)
  with
  | Some (c, pos') => (Some c, Children (data it) pos' (ccaps it))
  | None => (None, it)
  end.

Definition as_uint (data : bytes) : option Z :=
  if 8 <? zlen data then None else Some (fold_left (shift_in 64) data 0).

(** [(v << 8) | i64::from(b)] on a signed accumulator. *)
Definition shift_in_i (acc b : Z) : Z := Z.lor (wrap_i 64 (Z.shiftl acc 8)) b.

Definition as_int (data : bytes) : option Z :=
  if 8 <? zlen data then None
  else match data with
       | [] => Some 0
       | b :: _ => Some (fold_left shift_in_i data (if negb (Z.land b 128 =? 0) then -1 else 0))
       end.

(** The octets before the padding; their UTF-8 validity is the caller's text. *)
Fixpoint before_nul (data : bytes) : bytes :=
  match data with
  | [] => []
  | b :: data => if b =? 0 then [] else b :: before_nul data
  end.

Definition as_str (utf8 : bytes -> bool) (data : bytes) : option bytes :=
  let s := before_nul data in if utf8 s then Some s else None.

(** What [read_header] uses of [IoContext]. *)
Class ByteStream (I : Type) : Type := {
  io_pos : I -> Z;
  io_r8 : I -> result error Z * I;
}.

Section stream.
Context {I : Type} `{ByteStream I}.

(** [for _ in 1..len]: shift in the octets after the first. *)
Fixpoint read_rest (w : Z) (n : nat) (acc : Z) (io : I) : result error Z * I :=
  match n with
  | O => (Ok acc, io)
  | S n =>
    match io_r8 io with
    | (Ok b, io) => read_rest w n (shift_in w acc b) io
    | (Err e, io) => (Err e, io)
    end
  end.

Definition read_stream_size (io : I) (max : Z) : result error size * I :=
  match io_r8 io with
  | (Err e, io) => (Err e, io)
  | (Ok first, io) =>
    match vint_len first with
    | None => (Err (InvalidData (str "element size longer than 8 octets")), io)
    | Some len =>
      if max <? len then (Err (InvalidData (str "element size longer than EBMLMaxSizeLength")), io)
      else
        match read_rest 64 (Z.to_nat (len - 1)) (strip_marker first len) io with
        | (Err e, io) => (Err e, io)
        | (Ok value, io) => (Ok (size_of value len), io)
        end
    end
  end.

Definition read_header (io : I) (c : caps) : result error (option header) * I :=
  let pos := io_pos io in
  match io_r8 io with
  | (Err UnexpectedEof, io) | (Err Eof, io) => (Ok None, io)
  | (Err e, io) => (Err e, io)
  | (Ok first, io) =>
    match vint_len first with
    | None => (Err (InvalidData (str "element id longer than 8 octets")), io)
    | Some len =>
      if max_id_len c <? len then (Err (InvalidData (str "element id longer than EBMLMaxIDLength")), io)
      else
        match read_rest 32 (Z.to_nat (len - 1)) first io with
        | (Err e, io) => (Err e, io)
        | (Ok id, io) =>
          match read_stream_size io (max_size_len c) with
          | (Err e, io) => (Err e, io)
          | (Ok s, io) => (Ok (Some (Header id s pos (io_pos io))), io)
          end
        end
    end
  end.
End stream.

(** ** Writing *)

Definition element (id : Z) (body : bytes) : bytes :=
  id_bytes id ++ vint_min (zlen body) ++ body.

Definition element_unknown_size (id : Z) (body : bytes) : bytes :=
  id_bytes id ++ vint_unknown 8 ++ body.

(** [while bytes.len() > 1 && bytes.first() == Some(&0)]. *)
Fixpoint drop_zeros (l : bytes) : bytes :=
  match l with
  | b :: ((_ :: _) as rest) => if b =? 0 then drop_zeros rest else l
  | _ => l
  end.

Definition uint (id value : Z) : bytes := element id (drop_zeros (be_bytes 8 value)).

Definition int (id value : Z) : bytes := element id (be_bytes 8 value).

Definition binary (id : Z) (value : bytes) : bytes := element id value.

(** [write_header], [write_header_unknown], [patch_known_size]: the octets
    handed to the writer. *)
Definition write_header (w : bytes) (id size : Z) : bytes := (w ++ id_bytes id) ++ vint_min size.

Definition write_header_unknown (w : bytes) (id : Z) : bytes := (w ++ id_bytes id) ++ vint_unknown 8.

Definition patch_known_size (w : bytes) (size : Z) : bytes := w ++ vint size 8.

(** ** The stack *)

Record frame : Type := Frame { fid : Z; fend : option Z }.

(** [Vec<Frame>], the innermost element last. *)
Abbreviation stack := (list frame).

Definition push (s : stack) (id : Z) (e : option Z) : result error stack :=
  let n := Z.of_nat (length s) in
  if MAX_DEPTH <=? n then Err (LimitExceeded (str "ebml_depth") (n + 1) MAX_DEPTH)
  else Ok (s ++ [Frame id e]).

Definition pop (s : stack) : option frame * stack := (last s, removelast s).

Definition open_id (s : stack) (root : Z) : Z := match last s with Some f => fid f | None => root end.

(** [filter_map(|f| f.end).min()]. *)
Definition bound (s : stack) : option Z :=
  fold_left (fun m f => match m, fend f with
                        | Some m, Some e => Some (Z.min m e)
                        | Some m, None => Some m
                        | None, e => e
                        end) s None.

(** [while self.frames.last().is_some_and(..)]; each round pops a frame. *)
Fixpoint close_loop (fuel : nat) (s : stack) (pos : Z) (n : Z) : Z * stack :=
  match fuel with
  | O => (n, s)
  | S fuel =>
    if match last s with Some f => match fend f with Some e => e <=? pos | None => false end | None => false end
    then close_loop fuel (removelast s) pos (n + 1)
    else (n, s)
  end.

Definition close_finished (s : stack) (pos : Z) : Z * stack := close_loop (length s) s pos 0.

Section terminations.
Context (is_child_of : Z -> Z -> bool) (is_root : Z -> bool).

Fixpoint terminations_loop (fuel : nat) (s : stack) (id root popped : Z) : option Z :=
  match fuel with
  | O => None
  | S fuel =>
    idx ← checked_u 64 (Z.of_nat (length s) - popped);
    parent ← (if idx =? 0 then Some root else f ← s !! Z.to_nat (idx - 1); Some (fid f));
    if is_child_of id parent then Some popped
    else if idx =? 0 then (if is_root id then Some popped else None)
    else
      f ← s !! Z.to_nat (idx - 1);
      if bool_decide (is_Some (fend f)) then None
      else popped' ← checked_u 64 (popped + 1); terminations_loop fuel s id root popped'
  end.

(** A round per open frame, and one for the root. *)
Definition terminations_for (s : stack) (id root : Z) : option Z :=
  terminations_loop (S (length s)) s id root 0.
End terminations.

Definition truncate_by (s : stack) (n : Z) : stack :=
  take (Z.to_nat (sat_u 64 (Z.of_nat (length s) - n))) s.

(** ** Octets and widths *)

Lemma octets_be_bytes n v : octets n v = be_bytes n v.
Proof.
  induction n as [|n IH]; cbn [octets be_bytes]; [done|]. rewrite IH. f_equal.
  rewrite Z.shiftr_div_pow2 by lia. rewrite (Z.land_ones _ 8) by lia. f_equal. f_equal.
  rewrite Z.pow_mul_r by lia. done.
Qed.

Lemma be_bytes_range n v : Forall (fun b => 0 <= b < 256) (be_bytes n v).
Proof. induction n as [|n IH]; constructor; [by apply Z.mod_pos_bound|done]. Qed.

(** Shifting octets into an accumulator that has room for them. *)
Lemma shift_in_fold w l acc :
  8 <= w -> Forall (fun b => 0 <= b < 256) l -> 0 <= acc -> acc * 256 ^ zlen l + be_value l < 2 ^ w ->
  fold_left (shift_in w) l acc = acc * 256 ^ zlen l + be_value l.
Proof.
  intros Hw Hl. revert acc. induction Hl as [|b l Hb Hl IH]; intros acc Ha Hlt.
  { change (acc = acc * 1 + 0). lia. }
  rewrite be_value_cons, zlen_cons in *. pose proof (zlen_nonneg l).
  rewrite Z.pow_add_r in * by lia. change (256 ^ 1) with 256 in *.
  pose proof (be_value_range l Hl). cbn [fold_left].
  assert (shift_in w acc b = acc * 256 + b) as ->.
  { unfold shift_in. rewrite Z.shiftl_mul_pow2 by lia. change (2 ^ 8) with 256.
    rewrite wrap_u_id by nia. replace (acc * 256) with (Z.shiftl acc 8) at 1
      by (by rewrite Z.shiftl_mul_pow2). by apply (lor_disjoint acc b 8). }
  rewrite IH by nia. ring.
Qed.

Lemma all_ones_val len : 1 <= len <= 8 -> all_ones len = 2 ^ (7 * len) - 1.
Proof.
  intros H. unfold all_ones. cbv zeta. destruct (Z.leb_spec 64 (7 * len)); [lia|].
  rewrite Z.shiftl_mul_pow2 by lia. lia.
Qed.

(** Every leading octet but zero announces a length and carries that length's
    marker above its data bits. *)
Lemma first_octet f :
  0 <= f < 256 ->
  if f =? 0 then vint_len f = None
  else exists len, vint_len f = Some len /\ 1 <= len <= 8 /\
       2 ^ (8 - len) <= f < 2 ^ (9 - len) /\ strip_marker f len = f - 2 ^ (8 - len).
Proof.
  intros Hf.
  assert (forallb (fun n => let f := Z.of_nat n in
    match vint_len f with
    | None => f =? 0
    | Some len => negb (f =? 0) && (1 <=? len) && (len <=? 8) && (2 ^ (8 - len) <=? f) &&
        (f <? 2 ^ (9 - len)) && (strip_marker f len =? f - 2 ^ (8 - len))
    end) (seq 0 256) = true) as Hall by (vm_compute; reflexivity).
  rewrite forallb_forall in Hall. specialize (Hall (Z.to_nat f)).
  rewrite Z2Nat.id in Hall by lia. specialize (Hall ltac:(apply in_seq; lia)).
  cbv zeta in Hall. destruct (vint_len f) as [len|]; breflect.
  - destruct (Z.eqb_spec f 0); [lia|]. exists len. repeat split; (done || lia).
  - by rewrite Hall.
Qed.

Lemma marked_first f len :
  1 <= len <= 8 -> 2 ^ (8 - len) <= f < 2 ^ (9 - len) ->
  vint_len f = Some len /\ strip_marker f len = f - 2 ^ (8 - len).
Proof.
  intros Hl Hf. assert (2 ^ (9 - len) <= 2 ^ 8) by (apply Z.pow_le_mono_r; lia).
  assert (0 < 2 ^ (8 - len)) by (apply Z.pow_pos_nonneg; lia).
  pose proof (first_octet f ltac:(lia)) as H1. destruct (Z.eqb_spec f 0); [lia|].
  destruct H1 as (len' & Hv & Hl' & Hf' & Hs).
  enough (len' = len) as -> by done.
  destruct (Z.lt_trichotomy len len') as [Hlt|[|Hlt]]; [|done|].
  - assert (2 ^ (9 - len') <= 2 ^ (8 - len)) by (apply Z.pow_le_mono_r; lia). lia.
  - assert (2 ^ (9 - len) <= 2 ^ (8 - len')) by (apply Z.pow_le_mono_r; lia). lia.
Qed.

(** A VINT is its marker bit and its value, big-endian. *)
Lemma vint_octets v len :
  1 <= len <= 8 -> 0 <= v < 2 ^ (7 * len) ->
  exists h rest, vint v len = 2 ^ (8 - len) + h :: rest /\ 0 <= h < 2 ^ (8 - len) /\
    Forall (fun b => 0 <= b < 256) rest /\ zlen rest = len - 1 /\
    h * 256 ^ (len - 1) + be_value rest = v.
Proof.
  intros Hl Hv. unfold vint, clamp_len. cbv zeta. rewrite Z.min_l, Z.max_r by lia.
  rewrite octets_be_bytes. replace (Z.to_nat len) with (S (Z.to_nat (len - 1))) by lia. cbn [be_bytes].
  rewrite Z2Nat.id by lia. set (n := Z.to_nat (len - 1)).
  assert (0 < 256 ^ (len - 1)) as Hp by (apply Z.pow_pos_nonneg; lia).
  assert (2 ^ (7 * len) = 2 ^ (8 - len) * 256 ^ (len - 1)) as Epow.
  { change 256 with (2 ^ 8). rewrite <- Z.pow_mul_r, <- Z.pow_add_r by lia. f_equal. lia. }
  assert (2 ^ (8 - len) <= 2 ^ 7) as Hle by (apply Z.pow_le_mono_r; lia).
  assert (0 <= v / 256 ^ (len - 1) < 2 ^ (8 - len)) as Hh.
  { split; [apply Z.div_pos; lia|]. apply Z.div_lt_upper_bound; nia. }
  exists (v / 256 ^ (len - 1)), (be_bytes n v). split; [|split; [done|split; [apply be_bytes_range|split]]].
  - f_equal. rewrite (Z.mod_small (v / _)) by lia. rewrite Z.shiftr_div_pow2 by lia.
    assert (128 / 2 ^ (len - 1) = 2 ^ (8 - len)) as ->.
    { symmetry. apply Z.div_unique_exact; [by apply Z.pow_nonzero; lia|].
      rewrite <- Z.pow_add_r by lia. change 128 with (2 ^ 7). f_equal. lia. }
    rewrite Z.lor_comm. replace (2 ^ (8 - len)) with (Z.shiftl 1 (8 - len)) at 1
      by (rewrite Z.shiftl_mul_pow2 by lia; lia).
    rewrite lor_disjoint by lia. lia.
  - unfold zlen. rewrite length_be_bytes. lia.
  - rewrite be_value_be_bytes. replace (Z.of_nat n) with (len - 1) by lia.
    pose proof (Z.div_mod v (256 ^ (len - 1))). lia.
Qed.

Lemma first_chunk_app {A} n (l k : list A) : zlen l = n -> first_chunk n (l ++ k) = Some l.
Proof.
  intros <-. apply first_chunk_Some. rewrite zlen_app. pose proof (zlen_nonneg k). split; [lia|].
  unfold zlen. by rewrite Nat2Z.id, take_app_length.
Qed.

(** What [read_size] makes of a buffer that starts with a whole VINT. *)
Lemma read_size_octets h rest buf len m :
  1 <= len <= 8 -> len <= m -> 0 <= h < 2 ^ (8 - len) -> Forall (fun b => 0 <= b < 256) rest ->
  zlen rest = len - 1 ->
  read_size ((2 ^ (8 - len) + h :: rest) ++ buf) m =
    Ok (size_of (h * 256 ^ (len - 1) + be_value rest) len, len).
Proof.
  intros Hl Hm Hh Hr Hz.
  assert (2 ^ (9 - len) = 2 * 2 ^ (8 - len)) as E9.
  { rewrite <- (Z.pow_add_r 2 1) by lia. f_equal. lia. }
  destruct (marked_first (2 ^ (8 - len) + h) len Hl ltac:(lia)) as [Hv Hs].
  unfold read_size. cbn [app]. rewrite Hv. destruct (Z.ltb_spec m len); [lia|].
  change (2 ^ (8 - len) + h :: rest ++ buf) with ((2 ^ (8 - len) + h :: rest) ++ buf).
  rewrite first_chunk_app by (rewrite zlen_cons; lia). cbn [tail]. rewrite Hs.
  replace (2 ^ (8 - len) + h - 2 ^ (8 - len)) with h by lia. do 3 f_equal.
  pose proof (be_value_range rest Hr) as Hb. rewrite Hz in Hb.
  assert (256 ^ (len - 1) * 2 ^ (8 - len) = 2 ^ (7 * len)) as Ep.
  { change 256 with (2 ^ 8). rewrite <- Z.pow_mul_r, <- Z.pow_add_r by lia. f_equal. lia. }
  assert (2 ^ (7 * len) <= 2 ^ 56) by (apply Z.pow_le_mono_r; lia).
  rewrite shift_in_fold; rewrite ?Hz; (done || lia || nia).
Qed.

Lemma read_size_vint v len buf m :
  1 <= len <= 8 -> len <= m -> 0 <= v < 2 ^ (7 * len) ->
  read_size (vint v len ++ buf) m = Ok (size_of v len, len) /\ zlen (vint v len) = len.
Proof.
  intros Hl Hm Hv. destruct (vint_octets v len Hl Hv) as (h & rest & -> & Hh & Hr & Hz & <-).
  split; [by apply read_size_octets|]. rewrite zlen_cons. lia.
Qed.

(** A read consumes a whole VINT, and re-encoding it at its length restores the
    octets. *)
Lemma read_size_sound buf m s len :
  Forall (fun b => 0 <= b < 256) buf -> read_size buf m = Ok (s, len) ->
  1 <= len <= 8 /\ len <= m /\ len <= zlen buf /\
  take (Z.to_nat len) buf = match s with Known n => vint n len | Unknown => vint_unknown len end /\
  match s with Known n => 0 <= n < 2 ^ (7 * len) - 1 | Unknown => True end.
Proof.
  intros Hb. unfold read_size. destruct buf as [|f rest]; [done|].
  apply Forall_cons in Hb as [Hf Hb]. pose proof (first_octet f Hf) as H1.
  destruct (Z.eqb_spec f 0) as [|Hf0]; [by rewrite H1|].
  destruct H1 as (n & Hv & Hl & Hr & Hs). rewrite Hv. destruct (Z.ltb_spec m n); [done|]. destruct (first_chunk n (f :: rest)) as [sl|] eqn:E; [|done].
  apply first_chunk_Some in E as [Hn ->]. intros [= Es <-].
  replace (Z.to_nat n) with (S (Z.to_nat (n - 1))) in * by lia. cbn [take tail] in *.
  set (tl := take (Z.to_nat (n - 1)) rest) in *.
  assert (Forall (fun b => 0 <= b < 256) tl) as Ht by (by apply Forall_take).
  assert (zlen tl = n - 1) as Hz. { apply zlen_take. rewrite zlen_cons in Hn. lia. }
  set (h := f - 2 ^ (8 - n)) in *.
  assert (2 ^ (9 - n) = 2 * 2 ^ (8 - n)) as E9.
  { rewrite <- (Z.pow_add_r 2 1) by lia. f_equal. lia. }
  pose proof (be_value_range tl Ht) as Hbt. rewrite Hz in Hbt.
  assert (256 ^ (n - 1) * 2 ^ (8 - n) = 2 ^ (7 * n)) as Ep.
  { change 256 with (2 ^ 8). rewrite <- Z.pow_mul_r, <- Z.pow_add_r by lia. f_equal. lia. }
  assert (2 ^ (7 * n) <= 2 ^ 56) by (apply Z.pow_le_mono_r; lia).
  rewrite Hs in Es. rewrite shift_in_fold in Es; rewrite ?Hz in *; (done || lia || nia || idtac).
  set (v := h * 256 ^ (n - 1) + be_value tl) in *.
  assert (0 <= v < 2 ^ (7 * n)) as Hvr by (unfold v; nia).
  assert (vint v n = f :: tl) as Henc.
  { destruct (vint_octets v n Hl Hvr) as (h' & r' & -> & Hh' & Hr' & Hz' & Ev). unfold v in Ev.
    pose proof (be_value_range r' Hr') as Hbr. rewrite Hz' in Hbr.
    assert (h' = h) as -> by nia. assert (be_value r' = be_value tl) as Eb by nia.
    f_equal; [unfold h; lia|].
    rewrite <- (be_bytes_be_value r' Hr'), <- (be_bytes_be_value tl Ht), Eb. f_equal. unfold zlen in *. lia. }
  unfold size_of in Es. rewrite all_ones_val in Es by done.
  split; [done|]. split; [done|]. split; [done|].
  destruct (Z.eqb_spec v (2 ^ (7 * n) - 1)) as [Ev|Ev]; subst s.
  - split; [|done]. unfold vint_unknown, clamp_len. rewrite Z.min_l, Z.max_r by lia.
    by rewrite all_ones_val, <- Ev by done.
  - split; [done|lia].
Qed.

Lemma vint_min_spec v :
  0 <= v < 2 ^ 56 - 1 ->
  exists len, 1 <= len <= 8 /\ vint_min v = vint v len /\ v < all_ones len /\
    forall k, 1 <= k < len -> all_ones k <= v.
Proof.
  intros Hv. unfold vint_min.
  assert (forall fuel len, 1 <= len -> len + Z.of_nat fuel = 9 -> (forall k, 1 <= k < len -> all_ones k <= v) ->
    exists n, 1 <= n <= 8 /\ vint_min_from fuel len v = vint v n /\ v < all_ones n /\
      forall k, 1 <= k < n -> all_ones k <= v) as Hgen; [|by apply (Hgen 8%nat 1); [lia|lia|lia]].
  induction fuel as [|fuel IH]; intros len Hl Hf Hk.
  - specialize (Hk 8 ltac:(lia)). rewrite all_ones_val in Hk by lia. simpl in Hk. lia.
  - cbn [vint_min_from]. destruct (Z.ltb_spec v (all_ones len)).
    + exists len. repeat split; (done || lia || apply Hk).
    + apply IH; [lia|lia|]. intros k Hk'. destruct (decide (k = len)) as [->|]; [done|]. apply Hk. lia.
Qed.

Lemma signed_vint_spec v :
  - (2 ^ 55 - 1) <= v < 2 ^ 55 ->
  exists len, 1 <= len <= 8 /\ signed_vint v = vint (v + (2 ^ (7 * len - 1) - 1)) len /\
    0 <= v + (2 ^ (7 * len - 1) - 1) < 2 ^ (7 * len) - 1.
Proof.
  intros Hv. unfold signed_vint.
  assert (forall fuel len, 1 <= len -> len + Z.of_nat fuel = 9 -> (fuel <> 0)%nat ->
    exists n, 1 <= n <= 8 /\ signed_vint_from fuel len v = vint (v + (2 ^ (7 * n - 1) - 1)) n /\
      0 <= v + (2 ^ (7 * n - 1) - 1) < 2 ^ (7 * n) - 1) as Hgen; [|by apply (Hgen 8%nat 1); lia].
  induction fuel as [|fuel IH]; intros len Hl Hf Hf0; [done|]. cbn [signed_vint_from].
  rewrite !Z.shiftl_mul_pow2, !Z.mul_1_l by lia.
  assert (2 ^ (7 * len - 1) <= 2 ^ 55) by (apply Z.pow_le_mono_r; lia).
  assert (0 < 2 ^ (7 * len - 1)) by (apply Z.pow_pos_nonneg; lia).
  rewrite checked_i_in by (apply in_i_spec; simpl; lia).
  destruct (Z.leb_spec 64 (7 * len)); [lia|].
  destruct (Z.leb_spec 0 (v + (2 ^ (7 * len - 1) - 1))), (Z.ltb_spec (v + (2 ^ (7 * len - 1) - 1)) (2 ^ (7 * len) - 1));
    cbn [andb]; try (by exists len; repeat split; (done || lia)).
  all: destruct fuel as [|fuel']; [exfalso; replace len with 8 in * by lia; simpl in *; lia|apply IH; lia].
Qed.

(** The IDs RFC 8794 allows: a length marker in the leading octet, followed by
    that many octets. *)
Definition valid_id (id len : Z) : Prop := 1 <= len <= 4 /\ 2 ^ (7 * len) <= id < 2 ^ (7 * len + 1).

Lemma drop_be_bytes n m v : drop n (be_bytes (n + m) v) = be_bytes m v.
Proof. induction n as [|n IH]; [done|]. cbn [Nat.add be_bytes drop]. apply IH. Qed.

Lemma id_bytes_spec id len :
  valid_id id len ->
  id_bytes id = be_bytes (Z.to_nat len) id /\
  exists f rest, id_bytes id = f :: rest /\ 2 ^ (8 - len) <= f < 2 ^ (9 - len) /\ zlen rest = len - 1 /\
    Forall (fun b => 0 <= b < 256) (f :: rest) /\ be_value (f :: rest) = id.
Proof.
  intros [Hl Hid].
  assert (id_bytes id = be_bytes (Z.to_nat len) id) as E.
  { assert (id_len id = len) as El.
    { unfold id_len. assert (len = 1 \/ len = 2 \/ len = 3 \/ len = 4) as Hc by lia.
      destruct Hc as [->|[->|[->| ->]]]; simpl in Hid;
        repeat (case_match; breflect; try lia; try done);
        repeat match goal with H : (_ && _) = false |- _ => apply andb_false_iff in H as [H|H] end; breflect; lia. }
    unfold id_bytes. rewrite El. replace 4%nat with (Z.to_nat (4 - len) + Z.to_nat len)%nat by lia.
    apply drop_be_bytes. }
  split; [done|]. rewrite E.
  assert (id < 256 ^ len) as Hlt.
  { change 256 with (2 ^ 8). rewrite <- Z.pow_mul_r by lia.
    assert (2 ^ (7 * len + 1) <= 2 ^ (8 * len)) by (apply Z.pow_le_mono_r; lia). lia. }
  assert (0 < 2 ^ (7 * len)) by (apply Z.pow_pos_nonneg; lia).
  assert (be_value (be_bytes (Z.to_nat len) id) = id) as Hv.
  { rewrite be_value_be_bytes, Z2Nat.id, Z.mod_small by lia. done. }
  pose proof (be_bytes_range (Z.to_nat len) id) as Hr.
  assert (zlen (be_bytes (Z.to_nat len) id) = len) as Hz by (unfold zlen; rewrite length_be_bytes; lia).
  destruct (be_bytes (Z.to_nat len) id) as [|f rest]; [change (0 = len) in Hz; lia|].
  exists f, rest. rewrite zlen_cons in Hz. split; [done|].
  split; [|split; [lia|by split]].
  apply Forall_cons in Hr as [Hf Hr]. pose proof (be_value_range rest Hr) as Hb.
  rewrite be_value_cons in Hv. replace (zlen rest) with (len - 1) in * by lia.
  assert (2 ^ (7 * len) = 2 ^ (8 - len) * 256 ^ (len - 1)) as E1.
  { change 256 with (2 ^ 8). rewrite <- Z.pow_mul_r, <- Z.pow_add_r by lia. f_equal. lia. }
  assert (2 ^ (7 * len + 1) = 2 ^ (9 - len) * 256 ^ (len - 1)) as E2.
  { change 256 with (2 ^ 8). rewrite <- Z.pow_mul_r, <- Z.pow_add_r by lia. f_equal. lia. }
  rewrite E1, E2 in Hid. nia.
Qed.

Lemma read_id_bytes id len buf m :
  valid_id id len -> len <= m ->
  read_id (id_bytes id ++ buf) m = Ok (id, len) /\ zlen (id_bytes id) = len.
Proof.
  intros Hid Hm. destruct (id_bytes_spec id len Hid) as (_ & f & rest & E & Hf & Hz & Hr & Hv).
  destruct Hid as [Hl Hid]. rewrite E.
  destruct (marked_first f len ltac:(lia) Hf) as [Hlen _].
  split; [|rewrite zlen_cons; lia].
  unfold read_id. cbn [app]. rewrite Hlen. destruct (Z.ltb_spec m len); [lia|].
  change (f :: rest ++ buf) with ((f :: rest) ++ buf).
  rewrite first_chunk_app by (rewrite zlen_cons; lia). do 2 f_equal.
  pose proof (be_value_range (f :: rest) Hr) as Hb. rewrite zlen_cons in Hb.
  rewrite shift_in_fold; [lia|lia|done|lia|]. rewrite Hv. 
  assert (2 ^ (7 * len + 1) <= 2 ^ 29) by (apply Z.pow_le_mono_r; lia). lia.
Qed.

(** ** The codec *)

(** C9. The VINT codec is exact. The shortest encoding of a size reads back as
    that size and no shorter one exists; the unknown marker of every length
    reads back as unknown; an ID that carries its marker and every signed delta
    in range read back unchanged; and conversely, whatever [read_size] accepts
    is, octet for octet, the encoding of what it returned at the length it
    consumed. *)
Theorem vint_codec v id len buf m s n :
  Forall (fun b => 0 <= b < 256) buf -> valid_id id len -> len <= MAX_ID_LEN ->
  (0 <= v < 2 ^ 56 - 1 ->
     exists l, read_size (vint_min v ++ buf) MAX_SIZE_LEN = Ok (Known v, l) /\ zlen (vint_min v) = l /\
       forall w k, 1 <= k < l -> 0 <= w < 2 ^ (7 * k) -> read_size (vint w k) MAX_SIZE_LEN <> Ok (Known v, k)) /\
  (forall l, 1 <= l <= 8 -> read_size (vint_unknown l ++ buf) MAX_SIZE_LEN = Ok (Unknown, l)) /\
  read_id (id_bytes id ++ buf) MAX_ID_LEN = Ok (id, len) /\
  (- (2 ^ 55 - 1) <= v < 2 ^ 55 ->
     read_signed_vint (signed_vint v ++ buf) = Ok (v, zlen (signed_vint v))) /\
  (read_size buf m = Ok (s, n) ->
     1 <= n <= 8 /\ n <= m /\
     buf = match s with Known v => vint v n | Unknown => vint_unknown n end ++ drop (Z.to_nat n) buf).
Proof.
  intros Hb Hid Hlen. unfold MAX_SIZE_LEN. split; [|split; [|split; [|split]]].
  - intros Hv. destruct (vint_min_spec v Hv) as (l & Hl & -> & Hlt & Hk).
    rewrite all_ones_val in Hlt by done. destruct (read_size_vint v l buf 8) as [-> Hz]; [lia..|].
    exists l. unfold size_of. rewrite all_ones_val by done. destruct (Z.eqb_spec v (2 ^ (7 * l) - 1)); [lia|].
    split; [done|]. split; [done|]. intros w k Hkl Hw E.
    rewrite <- (app_nil_r (vint w k)) in E. rewrite (proj1 (read_size_vint w k [] 8 ltac:(lia) ltac:(lia) Hw)) in E.
    injection E as E. specialize (Hk k Hkl). rewrite all_ones_val in Hk by lia. unfold size_of in E.
    rewrite all_ones_val in E by lia. destruct (Z.eqb_spec w (2 ^ (7 * k) - 1)); simplify_eq. lia.
  - intros l Hl. unfold vint_unknown, clamp_len. rewrite Z.min_l, Z.max_r by lia. rewrite all_ones_val by done.
    assert (0 < 2 ^ (7 * l)) by (apply Z.pow_pos_nonneg; lia).
    rewrite (proj1 (read_size_vint (2 ^ (7 * l) - 1) l buf 8 Hl (proj2 Hl) ltac:(lia))).
    unfold size_of. by rewrite all_ones_val, Z.eqb_refl by done.
  - by apply read_id_bytes.
  - intros Hv. destruct (signed_vint_spec v Hv) as (l & Hl & -> & Hr).
    set (raw := v + _) in *. destruct (read_size_vint raw l buf 8) as [E Hz]; [lia..|].
    unfold read_signed_vint, MAX_SIZE_LEN. rewrite E, Hz. unfold size_of. rewrite all_ones_val by done.
    destruct (Z.eqb_spec raw (2 ^ (7 * l) - 1)); [lia|]. rewrite Z.shiftl_mul_pow2, Z.mul_1_l by lia.
    assert (2 ^ (7 * l - 1) <= 2 ^ 55) by (apply Z.pow_le_mono_r; lia).
    assert (forall z, - 2 ^ 63 <= z < 2 ^ 63 -> wrap_i 64 z = z) as Hw.
    { intros z Hz'. unfold wrap_i. simpl in *. rewrite Z.mod_small; lia. }
    assert (2 ^ (7 * l) <= 2 ^ 56) by (apply Z.pow_le_mono_r; lia).
    rewrite (Hw raw) by lia. rewrite Hw by lia. do 2 f_equal. unfold raw. lia.
  - intros E. destruct (read_size_sound buf m s n Hb E) as (H1 & H2 & H3 & H4 & _).
    split; [done|]. split; [done|]. rewrite <- H4. by rewrite take_drop.
Qed.

Lemma vint_codec_witness :
  read_id (id_bytes 440786851 ++ [66; 134]) MAX_ID_LEN = Ok (440786851, 4) /\
  read_size (vint_min 500 ++ [66; 134]) MAX_SIZE_LEN = Ok (Known 500, 2).
Proof.
  assert (Forall (fun b => 0 <= b < 256) [66; 134]) as Hb by (repeat constructor; lia).
  assert (valid_id 440786851 4) as Hid by (split; simpl; lia).
  destruct (vint_codec 500 440786851 4 [66; 134] 8 Unknown 1 Hb Hid ltac:(done)) as (H1 & _ & H2 & _).
  split; [exact H2|]. destruct (H1 ltac:(lia)) as (l & E & Hl & _). rewrite E. by rewrite <- Hl.
Defined.

(** Past the largest size the encoders give up silently: 2^56 - 1 is written as
    the unknown marker, larger sizes lose their high bits, and a signed delta
    out of range is written as the smallest one. *)
Lemma encoders_out_of_range :
  read_size (vint_min (2 ^ 56 - 1)) 8 = Ok (Unknown, 8) /\
  read_size (vint_min (2 ^ 56 + 5)) 8 = Ok (Known 5, 8) /\
  read_signed_vint (signed_vint (2 ^ 55)) = Ok (- (2 ^ 55 - 1), 8).
Proof. vm_compute. done. Qed.

(** ** Children *)

Lemma read_id_sound buf m id n :
  Forall (fun b => 0 <= b < 256) buf -> read_id buf m = Ok (id, n) -> 1 <= n <= 8 /\ n <= zlen buf.
Proof.
  intros Hb. unfold read_id. destruct buf as [|f rest]; [done|].
  apply Forall_cons in Hb as [Hf Hb]. pose proof (first_octet f Hf) as H1.
  destruct (Z.eqb_spec f 0) as [|Hf0]; [by rewrite H1|].
  destruct H1 as (l & -> & Hl & _). destruct (m <? l); [done|].
  destruct (first_chunk l (f :: rest)) as [sl|] eqn:E; [|done].
  apply first_chunk_Some in E as [? _]. by intros [= _ <-].
Qed.

(** The child a cursor gives lies in the data, behind a header of at least two
    octets, and the cursor moves past it. *)
Lemma next_sound it c it' :
  buffer (data it) -> 0 <= pos it <= zlen (data it) -> next it = (Some c, it') ->
  data it' = data it /\ ccaps it' = ccaps it /\ child_offset c = pos it /\
  pos it + 2 <= data_offset c /\ pos it' = data_offset c + zlen (child_data c) /\
  pos it' <= zlen (data it) /\
  child_data c = take (length (child_data c)) (drop (Z.to_nat (data_offset c)) (data it)).
Proof.
  intros [Hb Hz] Hp. unfold next. rewrite get_from_drop by done. cbn [mbind option_bind].
  set (rest := drop (Z.to_nat (pos it)) (data it)).
  assert (zlen rest = zlen (data it) - pos it) as Hr by (by apply zlen_drop).
  assert (Forall (fun b => 0 <= b < 256) rest) as Hrb by (by apply Forall_drop).
  destruct rest as [|b0 rest0] eqn:Erest; [done|]. rewrite <- Erest in *. clear Erest rest0.
  destruct (read_id rest (max_id_len (ccaps it))) as [[id n]|] eqn:Ei; [|done]. cbn [ok mbind option_bind].
  destruct (read_id_sound _ _ _ _ Hrb Ei) as [Hn Hn'].
  rewrite get_from_drop by lia. cbn [mbind option_bind].
  destruct (read_size (drop (Z.to_nat n) rest) (max_size_len (ccaps it))) as [[s m]|] eqn:Es; [|done].
  cbn [ok mbind option_bind].
  destruct (read_size_sound _ _ _ _ (Forall_drop _ _ _ Hrb) Es) as (Hm & _ & Hm' & _ & Hs).
  rewrite zlen_drop in Hm' by lia.
  rewrite checked_u_in by (apply in_u_spec; simpl; lia). cbn [mbind option_bind].
  rewrite get_from_drop by lia. cbn [mbind option_bind].
  set (body := drop (Z.to_nat (n + m)) rest).
  assert (zlen body = zlen rest - (n + m)) as Hbody by (apply zlen_drop; lia).
  set (k := match s with Known n => Z.min n (zlen body) | Unknown => zlen body end).
  assert (0 <= k <= zlen body) as Hk.
  { unfold k. pose proof (zlen_nonneg body). destruct s; lia. }
  destruct (first_chunk k body) as [d|] eqn:Ed; [|done]. apply first_chunk_Some in Ed as [_ ->].
  cbn [mbind option_bind].
  rewrite !checked_u_in by (apply in_u_spec; simpl; lia). cbn [mbind option_bind].
  rewrite checked_u_in by (apply in_u_spec; simpl; lia). cbn [mbind option_bind].
  intros [= <- <-]. cbn. rewrite zlen_take by done. repeat (split; [done || lia|]).
  rewrite length_take, Nat.min_l by (unfold zlen in *; lia). unfold body, rest. rewrite !drop_drop.
  f_equal. f_equal. lia.
Qed.

Lemma next_element it id len body tail :
  buffer (data it) -> 0 <= pos it -> ccaps it = caps_default -> valid_id id len ->
  zlen body < 2 ^ 56 - 1 ->
  drop (Z.to_nat (pos it)) (data it) = element id body ++ tail ->
  exists it', next it = (Some (Child id body (pos it) (pos it + zlen (element id body) - zlen body)), it') /\
    data it' = data it /\ ccaps it' = ccaps it /\
    drop (Z.to_nat (pos it')) (data it) = tail /\ pos it' = pos it + zlen (element id body).
Proof.
  intros [Hb Hz] Hp Hc Hid Hbody Hd.
  destruct (vint_min_spec (zlen body)) as (l & Hl & Ev & Hlt & _); [pose proof (zlen_nonneg body); lia|].
  rewrite all_ones_val in Hlt by done.
  destruct (read_id_bytes id len (vint_min (zlen body) ++ body ++ tail) MAX_ID_LEN Hid (proj2 (proj1 Hid)))
    as [Eid Hzid].
  destruct (read_size_vint (zlen body) l (body ++ tail) MAX_SIZE_LEN Hl (proj2 Hl)) as [Es Hzs];
    [pose proof (zlen_nonneg body); lia|].
  rewrite <- Ev in Es, Hzs.
  assert (pos it <= zlen (data it)) as Hp'.
  { destruct (Z.le_gt_cases (pos it) (zlen (data it))); [done|].
    rewrite drop_ge in Hd by (unfold zlen in *; lia). symmetry in Hd. apply app_nil in Hd as [Hd _].
    unfold element in Hd. apply app_nil in Hd as [Hd _]. destruct Hid as [? _]. rewrite Hd in Hzid.
    change (0 = len) in Hzid. lia. }
  assert (zlen (element id body ++ tail) = zlen (data it) - pos it) as Hlen.
  { rewrite <- Hd. by apply zlen_drop. }
  unfold element in Hd, Hlen. rewrite !zlen_app, Hzid, Hzs in Hlen.
  pose proof (zlen_nonneg body). pose proof (zlen_nonneg tail). destruct Hid as [Hlen' Hid].
  unfold next. rewrite get_from_drop by lia. cbn [mbind option_bind]. rewrite Hd.
  rewrite <- !app_assoc. rewrite <- !app_assoc in Hd.
  remember (id_bytes id ++ vint_min (zlen body) ++ body ++ tail) as rest eqn:Erest.
  destruct rest as [|b0 rest0].
  { symmetry in Erest. apply app_nil in Erest as [E _]. rewrite E in Hzid. change (0 = len) in Hzid. lia. }
  rewrite Erest in *. rewrite Hc. cbn [max_id_len max_size_len caps_default].
  rewrite Eid. cbn [ok mbind option_bind].
  assert (forall (l k : list Z) n, zlen l = n -> get_from (l ++ k) n = Some k) as Hget.
  { intros l1 k1 n <-. pose proof (zlen_nonneg l1). pose proof (zlen_nonneg k1).
    rewrite get_from_drop by (rewrite zlen_app; lia). unfold zlen. by rewrite Nat2Z.id, drop_app_length. }
  rewrite (Hget _ _ len Hzid). cbn [mbind option_bind]. rewrite Es. unfold size_of.
  rewrite all_ones_val by done. destruct (Z.eqb_spec (zlen body) (2 ^ (7 * l) - 1)); [lia|].
  cbn [ok mbind option_bind].
  rewrite checked_u_in by (apply in_u_spec; simpl; lia). cbn [mbind option_bind].
  rewrite app_assoc, (Hget (id_bytes id ++ vint_min (zlen body))) by (rewrite zlen_app; lia).
  cbn [mbind option_bind]. rewrite zlen_app, Z.min_l by lia. rewrite first_chunk_app by done.
  cbn [mbind option_bind].
  rewrite !checked_u_in by (apply in_u_spec; simpl; lia). cbn [mbind option_bind].
  rewrite checked_u_in by (apply in_u_spec; simpl; lia). cbn [mbind option_bind].
  unfold element. rewrite !zlen_app, Hzid, Hzs.
  replace (pos it + (len + (l + zlen body)) - zlen body) with (pos it + (len + l)) by lia.
  eexists. split; [reflexivity|]. cbn. repeat (split; [done|]). split; [|lia].
  replace (Z.to_nat (pos it + (len + l) + zlen body)) with (Z.to_nat (pos it) + Z.to_nat (len + l + zlen body))%nat by lia.
  rewrite <- drop_drop, Hd, !app_assoc.
  replace (Z.to_nat (len + l + zlen body)) with (length ((id_bytes id ++ vint_min (zlen body)) ++ body));
    [by rewrite drop_app_length|]. unfold zlen in *. rewrite !length_app. lia.
Qed.

(** Iterate to the end. *)
Fixpoint walk (fuel : nat) (it : children) : list child * children :=
  match fuel with
  | O => ([], it)
  | S fuel =>
    match next it with
    | (Some c, it) => let (cs, it) := walk fuel it in (c :: cs, it)
    | (None, it) => ([], it)
    end
  end.

(** Children that lie in [d] one after another from [p] on, each with a header
    of two octets or more. *)
Fixpoint laid_out (d : bytes) (p : Z) (cs : list child) : Prop :=
  match cs with
  | [] => p <= zlen d
  | c :: cs =>
    child_offset c = p /\ p + 2 <= data_offset c /\
    child_data c = take (length (child_data c)) (drop (Z.to_nat (data_offset c)) d) /\
    laid_out d (data_offset c + zlen (child_data c)) cs
  end.

Lemma next_none it it' : next it = (None, it') -> it' = it.
Proof. unfold next. destruct (_ ≫= _) as [[c p]|]; by intros [= <-]. Qed.

Lemma walk_sound fuel it :
  buffer (data it) -> 0 <= pos it <= zlen (data it) ->
  let (cs, it') := walk fuel it in
  laid_out (data it) (pos it) cs /\
  (zlen (data it) - pos it < Z.of_nat fuel -> next it' = (None, it')).
Proof.
  revert it. induction fuel as [|fuel IH]; intros it Hb Hp; cbn [walk]; [split; [cbn; lia|intros; lia]|].
  destruct (next it) as [[c|] it1] eqn:E.
  - destruct (next_sound it c it1 Hb Hp E) as (H1 & H2 & H3 & H4 & H5 & H6 & H7).
    pose proof (zlen_nonneg (child_data c)). specialize (IH it1). rewrite H1 in IH.
    specialize (IH Hb ltac:(lia)). destruct (walk fuel it1) as [cs it2]. destruct IH as [IH1 IH2].
    split; [|intros Hf; apply IH2; lia]. cbn [laid_out]. rewrite <- H5.
    split; [done|]. split; [lia|]. by split.
  - apply next_none in E as H1. subst it1. split; [cbn; lia|by intros _].
Qed.

(** The [n] entries of a written master, as children at their offsets. *)
Fixpoint entries (p : Z) (es : list (Z * bytes)) : list child :=
  match es with
  | [] => []
  | (id, body) :: es =>
    Child id body p (p + zlen (element id body) - zlen body) :: entries (p + zlen (element id body)) es
  end.

Definition writable (e : Z * bytes) : Prop := (exists len, valid_id e.1 len) /\ zlen e.2 < 2 ^ 56 - 1.

Definition written (es : list (Z * bytes)) : bytes := concat (map (fun e => element e.1 e.2) es).

Lemma walk_elements es fuel it :
  buffer (data it) -> 0 <= pos it -> ccaps it = caps_default -> Forall writable es ->
  drop (Z.to_nat (pos it)) (data it) = written es -> (length es < fuel)%nat ->
  fst (walk fuel it) = entries (pos it) es.
Proof.
  intros Hb. revert es it Hb. induction fuel as [|fuel IH]; intros es it Hb Hp Hc Hes Hd Hf; [lia|].
  cbn [walk]. destruct es as [|[id body] es].
  - assert (next it = (None, it)) as ->; [|done].
    unfold next, get_from. destruct (_ && _); [|done]. cbn [mbind option_bind]. by rewrite Hd.
  - apply Forall_cons in Hes as [[[len Hid] Hbody] Hes]. cbn [fst snd] in *.
    destruct (next_element it id len body (written es) Hb Hp Hc Hid Hbody Hd)
      as (it' & -> & H1 & H2 & H3 & H4).
    pose proof (zlen_nonneg (element id body)). specialize (IH es it'). rewrite H1, H2, H4 in IH.
    rewrite H4 in H3. specialize (IH Hb ltac:(lia) Hc Hes H3 ltac:(simpl in Hf; lia)).
    destruct (walk fuel it') as [cs it2]. cbn [fst] in *. by rewrite IH.
Qed.

(** ** Values *)

Lemma drop_zeros_value l : be_value (drop_zeros l) = be_value l /\ zlen (drop_zeros l) <= zlen l.
Proof.
  induction l as [|b l IH]; [done|]. cbn [drop_zeros]. destruct l as [|c l]; [done|].
  destruct (Z.eqb_spec b 0) as [->|]; [|done]. rewrite (be_value_cons 0), (zlen_cons 0), Z.mul_0_l. lia.
Qed.

Lemma wrap_i_shift a b :
  0 <= b < 256 -> Z.lor (wrap_i 64 (Z.shiftl a 8)) b = wrap_i 64 (a * 256 + b).
Proof.
  intros Hb. rewrite Z.shiftl_mul_pow2 by lia. unfold wrap_i.
  set (q := (a + 2 ^ 55) mod 2 ^ 56).
  assert ((a * 2 ^ 8 + 2 ^ (64 - 1)) mod 2 ^ 64 = 256 * q) as ->.
  { unfold q. change (2 ^ 64) with (256 * 2 ^ 56). rewrite <- Z.mul_mod_distr_l by lia. f_equal. simpl. lia. }
  assert ((a * 256 + b + 2 ^ (64 - 1)) mod 2 ^ 64 = 256 * q + b) as ->.
  { pose proof (Z.mod_pos_bound (a + 2 ^ 55) (2 ^ 56) ltac:(lia)). fold q in H.
    symmetry. apply Z.mod_unique_pos with (q := (a + 2 ^ 55) / 2 ^ 56); [simpl in *; lia|].
    pose proof (Z.div_mod (a + 2 ^ 55) (2 ^ 56) ltac:(lia)). fold q in H0. simpl in *. lia. }
  replace (256 * q - 2 ^ (64 - 1)) with (Z.shiftl (q - 2 ^ 55) 8)
    by (rewrite Z.shiftl_mul_pow2 by lia; simpl; lia).
  rewrite lor_disjoint by (done || lia). simpl. lia.
Qed.

Lemma wrap_i_absorb x k y : wrap_i 64 (wrap_i 64 x * k + y) = wrap_i 64 (x * k + y).
Proof.
  unfold wrap_i. f_equal. pose proof (Z.div_mod (x + 2 ^ (64 - 1)) (2 ^ 64) ltac:(done)) as E.
  set (t := (x + 2 ^ (64 - 1)) / 2 ^ 64) in *.
  replace ((x + 2 ^ (64 - 1)) mod 2 ^ 64) with (x + 2 ^ (64 - 1) - 2 ^ 64 * t) by lia.
  replace ((x + 2 ^ (64 - 1) - 2 ^ 64 * t - 2 ^ (64 - 1)) * k + y + 2 ^ (64 - 1))
    with (x * k + y + 2 ^ (64 - 1) + (- t * k) * 2 ^ 64) by ring.
  by apply Z.mod_add.
Qed.

Lemma shift_in_i_fold l acc :
  Forall (fun b => 0 <= b < 256) l -> l <> [] ->
  fold_left shift_in_i l acc = wrap_i 64 (acc * 256 ^ zlen l + be_value l).
Proof.
  intros Hl. revert acc. induction Hl as [|b l Hb Hl IH]; intros acc Hne; [done|]. cbn [fold_left].
  unfold shift_in_i at 2. rewrite wrap_i_shift by done. rewrite be_value_cons, zlen_cons.
  pose proof (zlen_nonneg l). rewrite Z.pow_add_r by lia. change (256 ^ 1) with 256.
  destruct l as [|c l].
  - cbn [fold_left]. f_equal. change (be_value []) with 0. change (256 ^ zlen []) with 1. lia.
  - rewrite IH, wrap_i_absorb by done. f_equal. ring.
Qed.

Lemma as_int_spec l :
  Forall (fun b => 0 <= b < 256) l -> zlen l <= 8 ->
  as_int l = Some (match l with [] => 0 | b :: _ => if b <? 128 then be_value l else be_value l - 256 ^ zlen l end).
Proof.
  intros Hl Hz. unfold as_int. destruct (Z.ltb_spec 8 (zlen l)); [lia|]. destruct l as [|b l]; [done|].
  apply Forall_cons in Hl as [Hb Hl].
  assert ((Z.land b 128 =? 0) = (b <? 128)) as ->.
  { assert (forallb (fun n => Bool.eqb (Z.land (Z.of_nat n) 128 =? 0) (Z.of_nat n <? 128)) (seq 0 256) = true)
      as Hall by (vm_compute; reflexivity).
    rewrite forallb_forall in Hall. specialize (Hall (Z.to_nat b) ltac:(apply in_seq; lia)).
    rewrite Z2Nat.id in Hall by lia. by apply Bool.eqb_prop in Hall. }
  rewrite shift_in_i_fold by (by constructor || done). f_equal.
  pose proof (be_value_range l Hl) as Hr. rewrite be_value_cons. rewrite zlen_cons in *.
  pose proof (zlen_nonneg l). rewrite Z.pow_add_r by lia. change (256 ^ 1) with 256.
  assert (256 ^ zlen l * 256 <= 2 ^ 64) as Hp.
  { change 256 with (2 ^ 8). rewrite <- Z.pow_mul_r, <- Z.pow_add_r by lia. apply Z.pow_le_mono_r; lia. }
  assert (forall z, - 2 ^ 63 <= z < 2 ^ 63 -> wrap_i 64 z = z) as Hw.
  { intros z Hz'. unfold wrap_i. simpl in *. rewrite Z.mod_small; lia. }
  destruct (Z.ltb_spec b 128); cbn [negb]; rewrite Hw by nia; nia.
Qed.

(** A master reads back as it was written, and reading it is safe on any
    octets: the children of concatenated elements are exactly their IDs and
    bodies, in order and at their offsets; on arbitrary data the iteration ends
    and its children lie one after another inside the data, each behind a header
    of at least two octets; and unsigned and signed integer bodies give back
    their values. *)
Theorem children_roundtrip_and_bounds es d c v i :
  buffer (written es) -> Forall writable es -> buffer d -> 0 <= v < 2 ^ 64 -> in_i 64 i = true ->
  fst (walk (S (length (written es))) (slice_children (written es) caps_default)) = entries 0 es /\
  (let (cs, it) := walk (S (length d)) (slice_children d c) in laid_out d 0 cs /\ next it = (None, it)) /\
  as_uint (drop_zeros (be_bytes 8 v)) = Some v /\ as_int (be_bytes 8 i) = Some i.
Proof.
  intros Hw Hes Hd Hv Hi. split; [|split; [|split]].
  - apply (walk_elements es _ (slice_children (written es) caps_default)); [done|done|done|done|done|].
    apply Nat.lt_succ_r. clear -Hes. induction Hes as [|[id body] es [[len Hid] _] _ IH]; [done|].
    change (written ((id, body) :: es)) with (element id body ++ written es).
    rewrite length_app. cbn [length].
    destruct (read_id_bytes id len [] MAX_ID_LEN Hid (proj2 (proj1 Hid))) as [_ Hz]. destruct Hid as [? _].
    unfold element. rewrite length_app. unfold zlen in Hz. lia.
  - pose proof (walk_sound (S (length d)) (slice_children d c) Hd (conj (Z.le_refl 0) (zlen_nonneg d))) as H.
    destruct (walk _ _) as [cs it]. destruct H as [H1 H2]. split; [done|]. apply H2.
    unfold slice_children, zlen. cbn [data pos]. lia.
  - unfold as_uint. destruct (drop_zeros_value (be_bytes 8 v)) as [E Hz].
    assert (zlen (be_bytes 8 v) = 8) as E8 by done. rewrite E8 in Hz.
    destruct (Z.ltb_spec 8 (zlen (drop_zeros (be_bytes 8 v)))); [lia|]. f_equal.
    assert (be_value (be_bytes 8 v) = v) as Ev by (rewrite be_value_be_bytes; apply Z.mod_small; done).
    rewrite shift_in_fold; [rewrite E, Ev; lia|lia| |lia|rewrite E, Ev; lia].
    pose proof (be_bytes_range 8 v) as Hr. clear -Hr. induction Hr as [|b l Hb Hr IH]; [constructor|].
    cbn [drop_zeros]. destruct l as [|b' l]; [by constructor|]. destruct (b =? 0); [done|by constructor].
  - rewrite as_int_spec by (apply be_bytes_range || done). apply in_i_spec in Hi. f_equal.
    pose proof (be_value_be_bytes 8 i) as Ev. pose proof (be_bytes_range 8 i) as Hr.
    assert (zlen (be_bytes 8 i) = 8) as Hz by done. destruct (be_bytes 8 i) as [|b l]; [done|].
    rewrite be_value_cons in *. rewrite zlen_cons in *. assert (zlen l = 7) as H7 by lia.
    apply Forall_cons in Hr as [Hb Hl]. pose proof (be_value_range l Hl) as Hlr. rewrite H7 in *. change (256 ^ Z.of_nat 8) with (2 ^ 64) in Ev.
    assert (i mod 2 ^ 64 = if 0 <=? i then i else i + 2 ^ 64) as Em.
    { destruct (Z.leb_spec 0 i); [apply Z.mod_small; simpl in *; lia|].
      symmetry. apply Z.mod_unique_pos with (q := -1); simpl in *; lia. }
    rewrite Em in Ev. simpl in Hi, Ev, Hlr |- *. destruct (Z.leb_spec 0 i), (Z.ltb_spec b 128); lia.
Qed.

Lemma children_roundtrip_and_bounds_witness :
  fst (walk (S (length (written [(236, [1; 2]); (17143, [])]))) (slice_children (written [(236, [1; 2]); (17143, [])]) caps_default))
    = entries 0 [(236, [1; 2]); (17143, [])].
Proof.
  refine (proj1 (children_roundtrip_and_bounds [(236, [1; 2]); (17143, [])] [255; 0] caps_default 5 (-3) _ _ _ _ eq_refl)).
  - apply buffer_check. vm_compute. reflexivity.
  - repeat constructor; simpl; try lia; [exists 1|exists 2]; split; simpl; lia.
  - apply buffer_check. vm_compute. reflexivity.
  - split; vm_compute; [discriminate|reflexivity].
Defined.

(** ** The streaming header reader *)

(** A stream over octets in memory: the ones still to come, and the position. *)
Record memory : Type := Memory { ahead : bytes; at_pos : Z }.

#[export] Instance memory_stream : ByteStream memory := {
  io_pos := at_pos;
  io_r8 := fun io => match ahead io with
                     | [] => (Err UnexpectedEof, io)
                     | b :: l => (Ok b, Memory l (at_pos io + 1))
                     end;
}.

Lemma read_rest_memory w n acc l p :
  read_rest w n acc (Memory l p) =
  if (n <=? length l)%nat then (Ok (fold_left (shift_in w) (take n l) acc), Memory (drop n l) (p + Z.of_nat n))
  else (Err UnexpectedEof, Memory [] (p + zlen l)).
Proof.
  revert acc l p. induction n as [|n IH]; intros acc l p; cbn [read_rest].
  - destruct (_ <=? _)%nat eqn:E; [|by apply Nat.leb_gt in E; lia]. cbn. by rewrite drop_0, Z.add_0_r.
  - destruct l as [|b l]; cbn [io_r8 memory_stream ahead at_pos].
    + cbn. by rewrite Z.add_0_r.
    + rewrite IH. cbn [length take drop fold_left]. change (S n <=? S (length l))%nat with (n <=? length l)%nat.
      destruct (_ <=? _)%nat; f_equal; f_equal; [lia|]. unfold zlen. cbn [length]. lia.
Qed.

(** The octets one header takes off the stream. *)
Definition header_at (l : bytes) (p : Z) (c : caps) : result error (option header) :=
  match l with
  | [] => Ok None
  | _ =>
    match read_id l (max_id_len c) with
    | Err e => Err e
    | Ok (id, n) =>
      match read_size (drop (Z.to_nat n) l) (max_size_len c) with
      | Err e => Err e
      | Ok (s, m) => Ok (Some (Header id s p (p + n + m)))
      end
    end
  end.

Lemma chunk_after_first {A} (f : A) l len :
  1 <= len ->
  first_chunk len (f :: l) =
    if (Z.to_nat (len - 1) <=? length l)%nat then Some (f :: take (Z.to_nat (len - 1)) l) else None.
Proof.
  intros Hl. unfold first_chunk. rewrite zlen_cons. unfold zlen.
  destruct (Z.leb_spec len (1 + Z.of_nat (length l))), (Nat.leb_spec (Z.to_nat (len - 1)) (length l)); try lia; [|done].
  by replace (Z.to_nat len) with (S (Z.to_nat (len - 1))) by lia.
Qed.

Lemma read_stream_size_memory l p max :
  Forall (fun b => 0 <= b < 256) l ->
  match read_size l max with
  | Ok (s, m) => read_stream_size (Memory l p) max = (Ok s, Memory (drop (Z.to_nat m) l) (p + m))
  | Err e => fst (read_stream_size (Memory l p) max) = Err e
  end.
Proof.
  intros Hb. unfold read_stream_size, read_size. destruct l as [|f l]; cbn [io_r8 memory_stream ahead at_pos]; [done|].
  apply Forall_cons in Hb as [Hf Hb]. pose proof (first_octet f Hf) as H1.
  destruct (Z.eqb_spec f 0) as [|Hf0]; [by rewrite H1|]. destruct H1 as (len & -> & Hl & _).
  destruct (max <? len); [done|]. rewrite read_rest_memory, chunk_after_first by lia.
  destruct (_ <=? _)%nat; [|done]. cbn [tail]. f_equal. f_equal; [|lia].
  by replace (Z.to_nat len) with (S (Z.to_nat (len - 1))) by lia.
Qed.

(** The streaming header reader and the in-memory decoders agree: on any
    octets, at any position and under any caps, [read_header] gives the ID and
    size that [read_id] and [read_size] decode there, with the element's and its
    data's positions, the same errors in the same cases, and a clean end exactly
    when no octet is left; on success the stream stands at the data. *)
Theorem header_stream_parity l p c :
  Forall (fun b => 0 <= b < 256) l ->
  fst (read_header (Memory l p) c) = header_at l p c /\
  (forall h, header_at l p c = Ok (Some h) ->
     snd (read_header (Memory l p) c) = Memory (drop (Z.to_nat (data_pos h - p)) l) (data_pos h)).
Proof.
  intros Hb. unfold read_header, header_at, read_id.
  destruct l as [|f l]; cbn [io_r8 memory_stream ahead at_pos io_pos]; [done|].
  pose proof Hb as Hfl. apply Forall_cons in Hb as [Hf Hb]. pose proof (first_octet f Hf) as H1.
  destruct (Z.eqb_spec f 0) as [|Hf0]; [by rewrite H1|]. destruct H1 as (len & -> & Hl & _).
  destruct (max_id_len c <? len); [done|]. rewrite read_rest_memory, chunk_after_first by lia.
  destruct (_ <=? _)%nat; [|done]. cbn [fold_left].
  assert (shift_in 32 0 f = f) as -> by done.
  set (id := fold_left _ _ f).
  replace (Z.to_nat len) with (S (Z.to_nat (len - 1))) by lia.
  change (drop (S (Z.to_nat (len - 1))) (f :: l)) with (drop (Z.to_nat (len - 1)) l).
  set (l1 := drop (Z.to_nat (len - 1)) l).
  pose proof (read_stream_size_memory l1 (p + 1 + Z.of_nat (Z.to_nat (len - 1))) (max_size_len c)
    (Forall_drop _ _ _ Hb)) as Hs.
  pose proof (read_size_sound l1 (max_size_len c)) as Hsound.
  destruct (read_size l1 (max_size_len c)) as [[s m]|e].
  - rewrite Hs. cbn [fst snd io_pos memory_stream at_pos].
    destruct (Hsound s m (Forall_drop _ _ _ Hb) eq_refl) as (Hm & _).
    assert (p + 1 + Z.of_nat (Z.to_nat (len - 1)) + m = p + len + m) as -> by lia.
    split; [done|]. intros h [= <-]. cbn [data_pos]. f_equal. unfold l1. rewrite drop_drop.
    replace (Z.to_nat (p + len + m - p)) with (S (Z.to_nat (len - 1) + Z.to_nat m)) by lia. done.
  - destruct (read_stream_size _ _) as [r io]. cbn [fst] in Hs. by subst r.
Qed.

Lemma header_stream_parity_witness :
  fst (read_header (Memory [26; 69; 223; 163; 132; 1; 2; 3; 4] 100) caps_default)
    = Ok (Some (Header 440786851 (Known 4) 100 105)).
Proof.
  refine (eq_trans (proj1 (header_stream_parity [26; 69; 223; 163; 132; 1; 2; 3; 4] 100 caps_default _)) _).
  - repeat constructor; lia.
  - vm_compute. reflexivity.
Defined.

(** ** Terminations *)

(** The element [k] levels out from the innermost, and whether it takes [id]. *)
Definition parent_at (s : stack) (root k : Z) : option Z :=
  if k =? zlen s then Some root else fid <$> s !! Z.to_nat (zlen s - k - 1).

Section placing.
Context (is_child_of : Z -> Z -> bool) (is_root : Z -> bool).

(** [id] belongs in the element [k] levels out. *)
Definition takes (s : stack) (id root k : Z) : Prop :=
  (exists p, parent_at s root k = Some p /\ is_child_of id p = true) \/
  (k = zlen s /\ is_root id = true).

(** The frame [k] levels out may be ended by an element it does not take. *)
Definition open_ended (s : stack) (k : Z) : Prop :=
  exists f, s !! Z.to_nat (zlen s - k - 1) = Some f /\ fend f = None.

Lemma terminations_loop_spec fuel s id root popped k :
  zlen s < 2 ^ 63 -> 0 <= popped <= zlen s -> zlen s - popped < Z.of_nat fuel ->
  terminations_loop is_child_of is_root fuel s id root popped = Some k <->
  popped <= k <= zlen s /\ takes s id root k /\
  (forall j, popped <= j < k -> open_ended s j /\ ~ takes s id root j).
Proof.
  intros Hz. revert popped. induction fuel as [|fuel IH]; intros popped Hp Hf; [lia|].
  cbn [terminations_loop]. change (Z.of_nat (length s)) with (zlen s).
  rewrite (checked_u_in 64 (zlen s - popped)) by (apply in_u_spec; simpl; lia). cbn [mbind option_bind].
  assert (forall k, popped <= k -> takes s id root popped -> (forall j, popped <= j < k -> ~ takes s id root j) -> k = popped)
    as Hfirst.
  { intros k' Hk Ht Hj. destruct (decide (k' = popped)); [done|]. by destruct (Hj popped ltac:(lia)). }
  assert (parent_at s root popped = if zlen s - popped =? 0 then Some root
    else f ← s !! Z.to_nat (zlen s - popped - 1); Some (fid f)) as Hpar.
  { unfold parent_at. destruct (Z.eqb_spec popped (zlen s)), (Z.eqb_spec (zlen s - popped) 0); try lia; [done|].
    by destruct (s !! _). }
  rewrite <- Hpar.
  destruct (parent_at s root popped) as [p|] eqn:Ep; cbn [mbind option_bind].
  2:{ exfalso. unfold parent_at in Ep. destruct (Z.eqb_spec popped (zlen s)); [done|].
      apply fmap_None, lookup_ge_None in Ep. unfold zlen in *. lia. }
  destruct (is_child_of id p) eqn:Ec.
  { assert (takes s id root popped) as Ht by (left; by exists p). split.
    - intros [= <-]. split; [lia|]. split; [done|]. intros; lia.
    - intros (Hk & _ & Hj). f_equal. symmetry. apply Hfirst; [lia|done|]. intros j Hjj. by apply Hj. }
  destruct (Z.eqb_spec (zlen s - popped) 0) as [E0|E0].
  { assert (popped = zlen s) as -> by lia. destruct (is_root id) eqn:Er.
    - assert (takes s id root (zlen s)) as Ht by (by right). split.
      + intros [= <-]. split; [lia|]. split; [done|]. intros; lia.
      + intros (Hk & _). f_equal. lia.
    - split; [done|]. intros (Hk & Ht & _). assert (k = zlen s) as -> by lia.
      destruct Ht as [(q & Eq & Hq)|[_ ?]]; congruence. }
  assert (~ takes s id root popped) as Hnt.
  { intros [(q & Eq & Hq)|[? _]]; [congruence|lia]. }
  unfold parent_at in Ep. destruct (Z.eqb_spec popped (zlen s)); [lia|].
  apply fmap_Some in Ep as (f & Ef & ->).
  rewrite Ef. cbn [mbind option_bind]. case_bool_decide as Hend.
  { split; [done|]. intros (Hk & Ht & Hj). destruct (decide (k = popped)) as [->|]; [done|].
    destruct (Hj popped ltac:(lia)) as [(f' & Ef' & Hf') _]. rewrite Ef in Ef'. simplify_eq.
    rewrite Hf' in Hend. by destruct Hend. }
  rewrite (checked_u_in 64 (popped + 1)) by (apply in_u_spec; simpl; lia). cbn [mbind option_bind].
  rewrite IH by lia. split.
  - intros (Hk & Ht & Hj). split; [lia|]. split; [done|]. intros j Hjj.
    destruct (decide (j = popped)) as [->|]; [|apply Hj; lia]. split; [|done]. exists f. split; [done|].
    by apply eq_None_not_Some.
  - intros (Hk & Ht & Hj). assert (k <> popped) by (by intros ->). split; [lia|]. split; [done|].
    intros j Hjj. apply Hj. lia.
Qed.
End placing.

(** A frame whose known end is at or before [pos]. *)
Definition finished (f : frame) (pos : Z) : Prop := exists e, fend f = Some e /\ e <= pos.

Lemma close_loop_spec fuel s pos n :
  (length s <= fuel)%nat ->
  let (m, s') := close_loop fuel s pos n in
  exists closed, s = s' ++ closed /\ m = n + zlen closed /\ Forall (fun f => finished f pos) closed /\
    forall f, last s' = Some f -> ~ finished f pos.
Proof.
  revert s n. induction fuel as [|fuel IH]; intros s n Hf; cbn [close_loop].
  { exists []. destruct s; [|simpl in Hf; lia]. repeat split; [unfold zlen; simpl; lia|constructor|done]. }
  destruct (last s) as [f|] eqn:El.
  2:{ exists []. rewrite app_nil_r. repeat split; [unfold zlen; simpl; lia|constructor|]. intros f. by rewrite El. }
  destruct (match fend f with Some e => e <=? pos | None => false end) eqn:Ef.
  - apply last_Some in El as [s0 ->]. rewrite removelast_last. rewrite length_app in Hf. cbn in Hf.
    specialize (IH s0 (n + 1) ltac:(lia)). destruct (close_loop fuel s0 pos (n + 1)) as [m s'].
    destruct IH as (closed & -> & -> & Hall & Hlast). exists (closed ++ [f]). rewrite app_assoc.
    split; [done|]. split; [rewrite zlen_app; unfold zlen; simpl; lia|]. split; [|done].
    apply Forall_app. split; [done|]. constructor; [|done]. unfold finished.
    destruct (fend f) as [e|]; [|done]. exists e. split; [done|]. breflect. lia.
  - exists []. rewrite app_nil_r. split; [done|]. split; [unfold zlen; simpl; lia|]. split; [constructor|].
    rewrite El. intros f' [= <-] (e & Ee & He). rewrite Ee in Ef. breflect. lia.
Qed.

Lemma bound_spec s :
  match bound s with
  | Some m => (exists f, f ∈ s /\ fend f = Some m) /\ forall f e, f ∈ s -> fend f = Some e -> m <= e
  | None => forall f, f ∈ s -> fend f = None
  end.
Proof.
  unfold bound. induction s as [|f s IH] using rev_ind; [intros f Hf; by apply not_elem_of_nil in Hf|].
  rewrite fold_left_app. cbn [fold_left]. destruct (fold_left _ s None) as [m|].
  - destruct IH as [(g & Hg & Eg) Hall]. destruct (fend f) as [e|] eqn:Ef.
    + split.
      * destruct (Z.le_ge_cases m e); [exists g|exists f]; rewrite elem_of_app, list_elem_of_singleton;
          (split; [auto|]); rewrite ?Eg, ?Ef; f_equal; lia.
      * intros h x Hh Ex. apply elem_of_app in Hh as [Hh|Hh].
        -- specialize (Hall h x Hh Ex). lia.
        -- apply list_elem_of_singleton in Hh as ->. rewrite Ef in Ex. simplify_eq. lia.
    + split.
      * exists g. rewrite elem_of_app. auto.
      * intros h x Hh Ex. apply elem_of_app in Hh as [Hh|Hh]; [eauto|].
        apply list_elem_of_singleton in Hh as ->. congruence.
  - destruct (fend f) as [e|] eqn:Ef.
    + split.
      * exists f. rewrite elem_of_app, list_elem_of_singleton. auto.
      * intros h x Hh Ex. apply elem_of_app in Hh as [Hh|Hh].
        -- specialize (IH h Hh). congruence.
        -- apply list_elem_of_singleton in Hh as ->. rewrite Ef in Ex. simplify_eq. lia.
    + intros h Hh. apply elem_of_app in Hh as [Hh|Hh]; [eauto|]. by apply list_elem_of_singleton in Hh as ->.
Qed.

(** The unknown-size rule: an incoming ID terminates exactly the frames up
    to the innermost one that takes it (or everything, for a root element), and
    only when all of them have unknown size; otherwise it cannot be placed, and
    the search always ends. Closing by position removes exactly the finished
    frames on top, and [bound] is the least known end. *)
Theorem stack_rules is_child_of is_root s id root k pos :
  zlen s <= MAX_DEPTH ->
  (terminations_for is_child_of is_root s id root = Some k <->
     0 <= k <= zlen s /\ takes is_child_of is_root s id root k /\
     forall j, 0 <= j < k -> open_ended s j /\ ~ takes is_child_of is_root s id root j) /\
  (let (n, s') := close_finished s pos in
   exists closed, s = s' ++ closed /\ n = zlen closed /\ Forall (fun f => finished f pos) closed /\
     forall f, last s' = Some f -> ~ finished f pos) /\
  match bound s with
  | Some m => (exists f, f ∈ s /\ fend f = Some m) /\ forall f e, f ∈ s -> fend f = Some e -> m <= e
  | None => forall f, f ∈ s -> fend f = None
  end.
Proof.
  unfold MAX_DEPTH. intros Hs. split; [|split; [|apply bound_spec]].
  - apply terminations_loop_spec; pose proof (zlen_nonneg s); unfold zlen in *; lia.
  - exact (close_loop_spec (length s) s pos 0 (Nat.le_refl _)).
Qed.

(** A Cluster of unknown size inside a Segment: a Cues element ends it, a block
    group does not. *)
Lemma stack_rules_witness :
  let child c p := (p =? 1) && (c =? 2) || (p =? 1) && (c =? 3) || (p =? 2) && (c =? 4) in
  terminations_for child (fun _ => false) [Frame 1 (Some 900); Frame 2 None] 3 0 = Some 1.
Proof.
  intros child. apply (proj1 (stack_rules child (fun _ => false) [Frame 1 (Some 900); Frame 2 None] 3 0 1 5
    ltac:(vm_compute; discriminate))).
  split; [vm_compute; split; discriminate|]. split; [left; exists 1; done|].
  intros j Hj. assert (j = 0) as -> by lia. split; [by exists (Frame 2 None)|].
  intros [(p & Ep & Hp)|[H _]]; [|discriminate H]. injection Ep as <-. discriminate Hp.
Defined.
