(* ===== verification/DemuxTime.v ===== *)
(** * DemuxTime: the demuxer's timestamp rules

    [src/crates/format/vaco-format-core/src/time.rs]: absent values, wraparound
    ([WrapState]), the fixer that fills in and repairs what a container left out
    ([TimestampFixer], with its reorder window), and the choice of a container
    duration. Options are the fields these rules read. *)

From Stdlib Require Import ZArith Lia Ascii String Permutation.
From stdpp Require Import prelude strings sorting.
From S2P Require Import Prelude Rational Time Interleave MuxTs.

Open Scope Z_scope.

Record demux_options : Type := DemuxOptions {
  fflags : Z;
  correct_ts_overflow : bool;
  skip_estimate_duration_from_pts : bool;
}.

Definition GENPTS : Z := Z.shiftl 1 2.
Definition NOFILLIN : Z := Z.shiftl 1 3.
Definition IGNDTS : Z := Z.shiftl 1 5.
Definition TS_DISCONT : Z := Z.shiftl 1 7.

Definition fills_in_timestamps (o : demux_options) : bool := negb (contains (fflags o) NOFILLIN).

Definition NOPTS_ALIAS : Z := - 2 ^ 63.

Definition decode_ts (raw : Z) : timestamp := if raw =? NOPTS_ALIAS then TS_NONE else Some raw.

(** ** Wraparound *)

Inductive wrap_behavior : Type := Ignore | AddOffset | SubOffset.

#[export] Instance wrap_behavior_eq_dec : EqDecision wrap_behavior.
Proof. solve_decision. Defined.

Record wrap : Type := WrapState {
  bits : Z;
  reference : option Z;
  behavior : wrap_behavior;
  woffset : Z;
  last_raw : option Z;
  saw_high : bool;
  correct_overflow : bool;
}.

Definition wrap_new (bits : Z) : wrap := WrapState bits None Ignore 0 None false true.

Definition with_options (w : wrap) (o : demux_options) : wrap :=
  WrapState (bits w) (reference w) (behavior w) (woffset w) (last_raw w) (saw_high w) (correct_ts_overflow o).

Definition wraps (w : wrap) : bool := (0 <? bits w) && (bits w <? 64).

(** [1i64 << bits]. *)
Definition period (w : wrap) : option Z :=
  if wraps w then Some (wrap_i 64 (Z.shiftl 1 (bits w))) else None.

Definition observe (w : wrap) (ts : Z) : wrap :=
  match period w with
  | None => w
  | Some p =>
    let quarter := Z.quot p 4 in
    let half := Z.quot p 2 in
    let three_quarters := Z.quot p 4 * 3 in
    match reference w with
    | None =>
      if three_quarters <? ts then
        WrapState (bits w) (Some half) AddOffset (woffset w) (last_raw w) true (correct_overflow w)
      else if ts <? quarter then
        WrapState (bits w) (Some half) Ignore (woffset w) (last_raw w) (saw_high w) (correct_overflow w)
      else
        WrapState (bits w) (Some half) Ignore (woffset w) (last_raw w) (saw_high w) (correct_overflow w)
    | Some _ =>
      if three_quarters <? ts then
        WrapState (bits w) (reference w)
          (if negb (saw_high w) && bool_decide (behavior w = Ignore) then SubOffset else behavior w)
          (woffset w) (last_raw w) true (correct_overflow w)
      else w
    end
  end.

Definition pivot (w : wrap) (ts : Z) : Z :=
  match period w, reference w with
  | Some p, Some r =>
    match behavior w with
    | Ignore => ts
    | AddOffset => if ts <? r then sat_i 64 (ts + p) else ts
    | SubOffset => if r <=? ts then sat_i 64 (ts - p) else ts
    end
  | _, _ => ts
  end.

Definition placed (w : wrap) (offset raw : Z) : wrap :=
  WrapState (bits w) (reference w) (behavior w) offset (Some raw) (saw_high w) (correct_overflow w).

Definition correct (w : wrap) (ts : timestamp) : timestamp * wrap :=
  match ts with
  | None => (None, w)
  | Some raw =>
    match period w with
    | None => (ts, w)
    | Some p =>
      let offset :=
        match last_raw w with
        | None => sat_i 64 (pivot w raw - raw)
        | Some prev =>
          if correct_overflow w then
            let half := Z.quot p 2 in
            let delta := raw - prev in
            if half <? delta then sat_i 64 (woffset w - p)
            else if delta <? - half then sat_i 64 (woffset w + p)
            else woffset w
          else woffset w
        end in
      (Some (sat_i 64 (raw + offset)), placed w offset raw)
    end
  end.

Definition resync (w : wrap) (target first_seen : timestamp) : wrap :=
  let w := WrapState (bits w) (reference w) (behavior w) (woffset w) None (saw_high w) (correct_overflow w) in
  match period w with
  | None => w
  | Some p =>
    match target, first_seen with
    | Some t, Some seen =>
      let diff := t - seen in
      let periods := Z.quot (diff + (if 0 <=? diff then Z.quot p 2 else - Z.quot p 2)) p in
      placed w (default 0 (checked_i 64 (sat_i 128 (periods * p)))) seen
    | _, _ =>
      WrapState (bits w) (reference w) (behavior w) 0 None (saw_high w) (correct_overflow w)
    end
  end.

Definition wrap_reset (w : wrap) : wrap :=
  WrapState (bits w) None Ignore 0 None false (correct_overflow w).

(** ** The fixer *)

Definition MAX_REORDER : nat := 16.

Record stream_ts : Type := StreamTs {
  cur_dts : timestamp;
  last_duration : Z;
  reorder : list timestamp;
  reorder_len : nat;
  delay : nat;
  reorders : bool;
  repaired : Z;
}.

Definition stream_default : stream_ts :=
  StreamTs TS_NONE 0 (replicate MAX_REORDER TS_NONE) 0 0 false 0.

Record fix_report : Type := FixReport {
  dts_from_pts : bool;
  pts_generated : bool;
  duration_filled : bool;
  dts_repaired : bool;
  dts_ignored : bool;
  dts_overflow : bool;
  dts_exceeds_pts : bool;
}.

Definition report_default : fix_report := FixReport false false false false false false false.

Definition is_clean (r : fix_report) : bool :=
  negb (dts_from_pts r || pts_generated r || duration_filled r || dts_repaired r || dts_ignored r ||
        dts_overflow r || dts_exceeds_pts r).

Record fixer : Type := TimestampFixer {
  streams : list stream_ts;
  format_flags : Z;
  format_fflags : Z;
  fill_in : bool;
}.

Definition fixer_new (n : nat) (flags : Z) (o : demux_options) : fixer :=
  TimestampFixer (replicate n stream_default) flags (fflags o) (fills_in_timestamps o).

Definition with_streams (f : fixer) (l : list stream_ts) : fixer :=
  TimestampFixer l (format_flags f) (format_fflags f) (fill_in f).

Definition set_stream_delay (f : fixer) (i : Z) (d : Z) (r : bool) : fixer :=
  with_streams f (alter (fun s =>
    StreamTs (cur_dts s) (last_duration s) (reorder s) (reorder_len s)
      (Nat.min (Z.to_nat d) (MAX_REORDER - 1)) r (repaired s)) (Z.to_nat i) (streams f)).

Definition ensure_streams (f : fixer) (n : nat) : fixer :=
  with_streams f (streams f ++ replicate (n - length (streams f)) stream_default).

(** [slice::copy_within(a..b, d)]. *)
Definition copy_within {A : Type} (l : list A) (a b d : nat) : list A :=
  take d l ++ take (b - a) (drop a l) ++ drop (d + (b - a)) l.

(** [iter().position(..)], the first index that satisfies it. *)
Fixpoint position {A : Type} (f : A -> bool) (l : list A) : option nat :=
  match l with
  | [] => None
  | x :: l => if f x then Some O else S <$> position f l
  end.

Definition with_window (s : stream_ts) (r : list timestamp) (n : nat) : stream_ts :=
  StreamTs (cur_dts s) (last_duration s) r n (delay s) (reorders s) (repaired s).

Definition push_reorder (s : stream_ts) (dts : timestamp) : option timestamp * stream_ts :=
  match dts with
  | None => (None, s)
  | Some v =>
    if (MAX_REORDER <=? reorder_len s)%nat then (None, s) else
    let n := reorder_len s in
    let later t := match t with Some x => v <? x | None => true end in
    let pos := default n (position later (take n (reorder s))) in
    let r := <[pos := Some v]> (copy_within (reorder s) pos n (pos + 1)) in
    let n := S n in
    if (n <=? delay s)%nat then (None, with_window s r n) else
    match r with
    | out :: _ => (Some out, with_window s (copy_within r 1 n 0) (n - 1))
    | [] => (None, with_window s r n)
    end
  end.

(** [Duration] comparisons. *)
Definition dur_gt (a b : Time.duration) : bool := bool_decide (dur_cmp a b = Some Gt).

Definition dur_max (a b : Time.duration) : Time.duration := if dur_gt a b then a else b.

Definition duration_from_rate (rate : rational) : option Time.duration :=
  if negb (is_defined rate) || is_zero rate || is_infinite rate then None
  else
    d ← from_ticks 1 (Rational (den rate) (num rate));
    if dur_gt d DUR_ZERO then Some d else None.

Definition with_duration (p : packet) (d : Time.duration) : packet :=
  Packet (stream_index p) (pts p) (dts p) (duration_ts p) d (len p) (body p).

(** [TimestampFixer::fix], one definition per rule, on the packet's own stream
    record. R23: [+igndts] drops the DTS of a packet that has both. *)
Definition ignore_dts (fflags : Z) (p : packet) : packet * bool :=
  if contains fflags IGNDTS && bool_decide (is_Some (dts p)) && bool_decide (is_Some (pts p))
  then (with_ts p (pts p) TS_NONE, true) else (p, false).

(** A PTS without a DTS. *)
Definition lacks_dts (p : packet) : bool := bool_decide (dts p = None) && bool_decide (is_Some (pts p)).

(** R19: DTS from PTS where nothing reorders. *)
Definition copy_pts (fill : bool) (s : stream_ts) (p : packet) : packet * bool :=
  if fill && lacks_dts p && negb (reorders s) && (delay s =? 0)%nat
  then (with_ts p (pts p) (pts p), true) else (p, false).

(** R19b: DTS from PTS through the window. *)
Definition window_dts (fill : bool) (s : stream_ts) (p : packet) : packet * bool * stream_ts :=
  if fill && lacks_dts p && reorders s && (0 <? delay s)%nat then
    match push_reorder s (pts p) with
    | (Some d, s) => (with_ts p (pts p) d, true, s)
    | (None, s) => (p, false, s)
    end
  else (p, false, s).

(** R20: PTS from DTS through the window. *)
Definition window_pts (fflags : Z) (s : stream_ts) (p : packet) : packet * bool * stream_ts :=
  if contains fflags GENPTS && bool_decide (pts p = None) && bool_decide (is_Some (dts p)) then
    match push_reorder s (dts p) with
    | (Some t, s) => (with_ts p t (dts p), true, s)
    | (None, s) => (p, false, s)
    end
  else (p, false, s).

(** R21: duration from the frame rate. *)
Definition fill_duration (fill : bool) (rate : rational) (p : packet) : packet * bool :=
  if fill && bool_decide (duration p = DUR_ZERO) then
    match duration_from_rate rate with
    | Some d => (with_duration p d, true)
    | None => (p, false)
    end
  else (p, false).

(** R22: a DTS that does not advance is moved past the last one; the flags are
    repaired, overflowed, past its own PTS. *)
Definition repair (active : bool) (s : stream_ts) (p : packet) : packet * (bool * bool * bool) :=
  match (if active then cur_dts s else None), dts p with
  | Some cur, Some d =>
    if d <=? cur then
      let r := sat_i 64 (cur + Z.max (last_duration s) 1) in
      (with_ts p (pts p) (Some r), (true, r <=? cur, match pts p with Some t => t <? r | None => false end))
    else (p, (false, false, false))
  | _, _ => (p, (false, false, false))
  end.

(** What the stream remembers of the finished packet. *)
Definition settle (s : stream_ts) (p : packet) (time_base : rational) (fixed : bool) : stream_ts :=
  StreamTs (match dts p with Some d => Some d | None => cur_dts s end)
    (match to_ticks (duration p) time_base with
     | Some ticks => if 0 <? ticks then ticks else last_duration s
     | None => last_duration s
     end)
    (reorder s) (reorder_len s) (delay s) (reorders s)
    (if fixed then sat_u 64 (repaired s + 1) else repaired s).

Definition fix_stream (flags fflags : Z) (fill : bool) (s : stream_ts) (p : packet)
    (time_base frame_rate : rational) : packet * fix_report * stream_ts :=
  let '(p, ignored) := ignore_dts fflags p in
  let '(p, copied) := copy_pts fill s p in
  let '(p, windowed, s) := window_dts fill s p in
  let '(p, generated, s) := window_pts fflags s p in
  let '(p, filled) := fill_duration fill frame_rate p in
  let '(p, (fixed, overflow, exceeds)) := repair (fill && negb (contains flags TS_DISCONT)) s p in
  (p, FixReport (copied || windowed) generated filled fixed ignored overflow exceeds,
   settle s p time_base fixed).

Definition fix_packet (f : fixer) (p : packet) (time_base frame_rate : rational)
    : packet * fix_report * fixer :=
  let i := Z.to_nat (stream_index p) in
  match streams f !! i with
  | None => (p, report_default, f)
  | Some s =>
    let '(p, r, s) := fix_stream (format_flags f) (format_fflags f) (fill_in f) s p time_base frame_rate in
    (p, r, with_streams f (<[i := s]> (streams f)))
  end.

Definition flush (f : fixer) : fixer :=
  with_streams f (map (fun s =>
    StreamTs TS_NONE 0 (replicate MAX_REORDER TS_NONE) 0 (delay s) (reorders s) 0) (streams f)).

(** ** Durations *)

Definition quantise_duration (seconds time_base : rational) : option Time.duration :=
  if negb (is_defined seconds) || is_infinite seconds || (num seconds <=? 0) || (den seconds <=? 0) then None
  else if negb (is_defined time_base) || is_infinite time_base || (num time_base <=? 0) then None
  else
    c ← checked_i 64 (den seconds * num time_base);
    ticks ← rescale_rnd (num seconds) (den time_base) c RZero;
    if ticks <=? 0 then None else from_ticks ticks time_base.

Inductive duration_source : Type := FromStream | FromPts | FromBitrate | DUnknown.

Record duration_estimate : Type := DurationEstimate {
  est_duration : option Time.duration;
  est_source : duration_source;
}.

Definition UNKNOWN : duration_estimate := DurationEstimate None DUnknown.

Record duration_inputs : Type := DurationInputs {
  container : option Time.duration;
  longest_stream : option Time.duration;
  from_pts : option Time.duration;
  start_time : option Time.duration;
  size : option Z;
  bit_rate : option Z;
  authoritative : bool;
}.

Definition estimate (d : Time.duration) (s : duration_source) : duration_estimate :=
  DurationEstimate (Some d) s.

(** R14: the container's field or the longest stream's. *)
Definition declared_duration (i : duration_inputs) : option Time.duration :=
  match container i, longest_stream i with
  | Some c, Some s => Some (dur_max c s)
  | Some c, None => Some c
  | None, s => s
  end.

Definition bitrate_micros (i : duration_inputs) : option Z :=
  size ← size i;
  rate ← bit_rate i;
  if 0 <? rate then
    b ← checked_u 64 (size * 8);
    n ← checked_u 64 (b * 1000000);
    checked_i 64 (n / rate)
  else None.

Definition scanned_duration (i : duration_inputs) : option Time.duration :=
  last ← from_pts i;
  d ← dur_checked_sub last (default DUR_ZERO (start_time i));
  if dur_gt d DUR_ZERO then Some d else None.

Definition estimate_duration (i : duration_inputs) (o : demux_options) : duration_estimate :=
  let skip := skip_estimate_duration_from_pts o in
  match (if authoritative i || skip then declared_duration i else None) with
  | Some d => estimate d FromStream
  | None =>
    match (if skip then None else scanned_duration i) with
    | Some d => estimate d FromPts
    | None =>
      match declared_duration i with
      | Some d => estimate d FromStream
      | None =>
        match bitrate_micros i with
        | Some micros => estimate (from_micros micros) FromBitrate
        | None => UNKNOWN
        end
      end
    end
  end.

(** [Iterator::min]: the first of the least. *)
Definition dur_min (ds : list Time.duration) : option Time.duration :=
  match ds with
  | [] => None
  | d :: ds => Some (fold_left (fun m d => if dur_gt m d then d else m) ds d)
  end.

Definition container_start_time (streams : list (timestamp * rational)) : option Time.duration :=
  dur_min (omap (fun s => to_duration (fst s) (snd s)) streams).

Definition rescale_bound (t : timestamp) (from to : rational) (upper : bool) : timestamp :=
  rescale t from to (if upper then RUp else RDown).

(** ** Unwrapping *)

Fixpoint corrects (w : wrap) (ts : list timestamp) : list timestamp * wrap :=
  match ts with
  | [] => ([], w)
  | t :: ts =>
    let (o, w) := correct w t in
    let (os, w) := corrects w ts in
    (o :: os, w)
  end.

(** The container's field for a true time. *)
Definition field (n t : Z) : timestamp := Some (t mod 2 ^ n).

(** Each step shorter than half the period. *)
Fixpoint small_steps (half t : Z) (ts : list Z) : Prop :=
  match ts with
  | [] => True
  | u :: ts => Z.abs (u - t) < half /\ small_steps half u ts
  end.

Lemma period_of w : 0 < bits w <= 60 -> period w = Some (2 ^ bits w) /\ 2 * 2 ^ (bits w - 1) = 2 ^ bits w /\
  2 ^ bits w <= 2 ^ 60 /\ 0 < 2 ^ (bits w - 1) /\ Z.quot (2 ^ bits w) 2 = 2 ^ (bits w - 1).
Proof.
  intros Hb. assert (2 * 2 ^ (bits w - 1) = 2 ^ bits w) as E.
  { rewrite <- Z.pow_succ_r by lia. f_equal. lia. }
  assert (2 ^ bits w <= 2 ^ 60) by (apply Z.pow_le_mono_r; lia).
  assert (0 < 2 ^ (bits w - 1)) by (apply Z.pow_pos_nonneg; lia).
  split; [|split; [done|split; [done|split; [done|]]]].
  - unfold period, wraps. destruct (Z.ltb_spec 0 (bits w)), (Z.ltb_spec (bits w) 64); try lia. cbn [andb].
    f_equal. rewrite Z.shiftl_mul_pow2, Z.mul_1_l by lia. unfold wrap_i. simpl in *. rewrite Z.mod_small; lia.
  - rewrite <- E, Z.quot_div_nonneg by lia. rewrite Z.mul_comm. by apply Z.div_mul.
Qed.

(** The clock has placed the true time [t] at [t + c]. *)
Definition tracks (w : wrap) (t c : Z) : Prop :=
  last_raw w = Some (t mod 2 ^ bits w) /\ woffset w = t + c - t mod 2 ^ bits w /\ correct_overflow w = true.

Lemma correct_tracks w t c u :
  0 < bits w <= 60 -> tracks w t c -> Z.abs (u - t) < 2 ^ (bits w - 1) ->
  Z.abs (t + c) <= 2 ^ 62 -> Z.abs (u + c) <= 2 ^ 62 ->
  exists w', correct w (field (bits w) u) = (Some (u + c), w') /\ bits w' = bits w /\ tracks w' u c.
Proof.
  intros Hb (Hl & Ho & Hc) Hu Ht Huc. destruct (period_of w Hb) as (Hp & E2 & Hp60 & Hh & Hq).
  set (P := 2 ^ bits w) in *. set (half := 2 ^ (bits w - 1)) in *.
  assert (woffset w = c + P * (t / P)) as Ho' by (rewrite Ho; pose proof (Z.div_mod t P ltac:(lia)); lia).
  pose proof (Z.div_mod u P ltac:(lia)) as Eu. pose proof (Z.mod_pos_bound u P ltac:(lia)) as Mu.
  pose proof (Z.div_mod t P ltac:(lia)) as Et. pose proof (Z.mod_pos_bound t P ltac:(lia)) as Mt.
  assert (exists o, (if half <? u mod P - t mod P then sat_i 64 (woffset w - P)
    else if u mod P - t mod P <? - half then sat_i 64 (woffset w + P) else woffset w) = o /\
    o = c + P * (u / P)) as (o & Eo & Ev).
  { eexists. split; [reflexivity|].
    assert (u / P = t / P - 1 \/ u / P = t / P \/ u / P = t / P + 1) as Hk by nia.
    assert (sat_i 64 (c + P * (u / P)) = c + P * (u / P)) as Hs by (apply sat_i_id; simpl; lia).
    destruct Hk as [Hk|[Hk|Hk]]; rewrite Hk in *.
    - destruct (Z.ltb_spec half (u mod P - t mod P)); [|lia]. rewrite <- Hs. f_equal. lia.
    - destruct (Z.ltb_spec half (u mod P - t mod P)); [lia|].
      destruct (Z.ltb_spec (u mod P - t mod P) (- half)); [lia|]. lia.
    - destruct (Z.ltb_spec half (u mod P - t mod P)); [lia|].
      destruct (Z.ltb_spec (u mod P - t mod P) (- half)); [|lia]. rewrite <- Hs. f_equal. lia. }
  unfold correct, field. fold P. rewrite Hp, Hl, Hc, Hq. rewrite Eo.
  exists (placed w o (u mod P)). split; [f_equal; f_equal; rewrite sat_i_id; simpl; lia|]. split; [done|].
  unfold tracks, placed. cbn. fold P. repeat split; [lia|done].
Qed.

Lemma corrects_track w t c ts :
  0 < bits w <= 60 -> tracks w t c -> small_steps (2 ^ (bits w - 1)) t ts ->
  Z.abs (t + c) <= 2 ^ 62 -> Forall (fun u => Z.abs (u + c) <= 2 ^ 62) ts ->
  fst (corrects w (map (field (bits w)) ts)) = map (fun u => Some (u + c)) ts.
Proof.
  intros Hb Hw Hs Ht Hts. revert w t Hb Hw Hs Ht.
  induction Hts as [|u ts Hu _ IH]; intros w t Hb Hw Hs Ht; [done|]. destruct Hs as [Hu' Hs].
  destruct (correct_tracks w t c u Hb Hw Hu' Ht Hu) as (w' & E & Hbits & Hw').
  cbn [map corrects]. rewrite E. rewrite <- Hbits in Hs, Hb |- *.
  specialize (IH w' u Hb Hw' Hs Hu). destruct (corrects w' _) as [os w'']. cbn [fst] in *. by rewrite IH.
Qed.

(** Where the pivot puts the first value: within a period of the raw one. *)
Lemma pivot_range w raw :
  0 < bits w <= 60 -> 0 <= raw < 2 ^ bits w -> - 2 ^ bits w <= pivot w raw < 2 * 2 ^ bits w.
Proof.
  intros Hb Hr. destruct (period_of w Hb) as (Hp & _ & Hp60 & _). unfold pivot. rewrite Hp.
  destruct (reference w) as [r|]; [|lia]. destruct (behavior w); [lia| |].
  - destruct (raw <? r); [|lia]. rewrite sat_i_id by (simpl; lia). lia.
  - destruct (r <=? raw); [|lia]. rewrite sat_i_id by (simpl; lia). lia.
Qed.

(** C10. Wraparound is undone exactly. Whatever the true times were, if each is
    within half a period of the one before, the corrected values of their wrapped
    fields are the true times up to one constant, set by where the pivot placed
    the first; and after a seek, from a landing within half a period of the
    target, they are the true times themselves. *)
Theorem wrap_unwraps w t ts target :
  0 < bits w <= 60 -> last_raw w = None -> correct_overflow w = true ->
  small_steps (2 ^ (bits w - 1)) t ts -> Forall (fun u => Z.abs (u - t) <= 2 ^ 61) ts ->
  (exists c, c + t = pivot w (t mod 2 ^ bits w) /\
     fst (corrects w (map (field (bits w)) (t :: ts))) = map (fun u => Some (u + c)) (t :: ts)) /\
  (Z.abs target <= 2 ^ 60 -> Z.abs (t - target) < 2 ^ (bits w - 1) ->
     fst (corrects (resync w (Some target) (field (bits w) t)) (map (field (bits w)) (t :: ts)))
       = map Some (t :: ts)).
Proof.
  intros Hb Hl Hc Hs Hts. destruct (period_of w Hb) as (Hp & E2 & Hp60 & Hh & Hq).
  pose proof (Z.mod_pos_bound t (2 ^ bits w) ltac:(lia)) as Mt.
  pose proof (Z.div_mod t (2 ^ bits w) ltac:(lia)) as Et. split.
  - pose proof (pivot_range w (t mod 2 ^ bits w) Hb Mt) as Hr.
    set (c := pivot w (t mod 2 ^ bits w) - t). exists c. split; [unfold c; lia|].
    cbn [map corrects]. unfold correct at 1, field at 1. rewrite Hp, Hl.
    rewrite (sat_i_id 64 (pivot w (t mod 2 ^ bits w) - t mod 2 ^ bits w)) by (simpl; lia).
    rewrite sat_i_id by (simpl; lia).
    set (w' := placed w _ _). change (bits w) with (bits w').
    assert (fst (corrects w' (map (field (bits w')) ts)) = map (fun u => Some (u + c)) ts) as H.
    { apply (corrects_track w' t c ts); try done; [|unfold c; lia|].
      - unfold tracks, w', placed, c. cbn. repeat split; [lia|done].
      - eapply Forall_impl; [exact Hts|]. intros u Hu. cbv beta in *. unfold c. lia. }
    destruct (corrects w' _) as [os w'']. cbn [fst] in *. rewrite H. f_equal. f_equal.
    change (bits w') with (bits w). unfold c. lia.
  - intros Htg Hnear. set (w1 := resync w (Some target) (field (bits w) t)).
    assert (bits w1 = bits w /\ tracks w1 t 0) as [Hb1 Hw1].
    { unfold w1, resync, field. cbv zeta. change (period (WrapState _ _ _ _ _ _ _)) with (period w).
      rewrite Hp. split; [done|].
      unfold tracks, placed. cbn [last_raw woffset correct_overflow bits].
      repeat split; [|done]. rewrite Hq. set (P := 2 ^ bits w) in *. set (h := 2 ^ (bits w - 1)) in *.
      assert (Z.quot (target - t mod P + (if 0 <=? target - t mod P then h else - h)) P = t / P) as ->.
      { destruct (Z.leb_spec 0 (target - t mod P)).
        - rewrite Z.quot_div_nonneg by lia. symmetry. apply Z.div_unique with (r := target - t + h); lia.
        - rewrite <- (Z.opp_involutive (target - t mod P + - h)), Z.quot_opp_l by lia.
          rewrite Z.quot_div_nonneg by lia.
          assert (- (target - t mod P + - h) / P = - (t / P)) as ->; [|lia].
          symmetry. apply Z.div_unique with (r := h - (target - t)); lia. }
      replace (t / P * P) with (t - t mod P) by lia.
      unfold sat_i. rewrite checked_i_in by (apply in_i_spec; simpl; lia). simpl. lia. }
    rewrite <- Hb1 in *. rewrite (corrects_track w1 t 0 (t :: ts)); try done.
    + apply map_ext. intros u. by rewrite Z.add_0_r.
    + split; [lia|done].
    + lia.
    + constructor; [lia|]. eapply Forall_impl; [exact Hts|]. intros u Hu. cbv beta in *. lia.
Qed.

(** A 33-bit clock that wraps between the second and the third value, pivoted
    up because discovery began near the top of the range. *)
Lemma wrap_unwraps_witness :
  let w := observe (wrap_new 33) (2 ^ 33 - 9000) in
  exists c, c + (2 ^ 33 - 9000) = pivot w ((2 ^ 33 - 9000) mod 2 ^ 33) /\
    fst (corrects w (map (field 33) [2 ^ 33 - 9000; 2 ^ 33 - 100; 2 ^ 33 + 8900]))
      = map (fun u => Some (u + c)) [2 ^ 33 - 9000; 2 ^ 33 - 100; 2 ^ 33 + 8900].
Proof.
  intros w. refine (proj1 (wrap_unwraps w (2 ^ 33 - 9000) [2 ^ 33 - 100; 2 ^ 33 + 8900] 0 _ eq_refl eq_refl _ _)).
  - split; vm_compute; [reflexivity|discriminate].
  - vm_compute. repeat split; reflexivity.
  - repeat constructor; vm_compute; discriminate.
Defined.

(** [WrapState::new] documents that values above 63 cannot wrap, so 63 is a
    width like any other; but [1i64 << 63] is negative, and a clock that ticks
    from 1 to 3 jumps to the end of the range. *)
Lemma period_63_is_negative :
  period (wrap_new 63) = Some (- 2 ^ 63) /\
  fst (corrects (wrap_new 63) [Some 1; Some 2; Some 3]) = [Some 1; Some (2 ^ 63 - 1); Some (2 ^ 63 - 1)].
Proof. vm_compute. done. Qed.

(** ** The reorder window *)

(** Where a value goes in the sorted window: before the first greater one. *)
Fixpoint insert (v : Z) (l : list Z) : list Z :=
  match l with
  | [] => [v]
  | x :: l => if v <? x then v :: x :: l else x :: insert v l
  end.

Lemma insert_perm v l : insert v l ≡ₚ v :: l.
Proof.
  induction l as [|x l IH]; simpl; [done|]. destruct (v <? x); [done|]. rewrite IH. constructor.
Qed.

Lemma insert_sorted v l : StronglySorted Z.le l -> StronglySorted Z.le (insert v l).
Proof.
  induction 1 as [|x l Hs IH Hx]; simpl; [by repeat constructor|].
  destruct (Z.ltb_spec v x).
  - constructor; [by constructor|]. constructor; [lia|]. eapply Forall_impl; [exact Hx|]. simpl. lia.
  - constructor; [done|]. apply Forall_forall. intros y Hy. rewrite insert_perm in Hy.
    apply elem_of_cons in Hy as [->|Hy]; [done|]. by apply (proj1 (Forall_forall _ _) Hx).
Qed.

(** The array's first entries are the window. *)
Definition windowed (s : stream_ts) (w : list Z) : Prop :=
  exists rest, reorder s = map Some w ++ rest /\ length w = reorder_len s /\ length (reorder s) = MAX_REORDER.

Lemma position_insert v w :
  let pos := default (length w) (position (fun t => match t with Some x => v <? x | None => true end) (map Some w)) in
  (pos <= length w)%nat /\ insert v w = take pos w ++ v :: drop pos w.
Proof.
  induction w as [|x w IH]; [done|]. cbn [map position length insert]. destruct (v <? x); [split; [simpl; lia|done]|].
  destruct (position _ (map Some w)) as [n|]; simpl in *; destruct IH as [H1 H2]; (split; [lia|by rewrite H2]).
Qed.

(** What a push leaves in the stream besides its window. *)
Definition same_but_window (s s' : stream_ts) : Prop :=
  cur_dts s' = cur_dts s /\ last_duration s' = last_duration s /\ delay s' = delay s /\
  reorders s' = reorders s /\ repaired s' = repaired s.

(** [copy_within] opens a gap at the end of [a], and the store fills it. *)
Lemma shift_insert {A} (a b rest : list A) x :
  rest <> [] ->
  <[length a := x]> (copy_within (a ++ b ++ rest) (length a) (length a + length b) (length a + 1))
    = a ++ x :: b ++ tail rest.
Proof.
  intros Hr. unfold copy_within.
  rewrite drop_app_length. replace (length a + length b - length a)%nat with (length b) by lia.
  rewrite take_app_length.
  replace (length a + 1 + length b)%nat with (length a + (length b + 1))%nat by lia.
  rewrite drop_app_add, take_app_add. rewrite drop_app_add.
  assert (exists y, take 1 (b ++ rest) = [y]) as [y Hy].
  { destruct b as [|y b]; [|by exists y]. destruct rest as [|y rest]; [done|]. by exists y. }
  rewrite Hy, <- app_assoc. rewrite insert_app_r_alt, Nat.sub_diag by lia. cbn.
  destruct rest as [|z rest]; [done|]. simpl. by rewrite drop_0.
Qed.

Lemma shift_out {A} (x : A) l rest :
  copy_within (x :: l ++ rest) 1 (S (length l)) 0 = l ++ drop (length l) (x :: l ++ rest).
Proof.
  unfold copy_within. cbn [take app drop]. replace (S (length l) - 1)%nat with (length l) by lia.
  by rewrite drop_0, take_app_length.
Qed.

Lemma push_reorder_spec s w v :
  windowed s w -> (length w < MAX_REORDER)%nat ->
  let w' := insert v w in
  exists o s', push_reorder s (Some v) = (o, s') /\ same_but_window s s' /\
    if (length w' <=? delay s)%nat then o = None /\ windowed s' w'
    else exists h t, w' = h :: t /\ o = Some (Some h) /\ windowed s' t.
Proof.
  intros (rest & Er & Hlen & H16) Hw w'. unfold push_reorder. rewrite <- Hlen.
  destruct (Nat.leb_spec MAX_REORDER (length w)); [lia|].
  assert (length (map Some w) = length w) as Hmw by apply length_map.
  rewrite Er, take_app_length' by done.
  destruct (position_insert v w) as [Hpos Hins].
  set (pos := default (length w) _) in *. rewrite Er, length_app, Hmw in H16.
  assert (length (take pos w) = pos) as Hlt by (rewrite length_take; lia).
  assert (<[pos := Some v]> (copy_within (map Some w ++ rest) pos (length w) (pos + 1))
          = map Some w' ++ tail rest) as ->.
  { unfold w'. rewrite Hins, map_app, <- app_assoc. cbn [map app].
    rewrite <- (shift_insert (map Some (take pos w))) by (destruct rest; [simpl in H16; lia|done]).
    rewrite !length_map, length_drop, Hlt, app_assoc, <- map_app, take_drop.
    do 2 f_equal. lia. }
  assert (length w' = S (length w)) as Hw' by (unfold w'; by rewrite insert_perm).
  rewrite Hw'. assert (length (tail rest) = (length rest - 1)%nat) as Htl by (by destruct rest; simpl; lia).
  destruct (Nat.leb_spec (S (length w)) (delay s)).
  - do 2 eexists. split; [reflexivity|]. split; [done|]. split; [done|].
    exists (tail rest). split; [done|]. cbn [reorder_len reorder with_window]. split; [done|].
    rewrite length_app, length_map, Htl. lia.
  - destruct w' as [|h t] eqn:Ew; [done|]. cbn [map app].
    do 2 eexists. split; [reflexivity|]. split; [done|]. exists h, t. split; [done|]. split; [done|].
    injection Hw' as Ht. rewrite <- Ht, <- (length_map Some t), shift_out.
    eexists. split; [reflexivity|]. cbn [reorder_len reorder with_window]. rewrite length_map. split; [lia|].
    rewrite length_app, length_drop. cbn [length]. rewrite length_app, length_map, Htl. lia.
Qed.

(** Push a stream of values; what comes out, and the stream record after. *)
Fixpoint push_all (s : stream_ts) (vs : list Z) : list timestamp * stream_ts :=
  match vs with
  | [] => ([], s)
  | v :: vs =>
    let (o, s) := push_reorder s (Some v) in
    let (os, s) := push_all s vs in
    (option_list o ++ os, s)
  end.

(** No value has more than [d] greater ones before it, given [pre] came first. *)
Fixpoint reordered_by (d : nat) (pre vs : list Z) : Prop :=
  match vs with
  | [] => True
  | v :: vs => (length (filter (fun x => (v < x)%Z) pre) <= d)%nat /\ reordered_by d (pre ++ [v]) vs
  end.

Lemma sorted_app_le (l k : list Z) x y :
  StronglySorted Z.le (l ++ k) -> x ∈ l -> y ∈ k -> x <= y.
Proof.
  intros H Hx Hy. induction l as [|z l IH]; [by apply not_elem_of_nil in Hx|].
  cbn [app] in H. apply StronglySorted_inv in H as [H Hz]. apply elem_of_cons in Hx as [->|Hx]; [|auto].
  apply (proj1 (Forall_forall _ _) Hz). rewrite elem_of_app. by right.
Qed.

Lemma filter_keeps (P : Z -> Prop) `{forall x, Decision (P x)} (l : list Z) : (forall x, x ∈ l -> P x) -> filter P l = l.
Proof.
  induction l as [|x l IH]; intros Hl; [done|]. rewrite filter_cons_True by (apply Hl; by constructor).
  f_equal. apply IH. intros y Hy. apply Hl. by constructor.
Qed.

(** The next value out is no smaller than any before it. *)
Lemma popped_in_order d pre out w v h t :
  out ++ w ≡ₚ pre -> StronglySorted Z.le (out ++ w) -> length w = d ->
  (length (filter (fun x => (v < x)%Z) pre) <= d)%nat -> insert v w = h :: t ->
  StronglySorted Z.le ((out ++ [h]) ++ t).
Proof.
  intros Hp Hs Hd Hc Hi. rewrite <- app_assoc. cbn [app].
  assert (StronglySorted Z.le (insert v w)) as Hsw.
  { apply insert_sorted. clear - Hs. induction out as [|x out IH]; [done|]. apply IH.
    by apply StronglySorted_inv in Hs as [? _]. }
  rewrite Hi in Hsw.
  assert (forall o, o ∈ out -> o <= v) as Hov.
  { intros o Ho. destruct (Z.le_gt_cases o v) as [|Hlt]; [done|]. exfalso.
    assert (S d <= length (filter (fun x => (v < x)%Z) pre))%nat; [|lia].
    rewrite <- Hp, filter_app, length_app.
    assert (1 <= length (filter (fun x => (v < x)%Z) out))%nat.
    { assert (o ∈ filter (fun x => (v < x)%Z) out) as Hin by (apply list_elem_of_filter; split; [lia|done]).
      destruct (filter _ out); [by apply not_elem_of_nil in Hin|simpl; lia]. }
    assert (filter (fun x => (v < x)%Z) w = w) as ->; [|lia].
    apply filter_keeps. intros x Hx. pose proof (sorted_app_le out w o x Hs Ho Hx). lia. }
  assert (forall o x, o ∈ out -> x ∈ h :: t -> o <= x) as Hox.
  { intros o x Ho Hx. rewrite <- Hi, insert_perm in Hx. apply elem_of_cons in Hx as [->|Hx]; [auto|].
    exact (sorted_app_le out w o x Hs Ho Hx). }
  clear - Hs Hsw Hox. induction out as [|o out IH]; [done|]. cbn [app] in *.
  apply StronglySorted_inv in Hs as [Hs Ho]. constructor.
  - apply IH; [done|]. intros o' x Ho' Hx. apply Hox; [by constructor|done].
  - apply Forall_app. split; [by apply Forall_app in Ho as [? _]|]. apply Forall_forall. intros x Hx.
    apply Hox; [by constructor|done].
Qed.

Lemma push_all_spec d s vs pre out w :
  windowed s w -> delay s = d -> (d < MAX_REORDER)%nat -> (length w <= d)%nat -> (out <> [] -> length w = d) ->
  out ++ w ≡ₚ pre -> StronglySorted Z.le (out ++ w) -> reordered_by d pre vs ->
  exists out' w', fst (push_all s vs) = map Some out' /\ windowed (snd (push_all s vs)) w' /\
    (out ++ out') ++ w' ≡ₚ pre ++ vs /\ StronglySorted Z.le ((out ++ out') ++ w') /\
    (length w' <= d)%nat /\ (out ++ out' <> [] -> length w' = d).
Proof.
  revert s pre out w. induction vs as [|v vs IH]; intros s pre out w Hw Hd H16 Hlen Hfull Hp Hs Hr.
  { exists [], w. by rewrite !app_nil_r. }
  destruct Hr as [Hc Hr]. cbn [push_all].
  destruct (push_reorder_spec s w v Hw ltac:(lia)) as (o & s' & -> & (_ & _ & Hd' & _) & Ho).
  assert (length (insert v w) = S (length w)) as El by (by rewrite insert_perm).
  rewrite El, Hd in Ho. rewrite Hd in Hd'.
  destruct (Nat.leb_spec (S (length w)) d) as [Hlt|Hge].
  - destruct Ho as [-> Hw']. assert (out = []) as ->. { destruct out; [done|]. by specialize (Hfull ltac:(done)); lia. }
    destruct (IH s' (pre ++ [v]) [] (insert v w) Hw' Hd' H16) as (out' & w' & H1 & H2 & H3 & H4 & H5 & H6).
    + rewrite insert_perm. simpl. lia.
    + done.
    + cbn [app] in *. rewrite insert_perm, Hp. apply Permutation_cons_append.
    + by apply insert_sorted.
    + done.
    + destruct (push_all s' vs) as [os s'']. cbn [option_list app fst snd] in *. exists out', w'.
      rewrite <- app_assoc in H3. by repeat split.
  - assert (length w = d) as Hwd by lia. destruct Ho as (h & t & Ei & -> & Hw').
    assert (h :: t ≡ₚ v :: w) as Hperm by (by rewrite <- Ei, insert_perm).
    assert (length t = d) as Htd by (apply Permutation_length in Hperm; simpl in Hperm; lia).
    destruct (IH s' (pre ++ [v]) (out ++ [h]) t Hw' Hd' H16) as (out' & w' & H1 & H2 & H3 & H4 & H5 & H6).
    + lia.
    + done.
    + rewrite <- app_assoc. cbn [app]. rewrite Hperm, <- Hp. 
      rewrite (Permutation_cons_append _ v), app_assoc. done.
    + exact (popped_in_order d pre out w v h t Hp Hs Hwd Hc Ei).
    + done.
    + destruct (push_all s' vs) as [os s'']. cbn [option_list fst snd] in *. exists (h :: out'), w'.
      repeat rewrite <- app_assoc in H3. repeat rewrite <- app_assoc in H4. repeat rewrite <- app_assoc in H6.
      rewrite <- !app_assoc. cbn [app] in *.
      split; [by rewrite H1|]. by repeat split.
Qed.

(** C11. The reorder window sorts: on a stream whose packets are out of order by
    no more than its declared delay, the values handed out (as DTS from PTS, or
    PTS from DTS) are exactly the sorted sequence of all values seen, in order,
    the last [delay] of them still held; and the array never overflows. *)
Theorem reorder_sorts d r vs :
  (d < MAX_REORDER)%nat -> reordered_by d [] vs ->
  let s := StreamTs TS_NONE 0 (replicate MAX_REORDER TS_NONE) 0 d r 0 in
  exists l, l ≡ₚ vs /\ StronglySorted Z.le l /\
    fst (push_all s vs) = map Some (take (length vs - d) l) /\
    windowed (snd (push_all s vs)) (drop (length vs - d) l).
Proof.
  intros Hd Hr s.
  destruct (push_all_spec d s vs [] [] []) as (out & w & H1 & H2 & H3 & H4 & H5 & H6); try done.
  - by exists (replicate MAX_REORDER TS_NONE).
  - simpl. lia.
  - constructor.
  - cbn [app] in *. exists (out ++ w). split; [done|]. split; [done|].
    assert (length out + length w = length vs)%nat as Hl by (by rewrite <- length_app, H3).
    assert (length vs - d = length out)%nat as ->.
    { destruct out as [|x out]; [simpl in *; lia|]. rewrite (H6 ltac:(done)) in Hl. lia. }
    by rewrite take_app_length, drop_app_length.
Qed.

(** The order x264 gives a stream with two B-frames. *)
Lemma reorder_sorts_witness :
  let s := StreamTs TS_NONE 0 (replicate MAX_REORDER TS_NONE) 0 2 true 0 in
  exists l, l ≡ₚ [0; 200; 100; 300; 400] /\ StronglySorted Z.le l /\
    fst (push_all s [0; 200; 100; 300; 400]) = map Some (take 3 l) /\
    windowed (snd (push_all s [0; 200; 100; 300; 400])) (drop 3 l).
Proof.
  apply (reorder_sorts 2 true [0; 200; 100; 300; 400]).
  - vm_compute. repeat constructor.
  - vm_compute. repeat split; repeat constructor.
Defined.

(** ** Repair *)

(** Every timestamp held is a 64-bit value. *)
Definition stream_in (s : stream_ts) : Prop := ts_in (cur_dts s) /\ Forall ts_in (reorder s).
Definition packet_in (p : packet) : Prop := ts_in (pts p) /\ ts_in (dts p).

Lemma copy_within_in (l : list timestamp) a b d : Forall ts_in l -> Forall ts_in (copy_within l a b d).
Proof.
  intros H. unfold copy_within. apply Forall_app. split; [by apply Forall_take|]. apply Forall_app.
  split; [by apply Forall_take, Forall_drop|by apply Forall_drop].
Defined.

Lemma push_reorder_in s t :
  stream_in s -> ts_in t ->
  let (o, s') := push_reorder s t in
  stream_in s' /\ cur_dts s' = cur_dts s /\ last_duration s' = last_duration s /\ delay s' = delay s /\
  reorders s' = reorders s /\ match o with Some t => ts_in t | None => True end.
Proof.
  intros [Hc Hr] Ht. unfold push_reorder. destruct t as [v|]; [|done].
  destruct (_ <=? _)%nat; [done|].
  set (r := <[_ := Some v]> (copy_within (reorder s) _ _ _)).
  assert (Forall ts_in r) as Hr' by (by apply Forall_insert, Ht; apply copy_within_in).
  destruct (_ <=? _)%nat; [done|]. destruct r as [|o r]; [done|].
  split; [split; [done|by apply copy_within_in]|]. apply Forall_cons in Hr' as [? _]. done.
Qed.

(** The rules before the repair move 64-bit values around, on the same stream. *)
Lemma early_rules_in fflags s p rate :
  stream_in s -> packet_in p ->
  let '(p1, ignored) := ignore_dts fflags p in
  let '(p2, copied) := copy_pts true s p1 in
  let '(p3, windowed, s3) := window_dts true s p2 in
  let '(p4, generated, s4) := window_pts fflags s3 p3 in
  let '(p5, filled) := fill_duration true rate p4 in
  stream_index p5 = stream_index p /\ packet_in p5 /\ stream_in s4 /\ cur_dts s4 = cur_dts s /\
  (contains fflags IGNDTS = false -> is_Some (dts p) -> is_Some (pts p) -> duration p <> DUR_ZERO ->
     p5 = p /\ ignored = false /\ copied = false /\ windowed = false /\ generated = false /\ filled = false).
Proof.
  intros Hs Hp. unfold ignore_dts.
  set (ig := contains fflags IGNDTS && _ && _).
  assert (forall q, q = (if ig then (with_ts p (pts p) TS_NONE, true) else (p, false)) ->
    stream_index q.1 = stream_index p /\ packet_in q.1 /\
    (contains fflags IGNDTS = false -> q = (p, false))) as H1.
  { intros q ->. destruct ig eqn:E; cbn; [|done]. split; [done|]. split; [by destruct Hp|].
    intros H. unfold ig in E. by rewrite H in E. }
  destruct (if ig then _ else _) as [p1 ignored]. destruct (H1 _ eq_refl) as (I1 & P1 & X1). clear H1 ig.
  cbn [fst] in *. unfold copy_pts, lacks_dts.
  set (co := true && (_ && _) && _ && _).
  assert (forall q, q = (if co then (with_ts p1 (pts p1) (pts p1), true) else (p1, false)) ->
    stream_index q.1 = stream_index p /\ packet_in q.1 /\ (is_Some (dts p1) -> q = (p1, false))) as H2.
  { intros q ->. destruct co eqn:E; cbn; [|done]. split; [done|]. split; [by destruct P1|].
    intros H. unfold co in E. rewrite bool_decide_false in E by (by intros E'; rewrite E' in H; destruct H). done. }
  destruct (if co then _ else _) as [p2 copied]. destruct (H2 _ eq_refl) as (I2 & P2 & X2). clear H2 co.
  cbn [fst] in *.
  assert (let '(p3, windowed, s3) := window_dts true s p2 in
    stream_index p3 = stream_index p /\ packet_in p3 /\ stream_in s3 /\ cur_dts s3 = cur_dts s /\
    (is_Some (dts p2) -> p3 = p2 /\ windowed = false)) as H3.
  { unfold window_dts. destruct (true && lacks_dts p2 && _ && _) eqn:E; [|done].
    pose proof (push_reorder_in s (pts p2) Hs (proj1 P2)) as H.
    assert (is_Some (dts p2) -> False) as Hno.
    { intros [d Ed]. unfold lacks_dts in E. rewrite bool_decide_false in E by congruence. done. }
    destruct (push_reorder s (pts p2)) as [[d|] s3]; destruct H as (Hs3 & Hc & _ & _ & _ & Ho);
      (split; [done|]); (split; [by destruct P2|]); (split; [done|]); (split; [done|]); by intros ?%Hno. }
  destruct (window_dts true s p2) as [[p3 windowed] s3]. destruct H3 as (I3 & P3 & S3 & C3 & X3).
  assert (let '(p4, generated, s4) := window_pts fflags s3 p3 in
    stream_index p4 = stream_index p /\ packet_in p4 /\ stream_in s4 /\ cur_dts s4 = cur_dts s /\
    (is_Some (pts p3) -> p4 = p3 /\ generated = false)) as H4.
  { unfold window_pts. destruct (_ && _ && _) eqn:E; [|done].
    pose proof (push_reorder_in s3 (dts p3) S3 (proj2 P3)) as H.
    assert (is_Some (pts p3) -> False) as Hno.
    { intros [d Ed]. apply andb_true_iff in E as [E _]. rewrite bool_decide_false in E by congruence.
      by rewrite andb_false_r in E. }
    destruct (push_reorder s3 (dts p3)) as [[d|] s4]; destruct H as (Hs4 & Hc & _ & _ & _ & Ho);
      rewrite ?Hc, ?C3; (split; [done|]); (split; [by destruct P3|]); (split; [done|]); (split; [done|]);
      by intros ?%Hno. }
  destruct (window_pts fflags s3 p3) as [[p4 generated] s4]. destruct H4 as (I4 & P4 & S4 & C4 & X4).
  assert (let '(p5, filled) := fill_duration true rate p4 in
    stream_index p5 = stream_index p /\ packet_in p5 /\ (duration p4 <> DUR_ZERO -> p5 = p4 /\ filled = false)) as H5.
  { unfold fill_duration. cbn [andb]. case_bool_decide as E; [|done].
    by destruct (duration_from_rate rate). }
  destruct (fill_duration true rate p4) as [p5 filled]. destruct H5 as (I5 & P5 & X5).
  repeat (split; [done|]). intros Hig Hd Ht Hz.
  specialize (X1 Hig). injection X1 as -> ->. specialize (X2 Hd). injection X2 as -> ->.
  destruct (X3 Hd) as [-> ->]. destruct (X4 Ht) as [-> ->]. by destruct (X5 Hz) as [-> ->].
Qed.

Lemma repair_spec flags s p :
  contains flags TS_DISCONT = false -> stream_in s -> packet_in p ->
  let '(p', (fixed, overflow, exceeds)) := repair (true && negb (contains flags TS_DISCONT)) s p in
  stream_index p' = stream_index p /\ packet_in p' /\
  (forall cur d, cur_dts s = Some cur -> dts p' = Some d -> cur < d \/ overflow = true /\ d = 2 ^ 63 - 1) /\
  ((forall cur d, cur_dts s = Some cur -> dts p = Some d -> cur < d) ->
     p' = p /\ fixed = false /\ overflow = false /\ exceeds = false).
Proof.
  intros -> [Hc _] [Hpts Hdts]. unfold repair. cbn [negb andb].
  destruct (cur_dts s) as [cur|]; [|by repeat split; intros; simplify_eq].
  destruct (dts p) as [d|] eqn:Ed; [|repeat split; intros; simplify_eq; done || by rewrite Ed].
  apply in_i_spec in Hc, Hdts. simpl in Hc, Hdts.
  pose proof (sat_i_range 64 (cur + Z.max (last_duration s) 1) ltac:(lia)) as Hr. simpl in Hr.
  destruct (Z.leb_spec d cur).
  - split; [done|]. split; [split; [done|]; apply in_i_spec; simpl; lia|]. split.
    + intros cur' d' [= <-] [= <-]. cbn [fst snd].
      destruct (Z.leb_spec (sat_i 64 (cur + Z.max (last_duration s) 1)) cur); [right; split; [done|]|left; lia].
      unfold sat_i in *. simpl in *. lia.
    + intros H'. specialize (H' cur d eq_refl eq_refl). lia.
  - split; [done|]. split; [split; [done|]; rewrite Ed; by apply in_i_spec|]. split; [|done].
    intros cur' d' [= <-] E. rewrite Ed in E. injection E as <-. left. lia.
Qed.

Lemma fix_stream_spec flags fflags s p tb rate :
  contains flags TS_DISCONT = false -> stream_in s -> packet_in p ->
  let '(p', r, s') := fix_stream flags fflags true s p tb rate in
  stream_index p' = stream_index p /\ packet_in p' /\ stream_in s' /\
  cur_dts s' = match dts p' with Some d => Some d | None => cur_dts s end /\
  (forall cur d, cur_dts s = Some cur -> dts p' = Some d ->
     cur < d \/ dts_overflow r = true /\ d = 2 ^ 63 - 1) /\
  (contains fflags IGNDTS = false -> is_Some (dts p) -> is_Some (pts p) -> duration p <> DUR_ZERO ->
     (forall cur d, cur_dts s = Some cur -> dts p = Some d -> cur < d) ->
     p' = p /\ is_clean r = true).
Proof.
  intros Hdis Hs Hp. unfold fix_stream. pose proof (early_rules_in fflags s p rate Hs Hp) as H.
  destruct (ignore_dts fflags p) as [p1 ignored]. destruct (copy_pts true s p1) as [p2 copied].
  destruct (window_dts true s p2) as [[p3 windowed] s3]. destruct (window_pts fflags s3 p3) as [[p4 generated] s4].
  destruct (fill_duration true rate p4) as [p5 filled]. destruct H as (I5 & P5 & S4 & C4 & X5).
  pose proof (repair_spec flags s4 p5 Hdis S4 P5) as H. destruct (repair _ s4 p5) as [p6 [[fixed overflow] exceeds]].
  destruct H as (I6 & P6 & A6 & X6). rewrite C4 in *. cbn [dts_overflow].
  split; [congruence|]. split; [done|]. split; [|split; [unfold settle; by rewrite <- C4|split; [done|]]].
  - split; [|apply S4]. unfold settle. cbn [cur_dts]. destruct (dts p6) eqn:E; [|apply S4].
    rewrite <- E. apply P6.
  - intros Hig Hd Ht Hz Hadv. destruct (X5 Hig Hd Ht Hz) as (-> & -> & -> & -> & -> & ->).
    destruct (X6 Hadv) as (-> & -> & -> & ->). done.
Qed.

(** Feed packets, each with its stream's base and frame rate. *)
Fixpoint fix_all (f : fixer) (ps : list (packet * rational * rational)) : list (packet * fix_report) * fixer :=
  match ps with
  | [] => ([], f)
  | (p, tb, rate) :: ps =>
    let '(p, r, f) := fix_packet f p tb rate in
    let (out, f) := fix_all f ps in
    ((p, r) :: out, f)
  end.

(** The DTS values of one stream, each with whether its repair overflowed. *)
Definition dts_reports (i : nat) (out : list (packet * fix_report)) : list (Z * bool) :=
  omap (fun q => if decide (Z.to_nat (stream_index q.1) = i) then d ← dts q.1; Some (d, dts_overflow q.2) else None) out.

(** One DTS is past another, or is the last value of the range and says so. *)
Definition past (a b : Z * bool) : Prop := a.1 < b.1 \/ b.2 = true /\ b.1 = 2 ^ 63 - 1.

Definition fixer_ok (f : fixer) : Prop :=
  contains (format_flags f) TS_DISCONT = false /\ fill_in f = true /\ Forall stream_in (streams f).

Lemma fix_all_past f ps i s :
  fixer_ok f -> Forall (fun q => packet_in q.1.1) ps -> streams f !! i = Some s ->
  let out := dts_reports i (fst (fix_all f ps)) in
  StronglySorted past out /\ Forall (fun q => in_i 64 q.1 = true) out /\
  match cur_dts s with Some cur => Forall (past (cur, false)) out | None => True end.
Proof.
  intros Hf Hps. revert f s Hf. induction Hps as [|[[p tb] rate] ps Hp _ IH]; intros f s Hf Hi.
  { cbn. split; [constructor|]. split; [constructor|]. by destruct (cur_dts s). }
  destruct Hf as (Hdis & Hfill & Hall). cbn [fix_all]. unfold fix_packet.
  destruct (streams f !! Z.to_nat (stream_index p)) as [s0|] eqn:E0.
  - rewrite Hfill. cbn [fst] in Hp.
    pose proof (fix_stream_spec (format_flags f) (format_fflags f) s0 p tb rate Hdis
      (proj1 (Forall_lookup _ _) Hall _ _ E0) Hp) as H.
    destruct (fix_stream _ _ true s0 p tb rate) as [[p' r] s1]. destruct H as (Hx & Hp' & Hs1 & Hc & Hadv & _).
    set (f1 := with_streams f (<[Z.to_nat (stream_index p) := s1]> (streams f))).
    assert (fixer_ok f1) as Hf1 by (split; [done|split; [done|by apply Forall_insert]]).
    specialize (IH f1). unfold dts_reports.
    destruct (decide (Z.to_nat (stream_index p) = i)) as [Hpi|Hpi].
    + rewrite Hpi, Hi in E0. injection E0 as <-.
      specialize (IH s1 Hf1). change (streams f1) with (<[Z.to_nat (stream_index p) := s1]> (streams f)) in IH.
      rewrite Hpi in IH.
      rewrite list_lookup_insert_eq in IH by (by eapply lookup_lt_Some).
      destruct (IH eq_refl) as (IH1 & IH2 & IH3). unfold dts_reports in IH1, IH2, IH3.
      destruct (fix_all f1 ps) as [out f2]. cbn [fst snd omap list_omap] in *.
      rewrite Hx, decide_True by done. destruct (dts p') as [d|] eqn:Ed; cbn [mbind option_bind].
      * rewrite Hc in IH3. assert (in_i 64 d = true) as Hd.
        { destruct Hp' as [_ Hd]. by rewrite Ed in Hd. }
        split; [|split; [by constructor|]].
        -- constructor; [done|]. eapply Forall_impl; [exact IH3|]. intros [x o]. unfold past. done.
        -- destruct (cur_dts s) as [cur|] eqn:Ecur; [|done].
           specialize (Hadv cur d eq_refl eq_refl).
           constructor; [done|]. apply Forall_forall. intros [x o] Hxo.
           pose proof (proj1 (Forall_forall _ _) IH3 _ Hxo) as Hpast.
           pose proof (proj1 (Forall_forall _ _) IH2 _ Hxo) as Hin. apply in_i_spec in Hin.
           unfold past in *. cbn [fst snd] in *. simpl in Hin. destruct Hpast as [?|?]; [|by right].
           left. lia.
      * rewrite Hc in IH3. by repeat split.
    + specialize (IH s Hf1). change (streams f1) with (<[Z.to_nat (stream_index p) := s1]> (streams f)) in IH.
      rewrite list_lookup_insert_ne in IH by done. specialize (IH Hi). unfold dts_reports in IH.
      destruct (fix_all f1 ps) as [out f2]. cbn [fst snd omap list_omap] in *.
      by rewrite Hx, decide_False.
  - specialize (IH f s (conj Hdis (conj Hfill Hall)) Hi). unfold dts_reports in *.
    destruct (fix_all f ps) as [out f2]. cbn [fst snd omap list_omap] in *.
    rewrite decide_False; [done|]. intros Hpi. rewrite Hpi in E0. congruence.
Qed.

(** C12. A container that does not declare discontinuities leaves the fixer with
    monotonic decode times: whatever the packets, per stream the DTS values that
    come out strictly increase, except that a repair which runs into the end of
    the 64-bit range stays there and is reported; and a packet that is complete
    and already advances is passed through untouched, with a clean report. *)
Theorem fixer_monotone n flags o ps i p tb rate :
  contains flags TS_DISCONT = false -> fills_in_timestamps o = true ->
  Forall (fun q => packet_in q.1.1) ps -> (i < n)%nat -> packet_in p ->
  let f := fixer_new n flags o in
  StronglySorted past (dts_reports i (fst (fix_all f ps))) /\
  (forall s, contains (fflags o) IGNDTS = false -> is_Some (dts p) -> is_Some (pts p) -> duration p <> DUR_ZERO ->
     stream_in s -> (forall cur d, cur_dts s = Some cur -> dts p = Some d -> cur < d) ->
     fst (fst (fix_stream flags (fflags o) true s p tb rate)) = p /\
     is_clean (snd (fst (fix_stream flags (fflags o) true s p tb rate))) = true).
Proof.
  intros Hdis Hfill Hps Hi Hp f. split.
  - assert (streams f !! i = Some stream_default) as Hs by (by apply lookup_replicate_2).
    assert (fixer_ok f) as Hf.
    { split; [done|]. split; [done|]. apply Forall_replicate. split; [done|]. by apply Forall_replicate. }
    exact (proj1 (fix_all_past f ps i stream_default Hf Hps Hs)).
  - intros s Hig Hd Ht Hz Hs Hadv. pose proof (fix_stream_spec flags (fflags o) s p tb rate Hdis Hs Hp) as H.
    destruct (fix_stream _ _ true s p tb rate) as [[p' r] s']. destruct H as (_ & _ & _ & _ & _ & H). auto.
Qed.

(** A stream whose third DTS goes back. *)
Definition example_ts (d : Z) : packet * rational * rational :=
  (Packet 0 (Some d) (Some d) None DUR_ZERO 10 d, Rational 1 90000, Rational 25 1).

Lemma fixer_monotone_witness :
  let f := fixer_new 1 0 (DemuxOptions 0 true false) in
  let out := fst (fix_all f (map example_ts [0; 3600; 3000; 7300])) in
  dts_reports 0 out = [(0, false); (3600, false); (7200, false); (7300, false)] /\
  StronglySorted past (dts_reports 0 out).
Proof.
  split; [vm_compute; reflexivity|].
  refine (proj1 (fixer_monotone 1 0 (DemuxOptions 0 true false) (map example_ts [0; 3600; 3000; 7300]) 0
    (fst (fst (example_ts 0))) (Rational 1 90000) (Rational 25 1) eq_refl eq_refl _ _ _)).
  - repeat constructor.
  - constructor.
  - repeat constructor.
Defined.
