(* ===== verification/Arq.v ===== *)
(** * Arq: SRT's retransmission windows

    [src/crates/io/vaco-protocol-srt/src/arq.rs]: the sender's buffer of
    unacknowledged packets and the receiver's loss detector, reorder buffer and
    delivery gate. A [BTreeMap] is a finite map whose iteration goes through its
    keys in order. The optional pacer, which counts in [f64], is left out. *)

From Stdlib Require Import ZArith Lia Permutation.
From stdpp Require Import prelude gmap sorting.
From S2P Require Import Prelude.

Open Scope Z_scope.

Abbreviation payload := (list Z).

(** [BTreeMap::keys], ascending. *)
Definition keys {A : Type} (m : gmap Z A) : list Z := merge_sort Z.le (elements (dom m)).

(** ** The sender *)

Definition DEFAULT_RTO_MS : Z := 100.
Definition DEFAULT_LATENCY_MS : Z := 1000.

Record in_flight : Type := InFlight { timestamp : Z; body : payload; last_sent_at_ms : Z }.

Record send_stats : Type := SendStats { packets_sent : Z; packets_retransmitted : Z }.

Record send_window : Type := SendWindow {
  rto_ms : Z;
  buffer : gmap Z in_flight;
  sstats : send_stats;
}.

Definition send_new (rto : Z) : send_window := SendWindow rto ∅ (SendStats 0 0).

Definition on_send (w : send_window) (seq_no ts : Z) (p : payload) (now_ms : Z) : send_window :=
  SendWindow (rto_ms w) (<[seq_no := InFlight ts p now_ms]> (buffer w))
    (SendStats (packets_sent (sstats w) + 1) (packets_retransmitted (sstats w))).

(** [self.buffer.split_off(&last_ack_seq_no)]. *)
Definition on_ack (w : send_window) (last_ack_seq_no : Z) : send_window :=
  SendWindow (rto_ms w) (filter (fun e => (last_ack_seq_no <= e.1)%Z) (buffer w)) (sstats w).

Definition resend (w : send_window) (seq : Z) (e : in_flight) (now_ms : Z) : send_window :=
  SendWindow (rto_ms w) (<[seq := InFlight (timestamp e) (body e) now_ms]> (buffer w))
    (SendStats (packets_sent (sstats w)) (packets_retransmitted (sstats w) + 1)).

Fixpoint on_nak (w : send_window) (lost : list Z) (now_ms : Z) : list (Z * Z * payload) * send_window :=
  match lost with
  | [] => ([], w)
  | seq :: lost =>
    match buffer w !! seq with
    | Some e =>
      let (out, w) := on_nak (resend w seq e now_ms) lost now_ms in
      ((seq, timestamp e, body e) :: out, w)
    | None => on_nak w lost now_ms
    end
  end.

(** The loop over the buffer, its keys fixed beforehand. *)
Fixpoint send_tick_loop (w : send_window) (seqs : list Z) (now_ms : Z) : list (Z * Z * payload) * send_window :=
  match seqs with
  | [] => ([], w)
  | seq :: seqs =>
    match buffer w !! seq with
    | Some e =>
      if rto_ms w <=? sat_u 64 (now_ms - last_sent_at_ms e) then
        let (out, w) := send_tick_loop (resend w seq e now_ms) seqs now_ms in
        ((seq, timestamp e, body e) :: out, w)
      else send_tick_loop w seqs now_ms
    | None => send_tick_loop w seqs now_ms
    end
  end.

Definition send_on_tick (w : send_window) (now_ms : Z) : list (Z * Z * payload) * send_window :=
  send_tick_loop w (keys (buffer w)) now_ms.

(** ** The receiver *)

Record receive_stats : Type := ReceiveStats {
  packets_delivered : Z;
  packets_dropped : Z;
  bytes_delivered : Z;
}.

Record receive_window : Type := ReceiveWindow {
  latency_ms : Z;
  next_expected : Z;
  highest_seen : option Z;
  loss_list : gmap Z Z;
  buffered : gmap Z payload;
  rstats : receive_stats;
}.

Record receive_tick : Type := ReceiveTick {
  delivered : list (Z * payload);
  dropped : list Z;
  renak : list Z;
}.

Definition receive_new (latency first_expected_seq_no : Z) : receive_window :=
  ReceiveWindow latency first_expected_seq_no None ∅ ∅ (ReceiveStats 0 0 0).

(** [for missing in from..to], [n] numbers from [from]. *)
Fixpoint note_losses (n : nat) (missing : Z) (buffered : gmap Z payload) (losses : gmap Z Z) (now_ms : Z)
    : list Z * gmap Z Z :=
  match n with
  | O => ([], losses)
  | S n =>
    if bool_decide (buffered !! missing = None) && bool_decide (losses !! missing = None) then
      let (new, losses) := note_losses n (missing + 1) buffered (<[missing := now_ms]> losses) now_ms in
      (missing :: new, losses)
    else note_losses n (missing + 1) buffered losses now_ms
  end.

Definition on_data (w : receive_window) (seq_no : Z) (p : payload) (now_ms : Z) : list Z * receive_window :=
  if seq_no <? next_expected w then ([], w)
  else
    let buffered := <[seq_no := p]> (buffered w) in
    let losses := delete seq_no (loss_list w) in
    let (new_losses, losses) :=
      match highest_seen w with
      | Some highest =>
        if highest + 1 <? seq_no
        then note_losses (Z.to_nat (seq_no - (highest + 1))) (highest + 1) buffered losses now_ms
        else ([], losses)
      | None => ([], losses)
      end in
    (new_losses,
     ReceiveWindow (latency_ms w) (next_expected w)
       (Some (match highest_seen w with Some h => Z.max h seq_no | None => seq_no end))
       losses buffered (rstats w)).

(** One round of the delivery loop. *)
Inductive event : Type := Deliver (seq : Z) (p : payload) | Drop (seq : Z).

Definition tick_step (w : receive_window) (now_ms : Z) : option (event * receive_window) :=
  let n := next_expected w in
  match buffered w !! n with
  | Some p =>
    Some (Deliver n p,
      ReceiveWindow (latency_ms w) (sat_u 32 (n + 1)) (highest_seen w) (delete n (loss_list w))
        (delete n (buffered w))
        (ReceiveStats (packets_delivered (rstats w) + 1) (packets_dropped (rstats w))
           (bytes_delivered (rstats w) + Z.of_nat (length p))))
  | None =>
    match loss_list w !! n with
    | Some detected_at =>
      if latency_ms w <=? sat_u 64 (now_ms - detected_at) then
        Some (Drop n,
          ReceiveWindow (latency_ms w) (sat_u 32 (n + 1)) (highest_seen w) (delete n (loss_list w))
            (buffered w)
            (ReceiveStats (packets_delivered (rstats w)) (packets_dropped (rstats w) + 1)
               (bytes_delivered (rstats w))))
      else None
    | None => None
    end
  end.

Fixpoint tick_loop (fuel : nat) (w : receive_window) (now_ms : Z) : list event * receive_window :=
  match fuel with
  | O => ([], w)
  | S fuel =>
    match tick_step w now_ms with
    | Some (e, w) => let (es, w) := tick_loop fuel w now_ms in (e :: es, w)
    | None => ([], w)
    end
  end.

Definition event_seq (e : event) : Z := match e with Deliver s _ => s | Drop s => s end.

(** A round takes an entry out of one of the two maps. *)
Definition tick_fuel (w : receive_window) : nat := S (size (buffered w) + size (loss_list w)).

Definition receive_on_tick (w : receive_window) (now_ms : Z) : receive_tick * receive_window :=
  let (es, w) := tick_loop (tick_fuel w) w now_ms in
  (ReceiveTick (omap (fun e => match e with Deliver s p => Some (s, p) | Drop _ => None end) es)
     (omap (fun e => match e with Drop s => Some s | Deliver _ _ => None end) es)
     (keys (loss_list w)), w).

(** ** The delivery loop *)

Lemma size_delete_lt {A : Type} (m : gmap Z A) i : is_Some (m !! i) -> (size (delete i m) < size m)%nat.
Proof.
  intros Hi. rewrite map_size_delete_Some by done. assert (size m <> 0)%nat; [|lia].
  intros E. apply map_size_empty_iff in E as ->. by destruct Hi.
Qed.

Lemma tick_step_spec w now :
  match tick_step w now with
  | Some (e, w') =>
    event_seq e = next_expected w /\ next_expected w' = sat_u 32 (next_expected w + 1) /\
    highest_seen w' = highest_seen w /\ latency_ms w' = latency_ms w /\
    loss_list w' = delete (next_expected w) (loss_list w) /\
    buffered w' = delete (next_expected w) (buffered w) /\
    (size (buffered w') + size (loss_list w') < size (buffered w) + size (loss_list w))%nat /\
    match e with Deliver s p => buffered w !! s = Some p | Drop s => buffered w !! s = None end
  | None =>
    buffered w !! next_expected w = None /\
    forall t, loss_list w !! next_expected w = Some t -> sat_u 64 (now - t) < latency_ms w
  end.
Proof.
  unfold tick_step. destruct (buffered w !! next_expected w) as [p|] eqn:Eb.
  - cbn. repeat (split; [done|]). split; [|done].
    pose proof (size_delete_lt (buffered w) (next_expected w) (mk_is_Some _ _ Eb)).
    assert (size (delete (next_expected w) (loss_list w)) <= size (loss_list w))%nat; [|lia].
    destruct (loss_list w !! next_expected w) eqn:El.
    + pose proof (size_delete_lt (loss_list w) (next_expected w) (mk_is_Some _ _ El)). lia.
    + by rewrite delete_id.
  - destruct (loss_list w !! next_expected w) as [t|] eqn:El; [|done].
    destruct (Z.leb_spec (latency_ms w) (sat_u 64 (now - t))).
    + cbn. rewrite (delete_id (buffered w)) by done. repeat (split; [done|]). split; [|done].
      pose proof (size_delete_lt (loss_list w) (next_expected w) (mk_is_Some _ _ El)). lia.
    + split; [done|]. intros t' [= <-]. lia.
Qed.

Lemma tick_loop_spec fuel w now :
  (size (buffered w) + size (loss_list w) < fuel)%nat ->
  let (es, w') := tick_loop fuel w now in tick_step w' now = None.
Proof.
  revert w. induction fuel as [|fuel IH]; intros w Hf; [lia|]. cbn [tick_loop].
  pose proof (tick_step_spec w now) as H. destruct (tick_step w now) as [[e w1]|] eqn:E; [|done].
  destruct H as (_ & _ & _ & _ & _ & _ & Hsz & _). specialize (IH w1 ltac:(lia)).
  by destruct (tick_loop fuel w1 now).
Qed.

(** A property of the window that every round keeps, holds after a tick. *)
Lemma tick_loop_inv (P : receive_window -> Prop) fuel w now :
  (forall w e w', P w -> tick_step w now = Some (e, w') -> P w') ->
  P w -> P (snd (tick_loop fuel w now)).
Proof.
  intros Hstep. revert w. induction fuel as [|fuel IH]; intros w Hw; [done|]. cbn [tick_loop].
  destruct (tick_step w now) as [[e w1]|] eqn:E; [|done]. specialize (IH w1 (Hstep _ _ _ Hw E)).
  by destruct (tick_loop fuel w1 now).
Qed.

(** Which numbers the gap scan records. *)
Lemma note_losses_spec n from bs losses now :
  let (new, losses') := note_losses n from bs losses now in
  forall k, losses' !! k =
    match losses !! k with
    | Some t => Some t
    | None => if decide (from <= k < from + Z.of_nat n /\ bs !! k = None) then Some now else None
    end.
Proof.
  revert from losses. induction n as [|n IH]; intros from losses; cbn [note_losses].
  { intros k. destruct (losses !! k); [done|]. by rewrite decide_False by lia. }
  destruct (bool_decide _ && bool_decide _) eqn:E.
  - apply andb_true_iff in E as [E1%bool_decide_eq_true E2%bool_decide_eq_true].
    specialize (IH (from + 1) (<[from := now]> losses)).
    destruct (note_losses n (from + 1) bs _ now) as [new losses']. intros k. rewrite IH.
    destruct (decide (k = from)) as [->|Hk].
    + rewrite lookup_insert_eq, E2. by rewrite decide_True by (split; [lia|done]).
    + rewrite lookup_insert_ne by done. destruct (losses !! k); [done|].
      apply decide_ext. split; intros [? ?]; (split; [lia|done]).
  - specialize (IH (from + 1) losses). destruct (note_losses n (from + 1) bs losses now) as [new losses'].
    intros k. rewrite IH. destruct (losses !! k) eqn:Ek; [done|]. apply decide_ext.
    split; intros [? Hb]; (split; [|done]); [lia|]. destruct (decide (k = from)) as [->|]; [|lia].
    rewrite bool_decide_true, bool_decide_true in E by done. done.
Qed.

(** ** Runs *)

Inductive op : Type := Data (seq : Z) (p : payload) (now : Z) | Tick (now : Z).

Fixpoint run (ops : list op) (w : receive_window) : list receive_tick * receive_window :=
  match ops with
  | [] => ([], w)
  | Data s p now :: ops => run ops (snd (on_data w s p now))
  | Tick now :: ops =>
    let (t, w) := receive_on_tick w now in
    let (ts, w) := run ops w in
    (t :: ts, w)
  end.

(** Sequence numbers are the packet header's 31-bit field. *)
Definition in_field (s : Z) : Prop := 0 <= s < 2 ^ 31.

Definition op_ok (o : op) : Prop := match o with Data s _ _ => in_field s | Tick _ => True end.

(** What holds of a window whose packets all came from [arrived]. *)
Record sane (arrived : list (Z * payload)) (w : receive_window) : Prop := {
  sane_next : 0 <= next_expected w <= 2 ^ 31;
  sane_buffered k p : buffered w !! k = Some p -> in_field k /\ (k, p) ∈ arrived;
  sane_losses k t : loss_list w !! k = Some t -> in_field k;
  sane_highest h : highest_seen w = Some h -> in_field h;
}.

Definition deliveries (es : list event) : list (Z * payload) :=
  omap (fun e => match e with Deliver s p => Some (s, p) | Drop _ => None end) es.

Definition drops (es : list event) : list Z :=
  omap (fun e => match e with Drop s => Some s | Deliver _ _ => None end) es.

Lemma tick_step_sane arr w now e w' :
  sane arr w -> tick_step w now = Some (e, w') -> sane arr w' /\ next_expected w' = next_expected w + 1 /\
  match e with Deliver s p => (s, p) ∈ arr | Drop _ => True end.
Proof.
  intros [Hn Hb Hl Hh] E. pose proof (tick_step_spec w now) as H. rewrite E in H.
  destruct H as (H1 & H2 & H3 & _ & H5 & H6 & _ & H8).
  assert (in_field (next_expected w)) as Hf.
  { unfold tick_step in E. destruct (buffered w !! next_expected w) as [p|] eqn:Eb; [by apply Hb in Eb as []|].
    destruct (loss_list w !! next_expected w) eqn:El; [by apply Hl in El|done]. }
  unfold in_field in Hf. rewrite sat_u_id in H2 by (simpl; lia). split; [|split; [done|]].
  - split; [lia| | |by rewrite H3]; intros k x; rewrite ?H5, ?H6; intros Hk; apply lookup_delete_Some in Hk as [_ Hk]; eauto.
  - destruct e as [s p|]; [|done]. cbn in H1. subst s. by apply Hb.
Qed.

(** A tick's events are the consecutive numbers from the next expected one. *)
Lemma tick_loop_events arr fuel w now :
  sane arr w ->
  let (es, w') := tick_loop fuel w now in
  sane arr w' /\ map event_seq es = seqZ (next_expected w) (next_expected w' - next_expected w) /\
  next_expected w <= next_expected w' /\ Forall (fun d => d ∈ arr) (deliveries es).
Proof.
  revert w. induction fuel as [|fuel IH]; intros w Hw; cbn [tick_loop].
  { rewrite Z.sub_diag. split; [done|]. split; [done|]. split; [lia|constructor]. }
  destruct (tick_step w now) as [[e w1]|] eqn:E.
  - destruct (tick_step_sane arr w now e w1 Hw E) as (Hw1 & Hn & Harr).
    pose proof (tick_step_spec w now) as H. rewrite E in H. destruct H as (He & _).
    specialize (IH w1 Hw1). destruct (tick_loop fuel w1 now) as [es w2].
    destruct IH as (Hw2 & Hes & Hle & Hd). split; [done|]. split; [|split; [lia|]].
    + cbn [map]. rewrite He, Hes, Hn. rewrite (seqZ_cons (next_expected w)) by lia.
      f_equal. f_equal; lia.
    + destruct e as [s p|s]; cbn; [by constructor|done].
  - rewrite Z.sub_diag. split; [done|]. split; [done|]. split; [lia|constructor].
Qed.

Lemma on_data_sane arr w s p now :
  sane arr w -> in_field s -> sane (arr ++ [(s, p)]) (snd (on_data w s p now)) /\
  next_expected (snd (on_data w s p now)) = next_expected w.
Proof.
  intros [Hn Hb Hl Hh] Hs.
  assert (sane (arr ++ [(s, p)]) w) as Hweak.
  { split; [done| |done|done]. intros k q Hk. destruct (Hb k q Hk). split; [done|]. rewrite elem_of_app. by left. }
  unfold on_data. destruct (Z.ltb_spec s (next_expected w)); [done|].
  assert (forall k q, <[s:=p]> (buffered w) !! k = Some q -> in_field k /\ (k, q) ∈ arr ++ [(s, p)]) as Hb'.
  { intros k q Hk. apply lookup_insert_Some in Hk as [[<- <-]|[_ Hk]].
    - split; [done|]. rewrite elem_of_app. right. by constructor.
    - by apply (sane_buffered _ _ Hweak). }
  assert (forall k t, delete s (loss_list w) !! k = Some t -> in_field k) as Hl'.
  { intros k t Hk. apply lookup_delete_Some in Hk as [_ Hk]. eauto. }
  destruct (highest_seen w) as [h|]; [|by split; [split; [| | |intros ? [= <-]]|]].
  specialize (Hh h eq_refl). unfold in_field in *.
  assert (forall m, Some (Z.max h s) = Some m -> 0 <= m < 2 ^ 31) as Hm by (intros m [= <-]; lia).
  destruct (Z.ltb_spec (h + 1) s); [|by split; [split|]].
  pose proof (note_losses_spec (Z.to_nat (s - (h + 1))) (h + 1) (<[s:=p]> (buffered w)) (delete s (loss_list w)) now) as Hnl.
  destruct (note_losses _ _ _ _ _) as [new losses]. split; [|done]. split; [done|done| |done].
  intros k t Hk. cbn in Hk. rewrite Hnl in Hk. unfold in_field.
  destruct (delete s (loss_list w) !! k) eqn:Ed; [by eapply Hl'|].
  case_decide as Hd; [|done]. destruct Hd. lia.
Qed.

(** The packets that arrived in a run. *)
Fixpoint arrivals (ops : list op) : list (Z * payload) :=
  match ops with
  | [] => []
  | Data s p _ :: ops => (s, p) :: arrivals ops
  | Tick _ :: ops => arrivals ops
  end.

Definition all_delivered (ts : list receive_tick) : list (Z * payload) := concat (map delivered ts).
Definition all_dropped (ts : list receive_tick) : list Z := concat (map dropped ts).

Lemma events_split es : map fst (deliveries es) ++ drops es ≡ₚ map event_seq es.
Proof.
  induction es as [|[s p|s] es IH]; cbn; [done| |].
  - by constructor.
  - rewrite <- IH. symmetry. apply Permutation_middle.
Qed.

Lemma run_events arr ops w :
  sane arr w -> Forall op_ok ops ->
  let (ts, w') := run ops w in
  exists es, all_delivered ts = deliveries es /\ all_dropped ts = drops es /\
    map event_seq es = seqZ (next_expected w) (next_expected w' - next_expected w) /\
    next_expected w <= next_expected w' /\ (forall d, d ∈ deliveries es -> d ∈ arr ++ arrivals ops).
Proof.
  revert arr w. induction ops as [|[s p now|now] ops IH]; intros arr w Hw Hops; cbn [run].
  - exists []. rewrite Z.sub_diag. repeat split; [lia|]. intros d Hd. by apply not_elem_of_nil in Hd.
  - apply Forall_cons in Hops as [Hs Hops].
    destruct (on_data_sane arr w s p now Hw Hs) as [Hw1 Hn]. specialize (IH _ _ Hw1 Hops).
    destruct (run ops _) as [ts w']. destruct IH as (es & H1 & H2 & H3 & H4 & H5). rewrite Hn in *.
    exists es. repeat (split; [done|]). intros d Hd. cbn [arrivals].
    specialize (H5 d Hd). by rewrite <- app_assoc in H5.
  - apply Forall_cons in Hops as [_ Hops]. unfold receive_on_tick.
    pose proof (tick_loop_events arr (tick_fuel w) w now Hw) as Ht.
    destruct (tick_loop (tick_fuel w) w now) as [es1 w1]. destruct Ht as (Hw1 & He1 & Hle1 & Hd1).
    specialize (IH _ _ Hw1 Hops). destruct (run ops w1) as [ts w'].
    destruct IH as (es & H1 & H2 & H3 & H4 & H5). exists (es1 ++ es).
    unfold all_delivered, all_dropped in *. cbn [map concat delivered dropped]. rewrite H1, H2.
    unfold deliveries, drops. rewrite !omap_app, map_app, He1, H3. repeat (split; [done|]).
    split; [|split; [lia|]].
    + replace (next_expected w' - next_expected w)
        with ((next_expected w1 - next_expected w) + (next_expected w' - next_expected w1)) by lia.
      rewrite seqZ_app by lia. do 2 f_equal. lia.
    + intros d Hd. apply elem_of_app in Hd as [Hd|Hd]; [|by apply H5].
      rewrite elem_of_app. left. by apply (proj1 (Forall_forall _ _) Hd1).
Qed.

Lemma seqZ_sorted a n : StronglySorted Z.lt (seqZ a n).
Proof.
  destruct (Z.le_gt_cases n 0); [rewrite seqZ_nil by lia; constructor|].
  rewrite <- (Z2Nat.id n) by lia. clear. generalize (Z.to_nat n). intros k. revert a.
  induction k as [|k IH]; intros a; [constructor|].
  rewrite (seqZ_cons a) by lia. replace (Z.pred (Z.of_nat (S k))) with (Z.of_nat k) by lia.
  constructor; [apply IH|]. apply Forall_forall. intros x Hx. apply elem_of_seqZ in Hx. lia.
Qed.

Lemma sorted_deliveries es :
  StronglySorted Z.lt (map event_seq es) ->
  StronglySorted Z.lt (map fst (deliveries es)) /\ StronglySorted Z.lt (drops es).
Proof.
  induction es as [|e es IH]; [by repeat constructor|]. cbn [map]. intros H.
  apply StronglySorted_inv in H as [H He]. destruct (IH H) as [H1 H2].
  assert (forall x, x ∈ map fst (deliveries es) ++ drops es -> event_seq e < x) as Hall.
  { intros x Hx. rewrite events_split in Hx. by apply (proj1 (Forall_forall _ _) He). }
  destruct e as [s p|s]; cbn in *; (split; [|done]) || (split; [done|]);
    constructor; try done; apply Forall_forall; intros x Hx; apply Hall; rewrite elem_of_app; auto.
Qed.

(** C13. The receiver delivers in order, once, and nothing else: over any mix of
    arrivals (duplicated, reordered, late) and ticks, the delivered numbers and
    the dropped ones are each strictly increasing and together are exactly the
    numbers from the first expected one up to the next expected one; and every
    payload handed over arrived under that number. *)
Theorem receiver_in_order latency first ops :
  in_field first -> Forall op_ok ops ->
  let (ts, w) := run ops (receive_new latency first) in
  map fst (all_delivered ts) ++ all_dropped ts ≡ₚ seqZ first (next_expected w - first) /\
  StronglySorted Z.lt (map fst (all_delivered ts)) /\ StronglySorted Z.lt (all_dropped ts) /\
  forall d, d ∈ all_delivered ts -> d ∈ arrivals ops.
Proof.
  intros Hf Hops. unfold in_field in Hf.
  assert (sane [] (receive_new latency first)) as Hw by (split; cbn; [lia|done..]).
  pose proof (run_events [] ops _ Hw Hops) as H. destruct (run ops _) as [ts w].
  destruct H as (es & -> & -> & He & _ & Hd). cbn [next_expected receive_new] in He.
  split; [by rewrite events_split, He|].
  destruct (sorted_deliveries es) as [H1 H2]; [rewrite He; apply seqZ_sorted|]. by repeat split.
Qed.

Definition example_run : list op :=
  [Data 1 [1] 0; Data 3 [3] 0; Tick 1; Data 3 [3] 2; Tick 120; Data 2 [2] 130; Data 4 [4] 131; Tick 132].

Lemma receiver_in_order_witness :
  let (ts, w) := run example_run (receive_new 100 1) in
  map fst (all_delivered ts) ++ all_dropped ts ≡ₚ seqZ 1 (next_expected w - 1).
Proof.
  pose proof (receiver_in_order 100 1 example_run) as H.
  destruct (run example_run (receive_new 100 1)) as [ts w].
  refine (proj1 (H _ _)); [split; vm_compute; [discriminate|reflexivity]|].
  repeat constructor; vm_compute; discriminate || reflexivity.
Defined.

(** ** Progress *)

(** Every number between the next expected one and the highest seen is either
    here or known missing, and nothing outside that range is held. *)
Record covered (w : receive_window) (h : Z) : Prop := {
  cov_highest : highest_seen w = Some h;
  cov_next : next_expected w <= h + 1;
  cov_field : 0 <= next_expected w /\ h < 2 ^ 31;
  cov_held k : is_Some (buffered w !! k) \/ is_Some (loss_list w !! k) -> next_expected w <= k <= h;
  cov_all k : next_expected w <= k <= h -> is_Some (buffered w !! k) \/ is_Some (loss_list w !! k);
}.

Lemma tick_step_covered w h now e w' : covered w h -> tick_step w now = Some (e, w') -> covered w' h.
Proof.
  intros [H1 H2 H3 H4 H5] E. pose proof (tick_step_spec w now) as H. rewrite E in H.
  destruct H as (_ & Hn & Hh & _ & Hl & Hb & _ & _).
  assert (next_expected w <= next_expected w <= h) as Hle.
  { apply H4. unfold tick_step in E. destruct (buffered w !! next_expected w); [by left; eexists|].
    destruct (loss_list w !! next_expected w); [by right; eexists|done]. }
  rewrite sat_u_id in Hn by (simpl; lia).
  split; rewrite ?Hn, ?Hh, ?Hl, ?Hb; [done|lia|lia| |].
  - intros k [[x Hx]|[x Hx]]; apply lookup_delete_Some in Hx as [Hk Hx].
    + specialize (H4 k (or_introl (mk_is_Some _ _ Hx))). lia.
    + specialize (H4 k (or_intror (mk_is_Some _ _ Hx))). lia.
  - intros k Hk. rewrite !lookup_delete_ne by lia. apply H5. lia.
Qed.

Lemma on_data_covered w h s p now :
  covered w h -> in_field s -> exists h', covered (snd (on_data w s p now)) h'.
Proof.
  intros Hc Hs. unfold on_data. destruct (Z.ltb_spec s (next_expected w)); [by exists h|].
  destruct Hc as [H1 H2 H3 H4 H5]. rewrite H1. unfold in_field in Hs. exists (Z.max h s).
  assert (forall losses, (forall k, is_Some (losses !! k) <->
      (k <> s /\ is_Some (loss_list w !! k)) \/ (h + 1 <= k < s /\ buffered w !! k = None /\ loss_list w !! k = None)) ->
    covered (ReceiveWindow (latency_ms w) (next_expected w) (Some (Z.max h s)) losses (<[s:=p]> (buffered w)) (rstats w))
      (Z.max h s)) as Hgen.
  { intros losses Hl. split; cbn; [done|lia|lia| |].
    - intros k [Hk|Hk].
      + destruct (decide (k = s)) as [->|]; [lia|]. rewrite lookup_insert_ne in Hk by done.
        specialize (H4 k (or_introl Hk)). lia.
      + apply Hl in Hk as [[_ Hk]|[Hk _]]; [specialize (H4 k (or_intror Hk)); lia|lia].
    - intros k Hk. destruct (decide (k = s)) as [->|Hks]; [left; rewrite lookup_insert_eq; by eexists|].
      rewrite lookup_insert_ne by done.
      destruct (decide (k <= h)) as [Hle|Hgt].
      + destruct (H5 k ltac:(lia)) as [?|?]; [by left|]. right. apply Hl. by left.
      + right. apply Hl. right. split; [lia|]. split; apply eq_None_not_Some; intros Hx.
        * specialize (H4 k (or_introl Hx)). lia.
        * specialize (H4 k (or_intror Hx)). lia. }
  destruct (Z.ltb_spec (h + 1) s).
  - pose proof (note_losses_spec (Z.to_nat (s - (h + 1))) (h + 1) (<[s:=p]> (buffered w)) (delete s (loss_list w)) now) as Hnl.
    destruct (note_losses _ _ _ _ _) as [new losses]. cbn [snd]. apply Hgen. intros k. rewrite Hnl.
    destruct (decide (k = s)) as [->|Hks].
    + rewrite lookup_delete_eq, decide_False by lia. split; [by intros []|]. intros [[? _]|[? _]]; [done|lia].
    + rewrite lookup_delete_ne, lookup_insert_ne by done. destruct (loss_list w !! k) as [t|] eqn:El.
      * split; [intros _; left; split; [done|by eexists]|by eexists].
      * replace (h + 1 + Z.of_nat (Z.to_nat (s - (h + 1)))) with s by lia. case_decide as Hd.
        -- split; [intros _; right; by destruct Hd|by eexists].
        -- split; [by intros []|]. intros [[_ []]|(? & ? & _)]; [done|]. by destruct Hd.
  - cbn [snd]. apply Hgen. intros k. split.
    + intros [t Hk]. apply lookup_delete_Some in Hk as [? Hk]. left. split; [done|by eexists].
    + intros [[? Hk]|[? _]]; [by rewrite lookup_delete_ne|lia].
Qed.

Lemma run_covered ops w h : covered w h -> Forall op_ok ops -> exists h', covered (snd (run ops w)) h'.
Proof.
  revert w h. induction ops as [|[s p now|now] ops IH]; intros w h Hw Hops; cbn [run]; [by exists h| |].
  - apply Forall_cons in Hops as [Hs Hops]. destruct (on_data_covered w h s p now Hw Hs) as [h' Hw'].
    exact (IH _ _ Hw' Hops).
  - apply Forall_cons in Hops as [_ Hops]. unfold receive_on_tick.
    pose proof (tick_loop_inv (fun w => covered w h) (tick_fuel w) w now
      (fun w e w' => tick_step_covered w h now e w') Hw) as Ht.
    destruct (tick_loop (tick_fuel w) w now) as [es w1]. cbn [snd] in Ht.
    destruct (IH w1 h Ht Hops) as [h' Hh]. exists h'. by destruct (run ops w1).
Qed.

(** No lost packet blocks the stream for longer than the latency: once the
    first expected packet has arrived, after any further run, a tick at a time
    when every known loss is at least [latency_ms] old delivers or drops
    everything up to the highest number seen and leaves nothing held or
    announced; and a tick's loop always ends. *)
Theorem receiver_progress latency first p0 t0 ops now :
  in_field first -> Forall op_ok ops ->
  let w := snd (run (Data first p0 t0 :: ops) (receive_new latency first)) in
  (forall k t, loss_list w !! k = Some t -> latency <= sat_u 64 (now - t)) ->
  exists h, highest_seen w = Some h /\
    let (t, w') := receive_on_tick w now in
    next_expected w' = h + 1 /\ renak t = [] /\ buffered w' = ∅ /\ loss_list w' = ∅.
Proof.
  intros Hf Hops w Hold. unfold in_field in Hf.
  assert (covered (snd (on_data (receive_new latency first) first p0 t0)) first) as H0.
  { unfold on_data. cbn [next_expected receive_new]. rewrite Z.ltb_irrefl. cbn.
    split; cbn; [done|lia|lia| |].
    - intros k [[x Hx]|[x Hx]]; [|by rewrite delete_empty in Hx]. apply lookup_insert_Some in Hx as [[<- _]|[_ Hx]]; [lia|done].
    - intros k Hk. left. replace k with first by lia. rewrite lookup_insert_eq. by eexists. }
  destruct (run_covered ops _ first H0 Hops) as [h Hh]. change (covered w h) in Hh.
  assert (forall ops v, latency_ms (snd (run ops v)) = latency_ms v) as Hlat.
  { clear. induction ops as [|[s p now|now] ops IH]; intros v; cbn [run]; [done| |].
    - rewrite IH. unfold on_data. destruct (s <? next_expected v); [done|].
      by destruct (match highest_seen v with Some _ => _ | None => _ end).
    - unfold receive_on_tick.
      pose proof (tick_loop_inv (fun w => latency_ms w = latency_ms v) (tick_fuel v) v now) as Ht.
      destruct (tick_loop (tick_fuel v) v now) as [es v1]. cbn [snd] in Ht. specialize (IH v1).
      destruct (run ops v1) as [ts v2]. cbn [snd] in *. rewrite IH. apply Ht; [|done].
      intros w e w' Hw E. pose proof (tick_step_spec w now) as H. rewrite E in H. destruct H as (_ & _ & _ & H & _).
      congruence. }
  exists h. split; [apply Hh|]. unfold receive_on_tick.
  pose proof (tick_loop_inv (fun v => covered v h /\ latency_ms v = latency /\
      forall k t, loss_list v !! k = Some t -> latency <= sat_u 64 (now - t)) (tick_fuel w) w now) as Hinv.
  pose proof (tick_loop_spec (tick_fuel w) w now ltac:(unfold tick_fuel; lia)) as Hend.
  destruct (tick_loop (tick_fuel w) w now) as [es w']. cbn [snd] in Hinv.
  destruct Hinv as (Hc & Hl & Hold').
  { intros v e v' (Hc & Hl & Ho) E. split; [by eapply tick_step_covered|].
    pose proof (tick_step_spec v now) as H. rewrite E in H. destruct H as (_ & _ & _ & Hl' & Hll & _).
    split; [congruence|]. intros k t Hk. rewrite Hll in Hk. apply lookup_delete_Some in Hk as [_ Hk]. eauto. }
  { split; [done|]. split; [unfold w; by rewrite Hlat|done]. }
  pose proof (tick_step_spec w' now) as H. rewrite Hend in H. destruct H as [Hb Hlo].
  destruct Hc as [_ H2 _ H4 H5].
  assert (next_expected w' = h + 1) as Hnext.
  { destruct (decide (next_expected w' <= h)) as [Hle|]; [|lia]. exfalso.
    destruct (H5 (next_expected w') ltac:(lia)) as [[x Hx]|[t Ht]]; [congruence|].
    specialize (Hlo t Ht). specialize (Hold' _ t Ht). lia. }
  assert (buffered w' = ∅) as Eb.
  { apply map_empty. intros k. apply eq_None_not_Some. intros Hk. specialize (H4 k (or_introl Hk)). lia. }
  assert (loss_list w' = ∅) as El.
  { apply map_empty. intros k. apply eq_None_not_Some. intros Hk. specialize (H4 k (or_intror Hk)). lia. }
  split; [done|]. cbn [renak]. by rewrite El.
Qed.

Lemma receiver_progress_witness :
  let w := snd (run [Data 1 [1] 0; Data 4 [4] 5; Tick 6] (receive_new 100 1)) in
  exists h, highest_seen w = Some h /\
    let (t, w') := receive_on_tick w 105 in next_expected w' = h + 1 /\ renak t = [] /\ buffered w' = ∅ /\ loss_list w' = ∅.
Proof.
  apply (receiver_progress 100 1 [1] 0 [Data 4 [4] 5; Tick 6] 105).
  - split; vm_compute; [discriminate|reflexivity].
  - repeat constructor; vm_compute; discriminate || reflexivity.
  - intros k t Hk. assert (snd <$> (map_to_list (loss_list (snd (run [Data 1 [1] 0; Data 4 [4] 5; Tick 6] (receive_new 100 1)))))
      = [5; 5]) as E by (vm_compute; reflexivity).
    assert (t ∈ [5; 5]) as Ht. { rewrite <- E. apply list_elem_of_fmap. exists (k, t). split; [done|]. by apply elem_of_map_to_list. }
    repeat (apply elem_of_cons in Ht as [->|Ht]; [vm_compute; discriminate|]). by apply not_elem_of_nil in Ht.
Defined.

(** A first packet that is lost is never noticed: the gap scan starts at the
    highest number seen, so nothing before the first arrival is ever announced
    or given up on, however long one waits. *)
Lemma first_loss_blocks :
  let '(ts, w) := run [Data 2 [2] 0; Data 3 [3] 0; Tick 1000000] (receive_new 1000 1) in
  map delivered ts = [[]] /\ map dropped ts = [[]] /\ map renak ts = [[]] /\ next_expected w = 1.
Proof. vm_compute. done. Qed.

(** [packet.rs] says this window owns the comparison of wrapped numbers; it
    compares them as plain integers, so what follows the wrap is stale. *)
Lemma wrapped_number_is_stale :
  let '(ts, w) := run [Data (2 ^ 31 - 1) [1] 0; Tick 1; Data 0 [2] 2; Tick 5000] (receive_new 1000 (2 ^ 31 - 1)) in
  all_delivered ts = [(2 ^ 31 - 1, [1])] /\ buffered w = ∅.
Proof. vm_compute. done. Qed.

(** ** The sender's tick *)

Definition due (w : send_window) (now : Z) (e : in_flight) : bool :=
  rto_ms w <=? sat_u 64 (now - last_sent_at_ms e).

Definition resent (w : send_window) (now s : Z) : option (Z * Z * payload) :=
  e ← buffer w !! s; if due w now e then Some (s, timestamp e, body e) else None.

Lemma omap_cons_list {A B} (f : A -> option B) x (l : list A) : omap f (x :: l) = option_list (f x) ++ omap f l.
Proof. cbn. by destruct (f x). Qed.

Lemma omap_ext_in {A B} (f g : A -> option B) (l : list A) : (forall x, x ∈ l -> f x = g x) -> omap f l = omap g l.
Proof.
  induction l as [|x l IH]; intros H; [done|]. rewrite !omap_cons_list, H by (by constructor).
  f_equal. apply IH. intros y Hy. apply H. by constructor.
Qed.

Lemma in_tail (k s : Z) seqs : k <> s -> bool_decide (k ∈ s :: seqs) = bool_decide (k ∈ seqs).
Proof. intros Hk. apply bool_decide_ext. rewrite elem_of_cons. tauto. Qed.

Lemma send_tick_loop_spec w seqs now :
  NoDup seqs ->
  let (out, w') := send_tick_loop w seqs now in
  out = omap (resent w now) seqs /\
  rto_ms w' = rto_ms w /\
  packets_retransmitted (sstats w') = packets_retransmitted (sstats w) + Z.of_nat (length out) /\
  forall s, buffer w' !! s =
    (fun e => if bool_decide (s ∈ seqs) && due w now e then InFlight (timestamp e) (body e) now else e) <$> buffer w !! s.
Proof.
  intros Hnd. revert w. induction Hnd as [|s seqs Hs Hnd IH]; intros w; cbn [send_tick_loop].
  { repeat (split; [done || (cbn; lia)|]). intros s. rewrite bool_decide_false by (by intros H%not_elem_of_nil).
    cbn. by destruct (buffer w !! s). }
  assert (forall w', (forall k, k <> s -> buffer w' !! k = buffer w !! k) -> rto_ms w' = rto_ms w ->
    omap (resent w' now) seqs = omap (resent w now) seqs) as Hsame.
  { intros w' Hb Hr. clear - Hs Hb Hr. apply omap_ext_in. intros k Hk. unfold resent, due.
    rewrite Hr, Hb; [done|]. by intros ->. }
  rewrite omap_cons_list. unfold resent at 1.
destruct (buffer w !! s) as [e|] eqn:Es; cbn [mbind option_bind].
  - fold (due w now e). destruct (due w now e) eqn:Ed.
    + specialize (IH (resend w s e now)). destruct (send_tick_loop _ seqs now) as [out w'].
      destruct IH as (-> & Hr & Hc & Hb). split; [|split; [done|split]].
      * cbn. f_equal. apply Hsame; [|done]. intros k Hk. cbn. by rewrite lookup_insert_ne.
      * rewrite Hc. cbn. lia.
      * intros k. rewrite Hb. cbn [buffer resend]. destruct (decide (k = s)) as [->|Hk].
        -- rewrite lookup_insert_eq, Es. cbn. rewrite (bool_decide_false (s ∈ seqs)) by done.
           rewrite bool_decide_true by (by constructor). cbn. by rewrite Ed.
        -- rewrite lookup_insert_ne by done. destruct (buffer w !! k) as [e'|]; [|done]. cbn. f_equal.
           by rewrite in_tail.
    + specialize (IH w). destruct (send_tick_loop w seqs now) as [out w'].
      destruct IH as (-> & Hr & Hc & Hb). split; [done|split; [done|split; [done|]]].
      intros k. rewrite Hb. destruct (decide (k = s)) as [->|Hk].
      * rewrite Es. cbn. by rewrite Ed, !andb_false_r.
      * by rewrite in_tail by done.
  - specialize (IH w). destruct (send_tick_loop w seqs now) as [out w'].
    destruct IH as (-> & Hr & Hc & Hb). split; [done|split; [done|split; [done|]]].
    intros k. rewrite Hb. destruct (decide (k = s)) as [->|Hk]; [by rewrite Es|].
    by rewrite in_tail by done.
Qed.
