(* ===== verification/ExprLex.v ===== *)
(** * ExprLex: numbers and names of the expression language

    [src/crates/core/vaco-expr/src/lex.rs]. A text is the list of its UTF-8
    bytes: every token of the language is ASCII, so the byte positions the
    scanner reports are always character boundaries. An [f64] is an IEEE-754
    binary64 value of the Standard Library's [SpecFloat] (one NaN); the
    functions a C library computes, whose last bit no standard fixes, are the
    class [Libm]. *)

From Stdlib Require Import ZArith Lia Ascii String SpecFloat.
From stdpp Require Import prelude strings.
From S2P Require Import Prelude.

Open Scope Z_scope.

(** ** binary64 *)

Abbreviation f64 := spec_float.

Definition fadd : f64 -> f64 -> f64 := SFadd 53 1024.
Definition fsub : f64 -> f64 -> f64 := SFsub 53 1024.
Definition fmul : f64 -> f64 -> f64 := SFmul 53 1024.
Definition fdiv : f64 -> f64 -> f64 := SFdiv 53 1024.
Definition fsqrt : f64 -> f64 := SFsqrt 53 1024.
Definition nan : f64 := S754_nan.
Definition fzero : f64 := S754_zero false.

(** [as f64] of an integer: round to nearest, ties to even. *)
Definition of_int (z : Z) : f64 := binary_normalize 53 1024 z 0 false.

(** The nearest binary64 to [m * 10 ^ e], for [0 <= m]: what a decimal literal
    and [str::parse::<f64>] denote. *)
Definition decimal (m e : Z) : f64 :=
  if m =? 0 then fzero
  else if 0 <=? e then of_int (m * 10 ^ e)
  else
    let '(q, x, l) := SFdiv_core_binary 53 1024 m 0 (10 ^ (- e)) 0 in
    binary_round_aux 53 1024 false q x l.

(** [f64::from_bits]. *)
Definition from_bits (b : Z) : f64 :=
  let s := Z.testbit b 63 in
  let e := Z.land (Z.shiftr b 52) 2047 in
  let m := Z.land b (2 ^ 52 - 1) in
  if e =? 2047 then (if m =? 0 then S754_infinity s else S754_nan)
  else match (if e =? 0 then m else m + 2 ^ 52) with
       | Zpos q => S754_finite s q (if e =? 0 then - 1074 else e - 1075)
       | _ => S754_zero s
       end.

(** What the host's C library computes. *)
Class Libm : Type := {
  exp2 : f64 -> f64; powf : f64 -> f64 -> f64;
  facos : f64 -> f64; fasin : f64 -> f64; fatan : f64 -> f64; fatan2 : f64 -> f64 -> f64;
  fcos : f64 -> f64; fcosh : f64 -> f64; fexp : f64 -> f64; hypot : f64 -> f64 -> f64;
  fln : f64 -> f64; fsin : f64 -> f64; fsinh : f64 -> f64; ftan : f64 -> f64; ftanh : f64 -> f64;
}.

(** ** Characters and prefixes *)

Definition is_c_space (c : Z) : bool :=
  (c =? 32) || (c =? 9) || (c =? 10) || (c =? 11) || (c =? 12) || (c =? 13).

Definition strip_whitespace (src : rstr) : rstr := List.filter (fun c => negb (is_c_space c)) src.

Definition is_alpha (c : Z) : bool := ((65 <=? c) && (c <=? 90)) || ((97 <=? c) && (c <=? 122)).

Definition is_ident_continue (c : Z) : bool := is_alpha c || is_ascii_digit c || (c =? 95).

(** [str::strip_prefix] of a string. *)
Definition strip_str (s name : rstr) : option rstr :=
  if bool_decide (take (length name) s = name) then Some (drop (length name) s) else None.

Definition strmatch (s name : rstr) : bool :=
  match strip_str s name with
  | None => false
  | Some (c :: _) => negb (is_ident_continue c)
  | Some [] => true
  end.

Definition ascii_lower (c : Z) : Z := if (65 <=? c) && (c <=? 90) then c + 32 else c.

Definition match_ci (s needle : rstr) : option nat :=
  if bool_decide (map ascii_lower (take (length needle) s) = map ascii_lower needle)
  then Some (length needle) else None.

(** [take_while(..).count()]. *)
Fixpoint count_while (f : Z -> bool) (s : rstr) : nat :=
  match s with
  | c :: s => if f c then S (count_while f s) else O
  | [] => O
  end.

(** [str::find] of one ASCII character. *)
Fixpoint find_char (c : Z) (s : rstr) : option nat :=
  match s with
  | [] => None
  | x :: s => if x =? c then Some O else S <$> find_char c s
  end.

(** ** Numbers *)

Record number : Type := Number { value : f64; len : nat }.

(** [core::f64::consts::LOG2_10]. *)
Definition LOG2_10 : f64 := decimal 332192809488736234787031942948939018 (- 35).

Definition from_decibels `{Libm} (x : f64) : f64 := exp2 (fmul LOG2_10 (fdiv x (of_int 20))).

(** The table's columns, as the literals the source writes. *)
Definition si_prefix (c : Z) : option (f64 * f64) :=
  if c =? 121 then Some (decimal 1 (-24), decimal 8271806125530277 (-40))
  else if c =? 122 then Some (decimal 1 (-21), decimal 8470329472543003 (-37))
  else if c =? 97 then Some (decimal 1 (-18), decimal 8673617379884035 (-34))
  else if c =? 102 then Some (decimal 1 (-15), decimal 8881784197001252 (-31))
  else if c =? 112 then Some (decimal 1 (-12), decimal 9094947017729282 (-28))
  else if c =? 110 then Some (decimal 1 (-9), decimal 9313225746154785 (-25))
  else if c =? 117 then Some (decimal 1 (-6), decimal 95367431640625 (-20))
  else if c =? 109 then Some (decimal 1 (-3), decimal 9765625 (-10))
  else if c =? 99 then Some (decimal 1 (-2), decimal 9843133202303695 (-18))
  else if c =? 100 then Some (decimal 1 (-1), decimal 9921256574801246 (-17))
  else if c =? 104 then Some (decimal 1 2, decimal 10159366732596479 (-14))
  else if (c =? 107) || (c =? 75) then Some (decimal 1 3, of_int 1024)
  else if c =? 77 then Some (decimal 1 6, of_int 1048576)
  else if c =? 71 then Some (decimal 1 9, of_int 1073741824)
  else if c =? 84 then Some (decimal 1 12, of_int 1099511627776)
  else if c =? 80 then Some (decimal 1 15, of_int 1125899906842624)
  else if c =? 69 then Some (decimal 1 18, decimal 1152921504606847 3)
  else if c =? 90 then Some (decimal 1 21, decimal 11805916207174113 5)
  else if c =? 89 then Some (decimal 1 24, decimal 12089258196146292 8)
  else None.

(** [parse::<u64>] of text without a sign. *)
Definition parse_u64 (s : rstr) : option Z :=
  if negb (bool_decide (s = [])) && forallb is_ascii_digit s
  then checked_u 64 (digits_value 0 s) else None.

Definition QUIET : Z := 9221120237041090560.

Definition scan_nan_payload (after : rstr) (base_len : nat) : Z * nat :=
  match strip_prefix 40 after with
  | None => (QUIET, base_len)
  | Some inner =>
    match find_char 41 inner with
    | None => (QUIET, base_len)
    | Some close =>
      let text := take close inner in
      if negb (forallb is_ident_continue text) then (QUIET, base_len)
      else
        let payload := Z.land (default 0 (parse_u64 text)) 2251799813685247 in
        (Z.lor QUIET payload, (base_len + 1 + close + 1)%nat)
    end
  end.

Definition is_hexdigit (b : Z) : bool :=
  is_ascii_digit b || ((97 <=? b) && (b <=? 102)) || ((65 <=? b) && (b <=? 70)).

Definition hex_val (b : Z) : Z :=
  if (48 <=? b) && (b <=? 57) then b - 48
  else if (97 <=? b) && (b <=? 102) then b - 97 + 10
  else if (65 <=? b) && (b <=? 70) then b - 65 + 10
  else 0.

(** One digit of the saturating accumulation. *)
Definition hex_step (st : Z * bool) (b : Z) : Z * bool :=
  let '(acc, saturated) := st in
  if saturated then st
  else
    match (a ← checked_u 64 (acc * 16); checked_u 64 (a + hex_val b)) with
    | Some next => (next, false)
    | None => (2 ^ 64 - 1, true)
    end.

Definition scan_hex (s : rstr) : option (f64 * nat) :=
  rest ← match strip_str s (str "0x") with Some r => Some r | None => strip_str s (str "0X") end;
  let digits := count_while is_hexdigit rest in
  if (digits =? 0)%nat then None
  else Some (of_int (fst (fold_left hex_step (take digits rest) (0, false))), (2 + digits)%nat).

Definition is_e (c : Z) : bool := (c =? 101) || (c =? 69).
Definition is_sign (c : Z) : bool := (c =? 43) || (c =? 45).

(** Length of an exponent at the head of [s], zero when it has no digits. *)
Definition exponent_len (s : rstr) : nat :=
  match s with
  | c :: r =>
    if is_e c then
      let sign := match r with d :: _ => if is_sign d then 1%nat else O | [] => O end in
      let digits := count_while is_ascii_digit (drop sign r) in
      if (digits =? 0)%nat then O else (1 + sign + digits)%nat
    else O
  | [] => O
  end.

Definition scan_decimal (s : rstr) : option nat :=
  let whole := count_while is_ascii_digit s in
  let '(stop, digits) :=
    match drop whole s with
    | c :: r =>
      if c =? 46 then
        let frac := count_while is_ascii_digit r in ((whole + 1 + frac)%nat, (whole + frac)%nat)
      else (whole, whole)
    | [] => (whole, whole)
    end in
  if (digits =? 0)%nat then None else Some (stop + exponent_len (drop stop s))%nat.

(** [str::parse::<f64>] of a text [scan_decimal] delimits. *)
Definition parse_f64 (text : rstr) : f64 :=
  let whole := count_while is_ascii_digit text in
  let '(frac, tail) :=
    match drop whole text with
    | c :: r => if c =? 46 then (take (count_while is_ascii_digit r) r, drop (count_while is_ascii_digit r) r)
                else ([], c :: r)
    | [] => ([], [])
    end in
  let exponent :=
    match tail with
    | c :: d :: r => if d =? 45 then - digits_value 0 r
                     else if d =? 43 then digits_value 0 r else digits_value 0 (d :: r)
    | _ => 0
    end in
  decimal (digits_value 0 (take whole text ++ frac)) (exponent - Z.of_nat (length frac)).

Definition negate (negative : bool) (v : f64) : f64 := if negative then SFopp v else v.

Definition scan_mantissa (s : rstr) : option (f64 * nat) :=
  let '(negative, i) :=
    match s with
    | c :: _ => if c =? 45 then (true, 1%nat) else if c =? 43 then (false, 1%nat) else (false, O)
    | [] => (false, O)
    end in
  let rest := drop i s in
  match (match match_ci rest (str "infinity") with Some n => Some n | None => match_ci rest (str "inf") end) with
  | Some n => Some (S754_infinity negative, (i + n)%nat)
  | None =>
    match match_ci rest (str "nan") with
    | Some n =>
      let '(bits, n) := scan_nan_payload (drop n rest) n in
      Some (from_bits (if negative then Z.lor bits (2 ^ 63) else bits), (i + n)%nat)
    | None =>
      match scan_hex rest with
      | Some (v, n) => Some (negate negative v, (i + n)%nat)
      | None =>
        n ← scan_decimal rest;
        Some (negate negative (parse_f64 (take n rest)), (i + n)%nat)
      end
    end
  end.

(** An SI prefix at the head of [rest], with its binary form [ki]. *)
Definition scale (value : f64) (len : nat) (rest : rstr) : f64 * nat * rstr :=
  match rest with
  | c :: after =>
    match si_prefix c with
    | Some (dec, bin) =>
      match strip_prefix 105 after with
      | Some after_i => (fmul value bin, (len + 2)%nat, after_i)
      | None => (fmul value dec, (len + 1)%nat, after)
      end
    | None => (value, len, rest)
    end
  | [] => (value, len, rest)
  end.

Definition scan_number `{Libm} (s : rstr) : option number :=
  '(value, len) ← scan_mantissa s;
  let rest := drop len s in
  if bool_decide (is_Some (strip_str rest (str "dB"))) then Some (Number (from_decibels value) (len + 2))
  else
    let '(value, len, rest) := scale value len rest in
    match strip_prefix 66 rest with
    | Some _ => Some (Number (fmul value (of_int 8)) (len + 1))
    | None => Some (Number value len)
    end.

Example scan_examples `{Libm} :
  scan_number (str "0x1p4") = Some (Number (fmul (of_int 1) (decimal 1 (-12))) 4) /\
  scan_number (str "2kiB+1") = Some (Number (of_int 16384) 4) /\
  scan_number (str "1e+") = Some (Number (of_int 1) 1) /\
  scan_number (str "-.5x") = Some (Number (SFopp (decimal 5 (-1))) 3) /\
  scan_number (str "nan(1)0x") = Some (Number nan 6) /\
  scan_number (str "0x20000000000000001") = Some (Number (of_int (2 ^ 64)) 19) /\
  scan_number (str "2i") = Some (Number (of_int 2) 1) /\ scan_number (str "-PI") = None /\
  decimal 5 (-1) = S754_finite false 4503599627370496 (-53) /\
  decimal 1 (-1) = S754_finite false 7205759403792794 (-56).
Proof. vm_compute. done. Qed.

(** ** What the scanner consumes *)

Lemma count_while_le f s : (count_while f s <= length s)%nat.
Proof. induction s as [|c s IH]; simpl; [lia|]. destruct (f c); lia. Qed.

(** The count stops exactly where the run of matching characters does. *)
Lemma count_while_app f a k :
  forallb f a = true -> match k with c :: _ => f c = false | [] => True end ->
  count_while f (a ++ k) = length a.
Proof.
  induction a as [|c a IH]; simpl; intros Ha Hk.
  - destruct k as [|c k]; simpl; [done|by rewrite Hk].
  - apply andb_true_iff in Ha as [-> Ha]. by rewrite IH.
Qed.

Lemma strip_str_Some s name r : strip_str s name = Some r <-> s = name ++ r.
Proof.
  unfold strip_str. case_bool_decide as E; split.
  - intros [= <-]. by rewrite <- (take_drop (length name) s), E at 1.
  - intros ->. by rewrite drop_app_length.
  - done.
  - intros ->. destruct E. by rewrite take_app_length.
Qed.

Lemma match_ci_Some s needle n :
  match_ci s needle = Some n -> n = length needle /\ (n <= length s)%nat /\
  map ascii_lower (take n s) = map ascii_lower needle.
Proof.
  unfold match_ci. case_bool_decide as E; [intros [= <-]|done]. split; [done|]. split; [|done].
  apply (f_equal length) in E. rewrite !length_map, length_take in E. lia.
Qed.

Lemma find_char_Some c s n :
  find_char c s = Some n -> exists a r, s = a ++ c :: r /\ length a = n /\ c ∉ a.
Proof.
  revert n. induction s as [|x s IH]; simpl; intros n; [done|].
  destruct (Z.eqb_spec x c) as [->|Hne].
  - intros [= <-]. exists [], s. by split_and!; [| |apply not_elem_of_nil].
  - destruct (find_char c s) as [m|]; [|done]. intros [= <-].
    destruct (IH m eq_refl) as (a & r & -> & <- & Ha). exists (x :: a), r. split_and!; [done..|].
    apply not_elem_of_cons. by split; [congruence|].
Qed.

Lemma find_char_app c a r : c ∉ a -> find_char c (a ++ c :: r) = Some (length a).
Proof.
  induction a as [|x a IH]; simpl; intros Ha; [by rewrite Z.eqb_refl|].
  apply not_elem_of_cons in Ha as [Hx Ha]. destruct (Z.eqb_spec x c); [congruence|]. by rewrite IH.
Qed.

Lemma find_char_None c s : find_char c s = None <-> c ∉ s.
Proof.
  induction s as [|x s IH]; simpl; [by split; [intros _; apply not_elem_of_nil|]|].
  rewrite not_elem_of_cons, <- IH. destruct (Z.eqb_spec x c) as [->|]; [by naive_solver|].
  destruct (find_char c s); naive_solver.
Qed.

Lemma scan_nan_payload_len after n b m :
  scan_nan_payload after n = (b, m) -> (n <= m <= n + length after)%nat.
Proof.
  unfold scan_nan_payload. destruct after as [|c after]; simpl; [intros [= _ <-]; lia|].
  destruct (c =? 40); [|intros [= _ <-]; lia].
  destruct (find_char 41 after) as [k|] eqn:E; [|intros [= _ <-]; lia].
  apply find_char_Some in E as (a & r & -> & <- & _).
  destruct (negb _); intros [= _ <-]; rewrite ?length_app; simpl; lia.
Qed.

Lemma scan_hex_len s v n : scan_hex s = Some (v, n) -> (2 < n <= length s)%nat.
Proof.
  unfold scan_hex. set (o := match strip_str s (str "0x") with Some r => Some r | None => _ end).
  destruct o as [r|] eqn:E; simpl; [|done].
  assert (length s = 2 + length r)%nat as Hs.
  { subst o. destruct (strip_str s (str "0x")) as [r'|] eqn:E1; [injection E as <-; apply strip_str_Some in E1|apply strip_str_Some in E];
      subst s; by rewrite length_app. }
  pose proof (count_while_le is_hexdigit r). destruct (Nat.eqb_spec (count_while is_hexdigit r) 0); [done|].
  intros [= _ <-]. lia.
Qed.

Lemma exponent_len_le s : (exponent_len s <= length s)%nat.
Proof.
  destruct s as [|c r]; simpl; [lia|]. destruct (is_e c); [|lia].
  set (sign := match r with d :: _ => _ | [] => _ end).
  assert (sign <= length r)%nat by (subst sign; destruct r as [|d r]; simpl; [lia|]; destruct (is_sign d); lia).
  pose proof (count_while_le is_ascii_digit (drop sign r)) as H1. rewrite length_drop in H1.
  destruct (_ =? 0)%nat; lia.
Qed.

Lemma scan_decimal_len s n : scan_decimal s = Some n -> (0 < n <= length s)%nat.
Proof.
  unfold scan_decimal. pose proof (count_while_le is_ascii_digit s) as H.
  set (w := count_while is_ascii_digit s) in *.
  destruct (match drop w s with c :: r => _ | [] => _ end) as [stop digits] eqn:E.
  assert (digits <= stop /\ stop <= length s)%nat as [H1 H2].
  { pose proof (length_drop s w) as Hd. destruct (drop w s) as [|c r]; [injection E as <- <-; lia|].
    pose proof (count_while_le is_ascii_digit r). simpl in Hd. destruct (c =? 46); injection E as <- <-; lia. }
  pose proof (exponent_len_le (drop stop s)) as H3. rewrite length_drop in H3.
  destruct (Nat.eqb_spec digits 0); [done|]. intros [= <-]. lia.
Qed.

Lemma scan_mantissa_len s v n : scan_mantissa s = Some (v, n) -> (0 < n <= length s)%nat.
Proof.
  unfold scan_mantissa.
  destruct (match s with c :: _ => _ | [] => (false, O) end) as [negative i] eqn:Ei.
  assert (i <= length s)%nat as Hi.
  { destruct s as [|c s]; [by injection Ei as _ <-|]. simpl.
    destruct (c =? 45); [injection Ei as _ <-; lia|]. destruct (c =? 43); injection Ei as _ <-; lia. }
  pose proof (length_drop s i) as Hl. set (rest := drop i s) in *. clearbody rest.
  destruct (match match_ci rest (str "infinity") with Some n => Some n | None => _ end) as [m|] eqn:E.
  { intros [= _ <-]. destruct (match_ci rest (str "infinity")) as [m'|] eqn:E1; [injection E as <-|];
      [apply match_ci_Some in E1|apply match_ci_Some in E]; simpl in *; lia. }
  destruct (match_ci rest (str "nan")) as [m|] eqn:E1.
  { apply match_ci_Some in E1 as (-> & H1 & _). destruct (scan_nan_payload _ _) as [b m] eqn:E2.
    apply scan_nan_payload_len in E2. rewrite length_drop in E2. intros [= _ <-]. simpl in *. lia. }
  destruct (scan_hex rest) as [[v' m]|] eqn:E2.
  { apply scan_hex_len in E2. intros [= _ <-]. lia. }
  destruct (scan_decimal rest) as [m|] eqn:E3; simpl; [|done].
  apply scan_decimal_len in E3. intros [= _ <-]. lia.
Qed.

Lemma scale_len v n rest v' n' rest' :
  scale v n rest = (v', n', rest') -> (n <= n' /\ n' + length rest' = n + length rest)%nat.
Proof.
  unfold scale. destruct rest as [|c after]; [intros [= _ <- <-]; lia|].
  destruct (si_prefix c) as [[dec bin]|]; [|intros [= _ <- <-]; simpl; lia].
  destruct after as [|d after]; simpl; [intros [= _ <- <-]; simpl; lia|].
  destruct (d =? 105); intros [= _ <- <-]; simpl; lia.
Qed.

(** A scanned literal is never empty and never longer than the text. *)
Lemma scan_number_len `{Libm} s n : scan_number s = Some n -> (0 < len n <= length s)%nat.
Proof.
  unfold scan_number. destruct (scan_mantissa s) as [[v m]|] eqn:E; simpl; [|done].
  apply scan_mantissa_len in E. pose proof (length_drop s m) as Hl. case_bool_decide as Hd.
  { destruct Hd as [r Hr]. apply strip_str_Some in Hr. intros [= <-]. simpl. rewrite Hr, length_app in Hl. simpl in Hl. lia. }
  destruct (scale v m (drop m s)) as [[v' m'] r'] eqn:E2. apply scale_len in E2.
  destruct r' as [|c r']; simpl; [intros [= <-]; simpl in *; lia|].
  destruct (c =? 66); intros [= <-]; simpl in *; lia.
Qed.

(** ** Literals and names in context *)

(** The punctuation that can follow a complete token. *)
Definition stop_char (c : Z) : bool := existsb (Z.eqb c) (str "()*+,-/;^").
Definition stops (k : rstr) : bool := match k with c :: _ => stop_char c | [] => true end.

Lemma stop_char_cases c : stop_char c = true ->
  c = 40 \/ c = 41 \/ c = 42 \/ c = 43 \/ c = 44 \/ c = 45 \/ c = 47 \/ c = 59 \/ c = 94.
Proof.
  intros H. apply existsb_exists in H as (x & Hx & Hc). apply Z.eqb_eq in Hc as <-. simpl in Hx.
  repeat (destruct Hx as [<-|Hx]; [tauto|]). done.
Qed.

Ltac stop_cases H := apply stop_char_cases in H; destruct_or! H; subst; try reflexivity; try done.

(** What [scan_number] refuses outright, with or without a sign. *)
Definition nonnumeric (t : rstr) : bool :=
  match t with
  | c :: _ => negb (is_ascii_digit c) && negb (c =? 46) && negb (is_sign c)
  | [] => true
  end && negb (bool_decide (map ascii_lower (take 3 t) = str "inf"))
      && negb (bool_decide (map ascii_lower (take 3 t) = str "nan")).

Definition name_ok (name : rstr) : bool :=
  match name with c :: _ => negb (is_ascii_digit c) | [] => false end && forallb is_ident_continue name &&
  negb (bool_decide (map ascii_lower (take 3 name) = str "inf")) &&
  negb (bool_decide (map ascii_lower (take 3 name) = str "nan")).

Lemma match_ci_prefix s needle n :
  match_ci s needle = Some n -> (3 <= length needle)%nat ->
  map ascii_lower (take 3 s) = map ascii_lower (take 3 needle).
Proof.
  intros H Hl. apply match_ci_Some in H as (-> & _ & H). apply (f_equal (take 3)) in H.
  rewrite <- !fmap_take, take_take in H. by rewrite Nat.min_l in H by lia.
Qed.

Lemma scan_decimal_None t :
  match t with c :: _ => is_ascii_digit c = false /\ (c =? 46) = false | [] => True end -> scan_decimal t = None.
Proof. unfold scan_decimal. destruct t as [|c t]; [done|]. intros [H1 H2]. simpl. by rewrite H1, ?drop_0, H2. Qed.

Lemma scan_hex_None t :
  match t with c :: _ => c <> 48 | [] => True end -> scan_hex t = None.
Proof.
  intros Ht. unfold scan_hex. destruct (strip_str t (str "0x")) as [r|] eqn:E1; [apply strip_str_Some in E1; by subst|].
  destruct (strip_str t (str "0X")) as [r|] eqn:E2; [apply strip_str_Some in E2; by subst|done].
Qed.

Definition sign_text (negative : bool) : rstr := if negative then [45] else [].

(** Past the sign, the scanner sees the rest of the text. *)
Lemma scan_mantissa_sign negative t :
  match t with c :: _ => is_sign c = false | [] => True end ->
  scan_mantissa (sign_text negative ++ t) =
    match (match match_ci t (str "infinity") with Some n => Some n | None => match_ci t (str "inf") end) with
    | Some n => Some (S754_infinity negative, (length (sign_text negative) + n)%nat)
    | None =>
      match match_ci t (str "nan") with
      | Some n =>
        let '(bits, n) := scan_nan_payload (drop n t) n in
        Some (from_bits (if negative then Z.lor bits (2 ^ 63) else bits), (length (sign_text negative) + n)%nat)
      | None =>
        match scan_hex t with
        | Some (v, n) => Some (negate negative v, (length (sign_text negative) + n)%nat)
        | None =>
          n ← scan_decimal t;
          Some (negate negative (parse_f64 (take n t)), (length (sign_text negative) + n)%nat)
        end
      end
    end.
Proof.
  intros Ht. destruct negative; [done|]. unfold sign_text. cbn [app length]. unfold scan_mantissa.
  destruct t as [|c t]; [done|]. unfold is_sign in Ht. apply orb_false_iff in Ht as [-> ->]. done.
Qed.

Lemma scan_number_nonnumeric `{Libm} negative t :
  nonnumeric t = true -> scan_number (sign_text negative ++ t) = None.
Proof.
  intros Ht. unfold nonnumeric in Ht. apply andb_true_iff in Ht as [Ht H3]. apply andb_true_iff in Ht as [H1 H2].
  apply negb_true_iff, bool_decide_eq_false in H2, H3. unfold scan_number. rewrite scan_mantissa_sign.
  2:{ destruct t; [done|]. by breflect. }
  assert (forall n w, match_ci t w = Some n -> (3 <= length w)%nat -> map ascii_lower (take 3 t) = map ascii_lower (take 3 w)) as Hm
    by (intros n w; apply match_ci_prefix).
  destruct (match_ci t (str "infinity")) eqn:E1; [apply Hm in E1; [done|simpl; lia]|].
  destruct (match_ci t (str "inf")) eqn:E2; [apply Hm in E2; [done|simpl; lia]|].
  destruct (match_ci t (str "nan")) eqn:E3; [apply Hm in E3; [done|simpl; lia]|].
  rewrite scan_hex_None, scan_decimal_None; [done|..]; destruct t as [|c t]; try done; breflect.
  - split; [done|by apply Z.eqb_neq].
  - by intros ->.
Qed.

Lemma name_nonnumeric name k : name_ok name = true -> stops k = true -> nonnumeric (name ++ k) = true.
Proof.
  intros Hn Hk. unfold name_ok in Hn. apply andb_true_iff in Hn as [Hn H3]. apply andb_true_iff in Hn as [Hn H2].
  apply andb_true_iff in Hn as [Hd Hi]. destruct name as [|c name]; [done|].
  apply negb_true_iff, bool_decide_eq_false in H2, H3.
  assert (forall a b d, (forall x, stop_char x = true -> x <> a /\ x <> b /\ x <> d) ->
    map ascii_lower (take 3 (c :: name)) <> [a; b; d] ->
    map ascii_lower (take 3 ((c :: name) ++ k)) <> [a; b; d]) as Hw.
  { intros a b d Hs Hne He. apply Hne. rewrite <- He. clear Hne.
    assert (forall x, stop_char x = true -> ascii_lower x = x) as Hl by (intros x Hx; stop_cases Hx).
    destruct name as [|c2 [|c3 name]]; [| |done]; destruct k as [|x k]; simpl in He |- *; try done;
      injection He as He; subst; simpl in Hk; specialize (Hs x Hk); rewrite (Hl x Hk) in *; naive_solver. }
  unfold nonnumeric. rewrite !bool_decide_eq_false_2;
    [|apply (Hw 110 97 110); [intros x Hx; stop_cases Hx|done]|apply (Hw 105 110 102); [intros x Hx; stop_cases Hx|done]].
  simpl in *. apply andb_true_iff in Hi as [Hc _]. rewrite !andb_true_r. rewrite Hd. simpl.
  destruct (Z.eqb_spec c 46) as [->|_]; [done|].
  unfold is_sign. destruct (Z.eqb_spec c 43) as [->|_]; [done|]. by destruct (Z.eqb_spec c 45) as [->|_].
Qed.

Lemma paren_nonnumeric k : nonnumeric (40 :: k) = true.
Proof.
  unfold nonnumeric. rewrite !bool_decide_eq_false_2; [done| |]; simpl; intros [=].
Qed.

Section digits.
  Context (d : Z) (ds k : rstr).
  Hypothesis Hds : forallb is_ascii_digit (d :: ds) = true.
  Hypothesis Hk : stops k = true.

Lemma first_digit : 48 <= d <= 57.
Proof. simpl in Hds. apply andb_true_iff in Hds as [Hd _]. unfold is_ascii_digit in Hd. by breflect. Qed.

Lemma scan_hex_digits : scan_hex ((d :: ds) ++ k) = None.
Proof.
  assert (forall x, x = 120 \/ x = 88 -> strip_str ((d :: ds) ++ k) [48; x] = None) as Hx.
  { intros x Hx. destruct (strip_str _ _) as [r|] eqn:E; [|done]. apply strip_str_Some in E. exfalso.
    destruct ds as [|d2 ds'].
    - destruct k as [|y k']; [done|]. injection E as _ -> _. simpl in Hk. stop_cases Hk; lia.
    - injection E as _ -> _. simpl in Hds. unfold is_ascii_digit in Hds. breflect. lia. }
  unfold scan_hex. change (str "0x") with [48; 120]. change (str "0X") with [48; 88]. by rewrite !Hx by auto.
Qed.

Lemma scan_decimal_digits : scan_decimal ((d :: ds) ++ k) = Some (length (d :: ds)).
Proof.
  unfold scan_decimal. rewrite count_while_app, drop_app_length; [|done|destruct k; [done|]; simpl in Hk; stop_cases Hk].
  assert (match k with c :: r => if c =? 46 then
      ((length (d :: ds) + 1 + count_while is_ascii_digit r)%nat, (length (d :: ds) + count_while is_ascii_digit r)%nat)
      else (length (d :: ds), length (d :: ds)) | [] => (length (d :: ds), length (d :: ds)) end
      = (length (d :: ds), length (d :: ds))) as E.
  { destruct k as [|x k']; [done|]. simpl in Hk. stop_cases Hk. }
  cbv zeta. rewrite E, drop_app_length. cbn [length].
  assert (exponent_len k = O) as ->; [|simpl; do 2 f_equal; lia].
  destruct k as [|x k']; [done|]. simpl in Hk. stop_cases Hk.
Qed.

Lemma match_ci_digits w x : hd 0 w = x -> 57 < x -> match_ci ((d :: ds) ++ k) w = None.
Proof.
  intros <- Hx. unfold match_ci. rewrite bool_decide_eq_false_2; [done|]. pose proof first_digit as Hd.
  destruct w as [|y w]; simpl in *; [lia|]. intros [= He _]. revert He. unfold ascii_lower. zbool.
Qed.

Lemma scale_stops v n : scale v n k = (v, n, k).
Proof.
  destruct k as [|x k']; [done|]. simpl in Hk. unfold scale.
  assert (si_prefix x = None) as -> by stop_cases Hk. done.
Qed.

End digits.

(** A run of digits is read as the nearest binary64 to its decimal value. *)
Lemma scan_number_digits `{Libm} negative ds k :
  ds <> [] -> forallb is_ascii_digit ds = true -> stops k = true ->
  scan_number (sign_text negative ++ ds ++ k)
    = Some (Number (negate negative (decimal (digits_value 0 ds) 0)) (length (sign_text negative) + length ds)).
Proof.
  intros Hne Hds Hk. destruct ds as [|d ds]; [done|]. clear Hne. pose proof (first_digit d ds Hds) as Hd.
  unfold scan_number. rewrite scan_mantissa_sign; [|simpl; unfold is_sign; zbool].
  rewrite !(match_ci_digits d ds k Hds) with (x := 105) by (done || lia).
  rewrite (match_ci_digits d ds k Hds) with (x := 110) by (done || lia).
  rewrite scan_hex_digits, scan_decimal_digits by done. cbn [mbind option_bind]. rewrite take_app_length.
  rewrite app_assoc, <- length_app, drop_app_length.
  assert (parse_f64 (d :: ds) = decimal (digits_value 0 (d :: ds)) 0) as ->.
  { unfold parse_f64. rewrite <- (app_nil_r (d :: ds)), count_while_app, app_nil_r by done.
    rewrite drop_all, take_ge, app_nil_r by done. done. }
  rewrite bool_decide_eq_false_2.
  2:{ intros [r E]. apply strip_str_Some in E. by subst. }
  rewrite scale_stops by done. destruct k as [|x k]; [done|]. simpl in Hk. cbn [strip_prefix].
  assert ((x =? 66) = false) as -> by stop_cases Hk. done.
Qed.
