(* ===== verification/ExprParse.v ===== *)
(** * ExprParse: the recursive-descent parser of the expression language

    [src/crates/core/vaco-expr/src/parse.rs], with the node arena and the names
    of [expr.rs], the builtin table of [func.rs] and the errors of [error.rs].
    The parser's state is passed through a small error monad whose third
    outcome, [NoFuel], stands for running out of the fuel the loops and the
    recursion are given; [parse_total] shows it is never reached. *)

From Stdlib Require Import ZArith Lia Ascii String SpecFloat.
From stdpp Require Import prelude strings.
From S2P Require Import Prelude ExprLex.

Open Scope Z_scope.

(** ** Functions and nodes *)

Inductive func : Type :=
  | Abs | Acos | Asin | Atan | Atan2 | Between | BitAnd | BitOr | Ceil | Clip | Cos | Cosh | FEq | Exp
  | Floor | Gauss | Gcd | FGt | Gte | Hypot | If | IfNot | IsInf | IsNan | Ld | Lerp | Log | FLt | Lte
  | Max | Min | Mod | Not | Pow | Print | Random | RandomI | Root | Round | Sgn | Sin | Sinh | Sqrt
  | Squish | St | Tan | Tanh | Taylor | Time | Trunc | While
  | Extern (id : Z).

#[export] Instance func_eq_dec : EqDecision func.
Proof. solve_decision. Defined.

Definition BUILTINS : list (rstr * func * Z * Z) := [
  (str "abs", Abs, 1, 1); (str "acos", Acos, 1, 1); (str "asin", Asin, 1, 1); (str "atan2", Atan2, 2, 2);
  (str "atan", Atan, 1, 1); (str "between", Between, 3, 3); (str "bitand", BitAnd, 2, 2); (str "bitor", BitOr, 2, 2);
  (str "ceil", Ceil, 1, 1); (str "clip", Clip, 3, 3); (str "cosh", Cosh, 1, 1); (str "cos", Cos, 1, 1);
  (str "eq", FEq, 2, 2); (str "exp", Exp, 1, 1); (str "floor", Floor, 1, 1); (str "gauss", Gauss, 1, 1);
  (str "gcd", Gcd, 2, 2); (str "gte", Gte, 2, 2); (str "gt", FGt, 2, 2); (str "hypot", Hypot, 2, 2);
  (str "ifnot", IfNot, 2, 3); (str "if", If, 2, 3); (str "isinf", IsInf, 1, 1); (str "isnan", IsNan, 1, 1);
  (str "ld", Ld, 1, 1); (str "lerp", Lerp, 3, 3); (str "log", Log, 1, 1); (str "lte", Lte, 2, 2);
  (str "lt", FLt, 2, 2); (str "max", Max, 2, 2); (str "min", Min, 2, 2); (str "mod", Mod, 2, 2);
  (str "not", Not, 1, 1); (str "pow", Pow, 2, 2); (str "print", Print, 1, 3); (str "randomi", RandomI, 3, 3);
  (str "random", Random, 1, 1); (str "root", Root, 2, 2); (str "round", Round, 1, 1); (str "sgn", Sgn, 1, 1);
  (str "sinh", Sinh, 1, 1); (str "sin", Sin, 1, 1); (str "sqrt", Sqrt, 1, 1); (str "squish", Squish, 1, 1);
  (str "st", St, 2, 2); (str "tanh", Tanh, 1, 1); (str "tan", Tan, 1, 1); (str "taylor", Taylor, 2, 3);
  (str "time", Time, 1, 1); (str "trunc", Trunc, 1, 1); (str "while", While, 2, 2)].

(** [Func::name]. *)
Definition func_name (f : func) : option rstr :=
  (fun q => q.1.1.1) <$> List.find (fun q => bool_decide (q.1.1.2 = f)) BUILTINS.

Definition touches_registers (f : func) : bool :=
  match f with Ld | St | Random | RandomI | Root | Taylor => true | _ => false end.

(** Children are indices into the arena. *)
Inductive op : Type :=
  | OConst (v : f64)
  | OVar (i : Z)
  | ONeg (a : Z)
  | OAdd (a b : Z)
  | OMul (a b : Z)
  | ODiv (a b : Z)
  | OPow (a b : Z)
  | OSeq (a b : Z)
  | OCall (f : func) (argc : Z) (args : list Z).

Record bindings : Type := Bindings { vars : list rstr; funcs : list (rstr * Z) }.

Record limits : Type := Limits { max_parse_depth : Z; max_node_depth : Z; max_iterations : Z }.

Definition limits_default : limits := Limits 100 101 (Z.shiftl 1 24).

Record expr : Type := Expr {
  nodes : list op;
  root : Z;
  var_count : nat;
  uses_registers : bool;
  expr_limits : limits;
}.

Inductive error_kind : Type :=
  | UndefinedConstant | UnknownFunction | WrongArity | MissingCloseParen | TrailingGarbage | TooDeep.

Record parse_error : Type := ParseError { kind : error_kind; offset : nat; tail : rstr }.

Definition CONSTANTS : list (rstr * f64) := [
  (str "PI", decimal 314159265358979323846264338327950288 (-35));
  (str "E", decimal 271828182845904523536028747135266250 (-35));
  (str "PHI", decimal 1618033988749895 (-15))].

Definition U32_MAX : Z := 2 ^ 32 - 1.

(** ** The parser's state and monad *)

Record parser : Type := Parser {
  pos : nat;
  pnodes : list op;
  depths : list Z;
  depth : Z;
  registers_used : bool;
}.

Inductive outcome (A : Type) : Type :=
  | Done (a : A) (p : parser)
  | Failed (e : parse_error)
  | NoFuel.
Arguments Done {A} _ _.
Arguments Failed {A} _.
Arguments NoFuel {A}.

Definition P (A : Type) : Type := parser -> outcome A.

#[export] Instance P_ret : MRet P := fun A a p => Done a p.
#[export] Instance P_bind : MBind P := fun A B k m p =>
  match m p with
  | Done a p => k a p
  | Failed e => Failed e
  | NoFuel => NoFuel
  end.

Definition no_fuel {A : Type} : P A := fun _ => NoFuel.

(** The first [n] characters of UTF-8 text. *)
Definition is_char_start (b : Z) : bool := negb ((128 <=? b) && (b <? 192)).

Fixpoint head_chars (n : nat) (s : rstr) : rstr :=
  match s with
  | [] => []
  | b :: s' =>
    if is_char_start b then match n with O => [] | S n => b :: head_chars n s' end
    else b :: head_chars n s'
  end.

(** [starts_db_literal]. *)
Definition ends_with_dB (s : rstr) : bool := bool_decide (drop (length s - 2) s = str "dB").

Definition starts_db_literal `{Libm} (s : rstr) : bool :=
  match s with
  | c :: _ => (c =? 45) && match scan_number s with Some n => ends_with_dB (take (len n) s) | None => false end
  | [] => false
  end.

Section parse.
  Context `{Libm} (s : rstr) (b : bindings) (l : limits).

Definition rest (p : parser) : rstr := drop (pos p) s.

Definition peek (p : parser) : option Z := head (rest p).

Definition advance (n : nat) : P unit := fun p =>
  Done tt (Parser (pos p + n) (pnodes p) (depths p) (depth p) (registers_used p)).

Definition eat (c : Z) : P bool := fun p =>
  match peek p with
  | Some x => if x =? c then (advance 1;; mret true) p else Done false p
  | None => Done false p
  end.

Definition err {A : Type} (k : error_kind) : P A := fun p =>
  Failed (ParseError k (pos p) (head_chars 64 (rest p))).

Definition depth_of (ds : list Z) (node : Z) : Z := default 0 (ds !! Z.to_nat node).

Definition push (o : op) (children : list Z) : P Z := fun p =>
  let d := 1 + fold_right Z.max 0 (map (depth_of (depths p)) children) in
  if max_node_depth l <? d then err TooDeep p
  else
    match checked_u 32 (Z.of_nat (length (pnodes p))) with
    | None => err TooDeep p
    | Some idx =>
      Done idx (Parser (pos p) (pnodes p ++ [o]) (depths p ++ [d]) (depth p) (registers_used p))
    end.

Definition resolve (name : rstr) : option (func * Z * Z) :=
  match List.find (fun q => strmatch name q.1.1.1) BUILTINS with
  | Some (_, f, lo, hi) => Some (f, lo, hi)
  | None =>
    match list_find (fun q : rstr * Z => strmatch name q.1 = true) (funcs b) with
    | Some (i, (_, arity)) => id ← checked_u 16 (Z.of_nat i); Some (Extern id, arity, arity)
    | None => None
    end
  end.

Definition use_registers (f : func) : P unit := fun p =>
  Done tt (Parser (pos p) (pnodes p) (depths p) (depth p) (registers_used p || touches_registers f)).

Definition fail_at {A : Type} (k : error_kind) (at_ : nat) (name : rstr) : P A := fun _ =>
  Failed (ParseError k at_ name).

(** The levels of the grammar below [expr], over the recursive [parse_expr]. *)
Section levels.
  Context (expr : P Z).

(** The argument loop of [parse_call], for at most [n] more arguments. *)
Fixpoint parse_args (n : nat) (args : list Z) : P (list Z) :=
  match n with
  | O => mret args
  | S n =>
    arg ← expr;
    let args := args ++ [arg] in
    if (n =? 0)%nat then mret args
    else more ← eat 44; if (more : bool) then parse_args n args else mret args
  end.

Definition call_node (f : func) (argc : Z) (args : list Z) : op :=
  OCall f argc (args ++ replicate (3 - length args) U32_MAX).

Definition parse_call : P Z := fun p =>
  let r := rest p in
  match find_char 40 r with
  | None => err UndefinedConstant p
  | Some open =>
    let name := take open r in
    let name_start := pos p in
    (advance (open + 1);;
     args ← parse_args 3 [];
     closed ← eat 41;
     if negb closed then err MissingCloseParen
     else
       let argc := Z.of_nat (length args) in
       match checked_u 8 argc with
       | None => err WrongArity
       | Some argc =>
         match resolve name with
         | None => fail_at UnknownFunction name_start name
         | Some (f, lo, hi) =>
           if (argc <? lo) || (hi <? argc) then fail_at WrongArity name_start name
           else use_registers f;; push (call_node f argc args) args
         end
       end) p
  end.

Definition parse_primary : P Z := fun p =>
  let r := rest p in
  match scan_number r with
  | Some n => (advance (len n);; push (OConst (value n)) []) p
  | None =>
    (opened ← eat 40;
     if (opened : bool) then
       inner ← expr;
       closed ← eat 41;
       if negb closed then err MissingCloseParen else mret inner
     else
       match list_find (fun name => strmatch r name = true) (vars b) with
       | Some (i, name) =>
         advance (length name);;
         match checked_u 32 (Z.of_nat i) with
         | None => err UndefinedConstant
         | Some i => push (OVar i) []
         end
       | None =>
         match List.find (fun q => strmatch r q.1) CONSTANTS with
         | Some (name, v) => advance (length name);; push (OConst v) []
         | None => parse_call
         end
       end) p
  end.

Definition parse_unary : P (Z * bool) := fun p =>
  let sign :=
    if starts_db_literal (rest p) then mret false
    else match peek p with
         | Some c => if c =? 45 then advance 1;; mret true
                     else if c =? 43 then advance 1;; mret false else mret false
         | None => mret false
         end in
  (negated ← (sign : P bool); node ← parse_primary; mret (node, negated)) p.

Fixpoint factor_loop (fuel : nat) (e : Z) : P Z :=
  match fuel with
  | O => no_fuel
  | S fuel =>
    more ← eat 94;
    if (more : bool) then
      '(rhs, rhs_neg) ← parse_unary;
      rhs ← (if (rhs_neg : bool) then push (ONeg rhs) [rhs] else mret rhs);
      e ← push (OPow e rhs) [e; rhs];
      factor_loop fuel e
    else mret e
  end.

Definition loop_fuel : nat := S (length s).

Definition parse_factor : P Z :=
  '(e, negated) ← parse_unary;
  e ← factor_loop loop_fuel e;
  if (negated : bool) then push (ONeg e) [e] else mret e.

Fixpoint term_loop (fuel : nat) (e : Z) : P Z :=
  match fuel with
  | O => no_fuel
  | S fuel => fun p =>
    let op := match peek p with
              | Some c => if c =? 42 then Some OMul else if c =? 47 then Some ODiv else None
              | None => None
              end in
    match op with
    | None => Done e p
    | Some op =>
      (advance 1;; rhs ← parse_factor; e ← push (op e rhs) [e; rhs]; term_loop fuel e) p
    end
  end.

Definition parse_term : P Z := e ← parse_factor; term_loop loop_fuel e.

Definition at_sign (p : parser) : bool :=
  match peek p with Some c => is_sign c | None => false end.

Fixpoint subexpr_loop (fuel : nat) (e : Z) : P Z :=
  match fuel with
  | O => no_fuel
  | S fuel => fun p =>
    if at_sign p then (rhs ← parse_term; e ← push (OAdd e rhs) [e; rhs]; subexpr_loop fuel e) p
    else Done e p
  end.

Definition parse_subexpr : P Z := e ← parse_term; subexpr_loop loop_fuel e.

Fixpoint expr_loop (fuel : nat) (e : Z) : P Z :=
  match fuel with
  | O => no_fuel
  | S fuel =>
    more ← eat 59;
    if (more : bool) then rhs ← parse_subexpr; e ← push (OSeq e rhs) [e; rhs]; expr_loop fuel e
    else mret e
  end.

Definition parse_expr_inner : P Z := fun p =>
  if max_parse_depth l <? depth p then err TooDeep p
  else (e ← parse_subexpr; expr_loop loop_fuel e) p.

End levels.

Definition nest (d : Z) : P unit := fun p =>
  Done tt (Parser (pos p) (pnodes p) (depths p) (depth p + d) (registers_used p)).

Fixpoint parse_expr (fuel : nat) : P Z :=
  match fuel with
  | O => no_fuel
  | S fuel => nest 1;; r ← parse_expr_inner (parse_expr fuel); nest (-1);; mret r
  end.

End parse.

Definition parser_new : parser := Parser 0 [] [] 0 false.

(** [Expr::parse_with]; [None] would be the fuel running out. *)
Definition parse_with `{Libm} (src : rstr) (b : bindings) (l : limits) : option (result parse_error expr) :=
  let text := strip_whitespace src in
  match parse_expr text b l (S (S (length text))) parser_new with
  | NoFuel => None
  | Failed e => Some (Err e)
  | Done root p =>
    if negb (pos p =? length text)%nat
    then Some (Err (ParseError TrailingGarbage (pos p) (head_chars 64 (rest text p))))
    else Some (Ok (Expr (pnodes p) root (length (vars b)) (registers_used p) l))
  end.

Definition parse `{Libm} (src : rstr) (b : bindings) : option (result parse_error expr) :=
  parse_with src b limits_default.

Definition no_bindings : bindings := Bindings [] [].

Example parse_examples `{Libm} :
  (exists e, parse (str "2 ^ 3^2") no_bindings = Some (Ok e) /\
     nodes e = [OConst (of_int 2); OConst (of_int 3); OPow 0 1; OConst (of_int 2); OPow 2 3]) /\
  (exists e, parse (str "0-20dB") no_bindings = Some (Ok e) /\ nodes e =
     [OConst fzero; OConst (from_decibels (of_int (-20))); OAdd 0 1]) /\
  parse (str "PI(1)") no_bindings = Some (Err (ParseError TrailingGarbage 2 (str "(1)"))) /\
  parse (str "---1") no_bindings = Some (Err (ParseError UndefinedConstant 1 (str "--1"))) /\
  parse (str "foo+abs(1)") no_bindings = Some (Err (ParseError UnknownFunction 0 (str "foo+abs"))) /\
  (exists e, parse (str "abs.(1)") no_bindings = Some (Ok e) /\
     nodes e = [OConst (of_int 1); OCall Abs 1 [0; U32_MAX; U32_MAX]]).
Proof.
  split_and!; try (eexists; split); vm_compute; reflexivity.
Qed.

(** ** Trees

    The arena of a successful parse is the post-order of a tree; the tree is
    only in the specification. *)

Inductive shape (A : Type) : Type :=
  | KConst (v : A)
  | KVar (i : nat)
  | KNeg | KAdd | KMul | KDiv | KPow | KSeq
  | KCall (f : func).
Arguments KConst {A} _.
Arguments KVar {A} _.
Arguments KNeg {A}.
Arguments KAdd {A}.
Arguments KMul {A}.
Arguments KDiv {A}.
Arguments KPow {A}.
Arguments KSeq {A}.
Arguments KCall {A} _.

#[warnings="-register-all"]
Inductive tree (A : Type) : Type := Node (sh : shape A) (ts : list (tree A)).
Arguments Node {A} _ _.

Section trees.
  Context {A : Type}.

Lemma tree_rect' (Q : tree A -> Prop) :
  (forall sh ts, Forall Q ts -> Q (Node sh ts)) -> forall t, Q t.
Proof.
  intros H. fix IH 1. intros [sh ts]. apply H. induction ts as [|t ts IHts]; constructor; [apply IH|exact IHts].
Qed.

Fixpoint tsize (t : tree A) : nat := match t with Node _ ts => S (sum_list (map tsize ts)) end.

Fixpoint tdepth (t : tree A) : Z := match t with Node _ ts => 1 + fold_right Z.max 0 (map tdepth ts) end.

Definition shape_regs (sh : shape A) : bool := match sh with KCall f => touches_registers f | _ => false end.

Fixpoint tregs (t : tree A) : bool := match t with Node sh ts => existsb tregs ts || shape_regs sh end.

(** The arena indices of the roots of consecutive subtrees, the first starting
    at [n]. *)
Fixpoint roots (n : nat) (ts : list (tree A)) : list Z :=
  match ts with
  | [] => []
  | t :: ts => Z.of_nat (n + tsize t - 1) :: roots (n + tsize t) ts
  end.

(** The depths of the nodes of consecutive subtrees, in post-order. *)
Fixpoint dflat (t : tree A) : list Z := match t with Node _ ts => concat (map dflat ts) ++ [tdepth t] end.
Definition dflats (ts : list (tree A)) : list Z := concat (map dflat ts).

Lemma length_dflat t : length (dflat t) = tsize t.
Proof.
  induction t as [sh ts IH] using tree_rect'. simpl. rewrite length_app, length_concat. simpl.
  rewrite Nat.add_1_r. do 2 f_equal. induction IH as [|t ts Ht _ IH]; simpl; [done|]. by rewrite Ht, IH.
Qed.

Lemma length_dflats ts : length (dflats ts) = sum_list (map tsize ts).
Proof. induction ts as [|t ts IH]; [done|]. unfold dflats. simpl. by rewrite length_app, length_dflat, <- IH. Qed.

Lemma tsize_pos t : (0 < tsize t)%nat.
Proof. destruct t; simpl; lia. Qed.

Lemma roots_app n ts us : roots n (ts ++ us) = roots n ts ++ roots (n + sum_list (map tsize ts)) us.
Proof.
  revert n. induction ts as [|t ts IH]; intros n; simpl; [by rewrite Nat.add_0_r|]. by rewrite IH, Nat.add_assoc.
Qed.

Lemma dflat_last t : dflat t !! (tsize t - 1)%nat = Some (tdepth t).
Proof.
  destruct t as [sh ts]. cbn [dflat]. pose proof (length_dflats ts) as Hl. unfold dflats in Hl.
  assert (tsize (Node sh ts) - 1 = length (concat (map dflat ts)))%nat as -> by (cbn [tsize]; lia).
  by rewrite lookup_app_r, Nat.sub_diag by lia.
Qed.

Lemma dflats_cons t ts : dflats (t :: ts) = dflat t ++ dflats ts.
Proof. done. Qed.

(** The depth recorded for the root of each subtree. *)
Lemma depth_of_roots ds ts k :
  map (depth_of (ds ++ dflats ts ++ k)) (roots (length ds) ts) = map tdepth ts.
Proof.
  revert ds. induction ts as [|t ts IH]; intros ds; [done|]. cbn [map roots]. f_equal.
  - unfold depth_of. pose proof (tsize_pos t). rewrite Nat2Z.id, lookup_app_r, dflats_cons by lia.
    replace (length ds + tsize t - 1 - length ds)%nat with (tsize t - 1)%nat by lia.
    rewrite <- app_assoc, lookup_app_l by (rewrite length_dflat; lia). by rewrite dflat_last.
  - rewrite dflats_cons, <- app_assoc, app_assoc. rewrite <- (IH (ds ++ dflat t)). by rewrite length_app, length_dflat.
Qed.

End trees.

(** The node a shape stands for, given its children's indices. *)
Definition op_of (sh : shape f64) (xs : list Z) : op :=
  match sh, xs with
  | KConst v, _ => OConst v
  | KVar i, _ => OVar (Z.of_nat i)
  | KNeg, [a] => ONeg a
  | KAdd, [a; b] => OAdd a b
  | KMul, [a; b] => OMul a b
  | KDiv, [a; b] => ODiv a b
  | KPow, [a; b] => OPow a b
  | KSeq, [a; b] => OSeq a b
  | KCall f, _ => call_node f (Z.of_nat (length xs)) xs
  | _, _ => OConst nan
  end.

Section flatten.

(** The post-order of a tree whose first node gets index [n]. *)
Fixpoint flatten (n : nat) (t : tree f64) : list op :=
  match t with
  | Node sh ts =>
    (fix flats (n : nat) (ts : list (tree f64)) : list op :=
       match ts with
       | [] => []
       | t :: ts => flatten n t ++ flats (n + tsize t)%nat ts
       end) n ts ++ [op_of sh (roots n ts)]
  end.

Fixpoint flats (n : nat) (ts : list (tree f64)) : list op :=
  match ts with
  | [] => []
  | t :: ts => flatten n t ++ flats (n + tsize t)%nat ts
  end.

Lemma flatten_node n sh ts : flatten n (Node sh ts) = flats n ts ++ [op_of sh (roots n ts)].
Proof. done. Qed.

Lemma length_flatten n t : length (flatten n t) = tsize t.
Proof.
  revert n. induction t as [sh ts IH] using tree_rect'; intros n. rewrite flatten_node, length_app. cbn [tsize length].
  rewrite Nat.add_1_r. f_equal. revert n. induction IH as [|t ts Ht _ IH]; intros n; [done|].
  cbn [flats map]. rewrite length_app, Ht, IH. done.
Qed.

Lemma length_flats n ts : length (flats n ts) = sum_list (map tsize ts).
Proof. revert n. induction ts as [|t ts IH]; intros n; [done|]. cbn [flats]. by rewrite length_app, length_flatten, IH. Qed.

Lemma flats_app n ts us : flats n (ts ++ us) = flats n ts ++ flats (n + sum_list (map tsize ts)) us.
Proof.
  revert n. induction ts as [|t ts IH]; intros n; simpl; [by rewrite Nat.add_0_r|].
  by rewrite IH, <- app_assoc, Nat.add_assoc.
Qed.

End flatten.

(** ** Well-formed trees *)

Section typing.
  Context (b : bindings).

(** Smallest and largest argument counts. *)
Definition func_arity (f : func) : option (Z * Z) :=
  match f with
  | Extern id => if id <? 0 then None else '(_, n) ← funcs b !! Z.to_nat id; Some (n, n)
  | _ => (fun q => (q.1.2, q.2)) <$> List.find (fun q => bool_decide (q.1.1.2 = f)) BUILTINS
  end.

Definition shape_ok {A : Type} (sh : shape A) (n : nat) : Prop :=
  match sh with
  | KConst _ => n = 0%nat
  | KVar i => n = 0%nat /\ (i < length (vars b))%nat
  | KNeg => n = 1%nat
  | KAdd | KMul | KDiv | KPow | KSeq => n = 2%nat
  | KCall f => (1 <= n <= 3)%nat /\ exists lo hi, func_arity f = Some (lo, hi) /\ lo <= Z.of_nat n <= hi
  end.

Fixpoint typed {A : Type} (t : tree A) : Prop :=
  match t with Node sh ts => shape_ok sh (length ts) /\ fold_right and True (map typed ts) end.

Lemma typed_node {A : Type} sh (ts : list (tree A)) : typed (Node sh ts) <-> shape_ok sh (length ts) /\ Forall typed ts.
Proof.
  cbn [typed]. enough (fold_right and True (map typed ts) <-> Forall typed ts) as ->; [done|].
  induction ts as [|t ts IH]; simpl; [by split; [constructor|]|]. by rewrite Forall_cons, IH.
Qed.

(** A name resolves to a function with the arity the table gives it. *)
Lemma resolve_arity name f lo hi : resolve b name = Some (f, lo, hi) -> func_arity f = Some (lo, hi).
Proof.
  unfold resolve. destruct (List.find _ BUILTINS) as [[[[n g] x] y]|] eqn:E.
  - intros [= -> -> ->]. apply find_some in E as [E _]. simpl in E.
    repeat (destruct E as [E|E]; [injection E as <- <- <- <-; reflexivity|]). done.
  - destruct (list_find _ (funcs b)) as [[i [n ar]]|] eqn:E2; [|done].
    apply list_find_Some in E2 as (E2 & _ & _).
    destruct (checked_u 16 (Z.of_nat i)) as [id|] eqn:E3; simpl; [|done]. breflect. intros [= <- <- <-].
    cbn [func_arity]. rewrite (proj2 (Z.ltb_ge _ _)) by lia. by rewrite Nat2Z.id, E2.
Qed.

End typing.

(** ** What every level of the parser guarantees *)

Section spec.
  Context `{Libm} (s : rstr) (b : bindings) (l : limits).

(** An error names a place of the text, quotes what stands there, and its kind
    is true of that place. *)
Definition located (e : parse_error) : Prop :=
  (offset e <= length s)%nat /\
  let r := drop (offset e) s in
  let quoted := tail e = head_chars 64 r in
  match kind e with
  | UndefinedConstant => quoted /\ (scan_number r = None /\ 40 ∉ r \/ 2 ^ 32 <= Z.of_nat (length (vars b)))
  | UnknownFunction => (exists k, r = tail e ++ (40 :: k)) /\ (40 ∉ tail e) /\ resolve b (tail e) = None
  | WrongArity => (exists k, r = tail e ++ (40 :: k)) /\ (40 ∉ tail e) /\
      exists f lo hi n, resolve b (tail e) = Some (f, lo, hi) /\ 1 <= n <= 3 /\ (n < lo \/ hi < n)
  | MissingCloseParen => quoted /\ head r <> Some 41
  | TrailingGarbage => quoted /\ r <> []
  | TooDeep => quoted
  end.

Definition good {A : Type} (Q : A -> parser -> Prop) (o : outcome A) : Prop :=
  match o with
  | Done a p => Q a p
  | Failed e => located e
  | NoFuel => False
  end.

Lemma good_bind {A B : Type} (m : P A) (k : A -> P B) (Q : A -> parser -> Prop) (R : B -> parser -> Prop) p :
  good Q (m p) -> (forall a p', Q a p' -> good R (k a p')) -> good R ((m ≫= k) p).
Proof. intros Hm Hk. unfold mbind, P_bind. destruct (m p); [by apply Hk|done|done]. Qed.

Lemma good_weaken {A : Type} (Q R : A -> parser -> Prop) o :
  good Q o -> (forall a p, Q a p -> R a p) -> good R o.
Proof. destruct o; simpl; auto. Qed.

Definition inv (p : parser) : Prop :=
  (pos p <= length s)%nat /\ length (depths p) = length (pnodes p).

Definition tree_ok (t : tree f64) : Prop := typed b t /\ tdepth t <= max_node_depth l.

(** From [p0] to [p] the parser has moved forward and appended the consecutive
    subtrees [ts], whose roots are [xs]; [x] is a register use not yet
    attached to a node. *)
Record grows (p0 : parser) (ts : list (tree f64)) (xs : list Z) (x : bool) (p : parser) : Prop := {
  g_inv : inv p;
  g_nodes : pnodes p = pnodes p0 ++ flats (length (pnodes p0)) ts;
  g_depths : depths p = depths p0 ++ dflats ts;
  g_roots : xs = roots (length (pnodes p0)) ts;
  g_pos : (pos p0 <= pos p)%nat;
  g_depth : depth p = depth p0;
  g_regs : registers_used p = registers_used p0 || existsb tregs ts || x;
  g_ok : Forall tree_ok ts;
}.

Definition one (p0 : parser) (x : Z) (p : parser) : Prop := exists t, grows p0 [t] [x] false p.

Lemma grows_refl p : inv p -> grows p [] [] false p.
Proof. intros Hp. split; [done|by rewrite app_nil_r..|done|done|done|by rewrite !orb_false_r|constructor]. Qed.

Lemma grows_size p0 ts xs x p : grows p0 ts xs x p ->
  length (pnodes p) = (length (pnodes p0) + sum_list (map tsize ts))%nat.
Proof. intros G. rewrite (g_nodes _ _ _ _ _ G), length_app, length_flats. done. Qed.

Lemma grows_app p0 ts xs p1 us ys x p2 :
  grows p0 ts xs false p1 -> grows p1 us ys x p2 -> grows p0 (ts ++ us) (xs ++ ys) x p2.
Proof.
  intros G1 G2. pose proof (grows_size _ _ _ _ _ G1) as Hl.
  destruct G1 as [I1 N1 D1 R1 P1 E1 U1 K1], G2 as [I2 N2 D2 R2 P2 E2 U2 K2]. split.
  - done.
  - by rewrite N2, N1 at 1; rewrite flats_app, Hl, app_assoc.
  - unfold dflats in *. by rewrite D2, D1, map_app, concat_app, app_assoc.
  - by rewrite roots_app, R1, R2, Hl.
  - lia.
  - congruence.
  - rewrite U2, U1, existsb_app, orb_false_r. by rewrite !orb_assoc.
  - by apply Forall_app.
Qed.

(** Moving the position or entering a level changes no node. *)
Lemma grows_move p0 ts xs x p n :
  grows p0 ts xs x p -> (pos p + n <= length s)%nat ->
  grows p0 ts xs x (Parser (pos p + n) (pnodes p) (depths p) (depth p) (registers_used p)).
Proof. intros [[I1 I2] N1 D1 R1 P1 E1 U1 K1] Hn. by split; [split|..]; simpl; try lia. Qed.

(** A node is pushed on top of the subtrees of its children, unless it would
    be too deep. *)
Lemma arena_push_spec p0 ts xs p sh o :
  inv p0 -> grows p0 ts xs (shape_regs sh) p -> shape_ok b sh (length ts) -> o = op_of sh xs ->
  good (fun i p' => grows p0 [Node sh ts] [i] false p' /\ pos p' = pos p) (push s l o xs p).
Proof.
  intros [_ H0] G Hsh ->. pose proof (grows_size _ _ _ _ _ G) as Hl.
  destruct G as [[I1 I2] N1 D1 R1 P1 E1 U1 K1]. unfold push.
  assert (map (depth_of (depths p)) xs = map tdepth ts) as ->.
  { rewrite D1, R1, <- H0. rewrite <- (app_nil_r (dflats ts)). apply depth_of_roots. }
  set (d := 1 + fold_right Z.max 0 (map tdepth ts)). assert (d = tdepth (Node sh ts)) as Hd by done.
  destruct (Z.ltb_spec (max_node_depth l) d); [by split|].
  destruct (checked_u 32 _) as [idx|] eqn:E; [|by split]. breflect. cbn [good].
  split; [|done]. split; cbn.
  - split; [done|]. cbn. rewrite !length_app. simpl. lia.
  - rewrite app_nil_r. fold flats. rewrite N1, R1, <- app_assoc. done.
  - unfold dflats. simpl. rewrite app_nil_r. fold d. rewrite D1, <- app_assoc. done.
  - do 2 f_equal. lia.
  - done.
  - done.
  - by rewrite U1, !orb_false_r, <- orb_assoc.
  - constructor; [|constructor]. split; [|lia]. apply typed_node. split; [done|].
    eapply Forall_impl; [exact K1|]. by intros t [? _].
Qed.

Definition moved (n : nat) (p : parser) : parser :=
  Parser (pos p + n) (pnodes p) (depths p) (depth p) (registers_used p).

Lemma peek_Some p c : peek s p = Some c -> (pos p < length s)%nat.
Proof.
  unfold peek, rest. intros E. destruct (decide (pos p < length s)%nat); [done|]. rewrite drop_ge in E by lia. done.
Qed.

Lemma inv_moved n p : inv p -> (pos p + n <= length s)%nat -> inv (moved n p).
Proof. intros [? ?] ?. by split. Qed.

Lemma one_from_moved n p x p' : one (moved n p) x p' -> one p x p'.
Proof. intros [t [I N D R Q E U K]]. exists t. split; try done. simpl in Q. lia. Qed.

Lemma one_to_moved n p x p' : one p x p' -> (pos p' + n <= length s)%nat -> one p x (moved n p').
Proof. intros [t G] Hn. exists t. by apply grows_move. Qed.

Lemma one_inv p x p' : one p x p' -> inv p'.
Proof. intros [t G]. apply G. Qed.

Lemma one_pos p x p' : one p x p' -> (pos p <= pos p' <= length s)%nat.
Proof. intros [t G]. split; [apply G|apply (g_inv _ _ _ _ _ G)]. Qed.

Lemma eat_cases c p :
  (peek s p = Some c /\ eat s c p = Done true (moved 1 p)) \/ (peek s p <> Some c /\ eat s c p = Done false p).
Proof.
  unfold eat. destruct (peek s p) as [x|]; [|by right]. destruct (Z.eqb_spec x c) as [->|Hne]; [by left|].
  right. split; [congruence|done].
Qed.

(** [eat] either moves past the character or stays before another one. *)
Lemma good_eat {A : Type} c (k : bool -> P A) (Q : A -> parser -> Prop) p :
  inv p ->
  (peek s p = Some c -> (pos p + 1 <= length s)%nat -> inv (moved 1 p) -> good Q (k true (moved 1 p))) ->
  (peek s p <> Some c -> good Q (k false p)) -> good Q ((eat s c ≫= k) p).
Proof.
  intros Hp Ht Hf. unfold mbind, P_bind. destruct (eat_cases c p) as [[E ->]|[E ->]]; [|by apply Hf].
  pose proof (peek_Some _ _ E). apply Ht; [done|lia|]. apply inv_moved; [done|lia].
Qed.

Lemma push_leaf p sh o :
  inv p -> shape_ok b sh 0 -> shape_regs sh = false -> o = op_of sh [] ->
  good (fun i p' => one p i p' /\ pos p' = pos p) (push s l o [] p).
Proof.
  intros Hp Hs Hr Ho. eapply good_weaken; [apply (arena_push_spec p [] []); [done| |done|done]|].
  - rewrite Hr. by apply grows_refl.
  - intros i p' [G E]. split; [by eexists|done].
Qed.

Lemma push_one p0 x p sh o :
  inv p0 -> one p0 x p -> shape_ok b sh 1 -> shape_regs sh = false -> o = op_of sh [x] ->
  good (fun i p' => one p0 i p' /\ pos p' = pos p) (push s l o [x] p).
Proof.
  intros Hp [t G] Hs Hr Ho. eapply good_weaken; [apply (arena_push_spec p0 [t] [x]); [done|by rewrite Hr|done|done]|].
  intros i p' [G' E]. split; [by eexists|done].
Qed.

Lemma push_two p0 x p1 y p2 sh o :
  inv p0 -> one p0 x p1 -> one p1 y p2 -> shape_ok b sh 2 -> shape_regs sh = false -> o = op_of sh [x; y] ->
  good (fun i p' => one p0 i p' /\ pos p' = pos p2) (push s l o [x; y] p2).
Proof.
  intros Hp [t G1] [u G2] Hs Hr Ho.
  eapply good_weaken; [apply (arena_push_spec p0 [t; u] [x; y]); [done|rewrite Hr|done|done]|].
  - exact (grows_app _ _ _ _ _ _ _ _ G1 G2).
  - intros i p' [G' E]. split; [by eexists|done].
Qed.

Section levels.
  Context (expr : P Z) (n : nat).
  Hypothesis Hexpr : forall p, inv p -> (length s - pos p < n)%nat -> good (one p) (expr p).

Lemma parse_args_spec k ts xs p0 p :
  inv p0 -> grows p0 ts xs false p -> (length s - pos p < n)%nat -> (length ts + S k = 3)%nat ->
  good (fun ys p' => exists us, grows p0 us ys false p' /\ (1 <= length us <= 3)%nat) (parse_args s expr (S k) xs p).
Proof.
  revert ts xs p. induction k as [|k IH]; intros ts xs p Hp G Hn Hk; cbn [parse_args];
    (eapply good_bind; [by apply Hexpr; [apply G|]|]); intros x p' [t Gt];
    pose proof (grows_app _ _ _ _ _ _ _ _ G Gt) as G'.
  - cbn. exists (ts ++ [t]). rewrite length_app. simpl. split; [done|lia].
  - cbn [Nat.eqb]. apply good_eat; [apply G'| |].
    + intros _ Hl _. apply (IH (ts ++ [t])); [done|by apply grows_move| |rewrite length_app; simpl; lia].
      cbn [pos moved]. pose proof (g_pos _ _ _ _ _ Gt). lia.
    + intros _. cbn. exists (ts ++ [t]). rewrite length_app. simpl. split; [done|lia].
Qed.

Lemma located_err {A : Type} k p :
  inv p -> (k <> UnknownFunction /\ k <> WrongArity) ->
  match k with
  | UndefinedConstant => scan_number (rest s p) = None /\ 40 ∉ rest s p \/ 2 ^ 32 <= Z.of_nat (length (vars b))
  | MissingCloseParen => peek s p <> Some 41
  | TrailingGarbage => rest s p <> []
  | _ => True
  end ->
  good (fun (_ : A) _ => False) (err s k p).
Proof. intros [Hp _] [? ?] Hk. cbn. split; [done|]. by destruct k. Qed.

Lemma good_err {A : Type} (Q : A -> parser -> Prop) k p :
  good (fun (_ : A) _ => False) (err s k p : outcome A) -> good Q (err s k p).
Proof. done. Qed.

Lemma parse_call_spec p :
  inv p -> (length s - pos p <= n)%nat -> scan_number (rest s p) = None -> good (one p) (parse_call s b l expr p).
Proof.
  intros Hp Hn Hnum. unfold parse_call. destruct (find_char 40 (rest s p)) as [open|] eqn:E.
  2:{ apply good_err, located_err; [done..|]. left. split; [done|]. by apply find_char_None. }
  apply find_char_Some in E as (name & r & Hr & <- & Hname). rewrite Hr, take_app_length.
  assert (pos p + (length name + 1) <= length s)%nat as Hl.
  { apply (f_equal length) in Hr. unfold rest in Hr. rewrite length_drop, length_app in Hr. simpl in Hr. lia. }
  eapply good_bind; [instantiate (1 := fun _ p' => p' = moved (length name + 1) p); done|]. intros _ p1 ->.
  pose proof (inv_moved _ _ Hp Hl) as Hp1.
  eapply good_bind; [apply (parse_args_spec 2 [] []); [done|by apply grows_refl|simpl; lia|done]|].
  intros xs p2 (ts & G & Hts).
  assert (length xs = length ts) as Hlen.
  { rewrite (g_roots _ _ _ _ _ G). clear. generalize (length (pnodes (moved (length name + 1) p))).
    induction ts as [|t ts IH]; intros m; simpl; [done|by rewrite IH]. }
  apply good_eat; [apply G| |].
  2:{ intros Hc. apply good_err, located_err; [apply G|done|done]. }
  intros _ Hl2 Hp3. cbn [negb]. rewrite checked_u_in by (apply in_u_spec; rewrite Hlen; lia).
  assert (Hat : (exists k, drop (pos p) s = name ++ (40 :: k)) /\ 40 ∉ name) by (split; [by exists r|done]).
  destruct (resolve b name) as [[[f lo] hi]|] eqn:Ef.
  2:{ split; [apply Hp|]. cbn [kind tail offset]. destruct Hat. by split_and!. }
  destruct (_ || _)%bool eqn:Ea.
  { split; [apply Hp|]. cbn [kind tail offset]. destruct Hat. split_and!; [done..|]. exists f, lo, hi, (Z.of_nat (length xs)).
    apply orb_true_iff in Ea. split; [done|]. split; [lia|]. destruct Ea; breflect; lia. }
  breflect. eapply good_bind; [by instantiate (1 := fun _ p' => p' = Parser (pos p2 + 1) (pnodes p2) (depths p2) (depth p2)
    (registers_used p2 || touches_registers f))|]. intros _ p4 ->.
  eapply good_weaken; [apply (arena_push_spec p ts xs _ (KCall f)); [done| |split; [lia|]|done]|].
  - destruct G as [I N D R Q W U K]. split; try done; cbn in *; [lia|]. by rewrite U, !orb_false_r.
  - exists lo, hi. split; [by apply resolve_arity in Ef|lia].
  - intros i p' [G' _]. by eexists.
Qed.

Lemma advance_len num p : scan_number (rest s p) = Some num -> (0 < len num /\ pos p + len num <= length s)%nat.
Proof. intros E. apply scan_number_len in E. unfold rest in E. rewrite length_drop in E. lia. Qed.

(** A name that matches is inside the text. *)
Lemma strmatch_len p name : (pos p <= length s)%nat -> strmatch (rest s p) name = true -> (pos p + length name <= length s)%nat.
Proof.
  unfold strmatch. intros Hp E. destruct (strip_str (rest s p) name) as [r|] eqn:Er; [|done].
  apply strip_str_Some, (f_equal length) in Er. unfold rest in Er. rewrite length_drop, length_app in Er. lia.
Qed.

(** Progress at a sign, which the loop of [parse_subexpr] relies on. *)
Definition steps (p : parser) (x : Z) (p' : parser) : Prop :=
  one p x p' /\ (at_sign s p = true -> (pos p < pos p')%nat).

Lemma parse_primary_spec p :
  inv p -> (length s - pos p <= n)%nat ->
  good (fun x p' => one p x p' /\ (is_Some (scan_number (rest s p)) -> (pos p < pos p')%nat)) (parse_primary s b l expr p).
Proof.
  intros Hp Hn. unfold parse_primary. destruct (scan_number (rest s p)) as [num|] eqn:E.
  { destruct (advance_len _ _ E) as [H1 H2]. pose proof (inv_moved _ _ Hp H2) as Hp'.
    eapply good_bind; [by instantiate (1 := fun _ p' => p' = moved (len num) p)|]. intros _ p1 ->.
    eapply good_weaken; [by apply (push_leaf _ (KConst (value num)))|].
    intros x p' [H3 H4]. split; [by eapply one_from_moved|]. rewrite H4. simpl. lia. }
  eapply good_weaken with (Q := one p); [|intros x p' Hx; split; [done|by intros []]].
  apply good_eat; [done| |].
  - intros _ Hl Hp1. eapply good_bind; [by apply Hexpr; [|simpl; lia]|]. intros x p2 G. apply one_from_moved in G.
    apply good_eat; [by eapply one_inv| |].
    + intros _ Hl2 _. by apply one_to_moved.
    + intros Hc. apply good_err, located_err; [by eapply one_inv|done|done].
  - intros _. destruct (list_find _ (vars b)) as [[i name]|] eqn:Ev.
    + apply list_find_Some in Ev as (Ei & Em & _). pose proof (strmatch_len p name (proj1 Hp) Em) as Hl.
      eapply good_bind; [by instantiate (1 := fun _ p' => p' = moved (length name) p)|]. intros _ p1 ->.
      pose proof (inv_moved _ _ Hp Hl) as Hp1. apply lookup_lt_Some in Ei.
      destruct (checked_u 32 (Z.of_nat i)) as [v|] eqn:Ec.
      * breflect. eapply good_weaken; [by apply (push_leaf _ (KVar i))|]. intros x p' [G _]. by eapply one_from_moved.
      * apply good_err, located_err; [done..|]. right. apply checked_u_None in Ec. lia.
    + destruct (List.find _ CONSTANTS) as [[name v]|] eqn:Ec; [|by apply parse_call_spec].
      apply find_some in Ec as [_ Em]. pose proof (strmatch_len p name (proj1 Hp) Em) as Hl.
      eapply good_bind; [by instantiate (1 := fun _ p' => p' = moved (length name) p)|]. intros _ p1 ->.
      eapply good_weaken; [apply (push_leaf _ (KConst v)); [by apply inv_moved|done..]|].
      intros x p' [G _]. by eapply one_from_moved.
Qed.

Lemma parse_unary_spec p :
  inv p -> (length s - pos p <= n)%nat ->
  good (fun (q : Z * bool) p' => steps p q.1 p') (parse_unary s b l expr p).
Proof.
  intros Hp Hn. unfold parse_unary.
  assert (forall k neg, (k = 0 \/ k = 1)%nat -> (pos p + k <= length s)%nat ->
    (k = 0%nat -> at_sign s p = true -> is_Some (scan_number (rest s p))) ->
    good (fun (q : Z * bool) p' => steps p q.1 p') ((node ← parse_primary s b l expr; mret (node, neg)) (moved k p))) as Hk.
  { intros k neg Hk Hl Hs. pose proof (inv_moved _ _ Hp Hl) as Hp'.
    eapply good_bind; [by apply parse_primary_spec; [|simpl; lia]|]. intros x p' [G Hpos]. cbn. split; [by eapply one_from_moved|].
    cbn. intros Ha. pose proof (one_pos _ _ _ G) as H1. simpl in *. destruct Hk as [-> | ->]; [|lia].
    unfold rest in *. simpl in Hpos. rewrite Nat.add_0_r in Hpos. by apply Hpos, Hs. }
  assert (moved 0 p = p) as E0 by (destruct p; unfold moved; simpl; f_equal; lia).
  pose proof (peek_Some p) as Hpk. destruct (starts_db_literal (rest s p)) eqn:Edb.
  - rewrite <- E0 at 1. apply (Hk 0%nat false); [by left|destruct Hp; lia|]. intros _ _.
    unfold starts_db_literal in Edb. destruct (rest s p); [done|]. apply andb_true_iff in Edb as [_ Edb].
    destruct (scan_number _); [done|done].
  - destruct (peek s p) as [c|] eqn:Ec; [pose proof (Hpk c eq_refl) as Hlt|].
    + destruct (c =? 45) eqn:E1; [apply (Hk 1%nat true); [by right|lia|done]|].
      destruct (c =? 43) eqn:E2; [apply (Hk 1%nat false); [by right|lia|done]|].
      rewrite <- E0 at 1. apply (Hk 0%nat false); [by left|destruct Hp; lia|]. intros _ Ha. unfold at_sign, is_sign in Ha.
      rewrite Ec, E1, E2 in Ha. done.
    + rewrite <- E0 at 1. apply (Hk 0%nat false); [by left|destruct Hp; lia|]. intros _ Ha. unfold at_sign in Ha. by rewrite Ec in Ha.
Qed.

(** The loops: they start from a finished operand [e] and end on one. *)
Definition ends (p0 p : parser) (x : Z) (p' : parser) : Prop := one p0 x p' /\ (pos p <= pos p')%nat.

Lemma ends_trans p0 p p1 x p' : ends p0 p1 x p' -> (pos p <= pos p1)%nat -> ends p0 p x p'.
Proof. intros [? ?] ?. split; [done|lia]. Qed.

Lemma negate_spec p0 x p (neg : bool) :
  inv p0 -> one p0 x p ->
  good (fun y p' => one p0 y p' /\ pos p' = pos p) ((if neg then push s l (ONeg x) [x] else mret x) p).
Proof. intros Hp G. destruct neg; [by apply (push_one _ _ _ KNeg)|by split]. Qed.

Lemma factor_loop_spec fuel p0 e p :
  inv p0 -> one p0 e p -> (length s - pos p < fuel)%nat -> (length s - pos p <= n)%nat ->
  good (ends p0 p) (factor_loop s b l expr fuel e p).
Proof.
  intros H0. revert e p. induction fuel as [|fuel IH]; intros e p G Hf Hn; [lia|]. cbn [factor_loop].
  apply good_eat; [by eapply one_inv| |by intros _; split].
  intros _ Hl Hp1. eapply good_bind; [by apply parse_unary_spec; [|simpl; lia]|]. intros [rhs neg] p2 [G2 _]. cbn [fst] in G2.
  eapply good_bind; [by apply negate_spec|]. intros y p3 [G3 E3]. cbn beta.
  eapply good_bind; [eapply (push_two p0 e (moved 1 p) y p3 KPow); [done|by apply one_to_moved|done..]|]. intros z p4 [G4 E4].
  apply one_pos in G2. simpl in G2. eapply good_weaken; [apply IH; [done|lia|lia]|]. intros w p' Hw.
  eapply ends_trans; [done|lia].
Qed.

Lemma parse_factor_spec p :
  inv p -> (length s - pos p <= n)%nat -> good (steps p) (parse_factor s b l expr p).
Proof.
  intros Hp Hn. unfold parse_factor. eapply good_bind; [by apply parse_unary_spec|]. intros [e neg] p1 [G Hs]. cbn [fst] in *.
  pose proof (one_pos _ _ _ G). eapply good_bind; [apply (factor_loop_spec _ p); [done|done|unfold loop_fuel; lia|lia]|].
  intros e' p2 [G2 H2]. eapply good_weaken; [by apply negate_spec|]. intros y p' [G3 E3]. split; [done|].
  intros Ha. apply Hs in Ha. lia.
Qed.

Lemma term_loop_spec fuel p0 e p :
  inv p0 -> one p0 e p -> (length s - pos p < fuel)%nat -> (length s - pos p <= n)%nat ->
  good (ends p0 p) (term_loop s b l expr fuel e p).
Proof.
  intros H0. revert e p. induction fuel as [|fuel IH]; intros e p G Hf Hn; [lia|]. cbn [term_loop].
  assert (forall sh o, o = (fun x y => op_of sh [x; y]) -> shape_ok b sh 2 -> shape_regs sh = false -> (pos p < length s)%nat ->
    good (ends p0 p) ((advance 1;; rhs ← parse_factor s b l expr; e' ← push s l (o e rhs) [e; rhs]; term_loop s b l expr fuel e') p)) as Hop.
  { intros sh o -> Hs Hr Hl. eapply good_bind; [by instantiate (1 := fun _ p' => p' = moved 1 p)|]. intros _ p1 ->.
    assert (inv (moved 1 p)) as Hp1 by (apply inv_moved; [by eapply one_inv|lia]).
    eapply good_bind; [by apply parse_factor_spec; [|simpl; lia]|]. intros rhs p2 [G2 _].
    eapply good_bind; [eapply (push_two p0 e (moved 1 p) rhs p2 sh); [done|apply one_to_moved; [done|lia]|done..]|]. intros z p4 [G4 E4].
    apply one_pos in G2. simpl in G2. eapply good_weaken; [apply IH; [done|lia|lia]|]. intros w p' Hw.
    eapply ends_trans; [done|lia]. }
  destruct (peek s p) as [c|] eqn:E; [|by split]. pose proof (peek_Some _ _ E).
  destruct (c =? 42); [by apply (Hop KMul)|]. destruct (c =? 47); [by apply (Hop KDiv)|by split].
Qed.

Lemma parse_term_spec p :
  inv p -> (length s - pos p <= n)%nat -> good (steps p) (parse_term s b l expr p).
Proof.
  intros Hp Hn. unfold parse_term. eapply good_bind; [by apply parse_factor_spec|]. intros e p1 [G Hs].
  pose proof (one_pos _ _ _ G). eapply good_weaken; [apply (term_loop_spec _ p); [done|done|unfold loop_fuel; lia|lia]|].
  intros e' p2 [G2 H2]. split; [done|]. intros Ha. apply Hs in Ha. lia.
Qed.

Lemma subexpr_loop_spec fuel p0 e p :
  inv p0 -> one p0 e p -> (length s - pos p < fuel)%nat -> (length s - pos p <= n)%nat ->
  good (ends p0 p) (subexpr_loop s b l expr fuel e p).
Proof.
  intros H0. revert e p. induction fuel as [|fuel IH]; intros e p G Hf Hn; [lia|]. cbn [subexpr_loop].
  destruct (at_sign s p) eqn:Ea; [|by split]. pose proof (one_pos _ _ _ G) as Hpp.
  eapply good_bind; [by apply parse_term_spec; [by eapply one_inv|]|]. intros rhs p2 [G2 Hs]. specialize (Hs Ea).
  eapply good_bind; [by eapply (push_two p0 e _ rhs p2 KAdd)|]. intros z p4 [G4 E4].
  apply one_pos in G2. eapply good_weaken; [apply IH; [done|lia|lia]|]. intros w p' Hw. eapply ends_trans; [done|lia].
Qed.

Lemma parse_subexpr_spec p :
  inv p -> (length s - pos p <= n)%nat -> good (one p) (parse_subexpr s b l expr p).
Proof.
  intros Hp Hn. unfold parse_subexpr. eapply good_bind; [by apply parse_term_spec|]. intros e p1 [G _].
  pose proof (one_pos _ _ _ G). eapply good_weaken; [apply (subexpr_loop_spec _ p); [done|done|unfold loop_fuel; lia|lia]|].
  by intros e' p2 [G2 _].
Qed.

Lemma expr_loop_spec fuel p0 e p :
  inv p0 -> one p0 e p -> (length s - pos p < fuel)%nat -> (length s - pos p <= n)%nat ->
  good (ends p0 p) (expr_loop s b l expr fuel e p).
Proof.
  intros H0. revert e p. induction fuel as [|fuel IH]; intros e p G Hf Hn; [lia|]. cbn [expr_loop].
  apply good_eat; [by eapply one_inv| |by intros _; split].
  intros _ Hl Hp1. eapply good_bind; [by apply parse_subexpr_spec; [|simpl; lia]|]. intros rhs p2 G2.
  eapply good_bind; [eapply (push_two p0 e (moved 1 p) rhs p2 KSeq); [done|by apply one_to_moved|done..]|]. intros z p4 [G4 E4].
  apply one_pos in G2. simpl in G2. eapply good_weaken; [apply IH; [done|lia|lia]|]. intros w p' Hw.
  eapply ends_trans; [done|lia].
Qed.

Lemma parse_expr_inner_spec p :
  inv p -> (length s - pos p <= n)%nat -> good (one p) (parse_expr_inner s b l expr p).
Proof.
  intros Hp Hn. unfold parse_expr_inner. destruct (_ <? _); [by apply good_err, located_err|].
  eapply good_bind; [by apply parse_subexpr_spec|]. intros e p1 G. pose proof (one_pos _ _ _ G).
  eapply good_weaken; [apply (expr_loop_spec _ p); [done|done|unfold loop_fuel; lia|lia]|]. by intros e' p2 [G2 _].
Qed.

End levels.

Lemma one_nest d p x p' : one (Parser (pos p) (pnodes p) (depths p) (depth p + d) (registers_used p)) x p' ->
  one p x (Parser (pos p') (pnodes p') (depths p') (depth p' + - d) (registers_used p')).
Proof. intros [t [I N D R Q E U K]]. exists t. split; try done; cbn in *. lia. Qed.

Lemma parse_expr_spec fuel p :
  inv p -> (length s - pos p < fuel)%nat -> good (one p) (parse_expr s b l fuel p).
Proof.
  revert p. induction fuel as [|fuel IH]; intros p Hp Hf; [lia|]. cbn [parse_expr].
  eapply good_bind; [by instantiate (1 := fun _ p' => p' = Parser (pos p) (pnodes p) (depths p) (depth p + 1) (registers_used p))|].
  intros _ p1 ->. eapply good_bind; [apply (parse_expr_inner_spec _ fuel IH); [done|simpl; lia]|]. intros x p2 G. cbn.
  by apply (one_nest 1).
Qed.

End spec.

(** ** The whole parser *)

(** The child indices of a node; the unused argument slots are not children. *)
Definition children_of (o : op) : list Z :=
  match o with
  | OConst _ | OVar _ => []
  | ONeg a => [a]
  | OAdd a b | OMul a b | ODiv a b | OPow a b | OSeq a b => [a; b]
  | OCall _ argc args => take (Z.to_nat argc) args
  end.

Lemma children_op_of b sh (xs : list Z) : shape_ok b sh (length xs) -> children_of (op_of sh xs) = xs.
Proof.
  destruct sh; cbn; try (intros [? _] || intros ?); destruct xs as [|x [|y [|z [|w xs]]]]; try done; simpl in *; lia.
Qed.

Lemma roots_bounds {A : Type} n (ts : list (tree A)) :
  Forall (fun c => Z.of_nat n <= c < Z.of_nat (n + sum_list (map tsize ts))) (roots n ts).
Proof.
  revert n. induction ts as [|t ts IH]; intros n; [constructor|]. pose proof (tsize_pos t). simpl. constructor; [lia|].
  eapply Forall_impl; [apply IH|]. simpl. lia.
Qed.

Lemma length_roots {A : Type} n (ts : list (tree A)) : length (roots n ts) = length ts.
Proof. revert n. induction ts as [|t ts IH]; intros n; simpl; [done|by rewrite IH]. Qed.

(** Children come before their parent, inside the same subtree. *)
Lemma flatten_topological b t n i o :
  typed b t -> flatten n t !! i = Some o -> Forall (fun c => Z.of_nat n <= c < Z.of_nat (n + i)) (children_of o).
Proof.
  revert n i o. induction t as [sh ts IH] using tree_rect'; intros n i o Ht Hi.
  apply typed_node in Ht as [Hsh Hts]. rewrite flatten_node in Hi.
  assert (forall n i, flats n ts !! i = Some o -> Forall (fun c => Z.of_nat n <= c < Z.of_nat (n + i)) (children_of o)) as Hflats.
  { clear Hsh Hi n i. induction Hts as [|t ts Ht Hts IHts]; intros n i Hi; [done|].
    apply Forall_cons in IH as [IHt IH]. cbn [flats] in Hi. apply lookup_app_Some in Hi as [Hi|[Hl Hi]].
    - by apply IHt.
    - rewrite length_flatten in *. eapply Forall_impl; [by apply IHts|]. simpl. lia. }
  apply lookup_app_Some in Hi as [Hi|[Hl Hi]]; [by apply Hflats|]. apply list_lookup_singleton_Some in Hi as [Hi <-].
  rewrite length_flats in *. rewrite (children_op_of b) by (by rewrite length_roots).
  replace i with (sum_list (map tsize ts)) by lia. apply roots_bounds.
Qed.

Lemma typed_kids {A : Type} b (t : tree A) : typed b t -> match t with Node _ ts => Forall (typed b) ts end.
Proof. destruct t. intros Ht. by apply typed_node in Ht as []. Qed.

(** The result of [parse_with], whichever it is. *)
Lemma parse_with_spec `{Libm} src b l :
  match parse_with src b l with
  | None => False
  | Some (Err e) => located (strip_whitespace src) b e
  | Some (Ok e) =>
    var_count e = length (vars b) /\ expr_limits e = l /\
    exists t, tree_ok b l t /\ nodes e = flatten 0 t /\ root e = Z.of_nat (tsize t - 1) /\ uses_registers e = tregs t
  end.
Proof.
  unfold parse_with. set (s := strip_whitespace src).
  assert (inv s parser_new) as H0 by (split; simpl; [lia|done]).
  pose proof (parse_expr_spec s b l (S (S (length s))) parser_new H0 ltac:(simpl; lia)) as Hg.
  destruct (parse_expr _ _ _ _ _) as [x p|e|]; cbn [good] in Hg; [|done..].
  destruct (Nat.eqb_spec (pos p) (length s)) as [E|E]; cbn [negb].
  - split; [done|]. split; [done|]. destruct Hg as [t [I N D R Q W U K]]. exists t.
    apply Forall_cons in K as [K _]. split; [done|]. cbn in *. rewrite app_nil_r in N. injection R as ->.
    split; [done|]. split; [done|]. by rewrite U, !orb_false_r.
  - destruct (one_pos _ _ _ _ _ _ Hg) as [_ Hl]. split; [exact Hl|]. split; [done|]. cbn [offset].
    intros Hr. apply (f_equal length) in Hr. rewrite length_drop in Hr. simpl in Hr. lia.
Qed.

(** C14. Parsing is total and typed. On every text, bindings and limits the
    parser returns; what it accepts is the post-order of one tree in which every
    variable is bound, every call has a number of arguments its function takes
    and no path is longer than [max_node_depth]; in that arena each child comes
    before its parent, and [uses_registers] is set exactly when some call
    touches a register. *)
Theorem parse_typed `{Libm} src b l :
  exists r, parse_with src b l = Some r /\
  forall e, r = Ok e ->
    (exists t, typed b t /\ tdepth t <= max_node_depth l /\ nodes e = flatten 0 t /\
       root e = Z.of_nat (length (nodes e) - 1) /\ uses_registers e = tregs t) /\
    (forall i o, nodes e !! i = Some o -> Forall (fun c => 0 <= c < Z.of_nat i) (children_of o)).
Proof.
  pose proof (parse_with_spec src b l) as Hs. destruct (parse_with src b l) as [r|]; [|done]. exists r. split; [done|].
  intros e ->. destruct Hs as (_ & _ & t & [Ht Hd] & Hn & Hr & Hu). split.
  - exists t. rewrite Hn at 2. rewrite length_flatten. done.
  - intros i o Hi. rewrite Hn in Hi. by eapply (flatten_topological b t 0).
Qed.

(** Every rejection is justified by the text: the offset lies in it, the
    quoted tail is what stands there, and the kind is true of that place - no
    name and no parenthesis follows, the name before the parenthesis resolves to
    nothing, or to a function that does not take that many arguments, the next
    character does not close the group, or something is left over. *)
Theorem parse_errors `{Libm} src b l e :
  parse_with src b l = Some (Err e) -> located (strip_whitespace src) b e.
Proof. intros E. pose proof (parse_with_spec src b l) as Hs. by rewrite E in Hs. Qed.

(** An exact C library is not needed to parse: any interpretation will do. *)
Definition dummy_libm : Libm :=
  {| exp2 := fun _ => nan; powf := fun _ _ => nan; facos := fun _ => nan; fasin := fun _ => nan; fatan := fun _ => nan;
     fatan2 := fun _ _ => nan; fcos := fun _ => nan; fcosh := fun _ => nan; fexp := fun _ => nan; hypot := fun _ _ => nan;
     fln := fun _ => nan; fsin := fun _ => nan; fsinh := fun _ => nan; ftan := fun _ => nan; ftanh := fun _ => nan |}.

Lemma parse_errors_witness :
  located (strip_whitespace (str "1 + clip(2, 3)")) no_bindings (H := dummy_libm) (ParseError WrongArity 2 (str "clip")).
Proof. apply (parse_errors (H := dummy_libm) (str "1 + clip(2, 3)") no_bindings limits_default). vm_compute. reflexivity. Defined.

Lemma parse_typed_witness :
  exists e, parse_with (H := dummy_libm) (str "st(0, 3) + ld(0)") no_bindings limits_default = Some (Ok e) /\
    uses_registers e = true /\ root e = 5 /\ exists t, typed no_bindings t /\ nodes e = flatten 0 t.
Proof.
  destruct (parse_typed (H := dummy_libm) (str "st(0, 3) + ld(0)") no_bindings limits_default) as (r & E & Hr).
  destruct r as [e|e]; [|vm_compute in E; discriminate]. exists e. split; [exact E|].
  destruct (Hr e eq_refl) as [(t & Ht & _ & Hn & Hroot & _) _]. vm_compute in E. injection E as E.
  split; [by rewrite <- E|]. split; [by rewrite <- E|]. by exists t.
Defined.

(** The doc of [ParseError::tail] promises the source from the offset to the
    end; an unknown function's name is quoted alone. *)
Lemma unknown_function_tail `{Libm} :
  parse (str "nosuchfn(1)") no_bindings = Some (Err (ParseError UnknownFunction 0 (str "nosuchfn"))).
Proof. vm_compute. reflexivity. Qed.
