(* ===== verification/ExprEval.v ===== *)
(** * ExprEval: evaluation of a compiled expression

    [src/crates/core/vaco-expr/src/eval.rs]. The evaluator walks the node arena
    in a state of ten registers, the iteration budget and the caller's world,
    which its [print] sink, its functions and the wall clock may change. Fuel
    bounds the recursion over the arena and the [while] loop; [eval_refines]
    shows that the depth of the tree and the budget are enough. *)

From Stdlib Require Import ZArith Lia Ascii String SpecFloat.
From stdpp Require Import prelude strings.
From S2P Require Import Prelude ExprLex ExprParse.

Open Scope Z_scope.

(** ** Numbers: what the evaluator does to binary64 values *)

Definition fone : f64 := of_int 1.
Definition fne (x y : f64) : bool := negb (SFeqb x y).
Definition of_bool (b : bool) : f64 := if b then fone else fzero.
Definition is_nan (x : f64) : bool := match x with S754_nan => true | _ => false end.
Definition is_infinite (x : f64) : bool := match x with S754_infinity _ => true | _ => false end.
Definition is_finite (x : f64) : bool := match x with S754_zero _ | S754_finite _ _ _ => true | _ => false end.

(** An integer with the sign of [x] when it is zero. *)
Definition of_int_signed (s : bool) (z : Z) : f64 := if z =? 0 then S754_zero s else of_int z.

(** [trunc], [floor], [ceil] and [round] of a finite non-integer go through
    the integer below its magnitude. *)
Definition round_with (up : bool -> Z -> Z -> bool) (x : f64) : f64 :=
  match x with
  | S754_finite s m e =>
    if 0 <=? e then x
    else
      let w := 2 ^ (- e) in
      let q := Zpos m / w in let r := Zpos m mod w in
      let q := if up s r w then q + 1 else q in
      of_int_signed s (if s then - q else q)
  | _ => x
  end.

Definition ftrunc : f64 -> f64 := round_with (fun _ _ _ => false).
Definition ffloor : f64 -> f64 := round_with (fun s r _ => s && negb (r =? 0)).
Definition fceil : f64 -> f64 := round_with (fun s r _ => negb s && negb (r =? 0)).
Definition fround : f64 -> f64 := round_with (fun _ r w => w <=? 2 * r).

(** The integer part of a finite value. *)
Definition int_part (s : bool) (m : positive) (e : Z) : Z :=
  let a := if 0 <=? e then Zpos m * 2 ^ e else Zpos m / 2 ^ (- e) in if s then - a else a.

(** [as i64] and [as u64]: saturating, with NaN to zero. *)
Definition to_int (sat : Z -> Z) (x : f64) : Z :=
  match x with
  | S754_nan | S754_zero _ => 0
  | S754_infinity s => sat (if s then - 2 ^ 64 else 2 ^ 64)
  | S754_finite s m e => sat (int_part s m (Z.min e 64))
  end.
Definition to_i64 : f64 -> Z := to_int (sat_i 64).
Definition to_u64 : f64 -> Z := to_int (sat_u 64).

Definition reg_index (v : f64) : nat := Z.to_nat (Z.max 0 (Z.min (to_i64 v) 9)).

Definition bitwise (x y : f64) (f : Z -> Z -> Z) : f64 :=
  if is_nan x || is_nan y then nan else of_int (f (to_i64 x) (to_i64 y)).

Definition trailing_zeros (z : Z) : Z := Z.log2 (Z.land z (- z)).

Fixpoint gcd_loop (fuel : nat) (a b : Z) : Z :=
  match fuel with
  | O => a
  | S fuel =>
    if a =? b then a
    else if b <? a then let a := a - b in gcd_loop fuel (Z.shiftr a (trailing_zeros a)) b
    else let b := b - a in gcd_loop fuel a (Z.shiftr b (trailing_zeros b))
  end.

Definition binary_gcd (first second : Z) : Z :=
  if first =? 0 then second
  else if second =? 0 then first
  else
    let zeros_first := trailing_zeros first in
    let zeros_second := trailing_zeros second in
    let shift := Z.min zeros_first zeros_second in
    let odd := gcd_loop 128 (Z.abs (Z.shiftr first zeros_first)) (Z.abs (Z.shiftr second zeros_second)) in
    wrap_i 64 (wrap_u 64 (Z.shiftl odd shift)).

(** ** The evaluation state *)

Section eval.
  Context `{Libm} {W : Type}.
  (** What the caller supplies: the [print] sink, its functions, the pinned
      time and the host's wall clock. *)
  Context (print : option (f64 -> f64 -> W -> W)).
  Context (funcs : option (Z -> list f64 -> W -> f64 * W)).
  Context (now : option f64).
  Context (unix_nanos : W -> option Z * W).
  Context (vars : list f64).

Record state : Type := State { regs : list f64; budget : Z; world : W }.

Definition E (A : Type) : Type := state -> option (A * state).

#[local] Instance E_ret : MRet E := fun A a st => Some (a, st).
#[local] Instance E_bind : MBind E := fun A B k m st =>
  match m st with
  | Some (a, st) => k a st
  | None => None
  end.

Definition reg_get (index : nat) : E f64 := fun st => Some (default fzero (regs st !! Nat.min index 9), st).

Definition reg_set (index : nat) (v : f64) : E unit := fun st =>
  Some (tt, State (<[Nat.min index 9 := v]> (regs st)) (budget st) (world st)).

(** [spend]. *)
Definition spend : E bool := fun st =>
  if budget st =? 0 then Some (false, st) else Some (true, State (regs st) (budget st - 1) (world st)).

Definition with_world {A : Type} (f : W -> A * W) : E A := fun st =>
  let '(a, w) := f (world st) in Some (a, State (regs st) (budget st) w).

Definition wallclock_seconds : E f64 :=
  n ← with_world unix_nanos;
  mret (match n with Some n => fdiv (of_int n) (of_int 1000000000) | None => fzero end).

Definition next_random (index : nat) : E f64 :=
  current ← reg_get index;
  let seed := if is_nan current then 0 else to_u64 current in
  let next := wrap_u 64 (wrap_u 64 (seed * 1664525) + 1013904223) in
  reg_set index (of_int next);;
  mret (fdiv (of_int next) (of_int (2 ^ 64 - 1))).

(** The loops, over the evaluators of their arguments. *)
Fixpoint while_loop (fuel : nat) (cond body : E f64) (last : f64) : E f64 :=
  match fuel with
  | O => fun _ => None
  | S fuel =>
    c ← cond;
    if fne c fzero then
      last ← body;
      more ← spend;
      if (more : bool) then while_loop fuel cond body last else mret last
    else mret last
  end.

Fixpoint taylor_loop (n : nat) (i : Z) (body : E f64) (index : nat) (x term sum : f64) : E f64 :=
  match n with
  | O => mret sum
  | S n =>
    more ← spend;
    if negb more then mret sum
    else
      reg_set index (of_int i);;
      v ← body;
      let sum := fadd sum (fmul term v) in
      let term := fmul term (fdiv x (of_int (i + 1))) in
      if SFeqb term fzero then mret sum else taylor_loop n (i + 1) body index x term sum
  end.

Definition taylor (argc : Z) (body a1 a2 : E f64) : E f64 :=
  x ← a1;
  index ← (if argc =? 3 then v ← a2; mret (reg_index v) else mret 0%nat);
  saved ← reg_get index;
  sum ← taylor_loop 1000 0 body index x fone fzero;
  reg_set index saved;;
  mret sum.

(** The secant iteration of [root]. *)
Fixpoint root_loop (n : nat) (body : E f64) (x0 x1 f0 f1 : f64) : E f64 :=
  match n with
  | O => mret x1
  | S n =>
    if SFeqb f1 f0 then mret x1
    else
      more ← spend;
      if negb more then mret x1
      else
        let x2 := fsub x1 (fdiv (fmul f1 (fsub x1 x0)) (fsub f1 f0)) in
        if negb (is_finite x2) || SFeqb x2 x1 then mret x1
        else
          reg_set 0 x2;;
          f ← body;
          root_loop n body x1 x2 f1 f
  end.

Definition root_fn (body a1 : E f64) : E f64 :=
  x_max ← a1;
  saved ← reg_get 0;
  reg_set 0 fzero;;
  f0 ← body;
  reg_set 0 x_max;;
  f1 ← body;
  x1 ← root_loop 1000 body fzero x_max f0 f1;
  reg_set 0 saved;;
  mret x1.

Definition DEFAULT_PRINT_LEVEL : f64 := of_int 32.

(** The builtins whose arguments are all evaluated. *)
Definition strict (f : func) (argc : Z) (x y z : f64) : E f64 :=
  match f with
  | Abs => mret (SFabs x)
  | Acos => mret (facos x)
  | Asin => mret (fasin x)
  | Atan => mret (fatan x)
  | Atan2 => mret (fatan2 x y)
  | Between => mret (of_bool (SFleb y x && SFleb x z))
  | BitAnd => mret (bitwise x y Z.land)
  | BitOr => mret (bitwise x y Z.lor)
  | Ceil => mret (fceil x)
  | Clip => mret (if SFleb y z then (if SFltb x y then y else if SFltb z x then z else x) else nan)
  | Cos => mret (fcos x)
  | Cosh => mret (fcosh x)
  | FEq => mret (of_bool (SFeqb x y))
  | Exp => mret (fexp x)
  | Floor => mret (ffloor x)
  | Gauss => mret (fdiv (fexp (fdiv (fmul (SFopp x) x) (of_int 2)))
                     (fsqrt (fmul (of_int 2) (decimal 314159265358979323846264338327950288 (-35)))))
  | Gcd => mret (of_int (binary_gcd (to_i64 x) (to_i64 y)))
  | FGt => mret (of_bool (SFltb y x))
  | Gte => mret (of_bool (SFleb y x))
  | Hypot => mret (hypot x y)
  | IsInf => mret (of_bool (is_infinite x))
  | IsNan => mret (of_bool (is_nan x))
  | Ld => reg_get (reg_index x)
  | Lerp => mret (fadd x (fmul z (fsub y x)))
  | Log => mret (fln x)
  | FLt => mret (of_bool (SFltb x y))
  | Lte => mret (of_bool (SFleb x y))
  | Max => mret (if SFltb y x then x else y)
  | Min => mret (if SFltb x y then x else y)
  | Mod => mret (fsub x (fmul (ffloor (fdiv x y)) y))
  | Not => mret (of_bool (SFeqb x fzero))
  | Pow => mret (powf x y)
  | Print =>
    match print with
    | Some sink => with_world (fun w => (x, sink x (if 2 <=? argc then y else DEFAULT_PRINT_LEVEL) w))
    | None => mret x
    end
  | Random => next_random (reg_index x)
  | RandomI => r ← next_random (reg_index x); mret (fadd y (fmul (fsub z y) r))
  | Round => mret (fround x)
  | Sgn => mret (if SFltb fzero x then fone else if SFltb x fzero then SFopp fone else fzero)
  | Sin => mret (fsin x)
  | Sinh => mret (fsinh x)
  | Sqrt => mret (fsqrt x)
  | Squish => mret (fdiv fone (fadd fone (fexp (fmul (of_int 4) x))))
  | Tan => mret (ftan x)
  | Tanh => mret (ftanh x)
  | Time => match now with Some t => mret t | None => wallclock_seconds end
  | Trunc => mret (ftrunc x)
  | Extern id =>
    match funcs with
    | Some g => with_world (g id (take (Z.to_nat (Z.min argc 3)) [x; y; z]))
    | None => mret nan
    end
  | If | IfNot | While | Taylor | Root | St => mret nan
  end.

(** [call], over the evaluators of its three argument slots. *)
Definition call (f : func) (argc : Z) (a0 a1 a2 : E f64) : E f64 :=
  match f with
  | If => c ← a0; if fne c fzero then a1 else if argc =? 3 then a2 else mret fzero
  | IfNot => c ← a0; if SFeqb c fzero then a1 else if argc =? 3 then a2 else mret fzero
  | While => fun st => while_loop (S (Z.to_nat (budget st))) a0 a1 nan st
  | Taylor => taylor argc a0 a1 a2
  | Root => root_fn a0 a1
  | St => index ← a0; value ← a1; reg_set (reg_index index) value;; mret value
  | _ =>
    x ← a0;
    y ← (if 2 <=? argc then a1 else mret nan);
    z ← (if 3 <=? argc then a2 else mret nan);
    strict f argc x y z
  end.

(** Unary and binary operators, over the evaluators of their operands. *)
Definition op1 (g : f64 -> f64) (a : E f64) : E f64 := x ← a; mret (g x).
Definition op2 (g : f64 -> f64 -> f64) (a b : E f64) : E f64 := x ← a; y ← b; mret (g x y).

Definition arg (args : list Z) (n : nat) : Z := default U32_MAX (args !! n).

(** [op]: the node at an index, or a constant NaN outside the arena. *)
Definition op_at (ops : list op) (index : Z) : op :=
  if index <? Z.of_nat (length ops) then default (OConst nan) (ops !! Z.to_nat index) else OConst nan.

Fixpoint node (fuel : nat) (ops : list op) (index : Z) : E f64 :=
  match fuel with
  | O => fun _ => None
  | S fuel =>
    let n := node fuel ops in
    match op_at ops index with
    | OConst v => mret v
    | OVar i => mret (default nan (vars !! Z.to_nat i))
    | ONeg a => op1 SFopp (n a)
    | OAdd a b => op2 fadd (n a) (n b)
    | OMul a b => op2 fmul (n a) (n b)
    | ODiv a b => op2 fdiv (n a) (n b)
    | OPow a b => op2 powf (n a) (n b)
    | OSeq a b => _ ← n a; n b
    | OCall f argc args => call f argc (n (arg args 0)) (n (arg args 1)) (n (arg args 2))
    end
  end.

(** [Expr::eval_with]: the iteration budget is the context's, not the
    expression's. The recursion is given one unit of fuel per node. *)
Definition eval_with (e : expr) (ctx_limits : limits) (r : list f64) (w : W) : option (f64 * state) :=
  node (S (length (nodes e))) (nodes e) (root e) (State r (max_iterations ctx_limits) w).

End eval.
Arguments State {W} _ _ _.
Arguments regs {W} _.
Arguments budget {W} _.
Arguments world {W} _.

Definition registers_new : list f64 := replicate 10 fzero.

(** [Expr::eval]: fresh registers, the default limits, nothing supplied. *)
Definition eval `{Libm} {W : Type} (unix_nanos : W -> option Z * W) (e : expr) (vars : list f64) (w : W) : option f64 :=
  fst <$> eval_with None None None unix_nanos vars e limits_default registers_new w.

(** A world with a stopped clock. *)
Definition no_clock (w : unit) : option Z * unit := (None, w).

Definition run_text `{Libm} (src : rstr) : option f64 :=
  match parse src no_bindings with
  | Some (Ok e) => eval no_clock e [] tt
  | _ => None
  end.

Example eval_examples :
  let run s := run_text (H := dummy_libm) (str s) in
  run "1-+1"%string = Some fzero /\ run "1--1"%string = Some (of_int 2) /\ run "--1"%string = Some (of_int 1) /\
  run "mod(-5, 3)"%string = Some (of_int 1) /\ run "mod(5,-3)"%string = Some (of_int (-1)) /\
  run "max(0/0,1)"%string = Some (of_int 1) /\ run "max(1,0/0)"%string = Some nan /\
  run "if(0/0,7)"%string = Some (of_int 7) /\ run "ifnot(0/0,7)"%string = Some fzero /\
  run "st(0,3);ld(0)*ld(0)"%string = Some (of_int 9) /\ run "gcd(12, 18)"%string = Some (of_int 6) /\
  run "root(ld(0)-2, 7)"%string = Some (of_int 2) /\ run "round(-2.5)+floor(1.5)+ceil(1.5)+trunc(-1.5)"%string = Some (of_int (-1)) /\
  run "clip(0,1,0)"%string = Some nan /\ run "bitand(6,3)+bitor(6,3)"%string = Some (of_int 9) /\
  run "ceil(-0.5)"%string = Some (S754_zero true).
Proof. vm_compute. split_and!; reflexivity. Qed.

(** ** Evaluators as functions of the state *)

Section theory.
  Context `{Libm} {W : Type}.
  Context (print : option (f64 -> f64 -> W -> W)).
  Context (funcs : option (Z -> list f64 -> W -> f64 * W)).
  Context (now : option f64).
  Context (unix_nanos : W -> option Z * W).
  Context (vars : list f64).

#[local] Existing Instances E_ret E_bind.

(** Two evaluators that agree in every state. *)
Definition eqE {A : Type} (a b : @E W A) : Prop := forall st, a st = b st.

#[export] Instance eqE_equiv {A : Type} : Equivalence (@eqE A).
Proof. split; [by intros a st|by intros a b Hab st|intros a b c Hab Hbc st; by rewrite Hab]. Qed.

Lemma bind_eq {A B : Type} (a a' : @E W A) (k k' : A -> @E W B) :
  eqE a a' -> (forall x, eqE (k x) (k' x)) -> eqE (a ≫= k) (a' ≫= k').
Proof. intros Ha Hk st. unfold mbind, E_bind. rewrite Ha. destruct (a' st) as [[x st']|]; [apply Hk|done]. Qed.

(** Agreement is a congruence of everything built with binds and tests. *)
Ltac eq_step :=
  match goal with
  | |- eqE ?a ?a => reflexivity
  | Hyp : eqE ?a ?b |- eqE ?a ?b => exact Hyp
  | |- eqE (_ ≫= _) (_ ≫= _) => apply bind_eq; [|intros ?]
  | |- eqE (if ?c then _ else _) (if ?c then _ else _) => destruct c eqn:?
  end.
Ltac eq_tac := repeat eq_step.

#[export] Instance op1_proper g : Proper (eqE ==> eqE) (op1 g).
Proof. intros a a' Ha. unfold op1. eq_tac. Qed.

#[export] Instance op2_proper g : Proper (eqE ==> eqE ==> eqE) (op2 g).
Proof. intros a a' Ha b b' Hb. unfold op2. eq_tac. Qed.

#[export] Instance while_proper fuel : Proper (eqE ==> eqE ==> eq ==> eqE) (while_loop (W := W) fuel).
Proof.
  induction fuel as [|fuel IH]; intros c c' Hc a a' Ha x _ <-; [done|]. cbn [while_loop]. eq_tac. by apply IH.
Qed.

#[export] Instance taylor_loop_proper n i : Proper (eqE ==> eq ==> eq ==> eq ==> eq ==> eqE) (taylor_loop (W := W) n i).
Proof.
  revert i. induction n as [|n IH]; intros i a a' Ha j _ <- x _ <- t _ <- u _ <-; [done|]. cbn [taylor_loop]. eq_tac. by apply IH.
Qed.

#[export] Instance root_loop_proper n : Proper (eqE ==> eq ==> eq ==> eq ==> eq ==> eqE) (root_loop (W := W) n).
Proof.
  induction n as [|n IH]; intros a a' Ha x _ <- y _ <- u _ <- v _ <-; [done|]. cbn [root_loop]. eq_tac. by apply IH.
Qed.

(** The functions whose second argument is evaluated whatever [argc] says. *)
Definition lazy2 (f : func) : bool := match f with If | IfNot | While | Taylor | Root | St => true | _ => false end.

(** A call looks only at the arguments it has. *)
Lemma call_eq f argc a0 a1 a2 b0 b1 b2 :
  eqE a0 b0 -> (2 <= argc -> eqE a1 b1) -> (3 <= argc -> eqE a2 b2) -> (lazy2 f = true -> 2 <= argc) ->
  eqE (call print funcs now unix_nanos f argc a0 a1 a2) (call print funcs now unix_nanos f argc b0 b1 b2).
Proof.
  intros H0 H1 H2 Hl.
  destruct f; cbn [lazy2] in Hl; try (specialize (H1 (Hl eq_refl))); unfold call, taylor, root_fn; eq_tac; breflect; auto.
  all: try (apply H1; lia). all: try (apply H2; lia).
  - by apply root_loop_proper.
  - by apply taylor_loop_proper.
  - intros st. by apply while_proper.
Qed.

(** ** Termination: every evaluator returns, and the budget only shrinks *)

Definition total {A : Type} (a : @E W A) : Prop :=
  forall st, 0 <= budget st -> exists x st', a st = Some (x, st') /\ 0 <= budget st' <= budget st.

Lemma total_ret {A : Type} (x : A) : total (mret x).
Proof. intros st Hst. exists x, st. split; [done|lia]. Qed.

Lemma total_bind {A B : Type} (a : @E W A) (k : A -> @E W B) :
  total a -> (forall x, total (k x)) -> total (a ≫= k).
Proof.
  intros Ha Hk st Hst. destruct (Ha st Hst) as (x & st1 & E1 & H1). destruct (Hk x st1 ltac:(lia)) as (y & st2 & E2 & H2).
  exists y, st2. unfold mbind, E_bind. rewrite E1. split; [done|lia].
Qed.

Lemma total_reg_get i : total (reg_get i).
Proof. intros st Hst. eexists _, st. split; [done|lia]. Qed.

Lemma total_reg_set i v : total (reg_set i v).
Proof. intros st Hst. eexists _, _. split; [done|]. simpl. lia. Qed.

Lemma total_with_world {A : Type} (f : W -> A * W) : total (with_world f).
Proof. intros st Hst. unfold with_world. destruct (f (world st)). eexists _, _. split; [done|]. simpl. lia. Qed.

Lemma total_spend : total spend.
Proof. intros st Hst. unfold spend. destruct (Z.eqb_spec (budget st) 0); eexists _, _; (split; [done|]); simpl; lia. Qed.

Ltac total_step :=
  match goal with
  | Hyp : total ?a |- total ?a => exact Hyp
  | |- total (mret _) => apply total_ret
  | |- total (_ ≫= _) => apply total_bind; [|intros ?]
  | |- total (reg_get _) => apply total_reg_get
  | |- total (reg_set _ _) => apply total_reg_set
  | |- total (with_world _) => apply total_with_world
  | |- total spend => apply total_spend
  | |- total (if ?c then _ else _) => destruct c
  | |- total (match ?c with _ => _ end) => destruct c
  | |- total _ => solve [auto]
  end.
Ltac total_tac := repeat total_step.

Lemma total_taylor_loop n i body index x t u : total body -> total (taylor_loop n i body index x t u).
Proof. intros Hb. revert i t u. induction n as [|n IH]; intros i t u; cbn [taylor_loop]; cbv zeta; total_tac. Qed.

Lemma total_root_loop n body x0 x1 f0 f1 : total body -> total (root_loop n body x0 x1 f0 f1).
Proof. intros Hb. revert x0 x1 f0 f1. induction n as [|n IH]; intros; cbn [root_loop]; cbv zeta; total_tac. Qed.

(** Each further round of [while] has paid one unit, so the loop is done after
    at most [budget + 1] rounds. *)
Lemma while_total fuel cond body last st :
  total cond -> total body -> 0 <= budget st < Z.of_nat fuel ->
  exists x st', while_loop fuel cond body last st = Some (x, st') /\ 0 <= budget st' <= budget st.
Proof.
  intros Hc Hb. revert last st. induction fuel as [|fuel IH]; intros last st Hst; [lia|]. cbn [while_loop].
  destruct (Hc st ltac:(lia)) as (c & st1 & E1 & H1). unfold mbind, E_bind. rewrite E1.
  destruct (fne c fzero); [|exists last, st1; split; [done|lia]].
  destruct (Hb st1 ltac:(lia)) as (v & st2 & E2 & H2). rewrite E2. unfold spend.
  destruct (Z.eqb_spec (budget st2) 0); [exists v, st2; split; [done|lia]|].
  destruct (IH v (State (regs st2) (budget st2 - 1) (world st2)) ltac:(simpl; lia)) as (y & st3 & -> & H3).
  exists y, st3. simpl in H3. split; [done|lia].
Qed.

Lemma total_strict f argc x y z : total (strict print funcs now unix_nanos f argc x y z).
Proof. destruct f; cbn [strict]; unfold next_random, wallclock_seconds; cbv zeta; total_tac. Qed.

Lemma total_call f argc a0 a1 a2 :
  total a0 -> total a1 -> total a2 -> total (call print funcs now unix_nanos f argc a0 a1 a2).
Proof.
  intros H0 H1 H2. destruct f; unfold call, taylor, root_fn; total_tac; auto using total_strict, total_taylor_loop, total_root_loop.
  intros st Hst. apply while_total; [done..|lia].
Qed.

(** ** The meaning of a tree *)

Definition dead : @E W f64 := mret nan.

Definition apply_shape (sh : shape f64) (es : list (@E W f64)) : @E W f64 :=
  match sh, es with
  | KConst v, _ => mret v
  | KVar i, _ => mret (default nan (vars !! i))
  | KNeg, [a] => op1 SFopp a
  | KAdd, [a; b] => op2 fadd a b
  | KMul, [a; b] => op2 fmul a b
  | KDiv, [a; b] => op2 fdiv a b
  | KPow, [a; b] => op2 powf a b
  | KSeq, [a; b] => _ ← a; b
  | KCall f, _ => call print funcs now unix_nanos f (Z.of_nat (length es)) (nth 0 es dead) (nth 1 es dead) (nth 2 es dead)
  | _, _ => dead
  end.

Fixpoint denote (t : tree f64) : @E W f64 := match t with Node sh ts => apply_shape sh (map denote ts) end.

Lemma total_nth es i : Forall total es -> total (nth i es dead).
Proof.
  intros Hes. destruct (decide (i < length es)%nat) as [Hi|Hi].
  - eapply Forall_forall; [exact Hes|]. by apply list_elem_of_In, nth_In.
  - rewrite nth_overflow by lia. apply total_ret.
Qed.

Lemma total_denote t : total (denote t).
Proof.
  induction t as [sh ts IH] using tree_rect'. cbn [denote].
  assert (Forall total (map denote ts)) as Hes by (by apply Forall_map). generalize dependent (map denote ts). intros es Hes.
  destruct sh; cbn [apply_shape]; try apply total_ret; try (apply total_call; by apply total_nth);
    try (destruct es as [|a [|b [|c es]]]; try apply total_ret; repeat (apply Forall_cons in Hes as [? Hes]);
         unfold op1, op2; total_tac).
Qed.

(** ** The arena and the tree *)

Lemma op_at_lookup ops i o : ops !! i = Some o -> op_at ops (Z.of_nat i) = o.
Proof.
  intros Hi. pose proof (lookup_lt_Some _ _ _ Hi). unfold op_at. rewrite (proj2 (Z.ltb_lt _ _)) by lia.
  by rewrite Nat2Z.id, Hi.
Qed.

Abbreviation run := (node print funcs now unix_nanos vars).

(** A call node evaluates as the call of its children. *)
Lemma call_node_eq b fuel ops f xs (es : list (@E W f64)) :
  Forall2 (fun x e => eqE (run fuel ops x) e) xs es -> shape_ok b (@KCall f64 f) (length xs) ->
  let args := xs ++ replicate (3 - length xs) U32_MAX in
  eqE (call print funcs now unix_nanos f (Z.of_nat (length xs))
         (run fuel ops (arg args 0)) (run fuel ops (arg args 1)) (run fuel ops (arg args 2)))
      (call print funcs now unix_nanos f (Z.of_nat (length es)) (nth 0 es dead) (nth 1 es dead) (nth 2 es dead)).
Proof.
  intros Hes [Hl (lo & hi & Ha & Hlo)] args. rewrite <- (Forall2_length _ _ _ Hes).
  assert (forall i, (i < length xs)%nat -> eqE (run fuel ops (arg args i)) (nth i es dead)) as Hi.
  { intros i Hi. unfold arg, args. rewrite lookup_app_l by done. destruct (lookup_lt_is_Some_2 xs i Hi) as [x Ex].
    destruct (Forall2_lookup_l _ _ _ _ _ Hes Ex) as (e & Ee & He). rewrite Ex. cbn. by rewrite (nth_lookup_Some _ _ _ _ Ee). }
  apply call_eq; [apply Hi; lia|intros ?; apply Hi; lia|intros ?; apply Hi; lia|].
  destruct f; try done; cbn in Ha; injection Ha as <- <-; lia.
Qed.

(** The one or two children a shape has. *)
Ltac kids_tac xs es Hk :=
  pose proof (Forall2_length _ _ _ Hk);
  destruct xs as [|? [|? [|? ?]]]; try done; destruct es as [|? [|? [|? ?]]]; try done;
  apply Forall2_cons in Hk as [Hx Hk]; try (apply Forall2_cons in Hk as [Hy Hk]).

Lemma kids_eq b fuel ops ts pre post :
  Forall (fun t => forall pre post, ops = pre ++ flatten (length pre) t ++ post -> typed b t ->
     (Z.to_nat (tdepth t) <= fuel)%nat -> eqE (run fuel ops (Z.of_nat (length pre + tsize t - 1))) (denote t)) ts ->
  ops = pre ++ flats (length pre) ts ++ post -> Forall (typed b) ts ->
  (Z.to_nat (fold_right Z.max 0%Z (map tdepth ts)) <= fuel)%nat ->
  Forall2 (fun x e => eqE (run fuel ops x) e) (roots (length pre) ts) (map denote ts).
Proof.
  revert pre. induction ts as [|t ts IH]; intros pre Hall Hops Ht Hf; [constructor|].
  apply Forall_cons in Hall as [H1 Hall], Ht as [Ht1 Ht]. simpl in Hf. cbn [flats] in Hops. cbn [roots map].
  rewrite <- app_assoc in Hops. constructor; [by eapply H1; [exact Hops|done|lia]|].
  replace (length pre + tsize t)%nat with (length (pre ++ flatten (length pre) t))
    by (by rewrite length_app, length_flatten).
  apply IH; [done| |done|lia]. rewrite length_app, length_flatten, <- app_assoc. done.
Qed.

Lemma node_flatten b fuel ops t pre post :
  ops = pre ++ flatten (length pre) t ++ post -> typed b t -> (Z.to_nat (tdepth t) <= fuel)%nat ->
  eqE (run fuel ops (Z.of_nat (length pre + tsize t - 1))) (denote t).
Proof.
  revert fuel pre post. induction t as [sh ts IH] using tree_rect'; intros fuel pre post Hops Ht Hf.
  apply typed_node in Ht as [Hsh Hts]. rewrite flatten_node in Hops. pose proof (length_flats (length pre) ts) as Hlen.
  assert (ops !! (length pre + sum_list (map tsize ts))%nat = Some (op_of sh (roots (length pre) ts))) as Hop.
  { rewrite Hops, lookup_app_r by lia. rewrite <- app_assoc, lookup_app_r by lia.
    by replace (_ - _ - _)%nat with 0%nat by lia. }
  assert (0 <= fold_right Z.max 0 (map tdepth ts)) as Hpos by (clear; induction ts; simpl; lia).
  cbn [tdepth] in Hf. destruct fuel as [|fuel]; [lia|].
  assert (Forall2 (fun x e => eqE (run fuel ops x) e) (roots (length pre) ts) (map denote ts)) as Hkids.
  { eapply (kids_eq b); [|by rewrite Hops, <- app_assoc|done|lia].
    eapply Forall_impl; [exact IH|]. simpl. intros t Ht pre' post' Ho. by apply (Ht fuel pre' post'). }
  replace (length pre + tsize (Node sh ts) - 1)%nat with (length pre + sum_list (map tsize ts))%nat by (simpl; lia).
  cbn [node denote]. rewrite (op_at_lookup _ _ _ Hop). clear Hop IH Hops.
  rewrite <- (length_roots (length pre) ts) in Hsh. generalize dependent (map denote ts). generalize dependent (roots (length pre) ts).
  intros xs Hsh es Hkids. destruct sh; cbn [op_of apply_shape].
  - done.
  - cbn. by rewrite Nat2Z.id.
  - kids_tac xs es Hkids. by rewrite Hx.
  - kids_tac xs es Hkids. by rewrite Hx, Hy.
  - kids_tac xs es Hkids. by rewrite Hx, Hy.
  - kids_tac xs es Hkids. by rewrite Hx, Hy.
  - kids_tac xs es Hkids. by rewrite Hx, Hy.
  - kids_tac xs es Hkids. by apply bind_eq.
  - unfold call_node. by apply (call_node_eq b).
Qed.

Lemma tdepth_size {A : Type} (t : tree A) : 1 <= tdepth t <= Z.of_nat (tsize t).
Proof.
  induction t as [sh ts IH] using tree_rect'. cbn [tdepth tsize].
  enough (0 <= fold_right Z.max 0 (map tdepth ts) <= Z.of_nat (sum_list (map tsize ts))) by lia.
  induction IH as [|t ts Ht _ IH]; simpl; lia.
Qed.

(** An expression that holds a tree evaluates to its meaning. *)
Lemma eval_denotes b t e ctx r w :
  typed b t -> nodes e = flatten 0 t -> root e = Z.of_nat (tsize t - 1) -> 
  eval_with print funcs now unix_nanos vars e ctx r w = denote t (State r (max_iterations ctx) w).
Proof.
  intros Ht Hn Hr. unfold eval_with. rewrite Hn, Hr. apply (node_flatten b _ _ t [] []); [by rewrite app_nil_r|done|].
  rewrite length_flatten. pose proof (tdepth_size t). lia.
Qed.


End theory.


(** ** The greatest common divisor *)

Lemma two_adic z : z <> 0 -> exists k c, 0 <= k /\ z = 2 ^ k * (2 * c + 1).
Proof.
  intros Hz. assert (forall n : nat, forall z, z <> 0 -> Z.abs z < Z.of_nat n -> exists k c, 0 <= k /\ z = 2 ^ k * (2 * c + 1)) as Hind.
  { clear. induction n as [|n IH]; intros z Hz Hn; [lia|]. destruct (Z.Even_or_Odd z) as [[m ->]|[m ->]].
    - destruct (IH m ltac:(lia) ltac:(lia)) as (k & c & Hk & ->). exists (k + 1), c. split; [lia|].
      rewrite Z.pow_add_r by lia. lia.
    - exists 0, m. split; [lia|]. simpl. lia. }
  apply (Hind (S (Z.to_nat (Z.abs z)))); lia.
Qed.

Lemma land_odd_opp c : Z.land (2 * c + 1) (- (2 * c + 1)) = 1.
Proof.
  replace (- (2 * c + 1)) with (2 * Z.lnot c + 1) by (unfold Z.lnot; lia). apply Z.bits_inj'. intros n Hn. rewrite Z.land_spec.
  destruct (Z.eq_dec n 0) as [->|H0]; [by rewrite !Z.testbit_odd_0|]. replace n with (Z.succ (n - 1)) by lia.
  rewrite !Z.testbit_odd_succ by lia. rewrite Z.lnot_spec, andb_negb_r by lia.
  change 1 with (2 * 0 + 1). by rewrite Z.testbit_odd_succ, Z.bits_0 by lia.
Qed.

Lemma trailing_zeros_two_adic k c : 0 <= k -> trailing_zeros (2 ^ k * (2 * c + 1)) = k.
Proof.
  intros Hk. unfold trailing_zeros. replace (- (2 ^ k * (2 * c + 1))) with (2 ^ k * - (2 * c + 1)) by lia.
  rewrite !(Z.mul_comm (2 ^ k)), <- !Z.shiftl_mul_pow2, <- Z.shiftl_land, land_odd_opp by lia.
  by rewrite Z.shiftl_1_l, Z.log2_pow2 by lia.
Qed.

Lemma shiftr_two_adic k c : 0 <= k -> Z.shiftr (2 ^ k * (2 * c + 1)) k = 2 * c + 1.
Proof. intros Hk. rewrite Z.shiftr_div_pow2, Z.mul_comm, Z.div_mul; lia. Qed.

Lemma gcd_pow2_odd k x c : 0 <= k -> Z.gcd (2 ^ k * x) (2 * c + 1) = Z.gcd x (2 * c + 1).
Proof.
  intros Hk. set (m := 2 * c + 1). assert (Z.coprime (2 ^ k) m) as Hg.
  { apply Z.coprime_pow_l; [done|]. unfold Z.coprime, m. rewrite Z.add_comm, Z.mul_comm, Z.gcd_add_mult_diag_r. done. }
  apply Z.divide_antisym_nonneg; [apply Z.gcd_nonneg..| |]; apply Z.gcd_greatest; try apply Z.gcd_divide_r.
  - apply (Z.gauss _ (2 ^ k)); [apply Z.gcd_divide_l|]. apply Z.divide_1_r_nonneg; [apply Z.gcd_nonneg|].
    unfold Z.coprime in Hg. rewrite <- Hg. apply Z.gcd_greatest; [apply Z.gcd_divide_r|].
    etransitivity; [apply Z.gcd_divide_l|apply Z.gcd_divide_r].
  - apply Z.divide_mul_r, Z.gcd_divide_l.
Qed.

(** One step: the difference of two odd numbers, without its factors of two. *)
Lemma odd_difference x y :
  0 < y < x -> Z.odd x = true -> Z.odd y = true ->
  let a := Z.shiftr (x - y) (trailing_zeros (x - y)) in
  0 < a /\ Z.odd a = true /\ Z.gcd a y = Z.gcd x y /\ Z.log2 a < Z.log2 x.
Proof.
  intros Hxy Hx Hy. destruct (two_adic (x - y) ltac:(lia)) as (k & c & Hk & E). rewrite E.
  rewrite trailing_zeros_two_adic, shiftr_two_adic by done. apply Z.odd_spec in Hx as [u Hu], Hy as [v Hv].
  assert (0 < k) as Hk1.
  { destruct (Z.eq_dec k 0) as [->|]; [|lia]. simpl in E. lia. }
  assert (2 ^ k = 2 * 2 ^ (k - 1)) as Ek by (rewrite <- Z.pow_succ_r by lia; f_equal; lia).
  pose proof (Z.pow_pos_nonneg 2 (k - 1)) as Hp. assert (0 < 2 * c + 1) as Hc by nia. split; [done|].
  split; [by apply Z.odd_spec; exists c|]. split.
  - rewrite Hv in *. rewrite <- (gcd_pow2_odd k (2 * c + 1)) by done. rewrite <- E.
    rewrite Z.gcd_comm, (Z.gcd_comm x). apply Z.gcd_sub_diag_r.
  - assert (2 * (2 * c + 1) <= x) as Hle by nia. apply Z.log2_le_mono in Hle. rewrite Z.log2_double in Hle by done. lia.
Qed.

Lemma gcd_loop_spec fuel x y :
  0 < x -> 0 < y -> Z.odd x = true -> Z.odd y = true -> Z.log2 x + Z.log2 y < Z.of_nat fuel -> gcd_loop fuel x y = Z.gcd x y.
Proof.
  revert x y. induction fuel as [|fuel IH]; intros x y Hx Hy Ox Oy Hf.
  { pose proof (Z.log2_nonneg x). pose proof (Z.log2_nonneg y). lia. }
  cbn [gcd_loop]. destruct (Z.eqb_spec x y) as [->|Hne]; [by rewrite Z.gcd_diag_nonneg by lia|].
  destruct (Z.ltb_spec y x).
  - destruct (odd_difference x y ltac:(lia) Ox Oy) as (H1 & H2 & H3 & H4). rewrite IH; [done..|lia].
  - destruct (odd_difference y x ltac:(lia) Oy Ox) as (H1 & H2 & H3 & H4). rewrite IH; [|done..|lia].
    by rewrite Z.gcd_comm, H3, Z.gcd_comm.
Qed.

(** The greatest common divisor of two numbers in 2-adic form. *)
Lemma gcd_two_adic j c k d :
  0 <= j <= k -> Z.gcd (2 ^ j * (2 * c + 1)) (2 ^ k * (2 * d + 1)) = 2 ^ j * Z.gcd (2 * c + 1) (2 * d + 1).
Proof.
  intros Hjk. replace (2 ^ k) with (2 ^ j * 2 ^ (k - j)) by (rewrite <- Z.pow_add_r by lia; f_equal; lia).
  rewrite <- Z.mul_assoc, Z.gcd_mul_mono_l_nonneg by lia. f_equal. by rewrite Z.gcd_comm, gcd_pow2_odd, Z.gcd_comm by lia.
Qed.

(** [binary_gcd] is the greatest common divisor on all of [i64]: it
    terminates, never overflows on the way, and returns the mathematical value
    unless that is [2^63] (both arguments [i64::MIN]), which wraps; a zero
    argument returns the other one, sign included. *)
Theorem binary_gcd_correct x y :
  - 2 ^ 63 <= x < 2 ^ 63 -> - 2 ^ 63 <= y < 2 ^ 63 ->
  binary_gcd x y = if x =? 0 then y else if y =? 0 then x else wrap_i 64 (Z.gcd x y).
Proof.
  intros Hx Hy. unfold binary_gcd. destruct (Z.eqb_spec x 0) as [|Hx0]; [done|]. destruct (Z.eqb_spec y 0) as [|Hy0]; [done|].
  destruct (two_adic x Hx0) as (j & c & Hj & Ex), (two_adic y Hy0) as (k & d & Hk & Ey).
  rewrite Ex, Ey. rewrite !trailing_zeros_two_adic, !shiftr_two_adic by done.
  assert (forall z i u, 0 <= i -> z = 2 ^ i * (2 * u + 1) -> - 2 ^ 63 <= z < 2 ^ 63 ->
    0 < Z.abs (2 * u + 1) /\ Z.odd (Z.abs (2 * u + 1)) = true /\ Z.log2 (Z.abs (2 * u + 1)) < 64) as Hodd.
  { intros z i u Hi Ez Hz. pose proof (Z.pow_pos_nonneg 2 i). split; [lia|]. split.
    - destruct (Z.abs_eq_or_opp (2 * u + 1)) as [-> | ->]; rewrite ?Z.odd_opp; apply Z.odd_spec; by exists u.
    - apply Z.log2_lt_pow2; [lia|]. assert (Z.abs (2 * u + 1) <= Z.abs z) by (rewrite Ez, Z.abs_mul; nia). lia. }
  destruct (Hodd x j c Hj Ex Hx) as (H1 & H2 & H3), (Hodd y k d Hk Ey Hy) as (H4 & H5 & H6).
  rewrite gcd_loop_spec by (done || lia). rewrite Z.gcd_abs_l, Z.gcd_abs_r. f_equal.
  rewrite Z.shiftl_mul_pow2, Z.mul_comm by lia.
  assert (2 ^ Z.min j k * Z.gcd (2 * c + 1) (2 * d + 1) = Z.gcd x y) as ->.
  { rewrite Ex, Ey. destruct (Z.le_ge_cases j k).
    - rewrite Z.min_l, gcd_two_adic by lia. done.
    - rewrite Z.min_r by lia. rewrite Z.gcd_comm, (Z.gcd_comm (2 ^ j * _)), gcd_two_adic by lia. done. }
  rewrite <- Ex, <- Ey. apply wrap_u_id. split; [apply Z.gcd_nonneg|].
  pose proof (Z.divide_pos_le (Z.gcd x y) (Z.abs x) ltac:(lia) ltac:(apply Z.divide_abs_r, Z.gcd_divide_l)). lia.
Qed.

Lemma binary_gcd_correct_witness :
  binary_gcd (-12) 18 = 6 /\ binary_gcd (- 2 ^ 63) (- 2 ^ 63) = - 2 ^ 63.
Proof.
  split; [refine (eq_trans (binary_gcd_correct (-12) 18 _ _) _)|
    refine (eq_trans (binary_gcd_correct (- 2 ^ 63) (- 2 ^ 63) _ _) _)]; try lia; vm_compute; reflexivity.
Defined.

(** The doc of [Limits::max_iterations] bounds the loop iterations of one
    evaluation; [while] pays after its body, so each entry runs once more. *)
Lemma while_runs_once_unpaid :
  exists e, parse (H := dummy_libm) (str "while(1,st(0,ld(0)+1));ld(0)") no_bindings = Some (Ok e) /\
    fst <$> eval_with (H := dummy_libm) None None None no_clock [] e (Limits 100 101 0) registers_new tt = Some fone.
Proof. eexists. split; [vm_compute; reflexivity|]. vm_compute. reflexivity. Qed.

(** The doc of [Expr::limits] calls the limits of the parse the evaluation's
    defaults too; [eval] takes [Limits::default()] instead. *)
Lemma eval_ignores_own_limits :
  exists e, parse_with (H := dummy_libm) (str "taylor(1,0)") no_bindings (Limits 100 101 0) = Some (Ok e) /\
    eval (H := dummy_libm) no_clock e [] tt = Some fone /\
    fst <$> eval_with (H := dummy_libm) None None None no_clock [] e (expr_limits e) registers_new tt = Some fzero.
Proof. eexists. split; [vm_compute; reflexivity|]. split; vm_compute; reflexivity. Qed.
