(* ===== verification/ExprPrint.v ===== *)
(** * ExprPrint: printing expressions, and parsing them back

    A printer with the fewest parentheses for the grammar of [ExprParse], used
    only to state what the parser means: precedence, left association, the sign
    rules and the resolution of names. [parse_print] shows that the parser of
    [src/crates/core/vaco-expr/src/parse.rs] reads every printed tree back as
    itself. *)

From Stdlib Require Import ZArith Lia Ascii String SpecFloat.
From stdpp Require Import prelude strings.
From S2P Require Import Prelude ExprLex ExprParse ExprEval.

Open Scope Z_scope.

(** ** Decimal digits *)

Fixpoint digits_loop (fuel : nat) (n : Z) (acc : rstr) : rstr :=
  match fuel with
  | O => acc
  | S fuel =>
    let acc := (48 + n mod 10) :: acc in
    if n <? 10 then acc else digits_loop fuel (n / 10) acc
  end.

Definition digits (n : Z) : rstr := digits_loop (S (Z.to_nat n)) n [].

Lemma digits_loop_spec fuel n acc :
  0 <= n < Z.of_nat fuel -> forallb is_ascii_digit acc = true ->
  digits_value 0 (digits_loop fuel n acc) = digits_value n acc /\
  forallb is_ascii_digit (digits_loop fuel n acc) = true /\ digits_loop fuel n acc <> [].
Proof.
  revert n acc. induction fuel as [|fuel IH]; intros n acc Hn Hacc; [lia|]. cbn [digits_loop].
  pose proof (Z.mod_pos_bound n 10 ltac:(lia)) as Hm.
  assert (forallb is_ascii_digit ((48 + n mod 10) :: acc) = true) as Hd.
  { simpl. rewrite Hacc, andb_true_r. unfold is_ascii_digit. apply andb_true_iff. rewrite !Z.leb_le. lia. }
  destruct (Z.ltb_spec n 10).
  - rewrite Z.mod_small in * by lia. split; [|done]. unfold digits_value. simpl. f_equal. lia.
  - assert (0 <= n / 10 < n) by (split; [apply Z.div_pos; lia|apply Z.div_lt; lia]).
    destruct (IH (n / 10) ((48 + n mod 10) :: acc) ltac:(lia) Hd) as (H1 & H2 & H3). split; [|done].
    rewrite H1. unfold digits_value. simpl. f_equal. pose proof (Z.div_mod n 10). lia.
Qed.

Lemma digits_spec n : 0 <= n ->
  digits_value 0 (digits n) = n /\ forallb is_ascii_digit (digits n) = true /\ digits n <> [].
Proof. intros Hn. by apply digits_loop_spec; [lia|]. Qed.

(** ** Printing *)

(** Trees over natural numbers, and the trees over binary64 they denote. *)
Definition smap (sh : shape Z) : shape f64 :=
  match sh with
  | KConst n => KConst (decimal n 0)
  | KVar i => KVar i
  | KNeg => KNeg | KAdd => KAdd | KMul => KMul | KDiv => KDiv | KPow => KPow | KSeq => KSeq
  | KCall f => KCall f
  end.

Fixpoint tmap (t : tree Z) : tree f64 := match t with Node sh ts => Node (smap sh) (map tmap ts) end.

Definition shape_level (sh : shape Z) : nat :=
  match sh with KSeq => 0 | KAdd => 1 | KMul | KDiv => 2 | KNeg => 3 | KPow => 4 | _ => 5 end.
Definition level (t : tree Z) : nat := match t with Node sh _ => shape_level sh end.

Definition plus (sgn : bool) : rstr := if sgn then [43] else [].

Fixpoint commas (xs : list rstr) : rstr :=
  match xs with
  | [] => []
  | [x] => x
  | x :: xs => x ++ 44 :: commas xs
  end.

Section print.
  Context (b : bindings).

Definition func_text (f : func) : rstr :=
  match f with
  | Extern id => match funcs b !! Z.to_nat id with Some q => q.1 | None => [] end
  | _ => default [] (func_name f)
  end.

(** The text of a tree where the grammar expects level [lvl]: 0 for [expr], 1
    [subexpr], 2 [term], 3 [factor], 4 the base of a power chain, 5 [primary].
    [sgn] asks for an explicit sign, as the right operand of an addition. *)
Fixpoint pr (lvl : nat) (sgn : bool) (t : tree Z) : rstr :=
  match t with
  | Node sh ts =>
    let paren := (shape_level sh <? lvl)%nat in
    let sg := if paren then false else sgn in
    let body :=
      match sh, ts with
      | KConst n, _ => plus sg ++ digits n
      | KVar i, _ => plus sg ++ nth i (vars b) []
      | KNeg, [a] => 45 :: pr 4 false a
      | KAdd, [a; c] => pr 1 false a ++ pr 2 true c
      | KMul, [a; c] => pr 2 sg a ++ 42 :: pr 3 false c
      | KDiv, [a; c] => pr 2 sg a ++ 47 :: pr 3 false c
      | KPow, [a; c] =>
        pr 4 sg a ++ 94 :: match c with Node KNeg [d] => 45 :: pr 5 false d | _ => pr 5 false c end
      | KSeq, [a; c] => pr 0 false a ++ 59 :: pr 1 false c
      | KCall f, _ => plus sg ++ func_text f ++ 40 :: commas (map (pr 0 false) ts) ++ [41]
      | _, _ => []
      end in
    if paren then plus sgn ++ 40 :: body ++ [41] else body
  end.

Definition print (t : tree Z) : rstr := pr 0 false t.

(** Names that can be told apart from each other, from numbers and from the
    language's own. *)
Definition bindings_ok : bool :=
  forallb name_ok (vars b) && bool_decide (NoDup (vars b)) &&
  forallb name_ok (map fst (funcs b)) && bool_decide (NoDup (map fst (funcs b))) &&
  forallb (fun q => negb (bool_decide (q ∈ vars b)) && negb (bool_decide (q ∈ map fst (funcs b))))
    (map (fun q => q.1.1.1) BUILTINS) &&
  forallb (fun q => negb (bool_decide (q ∈ vars b)) && negb (bool_decide (q ∈ map fst CONSTANTS))) (map fst (funcs b)) &&
  bool_decide (Z.of_nat (length (vars b)) < 2 ^ 32) && bool_decide (Z.of_nat (length (funcs b)) < 2 ^ 16).

(** Every literal is a natural number. *)
Fixpoint natural (t : tree Z) : Prop :=
  match t with
  | Node sh ts => match sh with KConst n => 0 <= n | _ => True end /\ fold_right and True (map natural ts)
  end.

End print.

Example print_examples :
  let x := Node (KVar 0) [] in let n k := Node (KConst k) [] in
  let show t := print (Bindings [str "x"] []) t in
  show (Node KPow [Node KPow [n 2; n 3]; Node KNeg [n 2]]) = str "2^3^-2" /\
  show (Node KNeg [Node KPow [x; n 2]]) = str "-x^2" /\
  show (Node KPow [Node KNeg [x]; Node KPow [n 2; x]]) = str "(-x)^(2^x)" /\
  show (Node KAdd [n 1; Node KMul [Node KNeg [x]; Node KAdd [n 2; Node KNeg [n 3]]]]) = str "1-x*(2-3)" /\
  show (Node KAdd [n 1; Node KAdd [x; n 2]]) = str "1+(x+2)" /\
  show (Node (KCall Max) [Node KSeq [x; n 1]; Node KDiv [n 1; x]]) = str "max(x;1,1/x)".
Proof. vm_compute. done. Qed.

(** ** Names *)

Lemma ident_not_stop c : is_ident_continue c = true -> stop_char c = false.
Proof. intros Hc. destruct (stop_char c) eqn:E; [|done]. stop_cases E. Qed.

(** Before a stop character a name matches exactly itself. *)
Lemma strmatch_name name q k :
  forallb is_ident_continue name = true -> forallb is_ident_continue q = true -> stops k = true ->
  strmatch (name ++ k) q = bool_decide (name = q).
Proof.
  intros Hn Hq Hk. unfold strmatch. case_bool_decide as E.
  - subst q. replace (strip_str (name ++ k) name) with (Some k) by (symmetry; by apply strip_str_Some).
    destruct k as [|c k]; [done|]. simpl in Hk. apply negb_true_iff. destruct (is_ident_continue c) eqn:Ei; [|done].
    apply ident_not_stop in Ei. congruence.
  - destruct (strip_str (name ++ k) q) as [r|] eqn:Es; [|done]. apply strip_str_Some in Es.
    apply app_eq_app in Es as (u & [[-> Hr]|[-> Hr]]).
    + destruct u as [|c u]; [by rewrite app_nil_r in E|]. rewrite Hr. cbn [app].
      rewrite forallb_app in Hn. apply andb_true_iff in Hn as [_ Hu]. cbn [forallb] in Hu. by apply andb_true_iff in Hu as [-> _].
    + destruct u as [|c u]; [by rewrite app_nil_r in E|]. rewrite forallb_app in Hq. apply andb_true_iff in Hq as [_ Hu].
      cbn [forallb] in Hu. apply andb_true_iff in Hu as [Hc _]. rewrite Hr in Hk. cbn [stops app] in Hk.
      apply ident_not_stop in Hc. congruence.
Qed.

Lemma name_ident name : name_ok name = true -> forallb is_ident_continue name = true.
Proof. unfold name_ok. intros Hn. repeat (apply andb_true_iff in Hn as [Hn ?]). done. Qed.

Lemma paren_not_ident name : forallb is_ident_continue name = true -> 40 ∉ name.
Proof.
  intros Hn Hin. rewrite forallb_forall in Hn. by specialize (Hn 40 (proj1 (list_elem_of_In _ _) Hin)).
Qed.

(** The first match of a predicate that holds at one place only. *)
Lemma list_find_unique {A : Type} (Q : A -> Prop) `{!forall x, Decision (Q x)} l i x :
  l !! i = Some x -> Q x -> (forall j y, l !! j = Some y -> Q y -> j = i) -> list_find Q l = Some (i, x).
Proof.
  intros Hi Hx Hu. apply list_find_Some. split; [done|]. split; [done|]. intros j y Hj Hlt Hy.
  specialize (Hu j y Hj Hy). lia.
Qed.

Lemma find_none_intro {A : Type} (f : A -> bool) l : (forall x, x ∈ l -> f x = false) -> List.find f l = None.
Proof.
  induction l as [|x l IH]; intros Hf; [done|]. simpl. rewrite (Hf x) by (by left). apply IH. intros y Hy. apply Hf. by right.
Qed.

(** The builtin table is its own index: each name finds its row first, each
    function its name, and no name looks like a number or a constant. *)
Definition row_ok (q : rstr * func * Z * Z) : bool :=
  let n := q.1.1.1 in
  bool_decide (List.find (fun r => strmatch n r.1.1.1) BUILTINS = Some q) &&
  bool_decide (List.find (fun r => bool_decide (r.1.1.2 = q.1.1.2)) BUILTINS = Some q) &&
  name_ok n && negb (bool_decide (n ∈ map fst CONSTANTS)).

Lemma builtin_table q : q ∈ BUILTINS -> row_ok q = true.
Proof.
  intros Hq. assert (forallb row_ok BUILTINS = true) as Hall by (vm_compute; reflexivity).
  rewrite forallb_forall in Hall. by apply Hall, list_elem_of_In.
Qed.

Section names.
  Context (b : bindings).
  Hypothesis Hb : bindings_ok b = true.

Lemma bindings_facts :
  (forall q, q ∈ vars b -> name_ok q = true) /\ NoDup (vars b) /\
  (forall q, q ∈ map fst (funcs b) -> name_ok q = true) /\ NoDup (map fst (funcs b)) /\
  (forall q, q ∈ map (fun q => q.1.1.1) BUILTINS -> (q ∉ vars b) /\ q ∉ map fst (funcs b)) /\
  (forall q, q ∈ map fst (funcs b) -> (q ∉ vars b) /\ q ∉ map fst CONSTANTS) /\
  Z.of_nat (length (vars b)) < 2 ^ 32 /\ Z.of_nat (length (funcs b)) < 2 ^ 16.
Proof.
  revert Hb. unfold bindings_ok. intros Hok. repeat (apply andb_true_iff in Hok as [Hok ?]).
  repeat match goal with X : bool_decide _ = true |- _ => apply bool_decide_eq_true in X end.
  repeat match goal with X : forallb _ _ = true |- _ => rewrite forallb_forall in X; setoid_rewrite <- list_elem_of_In in X end.
  split_and!; try done.
  - intros q Hq. match goal with X : forall x, x ∈ map _ BUILTINS -> _ |- _ => specialize (X q Hq); apply andb_true_iff in X as [X1 X2] end.
    by apply negb_true_iff, bool_decide_eq_false in X1, X2.
  - intros q Hq. match goal with X : forall x, x ∈ map fst (funcs b) -> _ && _ = true |- _ => specialize (X q Hq); apply andb_true_iff in X as [X1 X2] end.
    by apply negb_true_iff, bool_decide_eq_false in X1, X2.
Qed.

Lemma var_name i name : vars b !! i = Some name -> name_ok name = true.
Proof. intros Hi. apply (proj1 bindings_facts). by eapply list_elem_of_lookup_2. Qed.

(** A printed variable is found at its own index. *)
Lemma find_var i name k :
  vars b !! i = Some name -> stops k = true ->
  list_find (fun q => strmatch (name ++ k) q = true) (vars b) = Some (i, name).
Proof.
  intros Hi Hk. pose proof bindings_facts as (Hv & Hd & _). pose proof (name_ident _ (var_name _ _ Hi)) as Hn.
  apply list_find_unique; [done|rewrite strmatch_name by done; by apply bool_decide_eq_true|].
  intros j y Hj Hy. rewrite strmatch_name in Hy; [|done|apply name_ident, Hv; by eapply list_elem_of_lookup_2|done].
  apply bool_decide_eq_true in Hy as <-. by eapply NoDup_lookup.
Qed.

(** The text of a function resolves to it, and is no variable or constant. *)
Lemma func_names f lo hi :
  func_arity b f = Some (lo, hi) ->
  let name := func_text b f in
  name_ok name = true /\ resolve b name = Some (f, lo, hi) /\ (name ∉ vars b) /\ name ∉ map fst CONSTANTS.
Proof.
  intros Hf name. pose proof bindings_facts as (_ & _ & He & Hd & Hbi & Hfv & _ & Hlen).
  destruct (match f with Extern _ => false | _ => true end) eqn:Hk.
  - assert (func_text b f = default [] (func_name f)) as Ht by (by destruct f). unfold name. rewrite Ht. clear name Ht.
    assert (func_arity b f = (fun q => (q.1.2, q.2)) <$> List.find (fun q => bool_decide (q.1.1.2 = f)) BUILTINS) as Ha
      by (by destruct f).
    rewrite Ha in Hf. unfold func_name. destruct (List.find _ BUILTINS) as [[[[n g] x] y]|] eqn:E; [|done].
    cbn in Hf. injection Hf as -> ->. apply find_some in E as [Hq Eg]. cbn in Eg. apply bool_decide_eq_true in Eg as ->.
    apply list_elem_of_In in Hq as Hq'. pose proof (builtin_table _ Hq') as Hrow. unfold row_ok in Hrow. cbn [fst snd] in Hrow.
    repeat (apply andb_true_iff in Hrow as [Hrow ?]).
    repeat match goal with X : bool_decide _ = true |- _ => apply bool_decide_eq_true in X end.
    apply (list_elem_of_fmap_2 (fun q => q.1.1.1)) in Hq'. cbn. split; [done|]. split; [|split; [by apply (Hbi _ Hq')|]].
    + unfold resolve. by rewrite Hrow.
    + by match goal with X : negb _ = true |- _ => apply negb_true_iff, bool_decide_eq_false in X end.
  - destruct f; try done. unfold name, func_arity, func_text in *. destruct (Z.ltb_spec id 0); [done|]. 
    destruct (funcs b !! Z.to_nat id) as [[n ar]|] eqn:E; [|done].
    cbn in Hf. injection Hf as <- <-. cbn [fst].
    assert (map fst (funcs b) !! Z.to_nat id = Some n) as E' by (by rewrite list_lookup_fmap, E).
    assert (n ∈ map fst (funcs b)) as Hin by (by eapply list_elem_of_lookup_2).
    pose proof (name_ident _ (He _ Hin)) as Hn. split; [by apply He|]. split; [|by apply Hfv].
    unfold resolve. rewrite find_none_intro.
    + rewrite (list_find_unique _ _ (Z.to_nat id) (n, ar)); [|done| |].
      * cbn. rewrite checked_u_in; [cbn; by rewrite Z2Nat.id by lia|]. apply in_u_spec. apply lookup_lt_Some in E. lia.
      * cbn. rewrite <- (app_nil_r n) at 1. rewrite strmatch_name by done. by apply bool_decide_eq_true.
      * intros j [m ar'] Hj Hm. cbn in Hm. rewrite <- (app_nil_r n) in Hm.
        assert (map fst (funcs b) !! j = Some m) as Hj' by (by rewrite list_lookup_fmap, Hj).
        rewrite strmatch_name in Hm; [|done|apply name_ident, He; by eapply list_elem_of_lookup_2|done].
        apply bool_decide_eq_true in Hm as <-. by eapply NoDup_lookup.
    + intros [[[m g] x] y] Hm. cbn. rewrite <- (app_nil_r n).
      assert (m ∈ map (fun q => q.1.1.1) BUILTINS) as Hm' by (by apply (list_elem_of_fmap_2 (fun q => q.1.1.1) BUILTINS (m, g, x, y))).
      rewrite strmatch_name; [|done| |done].
      * apply bool_decide_eq_false. intros ->. by apply (Hbi _ Hm').
      * pose proof (builtin_table _ Hm) as Hrow. unfold row_ok in Hrow. repeat (apply andb_true_iff in Hrow as [Hrow ?]).
        by apply name_ident.
Qed.

End names.

(** ** The parser on printed text *)

Section roundtrip.
  Context `{Libm} (s : rstr) (b : bindings) (l : limits).
  Hypothesis Hb : bindings_ok b = true.

(** The state after the text of consecutive subtrees has been read. *)
Definition grown (p : parser) (m : nat) (ts : list (tree f64)) : parser :=
  Parser (pos p + m) (pnodes p ++ flats (length (pnodes p)) ts) (depths p ++ dflats ts) (depth p)
    (registers_used p || existsb tregs ts).

Lemma grown_nil p m : grown p m [] = moved m p.
Proof. unfold grown, moved. simpl. by rewrite !app_nil_r, orb_false_r. Qed.

Lemma grown_app p m ts k us : grown (grown p m ts) k us = grown p (m + k) (ts ++ us).
Proof.
  unfold grown. cbn [pos pnodes depths depth registers_used]. f_equal.
  - lia.
  - by rewrite length_app, length_flats, flats_app, app_assoc.
  - unfold dflats. by rewrite map_app, concat_app, app_assoc.
  - by rewrite existsb_app, orb_assoc.
Qed.

Lemma moved_grown p m ts k : moved k (grown p m ts) = grown p (m + k) ts.
Proof. by rewrite <- (grown_nil (grown p m ts)), grown_app, app_nil_r. Qed.

Lemma grown_moved p m ts k : grown (moved k p) m ts = grown p (k + m) ts.
Proof. by rewrite <- grown_nil, grown_app. Qed.

Definition root_of (p : parser) (t : tree f64) : Z := Z.of_nat (length (pnodes p) + tsize t - 1).

Definition sane (p : parser) : Prop := length (depths p) = length (pnodes p).

Lemma sane_grown p m ts : sane p -> sane (grown p m ts).
Proof. unfold sane. cbn. intros Hp. by rewrite !length_app, length_dflats, length_flats, Hp. Qed.

Lemma push_exact p m ts sh o xs q :
  sane p -> o = op_of sh xs -> xs = roots (length (pnodes p)) ts ->
  tdepth (Node sh ts) <= max_node_depth l -> Z.of_nat (length (pnodes p) + tsize (Node sh ts)) <= 2 ^ 32 ->
  q = Parser (pos p + m) (pnodes (grown p m ts)) (depths (grown p m ts)) (depth p)
        (registers_used p || existsb tregs ts || shape_regs sh) ->
  push s l o xs q = Done (root_of p (Node sh ts)) (grown p m [Node sh ts]).
Proof.
  intros Hp -> -> Hd Hsz ->. unfold push. cbn [depths pnodes grown pos depth registers_used].
  assert (map (depth_of (depths p ++ dflats ts)) (roots (length (pnodes p)) ts) = map tdepth ts) as ->.
  { rewrite <- Hp, <- (app_nil_r (dflats ts)). apply depth_of_roots. }
  rewrite (proj2 (Z.ltb_ge _ _)) by exact Hd. rewrite length_app, length_flats. cbn [tsize] in Hsz.
  rewrite checked_u_in by (apply in_u_spec; lia). unfold root_of, grown. cbn [tsize]. do 2 f_equal; [lia|..].
  - cbn [flats]. by rewrite app_nil_r, flatten_node, <- app_assoc.
  - unfold dflats. simpl. by rewrite app_nil_r, <- app_assoc.
  - simpl. by rewrite orb_false_r, <- orb_assoc.
Qed.

(** The usual case: a shape that touches no register. *)
Lemma push_plain p m ts sh o xs :
  sane p -> o = op_of sh xs -> xs = roots (length (pnodes p)) ts -> shape_regs sh = false ->
  tdepth (Node sh ts) <= max_node_depth l -> Z.of_nat (length (pnodes p) + tsize (Node sh ts)) <= 2 ^ 32 ->
  push s l o xs (grown p m ts) = Done (root_of p (Node sh ts)) (grown p m [Node sh ts]).
Proof. intros. eapply push_exact; [done..|]. match goal with X : shape_regs sh = false |- _ => rewrite X end. by rewrite orb_false_r. Qed.

(** ** Text and position *)

Lemma rest_moved p m x k : rest s p = x ++ k -> length x = m -> rest s (moved m p) = k.
Proof.
  unfold rest, moved. cbn. intros E <-. rewrite <- drop_drop, E. apply drop_app_length.
Qed.

Lemma rest_grown p m ts x k : rest s p = x ++ k -> length x = m -> rest s (grown p m ts) = k.
Proof. exact (rest_moved p m x k). Qed.

Lemma peek_rest p c k : rest s p = c :: k -> peek s p = Some c.
Proof. unfold peek. by intros ->. Qed.

Lemma eat_yes {A : Type} c k p (g : bool -> P A) : rest s p = c :: k -> (eat s c ≫= g) p = g true (moved 1 p).
Proof. intros E. unfold mbind, P_bind, eat. rewrite (peek_rest _ _ _ E), Z.eqb_refl. done. Qed.

Lemma eat_no {A : Type} c p (g : bool -> P A) :
  match rest s p with d :: _ => (d =? c) = false | [] => True end -> (eat s c ≫= g) p = g false p.
Proof. unfold mbind, P_bind, eat, peek. destruct (rest s p); simpl; [done|]. by intros ->. Qed.

Lemma bind_done {A B : Type} (m : P A) (g : A -> P B) p a p' : m p = Done a p' -> (m ≫= g) p = g a p'.
Proof. intros E. unfold mbind, P_bind. by rewrite E. Qed.

(** What may follow the text of a level: never an operator it would take. *)
Definition taken (j : nat) : rstr :=
  match j with
  | O => str "+-*/^"
  | 1%nat => str "*/^"
  | 2%nat | 3%nat => str "^"
  | _ => []
  end.
Definition follows (j : nat) (k : rstr) : bool :=
  match k with c :: _ => stop_char c && negb (existsb (Z.eqb c) (taken j)) | [] => true end.

Lemma follows_stops j k : follows j k = true -> stops k = true.
Proof. destruct k; [done|]. simpl. intros Hk. by apply andb_true_iff in Hk as []. Qed.

Lemma follows_up j k : (j <= 5)%nat -> follows j k = true -> follows (S j) k = true.
Proof.
  destruct k as [|c k]; [done|]. intros Hj. simpl. intros Hk. apply andb_true_iff in Hk as [Hc Hk]. rewrite Hc. simpl.
  apply negb_true_iff in Hk. apply negb_true_iff.
  do 6 (destruct j as [|j]; [stop_cases Hc|]). lia.
Qed.

(** The parser's nesting and fuel that a tree at level [j] takes. *)
Definition need (j : nat) (t : tree Z) : Z := tdepth t - (if (level t <? j)%nat then 0 else 1).

Record fits (n : nat) (j : nat) (t : tree Z) (p : parser) : Prop := {
  f_sane : sane p;
  f_depth : tdepth t <= max_node_depth l;
  f_size : Z.of_nat (length (pnodes p) + tsize t) <= 2 ^ 32;
  f_nest : depth p + need j t <= max_parse_depth l;
  f_fuel : need j t <= Z.of_nat n;
}.

Lemma tmap_depth t : tdepth (tmap t) = tdepth t.
Proof.
  induction t as [sh ts IH] using tree_rect'. cbn [tmap tdepth]. f_equal.
  induction IH as [|t ts Ht _ IH]; simpl; [done|]. by rewrite Ht, IH.
Qed.

Lemma tmap_size t : tsize (tmap t) = tsize t.
Proof.
  induction t as [sh ts IH] using tree_rect'. cbn [tmap tsize]. f_equal.
  induction IH as [|t ts Ht _ IH]; simpl; [done|]. by rewrite Ht, IH.
Qed.

Lemma tdepth_pos {A : Type} (t : tree A) : 1 <= tdepth t.
Proof. apply tdepth_size. Qed.

(** ** What is claimed of a tree at each level *)

Abbreviation E n := (parse_expr s b l n).

Definition at_primary (t : tree Z) : Prop := forall n p k,
  rest s p = pr b 5 false t ++ k -> stops k = true -> fits n 5 t p ->
  parse_primary s b l (E n) p = Done (root_of p (tmap t)) (grown p (length (pr b 5 false t)) [tmap t]).

Definition at_chain (t : tree Z) : Prop := forall n p k F,
  rest s p = pr b 4 false t ++ k -> follows 4 k = true -> fits n 4 t p -> (length (rest s p) < F)%nat ->
  exists F', (length k < F')%nat /\
    (parse_primary s b l (E n) ≫= factor_loop s b l (E n) F) p
      = factor_loop s b l (E n) F' (root_of p (tmap t)) (grown p (length (pr b 4 false t)) [tmap t]).

Definition at_factor (t : tree Z) : Prop := forall n p k sgn,
  rest s p = pr b 3 sgn t ++ k -> follows 3 k = true -> fits n 3 t p ->
  parse_factor s b l (E n) p = Done (root_of p (tmap t)) (grown p (length (pr b 3 sgn t)) [tmap t]).

Definition at_term (t : tree Z) : Prop := forall n p k sgn F,
  rest s p = pr b 2 sgn t ++ k -> follows 2 k = true -> fits n 2 t p -> (length (rest s p) < F)%nat ->
  exists F', (length k < F')%nat /\
    (parse_factor s b l (E n) ≫= term_loop s b l (E n) F) p
      = term_loop s b l (E n) F' (root_of p (tmap t)) (grown p (length (pr b 2 sgn t)) [tmap t]).

Definition at_subexpr (t : tree Z) : Prop := forall n p k F,
  rest s p = pr b 1 false t ++ k -> follows 1 k = true -> fits n 1 t p -> (length (rest s p) < F)%nat ->
  exists F', (length k < F')%nat /\
    (parse_term s b l (E n) ≫= subexpr_loop s b l (E n) F) p
      = subexpr_loop s b l (E n) F' (root_of p (tmap t)) (grown p (length (pr b 1 false t)) [tmap t]).

Definition at_expr (t : tree Z) : Prop := forall n p k F,
  rest s p = pr b 0 false t ++ k -> follows 0 k = true -> fits n 0 t p -> (length (rest s p) < F)%nat ->
  exists F', (length k < F')%nat /\
    (parse_subexpr s b l (E n) ≫= expr_loop s b l (E n) F) p
      = expr_loop s b l (E n) F' (root_of p (tmap t)) (grown p (length (pr b 0 false t)) [tmap t]).

(** A parenthesised group or an argument: the recursive call. *)
Definition at_group (t : tree Z) : Prop := forall n p k,
  rest s p = pr b 0 false t ++ k -> match k with c :: _ => c = 41 \/ c = 44 | [] => True end ->
  sane p -> tdepth t <= max_node_depth l -> Z.of_nat (length (pnodes p) + tsize t) <= 2 ^ 32 ->
  depth p + tdepth t <= max_parse_depth l -> tdepth t <= Z.of_nat n ->
  E n p = Done (root_of p (tmap t)) (grown p (length (pr b 0 false t)) [tmap t]).

(** The text and the needs of a tree depend on the level only through the
    parentheses. *)
Lemma pr_paren j sgn t : (level t < j)%nat -> pr b j sgn t = plus sgn ++ 40 :: pr b 0 false t ++ [41].
Proof.
  destruct t as [sh ts]. cbn [pr level]. intros Hj.
  by rewrite (proj2 (Nat.ltb_lt (shape_level sh) j)), (proj2 (Nat.ltb_ge (shape_level sh) 0)) by lia.
Qed.

Lemma pr_bare j sgn t : (j <= level t)%nat -> pr b j sgn t = pr b 0 sgn t.
Proof.
  destruct t as [sh ts]. cbn [pr level]. intros Hj.
  by rewrite (proj2 (Nat.ltb_ge (shape_level sh) j)), (proj2 (Nat.ltb_ge (shape_level sh) 0)) by lia.
Qed.

Lemma pr_up j sgn t : level t <> j -> pr b j sgn t = pr b (S j) sgn t.
Proof.
  intros Hj. destruct (decide (level t < j)%nat); [by rewrite (pr_paren j), (pr_paren (S j)) by lia|].
  by rewrite (pr_bare j), (pr_bare (S j)) by lia.
Qed.

Lemma need_up j t : level t <> j -> need j t = need (S j) t.
Proof. intros Hj. unfold need. destruct (Nat.ltb_spec (level t) j), (Nat.ltb_spec (level t) (S j)); lia. Qed.

Lemma fits_up n j t p : level t <> j -> fits n j t p -> fits n (S j) t p.
Proof. intros Hj [? ? ? ? ?]. rewrite need_up in * by done. by split. Qed.

(** An explicit sign goes in front of a power chain. *)
Lemma pr_sign t : typed b t -> pr b 4 true t = 43 :: pr b 4 false t.
Proof.
  induction t as [sh ts IH] using tree_rect'. intros Ht. destruct (decide (shape_level sh < 4)%nat) as [Hl|Hl].
  { by rewrite (pr_paren 4 true), (pr_paren 4 false) by done. }
  destruct sh; simpl in Hl; try lia; try reflexivity.
  apply typed_node in Ht as [Hk Ht]. simpl in Hk. destruct ts as [|a [|c [|]]]; try done.
  apply Forall_cons in IH as [IH _], Ht as [Ht _]. cbn [pr shape_level Nat.ltb Nat.leb]. by rewrite (IH Ht).
Qed.

(** The leftmost primary of a power chain. *)
Lemma chain_head t : typed b t -> natural t ->
  exists u x, pr b 4 false t = pr b 5 false u ++ x /\ typed b u /\ natural u /\ (x = [] \/ head x = Some 94).
Proof.
  induction t as [sh ts IH] using tree_rect'. intros Ht Hn. destruct (decide (shape_level sh = 4%nat)) as [Hl|Hl].
  - destruct sh; try done. apply typed_node in Ht as [Hk Ht]. simpl in Hk. destruct ts as [|a [|c [|]]]; try done.
    apply Forall_cons in IH as [IH _], Ht as [Ht _]. destruct Hn as [_ [Hn _]].
    destruct (IH Ht Hn) as (u & x & Hx & Hu & Hnu & Hh). cbn [pr shape_level Nat.ltb Nat.leb]. rewrite Hx.
    eexists u, _. rewrite <- app_assoc. split; [done|]. split; [done|]. split; [done|]. right. by destruct Hh as [->|Hh]; [|destruct x].
  - exists (Node sh ts), []. rewrite app_nil_r. split; [by apply pr_up|]. auto.
Qed.

(** The text of a primary is a run of digits, or no number at all. *)
Lemma primary_text u k : typed b u -> natural u -> stops k = true ->
  (exists ds, pr b 5 false u = ds /\ ds <> [] /\ forallb is_ascii_digit ds = true) \/ nonnumeric (pr b 5 false u ++ k) = true.
Proof.
  intros Ht Hn Hk. destruct (decide (level u < 5)%nat) as [Hl|Hl].
  { right. rewrite pr_paren by done. apply paren_nonnumeric. }
  destruct u as [sh ts]. apply typed_node in Ht as [Hs _]. destruct sh; simpl in Hl; try lia.
  - left. destruct Hn as [Hv _]. destruct (digits_spec v Hv) as (_ & Hd & Hne). by exists (digits v).
  - right. destruct Hs as [_ Hi]. destruct (lookup_lt_is_Some_2 _ _ Hi) as [name Ename]. cbn.
    rewrite (nth_lookup_Some _ _ _ _ Ename). apply name_nonnumeric; [by eapply var_name|done].
  - right. destruct Hs as (_ & lo & hi & Hf & _). destruct (func_names b Hb f lo hi Hf) as (Hname & _).
    cbn. rewrite <- app_assoc. by apply name_nonnumeric.
Qed.

Lemma digits_not_dB ds : forallb is_ascii_digit ds = true -> ends_with_dB (45 :: ds) = false.
Proof.
  intros Hd. apply bool_decide_eq_false. intros E. assert (66 ∈ 45 :: ds) as Hin.
  { rewrite <- (take_drop (length (45 :: ds) - 2) (45 :: ds)), E. apply elem_of_app. right. by right; left. }
  apply elem_of_cons in Hin as [|Hin]; [done|]. rewrite forallb_forall in Hd.
  by specialize (Hd 66 (proj1 (list_elem_of_In _ _) Hin)).
Qed.

(** Before a factor's text, the unary parser takes exactly the sign. *)
Definition unsigned (x : rstr) : Prop :=
  match x with c :: _ => is_sign c = false | [] => True end /\ starts_db_literal (45 :: x) = false.

Lemma primary_unsigned u k : typed b u -> natural u -> stops k = true -> unsigned (pr b 5 false u ++ k).
Proof.
  intros Ht Hn Hk. destruct (primary_text u k Ht Hn Hk) as [(ds & -> & Hne & Hd)|Hnum].
  - split.
    + destruct ds as [|d ds]; [done|]. pose proof (first_digit d ds Hd). cbn. unfold is_sign. zbool.
    + unfold starts_db_literal. rewrite Z.eqb_refl. cbn [andb].
      pose proof (scan_number_digits true ds k Hne Hd Hk) as Hs. cbn [sign_text app] in Hs. rewrite Hs. cbn [len length].
      change (take (1 + length ds) (45 :: ds ++ k)) with (45 :: take (length ds) (ds ++ k)).
      rewrite take_app_length. by apply digits_not_dB.
  - split.
    + unfold nonnumeric in Hnum. apply andb_true_iff in Hnum as [Hnum _]. apply andb_true_iff in Hnum as [Hnum _].
      destruct (pr b 5 false u ++ k); [done|]. apply andb_true_iff in Hnum as [_ Hs]. by apply negb_true_iff in Hs.
    + unfold starts_db_literal. rewrite Z.eqb_refl. cbn [andb].
      pose proof (scan_number_nonnumeric true _ Hnum) as Hs. cbn [sign_text app] in Hs. by rewrite Hs.
Qed.

Lemma chain_unsigned t k : typed b t -> natural t -> stops k = true -> unsigned (pr b 4 false t ++ k).
Proof.
  intros Ht Hn Hk. destruct (chain_head t Ht Hn) as (u & x & -> & Hu & Hnu & Hx). rewrite <- app_assoc.
  apply primary_unsigned; [done..|]. destruct Hx as [->|Hx]; [done|]. destruct x; [done|]. cbn in Hx. by injection Hx as ->.
Qed.

(** ** From one level to the next *)

Lemma rest_app_len p x k : rest s p = x ++ k -> length (rest s p) = (length x + length k)%nat.
Proof. intros ->. by rewrite length_app. Qed.

Lemma lift_chain t : level t <> 4%nat -> at_primary t -> at_chain t.
Proof.
  intros Hl Hp n p k F Hr Hk Hf HF. rewrite (pr_up 4) in * by done. exists F. split.
  { rewrite (rest_app_len _ _ _ Hr) in HF. lia. }
  apply bind_done. eapply Hp; [done|by apply follows_stops in Hk|by apply fits_up].
Qed.

(** The signs a factor can carry. *)
Definition sign_ok (sg : rstr) (neg : bool) : Prop := (sg = [] \/ sg = [43]) /\ neg = false \/ sg = [45] /\ neg = true.

Lemma unary_sign n sg neg x p :
  rest s p = sg ++ x -> sign_ok sg neg -> unsigned x ->
  parse_unary s b l (E n) p = (node ← parse_primary s b l (E n); mret (node, neg)) (moved (length sg) p).
Proof.
  intros Hr Hsg [Hx Hdb]. unfold parse_unary, peek. rewrite Hr.
  assert (starts_db_literal (sg ++ x) = false) as ->.
  { destruct Hsg as [[[->| ->] _]|[-> _]]; [|done|done]. destruct x as [|c x]; [done|]. unfold is_sign in Hx.
    apply orb_false_iff in Hx as [_ Hx]. unfold starts_db_literal. cbn [app]. by rewrite Hx. }
  destruct Hsg as [[[->| ->] ->]|[-> ->]]; [|done|done]. cbn [app length].
  assert (moved 0 p = p) as -> by (destruct p; unfold moved; cbn; by rewrite Nat.add_0_r).
  destruct x as [|c x]; [done|]. unfold is_sign in Hx. apply orb_false_iff in Hx as [E1 E2]. cbn [head]. by rewrite E2, E1.
Qed.

Lemma factor_sign n sg neg x p :
  rest s p = sg ++ x -> sign_ok sg neg -> unsigned x ->
  parse_factor s b l (E n) p =
    (e ← (parse_primary s b l (E n) ≫= factor_loop s b l (E n) (loop_fuel s));
     if neg then push s l (ONeg e) [e] else mret e) (moved (length sg) p).
Proof.
  intros Hr Hsg Hx. unfold parse_factor, mbind at 1, P_bind at 1. rewrite (unary_sign n sg neg x p) by done.
  unfold mbind, P_bind. by destruct (parse_primary s b l (E n) (moved (length sg) p)).
Qed.

Lemma loop_fuel_enough p : (length (rest s p) < loop_fuel s)%nat.
Proof. unfold loop_fuel, rest. rewrite length_drop. lia. Qed.

Lemma fits_moved n j t p m : fits n j t p -> fits n j t (moved m p).
Proof. by intros [? ? ? ? ?]. Qed.

(** The loops stop before what follows their level. *)
Lemma follows_not j c k d : follows j (c :: k) = true -> existsb (Z.eqb d) (taken j) = true -> (c =? d) = false.
Proof.
  cbn [follows]. intros Hk Hd. apply andb_true_iff in Hk as [_ Hk]. apply negb_true_iff in Hk.
  destruct (Z.eqb_spec c d) as [->|]; [congruence|done].
Qed.

Lemma factor_loop_stop n F e p k : rest s p = k -> follows 3 k = true -> factor_loop s b l (E n) (S F) e p = Done e p.
Proof.
  intros Hr Hk. cbn [factor_loop]. rewrite eat_no; [done|]. rewrite Hr. destruct k as [|c k]; [done|].
  by apply (follows_not _ _ _ 94 Hk).
Qed.

Lemma term_loop_stop n F e p k : rest s p = k -> follows 1 k = true -> term_loop s b l (E n) (S F) e p = Done e p.
Proof.
  intros Hr Hk. cbn [term_loop]. unfold peek. rewrite Hr. destruct k as [|c k]; [done|]. cbn [head].
  by rewrite (follows_not _ _ _ 42 Hk), (follows_not _ _ _ 47 Hk).
Qed.

Lemma subexpr_loop_stop n F e p k : rest s p = k -> follows 0 k = true -> subexpr_loop s b l (E n) (S F) e p = Done e p.
Proof.
  intros Hr Hk. cbn [subexpr_loop]. unfold at_sign, peek, is_sign. rewrite Hr. destruct k as [|c k]; [done|]. cbn [head].
  by rewrite (follows_not _ _ _ 43 Hk), (follows_not _ _ _ 45 Hk).
Qed.

Lemma lift_factor t : typed b t -> natural t -> level t <> 3%nat -> at_chain t -> at_factor t.
Proof.
  intros Ht Hn Hl Hc n p k sgn Hr Hk Hf. rewrite (pr_up 3) in * by done. apply fits_up in Hf; [|done].
  assert (pr b 4 sgn t = plus sgn ++ pr b 4 false t) as Es by (destruct sgn; [by apply pr_sign|done]).
  rewrite Es in *. rewrite <- app_assoc in Hr. pose proof (follows_stops _ _ Hk) as Hst.
  rewrite (factor_sign n (plus sgn) false _ _ Hr); [|left; split; [destruct sgn; auto|done]|by apply chain_unsigned].
  assert (rest s (moved (length (plus sgn)) p) = pr b 4 false t ++ k) as Hr' by (by eapply rest_moved).
  destruct (Hc n _ k (loop_fuel s) Hr' (follows_up 3 k ltac:(lia) Hk) (fits_moved _ _ _ _ _ Hf) (loop_fuel_enough _)) as (F' & HF & E1).
  destruct F' as [|F']; [lia|]. rewrite (bind_done _ _ _ _ _ (eq_trans E1 (factor_loop_stop _ _ _ _ k ltac:(by eapply rest_grown) Hk))).
  cbn [mret P_ret]. by rewrite grown_moved, <- length_app.
Qed.

Lemma lift_term t : level t <> 2%nat -> at_factor t -> at_term t.
Proof.
  intros Hl Hp n p k sgn F Hr Hk Hf HF. rewrite (pr_up 2) in * by done. exists F. split.
  { rewrite (rest_app_len _ _ _ Hr) in HF. lia. }
  apply bind_done. eapply Hp; [done|apply (follows_up 2 k); [lia|done]|by apply fits_up].
Qed.

Lemma parse_term_stop t n p k sgn :
  at_term t -> rest s p = pr b 2 sgn t ++ k -> follows 1 k = true -> fits n 2 t p ->
  parse_term s b l (E n) p = Done (root_of p (tmap t)) (grown p (length (pr b 2 sgn t)) [tmap t]).
Proof.
  intros Hp Hr Hk Hf.
  destruct (Hp n p k sgn (loop_fuel s) Hr (follows_up 1 k ltac:(lia) Hk) Hf (loop_fuel_enough _)) as (F' & HF & E1).
  unfold parse_term. destruct F' as [|F']; [lia|]. refine (eq_trans E1 (term_loop_stop _ _ _ _ k _ Hk)). by eapply rest_grown.
Qed.

Lemma lift_subexpr t : level t <> 1%nat -> at_term t -> at_subexpr t.
Proof.
  intros Hl Hp n p k F Hr Hk Hf HF. rewrite (pr_up 1) in * by done. exists F. split.
  { rewrite (rest_app_len _ _ _ Hr) in HF. lia. }
  apply bind_done. eapply parse_term_stop; [done|done|done|by apply fits_up].
Qed.

Lemma parse_subexpr_stop t n p k :
  at_subexpr t -> rest s p = pr b 1 false t ++ k -> follows 0 k = true -> fits n 1 t p ->
  parse_subexpr s b l (E n) p = Done (root_of p (tmap t)) (grown p (length (pr b 1 false t)) [tmap t]).
Proof.
  intros Hp Hr Hk Hf.
  destruct (Hp n p k (loop_fuel s) Hr (follows_up 0 k ltac:(lia) Hk) Hf (loop_fuel_enough _)) as (F' & HF & E1).
  unfold parse_subexpr. destruct F' as [|F']; [lia|]. refine (eq_trans E1 (subexpr_loop_stop _ _ _ _ k _ Hk)). by eapply rest_grown.
Qed.

Lemma lift_expr t : level t <> 0%nat -> at_subexpr t -> at_expr t.
Proof.
  intros Hl Hp n p k F Hr Hk Hf HF. rewrite (pr_up 0) in * by done. exists F. split.
  { rewrite (rest_app_len _ _ _ Hr) in HF. lia. }
  apply bind_done. eapply parse_subexpr_stop; [done|done|done|by apply fits_up].
Qed.

Lemma group_of_expr t : at_expr t -> at_group t.
Proof.
  intros Hp n p k Hr Hk Hs Hd Hz Hnest Hfuel. pose proof (tdepth_pos t) as Hpos. destruct n as [|n]; [lia|]. cbn [parse_expr].
  set (q := Parser (pos p) (pnodes p) (depths p) (depth p + 1) (registers_used p)).
  assert (parse_expr_inner s b l (E n) q = Done (root_of p (tmap t)) (grown q (length (pr b 0 false t)) [tmap t])) as E1.
  { unfold parse_expr_inner. cbn [depth q]. rewrite (proj2 (Z.ltb_ge _ _)) by lia.
    assert (follows 0 k = true) as Hk0 by (destruct k as [|c k]; [done|by destruct Hk as [-> | ->]]).
    assert (fits n 0 t q) as Hf by (split; unfold need; simpl; try done; lia).
    destruct (Hp n q k (loop_fuel s) Hr Hk0 Hf (loop_fuel_enough q)) as (F' & HF & E1).
    refine (eq_trans E1 _). destruct F' as [|F']; [lia|]. cbn [expr_loop]. rewrite eat_no; [done|].
    rewrite (rest_grown q _ _ _ _ Hr eq_refl). destruct k as [|c k]; [done|]. by destruct Hk as [-> | ->]. }
  unfold mbind, P_bind. change (nest 1 p) with (Done tt q). cbv beta iota. rewrite E1. unfold nest, grown. cbn. do 2 f_equal. lia.
Qed.

(** A parenthesised tree is a primary. *)
Lemma primary_of_expr t : (level t < 5)%nat -> at_expr t -> at_primary t.
Proof.
  intros Hl He n p k Hr Hk Hf. rewrite pr_paren in * by done. cbn [plus app] in *. rewrite <- app_assoc in Hr. cbn [app] in Hr.
  destruct Hf as [Hs Hd Hz Hn Hfu]. unfold need in *. rewrite (proj2 (Nat.ltb_lt _ _)) in * by done.
  unfold parse_primary. pose proof (scan_number_nonnumeric false _ (paren_nonnumeric (pr b 0 false t ++ 41 :: k))) as Hnum.
  cbn [sign_text app] in Hnum. rewrite Hr, Hnum. rewrite <- Hr in Hnum. rewrite (eat_yes _ _ _ _ Hr). cbv beta iota.
  assert (rest s (moved 1 p) = pr b 0 false t ++ 41 :: k) as Hr1 by (by eapply (rest_moved p 1 [40])).
  rewrite (bind_done _ _ _ _ _ (group_of_expr t He n (moved 1 p) (41 :: k) Hr1 (or_introl eq_refl) Hs Hd Hz ltac:(cbn; lia) ltac:(lia))).
  rewrite (eat_yes _ k) by (by eapply rest_grown). cbn [negb]. rewrite moved_grown, grown_moved.
  unfold mret, P_ret, root_of. cbn [pnodes moved]. do 2 f_equal. rewrite length_cons, length_app. simpl. lia.
Qed.

(** ** Each shape at its own level *)

Definition expt (c : tree Z) : rstr :=
  match c with Node KNeg [d] => 45 :: pr b 5 false d | _ => pr b 5 false c end.

Definition at_exponent (c : tree Z) : Prop := forall n p k,
  rest s p = expt c ++ k -> stops k = true -> fits n 5 c p ->
  exists x neg p1, parse_unary s b l (E n) p = Done (x, neg) p1 /\
    (if neg : bool then push s l (ONeg x) [x] else mret x) p1 = Done (root_of p (tmap c)) (grown p (length (expt c)) [tmap c]).

Lemma need_le j t : need j t <= tdepth t.
Proof. unfold need. destruct (_ <? _)%nat; lia. Qed.

Lemma kid_depth sh us (a : tree Z) vs : tdepth a + 1 <= tdepth (Node sh (us ++ a :: vs)).
Proof. cbn [tdepth]. rewrite map_app, fold_right_app. simpl. induction us; simpl; lia. Qed.

Lemma sizes_tmap ts : map tsize (map tmap ts) = map tsize ts.
Proof. rewrite map_map. apply map_ext. exact tmap_size. Qed.

(** A child read after its elder siblings fits where its parent does. *)
Lemma fits_kid n j j' sh us a vs p m :
  fits n j (Node sh (us ++ a :: vs)) p -> (j <= shape_level sh)%nat -> fits n j' a (grown p m (map tmap us)).
Proof.
  intros [Hs Hd Hz Hn Hf] Hj. pose proof (kid_depth sh us a vs) as Hk. pose proof (need_le j' a) as Hle.
  unfold need in Hn, Hf. cbn [level] in *. rewrite (proj2 (Nat.ltb_ge _ _)) in * by done. cbn [tsize] in Hz.
  rewrite map_app, sum_list_with_app in Hz. cbn in Hz. split.
  - by apply sane_grown.
  - lia.
  - cbn [grown pnodes]. rewrite length_app, length_flats, sizes_tmap. lia.
  - cbn [grown depth]. lia.
  - lia.
Qed.

(** The node itself fits once its children are in place. *)
Lemma fits_depth n j sh ts p : fits n j (Node sh ts) p -> tdepth (Node (smap sh) (map tmap ts)) <= max_node_depth l.
Proof. intros Hf. change (Node (smap sh) (map tmap ts)) with (tmap (Node sh ts)). rewrite tmap_depth. apply Hf. Qed.

Lemma fits_size n j sh ts p : fits n j (Node sh ts) p ->
  Z.of_nat (length (pnodes p) + tsize (Node (smap sh) (map tmap ts))) <= 2 ^ 32.
Proof. intros Hf. change (Node (smap sh) (map tmap ts)) with (tmap (Node sh ts)). rewrite tmap_size. apply Hf. Qed.

Lemma root_grown p m ts t : root_of (grown p m ts) t = Z.of_nat (length (pnodes p) + sum_list (map tsize ts) + tsize t - 1).
Proof. unfold root_of. cbn [grown pnodes]. by rewrite length_app, length_flats. Qed.

Lemma roots_snoc p m ts t :
  roots (length (pnodes p)) (ts ++ [t]) = roots (length (pnodes p)) ts ++ [root_of (grown p m ts) t].
Proof. rewrite roots_app, root_grown. done. Qed.

(** The last step of a node with one or two children: both are read, push. *)
Lemma push_kids n j sh ts p m o xs :
  fits n j (Node sh ts) p -> o = op_of (smap sh) xs -> xs = roots (length (pnodes p)) (map tmap ts) ->
  shape_regs (smap sh) = false ->
  push s l o xs (grown p m (map tmap ts)) = Done (root_of p (tmap (Node sh ts))) (grown p m [tmap (Node sh ts)]).
Proof.
  intros Hf Ho Hx Hr. apply push_plain; [apply Hf|done|done|done|by eapply fits_depth|by eapply fits_size].
Qed.

Lemma exponent_intro c :
  typed b c -> natural c -> at_primary c ->
  match c with Node KNeg [d] => typed b d /\ natural d /\ at_primary d | _ => True end -> at_exponent c.
Proof.
  intros Ht Hn Hc Hd n p k Hr Hk Hf.
  assert (expt c = pr b 5 false c -> exists x neg p1, parse_unary s b l (E n) p = Done (x, neg) p1 /\
    (if neg : bool then push s l (ONeg x) [x] else mret x) p1
      = Done (root_of p (tmap c)) (grown p (length (expt c)) [tmap c])) as Hpos.
  { intros Ee. rewrite Ee in *. eexists _, false, _. split; [|reflexivity].
    rewrite (unary_sign n [] false _ p Hr); [|left; auto|by apply primary_unsigned].
    assert (moved (length (@nil Z)) p = p) as -> by (destruct p; unfold moved; cbn; by rewrite Nat.add_0_r).
    by rewrite (bind_done _ _ _ _ _ (Hc n p k Hr Hk Hf)). }
  destruct c as [[] ts]; try (by apply Hpos). destruct ts as [|d [|]]; try (by apply Hpos). clear Hpos.
  destruct Hd as (Htd & Hnd & Hpd). cbn [expt] in *. set (x := pr b 5 false d) in *.
  assert (rest s (moved 1 p) = x ++ k) as Hr1 by (by eapply (rest_moved p 1 [45])).
  pose proof (f_nest _ _ _ _ Hf) as H1. pose proof (f_fuel _ _ _ _ Hf) as H2. pose proof (kid_depth KNeg [] d []) as H3.
  cbn in H3. unfold need in H1, H2. cbn in H1, H2. pose proof (need_le 5 d) as H4.
  assert (fits n 5 d (moved 1 p)) as Hfd.
  { split; [apply Hf| | |cbn; lia|lia].
    - pose proof (f_depth _ _ _ _ Hf). cbn in *. lia.
    - pose proof (f_size _ _ _ _ Hf). cbn in *. lia. }
  eexists _, true, _. split.
  - rewrite (unary_sign n [45] true (x ++ k) p Hr); [|right; done|by apply primary_unsigned].
    by rewrite (bind_done _ _ _ _ _ (Hpd n _ k Hr1 Hk Hfd)).
  - cbn [length]. rewrite grown_moved. rewrite (push_kids n 5 KNeg [d] p); [done|done|done|done|done].
Qed.

Lemma own_const v ts : typed b (Node (KConst v) ts) -> natural (Node (KConst v) ts) -> at_primary (Node (KConst v) ts).
Proof.
  intros Ht [Hv _] n p k Hr Hk Hf. apply typed_node in Ht as [Hts _]. destruct ts; [|done].
  change (pr b 5 false (Node (KConst v) [])) with (digits v) in *. destruct (digits_spec v Hv) as (E1 & Hd & Hne).
  unfold parse_primary. pose proof (scan_number_digits false _ k Hne Hd Hk) as Hs. cbn [sign_text app length] in Hs.
  rewrite Hr, Hs, E1. cbn [len value negate]. rewrite (bind_done _ _ _ tt (grown p (length (digits v)) [])) by (by rewrite grown_nil).
  by apply (push_kids n 5 (KConst v) []).
Qed.

Lemma own_var i ts : typed b (Node (KVar i) ts) -> at_primary (Node (KVar i) ts).
Proof.
  intros Ht n p k Hr Hk Hf. apply typed_node in Ht as [[Hts Hi] _]. destruct ts; [|done].
  destruct (lookup_lt_is_Some_2 _ _ Hi) as [name En]. pose proof (var_name b Hb _ _ En) as Hname.
  assert (pr b 5 false (Node (KVar i) []) = name) as E1 by (cbn; by apply nth_lookup_Some). rewrite E1 in *.
  unfold parse_primary. pose proof (scan_number_nonnumeric false _ (name_nonnumeric name k Hname Hk)) as Hs. cbn [sign_text app] in Hs.
  rewrite Hr, Hs. rewrite eat_no.
  2:{ rewrite Hr. apply name_ident in Hname. destruct name as [|c name].
      { by apply (var_name b Hb) in En. }
      cbn [forallb] in Hname. apply andb_true_iff in Hname as [Hc _]. cbn [app]. by destruct (Z.eqb_spec c 40) as [->|]. }
  rewrite (find_var b Hb i name k En Hk). rewrite (bind_done _ _ _ tt (grown p (length name) [])) by (by rewrite grown_nil).
  rewrite checked_u_in by (apply in_u_spec; destruct (bindings_facts b Hb) as (_ & _ & _ & _ & _ & _ & Hl & _); lia).
  by apply (push_kids n 5 (KVar i) []).
Qed.

Lemma group_kid n f us t vs p m k :
  at_group t -> fits n 5 (Node (KCall f) (us ++ t :: vs)) p -> rest s (grown p m (map tmap us)) = pr b 0 false t ++ k ->
  match k with c :: _ => c = 41 \/ c = 44 | [] => True end ->
  E n (grown p m (map tmap us)) = Done (root_of (grown p m (map tmap us)) (tmap t))
    (grown p (m + length (pr b 0 false t)) (map tmap (us ++ [t]))).
Proof.
  intros Hg Hf Hr Hk. pose proof (kid_depth (KCall f) us t vs) as Hd.
  destruct (fits_kid n 5 5 (KCall f) us t vs p m Hf (le_n 5)) as [Hs1 Hd1 Hz1 _ _].
  pose proof (f_nest _ _ _ _ Hf) as H1. pose proof (f_fuel _ _ _ _ Hf) as H2. unfold need in H1, H2. cbn [level shape_level] in H1, H2.
  change (5 <? 5)%nat with false in *. cbv iota in H1, H2.
  rewrite (Hg n _ k Hr Hk Hs1 Hd1 Hz1) by (cbn [grown depth]; lia). by rewrite grown_app, map_app.
Qed.

Lemma parse_args_exact n f ts : forall us m p j k,
  Forall at_group ts -> ts <> [] -> (length ts <= m)%nat -> fits n 5 (Node (KCall f) (us ++ ts)) p ->
  rest s (grown p j (map tmap us)) = commas (map (pr b 0 false) ts) ++ 41 :: k ->
  parse_args s (E n) m (roots (length (pnodes p)) (map tmap us)) (grown p j (map tmap us))
    = Done (roots (length (pnodes p)) (map tmap (us ++ ts)))
        (grown p (j + length (commas (map (pr b 0 false) ts))) (map tmap (us ++ ts))).
Proof.
  induction ts as [|t ts IH]; intros us m p j k Hg Hne Hm Hf Hr; [done|].
  apply Forall_cons in Hg as [Ht Hg]. destruct m as [|m]; [simpl in Hm; lia|]. cbn [parse_args].
  assert (roots (length (pnodes p)) (map tmap us) ++ [root_of (grown p j (map tmap us)) (tmap t)]
    = roots (length (pnodes p)) (map tmap (us ++ [t]))) as Hroots by (rewrite map_app; symmetry; apply (roots_snoc p j)).
  destruct ts as [|u ts].
  - cbn [map commas] in *. rewrite (bind_done _ _ _ _ _ (group_kid n f us t [] p j (41 :: k) Ht Hf Hr (or_introl eq_refl))).
    rewrite Hroots. destruct (m =? 0)%nat; [done|]. rewrite eat_no; [done|].
    rewrite map_app, <- (grown_app p j (map tmap us)). by rewrite (rest_grown _ _ _ _ _ Hr eq_refl).
  - cbn [map commas] in *. rewrite <- app_assoc in Hr. cbn [app] in Hr.
    rewrite (bind_done _ _ _ _ _ (group_kid n f us t (u :: ts) p j (44 :: commas (map (pr b 0 false) (u :: ts)) ++ 41 :: k) Ht Hf Hr (or_intror eq_refl))).
    rewrite Hroots. assert ((m =? 0)%nat = false) as -> by (apply Nat.eqb_neq; simpl in Hm; lia).
    assert (rest s (grown p (j + length (pr b 0 false t)) (map tmap (us ++ [t]))) = 44 :: commas (map (pr b 0 false) (u :: ts)) ++ 41 :: k) as Hr1.
    { rewrite map_app, <- (grown_app p j (map tmap us)). by rewrite (rest_grown _ _ _ _ _ Hr eq_refl). }
    rewrite (eat_yes _ _ _ _ Hr1), moved_grown. replace (us ++ t :: u :: ts) with ((us ++ [t]) ++ u :: ts) in * by (by rewrite <- app_assoc).
    rewrite (IH (us ++ [t]) m p _ k Hg); [|done|simpl in *; lia|done|].
    + do 2 f_equal. rewrite !length_app. cbn [length]. lia.
    + rewrite <- moved_grown. by eapply (rest_moved _ 1 [44]).
Qed.

Lemma length_kids_roots n0 (ts : list (tree Z)) : length (roots n0 (map tmap ts)) = length ts.
Proof. by rewrite length_roots, length_map. Qed.

Lemma no_var name k : name_ok name = true -> stops k = true -> name ∉ vars b ->
  list_find (fun q => strmatch (name ++ k) q = true) (vars b) = None.
Proof.
  intros Hn Hk Hv. apply list_find_None, Forall_forall. intros q Hq. rewrite strmatch_name; [|by apply name_ident| |done].
  - intros E1. apply bool_decide_eq_true in E1 as ->. done.
  - apply name_ident. by apply (proj1 (bindings_facts b Hb)).
Qed.

Lemma no_constant name k : name_ok name = true -> stops k = true -> name ∉ map fst CONSTANTS ->
  List.find (fun q => strmatch (name ++ k) q.1) CONSTANTS = None.
Proof.
  intros Hn Hk Hv. apply find_none_intro. intros [q v] Hq. cbn [fst].
  assert (q ∈ map fst CONSTANTS) as Hq' by (by apply (list_elem_of_fmap_2 fst CONSTANTS (q, v))).
  rewrite strmatch_name; [|by apply name_ident| |done].
  - apply bool_decide_eq_false. by intros ->.
  - assert (forallb (forallb is_ident_continue) (map fst CONSTANTS) = true) as Hall by reflexivity.
    rewrite forallb_forall in Hall. by apply Hall, list_elem_of_In.
Qed.

Lemma own_call f ts : typed b (Node (KCall f) ts) -> Forall at_group ts -> at_primary (Node (KCall f) ts).
Proof.
  intros Ht Hg n p k Hr Hk Hf. apply typed_node in Ht as [(Hl & lo & hi & Ha & Hlo) _].
  destruct (func_names b Hb f lo hi Ha) as (Hname & Hres & Hnv & Hnc). set (name := func_text b f) in *.
  set (args := commas (map (pr b 0 false) ts)) in *.
  assert (pr b 5 false (Node (KCall f) ts) = name ++ 40 :: args ++ [41]) as E1 by done. rewrite E1 in *.
  rewrite <- app_assoc in Hr. cbn [app] in Hr. rewrite <- app_assoc in Hr. cbn [app] in Hr.
  set (k' := 40 :: args ++ 41 :: k) in *. assert (stops k' = true) as Hk' by done.
  unfold parse_primary. pose proof (scan_number_nonnumeric false _ (name_nonnumeric name k' Hname Hk')) as Hs. cbn [sign_text app] in Hs.
  rewrite Hr, Hs. pose proof (name_ident _ Hname) as Hid. rewrite eat_no.
  2:{ rewrite Hr. destruct name as [|c name']; [done|]. cbn [forallb] in Hid. apply andb_true_iff in Hid as [Hc _]. cbn [app].
      by destruct (Z.eqb_spec c 40) as [->|]. }
  rewrite no_var, no_constant by done. unfold parse_call. rewrite Hr. unfold k'. rewrite find_char_app by (by apply paren_not_ident).
  rewrite take_app_length. rewrite (bind_done _ _ _ tt (grown p (length name + 1) (map tmap []))) by (cbn [map]; by rewrite grown_nil).
  assert (rest s (grown p (length name + 1) (map tmap [])) = args ++ 41 :: k) as Hr1.
  { eapply (rest_grown p _ _ (name ++ [40])); [by rewrite Hr, <- app_assoc|by rewrite length_app]. }
  rewrite (bind_done _ _ _ _ _ (parse_args_exact n f ts [] 3 p (length name + 1) k Hg ltac:(by destruct ts; simpl in Hl; [lia|]) ltac:(lia) Hf Hr1)).
  cbn [app]. rewrite (eat_yes _ k).
  2:{ eapply (rest_grown p _ _ (name ++ 40 :: args)); [by rewrite Hr, <- app_assoc|].
      rewrite length_app. cbn [length]. fold args. lia. }
  cbn [negb]. rewrite length_kids_roots, checked_u_in by (apply in_u_spec; lia). rewrite Hres.
  assert ((Z.of_nat (length ts) <? lo) = false) as -> by (apply Z.ltb_ge; lia).
  assert ((hi <? Z.of_nat (length ts)) = false) as -> by (apply Z.ltb_ge; lia). cbn [orb].
  unfold mbind at 1, P_bind at 1. unfold use_registers. rewrite moved_grown.
  assert (length name + 1 + length (commas (map (pr b 0 false) ts)) + 1 = length (name ++ (40 :: args ++ [41])%Z))%nat as El.
  { fold args. rewrite length_app, length_cons, length_app. cbn. lia. }
  rewrite El. apply (push_exact p _ (map tmap ts) (KCall f)).
  - apply Hf.
  - cbn [op_of]. by rewrite length_kids_roots.
  - done.
  - exact (fits_depth _ _ _ _ _ Hf).
  - exact (fits_size _ _ _ _ _ Hf).
  - done.
Qed.

Lemma own_neg a sgn' : typed b a -> natural a -> at_chain a -> forall n p k,
  rest s p = pr b 3 sgn' (Node KNeg [a]) ++ k -> follows 3 k = true -> fits n 3 (Node KNeg [a]) p ->
  parse_factor s b l (E n) p = Done (root_of p (tmap (Node KNeg [a]))) (grown p (length (pr b 3 sgn' (Node KNeg [a]))) [tmap (Node KNeg [a])]).
Proof.
  intros Ht Hn Hc n p k Hr Hk Hf. change (pr b 3 sgn' (Node KNeg [a])) with (45 :: pr b 4 false a) in *.
  pose proof (follows_stops _ _ Hk) as Hst.
  rewrite (factor_sign n [45] true (pr b 4 false a ++ k) p Hr); [|by right|by apply chain_unsigned].
  assert (rest s (moved 1 p) = pr b 4 false a ++ k) as Hr1 by (by eapply (rest_moved p 1 [45])).
  pose proof (fits_kid n 3 4 KNeg [] a [] p 1 Hf (le_n 3)) as Hfa. cbn [map] in Hfa. rewrite grown_nil in Hfa.
  cbn [length]. destruct (Hc n _ k (loop_fuel s) Hr1 (follows_up 3 k ltac:(lia) Hk) Hfa (loop_fuel_enough _)) as (F' & HF & E1).
  destruct F' as [|F']; [lia|]. rewrite (bind_done _ _ _ _ _ (eq_trans E1 (factor_loop_stop _ _ _ _ k ltac:(by eapply rest_grown) Hk))).
  rewrite grown_moved. by apply (push_kids n 3 KNeg [a]).
Qed.

(** The root of the second of two children, and their parent's indices. *)
Lemma roots_two p m a c :
  roots (length (pnodes p)) (map tmap [a; c]) = [root_of p (tmap a); root_of (grown p m (map tmap [a])) (tmap c)].
Proof. rewrite root_grown. cbn. unfold root_of. by rewrite Nat.add_0_r. Qed.

Lemma own_pow a c : at_chain a -> at_exponent c -> at_chain (Node KPow [a; c]).
Proof.
  intros Ha Hc n p k F Hr Hk Hf HF. set (xa := pr b 4 false a) in *.
  assert (pr b 4 false (Node KPow [a; c]) = xa ++ 94 :: expt c) as E0 by done. rewrite E0 in *. rewrite <- app_assoc in Hr. cbn [app] in Hr.
  pose proof (fits_kid n 4 4 KPow [] a [c] p 0 Hf (le_n 4)) as Hfa. cbn [map] in Hfa. rewrite grown_nil in Hfa.
  assert (moved 0 p = p) as E1 by (destruct p; unfold moved; cbn; by rewrite Nat.add_0_r). rewrite E1 in Hfa.
  destruct (Ha n p (94 :: expt c ++ k) F Hr eq_refl Hfa HF) as (F1 & HF1 & ->). destruct F1 as [|F1]; [lia|]. exists F1.
  split; [cbn [length] in HF1; rewrite length_app in HF1; lia|]. cbn [factor_loop]. fold xa.
  assert (rest s (grown p (length xa) [tmap a]) = 94 :: expt c ++ k) as Hr1 by (by eapply rest_grown).
  rewrite (eat_yes _ _ _ _ Hr1), moved_grown. cbv beta iota.
  assert (rest s (grown p (length xa + 1) [tmap a]) = expt c ++ k) as Hr2.
  { rewrite <- moved_grown. by eapply (rest_moved _ 1 [94]). }
  pose proof (fits_kid n 4 5 KPow [a] c [] p (length xa + 1) Hf (le_n 4)) as Hfc.
  destruct (Hc n _ k Hr2 (follows_stops _ _ Hk) Hfc) as (x & neg & p1 & U1 & U2).
  rewrite (bind_done _ _ _ _ _ U1). cbv beta iota. rewrite (bind_done _ _ _ _ _ U2). rewrite grown_app.
  change ([tmap a] ++ [tmap c]) with (map tmap [a; c]).
  rewrite (bind_done _ _ _ _ _ (push_kids n 4 KPow [a; c] p _ _ _ Hf eq_refl (eq_sym (roots_two p (length xa + 1) a c)) eq_refl)).
  do 2 f_equal. rewrite length_app. cbn [length]. lia.
Qed.

(** Multiplication and division. *)
Lemma own_term sh code (o : Z -> Z -> op) a c :
  (sh = KMul /\ code = 42 /\ o = OMul \/ sh = KDiv /\ code = 47 /\ o = ODiv) ->
  at_term a -> at_factor c -> at_term (Node sh [a; c]).
Proof.
  intros Hsh Ha Hc n p k sgn F Hr Hk Hf HF. set (xa := pr b 2 sgn a) in *. set (xc := pr b 3 false c) in *.
  assert (pr b 2 sgn (Node sh [a; c]) = xa ++ code :: xc) as E0 by (by destruct Hsh as [(-> & -> & _)|(-> & -> & _)]).
  assert (shape_level sh = 2%nat) as Hl by (by destruct Hsh as [(-> & _)|(-> & _)]).
  rewrite E0 in *. rewrite <- app_assoc in Hr. cbn [app] in Hr.
  pose proof (fits_kid n 2 2 sh [] a [c] p 0 Hf ltac:(lia)) as Hfa. cbn [map] in Hfa. rewrite grown_nil in Hfa.
  assert (moved 0 p = p) as E1 by (destruct p; unfold moved; cbn; by rewrite Nat.add_0_r). rewrite E1 in Hfa.
  assert (follows 2 (code :: xc ++ k) = true) as Hk1 by (by destruct Hsh as [(_ & -> & _)|(_ & -> & _)]).
  destruct (Ha n p _ sgn F Hr Hk1 Hfa HF) as (F1 & HF1 & ->). destruct F1 as [|F1]; [lia|]. exists F1.
  split; [cbn [length] in HF1; rewrite length_app in HF1; lia|]. cbn [term_loop]. fold xa.
  assert (rest s (grown p (length xa) [tmap a]) = code :: xc ++ k) as Hr1 by (by eapply rest_grown).
  rewrite (peek_rest _ _ _ Hr1).
  assert ((if code =? 42 then Some OMul else if code =? 47 then Some ODiv else None) = Some o) as ->
    by (by destruct Hsh as [(_ & -> & ->)|(_ & -> & ->)]).
  rewrite (bind_done _ _ _ tt (grown p (length xa + 1) [tmap a])) by (by rewrite <- moved_grown).
  assert (rest s (grown p (length xa + 1) [tmap a]) = xc ++ k) as Hr2.
  { rewrite <- moved_grown. by eapply (rest_moved _ 1 [code]). }
  pose proof (fits_kid n 2 3 sh [a] c [] p (length xa + 1) Hf ltac:(lia)) as Hfc.
  rewrite (bind_done _ _ _ _ _ (Hc n _ k false Hr2 (follows_up 2 k ltac:(lia) Hk) Hfc)), grown_app.
  change ([tmap a] ++ [tmap c]) with (map tmap [a; c]).
  rewrite (bind_done _ _ _ _ _ (push_kids n 2 sh [a; c] p _ (o (root_of p (tmap a)) (root_of (grown p (length xa + 1) (map tmap [a])) (tmap c)))
    [root_of p (tmap a); root_of (grown p (length xa + 1) (map tmap [a])) (tmap c)] Hf ltac:(by destruct Hsh as [(-> & _ & ->)|(-> & _ & ->)]) (eq_sym (roots_two p (length xa + 1) a c))
    ltac:(by destruct Hsh as [(-> & _)|(-> & _)]))).
  do 2 f_equal. rewrite length_app. cbn [length]. fold xc. lia.
Qed.

Lemma pr_signed_head c : typed b c -> exists d x, pr b 2 true c = d :: x /\ (d = 43 \/ d = 45).
Proof.
  intros Ht. induction c as [sh ts IH] using tree_rect'. destruct (decide (shape_level sh < 2)%nat) as [Hl|Hl].
  { rewrite pr_paren by done. eexists _, _. split; [reflexivity|by left]. }
  apply typed_node in Ht as [Hk Ht]. destruct sh; simpl in Hl; try lia;
    try (eexists _, _; split; [reflexivity|by left]); simpl in Hk.
  - destruct ts as [|a [|]]; try done. eexists _, _. split; [reflexivity|by right].
  - destruct ts as [|a [|c [|]]]; try done. apply Forall_cons in IH as [IH _], Ht as [Ht _].
    destruct (IH Ht) as (d & x & E1 & Hd). cbn [pr shape_level Nat.ltb Nat.leb]. rewrite E1. eexists _, _. by split.
  - destruct ts as [|a [|c [|]]]; try done. apply Forall_cons in IH as [IH _], Ht as [Ht _].
    destruct (IH Ht) as (d & x & E1 & Hd). cbn [pr shape_level Nat.ltb Nat.leb]. rewrite E1. eexists _, _. by split.
  - destruct ts as [|a [|c [|]]]; try done. apply Forall_cons in IH as [_ _], Ht as [Ht _].
    cbn [pr shape_level Nat.ltb Nat.leb]. rewrite pr_sign by done. eexists _, _. split; [reflexivity|by left].
Qed.

Lemma own_add a c : typed b c -> at_subexpr a -> at_term c -> at_subexpr (Node KAdd [a; c]).
Proof.
  intros Htc Ha Hc n p k F Hr Hk Hf HF. set (xa := pr b 1 false a) in *. set (xc := pr b 2 true c) in *.
  assert (pr b 1 false (Node KAdd [a; c]) = xa ++ xc) as E0 by done. rewrite E0 in *. rewrite <- app_assoc in Hr.
  pose proof (fits_kid n 1 1 KAdd [] a [c] p 0 Hf (le_n 1)) as Hfa. cbn [map] in Hfa. rewrite grown_nil in Hfa.
  assert (moved 0 p = p) as E1 by (destruct p; unfold moved; cbn; by rewrite Nat.add_0_r). rewrite E1 in Hfa.
  destruct (pr_signed_head c Htc) as (d & x & Ex & Hd). fold xc in Ex.
  assert (follows 1 (xc ++ k) = true) as Hk1 by (rewrite Ex; by destruct Hd as [-> | ->]).
  destruct (Ha n p _ F Hr Hk1 Hfa HF) as (F1 & HF1 & ->). destruct F1 as [|F1]; [lia|]. exists F1.
  split; [rewrite Ex in HF1; cbn [length app] in HF1; rewrite length_app in HF1; lia|]. cbn [subexpr_loop]. fold xa.
  assert (rest s (grown p (length xa) [tmap a]) = xc ++ k) as Hr1 by (by eapply rest_grown).
  unfold at_sign. rewrite Ex in Hr1. cbn [app] in Hr1. rewrite (peek_rest _ _ _ Hr1).
  assert (is_sign d = true) as -> by (by destruct Hd as [-> | ->]). change (d :: x ++ k) with ((d :: x) ++ k) in Hr1. rewrite <- Ex in Hr1.
  pose proof (fits_kid n 1 2 KAdd [a] c [] p (length xa) Hf (le_n 1)) as Hfc.
  rewrite (bind_done _ _ _ _ _ (parse_term_stop c n _ k true Hc Hr1 Hk Hfc)), grown_app.
  change ([tmap a] ++ [tmap c]) with (map tmap [a; c]).
  rewrite (bind_done _ _ _ _ _ (push_kids n 1 KAdd [a; c] p _ _ _ Hf eq_refl (eq_sym (roots_two p (length xa) a c)) eq_refl)).
  by rewrite length_app.
Qed.

Lemma own_seq a c : at_expr a -> at_subexpr c -> at_expr (Node KSeq [a; c]).
Proof.
  intros Ha Hc n p k F Hr Hk Hf HF. set (xa := pr b 0 false a) in *. set (xc := pr b 1 false c) in *.
  assert (pr b 0 false (Node KSeq [a; c]) = xa ++ 59 :: xc) as E0 by done. rewrite E0 in *. rewrite <- app_assoc in Hr. cbn [app] in Hr.
  pose proof (fits_kid n 0 0 KSeq [] a [c] p 0 Hf (le_n 0)) as Hfa. cbn [map] in Hfa. rewrite grown_nil in Hfa.
  assert (moved 0 p = p) as E1 by (destruct p; unfold moved; cbn; by rewrite Nat.add_0_r). rewrite E1 in Hfa.
  destruct (Ha n p (59 :: xc ++ k) F Hr eq_refl Hfa HF) as (F1 & HF1 & ->). destruct F1 as [|F1]; [lia|]. exists F1.
  split; [cbn [length] in HF1; rewrite length_app in HF1; lia|]. cbn [expr_loop]. fold xa.
  assert (rest s (grown p (length xa) [tmap a]) = 59 :: xc ++ k) as Hr1 by (by eapply rest_grown).
  rewrite (eat_yes _ _ _ _ Hr1), moved_grown. cbv beta iota.
  assert (rest s (grown p (length xa + 1) [tmap a]) = xc ++ k) as Hr2.
  { rewrite <- moved_grown. by eapply (rest_moved _ 1 [59]). }
  pose proof (fits_kid n 0 1 KSeq [a] c [] p (length xa + 1) Hf (le_n 0)) as Hfc.
  rewrite (bind_done _ _ _ _ _ (parse_subexpr_stop c n _ k Hc Hr2 Hk Hfc)), grown_app.
  change ([tmap a] ++ [tmap c]) with (map tmap [a; c]).
  rewrite (bind_done _ _ _ _ _ (push_kids n 0 KSeq [a; c] p _ _ _ Hf eq_refl (eq_sym (roots_two p (length xa + 1) a c)) eq_refl)).
  do 2 f_equal. rewrite length_app. cbn [length]. fold xc. lia.
Qed.

(** ** Every tree *)

Record claims (t : tree Z) : Prop := {
  c_primary : at_primary t; c_chain : at_chain t; c_factor : at_factor t; c_term : at_term t;
  c_subexpr : at_subexpr t; c_expr : at_expr t; c_exponent : at_exponent t;
}.

(** The claim of a tree at the level of its own shape. *)
Definition own (t : tree Z) : Prop :=
  match level t with
  | O => at_expr t
  | 1%nat => at_subexpr t
  | 2%nat => at_term t
  | 3%nat => at_factor t
  | 4%nat => at_chain t
  | _ => at_primary t
  end.

Lemma level_max t : (level t <= 5)%nat.
Proof. destruct t as [[] ts]; cbn; lia. Qed.

Lemma close_claims t :
  typed b t -> natural t -> own t ->
  match t with Node KNeg [d] => typed b d /\ natural d /\ at_primary d | _ => True end -> claims t.
Proof.
  intros Ht Hn Ho Hd. unfold own in Ho. pose proof (level_max t) as Hl.
  assert (at_expr t) as H0.
  { destruct (level t) as [|[|[|[|[|[|]]]]]] eqn:E1; [done|..|lia];
      repeat first [exact Ho|apply lift_expr; [lia|]|apply lift_subexpr; [lia|]|apply lift_term; [lia|]
        |apply lift_factor; [done|done|lia|]|apply lift_chain; [lia|]]. }
  assert (at_primary t) as H5.
  { destruct (decide (level t < 5)%nat); [by apply primary_of_expr|]. by replace (level t) with 5%nat in Ho by lia. }
  assert (at_chain t) as H4 by (destruct (decide (level t = 4%nat)) as [E1|]; [by rewrite E1 in Ho|by apply lift_chain]).
  assert (at_factor t) as H3 by (destruct (decide (level t = 3%nat)) as [E1|]; [by rewrite E1 in Ho|by apply lift_factor]).
  assert (at_term t) as H2 by (destruct (decide (level t = 2%nat)) as [E1|]; [by rewrite E1 in Ho|by apply lift_term]).
  assert (at_subexpr t) as H1 by (destruct (decide (level t = 1%nat)) as [E1|]; [by rewrite E1 in Ho|by apply lift_subexpr]).
  split; try done. by apply exponent_intro.
Qed.

Lemma natural_node sh ts : natural (Node sh ts) -> Forall natural ts.
Proof.
  intros [_ Hn]. enough (fold_right and True (map natural ts) <-> Forall natural ts) as Hi by (by apply Hi).
  clear. induction ts as [|t ts IH]; simpl; [by split; [constructor|]|]. by rewrite Forall_cons, IH.
Qed.

Lemma all_claims t : typed b t -> natural t -> claims t.
Proof.
  induction t as [sh ts IH] using tree_rect'. intros Ht Hn.
  pose proof (proj1 (typed_node _ _ _) Ht) as [Hs Hts]. pose proof (natural_node _ _ Hn) as Hns.
  assert (Forall claims ts) as Hc.
  { clear Ht Hn Hs. induction IH as [|t ts H0 _ IH]; [constructor|]. inversion_clear Hts. inversion_clear Hns. constructor; auto. }
  clear IH. apply close_claims; [done|done| |].
  - unfold own. cbn [level]. assert ((exists f, sh = KCall f) \/ ~ exists f, sh = KCall f) as [[f ->]|Hno]
      by (destruct sh; first [left; by eexists|right; by intros [? ?]]).
    { apply own_call; [done|]. eapply Forall_impl; [exact Hc|]. intros t [? ? ? ? ? ? ?]. by apply group_of_expr. }
    destruct sh; cbn [shape_level]; simpl in Hs;
      try (destruct ts as [|a [|c [|]]]; try done; repeat (apply Forall_cons in Hc as [? Hc]);
           repeat (apply Forall_cons in Hts as [? Hts]); repeat (apply Forall_cons in Hns as [? Hns])).
    all: repeat match goal with X : claims _ |- _ => destruct X end.
    all: try solve [by apply own_const|by apply own_var|by apply own_pow|by apply own_add|by apply own_seq].
    all: try (destruct Hno; by eexists).
    + intros n p k sgn. by apply own_neg.
    + apply (own_term KMul 42 OMul); auto.
    + apply (own_term KDiv 47 ODiv); auto.
  - destruct sh; try done. destruct ts as [|d [|]]; try done. apply Forall_cons in Hc as [[? ? ? ? ? ? ?] _].
    apply Forall_cons in Hts as [? _], Hns as [? _]. done.
Qed.

(** The text is at least as long as the tree is deep. *)
Lemma depth_text t : typed b t -> natural t ->
  (forall j sgn, tdepth t <= Z.of_nat (length (pr b j sgn t))) /\ tdepth t <= Z.of_nat (length (expt t)).
Proof.
  induction t as [sh ts IH] using tree_rect'. intros Ht Hn.
  pose proof (proj1 (typed_node _ _ _) Ht) as [Hs Hts]. pose proof (natural_node _ _ Hn) as Hns.
  assert (Forall (fun t => (forall j sgn, tdepth t <= Z.of_nat (length (pr b j sgn t))) /\ tdepth t <= Z.of_nat (length (expt t))) ts) as Hk.
  { clear Ht Hn Hs. induction IH as [|t ts H0 _ IH]; [constructor|]. inversion_clear Hts. inversion_clear Hns. constructor; auto. }
  clear IH Hts Hns.
  assert (forall sgn, tdepth (Node sh ts) <= Z.of_nat (length (pr b 0 sgn (Node sh ts)))) as H0.
  { intros sgn. destruct sh; simpl in Hs;
      try (lazymatch type of Hs with length _ = _ => idtac end;
           destruct ts as [|a [|c [|]]]; try done; repeat (apply Forall_cons in Hk as [[? ?] Hk]));
      cbn [tdepth pr shape_level Nat.ltb Nat.leb map fold_right]; rewrite ?length_app; cbn [length].
    - destruct Hn as [Hv _]. destruct (digits_spec v Hv) as (_ & _ & Hd). destruct (digits v); [done|]. cbn [length]. lia.
    - destruct Hs as [Hts Hi]. destruct ts; [|done]. destruct (lookup_lt_is_Some_2 _ _ Hi) as [name En].
      pose proof (var_name b Hb _ _ En) as Hname. rewrite (nth_lookup_Some _ _ _ _ En). destruct name; [done|]. cbn [map fold_right length]. lia.
    - pose proof (H0 4%nat false). lia.
    - pose proof (H0 1%nat false). pose proof (H2 2%nat true). pose proof (tdepth_pos a). pose proof (tdepth_pos c). lia.
    - pose proof (H0 2%nat sgn). pose proof (H2 3%nat false). lia.
    - pose proof (H0 2%nat sgn). pose proof (H2 3%nat false). lia.
    - pose proof (H0 4%nat sgn). fold (expt c). lia.
    - pose proof (H0 0%nat false). pose proof (H2 1%nat false). lia.
    - assert (fold_right Z.max 0 (map tdepth ts) <= Z.of_nat (length (commas (map (pr b 0 false) ts)))) as Hm.
      { clear Hs Ht Hn. induction Hk as [|t ts [Ht _] Hk IH]; [done|]. pose proof (Ht 0%nat false) as H1.
        destruct ts as [|u ts]; cbn [map commas fold_right] in *; [lia|]. rewrite length_app. cbn [length]. lia. }
      rewrite length_app. lia. }
  assert (forall j sgn, tdepth (Node sh ts) <= Z.of_nat (length (pr b j sgn (Node sh ts)))) as Hall.
  { intros j sgn. destruct (decide (level (Node sh ts) < j)%nat) as [Hj|Hj].
    - rewrite pr_paren by done. pose proof (H0 false) as H1. rewrite length_app. cbn [length]. rewrite length_app. lia.
    - rewrite pr_bare by lia. apply H0. }
  split; [done|]. destruct sh; try apply Hall. destruct ts as [|d [|]]; try done.
  apply Forall_cons in Hk as [[Hd _] _]. pose proof (Hd 5%nat false). cbn [expt length tdepth map fold_right]. lia.
Qed.

Lemma typed_tmap t : typed b t -> typed b (tmap t).
Proof.
  induction t as [sh ts IH] using tree_rect'. intros Ht. apply typed_node in Ht as [Hs Hts].
  change (tmap (Node sh ts)) with (Node (smap sh) (map tmap ts)). apply typed_node. rewrite length_map. split; [by destruct sh|].
  apply Forall_map. clear Hs. induction IH as [|t ts H0 _ IH]; [constructor|]. inversion_clear Hts. constructor; auto.
Qed.

End roundtrip.

(** C15. Printing and parsing are inverse, and the parsed expression means what
    the tree means. Whatever tree over the bound names is printed with the
    grammar's precedences and fewest parentheses, and wherever whitespace is then
    inserted, the parser returns exactly that tree - products before sums,
    operators associating to the left, a sign outside the power it precedes but
    inside an exponent - and evaluating the result computes the tree's value. *)
Theorem parse_print `{Libm} {W : Type} b l t src print funcs now (unix_nanos : W -> option Z * W) vars :
  bindings_ok b = true -> typed b t -> natural t -> strip_whitespace src = ExprPrint.print b t ->
  tdepth t <= max_node_depth l -> tdepth t <= max_parse_depth l -> Z.of_nat (tsize t) <= 2 ^ 32 ->
  let e := Expr (flatten 0 (tmap t)) (Z.of_nat (tsize t - 1)) (length (ExprParse.vars b)) (tregs (tmap t)) l in
  parse_with src b l = Some (Ok e) /\
  forall ctx r w, eval_with print funcs now unix_nanos vars e ctx r w
    = denote print funcs now unix_nanos vars (tmap t) (State r (max_iterations ctx) w).
Proof.
  intros Hb Ht Hn Hsrc Hd Hp Hz e. split.
  - unfold parse_with. rewrite Hsrc. set (x := ExprPrint.print b t).
    assert (rest x parser_new = pr b 0 false t ++ []) as Hr by (unfold rest; cbn; by rewrite app_nil_r).
    pose proof (group_of_expr x b l t (c_expr _ _ _ _ (all_claims x b l Hb t Ht Hn)) (S (S (length x))) parser_new [] Hr I) as Hg.
    destruct (depth_text b Hb t Ht Hn) as [Hlen _]. specialize (Hlen 0%nat false). fold (ExprPrint.print b t) in Hlen. fold x in Hlen.
    rewrite Hg; [|done|done|exact Hz|cbn; lia|lia]. cbn [pos grown pnodes registers_used depths parser_new].
    fold (ExprPrint.print b t). fold x. rewrite Nat.add_0_l, Nat.eqb_refl. cbn [negb]. unfold e, root_of.
    cbn [pnodes parser_new length app flats existsb]. by rewrite Nat.add_0_l, tmap_size, app_nil_r, orb_false_r.
  - intros ctx r w. apply (eval_denotes _ _ _ _ _ b); [by apply typed_tmap|done|]. cbn. by rewrite tmap_size.
Qed.

Lemma parse_print_witness :
  let t := Node KAdd [Node (KConst 1) []; Node KMul [Node KNeg [Node KPow [Node (KVar 0) []; Node (KConst 2) []]]; Node (KCall Max) [Node (KVar 1) []; Node (KConst 3) []]]] in
  let b := Bindings [str "x"; str "y"] [] in
  ExprPrint.print b t = str "1-x^2*max(y,3)" /\
  exists e, parse_with (H := dummy_libm) (str "1 - x^2 * max(y, 3)") b limits_default = Some (Ok e) /\ nodes e = flatten 0 (tmap t).
Proof.
  intros t b. split; [vm_compute; reflexivity|]. eexists. split; [|].
  - refine (proj1 (parse_print (H := dummy_libm) b limits_default t (str "1 - x^2 * max(y, 3)") None None None no_clock [] _ _ _ _ _ _ _)).
    + vm_compute. reflexivity.
    + vm_compute. repeat split; try lia. exists 2, 2. repeat split; lia || done.
    + vm_compute. repeat split; discriminate.
    + vm_compute. reflexivity.
    + vm_compute. discriminate.
    + vm_compute. discriminate.
    + vm_compute. discriminate.
  - reflexivity.
Defined.
