(* ===== verification/Cabac.v ===== *)
(** * Cabac: context-adaptive binary arithmetic coding

    [src/crates/signal/vaco-codec-cabac/src]: the tables of [tables.rs], the
    contexts of [context.rs], the decoding engine of [decode.rs] over any
    [BitSource] and the encoding engine of [encode.rs]. A [u32] register is a [Z]
    with its wrap written out; the engine's invariant shows that none wraps. *)

From Stdlib Require Import ZArith Lia.
From stdpp Require Import prelude.
From S2P Require Import Prelude Bits Source Reader.

(** ** Tables *)

Definition RANGE_TAB_LPS : list (list Z) :=
  [[128; 176; 208; 240]; [128; 167; 197; 227]; [128; 158; 187; 216]; [123; 150; 178; 205];
   [116; 142; 169; 195]; [111; 135; 160; 185]; [105; 128; 152; 175]; [100; 122; 144; 166];
   [95; 116; 137; 158]; [90; 110; 130; 150]; [85; 104; 123; 142]; [81; 99; 117; 135];
   [77; 94; 111; 128]; [73; 89; 105; 122]; [69; 85; 100; 116]; [66; 80; 95; 110];
   [62; 76; 90; 104]; [59; 72; 86; 99]; [56; 69; 81; 94]; [53; 65; 77; 89];
   [51; 62; 73; 85]; [48; 59; 69; 80]; [46; 56; 66; 76]; [43; 53; 63; 72];
   [41; 50; 59; 69]; [39; 48; 56; 65]; [37; 45; 54; 62]; [35; 43; 51; 59];
   [33; 41; 48; 56]; [32; 39; 46; 53]; [30; 37; 43; 50]; [29; 35; 41; 48];
   [27; 33; 39; 45]; [26; 31; 37; 43]; [24; 30; 35; 41]; [23; 28; 33; 39];
   [22; 27; 32; 37]; [21; 26; 30; 35]; [20; 24; 29; 33]; [19; 23; 27; 31];
   [18; 22; 26; 30]; [17; 21; 25; 28]; [16; 20; 23; 27]; [15; 19; 22; 25];
   [14; 18; 21; 24]; [14; 17; 20; 23]; [13; 16; 19; 22]; [12; 15; 18; 21];
   [12; 14; 17; 20]; [11; 14; 16; 19]; [11; 13; 15; 18]; [10; 12; 15; 17];
   [10; 12; 14; 16]; [9; 11; 13; 15]; [9; 11; 12; 14]; [8; 10; 12; 14];
   [8; 9; 11; 13]; [7; 9; 11; 12]; [7; 9; 10; 12]; [7; 8; 10; 11];
   [6; 8; 9; 11]; [6; 7; 9; 10]; [6; 7; 8; 9]; [2; 2; 2; 2]].

Definition TRANS_IDX_LPS : list Z :=
  [0; 0; 1; 2; 2; 4; 4; 5; 6; 7; 8; 9; 9; 11; 11; 12; 13; 13; 15; 15; 16; 16; 18; 18;
   19; 19; 21; 21; 22; 22; 23; 24; 24; 25; 26; 26; 27; 27; 28; 29; 29; 30; 30; 30; 31; 32; 32; 33;
   33; 33; 34; 34; 35; 35; 35; 36; 36; 36; 37; 37; 37; 38; 38; 63].

Definition TRANS_IDX_MPS : list Z :=
  [1; 2; 3; 4; 5; 6; 7; 8; 9; 10; 11; 12; 13; 14; 15; 16; 17; 18; 19; 20; 21; 22; 23; 24;
   25; 26; 27; 28; 29; 30; 31; 32; 33; 34; 35; 36; 37; 38; 39; 40; 41; 42; 43; 44; 45; 46; 47; 48;
   49; 50; 51; 52; 53; 54; 55; 56; 57; 58; 59; 60; 61; 62; 62; 63].

Definition STATE_COUNT : Z := 128.

(** [derive::trans]: entry [i] of the low half follows the more probable symbol,
    of the high half the less probable one. *)
Definition trans_entry (i : Z) : Z * Z :=
  let s := Z.land i (STATE_COUNT - 1) in
  let p := Z.shiftr s 1 in
  let mps := Z.land s 1 in
  let new_mps := if p =? 0 then 1 - mps else mps in
  (Z.lor (Z.shiftl (nth (Z.to_nat p) TRANS_IDX_MPS 0) 1) mps,
   Z.lor (Z.shiftl (nth (Z.to_nat p) TRANS_IDX_LPS 0) 1) new_mps).

Definition TRANS : list Z :=
  Eval vm_compute in
    let t := map (fun i => trans_entry (Z.of_nat i)) (seq 0 256) in map fst t ++ map snd t.

Definition LPS_RANGE : list Z :=
  Eval vm_compute in concat (map (fun i => nth (Nat.land i 63) RANGE_TAB_LPS []) (seq 0 128)).

(** ** Contexts *)

(** A context is its packed byte, [pStateIdx] over [valMPS]. *)
Definition UNINITIALISED : Z := 0.
Definition TERMINATE : Z := Z.shiftl 63 1.

Definition new (state_idx : Z) (mps : bool) : Z :=
  let p := if 63 <? state_idx then 63 else state_idx in
  Z.lor (Z.shiftl p 1) (Z.b2z mps).

Definition state_idx (ctx : Z) : Z := Z.shiftr ctx 1.
Definition mps (ctx : Z) : bool := Z.land ctx 1 =? 1.
Definition packed (ctx : Z) : Z := ctx.
Definition from_packed (byte : Z) : Z := Z.land byte 127.

Definition clip3_i32 (lo hi x : Z) : Z := if x <? lo then lo else if hi <? x then hi else x.

Definition init_h264 (m n slice_qp : Z) : Z :=
  let qp := clip3_i32 0 51 slice_qp in
  let pre := clip3_i32 1 126 (Z.shiftr (m * qp) 4 + n) in
  if pre <=? 63 then Z.shiftl (63 - pre) 1 else Z.lor (Z.shiftl (pre - 64) 1) 1.

Definition init_hevc (init_value slice_qp : Z) : Z :=
  let slope_idx := Z.shiftr init_value 4 in
  let offset_idx := Z.land init_value 15 in
  init_h264 (slope_idx * 5 - 45) (Z.shiftl offset_idx 3 - 16) slice_qp.

(** The contexts written and how many; the rest of [dst] keeps its values. *)
Fixpoint init_contexts (dst : list Z) (inits : list (Z * Z)) (slice_qp : Z) : list Z * Z :=
  match dst, inits with
  | _ :: dst, (m, n) :: inits =>
    let '(dst, count) := init_contexts dst inits slice_qp in (init_h264 m n slice_qp :: dst, count + 1)
  | _, _ => (dst, 0)
  end.

Fixpoint init_contexts_hevc (dst init_values : list Z) (slice_qp : Z) : list Z * Z :=
  match dst, init_values with
  | _ :: dst, iv :: init_values =>
    let '(dst, count) := init_contexts_hevc dst init_values slice_qp in (init_hevc iv slice_qp :: dst, count + 1)
  | _, _ => (dst, 0)
  end.

Definition is_terminal_state (state_idx : Z) : bool := state_idx =? 63.

(** [TRANS.get(i)] and [LPS_RANGE.get(i)] with [unwrap_or_default]. *)
Definition table (t : list Z) (i : Z) : Z := default 0 (t !! Z.to_nat i).

(** ** The decoding engine *)

Definition INITIAL_RANGE : Z := 510.
Definition OFFSET_BITS : Z := 9.
Definition MAX_EGK_PREFIX : Z := 32.

Section decoder.
Context {R : Type} `{BitSource R}.

Record decoder : Type := Decoder {
  range : Z;
  offset : Z;
  reader : R;
  malformed_flag : bool;
  terminated : bool;
}.

(** The reader stands at the first byte: [from_reader] after its [align]. *)
Definition from_aligned (r : R) : decoder :=
  let '(offset, r) := src_get r OFFSET_BITS in
  let malformed := INITIAL_RANGE <=? offset in
  Decoder INITIAL_RANGE (if malformed then INITIAL_RANGE - 1 else offset) r malformed false.

Definition malformed (d : decoder) : bool := malformed_flag d || src_over (reader d).

(** The loop of [renorm] doubles a range of at least 1, so eight rounds are
    enough. *)
Fixpoint renorm_loop (fuel : nat) (d : decoder) : decoder :=
  match fuel with
  | O => d
  | S fuel =>
    if range d <? 256 then
      let '(bit, r) := src_get (reader d) 1 in
      renorm_loop fuel (Decoder (wrap_u 32 (Z.shiftl (range d) 1)) (Z.lor (wrap_u 32 (Z.shiftl (offset d) 1)) bit)
                          r (malformed_flag d) (terminated d))
    else d
  end.

Definition renorm (d : decoder) : decoder := renorm_loop 8 d.

Definition decode_decision (ctx : Z) (d : decoder) : Z * Z * decoder :=
  let q := Z.land (Z.shiftr (range d) 6) 3 in
  let lps_range := table LPS_RANGE (Z.shiftr ctx 1 * 4 + q) in
  let range' := wrap_u 32 (range d - lps_range) in
  let mps := Z.land ctx 1 in
  if range' <=? offset d then
    (1 - mps, table TRANS (256 + ctx),
     renorm (Decoder lps_range (offset d - range') (reader d) (malformed_flag d) (terminated d)))
  else
    (mps, table TRANS ctx, renorm (Decoder range' (offset d) (reader d) (malformed_flag d) (terminated d))).

Definition decode_bypass (d : decoder) : Z * decoder :=
  let '(bit, r) := src_get (reader d) 1 in
  let offset := Z.lor (wrap_u 32 (Z.shiftl (offset d) 1)) bit in
  let bin := Z.b2z (range d <=? offset) in
  (bin, Decoder (range d) (wrap_u 32 (offset - Z.land (range d) (wrap_u 32 (0 - bin)))) r
          (malformed_flag d) (terminated d)).

Fixpoint bypass_loop (n : nat) (value : Z) (d : decoder) : Z * decoder :=
  match n with
  | O => (value, d)
  | S n =>
    let '(bin, d) := decode_bypass d in
    bypass_loop n (Z.lor (wrap_u 32 (Z.shiftl value 1)) bin) d
  end.

Definition decode_bypass_bits (n : Z) (d : decoder) : Z * decoder :=
  bypass_loop (Z.to_nat (Z.min n 32)) 0 d.

Definition decode_terminate (d : decoder) : Z * decoder :=
  let reduced := wrap_u 32 (range d - 2) in
  if reduced <=? offset d then
    (1, Decoder (range d) (offset d) (reader d) (malformed_flag d) true)
  else (0, renorm (Decoder reduced (offset d) (reader d) (malformed_flag d) (terminated d))).

(** The loop of [decode_tu] runs at most [c_max] rounds. *)
Fixpoint tu_loop (fuel : nat) (n : Z) (ctx : Z) (d : decoder) : Z * Z * decoder :=
  match fuel with
  | O => (n, ctx, d)
  | S fuel =>
    let '(bin, ctx, d) := decode_decision ctx d in
    if bin =? 0 then (n, ctx, d) else tu_loop fuel (n + 1) ctx d
  end.

Definition decode_tu (ctx c_max : Z) (d : decoder) : Z * Z * decoder :=
  tu_loop (Z.to_nat c_max) 0 ctx d.

(** [1u32.checked_shl(k)]. *)
Definition checked_shl (k : Z) : option Z := if k <? 32 then Some (Z.shiftl 1 k) else None.

(** [run] reaches its ceiling within [MAX_EGK_PREFIX] rounds. *)
Fixpoint egk_loop (fuel : nat) (value k run : Z) (d : decoder) : Z * decoder :=
  match fuel with
  | O => (value, d)
  | S fuel =>
    let '(bin, d) := decode_bypass d in
    if bin =? 1 then
      let value := sat_u 32 (value + default 0 (checked_shl k)) in
      let k := k + 1 in
      let run := run + 1 in
      if (MAX_EGK_PREFIX <=? run) || (31 <? k) then
        (value, Decoder (range d) (offset d) (reader d) true (terminated d))
      else egk_loop fuel value k run d
    else let '(rest, d) := decode_bypass_bits k d in (sat_u 32 (value + rest), d)
  end.

Definition decode_bypass_egk (k : Z) (d : decoder) : Z * decoder :=
  egk_loop (Z.to_nat MAX_EGK_PREFIX) 0 (Z.min k 31) 0 d.

Definition decode_uegk (ctx u_coff k : Z) (signed_val_flag : bool) (d : decoder) : Z * Z * decoder :=
  let '(prefix, ctx, d) := decode_tu ctx u_coff d in
  let '(value, d) :=
    if u_coff <=? prefix then
      let '(suffix, d) := decode_bypass_egk k d in (sat_u 32 (prefix + suffix), d)
    else (prefix, d) in
  let magnitude := Z.min value (2 ^ 31 - 1) in
  if signed_val_flag && negb (magnitude =? 0) then
    let '(bin, d) := decode_bypass d in
    (if bin =? 1 then - magnitude else magnitude, ctx, d)
  else (magnitude, ctx, d).

End decoder.
Arguments decoder _ : clear implicits.

(** Over the cached reader: alignment first, then the initial offset. *)
Definition from_reader (r : BitReader.reader) : decoder BitReader.reader :=
  from_aligned (H := BitReader.reader_source) (BitReader.align r).

Definition decoder_new (data : list Z) : decoder BitReader.reader := from_reader (BitReader.new data).

Definition decoder_new_padded (p : Padded.padded) : decoder BitReader.reader := from_reader (BitReader.new_padded p).

(** ** The encoding engine *)

Definition DEFAULT_MAX_BYTES : Z := Z.shiftl 16 20.

Record encoder : Type := Encoder {
  low : Z;
  erange : Z;
  outstanding : Z;
  first_bit : bool;
  out : list Z;
  partial : Z;
  bit_count : Z;
  max_bytes : Z;
  overflowed : bool;
}.

Definition with_limit (max_bytes : Z) : encoder :=
  Encoder 0 INITIAL_RANGE 0 true [] 0 0 max_bytes false.

Definition encoder_new : encoder := with_limit DEFAULT_MAX_BYTES.

Definition bit_len (e : encoder) : Z := sat_u 64 (sat_u 64 (zlen (out e) * 8) + bit_count e).

Definition set_low (e : encoder) (low : Z) : encoder :=
  Encoder low (erange e) (outstanding e) (first_bit e) (out e) (partial e) (bit_count e) (max_bytes e) (overflowed e).

Definition set_range (e : encoder) (range : Z) : encoder :=
  Encoder (low e) range (outstanding e) (first_bit e) (out e) (partial e) (bit_count e) (max_bytes e) (overflowed e).

Definition set_outstanding (e : encoder) (n : Z) : encoder :=
  Encoder (low e) (erange e) n (first_bit e) (out e) (partial e) (bit_count e) (max_bytes e) (overflowed e).

Definition write_bit (b : Z) (e : encoder) : encoder :=
  if max_bytes e <=? zlen (out e) then
    Encoder (low e) (erange e) (outstanding e) (first_bit e) (out e) (partial e) (bit_count e) (max_bytes e) true
  else
    let partial := Z.lor (wrap_u 8 (Z.shiftl (partial e) 1)) (Z.land b 1) in
    let bit_count := bit_count e + 1 in
    if bit_count =? 8 then
      Encoder (low e) (erange e) (outstanding e) (first_bit e) (out e ++ [partial]) 0 0 (max_bytes e) (overflowed e)
    else
      Encoder (low e) (erange e) (outstanding e) (first_bit e) (out e) partial bit_count (max_bytes e) (overflowed e).

(** The loop counts [outstanding] down. *)
Fixpoint outstanding_loop (fuel : nat) (b : Z) (e : encoder) : encoder :=
  match fuel with
  | O => e
  | S fuel =>
    let e := write_bit (1 - Z.land b 1) e in
    let e := set_outstanding e (outstanding e - 1) in
    if overflowed e then set_outstanding e 0 else outstanding_loop fuel b e
  end.

Definition put_bit (b : Z) (e : encoder) : encoder :=
  let e :=
    if first_bit e then
      Encoder (low e) (erange e) (outstanding e) false (out e) (partial e) (bit_count e) (max_bytes e) (overflowed e)
    else write_bit b e in
  outstanding_loop (Z.to_nat (outstanding e)) b e.

Fixpoint erenorm_loop (fuel : nat) (e : encoder) : encoder :=
  match fuel with
  | O => e
  | S fuel =>
    if erange e <? 256 then
      let e :=
        if low e <? 256 then put_bit 0 e
        else if 512 <=? low e then put_bit 1 (set_low e (low e - 512))
        else set_outstanding (set_low e (low e - 256)) (sat_u 64 (outstanding e + 1)) in
      let e := set_range e (wrap_u 32 (Z.shiftl (erange e) 1)) in
      erenorm_loop fuel (set_low e (wrap_u 32 (Z.shiftl (low e) 1)))
    else e
  end.

Definition erenorm (e : encoder) : encoder := erenorm_loop 8 e.

Definition encode_decision (ctx bin : Z) (e : encoder) : Z * encoder :=
  let q := Z.land (Z.shiftr (erange e) 6) 3 in
  let lps_range := table LPS_RANGE (Z.shiftr ctx 1 * 4 + q) in
  let e := set_range e (wrap_u 32 (erange e - lps_range)) in
  let mps := Z.land ctx 1 in
  let is_lps := Z.b2z (negb (Z.land bin 1 =? mps)) in
  let e :=
    if is_lps =? 1 then set_range (set_low e (wrap_u 32 (low e + erange e))) lps_range else e in
  (table TRANS (Z.lor (Z.shiftl is_lps 8) ctx), erenorm e).

Definition encode_bypass (bin : Z) (e : encoder) : encoder :=
  let e := set_low e (wrap_u 32 (Z.shiftl (low e) 1)) in
  let e := if negb (Z.land bin 1 =? 0) then set_low e (wrap_u 32 (low e + erange e)) else e in
  if 1024 <=? low e then let e := put_bit 1 e in set_low e (low e - 1024)
  else if low e <? 512 then put_bit 0 e
  else set_outstanding (set_low e (low e - 512)) (sat_u 64 (outstanding e + 1)).

(** The bits [n - 1] down to [0] of [value]. *)
Fixpoint encode_bits_loop (n : nat) (value : Z) (e : encoder) : encoder :=
  match n with
  | O => e
  | S n => encode_bits_loop n value (encode_bypass (Z.land (Z.shiftr value (Z.of_nat n)) 1) e)
  end.

Definition encode_bypass_bits (n value : Z) (e : encoder) : encoder :=
  encode_bits_loop (Z.to_nat (Z.min n 32)) value e.

Definition flush (e : encoder) : encoder :=
  let e := erenorm (set_range e 2) in
  let e := put_bit (Z.land (Z.shiftr (low e) 9) 1) e in
  let two := Z.lor (Z.land (Z.shiftr (low e) 7) 3) 1 in
  write_bit (Z.land two 1) (write_bit (Z.shiftr two 1) e).

Definition encode_terminate (bin : Z) (e : encoder) : encoder :=
  let e := set_range e (wrap_u 32 (erange e - 2)) in
  if negb (Z.land bin 1 =? 0) then flush (set_low e (wrap_u 32 (low e + erange e)))
  else erenorm e.

(** [run] ends the loop within 32 rounds. *)
Fixpoint encode_egk_loop (fuel : nat) (k remaining run : Z) (e : encoder) : encoder :=
  match fuel with
  | O => e
  | S fuel =>
    if (default (2 ^ 32 - 1) (checked_shl k) <=? remaining) && (run <? 32) then
      let e := encode_bypass 1 e in
      let remaining := remaining - default (2 ^ 32 - 1) (checked_shl k) in
      let k := k + 1 in
      if 31 <? k then e else encode_egk_loop fuel k remaining (run + 1) e
    else encode_bypass_bits k remaining (encode_bypass 0 e)
  end.

Definition encode_bypass_egk (k value : Z) (e : encoder) : encoder :=
  encode_egk_loop 33 (Z.min k 31) value 0 e.

Definition finish (e : encoder) : list Z :=
  if 0 <? bit_count e then out e ++ [wrap_u 8 (Z.shiftl (partial e) (8 - bit_count e))] else out e.

(** ** Table facts *)

Definition ctx_ok (ctx : Z) : Prop := 0 <= ctx < 256.

Lemma lps_table ctx w :
  ctx_ok ctx -> 256 <= w <= 510 ->
  2 <= table LPS_RANGE (Z.shiftr ctx 1 * 4 + Z.land (Z.shiftr w 6) 3) <= w - 16.
Proof.
  intros Hc Hw.
  assert (forallb (fun c => forallb (fun q => let l := table LPS_RANGE (Z.shiftr (Z.of_nat c) 1 * 4 + Z.of_nat q) in
    (2 <=? l) && (l <=? 240)) (seq 0 4)) (seq 0 256) = true) as Ht by (vm_compute; reflexivity).
  rewrite forallb_forall in Ht. specialize (Ht (Z.to_nat ctx)). rewrite in_seq in Ht. unfold ctx_ok in Hc.
  specialize (Ht ltac:(lia)). rewrite forallb_forall in Ht.
  pose proof (land_range (Z.shiftr w 6) 3 2). assert (0 <= Z.shiftr w 6) by (apply Z.shiftr_nonneg; lia).
  specialize (Ht (Z.to_nat (Z.land (Z.shiftr w 6) 3))). rewrite in_seq in Ht. specialize (Ht ltac:(lia)).
  rewrite !Z2Nat.id in Ht by lia. cbv zeta in Ht. breflect. lia.
Qed.

Lemma trans_table i : 0 <= i < 512 -> 0 <= table TRANS i < 128.
Proof.
  intros Hi.
  assert (forallb (fun i => let t := table TRANS (Z.of_nat i) in (0 <=? t) && (t <? 128)) (seq 0 512) = true) as Ht
    by (vm_compute; reflexivity).
  rewrite forallb_forall in Ht. specialize (Ht (Z.to_nat i)). rewrite in_seq in Ht. specialize (Ht ltac:(lia)).
  rewrite !Z2Nat.id in Ht by lia. cbv zeta in Ht. breflect. lia.
Qed.

(** How often a range is doubled to reach 256. *)
Fixpoint shifts (fuel : nat) (w : Z) : Z :=
  match fuel with
  | O => 0
  | S fuel => if w <? 256 then 1 + shifts fuel (2 * w) else 0
  end.

Lemma shifts_nonneg fuel w : 0 <= shifts fuel w.
Proof. revert w. induction fuel as [|fuel IH]; intros w; cbn; [lia|]. destruct (w <? 256); [|lia]. specialize (IH (2 * w)). lia. Qed.

Lemma shifts_spec w :
  2 <= w <= 510 -> let k := shifts 8 w in 0 <= k <= 7 /\ 256 <= w * 2 ^ k <= 510.
Proof.
  intros Hw.
  assert (forallb (fun w => let w := Z.of_nat w in let k := shifts 8 w in (k <=? 7) && (256 <=? w * 2 ^ k) && (w * 2 ^ k <=? 510)) (seq 2 509) = true) as Ht
    by (vm_compute; reflexivity).
  rewrite forallb_forall in Ht. specialize (Ht (Z.to_nat w)). rewrite in_seq in Ht. specialize (Ht ltac:(lia)).
  rewrite !Z2Nat.id in Ht by lia. cbv zeta in Ht. breflect. pose proof (shifts_nonneg 8 w). cbv zeta. lia.
Qed.

(** ** One operation of the decoder *)

Lemma wrap_shl w x : 0 <= x -> 2 * x < 2 ^ w -> wrap_u w (Z.shiftl x 1) = 2 * x.
Proof. intros Hx Hw. rewrite Z.shiftl_mul_pow2, Z.mul_comm by lia. apply wrap_u_id. lia. Qed.

Lemma lor_bit x b : 0 <= b <= 1 -> Z.lor (2 * x) b = 2 * x + b.
Proof.
  intros Hb. rewrite Z.mul_comm. pose proof (lor_disjoint x b 1 ltac:(lia) ltac:(change (2 ^ 1) with 2; lia)) as E1.
  rewrite Z.shiftl_mul_pow2 in E1 by lia. exact E1.
Qed.

Section operations.
Context {R : Type} `{BitSource R} (f : Z -> bool) (limit : Z) (fl : bool).

(** The decoder stands at bit [p] with registers [w] and [o]. *)
Definition stands (d : decoder R) (p w o : Z) (mf tm : bool) : Prop :=
  exists r, d = Decoder w o r mf tm /\ src_at f limit r p fl.

Lemma get_bit_ok r p :
  src_at f limit r p fl -> p <= LIM -> exists r', src_get r 1 = (field f p 1, r') /\ src_at f limit r' (p + 1) fl.
Proof. intros Hr Hp. apply src_get_ok; [done|lia|done]. Qed.

Lemma field_one p : 0 <= field f p 1 <= 1.
Proof. pose proof (field_range f p 1). lia. Qed.

Lemma renorm_loop_ok fuel d p w o mf tm :
  stands d p w o mf tm -> 0 <= o < w -> w < 2 ^ 16 -> p + Z.of_nat fuel <= LIM ->
  let k := shifts fuel w in
  stands (renorm_loop fuel d) (p + k) (w * 2 ^ k) (o * 2 ^ k + field f p k) mf tm.
Proof.
  revert d p w o. induction fuel as [|fuel IH]; intros d p w o (r & -> & Hr) Ho Hw Hp; cbn [shifts renorm_loop range].
  { exists r. rewrite Z.add_0_r, !Z.mul_1_r. change (field f p 0) with 0. by rewrite Z.add_0_r. }
  destruct (Z.ltb_spec w 256) as [Hlt|_].
  2: { exists r. rewrite Z.add_0_r, !Z.mul_1_r. change (field f p 0) with 0. by rewrite Z.add_0_r. }
  cbn [reader offset malformed_flag terminated]. destruct (get_bit_ok r p Hr ltac:(lia)) as (r' & -> & Hr').
  pose proof (field_one p) as Hb. rewrite !wrap_shl, lor_bit by lia. cbv zeta.
  assert (stands (Decoder (2 * w) (2 * o + field f p 1) r' mf tm) (p + 1) (2 * w) (2 * o + field f p 1) mf tm) as Hs by (by exists r').
  pose proof (IH _ _ _ _ Hs ltac:(lia) ltac:(lia) ltac:(lia)) as IH'. cbv zeta in IH'.
  pose proof (shifts_nonneg fuel (2 * w)) as Hk. set (k := shifts fuel (2 * w)) in *.
  replace (p + (1 + k)) with (p + 1 + k) by lia. rewrite Z.pow_add_r by lia. change (2 ^ 1) with 2.
  replace (w * (2 * 2 ^ k)) with (2 * w * 2 ^ k) by lia.
  rewrite field_app by lia. replace (o * (2 * 2 ^ k) + (field f p 1 * 2 ^ k + field f (p + 1) k)) with
    ((2 * o + field f p 1) * 2 ^ k + field f (p + 1) k) by lia. done.
Qed.

Lemma renorm_ok d p w o mf tm :
  stands d p w o mf tm -> 0 <= o < w -> 2 <= w <= 510 -> p + 8 <= LIM ->
  let k := shifts 8 w in
  stands (renorm d) (p + k) (w * 2 ^ k) (o * 2 ^ k + field f p k) mf tm.
Proof. intros Hs Ho Hw Hp. apply renorm_loop_ok; [done|done|lia|done]. Qed.

(** What a split of the interval at [cut] leaves the decoder with. *)
Definition lps (ctx w : Z) : Z := table LPS_RANGE (Z.shiftr ctx 1 * 4 + Z.land (Z.shiftr w 6) 3).

Lemma decode_decision_ok ctx d p w o mf tm :
  stands d p w o mf tm -> ctx_ok ctx -> 256 <= w <= 510 -> 0 <= o < w -> p + 8 <= LIM ->
  exists bin ctx' d', decode_decision ctx d = (bin, ctx', d') /\ 0 <= ctx' < 128 /\
    let r := w - lps ctx w in
    if r <=? o then
      let k := shifts 8 (lps ctx w) in
      bin = 1 - Z.land ctx 1 /\ ctx' = table TRANS (256 + ctx) /\
      stands d' (p + k) (lps ctx w * 2 ^ k) ((o - r) * 2 ^ k + field f p k) mf tm
    else
      let k := shifts 8 r in
      bin = Z.land ctx 1 /\ ctx' = table TRANS ctx /\ stands d' (p + k) (r * 2 ^ k) (o * 2 ^ k + field f p k) mf tm.
Proof.
  intros (r & -> & Hr) Hc Hw Ho Hp. pose proof (lps_table ctx w Hc Hw) as Hl. fold (lps ctx w) in Hl.
  unfold decode_decision. cbn [range offset reader malformed_flag terminated]. fold (lps ctx w).
  rewrite wrap_u_id by lia. unfold ctx_ok in Hc. destruct (Z.leb_spec (w - lps ctx w) o) as [Hlo|Hlo].
  - do 3 eexists. split; [reflexivity|]. split; [apply trans_table; lia|]. split; [done|]. split; [done|].
    apply renorm_ok; [by exists r|lia|lia|lia].
  - do 3 eexists. split; [reflexivity|]. split; [apply trans_table; lia|]. split; [done|]. split; [done|].
    apply renorm_ok; [by exists r|lia|lia|lia].
Qed.

Lemma decode_bypass_ok d p w o mf tm :
  stands d p w o mf tm -> 256 <= w <= 510 -> 0 <= o < w -> p + 1 <= LIM ->
  exists d', let o' := 2 * o + field f p 1 in let bin := Z.b2z (w <=? o') in
    decode_bypass d = (bin, d') /\ stands d' (p + 1) w (o' - w * bin) mf tm.
Proof.
  intros (r & -> & Hr) Hw Ho Hp. unfold decode_bypass. cbn [range offset reader malformed_flag terminated].
  destruct (get_bit_ok r p Hr ltac:(lia)) as (r' & -> & Hr'). pose proof (field_one p) as Hb.
  rewrite wrap_shl, lor_bit by lia. eexists. cbv zeta. split; [reflexivity|]. exists r'. split; [|done].
  f_equal. destruct (w <=? 2 * o + field f p 1) eqn:E1; cbn [Z.b2z].
  - change (wrap_u 32 (0 - 1)) with (Z.ones 32). rewrite Z.land_ones, Z.mod_small by lia. apply Z.leb_le in E1.
    rewrite wrap_u_id by lia. lia.
  - change (wrap_u 32 (0 - 0)) with 0. rewrite Z.land_0_r. rewrite wrap_u_id by lia. lia.
Qed.

Lemma decode_terminate_ok d p w o mf tm :
  stands d p w o mf tm -> 256 <= w <= 510 -> 0 <= o < w -> p + 8 <= LIM ->
  if w - 2 <=? o then exists d', decode_terminate d = (1, d') /\ stands d' p w o mf true
  else exists d', decode_terminate d = (0, d') /\
    let k := shifts 8 (w - 2) in stands d' (p + k) ((w - 2) * 2 ^ k) (o * 2 ^ k + field f p k) mf tm.
Proof.
  intros (r & -> & Hr) Hw Ho Hp. unfold decode_terminate. cbn [range offset reader malformed_flag terminated].
  rewrite wrap_u_id by lia. destruct (Z.leb_spec (w - 2) o).
  - eexists. split; [done|]. by exists r.
  - eexists. split; [done|]. apply renorm_ok; [by exists r|lia|lia|lia].
Qed.

(** ** The invariant on arbitrary input *)

(** [256 <= range <= 510] and [offset < range], at bit [p]. *)
Definition sound (d : decoder R) (p : Z) : Prop :=
  exists w o mf tm, stands d p w o mf tm /\ 256 <= w <= 510 /\ 0 <= o < w.

(** An operation that reads at most [n] bits. *)
Definition advances (p n : Z) (d' : decoder R) : Prop := exists p', p <= p' <= p + n /\ sound d' p'.

Lemma reads_trans p q n m d : p <= q <= p + n -> advances q m d -> advances p (n + m) d.
Proof. intros Hq (p' & Hp & Hs). exists p'. split; [lia|done]. Qed.

Lemma advances_le p n m d : n <= m -> advances p n d -> advances p m d.
Proof. intros Hn (p' & Hp & Hs). exists p'. split; [lia|done]. Qed.

Lemma renormed_sound p w o mf tm d' :
  2 <= w <= 510 -> 0 <= o < w ->
  stands d' (p + shifts 8 w) (w * 2 ^ shifts 8 w) (o * 2 ^ shifts 8 w + field f p (shifts 8 w)) mf tm -> advances p 8 d'.
Proof.
  intros Hw Ho Hs. destruct (shifts_spec w Hw) as [Hk Hr]. eexists. split; [|do 4 eexists; split; [exact Hs|]]; [lia|].
  pose proof (field_range f p (shifts 8 w) ltac:(lia)). nia.
Qed.

Lemma sound_decision ctx d p :
  sound d p -> ctx_ok ctx -> p + 8 <= LIM ->
  exists bin ctx' d', decode_decision ctx d = (bin, ctx', d') /\ 0 <= bin <= 1 /\ ctx_ok ctx' /\ advances p 8 d'.
Proof.
  intros (w & o & mf & tm & Hs & Hw & Ho) Hc Hp. pose proof (lps_table ctx w Hc Hw) as Hl. fold (lps ctx w) in Hl.
  destruct (decode_decision_ok ctx d p w o mf tm Hs Hc Hw Ho Hp) as (bin & ctx' & d' & -> & Hc' & Hr).
  pose proof (land_range ctx 1 1). unfold ctx_ok in *. cbv zeta in Hr.
  exists bin, ctx', d'. split; [done|]. destruct (Z.leb_spec (w - lps ctx w) o); destruct Hr as (-> & _ & Hr).
  - split; [lia|]. split; [lia|]. eapply renormed_sound; [| |exact Hr]; lia.
  - split; [lia|]. split; [lia|]. eapply renormed_sound; [| |exact Hr]; lia.
Qed.

Lemma sound_bypass d p :
  sound d p -> p + 1 <= LIM -> exists bin d', decode_bypass d = (bin, d') /\ 0 <= bin <= 1 /\ advances p 1 d'.
Proof.
  intros (w & o & mf & tm & Hs & Hw & Ho) Hp. destruct (decode_bypass_ok d p w o mf tm Hs Hw Ho Hp) as (d' & Hd & Hs').
  cbv zeta in Hd, Hs'. rewrite Hd. do 2 eexists. split; [reflexivity|]. split; [destruct (_ <=? _); cbn; lia|].
  eexists. split; [|do 4 eexists; split; [exact Hs'|split; [done|]]]; [lia|]. pose proof (field_one p).
  destruct (Z.leb_spec w (2 * o + field f p 1)); cbn [Z.b2z]; lia.
Qed.

Lemma sound_bits n value m d p :
  sound d p -> p + Z.of_nat n <= LIM -> 0 <= value < 2 ^ m -> 0 <= m -> m + Z.of_nat n <= 32 ->
  exists v d', bypass_loop n value d = (v, d') /\ 0 <= v < 2 ^ (m + Z.of_nat n) /\ advances p (Z.of_nat n) d'.
Proof.
  revert value m d p. induction n as [|n IH]; intros value m d p Hs Hp Hv Hm Hn; cbn [bypass_loop].
  { exists value, d. rewrite Z.add_0_r. split; [done|]. split; [done|]. exists p. split; [lia|done]. }
  destruct (sound_bypass d p Hs ltac:(lia)) as (bin & d' & -> & Hb & p' & Hp' & Hs').
  assert (2 * 2 ^ m <= 2 ^ 32) by (rewrite <- Z.pow_succ_r by done; apply Z.pow_le_mono_r; lia).
  rewrite wrap_shl, lor_bit by lia.
  destruct (IH (2 * value + bin) (m + 1) d' p' Hs' ltac:(lia)) as (v & d2 & -> & Hv2 & Ha); [rewrite Z.pow_add_r by lia; lia|lia|lia|].
  exists v, d2. split; [done|]. split; [by replace (m + Z.of_nat (S n)) with (m + 1 + Z.of_nat n) by lia|].
  replace (Z.of_nat (S n)) with (1 + Z.of_nat n) by lia. by eapply reads_trans.
Qed.

Lemma sound_bypass_bits n d p :
  sound d p -> 0 <= n -> p + 32 <= LIM ->
  exists v d', decode_bypass_bits n d = (v, d') /\ 0 <= v < 2 ^ Z.min n 32 /\ advances p (Z.min n 32) d'.
Proof.
  intros Hs Hn Hp. destruct (sound_bits (Z.to_nat (Z.min n 32)) 0 0 d p Hs ltac:(lia)) as (v & d' & E1 & Hv & Ha); [cbn; lia..|].
  rewrite Z2Nat.id in * by lia. by exists v, d'.
Qed.

Lemma sound_terminate d p :
  sound d p -> p + 8 <= LIM -> exists v d', decode_terminate d = (v, d') /\ 0 <= v <= 1 /\ advances p 8 d'.
Proof.
  intros (w & o & mf & tm & Hs & Hw & Ho) Hp. pose proof (decode_terminate_ok d p w o mf tm Hs Hw Ho Hp) as Hr.
  destruct (Z.leb_spec (w - 2) o); destruct Hr as (d' & -> & Hr); do 2 eexists; (split; [done|]); (split; [lia|]).
  - exists p. split; [lia|]. by do 4 eexists.
  - eapply renormed_sound; [| |exact Hr]; lia.
Qed.

Lemma sound_tu fuel n ctx d p :
  sound d p -> ctx_ok ctx -> p + 8 * Z.of_nat fuel <= LIM ->
  exists v ctx' d', tu_loop fuel n ctx d = (v, ctx', d') /\ n <= v <= n + Z.of_nat fuel /\ ctx_ok ctx' /\
    advances p (8 * Z.of_nat fuel) d'.
Proof.
  revert n ctx d p. induction fuel as [|fuel IH]; intros n ctx d p Hs Hc Hp; cbn [tu_loop].
  { exists n, ctx, d. split; [done|]. split; [lia|]. split; [done|]. exists p. split; [lia|done]. }
  destruct (sound_decision ctx d p Hs Hc ltac:(lia)) as (bin & ctx' & d' & -> & Hb & Hc' & p' & Hp' & Hs').
  destruct (bin =? 0).
  { exists n, ctx', d'. split; [done|]. split; [lia|]. split; [done|]. exists p'. split; [lia|done]. }
  destruct (IH (n + 1) ctx' d' p' Hs' Hc' ltac:(lia)) as (v & c2 & d2 & -> & Hv & Hc2 & Ha).
  exists v, c2, d2. split; [done|]. split; [lia|]. split; [done|].
  replace (8 * Z.of_nat (S fuel)) with (8 + 8 * Z.of_nat fuel) by lia. by eapply reads_trans.
Qed.

Lemma sound_egk fuel value k run d p :
  sound d p -> 0 <= value < 2 ^ 32 -> 0 <= k <= 31 -> p + Z.of_nat fuel + 32 <= LIM ->
  exists v d', egk_loop fuel value k run d = (v, d') /\ 0 <= v < 2 ^ 32 /\ advances p (Z.of_nat fuel + 32) d'.
Proof.
  revert value k run d p. induction fuel as [|fuel IH]; intros value k run d p Hs Hv Hk Hp; cbn [egk_loop].
  { exists value, d. split; [done|]. split; [done|]. exists p. split; [lia|done]. }
  destruct (sound_bypass d p Hs ltac:(lia)) as (bin & d' & -> & Hb & p' & Hp' & Hs'). cbv zeta.
  destruct (bin =? 1).
  - destruct ((MAX_EGK_PREFIX <=? run + 1) || (31 <? k + 1)) eqn:E1.
    + do 2 eexists. split; [reflexivity|]. split; [apply sat_u_range; lia|]. exists p'. split; [lia|].
      destruct Hs' as (w & o & mf & tm & (r & -> & Hr) & Hwo). exists w, o, true, tm. split; [by exists r|done].
    + breflect. destruct (IH (sat_u 32 (value + default 0 (checked_shl k))) (k + 1) (run + 1) d' p' Hs') as (v & d2 & -> & Hv2 & Ha);
        [apply sat_u_range; lia|lia|lia|]. exists v, d2. split; [done|]. split; [done|].
      replace (Z.of_nat (S fuel) + 32) with (1 + (Z.of_nat fuel + 32)) by lia. by eapply reads_trans.
  - destruct (sound_bypass_bits k d' p' Hs' ltac:(lia) ltac:(lia)) as (v & d2 & -> & Hv2 & Ha).
    do 2 eexists. split; [reflexivity|]. split; [apply sat_u_range; lia|].
    replace (Z.of_nat (S fuel) + 32) with (1 + (Z.of_nat fuel + 32)) by lia. eapply reads_trans; [exact Hp'|].
    eapply advances_le; [|exact Ha]. lia.
Qed.

End operations.

(** ** Calls *)

(** What a codec asks of the engine; contexts are a codec's array. *)
Inductive request : Type :=
  | RDecision (i : nat)
  | RBypass
  | RBits (n : Z)
  | REgk (k : Z)
  | RTu (i : nat) (c_max : Z)
  | RUegk (i : nat) (u_coff k : Z) (signed : bool)
  | RTerminate.

Definition decode_request {R : Type} `{BitSource R} (q : request) (ctxs : list Z) (d : decoder R) : Z * list Z * decoder R :=
  let context (i : nat) (x : Z * Z * decoder R) := let '(v, c, d) := x in (v, <[i:=c]> ctxs, d) in
  let plain (x : Z * decoder R) := let '(v, d) := x in (v, ctxs, d) in
  match q with
  | RDecision i => context i (decode_decision (nth i ctxs 0) d)
  | RBypass => plain (decode_bypass d)
  | RBits n => plain (decode_bypass_bits n d)
  | REgk k => plain (decode_bypass_egk k d)
  | RTu i c_max => context i (decode_tu (nth i ctxs 0) c_max d)
  | RUegk i u_coff k signed => context i (decode_uegk (nth i ctxs 0) u_coff k signed d)
  | RTerminate => plain (decode_terminate d)
  end.

Fixpoint decode_all {R : Type} `{BitSource R} (qs : list request) (ctxs : list Z) (d : decoder R) : list Z * list Z * decoder R :=
  match qs with
  | [] => ([], ctxs, d)
  | q :: qs =>
    let '(v, ctxs, d) := decode_request q ctxs d in
    let '(vs, ctxs, d) := decode_all qs ctxs d in
    (v :: vs, ctxs, d)
  end.

(** The bits a request may read. *)
Definition request_cost (q : request) : Z :=
  match q with
  | RDecision _ | RTerminate => 8
  | RBypass => 1
  | RBits _ => 32
  | REgk _ => 64
  | RTu _ c_max => 8 * c_max
  | RUegk _ u_coff _ _ => 8 * u_coff + 65
  end.

Definition cost (qs : list request) : Z := fold_right (fun q c => request_cost q + c) 0 qs.

(** Arguments are [u32]; the context exists. *)
Definition request_ok (n : nat) (q : request) : Prop :=
  match q with
  | RDecision i => (i < n)%nat
  | RBypass | RTerminate => True
  | RBits n => 0 <= n < 2 ^ 32
  | REgk k => 0 <= k < 2 ^ 32
  | RTu i c_max => (i < n)%nat /\ 0 <= c_max < 2 ^ 32
  | RUegk i u_coff k _ => (i < n)%nat /\ 0 <= u_coff < 2 ^ 32 /\ 0 <= k < 2 ^ 32
  end.

(** The values a request may return. *)
Definition answer (q : request) (v : Z) : Prop :=
  match q with
  | RDecision _ | RBypass | RTerminate => 0 <= v <= 1
  | RBits n => 0 <= v < 2 ^ Z.min n 32
  | REgk _ => 0 <= v < 2 ^ 32
  | RTu _ c_max => 0 <= v <= c_max
  | RUegk _ _ _ signed => (if signed : bool then - 2 ^ 31 < v else 0 <= v) /\ v < 2 ^ 31
  end.

Section sound.
Context {R : Type} `{BitSource R} (f : Z -> bool) (limit : Z) (fl : bool).

Lemma contexts_insert (ctxs : list Z) i c : Forall ctx_ok ctxs -> ctx_ok c -> Forall ctx_ok (<[i:=c]> ctxs).
Proof. intros Hc H1. by apply Forall_insert. Qed.

Lemma contexts_nth (ctxs : list Z) i : Forall ctx_ok ctxs -> ctx_ok (nth i ctxs 0).
Proof.
  intros Hc. destruct (decide (i < length ctxs)%nat) as [Hi|Hi]; [|rewrite nth_overflow by lia; unfold ctx_ok; lia].
  destruct (lookup_lt_is_Some_2 _ _ Hi) as [c Ec]. rewrite (nth_lookup_Some _ _ _ _ Ec). by eapply Forall_lookup_1.
Qed.

Lemma sound_uegk ctx u_coff k signed d p :
  sound f limit fl d p -> ctx_ok ctx -> 0 <= u_coff < 2 ^ 32 -> 0 <= k -> p + (8 * u_coff + 65) <= LIM ->
  exists v ctx' d', decode_uegk ctx u_coff k signed d = (v, ctx', d') /\ answer (RUegk 0 u_coff k signed) v /\
    ctx_ok ctx' /\ advances f limit fl p (8 * u_coff + 65) d'.
Proof.
  intros Hs Hc Hu Hk Hp. unfold decode_uegk, decode_tu.
  destruct (sound_tu f limit fl (Z.to_nat u_coff) 0 ctx d p Hs Hc ltac:(lia)) as (n & c1 & d1 & -> & Hn & Hc1 & p1 & Hp1 & Hs1).
  rewrite Z2Nat.id in * by lia.
  assert (exists v d2, (if u_coff <=? n then let '(suffix, d) := decode_bypass_egk k d1 in (sat_u 32 (n + suffix), d) else (n, d1)) = (v, d2)
    /\ 0 <= v < 2 ^ 32 /\ advances f limit fl p1 64 d2) as (v & d2 & -> & Hv & p2 & Hp2 & Hs2).
  { destruct (u_coff <=? n).
    - unfold decode_bypass_egk. change (Z.to_nat MAX_EGK_PREFIX) with 32%nat.
      destruct (sound_egk f limit fl 32 0 (Z.min k 31) 0 d1 p1 Hs1 ltac:(lia) ltac:(lia) ltac:(lia)) as (v & d2 & -> & Hv & Ha).
      do 2 eexists. split; [reflexivity|]. split; [apply sat_u_range; lia|done].
    - do 2 eexists. split; [reflexivity|]. split; [lia|]. exists p1. split; [lia|done]. }
  set (m := Z.min v (2 ^ 31 - 1)). assert (0 <= m < 2 ^ 31) as Hm by lia. clearbody m.
  destruct (signed && negb (m =? 0)) eqn:Esig.
  - destruct (sound_bypass f limit fl d2 p2 Hs2 ltac:(lia)) as (bin & d3 & -> & Hb & p3 & Hp3 & Hs3).
    do 3 eexists. split; [reflexivity|]. apply andb_true_iff in Esig as [-> _].
    split; [unfold answer; destruct (bin =? 1); lia|]. split; [done|]. exists p3. split; [lia|done].
  - do 3 eexists. split; [reflexivity|]. split; [unfold answer; destruct signed; lia|]. split; [done|]. exists p2. split; [lia|done].
Qed.

Lemma sound_request q ctxs d p :
  sound f limit fl d p -> Forall ctx_ok ctxs -> request_ok (length ctxs) q -> p + request_cost q <= LIM ->
  exists v ctxs' d', decode_request q ctxs d = (v, ctxs', d') /\ answer q v /\ Forall ctx_ok ctxs' /\
    length ctxs' = length ctxs /\ advances f limit fl p (request_cost q) d'.
Proof.
  intros Hs Hc Hq Hp. destruct q as [i| |n|k|i c_max|i u k sg|]; cbn [decode_request request_cost request_ok] in *.
  - destruct (sound_decision f limit fl (nth i ctxs 0) d p Hs (contexts_nth _ _ Hc) ltac:(lia)) as (v & c & d' & -> & Hv & Hc' & Ha).
    do 3 eexists. split; [reflexivity|]. by rewrite length_insert; auto using contexts_insert.
  - destruct (sound_bypass f limit fl d p Hs ltac:(lia)) as (v & d' & -> & Hv & Ha). by do 3 eexists.
  - destruct (sound_bypass_bits f limit fl n d p Hs ltac:(lia) ltac:(lia)) as (v & d' & -> & Hv & Ha).
    do 3 eexists. split; [reflexivity|]. split_and!; try done. eapply advances_le; [|exact Ha]. lia.
  - unfold decode_bypass_egk. change (Z.to_nat MAX_EGK_PREFIX) with 32%nat.
    destruct (sound_egk f limit fl 32 0 (Z.min k 31) 0 d p Hs ltac:(lia) ltac:(lia) ltac:(lia)) as (v & d' & -> & Hv & Ha). by do 3 eexists.
  - unfold decode_tu. destruct Hq as [Hi Hm].
    destruct (sound_tu f limit fl (Z.to_nat c_max) 0 (nth i ctxs 0) d p Hs (contexts_nth _ _ Hc) ltac:(lia)) as (v & c & d' & -> & Hv & Hc' & Ha).
    rewrite Z2Nat.id in * by lia. do 3 eexists. split; [reflexivity|]. rewrite length_insert. split_and!; auto using contexts_insert.
  - destruct (sound_uegk (nth i ctxs 0) u k sg d p Hs (contexts_nth _ _ Hc)) as (v & c & d' & -> & Hv & Hc' & Ha); [lia..|].
    do 3 eexists. split; [reflexivity|]. rewrite length_insert. auto using contexts_insert.
  - destruct (sound_terminate f limit fl d p Hs ltac:(lia)) as (v & d' & -> & Hv & Ha). by do 3 eexists.
Qed.

End sound.

Lemma requests_cost_nonneg n qs : Forall (request_ok n) qs -> 0 <= cost qs.
Proof. induction 1 as [|q qs Hq _ IH]; [done|]. cbn [cost fold_right]. fold (cost qs). destruct q; cbn in *; lia. Qed.

(** C18. The engine is safe on every input. Whatever bits the source holds - past
    its end, corrupt, or all ones - and whatever a codec asks, every request
    returns a value of its range within a bounded number of bits, the interval
    register stays within 256..510 and the offset strictly below it, contexts
    stay contexts, and an initial offset of 510 or 511 is clamped and reported. *)
Theorem decoder_sound {R : Type} `{BitSource R} f limit fl r p qs ctxs :
  src_at f limit r p fl -> Forall ctx_ok ctxs -> Forall (request_ok (length ctxs)) qs -> p + 9 + cost qs <= LIM ->
  exists vs ctxs' d p', decode_all qs ctxs (from_aligned r) = (vs, ctxs', d) /\
    Forall2 answer qs vs /\ Forall ctx_ok ctxs' /\ length ctxs' = length ctxs /\
    256 <= range d <= 510 /\ 0 <= offset d < range d /\
    p + 9 <= p' <= p + 9 + cost qs /\ src_at f limit (reader d) p' fl /\
    (510 <= field f p 9 -> malformed (from_aligned r) = true).
Proof.
  intros Hr Hc Hq Hp. pose proof (requests_cost_nonneg _ _ Hq) as Hn. unfold from_aligned.
  destruct (src_get_ok f limit r p fl OFFSET_BITS Hr) as (r' & E1 & Hr'); [unfold OFFSET_BITS; lia|lia|]. rewrite E1.
  unfold OFFSET_BITS in *. pose proof (field_range f p 9 ltac:(lia)) as Ho.
  set (d0 := Decoder _ _ _ _ _). assert (sound f limit fl d0 (p + 9)) as Hs.
  { exists 510, (offset d0), (INITIAL_RANGE <=? field f p 9), false. split; [by exists r'|]. cbn.
    unfold INITIAL_RANGE. destruct (Z.leb_spec 510 (field f p 9)); lia. }
  assert (510 <= field f p 9 -> malformed d0 = true) as Hm.
  { intros Hm. unfold malformed, d0. cbn. unfold INITIAL_RANGE. by rewrite (proj2 (Z.leb_le _ _) Hm). }
  clearbody d0. clear E1 Ho Hr Hr'.
  enough (exists vs ctxs' d, decode_all qs ctxs d0 = (vs, ctxs', d) /\ Forall2 answer qs vs /\ Forall ctx_ok ctxs' /\
    length ctxs' = length ctxs /\ advances f limit fl (p + 9) (cost qs) d) as (vs & c' & d & E1 & Ha & Hc' & Hl & p' & Hp' & w & o & mf & tm & (r2 & -> & Hr2) & Hw & Ho).
  { exists vs, c', (Decoder w o r2 mf tm), p'. cbn [range offset reader]. split_and!; done || lia. }
  clear Hm r r'. revert ctxs d0 Hc Hq Hs Hp. generalize (p + 9) as q. clear p. induction qs as [|rq qs IH]; intros p ctxs d0 Hc Hq Hs Hp.
  { exists [], ctxs, d0. split_and!; try done. exists p. split; [cbn; lia|done]. }
  apply Forall_cons in Hq as [Hq1 Hq]. cbn [decode_all cost fold_right] in *. fold (cost qs) in *. pose proof (requests_cost_nonneg _ _ Hq) as Hn'.
  destruct (sound_request f limit fl rq ctxs d0 p Hs Hc Hq1 ltac:(lia)) as (v & c1 & d1 & -> & Hv & Hc1 & Hl1 & p1 & Hp1 & Hs1).
  rewrite <- Hl1 in Hq. destruct (IH ltac:(lia) p1 c1 d1 Hc1 Hq Hs1 ltac:(lia)) as (vs & c2 & d2 & -> & Ha & Hc2 & Hl2 & Hd2).
  exists (v :: vs), c2, d2. split; [done|]. split; [by constructor|]. split; [done|]. split; [congruence|]. by eapply reads_trans.
Qed.

#[local] Existing Instance BitReader.reader_source.

(** Aligning moves to the next byte boundary, so [from_reader] starts there. *)
Lemma from_reader_source f limit r p fl :
  src_at f limit r p fl -> 0 <= p -> p + 8 <= LIM ->
  src_at f limit (BitReader.align r) (p + (- p) mod 8) fl /\ from_reader r = from_aligned (BitReader.align r).
Proof.
  intros Hr Hp Hlim. split; [|done]. pose proof (Z.mod_pos_bound (- p) 8 ltac:(lia)). unfold BitReader.align.
  rewrite (BitReader.align_dist r p) by (by destruct Hr). exact (src_skip_ok (R := BitReader.reader) f limit r p fl ((- p) mod 8) Hr ltac:(lia) ltac:(lia)).
Qed.

(** All ones: the initial offset is 511, clamped and reported; the suffix of an
    endless prefix is reported too. *)
Lemma decoder_sound_witness :
  let data := replicate 12 255 in
  let qs := [RDecision 0; RBits 40; REgk 0; RTu 0 9; RUegk 0 2 3 true; RTerminate] in
  malformed (decoder_new data) = true /\
  exists vs ctxs' d, decode_all qs [255] (decoder_new data) = (vs, ctxs', d) /\
    Forall2 answer qs vs /\ 0 <= offset d < range d.
Proof.
  intros data qs.
  destruct (decoder_sound (R := BitReader.reader) (bit_at data) (8 * zlen data) false (BitReader.align (BitReader.new data)) 0 qs [255])
    as (vs & ctxs' & d & p' & H1 & H2 & _ & _ & _ & H3 & _ & _ & H4).
  - refine (proj1 (from_reader_source _ _ _ 0 _ (BitReader.new_source data _ _) _ _));
      [apply buffer_check; vm_compute; reflexivity|vm_compute; reflexivity|lia|vm_compute; discriminate].
  - repeat constructor; vm_compute; discriminate.
  - repeat constructor; vm_compute; (discriminate || lia).
  - vm_compute. discriminate.
  - split; [apply H4; vm_compute; discriminate|]. exists vs, ctxs', d. split; [exact H1|]. split; [exact H2|exact H3].
Defined.
