(* ===== verification/CabacCode.v ===== *)
(** * CabacCode: what the arithmetic encoder writes, the decoder reads

    The two engines of [Cabac] are proved against one object: the exact interval
    of an arithmetic code, with an unbounded base. The encoder's ten-bit [low],
    its outstanding bits and its suppressed first bit spell that base; the
    decoder's offset is the code read so far minus it. *)

From Stdlib Require Import ZArith Lia.
From stdpp Require Import prelude.
From S2P Require Import Prelude Bits Source Reader Cabac.

(** ** Intervals *)

(** [base .. base + width) among the codes of [10 + scale] bits. *)
Record interval : Type := Interval { scale : Z; base : Z; width : Z }.

Definition start : interval := Interval 0 0 510.

Definition normalise (I : interval) : interval :=
  let k := shifts 8 (width I) in Interval (scale I + k) (base I * 2 ^ k) (width I * 2 ^ k).

(** The part of the interval a bin selects. *)
Definition split_decision (ctx bin : Z) (I : interval) : interval :=
  let l := lps ctx (width I) in
  let r := width I - l in
  normalise (if bin =? Z.land ctx 1 then Interval (scale I) (base I) r else Interval (scale I) (base I + r) l).

Definition split_bypass (bin : Z) (I : interval) : interval :=
  Interval (scale I + 1) (2 * base I + bin * width I) (width I).

Definition split_continue (I : interval) : interval :=
  normalise (Interval (scale I) (base I) (width I - 2)).

Definition regular (I : interval) : Prop := 0 <= scale I /\ 0 <= base I /\ 256 <= width I <= 510.

(** [J] lies inside [I], at the same or a finer scale. *)
Definition inside (I J : interval) : Prop :=
  exists k, 0 <= k /\ scale J = scale I + k /\ base I * 2 ^ k <= base J /\
    base J + width J <= (base I + width I) * 2 ^ k.

Lemma inside_refl I : inside I I.
Proof. exists 0. rewrite !Z.mul_1_r. lia. Qed.

Lemma inside_trans I J K : inside I J -> inside J K -> inside I K.
Proof.
  intros (k & Hk & Es & Hb & Hw) (m & Hm & Es' & Hb' & Hw'). exists (k + m). rewrite Z.pow_add_r, !Z.mul_assoc by lia.
  pose proof (Z.pow_pos_nonneg 2 m). split; [lia|]. split; [lia|].
  assert (base I * 2 ^ k * 2 ^ m <= base J * 2 ^ m) by (apply Z.mul_le_mono_nonneg_r; lia).
  assert ((base J + width J) * 2 ^ m <= (base I + width I) * 2 ^ k * 2 ^ m) by (apply Z.mul_le_mono_nonneg_r; lia). lia.
Qed.

Lemma normalise_inside s b w : 2 <= w <= 510 -> 0 <= s -> 0 <= b ->
  regular (normalise (Interval s b w)) /\ inside (Interval s b w) (normalise (Interval s b w)).
Proof.
  intros Hw Hs Hb. destruct (shifts_spec w Hw) as [Hk Hr]. unfold normalise. cbn [width scale base].
  set (k := shifts 8 w) in *. assert (0 < 2 ^ k) by (apply Z.pow_pos_nonneg; lia).
  split; [unfold regular; cbn [width scale base]; nia|].
  exists k. cbn [width scale base]. split; [lia|]. split; [lia|]. split; [lia|]. nia.
Qed.

Lemma part_inside s b w b' w' : b <= b' -> b' + w' <= b + w -> inside (Interval s b w) (Interval s b' w').
Proof. intros Hb Hw. exists 0. cbn [width scale base]. rewrite !Z.mul_1_r. lia. Qed.

Lemma split_decision_inside ctx bin I :
  regular I -> ctx_ok ctx -> regular (split_decision ctx bin I) /\ inside I (split_decision ctx bin I).
Proof.
  intros (Hs & Hb & Hw) Hc. pose proof (lps_table ctx (width I) Hc Hw) as Hl. fold (lps ctx (width I)) in Hl.
  destruct I as [s b w]. unfold split_decision. cbn [width scale base] in *. destruct (bin =? Z.land ctx 1).
  - destruct (normalise_inside s b (w - lps ctx w)) as [Hr Hi]; [lia..|]. split; [done|].
    eapply inside_trans; [|exact Hi]. apply part_inside; lia.
  - destruct (normalise_inside s (b + (w - lps ctx w)) (lps ctx w)) as [Hr Hi]; [lia..|]. split; [done|].
    eapply inside_trans; [|exact Hi]. apply part_inside; lia.
Qed.

Lemma split_bypass_inside bin I :
  regular I -> 0 <= bin <= 1 -> regular (split_bypass bin I) /\ inside I (split_bypass bin I).
Proof.
  intros (Hs & Hb & Hw) Hbin. unfold split_bypass. split; [unfold regular; cbn [width scale base]; nia|].
  exists 1. cbn [width scale base]. change (2 ^ 1) with 2. split; [lia|]. split; [lia|]. nia.
Qed.

Lemma split_continue_inside I : regular I -> regular (split_continue I) /\ inside I (split_continue I).
Proof.
  intros (Hs & Hb & Hw). destruct I as [s b w]. unfold split_continue. cbn [width scale base] in *.
  destruct (normalise_inside s b (w - 2)) as [Hr Hi]; [lia..|]. split; [done|].
  eapply inside_trans; [|exact Hi]. apply part_inside; lia.
Qed.

(** ** The decoder follows the code *)

Section follow.
Context {R : Type} `{BitSource R} (f : Z -> bool) (limit : Z) (fl : bool) (p0 : Z).

(** The code whose bits start at [p0] lies in the interval. *)
Definition code_in (I : interval) : Prop :=
  base I <= field f p0 (9 + scale I) < base I + width I.

Lemma code_in_inside I J : 0 <= scale I -> inside I J -> code_in J -> code_in I.
Proof.
  unfold code_in. intros Hs (k & Hk & -> & Hb & Hw) Hc. rewrite Z.add_assoc, field_app in Hc by lia.
  pose proof (field_range f (p0 + (9 + scale I)) k Hk) as Hf. pose proof (Z.pow_pos_nonneg 2 k). nia.
Qed.

(** The decoder has read the code to the interval's scale. *)
Definition follows (d : decoder R) (I : interval) (tm : bool) : Prop :=
  regular I /\ code_in I /\ stands f limit fl d (p0 + 9 + scale I) (width I) (field f p0 (9 + scale I) - base I) false tm.

Lemma renormed_follows d s b w tm :
  2 <= w <= 510 -> 0 <= s -> 0 <= b -> code_in (normalise (Interval s b w)) ->
  let k := shifts 8 w in
  stands f limit fl d (p0 + 9 + s + k) (w * 2 ^ k) ((field f p0 (9 + s) - b) * 2 ^ k + field f (p0 + 9 + s) k) false tm ->
  follows d (normalise (Interval s b w)) tm.
Proof.
  intros Hw Hs Hb Hc k Hst. destruct (normalise_inside s b w Hw Hs Hb) as [Hr _]. split; [done|]. split; [done|].
  unfold normalise in *. cbn [width scale base] in *. fold k. destruct (shifts_spec w Hw) as [Hk _]. fold k in Hk.
  rewrite (Z.add_assoc 9 s k), (field_app f p0 (9 + s) k), (Z.add_assoc (p0 + 9) s k), (Z.add_assoc p0 9 s) by lia.
  replace (field f p0 (9 + s) * 2 ^ k + field f (p0 + 9 + s) k - b * 2 ^ k)
    with ((field f p0 (9 + s) - b) * 2 ^ k + field f (p0 + 9 + s) k) by lia. exact Hst.
Qed.

Lemma follow_decision ctx bin d I tm :
  follows d I tm -> ctx_ok ctx -> 0 <= bin <= 1 -> code_in (split_decision ctx bin I) -> p0 + 17 + scale I <= LIM ->
  exists d', decode_decision ctx d = (bin, table TRANS (if bin =? Z.land ctx 1 then ctx else 256 + ctx), d') /\
    follows d' (split_decision ctx bin I) tm.
Proof.
  intros ((Hs & Hb & Hw) & Hc & Hst) Hctx Hbin Hin Hp. pose proof (lps_table ctx (width I) Hctx Hw) as Hl. fold (lps ctx (width I)) in Hl.
  unfold code_in in Hc. destruct (decode_decision_ok f limit fl ctx d _ _ _ _ _ Hst Hctx Hw ltac:(lia) ltac:(lia)) as (bin' & ctx' & d' & -> & _ & Hr).
  pose proof (land_range ctx 1 1). unfold ctx_ok in Hctx. cbv zeta in Hr. destruct I as [s b w]. cbn [width scale base] in *.
  set (r := w - lps ctx w) in *.
  assert (code_in (if bin =? Z.land ctx 1 then Interval s b r else Interval s (b + r) (lps ctx w))) as Hin'.
  { eapply code_in_inside; [|apply normalise_inside|exact Hin]; unfold split_decision; cbn [width scale base];
      destruct (bin =? Z.land ctx 1); cbn; lia. }
  unfold split_decision in *. cbn [width scale base] in *. fold r in Hin |- *. unfold code_in in Hin'.
  destruct (Z.eqb_spec bin (Z.land ctx 1)) as [->|Hne]; cbn [width scale base] in Hin'.
  - rewrite (proj2 (Z.leb_gt _ _)) in Hr by lia. destruct Hr as (-> & -> & Hr). eexists. split; [reflexivity|].
    apply renormed_follows; [lia|done|done|done|]. exact Hr.
  - rewrite (proj2 (Z.leb_le _ _)) in Hr by lia. destruct Hr as (-> & -> & Hr). exists d'. split; [do 2 f_equal; lia|].
    apply renormed_follows; [lia|done|lia|done|]. by rewrite Z.sub_add_distr.
Qed.

Lemma follow_bypass bin d I tm :
  follows d I tm -> 0 <= bin <= 1 -> code_in (split_bypass bin I) -> p0 + 10 + scale I <= LIM ->
  exists d', decode_bypass d = (bin, d') /\ follows d' (split_bypass bin I) tm.
Proof.
  intros (HI & Hc & Hst) Hbin Hin Hp. destruct (split_bypass_inside bin I HI Hbin) as [Hr _]. destruct HI as (Hs & Hb & Hw).
  unfold code_in in Hc. destruct (decode_bypass_ok f limit fl d _ _ _ _ _ Hst Hw ltac:(lia) ltac:(lia)) as (d' & -> & Hst').
  unfold code_in, split_bypass in Hin. cbn [width scale base] in Hin. rewrite Z.add_assoc, field_app in Hin by lia. change (2 ^ 1) with 2 in Hin.
  rewrite (Z.add_assoc p0) in Hin.
  set (o := 2 * (field f p0 (9 + scale I) - base I) + field f (p0 + 9 + scale I) 1) in *.
  assert (Z.b2z (width I <=? o) = bin) as Eb by (destruct (Z.leb_spec (width I) o); cbn; nia).
  exists d'. cbv zeta in Hst'. rewrite Eb in *. split; [done|]. split; [done|]. unfold code_in, split_bypass. cbn [width scale base].
  rewrite (Z.add_assoc 9), field_app by lia. change (2 ^ 1) with 2. rewrite !Z.add_assoc. split; [lia|].
  replace (field f p0 (9 + scale I) * 2 + field f (p0 + 9 + scale I) 1 - (2 * base I + bin * width I)) with (o - width I * bin) by lia. done.
Qed.

Lemma follow_continue d I tm :
  follows d I tm -> code_in (split_continue I) -> p0 + 17 + scale I <= LIM ->
  exists d', decode_terminate d = (0, d') /\ follows d' (split_continue I) tm.
Proof.
  intros ((Hs & Hb & Hw) & Hc & Hst) Hin Hp. unfold code_in in Hc. destruct I as [s b w]. cbn [width scale base] in *.
  pose proof (decode_terminate_ok f limit fl d _ _ _ _ _ Hst Hw ltac:(lia) ltac:(lia)) as Hr.
  assert (code_in (Interval s b (w - 2))) as Hin'.
  { eapply code_in_inside; [done|apply normalise_inside|exact Hin]; lia. }
  unfold code_in in Hin'. cbn [width scale base] in Hin'. rewrite (proj2 (Z.leb_gt _ _)) in Hr by lia.
  destruct Hr as (d' & -> & Hr). exists d'. split; [done|]. apply (renormed_follows d' s b (w - 2) tm); [lia|done|done|done|exact Hr].
Qed.

(** The last two codes of an interval end the stream. *)
Lemma follow_terminate d I tm :
  follows d I tm -> base I + width I - 2 <= field f p0 (9 + scale I) -> p0 + 17 + scale I <= LIM ->
  exists d', decode_terminate d = (1, d') /\ follows d' I true.
Proof.
  intros ((Hs & Hb & Hw) & Hc & Hst) Hin Hp. pose proof Hc as Hc'. unfold code_in in Hc.
  pose proof (decode_terminate_ok f limit fl d _ _ _ _ _ Hst Hw ltac:(lia) ltac:(lia)) as Hr.
  rewrite (proj2 (Z.leb_le _ _)) in Hr by lia. destruct Hr as (d' & -> & Hr). by exists d'.
Qed.

End follow.

(** ** The encoder spells the interval *)

(** The number a list of bits writes. *)
Definition bits_number (l : list bool) : Z := fold_left (fun a (b : bool) => 2 * a + Z.b2z b) l 0.

Lemma bits_number_snoc l b : bits_number (l ++ [b]) = 2 * bits_number l + Z.b2z b.
Proof. unfold bits_number. by rewrite fold_left_app. Qed.

Lemma bits_number_same l o b :
  bits_number (l ++ replicate o b) = bits_number l * 2 ^ Z.of_nat o + (if b then 2 ^ Z.of_nat o - 1 else 0).
Proof.
  induction o as [|o IH]; [rewrite app_nil_r; destruct b; cbn; lia|].
  rewrite replicate_S_end, app_assoc, bits_number_snoc, IH. rewrite Nat2Z.inj_succ, Z.pow_succ_r by lia. destruct b; cbn [Z.b2z]; lia.
Qed.

Lemma spelled_number f p l : spells f p l -> bits_val f p (length l) = bits_number l.
Proof.
  induction l as [|b l IH] using rev_ind; intros Hs; [done|]. apply spells_app in Hs as [H1 H2].
  rewrite length_app, Nat.add_comm, bits_number_snoc. cbn [length Nat.add bits_val]. rewrite IH by done. do 2 f_equal.
  rewrite <- (Z.add_0_r (p + Z.of_nat (length l))). by apply (H2 0%nat).
Qed.

(** The bits written out. *)
Definition written (e : encoder) : list bool :=
  bits_of_bytes (out e) ++ bits_of (Z.to_nat (bit_count e)) (partial e).

Record wf (e : encoder) : Prop := {
  wf_count : 0 <= bit_count e < 8;
  wf_partial : 0 <= partial e < 2 ^ bit_count e;
  wf_out : Forall (fun b => 0 <= b < 256) (out e);
}.

(** Everything but the output. *)
Definition same_registers (e e' : encoder) : Prop :=
  low e' = low e /\ erange e' = erange e /\ first_bit e' = first_bit e /\ max_bytes e' = max_bytes e.

Lemma bits_of_snoc n v b : 0 <= b <= 1 -> bits_of (S n) (2 * v + b) = bits_of n v ++ [b =? 1].
Proof.
  intros Hb. replace (S n) with (n + 1)%nat by lia. rewrite bits_of_app. change (Z.of_nat 1) with 1.
  rewrite Z.shiftr_div_pow2 by lia. change (2 ^ 1) with 2. replace ((2 * v + b) / 2) with v by (rewrite Z.mul_comm, Z.div_add_l, Z.div_small; lia).
  f_equal. cbn [bits_of]. f_equal. rewrite Z.testbit_odd, Z.shiftr_0_r, Z.add_comm, Z.odd_add_mul_2.
  assert (b = 0 \/ b = 1) as [-> | ->] by lia; done.
Qed.

Lemma write_bit_ok b e :
  wf e -> 0 <= b <= 1 -> overflowed (write_bit b e) = false ->
  overflowed e = false /\ wf (write_bit b e) /\ same_registers e (write_bit b e) /\
  outstanding (write_bit b e) = outstanding e /\ written (write_bit b e) = written e ++ [b =? 1].
Proof.
  intros [Hc Hp Ho] Hb. unfold write_bit. destruct (max_bytes e <=? zlen (out e)); [done|].
  assert (2 * 2 ^ bit_count e <= 2 ^ 8) as Hc8 by (rewrite <- Z.pow_succ_r by lia; apply Z.pow_le_mono_r; lia).
  assert (Z.land b 1 = b) as -> by (assert (b = 0 \/ b = 1) as [-> | ->] by lia; done).
  rewrite wrap_shl, lor_bit by lia.
  destruct (Z.eqb_spec (bit_count e + 1) 8) as [E8|E8]; cbn [overflowed]; intros Hov; (split; [done|]).
  - assert (bit_count e = 7) as E7 by lia. rewrite E7 in *. change (2 ^ 7) with 128 in *.
    split; [split; cbn; [lia|lia|apply Forall_app; split; [done|by constructor; [lia|]]]|].
    split; [done|]. split; [done|]. unfold written. cbn [out bit_count partial]. rewrite bits_of_bytes_app, E7, app_nil_r.
    unfold bits_of_bytes at 2. cbn [map concat]. rewrite app_nil_r, <- app_assoc. f_equal. by apply (bits_of_snoc 7).
  - split; [split; cbn; [lia| |done]|].
    { rewrite Z.pow_add_r by lia. change (2 ^ 1) with 2. lia. }
    split; [done|]. split; [done|]. unfold written. cbn [out bit_count partial].
    rewrite Z2Nat.inj_add, Nat.add_comm, <- app_assoc by lia. f_equal. by apply (bits_of_snoc (Z.to_nat (bit_count e))).
Qed.

Lemma outstanding_loop_ok fuel b e :
  wf e -> 0 <= b <= 1 -> outstanding e = Z.of_nat fuel -> overflowed (outstanding_loop fuel b e) = false ->
  let e' := outstanding_loop fuel b e in
  overflowed e = false /\ wf e' /\ same_registers e e' /\ outstanding e' = 0 /\
  written e' = written e ++ replicate fuel (negb (b =? 1)).
Proof.
  revert e. induction fuel as [|fuel IH]; intros e Hw Hb Ho; cbn [outstanding_loop].
  { intros Hov. rewrite app_nil_r. cbn. by split_and!. }
  assert (1 - Z.land b 1 = 1 - b) as -> by (assert (b = 0 \/ b = 1) as [-> | ->] by lia; done).
  destruct (overflowed (set_outstanding (write_bit (1 - b) e) (outstanding (write_bit (1 - b) e) - 1))) eqn:Eov; [by cbn in *; congruence|].
  cbn [overflowed set_outstanding] in Eov. destruct (write_bit_ok (1 - b) e Hw ltac:(lia) Eov) as (H1 & H2 & H3 & H4 & H5).
  intros Hov. destruct (IH (set_outstanding (write_bit (1 - b) e) (outstanding (write_bit (1 - b) e) - 1))) as (_ & W & (S1 & S2 & S3 & S4) & O & Wr);
    [by destruct H2|done|cbn; lia|done|]. cbv zeta. split; [done|]. split; [done|].
  destruct H3 as (T1 & T2 & T3 & T4). split; [cbn in *; unfold same_registers; by split_and!; congruence|]. split; [done|].
  rewrite Wr. unfold written in *. cbn [out bit_count partial set_outstanding]. rewrite H5, <- app_assoc. do 2 f_equal. cbn [replicate app].
  f_equal. assert (b = 0 \/ b = 1) as [-> | ->] by lia; done.
Qed.

(** Once bits have been dropped the encoder says so for good. *)
Lemma write_bit_overflowed b e : overflowed e = true -> overflowed (write_bit b e) = true.
Proof. intros He. unfold write_bit. repeat case_match; done. Qed.

Lemma outstanding_loop_overflowed n b e : overflowed e = true -> overflowed (outstanding_loop n b e) = true.
Proof.
  revert e. induction n as [|n IH]; intros e He; cbn [outstanding_loop]; [done|].
  pose proof (write_bit_overflowed (1 - Z.land b 1) e He) as Hw.
  cbn [overflowed set_outstanding]. by rewrite Hw.
Qed.

Lemma put_bit_overflowed b e : overflowed e = true -> overflowed (put_bit b e) = true.
Proof.
  intros He. unfold put_bit. destruct (first_bit e); apply outstanding_loop_overflowed; [done|by apply write_bit_overflowed].
Qed.

Lemma erenorm_overflowed n e : overflowed e = true -> overflowed (erenorm_loop n e) = true.
Proof.
  revert e. induction n as [|n IH]; intros e He; cbn [erenorm_loop]; [done|]. destruct (erange e <? 256); [|done].
  apply IH. cbn [overflowed set_low set_range]. repeat case_match; try done; by apply put_bit_overflowed.
Qed.

(** [PutBit]: the first bit is not written. *)
Lemma put_bit_ok b e :
  wf e -> 0 <= b <= 1 -> 0 <= outstanding e -> overflowed (put_bit b e) = false ->
  overflowed e = false /\ wf (put_bit b e) /\ low (put_bit b e) = low e /\ erange (put_bit b e) = erange e /\
  first_bit (put_bit b e) = false /\ max_bytes (put_bit b e) = max_bytes e /\ outstanding (put_bit b e) = 0 /\
  written (put_bit b e) = written e ++ (if first_bit e then [] else [b =? 1]) ++ replicate (Z.to_nat (outstanding e)) (negb (b =? 1)).
Proof.
  intros Hw Hb Ho Hov. unfold put_bit in *. destruct (first_bit e) eqn:Ef.
  - destruct (outstanding_loop_ok (Z.to_nat (outstanding e)) b (Encoder (low e) (erange e) (outstanding e) false (out e) (partial e)
      (bit_count e) (max_bytes e) (overflowed e)) ltac:(by destruct Hw) Hb ltac:(cbn; lia) Hov) as (H1 & H2 & (S1 & S2 & S3 & S4) & H4 & H5).
    by split_and!.
  - destruct (overflowed (write_bit b e)) eqn:Ew.
    { by rewrite outstanding_loop_overflowed in Hov. }
    destruct (write_bit_ok b e Hw Hb Ew) as (H1 & H2 & (T1 & T2 & T3 & T4) & H4 & H5).
    destruct (outstanding_loop_ok (Z.to_nat (outstanding (write_bit b e))) b (write_bit b e) H2 Hb ltac:(rewrite Z2Nat.id; lia) Hov) as (_ & W & (S1 & S2 & S3 & S4) & O & Wr).
    rewrite Wr, H4, H5, <- app_assoc. by split_and!; congruence.
Qed.

(** The registers and the bits written so far spell the interval's base: [v]
    is the number written, with the suppressed first bit, and the outstanding
    bits stand between it and the ten bits of [low]. *)
Record spells_interval (e : encoder) (I : interval) (n : Z) : Prop := {
  si_wf : wf e;
  si_low : 0 <= low e /\ low e + erange e <= 1024;
  si_range : erange e = width I;
  si_outstanding : 0 <= outstanding e <= scale I;
  si_scale : scale I <= n;
  si_bound : base I + width I <= 510 * 2 ^ scale I;
  si_base : exists v,
    base I = v * 2 ^ (10 + outstanding e) + (2 ^ outstanding e - 1) * 2 ^ 9 + low e /\
    if first_bit e then v = 0 /\ written e = [] /\ scale I = outstanding e
    else v = bits_number (written e) /\ scale I = zlen (written e) + 1 + outstanding e;
}.

Lemma bits_number_pend l o (b : Z) (first : bool) :
  0 <= o -> 0 <= b <= 1 -> (first = true -> l = [] /\ b = 0) ->
  bits_number (l ++ (if first then [] else [b =? 1]) ++ replicate (Z.to_nat o) (negb (b =? 1)))
    = (2 * bits_number l + b) * 2 ^ o + (if b =? 1 then 0 else 2 ^ o - 1).
Proof.
  intros Ho Hb Hf. rewrite app_assoc, bits_number_same, Z2Nat.id by done. destruct first.
  - destruct (Hf eq_refl) as [-> ->]. cbn. lia.
  - rewrite bits_number_snoc. assert (b = 0 \/ b = 1) as [-> | ->] by lia; cbn [Z.b2z Z.eqb negb Pos.eqb]; lia.
Qed.

(** One doubling of the base, in the three cases of the encoder. The low part
    before the doubling is [x], the range after it [w]. *)
Lemma doubled e I n v x w b :
  wf e -> 0 <= outstanding e <= scale I -> scale I + 1 <= n -> n < 2 ^ 63 -> 0 <= base I ->
  (if first_bit e then v = 0 /\ written e = [] /\ scale I = outstanding e
   else v = bits_number (written e) /\ scale I = zlen (written e) + 1 + outstanding e) ->
  b = v * 2 ^ (11 + outstanding e) + (2 ^ outstanding e - 1) * 2 ^ 10 + x ->
  0 <= x -> x + w <= 2048 -> 0 <= w <= 510 -> b + w <= 510 * 2 ^ (scale I + 1) ->
  let J := Interval (scale I + 1) b w in
  (forall e', x < 1024 -> x + w <= 1024 -> low e' = x -> erange e' = w -> first_bit e' = first_bit (put_bit 0 e) ->
     outstanding e' = outstanding (put_bit 0 e) -> wf e' -> overflowed (put_bit 0 e) = false ->
     written e' = written (put_bit 0 e) -> spells_interval e' J n) /\
  (forall e', 1024 <= x -> low e' = x - 1024 -> erange e' = w -> first_bit e' = first_bit (put_bit 1 e) ->
     outstanding e' = outstanding (put_bit 1 e) -> wf e' -> overflowed (put_bit 1 e) = false ->
     written e' = written (put_bit 1 e) -> spells_interval e' J n) /\
  (forall e', 512 <= x -> x - 512 + w <= 1024 -> low e' = x - 512 -> erange e' = w -> first_bit e' = first_bit e ->
     outstanding e' = sat_u 64 (outstanding e + 1) -> wf e' -> written e' = written e -> spells_interval e' J n).
Proof.
  intros Hw Ho Hn Hn63 Hb0 Hv Hb Hx Hxw Hw510 Hbw J.
  set (o := outstanding e) in *. assert (0 < 2 ^ o) as Hpo by (apply Z.pow_pos_nonneg; lia).
  assert (2 ^ (11 + o) = 2 ^ o * 2048) as E11 by (rewrite Z.pow_add_r by lia; change (2 ^ 11) with 2048; lia).
  assert (2 ^ (10 + 0) = 1024) as E10 by done.
  split_and!.
  - intros e' Hx1 Hxw1 El Er Ef Eo Hwf Hov Ewr.
    destruct (put_bit_ok 0 e Hw ltac:(lia) ltac:(lia) Hov) as (_ & _ & _ & _ & Pf & _ & Po & Pw). rewrite Pf, Po, Pw in *.
    split; [done|lia|done|cbn; lia|cbn; lia|done|]. rewrite Ef, Eo, Ewr. eexists. split; [|split; [reflexivity|]].
    + cbn [base J]. rewrite (bits_number_pend _ _ 0); [|lia|lia|intros E1; rewrite E1 in Hv; tauto]. fold o.
      assert (bits_number (written e) = v) as -> by (destruct (first_bit e); [destruct Hv as (-> & -> & _)|destruct Hv as [-> _]]; done).
      cbn [Z.eqb]. rewrite E10, Hb, E11. change (2 ^ 9) with 512. change (2 ^ 10) with 1024. change (2 ^ 0) with 1. rewrite El. lia.
    + cbn [scale J]. rewrite !zlen_app, zlen_replicate, Z2Nat.id by lia. fold o. destruct (first_bit e).
      * destruct Hv as (_ & -> & ->). unfold zlen; cbn [length]; lia.
      * destruct Hv as (_ & ->). unfold zlen; cbn [length]; lia.
  - intros e' Hx1 El Er Ef Eo Hwf Hov Ewr.
    destruct (put_bit_ok 1 e Hw ltac:(lia) ltac:(lia) Hov) as (_ & _ & _ & _ & Pf & _ & Po & Pw). rewrite Pf, Po, Pw in *.
    assert (first_bit e = false) as E1.
    { destruct (first_bit e); [|done]. destruct Hv as (-> & _ & Es). rewrite Es, Z.pow_add_r in Hbw by lia.
      change (2 ^ 1) with 2 in Hbw. change (2 ^ 10) with 1024 in Hb. nia. }
    rewrite E1 in *. destruct Hv as [Ev Es].
    split; [done|lia|done|cbn; lia|cbn; lia|done|]. rewrite Ef, Eo, Ewr. eexists. split; [|split; [reflexivity|]].
    + cbn [base J]. rewrite (bits_number_pend _ _ 1 false); [|lia|lia|done]. fold o. rewrite <- Ev.
      cbn [Z.eqb Pos.eqb]. rewrite E10, Hb, E11. change (2 ^ 9) with 512. change (2 ^ 10) with 1024. change (2 ^ 0) with 1. rewrite El. lia.
    + cbn [scale J]. rewrite !zlen_app, zlen_replicate, Z2Nat.id by lia. fold o. rewrite Es. unfold zlen; cbn [length]; lia.
  - intros e' Hx1 Hxw1 El Er Ef Eo Hwf Ewr. rewrite sat_u_id in Eo by lia.
    split; [done|lia|done|cbn; lia|cbn; lia|done|]. exists v. split.
    + cbn [base J]. rewrite Eo, El, Hb. rewrite (Z.add_comm o 1), Z.add_assoc. change (10 + 1) with 11. rewrite E11.
      rewrite Z.pow_add_r by lia. change (2 ^ 9) with 512. change (2 ^ 10) with 1024. change (2 ^ 1) with 2. lia.
    + rewrite Ef, Ewr, Eo. cbn [scale J]. destruct (first_bit e); [destruct Hv as (? & ? & ?)|destruct Hv as (? & ?)]; split_and!; done || lia.
Qed.

Lemma write_bit_set_low b e x : write_bit b (set_low e x) = set_low (write_bit b e) x.
Proof. unfold write_bit, set_low. cbn. destruct (max_bytes e <=? zlen (out e)); [done|]. by destruct (bit_count e + 1 =? 8). Qed.

Lemma outstanding_loop_set_low n b e x : outstanding_loop n b (set_low e x) = set_low (outstanding_loop n b e) x.
Proof.
  revert e. induction n as [|n IH]; intros e; cbn [outstanding_loop]; [done|]. rewrite write_bit_set_low.
  cbn [overflowed set_low set_outstanding]. destruct (overflowed (write_bit _ e)); [done|]. rewrite <- IH. done.
Qed.

Lemma put_bit_set_low b e x : put_bit b (set_low e x) = set_low (put_bit b e) x.
Proof.
  unfold put_bit. cbn [first_bit set_low]. destruct (first_bit e).
  - rewrite <- outstanding_loop_set_low. done.
  - change (Encoder x (erange e) (outstanding e) false (out e) (partial e) (bit_count e) (max_bytes e) (overflowed e))
      with (Encoder x (erange e) (outstanding e) false (out e) (partial e) (bit_count e) (max_bytes e) (overflowed e)).
    rewrite write_bit_set_low, outstanding_loop_set_low. done.
Qed.

(** One round of the renormalisation. *)
Lemma erenorm_step e I n :
  spells_interval e I n -> 0 < width I < 256 -> 0 <= base I -> scale I + 1 <= n -> n < 2 ^ 63 ->
  let e1 :=
    if low e <? 256 then put_bit 0 e
    else if 512 <=? low e then put_bit 1 (set_low e (low e - 512))
    else set_outstanding (set_low e (low e - 256)) (sat_u 64 (outstanding e + 1)) in
  let e2 := set_range e1 (wrap_u 32 (Z.shiftl (erange e1) 1)) in
  let e' := set_low e2 (wrap_u 32 (Z.shiftl (low e2) 1)) in
  overflowed e' = false -> spells_interval e' (Interval (scale I + 1) (2 * base I) (2 * width I)) n.
Proof.
  intros [Hw Hl Hr Ho Hs Hbd (v & Hb & Hv)] HwI Hb0 Hn Hn63 e1 e2 e' Hov.
  assert (0 < 2 ^ outstanding e) as Hpo by (apply Z.pow_pos_nonneg; lia).
  assert (2 ^ (10 + outstanding e) * 2 = 2 ^ (11 + outstanding e)) as E11 by (rewrite Z.mul_comm, <- Z.pow_succ_r by lia; f_equal; lia).
  assert (low e' = 2 * low e2 /\ erange e' = 2 * erange e1) as [El Er].
  { assert (0 <= low e1 < 1024 /\ erange e1 = erange e) as [H1 H2].
    { unfold e1. subst e1 e2 e'. cbn [overflowed set_low set_range] in Hov.
      destruct (Z.ltb_spec (low e) 256) as [H1|H1]; [|destruct (Z.leb_spec 512 (low e)) as [H2|H2]].
      - destruct (put_bit_ok 0 e Hw ltac:(lia) ltac:(lia) Hov) as (_ & _ & -> & -> & _). lia.
      - destruct (put_bit_ok 1 (set_low e (low e - 512)) ltac:(by destruct Hw) ltac:(lia) ltac:(cbn; lia) Hov) as (_ & _ & -> & -> & _). cbn. lia.
      - cbn. lia. }
    unfold e', e2. cbn [low erange set_low set_range]. rewrite !wrap_shl by lia. done. }
  destruct (doubled e I n v (2 * low e) (2 * width I) (2 * base I) Hw ltac:(lia) ltac:(lia) ltac:(lia) Hb0 Hv) as (D0 & D1 & D2);
    [rewrite Hb; change (2 ^ 10) with (2 ^ 9 * 2); lia|lia|lia|lia|rewrite Z.pow_add_r by lia; change (2 ^ 1) with 2; lia|].
  subst e1 e2 e'. cbn [overflowed low erange set_low set_range] in Hov, El, Er.
  destruct (Z.ltb_spec (low e) 256) as [H1|H1]; [|destruct (Z.leb_spec 512 (low e)) as [H2|H2]].
  - destruct (put_bit_ok 0 e Hw ltac:(lia) ltac:(lia) Hov) as (_ & [W1 W2 W3] & Pl & Pr & _).
    apply D0; cbn [low erange set_low set_range]; first [done|lia|by split].
  - destruct (put_bit_ok 1 (set_low e (low e - 512)) ltac:(by destruct Hw) ltac:(lia) ltac:(cbn; lia) Hov) as (_ & [W1 W2 W3] & Pl & Pr & _).
    cbn [low erange set_low] in Pl, Pr.
    rewrite put_bit_set_low in *. cbn [low erange set_low] in Pr.
    apply D1; cbn [low erange set_low set_range]; first [done|lia|by split|rewrite ?Pr, wrap_shl; lia].
  - apply D2; cbn [low erange set_low set_range set_outstanding]; first [done|lia|by destruct Hw|rewrite wrap_shl; lia].
Qed.

Lemma normalise_step fuel s b w :
  shifts (S fuel) w = (if w <? 256 then 1 + shifts fuel (2 * w) else 0) /\
  ((w <? 256) = true -> Interval (s + shifts (S fuel) w) (b * 2 ^ shifts (S fuel) w) (w * 2 ^ shifts (S fuel) w)
    = Interval (s + 1 + shifts fuel (2 * w)) (2 * b * 2 ^ shifts fuel (2 * w)) (2 * w * 2 ^ shifts fuel (2 * w))).
Proof.
  split; [done|]. intros Hw. cbn [shifts]. rewrite Hw. pose proof (shifts_nonneg fuel (2 * w)).
  rewrite !Z.pow_add_r by lia. change (2 ^ 1) with 2. f_equal; lia.
Qed.

Lemma erenorm_loop_ok fuel e s b w n :
  spells_interval e (Interval s b w) n -> 0 < w -> 0 <= b -> s + Z.of_nat fuel <= n -> n < 2 ^ 63 ->
  overflowed (erenorm_loop fuel e) = false ->
  let k := shifts fuel w in
  overflowed e = false /\ spells_interval (erenorm_loop fuel e) (Interval (s + k) (b * 2 ^ k) (w * 2 ^ k)) n.
Proof.
  revert e s b w. induction fuel as [|fuel IH]; intros e s b w He Hw Hb Hn Hn63 Hov k.
  { subst k. cbn [shifts erenorm_loop] in *. by rewrite Z.add_0_r, !Z.mul_1_r. }
  subst k. destruct (normalise_step fuel s b w) as [E1 E2]. cbn [erenorm_loop] in *. pose proof (si_range _ _ _ He) as Er. cbn [width] in Er.
  subst w.
  destruct (erange e <? 256) eqn:Elt.
  2: { rewrite E1, Z.add_0_r, !Z.mul_1_r. done. }
  apply Z.ltb_lt in Elt as Hlt. rewrite E2 by done. set (e' := set_low _ _) in *.
  assert (overflowed e' = false) as Hov'.
  { destruct (overflowed e') eqn:E; [|done]. by rewrite (erenorm_overflowed fuel e' E) in Hov. }
  assert (spells_interval e' (Interval (s + 1) (2 * b) (2 * erange e)) n) as He'.
  { apply (erenorm_step e (Interval s b (erange e)) n He); cbn [width scale base]; [lia..|].
    exact Hov'. }
  destruct (IH e' _ _ _ He' ltac:(lia) ltac:(lia) ltac:(lia) Hn63 Hov) as [_ Hr]. split; [|exact Hr].
  destruct (overflowed e) eqn:E; [|done]. exfalso. clear - E Hov'. unfold e' in Hov'. cbn [overflowed set_low set_range] in Hov'.
  destruct (low e <? 256); [by rewrite put_bit_overflowed in Hov'|].
  destruct (512 <=? low e); [rewrite put_bit_set_low in Hov'; cbn [overflowed set_low] in Hov'; by rewrite put_bit_overflowed in Hov'|].
  cbn in Hov'. congruence.
Qed.

(** Taking a part of the interval. *)
Lemma spells_part e I n a w :
  spells_interval e I n -> 0 <= a -> 0 <= w -> a + w <= width I ->
  spells_interval (set_range (set_low e (low e + a)) w) (Interval (scale I) (base I + a) w) n.
Proof.
  intros [Hw Hl Hr Ho Hs Hbd (v & Hb & Hv)] Ha Hw0 Haw.
  split; cbn [low erange outstanding first_bit set_low set_range scale base width]; [by destruct Hw|lia|done|done|done|lia|].
  exists v. split; [lia|exact Hv].
Qed.

Lemma spells_same e e' I n :
  e' = e -> spells_interval e I n -> spells_interval e' I n.
Proof. by intros ->. Qed.

Lemma set_low_same e : set_low e (low e + 0) = e.
Proof. rewrite Z.add_0_r. by destruct e. Qed.

Lemma bin_land b : 0 <= b <= 1 -> Z.land b 1 = b.
Proof. intros Hb. assert (b = 0 \/ b = 1) as [-> | ->] by lia; done. Qed.

Lemma erenorm_eq e : erenorm e = erenorm_loop 8 e.
Proof. done. Qed.

Lemma erenorm_ok e s b w n :
  spells_interval e (Interval s b w) n -> 2 <= w <= 510 -> 0 <= b -> s + 8 <= n -> n < 2 ^ 63 ->
  overflowed (erenorm e) = false -> overflowed e = false /\ spells_interval (erenorm e) (normalise (Interval s b w)) n.
Proof.
  intros He Hw Hb Hs Hn Hov. assert (s + Z.of_nat 8 <= n) as Hs' by (change (Z.of_nat 8) with 8; exact Hs).
  assert (0 < w) as Hw0 by lia. rewrite erenorm_eq in *.
  pose proof (erenorm_loop_ok 8 e s b w n He Hw0 Hb Hs' Hn Hov) as Hr. exact Hr.
Qed.

Lemma encode_decision_ok ctx bin e I n ctx' e' :
  spells_interval e I n -> regular I -> ctx_ok ctx -> 0 <= bin <= 1 -> scale I + 8 <= n -> n < 2 ^ 63 ->
  encode_decision ctx bin e = (ctx', e') -> overflowed e' = false ->
  ctx' = table TRANS (if bin =? Z.land ctx 1 then ctx else 256 + ctx) /\ overflowed e = false /\
  spells_interval e' (split_decision ctx bin I) n.
Proof.
  intros He (Hs & Hb & Hw) Hc Hbin Hn Hn63. pose proof (lps_table ctx (width I) Hc Hw) as Hl. fold (lps ctx (width I)) in Hl.
  unfold encode_decision. pose proof (si_low _ _ _ He) as Hlow. rewrite (si_range _ _ _ He) in *. fold (lps ctx (width I)).
  rewrite bin_land by done. rewrite (wrap_u_id 32 (width I - lps ctx (width I))) by lia.
  intros [= <- <-] Hov. unfold ctx_ok in Hc.
  destruct I as [s b w]. unfold split_decision. cbn [width scale base] in *. set (l := lps ctx w) in *.
  destruct (Z.eqb_spec bin (Z.land ctx 1)) as [->|Hne]; cbn [negb Z.b2z Z.eqb Pos.eqb] in *.
  - split; [done|]. pose proof (spells_part _ _ _ 0 (w - l) He ltac:(lia) ltac:(lia) ltac:(cbn; lia)) as Hp.
    rewrite set_low_same in Hp. cbn [width scale base] in Hp. rewrite Z.add_0_r in Hp.
    by destruct (erenorm_ok _ _ _ _ _ Hp ltac:(lia) ltac:(lia) ltac:(lia) Hn63 Hov).
  - split; [f_equal; rewrite (lor_disjoint 1 ctx 8); lia|]. cbn [low erange set_range set_low] in *. rewrite wrap_u_id in Hov |- * by lia.
    pose proof (spells_part _ _ _ (w - l) l He ltac:(lia) ltac:(lia) ltac:(cbn; lia)) as Hp. cbn [width scale base] in Hp.
    by destruct (erenorm_ok _ _ _ _ _ Hp ltac:(lia) ltac:(lia) ltac:(lia) Hn63 Hov).
Qed.

Lemma encode_bypass_ok bin e I n :
  spells_interval e I n -> regular I -> 0 <= bin <= 1 -> scale I + 1 <= n -> n < 2 ^ 63 ->
  overflowed (encode_bypass bin e) = false ->
  overflowed e = false /\ spells_interval (encode_bypass bin e) (split_bypass bin I) n.
Proof.
  intros [Hw Hl Hr Ho Hs Hbd (v & Hb & Hv)] (Hs0 & Hb0 & HwI) Hbin Hn Hn63. unfold encode_bypass. rewrite bin_land by done.
  set (x := 2 * low e + bin * width I).
  assert ((if negb (bin =? 0) then set_low (set_low e (wrap_u 32 (low e ≪ 1)))
     (wrap_u 32 (low (set_low e (wrap_u 32 (low e ≪ 1))) + erange (set_low e (wrap_u 32 (low e ≪ 1)))))
     else set_low e (wrap_u 32 (low e ≪ 1))) = set_low e x) as ->.
  { cbn [low erange set_low]. rewrite wrap_shl by lia. unfold x.
    assert (bin = 0 \/ bin = 1) as [-> | ->] by lia; cbn [negb Z.eqb]; [f_equal; lia|]. unfold set_low at 1. cbn.
    rewrite wrap_u_id by lia. unfold set_low. f_equal; lia. }
  assert (2 ^ (10 + outstanding e) * 2 = 2 ^ (11 + outstanding e)) as E11 by (rewrite Z.mul_comm, <- Z.pow_succ_r by lia; f_equal; lia).
  destruct (doubled e I n v x (width I) (2 * base I + bin * width I) Hw ltac:(lia) ltac:(lia) ltac:(lia) Hb0 Hv) as (D0 & D1 & D2);
    [rewrite Hb; unfold x; change (2 ^ 10) with (2 ^ 9 * 2); lia|unfold x; nia|unfold x; nia|lia
    |rewrite Z.pow_add_r by lia; change (2 ^ 1) with 2; nia|].
  cbn [low set_low]. rewrite !put_bit_set_low. cbn [low set_low outstanding]. fold (split_bypass bin I).
  assert (0 <= x) as Hx by (unfold x; nia). unfold split_bypass.
  destruct (Z.leb_spec 1024 x) as [H1|H1]; [|destruct (Z.ltb_spec x 512) as [H2|H2]]; cbn [overflowed set_low set_outstanding]; intros Hov.
  - destruct (put_bit_ok 1 e Hw ltac:(lia) ltac:(lia) Hov) as (He & [W1 W2 W3] & Pl & Pr & _). split; [done|].
    apply D1; cbn [low erange set_low]; first [done|lia|by split].
  - destruct (put_bit_ok 0 e Hw ltac:(lia) ltac:(lia) Hov) as (He & [W1 W2 W3] & Pl & Pr & _). split; [done|].
    apply D0; cbn [low erange set_low]; first [done|lia|by split].
  - split; [done|]. apply D2; cbn [low erange set_low set_outstanding]; first [done|lia|by destruct Hw].
Qed.

Lemma encode_continue_ok e I n :
  spells_interval e I n -> regular I -> scale I + 8 <= n -> n < 2 ^ 63 ->
  overflowed (encode_terminate 0 e) = false ->
  overflowed e = false /\ spells_interval (encode_terminate 0 e) (split_continue I) n.
Proof.
  intros He (Hs & Hb & Hw) Hn Hn63. unfold encode_terminate. change (negb (Z.land 0 1 =? 0)) with false. cbv iota zeta. rewrite (si_range _ _ _ He), wrap_u_id by lia.
  intros Hov. pose proof (spells_part _ _ _ 0 (width I - 2) He ltac:(lia) ltac:(lia) ltac:(lia)) as Hp.
  rewrite set_low_same, Z.add_0_r in Hp. by destruct (erenorm_ok _ _ _ _ _ Hp ltac:(lia) ltac:(lia) ltac:(lia) Hn63 Hov).
Qed.

(** The last bits of a multiple of 128, with the stop bit. *)
Lemma flush_bits low y :
  low = 128 * y -> 0 <= y < 8 ->
  let b := Z.land (Z.shiftr low 9) 1 in
  let t := Z.lor (Z.land (Z.shiftr low 7) 3) 1 in
  0 <= b <= 1 /\ 0 <= Z.shiftr t 1 <= 1 /\ 0 <= Z.land t 1 <= 1 /\
  b = y / 4 /\ 2 * Z.shiftr t 1 + Z.land t 1 = t /\ y <= 4 * b + t <= y + 1.
Proof.
  intros -> Hy.
  assert (y = 0 \/ y = 1 \/ y = 2 \/ y = 3 \/ y = 4 \/ y = 5 \/ y = 6 \/ y = 7) as Hc by lia.
  repeat destruct Hc as [-> | Hc]; [..|subst y]; vm_compute; repeat split; discriminate.
Qed.

(** What [flush] writes once renormalised. *)
Definition flush_tail (e : encoder) : encoder :=
  let t := Z.lor (Z.land (Z.shiftr (low e) 7) 3) 1 in
  write_bit (Z.land t 1) (write_bit (Z.shiftr t 1) (put_bit (Z.land (Z.shiftr (low e) 9) 1) e)).

Lemma flush_eq e : flush e = flush_tail (erenorm (set_range e 2)).
Proof.
  unfold flush. generalize (erenorm (set_range e 2)) as e1. intros e1. cbv zeta. unfold flush_tail.
  assert (low (put_bit (Z.land (Z.shiftr (low e1) 9) 1) e1) = low e1) as ->; [|done].
  pose proof (put_bit_set_low (Z.land (Z.shiftr (low e1) 9) 1) e1 (low e1)) as E1.
  replace (set_low e1 (low e1)) with e1 in E1 by (by destruct e1). rewrite E1. done.
Qed.

Lemma flush_tail_ok e s c n :
  spells_interval e (Interval (s + 7) (128 * c) 256) n -> n < 2 ^ 63 -> overflowed (flush_tail e) = false ->
  overflowed e = false /\ wf (flush_tail e) /\ zlen (written (flush_tail e)) = 9 + s /\
  c <= bits_number (written (flush_tail e)) < c + 2.
Proof.
  intros [W2 L2 R2 O2 S2 B2 (v & Hv & Hf)] Hn63 Hov. unfold flush_tail in *. cbn [width scale base] in *.
  set (b := Z.land (Z.shiftr (low e) 9) 1) in *. set (t := Z.lor (Z.land (Z.shiftr (low e) 7) 3) 1) in *.
  assert (overflowed (write_bit (Z.shiftr t 1) (put_bit b e)) = false) as Hov1
    by (destruct (overflowed (write_bit (Z.shiftr t 1) _)) eqn:E; [by rewrite (write_bit_overflowed _ _ E) in Hov|done]).
  assert (overflowed (put_bit b e) = false) as Hov2
    by (destruct (overflowed (put_bit b e)) eqn:E; [by rewrite (write_bit_overflowed _ _ E) in Hov1|done]).
  set (o := outstanding e) in *. assert (0 < 2 ^ o) as Hpo by (apply Z.pow_pos_nonneg; lia).
  assert (2 ^ (10 + o) = 128 * (8 * 2 ^ o)) as E10 by (rewrite Z.pow_add_r by lia; change (2 ^ 10) with 1024; lia).
  set (y := c - v * (8 * 2 ^ o) - (2 ^ o - 1) * 4).
  destruct (flush_bits (low e) y) as (Hbb & Ht1 & Ht0 & Hby & Et & Hyt);
    [change (2 ^ 9) with 512 in Hv; unfold y; lia|change (2 ^ 9) with 512 in Hv; unfold y; lia|]. fold b t in Hbb, Ht1, Ht0, Hby, Et, Hyt.
  destruct (put_bit_ok b e W2 Hbb ltac:(lia) Hov2) as (Hov3 & W3 & _ & _ & _ & _ & _ & Wr3).
  destruct (write_bit_ok (Z.shiftr t 1) _ W3 Ht1 Hov1) as (_ & W4 & _ & _ & Wr4).
  destruct (write_bit_ok (Z.land t 1) _ W4 Ht0 Hov) as (_ & W5 & _ & _ & Wr5). split; [exact Hov3|]. split; [exact W5|].
  rewrite Wr5, Wr4, Wr3. assert (first_bit e = true -> written e = [] /\ b = 0) as Hfb.
  { intros E1. rewrite E1 in Hf. destruct Hf as (-> & -> & Es). split; [done|]. rewrite Hby. apply Z.div_small. rewrite Es in B2. unfold y in *. nia. }
  split.
  - rewrite !zlen_app, zlen_replicate, Z2Nat.id by lia. fold o. destruct (first_bit e); destruct Hf as (H1 & H2).
    + destruct H2 as [-> H2]. unfold zlen. cbn [length]. lia.
    + unfold zlen in *. cbn [length] in *. lia.
  - rewrite !bits_number_snoc, (bits_number_pend _ _ b) by done || lia. fold o.
    assert (bits_number (written e) = v) as -> by (destruct (first_bit e); [destruct Hf as (-> & -> & _)|destruct Hf as [-> _]]; done).
    assert (forall x, 0 <= x <= 1 -> Z.b2z (x =? 1) = x) as Hx by (intros x Hx; assert (x = 0 \/ x = 1) as [-> | ->] by lia; done).
    rewrite !Hx by done.
    assert (b = 0 \/ b = 1) as [Eb | Eb] by lia; rewrite Eb in *; cbn [Z.eqb Pos.eqb]; unfold y in *; lia.
Qed.

Lemma encode_terminate_eq e :
  encode_terminate 1 e = flush (set_low (set_range e (wrap_u 32 (erange e - 2))) (wrap_u 32 (low e + wrap_u 32 (erange e - 2)))).
Proof. unfold encode_terminate. change (negb (Z.land 1 1 =? 0)) with true. by cbv iota zeta. Qed.

(** Terminating pins the code to the last two points of the interval. *)
Lemma encode_terminate_ok e I n :
  spells_interval e I n -> regular I -> scale I + 8 <= n -> n < 2 ^ 63 ->
  overflowed (encode_terminate 1 e) = false ->
  overflowed e = false /\ wf (encode_terminate 1 e) /\ zlen (written (encode_terminate 1 e)) = 9 + scale I /\
  base I + width I - 2 <= bits_number (written (encode_terminate 1 e)) < base I + width I.
Proof.
  intros He (Hs & Hb & Hw) Hn Hn63. pose proof (si_low _ _ _ He) as Hlow.
  assert (encode_terminate 1 e = flush_tail (erenorm (set_range (set_low e (low e + (width I - 2))) 2))) as ->.
  { rewrite <- (si_range _ _ _ He) in *.
    rewrite encode_terminate_eq, flush_eq, (wrap_u_id 32 (erange e - 2)), wrap_u_id by lia. do 2 f_equal. }
  intros Hov. pose proof (spells_part _ _ _ (width I - 2) 2 He ltac:(lia) ltac:(lia) ltac:(lia)) as Hp.
  revert Hov. generalize (erenorm_ok _ _ _ _ _ Hp ltac:(lia) ltac:(lia) ltac:(lia) Hn63).
  assert (overflowed (set_range (set_low e (low e + (width I - 2))) 2) = overflowed e) as -> by done.
  generalize (erenorm (set_range (set_low e (low e + (width I - 2))) 2)) as e2. intros e2 Hr Hov.
  assert (overflowed e2 = false) as Hov2.
  { destruct (overflowed e2) eqn:E; [|done]. unfold flush_tail in Hov. cbv zeta in Hov.
    by rewrite (write_bit_overflowed _ _ (write_bit_overflowed _ _ (put_bit_overflowed _ _ E))) in Hov. }
  destruct (Hr Hov2) as [Hov3 He2]. unfold normalise in He2. cbn [width scale base] in He2.
  change (shifts 8 2) with 7 in He2. change (2 ^ 7) with 128 in He2. change (2 * 128) with 256 in He2. rewrite (Z.mul_comm _ 128) in He2.
  destruct (flush_tail_ok _ _ _ _ He2 Hn63 Hov) as (_ & H1 & H2 & H3). split; [exact Hov3|]. split; [exact H1|]. split; [exact H2|]. lia.
Qed.

(** ** Calls that convey a value *)

(** The context after a bin. *)
Definition next_ctx (ctx bin : Z) : Z := table TRANS (if bin =? Z.land ctx 1 then ctx else 256 + ctx).

Lemma next_ctx_ok ctx bin : ctx_ok ctx -> ctx_ok (next_ctx ctx bin).
Proof. unfold ctx_ok, next_ctx. intros Hc. destruct (bin =? _); pose proof (trans_table ctx); pose proof (trans_table (256 + ctx)); lia. Qed.

(** The binarizations of clause 9.3.3.1, written with the encoder's calls. *)
Fixpoint encode_ones (n : nat) (ctx : Z) (e : encoder) : Z * encoder :=
  match n with
  | O => (ctx, e)
  | S n => let '(ctx, e) := encode_decision ctx 1 e in encode_ones n ctx e
  end.

Definition encode_tu (ctx c_max v : Z) (e : encoder) : Z * encoder :=
  let '(ctx, e) := encode_ones (Z.to_nat v) ctx e in
  if v <? c_max then encode_decision ctx 0 e else (ctx, e).

Definition encode_uegk (ctx u_coff k : Z) (signed_val_flag : bool) (v : Z) (e : encoder) : Z * encoder :=
  let m := Z.abs v in
  let '(ctx, e) := encode_tu ctx u_coff (Z.min m u_coff) e in
  let e := if u_coff <=? m then encode_bypass_egk k (m - u_coff) e else e in
  (ctx, if signed_val_flag && negb (m =? 0) then encode_bypass (Z.b2z (v <? 0)) e else e).

Definition encode_request (q : request) (v : Z) (ctxs : list Z) (e : encoder) : list Z * encoder :=
  let context (i : nat) (x : Z * encoder) := let '(c, e) := x in (<[i:=c]> ctxs, e) in
  match q with
  | RDecision i => context i (encode_decision (nth i ctxs 0) v e)
  | RBypass => (ctxs, encode_bypass v e)
  | RBits n => (ctxs, encode_bypass_bits n v e)
  | REgk k => (ctxs, encode_bypass_egk k v e)
  | RTu i c_max => context i (encode_tu (nth i ctxs 0) c_max v e)
  | RUegk i u_coff k signed => context i (encode_uegk (nth i ctxs 0) u_coff k signed v e)
  | RTerminate => (ctxs, encode_terminate v e)
  end.

Fixpoint encode_all (qs : list (request * Z)) (ctxs : list Z) (e : encoder) : list Z * encoder :=
  match qs with
  | [] => (ctxs, e)
  | (q, v) :: qs => let '(ctxs, e) := encode_request q v ctxs e in encode_all qs ctxs e
  end.

(** The values a request can carry. *)
Definition carries (q : request) (v : Z) : Prop :=
  match q with
  | RDecision _ | RBypass => 0 <= v <= 1
  | RBits n => n <= 32 /\ 0 <= v < 2 ^ n
  | REgk k => 0 <= v /\ v + 2 ^ Z.min k 31 < 2 ^ 32
  | RTu _ c_max => 0 <= v <= c_max
  | RUegk _ _ _ signed => (if signed : bool then - 2 ^ 31 < v else 0 <= v) /\ v < 2 ^ 31
  | RTerminate => v = 0
  end.

Section convey.
Context {R : Type} `{BitSource R} (f : Z -> bool) (limit : Z) (fl : bool) (p0 n : Z).
Hypothesis Hlim : p0 + 17 + n <= LIM.
Hypothesis Hn : n < 2 ^ 63.

(** [enc] writes what [dec] reads as [a], within [c] doublings. *)
Definition conveys {A : Type} (c : Z) (enc : encoder -> encoder) (dec : decoder R -> A * decoder R) (a : A) : Prop :=
  (forall e, overflowed e = true -> overflowed (enc e) = true) /\
  forall e I, spells_interval e I n -> regular I -> scale I + c + 8 <= n -> overflowed (enc e) = false ->
  exists J, regular J /\ inside I J /\ scale J <= scale I + c /\ spells_interval (enc e) J n /\
    forall d tm, follows f limit fl p0 d I tm -> code_in f p0 J ->
    exists d', dec d = (a, d') /\ follows f limit fl p0 d' J tm.

Lemma conveys_ret {A} (a : A) : conveys 0 (fun e => e) (fun d => (a, d)) a.
Proof.
  split; [done|]. intros e I He HI Hc Hov. exists I. split; [done|]. split; [apply inside_refl|]. split; [lia|]. split; [done|]. eauto.
Qed.

Lemma conveys_ext {A} c enc enc' (dec dec' : decoder R -> A * decoder R) a :
  (forall e, enc' e = enc e) -> (forall d, dec' d = dec d) -> conveys c enc dec a -> conveys c enc' dec' a.
Proof.
  intros E1 E2 [H1 H2]. split; [intros e; rewrite E1; apply H1|]. intros e I. rewrite E1. intros He HI Hc Hov.
  destruct (H2 e I He HI Hc Hov) as (J & ? & ? & ? & ? & Hd). exists J.
  split; [done|]. split; [done|]. split; [done|]. split; [done|]. intros d tm. rewrite E2. apply Hd.
Qed.

Lemma conveys_le {A} c c' enc (dec : decoder R -> A * decoder R) a : c <= c' -> conveys c enc dec a -> conveys c' enc dec a.
Proof.
  intros Hc [H1 H2]. split; [done|]. intros e I He HI Hs Hov. destruct (H2 e I He HI ltac:(lia) Hov) as (J & ? & ? & ? & ?).
  exists J. split; [done|]. split; [done|]. split; [lia|done].
Qed.

Lemma conveys_bind {A B} c1 c2 enc1 enc2 (dec1 : decoder R -> A * decoder R) (dec2 : A -> decoder R -> B * decoder R) a b :
  0 <= c2 -> conveys c1 enc1 dec1 a -> conveys c2 enc2 (dec2 a) b ->
  conveys (c1 + c2) (fun e => enc2 (enc1 e)) (fun d => let '(a, d) := dec1 d in dec2 a d) b.
Proof.
  intros Hc2 [M1 H1] [M2 H2]. split; [auto|]. intros e I He HI Hc Hov.
  assert (overflowed (enc1 e) = false) as Hov1 by (destruct (overflowed (enc1 e)) eqn:E; [by rewrite M2 in Hov|done]).
  destruct (H1 e I He HI ltac:(lia) Hov1) as (J & HJ & Hi & Hs & HeJ & Hd).
  destruct (H2 (enc1 e) J HeJ HJ ltac:(lia) Hov) as (K & HK & Hi' & Hs' & HeK & Hd').
  exists K. split; [done|]. split; [by eapply inside_trans|]. split; [lia|]. split; [done|]. intros d tm Hf Hk.
  destruct (Hd d tm Hf) as (d1 & -> & Hf1); [eapply code_in_inside; [|done|done]; by destruct HJ|]. by apply Hd'.
Qed.

(** [fmap] on what is read. *)
Lemma conveys_map {A B} c enc (dec : decoder R -> A * decoder R) (g : A -> B) a :
  conveys c enc dec a -> conveys c enc (fun d => let '(a, d) := dec d in (g a, d)) (g a).
Proof.
  intros H1. rewrite <- (Z.add_0_r c). apply (conveys_bind c 0 enc (fun e => e) dec (fun a d => (g a, d)) a (g a)); [lia|done|].
  apply (conveys_ret (g a)).
Qed.

Lemma conveys_decision ctx bin :
  ctx_ok ctx -> 0 <= bin <= 1 ->
  conveys 8 (fun e => snd (encode_decision ctx bin e)) (decode_decision ctx) (bin, next_ctx ctx bin).
Proof.
  intros Hc Hb. split.
  { intros e He. unfold encode_decision. cbn [snd]. apply erenorm_overflowed. by destruct (_ =? 1). }
  intros e I He HI Hs Hov. destruct (encode_decision ctx bin e) as [c' e'] eqn:E1. cbn [snd] in *.
  destruct (encode_decision_ok ctx bin e I n c' e' He HI Hc Hb ltac:(lia) Hn E1 Hov) as (_ & _ & He').
  destruct (split_decision_inside ctx bin I HI Hc) as [HJ Hi]. exists (split_decision ctx bin I). split; [done|]. split; [done|].
  split.
  { pose proof (lps_table ctx (width I) Hc ltac:(by destruct HI as (_ & _ & ?))) as Hl. fold (lps ctx (width I)) in Hl. destruct HI as (_ & _ & HI).
    unfold split_decision. destruct (bin =? _); unfold normalise; cbn [scale width].
    - destruct (shifts_spec (width I - lps ctx (width I))); lia.
    - destruct (shifts_spec (lps ctx (width I))); lia. }
  split; [done|]. intros d tm Hf Hc'. apply follow_decision; [done|done|done|done|]. lia.
Qed.

Lemma fst_encode_decision ctx bin e :
  0 <= bin <= 1 -> ctx_ok ctx -> fst (encode_decision ctx bin e) = next_ctx ctx bin.
Proof.
  intros Hb Hc. unfold encode_decision, next_ctx. cbn [fst]. rewrite bin_land by done. unfold ctx_ok in Hc.
  destruct (bin =? Z.land ctx 1); cbn [negb Z.b2z]; [done|]. f_equal. rewrite (lor_disjoint 1 ctx 8); lia.
Qed.

Lemma conveys_bypass bin : 0 <= bin <= 1 -> conveys 1 (encode_bypass bin) decode_bypass bin.
Proof.
  intros Hb. split.
  { intros e He. unfold encode_bypass. repeat case_match; cbn [overflowed set_low set_outstanding]; try apply put_bit_overflowed; done. }
  intros e I He HI Hs Hov. destruct (encode_bypass_ok bin e I n He HI Hb ltac:(lia) Hn Hov) as [_ He'].
  destruct (split_bypass_inside bin I HI Hb) as [HJ Hi]. exists (split_bypass bin I). split; [done|]. split; [done|].
  split; [cbn; lia|]. split; [done|]. intros d tm Hf Hc'. apply follow_bypass; [done|done|done|]. lia.
Qed.

Lemma conveys_continue : conveys 8 (encode_terminate 0) decode_terminate 0.
Proof.
  split.
  { intros e He. unfold encode_terminate. change (negb (Z.land 0 1 =? 0)) with false. cbv iota zeta. by apply erenorm_overflowed. }
  intros e I He HI Hs Hov. destruct (encode_continue_ok e I n He HI ltac:(lia) Hn Hov) as [_ He'].
  destruct (split_continue_inside I HI) as [HJ Hi]. exists (split_continue I). split; [done|]. split; [done|].
  split; [unfold split_continue, normalise; cbn [scale width]; destruct HI as (_ & _ & HI); destruct (shifts_spec (width I - 2)); lia|].
  split; [done|]. intros d tm Hf Hc'. apply follow_continue; [done|done|]. lia.
Qed.

(** *** Binarizations *)

Lemma conveys_bits m acc value :
  0 <= acc -> acc * 2 ^ Z.of_nat m + value mod 2 ^ Z.of_nat m < 2 ^ 32 ->
  conveys (Z.of_nat m) (encode_bits_loop m value) (bypass_loop m acc) (acc * 2 ^ Z.of_nat m + value mod 2 ^ Z.of_nat m).
Proof.
  revert acc. induction m as [|m IH]; intros acc Ha Hv; cbn [encode_bits_loop bypass_loop].
  { change (2 ^ Z.of_nat 0) with 1. rewrite Z.mod_1_r, Z.mul_1_r, Z.add_0_r. apply conveys_ret. }
  set (b := Z.land (Z.shiftr value (Z.of_nat m)) 1).
  assert (0 < 2 ^ Z.of_nat m) as Hp by (apply Z.pow_pos_nonneg; lia).
  assert (b = value / 2 ^ Z.of_nat m mod 2) as Eb.
  { unfold b. change 1 with (Z.ones 1) at 1. by rewrite Z.land_ones, Z.shiftr_div_pow2 by lia. }
  assert (value mod 2 ^ Z.of_nat (S m) = b * 2 ^ Z.of_nat m + value mod 2 ^ Z.of_nat m) as Ev.
  { rewrite Nat2Z.inj_succ, Z.pow_succ_r, (Z.mul_comm 2), Z.rem_mul_r by lia. rewrite Eb. lia. }
  pose proof (Z.mod_pos_bound (value / 2 ^ Z.of_nat m) 2 ltac:(lia)) as Hb. rewrite <- Eb in Hb. clearbody b.
  pose proof (Z.mod_pos_bound value (2 ^ Z.of_nat m) Hp) as Hm.
  rewrite Ev, Nat2Z.inj_succ, Z.pow_succ_r in Hv |- * by lia.
  assert (2 * acc < 2 ^ 32) as H32 by nia.
  replace (acc * (2 * 2 ^ Z.of_nat m) + (b * 2 ^ Z.of_nat m + value mod 2 ^ Z.of_nat m))
    with ((2 * acc + b) * 2 ^ Z.of_nat m + value mod 2 ^ Z.of_nat m) in Hv |- * by lia.
  replace (Z.succ (Z.of_nat m)) with (1 + Z.of_nat m) by lia.
  apply (conveys_bind 1 (Z.of_nat m) (encode_bypass b) (encode_bits_loop m value) decode_bypass
    (fun bin => bypass_loop m (Z.lor (wrap_u 32 (Z.shiftl acc 1)) bin)) b); [lia|by apply conveys_bypass; lia|].
  rewrite wrap_shl, lor_bit by lia. apply IH; [lia|done].
Qed.

Lemma conveys_bypass_bits k value :
  0 <= k <= 32 -> 0 <= value < 2 ^ k -> conveys 32 (encode_bypass_bits k value) (decode_bypass_bits k) value.
Proof.
  intros Hk Hv. unfold encode_bypass_bits, decode_bypass_bits. rewrite Z.min_l by lia.
  assert (2 ^ k <= 2 ^ 32) by (apply Z.pow_le_mono_r; lia).
  pose proof (conveys_bits (Z.to_nat k) 0 value ltac:(lia)) as Hc. rewrite Z2Nat.id in Hc by lia.
  rewrite Z.mod_small in Hc by done. rewrite Z.mul_0_l, Z.add_0_l in Hc. eapply conveys_le; [|apply Hc; lia]. lia.
Qed.

Lemma checked_shl_in k : 0 <= k <= 31 -> checked_shl k = Some (2 ^ k).
Proof. intros Hk. unfold checked_shl. rewrite (proj2 (Z.ltb_lt _ _)), Z.shiftl_mul_pow2, Z.mul_1_l by lia. done. Qed.

Lemma conveys_egk fuel k rest run acc :
  0 <= run <= k -> k <= 31 -> 32 - k <= Z.of_nat fuel -> 0 <= rest -> rest + 2 ^ k < 2 ^ 32 -> 0 <= acc -> acc + rest < 2 ^ 32 ->
  conveys (Z.of_nat fuel + 32) (encode_egk_loop (S fuel) k rest run) (egk_loop fuel acc k run) (acc + rest).
Proof.
  revert k rest run acc. induction fuel as [|fuel IH]; intros k rest run acc Hrun Hk Hf Hr Hrk Ha Har; [lia|].
  assert (0 < 2 ^ k) as Hp by (apply Z.pow_pos_nonneg; lia).
  replace (Z.of_nat (S fuel) + 32) with (1 + (Z.of_nat fuel + 32)) by lia.
  pose (dec2 := fun bin => if bin =? 1 then
      let value := sat_u 32 (acc + default 0 (checked_shl k)) in
      if (MAX_EGK_PREFIX <=? run + 1) || (31 <? k + 1) then
        fun d : decoder R => (value, Decoder (range d) (offset d) (reader d) true (terminated d))
      else egk_loop fuel value (k + 1) (run + 1)
    else fun d => let '(rest, d) := decode_bypass_bits k d in (sat_u 32 (acc + rest), d)).
  destruct (Z.leb_spec (2 ^ k) rest) as [Hle|Hlt].
  - assert (k + 1 <= 31) as Hk1.
    { destruct (Z.eq_dec k 31) as [->|]; [|lia]. change (2 ^ 32) with (2 * 2 ^ 31) in Hrk. lia. }
    apply (conveys_ext _ (fun e => encode_egk_loop (S fuel) (k + 1) (rest - 2 ^ k) (run + 1) (encode_bypass 1 e)) _
      (fun d => let '(bin, d) := decode_bypass d in dec2 bin d)).
    { intros e. cbn [encode_egk_loop]. rewrite checked_shl_in by lia. cbn [default from_option id].
      rewrite (proj2 (Z.leb_le _ _) Hle), (proj2 (Z.ltb_lt run 32)) by lia. cbn [andb].
      rewrite (proj2 (Z.ltb_ge 31 (k + 1))) by lia. done. }
    { intros d. cbn [egk_loop]. destruct (decode_bypass d) as [bin d']. unfold dec2. cbv zeta. destruct (bin =? 1); [|done].
      by destruct ((MAX_EGK_PREFIX <=? run + 1) || (31 <? k + 1)). }
    apply (conveys_bind 1 (Z.of_nat fuel + 32) (encode_bypass 1) (encode_egk_loop (S fuel) (k + 1) (rest - 2 ^ k) (run + 1))
      decode_bypass dec2 1); [lia|apply conveys_bypass; lia|]. unfold dec2. cbn [Z.eqb Pos.eqb].
    rewrite checked_shl_in by lia. cbn [default from_option id]. unfold MAX_EGK_PREFIX.
    rewrite (proj2 (Z.leb_gt 32 (run + 1))), (proj2 (Z.ltb_ge 31 (k + 1))), sat_u_id by lia. cbn [orb]. cbv zeta.
    replace (acc + rest) with (acc + 2 ^ k + (rest - 2 ^ k)) by lia.
    apply IH; [lia|lia|lia|lia| |lia|lia]. rewrite Z.pow_add_r by lia. change (2 ^ 1) with 2. lia.
  - apply (conveys_ext _ (fun e => encode_bypass_bits k rest (encode_bypass 0 e)) _
      (fun d => let '(bin, d) := decode_bypass d in dec2 bin d)).
    { intros e. cbn [encode_egk_loop]. rewrite checked_shl_in by lia. cbn [default from_option id].
      by rewrite (proj2 (Z.leb_gt _ _) Hlt). }
    { intros d. cbn [egk_loop]. destruct (decode_bypass d) as [bin d']. unfold dec2. cbv zeta. destruct (bin =? 1); [|done].
      by destruct ((MAX_EGK_PREFIX <=? run + 1) || (31 <? k + 1)). }
    apply (conveys_bind 1 (Z.of_nat fuel + 32) (encode_bypass 0) (encode_bypass_bits k rest) decode_bypass dec2 0);
      [lia|apply conveys_bypass; lia|]. unfold dec2. cbn [Z.eqb].
    eapply conveys_le; [|rewrite <- (sat_u_id 32 (acc + rest)) by lia;
      apply (conveys_map 32 (encode_bypass_bits k rest) (decode_bypass_bits k) (fun r => sat_u 32 (acc + r)) rest);
      apply conveys_bypass_bits; lia]. lia.
Qed.

Lemma conveys_bypass_egk k v :
  0 <= k -> 0 <= v -> v + 2 ^ Z.min k 31 < 2 ^ 32 -> conveys 64 (encode_bypass_egk k v) (decode_bypass_egk k) v.
Proof.
  intros Hk Hv Hvk. assert (0 < 2 ^ Z.min k 31) by (apply Z.pow_pos_nonneg; lia).
  apply (conveys_egk 32 (Z.min k 31) v 0 0); lia.
Qed.

Lemma encode_decision_eq ctx bin e :
  0 <= bin <= 1 -> ctx_ok ctx -> encode_decision ctx bin e = (next_ctx ctx bin, snd (encode_decision ctx bin e)).
Proof. intros Hb Hc. by rewrite <- (fst_encode_decision ctx bin e Hb Hc), <- surjective_pairing. Qed.

(** The context after a truncated unary prefix. *)
Fixpoint unary_ctx (fuel m : nat) (ctx : Z) : Z :=
  match fuel, m with
  | O, _ => ctx
  | S _, O => next_ctx ctx 0
  | S fuel, S m => unary_ctx fuel m (next_ctx ctx 1)
  end.

Lemma unary_ctx_ok fuel m ctx : ctx_ok ctx -> ctx_ok (unary_ctx fuel m ctx).
Proof. revert m ctx. induction fuel as [|fuel IH]; intros [|m] ctx Hc; cbn; auto using next_ctx_ok. Qed.

(** [encode_tu] with the counts in unary. *)
Definition unary (fuel m : nat) (ctx : Z) (e : encoder) : Z * encoder :=
  let '(ctx, e) := encode_ones m ctx e in if (m <? fuel)%nat then encode_decision ctx 0 e else (ctx, e).

Lemma unary_S fuel m ctx e : unary (S fuel) (S m) ctx e = let '(ctx, e) := encode_decision ctx 1 e in unary fuel m ctx e.
Proof. unfold unary. cbn [encode_ones]. by destruct (encode_decision ctx 1 e). Qed.

Lemma unary_fst fuel m ctx e : (m <= fuel)%nat -> ctx_ok ctx -> fst (unary fuel m ctx e) = unary_ctx fuel m ctx.
Proof.
  revert fuel ctx e. induction m as [|m IH]; intros fuel ctx e Hm Hc; destruct fuel as [|fuel]; try lia; [done| |].
  - unfold unary. cbn [encode_ones unary_ctx]. by apply fst_encode_decision.
  - rewrite unary_S. pose proof (fst_encode_decision ctx 1 e ltac:(lia) Hc) as E1.
    destruct (encode_decision ctx 1 e) as [c e1]. cbn [fst unary_ctx] in *. rewrite E1. apply IH; [lia|by apply next_ctx_ok].
Qed.

Lemma conveys_unary fuel m ctx acc :
  (m <= fuel)%nat -> ctx_ok ctx ->
  conveys (8 * Z.of_nat fuel) (fun e => snd (unary fuel m ctx e)) (tu_loop fuel acc ctx) (acc + Z.of_nat m, unary_ctx fuel m ctx).
Proof.
  revert fuel ctx acc. induction m as [|m IH]; intros fuel ctx acc Hm Hc; destruct fuel as [|fuel]; try lia.
  - rewrite Z.add_0_r. apply (conveys_ret (acc, ctx)).
  - replace (8 * Z.of_nat (S fuel)) with (8 + 8 * Z.of_nat fuel) by lia.
    pose (dec2 := fun x : Z * Z => if x.1 =? 0 then fun d : decoder R => (acc, x.2, d) else tu_loop fuel (acc + 1) x.2).
    apply (conveys_ext _ (fun e => snd (encode_decision ctx 0 e)) _ (fun d => let '(x, d) := decode_decision ctx d in dec2 x d)); [done| |].
    { intros d. cbn [tu_loop]. destruct (decode_decision ctx d) as [[bin c] d']. unfold dec2. cbn [fst snd]. by destruct (bin =? 0). }
    apply (conveys_bind 8 _ (fun e => snd (encode_decision ctx 0 e)) (fun e => e) (decode_decision ctx) dec2 (0, next_ctx ctx 0));
      [lia|by apply conveys_decision|]. unfold dec2. cbn [fst snd Z.eqb unary_ctx]. rewrite Z.add_0_r.
    eapply conveys_le; [|apply (conveys_ret (acc, next_ctx ctx 0))]. lia.
  - replace (8 * Z.of_nat (S fuel)) with (8 + 8 * Z.of_nat fuel) by lia.
    pose (dec2 := fun x : Z * Z => if x.1 =? 0 then fun d : decoder R => (acc, x.2, d) else tu_loop fuel (acc + 1) x.2).
    apply (conveys_ext _ (fun e => snd (unary fuel m (next_ctx ctx 1) (snd (encode_decision ctx 1 e)))) _ (fun d => let '(x, d) := decode_decision ctx d in dec2 x d)).
    { intros e. rewrite unary_S. pose proof (fst_encode_decision ctx 1 e ltac:(lia) Hc) as E1.
      destruct (encode_decision ctx 1 e) as [c e1]. cbn [fst snd] in *. rewrite E1. reflexivity. }
    { intros d. cbn [tu_loop]. destruct (decode_decision ctx d) as [[bin c] d']. unfold dec2. cbn [fst snd]. by destruct (bin =? 0). }
    apply (conveys_bind 8 _ (fun e => snd (encode_decision ctx 1 e)) (fun e => snd (unary fuel m (next_ctx ctx 1) e)) (decode_decision ctx) dec2 (1, next_ctx ctx 1));
      [lia|by apply conveys_decision|]. unfold dec2. cbn [fst snd Z.eqb Pos.eqb unary_ctx].
    replace (acc + Z.of_nat (S m)) with (acc + 1 + Z.of_nat m) by lia. apply IH; [lia|by apply next_ctx_ok].
Qed.

Lemma encode_tu_unary ctx c_max v e :
  0 <= v <= c_max -> encode_tu ctx c_max v e = unary (Z.to_nat c_max) (Z.to_nat v) ctx e.
Proof.
  intros Hv. unfold encode_tu, unary. destruct (encode_ones _ ctx e) as [c e'].
  destruct (Z.ltb_spec v c_max); destruct (Nat.ltb_spec (Z.to_nat v) (Z.to_nat c_max)); done || lia.
Qed.

Definition tu_ctx (ctx c_max v : Z) : Z := unary_ctx (Z.to_nat c_max) (Z.to_nat v) ctx.

Lemma conveys_tu ctx c_max v :
  0 <= v <= c_max -> ctx_ok ctx ->
  conveys (8 * c_max) (fun e => snd (encode_tu ctx c_max v e)) (decode_tu ctx c_max) (v, tu_ctx ctx c_max v).
Proof.
  intros Hv Hc. apply (conveys_ext _ (fun e => snd (unary (Z.to_nat c_max) (Z.to_nat v) ctx e)) _ (tu_loop (Z.to_nat c_max) 0 ctx));
    [intros e; by rewrite encode_tu_unary|done|].
  pose proof (conveys_unary (Z.to_nat c_max) (Z.to_nat v) ctx 0 ltac:(lia) Hc) as Hu. rewrite !Z2Nat.id in Hu by lia. exact Hu.
Qed.

Lemma fst_encode_tu ctx c_max v e : 0 <= v <= c_max -> ctx_ok ctx -> fst (encode_tu ctx c_max v e) = tu_ctx ctx c_max v.
Proof. intros Hv Hc. rewrite encode_tu_unary by done. apply unary_fst; [lia|done]. Qed.

Lemma conveys_uegk ctx u k (sg : bool) v :
  ctx_ok ctx -> 0 <= u < 2 ^ 32 -> 0 <= k -> carries (RUegk 0 u k sg) v ->
  conveys (8 * u + 65) (fun e => snd (encode_uegk ctx u k sg v e)) (decode_uegk ctx u k sg) (v, tu_ctx ctx u (Z.min (Z.abs v) u)).
Proof.
  intros Hc Hu Hk [Hv1 Hv2]. set (m := Z.abs v). assert (0 <= m < 2 ^ 31) as Hm by (unfold m; destruct sg; lia).
  set (pre := Z.min m u). set (c := tu_ctx ctx u pre).
  pose (mid := fun p => if u <=? p then fun d => let '(x, d) := decode_bypass_egk k d in (sat_u 32 (p + x), d) else fun d : decoder R => (p, d)).
  pose (tail := fun (c value : Z) => let y := Z.min value (2 ^ 31 - 1) in
    if sg && negb (y =? 0) then fun d => let '(bin, d) := decode_bypass d in (if bin =? 1 then - y else y, c, d) else fun d : decoder R => (y, c, d)).
  pose (e2 := if u <=? m then encode_bypass_egk k (m - u) else fun e => e).
  pose (e3 := if sg && negb (m =? 0) then encode_bypass (Z.b2z (v <? 0)) else fun e => e).
  apply (conveys_ext _ (fun e => e3 (e2 (snd (encode_tu ctx u pre e)))) _
    (fun d => let '(x, d) := decode_tu ctx u d in (fun x d => let '(y, d) := mid x.1 d in tail x.2 y d) x d)).
  { intros e. unfold encode_uegk, e2, e3. fold m pre. destruct (encode_tu ctx u pre e) as [c' e']. cbn [snd].
    destruct (u <=? m); destruct (sg && negb (m =? 0)); reflexivity. }
  { intros d. unfold decode_uegk, mid, tail. destruct (decode_tu ctx u d) as [[p c'] d']. cbn [fst snd].
    destruct (u <=? p); [destruct (decode_bypass_egk k d') as [x d2]|]; 
      cbv zeta; (match goal with |- context [if ?c then _ else _] => destruct c end); first [done|by destruct (decode_bypass _)]. }
  replace (8 * u + 65) with (8 * u + (64 + 1)) by lia.
  apply (conveys_bind (8 * u) (64 + 1) (fun e => snd (encode_tu ctx u pre e)) (fun e => e3 (e2 e)) (decode_tu ctx u)
    (fun x d => let '(y, d) := mid x.1 d in tail x.2 y d) (pre, c)); [lia|apply conveys_tu; [lia|done]|]. cbn [fst snd].
  apply (conveys_bind 64 1 e2 e3 (mid pre) (tail c) m); [lia| |].
  - unfold mid, e2. unfold pre. destruct (Z.leb_spec u m) as [Hle|Hlt].
    + rewrite Z.min_r by lia. rewrite Z.leb_refl. replace m with (sat_u 32 (u + (m - u))) at 2 by (rewrite sat_u_id; lia).
      apply (conveys_map 64 (encode_bypass_egk k (m - u)) (decode_bypass_egk k) (fun x => sat_u 32 (u + x)) (m - u)).
      apply conveys_bypass_egk; [lia|lia|]. assert (2 ^ Z.min k 31 <= 2 ^ 31) by (apply Z.pow_le_mono_r; lia). lia.
    + rewrite Z.min_l by lia. rewrite (proj2 (Z.leb_gt _ _)) by lia. eapply conveys_le; [|apply (conveys_ret m)]. lia.
  - unfold tail, e3. rewrite Z.min_l by lia. cbv zeta. destruct (sg && negb (m =? 0)) eqn:Es.
    + assert ((v, c) = (if Z.b2z (v <? 0) =? 1 then - m else m, c)) as -> by (f_equal; unfold m; destruct (Z.ltb_spec v 0); cbn; lia).
      apply (conveys_map 1 (encode_bypass (Z.b2z (v <? 0))) decode_bypass (fun bin => (if bin =? 1 then - m else m, c)) (Z.b2z (v <? 0))).
      apply conveys_bypass. destruct (v <? 0); cbn; lia.
    + replace v with m; [eapply conveys_le; [|apply (conveys_ret (m, c))]; lia|].
      apply andb_false_iff in Es as [-> | Es]; [unfold m; lia|]. breflect. lia.
Qed.

(** What the contexts become. *)
Definition next_ctxs (q : request) (v : Z) (ctxs : list Z) : list Z :=
  match q with
  | RDecision i => <[i:=next_ctx (nth i ctxs 0) v]> ctxs
  | RTu i c_max => <[i:=tu_ctx (nth i ctxs 0) c_max v]> ctxs
  | RUegk i u _ _ => <[i:=tu_ctx (nth i ctxs 0) u (Z.min (Z.abs v) u)]> ctxs
  | _ => ctxs
  end.

Lemma next_ctxs_ok q v ctxs : Forall ctx_ok ctxs -> Forall ctx_ok (next_ctxs q v ctxs) /\ length (next_ctxs q v ctxs) = length ctxs.
Proof.
  intros Hc. pose proof (fun i => contexts_nth ctxs i Hc).
  destruct q; cbn [next_ctxs]; rewrite ?length_insert; (split; [|done]); try done;
    (apply contexts_insert; [done|]); first [by apply next_ctx_ok|by apply unary_ctx_ok].
Qed.

Lemma fst_encode_request q v ctxs e :
  Forall ctx_ok ctxs -> request_ok (length ctxs) q -> carries q v -> fst (encode_request q v ctxs e) = next_ctxs q v ctxs.
Proof.
  intros Hc Hq Hv. pose proof (fun i => contexts_nth ctxs i Hc) as Hi.
  destruct q as [i| |w|k|i c_max|i u k sg|]; cbn [encode_request next_ctxs] in *; try done.
  - rewrite <- (fst_encode_decision (nth i ctxs 0) v e Hv (Hi i)). by destruct (encode_decision _ v e).
  - rewrite <- (fst_encode_tu (nth i ctxs 0) c_max v e Hv (Hi i)). by destruct (encode_tu _ c_max v e).
  - rewrite <- (fst_encode_tu (nth i ctxs 0) u (Z.min (Z.abs v) u) e) by (auto; cbn in Hq; lia).
    unfold encode_uegk. by destruct (encode_tu _ u _ e).
Qed.

Lemma conveys_request q v ctxs :
  Forall ctx_ok ctxs -> request_ok (length ctxs) q -> carries q v ->
  conveys (request_cost q) (fun e => snd (encode_request q v ctxs e)) (decode_request q ctxs) (v, next_ctxs q v ctxs).
Proof.
  intros Hc Hq Hv. pose proof (fun i => contexts_nth ctxs i Hc) as Hi.
  assert (forall c i c' enc (dec : decoder R -> Z * Z * decoder R), conveys c (fun e => snd (enc e)) dec (v, c') ->
    conveys c (fun e => snd (let '(c, e) := (enc e : Z * encoder) in (<[i:=c]> ctxs, e)))
      (fun d => let '(v, c, d) := dec d in (v, <[i:=c]> ctxs, d)) (v, <[i:=c']> ctxs)) as Hctx.
  { intros c i c' enc dec H1. apply (conveys_ext _ (fun e => snd (enc e)) _ (fun d => let '(x, d) := dec d in (x.1, <[i:=x.2]> ctxs, d)));
      [intros e; by destruct (enc e)|intros d; by destruct (dec d) as [[? ?] ?]|].
    apply (conveys_map c (fun e => snd (enc e)) dec (fun x => (x.1, <[i:=x.2]> ctxs)) (v, c') H1). }
  assert (forall c enc (dec : decoder R -> Z * decoder R), conveys c enc dec v ->
    conveys c enc (fun d => let '(v, d) := dec d in (v, ctxs, d)) (v, ctxs)) as Hplain.
  { intros c enc dec H1. apply (conveys_map c enc dec (fun v => (v, ctxs)) v H1). }
  destruct q as [i| |w|k|i c_max|i u k sg|]; cbn [encode_request decode_request request_cost request_ok carries next_ctxs snd] in *.
  - apply Hctx, conveys_decision; auto.
  - apply Hplain. by apply conveys_bypass.
  - apply Hplain. apply conveys_bypass_bits; lia.
  - apply Hplain. apply conveys_bypass_egk; lia.
  - apply Hctx, conveys_tu; auto.
  - apply Hctx, conveys_uegk; auto; lia.
  - subst v. apply Hplain. apply conveys_continue.
Qed.

Definition all_ctxs (qs : list (request * Z)) (ctxs : list Z) : list Z := fold_left (fun c q => next_ctxs q.1 q.2 c) qs ctxs.

Lemma conveys_all qs ctxs :
  Forall ctx_ok ctxs -> Forall (fun q => request_ok (length ctxs) q.1 /\ carries q.1 q.2) qs ->
  conveys (cost (map fst qs)) (fun e => snd (encode_all qs ctxs e)) (decode_all (map fst qs) ctxs) (map snd qs, all_ctxs qs ctxs).
Proof.
  revert ctxs. induction qs as [|[q v] qs IH]; intros ctxs Hc Hqs; [apply (conveys_ret ([], ctxs))|].
  apply Forall_cons in Hqs as [[Hq Hv] Hqs]. cbn [fst snd map cost fold_right] in *. fold (cost (map fst qs)).
  destruct (next_ctxs_ok q v ctxs Hc) as [Hc' Hl]. rewrite <- Hl in Hqs.
  assert (0 <= cost (map fst qs)) as Hcost.
  { apply (requests_cost_nonneg (length (next_ctxs q v ctxs))), Forall_map. eapply Forall_impl; [exact Hqs|]. by intros ? []. }
  pose (dec2 := fun x : Z * list Z => fun d => let '(y, d) := decode_all (map fst qs) x.2 d in ((x.1 :: y.1, y.2), d)).
  apply (conveys_ext _ (fun e => snd (encode_all qs (next_ctxs q v ctxs) (snd (encode_request q v ctxs e)))) _
    (fun d => let '(x, d) := decode_request q ctxs d in dec2 x d)).
  { intros e. cbn [encode_all]. pose proof (fst_encode_request q v ctxs e Hc Hq Hv) as E1.
    destruct (encode_request q v ctxs e) as [c e1]. cbn [fst snd] in *. by rewrite E1. }
  { intros d. cbn [decode_all]. destruct (decode_request q ctxs d) as [[y c] d1]. unfold dec2. cbn [fst snd].
    by destruct (decode_all (map fst qs) c d1) as [[ys c2] d2]. }
  apply (conveys_bind (request_cost q) _ (fun e => snd (encode_request q v ctxs e)) (fun e => snd (encode_all qs (next_ctxs q v ctxs) e))
    (decode_request q ctxs) dec2 (v, next_ctxs q v ctxs)); [done|by apply conveys_request|]. unfold dec2. cbn [fst snd].
  apply (conveys_map _ _ (decode_all (map fst qs) (next_ctxs q v ctxs)) (fun y => (v :: y.1, y.2)) (map snd qs, all_ctxs qs (next_ctxs q v ctxs))).
  by apply IH.
Qed.

End convey.

Lemma start_spells max_bytes n : 0 <= n -> spells_interval (with_limit max_bytes) start n.
Proof. intros Hn. split; [by split; cbn|cbn; unfold INITIAL_RANGE; lia|done|cbn; lia|cbn; lia|cbn; lia|by exists 0]. Qed.

(** The bytes taken from the encoder. *)
Lemma finish_bits e : wf e -> exists pad, bits_of_bytes (finish e) = written e ++ pad.
Proof.
  intros [Hc Hp Ho]. unfold finish, written. destruct (Z.ltb_spec 0 (bit_count e)) as [H1|H1].
  - exists (replicate (Z.to_nat (8 - bit_count e)) false). rewrite bits_of_bytes_app, <- app_assoc. f_equal.
    unfold bits_of_bytes. cbn [map concat]. rewrite app_nil_r. rewrite Z.shiftl_mul_pow2 by lia.
    assert (2 ^ bit_count e * 2 ^ (8 - bit_count e) = 2 ^ 8) as E8 by (rewrite <- Z.pow_add_r by lia; f_equal; lia).
    assert (0 < 2 ^ (8 - bit_count e)) by (apply Z.pow_pos_nonneg; lia).
    rewrite wrap_u_id by nia. replace 8%nat with (Z.to_nat (bit_count e) + Z.to_nat (8 - bit_count e))%nat at 1 by lia.
    rewrite bits_of_app, Z2Nat.id, Z.shiftr_div_pow2, Z.div_mul by lia. f_equal.
    apply list_eq. intros i. destruct (decide (i < Z.to_nat (8 - bit_count e))%nat) as [Hi|Hi].
    + rewrite bits_of_lookup, lookup_replicate_2 by done. f_equal. apply Z.mul_pow2_bits_low. lia.
    + rewrite !lookup_ge_None_2; [done|rewrite length_replicate; lia|rewrite length_bits_of; lia].
  - assert (bit_count e = 0) as -> by lia. exists []. rewrite app_nil_r. cbn. by rewrite app_nil_r.
Qed.

Lemma flush_tail_overflowed e : overflowed e = true -> overflowed (flush_tail e) = true.
Proof. intros He. unfold flush_tail. by apply write_bit_overflowed, write_bit_overflowed, put_bit_overflowed. Qed.

Lemma encode_terminate_overflowed e : overflowed e = true -> overflowed (encode_terminate 1 e) = true.
Proof. intros He. rewrite encode_terminate_eq, flush_eq, erenorm_eq. by apply flush_tail_overflowed, erenorm_overflowed. Qed.

(** C17. What the arithmetic encoder writes, the decoder reads. Whatever sequence
    of bins, bypass fields, Exp-Golomb suffixes, truncated-unary and UEGk values
    is encoded with any contexts, and terminated, if the encoder's limit was not
    reached then a decoder over any bit source that holds those bytes, wherever
    they start and whatever follows them, returns every value in order, adapts
    the contexts to the same states, sees the end, reports nothing malformed and
    stops exactly behind the stop bit. *)
Theorem cabac_roundtrip {R : Type} `{BitSource R} f limit r p qs ctxs max_bytes :
  Forall ctx_ok ctxs -> Forall (fun q => request_ok (length ctxs) q.1 /\ carries q.1 q.2) qs ->
  let e := encode_terminate 1 (snd (encode_all qs ctxs (with_limit max_bytes))) in
  overflowed e = false ->
  src_at f limit r p false -> spells f p (bits_of_bytes (finish e)) -> p + zlen (written e) <= limit ->
  p + cost (map fst qs) + 64 <= LIM -> 0 <= p ->
  exists d d', decode_all (map fst qs) ctxs (from_aligned r)
      = (map snd qs, fst (encode_all qs ctxs (with_limit max_bytes)), d) /\
    decode_terminate d = (1, d') /\ terminated d' = true /\ malformed d' = false /\
    src_at f limit (reader d') (p + zlen (written e)) false.
Proof.
  intros Hc Hqs. set (n := cost (map fst qs) + 32).
  assert (0 <= cost (map fst qs)) as Hcost.
  { apply (requests_cost_nonneg (length ctxs)), Forall_map. eapply Forall_impl; [exact Hqs|]. by intros ? []. }
  pose proof (fun H1 H2 => conveys_all (R := R) f limit false p n H1 H2 qs ctxs Hc Hqs) as Hall.
  assert (forall e, fst (encode_all qs ctxs e) = all_ctxs qs ctxs) as Hfst.
  { clear Hall. clear n Hcost. revert ctxs Hc Hqs. induction qs as [|[q v] qs IH]; intros ctxs Hc Hqs e; [done|].
    apply Forall_cons in Hqs as [[Hq Hv] Hqs]. cbn [encode_all fst snd] in *. destruct (next_ctxs_ok q v ctxs Hc) as [Hc' Hl].
    pose proof (fst_encode_request q v ctxs e Hc Hq Hv) as E1. destruct (encode_request q v ctxs e) as [c e1]. cbn [fst] in E1. subst c.
    rewrite <- Hl in Hqs. by apply IH. }
  rewrite (Hfst (with_limit max_bytes)). set (e := snd (encode_all qs ctxs (with_limit max_bytes))) in *. cbv zeta. intros Hov Hr Hsp Hlen Hlim Hp0.
  assert (overflowed e = false) as Hov1.
  { destruct (overflowed e) eqn:E; [|done]. by rewrite (encode_terminate_overflowed e E) in Hov. }
  unfold LIM in *. assert (p + 17 + n <= 2 ^ 62) as Hl1 by (unfold n; lia). assert (n < 2 ^ 63) as Hn by lia.
  destruct (Hall Hl1 Hn) as [_ Hall']. clear Hall. specialize (Hall' (with_limit max_bytes) start). cbv beta in Hall'. fold e in Hall'.
  clearbody e. clear Hfst.
  assert (regular start) as Hstart by (unfold regular; cbn; lia).
  destruct (Hall' (start_spells max_bytes n ltac:(lia)) Hstart ltac:(cbn [scale start]; unfold n; lia) Hov1) as (J & HJ & Hi & Hs & HeJ & Hd).
  cbn [scale start] in Hs. destruct (encode_terminate_ok e J n HeJ HJ ltac:(unfold n; lia) Hn Hov) as (_ & Hw & Hlw & Hin).
  set (et := encode_terminate 1 e) in *. clearbody et. destruct (finish_bits et Hw) as [pad Epad]. rewrite Epad in Hsp.
  apply spells_app in Hsp as [Hsp _]. pose proof (spelled_number _ _ _ Hsp) as Hnum.
  assert (field f p (9 + scale J) = bits_number (written et)) as Hfield.
  { unfold field. rewrite <- Hlw. unfold zlen. by rewrite Nat2Z.id. }
  assert (code_in f p J) as HcJ by (unfold code_in; destruct HJ as (_ & _ & ?); lia).
  assert (code_in f p start) as Hc0 by (eapply code_in_inside; [|exact Hi|exact HcJ]; cbn; lia).
  destruct (src_get_ok f limit r p false OFFSET_BITS Hr ltac:(unfold OFFSET_BITS; lia) ltac:(unfold LIM; lia)) as (r' & E1 & Hr').
  unfold OFFSET_BITS in *. unfold code_in in Hc0. cbn [base scale width start] in Hc0. rewrite Z.add_0_r in Hc0.
  destruct (Hd (from_aligned r) false) as (d & Hdd & Hfd); [|done|].
  { split; [exact Hstart|]. split; [unfold code_in; cbn [base scale width start]; by rewrite Z.add_0_r|].
    exists r'. cbn [base scale width start]. unfold from_aligned, OFFSET_BITS. rewrite E1, !Z.add_0_r, Z.sub_0_r. unfold INITIAL_RANGE.
    rewrite (proj2 (Z.leb_gt 510 _)) by lia. done. }
  destruct (follow_terminate f limit false p d J false Hfd) as (d' & Hdt & Hfd'); [rewrite Hfield; lia|unfold LIM; lia|].
  exists d, d'. split; [exact Hdd|]. split; [exact Hdt|]. destruct Hfd' as (_ & _ & r2 & -> & Hr2). cbn [terminated reader].
  rewrite Hlw in *. rewrite <- Z.add_assoc in Hr2. split; [done|]. split; [|exact Hr2].
  unfold malformed. cbn [malformed_flag reader orb]. erewrite src_over_ok; [|exact Hr2|unfold LIM; lia]. cbn [orb]. lia.
Qed.

#[local] Existing Instance BitReader.reader_source.

Lemma cabac_roundtrip_witness :
  let qs := [(RDecision 0, 1); (RDecision 0, 0); (RBypass, 1); (RBits 4, 9); (RUegk 1 3 0 true, -5); (RTu 0 4, 4); (REgk 1, 6); (RTerminate, 0)] in
  let ctxs := [init_h264 23 33 30; new 12 true] in
  let data := finish (encode_terminate 1 (snd (encode_all qs ctxs (with_limit 100)))) in
  data = [181; 170; 229; 72] /\
  exists d d', decode_all (map fst qs) ctxs (decoder_new data) = (map snd qs, [31; 31], d) /\ decode_terminate d = (1, d').
Proof.
  intros qs ctxs data. split; [vm_compute; reflexivity|].
  destruct (cabac_roundtrip (R := BitReader.reader) (bit_at data) (8 * zlen data) (BitReader.align (BitReader.new data)) 0 qs ctxs 100) as (d & d' & H1 & H2 & _).
  - repeat constructor; vm_compute; discriminate.
  - repeat constructor; vm_compute; (discriminate || lia).
  - vm_compute. reflexivity.
  - refine (proj1 (from_reader_source _ _ _ 0 _ (BitReader.new_source data _ _) _ _));
      [apply buffer_check; vm_compute; reflexivity|vm_compute; reflexivity|lia|vm_compute; discriminate].
  - apply spells_bytes.
  - vm_compute. discriminate.
  - vm_compute. discriminate.
  - lia.
  - exists d, d'. split; [|exact H2]. refine (eq_trans H1 _). vm_compute. reflexivity.
Defined.
