(* ===== verification/CodecCore.v ===== *)
(** * CodecCore: the send/receive protocol of every codec

    [src/crates/signal/vaco-codec-core/src]: the state machine that decoders,
    encoders and bitstream filters embed ([machine.rs]), the trait they share and
    the validator that checks each call against the protocol's rules
    ([protocol.rs]), and the reference codec with its reference model ([mock.rs]).
    The trait is a class of operations; the rules a component keeps are a class of
    laws, which the validator's theorem is proved against and the reference codec
    discharges. *)

From Stdlib Require Import ZArith Lia.
From stdpp Require Import prelude strings.
From S2P Require Import Prelude Error.

(** ** Capabilities *)

Definition DELAY : Z := Z.shiftl 1 0.
Definition SUBFRAMES : Z := Z.shiftl 1 9.

(** The set operations [bitflags] generates. *)
Definition contains (caps flag : Z) : bool := Z.land caps flag =? flag.
Definition intersects (caps flag : Z) : bool := negb (Z.land caps flag =? 0).

(** ** The machine *)

Inductive stage : Type :=
  | Feeding
  | Draining
  | Drained.

#[export] Instance stage_eq_dec : EqDecision stage.
Proof. solve_decision. Defined.

Definition accepts_input (s : stage) : bool := match s with Feeding => true | _ => false end.

Inductive accept_t : Type :=
  | Input
  | Drain.

Definition TIGHT_CAPACITY : nat := 1.
Definition DEFAULT_CAPACITY : nat := 16.

Record machine (O : Type) : Type := Machine {
  mstage : stage;
  queue : list O;
  capacity : nat;
  mcaps : Z;
  source_done : bool;
  accepted : Z;
  produced : Z;
  delivered : Z;
  produced_this_input : Z;
}.
Arguments Machine {O}.
Arguments mstage {O}.
Arguments queue {O}.
Arguments capacity {O}.
Arguments mcaps {O}.
Arguments source_done {O}.
Arguments accepted {O}.
Arguments produced {O}.
Arguments delivered {O}.
Arguments produced_this_input {O}.

Definition with_capacity {O : Type} (caps : Z) (capacity : nat) : machine O :=
  Machine Feeding [] (Nat.max capacity 1) caps false 0 0 0 0.

Definition machine_new {O : Type} (caps : Z) : machine O :=
  with_capacity caps (if intersects caps (Z.lor DELAY SUBFRAMES) then DEFAULT_CAPACITY else TIGHT_CAPACITY).

Definition accept {O : Type} (eof : bool) (m : machine O) : result error accept_t * machine O :=
  match mstage m with
  | Draining | Drained => (Err Eof, m)
  | Feeding =>
    if eof then
      (Ok Drain, Machine Draining (queue m) (capacity m) (mcaps m) (source_done m) (accepted m) (produced m) (delivered m) 0)
    else if (capacity m <=? length (queue m))%nat then (Err OutputPending, m)
    else
      (Ok Input, Machine Feeding (queue m) (capacity m) (mcaps m) (source_done m) (sat_u 64 (accepted m + 1)) (produced m) (delivered m) 0)
  end.

Definition emit {O : Type} (output : O) (m : machine O) : machine O :=
  Machine (mstage m) (queue m ++ [output]) (capacity m) (mcaps m) (source_done m) (accepted m)
    (sat_u 64 (produced m + 1)) (delivered m) (sat_u 32 (produced_this_input m + 1)).

Definition emit_all {O : Type} (outputs : list O) (m : machine O) : machine O :=
  fold_left (fun m o => emit o m) outputs m.

Definition finish {O : Type} (m : machine O) : machine O :=
  Machine (mstage m) (queue m) (capacity m) (mcaps m) true (accepted m) (produced m) (delivered m) (produced_this_input m).

Definition machine_receive {O : Type} (m : machine O) : result error O * machine O :=
  match queue m with
  | out :: rest =>
    (Ok out, Machine (mstage m) rest (capacity m) (mcaps m) (source_done m) (accepted m) (produced m)
               (sat_u 64 (delivered m + 1)) (produced_this_input m))
  | [] =>
    match mstage m with
    | Feeding => (Err NeedMoreInput, m)
    | Draining =>
      if source_done m then
        (Err Eof, Machine Drained (queue m) (capacity m) (mcaps m) (source_done m) (accepted m) (produced m) (delivered m) (produced_this_input m))
      else (Err NeedMoreInput, m)
    | Drained => (Err Eof, m)
    end
  end.

Definition machine_flush {O : Type} (m : machine O) : machine O :=
  Machine Feeding [] (capacity m) (mcaps m) false (accepted m) (produced m) (delivered m) 0.

Definition pending {O : Type} (m : machine O) : nat := length (queue m).
Definition is_full {O : Type} (m : machine O) : bool := (capacity m <=? length (queue m))%nat.
Definition has_output {O : Type} (m : machine O) : bool := negb (bool_decide (length (queue m) = 0%nat)).

(** ** The trait, and what its callers see *)

Class SendReceive (T I O : Type) : Type := {
  sr_caps : T -> Z;
  sr_send : option I -> T -> result error unit * T;
  sr_receive : T -> result error O * T;
  sr_flush : T -> T;
}.

Inductive violation : Type :=
  | SendAfterEof
  | NeedMoreInputFromSend
  | OutputPendingFromReceive
  | BackpressureWithoutOutput
  | NeedMoreInputWhileDraining
  | EofBeforeDrain
  | OutputAfterEof
  | OutputWithoutInput
  | DelayedOutputWithoutCap
  | SubframesWithoutCap
  | FlushDidNotReset.

Inductive on_violation : Type :=
  | Panic
  | Record_.

Section validated.
Context {T I O : Type} `{SendReceive T I O}.

Record validated : Type := Validated {
  inner : T;
  mode : on_violation;
  flush_probe : bool;
  violations : list violation;
  vstage : stage;
  inputs : Z;
  outputs : Z;
  starved : bool;
  expect_output : bool;
}.

Definition with_mode (inner : T) (mode : on_violation) : validated :=
  Validated inner mode true [] Feeding 0 0 false false.

Definition validated_new (inner : T) : validated := with_mode inner Panic.
Definition recording (inner : T) : validated := with_mode inner Record_.

Definition with_flush_probe (probe : bool) (v : validated) : validated :=
  Validated (inner v) (mode v) probe (violations v) (vstage v) (inputs v) (outputs v) (starved v) (expect_output v).

(** [None] is a panic. *)
Definition report (x : violation) (v : validated) : option validated :=
  match mode v with
  | Panic => None
  | Record_ =>
    Some (Validated (inner v) (mode v) (flush_probe v) (violations v ++ [x]) (vstage v) (inputs v) (outputs v)
            (starved v) (expect_output v))
  end.

Definition report_if (b : bool) (x : violation) (v : validated) : option validated :=
  if b then report x v else Some v.

Definition set_inner (t : T) (v : validated) : validated :=
  Validated t (mode v) (flush_probe v) (violations v) (vstage v) (inputs v) (outputs v) (starved v) (expect_output v).

Definition set_stage (s : stage) (v : validated) : validated :=
  Validated (inner v) (mode v) (flush_probe v) (violations v) s (inputs v) (outputs v) (starved v) (expect_output v).

Definition set_outputs (n : Z) (v : validated) : validated :=
  Validated (inner v) (mode v) (flush_probe v) (violations v) (vstage v) (inputs v) n (starved v) (expect_output v).

Definition set_starved (b : bool) (v : validated) : validated :=
  Validated (inner v) (mode v) (flush_probe v) (violations v) (vstage v) (inputs v) (outputs v) b (expect_output v).

Definition set_expect (b : bool) (v : validated) : validated :=
  Validated (inner v) (mode v) (flush_probe v) (violations v) (vstage v) (inputs v) (outputs v) (starved v) b.

(** An input was consumed. *)
Definition count_input (v : validated) : validated :=
  Validated (inner v) (mode v) (flush_probe v) (violations v) (vstage v) (sat_u 64 (inputs v + 1)) (outputs v) false (expect_output v).

Definition validated_send (input : option I) (v : validated) : option (result error unit * validated) :=
  let eof := match input with None => true | Some _ => false end in
  let '(res, t) := sr_send input (inner v) in
  let v := set_inner t v in
  if negb (accepts_input (vstage v)) then
    v ← report_if (match res with Err Eof => false | _ => true end) SendAfterEof v; Some (res, v)
  else
    match res with
    | Ok _ => Some (res, set_expect false (if eof then set_stage Draining v else count_input v))
    | Err OutputPending => Some (res, set_expect true v)
    | Err NeedMoreInput => v ← report NeedMoreInputFromSend v; Some (res, v)
    | Err _ => Some (res, set_expect false (count_input v))
    end.

Definition validated_receive (v : validated) : option (result error O * validated) :=
  let '(res, t) := sr_receive (inner v) in
  let v := set_inner t v in
  match res with
  | Ok _ =>
    v ← report_if (bool_decide (vstage v = Drained)) OutputAfterEof v;
    v ← report_if (inputs v =? 0) OutputWithoutInput v;
    v ← report_if (bool_decide (vstage v = Draining) && starved v && negb (contains (sr_caps (inner v)) DELAY)) DelayedOutputWithoutCap v;
    let v := set_outputs (sat_u 64 (outputs v + 1)) v in
    v ← report_if ((inputs v <? outputs v) && negb (contains (sr_caps (inner v)) SUBFRAMES)) SubframesWithoutCap v;
    Some (res, set_expect false (set_starved false v))
  | Err NeedMoreInput =>
    v ← (if expect_output v then v ← report BackpressureWithoutOutput v; Some (set_expect false v) else Some v);
    if bool_decide (vstage v = Feeding) then Some (res, set_starved true v)
    else v ← report NeedMoreInputWhileDraining v; Some (res, v)
  | Err Eof =>
    if bool_decide (vstage v = Feeding) then v ← report EofBeforeDrain v; Some (res, v)
    else Some (res, set_stage Drained v)
  | Err OutputPending => v ← report OutputPendingFromReceive v; Some (res, v)
  | Err _ => Some (res, v)
  end.

Definition validated_flush (v : validated) : option validated :=
  let v := Validated (sr_flush (inner v)) (mode v) (flush_probe v) (violations v) Feeding 0 0 false false in
  if flush_probe v then
    let '(res, t) := sr_receive (inner v) in
    report_if (match res with Err NeedMoreInput => false | _ => true end) FlushDidNotReset (set_inner t v)
  else Some v.

End validated.
Arguments validated _ : clear implicits.

(** ** The reference codec *)

Inductive step : Type :=
  | Emit (n : nat)
  | Reorder
  | Skip
  | Corrupt.

#[export] Instance step_eq_dec : EqDecision step.
Proof. solve_decision. Defined.

Record mock_unit : Type := MockUnit { source : Z; sub : Z }.

Record mock_program : Type := MockProgram { steps : list step; reorder_delay : nat }.

Definition program_default : mock_program := MockProgram [Emit 1] 0.

Definition program_new (steps : list step) : mock_program :=
  MockProgram (match steps with [] => [Emit 1] | _ => steps end) 0.

Definition with_reorder_delay (delay : nat) (p : mock_program) : mock_program := MockProgram (steps p) delay.

Definition program_step (p : mock_program) (n : Z) : step :=
  let len := Z.max (Z.of_nat (length (steps p))) 1 in
  default (Emit 1) (steps p !! Z.to_nat (n mod len)).

Definition program_caps (p : mock_program) : Z :=
  let caps := if existsb (fun s => match s with Emit n => (1 <? n)%nat | _ => false end) (steps p) then Z.lor 0 SUBFRAMES else 0 in
  if bool_decide (Reorder ∈ steps p) then Z.lor caps DELAY else caps.

(** The outputs one [Emit] gives for an input. *)
Definition units (id : Z) (count : nat) : list mock_unit :=
  map (fun sub => MockUnit id (Z.of_nat sub)) (seq 0 count).

(** The reference model: what is produced while feeding, and what stays for the
    drain; [n] is the index of the next input. *)
Fixpoint expected_from (p : mock_program) (n : Z) (ids : list Z) (fed q : list mock_unit) : list mock_unit * list mock_unit :=
  match ids with
  | [] => (fed, q)
  | id :: ids =>
    match program_step p n with
    | Emit count => expected_from p (n + 1) ids (fed ++ units id count) q
    | Reorder =>
      let q := q ++ [MockUnit id 0] in
      if (reorder_delay p <? length q)%nat then
        match q with
        | u :: q => expected_from p (n + 1) ids (fed ++ [u]) q
        | [] => expected_from p (n + 1) ids fed q
        end
      else expected_from p (n + 1) ids fed q
    | Skip | Corrupt => expected_from p (n + 1) ids fed q
    end
  end.

Definition expected (p : mock_program) (ids : list Z) : list mock_unit * list mock_unit := expected_from p 0 ids [] [].

Record mock_codec : Type := MockCodec {
  program : mock_program;
  mmachine : machine mock_unit;
  reorder : list mock_unit;
  minputs : Z;
}.

Definition mock_new (p : mock_program) : mock_codec := MockCodec p (machine_new (program_caps p)) [] 0.

Definition mock_with_capacity (p : mock_program) (capacity : nat) : mock_codec :=
  MockCodec p (with_capacity (program_caps p) capacity) [] 0.

Definition mock_send (input : option Z) (c : mock_codec) : result error unit * mock_codec :=
  let '(acc, m) := accept (match input with None => true | Some _ => false end) (mmachine c) in
  let c := MockCodec (program c) m (reorder c) (minputs c) in
  match acc with
  | Err e => (Err e, c)
  | Ok Drain =>
    (Ok tt, MockCodec (program c) (finish (emit_all (reorder c) (mmachine c))) [] (minputs c))
  | Ok Input =>
    match input with
    | None => (Ok tt, c)
    | Some id =>
      let step := program_step (program c) (minputs c) in
      let c := MockCodec (program c) (mmachine c) (reorder c) (wrap_u 64 (minputs c + 1)) in
      match step with
      | Emit count => (Ok tt, MockCodec (program c) (emit_all (units id count) (mmachine c)) (reorder c) (minputs c))
      | Reorder =>
        let q := reorder c ++ [MockUnit id 0] in
        if (reorder_delay (program c) <? length q)%nat then
          match q with
          | u :: q => (Ok tt, MockCodec (program c) (emit u (mmachine c)) q (minputs c))
          | [] => (Ok tt, MockCodec (program c) (mmachine c) q (minputs c))
          end
        else (Ok tt, MockCodec (program c) (mmachine c) q (minputs c))
      | Skip => (Ok tt, c)
      | Corrupt => (Err (InvalidData "mock codec: corrupt input"), c)
      end
    end
  end.

Definition mock_receive (c : mock_codec) : result error mock_unit * mock_codec :=
  let '(res, m) := machine_receive (mmachine c) in (res, MockCodec (program c) m (reorder c) (minputs c)).

Definition mock_flush (c : mock_codec) : mock_codec :=
  MockCodec (program c) (machine_flush (mmachine c)) [] 0.

#[export] Instance mock_send_receive : SendReceive mock_codec Z mock_unit := {|
  sr_caps c := mcaps (mmachine c);
  sr_send := mock_send;
  sr_receive := mock_receive;
  sr_flush := mock_flush;
|}.

(** ** What a component promises *)

(** A component of the protocol, in terms of what it has queued and what it may
    still owe: [owed] bounds the outputs its buffers can release, and a [fresh]
    component holds nothing. *)
Class Lawful (T I O : Type) `{SendReceive T I O} : Type := {
  valid : T -> Prop;
  stage_of : T -> stage;
  queued : T -> list O;
  owed : T -> nat;
  fresh : T -> Prop;

  law_receive t : valid t -> exists t', valid t' /\ sr_caps t' = sr_caps t /\ owed t' = owed t /\ (fresh t -> fresh t') /\
    queued t' = tail (queued t) /\
    match queued t with
    | x :: _ => sr_receive t = (Ok x, t') /\ stage_of t' = stage_of t
    | [] =>
      if accepts_input (stage_of t) then sr_receive t = (Err NeedMoreInput, t') /\ stage_of t' = Feeding
      else sr_receive t = (Err Eof, t') /\ stage_of t' = Drained
    end;

  law_send t i : valid t -> exists res t', sr_send (Some i) t = (res, t') /\ valid t' /\ sr_caps t' = sr_caps t /\
    stage_of t' = stage_of t /\
    if accepts_input (stage_of t) then
      match res with
      | Err OutputPending => queued t <> [] /\ queued t' = queued t /\ owed t' = owed t /\ (fresh t -> fresh t')
      | Err NeedMoreInput => False
      | _ => exists outs, queued t' = queued t ++ outs /\
          (contains (sr_caps t) SUBFRAMES = false -> (length outs + owed t' <= owed t + 1)%nat)
      end
    else res = Err Eof /\ queued t' = queued t /\ owed t' = owed t;

  law_end t : valid t -> exists res t', sr_send None t = (res, t') /\ valid t' /\ sr_caps t' = sr_caps t /\
    if accepts_input (stage_of t) then
      res = Ok tt /\ stage_of t' = Draining /\ exists outs, queued t' = queued t ++ outs /\
        (contains (sr_caps t) SUBFRAMES = false -> (length outs + owed t' <= owed t)%nat) /\
        (contains (sr_caps t) DELAY = false -> outs = []) /\ (fresh t -> outs = [])
    else res = Err Eof /\ queued t' = queued t /\ owed t' = owed t /\ stage_of t' = stage_of t;

  law_flush t : valid t -> valid (sr_flush t) /\ sr_caps (sr_flush t) = sr_caps t /\ stage_of (sr_flush t) = Feeding /\
    queued (sr_flush t) = [] /\ owed (sr_flush t) = 0%nat /\ fresh (sr_flush t);
}.

(** A component as it was opened. *)
Definition opened {T I O : Type} `{Lawful T I O} (t : T) : Prop :=
  valid t /\ stage_of t = Feeding /\ queued t = [] /\ owed t = 0%nat /\ fresh t.

Inductive call (I : Type) : Type :=
  | Send (i : I)
  | End_
  | Receive
  | Flush.
Arguments Send {I} _.
Arguments End_ {I}.
Arguments Receive {I}.
Arguments Flush {I}.

(** ** The validator accepts every lawful component *)

Section clean.
Context {T I O : Type} `{Lawful T I O}.

Definition call_validated (c : call I) (v : validated T) : option (validated T) :=
  match c with
  | Send i => snd <$> validated_send (Some i) v
  | End_ => snd <$> validated_send None v
  | Receive => snd <$> validated_receive v
  | Flush => validated_flush v
  end.

Fixpoint calls_validated (cs : list (call I)) (v : validated T) : option (validated T) :=
  match cs with
  | [] => Some v
  | c :: cs => v ← call_validated c v; calls_validated cs v
  end.

(** What the validator's counters say about the component. *)
Record accounts (v : validated T) (ni no : Z) : Prop := {
  ac_valid : valid (inner v);
  ac_stage : vstage v = stage_of (inner v);
  ac_clean : violations v = [];
  ac_inputs : inputs v = sat_u 64 ni /\ 0 <= ni;
  ac_outputs : outputs v = sat_u 64 no /\ 0 <= no;
  ac_budget : contains (sr_caps (inner v)) SUBFRAMES = false ->
    no + Z.of_nat (length (queued (inner v)) + owed (inner v)) <= ni;
  ac_fresh : ni = 0 -> queued (inner v) = [] /\ (stage_of (inner v) = Feeding -> fresh (inner v));
  ac_starved : starved v = true -> contains (sr_caps (inner v)) DELAY = false -> queued (inner v) = [];
  ac_hungry : starved v = true -> stage_of (inner v) = Feeding -> queued (inner v) = [];
  ac_expect : expect_output v = true -> queued (inner v) <> [];
  ac_drained : stage_of (inner v) = Drained -> queued (inner v) = [];
}.

Definition clean (v : validated T) : Prop := exists ni no, accounts v ni no.

Lemma sat_zero n : 0 <= n -> (sat_u 64 n =? 0) = true -> n = 0.
Proof. unfold sat_u. intros Hn E. breflect. lia. Qed.

Lemma sat_mono a b : a <= b -> (sat_u 64 b <? sat_u 64 a) = false.
Proof. unfold sat_u. intros Hab. apply Z.ltb_ge. lia. Qed.

Lemma sat_succ n : 0 <= n -> sat_u 64 (sat_u 64 n + 1) = sat_u 64 (n + 1).
Proof. unfold sat_u. lia. Qed.

(** Evaluate the validator's code on a record. *)
Ltac run := cbn [mbind option_bind fmap option_fmap option_map snd report_if report expect_output starved inputs outputs vstage inner mode flush_probe violations
  set_inner set_stage set_outputs set_starved set_expect count_input negb andb accepts_input bool_decide] in *.

Lemma clean_receive v : clean v -> exists res v', validated_receive v = Some (res, v') /\ clean v' /\ mode v' = mode v.
Proof.
  intros (ni & no & [Hv Hs Hc [Ei Hi] [Eo Ho] Hb Hf Hst Hh He Hd]). destruct v as [t md fp vs s i o st ex]. run. subst vs s i o.
  destruct (law_receive t Hv) as (t' & Hvt & Hcaps & Howed & Hfr & Hq & Hr).
  unfold validated_receive. run. destruct (queued t) as [|x q] eqn:Eq; cbn [tail] in Hq.
  - destruct (stage_of t) eqn:Es; cbn [accepts_input] in Hr; destruct Hr as [-> Hst']; run.
    + destruct ex; [by destruct (He eq_refl)|]. run. do 2 eexists. split; [reflexivity|]. split; [|done].
      exists ni, no. split; run; rewrite ?Hq, ?Hcaps, ?Howed, ?Hst'; try done; intros E; destruct (Hf E); auto.
    + do 2 eexists. split; [reflexivity|]. split; [|done].
      exists ni, no. split; run; rewrite ?Hq, ?Hcaps, ?Howed, ?Hst'; try done; intros E; by destruct (Hf E).
    + do 2 eexists. split; [reflexivity|]. split; [|done].
      exists ni, no. split; run; rewrite ?Hq, ?Hcaps, ?Howed, ?Hst'; try done; intros E; by destruct (Hf E).
  - destruct Hr as [-> Hst']. run. assert (ni <> 0) as Hni by (intros E; by destruct (Hf E)).
    assert ((sat_u 64 ni =? 0) = false) as En by (apply Z.eqb_neq; unfold sat_u; lia).
    rewrite bool_decide_eq_false_2 by (intros E; by specialize (Hd E)). run. rewrite En. run.
    assert (bool_decide (stage_of t = Draining) && st && negb (contains (sr_caps t') DELAY) = false) as Ed.
    { destruct st; [|by rewrite andb_false_r]. rewrite Hcaps. destruct (contains (sr_caps t) DELAY) eqn:Ec; [by rewrite andb_false_r|]. by specialize (Hst eq_refl eq_refl). }
    rewrite Ed. run. rewrite sat_succ by done.
    assert ((sat_u 64 ni <? sat_u 64 (no + 1)) && negb (contains (sr_caps t') SUBFRAMES) = false) as Eb.
    { rewrite Hcaps. destruct (contains (sr_caps t) SUBFRAMES) eqn:Ec; [by rewrite andb_false_r|].
      rewrite sat_mono; [done|]. specialize (Hb eq_refl). cbn [length] in Hb. lia. }
    rewrite Eb. run. do 2 eexists. split; [reflexivity|]. split; [|done].
    exists ni, (no + 1). split; run; rewrite ?Hq, ?Hcaps, ?Howed, ?Hst'; try done; [lia| |].
    + intros Ec. specialize (Hb Ec). cbn [length] in Hb. lia.
    + intros E. by specialize (Hd E).
Qed.

Lemma clean_send i v : clean v -> exists res v', validated_send (Some i) v = Some (res, v') /\ clean v' /\ mode v' = mode v.
Proof.
  intros (ni & no & [Hv Hs Hc [Ei Hi] [Eo Ho] Hb Hf Hst Hh He Hd]). destruct v as [t md fp vs s i' o st ex]. run. subst vs s i' o.
  destruct (law_send t i Hv) as (res & t' & E1 & Hvt & Hcaps & Hst' & Hr). unfold validated_send. run. rewrite E1.
  destruct (stage_of t) eqn:Es; cbn [accepts_input] in Hr; run.
  2, 3: destruct Hr as (-> & Hq & Ho'); run; do 2 eexists; (split; [reflexivity|]); (split; [|done]);
    exists ni, no; split; run; rewrite ?Hq, ?Hcaps, ?Hst', ?Ho'; try done; intros E; by destruct (Hf E).
  - assert (forall v', (exists outs, queued t' = queued t ++ outs /\
        (contains (sr_caps t) SUBFRAMES = false -> (length outs + owed t' <= owed t + 1)%nat)) ->
      v' = Validated t' md fp [] Feeding (sat_u 64 (sat_u 64 ni + 1)) (sat_u 64 no) false false -> clean v') as Hok.
    { intros v' (outs & Hq & Hl) ->. rewrite sat_succ by done. exists (ni + 1), no.
      split; run; rewrite ?Hq, ?Hcaps, ?Hst'; try done; [lia| |lia].
      intros Ec. specialize (Hb Ec). specialize (Hl Ec). rewrite length_app. lia. }
    destruct res as [[]|[]]; try done; run; try (do 2 eexists; (split; [reflexivity|]); (split; [|done]); by eapply Hok).
    destruct Hr as (Hne & Hq & Ho' & Hfr). do 2 eexists. split; [reflexivity|]. split; [|done]. exists ni, no.
    split; run; rewrite ?Hq, ?Hcaps, ?Hst', ?Ho'; try done. intros E. destruct (Hf E). auto.
Qed.

Lemma clean_end v : clean v -> exists res v', validated_send None v = Some (res, v') /\ clean v' /\ mode v' = mode v.
Proof.
  intros (ni & no & [Hv Hs Hc [Ei Hi] [Eo Ho] Hb Hf Hst Hh He Hd]). destruct v as [t md fp vs s i' o st ex]. run. subst vs s i' o.
  destruct (law_end t Hv) as (res & t' & E1 & Hvt & Hcaps & Hr). unfold validated_send. run. rewrite E1.
  destruct (stage_of t) eqn:Es; cbn [accepts_input] in Hr; run.
  2, 3: destruct Hr as (-> & Hq & Ho' & Hst'); run; do 2 eexists; (split; [reflexivity|]); (split; [|done]);
    exists ni, no; split; run; rewrite ?Hq, ?Hcaps, ?Hst', ?Ho'; try done; intros E; by destruct (Hf E).
  destruct Hr as (-> & Hst' & outs & Hq & Hl & Hdl & Hfo). run. do 2 eexists. split; [reflexivity|]. split; [|done].
  exists ni, no. split; run; rewrite ?Hq, ?Hcaps, ?Hst'; try done.
  - intros Ec. specialize (Hb Ec). specialize (Hl Ec). rewrite length_app. lia.
  - intros E. destruct (Hf E) as [-> Hfr]. by rewrite (Hfo (Hfr eq_refl)).
  - intros E1' Ec. by rewrite (Hh E1' eq_refl), (Hdl Ec).
Qed.

Lemma clean_flush v : clean v -> exists v', validated_flush v = Some v' /\ clean v' /\ mode v' = mode v.
Proof.
  intros (ni & no & [Hv Hs Hc _ _ _ _ _ _ _ _]). destruct v as [t md fp vs s i' o st ex]. run. subst vs.
  destruct (law_flush t Hv) as (Hvt & Hcaps & Hst & Hq & Ho & Hf). unfold validated_flush. run. destruct fp; run.
  - destruct (law_receive (sr_flush t) Hvt) as (t' & Hvt' & Hcaps' & Ho' & Hf' & Hq' & Hr). rewrite Hq in Hq', Hr. rewrite Hst in Hr.
    destruct Hr as [-> Hst']. run. eexists. split; [reflexivity|]. split; [|done].
    exists 0, 0. split; run; rewrite ?Hq', ?Ho', ?Ho, ?Hst'; try done. auto.
  - eexists. split; [reflexivity|]. split; [|done]. exists 0, 0. split; run; rewrite ?Hq, ?Ho, ?Hst; try done.
Qed.

(** The validator and a lawful component, call by call. *)
Lemma validated_lawful t md probe cs :
  opened t -> exists v, calls_validated cs (with_flush_probe probe (with_mode t md)) = Some v /\ violations v = [] /\
    vstage v = stage_of (inner v).
Proof.
  intros (Hv & Hs & Hq & Ho & Hf). set (v := with_flush_probe probe (with_mode t md)).
  assert (clean v) as Hc.
  { exists 0, 0. split; cbn; rewrite ?Hq, ?Hs, ?Ho; done. }
  clearbody v. revert v Hc. induction cs as [|c cs IH]; intros v Hc.
  { exists v. destruct Hc as (ni & no & [? ? ? _ _ _ _ _ _ _ _]). by split_and!. }
  cbn [calls_validated]. assert (exists v', call_validated c v = Some v' /\ clean v') as (v' & E1 & Hc').
  { destruct c; cbn [call_validated].
    - destruct (clean_send i v Hc) as (res & v' & -> & ? & _). by exists v'.
    - destruct (clean_end v Hc) as (res & v' & -> & ? & _). by exists v'.
    - destruct (clean_receive v Hc) as (res & v' & -> & ? & _). by exists v'.
    - destruct (clean_flush v Hc) as (v' & -> & ? & _). by exists v'. }
  rewrite E1. cbn. by apply IH.
Qed.

(** C20. The validator never fires on a lawful component. Whatever a caller does -
    legal or not: sending after the end, receiving too early, flushing at any
    point - the validator neither panics nor records a violation, with or without
    its flush probe, in either mode. *)
Theorem validated_never_fires t md probe cs :
  opened t -> exists v, calls_validated cs (with_flush_probe probe (with_mode t md)) = Some v /\ violations v = [] /\
    vstage v = stage_of (inner v).
Proof. apply validated_lawful. Qed.

End clean.

(** ** The reference codec is lawful *)

Lemma emit_all_fields {O : Type} (outs : list O) m :
  queue (emit_all outs m) = queue m ++ outs /\ mstage (emit_all outs m) = mstage m /\ capacity (emit_all outs m) = capacity m /\
  mcaps (emit_all outs m) = mcaps m /\ source_done (emit_all outs m) = source_done m.
Proof.
  unfold emit_all. revert m. induction outs as [|o outs IH]; intros m; cbn [fold_left]; [by rewrite app_nil_r|].
  destruct (IH (emit o m)) as (-> & -> & -> & -> & ->). unfold emit. cbn. by rewrite <- app_assoc.
Qed.

#[local] Arguments emit_all : simpl never.
#[local] Arguments expected : simpl never.

Lemma length_units id n : length (units id n) = n.
Proof. unfold units. by rewrite length_map, length_seq. Qed.

Lemma program_step_in p n : program_step p n ∈ steps p \/ program_step p n = Emit 1.
Proof.
  unfold program_step. destruct (steps p !! _) as [s|] eqn:E; [|by right]. left. cbn. by eapply list_elem_of_lookup_2.
Qed.

(** A program declares exactly the flags its steps need. *)
Lemma program_caps_subframes p n : contains (program_caps p) SUBFRAMES = false -> Emit n ∈ steps p -> (n <= 1)%nat.
Proof.
  unfold program_caps. intros Hc Hin. destruct (existsb _ (steps p)) eqn:E.
  - exfalso. revert Hc. case_bool_decide; vm_compute; done.
  - destruct (decide (n <= 1)%nat) as [|Hn]; [done|]. exfalso.
    assert (existsb (fun s => match s with Emit n => (1 <? n)%nat | _ => false end) (steps p) = true) as E1; [|congruence].
    apply existsb_exists. exists (Emit n). split; [by apply list_elem_of_In|]. apply Nat.ltb_lt. lia.
Qed.

Lemma program_caps_delay p : contains (program_caps p) DELAY = false -> Reorder ∉ steps p.
Proof.
  unfold program_caps. case_bool_decide as E; [|done]. intros Hc. exfalso. revert Hc. case_match; vm_compute; done.
Qed.

Definition mock_valid (c : mock_codec) : Prop :=
  (0 < capacity (mmachine c))%nat /\ mcaps (mmachine c) = program_caps (program c) /\
  (mstage (mmachine c) = Feeding \/ source_done (mmachine c) = true) /\
  (contains (mcaps (mmachine c)) DELAY = false -> reorder c = []).

Lemma mock_law_receive c : mock_valid c -> exists c', mock_valid c' /\ mcaps (mmachine c') = mcaps (mmachine c) /\
  length (reorder c') = length (reorder c) /\ (reorder c = [] -> reorder c' = []) /\
  queue (mmachine c') = tail (queue (mmachine c)) /\
  match queue (mmachine c) with
  | x :: _ => mock_receive c = (Ok x, c') /\ mstage (mmachine c') = mstage (mmachine c)
  | [] =>
    if accepts_input (mstage (mmachine c)) then mock_receive c = (Err NeedMoreInput, c') /\ mstage (mmachine c') = Feeding
    else mock_receive c = (Err Eof, c') /\ mstage (mmachine c') = Drained
  end.
Proof.
  intros (Hcap & Hcaps & Hsd & Hd). exists (snd (mock_receive c)). revert Hcap Hcaps Hsd Hd.
  destruct c as [p [s [|x q] cap caps sd a pr de pti] ro n]; cbn; intros Hcap Hcaps Hsd Hd; [|by unfold mock_valid; cbn; split_and!].
  destruct s; cbn; [|destruct Hsd as [|Hsd]; [done|]; rewrite Hsd|]; unfold mock_valid; cbn; split_and!; auto.
Qed.

Lemma mock_law_send c i : mock_valid c -> exists res c', mock_send (Some i) c = (res, c') /\ mock_valid c' /\
  mcaps (mmachine c') = mcaps (mmachine c) /\ mstage (mmachine c') = mstage (mmachine c) /\
  if accepts_input (mstage (mmachine c)) then
    match res with
    | Err OutputPending => queue (mmachine c) <> [] /\ queue (mmachine c') = queue (mmachine c) /\
        length (reorder c') = length (reorder c) /\ (reorder c = [] -> reorder c' = [])
    | Err NeedMoreInput => False
    | _ => exists outs, queue (mmachine c') = queue (mmachine c) ++ outs /\
        (contains (mcaps (mmachine c)) SUBFRAMES = false -> (length outs + length (reorder c') <= length (reorder c) + 1)%nat)
    end
  else res = Err Eof /\ queue (mmachine c') = queue (mmachine c) /\ length (reorder c') = length (reorder c).
Proof.
  destruct c as [p [s q cap caps sd a pr de pti] ro n]. unfold mock_valid, mock_send, accept. cbn.
  intros (Hcap & Hcaps & Hsd & Hd). destruct s; cbn; [|by do 2 eexists; split_and!..].
  destruct (Nat.leb_spec cap (length q)) as [Hle|Hlt]; cbn.
  { do 2 eexists. split; [reflexivity|]. split_and!; try done. intros ->. cbn in Hle. lia. }
  destruct (program_step p n) as [k| | |] eqn:Es; cbn.
  - do 2 eexists. split; [reflexivity|]. cbn. match goal with |- context [emit_all ?o ?m] => destruct (emit_all_fields o m) as (Eq & E1 & E2 & E3 & E4) end.
    rewrite Eq, E1, E2, E3, E4. cbn. split_and!; try done. exists (units i k). split; [done|]. rewrite length_units. intros Hc. subst caps.
    destruct (program_step_in p n) as [Hin|Hin]; rewrite Es in Hin; [|injection Hin as ->; lia].
    pose proof (program_caps_subframes p k Hc Hin). lia.
  - assert (contains caps DELAY = true) as Hdl.
    { destruct (contains caps DELAY) eqn:E; [done|]. subst caps. apply program_caps_delay in E. destruct E.
      destruct (program_step_in p n) as [Hin|Hin]; rewrite Es in Hin; done. }
    match goal with |- context [if ?b then _ else _] => destruct b end.
    + destruct (ro ++ [MockUnit i 0]) as [|u ro'] eqn:Ero; [by destruct ro|]. apply (f_equal length) in Ero. rewrite length_app in Ero. cbn in Ero.
      do 2 eexists. split; [reflexivity|]. cbn. split_and!; try done; [congruence|]. exists [u]. split; [done|]. cbn. lia.
    + do 2 eexists. split; [reflexivity|]. cbn. split_and!; try done; [congruence|]. exists []. rewrite app_nil_r, length_app. cbn. split; [done|]. lia.
  - do 2 eexists. split; [reflexivity|]. cbn. split_and!; try done. exists []. rewrite app_nil_r. cbn. split; [done|]. lia.
  - do 2 eexists. split; [reflexivity|]. cbn. split_and!; try done. exists []. rewrite app_nil_r. cbn. split; [done|]. lia.
Qed.

Lemma mock_law_end c : mock_valid c -> exists res c', mock_send None c = (res, c') /\ mock_valid c' /\ mcaps (mmachine c') = mcaps (mmachine c) /\
  if accepts_input (mstage (mmachine c)) then
    res = Ok tt /\ mstage (mmachine c') = Draining /\ exists outs, queue (mmachine c') = queue (mmachine c) ++ outs /\
      (contains (mcaps (mmachine c)) SUBFRAMES = false -> (length outs + length (reorder c') <= length (reorder c))%nat) /\
      (contains (mcaps (mmachine c)) DELAY = false -> outs = []) /\ (reorder c = [] -> outs = [])
  else res = Err Eof /\ queue (mmachine c') = queue (mmachine c) /\ length (reorder c') = length (reorder c) /\
    mstage (mmachine c') = mstage (mmachine c).
Proof.
  destruct c as [p [s q cap caps sd a pr de pti] ro n]. unfold mock_valid, mock_send, accept. cbn.
  intros (Hcap & Hcaps & Hsd & Hd). destruct s; cbn; [|by do 2 eexists; split_and!..].
  do 2 eexists. split; [reflexivity|]. cbn. match goal with |- context [emit_all ?o ?m] => destruct (emit_all_fields o m) as (Eq & E1 & E2 & E3 & E4) end.
  rewrite Eq, E1, E2, E3. cbn. split_and!; try done; [by right|]. exists ro. split_and!; try done. cbn. lia.
Qed.

#[export, refine] Instance mock_lawful : Lawful mock_codec Z mock_unit := {|
  valid := mock_valid;
  stage_of c := mstage (mmachine c);
  queued c := queue (mmachine c);
  owed c := length (reorder c);
  fresh c := reorder c = [];
  law_receive := mock_law_receive;
  law_send := mock_law_send;
  law_end := mock_law_end;
|}.
Proof.
  intros c (Hcap & Hcaps & _ & _). cbn. unfold mock_valid. cbn. by split_and!; auto.
Defined.

Lemma mock_opened p cap : opened (mock_with_capacity p cap).
Proof. unfold opened. cbn. unfold mock_valid. cbn. split_and!; auto. lia. Qed.

Lemma validated_never_fires_witness :
  let p := with_reorder_delay 1 (program_new [Reorder; Corrupt; Emit 3; Skip]) in
  let cs := [Receive; Send 1; Send 2; Send 3; Send 4; Receive; End_; Send 9; Receive; Receive; Receive; Receive; Receive; Receive; Flush; Send 5; Receive] in
  exists v, calls_validated cs (with_flush_probe true (with_mode (mock_with_capacity p 2) Panic)) = Some v /\ violations v = [].
Proof.
  intros p cs. destruct (validated_never_fires (mock_with_capacity p 2) Panic true cs (mock_opened p 2)) as (v & H1 & H2 & _).
  exists v. split; [exact H1|exact H2].
Defined.

(** ** The reference codec delivers its reference model *)

(** What a caller collects: the outputs, the inputs that were consumed, and
    whether the end was reported. *)
Record transcript : Type := Transcript { outs : list mock_unit; ids : list Z; ended : bool }.

Definition converse1 (q : call Z) (x : transcript * mock_codec) : transcript * mock_codec :=
  let '(Transcript os is_ e, c) := x in
  match q with
  | Send i =>
    let '(res, c) := mock_send (Some i) c in
    (Transcript os (match res with Ok _ | Err (InvalidData _) => is_ ++ [i] | _ => is_ end) e, c)
  | End_ => let '(_, c) := mock_send None c in (Transcript os is_ e, c)
  | Receive =>
    let '(res, c) := mock_receive c in
    (match res with
     | Ok o => Transcript (os ++ [o]) is_ e
     | Err Eof => Transcript os is_ true
     | Err _ => Transcript os is_ e
     end, c)
  | Flush => (Transcript [] [] false, mock_flush c)
  end.

Definition converse (cs : list (call Z)) (c : mock_codec) : transcript * mock_codec :=
  fold_left (fun x q => converse1 q x) cs (Transcript [] [] false, c).

Lemma expected_snoc p n l id fed q :
  expected_from p n (l ++ [id]) fed q =
    let '(fed, q) := expected_from p n l fed q in expected_from p (n + Z.of_nat (length l)) [id] fed q.
Proof.
  revert n fed q. induction l as [|i l IH]; intros n fed q; [cbn [app length expected_from]; by rewrite Z.add_0_r|].
  replace (n + Z.of_nat (length (i :: l))) with (n + 1 + Z.of_nat (length l)) by (cbn [length]; lia).
  cbn [app expected_from]. destruct (program_step p n); try apply IH.
  destruct (reorder_delay p <? length (q ++ [MockUnit i 0]))%nat; [|apply IH]. destruct (q ++ [MockUnit i 0]); apply IH.
Qed.

(** After any conversation what was delivered and what is queued are the model's
    outputs, in the model's order. *)
Record agrees (p : mock_program) (t : transcript) (c : mock_codec) : Prop := {
  ag_program : program c = p;
  ag_count : minputs c = Z.of_nat (length (ids t));
  ag_outputs : let '(fed, held) := expected p (ids t) in
    if accepts_input (mstage (mmachine c)) then outs t ++ queue (mmachine c) = fed /\ reorder c = held
    else outs t ++ queue (mmachine c) = fed ++ held /\ source_done (mmachine c) = true;
  ag_end : ended t = true -> mstage (mmachine c) = Drained;
  ag_drained : mstage (mmachine c) = Drained -> queue (mmachine c) = [];
}.

Lemma agrees_flush p t c : agrees p t c -> agrees p (Transcript [] [] false) (mock_flush c).
Proof. intros [Hp _ _ _ _]. by split. Qed.

Lemma agrees_receive p t c : agrees p t c ->
  agrees p (fst (converse1 Receive (t, c))) (snd (converse1 Receive (t, c))).
Proof.
  intros [Hp Hn Ho He Hd]. destruct t as [os is_ e]. destruct c as [p' [s [|x q] cap caps sd a pr de pti] ro n]; cbn in *; subst p' n.
  - destruct s; [by split| |by split]. cbn in Ho.
    destruct (expected p is_) as [fed held] eqn:E. destruct Ho as [Ho ->]. split; cbn; try done. by rewrite E.
  - destruct (expected p is_) as [fed held] eqn:E. split; cbn; try done; [|by intros Hs; specialize (Hd Hs)].
    rewrite E, <- app_assoc. exact Ho.
Qed.

Lemma agrees_end p t c : agrees p t c -> agrees p (fst (converse1 End_ (t, c))) (snd (converse1 End_ (t, c))).
Proof.
  intros [Hp Hn Ho He Hd]. destruct t as [os is_ e]. destruct c as [p' [s q cap caps sd a pr de pti] ro n]. cbn in *. subst p' n.
  destruct s; cbn in *; [|by split..]. destruct (expected p is_) as [fed held] eqn:E. destruct Ho as [Ho ->].
  match goal with |- context [emit_all ?o ?m] => destruct (emit_all_fields o m) as (Eq & E1 & _ & _ & _) end.
  split; cbn; rewrite ?Eq, ?E1; cbn; try done.
  - rewrite E. by rewrite app_assoc, Ho.
  - intros Ee. by specialize (He Ee).
Qed.

Lemma agrees_send p t c i : agrees p t c -> Z.of_nat (length (ids t)) + 1 < 2 ^ 64 ->
  agrees p (fst (converse1 (Send i) (t, c))) (snd (converse1 (Send i) (t, c))).
Proof.
  intros [Hp Hn Ho He Hd] Hl. destruct t as [os is_ e]. destruct c as [p' [s q cap caps sd a pr de pti] ro n]. cbn [program minputs mmachine outs ids ended reorder mstage queue] in *.
  subst p' n. destruct s; [|by split..]. cbn [accepts_input] in Ho.
  unfold converse1, mock_send, accept. cbn [mmachine mstage capacity queue].
  destruct (cap <=? length q)%nat; [by split|]. cbn [program minputs reorder mmachine].
  assert (wrap_u 64 (Z.of_nat (length is_) + 1) = Z.of_nat (length (is_ ++ [i]))) as Ew by (rewrite wrap_u_id, length_app by lia; cbn; lia).
  assert (expected p (is_ ++ [i]) = let '(fed, held) := expected p is_ in expected_from p (Z.of_nat (length is_)) [i] fed held) as Ex
    by (unfold expected; by rewrite expected_snoc).
  destruct (expected p is_) as [fed held] eqn:E. destruct Ho as [Ho ->]. cbn [expected_from] in Ex.
  assert (~ (e = true)) as Hne by (intros Hee; by specialize (He Hee)).
  destruct (program_step p (Z.of_nat (length is_))) as [k| | |].
  - match goal with |- context [emit_all ?o ?m] => destruct (emit_all_fields o m) as (Eq & E1 & _ & _ & _) end.
    split; cbn [fst snd program minputs mmachine outs ids ended reorder]; rewrite ?Eq, ?E1; try done.
    rewrite Ex. cbn. by rewrite app_assoc, Ho.
  - destruct (reorder_delay p <? length (held ++ [MockUnit i 0]))%nat; [destruct (held ++ [MockUnit i 0]) as [|u held'] eqn:Eh; [by destruct held|]|];
      (split; cbn [fst snd program minputs mmachine outs ids ended reorder]; try done; rewrite Ex; cbn; split; [|done]); [by rewrite app_assoc, Ho|done].
  - split; cbn [fst snd program minputs mmachine outs ids ended reorder]; try done. by rewrite Ex.
  - split; cbn [fst snd program minputs mmachine outs ids ended reorder]; try done. by rewrite Ex.
Qed.

Lemma converse_agrees p cs t c :
  agrees p t c -> Z.of_nat (length (ids t) + length cs) < 2 ^ 64 ->
  let x := fold_left (fun x q => converse1 q x) cs (t, c) in agrees p (fst x) (snd x).
Proof.
  revert t c. induction cs as [|q cs IH]; intros t c Ha Hl; [done|]. cbn [fold_left length] in *.
  assert (agrees p (fst (converse1 q (t, c))) (snd (converse1 q (t, c))) /\ (length (ids (fst (converse1 q (t, c)))) <= S (length (ids t)))%nat) as [Ha' Hl'].
  { destruct q as [i| | |].
    - split; [apply agrees_send; [done|lia]|]. destruct t as [os is_ e]. cbn. destruct (mock_send (Some i) c) as [[|[]] c']; cbn; rewrite ?length_app; cbn; lia.
    - split; [by apply agrees_end|]. destruct t as [os is_ e]. cbn. destruct (mock_send None c) as [? c']. cbn. lia.
    - split; [by apply agrees_receive|]. destruct t as [os is_ e]. cbn. destruct (mock_receive c) as [[|[]] c']; cbn; lia.
    - split; [destruct t; by eapply agrees_flush|]. destruct t as [os is_ e]. cbn. lia. }
  destruct (converse1 q (t, c)) as [t' c']. cbn [fst snd] in *. apply IH; [done|lia].
Qed.

(** Enough receives reach the end. *)
Lemma drain_ends p t c n :
  agrees p t c -> accepts_input (mstage (mmachine c)) = false -> (length (queue (mmachine c)) < n)%nat ->
  ended (fst (fold_left (fun x q => converse1 q x) (replicate n Receive) (t, c))) = true.
Proof.
  revert t c. induction n as [|n IH]; intros t c Ha Hs Hl; [lia|]. cbn [replicate fold_left].
  pose proof (agrees_receive p t c Ha) as Ha'. destruct Ha as [Hp Hn Ho He Hd].
  assert (forall n t c, ended t = true -> accepts_input (mstage (mmachine c)) = false ->
    ended (fst (fold_left (fun x q => converse1 q x) (replicate n Receive) (t, c))) = true) as Hstay.
  { clear. induction n as [|n IH]; intros t c Ht Hs; [done|]. cbn [replicate fold_left]. destruct t as [os is_ e]. cbn in Ht. subst e.
    destruct c as [p' [s [|x q] cap caps sd a pr de pti] ro m]. 
    - destruct s; [done| |]; cbn; [destruct sd|]; cbn; by apply IH.
    - cbn. by apply IH. }
  destruct t as [os is_ e]. destruct c as [p' [s [|x q] cap caps sd a pr de pti] ro m]; cbn [mmachine mstage queue] in *.
  - destruct s; [done| |].
    + cbn in Ho. destruct (expected p is_) as [fed held]. destruct Ho as [_ ->]. cbn. by apply Hstay.
    + cbn. by apply Hstay.
  - cbn in Ha' |- *. apply IH; [done|done|]. cbn [mmachine queue length] in *. lia.
Qed.

Lemma receives_agree p n t c :
  agrees p t c -> let x := fold_left (fun x q => converse1 q x) (replicate n Receive) (t, c) in
  agrees p (fst x) (snd x) /\ ids (fst x) = ids t.
Proof.
  revert t c. induction n as [|n IH]; intros t c Ha; [done|]. cbn [replicate fold_left].
  pose proof (agrees_receive p t c Ha) as Ha'.
  assert (ids (fst (converse1 Receive (t, c))) = ids t) as Ei by (destruct t; cbn; by destruct (mock_receive c) as [[|[]] ?]).
  destruct (converse1 Receive (t, c)) as [t' c']. cbn [fst snd] in *. rewrite <- Ei. by apply IH.
Qed.

Lemma agrees_ended p t c : agrees p t c -> ended t = true -> let '(fed, held) := expected p (ids t) in outs t = fed ++ held.
Proof.
  intros [_ _ Ho He Hd] Ht. specialize (He Ht). specialize (Hd He). rewrite He, Hd in Ho. destruct (expected p (ids t)) as [fed held].
  destruct Ho as [Ho _]. by rewrite app_nil_r in Ho.
Qed.

(** C19. The reference codec delivers exactly its reference model. Whatever calls
    a caller makes, in whatever order - with backpressure, corrupt inputs, early
    receives, input after the end, flushes - what it has received since the last
    flush is a prefix of the model's outputs for the inputs that were consumed,
    nothing lost, duplicated or reordered; once the end is reported it is all of
    them, the drained ones included; and after the end of input the end is
    reported as soon as the queue is taken. *)
Theorem mock_delivers_model p capacity cs :
  Z.of_nat (length cs) < 2 ^ 64 - 1 ->
  let x := converse cs (mock_with_capacity p capacity) in
  let m := expected p (ids (fst x)) in
  let y := converse1 End_ x in
  (exists rest, fst m ++ snd m = outs (fst x) ++ rest) /\
  (ended (fst x) = true -> outs (fst x) = fst m ++ snd m) /\
  forall n, (length (queue (mmachine (snd y))) < n)%nat ->
    let z := fst (fold_left (fun x q => converse1 q x) (replicate n Receive) y) in
    ended z = true /\ ids z = ids (fst x) /\ outs z = fst m ++ snd m.
Proof.
  intros Hl x m y. subst m y. unfold converse in x. subst x.
  assert (agrees p (Transcript [] [] false) (mock_with_capacity p capacity)) as H0 by (by split).
  pose proof (converse_agrees p cs _ _ H0 ltac:(cbn; lia)) as Ha.
  destruct (fold_left (fun x q => converse1 q x) cs (Transcript [] [] false, mock_with_capacity p capacity)) as [t c]. cbn [fst snd] in Ha.
  pose proof (agrees_ended p t c Ha) as He. pose proof (agrees_end p t c Ha) as Ha1.
  assert (ids (fst (converse1 End_ (t, c))) = ids t) as Ei by (destruct t; cbn; by destruct (mock_send None c)).
  assert (accepts_input (mstage (mmachine (snd (converse1 End_ (t, c))))) = false) as Hs1.
  { destruct t as [os is_ e]. destruct c as [p' [[] q cap caps sd a pr de pti] ro m]; [|done..]. cbn.
    match goal with |- context [emit_all ?o ?m] => destruct (emit_all_fields o m) as (_ & -> & _) end. done. }
  destruct (converse1 End_ (t, c)) as [t' c'] eqn:Ec. cbn [fst snd] in *. destruct (expected p (ids t)) as [fed held] eqn:Ex.
  split; [|split; [exact He|]].
  - destruct Ha as [_ _ Ho _ _]. rewrite Ex in Ho. destruct (accepts_input (mstage (mmachine c))); destruct Ho as [Ho _].
    + exists (queue (mmachine c) ++ held). by rewrite app_assoc, Ho.
    + by exists (queue (mmachine c)).
  - intros n Hn. set (t'' := fst (fold_left _ (replicate n Receive) (t', c'))). pose proof (drain_ends p t' c' n Ha1 Hs1 Hn) as Hend. destruct (receives_agree p n t' c' Ha1) as [Ha2 Ei2].
    fold t'' in Hend. pose proof (agrees_ended p _ _ Ha2) as He2. fold t'' in Ei2, He2. split; [done|]. split; [congruence|].
    specialize (He2 Hend). rewrite Ei2, Ei, Ex in He2. exact He2.
Qed.

Lemma mock_delivers_model_witness :
  let p := with_reorder_delay 1 (program_new [Reorder; Corrupt; Emit 2; Reorder]) in
  let cs := [Send 7; Send 8; Receive; Send 9; Send 10; Receive; Send 10; Receive] in
  let t := fst (converse cs (mock_with_capacity p 2)) in
  ids t = [7; 8; 9; 10] /\ outs t = [MockUnit 9 0; MockUnit 9 1] /\
  exists rest, [MockUnit 9 0; MockUnit 9 1; MockUnit 7 0; MockUnit 10 0] = outs t ++ rest.
Proof.
  intros p cs t. split; [vm_compute; reflexivity|]. split; [vm_compute; reflexivity|].
  destruct (mock_delivers_model p 2 cs ltac:(vm_compute; reflexivity)) as [[rest Hr] _]. exists rest.
  refine (eq_trans _ Hr). vm_compute. reflexivity.
Defined.

(** [accepted] is documented as the inputs accepted since the last flush, and
    [flush] as leaving what a fresh machine looks like; the count survives it. *)
Lemma flush_keeps_accepted :
  let m := snd (accept false (machine_new (O := mock_unit) 0)) in accepted (machine_flush m) = 1.
Proof. reflexivity. Qed.
