(* ===== verification/Vlc.v ===== *)
(** * Vlc: prefix-code tables and their lookups

    [src/crates/signal/vaco-codec-vlc/src/lib.rs]: tables of codewords decoded by
    a scan, by a full lookup and by a lookup of a bounded width that falls back to
    the scan, and the two checks a transcribed table is held to. Codeword lengths
    are at most 32 bits, as the entry's documentation asks. *)

From Stdlib Require Import ZArith Lia.
From stdpp Require Import prelude.
From S2P Require Import Prelude Bits Source Reader.

(** ** Tables *)

Record entry : Type := Entry { code : Z; len : Z; symbol : Z }.

Record vlc_table : Type := VlcTable { entries : list entry; max_len : Z }.

Definition table_new (es : list entry) : vlc_table := VlcTable es (fold_left (fun m e => Z.max m (len e)) es 0).

(** A lookup slot: a symbol and its length; length 0 is an empty slot. *)
Definition slot : Type := (Z * Z)%type.

Record vlc_lookup : Type := VlcLookup { table : vlc_table; width : Z; slots : list slot }.

Definition LOOKUP_FALLBACK : Z := 255.

(** The scan: the first candidate whose codeword is the high part of [peeked]. *)
Fixpoint scan (max_len peeked : Z) (es : list entry) : option entry :=
  match es with
  | [] => None
  | e :: es =>
    if (len e =? 0) || (max_len <? len e) then scan max_len peeked es
    else if Z.shiftr peeked (max_len - len e) =? code e then Some e
    else scan max_len peeked es
  end.

(** [iter_mut().skip(base).take(span)], writing only empty slots. *)
Definition claim (base span : Z) (s : slot) (l : list slot) : list slot :=
  imap (fun i old => if (base <=? Z.of_nat i) && (Z.of_nat i <? base + span) && (snd old =? 0) then s else old) l.

Definition build_lut (t : vlc_table) : list slot :=
  fold_left (fun lut e =>
    if (len e =? 0) || (max_len t <? len e) then lut
    else
      let shift := max_len t - len e in
      claim (Z.shiftl (code e) shift) (Z.shiftl 1 shift) (symbol e, len e) lut)
    (entries t) (replicate (Z.to_nat (Z.shiftl 1 (max_len t))) (0, 0)).

(** A [u32] shifted right by [k]: the amount is taken modulo 32 in a release
    build; a debug build panics where that matters. *)
Definition shr32 (c k : Z) : Z := Z.shiftr c (k mod 32).

Definition build_lookup (t : vlc_table) (width : Z) : option vlc_lookup :=
  if (max_len t <? width) || (64 <=? width) then None
  else
    Some (VlcLookup t width
      (fold_left (fun slots e =>
        if (len e =? 0) || (max_len t <? len e) then slots
        else if width <? len e then
          let prefix := shr32 (code e) (len e - width) in claim prefix 1 (0, LOOKUP_FALLBACK) slots
        else
          let span := Z.shiftl 1 (width - len e) in
          let base := Z.shiftl (code e) (width - len e) in
          claim base span (symbol e, len e) slots)
      (entries t) (replicate (Z.to_nat (Z.shiftl 1 width)) (0, 0)))).

Section decode.
Context {R : Type} `{BitSource R}.

Definition decode (t : vlc_table) (r : R) : option Z * R :=
  if max_len t =? 0 then (None, r)
  else
    let '(peeked, r) := src_peek r (max_len t) in
    match scan (max_len t) peeked (entries t) with
    | Some e => (Some (symbol e), src_skip r (len e))
    | None => (None, r)
    end.

Definition decode_with_lut (t : vlc_table) (lut : list slot) (r : R) : option Z * R :=
  if max_len t =? 0 then (None, r)
  else
    let '(peeked, r) := src_peek r (max_len t) in
    match lut !! Z.to_nat peeked with
    | None => (None, r)
    | Some (symbol, len) => if len =? 0 then (None, r) else (Some symbol, src_skip r len)
    end.

Definition lookup_decode (l : vlc_lookup) (r : R) : option Z * R :=
  let '(peeked, r) := src_peek r (width l) in
  match slots l !! Z.to_nat peeked with
  | None => (None, r)
  | Some (symbol, len) =>
    if len =? 0 then (None, r)
    else if len =? LOOKUP_FALLBACK then decode (table l) r
    else (Some symbol, src_skip r len)
  end.

End decode.

(** ** The checks *)

Definition compatible (a b : entry) : bool :=
  let '(short, long) := if len a <=? len b then (a, b) else (b, a) in
  if (len short =? 0) || (len long =? 0) || (len short =? len long) then
    negb ((len short =? len long) && (code short =? code long))
  else negb (Z.shiftr (code long) (len long - len short) =? code short).

Fixpoint is_prefix_free (es : list entry) : bool :=
  match es with
  | [] => true
  | a :: es => forallb (compatible a) es && is_prefix_free es
  end.

Definition kraft_numerator (es : list entry) (scale_len : Z) : Z :=
  fold_left (fun total e =>
    if (len e =? 0) || (scale_len <? len e) then total else sat_u 64 (total + Z.shiftl 1 (scale_len - len e))) es 0.

(** ** Lookups agree with the scan *)

(** Lengths as documented; codes are [u32]. *)
Definition table_ok (es : list entry) : Prop := Forall (fun e => 0 <= len e <= 32 /\ 0 <= code e < 2 ^ 32) es.

Lemma fold_max_spec es m0 : 0 <= m0 <= 32 -> table_ok es ->
  let m := fold_left (fun m e => Z.max m (len e)) es m0 in m0 <= m <= 32 /\ Forall (fun e => len e <= m) es.
Proof.
  revert m0. induction es as [|e es IH]; intros m0 Hm Hok; cbn [fold_left]; [split; [lia|constructor]|].
  apply Forall_cons in Hok as [He Hok]. destruct (IH (Z.max m0 (len e)) ltac:(lia) Hok) as [H1 H2].
  split; [lia|]. constructor; [lia|done].
Qed.

Lemma table_new_len es : table_ok es -> 0 <= max_len (table_new es) <= 32 /\ Forall (fun e => len e <= max_len (table_new es)) es.
Proof. intros Hok. apply (fold_max_spec es 0); [lia|done]. Qed.

(** Whether entry [e] claims the slot of prefix [i], and with what. *)
Definition touches (width : Z) (i : Z) (e : entry) : bool :=
  if width <? len e then Z.shiftr (code e) (len e - width) =? i else Z.shiftr i (width - len e) =? code e.

Definition content (width : Z) (e : entry) : slot := if width <? len e then (0, LOOKUP_FALLBACK) else (symbol e, len e).

(** The first entry that touches a slot fills it. *)
Fixpoint filled (max_len width i : Z) (es : list entry) : slot :=
  match es with
  | [] => (0, 0)
  | e :: es =>
    if (len e =? 0) || (max_len <? len e) then filled max_len width i es
    else if touches width i e then content width e else filled max_len width i es
  end.

Lemma claim_lookup base span s l i :
  claim base span s l !! i =
    (fun old => if (base <=? Z.of_nat i) && (Z.of_nat i <? base + span) && (snd old =? 0) then s else old) <$> l !! i.
Proof. unfold claim. by rewrite list_lookup_imap. Qed.

Lemma length_claim base span s l : length (claim base span s l) = length l.
Proof. apply length_imap. Qed.

(** Being in the block of a codeword is having it as high part. *)
Lemma block_spec c k i : 0 <= k -> 0 <= i ->
  (Z.shiftl c k <=? i) && (i <? Z.shiftl c k + Z.shiftl 1 k) = (Z.shiftr i k =? c).
Proof.
  intros Hk Hi. rewrite !Z.shiftl_mul_pow2, Z.shiftr_div_pow2, Z.mul_1_l by done. assert (0 < 2 ^ k) by (apply Z.pow_pos_nonneg; lia).
  apply eq_bool_prop_intro. rewrite andb_True, !Is_true_true, Z.leb_le, Z.ltb_lt, Z.eqb_eq. split.
  - intros [H1 H2]. symmetry. apply (Z.div_unique_pos _ _ _ (i - c * 2 ^ k)); lia.
  - intros <-. pose proof (Z.mul_div_le i (2 ^ k)). pose proof (Z.mul_succ_div_gt i (2 ^ k)). lia.
Qed.

(** One step of building a lookup. *)
Definition build_step (max_len width : Z) (slots : list slot) (e : entry) : list slot :=
  if (len e =? 0) || (max_len <? len e) then slots
  else if width <? len e then
    let prefix := shr32 (code e) (len e - width) in claim prefix 1 (0, LOOKUP_FALLBACK) slots
  else
    let span := Z.shiftl 1 (width - len e) in
    let base := Z.shiftl (code e) (width - len e) in
    claim base span (symbol e, len e) slots.

(** The lengths for which the prefix of a long codeword is computed right. *)
Definition shiftable (w : Z) (e : entry) : Prop := 0 <= len e < w + 32.

Lemma build_step_lookup m w l e i : 0 <= w -> shiftable w e ->
  build_step m w l e !! i =
    (fun old => if (len e =? 0) || (m <? len e) then old
      else if touches w (Z.of_nat i) e && (snd old =? 0) then content w e else old) <$> l !! i.
Proof.
  intros Hw [Hl Hl']. unfold build_step, shr32. destruct ((len e =? 0) || (m <? len e)) eqn:E0; [by destruct (l !! i)|].
  unfold touches, content. destruct (Z.ltb_spec w (len e)) as [H1|H1]; rewrite claim_lookup; destruct (l !! i) as [old|]; cbn; try done.
  - rewrite Z.mod_small by lia. do 2 f_equal. destruct (Z.eqb_spec (Z.shiftr (code e) (len e - w)) (Z.of_nat i)) as [->|Hne].
    + by rewrite Z.leb_refl, (proj2 (Z.ltb_lt _ _)) by lia.
    + destruct (Z.leb_spec (Z.shiftr (code e) (len e - w)) (Z.of_nat i)); [|done]. by rewrite (proj2 (Z.ltb_ge _ _)) by lia.
  - by rewrite block_spec by lia.
Qed.

Lemma fold_left_in {A B : Type} (f g : A -> B -> A) (l : list B) (a : A) :
  (forall a b, b ∈ l -> f a b = g a b) -> fold_left f l a = fold_left g l a.
Proof.
  revert a. induction l as [|b l IH]; intros a Hfg; [done|]. cbn [fold_left].
  rewrite (Hfg a b) by left. apply IH. intros a' b' Hin. apply Hfg. by right.
Qed.

(** The full lookup is built by the same steps: no codeword is longer than the
    longest. *)
Lemma build_lut_steps t : Forall (fun e => len e <= max_len t) (entries t) ->
  build_lut t = fold_left (build_step (max_len t) (max_len t)) (entries t) (replicate (Z.to_nat (Z.shiftl 1 (max_len t))) (0, 0)).
Proof.
  intros Hle. unfold build_lut. apply fold_left_in. intros l e Hin. rewrite Forall_forall in Hle.
  unfold build_step. by rewrite (proj2 (Z.ltb_ge (max_len t) (len e)) (Hle e Hin)).
Qed.

Lemma build_lookup_steps t w :
  build_lookup t w = if (max_len t <? w) || (64 <=? w) then None
    else Some (VlcLookup t w (fold_left (build_step (max_len t) w) (entries t) (replicate (Z.to_nat (Z.shiftl 1 w)) (0, 0)))).
Proof. done. Qed.

Lemma length_build_steps m w es l : length (fold_left (build_step m w) es l) = length l.
Proof.
  revert l. induction es as [|e es IH]; intros l; [done|]. cbn [fold_left]. rewrite IH. unfold build_step.
  destruct (_ || _); [done|]. destruct (w <? len e); apply length_claim.
Qed.

Lemma content_taken w e : len e <> 0 -> (snd (content w e) =? 0) = false.
Proof. intros He. unfold content. destruct (w <? len e); cbn; [done|]. by apply Z.eqb_neq. Qed.

Lemma build_lookup_fold m w es l i old :
  0 <= w -> Forall (shiftable w) es -> l !! i = Some old ->
  fold_left (build_step m w) es l !! i = Some (if snd old =? 0 then
    (let s := filled m w (Z.of_nat i) es in if snd s =? 0 then old else s) else old).
Proof.
  intros Hw. revert l old. induction es as [|e es IH]; intros l old Hes Hl; cbn [fold_left filled].
  { rewrite Hl. f_equal. cbn. by destruct (snd old =? 0). }
  apply Forall_cons in Hes as [He Hes]. pose proof (build_step_lookup m w l e i Hw He) as Hs. rewrite Hl in Hs. cbn [fmap option_fmap option_map] in Hs.
  rewrite (IH _ _ Hes Hs). f_equal. destruct ((len e =? 0) || (m <? len e)) eqn:E0; [done|].
  apply orb_false_iff in E0 as [E0 _]. apply Z.eqb_neq in E0.
  destruct (touches w (Z.of_nat i) e); cbn [andb]; [|done].
  destruct (snd old =? 0) eqn:Eo; [|by rewrite Eo]. by rewrite content_taken.
Qed.

Lemma filled_zero m w i es : snd (filled m w i es) = 0 -> filled m w i es = (0, 0).
Proof.
  induction es as [|e es IH]; cbn [filled]; [done|]. destruct ((len e =? 0) || (m <? len e)) eqn:E0; [done|].
  apply orb_false_iff in E0 as [E0 _]. apply Z.eqb_neq in E0. destruct (touches w i e); [|done].
  intros E. pose proof (content_taken w e E0) as Hc. rewrite E in Hc. done.
Qed.

(** The slot of a prefix holds the content of the first entry that touches it. *)
Lemma slots_filled m w es i :
  0 <= w -> Forall (shiftable w) es -> 0 <= i < 2 ^ w ->
  fold_left (build_step m w) es (replicate (Z.to_nat (Z.shiftl 1 w)) (0, 0)) !! Z.to_nat i = Some (filled m w i es).
Proof.
  intros Hw Hes Hi. rewrite (build_lookup_fold m w es _ _ (0, 0)); [|done|done|].
  - rewrite Z2Nat.id by lia. cbn [snd Z.eqb]. f_equal. cbv zeta. destruct (snd (filled m w i es) =? 0) eqn:E; [|done].
    apply Z.eqb_eq in E. by rewrite filled_zero.
  - apply lookup_replicate_2. rewrite Z.shiftl_mul_pow2 by lia. lia.
Qed.

(** What the scan finds, told by the first touching entry. *)
Lemma scan_filled m w x es :
  0 <= w <= m -> Forall (shiftable w) es ->
  match scan m x es with
  | Some e => filled m w (Z.shiftr x (m - w)) es = (symbol e, len e) /\ 0 < len e <= w \/ filled m w (Z.shiftr x (m - w)) es = (0, LOOKUP_FALLBACK)
  | None => filled m w (Z.shiftr x (m - w)) es = (0, 0) \/ filled m w (Z.shiftr x (m - w)) es = (0, LOOKUP_FALLBACK)
  end.
Proof.
  intros Hw. induction es as [|e es IH]; intros Hes; [by left|]. apply Forall_cons in Hes as [He Hes]. specialize (IH Hes).
  cbn [scan filled]. destruct ((len e =? 0) || (m <? len e)) eqn:E0; [done|].
  apply orb_false_iff in E0 as [E0 E1]. apply Z.eqb_neq in E0. apply Z.ltb_ge in E1.
  unfold touches, content. destruct (Z.ltb_spec w (len e)) as [H1|H1].
  - destruct (Z.eqb_spec (Z.shiftr x (m - len e)) (code e)) as [<-|Hne].
    + rewrite Z.shiftr_shiftr by lia. replace (m - len e + (len e - w)) with (m - w) by lia. rewrite Z.eqb_refl. by right.
    + destruct (Z.shiftr (code e) (len e - w) =? Z.shiftr x (m - w)); [|done]. destruct (scan m x es); by right.
  - rewrite Z.shiftr_shiftr by lia. replace (m - w + (w - len e)) with (m - len e) by lia.
    destruct (Z.shiftr x (m - len e) =? code e); [|done]. left. split; [done|]. destruct He. lia.
Qed.

Lemma filled_full m i es : m <= 32 -> Forall (fun e => len e <= m) es -> filled m m i es <> (0, LOOKUP_FALLBACK).
Proof.
  intros Hm. induction 1 as [|e es He _ IH]; cbn [filled]; [done|]. destruct (_ || _); [done|]. destruct (touches m i e); [|done].
  unfold content. rewrite (proj2 (Z.ltb_ge _ _) He). intros [= _ E]. unfold LOOKUP_FALLBACK in E. lia.
Qed.

Section decode_spec.
Context {R : Type} `{BitSource R} (f : Z -> bool) (limit : Z) (fl : bool).

(** What a decode leaves: the reader stands behind the codeword, or where it
    stood. *)
Definition decoded (p : Z) (x : option entry) (res : option Z * R) : Prop :=
  match x with
  | Some e => fst res = Some (symbol e) /\ src_at f limit (snd res) (p + len e) fl
  | None => fst res = None /\ src_at f limit (snd res) p fl
  end.

Lemma scan_in m x es e : scan m x es = Some e -> e ∈ es /\ len e <> 0 /\ len e <= m /\ Z.shiftr x (m - len e) = code e.
Proof.
  induction es as [|e' es IH]; [done|]. cbn [scan]. destruct ((len e' =? 0) || (m <? len e')) eqn:E0.
  { intros E. destruct (IH E) as (Hin & Hr). split; [by right|done]. }
  apply orb_false_iff in E0 as [E0 E1]. apply Z.eqb_neq in E0. apply Z.ltb_ge in E1.
  destruct (Z.eqb_spec (Z.shiftr x (m - len e')) (code e')) as [E2|]; [|intros E; destruct (IH E) as (Hin & Hr); split; [by right|done]].
  intros [= ->]. split; [left|done].
Qed.

Lemma decode_spec es r p :
  table_ok es -> src_at f limit r p fl -> p + 32 <= LIM -> 0 <= p ->
  decoded p (scan (max_len (table_new es)) (field f p (max_len (table_new es))) es) (decode (table_new es) r).
Proof.
  intros Hok Hr Hp Hp0. destruct (table_new_len es Hok) as [Hm Hle]. unfold decode, decoded.
  change (entries (table_new es)) with es. set (m := max_len (table_new es)) in *. destruct (Z.eqb_spec m 0) as [E0|E0].
  { assert (scan m (field f p m) es = None) as ->; [|done]. destruct (scan m (field f p m) es) as [e|] eqn:Es; [|done].
    apply scan_in in Es as (Hin & H1 & H2 & _). unfold table_ok in Hok. rewrite Forall_forall in Hle, Hok. specialize (Hok e Hin). specialize (Hle e Hin). lia. }
  destruct (src_peek_ok f limit r p fl m Hr ltac:(lia) ltac:(lia)) as (r' & -> & Hr').
  destruct (scan m (field f p m) es) as [e|] eqn:Es; [|done]. split; [done|].
  apply scan_in in Es as (Hin & H1 & H2 & _). unfold table_ok in Hok. rewrite Forall_forall in Hok. specialize (Hok e Hin).
  apply src_skip_ok; [done|lia|lia].
Qed.


End decode_spec.

(** ** Prefix-free tables *)

(** A codeword that fits its length. *)
Definition fits (e : entry) : Prop := 1 <= len e <= 32 /\ 0 <= code e < 2 ^ len e.

(** Entry [e] matches the [m]-bit word [x]. *)
Definition matches (m x : Z) (e : entry) : bool := Z.shiftr x (m - len e) =? code e.

Lemma matches_compatible m x a b :
  1 <= len a <= m -> 1 <= len b <= m -> matches m x a -> matches m x b -> compatible a b = false.
Proof.
  intros Ha Hb Hma Hmb. unfold matches in *. apply Is_true_true, Z.eqb_eq in Hma, Hmb. unfold compatible.
  assert (forall s l, 1 <= len s <= len l -> len l <= m -> Z.shiftr x (m - len s) = code s -> Z.shiftr x (m - len l) = code l ->
    (if (len s =? 0) || (len l =? 0) || (len s =? len l) then negb ((len s =? len l) && (code s =? code l))
     else negb (Z.shiftr (code l) (len l - len s) =? code s)) = false) as Hsl.
  { clear. intros s l Hs Hl Es El. rewrite !(proj2 (Z.eqb_neq _ 0)) by lia. cbn [orb]. destruct (Z.eqb_spec (len s) (len l)) as [E|E].
    - cbn [andb]. rewrite E, El in Es. by rewrite Es, Z.eqb_refl.
    - rewrite <- El, Z.shiftr_shiftr by lia. replace (m - len l + (len l - len s)) with (m - len s) by lia. by rewrite Es, Z.eqb_refl. }
  destruct (Z.leb_spec (len a) (len b)); apply Hsl; lia || done.
Qed.

Lemma scan_cons m x e es : 1 <= len e <= m -> scan m x (e :: es) = if matches m x e then Some e else scan m x es.
Proof. intros He. cbn [scan]. rewrite (proj2 (Z.eqb_neq _ 0)), (proj2 (Z.ltb_ge _ _)) by lia. done. Qed.

(** In a prefix-free table the scan finds the one entry that matches. *)
Lemma scan_unique m x e es :
  is_prefix_free es -> Forall (fun e => 1 <= len e <= m) es -> e ∈ es -> matches m x e -> scan m x es = Some e.
Proof.
  intros Hpf Hes Hin Hme. induction Hes as [|a es Ha Hes IH]; [by apply elem_of_nil in Hin|].
  rewrite scan_cons by done. cbn [is_prefix_free] in Hpf. apply andb_True in Hpf as [Hc Hpf].
  apply elem_of_cons in Hin as [->|Hin]; [by destruct (matches m x a)|]. specialize (IH Hpf Hin).
  destruct (matches m x a) eqn:Ea; [|done]. rewrite Forall_forall in Hes.
  pose proof (proj1 (forallb_forall _ _) (Is_true_true_1 _ Hc) e (proj1 (list_elem_of_In _ _) Hin)) as Hce.
  by rewrite (matches_compatible m x a e Ha (Hes e Hin)) in Hce by (done || by rewrite Ea).
Qed.

(** The number of values in [a, a + n) that satisfy [P]. *)
Definition countb (P : Z -> bool) (a n : Z) : Z := zlen (List.filter P (seqZ a n)).

Lemma countb_ext P Q a n : (forall x, a <= x < a + n -> P x = Q x) -> countb P a n = countb Q a n.
Proof.
  intros H. unfold countb. f_equal. apply filter_ext_in. intros x Hx. apply list_elem_of_In, elem_of_seqZ in Hx. apply H. lia.
Qed.

Lemma countb_false P a n : (forall x, a <= x < a + n -> P x = false) -> countb P a n = 0.
Proof. intros H. rewrite (countb_ext P (fun _ => false)) by done. unfold countb. by rewrite filter_false. Qed.

Lemma countb_true P a n : 0 <= n -> (forall x, a <= x < a + n -> P x = true) -> countb P a n = n.
Proof.
  intros Hn H. rewrite (countb_ext P (fun _ => true)) by done. unfold countb, zlen. rewrite filter_true, length_seqZ. lia.
Qed.

Lemma countb_app P a n k : 0 <= n -> 0 <= k -> countb P a (n + k) = countb P a n + countb P (a + n) k.
Proof. intros Hn Hk. unfold countb, zlen. rewrite seqZ_app, List.filter_app, length_app by done. lia. Qed.

Lemma countb_or P Q a n :
  (forall x, a <= x < a + n -> P x && Q x = false) -> countb (fun x => P x || Q x) a n = countb P a n + countb Q a n.
Proof.
  intros H. unfold countb, zlen. assert (Forall (fun x => P x && Q x = false) (seqZ a n)) as H'.
  { apply Forall_forall. intros x Hx. apply elem_of_seqZ in Hx. apply H. lia. }
  induction H' as [|x l Hx _ IH]; [done|]. cbn [List.filter]. destruct (P x), (Q x); cbn [orb andb length] in *; (done || lia).
Qed.

Lemma countb_le P a n : 0 <= n -> 0 <= countb P a n <= n.
Proof. intros Hn. unfold countb, zlen. pose proof (filter_length_le P (seqZ a n)) as H. rewrite length_seqZ in H. lia. Qed.

(** A full count leaves nothing out. *)
Lemma countb_full P a n x : countb P a n = n -> a <= x < a + n -> P x = true.
Proof.
  intros E Hx. destruct (P x) eqn:Ex; [done|]. exfalso. revert E.
  replace n with ((x - a) + (1 + (a + n - 1 - x))) at 1 by lia. rewrite !countb_app by lia.
  replace (a + (x - a)) with x by lia. rewrite (countb_false P x 1) by (intros y Hy; by replace y with x by lia).
  pose proof (countb_le P a (x - a) ltac:(lia)). pose proof (countb_le P (x + 1) (a + n - 1 - x) ltac:(lia)). lia.
Qed.

(** The words that start with a codeword make a block of [2 ^ (m - len)]. *)
Lemma countb_matches m e : fits e -> len e <= m -> countb (fun x => matches m x e) 0 (2 ^ m) = 2 ^ (m - len e).
Proof.
  intros [Hl Hc] Hm. unfold matches. set (k := m - len e). assert (0 < 2 ^ k) as Hk by (apply Z.pow_pos_nonneg; lia).
  assert (2 ^ m = 2 ^ k * 2 ^ len e) as Em by (rewrite <- Z.pow_add_r by lia; f_equal; lia).
  assert (0 <= code e * 2 ^ k /\ code e * 2 ^ k + 2 ^ k <= 2 ^ m) as [Hb Hb'] by nia.
  replace (2 ^ m) with (code e * 2 ^ k + (2 ^ k + (2 ^ m - 2 ^ k - code e * 2 ^ k))) by lia.
  assert (forall x, 0 <= x -> (Z.shiftr x k =? code e) = (Z.shiftl (code e) k <=? x) && (x <? Z.shiftl (code e) k + Z.shiftl 1 k)) as Hx
    by (intros x Hx; by rewrite block_spec by lia).
  rewrite Z.shiftl_mul_pow2, Z.shiftl_1_l in Hx by lia. rewrite !countb_app by lia.
  rewrite (countb_true _ (0 + code e * 2 ^ k)), !countb_false; [lia| | |lia|]; intros x Hr; rewrite Hx by lia.
  - apply andb_false_iff. right. apply Z.ltb_ge. lia.
  - apply andb_false_iff. left. apply Z.leb_gt. lia.
  - apply andb_true_iff. rewrite Z.leb_le, Z.ltb_lt. lia.
Qed.

(** What a table decodes, its first entry apart. *)
Definition hit (m : Z) (es : list entry) (x : Z) : bool := match scan m x es with Some _ => true | None => false end.

Lemma hit_cons m e es :
  is_prefix_free (e :: es) -> Forall (fun e => fits e /\ len e <= m) (e :: es) ->
  countb (hit m (e :: es)) 0 (2 ^ m) = 2 ^ (m - len e) + countb (hit m es) 0 (2 ^ m).
Proof.
  intros Hpf Hes. pose proof (Forall_inv Hes) as [He Hm].
  assert (forall a, a ∈ e :: es -> 1 <= len a <= m) as Hlen.
  { intros a Ha. rewrite Forall_forall in Hes. destruct (Hes a Ha) as [[H ?] ?]. lia. }
  rewrite <- (countb_matches m e He Hm), <- countb_or.
  - apply countb_ext. intros x Hx. unfold hit. rewrite scan_cons by (apply Hlen; left). by destruct (matches m x e).
  - intros x Hx. destruct (matches m x e) eqn:Ea; [|done]. cbn [andb]. unfold hit. destruct (scan m x es) as [b|] eqn:Eb; [|done]. exfalso.
    apply scan_in in Eb as (Hin & _ & _ & Eb). cbn [is_prefix_free] in Hpf. apply andb_True in Hpf as [Hc _].
    pose proof (proj1 (forallb_forall _ _) (Is_true_true_1 _ Hc) b (proj1 (list_elem_of_In _ _) Hin)) as Hcb.
    rewrite (matches_compatible m x e b) in Hcb; [done|apply Hlen; left|apply Hlen; by right|by rewrite Ea|].
    unfold matches. by rewrite Eb, Z.eqb_refl.
Qed.

(** The Kraft sum of a prefix-free table counts the words that start with one of
    its codewords. *)
Lemma kraft_counts m es :
  0 <= m <= 32 -> is_prefix_free es -> Forall (fun e => fits e /\ len e <= m) es ->
  kraft_numerator es m = countb (hit m es) 0 (2 ^ m).
Proof.
  intros Hm. assert (0 < 2 ^ m <= 2 ^ 32) as H32 by (split; [apply Z.pow_pos_nonneg; lia|apply Z.pow_le_mono_r; lia]).
  enough (forall acc, 0 <= acc -> acc + countb (hit m es) 0 (2 ^ m) <= 2 ^ 32 -> is_prefix_free es -> Forall (fun e => fits e /\ len e <= m) es ->
    fold_left (fun total e => if (len e =? 0) || (m <? len e) then total else sat_u 64 (total + Z.shiftl 1 (m - len e))) es acc
    = acc + countb (hit m es) 0 (2 ^ m)) as H.
  { intros Hpf Hes. pose proof (countb_le (hit m es) 0 (2 ^ m) ltac:(lia)). unfold kraft_numerator. rewrite (H 0); (done || lia). }
  induction es as [|e es IH]; intros acc Hacc Hb Hpf Hes; cbn [fold_left]; [rewrite countb_false by done; lia|].
  rewrite hit_cons in Hb |- * by done. apply Forall_cons in Hes as [[[Hl Hc] Hle] Hes].
  cbn [is_prefix_free] in Hpf. apply andb_True in Hpf as [_ Hpf].
  rewrite (proj2 (Z.eqb_neq _ 0)), (proj2 (Z.ltb_ge _ _)) by lia. cbn [orb]. rewrite Z.shiftl_1_l.
  pose proof (countb_le (hit m es) 0 (2 ^ m) ltac:(lia)). assert (0 < 2 ^ (m - len e)) by (apply Z.pow_pos_nonneg; lia).
  rewrite sat_u_id by lia. rewrite IH by (done || lia). lia.
Qed.

Lemma fits_table_ok es : Forall fits es -> table_ok es.
Proof.
  intros H. eapply Forall_impl; [exact H|]. intros e [Hl Hc]. split; [lia|]. split; [lia|].
  pose proof (Z.pow_le_mono_r 2 (len e) 32). lia.
Qed.

Section complete.
Context {R : Type} `{BitSource R} (f : Z -> bool) (limit : Z) (fl : bool).

(** The two checks are enough. For a prefix-free table of codewords that fit
    their lengths, the Kraft numerator at the longest length is the number of
    words some codeword starts, so it never exceeds [1 << max_len] and never
    saturates; and where it equals [1 << max_len] the table is complete: a decode
    at any position, of any bits, finds a symbol of the table. *)
Theorem kraft_complete es r p :
  is_prefix_free es -> Forall fits es -> src_at f limit r p fl -> 0 <= p -> p + 32 <= LIM ->
  let t := table_new es in
  kraft_numerator es (max_len t) = countb (hit (max_len t) es) 0 (2 ^ max_len t) /\
  kraft_numerator es (max_len t) <= 2 ^ max_len t /\
  (kraft_numerator es (max_len t) = 2 ^ max_len t ->
   exists e, e ∈ es /\ fst (decode t r) = Some (symbol e) /\ src_at f limit (snd (decode t r)) (p + len e) fl).
Proof.
  intros Hpf Hfit Hr Hp Hlim t. pose proof (fits_table_ok es Hfit) as Hok. destruct (table_new_len es Hok) as [Hm Hle]. fold t in Hm, Hle.
  assert (Forall (fun e => fits e /\ len e <= max_len t) es) as Hes by (apply Forall_and; done).
  rewrite (kraft_counts (max_len t) es Hm Hpf Hes). assert (0 < 2 ^ max_len t) by (apply Z.pow_pos_nonneg; lia).
  split; [done|]. split; [apply countb_le; lia|]. intros Hfull.
  pose proof (field_range f p (max_len t) ltac:(lia)) as Hf. pose proof (countb_full _ _ _ (field f p (max_len t)) Hfull ltac:(lia)) as Hhit.
  pose proof (decode_spec f limit fl es r p Hok Hr Hlim Hp) as Hd. fold t in Hd. unfold hit in Hhit.
  destruct (scan (max_len t) (field f p (max_len t)) es) as [e|] eqn:Es; [|done].
  exists e. split; [by apply scan_in in Es as [? _]|]. exact Hd.
Qed.

(** A sequence of decodes. *)
Fixpoint decode_n (t : vlc_table) (n : nat) (r : R) : list (option Z) * R :=
  match n with
  | O => ([], r)
  | S n => let '(s, r) := decode t r in let '(l, r) := decode_n t n r in (s :: l, r)
  end.

Definition codeword (e : entry) : list bool := bits_of (Z.to_nat (len e)) (code e).

(** Codewords written one after the other decode to their symbols. In a
    prefix-free table whose codewords fit their lengths, where the bits spell the
    codewords of any sequence of its entries, that many decodes return their
    symbols and leave the reader behind the last codeword. *)
Theorem codewords_decode es ws r p :
  is_prefix_free es -> Forall fits es -> Forall (fun e => e ∈ es) ws ->
  spells f p (concat (map codeword ws)) -> src_at f limit r p fl -> 0 <= p -> p + 32 * (zlen ws + 1) <= LIM ->
  let res := decode_n (table_new es) (length ws) r in
  fst res = map (fun e => Some (symbol e)) ws /\
  src_at f limit (snd res) (p + fold_right (fun e n => len e + n) 0 ws) fl.
Proof.
  intros Hpf Hfit. pose proof (fits_table_ok es Hfit) as Hok. destruct (table_new_len es Hok) as [Hm Hle].
  assert (forall a, a ∈ es -> fits a /\ len a <= max_len (table_new es)) as Hall.
  { rewrite Forall_forall in Hfit, Hle. intros a Ha. split; auto. }
  revert r p. induction ws as [|e ws IH]; intros r p Hws Hsp Hr Hp Hlim; cbv zeta.
  { cbn. split; [done|]. by rewrite Z.add_0_r. }
  apply Forall_cons in Hws as [He Hws]. cbn [map concat] in Hsp. apply spells_app in Hsp as [Hse Hsp].
  destruct (Hall e He) as [[Hl Hc] Hlm]. unfold codeword in Hse, Hsp at 1. rewrite length_bits_of, Z2Nat.id in Hsp by lia.
  rewrite zlen_cons in Hlim. pose proof (zlen_nonneg ws).
  pose proof (decode_spec f limit fl es r p Hok Hr ltac:(lia) Hp) as Hd. set (m := max_len (table_new es)) in *.
  assert (scan m (field f p m) es = Some e) as Es.
  { apply scan_unique; [done| |done|].
    - apply Forall_forall. intros a Ha. destruct (Hall a Ha) as [[? _] ?]. lia.
    - unfold matches. apply spells_bits_of in Hse. rewrite Z2Nat.id, Z.mod_small in Hse by lia.
      replace m with (len e + (m - len e)) at 1 by lia. rewrite field_app, Z.shiftr_div_pow2 by lia.
      pose proof (field_range f (p + len e) (m - len e) ltac:(lia)). assert (0 < 2 ^ (m - len e)) by (apply Z.pow_pos_nonneg; lia).
      rewrite Z.div_add_l, Z.div_small by lia. rewrite Z.add_0_r. unfold field. by rewrite Hse, Z.eqb_refl. }
  rewrite Es in Hd. cbn [decoded] in Hd. destruct Hd as [Hd Hr']. cbn [length decode_n].
  destruct (decode (table_new es) r) as [s r1] eqn:Ed. cbn [fst snd] in Hd, Hr'.
  specialize (IH r1 (p + len e) Hws Hsp Hr' ltac:(lia) ltac:(lia)). destruct (decode_n (table_new es) (length ws) r1) as [l r2].
  cbn [fst snd map fold_right] in *. destruct IH as [-> IH]. subst s. split; [done|]. by rewrite Z.add_assoc.
Qed.

End complete.

(** ** At a concrete table *)

#[local] Existing Instance BitReader.reader_source.

(** The codewords 0, 10 and 11. *)
Definition toy : list entry := [Entry 0 1 0; Entry 2 2 1; Entry 3 2 2].

Lemma toy_ok : table_ok toy /\ Forall fits toy /\ is_prefix_free toy.
Proof. split; [|split; [|done]]; repeat constructor; cbn; lia. Qed.

(** A width of zero and a 32-bit codeword: the prefix is shifted by 32, which
    leaves the codeword where it was (and panics in a debug build), so the only
    slot stays empty and the lookup misses what the scan decodes. *)
Lemma zero_width_misses :
  let t := table_new [Entry 1 32 7] in let r := BitReader.new [0; 0; 0; 1; 0] in
  fst (decode t r) = Some 7 /\
  match build_lookup t 0 with Some l => slots l = [(0, 0)] /\ fst (lookup_decode l r) = None | None => False end.
Proof. by vm_compute. Qed.


Lemma kraft_complete_witness :
  kraft_numerator toy 2 = 4 /\ exists e, e ∈ toy /\ fst (decode (table_new toy) (BitReader.new [176])) = Some (symbol e).
Proof.
  assert (Hb : buffer [176]) by (by apply buffer_check).
  split; [by vm_compute|].
  destruct (kraft_complete (bit_at [176]) 8 false toy (BitReader.new [176]) 0 (proj2 (proj2 toy_ok)) (proj1 (proj2 toy_ok))
    ltac:(by apply (BitReader.new_source [176])) ltac:(lia) ltac:(by vm_compute)) as (_ & _ & Hc).
  destruct (Hc ltac:(by vm_compute)) as (e & Hin & He & _). exists e. split; [exact Hin|exact He].
Defined.

Lemma codewords_decode_witness :
  fst (decode_n (table_new toy) 3 (BitReader.new [176])) = [Some 1; Some 2; Some 0].
Proof.
  assert (Hb : buffer [176]) by (by apply buffer_check).
  refine (proj1 (codewords_decode (bit_at [176]) 8 false toy [Entry 2 2 1; Entry 3 2 2; Entry 0 1 0] (BitReader.new [176]) 0
    (proj2 (proj2 toy_ok)) (proj1 (proj2 toy_ok)) _ _ ltac:(by apply (BitReader.new_source [176])) ltac:(lia) ltac:(by vm_compute))).
  - apply Forall_forall. intros e He. set_solver.
  - intros i b Hi. destruct i as [|[|[|[|[|i]]]]]; cbn in Hi; try done; injection Hi as <-; by vm_compute.
Defined.
