(* ===== verification/OneShot.v ===== *)
(** * OneShot: codecs that turn one input into one output

    Most wrappers of [src/crates/codec] have the same shape: a [Machine] with no
    capabilities, a [send] that accepts, does its work on the input and queues
    the one result, and [receive] and [flush] that are the machine's. What such
    a wrapper owes the protocol is proved here once, for any work that does not
    itself raise the protocol's own errors. *)

From Stdlib Require Import ZArith Lia.
From stdpp Require Import prelude strings.
From S2P Require Import Prelude Error CodecCore.

(** The protocol's own errors, which a component's work must not raise. *)
Definition protocol_error (e : error) : bool :=
  match e with OutputPending | NeedMoreInput => true | _ => false end.

(** The machine of a one-shot codec: no capabilities, room for one output, and
    [finish] called as soon as the end of input is accepted. *)
Definition one_shot {O : Type} (m : machine O) : Prop :=
  (1 <= capacity m)%nat /\ mcaps m = 0 /\ (mstage m = Feeding \/ source_done m = true).

(** [send] with an input whose work gives [x]. *)
Definition send_work {O : Type} (x : result error O) (m : machine O) : result error unit * machine O :=
  match accept false m with
  | (Err e, m) => (Err e, m)
  | (Ok Drain, m) => (Ok tt, finish m)
  | (Ok Input, m) => match x with Err e => (Err e, m) | Ok o => (Ok tt, emit o m) end
  end.

(** [send(None)]. *)
Definition send_end {O : Type} (m : machine O) : result error unit * machine O :=
  match accept true m with
  | (Err e, m) => (Err e, m)
  | (Ok Drain, m) => (Ok tt, finish m)
  | (Ok Input, m) => (Ok tt, m)
  end.

Section laws.
Context {O : Type}.
Implicit Types m : machine O.

Lemma one_shot_new : one_shot (machine_new (O := O) 0).
Proof. unfold one_shot. cbn. split_and!; auto. Qed.

Lemma receive_law m : one_shot m -> exists res m', machine_receive m = (res, m') /\ one_shot m' /\ mcaps m' = mcaps m /\
  queue m' = tail (queue m) /\
  match queue m with
  | x :: _ => res = Ok x /\ mstage m' = mstage m
  | [] =>
    if accepts_input (mstage m) then res = Err NeedMoreInput /\ mstage m' = Feeding
    else res = Err Eof /\ mstage m' = Drained
  end.
Proof.
  intros (Hc & Hm & Hs). unfold machine_receive, one_shot. destruct (queue m) as [|x q] eqn:Eq.
  - destruct (mstage m) eqn:Es; cbn [accepts_input].
    + do 2 eexists. split; [done|]. rewrite Eq, Es. split_and!; auto.
    + destruct Hs as [?|Hs]; [done|]. rewrite Hs. do 2 eexists. split; [done|]. cbn. rewrite ?Eq. split_and!; auto.
    + destruct Hs as [?|Hs]; [done|]. do 2 eexists. split; [done|]. rewrite Eq, Es. split_and!; auto.
  - do 2 eexists. split; [done|]. cbn. split_and!; auto.
Qed.

Lemma send_law m x : one_shot m -> (forall e, x = Err e -> protocol_error e = false) ->
  exists res m', send_work x m = (res, m') /\ one_shot m' /\ mcaps m' = mcaps m /\ mstage m' = mstage m /\
  if accepts_input (mstage m) then
    match res with
    | Err OutputPending => queue m <> [] /\ queue m' = queue m
    | Err NeedMoreInput => False
    | _ => exists outs, queue m' = queue m ++ outs /\ (length outs <= 1)%nat
    end
  else res = Err Eof /\ queue m' = queue m.
Proof.
  intros (Hc & Hm & Hs) Hx. unfold send_work, accept, one_shot. destruct (mstage m) eqn:Es; cbn [accepts_input].
  2, 3: do 2 eexists; split; [done|]; rewrite Es; split_and!; auto.
  destruct (Nat.leb_spec (capacity m) (length (queue m))) as [Hl|Hl].
  - do 2 eexists. split; [done|]. rewrite Es. split_and!; auto. intros E. rewrite E in Hl. cbn in Hl. lia.
  - destruct x as [o|e].
    + do 2 eexists. split; [done|]. cbn. split_and!; auto. by exists [o].
    + specialize (Hx e eq_refl). do 2 eexists. split; [done|]. cbn.
      split_and!; auto. destruct e; try done; exists []; rewrite app_nil_r; (split; [done|cbn; lia]).
Qed.

Lemma end_law m : one_shot m -> exists res m', send_end m = (res, m') /\ one_shot m' /\ mcaps m' = mcaps m /\ queue m' = queue m /\
  if accepts_input (mstage m) then res = Ok tt /\ mstage m' = Draining else res = Err Eof /\ mstage m' = mstage m.
Proof.
  intros (Hc & Hm & Hs). unfold send_end, accept, one_shot. destruct (mstage m) eqn:Es; cbn [accepts_input].
  2, 3: do 2 eexists; split; [done|]; rewrite Es; split_and!; auto.
  do 2 eexists. split; [done|]. cbn. split_and!; auto.
Qed.

Lemma flush_law m : one_shot m -> one_shot (machine_flush m) /\ mcaps (machine_flush m) = mcaps m /\
  mstage (machine_flush m) = Feeding /\ queue (machine_flush m) = [].
Proof. intros (Hc & Hm & Hs). unfold one_shot. cbn. split_and!; auto. Qed.

(** One input through an idle machine: the result of the work comes straight
    back. *)
Definition idle m : Prop := one_shot m /\ mstage m = Feeding /\ queue m = [].

Lemma through_idle m o : idle m -> exists m1 m2, send_work (Ok o) m = (Ok tt, m1) /\ machine_receive m1 = (Ok o, m2) /\ idle m2.
Proof.
  intros ((Hc & Hm & Hs) & Es & Eq). unfold send_work, accept. rewrite Es, Eq. destruct (Nat.leb_spec (capacity m) (length (@nil O))) as [Hl|Hl]; [cbn in Hl; lia|].
  do 2 eexists. split; [done|]. unfold emit, machine_receive. cbn [queue]. split; [done|]. unfold idle, one_shot. cbn. split_and!; auto.
Qed.

End laws.

(** ** Every one-shot codec is lawful *)

Section lawful.
Context {T I O : Type} `{SendReceive T I O} (mach : T -> machine O) (put : machine O -> T -> T) (work : T -> I -> result error O).
Context (mach_put : forall m t, mach (put m t) = m)
        (caps_mach : forall t, sr_caps t = mcaps (mach t))
        (send_is : forall t i, sr_send (Some i) t = let '(x, m) := send_work (work t i) (mach t) in (x, put m t))
        (end_is : forall t, sr_send None t = let '(x, m) := send_end (mach t) in (x, put m t))
        (receive_is : forall t, sr_receive t = let '(x, m) := machine_receive (mach t) in (x, put m t))
        (flush_is : forall t, sr_flush t = put (machine_flush (mach t)) t)
        (work_fails : forall t i e, work t i = Err e -> protocol_error e = false).

#[refine] Definition one_shot_lawful : Lawful T I O := {|
  valid t := one_shot (mach t);
  stage_of t := mstage (mach t);
  queued t := queue (mach t);
  owed t := 0%nat;
  fresh t := True;
|}.
Proof.
  - intros t Ht. destruct (receive_law _ Ht) as (res & m' & E & H1 & H2 & H3 & H4). exists (put m' t). rewrite receive_is, !caps_mach, E, mach_put.
    split_and!; auto. destruct (queue (mach t)); [destruct (accepts_input _)|]; by destruct H4 as [-> ?].
  - intros t i Ht. destruct (send_law _ _ Ht (work_fails t i)) as (res & m' & E & H1 & H2 & H3 & H4).
    exists res, (put m' t). rewrite send_is, !caps_mach, E, mach_put. split_and!; auto.
    destruct (accepts_input _); [|naive_solver]. destruct res as [|[]]; naive_solver lia.
  - intros t Ht. destruct (end_law _ Ht) as (res & m' & E & H1 & H2 & H3 & H4). exists res, (put m' t). rewrite end_is, !caps_mach, E, mach_put.
    split_and!; auto. destruct (accepts_input _); [|naive_solver]. destruct H4 as [-> ?]. split_and!; auto.
    exists []. rewrite app_nil_r. split_and!; auto.
  - intros t Ht. destruct (flush_law _ Ht) as (? & ? & ? & ?). rewrite flush_is, !caps_mach, mach_put. split_and!; auto.
Defined.

End lawful.
