(* ===== verification/PixFmt.v ===== *)
(** * PixFmt: pixel formats and the geometry of their planes

    [src/crates/model/vaco-pixfmt/src]: the table of formats ([table.rs]) and the
    questions every frame allocation asks of it ([lib.rs]). The tables are the
    source's, entry by entry; the theorems about them are checked over every
    entry by evaluation and lifted to all dimensions by arithmetic. *)

From Stdlib Require Import ZArith Lia OrdersEx.
From stdpp Require Import prelude strings pretty.
From S2P Require Import Prelude Bits Error.

#[local] Open Scope Z_scope.

(** ** Descriptors *)

Definition BIG_ENDIAN : Z := Z.shiftl 1 0.
Definition PALETTE : Z := Z.shiftl 1 1.
Definition BITSTREAM : Z := Z.shiftl 1 2.
Definition HW_ACCEL : Z := Z.shiftl 1 3.
Definition PLANAR : Z := Z.shiftl 1 4.
Definition RGB : Z := Z.shiftl 1 5.
Definition ALPHA : Z := Z.shiftl 1 6.
Definition BAYER : Z := Z.shiftl 1 7.
Definition FLOAT : Z := Z.shiftl 1 8.
Definition XYZ : Z := Z.shiftl 1 9.

Record component : Type := Component { plane : Z; step : Z; offset : Z; shift : Z; depth : Z }.

Record descriptor : Type := Descriptor {
  name : string;
  components : list component;
  planes : Z;
  log2_chroma_w : Z;
  log2_chroma_h : Z;
  bits_per_pixel : Z;
  flags : Z;
}.

#[export] Instance component_eq_dec : EqDecision component.
Proof. solve_decision. Defined.

(** ** The tables *)

Inductive pix_fmt : Type :=
  | Yuv410p | Yuv411p | Yuv420p | Yuv422p | Yuv440p | Yuv444p | Yuvj411p | Yuvj420p | Yuvj422p | Yuvj440p
  | Yuvj444p | Yuva420p | Yuva422p | Yuva444p | Yuv420p9le | Yuv420p9be | Yuv420p10le | Yuv420p10be | Yuv420p12le
  | Yuv420p12be | Yuv420p14le | Yuv420p14be | Yuv420p16le | Yuv420p16be | Yuv422p9le | Yuv422p9be | Yuv422p10le
  | Yuv422p10be | Yuv422p12le | Yuv422p12be | Yuv422p14le | Yuv422p14be | Yuv422p16le | Yuv422p16be | Yuv444p9le
  | Yuv444p9be | Yuv444p10le | Yuv444p10be | Yuv444p12le | Yuv444p12be | Yuv444p14le | Yuv444p14be | Yuv444p16le
  | Yuv444p16be | Yuv440p10le | Yuv440p10be | Yuv440p12le | Yuv440p12be | Yuv444p10msble | Yuv444p10msbbe
  | Yuv444p12msble | Yuv444p12msbbe | Yuva420p9le | Yuva420p9be | Yuva420p10le | Yuva420p10be | Yuva420p16le
  | Yuva420p16be | Yuva422p9le | Yuva422p9be | Yuva422p10le | Yuva422p10be | Yuva422p12le | Yuva422p12be
  | Yuva422p16le | Yuva422p16be | Yuva444p9le | Yuva444p9be | Yuva444p10le | Yuva444p10be | Yuva444p12le
  | Yuva444p12be | Yuva444p16le | Yuva444p16be | Gbrp | Gbrap | Gbrp9le | Gbrp9be | Gbrp10le | Gbrp10be | Gbrp12le
  | Gbrp12be | Gbrp14le | Gbrp14be | Gbrp16le | Gbrp16be | Gbrp10msble | Gbrp10msbbe | Gbrp12msble | Gbrp12msbbe
  | Gbrap10le | Gbrap10be | Gbrap12le | Gbrap12be | Gbrap14le | Gbrap14be | Gbrap16le | Gbrap16be | Gbrap32le
  | Gbrap32be | Gbrpf16le | Gbrpf16be | Gbrapf16le | Gbrapf16be | Gbrpf32le | Gbrpf32be | Gbrapf32le | Gbrapf32be
  | Nv12 | Nv21 | Nv16 | Nv24 | Nv42 | P010le | P010be | P012le | P012be | P016le | P016be | P210le | P210be
  | P212le | P212be | P216le | P216be | P410le | P410be | P412le | P412be | P416le | P416be | Nv20le | Nv20be
  | Gray8 | Ya8 | Gray9le | Gray9be | Gray10le | Gray10be | Gray12le | Gray12be | Gray14le | Gray14be | Gray16le
  | Gray16be | Gray32le | Gray32be | Ya16le | Ya16be | Grayf16le | Grayf16be | Yaf16le | Yaf16be | Grayf32le
  | Grayf32be | Yaf32le | Yaf32be | Rgb24 | Bgr24 | Argb | Rgba | Abgr | Bgra | X0rgb | Rgb0 | X0bgr | Bgr0 | Rgb8
  | Bgr8 | Rgb4Byte | Bgr4Byte | Rgb4 | Bgr4 | Rgb444le | Rgb444be | Rgb555le | Rgb555be | Rgb565le | Rgb565be
  | Bgr444le | Bgr444be | Bgr555le | Bgr555be | Bgr565le | Bgr565be | X2rgb10le | X2rgb10be | X2bgr10le | X2bgr10be
  | Rgb48le | Rgb48be | Bgr48le | Bgr48be | Rgba64le | Rgba64be | Bgra64le | Bgra64be | Rgb96le | Rgb96be
  | Rgba128le | Rgba128be | Rgbf16le | Rgbf16be | Rgbaf16le | Rgbaf16be | Rgbf32le | Rgbf32be | Rgbaf32le
  | Rgbaf32be | Xyz12le | Xyz12be | Ayuv | Uyva | Vuya | Vuyx | Vyu444 | Ayuv64le | Ayuv64be | Xv30le | Xv30be
  | Xv36le | Xv36be | Xv48le | Xv48be | V30xle | V30xbe | BayerBggr8 | BayerRggb8 | BayerGbrg8 | BayerGrbg8
  | BayerBggr16le | BayerBggr16be | BayerRggb16le | BayerRggb16be | BayerGbrg16le | BayerGbrg16be | BayerGrbg16le
  | BayerGrbg16be | Yuyv422 | Uyvy422 | Yvyu422 | Uyyvyy411 | Y210le | Y210be | Y212le | Y212be | Y216le | Y216be
  | MonoWhite | MonoBlack | Pal8 | Vaapi | Dxva2Vld | D3d11vaVld | D3d11 | D3d12 | Vdpau | VideotoolboxVld | Cuda
  | Qsv | Mmal | Mediacodec | Opencl | DrmPrime | Vulkan | Amf | Ohcodec.

(** [self as usize]. *)
Definition discriminant (f : pix_fmt) : nat :=
  match f with
  | Yuv410p => 0 | Yuv411p => 1 | Yuv420p => 2 | Yuv422p => 3 | Yuv440p => 4 | Yuv444p => 5 | Yuvj411p => 6
  | Yuvj420p => 7 | Yuvj422p => 8 | Yuvj440p => 9 | Yuvj444p => 10 | Yuva420p => 11 | Yuva422p => 12
  | Yuva444p => 13 | Yuv420p9le => 14 | Yuv420p9be => 15 | Yuv420p10le => 16 | Yuv420p10be => 17
  | Yuv420p12le => 18 | Yuv420p12be => 19 | Yuv420p14le => 20 | Yuv420p14be => 21 | Yuv420p16le => 22
  | Yuv420p16be => 23 | Yuv422p9le => 24 | Yuv422p9be => 25 | Yuv422p10le => 26 | Yuv422p10be => 27
  | Yuv422p12le => 28 | Yuv422p12be => 29 | Yuv422p14le => 30 | Yuv422p14be => 31 | Yuv422p16le => 32
  | Yuv422p16be => 33 | Yuv444p9le => 34 | Yuv444p9be => 35 | Yuv444p10le => 36 | Yuv444p10be => 37
  | Yuv444p12le => 38 | Yuv444p12be => 39 | Yuv444p14le => 40 | Yuv444p14be => 41 | Yuv444p16le => 42
  | Yuv444p16be => 43 | Yuv440p10le => 44 | Yuv440p10be => 45 | Yuv440p12le => 46 | Yuv440p12be => 47
  | Yuv444p10msble => 48 | Yuv444p10msbbe => 49 | Yuv444p12msble => 50 | Yuv444p12msbbe => 51 | Yuva420p9le => 52
  | Yuva420p9be => 53 | Yuva420p10le => 54 | Yuva420p10be => 55 | Yuva420p16le => 56 | Yuva420p16be => 57
  | Yuva422p9le => 58 | Yuva422p9be => 59 | Yuva422p10le => 60 | Yuva422p10be => 61 | Yuva422p12le => 62
  | Yuva422p12be => 63 | Yuva422p16le => 64 | Yuva422p16be => 65 | Yuva444p9le => 66 | Yuva444p9be => 67
  | Yuva444p10le => 68 | Yuva444p10be => 69 | Yuva444p12le => 70 | Yuva444p12be => 71 | Yuva444p16le => 72
  | Yuva444p16be => 73 | Gbrp => 74 | Gbrap => 75 | Gbrp9le => 76 | Gbrp9be => 77 | Gbrp10le => 78 | Gbrp10be => 79
  | Gbrp12le => 80 | Gbrp12be => 81 | Gbrp14le => 82 | Gbrp14be => 83 | Gbrp16le => 84 | Gbrp16be => 85
  | Gbrp10msble => 86 | Gbrp10msbbe => 87 | Gbrp12msble => 88 | Gbrp12msbbe => 89 | Gbrap10le => 90
  | Gbrap10be => 91 | Gbrap12le => 92 | Gbrap12be => 93 | Gbrap14le => 94 | Gbrap14be => 95 | Gbrap16le => 96
  | Gbrap16be => 97 | Gbrap32le => 98 | Gbrap32be => 99 | Gbrpf16le => 100 | Gbrpf16be => 101 | Gbrapf16le => 102
  | Gbrapf16be => 103 | Gbrpf32le => 104 | Gbrpf32be => 105 | Gbrapf32le => 106 | Gbrapf32be => 107 | Nv12 => 108
  | Nv21 => 109 | Nv16 => 110 | Nv24 => 111 | Nv42 => 112 | P010le => 113 | P010be => 114 | P012le => 115
  | P012be => 116 | P016le => 117 | P016be => 118 | P210le => 119 | P210be => 120 | P212le => 121 | P212be => 122
  | P216le => 123 | P216be => 124 | P410le => 125 | P410be => 126 | P412le => 127 | P412be => 128 | P416le => 129
  | P416be => 130 | Nv20le => 131 | Nv20be => 132 | Gray8 => 133 | Ya8 => 134 | Gray9le => 135 | Gray9be => 136
  | Gray10le => 137 | Gray10be => 138 | Gray12le => 139 | Gray12be => 140 | Gray14le => 141 | Gray14be => 142
  | Gray16le => 143 | Gray16be => 144 | Gray32le => 145 | Gray32be => 146 | Ya16le => 147 | Ya16be => 148
  | Grayf16le => 149 | Grayf16be => 150 | Yaf16le => 151 | Yaf16be => 152 | Grayf32le => 153 | Grayf32be => 154
  | Yaf32le => 155 | Yaf32be => 156 | Rgb24 => 157 | Bgr24 => 158 | Argb => 159 | Rgba => 160 | Abgr => 161
  | Bgra => 162 | X0rgb => 163 | Rgb0 => 164 | X0bgr => 165 | Bgr0 => 166 | Rgb8 => 167 | Bgr8 => 168
  | Rgb4Byte => 169 | Bgr4Byte => 170 | Rgb4 => 171 | Bgr4 => 172 | Rgb444le => 173 | Rgb444be => 174
  | Rgb555le => 175 | Rgb555be => 176 | Rgb565le => 177 | Rgb565be => 178 | Bgr444le => 179 | Bgr444be => 180
  | Bgr555le => 181 | Bgr555be => 182 | Bgr565le => 183 | Bgr565be => 184 | X2rgb10le => 185 | X2rgb10be => 186
  | X2bgr10le => 187 | X2bgr10be => 188 | Rgb48le => 189 | Rgb48be => 190 | Bgr48le => 191 | Bgr48be => 192
  | Rgba64le => 193 | Rgba64be => 194 | Bgra64le => 195 | Bgra64be => 196 | Rgb96le => 197 | Rgb96be => 198
  | Rgba128le => 199 | Rgba128be => 200 | Rgbf16le => 201 | Rgbf16be => 202 | Rgbaf16le => 203 | Rgbaf16be => 204
  | Rgbf32le => 205 | Rgbf32be => 206 | Rgbaf32le => 207 | Rgbaf32be => 208 | Xyz12le => 209 | Xyz12be => 210
  | Ayuv => 211 | Uyva => 212 | Vuya => 213 | Vuyx => 214 | Vyu444 => 215 | Ayuv64le => 216 | Ayuv64be => 217
  | Xv30le => 218 | Xv30be => 219 | Xv36le => 220 | Xv36be => 221 | Xv48le => 222 | Xv48be => 223 | V30xle => 224
  | V30xbe => 225 | BayerBggr8 => 226 | BayerRggb8 => 227 | BayerGbrg8 => 228 | BayerGrbg8 => 229
  | BayerBggr16le => 230 | BayerBggr16be => 231 | BayerRggb16le => 232 | BayerRggb16be => 233
  | BayerGbrg16le => 234 | BayerGbrg16be => 235 | BayerGrbg16le => 236 | BayerGrbg16be => 237 | Yuyv422 => 238
  | Uyvy422 => 239 | Yvyu422 => 240 | Uyyvyy411 => 241 | Y210le => 242 | Y210be => 243 | Y212le => 244
  | Y212be => 245 | Y216le => 246 | Y216be => 247 | MonoWhite => 248 | MonoBlack => 249 | Pal8 => 250
  | Vaapi => 251 | Dxva2Vld => 252 | D3d11vaVld => 253 | D3d11 => 254 | D3d12 => 255 | Vdpau => 256
  | VideotoolboxVld => 257 | Cuda => 258 | Qsv => 259 | Mmal => 260 | Mediacodec => 261 | Opencl => 262
  | DrmPrime => 263 | Vulkan => 264 | Amf => 265 | Ohcodec => 266
  end.

Definition ALL : list pix_fmt := [
  Yuv410p; Yuv411p; Yuv420p; Yuv422p; Yuv440p; Yuv444p; Yuvj411p; Yuvj420p; Yuvj422p; Yuvj440p; Yuvj444p; Yuva420p;
  Yuva422p; Yuva444p; Yuv420p9le; Yuv420p9be; Yuv420p10le; Yuv420p10be; Yuv420p12le; Yuv420p12be; Yuv420p14le;
  Yuv420p14be; Yuv420p16le; Yuv420p16be; Yuv422p9le; Yuv422p9be; Yuv422p10le; Yuv422p10be; Yuv422p12le;
  Yuv422p12be; Yuv422p14le; Yuv422p14be; Yuv422p16le; Yuv422p16be; Yuv444p9le; Yuv444p9be; Yuv444p10le;
  Yuv444p10be; Yuv444p12le; Yuv444p12be; Yuv444p14le; Yuv444p14be; Yuv444p16le; Yuv444p16be; Yuv440p10le;
  Yuv440p10be; Yuv440p12le; Yuv440p12be; Yuv444p10msble; Yuv444p10msbbe; Yuv444p12msble; Yuv444p12msbbe;
  Yuva420p9le; Yuva420p9be; Yuva420p10le; Yuva420p10be; Yuva420p16le; Yuva420p16be; Yuva422p9le; Yuva422p9be;
  Yuva422p10le; Yuva422p10be; Yuva422p12le; Yuva422p12be; Yuva422p16le; Yuva422p16be; Yuva444p9le; Yuva444p9be;
  Yuva444p10le; Yuva444p10be; Yuva444p12le; Yuva444p12be; Yuva444p16le; Yuva444p16be; Gbrp; Gbrap; Gbrp9le;
  Gbrp9be; Gbrp10le; Gbrp10be; Gbrp12le; Gbrp12be; Gbrp14le; Gbrp14be; Gbrp16le; Gbrp16be; Gbrp10msble;
  Gbrp10msbbe; Gbrp12msble; Gbrp12msbbe; Gbrap10le; Gbrap10be; Gbrap12le; Gbrap12be; Gbrap14le; Gbrap14be;
  Gbrap16le; Gbrap16be; Gbrap32le; Gbrap32be; Gbrpf16le; Gbrpf16be; Gbrapf16le; Gbrapf16be; Gbrpf32le; Gbrpf32be;
  Gbrapf32le; Gbrapf32be; Nv12; Nv21; Nv16; Nv24; Nv42; P010le; P010be; P012le; P012be; P016le; P016be; P210le;
  P210be; P212le; P212be; P216le; P216be; P410le; P410be; P412le; P412be; P416le; P416be; Nv20le; Nv20be; Gray8;
  Ya8; Gray9le; Gray9be; Gray10le; Gray10be; Gray12le; Gray12be; Gray14le; Gray14be; Gray16le; Gray16be; Gray32le;
  Gray32be; Ya16le; Ya16be; Grayf16le; Grayf16be; Yaf16le; Yaf16be; Grayf32le; Grayf32be; Yaf32le; Yaf32be; Rgb24;
  Bgr24; Argb; Rgba; Abgr; Bgra; X0rgb; Rgb0; X0bgr; Bgr0; Rgb8; Bgr8; Rgb4Byte; Bgr4Byte; Rgb4; Bgr4; Rgb444le;
  Rgb444be; Rgb555le; Rgb555be; Rgb565le; Rgb565be; Bgr444le; Bgr444be; Bgr555le; Bgr555be; Bgr565le; Bgr565be;
  X2rgb10le; X2rgb10be; X2bgr10le; X2bgr10be; Rgb48le; Rgb48be; Bgr48le; Bgr48be; Rgba64le; Rgba64be; Bgra64le;
  Bgra64be; Rgb96le; Rgb96be; Rgba128le; Rgba128be; Rgbf16le; Rgbf16be; Rgbaf16le; Rgbaf16be; Rgbf32le; Rgbf32be;
  Rgbaf32le; Rgbaf32be; Xyz12le; Xyz12be; Ayuv; Uyva; Vuya; Vuyx; Vyu444; Ayuv64le; Ayuv64be; Xv30le; Xv30be;
  Xv36le; Xv36be; Xv48le; Xv48be; V30xle; V30xbe; BayerBggr8; BayerRggb8; BayerGbrg8; BayerGrbg8; BayerBggr16le;
  BayerBggr16be; BayerRggb16le; BayerRggb16be; BayerGbrg16le; BayerGbrg16be; BayerGrbg16le; BayerGrbg16be; Yuyv422;
  Uyvy422; Yvyu422; Uyyvyy411; Y210le; Y210be; Y212le; Y212be; Y216le; Y216be; MonoWhite; MonoBlack; Pal8; Vaapi;
  Dxva2Vld; D3d11vaVld; D3d11; D3d12; Vdpau; VideotoolboxVld; Cuda; Qsv; Mmal; Mediacodec; Opencl; DrmPrime;
  Vulkan; Amf; Ohcodec].

#[export] Instance pix_fmt_eq_dec : EqDecision pix_fmt.
Proof.
  intros f g. destruct (decide (discriminant f = discriminant g)) as [E|E].
  - left. assert (forall f, ALL !! discriminant f = Some f) as H by (intros []; reflexivity). apply (inj Some). by rewrite <- !H, E.
  - right. by intros ->.
Defined.

Definition DESCRIPTORS : list descriptor := [
  Descriptor "yuv410p" [Component 0 1 0 0 8; Component 1 1 0 0 8; Component 2 1 0 0 8] 3 2 2 9 PLANAR;
  Descriptor "yuv411p" [Component 0 1 0 0 8; Component 1 1 0 0 8; Component 2 1 0 0 8] 3 2 0 12 PLANAR;
  Descriptor "yuv420p" [Component 0 1 0 0 8; Component 1 1 0 0 8; Component 2 1 0 0 8] 3 1 1 12 PLANAR;
  Descriptor "yuv422p" [Component 0 1 0 0 8; Component 1 1 0 0 8; Component 2 1 0 0 8] 3 1 0 16 PLANAR;
  Descriptor "yuv440p" [Component 0 1 0 0 8; Component 1 1 0 0 8; Component 2 1 0 0 8] 3 0 1 16 PLANAR;
  Descriptor "yuv444p" [Component 0 1 0 0 8; Component 1 1 0 0 8; Component 2 1 0 0 8] 3 0 0 24 PLANAR;
  Descriptor "yuvj411p" [Component 0 1 0 0 8; Component 1 1 0 0 8; Component 2 1 0 0 8] 3 2 0 12 PLANAR;
  Descriptor "yuvj420p" [Component 0 1 0 0 8; Component 1 1 0 0 8; Component 2 1 0 0 8] 3 1 1 12 PLANAR;
  Descriptor "yuvj422p" [Component 0 1 0 0 8; Component 1 1 0 0 8; Component 2 1 0 0 8] 3 1 0 16 PLANAR;
  Descriptor "yuvj440p" [Component 0 1 0 0 8; Component 1 1 0 0 8; Component 2 1 0 0 8] 3 0 1 16 PLANAR;
  Descriptor "yuvj444p" [Component 0 1 0 0 8; Component 1 1 0 0 8; Component 2 1 0 0 8] 3 0 0 24 PLANAR;
  Descriptor "yuva420p" [Component 0 1 0 0 8; Component 1 1 0 0 8; Component 2 1 0 0 8; Component 3 1 0 0 8] 4 1 1 20 (Z.lor PLANAR ALPHA);
  Descriptor "yuva422p" [Component 0 1 0 0 8; Component 1 1 0 0 8; Component 2 1 0 0 8; Component 3 1 0 0 8] 4 1 0 24 (Z.lor PLANAR ALPHA);
  Descriptor "yuva444p" [Component 0 1 0 0 8; Component 1 1 0 0 8; Component 2 1 0 0 8; Component 3 1 0 0 8] 4 0 0 32 (Z.lor PLANAR ALPHA);
  Descriptor "yuv420p9le" [Component 0 2 0 0 9; Component 1 2 0 0 9; Component 2 2 0 0 9] 3 1 1 13 PLANAR;
  Descriptor "yuv420p9be" [Component 0 2 0 0 9; Component 1 2 0 0 9; Component 2 2 0 0 9] 3 1 1 13 (Z.lor BIG_ENDIAN PLANAR);
  Descriptor "yuv420p10le" [Component 0 2 0 0 10; Component 1 2 0 0 10; Component 2 2 0 0 10] 3 1 1 15 PLANAR;
  Descriptor "yuv420p10be" [Component 0 2 0 0 10; Component 1 2 0 0 10; Component 2 2 0 0 10] 3 1 1 15 (Z.lor BIG_ENDIAN PLANAR);
  Descriptor "yuv420p12le" [Component 0 2 0 0 12; Component 1 2 0 0 12; Component 2 2 0 0 12] 3 1 1 18 PLANAR;
  Descriptor "yuv420p12be" [Component 0 2 0 0 12; Component 1 2 0 0 12; Component 2 2 0 0 12] 3 1 1 18 (Z.lor BIG_ENDIAN PLANAR);
  Descriptor "yuv420p14le" [Component 0 2 0 0 14; Component 1 2 0 0 14; Component 2 2 0 0 14] 3 1 1 21 PLANAR;
  Descriptor "yuv420p14be" [Component 0 2 0 0 14; Component 1 2 0 0 14; Component 2 2 0 0 14] 3 1 1 21 (Z.lor BIG_ENDIAN PLANAR);
  Descriptor "yuv420p16le" [Component 0 2 0 0 16; Component 1 2 0 0 16; Component 2 2 0 0 16] 3 1 1 24 PLANAR;
  Descriptor "yuv420p16be" [Component 0 2 0 0 16; Component 1 2 0 0 16; Component 2 2 0 0 16] 3 1 1 24 (Z.lor BIG_ENDIAN PLANAR);
  Descriptor "yuv422p9le" [Component 0 2 0 0 9; Component 1 2 0 0 9; Component 2 2 0 0 9] 3 1 0 18 PLANAR;
  Descriptor "yuv422p9be" [Component 0 2 0 0 9; Component 1 2 0 0 9; Component 2 2 0 0 9] 3 1 0 18 (Z.lor BIG_ENDIAN PLANAR);
  Descriptor "yuv422p10le" [Component 0 2 0 0 10; Component 1 2 0 0 10; Component 2 2 0 0 10] 3 1 0 20 PLANAR;
  Descriptor "yuv422p10be" [Component 0 2 0 0 10; Component 1 2 0 0 10; Component 2 2 0 0 10] 3 1 0 20 (Z.lor BIG_ENDIAN PLANAR);
  Descriptor "yuv422p12le" [Component 0 2 0 0 12; Component 1 2 0 0 12; Component 2 2 0 0 12] 3 1 0 24 PLANAR;
  Descriptor "yuv422p12be" [Component 0 2 0 0 12; Component 1 2 0 0 12; Component 2 2 0 0 12] 3 1 0 24 (Z.lor BIG_ENDIAN PLANAR);
  Descriptor "yuv422p14le" [Component 0 2 0 0 14; Component 1 2 0 0 14; Component 2 2 0 0 14] 3 1 0 28 PLANAR;
  Descriptor "yuv422p14be" [Component 0 2 0 0 14; Component 1 2 0 0 14; Component 2 2 0 0 14] 3 1 0 28 (Z.lor BIG_ENDIAN PLANAR);
  Descriptor "yuv422p16le" [Component 0 2 0 0 16; Component 1 2 0 0 16; Component 2 2 0 0 16] 3 1 0 32 PLANAR;
  Descriptor "yuv422p16be" [Component 0 2 0 0 16; Component 1 2 0 0 16; Component 2 2 0 0 16] 3 1 0 32 (Z.lor BIG_ENDIAN PLANAR);
  Descriptor "yuv444p9le" [Component 0 2 0 0 9; Component 1 2 0 0 9; Component 2 2 0 0 9] 3 0 0 27 PLANAR;
  Descriptor "yuv444p9be" [Component 0 2 0 0 9; Component 1 2 0 0 9; Component 2 2 0 0 9] 3 0 0 27 (Z.lor BIG_ENDIAN PLANAR);
  Descriptor "yuv444p10le" [Component 0 2 0 0 10; Component 1 2 0 0 10; Component 2 2 0 0 10] 3 0 0 30 PLANAR;
  Descriptor "yuv444p10be" [Component 0 2 0 0 10; Component 1 2 0 0 10; Component 2 2 0 0 10] 3 0 0 30 (Z.lor BIG_ENDIAN PLANAR);
  Descriptor "yuv444p12le" [Component 0 2 0 0 12; Component 1 2 0 0 12; Component 2 2 0 0 12] 3 0 0 36 PLANAR;
  Descriptor "yuv444p12be" [Component 0 2 0 0 12; Component 1 2 0 0 12; Component 2 2 0 0 12] 3 0 0 36 (Z.lor BIG_ENDIAN PLANAR);
  Descriptor "yuv444p14le" [Component 0 2 0 0 14; Component 1 2 0 0 14; Component 2 2 0 0 14] 3 0 0 42 PLANAR;
  Descriptor "yuv444p14be" [Component 0 2 0 0 14; Component 1 2 0 0 14; Component 2 2 0 0 14] 3 0 0 42 (Z.lor BIG_ENDIAN PLANAR);
  Descriptor "yuv444p16le" [Component 0 2 0 0 16; Component 1 2 0 0 16; Component 2 2 0 0 16] 3 0 0 48 PLANAR;
  Descriptor "yuv444p16be" [Component 0 2 0 0 16; Component 1 2 0 0 16; Component 2 2 0 0 16] 3 0 0 48 (Z.lor BIG_ENDIAN PLANAR);
  Descriptor "yuv440p10le" [Component 0 2 0 0 10; Component 1 2 0 0 10; Component 2 2 0 0 10] 3 0 1 20 PLANAR;
  Descriptor "yuv440p10be" [Component 0 2 0 0 10; Component 1 2 0 0 10; Component 2 2 0 0 10] 3 0 1 20 (Z.lor BIG_ENDIAN PLANAR);
  Descriptor "yuv440p12le" [Component 0 2 0 0 12; Component 1 2 0 0 12; Component 2 2 0 0 12] 3 0 1 24 PLANAR;
  Descriptor "yuv440p12be" [Component 0 2 0 0 12; Component 1 2 0 0 12; Component 2 2 0 0 12] 3 0 1 24 (Z.lor BIG_ENDIAN PLANAR);
  Descriptor "yuv444p10msble" [Component 0 2 0 6 10; Component 1 2 0 6 10; Component 2 2 0 6 10] 3 0 0 30 PLANAR;
  Descriptor "yuv444p10msbbe" [Component 0 2 0 6 10; Component 1 2 0 6 10; Component 2 2 0 6 10] 3 0 0 30 (Z.lor BIG_ENDIAN PLANAR);
  Descriptor "yuv444p12msble" [Component 0 2 0 4 12; Component 1 2 0 4 12; Component 2 2 0 4 12] 3 0 0 36 PLANAR;
  Descriptor "yuv444p12msbbe" [Component 0 2 0 4 12; Component 1 2 0 4 12; Component 2 2 0 4 12] 3 0 0 36 (Z.lor BIG_ENDIAN PLANAR);
  Descriptor "yuva420p9le" [Component 0 2 0 0 9; Component 1 2 0 0 9; Component 2 2 0 0 9; Component 3 2 0 0 9] 4 1 1 22 (Z.lor PLANAR ALPHA);
  Descriptor "yuva420p9be" [Component 0 2 0 0 9; Component 1 2 0 0 9; Component 2 2 0 0 9; Component 3 2 0 0 9] 4 1 1 22 (Z.lor (Z.lor BIG_ENDIAN PLANAR) ALPHA);
  Descriptor "yuva420p10le" [Component 0 2 0 0 10; Component 1 2 0 0 10; Component 2 2 0 0 10; Component 3 2 0 0 10] 4 1 1 25 (Z.lor PLANAR ALPHA);
  Descriptor "yuva420p10be" [Component 0 2 0 0 10; Component 1 2 0 0 10; Component 2 2 0 0 10; Component 3 2 0 0 10] 4 1 1 25 (Z.lor (Z.lor BIG_ENDIAN PLANAR) ALPHA);
  Descriptor "yuva420p16le" [Component 0 2 0 0 16; Component 1 2 0 0 16; Component 2 2 0 0 16; Component 3 2 0 0 16] 4 1 1 40 (Z.lor PLANAR ALPHA);
  Descriptor "yuva420p16be" [Component 0 2 0 0 16; Component 1 2 0 0 16; Component 2 2 0 0 16; Component 3 2 0 0 16] 4 1 1 40 (Z.lor (Z.lor BIG_ENDIAN PLANAR) ALPHA);
  Descriptor "yuva422p9le" [Component 0 2 0 0 9; Component 1 2 0 0 9; Component 2 2 0 0 9; Component 3 2 0 0 9] 4 1 0 27 (Z.lor PLANAR ALPHA);
  Descriptor "yuva422p9be" [Component 0 2 0 0 9; Component 1 2 0 0 9; Component 2 2 0 0 9; Component 3 2 0 0 9] 4 1 0 27 (Z.lor (Z.lor BIG_ENDIAN PLANAR) ALPHA);
  Descriptor "yuva422p10le" [Component 0 2 0 0 10; Component 1 2 0 0 10; Component 2 2 0 0 10; Component 3 2 0 0 10] 4 1 0 30 (Z.lor PLANAR ALPHA);
  Descriptor "yuva422p10be" [Component 0 2 0 0 10; Component 1 2 0 0 10; Component 2 2 0 0 10; Component 3 2 0 0 10] 4 1 0 30 (Z.lor (Z.lor BIG_ENDIAN PLANAR) ALPHA);
  Descriptor "yuva422p12le" [Component 0 2 0 0 12; Component 1 2 0 0 12; Component 2 2 0 0 12; Component 3 2 0 0 12] 4 1 0 36 (Z.lor PLANAR ALPHA);
  Descriptor "yuva422p12be" [Component 0 2 0 0 12; Component 1 2 0 0 12; Component 2 2 0 0 12; Component 3 2 0 0 12] 4 1 0 36 (Z.lor (Z.lor BIG_ENDIAN PLANAR) ALPHA);
  Descriptor "yuva422p16le" [Component 0 2 0 0 16; Component 1 2 0 0 16; Component 2 2 0 0 16; Component 3 2 0 0 16] 4 1 0 48 (Z.lor PLANAR ALPHA);
  Descriptor "yuva422p16be" [Component 0 2 0 0 16; Component 1 2 0 0 16; Component 2 2 0 0 16; Component 3 2 0 0 16] 4 1 0 48 (Z.lor (Z.lor BIG_ENDIAN PLANAR) ALPHA);
  Descriptor "yuva444p9le" [Component 0 2 0 0 9; Component 1 2 0 0 9; Component 2 2 0 0 9; Component 3 2 0 0 9] 4 0 0 36 (Z.lor PLANAR ALPHA);
  Descriptor "yuva444p9be" [Component 0 2 0 0 9; Component 1 2 0 0 9; Component 2 2 0 0 9; Component 3 2 0 0 9] 4 0 0 36 (Z.lor (Z.lor BIG_ENDIAN PLANAR) ALPHA);
  Descriptor "yuva444p10le" [Component 0 2 0 0 10; Component 1 2 0 0 10; Component 2 2 0 0 10; Component 3 2 0 0 10] 4 0 0 40 (Z.lor PLANAR ALPHA);
  Descriptor "yuva444p10be" [Component 0 2 0 0 10; Component 1 2 0 0 10; Component 2 2 0 0 10; Component 3 2 0 0 10] 4 0 0 40 (Z.lor (Z.lor BIG_ENDIAN PLANAR) ALPHA);
  Descriptor "yuva444p12le" [Component 0 2 0 0 12; Component 1 2 0 0 12; Component 2 2 0 0 12; Component 3 2 0 0 12] 4 0 0 48 (Z.lor PLANAR ALPHA);
  Descriptor "yuva444p12be" [Component 0 2 0 0 12; Component 1 2 0 0 12; Component 2 2 0 0 12; Component 3 2 0 0 12] 4 0 0 48 (Z.lor (Z.lor BIG_ENDIAN PLANAR) ALPHA);
  Descriptor "yuva444p16le" [Component 0 2 0 0 16; Component 1 2 0 0 16; Component 2 2 0 0 16; Component 3 2 0 0 16] 4 0 0 64 (Z.lor PLANAR ALPHA);
  Descriptor "yuva444p16be" [Component 0 2 0 0 16; Component 1 2 0 0 16; Component 2 2 0 0 16; Component 3 2 0 0 16] 4 0 0 64 (Z.lor (Z.lor BIG_ENDIAN PLANAR) ALPHA);
  Descriptor "gbrp" [Component 2 1 0 0 8; Component 0 1 0 0 8; Component 1 1 0 0 8] 3 0 0 24 (Z.lor PLANAR RGB);
  Descriptor "gbrap" [Component 2 1 0 0 8; Component 0 1 0 0 8; Component 1 1 0 0 8; Component 3 1 0 0 8] 4 0 0 32 (Z.lor (Z.lor PLANAR RGB) ALPHA);
  Descriptor "gbrp9le" [Component 2 2 0 0 9; Component 0 2 0 0 9; Component 1 2 0 0 9] 3 0 0 27 (Z.lor PLANAR RGB);
  Descriptor "gbrp9be" [Component 2 2 0 0 9; Component 0 2 0 0 9; Component 1 2 0 0 9] 3 0 0 27 (Z.lor (Z.lor BIG_ENDIAN PLANAR) RGB);
  Descriptor "gbrp10le" [Component 2 2 0 0 10; Component 0 2 0 0 10; Component 1 2 0 0 10] 3 0 0 30 (Z.lor PLANAR RGB);
  Descriptor "gbrp10be" [Component 2 2 0 0 10; Component 0 2 0 0 10; Component 1 2 0 0 10] 3 0 0 30 (Z.lor (Z.lor BIG_ENDIAN PLANAR) RGB);
  Descriptor "gbrp12le" [Component 2 2 0 0 12; Component 0 2 0 0 12; Component 1 2 0 0 12] 3 0 0 36 (Z.lor PLANAR RGB);
  Descriptor "gbrp12be" [Component 2 2 0 0 12; Component 0 2 0 0 12; Component 1 2 0 0 12] 3 0 0 36 (Z.lor (Z.lor BIG_ENDIAN PLANAR) RGB);
  Descriptor "gbrp14le" [Component 2 2 0 0 14; Component 0 2 0 0 14; Component 1 2 0 0 14] 3 0 0 42 (Z.lor PLANAR RGB);
  Descriptor "gbrp14be" [Component 2 2 0 0 14; Component 0 2 0 0 14; Component 1 2 0 0 14] 3 0 0 42 (Z.lor (Z.lor BIG_ENDIAN PLANAR) RGB);
  Descriptor "gbrp16le" [Component 2 2 0 0 16; Component 0 2 0 0 16; Component 1 2 0 0 16] 3 0 0 48 (Z.lor PLANAR RGB);
  Descriptor "gbrp16be" [Component 2 2 0 0 16; Component 0 2 0 0 16; Component 1 2 0 0 16] 3 0 0 48 (Z.lor (Z.lor BIG_ENDIAN PLANAR) RGB);
  Descriptor "gbrp10msble" [Component 2 2 0 6 10; Component 0 2 0 6 10; Component 1 2 0 6 10] 3 0 0 30 (Z.lor PLANAR RGB);
  Descriptor "gbrp10msbbe" [Component 2 2 0 6 10; Component 0 2 0 6 10; Component 1 2 0 6 10] 3 0 0 30 (Z.lor (Z.lor BIG_ENDIAN PLANAR) RGB);
  Descriptor "gbrp12msble" [Component 2 2 0 4 12; Component 0 2 0 4 12; Component 1 2 0 4 12] 3 0 0 36 (Z.lor PLANAR RGB);
  Descriptor "gbrp12msbbe" [Component 2 2 0 4 12; Component 0 2 0 4 12; Component 1 2 0 4 12] 3 0 0 36 (Z.lor (Z.lor BIG_ENDIAN PLANAR) RGB);
  Descriptor "gbrap10le" [Component 2 2 0 0 10; Component 0 2 0 0 10; Component 1 2 0 0 10; Component 3 2 0 0 10] 4 0 0 40 (Z.lor (Z.lor PLANAR RGB) ALPHA);
  Descriptor "gbrap10be" [Component 2 2 0 0 10; Component 0 2 0 0 10; Component 1 2 0 0 10; Component 3 2 0 0 10] 4 0 0 40 (Z.lor (Z.lor (Z.lor BIG_ENDIAN PLANAR) RGB) ALPHA);
  Descriptor "gbrap12le" [Component 2 2 0 0 12; Component 0 2 0 0 12; Component 1 2 0 0 12; Component 3 2 0 0 12] 4 0 0 48 (Z.lor (Z.lor PLANAR RGB) ALPHA);
  Descriptor "gbrap12be" [Component 2 2 0 0 12; Component 0 2 0 0 12; Component 1 2 0 0 12; Component 3 2 0 0 12] 4 0 0 48 (Z.lor (Z.lor (Z.lor BIG_ENDIAN PLANAR) RGB) ALPHA);
  Descriptor "gbrap14le" [Component 2 2 0 0 14; Component 0 2 0 0 14; Component 1 2 0 0 14; Component 3 2 0 0 14] 4 0 0 56 (Z.lor (Z.lor PLANAR RGB) ALPHA);
  Descriptor "gbrap14be" [Component 2 2 0 0 14; Component 0 2 0 0 14; Component 1 2 0 0 14; Component 3 2 0 0 14] 4 0 0 56 (Z.lor (Z.lor (Z.lor BIG_ENDIAN PLANAR) RGB) ALPHA);
  Descriptor "gbrap16le" [Component 2 2 0 0 16; Component 0 2 0 0 16; Component 1 2 0 0 16; Component 3 2 0 0 16] 4 0 0 64 (Z.lor (Z.lor PLANAR RGB) ALPHA);
  Descriptor "gbrap16be" [Component 2 2 0 0 16; Component 0 2 0 0 16; Component 1 2 0 0 16; Component 3 2 0 0 16] 4 0 0 64 (Z.lor (Z.lor (Z.lor BIG_ENDIAN PLANAR) RGB) ALPHA);
  Descriptor "gbrap32le" [Component 2 4 0 0 32; Component 0 4 0 0 32; Component 1 4 0 0 32; Component 3 4 0 0 32] 4 0 0 128 (Z.lor (Z.lor PLANAR RGB) ALPHA);
  Descriptor "gbrap32be" [Component 2 4 0 0 32; Component 0 4 0 0 32; Component 1 4 0 0 32; Component 3 4 0 0 32] 4 0 0 128 (Z.lor (Z.lor (Z.lor BIG_ENDIAN PLANAR) RGB) ALPHA);
  Descriptor "gbrpf16le" [Component 2 2 0 0 16; Component 0 2 0 0 16; Component 1 2 0 0 16] 3 0 0 48 (Z.lor (Z.lor PLANAR RGB) FLOAT);
  Descriptor "gbrpf16be" [Component 2 2 0 0 16; Component 0 2 0 0 16; Component 1 2 0 0 16] 3 0 0 48 (Z.lor (Z.lor (Z.lor BIG_ENDIAN PLANAR) RGB) FLOAT);
  Descriptor "gbrapf16le" [Component 2 2 0 0 16; Component 0 2 0 0 16; Component 1 2 0 0 16; Component 3 2 0 0 16] 4 0 0 64 (Z.lor (Z.lor (Z.lor PLANAR RGB) ALPHA) FLOAT);
  Descriptor "gbrapf16be" [Component 2 2 0 0 16; Component 0 2 0 0 16; Component 1 2 0 0 16; Component 3 2 0 0 16] 4 0 0 64 (Z.lor (Z.lor (Z.lor (Z.lor BIG_ENDIAN PLANAR) RGB) ALPHA) FLOAT);
  Descriptor "gbrpf32le" [Component 2 4 0 0 32; Component 0 4 0 0 32; Component 1 4 0 0 32] 3 0 0 96 (Z.lor (Z.lor PLANAR RGB) FLOAT);
  Descriptor "gbrpf32be" [Component 2 4 0 0 32; Component 0 4 0 0 32; Component 1 4 0 0 32] 3 0 0 96 (Z.lor (Z.lor (Z.lor BIG_ENDIAN PLANAR) RGB) FLOAT);
  Descriptor "gbrapf32le" [Component 2 4 0 0 32; Component 0 4 0 0 32; Component 1 4 0 0 32; Component 3 4 0 0 32] 4 0 0 128 (Z.lor (Z.lor (Z.lor PLANAR RGB) ALPHA) FLOAT);
  Descriptor "gbrapf32be" [Component 2 4 0 0 32; Component 0 4 0 0 32; Component 1 4 0 0 32; Component 3 4 0 0 32] 4 0 0 128 (Z.lor (Z.lor (Z.lor (Z.lor BIG_ENDIAN PLANAR) RGB) ALPHA) FLOAT);
  Descriptor "nv12" [Component 0 1 0 0 8; Component 1 2 0 0 8; Component 1 2 1 0 8] 2 1 1 12 PLANAR;
  Descriptor "nv21" [Component 0 1 0 0 8; Component 1 2 1 0 8; Component 1 2 0 0 8] 2 1 1 12 PLANAR;
  Descriptor "nv16" [Component 0 1 0 0 8; Component 1 2 0 0 8; Component 1 2 1 0 8] 2 1 0 16 PLANAR;
  Descriptor "nv24" [Component 0 1 0 0 8; Component 1 2 0 0 8; Component 1 2 1 0 8] 2 0 0 24 PLANAR;
  Descriptor "nv42" [Component 0 1 0 0 8; Component 1 2 1 0 8; Component 1 2 0 0 8] 2 0 0 24 PLANAR;
  Descriptor "p010le" [Component 0 2 0 6 10; Component 1 4 0 6 10; Component 1 4 2 6 10] 2 1 1 15 PLANAR;
  Descriptor "p010be" [Component 0 2 0 6 10; Component 1 4 0 6 10; Component 1 4 2 6 10] 2 1 1 15 (Z.lor BIG_ENDIAN PLANAR);
  Descriptor "p012le" [Component 0 2 0 4 12; Component 1 4 0 4 12; Component 1 4 2 4 12] 2 1 1 18 PLANAR;
  Descriptor "p012be" [Component 0 2 0 4 12; Component 1 4 0 4 12; Component 1 4 2 4 12] 2 1 1 18 (Z.lor BIG_ENDIAN PLANAR);
  Descriptor "p016le" [Component 0 2 0 0 16; Component 1 4 0 0 16; Component 1 4 2 0 16] 2 1 1 24 PLANAR;
  Descriptor "p016be" [Component 0 2 0 0 16; Component 1 4 0 0 16; Component 1 4 2 0 16] 2 1 1 24 (Z.lor BIG_ENDIAN PLANAR);
  Descriptor "p210le" [Component 0 2 0 6 10; Component 1 4 0 6 10; Component 1 4 2 6 10] 2 1 0 20 PLANAR;
  Descriptor "p210be" [Component 0 2 0 6 10; Component 1 4 0 6 10; Component 1 4 2 6 10] 2 1 0 20 (Z.lor BIG_ENDIAN PLANAR);
  Descriptor "p212le" [Component 0 2 0 4 12; Component 1 4 0 4 12; Component 1 4 2 4 12] 2 1 0 24 PLANAR;
  Descriptor "p212be" [Component 0 2 0 4 12; Component 1 4 0 4 12; Component 1 4 2 4 12] 2 1 0 24 (Z.lor BIG_ENDIAN PLANAR);
  Descriptor "p216le" [Component 0 2 0 0 16; Component 1 4 0 0 16; Component 1 4 2 0 16] 2 1 0 32 PLANAR;
  Descriptor "p216be" [Component 0 2 0 0 16; Component 1 4 0 0 16; Component 1 4 2 0 16] 2 1 0 32 (Z.lor BIG_ENDIAN PLANAR);
  Descriptor "p410le" [Component 0 2 0 6 10; Component 1 4 0 6 10; Component 1 4 2 6 10] 2 0 0 30 PLANAR;
  Descriptor "p410be" [Component 0 2 0 6 10; Component 1 4 0 6 10; Component 1 4 2 6 10] 2 0 0 30 (Z.lor BIG_ENDIAN PLANAR);
  Descriptor "p412le" [Component 0 2 0 4 12; Component 1 4 0 4 12; Component 1 4 2 4 12] 2 0 0 36 PLANAR;
  Descriptor "p412be" [Component 0 2 0 4 12; Component 1 4 0 4 12; Component 1 4 2 4 12] 2 0 0 36 (Z.lor BIG_ENDIAN PLANAR);
  Descriptor "p416le" [Component 0 2 0 0 16; Component 1 4 0 0 16; Component 1 4 2 0 16] 2 0 0 48 PLANAR;
  Descriptor "p416be" [Component 0 2 0 0 16; Component 1 4 0 0 16; Component 1 4 2 0 16] 2 0 0 48 (Z.lor BIG_ENDIAN PLANAR);
  Descriptor "nv20le" [Component 0 2 0 0 10; Component 1 4 0 0 10; Component 1 4 2 0 10] 2 1 0 20 PLANAR;
  Descriptor "nv20be" [Component 0 2 0 0 10; Component 1 4 0 0 10; Component 1 4 2 0 10] 2 1 0 20 (Z.lor BIG_ENDIAN PLANAR);
  Descriptor "gray" [Component 0 1 0 0 8] 1 0 0 8 0;
  Descriptor "ya8" [Component 0 2 0 0 8; Component 0 2 1 0 8] 1 0 0 16 ALPHA;
  Descriptor "gray9le" [Component 0 2 0 0 9] 1 0 0 9 0;
  Descriptor "gray9be" [Component 0 2 0 0 9] 1 0 0 9 BIG_ENDIAN;
  Descriptor "gray10le" [Component 0 2 0 0 10] 1 0 0 10 0;
  Descriptor "gray10be" [Component 0 2 0 0 10] 1 0 0 10 BIG_ENDIAN;
  Descriptor "gray12le" [Component 0 2 0 0 12] 1 0 0 12 0;
  Descriptor "gray12be" [Component 0 2 0 0 12] 1 0 0 12 BIG_ENDIAN;
  Descriptor "gray14le" [Component 0 2 0 0 14] 1 0 0 14 0;
  Descriptor "gray14be" [Component 0 2 0 0 14] 1 0 0 14 BIG_ENDIAN;
  Descriptor "gray16le" [Component 0 2 0 0 16] 1 0 0 16 0;
  Descriptor "gray16be" [Component 0 2 0 0 16] 1 0 0 16 BIG_ENDIAN;
  Descriptor "gray32le" [Component 0 4 0 0 32] 1 0 0 32 0;
  Descriptor "gray32be" [Component 0 4 0 0 32] 1 0 0 32 BIG_ENDIAN;
  Descriptor "ya16le" [Component 0 4 0 0 16; Component 0 4 2 0 16] 1 0 0 32 ALPHA;
  Descriptor "ya16be" [Component 0 4 0 0 16; Component 0 4 2 0 16] 1 0 0 32 (Z.lor BIG_ENDIAN ALPHA);
  Descriptor "grayf16le" [Component 0 2 0 0 16] 1 0 0 16 FLOAT;
  Descriptor "grayf16be" [Component 0 2 0 0 16] 1 0 0 16 (Z.lor BIG_ENDIAN FLOAT);
  Descriptor "yaf16le" [Component 0 4 0 0 16; Component 0 4 2 0 16] 1 0 0 32 (Z.lor ALPHA FLOAT);
  Descriptor "yaf16be" [Component 0 4 0 0 16; Component 0 4 2 0 16] 1 0 0 32 (Z.lor (Z.lor BIG_ENDIAN ALPHA) FLOAT);
  Descriptor "grayf32le" [Component 0 4 0 0 32] 1 0 0 32 FLOAT;
  Descriptor "grayf32be" [Component 0 4 0 0 32] 1 0 0 32 (Z.lor BIG_ENDIAN FLOAT);
  Descriptor "yaf32le" [Component 0 8 0 0 32; Component 0 8 4 0 32] 1 0 0 64 (Z.lor ALPHA FLOAT);
  Descriptor "yaf32be" [Component 0 8 0 0 32; Component 0 8 4 0 32] 1 0 0 64 (Z.lor (Z.lor BIG_ENDIAN ALPHA) FLOAT);
  Descriptor "rgb24" [Component 0 3 0 0 8; Component 0 3 1 0 8; Component 0 3 2 0 8] 1 0 0 24 RGB;
  Descriptor "bgr24" [Component 0 3 2 0 8; Component 0 3 1 0 8; Component 0 3 0 0 8] 1 0 0 24 RGB;
  Descriptor "argb" [Component 0 4 1 0 8; Component 0 4 2 0 8; Component 0 4 3 0 8; Component 0 4 0 0 8] 1 0 0 32 (Z.lor RGB ALPHA);
  Descriptor "rgba" [Component 0 4 0 0 8; Component 0 4 1 0 8; Component 0 4 2 0 8; Component 0 4 3 0 8] 1 0 0 32 (Z.lor RGB ALPHA);
  Descriptor "abgr" [Component 0 4 3 0 8; Component 0 4 2 0 8; Component 0 4 1 0 8; Component 0 4 0 0 8] 1 0 0 32 (Z.lor RGB ALPHA);
  Descriptor "bgra" [Component 0 4 2 0 8; Component 0 4 1 0 8; Component 0 4 0 0 8; Component 0 4 3 0 8] 1 0 0 32 (Z.lor RGB ALPHA);
  Descriptor "0rgb" [Component 0 4 1 0 8; Component 0 4 2 0 8; Component 0 4 3 0 8] 1 0 0 24 RGB;
  Descriptor "rgb0" [Component 0 4 0 0 8; Component 0 4 1 0 8; Component 0 4 2 0 8] 1 0 0 24 RGB;
  Descriptor "0bgr" [Component 0 4 3 0 8; Component 0 4 2 0 8; Component 0 4 1 0 8] 1 0 0 24 RGB;
  Descriptor "bgr0" [Component 0 4 2 0 8; Component 0 4 1 0 8; Component 0 4 0 0 8] 1 0 0 24 RGB;
  Descriptor "rgb8" [Component 0 1 0 0 3; Component 0 1 0 3 3; Component 0 1 0 6 2] 1 0 0 8 RGB;
  Descriptor "bgr8" [Component 0 1 0 6 2; Component 0 1 0 3 3; Component 0 1 0 0 3] 1 0 0 8 RGB;
  Descriptor "rgb4_byte" [Component 0 1 0 0 1; Component 0 1 0 1 2; Component 0 1 0 3 1] 1 0 0 4 RGB;
  Descriptor "bgr4_byte" [Component 0 1 0 3 1; Component 0 1 0 1 2; Component 0 1 0 0 1] 1 0 0 4 RGB;
  Descriptor "rgb4" [Component 0 4 0 0 1; Component 0 4 0 1 2; Component 0 4 0 3 1] 1 0 0 4 (Z.lor BITSTREAM RGB);
  Descriptor "bgr4" [Component 0 4 0 3 1; Component 0 4 0 1 2; Component 0 4 0 0 1] 1 0 0 4 (Z.lor BITSTREAM RGB);
  Descriptor "rgb444le" [Component 0 2 0 8 4; Component 0 2 0 4 4; Component 0 2 0 0 4] 1 0 0 12 RGB;
  Descriptor "rgb444be" [Component 0 2 0 8 4; Component 0 2 0 4 4; Component 0 2 0 0 4] 1 0 0 12 (Z.lor BIG_ENDIAN RGB);
  Descriptor "rgb555le" [Component 0 2 0 10 5; Component 0 2 0 5 5; Component 0 2 0 0 5] 1 0 0 15 RGB;
  Descriptor "rgb555be" [Component 0 2 0 10 5; Component 0 2 0 5 5; Component 0 2 0 0 5] 1 0 0 15 (Z.lor BIG_ENDIAN RGB);
  Descriptor "rgb565le" [Component 0 2 0 11 5; Component 0 2 0 5 6; Component 0 2 0 0 5] 1 0 0 16 RGB;
  Descriptor "rgb565be" [Component 0 2 0 11 5; Component 0 2 0 5 6; Component 0 2 0 0 5] 1 0 0 16 (Z.lor BIG_ENDIAN RGB);
  Descriptor "bgr444le" [Component 0 2 0 0 4; Component 0 2 0 4 4; Component 0 2 0 8 4] 1 0 0 12 RGB;
  Descriptor "bgr444be" [Component 0 2 0 0 4; Component 0 2 0 4 4; Component 0 2 0 8 4] 1 0 0 12 (Z.lor BIG_ENDIAN RGB);
  Descriptor "bgr555le" [Component 0 2 0 0 5; Component 0 2 0 5 5; Component 0 2 0 10 5] 1 0 0 15 RGB;
  Descriptor "bgr555be" [Component 0 2 0 0 5; Component 0 2 0 5 5; Component 0 2 0 10 5] 1 0 0 15 (Z.lor BIG_ENDIAN RGB);
  Descriptor "bgr565le" [Component 0 2 0 0 5; Component 0 2 0 5 6; Component 0 2 0 11 5] 1 0 0 16 RGB;
  Descriptor "bgr565be" [Component 0 2 0 0 5; Component 0 2 0 5 6; Component 0 2 0 11 5] 1 0 0 16 (Z.lor BIG_ENDIAN RGB);
  Descriptor "x2rgb10le" [Component 0 4 0 20 10; Component 0 4 0 10 10; Component 0 4 0 0 10] 1 0 0 30 RGB;
  Descriptor "x2rgb10be" [Component 0 4 0 20 10; Component 0 4 0 10 10; Component 0 4 0 0 10] 1 0 0 30 (Z.lor BIG_ENDIAN RGB);
  Descriptor "x2bgr10le" [Component 0 4 0 0 10; Component 0 4 0 10 10; Component 0 4 0 20 10] 1 0 0 30 RGB;
  Descriptor "x2bgr10be" [Component 0 4 0 0 10; Component 0 4 0 10 10; Component 0 4 0 20 10] 1 0 0 30 (Z.lor BIG_ENDIAN RGB);
  Descriptor "rgb48le" [Component 0 6 0 0 16; Component 0 6 2 0 16; Component 0 6 4 0 16] 1 0 0 48 RGB;
  Descriptor "rgb48be" [Component 0 6 0 0 16; Component 0 6 2 0 16; Component 0 6 4 0 16] 1 0 0 48 (Z.lor BIG_ENDIAN RGB);
  Descriptor "bgr48le" [Component 0 6 4 0 16; Component 0 6 2 0 16; Component 0 6 0 0 16] 1 0 0 48 RGB;
  Descriptor "bgr48be" [Component 0 6 4 0 16; Component 0 6 2 0 16; Component 0 6 0 0 16] 1 0 0 48 (Z.lor BIG_ENDIAN RGB);
  Descriptor "rgba64le" [Component 0 8 0 0 16; Component 0 8 2 0 16; Component 0 8 4 0 16; Component 0 8 6 0 16] 1 0 0 64 (Z.lor RGB ALPHA);
  Descriptor "rgba64be" [Component 0 8 0 0 16; Component 0 8 2 0 16; Component 0 8 4 0 16; Component 0 8 6 0 16] 1 0 0 64 (Z.lor (Z.lor BIG_ENDIAN RGB) ALPHA);
  Descriptor "bgra64le" [Component 0 8 4 0 16; Component 0 8 2 0 16; Component 0 8 0 0 16; Component 0 8 6 0 16] 1 0 0 64 (Z.lor RGB ALPHA);
  Descriptor "bgra64be" [Component 0 8 4 0 16; Component 0 8 2 0 16; Component 0 8 0 0 16; Component 0 8 6 0 16] 1 0 0 64 (Z.lor (Z.lor BIG_ENDIAN RGB) ALPHA);
  Descriptor "rgb96le" [Component 0 12 0 0 32; Component 0 12 4 0 32; Component 0 12 8 0 32] 1 0 0 96 RGB;
  Descriptor "rgb96be" [Component 0 12 0 0 32; Component 0 12 4 0 32; Component 0 12 8 0 32] 1 0 0 96 (Z.lor BIG_ENDIAN RGB);
  Descriptor "rgba128le" [Component 0 16 0 0 32; Component 0 16 4 0 32; Component 0 16 8 0 32; Component 0 16 12 0 32] 1 0 0 128 (Z.lor RGB ALPHA);
  Descriptor "rgba128be" [Component 0 16 0 0 32; Component 0 16 4 0 32; Component 0 16 8 0 32; Component 0 16 12 0 32] 1 0 0 128 (Z.lor (Z.lor BIG_ENDIAN RGB) ALPHA);
  Descriptor "rgbf16le" [Component 0 6 0 0 16; Component 0 6 2 0 16; Component 0 6 4 0 16] 1 0 0 48 (Z.lor RGB FLOAT);
  Descriptor "rgbf16be" [Component 0 6 0 0 16; Component 0 6 2 0 16; Component 0 6 4 0 16] 1 0 0 48 (Z.lor (Z.lor BIG_ENDIAN RGB) FLOAT);
  Descriptor "rgbaf16le" [Component 0 8 0 0 16; Component 0 8 2 0 16; Component 0 8 4 0 16; Component 0 8 6 0 16] 1 0 0 64 (Z.lor (Z.lor RGB ALPHA) FLOAT);
  Descriptor "rgbaf16be" [Component 0 8 0 0 16; Component 0 8 2 0 16; Component 0 8 4 0 16; Component 0 8 6 0 16] 1 0 0 64 (Z.lor (Z.lor (Z.lor BIG_ENDIAN RGB) ALPHA) FLOAT);
  Descriptor "rgbf32le" [Component 0 12 0 0 32; Component 0 12 4 0 32; Component 0 12 8 0 32] 1 0 0 96 (Z.lor RGB FLOAT);
  Descriptor "rgbf32be" [Component 0 12 0 0 32; Component 0 12 4 0 32; Component 0 12 8 0 32] 1 0 0 96 (Z.lor (Z.lor BIG_ENDIAN RGB) FLOAT);
  Descriptor "rgbaf32le" [Component 0 16 0 0 32; Component 0 16 4 0 32; Component 0 16 8 0 32; Component 0 16 12 0 32] 1 0 0 128 (Z.lor (Z.lor RGB ALPHA) FLOAT);
  Descriptor "rgbaf32be" [Component 0 16 0 0 32; Component 0 16 4 0 32; Component 0 16 8 0 32; Component 0 16 12 0 32] 1 0 0 128 (Z.lor (Z.lor (Z.lor BIG_ENDIAN RGB) ALPHA) FLOAT);
  Descriptor "xyz12le" [Component 0 6 0 4 12; Component 0 6 2 4 12; Component 0 6 4 4 12] 1 0 0 36 (Z.lor RGB XYZ);
  Descriptor "xyz12be" [Component 0 6 0 4 12; Component 0 6 2 4 12; Component 0 6 4 4 12] 1 0 0 36 (Z.lor (Z.lor BIG_ENDIAN RGB) XYZ);
  Descriptor "ayuv" [Component 0 4 1 0 8; Component 0 4 2 0 8; Component 0 4 3 0 8; Component 0 4 0 0 8] 1 0 0 32 ALPHA;
  Descriptor "uyva" [Component 0 4 1 0 8; Component 0 4 0 0 8; Component 0 4 2 0 8; Component 0 4 3 0 8] 1 0 0 32 ALPHA;
  Descriptor "vuya" [Component 0 4 2 0 8; Component 0 4 1 0 8; Component 0 4 0 0 8; Component 0 4 3 0 8] 1 0 0 32 ALPHA;
  Descriptor "vuyx" [Component 0 4 2 0 8; Component 0 4 1 0 8; Component 0 4 0 0 8] 1 0 0 24 0;
  Descriptor "vyu444" [Component 0 3 1 0 8; Component 0 3 2 0 8; Component 0 3 0 0 8] 1 0 0 24 0;
  Descriptor "ayuv64le" [Component 0 8 2 0 16; Component 0 8 4 0 16; Component 0 8 6 0 16; Component 0 8 0 0 16] 1 0 0 64 ALPHA;
  Descriptor "ayuv64be" [Component 0 8 2 0 16; Component 0 8 4 0 16; Component 0 8 6 0 16; Component 0 8 0 0 16] 1 0 0 64 (Z.lor BIG_ENDIAN ALPHA);
  Descriptor "xv30le" [Component 0 4 0 10 10; Component 0 4 0 0 10; Component 0 4 0 20 10] 1 0 0 30 0;
  Descriptor "xv30be" [Component 0 4 0 10 10; Component 0 4 0 0 10; Component 0 4 0 20 10] 1 0 0 30 BIG_ENDIAN;
  Descriptor "xv36le" [Component 0 8 2 4 12; Component 0 8 0 4 12; Component 0 8 4 4 12] 1 0 0 36 0;
  Descriptor "xv36be" [Component 0 8 2 4 12; Component 0 8 0 4 12; Component 0 8 4 4 12] 1 0 0 36 BIG_ENDIAN;
  Descriptor "xv48le" [Component 0 8 2 0 16; Component 0 8 0 0 16; Component 0 8 4 0 16] 1 0 0 48 0;
  Descriptor "xv48be" [Component 0 8 2 0 16; Component 0 8 0 0 16; Component 0 8 4 0 16] 1 0 0 48 BIG_ENDIAN;
  Descriptor "v30xle" [Component 0 4 0 12 10; Component 0 4 0 2 10; Component 0 4 0 22 10] 1 0 0 30 0;
  Descriptor "v30xbe" [Component 0 4 0 12 10; Component 0 4 0 2 10; Component 0 4 0 22 10] 1 0 0 30 BIG_ENDIAN;
  Descriptor "bayer_bggr8" [Component 0 1 0 0 2; Component 0 1 0 0 4; Component 0 1 0 0 2] 1 0 0 8 (Z.lor RGB BAYER);
  Descriptor "bayer_rggb8" [Component 0 1 0 0 2; Component 0 1 0 0 4; Component 0 1 0 0 2] 1 0 0 8 (Z.lor RGB BAYER);
  Descriptor "bayer_gbrg8" [Component 0 1 0 0 2; Component 0 1 0 0 4; Component 0 1 0 0 2] 1 0 0 8 (Z.lor RGB BAYER);
  Descriptor "bayer_grbg8" [Component 0 1 0 0 2; Component 0 1 0 0 4; Component 0 1 0 0 2] 1 0 0 8 (Z.lor RGB BAYER);
  Descriptor "bayer_bggr16le" [Component 0 2 0 0 4; Component 0 2 0 0 8; Component 0 2 0 0 4] 1 0 0 16 (Z.lor RGB BAYER);
  Descriptor "bayer_bggr16be" [Component 0 2 0 0 4; Component 0 2 0 0 8; Component 0 2 0 0 4] 1 0 0 16 (Z.lor (Z.lor BIG_ENDIAN RGB) BAYER);
  Descriptor "bayer_rggb16le" [Component 0 2 0 0 4; Component 0 2 0 0 8; Component 0 2 0 0 4] 1 0 0 16 (Z.lor RGB BAYER);
  Descriptor "bayer_rggb16be" [Component 0 2 0 0 4; Component 0 2 0 0 8; Component 0 2 0 0 4] 1 0 0 16 (Z.lor (Z.lor BIG_ENDIAN RGB) BAYER);
  Descriptor "bayer_gbrg16le" [Component 0 2 0 0 4; Component 0 2 0 0 8; Component 0 2 0 0 4] 1 0 0 16 (Z.lor RGB BAYER);
  Descriptor "bayer_gbrg16be" [Component 0 2 0 0 4; Component 0 2 0 0 8; Component 0 2 0 0 4] 1 0 0 16 (Z.lor (Z.lor BIG_ENDIAN RGB) BAYER);
  Descriptor "bayer_grbg16le" [Component 0 2 0 0 4; Component 0 2 0 0 8; Component 0 2 0 0 4] 1 0 0 16 (Z.lor RGB BAYER);
  Descriptor "bayer_grbg16be" [Component 0 2 0 0 4; Component 0 2 0 0 8; Component 0 2 0 0 4] 1 0 0 16 (Z.lor (Z.lor BIG_ENDIAN RGB) BAYER);
  Descriptor "yuyv422" [Component 0 2 0 0 8; Component 0 4 1 0 8; Component 0 4 3 0 8] 1 1 0 16 0;
  Descriptor "uyvy422" [Component 0 2 1 0 8; Component 0 4 0 0 8; Component 0 4 2 0 8] 1 1 0 16 0;
  Descriptor "yvyu422" [Component 0 2 0 0 8; Component 0 4 3 0 8; Component 0 4 1 0 8] 1 1 0 16 0;
  Descriptor "uyyvyy411" [Component 0 1 1 0 8; Component 0 6 0 0 8; Component 0 6 3 0 8] 1 2 0 12 0;
  Descriptor "y210le" [Component 0 4 0 6 10; Component 0 8 2 6 10; Component 0 8 6 6 10] 1 1 0 20 0;
  Descriptor "y210be" [Component 0 4 0 6 10; Component 0 8 2 6 10; Component 0 8 6 6 10] 1 1 0 20 BIG_ENDIAN;
  Descriptor "y212le" [Component 0 4 0 4 12; Component 0 8 2 4 12; Component 0 8 6 4 12] 1 1 0 24 0;
  Descriptor "y212be" [Component 0 4 0 4 12; Component 0 8 2 4 12; Component 0 8 6 4 12] 1 1 0 24 BIG_ENDIAN;
  Descriptor "y216le" [Component 0 4 0 0 16; Component 0 8 2 0 16; Component 0 8 6 0 16] 1 1 0 32 0;
  Descriptor "y216be" [Component 0 4 0 0 16; Component 0 8 2 0 16; Component 0 8 6 0 16] 1 1 0 32 BIG_ENDIAN;
  Descriptor "monow" [Component 0 1 0 0 1] 1 0 0 1 BITSTREAM;
  Descriptor "monob" [Component 0 1 0 0 1] 1 0 0 1 BITSTREAM;
  Descriptor "pal8" [Component 0 1 0 0 8] 1 0 0 8 (Z.lor PALETTE ALPHA);
  Descriptor "vaapi" [] 0 0 0 0 HW_ACCEL;
  Descriptor "dxva2_vld" [] 0 0 0 0 HW_ACCEL;
  Descriptor "d3d11va_vld" [] 0 0 0 0 HW_ACCEL;
  Descriptor "d3d11" [] 0 0 0 0 HW_ACCEL;
  Descriptor "d3d12" [] 0 0 0 0 HW_ACCEL;
  Descriptor "vdpau" [] 0 0 0 0 HW_ACCEL;
  Descriptor "videotoolbox_vld" [] 0 0 0 0 HW_ACCEL;
  Descriptor "cuda" [] 0 0 0 0 HW_ACCEL;
  Descriptor "qsv" [] 0 0 0 0 HW_ACCEL;
  Descriptor "mmal" [] 0 0 0 0 HW_ACCEL;
  Descriptor "mediacodec" [] 0 0 0 0 HW_ACCEL;
  Descriptor "opencl" [] 0 0 0 0 HW_ACCEL;
  Descriptor "drm_prime" [] 0 0 0 0 HW_ACCEL;
  Descriptor "vulkan" [] 0 0 0 0 HW_ACCEL;
  Descriptor "amf" [] 0 0 0 0 HW_ACCEL;
  Descriptor "ohcodec" [] 0 0 0 0 HW_ACCEL].

Definition NAMES_SORTED : list (string * pix_fmt) := [
  ("0bgr", X0bgr); ("0rgb", X0rgb); ("abgr", Abgr); ("amf", Amf); ("amf_surface", Amf); ("argb", Argb);
  ("ayuv", Ayuv); ("ayuv64be", Ayuv64be); ("ayuv64le", Ayuv64le); ("bayer_bggr16be", BayerBggr16be);
  ("bayer_bggr16le", BayerBggr16le); ("bayer_bggr8", BayerBggr8); ("bayer_gbrg16be", BayerGbrg16be);
  ("bayer_gbrg16le", BayerGbrg16le); ("bayer_gbrg8", BayerGbrg8); ("bayer_grbg16be", BayerGrbg16be);
  ("bayer_grbg16le", BayerGrbg16le); ("bayer_grbg8", BayerGrbg8); ("bayer_rggb16be", BayerRggb16be);
  ("bayer_rggb16le", BayerRggb16le); ("bayer_rggb8", BayerRggb8); ("bgr0", Bgr0); ("bgr24", Bgr24); ("bgr4", Bgr4);
  ("bgr444be", Bgr444be); ("bgr444le", Bgr444le); ("bgr48be", Bgr48be); ("bgr48le", Bgr48le);
  ("bgr4_byte", Bgr4Byte); ("bgr555be", Bgr555be); ("bgr555le", Bgr555le); ("bgr565be", Bgr565be);
  ("bgr565le", Bgr565le); ("bgr8", Bgr8); ("bgra", Bgra); ("bgra64be", Bgra64be); ("bgra64le", Bgra64le);
  ("cuda", Cuda); ("d3d11", D3d11); ("d3d11va_vld", D3d11vaVld); ("d3d12", D3d12); ("drm_prime", DrmPrime);
  ("dxva2_vld", Dxva2Vld); ("gbr24p", Gbrp); ("gbrap", Gbrap); ("gbrap10be", Gbrap10be); ("gbrap10le", Gbrap10le);
  ("gbrap12be", Gbrap12be); ("gbrap12le", Gbrap12le); ("gbrap14be", Gbrap14be); ("gbrap14le", Gbrap14le);
  ("gbrap16be", Gbrap16be); ("gbrap16le", Gbrap16le); ("gbrap32be", Gbrap32be); ("gbrap32le", Gbrap32le);
  ("gbrapf16be", Gbrapf16be); ("gbrapf16le", Gbrapf16le); ("gbrapf32be", Gbrapf32be); ("gbrapf32le", Gbrapf32le);
  ("gbrp", Gbrp); ("gbrp10be", Gbrp10be); ("gbrp10le", Gbrp10le); ("gbrp10msbbe", Gbrp10msbbe);
  ("gbrp10msble", Gbrp10msble); ("gbrp12be", Gbrp12be); ("gbrp12le", Gbrp12le); ("gbrp12msbbe", Gbrp12msbbe);
  ("gbrp12msble", Gbrp12msble); ("gbrp14be", Gbrp14be); ("gbrp14le", Gbrp14le); ("gbrp16be", Gbrp16be);
  ("gbrp16le", Gbrp16le); ("gbrp9be", Gbrp9be); ("gbrp9le", Gbrp9le); ("gbrpf16be", Gbrpf16be);
  ("gbrpf16le", Gbrpf16le); ("gbrpf32be", Gbrpf32be); ("gbrpf32le", Gbrpf32le); ("gray", Gray8);
  ("gray10be", Gray10be); ("gray10le", Gray10le); ("gray12be", Gray12be); ("gray12le", Gray12le);
  ("gray14be", Gray14be); ("gray14le", Gray14le); ("gray16be", Gray16be); ("gray16le", Gray16le);
  ("gray32be", Gray32be); ("gray32le", Gray32le); ("gray8", Gray8); ("gray8a", Ya8); ("gray9be", Gray9be);
  ("gray9le", Gray9le); ("grayf16be", Grayf16be); ("grayf16le", Grayf16le); ("grayf32be", Grayf32be);
  ("grayf32le", Grayf32le); ("mediacodec", Mediacodec); ("mmal", Mmal); ("monob", MonoBlack);
  ("monoblack", MonoBlack); ("monow", MonoWhite); ("monowhite", MonoWhite); ("nv12", Nv12); ("nv16", Nv16);
  ("nv20be", Nv20be); ("nv20le", Nv20le); ("nv21", Nv21); ("nv24", Nv24); ("nv42", Nv42); ("ohcodec", Ohcodec);
  ("opencl", Opencl); ("p010be", P010be); ("p010le", P010le); ("p012be", P012be); ("p012le", P012le);
  ("p016be", P016be); ("p016le", P016le); ("p210be", P210be); ("p210le", P210le); ("p212be", P212be);
  ("p212le", P212le); ("p216be", P216be); ("p216le", P216le); ("p410be", P410be); ("p410le", P410le);
  ("p412be", P412be); ("p412le", P412le); ("p416be", P416be); ("p416le", P416le); ("pal8", Pal8); ("qsv", Qsv);
  ("rgb0", Rgb0); ("rgb24", Rgb24); ("rgb4", Rgb4); ("rgb444be", Rgb444be); ("rgb444le", Rgb444le);
  ("rgb48be", Rgb48be); ("rgb48le", Rgb48le); ("rgb4_byte", Rgb4Byte); ("rgb555be", Rgb555be);
  ("rgb555le", Rgb555le); ("rgb565be", Rgb565be); ("rgb565le", Rgb565le); ("rgb8", Rgb8); ("rgb96be", Rgb96be);
  ("rgb96le", Rgb96le); ("rgba", Rgba); ("rgba128be", Rgba128be); ("rgba128le", Rgba128le); ("rgba64be", Rgba64be);
  ("rgba64le", Rgba64le); ("rgbaf16be", Rgbaf16be); ("rgbaf16le", Rgbaf16le); ("rgbaf32be", Rgbaf32be);
  ("rgbaf32le", Rgbaf32le); ("rgbf16be", Rgbf16be); ("rgbf16le", Rgbf16le); ("rgbf32be", Rgbf32be);
  ("rgbf32le", Rgbf32le); ("uyva", Uyva); ("uyvy422", Uyvy422); ("uyyvyy411", Uyyvyy411); ("v30xbe", V30xbe);
  ("v30xle", V30xle); ("vaapi", Vaapi); ("vdpau", Vdpau); ("videotoolbox", VideotoolboxVld);
  ("videotoolbox_vld", VideotoolboxVld); ("vulkan", Vulkan); ("vuya", Vuya); ("vuyx", Vuyx); ("vyu444", Vyu444);
  ("x2bgr10be", X2bgr10be); ("x2bgr10le", X2bgr10le); ("x2rgb10be", X2rgb10be); ("x2rgb10le", X2rgb10le);
  ("xv30be", Xv30be); ("xv30le", Xv30le); ("xv36be", Xv36be); ("xv36le", Xv36le); ("xv48be", Xv48be);
  ("xv48le", Xv48le); ("xyz12be", Xyz12be); ("xyz12le", Xyz12le); ("y210be", Y210be); ("y210le", Y210le);
  ("y212be", Y212be); ("y212le", Y212le); ("y216be", Y216be); ("y216le", Y216le); ("y400a", Ya8);
  ("ya16be", Ya16be); ("ya16le", Ya16le); ("ya8", Ya8); ("yaf16be", Yaf16be); ("yaf16le", Yaf16le);
  ("yaf32be", Yaf32be); ("yaf32le", Yaf32le); ("yuv410p", Yuv410p); ("yuv411p", Yuv411p); ("yuv420p", Yuv420p);
  ("yuv420p10be", Yuv420p10be); ("yuv420p10le", Yuv420p10le); ("yuv420p12be", Yuv420p12be);
  ("yuv420p12le", Yuv420p12le); ("yuv420p14be", Yuv420p14be); ("yuv420p14le", Yuv420p14le);
  ("yuv420p16be", Yuv420p16be); ("yuv420p16le", Yuv420p16le); ("yuv420p9be", Yuv420p9be);
  ("yuv420p9le", Yuv420p9le); ("yuv422p", Yuv422p); ("yuv422p10be", Yuv422p10be); ("yuv422p10le", Yuv422p10le);
  ("yuv422p12be", Yuv422p12be); ("yuv422p12le", Yuv422p12le); ("yuv422p14be", Yuv422p14be);
  ("yuv422p14le", Yuv422p14le); ("yuv422p16be", Yuv422p16be); ("yuv422p16le", Yuv422p16le);
  ("yuv422p9be", Yuv422p9be); ("yuv422p9le", Yuv422p9le); ("yuv440p", Yuv440p); ("yuv440p10be", Yuv440p10be);
  ("yuv440p10le", Yuv440p10le); ("yuv440p12be", Yuv440p12be); ("yuv440p12le", Yuv440p12le); ("yuv444p", Yuv444p);
  ("yuv444p10be", Yuv444p10be); ("yuv444p10le", Yuv444p10le); ("yuv444p10msbbe", Yuv444p10msbbe);
  ("yuv444p10msble", Yuv444p10msble); ("yuv444p12be", Yuv444p12be); ("yuv444p12le", Yuv444p12le);
  ("yuv444p12msbbe", Yuv444p12msbbe); ("yuv444p12msble", Yuv444p12msble); ("yuv444p14be", Yuv444p14be);
  ("yuv444p14le", Yuv444p14le); ("yuv444p16be", Yuv444p16be); ("yuv444p16le", Yuv444p16le);
  ("yuv444p9be", Yuv444p9be); ("yuv444p9le", Yuv444p9le); ("yuva420p", Yuva420p); ("yuva420p10be", Yuva420p10be);
  ("yuva420p10le", Yuva420p10le); ("yuva420p16be", Yuva420p16be); ("yuva420p16le", Yuva420p16le);
  ("yuva420p9be", Yuva420p9be); ("yuva420p9le", Yuva420p9le); ("yuva422p", Yuva422p);
  ("yuva422p10be", Yuva422p10be); ("yuva422p10le", Yuva422p10le); ("yuva422p12be", Yuva422p12be);
  ("yuva422p12le", Yuva422p12le); ("yuva422p16be", Yuva422p16be); ("yuva422p16le", Yuva422p16le);
  ("yuva422p9be", Yuva422p9be); ("yuva422p9le", Yuva422p9le); ("yuva444p", Yuva444p);
  ("yuva444p10be", Yuva444p10be); ("yuva444p10le", Yuva444p10le); ("yuva444p12be", Yuva444p12be);
  ("yuva444p12le", Yuva444p12le); ("yuva444p16be", Yuva444p16be); ("yuva444p16le", Yuva444p16le);
  ("yuva444p9be", Yuva444p9be); ("yuva444p9le", Yuva444p9le); ("yuvj411p", Yuvj411p); ("yuvj420p", Yuvj420p);
  ("yuvj422p", Yuvj422p); ("yuvj440p", Yuvj440p); ("yuvj444p", Yuvj444p); ("yuyv422", Yuyv422);
  ("yvyu422", Yvyu422)].

Definition ENDIAN_SWAP : list (option pix_fmt) := [
  None; None; None; None; None; None; None; None; None; None; None; None; None; None; Some Yuv420p9be;
  Some Yuv420p9le; Some Yuv420p10be; Some Yuv420p10le; Some Yuv420p12be; Some Yuv420p12le; Some Yuv420p14be;
  Some Yuv420p14le; Some Yuv420p16be; Some Yuv420p16le; Some Yuv422p9be; Some Yuv422p9le; Some Yuv422p10be;
  Some Yuv422p10le; Some Yuv422p12be; Some Yuv422p12le; Some Yuv422p14be; Some Yuv422p14le; Some Yuv422p16be;
  Some Yuv422p16le; Some Yuv444p9be; Some Yuv444p9le; Some Yuv444p10be; Some Yuv444p10le; Some Yuv444p12be;
  Some Yuv444p12le; Some Yuv444p14be; Some Yuv444p14le; Some Yuv444p16be; Some Yuv444p16le; Some Yuv440p10be;
  Some Yuv440p10le; Some Yuv440p12be; Some Yuv440p12le; Some Yuv444p10msbbe; Some Yuv444p10msble;
  Some Yuv444p12msbbe; Some Yuv444p12msble; Some Yuva420p9be; Some Yuva420p9le; Some Yuva420p10be;
  Some Yuva420p10le; Some Yuva420p16be; Some Yuva420p16le; Some Yuva422p9be; Some Yuva422p9le; Some Yuva422p10be;
  Some Yuva422p10le; Some Yuva422p12be; Some Yuva422p12le; Some Yuva422p16be; Some Yuva422p16le; Some Yuva444p9be;
  Some Yuva444p9le; Some Yuva444p10be; Some Yuva444p10le; Some Yuva444p12be; Some Yuva444p12le; Some Yuva444p16be;
  Some Yuva444p16le; None; None; Some Gbrp9be; Some Gbrp9le; Some Gbrp10be; Some Gbrp10le; Some Gbrp12be;
  Some Gbrp12le; Some Gbrp14be; Some Gbrp14le; Some Gbrp16be; Some Gbrp16le; Some Gbrp10msbbe; Some Gbrp10msble;
  Some Gbrp12msbbe; Some Gbrp12msble; Some Gbrap10be; Some Gbrap10le; Some Gbrap12be; Some Gbrap12le;
  Some Gbrap14be; Some Gbrap14le; Some Gbrap16be; Some Gbrap16le; Some Gbrap32be; Some Gbrap32le; Some Gbrpf16be;
  Some Gbrpf16le; Some Gbrapf16be; Some Gbrapf16le; Some Gbrpf32be; Some Gbrpf32le; Some Gbrapf32be;
  Some Gbrapf32le; None; None; None; None; None; Some P010be; Some P010le; Some P012be; Some P012le; Some P016be;
  Some P016le; Some P210be; Some P210le; Some P212be; Some P212le; Some P216be; Some P216le; Some P410be;
  Some P410le; Some P412be; Some P412le; Some P416be; Some P416le; Some Nv20be; Some Nv20le; None; None;
  Some Gray9be; Some Gray9le; Some Gray10be; Some Gray10le; Some Gray12be; Some Gray12le; Some Gray14be;
  Some Gray14le; Some Gray16be; Some Gray16le; Some Gray32be; Some Gray32le; Some Ya16be; Some Ya16le;
  Some Grayf16be; Some Grayf16le; Some Yaf16be; Some Yaf16le; Some Grayf32be; Some Grayf32le; Some Yaf32be;
  Some Yaf32le; None; None; None; None; None; None; None; None; None; None; None; None; None; None; None; None;
  Some Rgb444be; Some Rgb444le; Some Rgb555be; Some Rgb555le; Some Rgb565be; Some Rgb565le; Some Bgr444be;
  Some Bgr444le; Some Bgr555be; Some Bgr555le; Some Bgr565be; Some Bgr565le; Some X2rgb10be; Some X2rgb10le;
  Some X2bgr10be; Some X2bgr10le; Some Rgb48be; Some Rgb48le; Some Bgr48be; Some Bgr48le; Some Rgba64be;
  Some Rgba64le; Some Bgra64be; Some Bgra64le; Some Rgb96be; Some Rgb96le; Some Rgba128be; Some Rgba128le;
  Some Rgbf16be; Some Rgbf16le; Some Rgbaf16be; Some Rgbaf16le; Some Rgbf32be; Some Rgbf32le; Some Rgbaf32be;
  Some Rgbaf32le; Some Xyz12be; Some Xyz12le; None; None; None; None; None; Some Ayuv64be; Some Ayuv64le;
  Some Xv30be; Some Xv30le; Some Xv36be; Some Xv36le; Some Xv48be; Some Xv48le; Some V30xbe; Some V30xle; None;
  None; None; None; Some BayerBggr16be; Some BayerBggr16le; Some BayerRggb16be; Some BayerRggb16le;
  Some BayerGbrg16be; Some BayerGbrg16le; Some BayerGrbg16be; Some BayerGrbg16le; None; None; None; None;
  Some Y210be; Some Y210le; Some Y212be; Some Y212le; Some Y216be; Some Y216le; None; None; None; None; None; None;
  None; None; None; None; None; None; None; None; None; None; None; None; None].

(** [table::DESCRIPTORS[self as usize]]; the index is in range for every format,
    so the default of [nth] is never returned. *)
Definition get_descriptor (f : pix_fmt) : descriptor := nth (discriminant f) DESCRIPTORS (Descriptor "" [] 0 0 0 0 0).

Definition fmt_name (f : pix_fmt) : string := name (get_descriptor f).

Definition plane_count (f : pix_fmt) : Z := planes (get_descriptor f).

Definition component_count (f : pix_fmt) : Z := zlen (components (get_descriptor f)).

Definition log2_chroma (f : pix_fmt) : Z * Z := (log2_chroma_w (get_descriptor f), log2_chroma_h (get_descriptor f)).

Definition max_depth (f : pix_fmt) : Z :=
  fold_left (fun best x => if best <? depth x then depth x else best) (components (get_descriptor f)) 0.

Definition contains (fl x : Z) : bool := Z.land fl x =? x.

Definition has (f : pix_fmt) (x : Z) : bool := contains (flags (get_descriptor f)) x.

Definition is_planar (f : pix_fmt) : bool := has f PLANAR.
Definition is_rgb (f : pix_fmt) : bool := has f RGB.
Definition has_alpha (f : pix_fmt) : bool := has f ALPHA.
Definition is_hw (f : pix_fmt) : bool := has f HW_ACCEL.
Definition is_big_endian (f : pix_fmt) : bool := has f BIG_ENDIAN.

Definition swap_endianness (f : pix_fmt) : option pix_fmt := nth (discriminant f) ENDIAN_SWAP None.

(** ** Names *)

(** [binary_search_by_key] on a slice sorted by strictly increasing keys. *)
Fixpoint search {A : Type} (fuel : nat) (l : list (string * A)) (key : string) (left right : nat) : option nat :=
  match fuel with
  | O => None
  | S fuel =>
    if (left <? right)%nat then
      let mid := Nat.div2 (left + right) in
      match l !! mid with
      | None => None
      | Some (k, _) =>
        match String.compare k key with
        | Eq => Some mid
        | Lt => search fuel l key (S mid) right
        | Gt => search fuel l key left mid
        end
      end
    else None
  end.

Definition lookup_name (s : string) : option pix_fmt :=
  i ← search (S (length NAMES_SORTED)) NAMES_SORTED s 0 (length NAMES_SORTED);
  snd <$> NAMES_SORTED !! i.

(** The suffix of the host's endianness. *)
Definition native (big : bool) : string := if big then "be" else "le".

Definition from_name (big : bool) (s : string) : result error pix_fmt :=
  match lookup_name s with
  | Some f => Ok f
  | None =>
    match lookup_name (String.append s (native big)) with
    | Some f => Ok f
    | None => Err (OptionError "pix_fmt" ("unknown pixel format `" ++ s ++ "`"))
    end
  end.

(** ** Choosing a format *)

Definition conversion_loss (f dst : pix_fmt) : Z * Z * Z * Z :=
  let colour := (3 <=? component_count f) && (component_count dst <? 3) in
  let '(sx, sy) := log2_chroma f in
  let '(dx, dy) := log2_chroma dst in
  let chroma := sat_u 8 (dx - sx) + sat_u 8 (dy - sy) in
  let depth := sat_u 8 (max_depth f - max_depth dst) in
  let alpha := has_alpha f && negb (has_alpha dst) in
  (Z.b2z colour, chroma, depth, Z.b2z alpha).

(** The derived order of a tuple. *)
Definition loss_lt (a b : Z * Z * Z * Z) : bool :=
  let '(a1, a2, a3, a4) := a in
  let '(b1, b2, b3, b4) := b in
  (a1 <? b1) || (a1 =? b1) && ((a2 <? b2) || (a2 =? b2) && ((a3 <? b3) || (a3 =? b3) && (a4 <? b4))).

(** [min_by_key]: of equal keys, the first. *)
Fixpoint min_by_loss (f best : pix_fmt) (l : list pix_fmt) : pix_fmt :=
  match l with
  | [] => best
  | x :: l => min_by_loss f (if loss_lt (conversion_loss f x) (conversion_loss f best) then x else best) l
  end.

Definition best_of (f : pix_fmt) (candidates : list pix_fmt) : option pix_fmt :=
  if bool_decide (f ∈ candidates) then Some f
  else match candidates with [] => None | x :: l => Some (min_by_loss f x l) end.

(** ** Geometry *)

Fixpoint chroma_from (i : Z) (l : list component) (p : Z) : bool :=
  match l with
  | [] => false
  | x :: l => if plane x =? p then (i =? 1) || (i =? 2) else chroma_from (i + 1) l p
  end.

Definition chroma_plane (t : descriptor) (p : Z) : bool := chroma_from 0 (components t) p.

Definition plane_width (f : pix_fmt) (width p : Z) : Z :=
  let t := get_descriptor f in
  if chroma_plane t p then
    let s := log2_chroma_w t in Z.shiftr (wrap_u 32 (width + Z.shiftl 1 s - 1)) s
  else width.

Definition plane_height (f : pix_fmt) (height p : Z) : Z :=
  let t := get_descriptor f in
  if chroma_plane t p then
    let s := log2_chroma_h t in Z.shiftr (wrap_u 32 (height + Z.shiftl 1 s - 1)) s
  else height.

(** [div_ceil] of unsigned integers. *)
Definition div_ceil (n m : Z) : Z := n / m + (if 0 <? n mod m then 1 else 0).

(** Samples of component [i] in a row: the loop of [min_stride], in [u64]. *)
Definition samples (t : descriptor) (width i : Z) : Z :=
  if (i =? 1) || (i =? 2) then
    let s := log2_chroma_w t in Z.shiftr (width + Z.shiftl 1 s - 1) s
  else width.

Fixpoint span_from (t : descriptor) (width p i span : Z) (l : list component) : Z :=
  match l with
  | [] => span
  | x :: l =>
    let span :=
      if plane x =? p then
        let this := samples t width i * step x in if span <? this then this else span
      else span in
    span_from t width p (i + 1) span l
  end.

Definition min_stride (f : pix_fmt) (width p : Z) : Z :=
  let t := get_descriptor f in
  let span := span_from t width p 0 0 (components t) in
  if contains (flags t) BITSTREAM then div_ceil span 8 else span.

Definition plane_size (f : pix_fmt) (p height stride : Z) : Z :=
  if plane_count f <=? p then 0 else sat_u 64 (plane_height f height p * stride).

Record layout : Type := PlaneLayout { strides : list Z; sizes : list Z; lplanes : Z; total : Z }.

Definition next_multiple_of (n m : Z) : Z := div_ceil n m * m.

Definition overflow : error := LimitExceeded "image buffer" (2 ^ 64 - 1) (2 ^ 64 - 1).

(** One turn of the loop of [plane_layout]. *)
Definition layout_plane (f : pix_fmt) (width height align p : Z) (out : layout) : result error layout :=
  stride ← ok_or (checked_u 64 (next_multiple_of (min_stride f width p) align)) overflow;
  size ← ok_or (checked_u 64 (stride * plane_height f height p)) overflow;
  if 4 <=? p then Err (Unsupported "more than four planes")
  else
    total ← ok_or (checked_u 64 (total out + size)) overflow;
    Ok (PlaneLayout (<[Z.to_nat p := stride]> (strides out)) (<[Z.to_nat p := size]> (sizes out)) (lplanes out) total).

Fixpoint layout_planes (f : pix_fmt) (width height align : Z) (ps : list Z) (out : layout) : result error layout :=
  match ps with
  | [] => Ok out
  | p :: ps => out ← layout_plane f width height align p out; layout_planes f width height align ps out
  end.

(** [usize::is_power_of_two]. *)
Definition is_power_of_two (n : Z) : bool := (0 <? n) && (Z.land n (n - 1) =? 0).

Definition plane_layout (f : pix_fmt) (width height align : Z) : result error layout :=
  if (align =? 0) || negb (is_power_of_two align) then
    Err (OptionError "align" ("must be a power of two, got " ++ pretty align))
  else
    layout_planes f width height align (seqZ 0 (plane_count f)) (PlaneLayout [0; 0; 0; 0] [0; 0; 0; 0] (plane_count f) 0).

(** ** Every format *)

Lemma all_formats f : ALL !! discriminant f = Some f.
Proof. by destruct f. Qed.

(** What holds of every entry of the table holds of every format. *)
Lemma for_all_formats (P : pix_fmt -> bool) : forallb P ALL = true -> forall f, P f = true.
Proof.
  intros H f. pose proof (proj1 (forallb_forall P ALL) H) as Hin. apply Hin, list_elem_of_In.
  apply (list_elem_of_lookup_2 _ _ _ (all_formats f)).
Qed.

(** ** Names *)

Definition key_lt (a b : string) : Prop := String.compare a b = Lt.

Lemma key_lt_trans a b c : key_lt a b -> key_lt b c -> key_lt a c.
Proof. apply (StrictOrder_Transitive (R := String_as_OT.lt)). Qed.

Lemma key_lt_irrefl a : ~ key_lt a a.
Proof. apply (StrictOrder_Irreflexive (R := String_as_OT.lt)). Qed.

Lemma key_gt a b : String.compare a b = Gt -> key_lt b a.
Proof. intros H. unfold key_lt. by rewrite String.compare_antisym, H. Qed.

Fixpoint sorted_keys {A : Type} (l : list (string * A)) : bool :=
  match l with
  | [] => true
  | (k1, _) :: l =>
    match l with
    | [] => true
    | (k2, _) :: _ => match String.compare k1 k2 with Lt => true | _ => false end
    end && sorted_keys l
  end.

Lemma sorted_keys_lt {A : Type} (l : list (string * A)) i j x y :
  sorted_keys l = true -> l !! i = Some x -> l !! j = Some y -> (i < j)%nat -> key_lt (fst x) (fst y).
Proof.
  revert i j x y. induction l as [|[k a] l IH]; intros i j x y Hs Hi Hj Hij; [done|].
  cbn [sorted_keys] in Hs. apply andb_true_iff in Hs as [H1 Hs]. destruct j as [|j]; [lia|]. cbn in Hj.
  destruct i as [|i]; [|apply (IH i j x y); (done || lia)]. injection Hi as <-.
  destruct l as [|[k2 a2] l]; [done|]. assert (key_lt k k2) as Hk by (unfold key_lt; by destruct (String.compare k k2)).
  destruct j as [|j]; [by injection Hj as <-|]. eapply key_lt_trans; [exact Hk|]. apply (IH 0%nat (S j) (k2, a2) y); (done || lia).
Qed.

(** The search finds the one entry of a key, and nothing else. *)
Lemma search_spec {A : Type} (l : list (string * A)) key fuel left right :
  sorted_keys l = true -> (right <= length l)%nat -> (right - left < fuel)%nat ->
  match search fuel l key left right with
  | Some i => exists x, l !! i = Some (key, x)
  | None => forall i x, l !! i = Some (key, x) -> (i < left \/ right <= i)%nat
  end.
Proof.
  intros Hs. revert left right. induction fuel as [|fuel IH]; intros left right Hr Hf; [lia|]. cbn [search].
  destruct (Nat.ltb_spec left right) as [Hlt|]; [|intros; lia]. cbv zeta. set (mid := Nat.div2 (left + right)).
  assert (left <= mid < right)%nat as Hmid by (unfold mid; rewrite Nat.div2_div; split; [apply Nat.div_le_lower_bound|apply Nat.Div0.div_lt_upper_bound]; lia).
  destruct (lookup_lt_is_Some_2 l mid ltac:(lia)) as [[k v] Ek]. rewrite Ek. destruct (String.compare k key) eqn:Ec.
  - apply String.compare_eq_iff in Ec as ->. by exists v.
  - specialize (IH (S mid) right Hr ltac:(lia)). destruct (search fuel l key (S mid) right); [done|].
    intros i x Hi. destruct (IH i x Hi) as [H|]; [|lia]. left. destruct (decide (i < left)%nat); [done|]. exfalso.
    destruct (decide (i = mid)) as [->|]; [rewrite Hi in Ek; injection Ek as <- _; by apply key_lt_irrefl in Ec|].
    apply (key_lt_irrefl key). eapply key_lt_trans; [|exact Ec]. apply (sorted_keys_lt l i mid (key, x) (k, v)); (done || lia).
  - specialize (IH left mid ltac:(lia) ltac:(lia)). destruct (search fuel l key left mid); [done|].
    intros i x Hi. destruct (IH i x Hi) as [|H]; [lia|]. right. destruct (decide (right <= i)%nat); [done|]. exfalso. apply key_gt in Ec.
    destruct (decide (i = mid)) as [->|]; [rewrite Hi in Ek; injection Ek as <- _; by apply key_lt_irrefl in Ec|].
    apply (key_lt_irrefl key). eapply key_lt_trans; [exact Ec|]. apply (sorted_keys_lt l mid i (k, v) (key, x)); (done || lia).
Qed.

Lemma names_sorted : sorted_keys NAMES_SORTED = true.
Proof. vm_compute. reflexivity. Qed.

Lemma lookup_name_spec s f : lookup_name s = Some f <-> (s, f) ∈ NAMES_SORTED.
Proof.
  pose proof (search_spec NAMES_SORTED s (S (length NAMES_SORTED)) 0 (length NAMES_SORTED) names_sorted ltac:(lia) ltac:(lia)) as H.
  unfold lookup_name. rewrite list_elem_of_lookup. destruct (search _ _ _ _ _) as [i|].
  - destruct H as [x Hi]. change (mbind _ (Some i)) with (snd <$> NAMES_SORTED !! i). rewrite Hi. cbn. split.
    + intros [= ->]. by exists i.
    + intros [j Hj]. destruct (Nat.lt_trichotomy i j) as [Hl|[->|Hl]].
      * exfalso. apply (key_lt_irrefl s), (sorted_keys_lt _ _ _ _ _ names_sorted Hi Hj Hl).
      * rewrite Hi in Hj. by injection Hj as ->.
      * exfalso. apply (key_lt_irrefl s), (sorted_keys_lt _ _ _ _ _ names_sorted Hj Hi Hl).
  - split; [done|]. intros [i Hi]. pose proof (lookup_lt_Some _ _ _ Hi). destruct (H i f Hi); lia.
Qed.

Lemma canonical_name_listed f : (fmt_name f, f) ∈ NAMES_SORTED.
Proof.
  apply lookup_name_spec. enough ((if decide (lookup_name (fmt_name f) = Some f) then true else false) = true) as H by by case_decide.
  revert f. apply for_all_formats. vm_compute. reflexivity.
Qed.

(** Names resolve by the table, and only by it. A name is accepted exactly
    when it is listed or, not being listed itself, is listed with the host's
    endianness suffix; every canonical name gives its own format on every host;
    anything else is refused with an error that quotes it. *)
Theorem names_resolve big s :
  (forall f, fmt_name f = s -> from_name big s = Ok f) /\
  (forall f, from_name big s = Ok f <->
     (s, f) ∈ NAMES_SORTED \/ (forall g, (s, g) ∉ NAMES_SORTED) /\ (String.append s (native big), f) ∈ NAMES_SORTED) /\
  (forall e, from_name big s = Err e <->
     e = OptionError "pix_fmt" ("unknown pixel format `" ++ s ++ "`") /\
     forall g, ((s, g) ∉ NAMES_SORTED) /\ (String.append s (native big), g) ∉ NAMES_SORTED).
Proof.
  assert (forall t, (lookup_name t = None) <-> forall g, (t, g) ∉ NAMES_SORTED) as Hnone.
  { intros t. split.
    - intros E g Hg. apply lookup_name_spec in Hg. by rewrite E in Hg.
    - intros Hn. destruct (lookup_name t) as [g|] eqn:E; [|done]. apply lookup_name_spec in E. by destruct (Hn g). }
  split; [|split].
  - intros f <-. unfold from_name. by rewrite (proj2 (lookup_name_spec _ f) (canonical_name_listed f)).
  - intros f. rewrite <- Hnone, <- !lookup_name_spec. unfold from_name. destruct (lookup_name s) as [g|].
    + split; [intros [= ->]; by left|]. intros [[= ->]|[? _]]; done.
    + destruct (lookup_name (String.append s (native big))) as [g|].
      * split; [intros [= ->]; by right|]. intros [?|[_ [= ->]]]; done.
      * split; [done|]. intros [?|[_ ?]]; done.
  - intros e. assert ((forall g, ((s, g) ∉ NAMES_SORTED) /\ (String.append s (native big), g) ∉ NAMES_SORTED) <->
      lookup_name s = None /\ lookup_name (String.append s (native big)) = None) as -> by (rewrite !Hnone; naive_solver).
    unfold from_name. destruct (lookup_name s) as [g|]; [naive_solver|].
    destruct (lookup_name (String.append s (native big))) as [g|]; naive_solver.
Qed.

(** ** Endian siblings *)

Definition be_name (s : string) : bool := bool_decide (String.substring (String.length s - 2) 2 s = "be").
Definition stem (s : string) : string := String.substring 0 (String.length s - 2) s.

(** What a table entry and its sibling owe each other. *)
Definition siblings (f g : pix_fmt) : Prop :=
  f <> g /\ swap_endianness g = Some f /\
  components (get_descriptor f) = components (get_descriptor g) /\ plane_count f = plane_count g /\
  bits_per_pixel (get_descriptor f) = bits_per_pixel (get_descriptor g) /\ log2_chroma f = log2_chroma g /\
  Z.lxor (flags (get_descriptor f)) (flags (get_descriptor g)) = BIG_ENDIAN /\
  fmt_name f = String.append (stem (fmt_name f)) (native (is_big_endian f)) /\ stem (fmt_name g) = stem (fmt_name f) /\
  from_name (is_big_endian f) (stem (fmt_name f)) = Ok f.

#[export] Instance siblings_dec f g : Decision (siblings f g).
Proof. unfold siblings. apply _. Defined.

(** The two members of an endian pair differ in byte order and in nothing
    else. Swapping is an involution without fixed points; the siblings have the
    same components, planes, decimation and bits per pixel, their flags differ in
    BIG_ENDIAN alone, their names in the suffix alone; and the name without a
    suffix resolves to the member of the host's order. *)
Theorem endian_siblings f g : swap_endianness f = Some g -> siblings f g.
Proof.
  intros E. assert (match swap_endianness f with Some g => bool_decide (siblings f g) | None => true end = true) as H.
  { clear E. revert f. apply for_all_formats. vm_compute. reflexivity. }
  rewrite E in H. by apply bool_decide_eq_true in H.
Qed.

(** ** Choosing *)

(** [a] costs no more than [b]. *)
Definition loss_le (a b : Z * Z * Z * Z) : Prop := loss_lt b a = false.

Lemma loss_lt_spec a1 a2 a3 a4 b1 b2 b3 b4 :
  loss_lt (a1, a2, a3, a4) (b1, b2, b3, b4) = true <->
  a1 < b1 \/ a1 = b1 /\ (a2 < b2 \/ a2 = b2 /\ (a3 < b3 \/ a3 = b3 /\ a4 < b4)).
Proof. unfold loss_lt. rewrite !orb_true_iff, !andb_true_iff, !orb_true_iff, !andb_true_iff, !orb_true_iff, !andb_true_iff, !Z.ltb_lt, !Z.eqb_eq. done. Qed.

#[export] Instance loss_le_preorder : PreOrder loss_le.
Proof.
  unfold loss_le. split.
  - intros [[[a1 a2] a3] a4]. apply not_true_iff_false. rewrite loss_lt_spec. lia.
  - intros [[[a1 a2] a3] a4] [[[b1 b2] b3] b4] [[[c1 c2] c3] c4]. rewrite <- !not_true_iff_false, !loss_lt_spec. lia.
Qed.

Lemma loss_lt_le a b : loss_lt a b = true -> loss_le a b.
Proof.
  destruct a as [[[a1 a2] a3] a4], b as [[[b1 b2] b3] b4]. unfold loss_le. rewrite <- not_true_iff_false, !loss_lt_spec. lia.
Qed.

Lemma loss_lt_le_trans a b c : loss_lt a b = true -> loss_le b c -> loss_lt a c = true.
Proof.
  destruct a as [[[a1 a2] a3] a4], b as [[[b1 b2] b3] b4], c as [[[c1 c2] c3] c4].
  unfold loss_le. rewrite <- not_true_iff_false, !loss_lt_spec. lia.
Qed.

(** The running minimum: the result is one of the formats seen, costs no more
    than any of them, and strictly less than each one before it. *)
Lemma min_by_loss_spec f l best :
  let m := min_by_loss f best l in
  (m ∈ best :: l) /\ Forall (fun x => loss_le (conversion_loss f m) (conversion_loss f x)) (best :: l) /\
  exists before after, best :: l = before ++ m :: after /\
    Forall (fun x => loss_lt (conversion_loss f m) (conversion_loss f x) = true) before.
Proof.
  revert best. induction l as [|x l IH]; intros best; cbn [min_by_loss]; cbv zeta.
  { split; [left|]. split; [repeat constructor; reflexivity|]. by exists [], []. }
  destruct (loss_lt (conversion_loss f x) (conversion_loss f best)) eqn:E; cbv zeta in IH.
  - destruct (IH x) as (Hin & Hall & bf & af & Es & Hbf). set (m := min_by_loss f x l) in *. split; [by right|].
    pose proof (Forall_inv Hall) as Hx. split; [constructor; [|done]; etrans; [exact Hx|by apply loss_lt_le]|].
    exists (best :: bf), af. split; [by rewrite Es|]. constructor; [|done].
    destruct (loss_lt (conversion_loss f m) (conversion_loss f best)) eqn:Em; [done|]. exfalso.
    assert (loss_le (conversion_loss f best) (conversion_loss f x)) as H by (etrans; [exact Em|exact Hx]). unfold loss_le in H. congruence.
  - destruct (IH best) as (Hin & Hall & bf & af & Es & Hbf). set (m := min_by_loss f best l) in *.
    apply Forall_cons in Hall as [Hb Hall]. split; [apply elem_of_cons in Hin as [->|]; [left|by do 2 right]|].
    split.
    { constructor; [done|]. constructor; [|done]. etrans; [exact Hb|exact E]. }
    destruct bf as [|b bf]; injection Es as Eb Es.
    + exists [], (x :: l). by rewrite Eb.
    + apply Forall_cons in Hbf as [Hb' Hbf]. subst b. exists (best :: x :: bf), af. split; [by rewrite Es|].
      constructor; [done|]. constructor; [|done]. by eapply loss_lt_le_trans.
Qed.

(** The cheapest conversion. [best_of] offers a candidate whenever there is
    one: the format itself if it is among them, and otherwise one whose loss - the
    colours, chroma resolution, depth and alpha it drops, in this order - is least,
    the earliest of equals. *)
Theorem best_of_cheapest f cs :
  match best_of f cs with
  | None => cs = []
  | Some m =>
    (m ∈ cs) /\ (f ∈ cs -> m = f) /\
    (f ∉ cs -> Forall (fun x => loss_le (conversion_loss f m) (conversion_loss f x)) cs /\
       exists before after, cs = before ++ m :: after /\
         Forall (fun x => loss_lt (conversion_loss f m) (conversion_loss f x) = true) before)
  end.
Proof.
  unfold best_of. case_bool_decide as Hin; [done|]. destruct cs as [|x l]; [done|].
  destruct (min_by_loss_spec f l x) as (H1 & H2 & H3). split; [done|]. split; [done|]. done.
Qed.

(** ** Geometry of every format *)

#[global] Strategy 1000 [get_descriptor DESCRIPTORS discriminant plane_height min_stride].

(** What every entry of the table keeps: the components name planes in range,
    decimate by at most 4, and in each plane the widest step of the plane reaches
    the end of every component's sample. *)
Definition extent (t : descriptor) (x : component) : Z :=
  if contains (flags t) BITSTREAM then shift x + depth x else div_ceil (shift x + depth x) 8.

Definition decimated (i : nat) : bool := (Z.of_nat i =? 1) || (Z.of_nat i =? 2).

(** Component [j] spans the samples of component [i] of its plane. *)
Definition covers (t : descriptor) (i : nat) (x : component) (j : nat) (y : component) : bool :=
  let k := if decimated j && negb (decimated i) then 2 ^ log2_chroma_w t else 1 in
  (plane x =? plane y) && (k * step x + Z.max 0 (offset x + extent t x - step x) <=? step y).

Definition component_ok (t : descriptor) (i : nat) (x : component) : bool :=
  (0 <=? plane x) && (plane x <? planes t) && (0 <=? step x) && (0 <=? offset x) && (0 <=? shift x) && (1 <=? depth x) &&
  existsb (fun jy => covers t i x (fst jy) (snd jy)) (imap (fun j y => (j, y)) (components t)).

Definition descriptor_ok (t : descriptor) : bool :=
  (0 <=? planes t) && (planes t <=? 4) && (0 <=? log2_chroma_w t) && (log2_chroma_w t <=? 2) &&
  (0 <=? log2_chroma_h t) && (log2_chroma_h t <=? 2) && (0 <=? bits_per_pixel t) &&
  forallb (fun ix => component_ok t (fst ix) (snd ix)) (imap (fun i x => (i, x)) (components t)).

Lemma table_ok f : descriptor_ok (get_descriptor f) = true.
Proof. revert f. apply for_all_formats. vm_compute. reflexivity. Qed.

(** [extent] and [step] in a plane, for dimensions: the samples of a row. *)
Lemma samples_bounds t w j i :
  0 <= log2_chroma_w t -> 1 <= w ->
  1 <= samples t w (Z.of_nat j) /\
  samples t w (Z.of_nat i) <= (if decimated j && negb (decimated i) then 2 ^ log2_chroma_w t else 1) * samples t w (Z.of_nat j).
Proof.
  intros Hs Hw. unfold samples, decimated. set (s := log2_chroma_w t) in *. cbv zeta. rewrite Z.shiftl_1_l.
  assert (0 < 2 ^ s) as Hp by (apply Z.pow_pos_nonneg; lia). rewrite Z.shiftr_div_pow2 by done.
  assert (1 <= (w + 2 ^ s - 1) / 2 ^ s) as H1 by (apply Z.div_le_lower_bound; lia).
  assert (w <= 2 ^ s * ((w + 2 ^ s - 1) / 2 ^ s)) as H2 by (pose proof (Z.mul_succ_div_gt (w + 2 ^ s - 1) (2 ^ s)); lia).
  assert ((w + 2 ^ s - 1) / 2 ^ s <= w) as H3 by (apply Z.div_le_upper_bound; nia).
  destruct ((Z.of_nat j =? 1) || (Z.of_nat j =? 2)), ((Z.of_nat i =? 1) || (Z.of_nat i =? 2)); cbn [andb negb]; lia.
Qed.

(** The loop of [min_stride] takes the maximum over the plane. *)
Lemma span_from_spec t w p i sp l :
  sp <= span_from t w p i sp l /\
  forall k x, l !! k = Some x -> plane x = p -> samples t w (i + Z.of_nat k) * step x <= span_from t w p i sp l.
Proof.
  revert i sp. induction l as [|y l IH]; intros i sp; cbn [span_from]; cbv zeta; [split; [lia|by intros]|].
  set (sp' := if plane y =? p then _ else sp). destruct (IH (i + 1) sp') as [H1 H2].
  assert (sp <= sp') as H3 by (unfold sp'; destruct (plane y =? p); [|lia]; destruct (Z.ltb_spec sp (samples t w i * step y)); lia).
  split; [lia|]. intros k x Hx Hp. destruct k as [|k].
  - injection Hx as <-. rewrite Z.add_0_r. etrans; [|exact H1]. unfold sp'. rewrite Hp, Z.eqb_refl.
    destruct (Z.ltb_spec sp (samples t w i * step y)); lia.
  - specialize (H2 k x Hx Hp). replace (i + Z.of_nat (S k)) with (i + 1 + Z.of_nat k) by lia. done.
Qed.

Lemma div_ceil_ge n m : 0 < m -> n <= div_ceil n m * m.
Proof.
  intros Hm. unfold div_ceil. pose proof (Z.div_mod n m ltac:(lia)). pose proof (Z.mod_pos_bound n m Hm).
  destruct (Z.ltb_spec 0 (n mod m)); nia.
Qed.

Lemma component_in_table f i x : components (get_descriptor f) !! i = Some x -> component_ok (get_descriptor f) i x = true.
Proof.
  intros Hx. pose proof (table_ok f) as Hok. unfold descriptor_ok in Hok. rewrite andb_true_iff in Hok. destruct Hok as [_ Hc].
  rewrite forallb_forall in Hc. apply (Hc (i, x)), list_elem_of_In, list_elem_of_lookup. exists i. by rewrite list_lookup_imap, Hx.
Qed.

(** The last bit of a sample lies inside the row. *)
Lemma sample_in_row f w i x col :
  1 <= w -> components (get_descriptor f) !! i = Some x -> 0 <= col < samples (get_descriptor f) w (Z.of_nat i) ->
  let t := get_descriptor f in
  col * step x + offset x + extent t x <= (if contains (flags t) BITSTREAM then 8 else 1) * min_stride f w (plane x).
Proof.
  intros Hw Hx Hcol t. pose proof (table_ok f) as Hok. fold t in Hok, Hx, Hcol. unfold descriptor_ok in Hok.
  rewrite !andb_true_iff in Hok. destruct Hok as [[[[[[[_ _] Hs] _] _] _] _] _]. apply Z.leb_le in Hs.
  pose proof (component_in_table f i x Hx) as Hok. fold t in Hok.
  unfold component_ok in Hok. rewrite !andb_true_iff in Hok. destruct Hok as [[[[[[_ _] Hst] _] _] _] Hex]. apply Z.leb_le in Hst.
  apply existsb_exists in Hex as ([j y] & Hin & Hcov). apply list_elem_of_In, list_elem_of_lookup in Hin as [j' Hj].
  rewrite list_lookup_imap in Hj. destruct (components t !! j') as [y'|] eqn:Ey; [|done]. injection Hj as -> ->. cbn [fst snd] in Hcov.
  unfold covers in Hcov. cbv zeta in Hcov. apply andb_true_iff in Hcov as [Hp Hcov]. apply Z.eqb_eq in Hp. apply Z.leb_le in Hcov.
  destruct (samples_bounds t w j i Hs Hw) as [Hj1 Hj2]. set (k := if decimated j && negb (decimated i) then _ else 1) in *.
  pose proof (proj2 (span_from_spec t w (plane x) 0 0 (components t)) j y Ey (eq_sym Hp)) as Hspan. rewrite Z.add_0_l in Hspan.
  set (sp := span_from t w (plane x) 0 0 (components t)) in *.
  assert (col * step x + offset x + extent t x <= sp) as Hle.
  { set (n := samples t w (Z.of_nat j)) in *. set (a := step x) in *. set (e := Z.max 0 (offset x + extent t x - a)) in *.
    assert (offset x + extent t x <= a + e) by lia. assert (col * a + a <= k * n * a) by nia. assert (0 <= e) by lia.
    assert (n * (k * a + e) <= n * step y) by nia. nia. }
  unfold min_stride. fold t. fold sp. destruct (contains (flags t) BITSTREAM); [|lia]. pose proof (div_ceil_ge sp 8 ltac:(lia)). lia.
Qed.

(** What the layout of a plane should be. *)
Definition stride_of (f : pix_fmt) (w align p : Z) : Z := next_multiple_of (min_stride f w p) align.
Definition size_of (f : pix_fmt) (w h align p : Z) : Z := stride_of f w align p * plane_height f h p.

Definition sum_sizes (f : pix_fmt) (w h align : Z) (ps : list Z) : Z := fold_right (fun p n => size_of f w h align p + n) 0 ps.

Lemma min_stride_nonneg f w p : 0 <= min_stride f w p.
Proof.
  unfold min_stride. cbv zeta. pose proof (proj1 (span_from_spec (get_descriptor f) w p 0 0 (components (get_descriptor f)))) as H.
  destruct (contains _ _); [|done]. unfold div_ceil. pose proof (Z.div_pos _ 8 H). destruct (0 <? _); lia.
Qed.

Lemma plane_height_nonneg f h p : 0 <= h -> 0 <= plane_height f h p.
Proof.
  intros Hh. unfold plane_height. cbv zeta. destruct (chroma_plane _ p); [|done]. apply Z.shiftr_nonneg, wrap_u_range. lia.
Qed.

Lemma stride_of_spec f w align p : 0 < align ->
  stride_of f w align p mod align = 0 /\ min_stride f w p <= stride_of f w align p < min_stride f w p + align.
Proof.
  intros Ha. unfold stride_of, next_multiple_of. rewrite Z.mod_mul by lia. split; [done|]. split; [by apply div_ceil_ge|].
  unfold div_ceil. pose proof (Z.div_mod (min_stride f w p) align ltac:(lia)). pose proof (Z.mod_pos_bound (min_stride f w p) align Ha).
  destruct (Z.ltb_spec 0 (min_stride f w p mod align)); nia.
Qed.

Lemma size_of_nonneg f w h align p : 0 < align -> 0 <= h -> 0 <= size_of f w h align p.
Proof.
  intros Ha Hh. unfold size_of. pose proof (stride_of_spec f w align p Ha). pose proof (min_stride_nonneg f w p).
  pose proof (plane_height_nonneg f h p Hh). nia.
Qed.

Lemma sum_sizes_nonneg f w h align ps : 0 < align -> 0 <= h -> 0 <= sum_sizes f w h align ps.
Proof. intros Ha Hh. induction ps as [|p ps IH]; [done|]. change (0 <= size_of f w h align p + sum_sizes f w h align ps). pose proof (size_of_nonneg f w h align p Ha Hh). lia. Qed.

Lemma checked_u_ok {E : Type} w z (e : E) : 0 <= z -> ok_or (checked_u w z) e = if z <? 2 ^ w then Ok z else Err e.
Proof.
  intros Hz. unfold checked_u, in_u. rewrite (proj2 (Z.leb_le 0 z)) by done. cbn [andb]. by destruct (z <? 2 ^ w).
Qed.

(** One plane: it is refused exactly when a product or the total leaves 64 bits. *)
Lemma layout_plane_spec f w h align p out :
  0 < align -> 0 <= h -> 0 <= p < 4 -> 0 <= total out ->
  layout_plane f w h align p out =
    if (stride_of f w align p <? 2 ^ 64) && (total out + size_of f w h align p <? 2 ^ 64) then
      Ok (PlaneLayout (<[Z.to_nat p := stride_of f w align p]> (strides out)) (<[Z.to_nat p := size_of f w h align p]> (sizes out))
            (lplanes out) (total out + size_of f w h align p))
    else Err overflow.
Proof.
  intros Ha Hh Hp Ht. pose proof (stride_of_spec f w align p Ha) as Hst. pose proof (min_stride_nonneg f w p) as Hm.
  pose proof (size_of_nonneg f w h align p Ha Hh) as Hs. unfold layout_plane, size_of, stride_of in *.
  generalize dependent (next_multiple_of (min_stride f w p) align). generalize dependent (min_stride f w p).
  generalize (plane_height f h p). intros rows m Hm st Hst Hs.
  rewrite checked_u_ok by lia. destruct (Z.ltb_spec st (2 ^ 64)); [|done]. cbn [andb mbind result_bind].
  rewrite checked_u_ok by lia. rewrite (proj2 (Z.leb_gt 4 p)) by lia.
  destruct (Z.ltb_spec (st * rows) (2 ^ 64)); cbn [mbind result_bind].
  - rewrite checked_u_ok by lia. by destruct (total out + st * rows <? 2 ^ 64).
  - by rewrite (proj2 (Z.ltb_ge _ _)) by lia.
Qed.

Lemma layout_planes_spec f w h align n k out :
  0 < align -> 0 <= h -> 0 <= k -> k + Z.of_nat n <= 4 -> 0 <= total out < 2 ^ 64 -> length (strides out) = 4%nat -> length (sizes out) = 4%nat ->
  match layout_planes f w h align (seqZ k (Z.of_nat n)) out with
  | Ok l => lplanes l = lplanes out /\ total l = total out + sum_sizes f w h align (seqZ k (Z.of_nat n)) /\ total l < 2 ^ 64 /\
      (forall p, k <= p < k + Z.of_nat n -> strides l !! Z.to_nat p = Some (stride_of f w align p) /\
         sizes l !! Z.to_nat p = Some (size_of f w h align p) /\ stride_of f w align p < 2 ^ 64) /\
      (forall p, 0 <= p -> ~ k <= p < k + Z.of_nat n -> strides l !! Z.to_nat p = strides out !! Z.to_nat p /\
         sizes l !! Z.to_nat p = sizes out !! Z.to_nat p)
  | Err e => e = overflow /\ ((exists p, k <= p < k + Z.of_nat n /\ 2 ^ 64 <= stride_of f w align p) \/
      2 ^ 64 <= total out + sum_sizes f w h align (seqZ k (Z.of_nat n)))
  end.
Proof.
  intros Ha Hh. revert k out. induction n as [|n IH]; intros k out Hk Hn Ht Hs1 Hs2.
  { rewrite seqZ_nil by lia. cbn. repeat split; try lia. }
  rewrite seqZ_cons by lia. replace (Z.pred (Z.of_nat (S n))) with (Z.of_nat n) by lia. cbn [layout_planes].
  rewrite layout_plane_spec by lia. set (st := stride_of f w align k). set (sz := size_of f w h align k).
  cbn [sum_sizes fold_right]. fold (sum_sizes f w h align (seqZ (Z.succ k) (Z.of_nat n))). fold sz.
  pose proof (sum_sizes_nonneg f w h align (seqZ (Z.succ k) (Z.of_nat n)) Ha Hh).
  pose proof (size_of_nonneg f w h align k Ha Hh) as Hsz. fold sz in Hsz.
  destruct (Z.ltb_spec st (2 ^ 64)) as [H1|H1]; cbn [andb]; [|split; [done|]; left; exists k; fold st; lia].
  destruct (Z.ltb_spec (total out + sz) (2 ^ 64)) as [H2|H2]; [|split; [done|]; right; lia]. cbn [mbind result_bind].
  set (out' := PlaneLayout _ _ _ _).
  specialize (IH (Z.succ k) out' ltac:(lia) ltac:(lia) ltac:(cbn; lia) ltac:(by cbn; rewrite length_insert) ltac:(by cbn; rewrite length_insert)).
  destruct (layout_planes f w h align (seqZ (Z.succ k) (Z.of_nat n)) out') as [l|e].
  - destruct IH as (I1 & I2 & I3 & I4 & I5). cbn [total lplanes strides sizes out'] in I1, I2, I5. split; [done|]. split; [lia|]. split; [done|]. split.
    + intros p Hp. destruct (decide (p = k)) as [->|Hne]; [|apply I4; lia]. destruct (I5 k Hk ltac:(lia)) as [-> ->].
      rewrite !list_lookup_insert_eq by lia. done.
    + intros p Hp0 Hp. destruct (I5 p Hp0 ltac:(lia)) as [-> ->]. rewrite !list_lookup_insert_ne by lia. done.
  - destruct IH as [-> [(p & Hp & Hle)|Hle]]; (split; [done|]).
    + left. exists p. lia.
    + right. cbn [total out'] in Hle. lia.
Qed.

Lemma plane_count_range f : 0 <= plane_count f <= 4.
Proof.
  pose proof (table_ok f) as H. unfold descriptor_ok in H. rewrite !andb_true_iff in H.
  destruct H as [[[[[[[H1 H2] _] _] _] _] _] _]. apply Z.leb_le in H1, H2. by split.
Qed.

(** The planes of an accepted layout. *)
Lemma plane_layout_planes f w h align : 0 <= h ->
  match plane_layout f w h align with
  | Ok l => lplanes l = plane_count f /\ sum_sizes f w h align (seqZ 0 (plane_count f)) < 2 ^ 64 /\ forall p, 0 <= p < plane_count f ->
      strides l !! Z.to_nat p = Some (stride_of f w align p) /\ sizes l !! Z.to_nat p = Some (size_of f w h align p)
  | Err e => is_power_of_two align = true -> e = overflow
  end.
Proof.
  intros Hh. unfold plane_layout. destruct (is_power_of_two align) eqn:Ep; [|by rewrite orb_true_r].
  assert (0 < align) as Ha by (unfold is_power_of_two in Ep; lia). rewrite (proj2 (Z.eqb_neq align 0)) by lia. cbn [orb negb].
  pose proof (plane_count_range f) as Hc. set (out := PlaneLayout _ _ _ _).
  pose proof (layout_planes_spec f w h align (Z.to_nat (plane_count f)) 0 out Ha Hh ltac:(lia) ltac:(lia) ltac:(cbn; lia) eq_refl eq_refl) as H.
  rewrite Z2Nat.id in H by lia. destruct (layout_planes f w h align (seqZ 0 (plane_count f)) out) as [l|e]; [|by destruct H as [-> _]].
  destruct H as (H1 & H2 & H3 & H4 & _). split; [done|]. split; [cbn [total out] in H2; lia|]. intros p Hp. destruct (H4 p ltac:(lia)) as (? & ? & _). done.
Qed.

Lemma plane_layout_align f w h align l : plane_layout f w h align = Ok l -> 0 < align.
Proof.
  unfold plane_layout. destruct (is_power_of_two align) eqn:Ep; [|by rewrite orb_true_r].
  intros _. unfold is_power_of_two in Ep. lia.
Qed.

(** The layout of a frame. For every format and all dimensions, the layout is
    refused exactly when the alignment is not a power of two, or a stride or the
    total size leaves 64 bits; otherwise each plane's stride is the least multiple
    of the alignment that holds a row, its size is the stride times the plane's
    rows, and the total is the sum of the sizes. *)
Theorem plane_layout_exact f w h align :
  0 <= h ->
  match plane_layout f w h align with
  | Ok l =>
    is_power_of_two align = true /\ lplanes l = plane_count f /\
    total l = sum_sizes f w h align (seqZ 0 (plane_count f)) /\ total l < 2 ^ 64 /\
    forall p, 0 <= p < plane_count f ->
      exists st, strides l !! Z.to_nat p = Some st /\ sizes l !! Z.to_nat p = Some (st * plane_height f h p) /\
        st mod align = 0 /\ min_stride f w p <= st < min_stride f w p + align /\ st < 2 ^ 64
  | Err e =>
    (is_power_of_two align = false /\ e = OptionError "align" ("must be a power of two, got " ++ pretty align)) \/
    (is_power_of_two align = true /\ e = overflow /\
     ((exists p, 0 <= p < plane_count f /\ 2 ^ 64 <= stride_of f w align p) \/
      2 ^ 64 <= sum_sizes f w h align (seqZ 0 (plane_count f))))
  end.
Proof.
  intros Hh. unfold plane_layout. destruct (is_power_of_two align) eqn:Ep.
  - assert (0 < align) as Ha by (unfold is_power_of_two in Ep; lia). rewrite (proj2 (Z.eqb_neq align 0)) by lia. cbn [orb negb].
    pose proof (plane_count_range f) as Hc. set (out := PlaneLayout _ _ _ _).
    pose proof (layout_planes_spec f w h align (Z.to_nat (plane_count f)) 0 out Ha Hh ltac:(lia) ltac:(lia) ltac:(cbn; lia) eq_refl eq_refl) as H.
    rewrite Z2Nat.id, !Z.add_0_l in H by lia. destruct (layout_planes f w h align (seqZ 0 (plane_count f)) out) as [l|e].
    + destruct H as (H1 & H2 & H3 & H4 & _). split; [done|]. split; [done|]. split; [done|]. split; [done|].
      intros p Hp. destruct (H4 p Hp) as (Hst & Hsz & Hb). exists (stride_of f w align p). split; [done|]. split; [done|].
      destruct (stride_of_spec f w align p Ha) as [? [? ?]]. by split_and!.
    + destruct H as [-> H]. right. split; [done|]. split; [done|]. exact H.
  - rewrite orb_true_r. left. done.
Qed.


(** The rows of a chroma plane are computed in 32 bits: for the tallest frames the
    sum wraps, the plane is laid out with no rows at all and the layout succeeds
    (a debug build panics). *)
Lemma tall_chroma_wraps :
  match plane_layout Yuv420p 16 (2 ^ 32 - 1) 64 with
  | Ok l => strides l = [64; 64; 64; 0] /\ sizes l = [64 * (2 ^ 32 - 1); 0; 0; 0]
  | Err _ => False
  end.
Proof. vm_compute. split; reflexivity. Qed.

(** ** At concrete inputs *)

Lemma plane_layout_exact_witness :
  exists l, plane_layout Yuv420p 1921 1081 64 = Ok l /\ strides l = [1984; 1024; 1024; 0] /\ total l < 2 ^ 64 /\
    exists st, strides l !! 1%nat = Some st /\ min_stride Yuv420p 1921 1 <= st.
Proof.
  pose proof (plane_layout_exact Yuv420p 1921 1081 64 ltac:(lia)) as H.
  destruct (plane_layout Yuv420p 1921 1081 64) as [l|e] eqn:E; [|by vm_compute in E].
  exists l. split; [done|]. split; [vm_compute in E; injection E as <-; reflexivity|].
  destruct H as (_ & _ & _ & H1 & H2). split; [exact H1|]. destruct (H2 1 ltac:(vm_compute; split; congruence)) as (st & Hst & _ & _ & Hm & _).
  exists st. split; [exact Hst|exact (proj1 Hm)].
Defined.


Lemma endian_siblings_witness : swap_endianness P010be = Some P010le /\ siblings P010be P010le.
Proof. split; [vm_compute; reflexivity|]. apply endian_siblings. vm_compute. reflexivity. Defined.
