(* ===== verification/Media.v ===== *)
(** * Media: buffers, packets and frames

    [src/crates/model]: the byte buffers of [vaco-pool] ([aligned.rs],
    [buffer.rs]), the packets of [vaco-packet] and the video frames of
    [vaco-frame] built on them. Sharing and copy-on-write are invisible here: a
    value of a buffer is its bytes. Every allocation is charged to the caller's
    budget ([Limits]); the allocator - whether it agrees, and at which address -
    is a parameter. *)

From Stdlib Require Import ZArith Lia.
From stdpp Require Import prelude strings.
From S2P Require Import Prelude Bits Rational Time Limits Error PixFmt Source Reader.

#[local] Open Scope Z_scope.

Definition ALIGN : Z := 64.
Definition BITSTREAM_PADDING : Z := 64.

(** ** Aligned storage *)

Record aligned_buf : Type := AlignedBuf { raw : list Z; aoffset : Z; alen : Z }.

Definition zeros (n : Z) : list Z := replicate (Z.to_nat n) 0.

Definition raw_len (len : Z) : option Z := checked_u 64 (len + (ALIGN - 1)).

(** The storage starts at address [addr]. *)
Definition from_raw (addr : Z) (raw : list Z) (len : Z) : aligned_buf :=
  let offset := Z.land (wrap_u 64 (- addr)) (ALIGN - 1) in
  let len := Z.min len (sat_u 64 (zlen raw - offset)) in
  AlignedBuf raw offset len.

Definition as_slice (a : aligned_buf) : list Z :=
  default [] (get_range (raw a) (aoffset a) (sat_u 64 (aoffset a + alen a))).

(** ** Buffers and packets *)

Record packet : Type := Packet {
  pdata : list Z;
  plen : Z;
  stream_index : Z;
  ppts : timestamp;
  pdts : timestamp;
  pduration : Time.duration;
  ppos : option Z;
  pflags : Z;
}.

Definition packet_new (data : list Z) (len : Z) : packet :=
  Packet data (Z.min len (zlen data)) 0 TS_NONE TS_NONE DUR_ZERO None 0.

Definition payload (p : packet) : list Z := default [] (get_range (pdata p) 0 (plen p)).

Definition payload_padded (p : packet) : option Padded.padded := Padded.new (pdata p) (plen p).

Record plane : Type := Plane { bytes : list Z; stride : Z }.

(** Audio and subtitle data carry no plane of pixels. *)
Inductive frame_data : Type :=
  | Video (format : pix_fmt) (width height : Z) (planes : list plane)
  | Audio
  | Subtitle.

Record frame : Type := Frame { fdata : frame_data; fpts : timestamp; fduration : Time.duration; fflags : Z }.

Definition from_data (d : frame_data) : frame := Frame d TS_NONE DUR_ZERO 0.

Section alloc.
Context (allowed : Z -> bool) (addr : Z -> Z).

Definition aligned_alloc (b : budget) (len : Z) : result error aligned_buf * budget :=
  match raw_len len with
  | None => (Err (LimitExceeded "buffer_len" len (2 ^ 64 - 1 - ALIGN + 1)), b)
  | Some total =>
    match alloc allowed b 1 total with
    | (Err e, b) => (Err (from_limit e), b)
    | (Ok n, b) => (Ok (from_raw (addr n) (zeros n) len), b)
    end
  end.

(** The bytes of a buffer: what [as_slice] and [make_mut] show. *)
Definition buffer_alloc (b : budget) (len : Z) : result error (list Z) * budget :=
  match aligned_alloc b len with
  | (Err e, b) => (Err e, b)
  | (Ok a, b) => (Ok (as_slice a), b)
  end.

Definition alloc_padded (b : budget) (logical_len : Z) : result error (list Z) * budget :=
  match checked_u 64 (logical_len + BITSTREAM_PADDING) with
  | None => (Err (LimitExceeded "buffer_len" logical_len (2 ^ 64 - 1 - BITSTREAM_PADDING)), b)
  | Some total => buffer_alloc b total
  end.

(** [head.copy_from_slice(src)] where the buffer has room for [src]. *)
Definition copy_head (bytes src : list Z) : list Z :=
  if zlen src <=? zlen bytes then src ++ drop (length src) bytes else bytes.

Definition from_slice_padded (b : budget) (src : list Z) : result error (list Z) * budget :=
  match alloc_padded b (zlen src) with
  | (Err e, b) => (Err e, b)
  | (Ok bytes, b) => (Ok (copy_head bytes src), b)
  end.

Definition packet_from_slice (b : budget) (data : list Z) : result error packet * budget :=
  match from_slice_padded b data with
  | (Err e, b) => (Err e, b)
  | (Ok bytes, b) => (Ok (packet_new bytes (zlen data)), b)
  end.

(** ** Video frames *)

Fixpoint alloc_planes (l : layout) (ids : list Z) (b : budget) (planes : list plane) : result error (list plane) * budget :=
  match ids with
  | [] => (Ok planes, b)
  | i :: ids =>
    let size := default 0 (sizes l !! Z.to_nat i) in
    let stride := default 0 (strides l !! Z.to_nat i) in
    match buffer_alloc b size with
    | (Err e, b) => (Err e, b)
    | (Ok data, b) => alloc_planes l ids b (planes ++ [Plane data stride])
    end
  end.

Definition alloc_video (b : budget) (format : pix_fmt) (width height : Z) : result error frame * budget :=
  if is_hw format then (Err (Unsupported "cannot allocate a hardware pixel format"), b)
  else
    let bpp := Z.max (div_ceil (bits_per_pixel (get_descriptor format)) 8) 1 in
    match check_frame b width height bpp with
    | Err e => (Err (from_limit e), b)
    | Ok _ =>
      match plane_layout format width height ALIGN with
      | Err e => (Err e, b)
      | Ok layout =>
        match alloc_planes layout (seqZ 0 (lplanes layout)) b [] with
        | (Err e, b) => (Err e, b)
        | (Ok planes, b) => (Ok (from_data (Video format width height planes)), b)
        end
      end
    end.

End alloc.

(** [video_geometry]: stride, rows and row bytes of a plane. *)
Definition video_geometry (format : pix_fmt) (width height index : Z) : Z * Z * Z :=
  let i := if index <? 256 then index else 255 in
  let rows := plane_height format height i in
  let row_bytes := min_stride format width i in
  (next_multiple_of row_bytes ALIGN, rows, row_bytes).

Fixpoint check_planes (format : pix_fmt) (width height i : Z) (planes : list plane) : result error unit :=
  match planes with
  | [] => Ok tt
  | p :: planes =>
    let '(_, rows, row_bytes) := video_geometry format width height i in
    if stride p <? row_bytes then Err (InvalidData "plane stride is narrower than a row")
    else
      let need := sat_u 64 (stride p * rows) in
      if (0 <? rows) && (zlen (bytes p) <? need) then Err (InvalidData "plane buffer is shorter than its rows")
      else check_planes format width height (i + 1) planes
  end.

Definition video_from_planes (format : pix_fmt) (width height : Z) (planes : list plane) : result error frame :=
  if negb (zlen planes =? plane_count format) then Err (InvalidData "plane count does not match pixel format")
  else
    match check_planes format width height 0 planes with
    | Err e => Err e
    | Ok _ => Ok (from_data (Video format width height planes))
    end.

(** ** What an allocation gives *)

Lemma zlen_zeros n : 0 <= n -> zlen (zeros n) = n.
Proof. intros Hn. unfold zlen, zeros. rewrite length_replicate. lia. Qed.

Lemma get_range_zeros n a b : 0 <= a <= b -> b <= n -> get_range (zeros n) a b = Some (zeros (b - a)).
Proof.
  intros Ha Hb. unfold get_range. rewrite zlen_zeros by lia. rewrite !(proj2 (Z.leb_le _ _)) by lia. cbn [andb]. f_equal.
  unfold zeros. rewrite drop_replicate, take_replicate. f_equal. lia.
Qed.

(** Wherever the storage lies, the aligned slice starts on a boundary, is as long
    as asked and is zero. *)
Lemma as_slice_spec a len total :
  0 <= len -> raw_len len = Some total ->
  as_slice (from_raw a (zeros total) len) = zeros len /\ (a + aoffset (from_raw a (zeros total) len)) mod ALIGN = 0.
Proof.
  intros Hl Ht. unfold raw_len in Ht. apply checked_u_Some in Ht as [-> Hr]. unfold as_slice, from_raw. cbv zeta. cbn [raw aoffset alen].
  set (o := Z.land (wrap_u 64 (- a)) (ALIGN - 1)).
  assert (o = (- a) mod 64) as Ho.
  { unfold o, wrap_u. change (ALIGN - 1) with (Z.ones 6). rewrite Z.land_ones by lia.
    change (2 ^ 64) with (2 ^ 6 * 2 ^ 58). rewrite Z.rem_mul_r by lia. rewrite Z.mul_comm, Z_mod_plus_full. by rewrite Z.mod_mod. }
  assert (0 <= o < 64) as Hob by (rewrite Ho; apply Z.mod_pos_bound; lia). clearbody o. unfold ALIGN in *.
  rewrite zlen_zeros by lia. rewrite (sat_u_id 64 (len + (64 - 1) - o)) by lia.
  rewrite Z.min_l by lia. rewrite sat_u_id by lia.
  rewrite get_range_zeros by lia. replace (o + len - o) with len by lia. split; [done|].
  rewrite Ho. rewrite <- Zplus_mod_idemp_r, Z.mod_mod by lia. rewrite Zplus_mod_idemp_r. by rewrite Z.add_opp_diag_r.
Qed.

Section allocations.
Context (allowed : Z -> bool) (addr : Z -> Z).

Lemma alloc_value b size n m b' : alloc allowed b size n = (Ok m, b') -> m = n.
Proof.
  unfold alloc, alloc_reserved. destruct (reserve_array b size n) as [r|]; [|done]. destruct (byte_size size n) as [k|]; [|done].
  destruct (held r <? k); [done|]. destruct (allowed k); [|done]. by intros [= -> _].
Qed.

(** A buffer that is given is zero and charged with its padding; one that is
    refused charges nothing. *)
Lemma buffer_alloc_spec b len x b' :
  accounts b -> pending b = 0 -> 0 <= len -> buffer_alloc allowed addr b len = (x, b') ->
  accounts b' /\ pending b' = 0 /\
  match x with
  | Ok data => data = zeros len /\ committed b' = committed b + (len + 63)
  | Err _ => committed b' = committed b
  end.
Proof.
  intros Ha Hp Hl E. unfold buffer_alloc, aligned_alloc in E. destruct (raw_len len) as [total|] eqn:Et; [|by injection E as <- <-].
  pose proof Et as Et'. unfold raw_len in Et'. apply checked_u_Some in Et' as [-> Hr].
  pose proof (alloc_outcome allowed b 1 (len + (ALIGN - 1)) Ha Hp ltac:(lia) ltac:(unfold ALIGN; lia)) as H.
  destruct (alloc allowed b 1 (len + (ALIGN - 1))) as [y c] eqn:Ea. destruct H as (Hy & Hc & Hpc & Hac). destruct y as [n|e].
  - injection E as <- <-. split; [done|]. split; [done|]. assert (n = len + (ALIGN - 1)) as -> by exact (alloc_value _ _ _ _ _ Ea).
    split; [by apply as_slice_spec|]. cbn [is_ok] in Hc. unfold ALIGN in Hc. lia.
  - injection E as <- <-. by split_and!.
Qed.

Lemma alloc_planes_spec f w h ps l b planes x b' :
  accounts b -> pending b = 0 -> 0 <= h ->
  Forall (fun p => strides l !! Z.to_nat p = Some (stride_of f w ALIGN p) /\ sizes l !! Z.to_nat p = Some (size_of f w h ALIGN p)) ps ->
  alloc_planes allowed addr l ps b planes = (x, b') ->
  accounts b' /\ pending b' = 0 /\
  match x with
  | Ok out => out = planes ++ map (fun p => Plane (zeros (size_of f w h ALIGN p)) (stride_of f w ALIGN p)) ps /\
      committed b' = committed b + sum_sizes f w h ALIGN ps + 63 * zlen ps
  | Err _ => committed b <= committed b'
  end.
Proof.
  intros Ha Hp Hh. revert b planes Ha Hp. induction ps as [|p ps IH]; intros b planes Ha Hp Hps E.
  { injection E as <- <-. rewrite app_nil_r. split; [done|]. split; [done|]. split; [done|]. unfold sum_sizes, zlen. cbn. lia. }
  apply Forall_cons in Hps as [[H1 H2] Hps]. cbn [alloc_planes] in E. rewrite H1, H2 in E. cbn [default from_option] in E. cbv zeta in E.
  pose proof (size_of_nonneg f w h ALIGN p ltac:(done) Hh) as Hs.
  destruct (buffer_alloc allowed addr b (id (size_of f w h ALIGN p))) as [y c] eqn:Eb.
  apply buffer_alloc_spec in Eb as (Hac & Hpc & Hy); [|done|done|done]. destruct y as [data|e].
  - destruct Hy as [-> Hc]. apply (IH c _ Hac Hpc Hps) in E as (Ha' & Hp' & Hx). split; [done|]. split; [done|].
    destruct x as [out|e].
    + destruct Hx as [-> Hc']. split; [by rewrite <- app_assoc|]. rewrite Hc', Hc, zlen_cons.
      change (sum_sizes f w h ALIGN (p :: ps)) with (size_of f w h ALIGN p + sum_sizes f w h ALIGN ps). unfold id. lia.
    + unfold id in Hc. lia.
  - injection E as <- <-. split; [done|]. split; [done|]. lia.
Qed.

End allocations.

Lemma check_planes_ok f w h planes k :
  0 <= k -> k + zlen planes <= 4 -> 0 <= h ->
  (forall i p, planes !! i = Some p -> stride p = stride_of f w ALIGN (k + Z.of_nat i) /\ zlen (bytes p) = size_of f w h ALIGN (k + Z.of_nat i)) ->
  check_planes f w h k planes = Ok tt.
Proof.
  revert k. induction planes as [|p planes IH]; intros k Hk Hn Hh H; [done|]. rewrite zlen_cons in Hn. pose proof (zlen_nonneg planes).
  cbn [check_planes]. unfold video_geometry. rewrite (proj2 (Z.ltb_lt k 256)) by lia. cbv zeta.
  destruct (H 0%nat p eq_refl) as [H1 H2]. rewrite Z.add_0_r in H1, H2. pose proof (stride_of_spec f w ALIGN k ltac:(done)) as [_ Hst].
  rewrite H1, (proj2 (Z.ltb_ge _ _)) by lia. rewrite H2. pose proof (size_of_nonneg f w h ALIGN k ltac:(done) Hh) as Hs.
  fold (size_of f w h ALIGN k). rewrite (proj2 (Z.ltb_ge (size_of f w h ALIGN k) _)) by (unfold sat_u; lia). rewrite andb_false_r.
  apply IH; [lia|lia|done|]. intros i q Hq. specialize (H (S i) q Hq). replace (k + 1 + Z.of_nat i) with (k + Z.of_nat (S i)) by lia. done.
Qed.

(** A refusal of memory is a limit error. *)
Definition is_limit (e : error) : Prop := match e with LimitExceeded _ _ _ => True | _ => False end.

Lemma from_limit_is_limit e : is_limit (from_limit e).
Proof. by destruct e. Qed.

Lemma buffer_alloc_fails allowed addr b len e b' : buffer_alloc allowed addr b len = (Err e, b') -> is_limit e.
Proof.
  unfold buffer_alloc, aligned_alloc. destruct (raw_len len); [|by intros [= <- _]].
  destruct (alloc allowed b 1 z) as [[n|e1] c]; [done|]. intros [= <- _]. apply from_limit_is_limit.
Qed.

Lemma alloc_planes_fails allowed addr l ps b planes e b' : alloc_planes allowed addr l ps b planes = (Err e, b') -> is_limit e.
Proof.
  revert b planes. induction ps as [|p ps IH]; intros b planes; [done|]. cbn [alloc_planes]. cbv zeta.
  destruct (buffer_alloc _ _ _ _) as [[d|e1] c] eqn:Eb; [apply IH|]. intros [= <- _]. by eapply buffer_alloc_fails.
Qed.

Lemma alloc_video_fails allowed addr b f w h e b' :
  is_hw f = false -> 0 <= h -> alloc_video allowed addr b f w h = (Err e, b') -> is_limit e.
Proof.
  intros Hhw Hh. unfold alloc_video. rewrite Hhw. cbv zeta. destruct (check_frame _ _ _ _) as [n|e1]; [|intros [= <- _]; apply from_limit_is_limit].
  pose proof (plane_layout_planes f w h ALIGN Hh) as Hl. destruct (plane_layout f w h ALIGN) as [l|e1]; [|intros [= <- _]; by rewrite (Hl eq_refl)].
  destruct (alloc_planes _ _ _ _ _ _) as [[ps|e1] c] eqn:Ea; [done|]. intros [= <- _]. by eapply alloc_planes_fails.
Qed.

Lemma packet_from_slice_fails allowed addr b src e b' : packet_from_slice allowed addr b src = (Err e, b') -> is_limit e.
Proof.
  unfold packet_from_slice, from_slice_padded, alloc_padded. destruct (checked_u 64 _); [|by intros [= <- _]].
  destruct (buffer_alloc _ _ _ _) as [[d|e1] c] eqn:Eb; [done|]. intros [= <- _]. by eapply buffer_alloc_fails.
Qed.

(** The planes of a fresh frame. *)
Definition fresh_planes (f : pix_fmt) (w h : Z) : list plane :=
  map (fun p => Plane (zeros (size_of f w h ALIGN p)) (stride_of f w ALIGN p)) (seqZ 0 (plane_count f)).

Lemma fresh_planes_checked f w h : 0 <= h -> video_from_planes f w h (fresh_planes f w h) = Ok (from_data (Video f w h (fresh_planes f w h))).
Proof.
  intros Hh. pose proof (plane_count_range f) as Hc. unfold video_from_planes.
  assert (zlen (fresh_planes f w h) = plane_count f) as Hn by (unfold zlen, fresh_planes; rewrite length_map, length_seqZ; lia).
  rewrite Hn, Z.eqb_refl. cbn [negb]. rewrite check_planes_ok; [done|lia|lia|done|].
  intros i p Hp. unfold fresh_planes in Hp. rewrite list_lookup_fmap in Hp. apply fmap_Some in Hp as (j & Hj & ->).
  apply lookup_seqZ in Hj as [-> Hj]. cbn [stride bytes]. split; [done|]. apply zlen_zeros. by apply size_of_nonneg.
Qed.

Section properties.
Context (allowed : Z -> bool) (addr : Z -> Z).

Lemma alloc_video_spec b f w h x b' :
  accounts b -> pending b = 0 -> 0 <= h -> alloc_video allowed addr b f w h = (x, b') ->
  accounts b' /\ pending b' = 0 /\
  match x with
  | Ok fr =>
    fr = from_data (Video f w h (fresh_planes f w h)) /\ video_from_planes f w h (fresh_planes f w h) = Ok fr /\
    is_hw f = false /\ w <= max_dimension (policy b) /\ h <= max_dimension (policy b) /\
    committed b' = committed b + sum_sizes f w h ALIGN (seqZ 0 (plane_count f)) + 63 * plane_count f /\
    sum_sizes f w h ALIGN (seqZ 0 (plane_count f)) < 2 ^ 64
  | Err _ => committed b <= committed b' /\ (is_hw f = true \/ max_dimension (policy b) < Z.max w h -> b' = b)
  end.
Proof.
  intros Ha Hp Hh E. unfold alloc_video in E. destruct (is_hw f) eqn:Ehw; [injection E as <- <-; by split_and!|].
  cbv zeta in E. destruct (check_frame _ _ _ _) as [n|e] eqn:Ec; [|injection E as <- <-; by split_and!].
  assert (w <= max_dimension (policy b) /\ h <= max_dimension (policy b)) as [Hw' Hh'].
  { unfold check_frame, check_count in Ec. destruct (Z.ltb_spec (max_dimension (policy b)) w); [done|]. cbn [mbind result_bind] in Ec.
    destruct (Z.ltb_spec (max_dimension (policy b)) h); done. }
  clear Ec n. pose proof (plane_layout_planes f w h ALIGN Hh) as Hl. destruct (plane_layout f w h ALIGN) as [l|e].
  - destruct Hl as (Hn & Hsum & Hl). destruct (alloc_planes _ _ _ _ _ _) as [y c] eqn:Ea. rewrite Hn in Ea.
    apply (alloc_planes_spec _ _ f w h) in Ea as (Hac & Hpc & Hy); [|done|done|done|].
    + destruct y as [planes|e]; injection E as <- <-; (split; [done|]; split; [done|]).
      * destruct Hy as [-> Hc]. split; [done|]. split; [by apply fresh_planes_checked|]. split; [done|]. split; [done|]. split; [done|]. split; [|done].
        rewrite Hc. pose proof (plane_count_range f). unfold zlen. rewrite length_seqZ. lia.
      * split; [done|]. intros [?|?]; [done|lia].
    + apply Forall_forall. intros p Hin. apply elem_of_seqZ in Hin. apply Hl. lia.
  - injection E as <- <-. split; [done|]. split; [done|]. split; [lia|]. by intros [?|?].
Qed.

(** A frame that is allocated is the frame that was asked for. Whatever the
    allocator does, [alloc_video] either returns a frame of the format and
    dimensions asked, within the limits, with one plane for each of the format's,
    each zeroed and exactly its aligned stride times its rows long, which
    [video_from_planes] accepts, and charged byte for byte with its padding; or it
    refuses, and for a hardware format or dimensions over the limits it charges
    nothing. *)
Theorem alloc_video_exact b f w h x b' :
  accounts b -> pending b = 0 -> 0 <= h -> alloc_video allowed addr b f w h = (x, b') ->
  accounts b' /\ pending b' = 0 /\
  match x with
  | Ok fr =>
    fr = from_data (Video f w h (fresh_planes f w h)) /\ video_from_planes f w h (fresh_planes f w h) = Ok fr /\
    is_hw f = false /\ w <= max_dimension (policy b) /\ h <= max_dimension (policy b) /\
    committed b' = committed b + sum_sizes f w h ALIGN (seqZ 0 (plane_count f)) + 63 * plane_count f
  | Err _ => committed b <= committed b' /\ (is_hw f = true \/ max_dimension (policy b) < Z.max w h -> b' = b)
  end.
Proof.
  intros Ha Hp Hh E. destruct (alloc_video_spec b f w h x b' Ha Hp Hh E) as (Ha' & Hp' & H). split; [done|]. split; [done|].
  destruct x as [fr|e]; [|exact H]. destruct H as (H1 & H2 & H3 & H4 & H5 & H6 & _). by split_and!.
Qed.

(** A packet copied from a slice, its payload and its padded view. *)
Lemma packet_from_slice_spec b src x b' :
  accounts b -> pending b = 0 -> packet_from_slice allowed addr b src = (x, b') ->
  accounts b' /\ pending b' = 0 /\
  match x with
  | Ok p =>
    payload p = src /\ committed b' = committed b + (zlen src + 64 + 63) /\ ppts p = TS_NONE /\
    exists v, payload_padded p = Some v /\ Padded.logical_bytes v = src /\ Padded.bytes v = src ++ zeros 64
  | Err _ => committed b' = committed b
  end.
Proof.
  intros Ha Hp E. unfold packet_from_slice, from_slice_padded, alloc_padded in E. pose proof (zlen_nonneg src) as Hn.
  destruct (checked_u 64 (zlen src + BITSTREAM_PADDING)) as [total|] eqn:Et; [|injection E as <- <-; by split_and!].
  apply checked_u_Some in Et as [-> Hr]. destruct (buffer_alloc _ _ _ _) as [y c] eqn:Eb.
  apply buffer_alloc_spec in Eb as (Hac & Hpc & Hy); [|done|done|unfold BITSTREAM_PADDING; lia]. unfold BITSTREAM_PADDING in *.
  destruct y as [data|e]; injection E as <- <-; (split; [done|]; split; [done|]); [|done]. destruct Hy as [-> Hc].
  assert (copy_head (zeros (zlen src + 64)) src = src ++ zeros 64) as ->.
  { unfold copy_head. rewrite zlen_zeros, (proj2 (Z.leb_le _ _)) by lia. f_equal. unfold zeros. rewrite drop_replicate. f_equal. unfold zlen. lia. }
  assert (zlen (src ++ zeros 64) = zlen src + 64) as Hz by (rewrite zlen_app, zlen_zeros; lia).
  assert (get_range (src ++ zeros 64) 0 (zlen src) = Some src) as Hg.
  { unfold get_range. rewrite Hz, !(proj2 (Z.leb_le _ _)) by lia. cbn [andb]. f_equal. rewrite drop_0. unfold zlen. rewrite Z.sub_0_r, Nat2Z.id. apply take_app_length. }
  unfold payload, packet_new, payload_padded. cbn [pdata plen ppts]. rewrite Hz, Z.min_l, Hg by lia. split; [done|]. split; [lia|]. split; [done|].
  assert (get_from (src ++ zeros 64) (zlen src) = Some (zeros 64)) as Hf.
  { unfold get_from. rewrite Hz, !(proj2 (Z.leb_le _ _)) by lia. cbn [andb]. f_equal. unfold zlen. rewrite Nat2Z.id. apply drop_app_length. }
  unfold Padded.new. rewrite Hf. cbn [mbind option_bind]. change (get_range (zeros 64) 0 Padded.PAD) with (Some (zeros 64)).
  cbn [mbind option_bind]. change (existsb (fun b0 : Z => negb (b0 =? 0)) (zeros 64)) with false. eexists. split; [done|].
  unfold Padded.logical_bytes. cbn [Padded.bytes Padded.logical_len]. by rewrite Hg.
Qed.

(** A packet that fits is granted, and stays charged. *)
Lemma packet_from_slice_fits l c b src :
  in_order l c (Free b) -> zlen src + 127 <= max_alloc_single l -> c + (zlen src + 127) <= max_alloc_total l ->
  (forall n, allowed n = true) ->
  exists p b', packet_from_slice allowed addr b src = (Ok p, b') /\ in_order l (c + (zlen src + 127)) (Free b') /\ payload p = src.
Proof.
  intros Hi Hs Ht Hal. pose proof (zlen_nonneg src) as Hn. pose proof Hi as (Ha & Hl & Hp & Hc). pose proof Ha as [(_ & Hl2 & _) _ _ _ _ _].
  rewrite Hl in Hl2. destruct (alloc_fits allowed l c b (zlen src + 127) Hi) as (b' & Ea & Hb'); [lia|lia|by apply Hal|].
  assert (E : exists p, packet_from_slice allowed addr b src = (Ok p, b')).
  { unfold packet_from_slice, from_slice_padded, alloc_padded, buffer_alloc, aligned_alloc, raw_len, BITSTREAM_PADDING, ALIGN.
    rewrite checked_u_in by (apply in_u_spec; lia). rewrite checked_u_in by (apply in_u_spec; lia).
    replace (zlen src + 64 + (64 - 1)) with (zlen src + 127) by lia. rewrite Ea. by eexists. }
  destruct E as [p E]. exists p, b'. split; [done|]. split; [done|].
  pose proof (packet_from_slice_spec b src _ _ Ha Hp E) as (_ & _ & H & _). exact H.
Qed.

(** A packet shows its payload and can be read by the fast path. A packet
    copied from a slice has exactly the slice as its payload, and its buffer
    carries the zero padding that the padded bit reader demands, so the padded view
    exists and its logical bytes are the slice; a refused packet charges
    nothing. *)
Theorem packet_padded b src x b' :
  accounts b -> pending b = 0 -> packet_from_slice allowed addr b src = (x, b') ->
  accounts b' /\ pending b' = 0 /\
  match x with
  | Ok p =>
    payload p = src /\ committed b' = committed b + (zlen src + 64 + 63) /\ ppts p = TS_NONE /\
    exists v, payload_padded p = Some v /\ Padded.logical_bytes v = src /\ Padded.bytes v = src ++ zeros 64
  | Err _ => committed b' = committed b
  end.
Proof. apply packet_from_slice_spec. Qed.

End properties.

Lemma alloc_video_exact_witness :
  exists fr, fst (alloc_video (fun _ => true) (fun _ => 40) (Limits.new permissive) Rgba 3 2) = Ok fr /\
    fr = from_data (Video Rgba 3 2 (fresh_planes Rgba 3 2)) /\
    committed (snd (alloc_video (fun _ => true) (fun _ => 40) (Limits.new permissive) Rgba 3 2)) = 191.
Proof.
  destruct (alloc_video (fun _ => true) (fun _ => 40) (Limits.new permissive) Rgba 3 2) as [x b'] eqn:E.
  pose proof (alloc_video_exact (fun _ => true) (fun _ => 40) (Limits.new permissive) Rgba 3 2 x b'
    ltac:(apply new_accounts; repeat split; vm_compute; congruence) eq_refl ltac:(lia) E) as (_ & _ & H).
  destruct x as [fr|e]; [|by vm_compute in E]. exists fr. split; [done|]. split; [exact (proj1 H)|].
  refine (eq_trans (proj2 (proj2 (proj2 (proj2 (proj2 H))))) _). vm_compute. reflexivity.
Defined.

Lemma packet_padded_witness :
  exists p, fst (packet_from_slice (fun _ => true) (fun _ => 40) (Limits.new permissive) [1; 2; 3]) = Ok p /\ payload p = [1; 2; 3].
Proof.
  destruct (packet_from_slice (fun _ => true) (fun _ => 40) (Limits.new permissive) [1; 2; 3]) as [x b'] eqn:E.
  pose proof (packet_padded (fun _ => true) (fun _ => 40) (Limits.new permissive) [1; 2; 3] x b'
    ltac:(apply new_accounts; repeat split; vm_compute; congruence) eq_refl E) as (_ & _ & H).
  destruct x as [p|e]; [|by vm_compute in E]. exists p. split; [done|]. exact (proj1 H).
Defined.
