(* ===== verification/Qoi.v ===== *)
(** * Qoi: a whole codec, from pixels to packets and back

    [src/crates/codec/vaco-codec-qoi/src]: the cursor ([reader.rs]), the decoder
    and the encoder of QOI images ([codec.rs]) over the frames of [Media], and the
    wrappers that put both behind the send/receive protocol of [CodecCore]
    ([lib.rs]). Frames are allocated against the decoder's limits; the allocator is
    a parameter. *)

From Stdlib Require Import ZArith Lia.
From stdpp Require Import prelude strings.
From S2P Require Import Prelude Bits Time Limits Error CodecCore OneShot PixFmt Media.

#[local] Open Scope Z_scope.

(** ** The cursor *)

Record cursor : Type := Cursor { cdata : list Z; cpos : Z }.

Definition cursor_new (data : list Z) : cursor := Cursor data 0.

Definition get_u8 (r : cursor) : result error (Z * cursor) :=
  b ← ok_or (cdata r !! Z.to_nat (cpos r)) UnexpectedEof;
  Ok (b, Cursor (cdata r) (cpos r + 1)).

Definition get_bytes (n : Z) (r : cursor) : result error (list Z * cursor) :=
  e ← ok_or (checked_u 64 (cpos r + n)) UnexpectedEof;
  out ← ok_or (get_range (cdata r) (cpos r) e) UnexpectedEof;
  Ok (out, Cursor (cdata r) e).

Definition get_u32_be (r : cursor) : result error (Z * cursor) :=
  '(b, r) ← get_bytes 4 r;
  Ok (wrap_u 32 (be_value b), r).

(** ** Pixels and the running array *)

Record px : Type := Px { red : Z; green : Z; blue : Z; alpha : Z }.

#[export] Instance px_eq_dec : EqDecision px.
Proof. solve_decision. Defined.

Definition MAGIC : list Z := [113; 111; 105; 102].
Definition END_MARKER : list Z := [0; 0; 0; 0; 0; 0; 0; 1].
Definition RUN_MAX : Z := 62.
Definition START_PIXEL : px := Px 0 0 0 255.

Definition hash (p : px) : Z := (red p * 3 + green p * 5 + blue p * 7 + alpha p * 11) mod 64.

Abbreviation table_t := (list px).
Definition table_new : table_t := replicate 64 (Px 0 0 0 0).
Definition table_get (t : table_t) (i : Z) : px := default (Px 0 0 0 0) (t !! Z.to_nat i).
(** stdpp's insert leaves the list alone out of range, as [get_mut] does. *)
Definition table_set (t : table_t) (i : Z) (p : px) : table_t := <[Z.to_nat i := p]> t.

Definition write_pixel (buf : list Z) (offset : Z) (bytes : list Z) : result error (list Z) :=
  let e := sat_u 64 (offset + zlen bytes) in
  if (offset <=? e) && (e <=? zlen buf) then
    Ok (take (Z.to_nat offset) buf ++ bytes ++ drop (Z.to_nat e) buf)
  else Err (InvalidData "qoi: pixel write out of bounds").

Definition read_pixel (buf : list Z) (offset n : Z) : result error (list Z) :=
  ok_or (get_range buf offset (sat_u 64 (offset + n))) (InvalidData "qoi: pixel read out of bounds").

(** ** The header *)

Record header : Type := Header { hwidth : Z; hheight : Z; hformat : pix_fmt; channel_bytes : Z }.

Definition read_header (r : cursor) : result error (header * cursor) :=
  '(magic, r) ← get_bytes 4 r;
  if bool_decide (magic = MAGIC) then
    '(width, r) ← get_u32_be r;
    '(height, r) ← get_u32_be r;
    '(channels, r) ← get_u8 r;
    '(_, r) ← get_u8 r;
    if (width =? 0) || (height =? 0) then Err (InvalidData "qoi: zero-sized image")
    else if channels =? 3 then Ok (Header width height Rgb24 3, r)
    else if channels =? 4 then Ok (Header width height Rgba 4, r)
    else Err (InvalidData "qoi: channels must be 3 or 4")
  else Err (InvalidData "qoi: bad magic").

(** ** The decoder *)

Record dec : Type := Dec { dreader : cursor; dtable : table_t; dprev : px; drun : Z; dbuf : list Z }.

(** [x as i8 as u8] of an [i16]. *)
Definition as_u8 (x : Z) : Z := wrap_u 8 (wrap_i 8 x).

Definition wrapping_add8 (a b : Z) : Z := wrap_u 8 (a + b).

(** The chunk at the cursor: the reader, the array, the pixel and the run left. *)
Definition chunk (r : cursor) (table : table_t) (prev : px) : result error (cursor * table_t * px * Z) :=
  '(tag, r) ← get_u8 r;
  if tag =? 254 then
    '(rgb, r) ← get_bytes 3 r;
    match rgb with
    | [nr; ng; nb] => let prev := Px nr ng nb (alpha prev) in Ok (r, table_set table (hash prev) prev, prev, 0)
    | _ => Err UnexpectedEof
    end
  else if tag =? 255 then
    '(rgba, r) ← get_bytes 4 r;
    match rgba with
    | [nr; ng; nb; na] => let prev := Px nr ng nb na in Ok (r, table_set table (hash prev) prev, prev, 0)
    | _ => Err UnexpectedEof
    end
  else if Z.shiftr tag 6 =? 0 then
    let i := Z.land tag 63 in
    let prev := table_get table i in Ok (r, table_set table (hash prev) prev, prev, 0)
  else if Z.shiftr tag 6 =? 1 then
    let dr := Z.land (Z.shiftr tag 4) 3 - 2 in
    let dg := Z.land (Z.shiftr tag 2) 3 - 2 in
    let db := Z.land tag 3 - 2 in
    let prev := Px (wrapping_add8 (red prev) (as_u8 dr)) (wrapping_add8 (green prev) (as_u8 dg))
                   (wrapping_add8 (blue prev) (as_u8 db)) (alpha prev) in
    Ok (r, table_set table (hash prev) prev, prev, 0)
  else if Z.shiftr tag 6 =? 2 then
    '(b2, r) ← get_u8 r;
    let vg := Z.land tag 63 - 32 in
    let vr := vg - 8 + Z.land (Z.shiftr b2 4) 15 in
    let vb := vg - 8 + Z.land b2 15 in
    let prev := Px (wrapping_add8 (red prev) (as_u8 vr)) (wrapping_add8 (green prev) (as_u8 vg))
                   (wrapping_add8 (blue prev) (as_u8 vb)) (alpha prev) in
    Ok (r, table_set table (hash prev) prev, prev, 0)
  else Ok (r, table, prev, Z.land tag 63).

Definition pixel_bytes (bpp : Z) (p : px) : list Z :=
  if bpp =? 4 then [red p; green p; blue p; alpha p] else [red p; green p; blue p].

Definition offset_of (stride bpp y x : Z) : Z := sat_u 64 (sat_u 64 (y * stride) + sat_u 64 (x * bpp)).

(** One pixel: from the run, or from the next chunk. *)
Definition next_pixel (r : cursor) (table : table_t) (prev : px) (run : Z) : result error (cursor * table_t * px * Z) :=
  if 0 <? run then Ok (r, table, prev, run - 1) else chunk r table prev.

(** The body of the decoder's inner loop. *)
Definition dec_pixel (bpp stride y x : Z) (s : dec) : result error dec :=
  '(r, table, prev, run) ← next_pixel (dreader s) (dtable s) (dprev s) (drun s);
  buf ← write_pixel (dbuf s) (offset_of stride bpp y x) (pixel_bytes bpp prev);
  Ok (Dec r table prev run buf).

(** [for v in l { ... }] with a body that can fail. *)
Fixpoint for_each {S : Type} (body : Z -> S -> result error S) (l : list Z) (s : S) : result error S :=
  match l with
  | [] => Ok s
  | v :: l => s ← body v s; for_each body l s
  end.

(** [for y in 0..h { for x in 0..w { ... } }]. *)
Definition for_rows {S : Type} (body : Z -> Z -> S -> result error S) (w h : Z) (s : S) : result error S :=
  for_each (fun y => for_each (body y) (seqZ 0 w)) (seqZ 0 h) s.

(** ** The encoder *)

Record enc : Type := Enc { eout : list Z; etable : table_t; eprev : px; erun : Z; seen : Z }.

(** The pixel at an offset of the source plane. *)
Definition sample (channels : Z) (src : list Z) (offset bpp : Z) : result error px :=
  s ← read_pixel src offset bpp;
  if channels =? 4 then
    match s with [r; g; b; a] => Ok (Px r g b a) | _ => Err (InvalidData "qoi: short pixel") end
  else
    match s with [r; g; b] => Ok (Px r g b 255) | _ => Err (InvalidData "qoi: short pixel") end.

(** [a.wrapping_sub(b).cast_signed()] of bytes. *)
Definition diff8 (a b : Z) : Z := wrap_i 8 (a - b).

Definition within (lo hi v : Z) : bool := (lo <=? v) && (v <=? hi).

(** The chunk of a pixel that differs from the previous one, and the array after
    it. *)
Definition pixel_chunk (table : table_t) (prev p : px) : list Z * table_t :=
  let idx := hash p in
  if bool_decide (table_get table idx = p) then ([idx], table)
  else
    let table := table_set table idx p in
    if alpha p =? alpha prev then
      let vr := diff8 (red p) (red prev) in
      let vg := diff8 (green p) (green prev) in
      let vb := diff8 (blue p) (blue prev) in
      let vg_r := wrap_i 8 (vr - vg) in
      let vg_b := wrap_i 8 (vb - vg) in
      if within (-2) 1 vr && within (-2) 1 vg && within (-2) 1 vb then
        ([Z.lor (Z.lor (Z.lor 64 (Z.shiftl (vr + 2) 4)) (Z.shiftl (vg + 2) 2)) (vb + 2)], table)
      else if within (-32) 31 vg && within (-8) 7 vg_r && within (-8) 7 vg_b then
        ([Z.lor 128 (vg + 32); Z.lor (Z.shiftl (vg_r + 8) 4) (vg_b + 8)], table)
      else ([254; red p; green p; blue p], table)
    else ([255; red p; green p; blue p; alpha p], table).

Definition run_byte (run : Z) : Z := Z.lor 192 (run - 1).

(** The body of the encoder's inner loop, for the pixel read. *)
Definition enc_step (total_pixels : Z) (p : px) (s : enc) : enc :=
  let seen := seen s + 1 in
  if bool_decide (p = eprev s) then
    let run := erun s + 1 in
    if (run =? RUN_MAX) || (seen =? total_pixels) then Enc (eout s ++ [run_byte run]) (etable s) (eprev s) 0 seen
    else Enc (eout s) (etable s) (eprev s) run seen
  else
    let out := if 0 <? erun s then eout s ++ [run_byte (erun s)] else eout s in
    let '(bytes, table) := pixel_chunk (etable s) (eprev s) p in
    Enc (out ++ bytes) table p 0 seen.

Definition enc_pixel (channels bpp stride total_pixels : Z) (src : list Z) (y x : Z) (s : enc) : result error enc :=
  p ← sample channels src (offset_of stride bpp y x) bpp;
  Ok (enc_step total_pixels p s).

Definition encode_planes (channels bpp width height : Z) (planes : list plane) : result error (list Z) :=
  if (width =? 0) || (height =? 0) then Err (InvalidData "qoi: zero-sized image")
  else
    plane ← ok_or (head planes) (InvalidData "qoi: no plane 0");
    let out := MAGIC ++ be_bytes 4 width ++ be_bytes 4 height ++ [channels; 0] in
    s ← for_rows (enc_pixel channels bpp (stride plane) (width * height) (bytes plane)) width height
          (Enc out table_new START_PIXEL 0 0);
    Ok (eout s ++ END_MARKER).

Definition encode (f : frame) : result error (list Z) :=
  match fdata f with
  | Video Rgb24 width height planes => encode_planes 3 3 width height planes
  | Video Rgba width height planes => encode_planes 4 4 width height planes
  | Video _ _ _ _ => Err (Unsupported "qoi: encoder needs rgb24 or rgba input")
  | _ => Err (InvalidData "qoi: expected a video frame")
  end.

Section codec.
Context (allowed : Z -> bool) (addr : Z -> Z).

(** The pixel loop and the end marker, into the frame allocated. *)
Definition decode_into (h : header) (r : cursor) (f : frame) : result error frame :=
  match fdata f with
  | Video fmt w ht planes =>
    plane ← ok_or (head planes) (InvalidData "qoi: no plane 0");
    s ← for_rows (dec_pixel (channel_bytes h) (stride plane)) (hwidth h) (hheight h)
          (Dec r table_new START_PIXEL 0 (bytes plane));
    '(tail, _) ← get_bytes (zlen END_MARKER) (dreader s);
    if bool_decide (tail = END_MARKER) then
      Ok (Frame (Video fmt w ht (Plane (dbuf s) (stride plane) :: List.tail planes)) (fpts f) (fduration f) (fflags f))
    else Err (InvalidData "qoi: missing end marker")
  | _ => Err (InvalidData "qoi: expected a video frame")
  end.

Definition decode (data : list Z) (b : budget) : result error frame * budget :=
  match read_header (cursor_new data) with
  | Err e => (Err e, b)
  | Ok (h, r) =>
    match alloc_video allowed addr b (hformat h) (hwidth h) (hheight h) with
    | (Err e, b) => (Err e, b)
    | (Ok f, b) => (decode_into h r f, b)
    end
  end.

(** ** Behind the protocol *)

Record qoi_decoder : Type := QoiDecoder { dmachine : machine frame; dlimits : limits }.

Definition decoder_new (l : limits) : qoi_decoder := QoiDecoder (machine_new 0) l.

Definition decoder_send (input : option packet) (d : qoi_decoder) : result error unit * qoi_decoder :=
  match accept (bool_decide (input = None)) (dmachine d) with
  | (Err e, m) => (Err e, QoiDecoder m (dlimits d))
  | (Ok Drain, m) => (Ok tt, QoiDecoder (finish m) (dlimits d))
  | (Ok Input, m) =>
    match input with
    | None => (Ok tt, QoiDecoder m (dlimits d))
    | Some pkt =>
      match fst (decode (payload pkt) (Limits.new (dlimits d))) with
      | Err e => (Err e, QoiDecoder m (dlimits d))
      | Ok f => (Ok tt, QoiDecoder (emit (Frame (fdata f) (ppts pkt) (fduration f) (fflags f)) m) (dlimits d))
      end
    end
  end.

Definition decoder_receive (d : qoi_decoder) : result error frame * qoi_decoder :=
  let '(x, m) := machine_receive (dmachine d) in (x, QoiDecoder m (dlimits d)).

Definition decoder_flush (d : qoi_decoder) : qoi_decoder := QoiDecoder (machine_flush (dmachine d)) (dlimits d).

Record qoi_encoder : Type := QoiEncoder { emachine : machine packet; elimits : limits }.

Definition encoder_new (l : limits) : qoi_encoder := QoiEncoder (machine_new 0) l.

Definition encoder_send (input : option frame) (d : qoi_encoder) : result error unit * qoi_encoder :=
  match accept (bool_decide (input = None)) (emachine d) with
  | (Err e, m) => (Err e, QoiEncoder m (elimits d))
  | (Ok Drain, m) => (Ok tt, QoiEncoder (finish m) (elimits d))
  | (Ok Input, m) =>
    match input with
    | None => (Ok tt, QoiEncoder m (elimits d))
    | Some f =>
      match encode f with
      | Err e => (Err e, QoiEncoder m (elimits d))
      | Ok data =>
        match fst (packet_from_slice allowed addr (Limits.new (elimits d)) data) with
        | Err e => (Err e, QoiEncoder m (elimits d))
        | Ok p =>
          let p := Packet (pdata p) (plen p) (stream_index p) (fpts f) (pdts p) (fduration f) (ppos p) (pflags p) in
          (Ok tt, QoiEncoder (emit p m) (elimits d))
        end
      end
    end
  end.

Definition encoder_receive (d : qoi_encoder) : result error packet * qoi_encoder :=
  let '(x, m) := machine_receive (emachine d) in (x, QoiEncoder m (elimits d)).

Definition encoder_flush (d : qoi_encoder) : qoi_encoder := QoiEncoder (machine_flush (emachine d)) (elimits d).

End codec.

(** ** Reading what was written *)

(** The cursor stands in front of [l]. *)
Definition before (r : cursor) (l : list Z) : Prop :=
  0 <= cpos r /\ zlen (cdata r) < 2 ^ 64 /\ drop (Z.to_nat (cpos r)) (cdata r) = l /\ cpos r <= zlen (cdata r).

Lemma before_new data : zlen data < 2 ^ 64 -> before (cursor_new data) data.
Proof. intros H. pose proof (zlen_nonneg data). unfold before. cbn. rewrite drop_0. split_and!; (done || lia). Qed.

Lemma get_bytes_before r l k :
  before r (l ++ k) -> exists r', get_bytes (zlen l) r = Ok (l, r') /\ before r' k.
Proof.
  intros (H0 & H1 & H2 & H3). pose proof (zlen_nonneg l) as Hl. pose proof (zlen_nonneg k) as Hk.
  assert (cpos r + zlen l + zlen k = zlen (cdata r)) as Hlen.
  { apply (f_equal zlen) in H2. rewrite zlen_app in H2. unfold zlen in H2 at 1. rewrite length_drop in H2. unfold zlen in *. lia. }
  exists (Cursor (cdata r) (cpos r + zlen l)). unfold get_bytes. rewrite checked_u_in by (apply in_u_spec; lia). cbn [ok_or mbind result_bind].
  unfold get_range. rewrite !(proj2 (Z.leb_le _ _)) by lia. cbn [andb ok_or mbind result_bind]. split.
  - do 3 f_equal. rewrite H2. replace (cpos r + zlen l - cpos r) with (zlen l) by lia. unfold zlen. rewrite Nat2Z.id. apply take_app_length.
  - unfold before. cbn [cdata cpos]. split; [lia|]. split; [done|]. split; [|lia].
    replace (Z.to_nat (cpos r + zlen l)) with (Z.to_nat (cpos r) + length l)%nat by (unfold zlen; lia).
    rewrite <- drop_drop, H2. apply drop_app_length.
Qed.

Lemma get_u8_before r b k : before r (b :: k) -> exists r', get_u8 r = Ok (b, r') /\ before r' k.
Proof.
  intros H. destruct (get_bytes_before r [b] k H) as (r' & E & Hr'). destruct H as (H0 & H1 & H2 & H3). exists (Cursor (cdata r) (cpos r + 1)).
  split.
  - unfold get_u8. replace (cdata r !! Z.to_nat (cpos r)) with (Some b); [done|]. symmetry.
    rewrite <- (Nat.add_0_r (Z.to_nat (cpos r))), <- lookup_drop, H2. done.
  - unfold get_bytes in E. destruct (checked_u _ _) eqn:Ec; [|done]. apply checked_u_Some in Ec as [-> _]. cbn [ok_or mbind result_bind] in E.
    destruct (get_range _ _ _); [|done]. by injection E as _ <-.
Qed.

(** ** Chunks *)

Definition byte (v : Z) : Prop := 0 <= v < 256.
Definition px_ok (p : px) : Prop := byte (red p) /\ byte (green p) /\ byte (blue p) /\ byte (alpha p).

Lemma forall_range (P : Z -> bool) n : forallb P (seqZ 0 n) = true -> forall v, 0 <= v < n -> P v = true.
Proof. intros H v Hv. apply (proj1 (forallb_forall P _) H), list_elem_of_In, elem_of_seqZ. lia. Qed.

Lemma hash_range p : 0 <= hash p < 64.
Proof. apply Z.mod_pos_bound. lia. Qed.

Lemma wrap8_mod x : wrap_i 8 x mod 256 = x mod 256.
Proof.
  unfold wrap_i. change (2 ^ 8) with 256. change (2 ^ (8 - 1)) with 128.
  rewrite Zminus_mod, Z.mod_mod, <- Zminus_mod by lia. f_equal. lia.
Qed.

Lemma wrap8_range x : -128 <= wrap_i 8 x < 128.
Proof. unfold wrap_i. change (2 ^ 8) with 256. change (2 ^ (8 - 1)) with 128. pose proof (Z.mod_pos_bound (x + 128) 256). lia. Qed.

Lemma as_u8_mod x : as_u8 x = x mod 256.
Proof. apply wrap8_mod. Qed.

(** Adding the difference back restores the byte, whatever representative of it
    was stored. *)
Lemma add_back a b d : byte b -> d mod 256 = (b - a) mod 256 -> wrapping_add8 a (as_u8 d) = b.
Proof.
  intros Hb Hd. unfold wrapping_add8, wrap_u. change (2 ^ 8) with 256. rewrite as_u8_mod, Hd, Zplus_mod_idemp_r.
  replace (a + (b - a)) with b by lia. by apply Z.mod_small.
Qed.

(** The byte of a run. *)
Lemma run_chunk r t prev run k : 1 <= run <= RUN_MAX -> before r (run_byte run :: k) ->
  exists r', chunk r t prev = Ok (r', t, prev, run - 1) /\ before r' k.
Proof.
  intros Hr H. destruct (get_u8_before _ _ _ H) as (r' & E & Hr'). exists r'. split; [|done]. unfold chunk. rewrite E. cbn [mbind result_bind].
  assert ((run_byte (run - 1 + 1) =? 254) || (run_byte (run - 1 + 1) =? 255) || (Z.shiftr (run_byte (run - 1 + 1)) 6 =? 0) ||
    (Z.shiftr (run_byte (run - 1 + 1)) 6 =? 1) || (Z.shiftr (run_byte (run - 1 + 1)) 6 =? 2) || negb (Z.land (run_byte (run - 1 + 1)) 63 =? run - 1) = false) as Hc.
  { apply negb_true_iff. generalize (run - 1) (ltac:(unfold RUN_MAX in Hr; lia) : 0 <= run - 1 < 62). intros v.
    revert v. apply (forall_range (fun v => negb ((run_byte (v + 1) =? 254) || (run_byte (v + 1) =? 255) || (Z.shiftr (run_byte (v + 1)) 6 =? 0) ||
      (Z.shiftr (run_byte (v + 1)) 6 =? 1) || (Z.shiftr (run_byte (v + 1)) 6 =? 2) || negb (Z.land (run_byte (v + 1)) 63 =? v)))).
    vm_compute. reflexivity. }
  replace (run - 1 + 1) with run in Hc by lia. rewrite !orb_false_iff, negb_false_iff, Z.eqb_eq in Hc.
  destruct Hc as [[[[[-> ->] ->] ->] ->] ->]. done.
Qed.

(** The byte of an index. *)
Lemma index_chunk r t prev i k : 0 <= i < 64 -> before r (i :: k) ->
  exists r', chunk r t prev = Ok (r', table_set t (hash (table_get t i)) (table_get t i), table_get t i, 0) /\ before r' k.
Proof.
  intros Hi H. destruct (get_u8_before _ _ _ H) as (r' & E & Hr'). exists r'. split; [|done]. unfold chunk. rewrite E. cbn [mbind result_bind].
  assert (negb (i =? 254) && negb (i =? 255) && (Z.shiftr i 6 =? 0) && (Z.land i 63 =? i) = true) as Hc.
  { revert i Hi H E. intros i Hi _ _. revert i Hi. apply forall_range. vm_compute. reflexivity. }
  rewrite !andb_true_iff, !negb_true_iff, (Z.eqb_eq (Z.land i 63)) in Hc. destruct Hc as [[[-> ->] ->] ->]. done.
Qed.

(** The byte of three small differences. *)
Lemma diff_chunk r t prev dr dg db k :
  -2 <= dr <= 1 -> -2 <= dg <= 1 -> -2 <= db <= 1 ->
  before r (Z.lor (Z.lor (Z.lor 64 (Z.shiftl (dr + 2) 4)) (Z.shiftl (dg + 2) 2)) (db + 2) :: k) ->
  let p := Px (wrapping_add8 (red prev) (as_u8 dr)) (wrapping_add8 (green prev) (as_u8 dg)) (wrapping_add8 (blue prev) (as_u8 db)) (alpha prev) in
  exists r', chunk r t prev = Ok (r', table_set t (hash p) p, p, 0) /\ before r' k.
Proof.
  intros Hdr Hdg Hdb H p. destruct (get_u8_before _ _ _ H) as (r' & E & Hr'). exists r'. split; [|done]. unfold chunk. rewrite E. cbn [mbind result_bind].
  set (tag := Z.lor _ (db + 2)).
  assert (negb (tag =? 254) && negb (tag =? 255) && negb (Z.shiftr tag 6 =? 0) && (Z.shiftr tag 6 =? 1) && (Z.land (Z.shiftr tag 4) 3 - 2 =? dr) &&
    (Z.land (Z.shiftr tag 2) 3 - 2 =? dg) && (Z.land tag 3 - 2 =? db) = true) as Hc.
  { unfold tag. clear - Hdr Hdg Hdb. assert (dr = -2 \/ dr = -1 \/ dr = 0 \/ dr = 1) as Er by lia. assert (dg = -2 \/ dg = -1 \/ dg = 0 \/ dg = 1) as Eg by lia.
    assert (db = -2 \/ db = -1 \/ db = 0 \/ db = 1) as Eb by lia.
    destruct Er as [->|[->|[->| ->]]], Eg as [->|[->|[->| ->]]], Eb as [->|[->|[->| ->]]]; reflexivity. }
  rewrite !andb_true_iff, !negb_true_iff, !(Z.eqb_eq (_ - 2)) in Hc. destruct Hc as [[[[[[-> ->] ->] ->] ->] ->] ->]. done.
Qed.

(** The two bytes of a green difference and the others relative to it. *)
Lemma luma_chunk r t prev vg a b k :
  -32 <= vg <= 31 -> -8 <= a <= 7 -> -8 <= b <= 7 ->
  before r (Z.lor 128 (vg + 32) :: Z.lor (Z.shiftl (a + 8) 4) (b + 8) :: k) ->
  let p := Px (wrapping_add8 (red prev) (as_u8 (vg + a))) (wrapping_add8 (green prev) (as_u8 vg)) (wrapping_add8 (blue prev) (as_u8 (vg + b))) (alpha prev) in
  exists r', chunk r t prev = Ok (r', table_set t (hash p) p, p, 0) /\ before r' k.
Proof.
  intros Hvg Ha Hb H p. destruct (get_u8_before _ _ _ H) as (r1 & E & Hr1). destruct (get_u8_before _ _ _ Hr1) as (r' & E' & Hr').
  exists r'. split; [|done]. unfold chunk. rewrite E. cbn [mbind result_bind].
  set (tag := Z.lor 128 (vg + 32)). set (b2 := Z.lor (Z.shiftl (a + 8) 4) (b + 8)) in *.
  assert (negb (tag =? 254) && negb (tag =? 255) && negb (Z.shiftr tag 6 =? 0) && negb (Z.shiftr tag 6 =? 1) && (Z.shiftr tag 6 =? 2) && (Z.land tag 63 =? vg + 32) = true) as Hc.
  { unfold tag. generalize (vg + 32) (ltac:(lia) : 0 <= vg + 32 < 64). apply forall_range. vm_compute. reflexivity. }
  assert ((Z.land (Z.shiftr b2 4) 15 =? a + 8) && (Z.land b2 15 =? b + 8) = true) as Hc2.
  { unfold b2. generalize (a + 8) (ltac:(lia) : 0 <= a + 8 < 16). generalize (b + 8) (ltac:(lia) : 0 <= b + 8 < 16). clear. intros v Hv u Hu.
    assert (forallb (fun v => (Z.land (Z.shiftr (Z.lor (Z.shiftl u 4) v) 4) 15 =? u) && (Z.land (Z.lor (Z.shiftl u 4) v) 15 =? v)) (seqZ 0 16) = true) as Hall.
    { revert u Hu. apply (forall_range (fun u => forallb (fun v => (Z.land (Z.shiftr (Z.lor (Z.shiftl u 4) v) 4) 15 =? u) && (Z.land (Z.lor (Z.shiftl u 4) v) 15 =? v)) (seqZ 0 16))). vm_compute. reflexivity. }
    exact (forall_range _ 16 Hall v Hv). }
  rewrite !andb_true_iff, !negb_true_iff, (Z.eqb_eq (Z.land tag 63)) in Hc. destruct Hc as [[[[[-> ->] ->] ->] ->] ->].
  rewrite E'. cbn [mbind result_bind]. rewrite andb_true_iff, !Z.eqb_eq in Hc2. destruct Hc2 as [-> ->].
  replace (vg + 32 - 32) with vg by lia. replace (vg - 8 + (a + 8)) with (vg + a) by lia. replace (vg - 8 + (b + 8)) with (vg + b) by lia. done.
Qed.

Lemma within_spec lo hi v : within lo hi v = true <-> lo <= v <= hi.
Proof. unfold within. rewrite andb_true_iff, !Z.leb_le. done. Qed.

(** The chunk the encoder writes for a pixel is decoded to that pixel, and leaves
    the decoder with the encoder's array. *)
Lemma pixel_chunk_decodes r t prev p k :
  px_ok p -> length t = 64%nat -> before r (fst (pixel_chunk t prev p) ++ k) ->
  exists r', chunk r t prev = Ok (r', snd (pixel_chunk t prev p), p, 0) /\ before r' k.
Proof.
  intros (Hr & Hg & Hb & Ha) Hlen. unfold pixel_chunk. pose proof (hash_range p) as Hh. case_bool_decide as Hhit; cbn [fst snd app].
  { intros H. destruct (index_chunk r t prev (hash p) k Hh H) as (r' & E & Hr'). exists r'. split; [|done]. rewrite E, Hhit. do 4 f_equal.
    destruct (lookup_lt_is_Some_2 t (Z.to_nat (hash p)) ltac:(lia)) as [q Hq]. unfold table_set. apply list_insert_id.
    unfold table_get in Hhit. rewrite Hq in Hhit |- *. cbn in Hhit. by rewrite Hhit. }
  cbv zeta. destruct (Z.eqb_spec (alpha p) (alpha prev)) as [Ea|Ea]; cbn [fst snd app].
  2:{ intros H. destruct (get_u8_before _ _ _ H) as (r1 & E1 & H1). destruct (get_bytes_before r1 [red p; green p; blue p; alpha p] k H1) as (r2 & E2 & H2).
      change (zlen [red p; green p; blue p; alpha p]) with 4 in E2. exists r2. split; [|done]. unfold chunk. rewrite E1. cbn [mbind result_bind].
      change (255 =? 254) with false. change (255 =? 255) with true. cbn iota. rewrite E2. cbn [mbind result_bind]. by destruct p. }
  set (vr := diff8 (red p) (red prev)). set (vg := diff8 (green p) (green prev)). set (vb := diff8 (blue p) (blue prev)).
  assert (forall d, d mod 256 = vr mod 256 -> wrapping_add8 (red prev) (as_u8 d) = red p) as Er by (intros d Hd; apply add_back; [done|]; rewrite Hd; apply wrap8_mod).
  assert (wrapping_add8 (green prev) (as_u8 vg) = green p) as Eg by (apply add_back; [done|]; apply wrap8_mod).
  assert (forall d, d mod 256 = vb mod 256 -> wrapping_add8 (blue prev) (as_u8 d) = blue p) as Eb by (intros d Hd; apply add_back; [done|]; rewrite Hd; apply wrap8_mod).
  destruct (within (-2) 1 vr && within (-2) 1 vg && within (-2) 1 vb) eqn:Ed; cbn [fst snd app].
  { rewrite !andb_true_iff, !within_spec in Ed. destruct Ed as [[D1 D2] D3]. intros H.
    destruct (diff_chunk r t prev vr vg vb k ltac:(lia) ltac:(lia) ltac:(lia) H) as (r' & E & Hr'). exists r'. split; [|done].
    rewrite E, Er, Eg, Eb by done. rewrite <- Ea. by destruct p. }
  set (a := wrap_i 8 (vr - vg)). set (b := wrap_i 8 (vb - vg)).
  destruct (within (-32) 31 vg && within (-8) 7 a && within (-8) 7 b) eqn:El; cbn [fst snd app].
  { rewrite !andb_true_iff, !within_spec in El. destruct El as [[D1 D2] D3]. intros H.
    destruct (luma_chunk r t prev vg a b k ltac:(lia) ltac:(lia) ltac:(lia) H) as (r' & E & Hr'). exists r'. split; [|done].
    rewrite E, Er, Eg, Eb; [by rewrite <- Ea; destruct p| |].
    - unfold b. rewrite <- Zplus_mod_idemp_r, wrap8_mod, Zplus_mod_idemp_r. f_equal. lia.
    - unfold a. rewrite <- Zplus_mod_idemp_r, wrap8_mod, Zplus_mod_idemp_r. f_equal. lia. }
  intros H. destruct (get_u8_before _ _ _ H) as (r1 & E1 & H1). destruct (get_bytes_before r1 [red p; green p; blue p] k H1) as (r2 & E2 & H2).
  change (zlen [red p; green p; blue p]) with 3 in E2. exists r2. split; [|done]. unfold chunk. rewrite E1. cbn [mbind result_bind].
  change (254 =? 254) with true. cbn iota. rewrite E2. cbn [mbind result_bind]. rewrite <- Ea. by destruct p.
Qed.

Lemma pixel_chunk_table t prev p : length (snd (pixel_chunk t prev p)) = length t.
Proof.
  unfold pixel_chunk, table_set. case_bool_decide; [done|]. cbv zeta. repeat match goal with |- context [if ?b then _ else _] => destruct b end; apply length_insert.
Qed.

(** ** Pixel streams *)

(** The encoder over a list of pixels. *)
Definition enc_list (total : Z) (ps : list px) (s : enc) : enc := fold_left (fun s p => enc_step total p s) ps s.

(** [n] pixels of the decoder. *)
Fixpoint next_pixels (n : nat) (r : cursor) (t : table_t) (prev : px) (run : Z) : result error (list px * (cursor * table_t * px * Z)) :=
  match n with
  | O => Ok ([], (r, t, prev, run))
  | S n =>
    '(r, t, prev, run) ← next_pixel r t prev run;
    '(ps, s) ← next_pixels n r t prev run;
    Ok (prev :: ps, s)
  end.

Lemma next_pixels_app n m r t prev run :
  next_pixels (n + m) r t prev run =
    ('(ps, (r, t, prev, run)) ← next_pixels n r t prev run; '(qs, s) ← next_pixels m r t prev run; Ok (ps ++ qs, s)).
Proof.
  revert r t prev run. induction n as [|n IH]; intros r t prev run; cbn [next_pixels Nat.add mbind result_bind app].
  { destruct (next_pixels m r t prev run) as [[? ?]|]; done. }
  destruct (next_pixel r t prev run) as [[[[r' t'] p'] k']|]; [|done]. cbn [mbind result_bind]. rewrite IH.
  destruct (next_pixels n r' t' p' k') as [[ps [[[r2 t2] p2] k2]]|]; [|done]. cbn [mbind result_bind].
  destruct (next_pixels m r2 t2 p2 k2) as [[? ?]|]; done.
Qed.

Lemma next_pixels_run n r t prev : next_pixels n r t prev (Z.of_nat n) = Ok (repeat prev n, (r, t, prev, 0)).
Proof.
  induction n as [|n IH]; [done|]. cbn [next_pixels]. unfold next_pixel. rewrite (proj2 (Z.ltb_lt _ _)) by lia. cbn [mbind result_bind].
  replace (Z.of_nat (S n) - 1) with (Z.of_nat n) by lia. by rewrite IH.
Qed.

(** A run byte, and the run it stands for. *)
Lemma run_decodes n r t prev k :
  (1 <= n)%nat -> Z.of_nat n <= RUN_MAX -> before r (run_byte (Z.of_nat n) :: k) ->
  exists r', next_pixels n r t prev 0 = Ok (repeat prev n, (r', t, prev, 0)) /\ before r' k.
Proof.
  intros Hn Hm H. destruct (run_chunk r t prev (Z.of_nat n) k ltac:(lia) H) as (r' & E & Hr'). exists r'. split; [|done].
  destruct n as [|n]; [lia|]. cbn [next_pixels]. unfold next_pixel. cbn [Z.ltb]. change (0 <? 0) with false. cbn iota. rewrite E. cbn [mbind result_bind].
  replace (Z.of_nat (S n) - 1) with (Z.of_nat n) by lia. by rewrite next_pixels_run.
Qed.

Lemma chunk_decodes r t prev p k :
  px_ok p -> length t = 64%nat -> before r (fst (pixel_chunk t prev p) ++ k) ->
  exists r', next_pixels 1 r t prev 0 = Ok ([p], (r', snd (pixel_chunk t prev p), p, 0)) /\ before r' k.
Proof.
  intros Hp Hl H. destruct (pixel_chunk_decodes r t prev p k Hp Hl H) as (r' & E & Hr'). exists r'. split; [|done].
  cbn [next_pixels]. unfold next_pixel. change (0 <? 0) with false. cbn iota. by rewrite E.
Qed.

Lemma repeat_snoc (p : px) n l : repeat p (S n) ++ l = repeat p n ++ p :: l.
Proof. induction n as [|n IH]; [done|]. cbn [repeat app] in *. by rewrite IH. Qed.

(** What the encoder writes for a list of pixels, after a run it has not written
    yet, is decoded to that run and those pixels. *)
Lemma stream_decodes total ps s :
  Forall px_ok ps -> length (etable s) = 64%nat -> 0 <= erun s < RUN_MAX -> seen s + zlen ps = total -> (ps = [] -> erun s = 0) ->
  exists body, eout (enc_list total ps s) = eout s ++ body /\
    forall r k, before r (body ++ k) -> exists r' t' p',
      next_pixels (Z.to_nat (erun s) + length ps) r (etable s) (eprev s) 0 =
        Ok (repeat (eprev s) (Z.to_nat (erun s)) ++ ps, (r', t', p', 0)) /\ before r' k.
Proof.
  revert s. induction ps as [|p ps IH]; intros s Hps Ht Hr Hseen Hnil.
  { exists []. split; [by rewrite app_nil_r|]. intros r k H. rewrite (Hnil eq_refl). exists r, (etable s), (eprev s). done. }
  apply Forall_cons in Hps as [Hp Hps]. rewrite zlen_cons in Hseen. change (enc_list total (p :: ps) s) with (enc_list total ps (enc_step total p s)).
  unfold enc_step. cbv zeta. case_bool_decide as Heq.
  - subst p. destruct ((erun s + 1 =? RUN_MAX) || (seen s + 1 =? total)) eqn:Ef.
    + destruct (IH (Enc (eout s ++ [run_byte (erun s + 1)]) (etable s) (eprev s) 0 (seen s + 1)) Hps Ht ltac:(cbn; unfold RUN_MAX; lia) ltac:(cbn; lia) ltac:(done))
        as (body & Eo & Hd). cbn [eout etable eprev erun] in Eo, Hd.
      exists (run_byte (erun s + 1) :: body). split; [by rewrite Eo, <- app_assoc|]. intros r k H.
      destruct (run_decodes (S (Z.to_nat (erun s))) r (etable s) (eprev s) (body ++ k) ltac:(lia) ltac:(lia)) as (r1 & E1 & H1).
      { replace (Z.of_nat (S (Z.to_nat (erun s)))) with (erun s + 1) by lia. exact H. }
      destruct (Hd r1 k H1) as (r' & t' & p' & E2 & H2). exists r', t', p'. split; [|done].
      cbn [length]. replace (Z.to_nat (erun s) + S (length ps))%nat with (S (Z.to_nat (erun s)) + (0 + length ps))%nat by lia.
      rewrite next_pixels_app, E1. cbn [mbind result_bind]. change (Z.to_nat 0) with 0%nat in E2. rewrite E2. cbn [mbind result_bind repeat app].
      do 2 f_equal. apply repeat_snoc.
    + apply orb_false_iff in Ef as [Ef1 Ef2]. apply Z.eqb_neq in Ef1, Ef2.
      destruct (IH (Enc (eout s) (etable s) (eprev s) (erun s + 1) (seen s + 1)) Hps Ht ltac:(cbn; lia) ltac:(cbn; lia)) as (body & Eo & Hd).
      { intros ->. change (zlen (@nil px)) with 0 in Hseen. lia. }
      cbn [eout etable eprev erun] in Eo, Hd. exists body. split; [done|]. intros r k H.
      destruct (Hd r k H) as (r' & t' & p' & E2 & H2). exists r', t', p'. split; [|done]. replace (Z.to_nat (erun s + 1)) with (S (Z.to_nat (erun s))) in E2 by lia.
      cbn [length]. replace (Z.to_nat (erun s) + S (length ps))%nat with (S (Z.to_nat (erun s)) + length ps)%nat by lia. rewrite E2. do 2 f_equal. apply repeat_snoc.
  - pose proof (pixel_chunk_table (etable s) (eprev s) p) as Ht'. pose proof (fun r k => chunk_decodes r (etable s) (eprev s) p k Hp Ht) as Hchunk.
    destruct (pixel_chunk (etable s) (eprev s) p) as [bs t]. cbn [fst snd] in Ht', Hchunk. set (out := if 0 <? erun s then _ else _).
    destruct (IH (Enc (out ++ bs) t p 0 (seen s + 1)) Hps ltac:(cbn; congruence) ltac:(cbn; unfold RUN_MAX; lia) ltac:(cbn; lia) ltac:(done)) as (body & Eo & Hd).
    cbn [eout etable eprev erun] in Eo, Hd. set (rb := if 0 <? erun s then [run_byte (erun s)] else []).
    exists (rb ++ bs ++ body). split; [unfold out, rb in *; destruct (0 <? erun s); rewrite Eo, <- !app_assoc; done|]. intros r k H.
    assert (exists r1, next_pixels (Z.to_nat (erun s)) r (etable s) (eprev s) 0 = Ok (repeat (eprev s) (Z.to_nat (erun s)), (r1, etable s, eprev s, 0)) /\
      before r1 (bs ++ body ++ k)) as (r1 & E1 & H1).
    { rewrite <- !app_assoc in H. unfold rb in H. destruct (Z.ltb_spec 0 (erun s)).
      - apply run_decodes; [lia|lia|]. by rewrite Z2Nat.id by lia.
      - replace (Z.to_nat (erun s)) with 0%nat by lia. by exists r. }
    destruct (Hchunk r1 (body ++ k) H1) as (r2 & E2 & H2). destruct (Hd r2 k H2) as (r' & t' & p' & E3 & H3). exists r', t', p'. split; [|done].
    cbn [length]. replace (S (length ps)) with (1 + (0 + length ps))%nat by lia. rewrite next_pixels_app, E1. cbn [mbind result_bind].
    rewrite next_pixels_app, E2. cbn [mbind result_bind]. change (Z.to_nat 0) with 0%nat in E3. by rewrite E3.
Qed.

(** The encoder's output grows by at most [c] bytes a pixel, when no chunk is
    longer; a pending run is paid for by its pixels. *)
Definition pending_run (s : enc) : Z := if 0 <? erun s then 1 else 0.

Lemma pixel_chunk_length t prev p :
  zlen (fst (pixel_chunk t prev p)) <= if alpha p =? alpha prev then 4 else 5.
Proof.
  unfold pixel_chunk, zlen. case_bool_decide; [cbn [fst length]; destruct (alpha p =? alpha prev); lia|]. cbv zeta.
  destruct (alpha p =? alpha prev); [|cbn [fst length]; lia].
  repeat match goal with |- context [if ?b then _ else _] => destruct b end; cbn [fst length]; lia.
Qed.

Lemma stream_length total c ps s :
  Forall (fun p => c = 5 \/ c = 4 /\ alpha p = 255) ps -> c = 5 \/ c = 4 /\ alpha (eprev s) = 255 -> 0 <= erun s ->
  let s' := enc_list total ps s in zlen (eout s') + pending_run s' <= zlen (eout s) + pending_run s + c * zlen ps.
Proof.
  intros Hps. revert s. induction Hps as [|p ps Hp Hps IH]; intros s Hs Hr; cbv zeta; [change (zlen (@nil px)) with 0; cbn [enc_list fold_left]; lia|].
  change (enc_list total (p :: ps) s) with (enc_list total ps (enc_step total p s)). rewrite zlen_cons.
  assert (let s1 := enc_step total p s in zlen (eout s1) + pending_run s1 <= zlen (eout s) + pending_run s + c /\ 0 <= erun s1 /\
    (c = 5 \/ c = 4 /\ alpha (eprev s1) = 255)) as (H1 & H2 & H3).
  { unfold enc_step. cbv zeta. case_bool_decide as Heq.
    - destruct ((_ =? RUN_MAX) || _); unfold pending_run; cbn [eout erun eprev]; rewrite ?zlen_app; change (zlen [run_byte (erun s + 1)]) with 1;
        (split; [|split; [lia|done]]); destruct (0 <? erun s), (0 <? erun s + 1); cbn; lia.
    - pose proof (pixel_chunk_length (etable s) (eprev s) p) as Hl. destruct (pixel_chunk _ _ p) as [bs t]. unfold pending_run. cbn [eout erun eprev fst] in *.
      split; [|split; [lia|done]]. rewrite zlen_app. change (0 <? 0) with false. cbn iota.
      assert (zlen bs <= c) by (destruct Hp as [->|[-> Hp]]; [destruct (alpha p =? alpha (eprev s)); lia|];
        destruct Hs as [?|[_ Hs]]; [lia|]; by rewrite Hp, Hs in Hl).
      destruct (0 <? erun s); rewrite ?zlen_app; try change (zlen [run_byte (erun s)]) with 1; lia. }
  specialize (IH _ H3 H2). cbv zeta in IH. lia.
Qed.

(** ** The pixels of a plane *)

Definition row (w y : Z) : list (Z * Z) := map (pair y) (seqZ 0 w).
Definition coords (w y n : Z) : list (Z * Z) := concat (map (row w) (seqZ y n)).

Fixpoint for_coords {S : Type} (body : Z -> Z -> S -> result error S) (cs : list (Z * Z)) (s : S) : result error S :=
  match cs with
  | [] => Ok s
  | (y, x) :: cs => s ← body y x s; for_coords body cs s
  end.

Lemma for_coords_app {S : Type} (body : Z -> Z -> S -> result error S) cs ds s :
  for_coords body (cs ++ ds) s = (s ← for_coords body cs s; for_coords body ds s).
Proof.
  revert s. induction cs as [|[y x] cs IH]; intros s; [done|]. cbn [app for_coords].
  destruct (body y x s) as [s'|]; [|done]. cbn [mbind result_bind]. apply IH.
Qed.

Lemma for_each_row {S : Type} (body : Z -> Z -> S -> result error S) y l s :
  for_each (body y) l s = for_coords body (map (pair y) l) s.
Proof.
  revert s. induction l as [|x l IH]; intros s; [done|]. cbn [for_each map for_coords].
  destruct (body y x s) as [s'|]; [|done]. cbn [mbind result_bind]. apply IH.
Qed.

(** The nested loops visit the pixels row by row. *)
Lemma for_rows_coords {S : Type} (body : Z -> Z -> S -> result error S) w h s :
  for_rows body w h s = for_coords body (coords w 0 h) s.
Proof.
  unfold for_rows, coords. generalize (seqZ 0 h). intros ys. revert s. induction ys as [|y ys IH]; intros s; [done|].
  cbn [for_each map concat]. rewrite for_coords_app, for_each_row. fold (row w y).
  destruct (for_coords body (row w y) s) as [s'|]; [|done]. cbn [mbind result_bind]. apply IH.
Qed.

Lemma coords_elem w h y x : 0 <= y < h -> 0 <= x < w -> (y, x) ∈ coords w 0 h.
Proof.
  intros Hy Hx. apply list_elem_of_In, in_concat. exists (row w y). split.
  - apply in_map, list_elem_of_In, elem_of_seqZ. lia.
  - apply in_map, list_elem_of_In, elem_of_seqZ. lia.
Qed.

Lemma coords_in w h c : c ∈ coords w 0 h -> 0 <= fst c < h /\ 0 <= snd c < w.
Proof.
  intros H. apply list_elem_of_In, in_concat in H as (l & Hl & Hc). apply in_map_iff in Hl as (y & <- & Hy).
  apply in_map_iff in Hc as (x & <- & Hx). apply list_elem_of_In, elem_of_seqZ in Hy, Hx. cbn. lia.
Qed.

Lemma coords_length w y n : 0 <= w -> zlen (coords w y (Z.of_nat n)) = w * Z.of_nat n.
Proof.
  intros Hw. revert y. induction n as [|n IH]; intros y; [unfold coords; rewrite seqZ_nil by lia; change (zlen (concat (map (row w) []))) with 0; lia|].
  unfold coords. rewrite seqZ_cons by lia. cbn [map concat]. rewrite zlen_app. replace (Z.pred (Z.of_nat (S n))) with (Z.of_nat n) by lia.
  fold (coords w (Z.succ y) (Z.of_nat n)). rewrite IH. unfold row, zlen at 1. rewrite length_map, length_seqZ. lia.
Qed.

(** Pixels laid out one after the other, from [lo] on and below [hi]. *)
Fixpoint laid_out (stride bpp lo hi : Z) (cs : list (Z * Z)) : Prop :=
  match cs with
  | [] => True
  | (y, x) :: cs =>
    let o := y * stride + x * bpp in
    lo <= o /\ 0 <= y * stride /\ 0 <= x * bpp /\ o + bpp <= hi /\ laid_out stride bpp (o + bpp) hi cs
  end.

Lemma row_laid_out stride bpp lo hi y n k rest :
  0 <= y -> 0 <= stride -> 0 <= k -> 0 <= bpp -> lo <= y * stride + k * bpp -> y * stride + (k + Z.of_nat n) * bpp <= hi ->
  (forall lo', lo' <= y * stride + (k + Z.of_nat n) * bpp -> laid_out stride bpp lo' hi rest) ->
  laid_out stride bpp lo hi (map (pair y) (seqZ k (Z.of_nat n)) ++ rest).
Proof.
  intros Hy Hs. revert k lo. induction n as [|n IH]; intros k lo Hk Hb Hlo Hhi Hrest.
  { rewrite seqZ_nil by lia. cbn [map app]. apply Hrest. lia. }
  rewrite seqZ_cons by lia. replace (Z.pred (Z.of_nat (S n))) with (Z.of_nat n) by lia. cbn [map app laid_out]. cbv zeta.
  split; [done|]. split; [nia|]. split; [nia|]. split; [nia|]. apply IH; [lia|lia|nia|nia|]. intros lo' Hlo'. apply Hrest. nia.
Qed.

Lemma coords_laid_out stride bpp w n y lo hi :
  0 <= y -> 0 <= w -> 0 <= bpp -> w * bpp <= stride -> lo <= y * stride -> (y + Z.of_nat n) * stride <= hi ->
  laid_out stride bpp lo hi (coords w y (Z.of_nat n)).
Proof.
  intros Hy Hw Hb Hst. revert y lo Hy. induction n as [|n IH]; intros y lo Hy Hlo Hhi; unfold coords; [by rewrite seqZ_nil by lia|].
  rewrite seqZ_cons by lia. replace (Z.pred (Z.of_nat (S n))) with (Z.of_nat n) by lia. cbn [map concat].
  fold (coords w (Z.succ y) (Z.of_nat n)). unfold row. rewrite <- (Z2Nat.id w) at 1 by lia.
  assert (0 <= stride) by nia. apply row_laid_out; rewrite ?Z2Nat.id by lia; try lia; try nia.
  intros lo' Hlo'. apply IH; [lia|nia|nia].
Qed.

(** Writing every pixel at its place. *)
Fixpoint write_all (stride bpp : Z) (buf : list Z) (cs : list (Z * Z)) (ps : list px) : result error (list Z) :=
  match cs, ps with
  | (y, x) :: cs, p :: ps => buf ← write_pixel buf (offset_of stride bpp y x) (pixel_bytes bpp p); write_all stride bpp buf cs ps
  | _, _ => Ok buf
  end.

Lemma zlen_pixel_bytes bpp p : bpp = 3 \/ bpp = 4 -> zlen (pixel_bytes bpp p) = bpp.
Proof. intros [->| ->]; done. Qed.

Lemma write_pixel_ok buf o l :
  0 <= o -> o + zlen l <= zlen buf < 2 ^ 64 ->
  exists buf', write_pixel buf o l = Ok buf' /\ zlen buf' = zlen buf /\
    (forall a b, 0 <= a -> b <= o -> get_range buf' a b = get_range buf a b) /\ read_pixel buf' o (zlen l) = Ok l.
Proof.
  intros Ho Hl. pose proof (zlen_nonneg l). unfold write_pixel. cbv zeta. rewrite sat_u_id by lia. rewrite !(proj2 (Z.leb_le _ _)) by lia. cbn [andb].
  set (buf' := take (Z.to_nat o) buf ++ l ++ drop (Z.to_nat (o + zlen l)) buf). exists buf'. split; [done|].
  assert (zlen buf' = zlen buf) as Hz.
  { unfold buf', zlen in *. rewrite !length_app, length_take, length_drop. lia. }
  assert (length (take (Z.to_nat o) buf) = Z.to_nat o) as Ht by (rewrite length_take; unfold zlen in *; lia).
  split; [done|]. split.
  - intros a b Ha Hb. unfold get_range. rewrite Hz. destruct ((0 <=? a) && (a <=? b) && (b <=? zlen buf)) eqn:E; [|done].
    rewrite !andb_true_iff, !Z.leb_le in E. f_equal. unfold buf'. rewrite drop_app_le, take_app_le by (rewrite ?length_drop; lia).
    rewrite <- (take_drop (Z.to_nat o) buf) at 2. rewrite drop_app_le, take_app_le by (rewrite ?length_drop; lia). done.
  - unfold read_pixel, get_range. rewrite sat_u_id, Hz by lia. rewrite !(proj2 (Z.leb_le _ _)) by lia. cbn [andb ok_or]. f_equal.
    unfold buf'. rewrite drop_app_length' by lia. rewrite take_app_length' by (unfold zlen; lia). done.
Qed.

Lemma write_all_ok stride bpp lo buf cs ps :
  bpp = 3 \/ bpp = 4 -> 0 <= lo -> zlen buf < 2 ^ 64 -> length ps = length cs -> laid_out stride bpp lo (zlen buf) cs ->
  exists buf', write_all stride bpp buf cs ps = Ok buf' /\ zlen buf' = zlen buf /\
    (forall a b, 0 <= a -> b <= lo -> get_range buf' a b = get_range buf a b) /\
    forall i c p, cs !! i = Some c -> ps !! i = Some p ->
      read_pixel buf' (offset_of stride bpp (fst c) (snd c)) bpp = Ok (pixel_bytes bpp p).
Proof.
  intros Hb. revert lo buf ps. induction cs as [|[y x] cs IH]; intros lo buf ps Hlo Hlen Hps Hlay.
  { exists buf. by destruct ps. }
  destruct ps as [|p ps]; [done|]. cbn [laid_out] in Hlay. cbv zeta in Hlay. destruct Hlay as (H1 & H2 & H3 & H4 & H5).
  assert (offset_of stride bpp y x = y * stride + x * bpp) as Eo.
  { assert (3 <= bpp) by (destruct Hb; lia). clear Hb. unfold offset_of. rewrite (sat_u_id 64 (y * stride)), (sat_u_id 64 (x * bpp)), sat_u_id by lia. done. }
  cbn [write_all]. rewrite Eo. destruct (write_pixel_ok buf (y * stride + x * bpp) (pixel_bytes bpp p)) as (b1 & E1 & Hz1 & Hold1 & Hnew1);
    rewrite ?zlen_pixel_bytes by done; [lia|lia|]. rewrite E1. cbn [mbind result_bind].
  destruct (IH (y * stride + x * bpp + bpp) b1 ps ltac:(lia) ltac:(lia) ltac:(cbn in Hps; lia) ltac:(by rewrite Hz1)) as (b2 & E2 & Hz2 & Hold2 & Hnew2).
  exists b2. split; [done|]. split; [lia|]. split.
  - intros a b Ha Hab. rewrite Hold2 by lia. apply Hold1; lia.
  - intros i c q Hc Hq. destruct i as [|i]; [|by apply (Hnew2 i)]. injection Hc as <-. injection Hq as <-. cbn [fst snd]. rewrite Eo.
    rewrite zlen_pixel_bytes in Hnew1 by done. rewrite <- Hnew1. unfold read_pixel. f_equal. rewrite sat_u_id by lia. apply Hold2; lia.
Qed.

Lemma dec_pixel_next bpp stride y x r t prev run buf r1 t1 p1 k1 :
  next_pixel r t prev run = Ok (r1, t1, p1, k1) ->
  dec_pixel bpp stride y x (Dec r t prev run buf) =
    (buf ← write_pixel buf (offset_of stride bpp y x) (pixel_bytes bpp p1); Ok (Dec r1 t1 p1 k1 buf)).
Proof. intros E. unfold dec_pixel. cbn [dreader dtable dprev drun dbuf]. by rewrite E. Qed.

(** The decoder's loop: the pixels of the stream, written at their places. *)
Lemma dec_coords stride bpp cs r t prev run buf ps r' t' p' run' :
  next_pixels (length cs) r t prev run = Ok (ps, (r', t', p', run')) ->
  for_coords (dec_pixel bpp stride) cs (Dec r t prev run buf) =
    (buf ← write_all stride bpp buf cs ps; Ok (Dec r' t' p' run' buf)).
Proof.
  revert r t prev run buf ps. induction cs as [|[y x] cs IH]; intros r t prev run buf ps E; cbn [length next_pixels] in E.
  { by injection E as <- <- <- <- <-. }
  destruct (next_pixel r t prev run) as [[[[r1 t1] p1] k1]|] eqn:E1; [|done]. cbn [mbind result_bind] in E.
  destruct (next_pixels (length cs) r1 t1 p1 k1) as [[qs [[[r2 t2] p2] k2]]|] eqn:E2; [|done]. cbn [mbind result_bind] in E. injection E as <- <- <- <- <-.
  cbn [for_coords write_all]. rewrite (dec_pixel_next _ _ _ _ _ _ _ _ _ _ _ _ _ E1).
  destruct (write_pixel buf (offset_of stride bpp y x) (pixel_bytes bpp p1)) as [b1|e]; [|done]. cbn [mbind result_bind]. by apply IH.
Qed.

Lemma enc_pixel_sample channels bpp stride total src y x s p :
  sample channels src (offset_of stride bpp y x) bpp = Ok p ->
  enc_pixel channels bpp stride total src y x s = Ok (enc_step total p s).
Proof. intros E. unfold enc_pixel. by rewrite E. Qed.

(** The encoder's loop: the pixels read, then the stream. *)
Lemma enc_coords channels bpp stride total src cs s s' :
  for_coords (enc_pixel channels bpp stride total src) cs s = Ok s' ->
  exists ps, Forall2 (fun c p => sample channels src (offset_of stride bpp (fst c) (snd c)) bpp = Ok p) cs ps /\ s' = enc_list total ps s.
Proof.
  revert s. induction cs as [|[y x] cs IH]; intros s E; [injection E as <-; by exists []|].
  cbn [for_coords] in E. destruct (sample channels src (offset_of stride bpp y x) bpp) as [p|] eqn:Ep.
  2:{ unfold enc_pixel in E. by rewrite Ep in E. }
  rewrite (enc_pixel_sample _ _ _ _ _ _ _ _ _ Ep) in E. cbn [mbind result_bind] in E. apply IH in E as (ps & Hps & ->). exists (p :: ps). split; [by constructor|done].
Qed.

Lemma enc_coords_ok channels bpp stride total src cs s ps :
  Forall2 (fun c p => sample channels src (offset_of stride bpp (fst c) (snd c)) bpp = Ok p) cs ps ->
  for_coords (enc_pixel channels bpp stride total src) cs s = Ok (enc_list total ps s).
Proof.
  intros H. revert s. induction H as [|[y x] p cs ps Hp _ IH]; intros s; [done|]. cbn [for_coords fst snd] in *.
  rewrite (enc_pixel_sample _ _ _ _ _ _ _ _ _ Hp). cbn [mbind result_bind]. apply IH.
Qed.

(** A sample is the bytes of its pixel. *)
Lemma sample_spec bpp src o p :
  bpp = 3 \/ bpp = 4 -> Forall byte src -> sample bpp src o bpp = Ok p ->
  read_pixel src o bpp = Ok (pixel_bytes bpp p) /\ px_ok p /\ (bpp = 3 -> alpha p = 255).
Proof.
  intros Hb Hsrc E. unfold sample in E. destruct (read_pixel src o bpp) as [l|] eqn:El; [|done]. cbn [mbind result_bind] in E.
  assert (Forall byte l) as Hl.
  { unfold read_pixel, get_range in El. destruct (_ && _ && _); [|done]. injection El as <-. by apply Forall_take, Forall_drop. }
  destruct Hb as [->| ->].
  - change (3 =? 4) with false in E. cbn iota in E. destruct l as [|r [|g [|b [|? ?]]]]; try done. injection E as <-.
    rewrite !Forall_cons in Hl. destruct Hl as (? & ? & ? & _). split; [done|]. split; [|done]. unfold px_ok, byte in *. cbn. lia.
  - change (4 =? 4) with true in E. cbn iota in E. destruct l as [|r [|g [|b [|a [|? ?]]]]]; try done. injection E as <-.
    rewrite !Forall_cons in Hl. destruct Hl as (? & ? & ? & ? & _). split; [done|]. split; [|done]. unfold px_ok. done.
Qed.

(** ** Images *)

(** The formats QOI stores, with their bytes per pixel. *)
Definition channels_of (f : pix_fmt) : option Z := match f with Rgb24 => Some 3 | Rgba => Some 4 | _ => None end.

Lemma channels_of_cases f bpp : channels_of f = Some bpp -> f = Rgb24 /\ bpp = 3 \/ f = Rgba /\ bpp = 4.
Proof. destruct f; try done; intros [= <-]; auto. Qed.

Lemma span_same_step t w st i l : log2_chroma_w t = 0 -> 0 <= w * st -> Forall (fun x => PixFmt.plane x = 0 /\ step x = st) l -> l <> [] ->
  span_from t w 0 i 0 l = w * st.
Proof.
  intros Hs Hw Hl Hne. assert (forall j, samples t w j = w) as Hsam.
  { intros j. unfold samples. rewrite Hs. cbv zeta. rewrite Z.shiftr_0_r. change (Z.shiftl 1 0) with 1. destruct (_ || _); lia. }
  assert (forall sp j, sp = 0 \/ sp = w * st -> l <> [] \/ sp = w * st -> span_from t w 0 j sp l = w * st) as H; [|apply H; auto].
  clear i Hne. induction Hl as [|x l [Hp Hx] _ IH]; intros sp j Hsp Hor; cbn [span_from]; cbv zeta; [destruct Hor; done|].
  rewrite Hp, Hx, Hsam. change (0 =? 0) with true. cbn iota. assert ((if sp <? w * st then w * st else sp) = w * st) as -> by (destruct (Z.ltb_spec sp (w * st)); lia).
  apply IH; auto.
Qed.

Lemma channels_geometry f bpp w h :
  channels_of f = Some bpp -> 0 <= w ->
  plane_count f = 1 /\ min_stride f w 0 = w * bpp /\ plane_height f h 0 = h.
Proof.
  intros Hc Hw. assert (descriptor_geometry : planes (get_descriptor f) = 1 /\ log2_chroma_w (get_descriptor f) = 0 /\
    contains (flags (get_descriptor f)) BITSTREAM = false /\ chroma_plane (get_descriptor f) 0 = false /\
    Forall (fun x => PixFmt.plane x = 0 /\ step x = bpp) (components (get_descriptor f)) /\ components (get_descriptor f) <> []).
  { destruct (channels_of_cases f bpp Hc) as [[-> ->]|[-> ->]]; vm_compute; repeat split; try done; repeat constructor. }
  destruct descriptor_geometry as (H1 & H2 & H3 & H4 & H5 & H6). unfold plane_count, min_stride, plane_height. rewrite H1, H3, H4.
  split; [done|]. split; [|done]. apply span_same_step; try done. destruct (channels_of_cases f bpp Hc) as [[_ ->]|[_ ->]]; lia.
Qed.

Lemma be_value_u32 v : 0 <= v < 2 ^ 32 -> wrap_u 32 (be_value (be_bytes 4 v)) = v.
Proof. intros Hv. rewrite be_value_be_bytes. change (256 ^ Z.of_nat 4) with (2 ^ 32). unfold wrap_u. rewrite Z.mod_mod by lia. by apply Z.mod_small. Qed.

Lemma header_decodes r f bpp w h k :
  channels_of f = Some bpp -> 0 < w < 2 ^ 32 -> 0 < h < 2 ^ 32 ->
  before r ((MAGIC ++ be_bytes 4 w ++ be_bytes 4 h ++ [bpp; 0]) ++ k) ->
  exists r', read_header r = Ok (Header w h f bpp, r') /\ before r' k.
Proof.
  intros Hc Hw Hh H. rewrite <- !app_assoc in H.
  destruct (get_bytes_before r MAGIC _ H) as (r1 & E1 & H1). change (zlen MAGIC) with 4 in E1.
  destruct (get_bytes_before r1 (be_bytes 4 w) _ H1) as (r2 & E2 & H2). change (zlen (be_bytes 4 w)) with 4 in E2.
  destruct (get_bytes_before r2 (be_bytes 4 h) _ H2) as (r3 & E3 & H3). change (zlen (be_bytes 4 h)) with 4 in E3.
  destruct (get_u8_before r3 bpp _ H3) as (r4 & E4 & H4). destruct (get_u8_before r4 0 _ H4) as (r5 & E5 & H5).
  exists r5. split; [|done]. unfold read_header. rewrite E1. cbn [mbind result_bind]. rewrite bool_decide_eq_true_2 by done.
  unfold get_u32_be. rewrite E2. cbn [mbind result_bind]. rewrite be_value_u32 by lia. rewrite E3. cbn [mbind result_bind]. rewrite be_value_u32 by lia.
  rewrite E4. cbn [mbind result_bind]. rewrite E5. cbn [mbind result_bind]. rewrite !(proj2 (Z.eqb_neq _ 0)) by lia. cbn [orb].
  by destruct (channels_of_cases f bpp Hc) as [[-> ->]|[-> ->]].
Qed.

(** What an encode that succeeds has read and written. *)
Lemma encode_inv f fmt bpp w h planes data :
  channels_of fmt = Some bpp -> fdata f = Video fmt w h planes -> encode f = Ok data ->
  w <> 0 /\ h <> 0 /\ exists pl ps, head planes = Some pl /\
    Forall2 (fun c p => sample bpp (bytes pl) (offset_of (stride pl) bpp (fst c) (snd c)) bpp = Ok p) (coords w 0 h) ps /\
    data = eout (enc_list (w * h) ps (Enc (MAGIC ++ be_bytes 4 w ++ be_bytes 4 h ++ [bpp; 0]) table_new START_PIXEL 0 0)) ++ END_MARKER.
Proof.
  intros Hc Hf E. assert (encode_planes bpp bpp w h planes = Ok data) as E'.
  { unfold encode in E. rewrite Hf in E. by destruct (channels_of_cases fmt bpp Hc) as [[-> ->]|[-> ->]]. }
  clear E. unfold encode_planes in E'. destruct (Z.eqb_spec w 0); [done|]. destruct (Z.eqb_spec h 0); [done|]. cbn [orb] in E'.
  destruct (head planes) as [pl|]; [|done]. cbn [ok_or mbind result_bind] in E'. rewrite for_rows_coords in E'.
  destruct (for_coords _ _ _) as [s|] eqn:Es; [|done]. apply enc_coords in Es as (ps & Hps & ->). injection E' as <-.
  split; [done|]. split; [done|]. by exists pl, ps.
Qed.

(** A pixel that lies in the plane can be sampled. *)
Lemma sample_ok bpp src o : bpp = 3 \/ bpp = 4 -> 0 <= o /\ o + bpp <= zlen src < 2 ^ 64 -> exists p, sample bpp src o bpp = Ok p.
Proof.
  intros Hb [Ho Hl]. unfold sample, read_pixel, get_range. assert (3 <= bpp) by lia. rewrite sat_u_id by lia. rewrite !(proj2 (Z.leb_le _ _)) by lia. cbn [andb ok_or mbind result_bind].
  set (l := take _ _). assert (length l = Z.to_nat bpp) as E by (unfold l; rewrite length_take, length_drop; unfold zlen in Hl; lia). clearbody l.
  destruct Hb as [->| ->]; destruct l as [|a [|b [|c [|d [|e l]]]]]; try done; eexists; reflexivity.
Qed.

(** The output only grows. *)
Lemma enc_list_grows total ps s : zlen (eout s) <= zlen (eout (enc_list total ps s)).
Proof.
  revert s. induction ps as [|p ps IH]; intros s; [done|]. change (enc_list total (p :: ps) s) with (enc_list total ps (enc_step total p s)).
  etrans; [|apply IH]. unfold enc_step. cbv zeta. case_bool_decide.
  - destruct (_ || _); cbn [eout]; rewrite ?zlen_app; pose proof (zlen_nonneg [run_byte (erun s + 1)]); lia.
  - destruct (pixel_chunk _ _ _) as [bs t]. cbn [eout]. pose proof (zlen_nonneg bs). pose proof (zlen_nonneg [run_byte (erun s)]).
    destruct (0 <? erun s); rewrite !zlen_app; lia.
Qed.

Section core.
Context (allowed : Z -> bool) (addr : Z -> Z).

(** The same pixels in two frames, by the planes' own strides. *)
Definition same_pixels (f g : frame) : Prop :=
  exists fmt bpp w h pl ps ql qs, channels_of fmt = Some bpp /\ fdata f = Video fmt w h (pl :: ps) /\ fdata g = Video fmt w h (ql :: qs) /\
    forall y x, 0 <= y < h -> 0 <= x < w -> exists s, zlen s = bpp /\
      read_pixel (bytes pl) (offset_of (stride pl) bpp y x) bpp = Ok s /\ read_pixel (bytes ql) (offset_of (stride ql) bpp y x) bpp = Ok s.

Lemma decode_encode f fmt bpp w h pl rest data b fr b' :
  channels_of fmt = Some bpp -> fdata f = Video fmt w h (pl :: rest) -> 0 <= w < 2 ^ 32 -> 0 <= h < 2 ^ 32 -> Forall byte (bytes pl) ->
  encode f = Ok data -> zlen data < 2 ^ 64 ->
  Limits.accounts b -> Limits.pending b = 0 -> alloc_video allowed addr b fmt w h = (Ok fr, b') ->
  exists g, decode allowed addr data b = (Ok g, b') /\ same_pixels f g /\ fpts g = TS_NONE.
Proof.
  intros Hc Hf Hw Hh Hbytes He Hlen Ha Hp Halloc.
  destruct (encode_inv f fmt bpp w h (pl :: rest) data Hc Hf He) as (Hw0 & Hh0 & pl' & ps & [= <-] & Hps & ->).
  assert (bpp = 3 \/ bpp = 4) as Hbpp by (destruct (channels_of_cases fmt bpp Hc) as [[_ ->]|[_ ->]]; auto).
  set (hdr := MAGIC ++ be_bytes 4 w ++ be_bytes 4 h ++ [bpp; 0]) in *.
  assert (Forall px_ok ps /\ length ps = length (coords w 0 h)) as [Hpx Hlps].
  { split; [|by apply Forall2_length in Hps]. apply Forall_forall. intros p Hin. apply list_elem_of_lookup in Hin as [i Hi].
    destruct (Forall2_lookup_r _ _ _ _ _ Hps Hi) as (c & _ & Hs). apply (sample_spec bpp (bytes pl) _ p Hbpp Hbytes Hs). }
  assert (zlen ps = w * h) as Hn.
  { unfold zlen. rewrite Hlps. fold (zlen (coords w 0 h)). rewrite <- (Z2Nat.id h) at 1 by lia. rewrite coords_length by lia. lia. }
  destruct (stream_decodes (w * h) ps (Enc hdr table_new START_PIXEL 0 0) Hpx ltac:(done) ltac:(cbn; unfold RUN_MAX; lia) ltac:(cbn; lia) ltac:(done)) as (body & Eb & Hd).
  cbn [eout etable eprev erun] in Eb, Hd. rewrite Eb in Hlen |- *. rewrite <- app_assoc in Hlen |- *.
  destruct (header_decodes (cursor_new (hdr ++ body ++ END_MARKER)) fmt bpp w h (body ++ END_MARKER) Hc ltac:(lia) ltac:(lia)) as (r1 & E1 & H1); [by apply before_new|].
  destruct (Hd r1 END_MARKER H1) as (r2 & t2 & p2 & E2 & H2). change (Z.to_nat 0) with 0%nat in E2. cbn [Nat.add repeat app] in E2.
  rewrite <- (app_nil_r END_MARKER) in H2. destruct (get_bytes_before r2 END_MARKER [] H2) as (r3 & E3 & _).
  destruct (alloc_video_spec allowed addr b fmt w h (Ok fr) b' Ha Hp ltac:(lia) Halloc) as (_ & _ & -> & _ & _ & _ & _ & _ & Hsum).
  destruct (channels_geometry fmt bpp w h Hc ltac:(lia)) as (Hpc & Hms & Hph).
  unfold decode. rewrite E1. cbn [hformat hwidth hheight]. rewrite Halloc. unfold decode_into. cbn [fdata from_data].
  assert (fresh_planes fmt w h = [Plane (zeros (size_of fmt w h ALIGN 0)) (stride_of fmt w ALIGN 0)]) as -> by (unfold fresh_planes; by rewrite Hpc).
  cbn [head ok_or mbind result_bind List.tail channel_bytes hwidth hheight bytes stride]. rewrite for_rows_coords.
  set (st := stride_of fmt w ALIGN 0) in *. assert (size_of fmt w h ALIGN 0 = st * h) as Esz by (unfold size_of; by rewrite Hph). rewrite Esz.
  pose proof (stride_of_spec fmt w ALIGN 0 ltac:(done)) as [_ Hst]. fold st in Hst. rewrite Hms in Hst.
  assert (sum_sizes fmt w h ALIGN (seqZ 0 (plane_count fmt)) = st * h) as Hsum' by (rewrite Hpc; cbn [seqZ]; unfold sum_sizes; cbn [fold_right]; change (fold_right _ 0 (seqZ 0 1)) with (size_of fmt w h ALIGN 0 + 0); lia).
  rewrite Hsum' in Hsum. assert (0 <= st * h) by nia.
  destruct (write_all_ok st bpp 0 (zeros (st * h)) (coords w 0 h) ps Hbpp ltac:(lia) ltac:(rewrite zlen_zeros; lia) Hlps) as (buf & Ew & Hzb & _ & Hpix).
  { rewrite zlen_zeros by lia. rewrite <- (Z2Nat.id h) at 2 by lia. apply coords_laid_out; lia || (rewrite ?Z2Nat.id by lia; nia). }
  rewrite (dec_coords st bpp (coords w 0 h) r1 table_new START_PIXEL 0 (zeros (st * h)) ps r2 t2 p2 0) by (rewrite <- Hlps; exact E2).
  rewrite Ew. cbn [mbind result_bind dreader dbuf]. rewrite E3. cbn [mbind result_bind]. rewrite bool_decide_eq_true_2 by done.
  eexists. split; [done|]. split; [|done]. exists fmt, bpp, w, h, pl, rest, (Plane buf st), []. split; [done|]. split; [done|]. split; [done|].
  intros y x Hy Hx. destruct (proj1 (list_elem_of_lookup _ _) (coords_elem w h y x Hy Hx)) as [i Hi].
  destruct (Forall2_lookup_l _ _ _ _ _ Hps Hi) as (p & Hpi & Hs). cbn [fst snd] in Hs. exists (pixel_bytes bpp p).
  split; [by apply zlen_pixel_bytes|]. split; [by apply (sample_spec bpp (bytes pl) _ p)|]. exact (Hpix i (y, x) p Hi Hpi).
Qed.

(** ** Errors *)

(** What QOI data can be refused for. *)
Definition data_error (e : error) : Prop :=
  match e with InvalidData _ | UnexpectedEof | LimitExceeded _ _ _ => True | _ => False end.

Definition fails_with {A : Type} (P : error -> Prop) (x : result error A) : Prop := forall e, x = Err e -> P e.

Lemma fails_bind {A B : Type} (P : error -> Prop) (x : result error A) (k : A -> result error B) :
  fails_with P x -> (forall a, x = Ok a -> fails_with P (k a)) -> fails_with P (x ≫= k).
Proof. intros Hx Hk e. destruct x as [a|e']; cbn; [by apply Hk|]. intros [= <-]. by apply Hx. Qed.

Lemma fails_ok {A : Type} (P : error -> Prop) (a : A) : fails_with P (Ok a).
Proof. by intros e. Qed.

Lemma fails_err {A : Type} (P : error -> Prop) e : P e -> fails_with P (Err e : result error A).
Proof. by intros H e' [= <-]. Qed.

Lemma fails_ok_or {A : Type} (P : error -> Prop) (o : option A) e : P e -> fails_with P (ok_or o e).
Proof. intros H e'. destruct o; [done|]. by intros [= <-]. Qed.

Lemma fails_for_coords {S : Type} (P : error -> Prop) (body : Z -> Z -> S -> result error S) cs s :
  (forall y x s, fails_with P (body y x s)) -> fails_with P (for_coords body cs s).
Proof.
  intros Hb. revert s. induction cs as [|[y x] cs IH]; intros s; [apply fails_ok|]. cbn [for_coords]. apply fails_bind; [apply Hb|]. intros. apply IH.
Qed.

(** Binds, pairs and branches of a monadic body. *)
Ltac fails :=
  repeat match goal with
  | |- fails_with _ (match ?x with (_, _) => _ end) => destruct x
  | |- fails_with _ (if ?b then _ else _) => destruct b
  | |- fails_with _ (match ?l with [] => _ | _ => _ end) => destruct l
  | |- fails_with _ (?x ≫= _) => apply fails_bind; [|intros ? _]
  | |- fails_with _ (Ok _) => apply fails_ok
  | |- fails_with _ (Err _) => apply fails_err; exact I
  | |- fails_with _ (ok_or _ _) => apply fails_ok_or; exact I
  end.

Lemma get_u8_fails r : fails_with data_error (get_u8 r).
Proof. unfold get_u8. fails. Qed.
Lemma get_bytes_fails n r : fails_with data_error (get_bytes n r).
Proof. unfold get_bytes. fails. Qed.
Lemma chunk_fails r t p : fails_with data_error (chunk r t p).
Proof. unfold chunk. fails; apply get_u8_fails || apply get_bytes_fails || idtac. Qed.
Lemma dec_pixel_fails bpp st y x s : fails_with data_error (dec_pixel bpp st y x s).
Proof. unfold dec_pixel, next_pixel, write_pixel. cbv zeta. fails. apply chunk_fails. Qed.
Lemma read_header_fails r : fails_with data_error (read_header r).
Proof. unfold read_header, get_u32_be. fails; apply get_u8_fails || apply get_bytes_fails. Qed.
Lemma enc_pixel_fails c bpp st n src y x s : fails_with data_error (enc_pixel c bpp st n src y x s).
Proof. unfold enc_pixel, sample, read_pixel. fails. Qed.

Lemma decode_into_fails h r f : fails_with data_error (decode_into h r f).
Proof.
  unfold decode_into. destruct (fdata f); fails; [|apply get_bytes_fails]. rewrite for_rows_coords. apply fails_for_coords. intros. apply dec_pixel_fails.
Qed.

Lemma read_header_dims data h r : read_header (cursor_new data) = Ok (h, r) ->
  channels_of (hformat h) = Some (channel_bytes h) /\ 0 < hwidth h /\ 0 < hheight h.
Proof.
  intros E. unfold read_header in E. destruct (get_bytes 4 (cursor_new data)) as [[m r1]|]; [|done]. cbn [mbind result_bind] in E.
  case_bool_decide; [|done]. unfold get_u32_be in E. destruct (get_bytes 4 r1) as [[w r2]|]; [|done]. cbn [mbind result_bind] in E.
  destruct (get_bytes 4 r2) as [[ht r3]|]; [|done]. cbn [mbind result_bind] in E.
  destruct (get_u8 r3) as [[c r4]|]; [|done]. cbn [mbind result_bind] in E. destruct (get_u8 r4) as [[d r5]|]; [|done]. cbn [mbind result_bind] in E.
  pose proof (wrap_u_range 32 (be_value ht) ltac:(lia)) as [Hh _]. pose proof (wrap_u_range 32 (be_value w) ltac:(lia)) as [Hw _].
  destruct (Z.eqb_spec (wrap_u 32 (be_value w)) 0); [done|]. destruct (Z.eqb_spec (wrap_u 32 (be_value ht)) 0); [done|]. cbn [orb] in E.
  destruct (c =? 3); [injection E as <- _; cbn [hformat hwidth hheight channel_bytes]; split; [done|lia]|].
  destruct (c =? 4); [injection E as <- _; cbn [hformat hwidth hheight channel_bytes]; split; [done|lia]|done].
Qed.

Lemma channels_not_hw f c : channels_of f = Some c -> is_hw f = false.
Proof. intros H. by destruct (channels_of_cases f c H) as [[-> _]|[-> _]]. Qed.

Lemma decode_fails data b : fails_with data_error (fst (decode allowed addr data b)).
Proof.
  unfold decode. destruct (read_header (cursor_new data)) as [[h r]|e] eqn:E; [|apply fails_err; by apply (read_header_fails _ _ E)].
  destruct (read_header_dims data h r E) as (Hc & _ & Hht). apply channels_not_hw in Hc as Hhw. assert (0 <= hheight h) as Hht' by lia.
  destruct (alloc_video _ _ _ _ _ _) as [[f|e] c] eqn:Ea; [apply decode_into_fails|]. apply fails_err.
  apply alloc_video_fails in Ea; [|done|done]. by destruct e.
Qed.

(** An encoder refuses by the protocol's data errors or for the pixel format. *)
Definition encode_error (e : error) : Prop := match e with Unsupported _ => True | _ => data_error e end.

Lemma encode_fails f : fails_with encode_error (encode f).
Proof.
  assert (forall c bpp w h ps, fails_with encode_error (encode_planes c bpp w h ps)) as H.
  { intros c bpp w h ps e E. assert (data_error e) as He; [|by destruct e]. revert e E. fold (fails_with data_error (encode_planes c bpp w h ps)).
    unfold encode_planes. fails. rewrite for_rows_coords. apply fails_for_coords. intros. apply enc_pixel_fails. }
  unfold encode. destruct (fdata f) as [fmt w h ps| |]; [destruct fmt; first [apply H|apply fails_err; exact I]|apply fails_err; exact I|apply fails_err; exact I].
Qed.

(** ** Behind the protocol *)

(** What the decoder and the encoder do with one input. *)
Definition decoder_work (l : limits) (p : packet) : result error frame :=
  match fst (decode allowed addr (payload p) (Limits.new l)) with
  | Err e => Err e
  | Ok f => Ok (Frame (fdata f) (ppts p) (fduration f) (fflags f))
  end.

Definition encoder_work (l : limits) (f : frame) : result error packet :=
  match encode f with
  | Err e => Err e
  | Ok data =>
    match fst (packet_from_slice allowed addr (Limits.new l) data) with
    | Err e => Err e
    | Ok p => Ok (Packet (pdata p) (plen p) (stream_index p) (fpts f) (pdts p) (fduration f) (ppos p) (pflags p))
    end
  end.

Lemma decoder_send_work p d :
  decoder_send allowed addr (Some p) d = let '(x, m) := send_work (decoder_work (dlimits d) p) (dmachine d) in (x, QoiDecoder m (dlimits d)).
Proof.
  unfold decoder_send, send_work, decoder_work. rewrite bool_decide_eq_false_2 by done. destruct (accept false (dmachine d)) as [[[]|e] m]; try done.
  by destruct (fst (decode _ _ _ _)).
Qed.

Lemma decoder_send_end d : decoder_send allowed addr None d = let '(x, m) := send_end (dmachine d) in (x, QoiDecoder m (dlimits d)).
Proof. unfold decoder_send, send_end. rewrite bool_decide_eq_true_2 by done. by destruct (accept true (dmachine d)) as [[[]|e] m]. Qed.

Lemma encoder_send_work f d :
  encoder_send allowed addr (Some f) d = let '(x, m) := send_work (encoder_work (elimits d) f) (emachine d) in (x, QoiEncoder m (elimits d)).
Proof.
  unfold encoder_send, send_work, encoder_work. rewrite bool_decide_eq_false_2 by done. destruct (accept false (emachine d)) as [[[]|e] m]; try done.
  destruct (encode f) as [data|]; [|done]. by destruct (fst (packet_from_slice _ _ _ _)).
Qed.

Lemma encoder_send_end d : encoder_send allowed addr None d = let '(x, m) := send_end (emachine d) in (x, QoiEncoder m (elimits d)).
Proof. unfold encoder_send, send_end. rewrite bool_decide_eq_true_2 by done. by destruct (accept true (emachine d)) as [[[]|e] m]. Qed.

Lemma decoder_work_fails l p e : decoder_work l p = Err e -> protocol_error e = false.
Proof.
  unfold decoder_work. pose proof (decode_fails (payload p) (Limits.new l)) as Hd. destruct (fst (decode _ _ _ _)) as [f|e']; [done|].
  intros [= <-]. specialize (Hd e' eq_refl). by destruct e'.
Qed.

Lemma encoder_work_fails l f e : encoder_work l f = Err e -> protocol_error e = false.
Proof.
  unfold encoder_work. pose proof (encode_fails f) as He. destruct (encode f) as [data|e']; [|intros [= <-]; specialize (He e' eq_refl); by destruct e'].
  destruct (packet_from_slice allowed addr (Limits.new l) data) as [[p|e'] c] eqn:Ep; cbn [fst]; [done|]. intros [= <-].
  apply packet_from_slice_fails in Ep. by destruct e'.
Qed.

#[export] Instance decoder_send_receive : SendReceive qoi_decoder packet frame := {|
  sr_caps d := mcaps (dmachine d);
  sr_send := decoder_send allowed addr;
  sr_receive := decoder_receive;
  sr_flush := decoder_flush;
|}.

#[export] Instance encoder_send_receive : SendReceive qoi_encoder frame packet := {|
  sr_caps d := mcaps (emachine d);
  sr_send := encoder_send allowed addr;
  sr_receive := encoder_receive;
  sr_flush := encoder_flush;
|}.

#[export] Instance decoder_lawful : Lawful qoi_decoder packet frame :=
  one_shot_lawful dmachine (fun m d => QoiDecoder m (dlimits d)) (fun d => decoder_work (dlimits d))
    (fun _ _ => eq_refl) (fun _ => eq_refl) (fun d p => decoder_send_work p d) decoder_send_end (fun _ => eq_refl) (fun _ => eq_refl)
    (fun d => decoder_work_fails (dlimits d)).

#[export] Instance encoder_lawful : Lawful qoi_encoder frame packet :=
  one_shot_lawful emachine (fun m d => QoiEncoder m (elimits d)) (fun d => encoder_work (elimits d))
    (fun _ _ => eq_refl) (fun _ => eq_refl) (fun d f => encoder_send_work f d) encoder_send_end (fun _ => eq_refl) (fun _ => eq_refl)
    (fun d => encoder_work_fails (elimits d)).

(** ** Frames through the encoder and the decoder *)

(** One frame at a time: send, then receive. *)
Fixpoint encode_frames (fs : list frame) (d : qoi_encoder) : result error (list packet) * qoi_encoder :=
  match fs with
  | [] => (Ok [], d)
  | f :: fs =>
    match encoder_send allowed addr (Some f) d with
    | (Err e, d) => (Err e, d)
    | (Ok _, d) =>
      match encoder_receive d with
      | (Err e, d) => (Err e, d)
      | (Ok p, d) => let '(ps, d) := encode_frames fs d in (cons p <$> ps, d)
      end
    end
  end.

Fixpoint decode_packets (ps : list packet) (d : qoi_decoder) : result error (list frame) * qoi_decoder :=
  match ps with
  | [] => (Ok [], d)
  | p :: ps =>
    match decoder_send allowed addr (Some p) d with
    | (Err e, d) => (Err e, d)
    | (Ok _, d) =>
      match decoder_receive d with
      | (Err e, d) => (Err e, d)
      | (Ok f, d) => let '(fs, d) := decode_packets ps d in (cons f <$> fs, d)
      end
    end
  end.

(** A frame both sides have the memory for. *)
Definition storable (el dl : limits) (f : frame) : Prop :=
  exists fmt bpp w h pl rest data p b1 fr b2,
    channels_of fmt = Some bpp /\ fdata f = Video fmt w h (pl :: rest) /\ 0 <= w < 2 ^ 32 /\ 0 <= h < 2 ^ 32 /\ Forall byte (bytes pl) /\
    encode f = Ok data /\ zlen data < 2 ^ 64 /\
    packet_from_slice allowed addr (Limits.new el) data = (Ok p, b1) /\ alloc_video allowed addr (Limits.new dl) fmt w h = (Ok fr, b2).

Lemma storable_works el dl f : limits_ok el -> limits_ok dl -> storable el dl f ->
  exists p g, encoder_work el f = Ok p /\ decoder_work dl p = Ok g /\ same_pixels f g /\ fpts g = fpts f /\ ppts p = fpts f.
Proof.
  intros Hel Hdl (fmt & bpp & w & h & pl & rest & data & p & b1 & fr & b2 & Hc & Hf & Hw & Hh & Hb & He & Hlen & Hp & Hfr).
  pose proof (packet_from_slice_spec allowed addr (Limits.new el) data (Ok p) b1 (new_accounts el Hel) eq_refl Hp) as (_ & _ & Hpay & _ & _ & _).
  destruct (decode_encode f fmt bpp w h pl rest data (Limits.new dl) fr b2 Hc Hf Hw Hh Hb He Hlen (new_accounts dl Hdl) eq_refl Hfr) as (g & Hd & Hs & _).
  unfold encoder_work. rewrite He, Hp. cbn [fst]. do 2 eexists. split; [done|]. unfold decoder_work. unfold payload in *. cbn [pdata plen ppts].
  rewrite Hpay, Hd. cbn [fst]. split; [done|]. split; [|done].
  destruct Hs as (fmt' & bpp' & w' & h' & pl' & ps' & ql & qs & Hs). by exists fmt', bpp', w', h', pl', ps', ql, qs.
Qed.

Lemma encode_decode_frames el dl fs e d :
  limits_ok el -> limits_ok dl -> Forall (storable el dl) fs -> idle (emachine e) -> elimits e = el -> idle (dmachine d) -> dlimits d = dl ->
  exists ps gs, fst (encode_frames fs e) = Ok ps /\ fst (decode_packets ps d) = Ok gs /\
    Forall2 (fun f g => same_pixels f g /\ fpts g = fpts f) fs gs.
Proof.
  intros Hel Hdl Hfs. revert e d. induction Hfs as [|f fs Hf _ IH]; intros e d He Hle Hd Hld; [by exists [], []|].
  destruct (storable_works el dl f Hel Hdl Hf) as (p & g & Ew & Dw & Hs & Ht & _).
  destruct (through_idle (emachine e) p He) as (m1 & m2 & E1 & E2 & Hm2). destruct (through_idle (dmachine d) g Hd) as (n1 & n2 & D1 & D2 & Hn2).
  destruct (IH (QoiEncoder m2 (elimits e)) (QoiDecoder n2 (dlimits d)) Hm2 Hle Hn2 Hld) as (ps & gs & H1 & H2 & H3).
  exists (p :: ps), (g :: gs). split; [|split; [|by constructor]].
  - cbn [encode_frames]. rewrite encoder_send_work, Hle, Ew, E1. unfold encoder_receive. cbn [emachine elimits]. rewrite E2. rewrite Hle in H1.
    destruct (encode_frames fs _) as [x e']. cbn [fst] in *. by rewrite H1.
  - cbn [decode_packets]. rewrite decoder_send_work, Hld, Dw, D1. unfold decoder_receive. cbn [dmachine dlimits]. rewrite D2. rewrite Hld in H2.
    destruct (decode_packets ps _) as [x d']. cbn [fst] in *. by rewrite H2.
Qed.

(** C22. Lossless. Any sequence of RGB or RGBA frames, of any dimensions, strides
    and contents, sent one by one through a fresh QOI encoder comes out of a fresh
    QOI decoder with every pixel and every presentation time as it was, given only
    the memory for the packets and the frames; runs across rows and up to the
    frame's end, the pixel array and all seven chunk kinds included. *)
Theorem qoi_lossless el dl fs :
  limits_ok el -> limits_ok dl -> Forall (storable el dl) fs ->
  exists ps gs, fst (encode_frames fs (encoder_new el)) = Ok ps /\ fst (decode_packets ps (decoder_new dl)) = Ok gs /\
    Forall2 (fun f g => same_pixels f g /\ fpts g = fpts f) fs gs.
Proof.
  intros Hel Hdl Hfs. apply (encode_decode_frames el dl); try done; (split; [apply one_shot_new|done]).
Qed.

(** The protocol is kept on any input. Behind the validator, as both are
    registered, the QOI decoder and encoder never cause a violation or a panic,
    whatever packets - any bytes at all - and frames are sent, in whatever order
    with receives, ends and flushes, and whatever the allocator refuses. *)
Theorem qoi_never_violates l md probe (cs : list (call packet)) (fs : list (call frame)) :
  (exists v, calls_validated cs (with_flush_probe probe (with_mode (decoder_new l) md)) = Some v /\ violations v = []) /\
  (exists v, calls_validated fs (with_flush_probe probe (with_mode (encoder_new l) md)) = Some v /\ violations v = []).
Proof.
  split.
  - destruct (validated_lawful (decoder_new l) md probe cs) as (v & H1 & H2 & _); [|by exists v]. split; [exact (one_shot_new (O := frame))|done].
  - destruct (validated_lawful (encoder_new l) md probe fs) as (v & H1 & H2 & _); [|by exists v]. split; [exact (one_shot_new (O := packet))|done].
Qed.

(** Corrupt data is refused as such. Decoding any bytes under any limits
    returns a frame of the header's format and dimensions, neither of them zero and
    both within the limits, or one of three errors - invalid data, an early end, a
    limit - and never an error of the protocol. *)
Theorem decode_refuses data l : limits_ok l ->
  match fst (decode allowed addr data (Limits.new l)) with
  | Ok f => exists h r pl, read_header (cursor_new data) = Ok (h, r) /\ fdata f = Video (hformat h) (hwidth h) (hheight h) [pl] /\
      channels_of (hformat h) = Some (channel_bytes h) /\ 0 < hwidth h <= max_dimension l /\ 0 < hheight h <= max_dimension l
  | Err e => data_error e
  end.
Proof.
  intros Hl. pose proof (decode_fails data (Limits.new l)) as Hf. destruct (fst (decode allowed addr data (Limits.new l))) as [f|e] eqn:E; [|by apply Hf].
  unfold decode in E. destruct (read_header (cursor_new data)) as [[h r]|] eqn:Er; [|done]. destruct (read_header_dims data h r Er) as (Hc & Hw & Hh).
  destruct (alloc_video _ _ _ _ _ _) as [[fr|] b'] eqn:Ea; [|done]. cbn [fst] in E.
  apply alloc_video_spec in Ea as (_ & _ & -> & _ & _ & Hmw & Hmh & _); [|by apply new_accounts|done|lia].
  destruct (channels_geometry (hformat h) (channel_bytes h) (hwidth h) (hheight h) Hc ltac:(lia)) as (Hpc & _).
  unfold decode_into in E. cbn [fdata from_data] in E. unfold fresh_planes in E. rewrite Hpc in E. change (seqZ 0 1) with [0] in E. cbn [map head ok_or mbind result_bind List.tail] in E.
  destruct (for_rows _ _ _ _) as [s|]; [|done]. cbn [mbind result_bind] in E. destruct (get_bytes _ _) as [[tl r']|]; [|done]. cbn [mbind result_bind] in E.
  case_bool_decide; [|done]. injection E as <-. cbn [fdata]. exists h, r. eexists. split; [done|]. split; [done|]. split; [done|]. unfold Limits.new in *. cbn [policy] in *. lia.
Qed.

End core.

(** Encoding is total and compact. An RGB or RGBA frame whose first plane holds
    its rows encodes without error, in at least 22 bytes and at most 22 plus one
    tag byte and the channels for each pixel. *)
Theorem encode_compact f fmt bpp w h pl rest :
  channels_of fmt = Some bpp -> fdata f = Video fmt w h (pl :: rest) -> 0 < w -> 0 < h ->
  0 <= stride pl -> (h - 1) * stride pl + w * bpp <= zlen (bytes pl) < 2 ^ 64 -> Forall byte (bytes pl) ->
  exists data, encode f = Ok data /\ 22 <= zlen data <= 22 + w * h * (bpp + 1).
Proof.
  intros Hc Hf Hw Hh Hst Hlen Hb. assert (bpp = 3 \/ bpp = 4) as Hbpp by (destruct (channels_of_cases fmt bpp Hc) as [[_ ->]|[_ ->]]; auto).
  assert (forall c, c ∈ coords w 0 h -> exists p, sample bpp (bytes pl) (offset_of (stride pl) bpp (fst c) (snd c)) bpp = Ok p) as Hsam.
  { intros [y x] Hin. apply coords_in in Hin as [Hy Hx]. cbn [fst snd] in *. apply sample_ok; [done|].
    assert (y * stride pl <= (h - 1) * stride pl) by nia. assert (x * bpp + bpp <= w * bpp) by nia. assert (0 <= y * stride pl) by nia. assert (0 <= x * bpp) by nia.
    unfold offset_of. rewrite (sat_u_id 64 (y * stride pl)), (sat_u_id 64 (x * bpp)), sat_u_id by nia. lia. }
  assert (exists ps, Forall2 (fun c p => sample bpp (bytes pl) (offset_of (stride pl) bpp (fst c) (snd c)) bpp = Ok p) (coords w 0 h) ps) as [ps Hps].
  { revert Hsam. generalize (coords w 0 h). induction l as [|c cs IH]; intros Hs; [by exists []|].
    destruct (Hs c ltac:(left)) as [p Hp]. destruct IH as [ps Hps]; [intros c' Hc'; apply Hs; by right|]. exists (p :: ps). by constructor. }
  set (hdr := MAGIC ++ be_bytes 4 w ++ be_bytes 4 h ++ [bpp; 0]). set (s0 := Enc hdr table_new START_PIXEL 0 0).
  exists (eout (enc_list (w * h) ps s0) ++ END_MARKER). split.
  - assert (encode f = encode_planes bpp bpp w h (pl :: rest)) as -> by (unfold encode; rewrite Hf; by destruct (channels_of_cases fmt bpp Hc) as [[-> ->]|[-> ->]]).
    unfold encode_planes. rewrite !(proj2 (Z.eqb_neq _ 0)) by lia. cbn [orb head ok_or mbind result_bind]. rewrite for_rows_coords.
    by rewrite (enc_coords_ok _ _ _ _ _ _ _ _ Hps).
  - assert (zlen ps = w * h) as Hn.
    { unfold zlen. rewrite <- (Forall2_length _ _ _ Hps). fold (zlen (coords w 0 h)). rewrite <- (Z2Nat.id h) at 1 by lia. rewrite coords_length by lia. lia. }
    rewrite zlen_app. change (zlen END_MARKER) with 8. assert (zlen hdr = 14) as Hh14 by (unfold hdr; rewrite !zlen_app; done).
    assert (Forall (fun p => bpp + 1 = 5 \/ bpp + 1 = 4 /\ alpha p = 255) ps) as Hcs.
    { apply Forall_forall. intros p Hin. apply list_elem_of_lookup in Hin as [i Hi]. destruct (Forall2_lookup_r _ _ _ _ _ Hps Hi) as (c & _ & Hs).
      destruct (sample_spec bpp (bytes pl) _ p Hbpp Hb Hs) as (_ & _ & H255). destruct Hbpp as [->| ->]; [right; auto|by left]. }
    pose proof (stream_length (w * h) (bpp + 1) ps s0 Hcs ltac:(destruct Hbpp as [->| ->]; [by right|by left]) ltac:(done)) as Hlen'. cbv zeta in Hlen'.
    change (eout s0) with hdr in Hlen'. change (pending_run s0) with 0 in Hlen'. rewrite Hh14, Hn in Hlen'.
    assert (0 <= pending_run (enc_list (w * h) ps s0)) by (unfold pending_run; destruct (0 <? _); lia).
    pose proof (enc_list_grows (w * h) ps s0) as Hg. change (eout s0) with hdr in Hg. split; nia.
Qed.

(** ** Concrete frames *)

(** Three pixels by two: a run across the row, an indexed pixel and a difference. *)
Definition sample_frame : frame :=
  from_data (Video Rgb24 3 2 [Plane [9; 9; 9; 9; 9; 9; 9; 9; 9; 9; 9; 9; 10; 9; 8; 200; 0; 1] 9]).

Lemma qoi_lossless_witness :
  exists ps gs, fst (encode_frames (fun _ => true) (fun _ => 40) [sample_frame; sample_frame] (encoder_new permissive)) = Ok ps /\
    fst (decode_packets (fun _ => true) (fun _ => 40) ps (decoder_new permissive)) = Ok gs /\
    Forall2 (fun f g => same_pixels f g /\ fpts g = fpts f) [sample_frame; sample_frame] gs.
Proof.
  assert (storable (fun _ => true) (fun _ => 40) permissive permissive sample_frame) as Hs.
  { destruct (encode sample_frame) as [data|] eqn:He; [|by vm_compute in He].
    destruct (packet_from_slice (fun _ => true) (fun _ => 40) (Limits.new permissive) data) as [[p|] b1] eqn:Hp; [|vm_compute in He; injection He as <-; by vm_compute in Hp].
    destruct (alloc_video (fun _ => true) (fun _ => 40) (Limits.new permissive) Rgb24 3 2) as [[fr|] b2] eqn:Ha; [|by vm_compute in Ha].
    exists Rgb24, 3, 3, 2. do 7 eexists. split; [reflexivity|]. split; [reflexivity|]. split; [lia|]. split; [lia|].
    split; [repeat (constructor; [unfold byte; lia|]); constructor|]. split; [exact He|]. split; [|split; [exact Hp|exact Ha]].
    vm_compute in He. injection He as <-. reflexivity. }
  apply (qoi_lossless (fun _ => true) (fun _ => 40)); [repeat split; vm_compute; congruence|repeat split; vm_compute; congruence|].
  constructor; [exact Hs|]. constructor; [exact Hs|constructor].
Defined.

(** A header alone: the pixels end early. *)
Lemma decode_refuses_witness :
  match fst (decode (fun _ => true) (fun _ => 40) (MAGIC ++ [0; 0; 0; 2; 0; 0; 0; 2; 3; 0; 254; 1]) (Limits.new tiny)) with
  | Ok _ => False
  | Err e => data_error e
  end.
Proof.
  pose proof (decode_refuses (fun _ => true) (fun _ => 40) (MAGIC ++ [0; 0; 0; 2; 0; 0; 0; 2; 3; 0; 254; 1]) tiny
    ltac:(repeat split; vm_compute; congruence)) as H.
  destruct (fst (decode _ _ _ _)) as [f|e] eqn:E; [by vm_compute in E|exact H].
Defined.

Lemma encode_compact_witness :
  exists data, encode sample_frame = Ok data /\ 22 <= zlen data <= 22 + 3 * 2 * 4.
Proof.
  refine (encode_compact sample_frame Rgb24 3 3 2 (Plane [9; 9; 9; 9; 9; 9; 9; 9; 9; 9; 9; 9; 10; 9; 8; 200; 0; 1] 9) [] eq_refl eq_refl _ _ _ _ _);
    [lia|lia|cbn [stride]; lia|cbn [stride bytes]; vm_compute; split; congruence|].
  cbn [bytes]. repeat (constructor; [unfold byte; lia|]). constructor.
Defined.
