(* ===== verification/RtmpChunk.v ===== *)
(** * RtmpChunk: the headers of RTMP chunks

    [src/crates/io/vaco-protocol-rtmp/src/chunk.rs]: the basic header in its three
    widths and the four message headers, as bytes and back, with the error type of
    the protocols ([vaco-protocol-core/src/error.rs]). *)

From Stdlib Require Import ZArith Lia.
From stdpp Require Import prelude strings.
From S2P Require Import Prelude Bits Error.

#[local] Open Scope Z_scope.

(** ** Errors *)

Inductive deny_reason : Type := Blacklisted | NotWhitelisted | TooDeep | OutsideRoot.

Inductive protocol_error : Type :=
  | Unknown (scheme : string)
  | Denied (scheme : string) (reason : deny_reason)
  | ProtoUnsupported (scheme operation : string)
  | Malformed (scheme detail : string)
  | ProtoIo (e : error).

#[export] Instance deny_reason_eq_dec : EqDecision deny_reason.
Proof. solve_decision. Defined.
#[export] Instance protocol_error_eq_dec : EqDecision protocol_error.
Proof. solve_decision. Defined.

Definition malformed (detail : string) : protocol_error := Malformed "rtmp" detail.

(** ** The basic header *)

Definition EXTENDED_TIMESTAMP : Z := 16777215.

Definition u24_be (b0 b1 b2 : Z) : Z := Z.lor (Z.lor (Z.shiftl b0 16) (Z.shiftl b1 8)) b2.

Definition write_u24_be (v : Z) : list Z := drop 1 (be_bytes 4 v).

Record basic_header : Type := BasicHeader { bfmt : Z; csid : Z }.

#[export] Instance basic_header_eq_dec : EqDecision basic_header.
Proof. solve_decision. Defined.

(** What is pushed to [out]. *)
Definition encode_basic_header (fmt csid : Z) (out : list Z) : result protocol_error (list Z) :=
  if 3 <? fmt then Err (malformed "chunk fmt must be 0..=3")
  else
    let fmt_bits := wrap_u 8 (Z.shiftl fmt 6) in
    if (csid =? 0) || (csid =? 1) then
      Err (malformed "chunk stream id 0 and 1 are reserved selectors, not values")
    else if csid <=? 63 then Ok (out ++ [Z.lor fmt_bits csid])
    else if csid <=? 319 then Ok (out ++ [fmt_bits] ++ [csid - 64])
    else if csid <=? 65599 then
      let rel := csid - 64 in
      Ok (out ++ [Z.lor fmt_bits 1] ++ [Z.land rel 255] ++ [Z.shiftr rel 8])
    else Err (malformed "chunk stream id exceeds the three-byte form's range").

(** [Ok None] where the header is not all there yet. *)
Definition decode_basic_header (input : list Z) : result protocol_error (option (basic_header * Z)) :=
  match input with
  | [] => Ok None
  | first :: _ =>
    let fmt := Z.shiftr first 6 in
    let low6 := Z.land first 63 in
    if low6 =? 0 then
      match input !! 1%nat with
      | None => Ok None
      | Some second => Ok (Some (BasicHeader fmt (second + 64), 2))
      end
    else if low6 =? 1 then
      match input !! 1%nat, input !! 2%nat with
      | Some b1, Some b2 => Ok (Some (BasicHeader fmt (b1 + Z.shiftl b2 8 + 64), 3))
      | _, _ => Ok None
      end
    else Ok (Some (BasicHeader fmt low6, 1))
  end.

(** ** The message header *)

Inductive message_header : Type :=
  | Type0 (timestamp message_length message_type_id message_stream_id : Z)
  | Type1 (timestamp_delta message_length message_type_id : Z)
  | Type2 (timestamp_delta : Z)
  | Type3.

#[export] Instance message_header_eq_dec : EqDecision message_header.
Proof. solve_decision. Defined.

Definition fmt (h : message_header) : Z :=
  match h with Type0 _ _ _ _ => 0 | Type1 _ _ _ => 1 | Type2 _ => 2 | Type3 => 3 end.

Definition encode (h : message_header) (out : list Z) : list Z :=
  match h with
  | Type0 timestamp message_length message_type_id message_stream_id =>
    out ++ write_u24_be (Z.min timestamp EXTENDED_TIMESTAMP) ++ write_u24_be (Z.land message_length 16777215) ++
    [message_type_id] ++ le_bytes 4 message_stream_id
  | Type1 timestamp_delta message_length message_type_id =>
    out ++ write_u24_be (Z.min timestamp_delta EXTENDED_TIMESTAMP) ++ write_u24_be (Z.land message_length 16777215) ++
    [message_type_id]
  | Type2 timestamp_delta => out ++ write_u24_be (Z.min timestamp_delta EXTENDED_TIMESTAMP)
  | Type3 => out
  end.

Definition decode (fmt : Z) (input : list Z) : result protocol_error (option (message_header * Z)) :=
  if fmt =? 0 then
    match get_range input 0 11 with
    | Some [t0; t1; t2; l0; l1; l2; type_id; s0; s1; s2; s3] =>
      Ok (Some (Type0 (u24_be t0 t1 t2) (u24_be l0 l1 l2) type_id (le_value [s0; s1; s2; s3]), 11))
    | _ => Ok None
    end
  else if fmt =? 1 then
    match get_range input 0 7 with
    | Some [t0; t1; t2; l0; l1; l2; type_id] =>
      Ok (Some (Type1 (u24_be t0 t1 t2) (u24_be l0 l1 l2) type_id, 7))
    | _ => Ok None
    end
  else if fmt =? 2 then
    match get_range input 0 3 with
    | Some [t0; t1; t2] => Ok (Some (Type2 (u24_be t0 t1 t2), 3))
    | _ => Ok None
    end
  else if fmt =? 3 then Ok (Some (Type3, 0))
  else Err (malformed "chunk fmt must be 0..=3").

(** ** Bytes *)

Abbreviation octets_ok l := (Forall (fun b => 0 <= b < 256) l).

Lemma u24_be_value b0 b1 b2 : octets_ok [b0; b1; b2] -> u24_be b0 b1 b2 = be_value [b0; b1; b2].
Proof.
  intros H. rewrite !Forall_cons in H. destruct H as (H0 & H1 & H2 & _). unfold u24_be.
  replace (Z.lor (Z.shiftl b0 16) (Z.shiftl b1 8)) with (Z.shiftl (b0 * 256 + b1) 8).
  - rewrite lor_disjoint by lia. unfold be_value. cbn [fold_left]. lia.
  - rewrite lor_disjoint by (rewrite ?Z.shiftl_mul_pow2; lia). rewrite !Z.shiftl_mul_pow2 by lia. lia.
Qed.

Lemma write_u24_be_spec v : 0 <= v < 2 ^ 24 -> exists b0 b1 b2, write_u24_be v = [b0; b1; b2] /\ u24_be b0 b1 b2 = v.
Proof.
  intros Hv. unfold write_u24_be. change (drop 1 (be_bytes 4 v)) with (be_bytes 3 v).
  pose proof (be_value_be_bytes 3 v) as H. change (256 ^ Z.of_nat 3) with (2 ^ 24) in H. rewrite Z.mod_small in H by lia.
  do 3 eexists. split; [reflexivity|]. rewrite u24_be_value; [exact H|]. repeat constructor; apply Z.mod_pos_bound; lia.
Qed.

Lemma le_bytes_spec v : 0 <= v < 2 ^ 32 -> exists s0 s1 s2 s3, le_bytes 4 v = [s0; s1; s2; s3] /\ le_value [s0; s1; s2; s3] = v.
Proof.
  intros Hv. pose proof (le_value_rev (be_bytes 4 v)) as H. rewrite be_value_be_bytes in H.
  change (256 ^ Z.of_nat 4) with (2 ^ 32) in H. rewrite Z.mod_small in H by lia. unfold le_bytes. do 4 eexists. split; [reflexivity|exact H].
Qed.

Lemma get_range_extend {A : Type} (l x : list A) a b k : get_range l a b = Some k -> get_range (l ++ x) a b = Some k.
Proof.
  unfold get_range. rewrite zlen_app. intros H. destruct (_ && _) eqn:E in H; [|done]. breflect. pose proof (zlen_nonneg x).
  rewrite !(proj2 (Z.leb_le _ _)) by lia. cbn [andb]. rewrite <- H. f_equal.
  rewrite drop_app_le by (unfold zlen in *; lia). rewrite take_app_le; [done|]. rewrite length_drop. unfold zlen in *. lia.
Qed.

Lemma get_range_prefix {A : Type} (l x : list A) : get_range (l ++ x) 0 (zlen l) = Some l.
Proof.
  unfold get_range. rewrite zlen_app. pose proof (zlen_nonneg x). pose proof (zlen_nonneg l).
  rewrite (proj2 (Z.leb_le 0 (zlen l))), (proj2 (Z.leb_le (zlen l) (zlen l + zlen x))) by lia. cbn [Z.leb Z.compare andb].
  rewrite Z.sub_0_r, drop_0. unfold zlen. rewrite Nat2Z.id, take_app_length. done.
Qed.

Lemma get_range_short {A : Type} (l : list A) n : zlen l < n -> get_range l 0 n = None.
Proof. intros H. unfold get_range. rewrite (proj2 (Z.leb_gt n (zlen l))) by lia. by rewrite andb_false_r. Qed.

Lemma get_range_length {A : Type} (l k : list A) n : get_range l 0 n = Some k -> zlen k = n /\ n <= zlen l.
Proof.
  unfold get_range. destruct (_ && _) eqn:E; [|done]. intros [= <-]. breflect. rewrite Z.sub_0_r, drop_0.
  split; [apply zlen_take; lia|lia].
Qed.

Lemma zlen_be_bytes n v : zlen (be_bytes n v) = Z.of_nat n.
Proof. unfold zlen. by rewrite length_be_bytes. Qed.

Lemma be_field n v : 0 <= v < 256 ^ Z.of_nat n -> be_value (be_bytes n v) = v.
Proof. intros Hv. rewrite be_value_be_bytes. by apply Z.mod_small. Qed.

(** The bytes between two others. *)
Lemma get_range_at {A : Type} (pre mid post : list A) a b : a = zlen pre -> b = zlen pre + zlen mid -> get_range (pre ++ mid ++ post) a b = Some mid.
Proof.
  intros -> ->. unfold get_range. rewrite !zlen_app. pose proof (zlen_nonneg pre). pose proof (zlen_nonneg mid). pose proof (zlen_nonneg post).
  rewrite (proj2 (Z.leb_le 0 _)), (proj2 (Z.leb_le (zlen pre) _)), (proj2 (Z.leb_le (zlen pre + zlen mid) _)) by lia. cbn [andb]. f_equal.
  replace (zlen pre + zlen mid - zlen pre) with (zlen mid) by lia. unfold zlen. rewrite !Nat2Z.id, drop_app_length. apply take_app_length.
Qed.

Lemma get_range_head {A : Type} (mid post : list A) b : b = zlen mid -> get_range (mid ++ post) 0 b = Some mid.
Proof. intros ->. apply get_range_prefix. Qed.

(** ** The basic header, there and back *)

Lemma basic_bits f v : 0 <= f <= 3 -> 0 <= v < 64 ->
  0 <= Z.lor (wrap_u 8 (Z.shiftl f 6)) v < 256 /\ Z.shiftr (Z.lor (wrap_u 8 (Z.shiftl f 6)) v) 6 = f /\ Z.land (Z.lor (wrap_u 8 (Z.shiftl f 6)) v) 63 = v.
Proof.
  intros Hf Hv. rewrite wrap_u_id by (rewrite Z.shiftl_mul_pow2; lia). rewrite lor_disjoint by lia.
  split; [lia|]. rewrite Z.shiftr_div_pow2 by lia. change 63 with (Z.ones 6). rewrite Z.land_ones by lia.
  rewrite Z.add_comm, Z.div_add, Z.mod_add, Z.div_small, Z.mod_small by lia. done.
Qed.

(** The bytes of a valid basic header. *)
Lemma encode_basic_spec f c out : 0 <= f <= 3 -> 2 <= c <= 65599 ->
  exists bs, encode_basic_header f c out = Ok (out ++ bs) /\ 1 <= zlen bs <= 3 /\ octets_ok bs /\
    (forall rest, decode_basic_header (bs ++ rest) = Ok (Some (BasicHeader f c, zlen bs))) /\
    (forall short, zlen short < zlen bs -> short `prefix_of` bs -> decode_basic_header short = Ok None).
Proof.
  intros Hf Hc. unfold encode_basic_header. rewrite (proj2 (Z.ltb_ge 3 f)) by lia.
  rewrite (proj2 (Z.eqb_neq c 0)), (proj2 (Z.eqb_neq c 1)) by lia. cbn [orb].
  destruct (basic_bits f 0 Hf ltac:(lia)) as (R0 & F0 & L0). rewrite Z.lor_0_r in R0, F0, L0.
  destruct (basic_bits f 1 Hf ltac:(lia)) as (R1 & F1 & L1).
  destruct (Z.leb_spec c 63); [|destruct (Z.leb_spec c 319); [|rewrite (proj2 (Z.leb_le c 65599)) by lia]].
  - destruct (basic_bits f c Hf ltac:(lia)) as (Rc & Fc & Lc). eexists. split; [reflexivity|]. change (zlen [_]) with 1.
    split; [lia|]. split; [constructor; [exact Rc|constructor]|]. split.
    + intros rest. unfold decode_basic_header. cbn [app]. rewrite Fc, Lc, (proj2 (Z.eqb_neq c 0)), (proj2 (Z.eqb_neq c 1)) by lia. done.
    + intros [|b short] Hs _; [done|]. rewrite zlen_cons in Hs. pose proof (zlen_nonneg short). lia.
  - eexists. split; [reflexivity|]. cbn [app]. change (zlen [_; _]) with 2. split; [lia|]. split; [constructor; [exact R0|constructor; [lia|constructor]]|]. split.
    + intros rest. unfold decode_basic_header. cbn [app]. rewrite F0, L0. cbn. do 3 f_equal. f_equal. lia.
    + intros [|b [|b1 short]] Hs Hp; [done| |rewrite !zlen_cons in Hs; pose proof (zlen_nonneg short); lia].
      destruct Hp as [k Hk]. injection Hk as <- _. unfold decode_basic_header. by rewrite L0.
  - assert (0 <= Z.shiftr (c - 64) 8 < 256) as Hh by (rewrite Z.shiftr_div_pow2 by lia; split; [apply Z.div_pos; lia|apply Z.div_lt_upper_bound; lia]).
    assert (Z.land (c - 64) 255 = (c - 64) mod 2 ^ 8) as Hl by (change 255 with (Z.ones 8); apply Z.land_ones; lia).
    eexists. split; [reflexivity|]. cbn [app]. change (zlen [_; _; _]) with 3. split; [lia|].
    split; [constructor; [lia|]; constructor; [rewrite Hl; apply Z.mod_pos_bound; lia|]; constructor; [lia|constructor]|]. split.
    + intros rest. unfold decode_basic_header. cbn [app]. rewrite F1, L1. change (1 =? 0) with false. change (1 =? 1) with true. cbn [lookup list_lookup].
      do 3 f_equal. f_equal. rewrite Hl, Z.shiftl_mul_pow2, Z.shiftr_div_pow2 by lia. pose proof (Z.div_mod (c - 64) (2 ^ 8) ltac:(lia)). lia.
    + intros [|b0 [|b1 [|b2 short]]] Hs Hp; [done| | |rewrite !zlen_cons in Hs; pose proof (zlen_nonneg short); lia];
        destruct Hp as [k Hk]; injection Hk as <- _; unfold decode_basic_header; by rewrite L1.
Qed.

(** A header that is complete stays what it is when more bytes follow. *)
Lemma decode_basic_extend l x h n : decode_basic_header l = Ok (Some (h, n)) ->
  decode_basic_header (l ++ x) = Ok (Some (h, n)) /\ 1 <= n <= zlen l.
Proof.
  unfold decode_basic_header. destruct l as [|b l]; [done|]. cbn [app]. rewrite zlen_cons. pose proof (zlen_nonneg l).
  destruct (_ =? 0); [|destruct (_ =? 1)].
  - destruct l as [|b1 l]; [done|]. intros [= <- <-]. split; [done|]. rewrite zlen_cons in *. pose proof (zlen_nonneg l). lia.
  - destruct l as [|b1 [|b2 l]]; [done|done|]. intros [= <- <-]. split; [done|]. rewrite !zlen_cons in *. pose proof (zlen_nonneg l). lia.
  - intros [= <- <-]. split; [done|lia].
Qed.

Lemma decode_basic_total l : exists o, decode_basic_header l = Ok o.
Proof. unfold decode_basic_header. repeat (case_match; eauto). Qed.

Lemma decode_basic_fmt l h n : octets_ok l -> decode_basic_header l = Ok (Some (h, n)) -> 0 <= bfmt h <= 3.
Proof.
  intros Hl. unfold decode_basic_header. destruct l as [|b l]; [done|]. apply Forall_cons in Hl as [Hb _].
  assert (0 <= Z.shiftr b 6 <= 3) by (rewrite Z.shiftr_div_pow2 by lia; split; [apply Z.div_pos; lia|apply Z.lt_succ_r, Z.div_lt_upper_bound; lia]).
  destruct (_ =? 0); [|destruct (_ =? 1)]; repeat (case_match; try done); by intros [= <- _].
Qed.

(** ** The message header, there and back *)

Definition header_len (fmt : Z) : Z := if fmt =? 0 then 11 else if fmt =? 1 then 7 else if fmt =? 2 then 3 else 0.

(** The fields are of their widths; the timestamps are those the three-byte field
    can show. *)
Definition header_ok (h : message_header) : Prop :=
  match h with
  | Type0 t l i s => 0 <= t <= EXTENDED_TIMESTAMP /\ 0 <= l < 2 ^ 24 /\ 0 <= i < 256 /\ 0 <= s < 2 ^ 32
  | Type1 t l i => 0 <= t <= EXTENDED_TIMESTAMP /\ 0 <= l < 2 ^ 24 /\ 0 <= i < 256
  | Type2 t => 0 <= t <= EXTENDED_TIMESTAMP
  | Type3 => True
  end.

Lemma u24_field v : 0 <= v < 2 ^ 24 -> exists b0 b1 b2, write_u24_be v = [b0; b1; b2] /\ u24_be b0 b1 b2 = v /\ Z.land v 16777215 = v.
Proof.
  intros Hv. destruct (write_u24_be_spec v Hv) as (b0 & b1 & b2 & H1 & H2). exists b0, b1, b2. split; [done|]. split; [done|].
  change 16777215 with (Z.ones 24). rewrite Z.land_ones by lia. by apply Z.mod_small.
Qed.

Lemma encode_out h out : encode h out = out ++ encode h [].
Proof. destruct h; cbn [encode app]; rewrite ?app_nil_r; done. Qed.

Lemma encode_spec h : header_ok h -> zlen (encode h []) = header_len (fmt h) /\
  forall rest, decode (fmt h) (encode h [] ++ rest) = Ok (Some (h, header_len (fmt h))).
Proof.
  unfold header_ok, EXTENDED_TIMESTAMP. destruct h as [t l i s|t l i|t|]; cbn [fmt encode app].
  - intros (Ht & Hl & Hi & Hs). unfold EXTENDED_TIMESTAMP. rewrite Z.min_l by lia.
    destruct (u24_field t ltac:(lia)) as (t0 & t1 & t2 & -> & Et & _). destruct (u24_field l ltac:(lia)) as (l0 & l1 & l2 & Ew & El & ->). rewrite Ew.
    destruct (le_bytes_spec s Hs) as (s0 & s1 & s2 & s3 & -> & Es). split; [done|]. intros rest. unfold decode. cbn [app].
    change (get_range _ 0 11) with (get_range ([t0; t1; t2; l0; l1; l2; i; s0; s1; s2; s3] ++ rest) 0 (zlen [t0; t1; t2; l0; l1; l2; i; s0; s1; s2; s3])).
    rewrite get_range_prefix, Et, El, Es. done.
  - intros (Ht & Hl & Hi). unfold EXTENDED_TIMESTAMP. rewrite Z.min_l by lia.
    destruct (u24_field t ltac:(lia)) as (t0 & t1 & t2 & -> & Et & _). destruct (u24_field l ltac:(lia)) as (l0 & l1 & l2 & Ew & El & ->). rewrite Ew.
    split; [done|]. intros rest. unfold decode. cbn [app].
    change (get_range _ 0 7) with (get_range ([t0; t1; t2; l0; l1; l2; i] ++ rest) 0 (zlen [t0; t1; t2; l0; l1; l2; i])).
    rewrite get_range_prefix, Et, El. done.
  - intros Ht. unfold EXTENDED_TIMESTAMP. rewrite Z.min_l by lia. destruct (u24_field t ltac:(lia)) as (t0 & t1 & t2 & -> & Et & _).
    split; [done|]. intros rest. unfold decode. cbn [app].
    change (get_range _ 0 3) with (get_range ([t0; t1; t2] ++ rest) 0 (zlen [t0; t1; t2])). rewrite get_range_prefix, Et. done.
  - intros _. split; [done|]. intros rest. done.
Qed.

(** What decoding a header needs, and that more bytes do not change it. *)
Lemma decode_cases f l : 0 <= f <= 3 ->
  (zlen l < header_len f /\ decode f l = Ok None) \/
  (header_len f <= zlen l /\ exists h, fmt h = f /\ forall x, decode f (l ++ x) = Ok (Some (h, header_len f))).
Proof.
  intros Hf. destruct (Z.ltb_spec (zlen l) (header_len f)) as [Hs|Hs].
  - left. split; [done|]. unfold decode, header_len in *. repeat case_match; try (by rewrite get_range_short in *); breflect; try done; try lia.
    all: pose proof (zlen_nonneg l); lia.
  - right. split; [done|].
    assert (exists k, zlen k = header_len f /\ forall x, get_range (l ++ x) 0 (header_len f) = Some k) as (k & Hn & Hg).
    { assert (0 <= header_len f) by (unfold header_len; repeat case_match; lia). exists (take (Z.to_nat (header_len f)) l).
      split; [apply zlen_take; lia|]. intros x. apply get_range_extend. unfold get_range.
      rewrite (proj2 (Z.leb_le 0 (header_len f))), (proj2 (Z.leb_le (header_len f) (zlen l))) by lia. cbn [Z.leb Z.compare andb]. by rewrite Z.sub_0_r, drop_0. }
    assert (f = 0 \/ f = 1 \/ f = 2 \/ f = 3) as [->|[->|[->| ->]]] by lia; unfold decode;
      [change (header_len 0) with 11 in *|change (header_len 1) with 7 in *|change (header_len 2) with 3 in *|by exists Type3]; cbn [Z.eqb Pos.eqb].
    + destruct k as [|t0 [|t1 [|t2 [|l0 [|l1 [|l2 [|i [|s0 [|s1 [|s2 [|s3 [|b k]]]]]]]]]]]]; try (vm_compute in Hn; done); try (rewrite !zlen_cons in Hn; pose proof (zlen_nonneg k); lia).
      eexists. split; [|intros x; rewrite Hg; reflexivity]. done.
    + destruct k as [|t0 [|t1 [|t2 [|l0 [|l1 [|l2 [|i [|b k]]]]]]]]; try (vm_compute in Hn; done); try (rewrite !zlen_cons in Hn; pose proof (zlen_nonneg k); lia).
      eexists. split; [|intros x; rewrite Hg; reflexivity]. done.
    + destruct k as [|t0 [|t1 [|t2 [|b k]]]]; try (vm_compute in Hn; done); try (rewrite !zlen_cons in Hn; pose proof (zlen_nonneg k); lia).
      eexists. split; [|intros x; rewrite Hg; reflexivity]. done.
Qed.

(** The headers of a chunk are self-delimiting. Every valid basic header - any
    of the four shapes on any chunk stream from 2 to 65599 - and every message
    header decode to themselves from their own bytes whatever follows, in one to
    three and in eleven, seven, three or no bytes, and no proper prefix of either
    is taken for a header; everything else is refused by the encoder. *)
Theorem headers_roundtrip f c h out :
  0 <= f -> 0 <= c -> header_ok h ->
  match encode_basic_header f c out with
  | Ok o => f <= 3 /\ 2 <= c <= 65599 /\ exists bs, o = out ++ bs /\ 1 <= zlen bs <= 3 /\
      (forall rest, decode_basic_header (bs ++ rest) = Ok (Some (BasicHeader f c, zlen bs))) /\
      (forall short, zlen short < zlen bs -> short `prefix_of` bs -> decode_basic_header short = Ok None)
  | Err _ => 3 < f \/ c < 2 \/ 65599 < c
  end /\
  exists bs, encode h out = out ++ bs /\ zlen bs = header_len (fmt h) /\
    (forall rest, decode (fmt h) (bs ++ rest) = Ok (Some (h, zlen bs))) /\
    (forall short, zlen short < zlen bs -> decode (fmt h) short = Ok None).
Proof.
  intros Hf Hc Hh. split.
  - destruct (decide (f <= 3 /\ 2 <= c <= 65599)) as [[H1 H2]|H].
    + destruct (encode_basic_spec f c out ltac:(lia) H2) as (bs & -> & Hn & _ & Hd & Hp). split; [done|]. split; [done|]. by exists bs.
    + unfold encode_basic_header. destruct (Z.ltb_spec 3 f); [by left|]. cbv zeta.
      destruct (Z.eqb_spec c 0), (Z.eqb_spec c 1), (Z.leb_spec c 63), (Z.leb_spec c 319), (Z.leb_spec c 65599); cbn [orb]; lia || (exfalso; lia).
  - destruct (encode_spec h Hh) as [Hl Hd]. exists (encode h []). split; [apply encode_out|]. split; [done|]. rewrite Hl. split; [done|].
    intros short Hs. destruct (decode_cases (fmt h) short) as [[_ H]|[H _]]; [destruct h; cbn; lia|done|lia].
Qed.

Lemma headers_roundtrip_witness :
  (exists bs, encode_basic_header 1 65599 [7] = Ok (7 :: bs) /\ decode_basic_header (bs ++ [1; 2]) = Ok (Some (BasicHeader 1 65599, 3))) /\
  decode 0 (encode (Type0 16777215 1000 9 4294967295) [] ++ [1]) = Ok (Some (Type0 16777215 1000 9 4294967295, 11)).
Proof.
  destruct (headers_roundtrip 1 65599 (Type0 16777215 1000 9 4294967295) [7] ltac:(lia) ltac:(lia) ltac:(vm_compute; repeat split; congruence)) as [H1 H2].
  split.
  - exists [65; 255; 255]. split; [reflexivity|]. change (encode_basic_header 1 65599 [7]) with (Ok (E := protocol_error) [7; 65; 255; 255]) in H1.
    destruct H1 as (_ & _ & bs & Ho & _ & Hd & _). injection Ho as <-. exact (Hd [1; 2]).
  - destruct H2 as (bs & He & _ & Hd & _). injection He as <-. exact (Hd [1]).
Defined.
