(* ===== verification/Rtmp.v ===== *)
(** * Rtmp: messages over chunk streams

    [src/crates/io/vaco-protocol-rtmp/src/message.rs]: the [Dechunker], which
    buffers the bytes of a connection, keeps one state for each chunk stream and
    reassembles whole messages against a budget, and [chunk_message], its inverse.
    The capacity the allocator gives is a parameter. *)

From Stdlib Require Import ZArith Lia.
From stdpp Require Import prelude strings gmap.
From S2P Require Import Prelude Bits Error Limits RtmpChunk.

#[local] Open Scope Z_scope.

(** ** The state *)

Record rtmp_message : Type := RtmpMessage {
  timestamp : Z;
  message_type_id : Z;
  message_stream_id : Z;
  payload : list Z;
}.

Record incomplete_message : Type := IncompleteMessage {
  im_timestamp : Z;
  im_type_id : Z;
  im_stream_id : Z;
  remaining : Z;
  body : inc_vec Z;
}.

Record chunk_stream_state : Type := ChunkStreamState {
  last_timestamp : Z;
  last_timestamp_delta : Z;
  last_message_length : Z;
  last_message_type_id : Z;
  last_message_stream_id : Z;
  in_progress : option incomplete_message;
  extended_timestamp_in_effect : bool;
}.

Definition state_default : chunk_stream_state := ChunkStreamState 0 0 0 0 0 None false.

Definition set_in_progress (s : chunk_stream_state) (m : option incomplete_message) : chunk_stream_state :=
  ChunkStreamState (last_timestamp s) (last_timestamp_delta s) (last_message_length s) (last_message_type_id s)
    (last_message_stream_id s) m (extended_timestamp_in_effect s).

Record dechunker : Type := Dechunker {
  chunk_size : Z;
  streams : gmap Z chunk_stream_state;
  buf : list Z;
  dbudget : budget;
}.

Definition dechunker_new (l : limits) : dechunker := Dechunker 128 ∅ [] (Limits.new l).

Definition set_chunk_size (d : dechunker) (size : Z) : dechunker := Dechunker size (streams d) (buf d) (dbudget d).

Inductive chunk_outcome : Type :=
  | NeedMoreData
  | Consumed
  | Complete (msg : rtmp_message).

(** ** One chunk: what the bytes say *)

Definition raw_ts (h : message_header) : option Z :=
  match h with Type0 t _ _ _ => Some t | Type1 t _ _ => Some t | Type2 t => Some t | Type3 => None end.

Definition reads_extended (s : option chunk_stream_state) (h : message_header) : bool :=
  match raw_ts h with
  | Some t => t =? EXTENDED_TIMESTAMP
  | None => match s with Some s => extended_timestamp_in_effect s | None => false end
  end.

(** [self.streams.entry(csid).or_default()]. *)
Definition entry_or_default (m : gmap Z chunk_stream_state) (c : Z) : chunk_stream_state * gmap Z chunk_stream_state :=
  match m !! c with
  | Some s => (s, m)
  | None => (state_default, <[c := state_default]> m)
  end.

(** The header against the state of its stream: timestamp, type, stream, length,
    and whether it continues a message. *)
Definition resolve (s : chunk_stream_state) (h : message_header) (extended : option Z) : Z * Z * Z * Z * bool :=
  let delta := default (default 0 (raw_ts h)) extended in
  match h with
  | Type0 _ message_length message_type_id message_stream_id =>
    (delta, message_type_id, message_stream_id, message_length, false)
  | Type1 _ message_length message_type_id =>
    (wrap_u 32 (last_timestamp s + delta), message_type_id, last_message_stream_id s, message_length, false)
  | Type2 _ =>
    (wrap_u 32 (last_timestamp s + delta), last_message_type_id s, last_message_stream_id s, last_message_length s, false)
  | Type3 =>
    match in_progress s with
    | Some _ => (last_timestamp s, last_message_type_id s, last_message_stream_id s, last_message_length s, true)
    | None =>
      (wrap_u 32 (last_timestamp s + last_timestamp_delta s), last_message_type_id s, last_message_stream_id s,
       last_message_length s, false)
    end
  end.

(** What the state remembers of a chunk that is there whole. *)
Definition remember (s : chunk_stream_state) (h : message_header) (extended : option Z) (ext : bool)
    (t ty st len : Z) : chunk_stream_state :=
  ChunkStreamState t
    (match h with Type3 => last_timestamp_delta s | Type0 _ _ _ _ => 0 | _ => default (default 0 (raw_ts h)) extended end)
    len ty st (in_progress s) ext.

(** A chunk found whole at the front of the buffer. *)
Record chunk : Type := Chunk {
  cid : Z;
  cstate : chunk_stream_state;
  ctimestamp : Z;
  ctype : Z;
  cstream : Z;
  clength : Z;
  ccontinues : bool;
  ctake : Z;
  cpayload : list Z;
  cconsumed : Z;
}.

(** Not even the headers are there; or they are, and their stream has an entry,
    but the payload is not; or a chunk. *)
Inductive parsed : Type :=
  | Short
  | Touched (m : gmap Z chunk_stream_state)
  | Whole (c : chunk).

(** The rest of a chunk whose headers, up to [after_extended], are there. *)
Definition parse_payload (size : Z) (m : gmap Z chunk_stream_state) (buf : list Z) (c : Z) (h : message_header)
    (ext : bool) (extended : option Z) (after_extended : list Z) : parsed :=
  let '(s, m) := entry_or_default m c in
  let '(t, ty, st, len, continues) := resolve s h extended in
  let remaining_before :=
    if continues : bool then match in_progress s with Some im => remaining im | None => len end else len in
  let take := Z.min remaining_before size in
  match get_range after_extended 0 take with
  | None => Touched m
  | Some payload =>
    Whole (Chunk c (remember s h extended ext t ty st len) t ty st len continues take payload
             (zlen buf - zlen after_extended + take))
  end.

Definition parse_chunk (size : Z) (m : gmap Z chunk_stream_state) (buf : list Z) : result protocol_error parsed :=
  o ← decode_basic_header buf;
  match o with
  | None => Ok Short
  | Some (basic, basic_len) =>
    let after_basic := default [] (get_from buf basic_len) in
    o ← decode (bfmt basic) after_basic;
    match o with
    | None => Ok Short
    | Some (h, header_len) =>
      let after_header := default [] (get_from after_basic header_len) in
      if reads_extended (m !! csid basic) h then
        match get_range after_header 0 4 with
        | None => Ok Short
        | Some b =>
          Ok (parse_payload size m buf (csid basic) h true (Some (be_value b)) (default [] (get_from after_header 4)))
        end
      else Ok (parse_payload size m buf (csid basic) h false None after_header)
    end
  end.

(** ** One chunk: what it does *)

Section dechunk.
Context (grow : Z -> option Z).

(** [d] with the chunk drained and its header committed; what is in progress is
    taken out when it continues. *)
Definition commit_chunk (d : dechunker) (c : chunk) : dechunker :=
  let s := if ccontinues c then set_in_progress (cstate c) None else cstate c in
  Dechunker (chunk_size d) (<[cid c := s]> (streams d))
    (drop (Z.to_nat (Z.min (cconsumed c) (zlen (buf d)))) (buf d)) (dbudget d).

(** The message the chunk belongs to, as it was before it. *)
Definition open_message (d : dechunker) (c : chunk) : result protocol_error incomplete_message :=
  if ccontinues c then
    ok_or (in_progress (cstate c)) (malformed "chunk continues a message that was never started")
  else
    match check (dbudget d) (clength c) with
    | Err e => Err (ProtoIo (from_limit e))
    | Ok _ => Ok (IncompleteMessage (ctimestamp c) (ctype c) (cstream c) (clength c) (inc_new (clength c)))
    end.

Definition set_budget (d : dechunker) (b : budget) : dechunker := Dechunker (chunk_size d) (streams d) (buf d) b.

Definition apply_chunk (d : dechunker) (c : chunk) : result protocol_error chunk_outcome * dechunker :=
  let d' := commit_chunk d c in
  match open_message d c with
  | Err e => (Err e, d')
  | Ok im =>
    match push_slice 1 grow (body im) (dbudget d') (cpayload c) with
    | (Err e, _, b) => (Err (ProtoIo (from_limit e)), set_budget d' b)
    | (Ok _, v, b) =>
      let left := sat_u 64 (remaining im - ctake c) in
      if left =? 0 then
        (Ok (Complete (RtmpMessage (im_timestamp im) (im_type_id im) (im_stream_id im) (items v))),
         set_budget d' (release b (charged v)))
      else
        let im := IncompleteMessage (im_timestamp im) (im_type_id im) (im_stream_id im) left v in
        let '(s, m) := entry_or_default (streams d') (cid c) in
        (Ok Consumed, Dechunker (chunk_size d') (<[cid c := set_in_progress s (Some im)]> m) (buf d') b)
    end
  end.

Definition try_take_one (d : dechunker) : result protocol_error chunk_outcome * dechunker :=
  match parse_chunk (chunk_size d) (streams d) (buf d) with
  | Err e => (Err e, d)
  | Ok Short => (Ok NeedMoreData, d)
  | Ok (Touched m) => (Ok NeedMoreData, Dechunker (chunk_size d) m (buf d) (dbudget d))
  | Ok (Whole c) => apply_chunk d c
  end.

(** The loop of [feed]; each turn but the last consumes a byte. *)
Fixpoint feed_loop (fuel : nat) (d : dechunker) (out : list rtmp_message) : result protocol_error (list rtmp_message) * dechunker :=
  match fuel with
  | O => (Ok out, d)
  | S fuel =>
    match try_take_one d with
    | (Err e, d) => (Err e, d)
    | (Ok NeedMoreData, d) => (Ok out, d)
    | (Ok Consumed, d) => feed_loop fuel d out
    | (Ok (Complete msg), d) => feed_loop fuel d (out ++ [msg])
    end
  end.

Definition extend (d : dechunker) (data : list Z) : dechunker :=
  Dechunker (chunk_size d) (streams d) (buf d ++ data) (dbudget d).

Definition feed (d : dechunker) (data : list Z) : result protocol_error (list rtmp_message) * dechunker :=
  let d := extend d data in
  feed_loop (S (length (buf d))) d [].

End dechunk.

(** ** Sending *)

(** The loop of [chunk_message]; each turn but the first of an empty payload
    advances. *)
Fixpoint chunk_loop (fuel : nat) (msg : rtmp_message) (c chunk_size message_length offset : Z) (first : bool) (out : list Z)
    : result protocol_error (list Z) :=
  match fuel with
  | O => Ok out
  | S fuel =>
    let n := zlen (payload msg) in
    if (offset <? n) || (first && (n =? 0)) then
      out ← encode_basic_header (if first then 0 else 3) c out;
      let out :=
        if first then
          encode (Type0 (Z.min (timestamp msg) EXTENDED_TIMESTAMP) message_length (message_type_id msg) (message_stream_id msg)) out
        else out in
      let out := if EXTENDED_TIMESTAMP <=? timestamp msg then out ++ be_bytes 4 (timestamp msg) else out in
      let end_ := Z.min (offset + chunk_size) n in
      let out := match get_range (payload msg) offset end_ with Some s => out ++ s | None => out end in
      if n =? 0 then Ok out else chunk_loop fuel msg c chunk_size message_length end_ false out
    else Ok out
  end.

Definition chunk_message (msg : rtmp_message) (c chunk_size : Z) : result protocol_error (list Z) :=
  message_length ← ok_or (checked_u 32 (zlen (payload msg))) (malformed "message payload does not fit RTMP's 24-bit length field");
  chunk_loop (S (length (payload msg))) msg c (Z.max chunk_size 1) message_length 0 true [].

(** ** Parsing is stable under more bytes *)

Lemma entry_twice m c : entry_or_default (snd (entry_or_default m c)) c = entry_or_default m c.
Proof. unfold entry_or_default. destruct (m !! c) eqn:E; cbn [snd]; [by rewrite E|]. by rewrite lookup_insert_eq. Qed.

Lemma entry_extended m c h : reads_extended (snd (entry_or_default m c) !! c) h = reads_extended (m !! c) h.
Proof.
  unfold entry_or_default. destruct (m !! c) eqn:E; cbn [snd]; [by rewrite E|]. rewrite lookup_insert_eq. by destruct h.
Qed.

Lemma insert_entry m c s : <[c := s]> (snd (entry_or_default m c)) = <[c := s]> m.
Proof. unfold entry_or_default. destruct (m !! c); cbn [snd]; [done|]. apply insert_insert_eq. Qed.

Lemma get_from_extend (l x : list Z) n : 0 <= n <= zlen l -> default [] (get_from (l ++ x) n) = default [] (get_from l n) ++ x.
Proof.
  intros Hn. unfold get_from. rewrite zlen_app. pose proof (zlen_nonneg x).
  rewrite (proj2 (Z.leb_le 0 n)), (proj2 (Z.leb_le n (zlen l))), (proj2 (Z.leb_le n (zlen l + zlen x))) by lia. cbn [andb default from_option].
  apply drop_app_le. unfold zlen in *. lia.
Qed.

Lemma get_from_length (l : list Z) n : 0 <= n <= zlen l -> zlen (default [] (get_from l n)) = zlen l - n.
Proof.
  intros Hn. unfold get_from. rewrite (proj2 (Z.leb_le 0 n)), (proj2 (Z.leb_le n (zlen l))) by lia. cbn [andb default from_option]. by apply zlen_drop.
Qed.

Lemma parse_payload_stable size m l x c h ext extended a :
  0 <= zlen a < zlen l ->
  match parse_payload size m l c h ext extended a with
  | Short => False
  | Touched m' => m' = snd (entry_or_default m c) /\
      match parse_payload size m (l ++ x) c h ext extended (a ++ x) with
      | Short => False | Touched m'' => m'' = m' | Whole ch => cid ch = c
      end
  | Whole ch => parse_payload size m (l ++ x) c h ext extended (a ++ x) = Whole ch /\ 0 < cconsumed ch <= zlen l
  end.
Proof.
  intros Ha. unfold parse_payload. destruct (entry_or_default m c) as [s m'] eqn:Em. cbn [snd].
  destruct (resolve s h extended) as [[[[t ty] st] len] cont]. set (n := Z.min _ size).
  destruct (get_range a 0 n) as [pl|] eqn:E.
  - rewrite (get_range_extend _ x _ _ _ E). pose proof (get_range_length _ _ _ E). pose proof (zlen_nonneg pl).
    rewrite !zlen_app. cbn [cconsumed]. split; [|lia]. do 2 f_equal. lia.
  - split; [done|]. by destruct (get_range (a ++ x) 0 n).
Qed.

Lemma parse_payload_entry size m l c h ext extended a :
  parse_payload size (snd (entry_or_default m c)) l c h ext extended a = parse_payload size m l c h ext extended a.
Proof. unfold parse_payload. by rewrite entry_twice. Qed.

(** The headers of a buffer: an error that is there for good, not yet whole, or
    found, whatever follows and whatever entry the stream has. *)
Lemma parse_cases size m l :
  (exists e, forall x m', parse_chunk size m' (l ++ x) = Err e) \/
  parse_chunk size m l = Ok Short \/
  exists c h ext extended a, 0 <= zlen a < zlen l /\
    forall x m', reads_extended (m' !! c) h = reads_extended (m !! c) h ->
      parse_chunk size m' (l ++ x) = Ok (parse_payload size m' (l ++ x) c h ext extended (a ++ x)).
Proof.
  unfold parse_chunk. destruct (decode_basic_total l) as [[[b n]|] Eb]; [|right; left; by rewrite Eb].
  destruct (decode_basic_extend l [] b n Eb) as [_ Hn].
  destruct (decode (bfmt b) (default [] (get_from l n))) as [o|e] eqn:Ed.
  2: { left. exists e. intros x m'. rewrite (proj1 (decode_basic_extend l x b n Eb)). cbn [mbind result_bind]. unfold decode in *.
       repeat (case_match; try done). by injection Ed as <-. }
  destruct (decide (0 <= bfmt b <= 3)) as [Hf|Hf].
  2: { exfalso. unfold decode in Ed. repeat (case_match; breflect; try done; try lia). }
  destruct (decode_cases (bfmt b) (default [] (get_from l n)) Hf) as [[_ H]|(Hlen & h & Hh & Hd)].
  { right. left. rewrite Eb. cbn [mbind result_bind]. by rewrite H. }
  set (ab := default [] (get_from l n)) in *. set (k := RtmpChunk.header_len (bfmt b)) in *.
  assert (0 <= k) by (unfold k, RtmpChunk.header_len; repeat case_match; lia).
  assert (zlen ab = zlen l - n) as Hab by (apply get_from_length; lia).
  set (ah := default [] (get_from ab k)). assert (zlen ah = zlen ab - k) as Hah by (apply get_from_length; lia).
  assert (forall x, default [] (get_from (l ++ x) n) = ab ++ x) as Ex by (intros; apply get_from_extend; lia).
  assert (forall x, default [] (get_from (ab ++ x) k) = ah ++ x) as Ey by (intros; apply get_from_extend; lia).
  assert (forall x, decode_basic_header (l ++ x) = Ok (Some (b, n))) as Eb' by (intros; by apply decode_basic_extend).
  assert (forall x m', parse_chunk size m' (l ++ x) =
    if reads_extended (m' !! csid b) h then
      match get_range (ah ++ x) 0 4 with
      | None => Ok Short
      | Some v => Ok (parse_payload size m' (l ++ x) (csid b) h true (Some (be_value v)) (default [] (get_from (ah ++ x) 4)))
      end
    else Ok (parse_payload size m' (l ++ x) (csid b) h false None (ah ++ x))) as Hp.
  { intros x m'. unfold parse_chunk. rewrite Eb'. cbn [mbind result_bind]. rewrite Ex, Hd. cbn [mbind result_bind]. by rewrite Ey. }
  destruct (reads_extended (m !! csid b) h) eqn:Er.
  - destruct (get_range ah 0 4) as [v|] eqn:Eg.
    + right. right. destruct (get_range_length _ _ _ Eg) as [_ H4].
      exists (csid b), h, true, (Some (be_value v)), (default [] (get_from ah 4)). rewrite get_from_length by lia. split; [lia|].
      intros x m' Hm. fold (parse_chunk size m' (l ++ x)). rewrite Hp, Hm, Er, (get_range_extend _ x _ _ _ Eg). by rewrite get_from_extend by lia.
    + right. left. fold (parse_chunk size m l). specialize (Hp [] m). rewrite !app_nil_r, Er, Eg in Hp. exact Hp.
  - right. right. exists (csid b), h, false, None, ah. split; [lia|]. intros x m' Hm. fold (parse_chunk size m' (l ++ x)). by rewrite Hp, Hm, Er.
Qed.

Section feeding.
Context (grow : Z -> option Z).
#[local] Abbreviation take_one := (try_take_one grow).

Lemma apply_chunk_extend d c x : 0 < cconsumed c <= zlen (buf d) ->
  apply_chunk grow (extend d x) c = (fst (apply_chunk grow d c), extend (snd (apply_chunk grow d c)) x) /\
  (length (buf (snd (apply_chunk grow d c))) < length (buf d))%nat /\ fst (apply_chunk grow d c) <> Ok NeedMoreData.
Proof.
  intros Hc. unfold apply_chunk. assert (commit_chunk (extend d x) c = extend (commit_chunk d c) x) as Hx.
  { unfold commit_chunk, extend. cbn [buf chunk_size streams dbudget]. f_equal. rewrite zlen_app. pose proof (zlen_nonneg x).
    rewrite !Z.min_l by lia. apply drop_app_le. unfold zlen in *. lia. }
  rewrite Hx. assert (open_message (extend d x) c = open_message d c) as -> by done.
  assert (length (buf (commit_chunk d c)) < length (buf d))%nat as Hl.
  { unfold commit_chunk. cbn [buf]. rewrite length_drop, Z.min_l by lia. unfold zlen in *. lia. }
  destruct (open_message d c) as [im|e]; [|done].
  change (dbudget (extend (commit_chunk d c) x)) with (dbudget (commit_chunk d c)).
  destruct (push_slice 1 grow (body im) (dbudget (commit_chunk d c)) (cpayload c)) as [[[u|e] v] b]; [|done].
  destruct (_ =? 0); [done|]. change (streams (extend (commit_chunk d c) x)) with (streams (commit_chunk d c)).
  by destruct (entry_or_default _ _).
Qed.

Lemma apply_chunk_entry d c m : m = snd (entry_or_default (streams d) (cid c)) ->
  apply_chunk grow (Dechunker (chunk_size d) m (buf d) (dbudget d)) c = apply_chunk grow d c.
Proof.
  intros ->. unfold apply_chunk. assert (commit_chunk (Dechunker (chunk_size d) (snd (entry_or_default (streams d) (cid c))) (buf d) (dbudget d)) c = commit_chunk d c) as Hc.
  { unfold commit_chunk. cbn [buf chunk_size streams dbudget]. by rewrite insert_entry. }
  by rewrite Hc.
Qed.

(** More bytes behind what is there change neither a chunk that is whole nor an
    error, and a chunk that is not whole is looked at again as if for the first
    time. *)
Lemma try_take_one_extend d x :
  match take_one d with
  | (Ok NeedMoreData, d') => take_one (extend d' x) = take_one (extend d x) /\ take_one d' = (Ok NeedMoreData, d')
  | (r, d') => take_one (extend d x) = (r, extend d' x) /\ (is_ok r = true -> (length (buf d') < length (buf d))%nat)
  end.
Proof.
  unfold try_take_one. destruct (parse_cases (chunk_size d) (streams d) (buf d)) as [[e He]|[Hs|(c & h & ext & extended & a & Ha & Hp)]].
  - pose proof (He [] (streams d)) as H0. rewrite app_nil_r in H0. rewrite H0.
    assert (parse_chunk (chunk_size (extend d x)) (streams (extend d x)) (buf (extend d x)) = Err e) as -> by apply He. done.
  - rewrite Hs. split; [done|]. by rewrite Hs.
  - pose proof (Hp [] (streams d) eq_refl) as H0. rewrite !app_nil_r in H0. rewrite H0.
    pose proof (parse_payload_stable (chunk_size d) (streams d) (buf d) x c h ext extended a Ha) as Hst.
    destruct (parse_payload (chunk_size d) (streams d) (buf d) c h ext extended a) as [|m'|ch] eqn:E; [done| |].
    + destruct Hst as [-> Hst]. set (m' := snd (entry_or_default (streams d) c)). split.
      * unfold extend. cbn [chunk_size streams buf dbudget]. rewrite (Hp x m') by apply entry_extended. rewrite (Hp x (streams d)) by done.
        unfold m'. rewrite parse_payload_entry. destruct (parse_payload _ _ (buf d ++ x) _ _ _ _ _) as [|m''|ch]; [done|by subst|].
        apply (apply_chunk_entry (extend d x) ch). by rewrite Hst.
      * cbn [chunk_size streams buf dbudget]. pose proof (Hp [] m' (entry_extended _ _ _)) as H1. rewrite !app_nil_r in H1. rewrite H1.
        unfold m'. rewrite parse_payload_entry, E. done.
    + destruct Hst as [Hst Hc].
      assert (parse_chunk (chunk_size (extend d x)) (streams (extend d x)) (buf (extend d x)) = Ok (Whole ch)) as Hx
        by (unfold extend; cbn [chunk_size streams buf]; by rewrite (Hp x (streams d) eq_refl), Hst).
      destruct (apply_chunk_extend d ch x Hc) as (Ha' & Hl & Hn). rewrite Hx. rewrite Ha'. destruct (apply_chunk grow d ch) as [[[| |msg]|e] d']; cbn [fst snd] in *; done.
Qed.

(** ** Draining *)

Definition prepend (ms : list rtmp_message) (r : result protocol_error (list rtmp_message) * dechunker) :
    result protocol_error (list rtmp_message) * dechunker :=
  match r with (Ok o, d) => (Ok (ms ++ o), d) | (Err e, d) => (Err e, d) end.

Definition drain (d : dechunker) : result protocol_error (list rtmp_message) * dechunker :=
  feed_loop grow (S (length (buf d))) d [].

Lemma feed_loop_out fuel d o : feed_loop grow fuel d o = prepend o (feed_loop grow fuel d []).
Proof.
  revert d o. induction fuel as [|fuel IH]; intros d o; cbn [feed_loop prepend]; [by rewrite app_nil_r|].
  destruct (take_one d) as [[[| |msg]|e] d']; cbn [prepend]; [by rewrite app_nil_r|apply IH| |done].
  rewrite (IH d' (o ++ [msg])), (IH d' ([] ++ [msg])). destruct (feed_loop grow fuel d' []) as [[r|e] d2]; cbn [prepend app]; [|done].
  by rewrite <- app_assoc.
Qed.

(** Any fuel above the number of bytes is enough. *)
Lemma feed_loop_fuel f1 f2 d : (length (buf d) < f1)%nat -> (length (buf d) < f2)%nat -> feed_loop grow f1 d [] = feed_loop grow f2 d [].
Proof.
  revert f2 d. induction f1 as [|f1 IH]; intros [|f2] d H1 H2; [lia..|]. cbn [feed_loop].
  pose proof (try_take_one_extend d []) as Ht. destruct (take_one d) as [[[| |msg]|e] d']; [done| | |done]; destruct Ht as [_ Hl]; specialize (Hl eq_refl).
  - apply IH; lia.
  - rewrite (feed_loop_out f1), (feed_loop_out f2). f_equal. apply IH; lia.
Qed.

Lemma drain_eq d : drain d =
  match take_one d with
  | (Err e, d') => (Err e, d')
  | (Ok NeedMoreData, d') => (Ok [], d')
  | (Ok Consumed, d') => drain d'
  | (Ok (Complete msg), d') => prepend [msg] (drain d')
  end.
Proof.
  unfold drain at 1. cbn [feed_loop]. pose proof (try_take_one_extend d []) as Ht.
  destruct (take_one d) as [[[| |msg]|e] d']; [done| | |done]; destruct Ht as [_ Hl]; specialize (Hl eq_refl).
  - apply feed_loop_fuel; lia.
  - rewrite feed_loop_out. unfold drain. f_equal. apply feed_loop_fuel; lia.
Qed.

Lemma drain_extend d x : drain (extend d x) =
  match drain d with
  | (Ok o, d1) => prepend o (drain (extend d1 x))
  | (Err e, d1) => (Err e, extend d1 x)
  end.
Proof.
  induction d as [d IH] using (well_founded_induction (Wf_nat.well_founded_ltof _ (fun d => length (buf d)))). unfold Wf_nat.ltof in IH.
  rewrite (drain_eq d), (drain_eq (extend d x)). pose proof (try_take_one_extend d x) as Ht.
  destruct (take_one d) as [[[| |msg]|e] d'].
  - destruct Ht as [Ht _]. rewrite <- Ht. rewrite <- drain_eq. by destruct (drain (extend d' x)) as [[?|?] ?].
  - destruct Ht as [-> Hl]. by apply IH, Hl.
  - destruct Ht as [-> Hl]. rewrite IH by by apply Hl. destruct (drain d') as [[o|e] d1]; cbn [prepend]; [|done].
    by destruct (drain (extend d1 x)) as [[?|?] ?].
  - destruct Ht as [-> _]. done.
Qed.

(** After a drain there is no whole chunk left. *)
Lemma drain_idle d : is_ok (fst (drain d)) = true -> take_one (snd (drain d)) = (Ok NeedMoreData, snd (drain d)).
Proof.
  induction d as [d IH] using (well_founded_induction (Wf_nat.well_founded_ltof _ (fun d => length (buf d)))). unfold Wf_nat.ltof in IH.
  rewrite drain_eq. pose proof (try_take_one_extend d []) as Ht. destruct (take_one d) as [[[| |msg]|e] d'].
  - by destruct Ht.
  - destruct Ht as [_ Hl]. apply IH, Hl. done.
  - destruct Ht as [_ Hl]. specialize (IH d' (Hl eq_refl)). by destruct (drain d') as [[?|?] ?].
  - done.
Qed.

(** Feeding pieces one after another, up to the first error. *)
Fixpoint feeds (d : dechunker) (pieces : list (list Z)) : result protocol_error (list rtmp_message) * dechunker :=
  match pieces with
  | [] => (Ok [], d)
  | p :: pieces =>
    match feed grow d p with
    | (Err e, d) => (Err e, d)
    | (Ok o, d) => prepend o (feeds d pieces)
    end
  end.

Lemma extend_extend d x y : extend (extend d x) y = extend d (x ++ y).
Proof. unfold extend. cbn [buf chunk_size streams dbudget]. by rewrite app_assoc. Qed.

Lemma extend_nil d : extend d [] = d.
Proof. unfold extend. destruct d. cbn [buf chunk_size streams dbudget]. by rewrite app_nil_r. Qed.

Lemma feeds_drain pieces d : drain d = (Ok [], d) ->
  match feeds d pieces with
  | (Ok o, d') => feed grow d (concat pieces) = (Ok o, d') /\ drain d' = (Ok [], d')
  | (Err e, _) => fst (feed grow d (concat pieces)) = Err e
  end.
Proof.
  revert d. induction pieces as [|p ps IH]; intros d Hd; cbn [feeds concat].
  - split; [|done]. unfold feed. fold (drain (extend d [])). by rewrite extend_nil.
  - change (feed grow d p) with (drain (extend d p)). change (feed grow d (p ++ concat ps)) with (drain (extend d (p ++ concat ps))).
    rewrite <- extend_extend, (drain_extend (extend d p)). pose proof (drain_idle (extend d p)) as Hi.
    destruct (drain (extend d p)) as [[o|e] d1]; [|done]. cbn [fst snd] in Hi. specialize (Hi eq_refl).
    assert (drain d1 = (Ok [], d1)) as Hd1 by by rewrite drain_eq, Hi.
    specialize (IH d1 Hd1). change (feed grow d1 (concat ps)) with (drain (extend d1 (concat ps))) in IH.
    destruct (feeds d1 ps) as [[o2|e2] d2]; cbn [prepend].
    + destruct IH as [-> H2]. by split.
    + destruct (drain (extend d1 (concat ps))) as [[?|?] ?]; cbn [fst prepend] in *; [done|by injection IH as ->].
Qed.

(** C25. How the bytes are cut does not matter. However a connection's bytes reach
    [feed] - byte by byte, headers and payloads torn anywhere, several messages at
    once - the messages out are those of the bytes fed in one piece, and so is the
    state left behind; an error comes out if and only if it does for the whole.
    And a [feed] that returns has taken every chunk that was there. *)
Theorem feed_any_split l pieces :
  match feeds (dechunker_new l) pieces with
  | (Ok o, d) => feed grow (dechunker_new l) (concat pieces) = (Ok o, d) /\ take_one d = (Ok NeedMoreData, d)
  | (Err e, _) => fst (feed grow (dechunker_new l) (concat pieces)) = Err e
  end.
Proof.
  pose proof (feeds_drain pieces (dechunker_new l) eq_refl) as H. destruct (feeds (dechunker_new l) pieces) as [[o|e] d]; [|done].
  destruct H as [H1 H2]. split; [done|]. pose proof (drain_idle d) as Hi. rewrite H2 in Hi. by apply Hi.
Qed.

End feeding.

(** ** The chunks of a message *)

Definition sendable (m : rtmp_message) : Prop :=
  0 <= timestamp m < 2 ^ 32 /\ 0 <= message_type_id m < 256 /\ 0 <= message_stream_id m < 2 ^ 32 /\ zlen (payload m) < 2 ^ 24.

Definition is_extended (m : rtmp_message) : bool := EXTENDED_TIMESTAMP <=? timestamp m.

Definition first_header (m : rtmp_message) : message_header :=
  Type0 (Z.min (timestamp m) EXTENDED_TIMESTAMP) (zlen (payload m)) (message_type_id m) (message_stream_id m).

(** The bytes before the payload of a chunk. *)
Definition head_bytes (c : Z) (m : rtmp_message) (first : bool) : list Z :=
  match encode_basic_header (if first then 0 else 3) c [] with Ok b => b | Err _ => [] end ++
  (if first then encode (first_header m) [] else []) ++
  (if is_extended m then be_bytes 4 (timestamp m) else []).

(** The chunks that carry [rest], the last with the message it completes. *)
Fixpoint chunks_from (fuel : nat) (size c : Z) (m : rtmp_message) (first : bool) (rest : list Z) : list (list Z * option rtmp_message) :=
  match fuel with
  | O => []
  | S fuel =>
    if zlen rest <=? size then [(head_bytes c m first ++ rest, Some m)]
    else (head_bytes c m first ++ take (Z.to_nat size) rest, None) :: chunks_from fuel size c m false (drop (Z.to_nat size) rest)
  end.

Definition chunks (size c : Z) (m : rtmp_message) : list (list Z * option rtmp_message) :=
  chunks_from (S (length (payload m))) size c m true (payload m).

Lemma chunks_from_fuel f1 f2 size c m first rest : 1 <= size ->
  (length rest < f1)%nat -> (length rest < f2)%nat -> chunks_from f1 size c m first rest = chunks_from f2 size c m first rest.
Proof.
  intros Hs. revert f2 first rest. induction f1 as [|f1 IH]; intros [|f2] first rest H1 H2; [lia..|]. cbn [chunks_from].
  destruct (Z.leb_spec (zlen rest) size); [done|]. f_equal. apply IH; rewrite length_drop; unfold zlen in *; lia.
Qed.

Lemma chunk_loop_chunks fuel size c m offset first out :
  2 <= c <= 65599 -> 1 <= size -> 0 <= offset <= zlen (payload m) -> zlen (payload m) - offset < Z.of_nat fuel ->
  (first = true -> offset = 0) -> (first = false -> offset < zlen (payload m)) ->
  chunk_loop fuel m c size (zlen (payload m)) offset first out =
  Ok (out ++ concat (map fst (chunks_from fuel size c m first (drop (Z.to_nat offset) (payload m))))).
Proof.
  intros Hc Hs. revert offset first out. induction fuel as [|fuel IH]; intros offset first out Ho Hf H1 H2; [lia|].
  cbn [chunk_loop chunks_from]. set (n := zlen (payload m)) in *.
  assert ((offset <? n) || (first && (n =? 0)) = true) as ->.
  { destruct first; [rewrite H1 by done|rewrite (proj2 (Z.ltb_lt offset n)); auto]. destruct (Z.ltb_spec 0 n); [done|]. cbn. lia. }
  destruct (encode_basic_spec (if first then 0 else 3) c out ltac:(destruct first; lia) Hc) as (bs & Hb & _ & _ & Hd & _).
  assert (encode_basic_header (if first then 0 else 3) c [] = Ok bs) as Hb0.
  { clear -Hb. unfold encode_basic_header in *. repeat (case_match; try done); injection Hb as H'; apply app_inv_head in H'; by subst. }
  rewrite Hb. cbn [mbind result_bind]. set (e := Z.min (offset + size) n).
  assert (zlen (drop (Z.to_nat offset) (payload m)) = n - offset) as Hr by (apply zlen_drop; lia).
  assert (get_range (payload m) offset e = Some (take (Z.to_nat (e - offset)) (drop (Z.to_nat offset) (payload m)))) as ->.
  { unfold get_range. fold n. by rewrite (proj2 (Z.leb_le 0 offset)), (proj2 (Z.leb_le offset e)), (proj2 (Z.leb_le e n)) by lia. }
  set (piece := take (Z.to_nat (e - offset)) (drop (Z.to_nat offset) (payload m))).
  assert (forall l, (let out0 := if first then encode (Type0 (Z.min (timestamp m) EXTENDED_TIMESTAMP) n (message_type_id m) (message_stream_id m)) (out ++ bs) else out ++ bs in
    (if EXTENDED_TIMESTAMP <=? timestamp m then out0 ++ be_bytes 4 (timestamp m) else out0) ++ l) = out ++ head_bytes c m first ++ l) as Hh.
  { intros l. unfold head_bytes. rewrite Hb0. fold (is_extended m). fold (first_header m).
    destruct first; [rewrite encode_out|]; destruct (is_extended m); cbv zeta; by rewrite <- ?app_assoc, ?app_nil_r. }
  cbv zeta. rewrite Hh. destruct (Z.leb_spec (zlen (drop (Z.to_nat offset) (payload m))) size) as [Hl|Hl].
  - assert (piece = drop (Z.to_nat offset) (payload m)) as -> by (apply take_ge; unfold zlen in *; lia). cbn [map concat fst]. rewrite app_nil_r.
    destruct (Z.eqb_spec n 0); [done|]. assert (e = n) as He by lia. destruct fuel as [|fuel']; [by rewrite <- ?app_assoc|]. cbn [chunk_loop].
    fold n. by rewrite He, Z.ltb_irrefl.
  - destruct (Z.eqb_spec n 0); [lia|]. rewrite IH by (lia || done). cbn [map concat fst]. rewrite <- !app_assoc. do 2 f_equal.
    assert (Z.to_nat (e - offset) = Z.to_nat size) as He by lia. unfold piece. rewrite He, drop_drop. do 3 f_equal. do 3 f_equal. lia.
Qed.

Lemma chunk_message_chunks size c m : zlen (payload m) < 2 ^ 32 -> 2 <= c <= 65599 -> 1 <= size ->
  chunk_message m c size = Ok (concat (map fst (chunks size c m))).
Proof.
  intros Hm Hc Hs. unfold chunk_message. pose proof (zlen_nonneg (payload m)).
  rewrite checked_u_in by (apply in_u_spec; lia). cbn [ok_or mbind result_bind]. rewrite Z.max_l by lia.
  rewrite chunk_loop_chunks by (done || lia || (unfold zlen; lia)). done.
Qed.

(** ** Receiving a chunk *)

Definition timestamp_field (m : rtmp_message) : option Z := if is_extended m then Some (timestamp m) else None.

(** The state after a chunk of [m]. *)
Definition after_chunk (s : chunk_stream_state) (m : rtmp_message) (first : bool) : chunk_stream_state :=
  if first then ChunkStreamState (timestamp m) 0 (zlen (payload m)) (message_type_id m) (message_stream_id m) (in_progress s) (is_extended m)
  else ChunkStreamState (last_timestamp s) (last_timestamp_delta s) (last_message_length s) (last_message_type_id s)
         (last_message_stream_id s) (in_progress s) (is_extended m).

(** The state lets a chunk of [m] with [rest] still to come be read: it is idle and
    the message starts, or the message is in progress. *)
Definition ready (s : chunk_stream_state) (m : rtmp_message) (first : bool) (rest : list Z) : Prop :=
  if first then rest = payload m
  else exists im, in_progress s = Some im /\ remaining im = zlen rest /\ extended_timestamp_in_effect s = is_extended m.

Lemma ext_bytes (t : Z) rest : 0 <= t < 2 ^ 32 ->
  get_range (be_bytes 4 t ++ rest) 0 4 = Some (be_bytes 4 t) /\ be_value (be_bytes 4 t) = t /\
  default [] (get_from (be_bytes 4 t ++ rest) 4) = rest.
Proof.
  intros Ht. assert (zlen (be_bytes 4 t) = 4) as Hl by (unfold zlen; by rewrite length_be_bytes). split; [|split].
  - pose proof (get_range_prefix (be_bytes 4 t) rest) as H. by rewrite Hl in H.
  - rewrite be_value_be_bytes. apply Z.mod_small. done.
  - rewrite get_from_extend by lia. unfold get_from. rewrite Hl. cbn [Z.leb Z.compare andb default from_option].
    rewrite drop_ge; [done|]. rewrite length_be_bytes. lia.
Qed.

Lemma parse_sent size ss c m first rest more :
  sendable m -> 2 <= c <= 65599 -> 1 <= size -> ready (fst (entry_or_default ss c)) m first rest ->
  let s := fst (entry_or_default ss c) in
  let piece := take (Z.to_nat (Z.min (zlen rest) size)) rest in
  exists t ty st len, (first = true -> t = timestamp m /\ ty = message_type_id m /\ st = message_stream_id m /\ len = zlen (payload m)) /\
  parse_chunk size ss (head_bytes c m first ++ piece ++ more) =
  Ok (Whole (Chunk c (after_chunk s m first) t ty st len (negb first) (Z.min (zlen rest) size) piece
               (zlen (head_bytes c m first) + zlen piece))).
Proof.
  intros Hm Hc Hs Hr s piece. pose proof Hm as (Ht & Hty & Hst & Hlen). pose proof (zlen_nonneg rest) as Hrest.
  assert (zlen piece = Z.min (zlen rest) size) as Hpl by (apply zlen_take; lia).
  destruct (encode_basic_spec (if first then 0 else 3) c [] ltac:(destruct first; lia) Hc) as (bs & Hb & Hn & _ & Hd & _). cbn [app] in Hb.
  set (h := if first then first_header m else Type3).
  assert (header_ok h) as Hh.
  { unfold h, first_header, header_ok, EXTENDED_TIMESTAMP. pose proof (zlen_nonneg (payload m)). destruct first; [|done]. lia. }
  destruct (encode_spec h Hh) as [Hel Hed].
  assert (fmt h = (if first then 0 else 3)) as Hfmt by by unfold h; destruct first.
  set (xs := if is_extended m then be_bytes 4 (timestamp m) else []).
  assert (head_bytes c m first = bs ++ encode h [] ++ xs) as Hhead.
  { unfold head_bytes. rewrite Hb. unfold h, xs. by destruct first. }
  assert (reads_extended (ss !! c) h = is_extended m) as Hre.
  { unfold reads_extended, h, is_extended. destruct first; cbn [raw_ts first_header].
    - unfold EXTENDED_TIMESTAMP. destruct (Z.leb_spec 16777215 (timestamp m)); [rewrite Z.min_r by lia; done|]. rewrite Z.min_l by lia. apply Z.eqb_neq. lia.
    - destruct Hr as (im & Him & _ & Hx). unfold entry_or_default in *. destruct (ss !! c) as [s0|]; cbn [fst] in *; [exact Hx|done]. }
  unfold parse_chunk. rewrite Hhead, <- !app_assoc, Hd. cbn [mbind result_bind bfmt csid].
  rewrite get_from_extend by lia. assert (default [] (get_from bs (zlen bs)) = []) as ->.
  { unfold get_from. rewrite (proj2 (Z.leb_le 0 (zlen bs))), (proj2 (Z.leb_le (zlen bs) (zlen bs))) by lia. cbn [andb default from_option].
    apply drop_ge. unfold zlen. lia. }
  cbn [app]. rewrite <- Hfmt, Hed. cbn [mbind result_bind]. rewrite <- Hel. rewrite get_from_extend by (pose proof (zlen_nonneg (encode h [])); lia).
  assert (default [] (get_from (encode h []) (zlen (encode h []))) = []) as ->.
  { unfold get_from. pose proof (zlen_nonneg (encode h [])). rewrite (proj2 (Z.leb_le 0 _)), (proj2 (Z.leb_le (zlen (encode h [])) _)) by lia.
    cbn [andb default from_option]. apply drop_ge. unfold zlen. lia. }
  cbn [app]. rewrite Hre.
  enough (exists t ty st len, (first = true -> t = timestamp m /\ ty = message_type_id m /\ st = message_stream_id m /\ len = zlen (payload m)) /\
    parse_payload size ss (bs ++ encode h [] ++ xs ++ piece ++ more) c h (is_extended m) (timestamp_field m) (piece ++ more) =
    Whole (Chunk c (after_chunk s m first) t ty st len (negb first) (Z.min (zlen rest) size) piece (zlen (bs ++ encode h [] ++ xs) + zlen piece)))
    as (t & ty & st & len & H1 & H2).
  { exists t, ty, st, len. split; [exact H1|]. unfold xs in *. unfold timestamp_field in H2. destruct (is_extended m).
    - destruct (ext_bytes (timestamp m) (piece ++ more) Ht) as (-> & -> & ->). by rewrite H2.
    - exact (f_equal (fun p => Ok p) H2). }
  unfold parse_payload. destruct (entry_or_default ss c) as [s0 ss'] eqn:Ee. cbn [fst] in *. subst s.
  assert (get_range (piece ++ more) 0 (Z.min (zlen rest) size) = Some piece) as Hg by (rewrite <- Hpl; apply get_range_prefix).
  assert (zlen (bs ++ encode h [] ++ xs ++ piece ++ more) - zlen (piece ++ more) + Z.min (zlen rest) size = zlen (bs ++ encode h [] ++ xs) + zlen piece) as Hcons
    by (rewrite !zlen_app; lia).
  unfold ready in Hr. unfold resolve, h, timestamp_field in *. destruct first; cbn [first_header].
  - subst rest. exists (timestamp m), (message_type_id m), (message_stream_id m), (zlen (payload m)). split; [done|].
    assert (default (default 0 (raw_ts (first_header m))) (if is_extended m then Some (timestamp m) else None) = timestamp m) as Hts.
    { unfold first_header. cbn [raw_ts]. destruct (is_extended m) eqn:Ex; [done|]. unfold is_extended in Ex. apply Z.leb_gt in Ex. cbn. lia. }
    unfold first_header in Hts, Hcons. cbn [raw_ts] in Hts. unfold first_header. cbn [raw_ts]. rewrite Hts, Hg, Hcons. reflexivity.
  - destruct Hr as (im & Him & Hrem & Hx). rewrite Him, Hrem, Hg, Hcons. do 4 eexists. split; [done|]. reflexivity.
Qed.

(** ** The budget of a connection *)

Definition state_of (ss : gmap Z chunk_stream_state) (c : Z) : chunk_stream_state := fst (entry_or_default ss c).

(** What a stream's message in progress has charged. *)
Definition held_of (s : chunk_stream_state) : Z := match in_progress s with Some im => charged (body im) | None => 0 end.

Definition sum_over (f : Z -> Z) (ids : list Z) : Z := fold_right (fun c n => f c + n) 0 ids.

Lemma sum_over_ext f g ids : (forall c, c ∈ ids -> f c = g c) -> sum_over f ids = sum_over g ids.
Proof.
  induction ids as [|i ids IH]; intros H; [done|]. cbn [sum_over fold_right]. rewrite (H i) by left. f_equal. apply IH. intros c Hc. apply H. by right.
Qed.

Lemma sum_over_update f g ids c : NoDup ids -> c ∈ ids -> (forall c', c' <> c -> g c' = f c') -> sum_over g ids = sum_over f ids - f c + g c.
Proof.
  intros Hn Hc Hg. induction ids as [|i ids IH]; [by apply elem_of_nil in Hc|]. apply NoDup_cons in Hn as [Hi Hn]. cbn [sum_over fold_right].
  apply elem_of_cons in Hc as [->|Hc].
  - fold (sum_over f ids) (sum_over g ids). rewrite (sum_over_ext g f ids); [lia|]. intros c' Hc'. apply Hg. intros ->. done.
  - fold (sum_over f ids) (sum_over g ids). rewrite (Hg i) by (intros ->; done). rewrite IH by done. lia.
Qed.

Lemma sum_over_zero f ids : (forall c, f c = 0) -> sum_over f ids = 0.
Proof. intros Hf. induction ids as [|i ids IH]; cbn [sum_over fold_right]; [done|]. fold (sum_over f ids). by rewrite IH, Hf. Qed.

Lemma sum_over_range f ids M : (forall c, 0 <= f c <= M) -> 0 <= sum_over f ids <= zlen ids * M.
Proof.
  intros Hf. induction ids as [|i ids IH]; cbn [sum_over fold_right]; [change (zlen []) with 0; lia|]. fold (sum_over f ids).
  rewrite zlen_cons. specialize (Hf i). lia.
Qed.

Lemma sum_over_bound f ids c M : c ∈ ids -> (forall c', 0 <= f c' <= M) -> f c <= sum_over f ids <= f c + (zlen ids - 1) * M.
Proof.
  intros Hc Hf. induction ids as [|i ids IH]; [by apply elem_of_nil in Hc|]. cbn [sum_over fold_right]. fold (sum_over f ids). rewrite zlen_cons.
  pose proof (sum_over_range f ids M Hf). apply elem_of_cons in Hc as [->|Hc]; [lia|]. specialize (IH Hc). specialize (Hf i). lia.
Qed.

Lemma state_of_insert ss c s c' : state_of (<[c := s]> ss) c' = if decide (c' = c) then s else state_of ss c'.
Proof.
  unfold state_of, entry_or_default. destruct (decide (c' = c)) as [->|H]; [by rewrite lookup_insert_eq|].
  rewrite lookup_insert_ne by done. by destruct (ss !! c').
Qed.

(** ** A connection in the middle of its messages *)

(** A stream between messages, or with [rest] of a message still to come. *)
Definition stream_ok (M : Z) (s : chunk_stream_state) (o : option (rtmp_message * list Z)) : Prop :=
  match o with
  | None => in_progress s = None
  | Some (m, rest) => exists sent (v : inc_vec Z), payload m = sent ++ rest /\ rest <> [] /\ sendable m /\ zlen (payload m) <= M /\
      in_progress s = Some (IncompleteMessage (timestamp m) (message_type_id m) (message_stream_id m) (zlen rest) v) /\
      items v = sent /\ inc_ok 1 v /\ declared v = zlen (payload m) /\ extended_timestamp_in_effect s = is_extended m
  end.

Record conn_ok (l : limits) (ids : list Z) (M : Z) (prog : Z -> option (rtmp_message * list Z)) (d : dechunker) : Prop := {
  conn_accounts : accounts (dbudget d);
  conn_policy : policy (dbudget d) = l;
  conn_pending : pending (dbudget d) = 0;
  conn_committed : committed (dbudget d) = sum_over (fun c => held_of (state_of (streams d) c)) ids;
  conn_streams : forall c, stream_ok M (state_of (streams d) c) (prog c);
  conn_idle : forall c, c ∉ ids -> prog c = None;
}.

Lemma inc_charged_declared (v : inc_vec Z) : inc_ok 1 v -> 0 <= charged v <= declared v.
Proof. intros [_ _ H]. unfold paid_for in H. lia. Qed.

Lemma stream_held M s o : 0 <= M -> stream_ok M s o -> 0 <= held_of s <= M.
Proof.
  intros HM. unfold stream_ok, held_of. destruct o as [[m rest]|]; [|by intros ->].
  intros (sent & v & _ & _ & _ & Hl & -> & _ & Hv & Hd & _). cbn [body]. pose proof (inc_charged_declared v Hv). lia.
Qed.

(** The message a chunk belongs to, before the chunk: a new one, or the one in
    progress. *)
Definition joins (M : Z) (s : chunk_stream_state) (m : rtmp_message) (first : bool) (rest : list Z) : Prop :=
  sendable m /\ zlen (payload m) <= M /\
  (if first then in_progress s = None /\ rest = payload m else stream_ok M s (Some (m, rest))).

Definition opened (s : chunk_stream_state) (m : rtmp_message) (first : bool) : inc_vec Z :=
  if first then inc_new (zlen (payload m)) else match in_progress s with Some im => body im | None => inc_new 0 end.

Lemma inc_new_ok n : 0 <= n -> inc_ok 1 (inc_new (T := Z) n).
Proof. intros Hn. split; unfold vlen, paid_for, MIN_CAP, inc_new; cbn [items capacity declared charged length]; lia. Qed.

Lemma joins_opened M s m first rest : joins M s m first rest ->
  ready s m first rest /\ charged (opened s m first) = held_of s /\ inc_ok 1 (opened s m first) /\
  declared (opened s m first) = zlen (payload m) /\ payload m = items (opened s m first) ++ rest.
Proof.
  intros (Hm & Hl & H). destruct first; cbn [ready opened].
  - destruct H as [Hi ->]. unfold held_of. rewrite Hi. split; [done|]. split; [done|]. split; [apply inc_new_ok, zlen_nonneg|]. done.
  - destruct H as (sent & v & Hp & _ & _ & _ & Hi & Hs & Hv & Hd & Hx). unfold held_of. rewrite Hi. cbn [body].
    split; [eexists; split; [done|done]|]. rewrite Hs. done.
Qed.

Lemma push_slice_policy grow size (v : inc_vec Z) b src : policy (snd (push_slice size grow v b src)) = policy b.
Proof.
  unfold push_slice. destruct (checked_u _ _); [|done]. destruct (_ <? _); [done|]. destruct (_ <=? _); [done|].
  unfold charge. destruct (byte_size _ _); [|done]. cbn [mbind result_bind]. destruct (check _ _); [|done]. cbn [mbind result_bind].
  destruct (grow _); cbn [snd]; unfold note_peak; by case_match.
Qed.

(** ** The wire *)

(** What is on the wire: chunks, each with its stream and the message it ends. *)
Abbreviation event := (Z * (list Z * option rtmp_message))%type.

Definition stream_of (c : Z) (evs : list event) : list (list Z * option rtmp_message) := map snd (filter (fun e => fst e = c) evs).

Definition wire (evs : list event) : list Z := concat (map (fun e => fst (snd e)) evs).
Definition completed (evs : list event) : list rtmp_message := omap (fun e => snd (snd e)) evs.

(** ** One chunk received *)

Section receiving.
Context (grow : Z -> option Z) (Hgrow : forall want, exists cap, grow want = Some cap /\ want <= cap).
Context (l : limits) (ids : list Z) (M size : Z) (Hids : NoDup ids) (HM : 0 <= M) (Hsize : 1 <= size).
Context (Htotal : zlen ids * M <= max_alloc_total l) (Hsingle : M <= max_alloc_single l).

Definition progress_at (prog : Z -> option (rtmp_message * list Z)) (c : Z) (o : option (rtmp_message * list Z)) : Z -> option (rtmp_message * list Z) :=
  fun c' => if decide (c' = c) then o else prog c'.

(** What is left of a message after a chunk that carried [rest] from here. *)
Definition left_after (m : rtmp_message) (rest : list Z) : option (rtmp_message * list Z) :=
  if zlen rest <=? size then None else Some (m, drop (Z.to_nat size) rest).

(** The chunk is appended to the message it belongs to, within the budget. *)
Lemma push_within prog d c m first rest :
  conn_ok l ids M prog d -> c ∈ ids -> joins M (state_of (streams d) c) m first rest ->
  let piece := take (Z.to_nat (Z.min (zlen rest) size)) rest in
  let v := opened (state_of (streams d) c) m first in
  (first = true -> check (dbudget d) (zlen (payload m)) = Ok tt) /\
  exists v' b', push_slice 1 grow v (dbudget d) piece = (Ok tt, v', b') /\
    items v' = items v ++ piece /\ inc_ok 1 v' /\ declared v' = declared v /\
    accounts b' /\ pending b' = 0 /\ policy b' = l /\ committed b' = committed (dbudget d) + charged v' - charged v.
Proof using Hgrow HM Hsize Htotal Hsingle.
  intros [Ha Hpol Hp Hcm Hst _] Hc Hj piece v. pose proof Hj as (Hm & Hl & _).
  destruct (joins_opened M _ m first rest Hj) as (_ & Hh & Hv & Hd & Hpay). fold v in Hh, Hv, Hd, Hpay.
  pose proof (sum_over_bound (fun c => held_of (state_of (streams d) c)) ids c M Hc (fun c' => stream_held M _ _ HM (Hst c'))) as Hsum. cbv beta in Hsum.
  pose proof (inc_charged_declared v Hv). pose proof (zlen_nonneg (payload m)). pose proof Hm as (_ & _ & _ & Hlen).
  assert (zlen rest + vlen v = zlen (payload m)) as Hr by (rewrite Hpay, zlen_app; unfold vlen, zlen; lia). pose proof (zlen_nonneg rest).
  assert (Z.of_nat (length piece) = Z.min (zlen rest) size) as Hpl by (apply (zlen_take rest); lia).
  split.
  { intros ->. apply check_ok; [done|lia|]. rewrite Hpol. unfold v in *. cbn [opened] in *. change (charged (inc_new _)) with 0 in *. lia. }
  pose proof (push_slice_ok 1 grow ltac:(lia) Hgrow v (dbudget d) piece Hv Ha Hp ltac:(lia) ltac:(lia)) as Hok.
  pose proof (push_slice_succeeds 1 grow ltac:(lia) Hgrow v (dbudget d) piece Hv Ha Hp ltac:(lia) ltac:(lia) ltac:(rewrite Hpol; lia) ltac:(rewrite Hpol; lia)) as Hs.
  pose proof (push_slice_policy grow 1 v (dbudget d) piece) as Hpo.
  destruct (push_slice 1 grow v (dbudget d) piece) as [[r v'] b']. cbn [fst snd] in *. subst r.
  destruct Hok as (Hv' & Ha' & Hp' & Hd' & _ & Hi & He). exists v', b'. split; [done|]. split; [done|]. split; [done|]. split; [done|].
  split; [done|]. split; [done|]. split; [congruence|]. lia.
Qed.


(** The account after the entry of one stream changes. *)
Lemma conn_update prog d c s b o :
  conn_ok l ids M prog d -> c ∈ ids -> accounts b -> policy b = l -> pending b = 0 ->
  committed b = committed (dbudget d) - held_of (state_of (streams d) c) + held_of s -> stream_ok M s o ->
  forall bf, conn_ok l ids M (progress_at prog c o) (Dechunker (chunk_size d) (<[c := s]> (streams d)) bf b).
Proof using Hids.
  intros [Ha Hpol Hp Hcm Hst Hid] Hc Hab Hbp Hbn Hbc Hs bf. split; cbn [dbudget streams]; try done.
  - rewrite Hbc, Hcm. rewrite (sum_over_update (fun c => held_of (state_of (streams d) c)) (fun c' => held_of (state_of (<[c:=s]> (streams d)) c')) ids c Hids Hc).
    + rewrite state_of_insert, decide_True by done. lia.
    + intros c' Hc'. by rewrite state_of_insert, decide_False.
  - intros c'. rewrite state_of_insert. unfold progress_at. by destruct (decide (c' = c)) as [->|].
  - intros c' Hc'. unfold progress_at. destruct (decide (c' = c)) as [->|]; [done|by apply Hid].
Qed.

Lemma held_none s : in_progress s = None -> held_of s = 0.
Proof. unfold held_of. by intros ->. Qed.

(** A chunk at the front of the buffer is received: its message comes out if it is
    the last. *)
Lemma receive_chunk prog d c m first rest more :
  conn_ok l ids M prog d -> chunk_size d = size -> c ∈ ids -> 2 <= c <= 65599 -> joins M (state_of (streams d) c) m first rest ->
  buf d = head_bytes c m first ++ take (Z.to_nat (Z.min (zlen rest) size)) rest ++ more ->
  exists d', try_take_one grow d = (Ok (if zlen rest <=? size then Complete m else Consumed), d') /\
    buf d' = more /\ chunk_size d' = size /\ conn_ok l ids M (progress_at prog c (left_after m rest)) d'.
Proof using Hgrow Hids HM Hsize Htotal Hsingle.
  intros Hcn Hcs Hc Hcr Hj Hbuf. set (s := state_of (streams d) c) in *. set (piece := take _ rest) in *.
  pose proof Hj as (Hm & Hl & Hj'). destruct (joins_opened M s m first rest Hj) as (Hready & Hheld & Hv & Hdv & Hpay).
  destruct (push_within prog d c m first rest Hcn Hc Hj) as (Hchk & v' & b' & Hpush & Hi & Hv' & Hd' & Ha' & Hp' & Hpol' & Hcm'). fold s piece in Hpush, Hi, Hcm', Hd'.
  destruct (parse_sent size (streams d) c m first rest more Hm Hcr Hsize Hready) as (t & ty & st & len & Hfirst & Hparse).
  change (fst (entry_or_default (streams d) c)) with s in Hparse. fold piece in Hparse.
  set (ch := Chunk c (after_chunk s m first) t ty st len (negb first) (Z.min (zlen rest) size) piece (zlen (head_bytes c m first) + zlen piece)) in *.
  assert (zlen piece = Z.min (zlen rest) size) as Hpl by (apply zlen_take; pose proof (zlen_nonneg rest); lia).
  assert (open_message d ch = Ok (IncompleteMessage (timestamp m) (message_type_id m) (message_stream_id m) (zlen rest) (opened s m first))) as Hopen.
  { unfold open_message, ch. cbn [ccontinues negb]. destruct first; cbn [negb].
    - destruct (Hfirst eq_refl) as (-> & -> & -> & ->). destruct Hj' as [_ ->]. cbn [clength ctimestamp ctype cstream opened]. by rewrite Hchk.
    - destruct Hj' as (sent & v & _ & _ & _ & _ & Hip & _). cbn [cstate after_chunk in_progress opened]. by rewrite Hip. }
  assert (buf (commit_chunk d ch) = more) as Hbc.
  { unfold commit_chunk, ch. cbn [cconsumed buf]. rewrite Hbuf, Z.min_l by (rewrite !zlen_app; pose proof (zlen_nonneg more); lia).
    rewrite app_assoc, <- zlen_app. unfold zlen. by rewrite Nat2Z.id, drop_app_length. }
  unfold try_take_one. rewrite Hcs, Hbuf, Hparse. unfold apply_chunk. rewrite Hopen. cbn [body].
  change (dbudget (commit_chunk d ch)) with (dbudget d). change (cpayload ch) with piece. rewrite Hpush.
  cbn [remaining im_timestamp im_type_id im_stream_id]. change (ctake ch) with (Z.min (zlen rest) size).
  pose proof (zlen_nonneg rest). pose proof Hm as (_ & _ & _ & Hlen). pose proof (f_equal zlen Hpay) as Hpz. rewrite zlen_app in Hpz.
  pose proof (zlen_nonneg (items (opened s m first))). rewrite sat_u_id by lia.
  pose proof (conn_committed _ _ _ _ _ Hcn) as Hcm. fold s in Hcm'. rewrite Hheld in Hcm'.
  unfold left_after. destruct (Z.leb_spec (zlen rest) size) as [Hlast|Hmore].
  - rewrite (proj2 (Z.eqb_eq _ 0)) by lia. eexists. split; [|split; [|split]].
    + do 3 f_equal. assert (items v' = payload m) as ->; [|by destruct m]. rewrite Hi, Hpay. f_equal. apply take_ge. unfold zlen in *. lia.
    + cbn [set_budget buf]. exact Hbc.
    + cbn [set_budget chunk_size commit_chunk]. exact Hcs.
    + unfold set_budget, commit_chunk. cbn [chunk_size streams buf]. set (s' := if ccontinues ch then _ else _).
      assert (in_progress s' = None) as Hs'. { unfold s', ch. cbn [ccontinues cstate]. destruct first; cbn [negb]; [|done]. by destruct Hj'. }
      pose proof (inc_charged_declared v' Hv'). destruct (release_in_order l (committed b') b' (charged v') ltac:(by split) ltac:(lia)) as (Hr1 & Hr2 & Hr3 & Hr4).
      apply conn_update; [done|done|done|done|done| |exact Hs']. change (cid ch) with c. fold s. rewrite (held_none s' Hs'), Hr4.
      pose proof (sum_over_bound (fun c => held_of (state_of (streams d) c)) ids c M Hc (fun c' => stream_held M _ _ HM (conn_streams _ _ _ _ _ Hcn c'))) as Hsum.
      cbv beta in Hsum. fold s in Hsum. lia.
  - rewrite (proj2 (Z.eqb_neq _ 0)) by lia. set (im' := IncompleteMessage _ _ _ (zlen rest - _) v'). set (s1 := if ccontinues ch then set_in_progress (cstate ch) None else cstate ch).
    assert (entry_or_default (streams (commit_chunk d ch)) (cid ch) = (s1, <[c := s1]> (streams d))) as He.
    { unfold commit_chunk, entry_or_default. cbn [streams]. fold s1. change (cid ch) with c. by rewrite lookup_insert_eq. }
    rewrite He. eexists. split; [reflexivity|]. split; [cbn [buf]; exact Hbc|]. split; [cbn [chunk_size commit_chunk]; exact Hcs|].
    change (cid ch) with c. rewrite insert_insert_eq. change (chunk_size (commit_chunk d ch)) with (chunk_size d).
    apply conn_update; try done.
    + fold s. unfold held_of at 2. cbn [in_progress set_in_progress im' body]. lia.
    + cbn [stream_ok]. exists (items v'), v'. split; [|split; [|split; [done|split; [done|]]]].
      * rewrite Hi, Hpay, <- app_assoc. f_equal. unfold piece. rewrite Z.min_r by lia. symmetry. apply take_drop.
      * intros E. apply (f_equal zlen) in E. rewrite zlen_drop in E by lia. change (zlen []) with 0 in E. lia.
      * split; [cbn [in_progress set_in_progress]; unfold im'; rewrite Z.min_r, zlen_drop by lia; done|]. split; [done|]. split; [done|].
        split; [by rewrite Hd', Hdv|]. unfold s1, ch. cbn [ccontinues cstate]. by destruct first.
Qed.

(** ** Interleaved messages *)

(** Chunks of one message from here on, on a stream. *)
Definition rest_chunks (c : Z) (o : option (rtmp_message * list Z)) : list (list Z * option rtmp_message) :=
  match o with Some (m, rest) => chunks_from (S (length rest)) size c m false rest | None => [] end.

Definition todo_ok (c : Z) (ms : list rtmp_message) : Prop :=
  Forall (fun m => sendable m /\ zlen (payload m) <= M /\ 2 <= c <= 65599 /\ c ∈ ids) ms.

Lemma chunks_from_cons c m first rest fuel : (length rest < fuel)%nat ->
  chunks_from fuel size c m first rest =
  (head_bytes c m first ++ take (Z.to_nat (Z.min (zlen rest) size)) rest, if zlen rest <=? size then Some m else None) ::
  rest_chunks c (left_after m rest).
Proof using Hsize.
  clear Hids Htotal. intros Hf. destruct fuel as [|fuel]; [lia|]. cbn [chunks_from]. unfold left_after. pose proof (zlen_nonneg rest).
  destruct (Z.leb_spec (zlen rest) size).
  - rewrite take_ge; [done|]. unfold zlen in *. lia.
  - rewrite Z.min_r by lia. cbn [rest_chunks]. f_equal. apply chunks_from_fuel; [done| |]; rewrite length_drop; unfold zlen in *; lia.
Qed.

Lemma stream_of_cons c e evs : stream_of c (e :: evs) = (if decide (fst e = c) then [snd e] else []) ++ stream_of c evs.
Proof. unfold stream_of. rewrite filter_cons. by destruct (decide (fst e = c)). Qed.

(** The next chunk of a stream, in the middle of a message or at the start of the
    next. *)
Lemma next_event prog d c todo bytes tag evs :
  conn_ok l ids M prog d -> todo_ok c todo -> rest_chunks c (prog c) ++ concat (map (chunks size c) todo) = (bytes, tag) :: evs ->
  (forall m rest, prog c = Some (m, rest) -> 2 <= c <= 65599) ->
  exists m first rest todo', joins M (state_of (streams d) c) m first rest /\ c ∈ ids /\ 2 <= c <= 65599 /\ todo_ok c todo' /\
    bytes = head_bytes c m first ++ take (Z.to_nat (Z.min (zlen rest) size)) rest /\
    tag = (if zlen rest <=? size then Some m else None) /\
    rest_chunks c (left_after m rest) ++ concat (map (chunks size c) todo') = evs.
Proof using Hsize.
  intros Hcn Ht He Hcr. pose proof (conn_streams _ _ _ _ _ Hcn c) as Hst. destruct (prog c) as [[m rest]|] eqn:Ep.
  - exists m, false, rest, todo. cbn [rest_chunks] in He. rewrite chunks_from_cons in He by lia. injection He as <- <- He.
    split; [|split; [|split; [by eapply Hcr|done]]].
    + split; [by destruct Hst as (? & ? & _ & _ & ? & _)|]. split; [by destruct Hst as (? & ? & _ & _ & _ & ? & _)|exact Hst].
    + destruct (decide (c ∈ ids)) as [|Hn]; [done|]. by rewrite (conn_idle _ _ _ _ _ Hcn c Hn) in Ep.
  - cbn [rest_chunks app] in He. destruct todo as [|m todo]; [done|]. apply Forall_cons in Ht as [(Hm & Hl & Hc & Hin) Ht].
    cbn [map concat] in He. unfold chunks at 1 in He. rewrite chunks_from_cons in He by lia. cbn [app] in He. injection He as <- <- He.
    exists m, true, (payload m), todo. split; [split; [done|split; [done|split; [exact Hst|done]]]|]. split; [done|]. split; [done|]. by split; [|split; [|split]].
Qed.

Lemma drain_events evs prog todo d :
  conn_ok l ids M prog d -> chunk_size d = size -> buf d = wire evs ->
  (forall c, todo_ok c (todo c)) -> (forall c m rest, prog c = Some (m, rest) -> 2 <= c <= 65599) ->
  (forall c, stream_of c evs = rest_chunks c (prog c) ++ concat (map (chunks size c) (todo c))) ->
  exists d', drain grow d = (Ok (completed evs), d') /\ buf d' = [] /\ conn_ok l ids M (fun _ => None) d'.
Proof using Hgrow Hids HM Hsize Htotal Hsingle.
  revert prog todo d. induction evs as [|[c [bytes tag]] evs IH]; intros prog todo d Hcn Hcs Hbuf Htodo Hcr Hev.
  - exists d. split; [|split; [done|]].
    + rewrite drain_eq. unfold try_take_one. rewrite Hbuf. done.
    + destruct Hcn as [H1 H2 H3 H4 H5 H6]. split; try done. intros c. specialize (H5 c). specialize (Hev c). destruct (prog c) as [[m rest]|]; [|done].
      cbn [rest_chunks] in Hev. by rewrite chunks_from_cons in Hev by lia.
  - pose proof (Hev c) as Hc. rewrite stream_of_cons, decide_True in Hc by done. cbn [snd app] in Hc. symmetry in Hc.
    destruct (next_event prog d c (todo c) bytes tag (stream_of c evs) Hcn (Htodo c) Hc (Hcr c)) as (m & first & rest & todo' & Hj & Hin & Hcc & Ht' & -> & -> & Hrest).
    change (wire ((c, _) :: evs)) with ((head_bytes c m first ++ take (Z.to_nat (Z.min (zlen rest) size)) rest) ++ wire evs) in Hbuf. rewrite <- app_assoc in Hbuf.
    destruct (receive_chunk prog d c m first rest (wire evs) Hcn Hcs Hin Hcc Hj Hbuf) as (d1 & Htake & Hb1 & Hc1 & Hcn1).
    destruct (IH (progress_at prog c (left_after m rest)) (fun c' => if decide (c' = c) then todo' else todo c') d1 Hcn1 Hc1 Hb1) as (d' & Hd & Hb & Hcn').
    + intros c'. by destruct (decide (c' = c)) as [->|].
    + intros c' m' r'. unfold progress_at. destruct (decide (c' = c)) as [->|]; [by intros _|apply Hcr].
    + intros c'. unfold progress_at. destruct (decide (c' = c)) as [->|Hne]; [by rewrite Hrest|].
      rewrite <- Hev, stream_of_cons, decide_False by (cbn; congruence). done.
    + exists d'. split; [|done]. rewrite drain_eq, Htake. unfold completed. cbn [omap list_omap snd]. fold (completed evs).
      destruct (zlen rest <=? size); rewrite Hd; done.
Qed.

(** One message alone. *)
Lemma message_delivered c m : limits_ok l -> ids = [c] -> sendable m -> zlen (payload m) <= M -> 2 <= c <= 65599 ->
  exists bytes, chunk_message m c size = Ok bytes /\ fst (feed grow (set_chunk_size (dechunker_new l) size) bytes) = Ok [m].
Proof using Hgrow Hids HM Hsize Htotal Hsingle.
  intros Hl Hi Hm HlM Hc. exists (concat (map fst (chunks size c m))). split; [apply chunk_message_chunks; [destruct Hm as (_ & _ & _ & ?); lia|done|done]|].
  set (evs := map (pair c) (chunks size c m) : list event).
  assert (conn_ok l ids M (fun _ => None) (extend (set_chunk_size (dechunker_new l) size) (wire evs))) as Hcn.
  { split; try done; [by apply new_accounts|]. symmetry. by apply sum_over_zero. }
  assert (forall c', stream_of c' evs = if decide (c' = c) then chunks size c m else []) as Hs.
  { clear Hcn. intros c'. unfold evs. clear evs. induction (chunks size c m) as [|x xs IH]; [by destruct (decide _)|]. cbn [map]. rewrite stream_of_cons, IH. cbn [fst snd].
    destruct (decide (c = c')) as [->|Hne]; [by rewrite !decide_True by done|]. by rewrite !decide_False by congruence. }
  destruct (drain_events evs (fun _ => None) (fun c' => if decide (c' = c) then [m] else []) _ Hcn eq_refl eq_refl) as (d & Hd & _).
  - intros c'. destruct (decide (c' = c)) as [->|]; [|constructor]. constructor; [|constructor]. split; [done|]. split; [done|]. split; [done|]. rewrite Hi. by left.
  - done.
  - intros c'. rewrite Hs. destruct (decide (c' = c)) as [->|]; [|done]. cbn [rest_chunks map concat app]. by rewrite app_nil_r.
  - unfold feed.
    assert (wire evs = concat (map fst (chunks size c m))) as <- by (unfold wire, evs; by rewrite map_map).
    fold (drain grow (extend (set_chunk_size (dechunker_new l) size) (wire evs))). rewrite Hd. cbn [fst]. f_equal.
    unfold completed, evs, chunks. generalize true. generalize (Nat.lt_succ_diag_r (length (payload m))). generalize (S (length (payload m))). generalize (payload m).
    intros rest fuel. revert rest. induction fuel as [|fuel IH]; intros rest Hf b; [lia|]. cbn [chunks_from]. destruct (Z.leb_spec (zlen rest) size); [done|].
    cbn [map omap list_omap snd]. apply IH. rewrite length_drop. unfold zlen in *. lia.
Qed.

(** C24. Interleaved messages come back. Let any number of messages be cut into
    chunks by [chunk_message], on any chunk streams, and let the chunks of the
    streams be interleaved in any way that keeps each stream's own order: the
    [Dechunker] returns every message, timestamp, type, stream and payload as they
    were, in the order their last chunks were sent, with nothing left over and
    nothing left charged - given only a budget for one message on each stream, not
    for all that pass. *)
Theorem interleaved_roundtrip evs todo :
  limits_ok l -> (forall c, todo_ok c (todo c)) -> (forall c, stream_of c evs = concat (map (chunks size c) (todo c))) ->
  (forall c m, m ∈ todo c -> chunk_message m c size = Ok (concat (map fst (chunks size c m)))) /\
  exists d, feed grow (set_chunk_size (dechunker_new l) size) (wire evs) = (Ok (completed evs), d) /\
    buf d = [] /\ committed (dbudget d) = 0 /\ forall c, in_progress (state_of (streams d) c) = None.
Proof using Hgrow Hids HM Hsize Htotal Hsingle.
  intros Hl Ht Hev. split.
  - intros c m Hm. pose proof (Ht c) as Hc. unfold todo_ok in Hc. rewrite Forall_forall in Hc. destruct (Hc m Hm) as ((_ & _ & _ & ?) & _ & ? & _). apply chunk_message_chunks; lia.
  - set (d0 := extend (set_chunk_size (dechunker_new l) size) (wire evs)).
    assert (conn_ok l ids M (fun _ => None) d0) as Hcn.
    { assert (forall c, state_of (streams d0) c = state_default) as Hs by done. split; try done.
      - by apply new_accounts.
      - unfold d0. cbn [dbudget extend set_chunk_size dechunker_new Limits.new committed].
        symmetry. apply sum_over_zero. intros c. by rewrite Hs. }
    destruct (drain_events evs (fun _ => None) todo d0 Hcn eq_refl eq_refl Ht ltac:(done) Hev) as (d & Hd & Hb & Hn).
    exists d. split; [exact Hd|]. split; [done|]. destruct Hn as [_ _ _ Hc Hst _]. split; [|exact Hst].
    rewrite Hc. apply sum_over_zero. intros c. apply held_none, Hst.
Qed.

End receiving.

(** ** At concrete inputs *)

Definition video : rtmp_message := RtmpMessage 40 9 1 [1; 2; 3; 4; 5].
Definition audio : rtmp_message := RtmpMessage 16777300 8 1 [6; 7; 8].

(** Two streams: three chunks of one message around two of the other. *)
Definition crossing : list event :=
  [(4, (head_bytes 4 video true ++ [1; 2], None)); (6, (head_bytes 6 audio true ++ [6; 7], None));
   (4, (head_bytes 4 video false ++ [3; 4], None)); (6, (head_bytes 6 audio false ++ [8], Some audio));
   (4, (head_bytes 4 video false ++ [5], Some video))].

Lemma interleaved_roundtrip_witness :
  fst (feed Some (set_chunk_size (dechunker_new permissive) 2) (wire crossing)) = Ok [audio; video] /\
  chunk_message video 4 2 = Ok (concat (map fst (chunks 2 4 video))).
Proof.
  set (todo := fun c => if decide (c = 4) then [video] else if decide (c = 6) then [audio] else []).
  destruct (interleaved_roundtrip Some (fun want => ex_intro _ want (conj eq_refl (Z.le_refl want))) permissive [4; 6] 5 2
    ltac:(apply (bool_decide_unpack _); vm_compute; exact I) ltac:(lia) ltac:(lia) ltac:(vm_compute; congruence) ltac:(vm_compute; congruence) crossing todo)
    as [Hc (d & Hd & _)].
  - repeat split; vm_compute; congruence.
  - intros c. unfold todo_ok, todo, sendable. destruct (decide (c = 4)) as [->|]; [|destruct (decide (c = 6)) as [->|]; [|constructor]].
    + constructor; [|constructor]. split; [vm_compute; repeat split; congruence|]. split; [vm_compute; congruence|]. split; [lia|]. left.
    + constructor; [|constructor]. split; [vm_compute; repeat split; congruence|]. split; [vm_compute; congruence|]. split; [lia|]. right. left.
  - intros c. unfold todo. destruct (decide (c = 4)) as [->|]; [vm_compute; reflexivity|]. destruct (decide (c = 6)) as [->|]; [vm_compute; reflexivity|].
    unfold crossing. rewrite !stream_of_cons. cbn [fst]. by rewrite !decide_False by congruence.
  - split; [rewrite Hd; reflexivity|]. apply Hc. unfold todo. rewrite decide_True by done. left.
Defined.

(** ** What the code does not promise *)

(** A payload of 2^24 bytes or more is sent with its length cut to 24 bits; only
    lengths beyond 32 bits are refused. *)
Lemma oversized_payload_truncated size c m : 2 <= c <= 65599 -> 1 <= size -> 2 ^ 24 <= zlen (payload m) < 2 ^ 32 ->
  chunk_message m c size = Ok (concat (map fst (chunks size c m))) /\
  forall out, encode (first_header m) out =
    encode (Type0 (Z.min (timestamp m) EXTENDED_TIMESTAMP) (zlen (payload m) mod 2 ^ 24) (message_type_id m) (message_stream_id m)) out.
Proof.
  intros Hc Hs Hl. split; [apply chunk_message_chunks; lia|]. intros out. unfold first_header. cbn [encode].
  change 16777215 with (Z.ones 24). rewrite !Z.land_ones by lia. by rewrite Z.mod_mod by lia.
Qed.

(** The first header ever seen on a stream may be a partial one: it is read against
    zeros. *)
Lemma first_header_may_be_partial :
  fst (feed Some (dechunker_new permissive) [195]) = Ok [RtmpMessage 0 0 0 []].
Proof. vm_compute. reflexivity. Qed.

(** A message that starts while another is in progress on its stream displaces it;
    what the displaced one charged is never released. *)
Lemma restart_keeps_charge :
  let start := [3; 0; 0; 0; 0; 0; 4; 9; 1; 0; 0; 0; 7; 7] in
  let r := feed Some (set_chunk_size (dechunker_new permissive) 2) (start ++ start ++ [195; 7; 7]) in
  fst r = Ok [RtmpMessage 0 9 1 [7; 7; 7; 7]] /\ in_progress (state_of (streams (snd r)) 3) = None /\ committed (dbudget (snd r)) = 4.
Proof. vm_compute. done. Qed.
