(* ===== verification/RtmpControl.v ===== *)
(** * RtmpControl: the protocol control messages of RTMP

    [src/crates/io/vaco-protocol-rtmp/src/control.rs]: the six control messages and
    the user control events, as payloads and back, and their way over the chunk
    stream of [Rtmp]. *)

From Stdlib Require Import ZArith Lia.
From stdpp Require Import prelude strings.
From S2P Require Import Prelude Bits Limits RtmpChunk Rtmp.

#[local] Open Scope Z_scope.

Definition CONTROL_CSID : Z := 2.
Definition CONTROL_MESSAGE_STREAM_ID : Z := 0.

Definition TYPE_SET_CHUNK_SIZE : Z := 1.
Definition TYPE_ABORT : Z := 2.
Definition TYPE_ACKNOWLEDGEMENT : Z := 3.
Definition TYPE_USER_CONTROL : Z := 4.
Definition TYPE_WINDOW_ACK_SIZE : Z := 5.
Definition TYPE_SET_PEER_BANDWIDTH : Z := 6.

Inductive limit_type : Type := Hard | Soft | Dynamic.

Definition to_byte (t : limit_type) : Z := match t with Hard => 0 | Soft => 1 | Dynamic => 2 end.

Definition from_byte (b : Z) : option limit_type :=
  if b =? 0 then Some Hard else if b =? 1 then Some Soft else if b =? 2 then Some Dynamic else None.

Inductive user_control_event : Type :=
  | StreamBegin (stream_id : Z)
  | StreamEof (stream_id : Z)
  | StreamDry (stream_id : Z)
  | SetBufferLength (stream_id buffer_length_ms : Z)
  | StreamIsRecorded (stream_id : Z)
  | PingRequest (timestamp : Z)
  | PingResponse (timestamp : Z)
  | Other (event_type : Z) (data : list Z).

Definition event_type (e : user_control_event) : Z :=
  match e with
  | StreamBegin _ => 0 | StreamEof _ => 1 | StreamDry _ => 2 | SetBufferLength _ _ => 3 | StreamIsRecorded _ => 4
  | PingRequest _ => 6 | PingResponse _ => 7 | Other t _ => t
  end.

Definition encode_data (e : user_control_event) : list Z :=
  match e with
  | StreamBegin id | StreamEof id | StreamDry id | StreamIsRecorded id => be_bytes 4 id
  | SetBufferLength id ms => be_bytes 4 id ++ be_bytes 4 ms
  | PingRequest t | PingResponse t => be_bytes 4 t
  | Other _ data => data
  end.

(** [<[u8; 4]>::try_from(data)] read big-endian. *)
Definition u32_be (data : list Z) (what : string) : result protocol_error Z :=
  if zlen data =? 4 then Ok (be_value data) else Err (malformed what).

Definition decode_event (event_type : Z) (data : list Z) : result protocol_error user_control_event :=
  let short := "user control event data too short for its type"%string in
  if event_type =? 0 then id ← u32_be data short; Ok (StreamBegin id)
  else if event_type =? 1 then id ← u32_be data short; Ok (StreamEof id)
  else if event_type =? 2 then id ← u32_be data short; Ok (StreamDry id)
  else if event_type =? 3 then
    sid_bytes ← ok_or (get_range data 0 4) (malformed "SetBufferLength needs 8 bytes");
    len_bytes ← ok_or (get_range data 4 8) (malformed "SetBufferLength needs 8 bytes");
    id ← u32_be sid_bytes short;
    ms ← u32_be len_bytes short;
    Ok (SetBufferLength id ms)
  else if event_type =? 4 then id ← u32_be data short; Ok (StreamIsRecorded id)
  else if event_type =? 6 then t ← u32_be data short; Ok (PingRequest t)
  else if event_type =? 7 then t ← u32_be data short; Ok (PingResponse t)
  else Ok (Other event_type data).

Inductive control_message : Type :=
  | SetChunkSize (size : Z)
  | Abort_ (chunk_stream_id : Z)
  | Acknowledgement (sequence_number : Z)
  | UserControl (e : user_control_event)
  | WindowAckSize (size : Z)
  | SetPeerBandwidth (window_size : Z) (limit : limit_type).

Definition control_type_id (m : control_message) : Z :=
  match m with
  | SetChunkSize _ => TYPE_SET_CHUNK_SIZE
  | Abort_ _ => TYPE_ABORT
  | Acknowledgement _ => TYPE_ACKNOWLEDGEMENT
  | UserControl _ => TYPE_USER_CONTROL
  | WindowAckSize _ => TYPE_WINDOW_ACK_SIZE
  | SetPeerBandwidth _ _ => TYPE_SET_PEER_BANDWIDTH
  end.

Definition encode_payload (m : control_message) : list Z :=
  match m with
  | SetChunkSize size => be_bytes 4 (Z.land size 2147483647)
  | Abort_ id => be_bytes 4 id
  | Acknowledgement n => be_bytes 4 n
  | UserControl e => be_bytes 2 (event_type e) ++ encode_data e
  | WindowAckSize size => be_bytes 4 size
  | SetPeerBandwidth window limit => be_bytes 4 window ++ [to_byte limit]
  end.

Definition decode_control (message_type_id : Z) (payload : list Z) : result protocol_error (option control_message) :=
  if message_type_id =? TYPE_SET_CHUNK_SIZE then
    raw ← u32_be payload "Set Chunk Size needs 4 bytes"; Ok (Some (SetChunkSize (Z.land raw 2147483647)))
  else if message_type_id =? TYPE_ABORT then
    id ← u32_be payload "Abort Message needs 4 bytes"; Ok (Some (Abort_ id))
  else if message_type_id =? TYPE_ACKNOWLEDGEMENT then
    n ← u32_be payload "Acknowledgement needs 4 bytes"; Ok (Some (Acknowledgement n))
  else if message_type_id =? TYPE_USER_CONTROL then
    arr ← ok_or (get_range payload 0 2) (malformed "User Control Message needs at least 2 bytes");
    e ← decode_event (be_value arr) (default [] (get_from payload 2));
    Ok (Some (UserControl e))
  else if message_type_id =? TYPE_WINDOW_ACK_SIZE then
    size ← u32_be payload "Window Acknowledgement Size needs 4 bytes"; Ok (Some (WindowAckSize size))
  else if message_type_id =? TYPE_SET_PEER_BANDWIDTH then
    window_bytes ← ok_or (get_range payload 0 4) (malformed "Set Peer Bandwidth needs 5 bytes");
    limit_byte ← ok_or (payload !! 4%nat) (malformed "Set Peer Bandwidth needs 5 bytes");
    window ← u32_be window_bytes "Set Peer Bandwidth needs 5 bytes";
    limit ← ok_or (from_byte limit_byte) (malformed "Set Peer Bandwidth's limit type must be 0, 1 or 2");
    Ok (Some (SetPeerBandwidth window limit))
  else Ok None.

(** ** Fields *)

Lemma u32_be_spec v what : 0 <= v < 2 ^ 32 -> u32_be (be_bytes 4 v) what = Ok v.
Proof.
  intros Hv. unfold u32_be, zlen. rewrite length_be_bytes. cbn [Z.of_nat Z.eqb Pos.eqb Pos.of_succ_nat Pos.succ]. rewrite be_value_be_bytes. f_equal. by apply Z.mod_small.
Qed.

Lemma u32_be_Ok data what v : Forall (fun b => 0 <= b < 256) data -> u32_be data what = Ok v -> be_bytes 4 v = data /\ 0 <= v < 2 ^ 32.
Proof.
  intros Hb. unfold u32_be. destruct (Z.eqb_spec (zlen data) 4) as [Hl|]; [|done]. intros [= <-].
  pose proof (be_value_range data Hb) as Hr. rewrite Hl in Hr. split; [|exact Hr].
  assert (length data = 4%nat) as H4 by (unfold zlen in Hl; lia). rewrite <- H4. by apply be_bytes_be_value.
Qed.

Lemma mask_range v : 0 <= v -> 0 <= Z.land v 2147483647 < 2 ^ 31 /\ Z.land (Z.land v 2147483647) 2147483647 = Z.land v 2147483647.
Proof.
  intros Hv. change 2147483647 with (Z.ones 31). rewrite !Z.land_ones by lia. pose proof (Z.mod_pos_bound v (2 ^ 31) ltac:(lia)). split; [done|]. by rewrite Z.mod_mod by lia.
Qed.

Lemma get_range_two (p q : list Z) n : zlen p = n -> get_range (p ++ q) 0 n = Some p.
Proof. intros <-. apply get_range_prefix. Qed.

Lemma limit_byte_roundtrip t : from_byte (to_byte t) = Some t.
Proof. by destruct t. Qed.

Lemma from_byte_to b t : from_byte b = Some t -> to_byte t = b.
Proof. unfold from_byte. repeat case_match; intros [= <-]; breflect; done. Qed.

(** ** Round trips *)

(** Fields are of their widths; an event of unknown type is of none of the known
    types. *)
Definition event_ok (e : user_control_event) : Prop :=
  match e with
  | StreamBegin v | StreamEof v | StreamDry v | StreamIsRecorded v | PingRequest v | PingResponse v => 0 <= v < 2 ^ 32
  | SetBufferLength id ms => 0 <= id < 2 ^ 32 /\ 0 <= ms < 2 ^ 32
  | Other t _ => 0 <= t < 2 ^ 16 /\ t ∉ [0; 1; 2; 3; 4; 6; 7]
  end.

Definition control_ok (m : control_message) : Prop :=
  match m with
  | SetChunkSize v => 0 <= v < 2 ^ 31
  | Abort_ v | Acknowledgement v | WindowAckSize v => 0 <= v < 2 ^ 32
  | UserControl e => event_ok e
  | SetPeerBandwidth v _ => 0 <= v < 2 ^ 32
  end.

Lemma event_type_range e : event_ok e -> 0 <= event_type e < 2 ^ 16.
Proof. destruct e; cbn; lia. Qed.

Lemma decode_event_encode e : event_ok e -> decode_event (event_type e) (encode_data e) = Ok e.
Proof.
  intros He. destruct e as [v|v|v|id ms|v|v|v|t data]; cbn [event_type encode_data event_ok] in *; unfold decode_event; cbn [Z.eqb Pos.eqb];
    try by rewrite u32_be_spec.
  - destruct He as [Hi Hm]. assert (forall v, zlen (be_bytes 4 v) = 4) as Hl by (intros; unfold zlen; by rewrite length_be_bytes).
    rewrite get_range_two by done. cbn [ok_or mbind result_bind].
    rewrite <- (app_nil_r (be_bytes 4 ms)), get_range_at by (rewrite !Hl; lia).
    cbn [ok_or mbind result_bind]. by rewrite !u32_be_spec.
  - destruct He as [_ Hn]. rewrite !not_elem_of_cons in Hn. destruct Hn as (? & ? & ? & ? & ? & ? & ? & _).
    by rewrite !(proj2 (Z.eqb_neq t _)) by done.
Qed.

Lemma decode_control_encode m : control_ok m -> decode_control (control_type_id m) (encode_payload m) = Ok (Some m).
Proof.
  intros Hm. destruct m as [v|v|v|e|v|v t]; cbn [control_type_id encode_payload control_ok] in *; unfold decode_control;
    unfold TYPE_SET_CHUNK_SIZE, TYPE_ABORT, TYPE_ACKNOWLEDGEMENT, TYPE_USER_CONTROL, TYPE_WINDOW_ACK_SIZE, TYPE_SET_PEER_BANDWIDTH; cbn [Z.eqb Pos.eqb];
    try by rewrite u32_be_spec.
  - destruct (mask_range v ltac:(lia)) as [H1 H2]. rewrite u32_be_spec by lia. cbn [mbind result_bind]. rewrite H2.
    change 2147483647 with (Z.ones 31). rewrite Z.land_ones, Z.mod_small by lia. done.
  - assert (zlen (be_bytes 2 (event_type e)) = 2) as Hl by (unfold zlen; by rewrite length_be_bytes).
    rewrite get_range_two by done. cbn [ok_or mbind result_bind]. pose proof (event_type_range e Hm).
    rewrite be_value_be_bytes, Z.mod_small by (change (256 ^ Z.of_nat 2) with (2 ^ 16); lia).
    assert (default [] (get_from (be_bytes 2 (event_type e) ++ encode_data e) 2) = encode_data e) as -> by (by rewrite (get_from_at (be_bytes 2 _))). by rewrite decode_event_encode.
  - assert (zlen (be_bytes 4 v) = 4) as Hl by (unfold zlen; by rewrite length_be_bytes).
    rewrite get_range_two by done. cbn [ok_or mbind result_bind]. change ((be_bytes 4 v ++ [to_byte t]) !! 4%nat) with (Some (to_byte t)). cbn [ok_or mbind result_bind].
    rewrite u32_be_spec by done. cbn [mbind result_bind]. by rewrite limit_byte_roundtrip.
Qed.

(** What a decoded event was made of. *)
Lemma decode_event_Ok t data e : Forall (fun b => 0 <= b < 256) data -> decode_event t data = Ok e ->
  event_type e = t /\ exists junk, data = encode_data e ++ junk /\ (junk = [] \/ exists id ms, e = SetBufferLength id ms).
Proof.
  intros Hb. unfold decode_event.
  assert (forall (k : Z -> user_control_event) what, (v ← u32_be data what; Ok (k v)) = Ok e -> exists v, e = k v /\ be_bytes 4 v = data) as Hone.
  { intros k what H. destruct (u32_be data what) as [v|] eqn:E; [|done]. injection H as <-. exists v. split; [done|]. by apply (u32_be_Ok data what). }
  destruct (Z.eqb_spec t 0) as [->|]; [intros (v & -> & <-)%Hone; split; [done|]; exists []; split; [by rewrite app_nil_r|by left]|].
  destruct (Z.eqb_spec t 1) as [->|]; [intros (v & -> & <-)%Hone; split; [done|]; exists []; split; [by rewrite app_nil_r|by left]|].
  destruct (Z.eqb_spec t 2) as [->|]; [intros (v & -> & <-)%Hone; split; [done|]; exists []; split; [by rewrite app_nil_r|by left]|].
  destruct (Z.eqb_spec t 3) as [->|].
  { destruct (get_range data 0 4) as [s|] eqn:Es; [|done]. destruct (get_range data 4 8) as [m|] eqn:Em; [|done]. cbn [ok_or mbind result_bind].
    assert (exists junk, data = s ++ m ++ junk) as [junk Hd].
    { unfold get_range in Es, Em. destruct (_ && _) eqn:E1 in Es; [|done]. destruct (_ && _) eqn:E2 in Em; [|done]. injection Es as <-. injection Em as <-.
      exists (drop 8 data). cbn [Z.sub Z.add Z.opp Z.pos_sub Pos.pred_double Pos.pred]. change (Z.to_nat (4 - 0)) with 4%nat. change (Z.to_nat (8 - 4)) with 4%nat. change (Z.to_nat 4) with 4%nat. change (Z.to_nat 0) with 0%nat.
      rewrite drop_0. rewrite <- (take_drop 4 data) at 1. f_equal. rewrite <- (take_drop 4 (drop 4 data)) at 1. f_equal. by rewrite drop_drop. }
    subst data. apply Forall_app in Hb as [Hs Hb]. apply Forall_app in Hb as [Hm _].
    destruct (u32_be s _) as [id|] eqn:E3; [|done]. cbn [mbind result_bind]. destruct (u32_be m _) as [ms|] eqn:E4; [|done]. intros [= <-].
    apply u32_be_Ok in E3 as [<- _]; [|done]. apply u32_be_Ok in E4 as [<- _]; [|done]. split; [done|]. exists junk. cbn [encode_data]. rewrite <- app_assoc. split; [done|]. right. by exists id, ms. }
  destruct (Z.eqb_spec t 4) as [->|]; [intros (v & -> & <-)%Hone; split; [done|]; exists []; split; [by rewrite app_nil_r|by left]|].
  destruct (Z.eqb_spec t 6) as [->|]; [intros (v & -> & <-)%Hone; split; [done|]; exists []; split; [by rewrite app_nil_r|by left]|].
  destruct (Z.eqb_spec t 7) as [->|]; [intros (v & -> & <-)%Hone; split; [done|]; exists []; split; [by rewrite app_nil_r|by left]|].
  intros [= <-]. split; [done|]. exists []. split; [by rewrite app_nil_r|by left].
Qed.

(** What a decoded payload was: the message's own bytes, and at most ignored ones
    after a peer bandwidth or a buffer length. *)
Lemma decode_control_Ok t p m : Forall (fun b => 0 <= b < 256) p -> decode_control t p = Ok (Some m) ->
  control_type_id m = t /\
  ((t = TYPE_SET_CHUNK_SIZE /\ exists raw, p = be_bytes 4 raw /\ m = SetChunkSize (Z.land raw 2147483647)) \/
   exists junk, p = encode_payload m ++ junk /\ (junk = [] \/ t = TYPE_SET_PEER_BANDWIDTH \/ exists id ms, m = UserControl (SetBufferLength id ms))).
Proof.
  intros Hb. unfold decode_control.
  assert (forall (k : Z -> control_message) what, (v ← u32_be p what; Ok (Some (k v))) = Ok (Some m) -> exists v, m = k v /\ be_bytes 4 v = p) as Hone.
  { intros k what H. destruct (u32_be p what) as [v|] eqn:E; [|done]. injection H as <-. exists v. split; [done|]. by apply (u32_be_Ok p what). }
  destruct (Z.eqb_spec t TYPE_SET_CHUNK_SIZE) as [->|].
  { intros H. apply (Hone (fun v => SetChunkSize (Z.land v 2147483647))) in H as (v & -> & <-). split; [done|]. left. split; [done|]. by exists v. }
  destruct (Z.eqb_spec t TYPE_ABORT) as [->|]; [intros (v & -> & <-)%Hone; split; [done|]; right; exists []; split; [by rewrite app_nil_r|by left]|].
  destruct (Z.eqb_spec t TYPE_ACKNOWLEDGEMENT) as [->|]; [intros (v & -> & <-)%Hone; split; [done|]; right; exists []; split; [by rewrite app_nil_r|by left]|].
  destruct (Z.eqb_spec t TYPE_USER_CONTROL) as [->|].
  { destruct (get_range p 0 2) as [ty|] eqn:Et; [|done]. cbn [ok_or mbind result_bind].
    assert (exists d, p = ty ++ d /\ zlen ty = 2) as (d & -> & Hl).
    { destruct (get_range_length _ _ _ Et) as [H2 _]. exists (drop 2 p). split; [|done]. unfold get_range in Et. destruct (_ && _); [|done]. injection Et as <-.
      change (Z.to_nat (2 - 0)) with 2%nat. change (Z.to_nat 0) with 0%nat. by rewrite drop_0, take_drop. }
    apply Forall_app in Hb as [Hty Hd]. rewrite (get_from_at ty) by done. cbn [default from_option id].
    destruct (decode_event (be_value ty) d) as [e|] eqn:Ee; [|done]. intros [= <-]. split; [done|]. right.
    destruct (decode_event_Ok _ _ _ Hd Ee) as (Hte & junk & -> & Hj). exists junk. cbn [encode_payload]. rewrite Hte.
    assert (length ty = 2%nat) as H2 by (unfold zlen in Hl; lia). rewrite <- H2, be_bytes_be_value, <- app_assoc by done. split; [done|].
    destruct Hj as [->|(id & ms & ->)]; [by left|]. right. right. by exists id, ms. }
  destruct (Z.eqb_spec t TYPE_WINDOW_ACK_SIZE) as [->|]; [intros (v & -> & <-)%Hone; split; [done|]; right; exists []; split; [by rewrite app_nil_r|by left]|].
  destruct (Z.eqb_spec t TYPE_SET_PEER_BANDWIDTH) as [->|]; [|done].
  destruct (get_range p 0 4) as [w|] eqn:Ew; [|done]. cbn [ok_or mbind result_bind].
  assert (exists d, p = w ++ d /\ zlen w = 4) as (d & -> & Hl).
  { destruct (get_range_length _ _ _ Ew) as [H2 _]. exists (drop 4 p). split; [|done]. unfold get_range in Ew. destruct (_ && _); [|done]. injection Ew as <-.
    change (Z.to_nat (4 - 0)) with 4%nat. change (Z.to_nat 0) with 0%nat. by rewrite drop_0, take_drop. }
  assert ((w ++ d) !! 4%nat = head d) as ->.
  { assert (length w = 4%nat) as H4 by (unfold zlen in Hl; lia). rewrite lookup_app_r, H4 by lia. by destruct d. }
  destruct d as [|b d]; [done|]. cbn [head ok_or mbind result_bind]. apply Forall_app in Hb as [Hw _].
  destruct (u32_be w _) as [v|] eqn:Ev; [|done]. cbn [mbind result_bind]. destruct (from_byte b) as [lt|] eqn:Ef; [|done]. intros [= <-]. split; [done|]. right.
  exists d. cbn [encode_payload]. rewrite (from_byte_to b lt Ef). apply u32_be_Ok in Ev as [<- _]; [|done]. rewrite <- app_assoc. split; [done|]. by right; left.
Qed.

Lemma encode_payload_short m : (forall e, m <> UserControl e) -> zlen (encode_payload m) <= 5.
Proof.
  intros Hm. destruct m as [v|v|v|e|v|v t]; cbn [encode_payload]; rewrite ?zlen_app, ?zlen_be_bytes; try lia; [by destruct (Hm e)|].
  change (zlen [to_byte t]) with 1. lia.
Qed.

(** Control messages are understood. Each of the six control messages and every
    user control event decodes to itself under its type, and arrives as itself
    through [chunk_message] and a [Dechunker], for any chunk size and any cut of
    its bytes. Whatever decodes was encoded so, but for the reserved bit of a chunk
    size and bytes ignored after a bandwidth or a buffer length; types outside one
    to six are left alone. *)
Theorem control_roundtrip grow l size ts m t p :
  (forall want, exists cap, grow want = Some cap /\ want <= cap) -> limits_ok l -> 1 <= size -> 0 <= ts < 2 ^ 32 -> control_ok m ->
  zlen (encode_payload m) < 2 ^ 24 -> zlen (encode_payload m) <= max_alloc_total l -> zlen (encode_payload m) <= max_alloc_single l ->
  Forall (fun b => 0 <= b < 256) p ->
  decode_control (control_type_id m) (encode_payload m) = Ok (Some m) /\
  (let msg := RtmpMessage ts (control_type_id m) CONTROL_MESSAGE_STREAM_ID (encode_payload m) in
   exists bytes, chunk_message msg CONTROL_CSID size = Ok bytes /\
     fst (feed grow (set_chunk_size (dechunker_new l) size) bytes) = Ok [msg]) /\
  match decode_control t p with
  | Ok (Some m') => control_type_id m' = t /\
      ((t = TYPE_SET_CHUNK_SIZE /\ exists raw, p = be_bytes 4 raw /\ m' = SetChunkSize (Z.land raw 2147483647)) \/
       exists junk, p = encode_payload m' ++ junk /\ (junk = [] \/ t = TYPE_SET_PEER_BANDWIDTH \/ exists id ms, m' = UserControl (SetBufferLength id ms)))
  | Ok None => t < 1 \/ 6 < t
  | Err _ => 1 <= t <= 6
  end.
Proof.
  intros Hg Hl Hs Hts Hm H24 Htot Hsin Hp. split; [by apply decode_control_encode|]. split.
  - assert (0 <= control_type_id m < 256) by (clear; destruct m; vm_compute; split; congruence).
    pose proof (zlen_nonneg (encode_payload m)).
    refine (message_delivered grow Hg l [CONTROL_CSID] (zlen (encode_payload m)) size (NoDup_singleton _) _ Hs _ Hsin CONTROL_CSID _ Hl eq_refl _ _ _);
      [done|change (zlen [CONTROL_CSID]) with 1; lia|unfold sendable; cbn [timestamp message_type_id message_stream_id payload]; unfold CONTROL_MESSAGE_STREAM_ID; lia|cbn [payload]; lia|unfold CONTROL_CSID; lia].
  - destruct (decode_control t p) as [[m'|]|] eqn:E; [by apply decode_control_Ok| |].
    + unfold decode_control, TYPE_SET_CHUNK_SIZE, TYPE_ABORT, TYPE_ACKNOWLEDGEMENT, TYPE_USER_CONTROL, TYPE_WINDOW_ACK_SIZE, TYPE_SET_PEER_BANDWIDTH in E.
      destruct (Z.eqb_spec t 1), (Z.eqb_spec t 2), (Z.eqb_spec t 3), (Z.eqb_spec t 4), (Z.eqb_spec t 5), (Z.eqb_spec t 6); try lia;
        repeat match type of E with (?x ≫= _) = _ => destruct x; cbn [mbind result_bind] in E; [|done] end; done.
    + unfold decode_control, TYPE_SET_CHUNK_SIZE, TYPE_ABORT, TYPE_ACKNOWLEDGEMENT, TYPE_USER_CONTROL, TYPE_WINDOW_ACK_SIZE, TYPE_SET_PEER_BANDWIDTH in E.
      destruct (Z.eqb_spec t 1), (Z.eqb_spec t 2), (Z.eqb_spec t 3), (Z.eqb_spec t 4), (Z.eqb_spec t 5), (Z.eqb_spec t 6); lia || done.
Qed.

Lemma control_roundtrip_witness :
  decode_control 6 (encode_payload (SetPeerBandwidth 5000000 Dynamic)) = Ok (Some (SetPeerBandwidth 5000000 Dynamic)) /\
  exists bytes, chunk_message (RtmpMessage 7 6 0 (encode_payload (SetPeerBandwidth 5000000 Dynamic))) 2 3 = Ok bytes /\ 
    fst (feed Some (set_chunk_size (dechunker_new tiny) 3) bytes) = Ok [RtmpMessage 7 6 0 (encode_payload (SetPeerBandwidth 5000000 Dynamic))].
Proof.
  destruct (control_roundtrip Some tiny 3 7 (SetPeerBandwidth 5000000 Dynamic) 9 [] (fun want => ex_intro _ want (conj eq_refl (Z.le_refl want)))
    ltac:(repeat split; vm_compute; congruence) ltac:(lia) ltac:(lia) ltac:(vm_compute; split; congruence) ltac:(vm_compute; congruence)
    ltac:(vm_compute; congruence) ltac:(vm_compute; congruence) ltac:(constructor)) as (H1 & H2 & _).
  split; [exact H1|exact H2].
Defined.

(** A set of a chunk size to zero is accepted, and a peer bandwidth with bytes after
    it. *)
Lemma loose_control_payloads :
  decode_control 1 [0; 0; 0; 0] = Ok (Some (SetChunkSize 0)) /\
  decode_control 6 [0; 0; 1; 0; 2; 99] = Ok (Some (SetPeerBandwidth 256 Dynamic)).
Proof. done. Qed.
