(* ===== verification/RtmpHandshake.v ===== *)
(** * RtmpHandshake: the RTMP handshake and its digest

    [src/crates/io/vaco-protocol-rtmp/src/crypto.rs], [rng.rs] and [handshake.rs]:
    SHA-256 and HMAC-SHA256 over [u32] words, the filler generator, and the plain
    and the digest handshake over 1536-byte signatures. The filler's seed, which
    comes from the clock, is a parameter. *)

From Stdlib Require Import ZArith Lia.
From stdpp Require Import prelude strings.
From S2P Require Import Prelude Bits RtmpChunk.

#[local] Open Scope Z_scope.

(** ** SHA-256 *)

Definition H0 : list Z :=
  [1779033703; 3144134277; 1013904242; 2773480762; 1359893119; 2600822924; 528734635; 1541459225].

Definition K : list Z := [
  1116352408; 1899447441; 3049323471; 3921009573; 961987163; 1508970993; 2453635748; 2870763221;
  3624381080; 310598401; 607225278; 1426881987; 1925078388; 2162078206; 2614888103; 3248222580;
  3835390401; 4022224774; 264347078; 604807628; 770255983; 1249150122; 1555081692; 1996064986;
  2554220882; 2821834349; 2952996808; 3210313671; 3336571891; 3584528711; 113926993; 338241895;
  666307205; 773529912; 1294757372; 1396182291; 1695183700; 1986661051; 2177026350; 2456956037;
  2730485921; 2820302411; 3259730800; 3345764771; 3516065817; 3600352804; 4094571909; 275423344;
  430227734; 506948616; 659060556; 883997877; 958139571; 1322822218; 1537002063; 1747873779;
  1955562222; 2024104815; 2227730452; 2361852424; 2428436474; 2756734187; 3204031479; 3329325298].

(** [x.rotate_right(n)] of a [u32]. *)
Definition rotr (x n : Z) : Z := Z.lor (Z.shiftr x n) (wrap_u 32 (Z.shiftl x (32 - n))).

Definition add32 (a b : Z) : Z := wrap_u 32 (a + b).

Definition word_at (w : list Z) (i : nat) : Z := default 0 (w !! i).

(** The words of the schedule beyond the sixteenth, in place. *)
Definition schedule_step (w : list Z) (i : nat) : list Z :=
  let w15 := word_at w (i - 15) in
  let w2 := word_at w (i - 2) in
  let w16 := word_at w (i - 16) in
  let w7 := word_at w (i - 7) in
  let s0 := Z.lxor (Z.lxor (rotr w15 7) (rotr w15 18)) (Z.shiftr w15 3) in
  let s1 := Z.lxor (Z.lxor (rotr w2 17) (rotr w2 19)) (Z.shiftr w2 10) in
  <[i := add32 (add32 (add32 w16 s0) w7) s1]> w.

Definition message_schedule (block : list Z) : list Z :=
  let w := map (fun i =>
    if decide (i < 16)%nat then
      be_value [word_at block (i * 4); word_at block (i * 4 + 1); word_at block (i * 4 + 2); word_at block (i * 4 + 3)]
    else 0) (seq 0 64) in
  fold_left schedule_step (seq 16 48) w.

(** The eight working variables. *)
Record vars : Type := Vars { va : Z; vb : Z; vc : Z; vd : Z; ve : Z; vf : Z; vg : Z; vh : Z }.

Definition round (w : list Z) (v : vars) (i : nat) : vars :=
  let s1 := Z.lxor (Z.lxor (rotr (ve v) 6) (rotr (ve v) 11)) (rotr (ve v) 25) in
  let ch := Z.lxor (Z.land (ve v) (vf v)) (Z.land (2 ^ 32 - 1 - ve v) (vg v)) in
  let temp1 := add32 (add32 (add32 (add32 (vh v) s1) ch) (word_at K i)) (word_at w i) in
  let s0 := Z.lxor (Z.lxor (rotr (va v) 2) (rotr (va v) 13)) (rotr (va v) 22) in
  let maj := Z.lxor (Z.lxor (Z.land (va v) (vb v)) (Z.land (va v) (vc v))) (Z.land (vb v) (vc v)) in
  let temp2 := add32 s0 maj in
  Vars (add32 temp1 temp2) (va v) (vb v) (vc v) (add32 (vd v) temp1) (ve v) (vf v) (vg v).

Definition compress (state : list Z) (block : list Z) : list Z :=
  let w := message_schedule block in
  let v := fold_left (round w) (seq 0 64)
    (Vars (word_at state 0) (word_at state 1) (word_at state 2) (word_at state 3)
          (word_at state 4) (word_at state 5) (word_at state 6) (word_at state 7)) in
  zip_with add32 state [va v; vb v; vc v; vd v; ve v; vf v; vg v; vh v].

(** [dst.copy_from_slice(src)] at an offset of a buffer that has room for it. *)
Definition write_at (buf : list Z) (offset : Z) (bytes : list Z) : option (list Z) :=
  e ← checked_u 64 (offset + zlen bytes);
  if (0 <=? offset) && (offset <=? e) && (e <=? zlen buf) then
    Some (take (Z.to_nat offset) buf ++ bytes ++ drop (Z.to_nat e) buf)
  else None.

(** [if let Some(dst) = ... { dst.copy_from_slice(bytes) }]. *)
Definition write_if (buf : list Z) (offset : Z) (bytes : list Z) : list Z := default buf (write_at buf offset bytes).

(** One whole block of the data, if it is there. *)
Definition compress_at (data : list Z) (state : list Z) (start : Z) : list Z :=
  match get_range data start (start + 64) with Some block => compress state block | None => state end.

(** The last one or two blocks: the tail, the mark, the zeros and the bit length. *)
Definition last_blocks (data : list Z) : list Z * Z :=
  let tail := default [] (get_from data (zlen data / 64 * 64)) in
  let bit_len := wrap_u 64 (zlen data * 8) in
  let n := zlen tail in
  let last := write_if (replicate 128 0) 0 tail in
  let last := write_if last n [128] in
  let n := n + 1 in
  let padded_len := if n <=? 56 then 64 else 128 in
  (write_if last (padded_len - 8) (be_bytes 8 bit_len), padded_len).

Definition sha256 (data : list Z) : list Z :=
  let full_blocks := zlen data / 64 in
  let state := fold_left (compress_at data) (map (fun i => i * 64) (seqZ 0 full_blocks)) H0 in
  let '(last, padded_len) := last_blocks data in
  let state := fold_left (compress_at last) (if padded_len =? 64 then [0] else [0; 64]) state in
  concat (map (be_bytes 4) state).

(** ** HMAC *)

Definition hmac_sha256 (key message : list Z) : list Z :=
  let k := if 64 <? zlen key then write_if (replicate 64 0) 0 (sha256 key) else write_if (replicate 64 0) 0 key in
  let ipad := zip_with Z.lxor (replicate 64 54) k in
  let opad := zip_with Z.lxor (replicate 64 92) k in
  sha256 (opad ++ sha256 (ipad ++ message)).

(** ** The filler *)

(** [SplitMix64]: the state and the next number. *)
Definition next_u64 (s : Z) : Z * Z :=
  let s := wrap_u 64 (s + 11400714819323198485) in
  let z := wrap_u 64 (Z.lxor s (Z.shiftr s 30) * 13787848793156543929) in
  let z := wrap_u 64 (Z.lxor z (Z.shiftr z 27) * 10723151780598845931) in
  (Z.lxor z (Z.shiftr z 31), s).

(** [n] bytes of filler, eight at a time. *)
Fixpoint fill (fuel : nat) (s : Z) (n : nat) : list Z :=
  match fuel with
  | O => []
  | S fuel => let '(x, s) := next_u64 s in take n (le_bytes 8 x) ++ fill fuel s (n - 8)
  end.

Definition filler (seed : Z) (n : nat) : list Z := fill (S (n / 8)) seed n.

(** ** The handshake *)

Definition SIG_SIZE : Z := 1536.
Definition VERSION : Z := 3.

Definition GENUINE_FP_CONST : list Z := str "Genuine Adobe Flash Player 001".
Definition GENUINE_FMS_CONST : list Z := str "Genuine Adobe Flash Media Server 001".
Definition RANDOM_CRUD : list Z :=
  [240; 238; 194; 74; 128; 104; 190; 232; 46; 0; 208; 209; 2; 158; 126; 87;
   110; 236; 93; 45; 41; 128; 111; 171; 147; 184; 230; 54; 207; 235; 49; 174].

Inductive scheme : Type := Zero | One.

Definition ALL_SCHEMES : list scheme := [Zero; One].

Definition offset_source (s : scheme) : Z * Z := match s with Zero => (8, 12) | One => (772, 776) end.
Definition digest_base (s : scheme) : Z := match s with Zero => 12 | One => 776 end.

Definition digest_offset (s : scheme) (sig : list Z) : option Z :=
  bytes ← get_range sig (fst (offset_source s)) (snd (offset_source s));
  let sum := fold_left Z.add bytes 0 in
  Some (digest_base s + sum mod 728).

Definition compute_digest (sig : list Z) (offset : Z) (key : list Z) : option (list Z) :=
  before ← get_range sig 0 offset;
  e ← checked_u 64 (offset + 32);
  after ← get_from sig e;
  Some (hmac_sha256 key (before ++ after)).

(** The loop over the schemes. *)
Fixpoint find_digest_in (schemes : list scheme) (sig key : list Z) : option (scheme * list Z) :=
  match schemes with
  | [] => None
  | s :: schemes =>
    offset ← digest_offset s sig;
    expected ← compute_digest sig offset key;
    e ← checked_u 64 (offset + 32);
    if decide (get_range sig offset e = Some expected) then Some (s, expected)
    else find_digest_in schemes sig key
  end.

Definition find_digest (sig key : list Z) : option (scheme * list Z) := find_digest_in ALL_SCHEMES sig key.

Definition build_plain_c0_c1 (seed : Z) : list Z := [VERSION] ++ replicate 8 0 ++ filler seed 1528.

Definition build_plain_c2 (s1 : list Z) : list Z := s1.

Definition plain_s2_echoes_our_c1 (our_c1 s2 : list Z) : bool := bool_decide (get_from our_c1 8 = get_from s2 8).

Definition build_digest_c0_c1 (seed : Z) (s : scheme) : result protocol_error (list Z) :=
  let sig := replicate 4 0 ++ [128; 0; 7; 2] ++ filler seed 1528 in
  offset ← ok_or (digest_offset s sig) (malformed "digest offset out of range");
  digest ← ok_or (compute_digest sig offset GENUINE_FP_CONST) (malformed "digest offset out of range");
  sig ← ok_or (write_at sig offset digest) (malformed "digest offset out of range");
  Ok ([VERSION] ++ sig).

Definition build_digest_c2 (seed : Z) (s1 : list Z) : result protocol_error (list Z) :=
  '(_, server_digest) ← ok_or (find_digest s1 GENUINE_FMS_CONST) (malformed "S1's digest did not validate under either scheme");
  let temp_key := hmac_sha256 (GENUINE_FP_CONST ++ RANDOM_CRUD) server_digest in
  let c2 := filler seed 1536 in
  let prefix_len := SIG_SIZE - 32 in
  prefix ← ok_or (get_range c2 0 prefix_len) (malformed "handshake signature size invariant violated");
  ok_or (write_at c2 prefix_len (hmac_sha256 temp_key prefix)) (malformed "handshake signature size invariant violated").

Definition verify_digest_s2 (our_c1_digest s2 : list Z) : bool :=
  let temp_key := hmac_sha256 (GENUINE_FMS_CONST ++ RANDOM_CRUD) our_c1_digest in
  let prefix_len := SIG_SIZE - 32 in
  match get_range s2 0 prefix_len with
  | None => false
  | Some prefix => bool_decide (get_from s2 prefix_len = Some (hmac_sha256 temp_key prefix))
  end.

(** ** The padded message of FIPS 180-4 *)

Fixpoint blocks (n : nat) (l : list Z) : list (list Z) :=
  match n with O => [] | S n => take 64 l :: blocks n (drop 64 l) end.

(** The message, a one bit, the fewest zeros that leave room for its length, and its
    length in bits. *)
Definition pad (m : list Z) : list Z :=
  m ++ [128] ++ replicate (Z.to_nat ((55 - zlen m) mod 64)) 0 ++ be_bytes 8 (zlen m * 8).

(** SHA-256 as the standard has it: all blocks of the padded message, in order. *)
Definition sha256_spec (m : list Z) : list Z :=
  concat (map (be_bytes 4) (fold_left compress (blocks (Z.to_nat (zlen (pad m) / 64)) (pad m)) H0)).

Lemma blocks_app n k l1 l2 : length l1 = (64 * n)%nat -> blocks (n + k) (l1 ++ l2) = blocks n l1 ++ blocks k l2.
Proof.
  revert l1. induction n as [|n IH]; intros l1 Hl; [by destruct l1|]. cbn [Nat.add blocks app].
  rewrite take_app_le, drop_app_le by lia. f_equal. apply IH. rewrite length_drop. lia.
Qed.

(** Going through whole blocks by their offsets. *)
Lemma compress_from data n i st : 0 <= i -> 64 * (i + Z.of_nat n) <= zlen data ->
  fold_left (compress_at data) (map (fun j => j * 64) (seqZ i (Z.of_nat n))) st = fold_left compress (blocks n (drop (Z.to_nat (64 * i)) data)) st.
Proof.
  revert i st. induction n as [|n IH]; intros i st Hi Hn; [done|]. rewrite (seqZ_cons i) by lia. cbn [map fold_left blocks].
  replace (Z.pred (Z.of_nat (S n))) with (Z.of_nat n) by lia. rewrite IH by lia. f_equal.
  - rewrite drop_drop. do 2 f_equal. lia.
  - unfold compress_at, get_range. rewrite (proj2 (Z.leb_le 0 (i * 64))), (proj2 (Z.leb_le (i * 64) _)), (proj2 (Z.leb_le (i * 64 + 64) (zlen data))) by lia.
    cbn [andb]. by replace (i * 64 + 64 - i * 64) with 64 by lia; rewrite (Z.mul_comm i).
Qed.

Lemma write_if_mid a b c x : length b = length x -> zlen a + zlen x < 2 ^ 64 -> write_if (a ++ b ++ c) (zlen a) x = a ++ x ++ c.
Proof.
  intros Hb Hs. pose proof (zlen_nonneg a). pose proof (zlen_nonneg x). pose proof (zlen_nonneg c). assert (zlen b = zlen x) as Hbz by (unfold zlen; lia).
  unfold write_if, write_at. rewrite checked_u_in by (apply in_u_spec; lia). cbn [mbind option_bind]. rewrite !zlen_app.
  rewrite (proj2 (Z.leb_le 0 (zlen a))), (proj2 (Z.leb_le (zlen a) _)), (proj2 (Z.leb_le (zlen a + zlen x) _)) by lia. cbn [andb default from_option id].
  assert (Z.to_nat (zlen a) = length a) as -> by (unfold zlen; lia). assert (Z.to_nat (zlen a + zlen x) = length (a ++ b)) as -> by (rewrite length_app; unfold zlen; lia).
  rewrite take_app_length, (app_assoc a b), drop_app_length. done.
Qed.

Lemma replicate_split n k : (k <= n)%nat -> replicate n 0 = replicate k 0 ++ replicate (n - k) 0.
Proof. intros H. rewrite <- replicate_add. f_equal. lia. Qed.

(** The last blocks are the tail of the padded message. *)
Lemma last_blocks_spec data : let tail := drop (Z.to_nat (zlen data / 64 * 64)) data in
  exists zeros, snd (last_blocks data) = (if zlen tail <? 56 then 64 else 128) /\
    fst (last_blocks data) = tail ++ [128] ++ replicate (Z.to_nat ((55 - zlen data) mod 64)) 0 ++ be_bytes 8 (wrap_u 64 (zlen data * 8)) ++ zeros /\
    zlen (tail ++ [128] ++ replicate (Z.to_nat ((55 - zlen data) mod 64)) 0 ++ be_bytes 8 (wrap_u 64 (zlen data * 8))) = snd (last_blocks data).
Proof.
  intros tail. pose proof (zlen_nonneg data) as H0. pose proof (Z.div_mod (zlen data) 64 ltac:(lia)) as Hd. pose proof (Z.mod_pos_bound (zlen data) 64 ltac:(lia)) as Hm.
  assert (zlen tail = zlen data mod 64) as Ht by (unfold tail; rewrite zlen_drop; lia).
  unfold last_blocks. assert (default [] (get_from data (zlen data / 64 * 64)) = tail) as ->.
  { unfold get_from. rewrite (proj2 (Z.leb_le 0 _)), (proj2 (Z.leb_le _ (zlen data))) by lia. done. }
  set (n := zlen tail) in *. set (k := (55 - zlen data) mod 64).
  assert (k = if n <? 56 then 55 - n else 119 - n) as Hk.
  { unfold k. destruct (Z.ltb_spec n 56).
    - replace (55 - zlen data) with ((55 - n) + - (zlen data / 64) * 64) by lia. rewrite Z.mod_add, Z.mod_small; lia.
    - replace (55 - zlen data) with ((119 - n) + (- (zlen data / 64) - 1) * 64) by lia. rewrite Z.mod_add, Z.mod_small; lia. }
  assert (length tail = Z.to_nat n) as Hln by (unfold n, zlen; lia).
  rewrite (replicate_split 128 (length tail)) by lia. pose proof (write_if_mid [] (replicate (length tail) 0) (replicate (128 - length tail) 0) tail) as W1.
  cbn [app] in W1. change (zlen []) with 0 in W1. rewrite W1 by (rewrite ?length_replicate; done || lia).
  rewrite (replicate_split (128 - length tail) 1) by lia.
  pose proof (write_if_mid tail (replicate 1 0) (replicate (128 - length tail - 1) 0) [128]) as W2. fold n in W2. rewrite W2 by (done || (change (zlen [128]) with 1; lia)).
  set (p := if n + 1 <=? 56 then 64 else 128).
  assert (p = if n <? 56 then 64 else 128) as Hp by (unfold p; destruct (Z.leb_spec (n + 1) 56), (Z.ltb_spec n 56); lia).
  set (len8 := be_bytes 8 _). assert (length len8 = 8%nat) as Hl8 by apply length_be_bytes. cbn [fst snd].
  rewrite (replicate_split (128 - length tail - 1) (Z.to_nat k)) by (rewrite Hk; destruct (n <? 56) eqn:E; breflect; lia).
  rewrite (replicate_split (128 - length tail - 1 - Z.to_nat k) 8) by (rewrite Hk; destruct (n <? 56) eqn:E; breflect; lia).
  assert (zlen (tail ++ [128] ++ replicate (Z.to_nat k) 0) = p - 8) as Hpre.
  { rewrite !zlen_app, zlen_replicate, Hp, Hk. fold n. change (zlen [128]) with 1. destruct (n <? 56) eqn:E; breflect; lia. }
  exists (replicate (128 - length tail - 1 - Z.to_nat k - 8) 0). split; [exact Hp|]. split.
  - pose proof (write_if_mid (tail ++ [128] ++ replicate (Z.to_nat k) 0) (replicate 8 0) (replicate (128 - length tail - 1 - Z.to_nat k - 8) 0) len8) as W3.
    rewrite Hpre in W3. rewrite <- !app_assoc in W3. rewrite W3; [done|by rewrite Hl8, length_replicate|]. unfold zlen. rewrite Hl8, Hp. destruct (n <? 56); lia.
  - rewrite !zlen_app in *. unfold zlen at 4. rewrite Hl8. lia.
Qed.

Lemma sha256_spec_eq data : zlen data < 2 ^ 61 -> sha256 data = sha256_spec data.
Proof.
  intros Hlt. pose proof (zlen_nonneg data) as H0'. pose proof (Z.div_mod (zlen data) 64 ltac:(lia)) as Hd. pose proof (Z.mod_pos_bound (zlen data) 64 ltac:(lia)) as Hm.
  set (f := zlen data / 64) in *. set (tail := drop (Z.to_nat (f * 64)) data).
  destruct (last_blocks_spec data) as (zeros & Hp & Hl & Hz). fold f in Hp, Hl, Hz. fold tail in Hp, Hl, Hz.
  rewrite wrap_u_id in Hl, Hz by lia. unfold sha256, sha256_spec. fold f. destruct (last_blocks data) as [last padded]. cbn [fst snd] in *. subst last.
  set (end_ := tail ++ [128] ++ replicate (Z.to_nat ((55 - zlen data) mod 64)) 0 ++ be_bytes 8 (zlen data * 8)) in *.
  assert (pad data = take (Z.to_nat (f * 64)) data ++ end_) as Hpad.
  { unfold pad, end_, tail. rewrite (app_assoc (take _ _)), take_drop. done. }
  assert (length (take (Z.to_nat (f * 64)) data) = (64 * Z.to_nat f)%nat) as Hlf by (rewrite length_take; unfold zlen in *; lia).
  assert (padded = 64 \/ padded = 128) as Hp2 by (destruct (zlen tail <? 56); lia).
  assert (zlen (pad data) = 64 * (f + padded / 64)) as Hlp.
  { rewrite Hpad, zlen_app, Hz. unfold zlen. rewrite Hlf. destruct Hp2 as [->| ->]; [change (64 / 64) with 1|change (128 / 64) with 2]; lia. }
  rewrite Hlp. replace (64 * (f + padded / 64) / 64) with (f + padded / 64) by (by rewrite Z.mul_comm, Z.div_mul). rewrite Hpad. assert (0 <= padded / 64) by (destruct Hp2 as [->| ->]; done).
  rewrite Z2Nat.inj_add by lia. rewrite blocks_app, fold_left_app by done. f_equal. f_equal.
  assert (forall st, fold_left (compress_at data) (map (fun i => i * 64) (seqZ 0 f)) st = fold_left compress (blocks (Z.to_nat f) (take (Z.to_nat (f * 64)) data)) st) as ->.
  { intros st. rewrite <- (Z2Nat.id f) at 1 by lia. rewrite compress_from by lia. change (Z.to_nat (64 * 0)) with 0%nat. rewrite drop_0.
    rewrite <- (take_drop (Z.to_nat (f * 64)) data) at 1. rewrite <- (Nat.add_0_r (Z.to_nat f)) at 1. rewrite blocks_app by done. cbn [blocks]. by rewrite app_nil_r. }
  set (st := fold_left compress _ _). replace (tail ++ [128] ++ replicate (Z.to_nat ((55 - zlen data) mod 64)) 0 ++ be_bytes 8 (zlen data * 8) ++ zeros) with (end_ ++ zeros)
    by (unfold end_; by rewrite <- !app_assoc).
  assert (forall n, padded = 64 * Z.of_nat n -> fold_left (compress_at (end_ ++ zeros)) (map (fun i => i * 64) (seqZ 0 (Z.of_nat n))) st = fold_left compress (blocks n end_) st) as Hend.
  { intros n Hn. rewrite compress_from by (rewrite ?zlen_app; pose proof (zlen_nonneg zeros); lia). change (Z.to_nat (64 * 0)) with 0%nat. rewrite drop_0.
    rewrite <- (Nat.add_0_r n) at 1. rewrite blocks_app by (unfold zlen in Hz; lia). cbn [blocks]. by rewrite app_nil_r. }
  destruct Hp2 as [->| ->]; [exact (Hend 1%nat eq_refl)|exact (Hend 2%nat eq_refl)].
Qed.

Lemma compress_length st b : length st = 8%nat -> length (compress st b) = 8%nat.
Proof. intros Hs. unfold compress. rewrite length_zip_with, Hs. done. Qed.

Lemma compress_at_length data l st : length st = 8%nat -> length (fold_left (compress_at data) l st) = 8%nat.
Proof.
  revert st. induction l as [|i l IH]; intros st Hs; [done|]. cbn [fold_left]. apply IH. unfold compress_at. destruct (get_range _ _ _); [by apply compress_length|done].
Qed.

Lemma sha256_length data : zlen (sha256 data) = 32.
Proof.
  unfold sha256. destruct (last_blocks data) as [last padded]. set (st := fold_left (compress_at last) _ _).
  assert (length st = 8%nat) as Hs by (apply compress_at_length, compress_at_length; done). clearbody st.
  destruct st as [|a [|b [|c [|d [|e [|f [|g [|h [|]]]]]]]]]; try done.
Qed.



Lemma hmac_length key m : zlen (hmac_sha256 key m) = 32.
Proof. apply sha256_length. Qed.

(** ** The digest's place *)

Lemma sum_nonneg l : octets_ok l -> 0 <= fold_left Z.add l 0.
Proof.
  assert (forall a, 0 <= a -> octets_ok l -> 0 <= fold_left Z.add l a) as H; [|by apply H]. induction l as [|b l IH]; intros a Ha Hl; [done|].
  apply Forall_cons in Hl as [Hb Hl]. apply IH; [lia|done].
Qed.

(** On every signature both schemes have a place for the digest, inside the
    signature and apart from the bytes it is computed from. *)
Lemma digest_offset_place s sig : zlen sig = SIG_SIZE -> exists off, digest_offset s sig = Some off /\
  snd (offset_source s) <= off /\ off + 32 <= SIG_SIZE /\ (s = Zero -> off + 32 <= 772).
Proof.
  intros Hl. unfold SIG_SIZE in *. unfold digest_offset. assert (exists b, get_range sig (fst (offset_source s)) (snd (offset_source s)) = Some b) as [b Hb].
  { unfold get_range. rewrite Hl. by destruct s; eexists. }
  rewrite Hb. cbn [mbind option_bind]. eexists. split; [done|]. pose proof (Z.mod_pos_bound (fold_left Z.add b 0) 728 ltac:(lia)). destruct s; cbn [digest_base offset_source snd]; (split; [lia|]; split; [lia|]); intros; done || lia.
Qed.

Lemma write_at_mid a b c x : length b = length x -> zlen a + zlen x < 2 ^ 64 -> write_at (a ++ b ++ c) (zlen a) x = Some (a ++ x ++ c).
Proof.
  intros Hb Hs. pose proof (write_if_mid a b c x Hb Hs) as H. unfold write_if in H. destruct (write_at _ _ _) as [w|] eqn:E; cbn in H; [by subst|].
  exfalso. unfold write_at in E. rewrite checked_u_in in E by (apply in_u_spec; pose proof (zlen_nonneg a); pose proof (zlen_nonneg x); lia). cbn [mbind option_bind] in E.
  rewrite !zlen_app in E. pose proof (zlen_nonneg a). pose proof (zlen_nonneg x). pose proof (zlen_nonneg c). assert (zlen b = zlen x) by (unfold zlen; lia).
  rewrite (proj2 (Z.leb_le 0 (zlen a))), (proj2 (Z.leb_le (zlen a) (zlen a + zlen x))), (proj2 (Z.leb_le (zlen a + zlen x) (zlen a + (zlen b + zlen c)))) in E by lia. done.
Qed.

(** A signature cut around thirty-two of its bytes. *)
Lemma cut_around (sig : list Z) off : 0 <= off -> off + 32 <= zlen sig ->
  exists a b c, sig = a ++ b ++ c /\ zlen a = off /\ length b = 32%nat.
Proof.
  intros H1 H2. exists (take (Z.to_nat off) sig), (take 32 (drop (Z.to_nat off) sig)), (drop 32 (drop (Z.to_nat off) sig)).
  rewrite take_drop, take_drop. split; [done|]. split; [apply zlen_take; lia|]. rewrite length_take, length_drop. unfold zlen in *. lia.
Qed.

Lemma compute_digest_around a b c key : length b = 32%nat -> zlen a < 2 ^ 32 ->
  compute_digest (a ++ b ++ c) (zlen a) key = Some (hmac_sha256 key (a ++ c)).
Proof.
  intros Hb Ha. pose proof (zlen_nonneg a). unfold compute_digest. rewrite get_range_prefix. cbn [mbind option_bind]. rewrite checked_u_in by (apply in_u_spec; lia). cbn [mbind option_bind].
  rewrite app_assoc, (get_from_at (a ++ b)) by (rewrite zlen_app; unfold zlen; lia). done.
Qed.

(** A range before a change is not affected by it. *)
Lemma get_range_before {A : Type} (a r : list A) i j : 0 <= i -> i <= j -> j <= zlen a -> get_range (a ++ r) i j = get_range a i j.
Proof.
  intros Hi Hij Hj. assert (get_range a i j = Some (take (Z.to_nat (j - i)) (drop (Z.to_nat i) a))) as H
    by (unfold get_range; by rewrite (proj2 (Z.leb_le 0 i)), (proj2 (Z.leb_le i j)), (proj2 (Z.leb_le j (zlen a))) by lia).
  rewrite H. by apply get_range_extend.
Qed.

(** Signing a signature under a scheme leaves the digest's place where it was, and
    the digest found there is the one computed. *)
Lemma signed_validates s sig off d key : zlen sig = SIG_SIZE ->
  digest_offset s sig = Some off -> compute_digest sig off key = Some d ->
  exists signed, write_at sig off d = Some signed /\ zlen signed = SIG_SIZE /\ zlen d = 32 /\
    digest_offset s signed = Some off /\ compute_digest signed off key = Some d /\ get_range signed off (off + 32) = Some d.
Proof.
  intros Hl Ho Hd. destruct (digest_offset_place s sig Hl) as (off' & Ho' & H1 & H2 & H3). rewrite Ho in Ho'. injection Ho' as <-.
  assert (0 <= fst (offset_source s) <= snd (offset_source s)) as Hsrc by (by destruct s). unfold SIG_SIZE in *.
  destruct (cut_around sig off ltac:(lia) ltac:(lia)) as (a & b & c & -> & Ha & Hb). subst off.
  rewrite compute_digest_around in Hd by (done || lia). injection Hd as <-. set (d := hmac_sha256 key (a ++ c)).
  assert (zlen d = 32) as Hdl by apply hmac_length. assert (length d = 32%nat) as Hdn by (unfold zlen in Hdl; lia).
  exists (a ++ d ++ c). split; [apply write_at_mid; [by rewrite Hb|lia]|]. split; [rewrite !zlen_app in *; unfold zlen in *; lia|]. split; [done|]. split; [|split].
  - unfold digest_offset in *. rewrite get_range_before in Ho |- * by lia. exact Ho.
  - by apply compute_digest_around; [|lia].
  - rewrite <- Hdl. by apply get_range_at.
Qed.

Lemma find_digest_complete s sig key off d : zlen sig = SIG_SIZE -> digest_offset s sig = Some off -> compute_digest sig off key = Some d ->
  get_range sig off (off + 32) = Some d -> exists s' d' off', find_digest sig key = Some (s', d') /\
    digest_offset s' sig = Some off' /\ compute_digest sig off' key = Some d' /\ get_range sig off' (off' + 32) = Some d' /\ (s = Zero -> s' = Zero).
Proof.
  intros Hl Ho Hd Hg. assert (forall s, exists off d, digest_offset s sig = Some off /\ compute_digest sig off key = Some d /\ checked_u 64 (off + 32) = Some (off + 32)) as Hall.
  { clear -Hl. intros s. destruct (digest_offset_place s sig Hl) as (o & Ho & H1 & H2 & _). unfold SIG_SIZE in *.
    destruct (cut_around sig o ltac:(destruct s; cbn [snd offset_source] in H1; lia) ltac:(lia)) as (a & b & c & -> & Ha & Hb). subst o.
    exists (zlen a), (hmac_sha256 key (a ++ c)). split; [done|]. pose proof (zlen_nonneg a). split; [apply compute_digest_around; [done|lia]|]. apply checked_u_in, in_u_spec. lia. }
  unfold find_digest, ALL_SCHEMES. cbn [find_digest_in]. destruct (Hall Zero) as (o0 & d0 & E1 & E2 & E3). rewrite E1. cbn [mbind option_bind]. rewrite E2. cbn [mbind option_bind]. rewrite E3. cbn [mbind option_bind].
  destruct (decide (get_range sig o0 (o0 + 32) = Some d0)) as [Hz|Hz]; [by exists Zero, d0, o0|].
  destruct s; [congruence|]. rewrite Ho. cbn [mbind option_bind]. rewrite Hd. cbn [mbind option_bind]. destruct (Hall One) as (o1 & d1 & F1 & F2 & F3).
  rewrite Ho in F1. injection F1 as <-. rewrite F3. cbn [mbind option_bind]. rewrite decide_True by done. by exists One, d, off.
Qed.

Lemma fill_length fuel s n : (n <= 8 * fuel)%nat -> length (fill fuel s n) = n.
Proof.
  revert s n. induction fuel as [|fuel IH]; intros s n Hn; [cbn; lia|]. cbn [fill]. destruct (next_u64 s) as [x s'].
  rewrite length_app, length_take, IH by lia. unfold le_bytes. rewrite length_rev, length_be_bytes. lia.
Qed.

Lemma filler_length seed n : length (filler seed n) = n.
Proof. apply fill_length. pose proof (Nat.div_mod n 8 ltac:(lia)). pose proof (Nat.mod_upper_bound n 8 ltac:(lia)). lia. Qed.

#[global] Strategy 1000 [hmac_sha256 sha256 filler fill GENUINE_FP_CONST GENUINE_FMS_CONST].

(** The digest handshake finds its digests. Whatever the filler, a C1 built for
    either scheme is 1536 bytes and the search over both schemes finds a digest that
    stands in its place and is the one computed. For every S1, C2 is built exactly
    when S1 carries a digest of the server's, and then it is 1536 bytes signed for
    that digest; of all 1536-byte S2 with a given body, exactly the one signed for
    our digest is accepted. *)
Theorem digest_handshake seed s :
  (exists sig s' d off, build_digest_c0_c1 seed s = Ok (VERSION :: sig) /\ zlen sig = SIG_SIZE /\
     find_digest sig GENUINE_FP_CONST = Some (s', d) /\ (s = Zero -> s' = Zero) /\ zlen d = 32 /\
     digest_offset s' sig = Some off /\ compute_digest sig off GENUINE_FP_CONST = Some d /\ get_range sig off (off + 32) = Some d) /\
  (forall s1, match find_digest s1 GENUINE_FMS_CONST with
     | Some (_, d) => exists body, zlen body = SIG_SIZE - 32 /\
         build_digest_c2 seed s1 = Ok (body ++ hmac_sha256 (hmac_sha256 (GENUINE_FP_CONST ++ RANDOM_CRUD) d) body)
     | None => exists e, build_digest_c2 seed s1 = Err e
     end) /\
  (forall d body tail, zlen body = SIG_SIZE - 32 -> zlen tail = 32 ->
     verify_digest_s2 d (body ++ tail) = true <-> tail = hmac_sha256 (hmac_sha256 (GENUINE_FMS_CONST ++ RANDOM_CRUD) d) body).
Proof.
  split; [|split].
  - set (sig := replicate 4 0 ++ [128; 0; 7; 2] ++ filler seed 1528).
    assert (zlen sig = SIG_SIZE) as Hl by (unfold sig, zlen; rewrite !length_app, filler_length; done).
    destruct (digest_offset_place s sig Hl) as (off & Ho & H1 & H2 & _). pose proof Hl as Hl'. unfold SIG_SIZE in Hl', H2.
    assert (exists d, compute_digest sig off GENUINE_FP_CONST = Some d) as [d Hd].
    { destruct (cut_around sig off ltac:(destruct s; cbn [snd offset_source] in H1; lia) ltac:(lia)) as (a & b & c & E & Ha & Hb). rewrite E. subst off.
      eexists. apply compute_digest_around; [done|]. pose proof (zlen_nonneg a). lia. }
    destruct (signed_validates s sig off d _ Hl Ho Hd) as (signed & Hw & Hsl & Hdl & Ho' & Hd' & Hg).
    destruct (find_digest_complete s signed _ off d Hsl Ho' Hd' Hg) as (s' & d' & off' & Hf & Hfo & Hfd & Hfg & Hz).
    exists signed, s', d', off'. split; [unfold build_digest_c0_c1; fold sig; rewrite Ho; cbn [ok_or mbind result_bind]; rewrite Hd; cbn [ok_or mbind result_bind]; by rewrite Hw|].
    split; [exact Hsl|]. split; [exact Hf|]. split; [exact Hz|]. split; [|split; [exact Hfo|split; [exact Hfd|exact Hfg]]].
    unfold compute_digest in Hfd. destruct (get_range signed 0 off'); [|done]. cbn [mbind option_bind] in Hfd. destruct (checked_u 64 _); [|done]. cbn [mbind option_bind] in Hfd.
    destruct (get_from signed _); [|done]. injection Hfd as <-. apply hmac_length.
  - intros s1. unfold build_digest_c2. destruct (find_digest s1 GENUINE_FMS_CONST) as [[s' d]|]; [|by eexists]. cbn [ok_or mbind result_bind].
    assert (length (filler seed 1536) = 1536%nat) as Hl by apply filler_length. unfold SIG_SIZE.
    set (body := take (Z.to_nat (1536 - 32)) (filler seed 1536)). exists body.
    assert (zlen body = 1536 - 32) as Hb by (unfold body; apply zlen_take; unfold zlen; rewrite Hl; lia). split; [done|].
    rewrite <- (take_drop (Z.to_nat (1536 - 32)) (filler seed 1536)). fold body. rewrite <- Hb, get_range_prefix. cbn [ok_or mbind result_bind].
    pose proof (hmac_length (hmac_sha256 (GENUINE_FP_CONST ++ RANDOM_CRUD) d) body) as Hh. set (h := hmac_sha256 _ body) in *.
    rewrite <- (app_nil_r (drop _ _)), write_at_mid; [by rewrite app_nil_r| |lia]. rewrite length_drop, Hl. unfold zlen in *. lia.
  - intros d body tail Hb Ht. unfold verify_digest_s2. rewrite <- Hb, get_range_prefix. rewrite (get_from_at body) by done. rewrite bool_decide_eq_true.
    split; [intros H; injection H as H; exact H|intros H; exact (f_equal Some H)].
Qed.

(** The plain handshake accepts its own echo. *)
Lemma plain_echo seed : plain_s2_echoes_our_c1 (drop 1 (build_plain_c0_c1 seed)) (build_plain_c2 (drop 1 (build_plain_c0_c1 seed))) = true /\
  zlen (build_plain_c0_c1 seed) = SIG_SIZE + 1.
Proof.
  split; [by apply bool_decide_eq_true|]. unfold build_plain_c0_c1, zlen. rewrite !length_app, filler_length. done.
Qed.
