(* ===== verification/Amf0.v ===== *)
(** * Amf0: the values of RTMP commands

    [src/crates/io/vaco-protocol-rtmp/src/amf0.rs] and [command.rs]: AMF0 values as
    marked bytes and back, and the command messages made of them. A number is its
    64 bits; a string is its UTF-8 bytes, with the well-formedness that
    [String::from_utf8] checks. *)

From Stdlib Require Import ZArith Lia.
From stdpp Require Import prelude strings.
From S2P Require Import Prelude Bits RtmpChunk.

#[local] Open Scope Z_scope.

(** ** Values *)

#[local] Unset Elimination Schemes.
Inductive value : Type :=
  | Number (bits : Z)
  | Boolean (b : bool)
  | VString (s : list Z)
  | Object (pairs : list (list Z * value))
  | Null
  | Undefined
  | EcmaArray (pairs : list (list Z * value))
  | StrictArray (items : list value)
  | Date (bits : Z).
#[local] Set Elimination Schemes.

Definition MARKER_NUMBER : Z := 0.
Definition MARKER_BOOLEAN : Z := 1.
Definition MARKER_STRING : Z := 2.
Definition MARKER_OBJECT : Z := 3.
Definition MARKER_NULL : Z := 5.
Definition MARKER_UNDEFINED : Z := 6.
Definition MARKER_ECMA_ARRAY : Z := 8.
Definition OBJECT_END : Z := 9.
Definition MARKER_STRICT_ARRAY : Z := 10.
Definition MARKER_DATE : Z := 11.
Definition MARKER_LONG_STRING : Z := 12.

(** ** Encoding *)

Definition encode_string (s : list Z) : list Z :=
  match checked_u 16 (zlen s) with
  | Some len => [MARKER_STRING] ++ be_bytes 2 len ++ s
  | None => [MARKER_LONG_STRING] ++ be_bytes 4 (wrap_u 32 (zlen s)) ++ s
  end.

Definition encode_pairs_with (enc : value -> list Z) (pairs : list (list Z * value)) : list Z :=
  concat (map (fun p => be_bytes 2 (wrap_u 16 (zlen (fst p))) ++ fst p ++ enc (snd p)) pairs) ++ be_bytes 2 0 ++ [OBJECT_END].

(** What [encode] pushes. *)
Fixpoint encode (v : value) : list Z :=
  match v with
  | Number n => [MARKER_NUMBER] ++ be_bytes 8 n
  | Boolean b => [MARKER_BOOLEAN; if b then 1 else 0]
  | VString s => encode_string s
  | Object pairs => [MARKER_OBJECT] ++ encode_pairs_with encode pairs
  | Null => [MARKER_NULL]
  | Undefined => [MARKER_UNDEFINED]
  | EcmaArray pairs => [MARKER_ECMA_ARRAY] ++ be_bytes 4 (wrap_u 32 (zlen pairs)) ++ encode_pairs_with encode pairs
  | StrictArray items => [MARKER_STRICT_ARRAY] ++ be_bytes 4 (wrap_u 32 (zlen items)) ++ concat (map encode items)
  | Date millis => [MARKER_DATE] ++ be_bytes 8 millis ++ be_bytes 2 0
  end.

Definition encode_pairs (pairs : list (list Z * value)) : list Z := encode_pairs_with encode pairs.

(** ** Decoding *)

(** Why a decoder stopped: its own error, or the fuel of the model. *)
Inductive stop : Type := Fault (e : protocol_error) | OutOfFuel.

Definition fault (detail : string) : stop := Fault (malformed detail).

Definition decode_short_string (buf : list Z) : result stop (list Z * Z) :=
  len_bytes ← ok_or (get_range buf 0 2) (fault "AMF0 string length is truncated");
  let len := be_value len_bytes in
  bytes ← ok_or (get_range buf 2 (2 + len)) (fault "AMF0 string body is truncated");
  if utf8 bytes then Ok (bytes, 2 + len) else Err (fault "AMF0 string is not valid UTF-8").

Definition decode_long_string (buf : list Z) : result stop (list Z * Z) :=
  len_bytes ← ok_or (get_range buf 0 4) (fault "AMF0 long string length is truncated");
  let len := be_value len_bytes in
  bytes ← ok_or (get_range buf 4 (4 + len)) (fault "AMF0 long string body is truncated");
  if utf8 bytes then Ok (bytes, 4 + len) else Err (fault "AMF0 long string is not valid UTF-8").

(** The key at [cursor], or the end of the pairs; and the cursor after it. *)
Definition decode_key (buf : list Z) (cursor : Z) : result stop (option (list Z) * Z) :=
  key_len_bytes ← ok_or (get_range buf cursor (cursor + 2)) (fault "AMF0 object key length is truncated");
  let key_len := be_value key_len_bytes in
  if key_len =? 0 then
    end_marker ← ok_or (buf !! Z.to_nat (cursor + 2)) (fault "AMF0 object end marker is truncated");
    if end_marker =? OBJECT_END then Ok (None, cursor + 3)
    else Err (fault "AMF0 object has a zero-length key that is not the end marker")
  else
    key_bytes ← ok_or (get_range buf (cursor + 2) (cursor + 2 + key_len)) (fault "AMF0 object key body is truncated");
    if utf8 key_bytes then Ok (Some key_bytes, cursor + (2 + key_len)) else Err (fault "AMF0 object key is not valid UTF-8").

(** [decode], the loop of [decode_pairs] and the loop over a strict array. *)
Fixpoint decode_fuel (fuel : nat) (buf : list Z) : result stop (value * Z) :=
  match fuel with
  | O => Err OutOfFuel
  | S fuel =>
    marker ← ok_or (head buf) (fault "AMF0 value is empty");
    let rest := default [] (get_from buf 1) in
    if marker =? MARKER_NUMBER then
      bytes ← ok_or (get_range rest 0 8) (fault "AMF0 number is truncated");
      Ok (Number (be_value bytes), 9)
    else if marker =? MARKER_BOOLEAN then
      b ← ok_or (head rest) (fault "AMF0 boolean is truncated");
      Ok (Boolean (negb (b =? 0)), 2)
    else if marker =? MARKER_STRING then
      '(s, consumed) ← decode_short_string rest;
      Ok (VString s, 1 + consumed)
    else if marker =? MARKER_LONG_STRING then
      '(s, consumed) ← decode_long_string rest;
      Ok (VString s, 1 + consumed)
    else if marker =? MARKER_OBJECT then
      '(pairs, consumed) ← pairs_fuel fuel rest 0 [];
      Ok (Object pairs, 1 + consumed)
    else if marker =? MARKER_NULL then Ok (Null, 1)
    else if marker =? MARKER_UNDEFINED then Ok (Undefined, 1)
    else if marker =? MARKER_ECMA_ARRAY then
      _ ← ok_or (get_range rest 0 4) (fault "AMF0 ECMA array count is truncated");
      after ← ok_or (get_from rest 4) (fault "AMF0 ECMA array is truncated");
      '(pairs, consumed) ← pairs_fuel fuel after 0 [];
      Ok (EcmaArray pairs, 1 + 4 + consumed)
    else if marker =? MARKER_STRICT_ARRAY then
      count_bytes ← ok_or (get_range rest 0 4) (fault "AMF0 strict array count is truncated");
      '(items, cursor) ← items_fuel fuel rest (be_value count_bytes) 4 [];
      Ok (StrictArray items, 1 + cursor)
    else if marker =? MARKER_DATE then
      bytes ← ok_or (get_range rest 0 8) (fault "AMF0 date is truncated");
      Ok (Date (be_value bytes), 1 + 8 + 2)
    else Err (fault "AMF0 marker byte is unrecognised or unsupported by this crate")
  end
with pairs_fuel (fuel : nat) (buf : list Z) (cursor : Z) (pairs : list (list Z * value)) : result stop (list (list Z * value) * Z) :=
  match fuel with
  | O => Err OutOfFuel
  | S fuel =>
    '(key, cursor) ← decode_key buf cursor;
    match key with
    | None => Ok (pairs, cursor)
    | Some key =>
      tail ← ok_or (get_from buf cursor) (fault "AMF0 object value is truncated");
      '(v, consumed) ← decode_fuel fuel tail;
      pairs_fuel fuel buf (cursor + consumed) (pairs ++ [(key, v)])
    end
  end
with items_fuel (fuel : nat) (rest : list Z) (count cursor : Z) (items : list value) : result stop (list value * Z) :=
  match fuel with
  | O => Err OutOfFuel
  | S fuel =>
    if count =? 0 then Ok (items, cursor)
    else
      tail ← ok_or (get_from rest cursor) (fault "AMF0 strict array is truncated");
      '(v, consumed) ← decode_fuel fuel tail;
      items_fuel fuel rest (count - 1) (cursor + consumed) (items ++ [v])
  end.

Definition enough (buf : list Z) : nat := S (S (length buf)).

Definition decode (buf : list Z) : result stop (value * Z) := decode_fuel (enough buf) buf.

Definition decode_pairs (buf : list Z) : result stop (list (list Z * value) * Z) := pairs_fuel (enough buf) buf 0 [].

(** ** Commands *)

Record command : Type := Command {
  cname : list Z;
  transaction_id : Z;
  command_object : value;
  arguments : list value;
}.

Definition encode_command (c : command) : list Z :=
  encode (VString (cname c)) ++ encode (Number (transaction_id c)) ++ encode (command_object c) ++ concat (map encode (arguments c)).

(** The loop over the arguments. *)
Fixpoint decode_arguments (fuel : nat) (payload : list Z) (cursor : Z) (args : list value) : result stop (list value) :=
  match fuel with
  | O => Err OutOfFuel
  | S fuel =>
    if cursor <? zlen payload then
      '(v, consumed) ← decode (default [] (get_from payload cursor));
      decode_arguments fuel payload (cursor + consumed) (args ++ [v])
    else Ok args
  end.

Definition decode_command (payload : list Z) : result stop command :=
  b ← ok_or (get_from payload 0) (fault "command message is empty");
  '(name_value, consumed) ← decode b;
  let cursor := consumed in
  match name_value with
  | VString name =>
    b ← ok_or (get_from payload cursor) (fault "command message has no transaction ID");
    '(id_value, consumed) ← decode b;
    let cursor := cursor + consumed in
    match id_value with
    | Number id =>
      b ← ok_or (get_from payload cursor) (fault "command message has no command object");
      '(obj, consumed) ← decode b;
      let cursor := cursor + consumed in
      args ← decode_arguments (S (length payload)) payload cursor [];
      Ok (Command name id obj args)
    | _ => Err (fault "command message's transaction ID is not a number")
    end
  | _ => Err (fault "command message does not start with a string command name")
  end.

(** [1.0], [31.0] and [0.0]. *)
Definition ONE : Z := 4607182418800017408.
Definition THIRTY_ONE : Z := 4629418941960159232.

Definition connect (app tc_url : list Z) : command :=
  Command (str "connect") ONE
    (Object [(str "app", VString app); (str "type", VString (str "nonprivate")); (str "tcUrl", VString tc_url)]) [].

Definition connect_result (id : Z) : command :=
  Command (str "_result") id
    (Object [(str "fmsVer", VString (str "VACO/1,0,0,0")); (str "capabilities", Number THIRTY_ONE)])
    [Object [(str "level", VString (str "status")); (str "code", VString (str "NetConnection.Connect.Success"));
             (str "description", VString (str "Connection succeeded."))]].

Definition create_stream (id : Z) : command := Command (str "createStream") id Null [].

Definition create_stream_result (id stream_id : Z) : command := Command (str "_result") id Null [Number stream_id].

Definition publish (stream_name publish_type : list Z) : command :=
  Command (str "publish") 0 Null [VString stream_name; VString publish_type].

Definition on_status_publish_start (stream_name : list Z) : command :=
  Command (str "onStatus") 0 Null
    [Object [(str "level", VString (str "status")); (str "code", VString (str "NetStream.Publish.Start"));
             (str "description", VString (stream_name ++ str " is now published."))]].

Definition play (stream_name : list Z) : command := Command (str "play") 0 Null [VString stream_name].

Definition on_status_play_start (stream_name : list Z) : command :=
  Command (str "onStatus") 0 Null
    [Object [(str "level", VString (str "status")); (str "code", VString (str "NetStream.Play.Start"));
             (str "description", VString (str "Started playing " ++ stream_name ++ str "."))]].

(** ** Induction over values *)

Section value_induction.
Context (P : value -> Prop).
Context (Hnum : forall n, P (Number n)) (Hbool : forall b, P (Boolean b)) (Hstr : forall s, P (VString s)).
Context (Hobj : forall ps, Forall (fun p => P (snd p)) ps -> P (Object ps)) (Hnull : P Null) (Hundef : P Undefined).
Context (Hecma : forall ps, Forall (fun p => P (snd p)) ps -> P (EcmaArray ps)).
Context (Hstrict : forall vs, Forall P vs -> P (StrictArray vs)) (Hdate : forall n, P (Date n)).

Fixpoint value_ind (v : value) : P v :=
  let fix all_pairs (ps : list (list Z * value)) : Forall (fun p => P (snd p)) ps :=
    match ps with [] => Forall_nil_2 _ | p :: ps => Forall_cons_2 _ _ _ (value_ind (snd p)) (all_pairs ps) end in
  let fix all_items (vs : list value) : Forall P vs :=
    match vs with [] => Forall_nil_2 _ | v :: vs => Forall_cons_2 _ _ _ (value_ind v) (all_items vs) end in
  match v with
  | Number n => Hnum n
  | Boolean b => Hbool b
  | VString s => Hstr s
  | Object ps => Hobj ps (all_pairs ps)
  | Null => Hnull
  | Undefined => Hundef
  | EcmaArray ps => Hecma ps (all_pairs ps)
  | StrictArray vs => Hstrict vs (all_items vs)
  | Date n => Hdate n
  end.

End value_induction.

(** ** Values that AMF0 can carry *)

Definition key_ok (k : list Z) : Prop := utf8 k = true /\ 0 < zlen k < 2 ^ 16.

Fixpoint value_ok (v : value) : Prop :=
  match v with
  | Number n | Date n => 0 <= n < 2 ^ 64
  | VString s => utf8 s = true /\ zlen s < 2 ^ 32
  | Object ps | EcmaArray ps => (fix all ps := match ps with [] => True | (k, v) :: ps => key_ok k /\ value_ok v /\ all ps end) ps
  | StrictArray vs => zlen vs < 2 ^ 32 /\ (fix all vs := match vs with [] => True | v :: vs => value_ok v /\ all vs end) vs
  | Boolean _ | Null | Undefined => True
  end.

Definition pairs_ok (ps : list (list Z * value)) : Prop := Forall (fun p => key_ok (fst p) /\ value_ok (snd p)) ps.

Lemma pairs_ok_fix ps :
  (fix all ps := match ps with [] => True | (k, v) :: ps => key_ok k /\ value_ok v /\ all ps end) ps <-> pairs_ok ps.
Proof.
  unfold pairs_ok. induction ps as [|[k v] ps IH]; [by split; [constructor|]|]. rewrite Forall_cons. cbn [fst snd]. tauto.
Qed.

Lemma items_ok_fix vs : (fix all vs := match vs with [] => True | v :: vs => value_ok v /\ all vs end) vs <-> Forall value_ok vs.
Proof. induction vs as [|v vs IH]; [by split; [constructor|]|]. rewrite Forall_cons. tauto. Qed.

(** ** Round trips *)

Lemma decode_short_string_spec s rest : utf8 s = true -> zlen s < 2 ^ 16 ->
  decode_short_string (be_bytes 2 (zlen s) ++ s ++ rest) = Ok (s, 2 + zlen s).
Proof.
  intros Hu Hl. unfold decode_short_string. pose proof (zlen_nonneg s). rewrite get_range_head by (by rewrite zlen_be_bytes). cbn [ok_or mbind result_bind].
  rewrite be_field by (change (256 ^ Z.of_nat 2) with (2 ^ 16); lia).
  rewrite get_range_at by (rewrite zlen_be_bytes; lia). cbn [ok_or mbind result_bind]. by rewrite Hu.
Qed.

Lemma decode_long_string_spec s rest : utf8 s = true -> zlen s < 2 ^ 32 ->
  decode_long_string (be_bytes 4 (zlen s) ++ s ++ rest) = Ok (s, 4 + zlen s).
Proof.
  intros Hu Hl. unfold decode_long_string. pose proof (zlen_nonneg s). rewrite get_range_head by (by rewrite zlen_be_bytes). cbn [ok_or mbind result_bind].
  rewrite be_field by (change (256 ^ Z.of_nat 4) with (2 ^ 32); lia).
  rewrite get_range_at by (rewrite zlen_be_bytes; lia). cbn [ok_or mbind result_bind]. by rewrite Hu.
Qed.

Lemma decode_key_spec pre k rest : key_ok k ->
  decode_key (pre ++ be_bytes 2 (wrap_u 16 (zlen k)) ++ k ++ rest) (zlen pre) = Ok (Some k, zlen pre + (2 + zlen k)).
Proof.
  intros [Hu Hl]. unfold decode_key. rewrite wrap_u_id by lia. rewrite get_range_at by (rewrite ?zlen_be_bytes; lia). cbn [ok_or mbind result_bind].
  rewrite be_field by (change (256 ^ Z.of_nat 2) with (2 ^ 16); lia). rewrite (proj2 (Z.eqb_neq _ 0)) by lia. rewrite app_assoc.
  rewrite get_range_at by (rewrite zlen_app, zlen_be_bytes; lia). cbn [ok_or mbind result_bind]. by rewrite Hu.
Qed.

Lemma decode_key_end pre rest : decode_key (pre ++ [0; 0; OBJECT_END] ++ rest) (zlen pre) = Ok (None, zlen pre + 3).
Proof.
  unfold decode_key. change ([0; 0; OBJECT_END] ++ rest) with ([0; 0] ++ OBJECT_END :: rest).
  rewrite get_range_at by (rewrite ?zlen_cons; change (zlen []) with 0; lia). cbn [ok_or mbind result_bind]. change (be_value [0; 0]) with 0. cbn [Z.eqb].
  replace (Z.to_nat (zlen pre + 2)) with (length (pre ++ [0; 0])) by (rewrite length_app; cbn [length]; unfold zlen; lia).
  rewrite app_assoc, list_lookup_middle by done. done.
Qed.

(** A value's own bytes decode to it, with any fuel beyond their number. *)
Definition decodes (v : value) : Prop :=
  value_ok v -> forall fuel rest, (length (encode v) < fuel)%nat -> decode_fuel fuel (encode v ++ rest) = Ok (v, zlen (encode v)).

Lemma pairs_decode ps : Forall (fun p => decodes (snd p)) ps -> pairs_ok ps ->
  forall fuel pre acc rest, (length (encode_pairs ps) < fuel)%nat ->
  pairs_fuel fuel (pre ++ encode_pairs ps ++ rest) (zlen pre) acc = Ok (acc ++ ps, zlen pre + zlen (encode_pairs ps)).
Proof.
  induction 1 as [|[k v] ps Hv Hps IH]; intros Hok fuel pre acc rest Hf.
  - destruct fuel as [|fuel]; [lia|]. cbn [pairs_fuel]. change (encode_pairs [] ++ rest) with ([0; 0; OBJECT_END] ++ rest).
    rewrite decode_key_end. cbn [mbind result_bind]. by rewrite app_nil_r.
  - apply Forall_cons in Hok as [[Hk Hvk] Hok]. cbn [fst snd] in *. destruct fuel as [|fuel]; [lia|]. cbn [pairs_fuel].
    assert (encode_pairs ((k, v) :: ps) = be_bytes 2 (wrap_u 16 (zlen k)) ++ k ++ encode v ++ encode_pairs ps) as E
      by (unfold encode_pairs, encode_pairs_with; cbn [map concat fst snd]; by rewrite <- !app_assoc).
    rewrite E in *. rewrite !length_app, length_be_bytes in Hf. rewrite <- !app_assoc, decode_key_spec by done. cbn [mbind result_bind].
    set (pre' := pre ++ be_bytes 2 (wrap_u 16 (zlen k)) ++ k).
    replace (pre ++ be_bytes 2 (wrap_u 16 (zlen k)) ++ k ++ encode v ++ encode_pairs ps ++ rest) with (pre' ++ encode v ++ encode_pairs ps ++ rest)
      by (unfold pre'; by rewrite <- !app_assoc).
    assert (zlen pre' = zlen pre + (2 + zlen k)) as Hp by (unfold pre'; rewrite !zlen_app, zlen_be_bytes; lia).
    rewrite (get_from_at pre') by lia. cbn [ok_or mbind result_bind]. rewrite (Hv Hvk) by lia. cbn [mbind result_bind].
    rewrite app_assoc. replace (zlen pre + (2 + zlen k) + zlen (encode v)) with (zlen (pre' ++ encode v)) by (rewrite zlen_app; lia).
    rewrite IH by (done || lia). rewrite <- app_assoc. cbn [app]. f_equal. f_equal. rewrite !zlen_app, zlen_be_bytes, Hp. lia.
Qed.

Lemma items_decode vs : Forall decodes vs -> Forall value_ok vs ->
  forall fuel pre acc rest, (length (concat (map encode vs)) + 1 < fuel)%nat ->
  items_fuel fuel (pre ++ concat (map encode vs) ++ rest) (zlen vs) (zlen pre) acc = Ok (acc ++ vs, zlen pre + zlen (concat (map encode vs))).
Proof.
  induction 1 as [|v vs Hv Hvs IH]; intros Hok fuel pre acc rest Hf.
  - destruct fuel as [|fuel]; [lia|]. cbn [items_fuel]. change (zlen []) with 0. cbn [Z.eqb map concat]. by rewrite app_nil_r, Z.add_0_r.
  - apply Forall_cons in Hok as [Hvk Hok]. destruct fuel as [|fuel]; [lia|]. cbn [items_fuel map concat] in *. rewrite length_app in Hf.
    rewrite zlen_cons. pose proof (zlen_nonneg vs). rewrite (proj2 (Z.eqb_neq _ 0)) by lia. rewrite <- app_assoc.
    rewrite (get_from_at pre) by done. cbn [ok_or mbind result_bind]. rewrite (Hv Hvk) by lia. cbn [mbind result_bind].
    rewrite app_assoc. replace (zlen pre + zlen (encode v)) with (zlen (pre ++ encode v)) by (rewrite zlen_app; lia).
    replace (1 + zlen vs - 1) with (zlen vs) by lia.
    assert (1 <= length (encode v))%nat as Hone by (destruct v; cbn; try lia; unfold encode_string; destruct (checked_u _ _); cbn; lia).
    rewrite IH by (done || lia). rewrite <- app_assoc. cbn [app]. f_equal. f_equal. rewrite !zlen_app. lia.
Qed.

Lemma tail_from (m : Z) l : default [] (get_from (m :: l) 1) = l.
Proof. change (m :: l) with ([m] ++ l). by rewrite (get_from_at [m]). Qed.

(** The first step of the decoder on a marked value. *)
Ltac at_marker :=
  cbn [encode app head ok_or mbind result_bind]; rewrite tail_from;
  unfold MARKER_NUMBER, MARKER_BOOLEAN, MARKER_STRING, MARKER_OBJECT, MARKER_NULL, MARKER_UNDEFINED, MARKER_ECMA_ARRAY,
    MARKER_STRICT_ARRAY, MARKER_DATE, MARKER_LONG_STRING; cbn [Z.eqb Pos.eqb].

Lemma value_decodes v : decodes v.
Proof.
  induction v as [n|b|s|ps IH| | |ps IH|vs IH|n] using value_ind; intros Hok fuel rest Hf; (destruct fuel as [|fuel]; [lia|]); cbn [decode_fuel].
  - at_marker. rewrite get_range_head by by rewrite zlen_be_bytes. cbn [ok_or mbind result_bind]. by rewrite be_field by exact Hok.
  - at_marker. by destruct b.
  - cbn [encode]. destruct Hok as [Hu Hl]. pose proof (zlen_nonneg s). unfold encode_string. destruct (checked_u 16 (zlen s)) as [len|] eqn:Ec.
    + apply checked_u_Some in Ec as [-> Hs]. cbn [app]. rewrite <- app_assoc. at_marker. rewrite decode_short_string_spec by (done || lia).
      cbn [mbind result_bind]. rewrite zlen_cons, zlen_app, zlen_be_bytes. do 2 f_equal.
    + cbn [app]. rewrite <- app_assoc. rewrite wrap_u_id by lia. at_marker. rewrite decode_long_string_spec by (done || lia).
      cbn [mbind result_bind]. rewrite zlen_cons, zlen_app, zlen_be_bytes. do 2 f_equal.
  - cbn [encode] in *. change (encode_pairs_with encode ps) with (encode_pairs ps) in *. cbn [app length] in *. at_marker.
    pose proof (pairs_decode ps IH (proj1 (pairs_ok_fix ps) Hok) fuel [] [] rest ltac:(lia)) as Hp. cbn [app] in Hp. change (zlen []) with 0 in Hp. rewrite Hp.
    cbn [mbind result_bind]. rewrite zlen_cons. do 2 f_equal.
  - at_marker. done.
  - at_marker. done.
  - cbn [encode] in *. change (encode_pairs_with encode ps) with (encode_pairs ps) in *. cbn [app] in *. rewrite <- app_assoc. at_marker.
    rewrite get_range_head by by rewrite zlen_be_bytes. cbn [ok_or mbind result_bind]. rewrite (get_from_at (be_bytes 4 _)) by by rewrite zlen_be_bytes.
    cbn [ok_or mbind result_bind]. cbn [length] in Hf. rewrite length_app, length_be_bytes in Hf.
    pose proof (pairs_decode ps IH (proj1 (pairs_ok_fix ps) Hok) fuel [] [] rest ltac:(lia)) as Hp. cbn [app] in Hp. change (zlen []) with 0 in Hp. rewrite Hp.
    cbn [mbind result_bind]. rewrite zlen_cons, zlen_app, zlen_be_bytes. do 2 f_equal. lia.
  - cbn [encode] in *. destruct Hok as [Hl Hok]. apply items_ok_fix in Hok. pose proof (zlen_nonneg vs). cbn [app] in *. rewrite <- app_assoc. at_marker.
    rewrite get_range_head by by rewrite zlen_be_bytes. cbn [ok_or mbind result_bind]. rewrite be_field by (rewrite wrap_u_id by lia; change (256 ^ Z.of_nat 4) with (2 ^ 32); lia).
    rewrite wrap_u_id by lia. cbn [length] in Hf. rewrite length_app, length_be_bytes in Hf.
    pose proof (items_decode vs IH Hok fuel (be_bytes 4 (zlen vs)) [] rest ltac:(lia)) as Hi. rewrite zlen_be_bytes in Hi. change (Z.of_nat 4) with 4 in Hi. rewrite Hi.
    cbn [mbind result_bind app]. rewrite zlen_cons, zlen_app, zlen_be_bytes. do 2 f_equal.
  - at_marker. rewrite <- app_assoc. rewrite get_range_head by by rewrite zlen_be_bytes. cbn [ok_or mbind result_bind]. by rewrite be_field by exact Hok.
Qed.

(** ** The decoder always returns *)

Definition returns {A : Type} (P : A -> Prop) (r : result stop A) : Prop :=
  match r with Ok a => P a | Err e => e <> OutOfFuel end.

Lemma returns_bind {A B : Type} (P : A -> Prop) (Q : B -> Prop) (r : result stop A) (k : A -> result stop B) :
  returns P r -> (forall a, r = Ok a -> P a -> returns Q (k a)) -> returns Q (r ≫= k).
Proof. destruct r as [a|e]; cbn; intros Hr Hk; [by apply Hk|done]. Qed.

Lemma returns_ok_or {A B : Type} (o : option A) d (Q : B -> Prop) (k : A -> result stop B) :
  (forall a, o = Some a -> returns Q (k a)) -> returns Q (ok_or o (fault d) ≫= k).
Proof. destruct o as [a|]; cbn; intros Hk; [by apply Hk|done]. Qed.

Lemma short_string_returns b : returns (fun r => 0 <= snd r) (decode_short_string b).
Proof.
  unfold decode_short_string. apply returns_ok_or. intros l _. apply returns_ok_or. intros s Hs. destruct (utf8 s); [|done]. cbn [returns snd].
  unfold get_range in Hs. destruct (_ && _) eqn:E in Hs; [|done]. breflect. lia.
Qed.

Lemma long_string_returns b : returns (fun r => 0 <= snd r) (decode_long_string b).
Proof.
  unfold decode_long_string. apply returns_ok_or. intros l _. apply returns_ok_or. intros s Hs. destruct (utf8 s); [|done]. cbn [returns snd].
  unfold get_range in Hs. destruct (_ && _) eqn:E in Hs; [|done]. breflect. lia.
Qed.

Lemma key_returns b c : 0 <= c -> returns (fun r => c + 3 <= snd r) (decode_key b c).
Proof.
  intros Hc. unfold decode_key. apply returns_ok_or. intros l _. destruct (Z.eqb_spec (be_value l) 0) as [E|E].
  - apply returns_ok_or. intros m _. destruct (_ =? _); [|done]. cbn. lia.
  - apply returns_ok_or. intros k Hk. destruct (utf8 k); [|done]. cbn [returns snd].
    unfold get_range in Hk. destruct (_ && _) eqn:E2 in Hk; [|done]. breflect. lia.
Qed.

(** Enough fuel for what is left: the decoder of values, the loop over pairs and the
    loop over items. *)
Lemma fuel_enough fuel :
  (forall b, (length b < fuel)%nat -> returns (fun r => 1 <= snd r) (decode_fuel fuel b)) /\
  (forall b c acc, 0 <= c -> zlen b - c < Z.of_nat fuel -> (0 < fuel)%nat -> returns (fun r => c <= snd r) (pairs_fuel fuel b c acc)) /\
  (forall b n c acc, 0 <= c -> zlen b - c + 1 < Z.of_nat fuel -> (0 < fuel)%nat -> returns (fun r => c <= snd r) (items_fuel fuel b n c acc)).
Proof.
  induction fuel as [|fuel (IHd & IHp & IHi)]; [by repeat split; intros; lia|]. split; [|split].
  - intros b Hb. cbn [decode_fuel]. apply returns_ok_or. intros m Hm. destruct b as [|m' b]; [done|]. injection Hm as ->. rewrite tail_from.
    cbn [length] in Hb. repeat match goal with |- returns _ (if ?x then _ else _) => destruct x end;
      try (apply returns_ok_or; intros; cbn; lia); try (cbn; lia); try done.
    + eapply returns_bind; [apply short_string_returns|]. intros [s c] _ Hc. cbn in *. lia.
    + eapply returns_bind; [apply long_string_returns|]. intros [s c] _ Hc. cbn in *. lia.
    + destruct fuel as [|fuel']; [lia|]. eapply returns_bind; [apply (IHp b 0 []); unfold zlen; lia|]. intros [s c] _ Hc. cbn in *. lia.
    + apply returns_ok_or. intros k Hk. apply get_range_length in Hk. apply returns_ok_or. intros a Ha. apply get_from_Some in Ha as [Hl ->].
      destruct fuel as [|fuel']; [lia|]. eapply returns_bind; [apply IHp; [lia| |lia]; rewrite zlen_drop by lia; unfold zlen; lia|]. intros [s c] _ Hc. cbn in *. lia.
    + apply returns_ok_or. intros k Hk. apply get_range_length in Hk. unfold zlen in Hk.
      eapply returns_bind; [apply (IHi b (be_value k) 4 []); unfold zlen; lia|]. intros [s c] _ Hc. cbn in *. lia.
  - intros b c acc Hc Hf _. cbn [pairs_fuel]. eapply returns_bind; [by apply key_returns|]. intros [k c'] _ Hc'. cbn [snd] in Hc'.
    destruct k as [k|]; [|cbn; lia]. apply returns_ok_or. intros t Ht. apply get_from_Some in Ht as [Hl ->].
    eapply returns_bind; [apply IHd; rewrite length_drop; unfold zlen in *; lia|]. intros [v n] _ Hn. cbn [snd] in Hn.
    assert (returns (fun r => c' + n <= snd r) (pairs_fuel fuel b (c' + n) (acc ++ [(k, v)]))) as H by (apply IHp; lia).
    destruct (pairs_fuel _ _ _ _) as [[? ?]|]; [cbn in *; lia|done].
  - intros b n c acc Hc Hf _. cbn [items_fuel]. destruct (n =? 0); [cbn; lia|]. apply returns_ok_or. intros t Ht. apply get_from_Some in Ht as [Hl ->].
    eapply returns_bind; [apply IHd; rewrite length_drop; unfold zlen in *; lia|]. intros [v m] _ Hm. cbn [snd] in Hm.
    assert (returns (fun r => c + m <= snd r) (items_fuel fuel b (n - 1) (c + m) (acc ++ [v]))) as H by (apply IHi; lia).
    destruct (items_fuel _ _ _ _ _) as [[? ?]|]; [cbn in *; lia|done].
Qed.

Lemma decode_returns b : returns (fun r => 1 <= snd r) (decode b).
Proof. apply fuel_enough. unfold enough. lia. Qed.

Lemma arguments_return fuel p c args : 0 <= c -> zlen p - c < Z.of_nat fuel -> (0 < fuel)%nat -> returns (fun _ => True) (decode_arguments fuel p c args).
Proof.
  revert c args. induction fuel as [|fuel IH]; intros c args Hc Hf H0; [lia|]. cbn [decode_arguments]. destruct (Z.ltb_spec c (zlen p)); [|done].
  eapply returns_bind; [apply decode_returns|]. intros [v n] _ Hn. cbn [snd] in Hn. apply IH; lia.
Qed.

(** Decoding AMF0 ends. On every sequence of bytes, of any nesting and any
    claimed count of items, the decoders of values and of commands return a value or
    an error of their own, and a value takes at least one byte. *)
Theorem amf0_decoders_return b :
  returns (fun r => 1 <= snd r) (decode b) /\ returns (fun r => 0 <= snd r) (decode_pairs b) /\ returns (fun _ => True) (decode_command b).
Proof.
  split; [apply decode_returns|]. split; [apply fuel_enough; unfold enough, zlen; lia|]. unfold decode_command.
  apply returns_ok_or. intros x _. eapply returns_bind; [apply decode_returns|]. intros [v n] _ Hn. cbn [snd] in Hn. destruct v; try done.
  apply returns_ok_or. intros y _. eapply returns_bind; [apply decode_returns|]. intros [v n2] _ Hn2. cbn [snd] in Hn2. destruct v; try done.
  apply returns_ok_or. intros z _. eapply returns_bind; [apply decode_returns|]. intros [v n3] _ Hn3. cbn [snd] in Hn3.
  eapply returns_bind; [|done]. apply arguments_return; unfold zlen; lia.
Qed.

(** ** Commands *)

Lemma encode_nonempty v : 1 <= zlen (encode v).
Proof. unfold zlen. destruct v; cbn; try lia. unfold encode_string. destruct (checked_u _ _); cbn; lia. Qed.

Lemma value_roundtrip v rest : value_ok v -> decode (encode v ++ rest) = Ok (v, zlen (encode v)).
Proof. intros Hv. apply value_decodes; [done|]. unfold enough. rewrite length_app. lia. Qed.

Lemma arguments_decode args fuel pre acc : Forall value_ok args -> (length (concat (map encode args)) < fuel)%nat ->
  decode_arguments fuel (pre ++ concat (map encode args)) (zlen pre) acc = Ok (acc ++ args).
Proof.
  intros Hok. revert fuel pre acc. induction Hok as [|v args Hv Hok IH]; intros fuel pre acc Hf; (destruct fuel as [|fuel]; [lia|]); cbn [decode_arguments map concat].
  - by rewrite !app_nil_r, Z.ltb_irrefl.
  - pose proof (encode_nonempty v). cbn [map concat] in Hf. rewrite length_app in Hf. unfold zlen in H. rewrite (proj2 (Z.ltb_lt _ _)) by (rewrite !zlen_app; pose proof (zlen_nonneg (concat (map encode args))); unfold zlen in *; lia).
    rewrite (get_from_at pre) by done. cbn [default from_option id]. rewrite value_roundtrip by done. cbn [mbind result_bind].
    rewrite app_assoc, <- zlen_app, IH by lia. by rewrite <- app_assoc.
Qed.

Definition command_ok (c : command) : Prop :=
  value_ok (VString (cname c)) /\ 0 <= transaction_id c < 2 ^ 64 /\ value_ok (command_object c) /\ Forall value_ok (arguments c).

(** C26. AMF0 values and commands survive the wire. A value whose keys are not empty
    and whose strings, keys and arrays fit their length fields decodes to itself from
    its own bytes, whatever follows, and reports exactly those bytes; a command made
    of such values - every one of the named commands among them - decodes to
    itself. *)
Theorem amf0_roundtrip v c rest :
  value_ok v -> command_ok c ->
  decode (encode v ++ rest) = Ok (v, zlen (encode v)) /\ decode_command (encode_command c) = Ok c.
Proof.
  intros Hv (Hn & Hid & Ho & Ha). split; [by apply value_roundtrip|]. unfold decode_command, encode_command.
  set (n := encode (VString (cname c))). set (i := encode (Number (transaction_id c))). set (o := encode (command_object c)). set (a := concat (map encode (arguments c))).
  assert (forall r, decode (n ++ r) = Ok (VString (cname c), zlen n)) as Dn by (intros; by apply value_roundtrip).
  assert (forall r, decode (i ++ r) = Ok (Number (transaction_id c), zlen i)) as Di by (intros; by apply value_roundtrip).
  assert (forall r, decode (o ++ r) = Ok (command_object c, zlen o)) as Do by (intros; by apply value_roundtrip).
  rewrite (get_from_at [] (n ++ i ++ o ++ a)) by done. cbn [ok_or mbind result_bind]. rewrite Dn. cbn [mbind result_bind].
  rewrite (get_from_at n) by done. cbn [ok_or mbind result_bind]. rewrite Di. cbn [mbind result_bind].
  rewrite app_assoc, (get_from_at (n ++ i)) by by rewrite zlen_app. cbn [ok_or mbind result_bind]. rewrite Do. cbn [mbind result_bind].
  rewrite app_assoc. replace (zlen n + zlen i + zlen o) with (zlen ((n ++ i) ++ o)) by (rewrite !zlen_app; lia).
  unfold a. rewrite arguments_decode; [|done|rewrite !length_app; lia]. cbn [mbind result_bind app]. by destruct c.
Qed.

(** Closed values: every field computed. *)
Ltac ok_value :=
  repeat match goal with
  | |- _ /\ _ => split
  | |- True => exact I
  | |- Forall _ [] => constructor
  | |- Forall _ (_ :: _) => constructor
  | |- value_ok _ => cbn [value_ok]
  | |- key_ok _ => unfold key_ok
  | |- _ => assumption
  | |- utf8 _ = true => vm_compute; reflexivity
  | |- _ <= _ => first [lia | vm_compute; congruence]
  | |- _ < _ => first [lia | vm_compute; reflexivity]
  end.

Lemma amf0_roundtrip_witness :
  decode (encode (StrictArray [Null; Boolean true]) ++ [1; 2]) = Ok (StrictArray [Null; Boolean true], 8) /\
  decode_command (encode_command (connect (str "live") (str "rtmp://example.test/live"))) = Ok (connect (str "live") (str "rtmp://example.test/live")).
Proof.
  refine (amf0_roundtrip (StrictArray [Null; Boolean true]) (connect (str "live") (str "rtmp://example.test/live")) [1; 2] _ _).
  - ok_value.
  - unfold command_ok, connect. cbn [cname transaction_id command_object arguments]. ok_value.
Defined.

(** Every named command can be carried. *)
Lemma named_commands_ok name kind id id2 :
  utf8 name = true -> zlen name < 2 ^ 32 - 64 -> utf8 kind = true -> zlen kind < 2 ^ 32 -> 0 <= id < 2 ^ 64 -> 0 <= id2 < 2 ^ 64 ->
  Forall command_ok [connect name kind; connect_result id; create_stream id; create_stream_result id id2; publish name kind; play name].
Proof.
  intros Hn Hnl Hk Hkl Hi Hi2.
  repeat (constructor; [unfold command_ok, connect, connect_result, create_stream, create_stream_result, publish, play;
    cbn [cname transaction_id command_object arguments]; ok_value|]). constructor.
Qed.

Lemma utf8_app a b : utf8 a = true -> utf8 (a ++ b) = utf8 b.
Proof.
  induction a as [a IH] using (well_founded_induction (Wf_nat.well_founded_ltof _ (@length Z))). unfold Wf_nat.ltof in IH.
  destruct a as [|x a]; [done|]. cbn [utf8 app]. destruct (x <? 128); [apply IH; cbn; lia|].
  destruct a as [|y a]; [done|]. cbn [app]. destruct (_ && _).
  { intros [-> H]%andb_true_iff. cbn [andb]. by apply IH; [cbn; lia|]. }
  destruct a as [|z a]; [done|]. cbn [app]. destruct (_ && _).
  { rewrite !andb_true_iff. intros [[[-> ->] ->] H]. cbn [andb]. by apply IH; [cbn; lia|]. }
  destruct a as [|w a]; [done|]. cbn [app]. destruct (_ && _); [|done].
  rewrite !andb_true_iff. intros [[[[-> ->] ->] ->] H]. cbn [andb]. by apply IH; [cbn; lia|].
Qed.

Lemma status_commands_ok name : utf8 name = true -> zlen name < 2 ^ 32 - 64 ->
  Forall command_ok [on_status_publish_start name; on_status_play_start name].
Proof.
  intros Hn Hl. pose proof (zlen_nonneg name).
  assert (utf8 (name ++ str " is now published.") = true) as H1 by (rewrite utf8_app by done; by vm_compute).
  assert (utf8 (str "Started playing " ++ name ++ str ".") = true) as H2 by (rewrite utf8_app, utf8_app by (done || by vm_compute); by vm_compute).
  assert (zlen (name ++ str " is now published.") < 2 ^ 32) as H3 by (rewrite zlen_app; change (zlen (str " is now published.")) with 18; lia).
  assert (zlen (str "Started playing " ++ name ++ str ".") < 2 ^ 32) as H4.
  { rewrite !zlen_app. change (zlen (str "Started playing ")) with 16. change (zlen (str ".")) with 1. lia. }
  repeat (constructor; [unfold command_ok, on_status_publish_start, on_status_play_start;
    cbn [cname transaction_id command_object arguments]; ok_value|]). constructor.
Qed.

(** ** What the code does not promise *)

(** A date cut short before its time zone is accepted, and more bytes are reported
    consumed than there are. *)
Lemma truncated_date_accepted : decode [11; 0; 0; 0; 0; 0; 0; 0; 0] = Ok (Date 0, 11).
Proof. by vm_compute. Qed.

(** An object with an empty key is encoded as bytes that do not decode; a key of
    2^16 bytes is written with the length of an empty one. *)
Lemma empty_key_lost :
  decode (encode (Object [([], Null)])) = Err (fault "AMF0 object has a zero-length key that is not the end marker") /\
  forall k v, zlen k = 2 ^ 16 -> encode (Object [(k, v)]) = [3; 0; 0] ++ k ++ encode v ++ [0; 0; 9].
Proof.
  split; [by vm_compute|]. intros k v Hk. cbn [encode]. unfold encode_pairs_with. cbn [map concat fst snd]. rewrite Hk, app_nil_r.
  change (be_bytes 2 (wrap_u 16 (2 ^ 16))) with [0; 0]. cbn [app]. by rewrite <- !app_assoc.
Qed.

(** [n] arrays inside each other take [5 n + 1] bytes, and the decoder calls itself
    [n] times deep for them; nothing bounds [n] but the message. *)
Definition nested (n : nat) : value := Nat.iter n (fun v => StrictArray [v]) Null.

Lemma nesting_unbounded n : zlen (encode (nested n)) = 5 * Z.of_nat n + 1 /\ decode (encode (nested n)) = Ok (nested n, 5 * Z.of_nat n + 1).
Proof.
  assert (value_ok (nested n)) as Hok by (induction n; [done|]; split; [vm_compute; reflexivity|by split]).
  assert (zlen (encode (nested n)) = 5 * Z.of_nat n + 1) as Hl.
  { clear Hok. induction n as [|n IH]; [done|]. change (nested (S n)) with (StrictArray [nested n]). cbn [encode map concat]. rewrite app_nil_r, !zlen_app, zlen_be_bytes.
    change (zlen [MARKER_STRICT_ARRAY]) with 1. lia. }
  split; [done|]. pose proof (value_roundtrip (nested n) [] Hok) as H. by rewrite app_nil_r, Hl in H.
Qed.
