(* ===== verification/FilterFormat.v ===== *)
(** * FilterFormat: what a filter link carries

    [src/crates/filter/vaco-filter-core/src] ([lib.rs], [link.rs],
    [negotiate.rs]): the formats of a link, the constraints a pad puts on them,
    and the algebra of those constraints that negotiation folds. Sample formats
    and channel layouts are those of [src/crates/model/vaco-sampfmt] and
    [vaco-chlayout], pixel formats those of [PixFmt]. A channel is its
    identifier, a label its kept bytes, and a colour code point its number.
    Node, link and pad numbers are positions; the [as u32] casts keep them while
    an arena has fewer than 2^32 entries. *)

From Stdlib Require Import ZArith Lia.
From stdpp Require Import prelude strings.
From S2P Require Import Prelude Rational Time Error PixFmt.

(** [iter().enumerate()]. *)
Definition enumerate {A} (l : list A) : list (nat * A) := imap pair l.

(** ** Media, samples, channels, colour *)

Inductive media_type : Type := Video | Audio | Subtitle | Data | Attachment.

Inductive sample_fmt : Type :=
  | U8 | S16 | S32 | S64 | F32 | F64 | U8P | S16P | S32P | S64P | F32P | F64P.

Abbreviation channel_entry := (Z * option (list Z))%type.

Inductive channel_order : Type :=
  | OUnspecified
  | ONative
  | OCustom (map : list channel_entry)
  | OAmbisonic (order : Z) (extra : list channel_entry).

Record channel_layout : Type := ChannelLayout { channels : Z; order : channel_order; mask : Z }.

Definition unspecified (channels : Z) : channel_layout := ChannelLayout channels OUnspecified 0.

Record color_info : Type := ColorInfo {
  primaries : Z; transfer : Z; matrix : Z; range : Z; chroma_location : Z }.

(** The default code points: 2 is "unspecified" in H.273's three tables, and the
    first variant of the two enums vaco declares itself. *)
Definition color_default : color_info := ColorInfo 2 2 2 0 0.

#[export] Instance media_type_eq_dec : EqDecision media_type.
Proof. solve_decision. Defined.
#[export] Instance sample_fmt_eq_dec : EqDecision sample_fmt.
Proof. solve_decision. Defined.
#[export] Instance channel_order_eq_dec : EqDecision channel_order.
Proof. solve_decision. Defined.
#[export] Instance channel_layout_eq_dec : EqDecision channel_layout.
Proof. solve_decision. Defined.
#[export] Instance color_info_eq_dec : EqDecision color_info.
Proof. solve_decision. Defined.

(** ** Nodes, links and pads *)

Abbreviation node_id := nat.
Abbreviation link_id := nat.

Inductive direction : Type := Input | Output.

Record pad_ref : Type := PadRef { pnode : node_id; pdirection : direction; ppad : nat }.

Definition pad_input (node : node_id) (pad : nat) : pad_ref := PadRef node Input pad.
Definition pad_output (node : node_id) (pad : nat) : pad_ref := PadRef node Output pad.

#[export] Instance direction_eq_dec : EqDecision direction.
Proof. solve_decision. Defined.
#[export] Instance pad_ref_eq_dec : EqDecision pad_ref.
Proof. solve_decision. Defined.

(** ** Constraints *)

Inductive constraint (T : Type) : Type :=
  | Any
  | OneOf (values : list T)
  | Exact (value : T).
Arguments Any {T}.
Arguments OneOf {T} _.
Arguments Exact {T} _.

#[export] Instance constraint_eq_dec {T} `{EqDecision T} : EqDecision (constraint T).
Proof. solve_decision. Defined.

Section constraint.
Context {T : Type} `{EqDecision T}.

Definition contains (values : list T) (t : T) : bool := bool_decide (t ∈ values).

Definition intersect (s o : constraint T) : option (constraint T) :=
  match s, o with
  | Any, o => Some o
  | s, Any => Some s
  | Exact a, Exact b => if bool_decide (a = b) then Some (Exact a) else None
  | Exact a, OneOf b => if contains b a then Some (Exact a) else None
  | OneOf a, Exact b => if contains a b then Some (Exact b) else None
  | OneOf a, OneOf b =>
    match List.filter (contains b) a with
    | [] => None
    | [x] => Some (Exact x)
    | kept => Some (OneOf kept)
    end
  end.

Definition allows (c : constraint T) (value : T) : bool :=
  match c with
  | Any => true
  | Exact t => bool_decide (t = value)
  | OneOf v => contains v value
  end.

Definition resolved (c : constraint T) : option T :=
  match c with
  | Exact t => Some t
  | OneOf [t] => Some t
  | _ => None
  end.

Definition candidates (c : constraint T) : list T :=
  match c with
  | Any => []
  | Exact t => [t]
  | OneOf v => v
  end.

Definition is_empty (c : constraint T) : bool :=
  match c with OneOf [] => true | _ => false end.

Definition normalised (c : constraint T) : constraint T :=
  match c with
  | OneOf [t] => Exact t
  | other => other
  end.

(** [merge], on the properties two sets may leave unsaid. The error, the
    property's name, is the caller's. *)
Definition merge (a b : option (constraint T)) : option (option (constraint T)) :=
  match a, b with
  | None, None => Some None
  | Some x, None | None, Some x => Some (Some x)
  | Some x, Some y => Some <$> intersect x y
  end.

Definition first_of (c : option (constraint T)) : option (constraint T) :=
  match c with
  | None => None
  | Some Any => Some Any
  | Some other => Exact <$> head (candidates other)
  end.

Definition unconstrained (c : option (constraint T)) : bool :=
  match c with None | Some Any => true | _ => false end.

(** What a pad says about a value: no word allows everything. *)
Definition permits (c : option (constraint T)) (v : T) : bool :=
  match c with None => true | Some c => allows c v end.

End constraint.

(** ** Sets of formats *)

Inductive property : Type := PixelFormat | SampleFormat | SampleRate | ChannelLayoutP.

#[export] Instance property_eq_dec : EqDecision property.
Proof. solve_decision. Defined.

Definition PROPERTIES : list property := [PixelFormat; SampleFormat; SampleRate; ChannelLayoutP].

Definition for_media (media : media_type) : list property :=
  match media with
  | Video => [PixelFormat]
  | Audio => [SampleFormat; SampleRate; ChannelLayoutP]
  | _ => []
  end.

Definition property_name (p : property) : string :=
  match p with
  | PixelFormat => "pix_fmt"
  | SampleFormat => "sample_fmt"
  | SampleRate => "sample_rate"
  | ChannelLayoutP => "channel_layout"
  end.

Definition value_of (p : property) : Type :=
  match p with
  | PixelFormat => pix_fmt
  | SampleFormat => sample_fmt
  | SampleRate => Z
  | ChannelLayoutP => channel_layout
  end.

#[export] Instance value_of_eq_dec p : EqDecision (value_of p).
Proof. destruct p; cbn; apply _. Defined.

Record format_set : Type := FormatSet {
  pixel_formats : option (constraint pix_fmt);
  sample_formats : option (constraint sample_fmt);
  sample_rates : option (constraint Z);
  channel_layouts : option (constraint channel_layout) }.

#[export] Instance format_set_eq_dec : EqDecision format_set.
Proof. solve_decision. Defined.

Definition set_default : format_set := FormatSet None None None None.

(** [FormatSet::get]: the [AnyConstraint] of a property. *)
Definition get_property (s : format_set) (p : property) : option (constraint (value_of p)) :=
  match p with
  | PixelFormat => pixel_formats s
  | SampleFormat => sample_formats s
  | SampleRate => sample_rates s
  | ChannelLayoutP => channel_layouts s
  end.

Definition set_property (s : format_set) (p : property)
    : option (constraint (value_of p)) -> format_set :=
  match p with
  | PixelFormat => fun c => FormatSet c (sample_formats s) (sample_rates s) (channel_layouts s)
  | SampleFormat => fun c => FormatSet (pixel_formats s) c (sample_rates s) (channel_layouts s)
  | SampleRate => fun c => FormatSet (pixel_formats s) (sample_formats s) c (channel_layouts s)
  | ChannelLayoutP => fun c => FormatSet (pixel_formats s) (sample_formats s) (sample_rates s) c
  end.

(** [intersect_detailed]: the first property that cannot be met is the error. *)
Definition intersect_detailed (a b : format_set) : result property format_set :=
  pf ← ok_or (merge (pixel_formats a) (pixel_formats b)) PixelFormat;
  sf ← ok_or (merge (sample_formats a) (sample_formats b)) SampleFormat;
  sr ← ok_or (merge (sample_rates a) (sample_rates b)) SampleRate;
  cl ← ok_or (merge (channel_layouts a) (channel_layouts b)) ChannelLayoutP;
  Ok (FormatSet pf sf sr cl).

Definition set_intersect (a b : format_set) : option format_set :=
  match intersect_detailed a b with Ok s => Some s | Err _ => None end.

Definition video_exact (format : pix_fmt) : format_set :=
  FormatSet (Some (Exact format)) None None None.

Definition video_list (formats : list pix_fmt) : format_set :=
  FormatSet (Some (normalised (OneOf formats))) None None None.

Definition audio_exact (format : sample_fmt) (rate : Z) (layout : channel_layout) : format_set :=
  FormatSet None (Some (Exact format)) (Some (Exact rate)) (Some (Exact layout)).

Definition says_one {T} (c : option (constraint T)) : bool :=
  match c with None => true | Some c => bool_decide (is_Some (resolved c)) end.

Definition is_resolved (s : format_set) : bool :=
  forallb (fun p => says_one (get_property s p)) PROPERTIES.

(** [merge_property], [pick] and [install] touch one property and leave the
    others alone. *)
Definition merge_property (a b : format_set) (p : property) : option format_set :=
  set_property a p <$> merge (get_property a p) (get_property b p).

Definition pick_format (s : format_set) (p : property) : format_set :=
  set_property s p (first_of (get_property s p)).

Definition install (target source : format_set) (p : property) : format_set :=
  set_property target p (get_property source p).

(** ** Link formats *)

Inductive link_format : Type :=
  | LVideo (format : pix_fmt) (width height : Z) (time_base frame_rate aspect : rational)
      (color : color_info)
  | LAudio (format : sample_fmt) (sample_rate : Z) (layout : channel_layout) (time_base : rational).

Definition unconfigured (media : media_type) : link_format :=
  if bool_decide (media = Audio) then LAudio S16 0 (unspecified 0) UNDEFINED
  else LVideo Yuv420p 0 0 UNDEFINED UNDEFINED ONE color_default.

Definition format_media (f : link_format) : media_type :=
  match f with LVideo _ _ _ _ _ _ _ => Video | LAudio _ _ _ _ => Audio end.

Definition format_time_base (f : link_format) : rational :=
  match f with LVideo _ _ _ tb _ _ _ | LAudio _ _ _ tb => tb end.

Definition set_time_base (f : link_format) (tb : rational) : link_format :=
  match f with
  | LVideo pf w h _ fr sar c => LVideo pf w h tb fr sar c
  | LAudio sf sr cl _ => LAudio sf sr cl tb
  end.

Definition is_usable (f : link_format) : bool :=
  let tb := format_time_base f in
  if negb (is_defined tb) || is_zero tb then false
  else match f with
       | LVideo _ w h _ _ _ _ => negb (w =? 0) && negb (h =? 0)
       | LAudio _ sr cl _ => negb (sr =? 0) && negb (channels cl =? 0)
       end.

(** [and_then(Constraint::resolved)], over the value already there. *)
Definition settled {T} (c : option (constraint T)) (old : T) : T := default old (c ≫= resolved).

Definition apply_set (f : link_format) (s : format_set) : link_format :=
  match f with
  | LVideo pf w h tb fr sar c => LVideo (settled (pixel_formats s) pf) w h tb fr sar c
  | LAudio sf sr cl tb =>
    LAudio (settled (sample_formats s) sf) (settled (sample_rates s) sr)
      (settled (channel_layouts s) cl) tb
  end.

Definition to_format_set (f : link_format) : format_set :=
  match f with
  | LVideo pf _ _ _ _ _ _ => video_exact pf
  | LAudio sf sr cl _ => audio_exact sf sr cl
  end.

(** ** The algebra of constraints *)

Section laws.
Context {T : Type} `{EqDecision T}.

Lemma contains_spec (l : list T) t : contains l t = true <-> t ∈ l.
Proof. apply bool_decide_eq_true. Qed.

Lemma filter_contains (a b : list T) t : t ∈ List.filter (contains b) a <-> t ∈ a /\ t ∈ b.
Proof. by rewrite list_elem_of_In, filter_In, contains_spec, <- list_elem_of_In. Qed.

(** A constraint is the set of the values it allows, and [intersect] is the
    intersection: it fails exactly when the two have no value in common. *)
Lemma intersect_spec (a b : constraint T) v :
  match intersect a b with
  | Some c => allows c v = allows a v && allows b v
  | None => allows a v && allows b v = false
  end.
Proof.
  assert (Hbool : forall x y : bool, (x = true <-> y = true) -> x = y)
    by (intros [] []; intuition congruence).
  destruct a as [|la|x], b as [|lb|y]; cbn [intersect allows]; rewrite ?andb_true_r; try done.
  - pose proof (filter_contains la lb) as Hf. destruct (List.filter (contains lb) la) as [|x [|y k]].
    + apply not_true_is_false. rewrite andb_true_iff, !contains_spec, <- Hf. set_solver.
    + apply Hbool. cbn [allows]. rewrite bool_decide_eq_true, andb_true_iff, !contains_spec, <- Hf.
      set_solver.
    + apply Hbool. cbn [allows]. by rewrite andb_true_iff, !contains_spec, <- Hf.
  - destruct (contains la y) eqn:E; cbn [allows]; destruct (bool_decide_reflect (y = v)) as [<-|];
      rewrite ?E, ?andb_false_r; done.
  - destruct (contains lb x) eqn:E; cbn [allows]; destruct (bool_decide_reflect (x = v)) as [<-|];
      rewrite ?E; done.
  - destruct (bool_decide_reflect (x = y)) as [<-|Hn]; cbn [allows].
    + by rewrite andb_diag.
    + destruct (bool_decide_reflect (x = v)) as [<-|]; [|done]. rewrite bool_decide_false by congruence. done.
Qed.

Lemma merge_spec (a b : option (constraint T)) v :
  match merge a b with
  | Some c => permits c v = permits a v && permits b v
  | None => permits a v && permits b v = false
  end.
Proof.
  destruct a as [a|], b as [b|]; cbn [merge permits]; rewrite ?andb_true_r; try done.
  pose proof (intersect_spec a b v). by destruct (intersect a b).
Qed.

Lemma first_of_spec (c : option (constraint T)) v :
  first_of c = Some (Exact v) -> permits c v = true.
Proof.
  destruct c as [[|[|x l]|x]|]; try done; intros [= <-]; cbn [permits allows].
  - apply contains_spec. set_solver.
  - by apply bool_decide_eq_true.
Qed.

(** A picked constraint that says anything says exactly one value. *)
Lemma first_of_exact (c : option (constraint T)) :
  unconstrained (first_of c) = false -> exists v, first_of c = Some (Exact v).
Proof. destruct c as [[|[|x l]|x]|]; cbn; naive_solver. Qed.

End laws.

Lemma get_set_property s p c : get_property (set_property s p c) p = c.
Proof. by destruct p. Qed.

Lemma get_set_other s p q c :
  p <> q -> get_property (set_property s p c) q = get_property s q.
Proof. by destruct p, q. Qed.

Lemma merge_property_spec a b p v :
  match merge_property a b p with
  | Some c => permits (get_property c p) v = permits (get_property a p) v && permits (get_property b p) v
  | None => permits (get_property a p) v && permits (get_property b p) v = false
  end.
Proof.
  unfold merge_property. pose proof (merge_spec (get_property a p) (get_property b p) v) as H.
  destruct (merge _ _); cbn [fmap option_fmap option_map]; [by rewrite get_set_property|done].
Qed.

(** Two sets intersect to the pairs of values both permit, property by
    property, and fail naming a property on which they permit none. *)
Lemma intersect_detailed_spec a b :
  match intersect_detailed a b with
  | Ok c => forall p v, permits (get_property c p) v =
      permits (get_property a p) v && permits (get_property b p) v
  | Err p => forall v, permits (get_property a p) v && permits (get_property b p) v = false
  end.
Proof.
  unfold intersect_detailed.
  pose proof (merge_spec (pixel_formats a) (pixel_formats b)) as H1.
  pose proof (merge_spec (sample_formats a) (sample_formats b)) as H2.
  pose proof (merge_spec (sample_rates a) (sample_rates b)) as H3.
  pose proof (merge_spec (channel_layouts a) (channel_layouts b)) as H4.
  destruct (merge (pixel_formats a) _); cbn [ok_or mbind result_bind]; [|exact H1].
  destruct (merge (sample_formats a) _); cbn [ok_or mbind result_bind]; [|exact H2].
  destruct (merge (sample_rates a) _); cbn [ok_or mbind result_bind]; [|exact H3].
  destruct (merge (channel_layouts a) _); cbn [ok_or mbind result_bind]; [|exact H4].
  intros [] v; cbn [get_property pixel_formats sample_formats sample_rates channel_layouts];
    [apply H1|apply H2|apply H3|apply H4].
Qed.

(** Applying a link's own formats to it changes nothing. *)
Lemma apply_to_format_set f : apply_set f (to_format_set f) = f.
Proof. by destruct f. Qed.
