(* ===== verification/FilterLink.v ===== *)
(** * FilterLink: the queues between filters, and what a filter may do to them

    [src/crates/filter/vaco-filter-core/src/link.rs], [context.rs] and the
    [Filter] trait of [lib.rs]. A link is a bounded queue that ends: an end of
    stream is ordered behind the queue and never taken back. A filter reaches
    links only through its context, so one activation is a program over the
    context's operations, and whatever it does is a path of link operations.

    What the frames hold besides their format, time stamp and time base (planes,
    duration, side data) is carried untouched: the parameter [P]. *)

From Stdlib Require Import ZArith Lia.
From stdpp Require Import prelude strings.
From S2P Require Import Prelude Bits Rational Time Error PixFmt FilterFormat.

(** ** Frames *)

Inductive frame_data : Type :=
  | DVideo (format : pix_fmt) (width height : Z)
  | DAudio (format : sample_fmt) (sample_rate samples : Z) (layout : channel_layout)
  | DSubtitle.

#[export] Instance frame_data_eq_dec : EqDecision frame_data.
Proof. solve_decision. Defined.

Record frame {P : Type} : Type := Frame {
  data : frame_data;
  fpts : timestamp;
  fbase : rational;
  rest : P }.
Arguments frame : clear implicits.
Arguments Frame {P} _ _ _ _.

(** [LinkFormat::accepts]. *)
Definition accepts {P} (l : link_format) (f : frame P) : bool :=
  match l, data f with
  | LVideo pf w h _ _ _ _, DVideo ff fw fh => bool_decide (pf = ff) && (w =? fw) && (h =? fh)
  | LAudio sf sr cl _, DAudio ff fr _ fl =>
    bool_decide (sf = ff) && (sr =? fr) && bool_decide (cl = fl)
  | _, _ => false
  end.

(** ** Links *)

Inductive status : Type := SEof | SFailed.

#[export] Instance status_eq_dec : EqDecision status.
Proof. solve_decision. Defined.

Definition is_eof (s : status) : bool := match s with SEof => true | SFailed => false end.
Definition is_failure (s : status) : bool := match s with SFailed => true | SEof => false end.

Definition DEFAULT_QUEUE_DEPTH : Z := 8.

Record link_stats : Type := LinkStats { frames : Z; nsamples : Z; peak_depth : Z; blocked : Z }.

Definition stats_default : link_stats := LinkStats 0 0 0 0.

Record link {P : Type} : Type := Link {
  src : pad_ref;
  dst : pad_ref;
  media : media_type;
  format : link_format;
  configured : bool;
  queue : list (frame P);
  capacity : Z;
  lstatus : option status;
  eof_seen : bool;
  end_pts : timestamp;
  wanted : bool;
  stats : link_stats;
  epoch : Z }.
Arguments link : clear implicits.
Arguments Link {P} _ _ _ _ _ _ _ _ _ _ _ _ _.

(** [Rejected]: the error and the frame handed back. *)
Abbreviation rejected P := (error * frame P)%type.

Section link.
Context {P : Type}.
Implicit Types (l : link P) (f : frame P).

Definition link_new (src dst : pad_ref) (src_media dst_media : media_type) : result error (link P) :=
  if bool_decide (src_media <> dst_media)
  then Err (InvalidData "media type mismatch between the output pad and the input pad it is linked to")
  else Ok (Link src dst src_media (unconfigured src_media) false [] DEFAULT_QUEUE_DEPTH None false
             TS_NONE false stats_default 0).

(** [self.epoch = self.epoch.wrapping_add(1)]. *)
Definition bump l : link P :=
  Link (src l) (dst l) (media l) (format l) (configured l) (queue l) (capacity l) (lstatus l)
    (eof_seen l) (end_pts l) (wanted l) (stats l) (wrap_u 64 (epoch l + 1)).

Definition with_capacity l (capacity : Z) : link P :=
  Link (src l) (dst l) (media l) (format l) (configured l) (queue l)
    (if capacity =? 0 then 1 else capacity) (lstatus l) (eof_seen l) (end_pts l) (wanted l)
    (stats l) (epoch l).

Definition set_format l (format : link_format) : link P :=
  bump (Link (src l) (dst l) (media l) format true (queue l) (capacity l) (lstatus l)
          (eof_seen l) (end_pts l) (wanted l) (stats l) (epoch l)).

Definition link_time_base l : rational := format_time_base (format l).
Definition depth l : Z := zlen (queue l).
Definition is_full l : bool := capacity l <=? depth l.
Definition is_closed l : bool := bool_decide (is_Some (lstatus l)).

Definition set_wanted (w : bool) l : link P :=
  Link (src l) (dst l) (media l) (format l) (configured l) (queue l) (capacity l) (lstatus l)
    (eof_seen l) (end_pts l) w (stats l) (epoch l).

Definition request l : link P := if wanted l then l else bump (set_wanted true l).

Definition set_stats (st : link_stats) l : link P :=
  Link (src l) (dst l) (media l) (format l) (configured l) (queue l) (capacity l) (lstatus l)
    (eof_seen l) (end_pts l) (wanted l) st (epoch l).

Definition set_queue (q : list (frame P)) l : link P :=
  Link (src l) (dst l) (media l) (format l) (configured l) q (capacity l) (lstatus l)
    (eof_seen l) (end_pts l) (wanted l) (stats l) (epoch l).

Definition rebase_frame f (target : rational) : frame P :=
  let from := fbase f in
  if negb (is_defined target) || negb (is_defined from) || rat_eqb from target then f
  else Frame (data f) (rescale (fpts f) from target RNearestAwayFromZero) target (rest f).

Definition rescale_pts (pts : timestamp) (from to : rational) : timestamp :=
  if negb (is_defined from) || negb (is_defined to) || rat_eqb from to then pts
  else rescale pts from to RNearestAwayFromZero.

Definition push l f : result (rejected P) unit * link P :=
  if is_closed l then (Err (Eof, f), l)
  else if capacity l <=? zlen (queue l) then
    let st := stats l in
    (Err (OutputPending, f),
     set_stats (LinkStats (frames st) (nsamples st) (peak_depth st) (sat_u 64 (blocked st + 1))) l)
  else
    let q := queue l ++ [rebase_frame f (format_time_base (format l))] in
    let st := stats l in
    (Ok tt,
     bump (set_wanted false
       (set_stats (LinkStats (frames st) (nsamples st) (Z.max (peak_depth st) (zlen q)) (blocked st))
         (set_queue q l)))).

Definition peek l : option (frame P) := head (queue l).

Definition latch_eof l : link P :=
  if is_closed l && bool_decide (queue l = []) then
    Link (src l) (dst l) (media l) (format l) (configured l) (queue l) (capacity l) (lstatus l)
      true (end_pts l) (wanted l) (stats l) (epoch l)
  else l.

Definition pop l : option (frame P) * link P :=
  match queue l with
  | [] => (None, l)
  | f :: q =>
    let st := stats l in
    let samples := match data f with
                   | DAudio _ _ samples _ => sat_u 64 (nsamples st + samples)
                   | _ => nsamples st
                   end in
    (Some f,
     bump (latch_eof
       (set_stats (LinkStats (sat_u 64 (frames st + 1)) samples (peak_depth st) (blocked st))
         (set_queue q l))))
  end.

Definition pop_status l : option status * link P :=
  if negb (bool_decide (queue l = [])) then (None, l)
  else match lstatus l with
       | None => (None, l)
       | Some s => (Some s, bump (latch_eof l))
       end.

Definition close l (s : status) (pts : timestamp) : link P :=
  if is_closed l then l
  else bump (latch_eof
         (Link (src l) (dst l) (media l) (format l) (configured l) (queue l) (capacity l) (Some s)
            (eof_seen l) pts (wanted l) (stats l) (epoch l))).

Definition link_flush l : link P :=
  bump (Link (src l) (dst l) (media l) (format l) (configured l) [] (capacity l) None
          false TS_NONE false (stats l) (epoch l)).

End link.

(** ** The arena *)

Section arena.
Context {P : Type}.

(** [LinkArena::push]: the new link's id and the arena. *)
Definition arena_push (a : list (link P)) (l : link P) : link_id * list (link P) :=
  (length a, a ++ [l]).

Definition arena_format (a : list (link P)) (id : option link_id) : link_format :=
  match id ≫= fun i => a !! i with
  | Some l => format l
  | None => unconfigured Video
  end.

(** The wrapping sum of the epochs of [ls]. *)
Definition epochs (ls : list (link P)) : Z :=
  fold_left (fun acc l => wrap_u 64 (acc + epoch l)) ls 0.

Definition epoch_sum (a : list (link P)) : Z := epochs a.

(** [get_mut] followed by an update that also answers. *)
Definition update {A} (a : list (link P)) (id : link_id) (g : link P -> A * link P)
    : option A * list (link P) :=
  match a !! id with
  | Some l => let '(x, l') := g l in (Some x, <[id := l']> a)
  | None => (None, a)
  end.

Definition modify (a : list (link P)) (id : link_id) (g : link P -> link P) : list (link P) :=
  snd (update a id (fun l => (tt, g l))).

End arena.

(** ** The context of an activation *)

Record node_links : Type := NodeLinks { inputs : list (option link_id); outputs : list (option link_id) }.

#[export] Instance node_links_eq_dec : EqDecision node_links.
Proof. solve_decision. Defined.

Definition node_links_new (inputs outputs : nat) : node_links :=
  NodeLinks (replicate inputs None) (replicate outputs None).
Definition input (n : node_links) (pad : nat) : option link_id := mjoin (inputs n !! pad).
Definition output (n : node_links) (pad : nat) : option link_id := mjoin (outputs n !! pad).
(** stdpp's insert leaves a list alone out of range, as [get_mut] does. *)
Definition set_input (n : node_links) (pad : nat) (l : link_id) : node_links :=
  NodeLinks (<[pad := Some l]> (inputs n)) (outputs n).
Definition set_output (n : node_links) (pad : nat) (l : link_id) : node_links :=
  NodeLinks (inputs n) (<[pad := Some l]> (outputs n)).

Record node_view : Type := NodeView { vid : node_id; vlabel : string; vfilter : string }.

Record command_request : Type := CommandRequest {
  ctarget : string; cname : string; carg : string; cflags : Z }.

Record context {P : Type} : Type := Context_ {
  links : list (link P);
  node : node_links;
  graph_nodes : list node_view;
  commands : option (list command_request);
  format_mismatch : bool;
  push_after_close : bool;
  dropped_by_backpressure : bool }.
Arguments context : clear implicits.
Arguments Context_ {P} _ _ _ _ _ _ _.

Section context.
Context {P : Type}.
Implicit Types (c : context P) (pad : nat).

Definition context_new (ls : list (link P)) (n : node_links) (views : list node_view)
    (commands : option (list command_request)) : context P :=
  Context_ ls n views commands false false false.

Definition with_links c (ls : list (link P)) : context P :=
  Context_ ls (node c) (graph_nodes c) (commands c) (format_mismatch c) (push_after_close c)
    (dropped_by_backpressure c).

(** [u32::try_from(pad)]. *)
Definition pad_u32 pad : option nat := if in_u 32 (Z.of_nat pad) then Some pad else None.

Definition in_id c pad : option link_id := p ← pad_u32 pad; input (node c) p.
Definition out_id c pad : option link_id := p ← pad_u32 pad; output (node c) p.
Definition in_link c pad : option (link P) := id ← in_id c pad; links c !! id.
Definition out_link c pad : option (link P) := id ← out_id c pad; links c !! id.

Definition input_count c : nat := length (inputs (node c)).
Definition output_count c : nat := length (outputs (node c)).
Definition input_link c pad : option link_format := format <$> in_link c pad.
Definition output_link c pad : option link_format := format <$> out_link c pad.
Definition peek_input c pad : option (frame P) := in_link c pad ≫= peek.
Definition input_depth c pad : Z := default 0 (depth <$> in_link c pad).
Definition input_end_pts c pad : timestamp := default TS_NONE (end_pts <$> in_link c pad).
Definition input_at_eof c pad : bool := default false (eof_seen <$> in_link c pad).
Definition output_wanted c pad : bool := default false (wanted <$> out_link c pad).
Definition output_has_room c pad : bool :=
  default false ((fun l => negb (is_full l) && negb (is_closed l)) <$> out_link c pad).
Definition output_closed c pad : bool := default false (is_closed <$> out_link c pad).
Definition all_inputs_at_eof c : bool := forallb (input_at_eof c) (seq 0 (input_count c)).
Definition link_of_pad c pad : link_format :=
  arena_format (links c)
    (if (pad <? input_count c)%nat then in_id c pad else out_id c (pad - input_count c)).

Definition take_input c pad : option (frame P) * context P :=
  match in_id c pad with
  | None => (None, c)
  | Some id => let '(r, ls) := update (links c) id pop in (mjoin r, with_links c ls)
  end.

Definition take_input_status c pad : option status * context P :=
  match in_id c pad with
  | None => (None, c)
  | Some id => let '(r, ls) := update (links c) id pop_status in (mjoin r, with_links c ls)
  end.

Definition request_input c pad : context P :=
  match in_id c pad with
  | None => c
  | Some id => with_links c (modify (links c) id request)
  end.

Definition set_output_link c pad (format : link_format) : context P :=
  match out_id c pad with
  | None => c
  | Some id => with_links c (modify (links c) id (fun l => set_format l format))
  end.

Definition close_output_at c pad (pts : timestamp) : context P :=
  match out_id c pad with
  | None => c
  | Some id => with_links c (modify (links c) id (fun l => close l SEof pts))
  end.

Definition close_output c pad : context P := close_output_at c pad TS_NONE.

(** [push_checked], and [push_output], which is nothing else. *)
Definition push_output c pad (f : frame P) : result error unit * context P :=
  match out_id c pad with
  | None => (Err (InvalidData "filter pushed to an output pad it does not have"), c)
  | Some id =>
    match links c !! id with
    | None => (Err (InvalidData "filter pushed to an unconnected output pad"), c)
    | Some l =>
      let mismatch := format_mismatch c || negb (accepts (format l) f) in
      let '(r, l') := push l f in
      let ls := <[id := l']> (links c) in
      match r with
      | Ok _ => (Ok tt, Context_ ls (node c) (graph_nodes c) (commands c) mismatch
                          (push_after_close c) (dropped_by_backpressure c))
      | Err (e, _) =>
        (Err e,
         Context_ ls (node c) (graph_nodes c) (commands c) mismatch
           (match e with Eof => true | _ => push_after_close c end)
           (match e with OutputPending => true | _ => dropped_by_backpressure c end))
      end
    end
  end.

(** The first closed input gives the time the outputs end at. *)
Definition closed_input_end c : timestamp * rational :=
  default (TS_NONE, UNDEFINED)
    (head (omap (fun pad => l ← in_link c pad;
                            if is_closed l then Some (end_pts l, link_time_base l) else None)
             (seq 0 (input_count c)))).

Definition close_all_outputs c : context P :=
  let '(pts, base) := closed_input_end c in
  fold_left (fun c pad =>
    match out_id c pad with
    | None => c
    | Some id => with_links c (modify (links c) id
                   (fun l => close l SEof (rescale_pts pts base (link_time_base l))))
    end) (seq 0 (output_count c)) c.

Definition forward_wanted c : context P :=
  if existsb (output_wanted c) (seq 0 (output_count c))
  then fold_left request_input (seq 0 (input_count c)) c
  else c.

Definition ctx_send_command c (target name arg : string) (flags : Z) : result error unit * context P :=
  match commands c with
  | None => (Err (InvalidData "runtime commands are unavailable during filter configuration"), c)
  | Some cs =>
    (Ok tt, Context_ (links c) (node c) (graph_nodes c)
              (Some (cs ++ [CommandRequest target name arg flags]))
              (format_mismatch c) (push_after_close c) (dropped_by_backpressure c))
  end.

(** ** Filters

    One call of a filter is a program over the context's operations: it may
    read everything the context shows, and changes it only by these calls. *)

Inductive ctx_op : Type :=
  | TakeInput (pad : nat)
  | TakeInputStatus (pad : nat)
  | RequestInput (pad : nat)
  | PushOutput (pad : nat) (f : frame P)
  | CloseOutputAt (pad : nat) (pts : timestamp)
  | CloseOutput (pad : nat)
  | CloseAllOutputs
  | ForwardWanted
  | SetOutputLink (pad : nat) (format : link_format)
  | SendCommand (target name arg : string) (flags : Z).

Definition reply (o : ctx_op) : Type :=
  match o with
  | TakeInput _ => option (frame P)
  | TakeInputStatus _ => option status
  | PushOutput _ _ | SendCommand _ _ _ _ => result error unit
  | _ => unit
  end.

Definition ctx_step (o : ctx_op) (c : context P) : reply o * context P :=
  match o with
  | TakeInput pad => take_input c pad
  | TakeInputStatus pad => take_input_status c pad
  | RequestInput pad => (tt, request_input c pad)
  | PushOutput pad f => push_output c pad f
  | CloseOutputAt pad pts => (tt, close_output_at c pad pts)
  | CloseOutput pad => (tt, close_output c pad)
  | CloseAllOutputs => (tt, close_all_outputs c)
  | ForwardWanted => (tt, forward_wanted c)
  | SetOutputLink pad format => (tt, set_output_link c pad format)
  | SendCommand target name arg flags => ctx_send_command c target name arg flags
  end.

Inductive program (A : Type) : Type :=
  | Done (a : A)
  | Look (k : context P -> program A)
  | Call (o : ctx_op) (k : reply o -> program A).
Arguments Done {A} _.
Arguments Look {A} _.
Arguments Call {A} _ _.

Fixpoint exec {A} (m : program A) (c : context P) : A * context P :=
  match m with
  | Done a => (a, c)
  | Look k => exec (k c) c
  | Call o k => let '(r, c) := ctx_step o c in exec (k r) c
  end.

End context.
Arguments ctx_op : clear implicits.
Arguments program : clear implicits.
Arguments Done {P A} _.
Arguments Look {P A} _.
Arguments Call {P A} _ _.

Inductive activity : Type := Progressed | NeedInput | Blocked | AEof.

#[export] Instance activity_eq_dec : EqDecision activity.
Proof. solve_decision. Defined.

Definition ONE_FLAG : Z := 1.
Definition FAST : Z := 2.

Inductive command_reply : Type := ROk | RText (text : string).

(** The trait, over the type of a filter's own state. *)
Class Filter (P S : Type) : Type := {
  activate : S -> program P (result error activity * S);
  configure : S -> program P (result error unit * S);
  flush : S -> S;
  command_flags : S -> string -> Z;
  process_command : S -> string -> string -> Z -> result error command_reply * S }.

(** The trait's default methods. *)
Definition default_configure {P S} (s : S) : program P (result error unit * S) := Done (Ok tt, s).
Definition default_command_flags {S} (s : S) (name : string) : Z := FAST.
Definition default_command {S} (s : S) (name value : string) : result error unit * S :=
  (Err (Unsupported "filter accepts no runtime commands"), s).
Definition default_process_command {S} (cflags : S -> string -> Z)
    (command : S -> string -> string -> result error unit * S)
    (s : S) (name arg : string) (flags : Z) : result error command_reply * S :=
  if negb (Z.land flags FAST =? 0) && (Z.land (cflags s name) FAST =? 0)
  then (Err (Unsupported "filter command is not fast"), s)
  else match command s name arg with
       | (Err e, s) => (Err e, s)
       | (Ok _, s) => (Ok ROk, s)
       end.

(** ** One link over time *)

Section link_laws.
Context {P : Type}.
Implicit Types (l : link P) (f : frame P).

Inductive link_op : Type :=
  | LPush (f : frame P)
  | LPop
  | LPopStatus
  | LClose (s : status) (pts : timestamp)
  | LRequest
  | LSetFormat (format : link_format).

(** What passes a link: a frame accepted (as it is queued), a frame delivered, a
    status delivered. *)
Inductive link_event : Type :=
  | EIn (f : frame P)
  | EOut (f : frame P)
  | EStatus (s : status).

Definition link_step l (o : link_op) : list link_event * link P :=
  match o with
  | LPush f =>
    let '(r, l') := push l f in
    (match r with Ok _ => [EIn (rebase_frame f (link_time_base l))] | Err _ => [] end, l')
  | LPop => let '(r, l') := pop l in (match r with Some f => [EOut f] | None => [] end, l')
  | LPopStatus =>
    let '(r, l') := pop_status l in (match r with Some s => [EStatus s] | None => [] end, l')
  | LClose s pts => ([], close l s pts)
  | LRequest => ([], request l)
  | LSetFormat format => ([], set_format l format)
  end.

Fixpoint link_run l (os : list link_op) : list link_event * link P :=
  match os with
  | [] => ([], l)
  | o :: os =>
    let '(e, l1) := link_step l o in
    let '(es, l2) := link_run l1 os in
    (e ++ es, l2)
  end.

Definition ins (es : list link_event) : list (frame P) :=
  omap (fun e => match e with EIn f => Some f | _ => None end) es.
Definition outs (es : list link_event) : list (frame P) :=
  omap (fun e => match e with EOut f => Some f | _ => None end) es.

(** End of stream is exactly: closed, and the queue drained. *)
Definition link_wf l : Prop :=
  eof_seen l = is_closed l && bool_decide (queue l = []) /\
  0 <= epoch l < 2 ^ 64 /\ 1 <= capacity l /\ depth l <= capacity l.

Lemma is_closed_spec l : is_closed l = true <-> is_Some (lstatus l).
Proof. apply bool_decide_eq_true. Qed.

Lemma bump_range l : 0 <= epoch (bump l) < 2 ^ 64.
Proof. apply wrap_u_range. lia. Qed.

Lemma closed_empty l : is_closed l = true -> queue l = [] -> link_wf l -> eof_seen l = true.
Proof. intros Hc Hq (-> & _). by rewrite Hc, Hq. Qed.

Lemma latch_fields l :
  queue (latch_eof l) = queue l /\ lstatus (latch_eof l) = lstatus l /\
  capacity (latch_eof l) = capacity l /\ epoch (latch_eof l) = epoch l.
Proof. unfold latch_eof. by destruct (is_closed l && _). Qed.

(** Latching restores the end-of-stream flag of a link that is not past it. *)
Lemma latch_seen l :
  (eof_seen l = true -> is_closed l && bool_decide (queue l = []) = true) ->
  eof_seen (latch_eof l) = is_closed (latch_eof l) && bool_decide (queue (latch_eof l) = []).
Proof.
  unfold is_closed. destruct (latch_fields l) as (-> & -> & _). unfold latch_eof, is_closed.
  destruct (bool_decide (is_Some (lstatus l)) && _); [done|]. intros H. by destruct (eof_seen l); [symmetry; apply H|].
Qed.

Lemma bump_wf l :
  eof_seen l = is_closed l && bool_decide (queue l = []) -> 1 <= capacity l -> depth l <= capacity l ->
  link_wf (bump l).
Proof. intros He Hc Hd. split_and!; [exact He|apply bump_range..|exact Hc|exact Hd]. Qed.

Lemma pop_wf l : link_wf l -> link_wf (snd (pop l)).
Proof.
  intros W. unfold pop. destruct (queue l) as [|f q] eqn:Eq; [exact W|].
  destruct W as (He & _ & Hc & Hd). unfold depth in Hd. rewrite Eq, zlen_cons in Hd. cbn [snd].
  apply bump_wf; [apply latch_seen|unfold depth..];
    rewrite ?(proj1 (latch_fields _)), ?(proj1 (proj2 (proj2 (latch_fields _))));
    cbn [eof_seen set_stats set_queue queue capacity]; [|done|lia].
  rewrite He, Eq, bool_decide_false, andb_false_r by done. done.
Qed.

Lemma pop_status_wf l : link_wf l -> link_wf (snd (pop_status l)).
Proof.
  intros W. unfold pop_status. destruct (negb _); [exact W|]. destruct (lstatus l); [|exact W].
  destruct W as (He & _ & Hc & Hd).
  apply bump_wf; [apply latch_seen; by rewrite He|unfold depth..];
    rewrite ?(proj1 (latch_fields _)), ?(proj1 (proj2 (proj2 (latch_fields _)))); done.
Qed.

Lemma close_wf l s pts : link_wf l -> link_wf (close l s pts).
Proof.
  intros W. unfold close. destruct (is_closed l) eqn:Ec; [exact W|].
  destruct W as (He & _ & Hc & Hd).
  apply bump_wf; [apply latch_seen|unfold depth..];
    rewrite ?(proj1 (latch_fields _)), ?(proj1 (proj2 (proj2 (latch_fields _)))); [|done..].
  cbn [eof_seen]. by rewrite He, Ec.
Qed.

Lemma push_wf l f : link_wf l -> link_wf (snd (push l f)).
Proof.
  intros W. unfold push. destruct (is_closed l) eqn:Ec; [exact W|].
  destruct (Z.leb_spec (capacity l) (zlen (queue l))) as [|Hlt]; [exact W|].
  destruct W as (He & _ & Hc & Hd). apply bump_wf; [|exact Hc|].
  - change (eof_seen l = is_closed l && bool_decide (queue l ++ [rebase_frame f (format_time_base (format l))] = [])).
    by rewrite He, Ec.
  - unfold depth. cbn [queue capacity set_wanted set_stats set_queue]. rewrite zlen_app, zlen_cons.
    change (zlen []) with 0. lia.
Qed.

Lemma step_wf l o : link_wf l -> link_wf (snd (link_step l o)).
Proof.
  intros W. destruct o as [f| | |s pts| |fm]; cbn [link_step].
  - pose proof (push_wf l f W). by destruct (push l f).
  - pose proof (pop_wf l W). by destruct (pop l).
  - pose proof (pop_status_wf l W). by destruct (pop_status l).
  - by apply close_wf.
  - unfold request. destruct (wanted l); [exact W|]. destruct W as (He & _ & Hc & Hd). by apply bump_wf.
  - destruct W as (He & _ & Hc & Hd). by apply bump_wf.
Qed.

Lemma new_wf s d ms md l : link_new s d ms md = Ok l -> link_wf l.
Proof. unfold link_new, link_wf. case_bool_decide; [done|]. intros [= <-]. split_and!; done. Qed.

Lemma latch_queue l : queue (latch_eof l) = queue l.
Proof. apply latch_fields. Qed.
Lemma latch_status l : lstatus (latch_eof l) = lstatus l.
Proof. apply latch_fields. Qed.

(** The queue after one operation, by what passed. *)
Lemma step_queue l o :
  queue l ++ ins (fst (link_step l o)) = outs (fst (link_step l o)) ++ queue (snd (link_step l o)).
Proof.
  destruct o as [f| | |s pts| |fm]; cbn [link_step].
  - unfold push, link_time_base. destruct (is_closed l); [apply app_nil_r|].
    destruct (_ <=? _); [apply app_nil_r|done].
  - unfold pop. destruct (queue l) as [|f q] eqn:Eq; cbn; [by rewrite Eq|].
    by rewrite app_nil_r, latch_queue.
  - unfold pop_status. destruct (negb _); cbn; [apply app_nil_r|].
    destruct (lstatus l); cbn; by rewrite ?app_nil_r, ?latch_queue.
  - unfold close. cbn. rewrite app_nil_r. destruct (is_closed l); [done|]. cbn. by rewrite latch_queue.
  - unfold request. cbn. rewrite app_nil_r. by destruct (wanted l).
  - apply app_nil_r.
Qed.

(** A status stays, and a closed link accepts nothing. *)
Lemma step_closed l o s :
  lstatus l = Some s -> lstatus (snd (link_step l o)) = Some s /\ ins (fst (link_step l o)) = [].
Proof.
  intros Hs. assert (Hc : is_closed l = true) by (apply is_closed_spec; rewrite Hs; eauto).
  destruct o as [f| | |s' pts| |fm]; cbn [link_step].
  - unfold push. rewrite Hc. done.
  - unfold pop. destruct (queue l); cbn; rewrite ?latch_status; done.
  - unfold pop_status. destruct (negb _); [done|]. rewrite Hs. cbn. by rewrite latch_status.
  - unfold close. rewrite Hc. done.
  - unfold request. by destruct (wanted l).
  - done.
Qed.

(** A status is delivered only from a drained, closed link. *)
Lemma step_status l o s :
  EStatus s ∈ fst (link_step l o) ->
  lstatus l = Some s /\ queue l = [] /\ queue (snd (link_step l o)) = [] /\
  ins (fst (link_step l o)) = [] /\ outs (fst (link_step l o)) = [].
Proof.
  destruct o as [f| | |s' pts| |fm]; cbn [link_step]; try (cbn; set_solver).
  - unfold push. destruct (is_closed l); cbn; [set_solver|]. destruct (_ <=? _); cbn; set_solver.
  - unfold pop. destruct (queue l); cbn; set_solver.
  - unfold pop_status. destruct (bool_decide_reflect (queue l = [])) as [Eq|]; cbn; [|set_solver].
    destruct (lstatus l) as [s'|]; cbn; [|set_solver].
    rewrite list_elem_of_singleton. intros [= ->]. by rewrite latch_queue.
Qed.

(** At most one thing passes at a time. *)
Lemma step_one l o : fst (link_step l o) = [] \/ exists e, fst (link_step l o) = [e].
Proof.
  destruct o as [f| | |s pts| |fm]; cbn [link_step]; try (by left).
  - destruct (push l f) as [[]]; eauto.
  - destruct (pop l) as [[]]; eauto.
  - destruct (pop_status l) as [[]]; eauto.
Qed.

Lemma ins_app a b : ins (a ++ b) = ins a ++ ins b.
Proof. apply omap_app. Qed.
Lemma outs_app a b : outs (a ++ b) = outs a ++ outs b.
Proof. apply omap_app. Qed.

Lemma run_wf os : forall l, link_wf l -> link_wf (snd (link_run l os)).
Proof.
  induction os as [|o os IH]; intros l W; [done|]. cbn [link_run].
  pose proof (step_wf l o W) as W1. destruct (link_step l o) as [e l1].
  specialize (IH l1 W1). by destruct (link_run l1 os).
Qed.

Lemma run_queue os : forall l,
  queue l ++ ins (fst (link_run l os)) = outs (fst (link_run l os)) ++ queue (snd (link_run l os)).
Proof.
  induction os as [|o os IH]; intros l; [apply app_nil_r|]. cbn [link_run].
  pose proof (step_queue l o) as H1. destruct (link_step l o) as [e l1].
  specialize (IH l1). destruct (link_run l1 os) as [es l2]. cbn [fst snd] in *.
  by rewrite ins_app, outs_app, app_assoc, H1, <- !app_assoc, IH.
Qed.

Lemma run_closed os : forall l s,
  lstatus l = Some s -> lstatus (snd (link_run l os)) = Some s /\ ins (fst (link_run l os)) = [].
Proof.
  induction os as [|o os IH]; intros l s Hs; [done|]. cbn [link_run].
  pose proof (step_closed l o s Hs) as [Hs1 Hi1]. destruct (link_step l o) as [e l1].
  specialize (IH l1 s Hs1) as [Hs2 Hi2]. destruct (link_run l1 os) as [es l2]. cbn [fst snd] in *.
  by rewrite ins_app, Hi1, Hi2.
Qed.

Lemma run_status_split os : forall l e1 st e2,
  fst (link_run l os) = e1 ++ EStatus st :: e2 ->
  lstatus (snd (link_run l os)) = Some st /\ queue l ++ ins e1 = outs e1 /\ ins e2 = [] /\ outs e2 = [].
Proof.
  induction os as [|o os IH]; intros l e1 st e2; cbn [link_run]; [by destruct e1|].
  pose proof (step_queue l o) as Hq. pose proof (step_status l o st) as Hs.
  pose proof (step_closed l o st) as Hk. pose proof (step_one l o) as H1.
  destruct (link_step l o) as [e l1]. specialize (IH l1).
  pose proof (run_closed os l1 st) as Hc. pose proof (run_queue os l1) as Hr.
  destruct (link_run l1 os) as [es l2]. cbn [fst snd] in *.
  destruct H1 as [->|[x ->]]; cbn [app ins outs omap list_omap] in *.
  - rewrite app_nil_r in Hq. intros He. rewrite Hq. by apply IH.
  - destruct e1 as [|y e1]; cbn [app]; intros [= -> He].
    + destruct Hs as (Hst & Hq0 & Hq1 & _); [set_solver|]. destruct Hk as [Hk _]; [done|].
      destruct Hc as [Hc Hi]; [done|]. rewrite <- He, Hq0. split_and!; try done.
      rewrite Hi, app_nil_r, Hq1 in Hr. symmetry in Hr. by apply app_eq_nil in Hr as [? _].
    + destruct (IH e1 st e2 He) as (Hst & Hpre & Hi & Ho). split_and!; try done.
      change (ins (y :: e1)) with (ins ([y] ++ e1)). change (outs (y :: e1)) with (outs ([y] ++ e1)).
      rewrite ins_app, outs_app, <- Hpre, !app_assoc. f_equal. exact Hq.
Qed.

(** While the epoch stands still, nothing a reader of the link can see has
    moved. *)
Lemma step_epoch l o :
  0 <= epoch l < 2 ^ 64 ->
  epoch (snd (link_step l o)) = epoch l ->
  snd (link_step l o) = set_stats (stats (snd (link_step l o))) l.
Proof.
  intros Hr. assert (Hb : forall l', epoch l' = epoch l -> epoch (bump l') = epoch l -> False).
  { intros l' E. cbn. rewrite E. unfold wrap_u. intros Hw.
    destruct (Z.eq_dec (epoch l) (2 ^ 64 - 1)) as [E1|]; [by rewrite E1 in Hw|].
    rewrite Z.mod_small in Hw by lia. lia. }
  assert (Hself : l = set_stats (stats l) l) by (by destruct l).
  destruct o as [f| | |s pts| |fm]; cbn [link_step].
  - unfold push. destruct (is_closed l); [done|]. destruct (_ <=? _); [done|].
    cbn [snd]. by intros E%Hb.
  - unfold pop. destruct (queue l); [done|]. cbn [snd]. intros []%Hb.
    by rewrite (proj2 (proj2 (proj2 (latch_fields _)))).
  - unfold pop_status. destruct (negb _); [done|]. destruct (lstatus l); [|done]. cbn [snd].
    intros []%Hb. by rewrite (proj2 (proj2 (proj2 (latch_fields _)))).
  - unfold close. cbn [snd]. destruct (is_closed l); [done|]. intros []%Hb.
    by rewrite (proj2 (proj2 (proj2 (latch_fields _)))).
  - unfold request. cbn [snd]. destruct (wanted l); [done|]. by intros []%Hb.
  - by intros []%Hb.
Qed.

(** C28. A link is a bounded queue that ends. Whatever the calls, the frames
    delivered are the frames accepted, rebased to the link's clock, in order and
    up to the queue, which never holds more than the capacity; end of stream is
    seen exactly when the link is closed and drained; and once a status is
    delivered everything accepted was delivered before it and nothing follows. *)
Theorem link_is_stream src dst media l cap os es l' :
  link_new src dst media media = Ok l -> 0 <= cap ->
  link_run (with_capacity l cap) os = (es, l') ->
  ins es = outs es ++ queue l' /\
  depth l' <= capacity l' /\
  (eof_seen l' = true <-> is_closed l' = true /\ outs es = ins es) /\
  (forall before s after, es = before ++ EStatus s :: after ->
     ins before = outs before /\ ins after = [] /\ outs after = [] /\ lstatus l' = Some s).
Proof.
  intros Hn Hcap Hrun.
  assert (Hq0 : queue (with_capacity l cap) = []) by (unfold link_new in Hn; case_bool_decide; by simplify_eq).
  assert (W : link_wf (with_capacity l cap)).
  { unfold link_new in Hn. case_bool_decide; [done|]. injection Hn as <-. unfold link_wf, depth. cbn.
    destruct (Z.eqb_spec cap 0); split_and!; lia || done. }
  pose proof (run_wf os _ W) as W'. pose proof (run_queue os (with_capacity l cap)) as Hq.
  pose proof (run_status_split os (with_capacity l cap)) as Hs.
  rewrite Hrun in *. rewrite Hq0 in *. cbn [fst snd app] in *. destruct W' as (He & _ & _ & Hd).
  split_and!; [exact Hq|exact Hd| |].
  - rewrite He, andb_true_iff, bool_decide_eq_true, Hq. apply and_iff_compat_l.
    split; [intros ->; by rewrite app_nil_r|]. intros E.
    apply (app_inv_head (outs es)). by rewrite app_nil_r.
  - intros before s after E. by destruct (Hs before s after E) as (? & ? & ? & ?).
Qed.

End link_laws.

Arguments link_op : clear implicits.
Arguments link_event : clear implicits.

(** ** A filter moves links only along their operations *)

Section paths.
Context {P : Type}.
Implicit Types (l : link P) (c : context P).

Definition link_path l l' : Prop := exists os, snd (link_run l os) = l'.

Lemma link_run_app os1 os2 l :
  snd (link_run l (os1 ++ os2)) = snd (link_run (snd (link_run l os1)) os2).
Proof.
  revert l. induction os1 as [|o os1 IH]; intros l; [done|]. cbn [app link_run].
  destruct (link_step l o) as [e l1]. specialize (IH l1).
  destruct (link_run l1 (os1 ++ os2)), (link_run l1 os1). exact IH.
Qed.

#[export] Instance link_path_preorder : PreOrder link_path.
Proof.
  split; [by exists []|]. intros l1 l2 l3 [os1 <-] [os2 <-]. exists (os1 ++ os2). apply link_run_app.
Qed.

Lemma link_path_step l o : link_path l (snd (link_step l o)).
Proof. exists [o]. cbn [link_run]. by destruct (link_step l o). Qed.

Lemma link_path_wf l l' : link_path l l' -> link_wf l -> link_wf l'.
Proof. intros [os <-]. apply run_wf. Qed.

Lemma path_push l f : link_path l (snd (push l f)).
Proof. pose proof (link_path_step l (LPush f)) as H. cbn in H. by destruct (push l f). Qed.
Lemma path_pop l : link_path l (snd (pop l)).
Proof. pose proof (link_path_step l LPop) as H. cbn in H. by destruct (pop l). Qed.
Lemma path_pop_status l : link_path l (snd (pop_status l)).
Proof. pose proof (link_path_step l LPopStatus) as H. cbn in H. by destruct (pop_status l). Qed.
Lemma path_close l s pts : link_path l (close l s pts).
Proof. exact (link_path_step l (LClose s pts)). Qed.
Lemma path_request l : link_path l (request l).
Proof. exact (link_path_step l LRequest). Qed.
Lemma path_set_format l fm : link_path l (set_format l fm).
Proof. exact (link_path_step l (LSetFormat fm)). Qed.

Definition arena_path (a a' : list (link P)) : Prop := Forall2 link_path a a'.

#[export] Instance arena_path_preorder : PreOrder arena_path.
Proof.
  split.
  - intros a. induction a; constructor; [reflexivity|done].
  - intros a b d Hab. revert d. induction Hab as [|x y a b Hxy Hab IH]; intros d Hbd.
    + exact Hbd.
    + inversion Hbd as [|? z ? d' Hyz Hd]; subst. constructor; [by transitivity y|by apply IH].
Qed.

Lemma arena_path_insert a id l l' :
  a !! id = Some l -> link_path l l' -> arena_path a (<[id := l']> a).
Proof.
  intros Hl Hp. apply Forall2_same_length_lookup. split; [by rewrite length_insert|].
  intros i x y Hx. destruct (decide (i = id)) as [->|Hne].
  - rewrite list_lookup_insert_eq by (by eapply lookup_lt_Some). congruence.
  - rewrite list_lookup_insert_ne by done. intros Hy. replace y with x by congruence. reflexivity.
Qed.

Lemma update_path {A} a id (g : link P -> A * link P) :
  (forall l, link_path l (snd (g l))) -> arena_path a (snd (update a id g)).
Proof.
  intros Hg. unfold update. destruct (a !! id) as [l|] eqn:E; [|reflexivity].
  specialize (Hg l). destruct (g l) as [x l']. by eapply arena_path_insert.
Qed.

Lemma modify_path a id g : (forall l, link_path l (g l)) -> arena_path a (modify a id g).
Proof. intros Hg. unfold modify. by apply update_path. Qed.

(** What one operation, and so one activation, leaves of the context. *)
Definition ctx_path c c' : Prop :=
  arena_path (links c) (links c') /\ node c' = node c /\ graph_nodes c' = graph_nodes c.

#[export] Instance ctx_path_preorder : PreOrder ctx_path.
Proof.
  split; [by intros c; split|]. intros c1 c2 c3 (H1 & E1 & F1) (H2 & E2 & F2).
  split_and!; [by etransitivity|congruence..].
Qed.

Lemma with_links_path c ls : arena_path (links c) ls -> ctx_path c (with_links c ls).
Proof. by split. Qed.

Lemma fold_path {B} (g : context P -> B -> context P) bs : forall c,
  (forall c b, ctx_path c (g c b)) -> ctx_path c (fold_left g bs c).
Proof.
  induction bs as [|b bs IH]; intros c Hg; [reflexivity|]. cbn [fold_left].
  etransitivity; [apply Hg|by apply IH].
Qed.

Lemma request_input_path c pad : ctx_path c (request_input c pad).
Proof.
  unfold request_input. destruct (in_id c pad); [|reflexivity].
  apply with_links_path, modify_path, path_request.
Qed.

Lemma close_output_at_path c pad pts : ctx_path c (close_output_at c pad pts).
Proof.
  unfold close_output_at. destruct (out_id c pad); [|reflexivity].
  apply with_links_path, modify_path. intros l. apply path_close.
Qed.

Lemma push_output_path c pad f : ctx_path c (snd (push_output c pad f)).
Proof.
  unfold push_output. destruct (out_id c pad) as [id|]; [|reflexivity].
  destruct (links c !! id) as [l|] eqn:El; [|reflexivity].
  pose proof (path_push l f) as Hp. destruct (push l f) as [[[]|[e f']] l']; cbn [snd] in *;
    (split_and!; [by eapply arena_path_insert|done..]).
Qed.

Lemma close_all_outputs_path c : ctx_path c (close_all_outputs c).
Proof.
  unfold close_all_outputs. destruct (closed_input_end c) as [pts base]. apply fold_path.
  clear c. intros c pad. destruct (out_id c pad); [|reflexivity].
  apply with_links_path, modify_path. intros l. apply path_close.
Qed.

Lemma ctx_step_path o c : ctx_path c (snd (ctx_step o c)).
Proof.
  destruct o as [pad|pad|pad|pad f|pad pts|pad| | |pad fm|t n a fl]; cbn [ctx_step snd].
  - unfold take_input. destruct (in_id c pad) as [id|]; [|reflexivity].
    pose proof (update_path (links c) id pop path_pop) as H. destruct (update _ _ _). by apply with_links_path.
  - unfold take_input_status. destruct (in_id c pad) as [id|]; [|reflexivity].
    pose proof (update_path (links c) id pop_status path_pop_status) as H.
    destruct (update _ _ _). by apply with_links_path.
  - apply request_input_path.
  - apply push_output_path.
  - apply close_output_at_path.
  - apply close_output_at_path.
  - apply close_all_outputs_path.
  - unfold forward_wanted. destruct (existsb _ _); [|reflexivity]. apply fold_path, request_input_path.
  - unfold set_output_link. destruct (out_id c pad); [|reflexivity].
    apply with_links_path, modify_path. intros l. apply path_set_format.
  - unfold ctx_send_command. by destruct (commands c).
Qed.

Lemma exec_path {A} (m : program P A) : forall c, ctx_path c (snd (exec m c)).
Proof.
  induction m as [a|k IH|o k IH]; intros c; cbn [exec]; [reflexivity|apply IH|].
  pose proof (ctx_step_path o c) as H. destruct (ctx_step o c) as [r c1]. cbn [snd] in H.
  etransitivity; [exact H|apply IH].
Qed.

End paths.

(** Two frames, the second rebased from milliseconds, then the end. *)
Definition pad_a : pad_ref := pad_output 0 0.
Definition pad_b : pad_ref := pad_input 1 0.
Definition clock : link_format := LVideo Yuv420p 2 2 (Rational 1 25) UNDEFINED ONE color_default.
Definition shot (pts : Z) (base : rational) : frame unit := Frame (DVideo Yuv420p 2 2) (Some pts) base tt.
Definition show : list (link_op unit) :=
  [LSetFormat clock; LPush (shot 3 (Rational 1 25)); LPush (shot 160 (Rational 1 1000)); LPop;
   LClose SEof (Some 5); LPopStatus; LPop; LPush (shot 9 (Rational 1 25)); LPopStatus].

Lemma link_is_stream_witness :
  exists l es l', link_new pad_a pad_b Video Video = Ok l /\
    link_run (with_capacity l 2) show = (es, l') /\
    es = [EIn (shot 3 (Rational 1 25)); EIn (shot 4 (Rational 1 25)); EOut (shot 3 (Rational 1 25));
          EOut (shot 4 (Rational 1 25)); EStatus SEof] /\
    ins es = outs es ++ queue l'.
Proof.
  eexists _, _, _. split; [reflexivity|]. split; [vm_compute; reflexivity|]. split; [reflexivity|].
  refine (proj1 (link_is_stream pad_a pad_b Video _ 2 show _ _ eq_refl _ _)); [lia|].
  vm_compute. reflexivity.
Defined.
