(* ===== verification/FilterSolve.v ===== *)
(** * FilterSolve: format negotiation

    [src/crates/filter/vaco-filter-core/src/negotiate.rs]. Each pad of the graph
    declares what it accepts; the pads of a node may be tied, and a link ties the
    pads at its ends. Per property, a union-find over pad slots merges tied pads
    and folds their constraints; a merge that leaves no value is a conflict,
    which a converter spliced into the link may repair. The rendering of a
    conflict as text is left out: a side keeps its constraint instead of the
    names of the constraint's values. *)

From Stdlib Require Import ZArith Lia.
From stdpp Require Import prelude strings pretty.
From S2P Require Import Prelude Rational Time Error PixFmt FilterFormat.

(** ** The plan *)

Record tie : Type := Tie { tproperty : property; tpads : list (direction * nat) }.

Record node_formats : Type := NodeFormats {
  ninputs : list format_set;
  noutputs : list format_set;
  ties : list tie;
  label : string }.

Definition node_formats_default : node_formats := NodeFormats [] [] [] "".

(** [Tie::all_pads]. *)
Definition all_pads_tied (inputs outputs : nat) (media : media_type) : list tie :=
  let pads := map (pair Input) (seq 0 inputs) ++ map (pair Output) (seq 0 outputs) in
  if (length pads <? 2)%nat then [] else map (fun p => Tie p pads) (for_media media).

Definition passthrough (inputs outputs : nat) (media : media_type) (label : string) : node_formats :=
  NodeFormats (replicate inputs set_default) (replicate outputs set_default)
    (all_pads_tied inputs outputs media) label.

Definition uniform (inputs outputs : nat) (media : media_type) (s : format_set) (label : string)
    : node_formats :=
  NodeFormats (replicate inputs s) (replicate outputs s) (all_pads_tied inputs outputs media) label.

Definition converter_formats (input output : format_set) (label : string) : node_formats :=
  NodeFormats [input] [output] [] label.

Definition node_set (n : node_formats) (d : direction) (pad : nat) : option format_set :=
  match d with Input => ninputs n !! pad | Output => noutputs n !! pad end.

Record link_ends : Type := LinkEnds { esrc : pad_ref; edst : pad_ref; emedia : media_type }.

Record plan : Type := Plan { nodes : list node_formats; plinks : list link_ends }.

Definition plan_new : plan := Plan [] [].

Definition add_node (p : plan) (n : node_formats) : node_id * plan :=
  (length (nodes p), Plan (nodes p ++ [n]) (plinks p)).

Definition pad_set (p : plan) (pad : pad_ref) : option format_set :=
  n ← nodes p !! pnode pad; node_set n (pdirection pad) (ppad pad).

Definition plan_connect (p : plan) (src dst : pad_ref) (media : media_type)
    : result error (link_id * plan) :=
  if bool_decide (pdirection src <> Output) || bool_decide (pdirection dst <> Input)
  then Err (InvalidData "a link runs from an output pad to an input pad")
  else
    _ ← ok_or (pad_set p src) (InvalidData "link names an output pad that does not exist");
    _ ← ok_or (pad_set p dst) (InvalidData "link names an input pad that does not exist");
    Ok (length (plinks p), Plan (nodes p) (plinks p ++ [LinkEnds src dst media])).

Definition plan_splice (p : plan) (link : link_id) (converter : node_formats)
    : result error (node_id * link_id * plan) :=
  if negb ((length (ninputs converter) =? 1)%nat && (length (noutputs converter) =? 1)%nat)
  then Err (InvalidData "a converter must have exactly one input pad and one output pad")
  else
    ends ← ok_or (plinks p !! link) (InvalidData "splice names an unknown link");
    let '(node, p) := add_node p converter in
    let ls := <[link := LinkEnds (esrc ends) (pad_input node 0) (emedia ends)]> (plinks p) in
    Ok (node, length ls,
        Plan (nodes p) (ls ++ [LinkEnds (pad_output node 0) (edst ends) (emedia ends)])).

Definition plan_label (p : plan) (n : node_id) : string :=
  match nodes p !! n with Some nf => label nf | None => "<unknown>" end.

(** ** Slots *)

Record pad_index : Type := PadIndex { offsets : list (nat * nat); total : nat }.

Definition node_pads (n : node_formats) : nat := length (ninputs n) + length (noutputs n).

Definition index_plan (p : plan) : pad_index :=
  let '(offsets, next) :=
    fold_left (fun '(offsets, next) n =>
      (offsets ++ [(next, (next + length (ninputs n))%nat)], (next + node_pads n)%nat))
      (nodes p) ([], 0%nat) in
  PadIndex offsets next.

(** The [checked_add] of two positions does not overflow a [usize]. *)
Definition slot_of (i : pad_index) (pad : pad_ref) : option nat :=
  '(ins, outs) ← offsets i !! pnode pad;
  let base := match pdirection pad with Input => ins | Output => outs end in
  let slot := (base + ppad pad)%nat in
  if (slot <? total i)%nat then Some slot else None.

(** ** Union-find *)

Record union_find : Type := UnionFind { parent : list nat; usize : list nat }.

Definition uf_new (n : nat) : union_find := UnionFind (seq 0 n) (replicate n 1%nat).

(** Path halving. *)
Fixpoint find_loop (fuel : nat) (parent : list nat) (x : nat) : nat * list nat :=
  match fuel with
  | O => (x, parent)
  | S fuel =>
    let up := default x (parent !! x) in
    if (up =? x)%nat then (x, parent)
    else
      let grand := default up (parent !! up) in
      find_loop fuel (<[x := grand]> parent) grand
  end.

Definition find (u : union_find) (x : nat) : nat * union_find :=
  let '(r, parent') := find_loop (length (parent u)) (parent u) x in
  (r, UnionFind parent' (usize u)).

Definition union (u : union_find) (a b : nat) : option nat * union_find :=
  let '(ra, u) := find u a in
  let '(rb, u) := find u b in
  if (ra =? rb)%nat then (None, u)
  else
    let '(ra, rb) :=
      if (default 0%nat (usize u !! ra) <? default 0%nat (usize u !! rb))%nat then (rb, ra)
      else (ra, rb) in
    let add := default 0%nat (usize u !! rb) in
    (Some ra, UnionFind (<[rb := ra]> (parent u)) (alter (Nat.add add) ra (usize u))).

(** ** Solving *)

Abbreviation provenance := (list node_id).

Definition record_node (prov : provenance) (n : node_id) : provenance :=
  if bool_decide (n ∈ prov) then prov else prov ++ [n].

Definition absorb (prov other : provenance) : provenance := fold_left record_node other prov.

(** Per representative: the folded constraint and where it came from. *)
Abbreviation cells := (list (option (format_set * provenance))).

Record conflict_side : Type := ConflictSide {
  spad : pad_ref; slabel : string; saccepts : format_set; snarrowed : list string }.

Record conflict : Type := Conflict {
  clink : link_id;
  cproperty : property;
  cmedia : media_type;
  upstream : conflict_side;
  downstream : conflict_side;
  auto_convert_disabled : bool }.

(** The error of a merge that empties the class. *)
Inductive emptied : Type := Emptied.

Definition join (u : union_find) (st : cells) (a b : nat) (p : property)
    : result emptied (option nat) * union_find * cells :=
  let '(ra, u) := find u a in
  let '(rb, u) := find u b in
  if (ra =? rb)%nat then (Ok None, u, st)
  else
    match mjoin (st !! ra), mjoin (st !! rb) with
    | Some (ls, lp), Some (rs, rp) =>
      match merge_property ls rs p with
      | None => (Err Emptied, u, st)
      | Some merged =>
        match union u a b with
        | (None, u) => (Ok None, u, st)
        | (Some rep, u) => (Ok (Some rep), u, <[rep := Some (merged, absorb lp rp)]> st)
        end
      end
    | _, _ => (Ok None, u, st)
    end.

(** Every pad, with its node's inputs before its outputs. *)
Definition node_slots (n : node_id) (nf : node_formats) : list (pad_ref * format_set) :=
  imap (fun i s => (pad_input n i, s)) (ninputs nf) ++
  imap (fun i s => (pad_output n i, s)) (noutputs nf).

Definition all_pads (p : plan) : list (pad_ref * format_set) := concat (imap node_slots (nodes p)).

Definition seed_pad (i : pad_index) (p : property) (st : cells) (ps : pad_ref * format_set) : cells :=
  match slot_of i (fst ps) with
  | None => st
  | Some slot =>
    let prov := if unconstrained (get_property (snd ps) p) then [] else record_node [] (pnode (fst ps)) in
    <[slot := Some (snd ps, prov)]> st
  end.

Definition seed (pl : plan) (i : pad_index) (p : property) : cells :=
  fold_left (seed_pad i p) (all_pads pl) (replicate (total i) None).

(** One tie: the first pad is the anchor, and each merge moves it to the
    representative. [None]: the tied pads accept no common format. *)
Fixpoint tie_loop (i : pad_index) (n : node_id) (p : property) (pads : list (direction * nat))
    (u : union_find) (st : cells) (anchor : nat) : option (union_find * cells) :=
  match pads with
  | [] => Some (u, st)
  | (d, pad) :: pads =>
    match slot_of i (PadRef n d pad) with
    | None => tie_loop i n p pads u st anchor
    | Some slot =>
      match join u st anchor slot p with
      | (Ok (Some rep), u, st) => tie_loop i n p pads u st rep
      | (Ok None, u, st) => tie_loop i n p pads u st anchor
      | (Err Emptied, _, _) => None
      end
    end
  end.

Definition tie_pads (i : pad_index) (n : node_id) (p : property) (t : tie)
    (acc : option (union_find * cells)) : option (union_find * cells) :=
  '(u, st) ← acc;
  match tpads t with
  | [] => Some (u, st)
  | (d, pad) :: pads =>
    match slot_of i (PadRef n d pad) with
    | None => Some (u, st)
    | Some anchor => tie_loop i n p pads u st anchor
    end
  end.

(** The ties of one property, in node order then tie order. *)
Definition property_ties (pl : plan) (p : property) : list (node_id * tie) :=
  concat (imap (fun n nf =>
    map (pair n) (List.filter (fun t => bool_decide (tproperty t = p)) (ties nf))) (nodes pl)).

Definition join_ties (pl : plan) (i : pad_index) (p : property) (u : union_find) (st : cells)
    : option (union_find * cells) :=
  fold_left (fun acc '(n, t) => tie_pads i n p t acc) (property_ties pl p) (Some (u, st)).

Definition build_side (pl : plan) (i : pad_index) (u : union_find) (st : cells) (pad : pad_ref)
    : conflict_side * union_find :=
  let '(cell, u) :=
    match slot_of i pad with
    | None => (None, u)
    | Some s => let '(r, u) := find u s in (mjoin (st !! r), u)
    end in
  let '(set, prov) := default (set_default, []) cell in
  (ConflictSide pad (plan_label pl (pnode pad)) set (map (plan_label pl) prov), u).

Definition build_conflict (pl : plan) (i : pad_index) (u : union_find) (st : cells)
    (link : link_id) (ends : link_ends) (p : property) : conflict * union_find :=
  let '(up, u) := build_side pl i u st (esrc ends) in
  let '(down, u) := build_side pl i u st (edst ends) in
  (Conflict link p (emedia ends) up down false, u).

Definition uses (ends : link_ends) (p : property) : bool := bool_decide (p ∈ for_media (emedia ends)).

(** A conflict and the two sides as they were resolved just before the merge. *)
Abbreviation sides := (list (link_id * property * format_set * format_set)).

Record pass : Type := Pass { puf : union_find; pcells : cells; pconflicts : list conflict; psides : sides }.

Definition join_link (pl : plan) (i : pad_index) (p : property) (s : pass) (e : link_id * link_ends)
    : pass :=
  let '(link, ends) := e in
  if negb (uses ends p) then s
  else
    match slot_of i (esrc ends), slot_of i (edst ends) with
    | Some a, Some b =>
      match join (puf s) (pcells s) a b p with
      | (Ok _, u, st) => Pass u st (pconflicts s) (psides s)
      | (Err Emptied, u, st) =>
        let '(c, u) := build_conflict pl i u st link ends p in
        Pass u st (pconflicts s ++ [c])
          (psides s ++ [(link, p, saccepts (upstream c), saccepts (downstream c))])
      end
    | _, _ => s
    end.

Definition join_links (pl : plan) (i : pad_index) (p : property) (s : pass) : pass :=
  fold_left (join_link pl i p) (enumerate (plinks pl)) s.

Definition pick_link (pl : plan) (i : pad_index) (p : property) (st : cells)
    (acc : result error (union_find * list format_set)) (e : link_id * link_ends)
    : result error (union_find * list format_set) :=
  '(u, out) ← acc;
  let '(link, ends) := e in
  if negb (uses ends p) then Ok (u, out)
  else
    match slot_of i (esrc ends) with
    | None => Ok (u, out)
    | Some slot =>
      let '(r, u) := find u slot in
      match mjoin (st !! r) with
      | None => Ok (u, out)
      | Some (set, _) =>
        let picked := pick_format set p in
        if unconstrained (get_property picked p)
        then Err (Unsupported "format negotiation left a property unconstrained; nothing in the graph said what it carries")
        else Ok (u, alter (fun o => install o picked p) link out)
      end
    end.

Record outcome : Type := Outcome {
  link_formats : list format_set; conflicts : list conflict; resolved_sides : sides }.

Definition solve_property (pl : plan) (i : pad_index) (acc : result error outcome) (p : property)
    : result error outcome :=
  o ← acc;
  match join_ties pl i p (uf_new (total i)) (seed pl i p) with
  | None => Err (InvalidData "a filter tied two of its own pads that accept no common format")
  | Some (u, st) =>
    let s := join_links pl i p (Pass u st (conflicts o) (resolved_sides o)) in
    if (length (conflicts o) <? length (pconflicts s))%nat
    then Ok (Outcome (link_formats o) (pconflicts s) (psides s))
    else
      '(_, out) ← fold_left (pick_link pl i p (pcells s)) (enumerate (plinks pl))
                    (Ok (puf s, link_formats o));
      Ok (Outcome out (pconflicts s) (psides s))
  end.

Definition solve_once (pl : plan) : result error outcome :=
  let i := index_plan pl in
  fold_left (solve_property pl i) PROPERTIES
    (Ok (Outcome (replicate (length (plinks pl)) set_default) [] [])).

(** ** Negotiating *)

Inductive auto_convert : Type := ConvertAll | ConvertNone.

Record converter_spec : Type := ConverterSpec {
  cfilter : string; cargs : string; cformats : node_formats }.

(** The [ConverterFactory] trait: the policy that offers a converter. *)
Abbreviation converter_factory :=
  (media_type -> list property -> format_set -> format_set -> option converter_spec).

Definition no_conversion : converter_factory := fun _ _ _ _ => None.

Record insertion : Type := Insertion {
  ilink : link_id; inode : node_id; itail : link_id; iname : string;
  ifilter : string; iargs : string; iproperties : list property }.

Record assignment : Type := Assignment {
  alinks : list format_set; inserted : list insertion; rounds : Z }.

Definition assigned (a : assignment) (id : link_id) : option format_set := alinks a !! id.

(** The properties in conflict on each link, in order of first conflict. *)
Fixpoint coalesce (by_link : list (link_id * list property)) (c : conflict)
    : list (link_id * list property) :=
  match by_link with
  | [] => [(clink c, [cproperty c])]
  | (l, ps) :: rest =>
    if (l =? clink c)%nat then (l, ps ++ [cproperty c]) :: rest else (l, ps) :: coalesce rest c
  end.

Definition find_side (s : sides) (link : link_id) (p : property) : option (format_set * format_set) :=
  match List.find (fun '(l, q, _, _) => (l =? link)%nat && bool_decide (q = p)) s with
  | Some (_, _, up, down) => Some (up, down)
  | None => None
  end.

(** What the factory is shown: the pads' declarations, overlaid with the sides
    resolved before each conflict, and with what was agreed for the rest. *)
Definition overlay_conflicts (s : sides) (link : link_id) (ps : list property)
    (ud : format_set * format_set) : format_set * format_set :=
  fold_left (fun '(up, down) p =>
    match find_side s link p with
    | Some (ru, rd) => (install up ru p, install down rd p)
    | None => (up, down)
    end) ps ud.

Definition overlay_agreed (o : outcome) (link : link_id) (media : media_type) (ps : list property)
    (ud : format_set * format_set) : format_set * format_set :=
  match link_formats o !! link with
  | None => ud
  | Some r =>
    fold_left (fun '(up, down) p =>
      if bool_decide (p ∈ ps) || unconstrained (get_property r p) then (up, down)
      else (install up r p, install down r p)) (for_media media) ud
  end.

Section negotiate.
Context (factory : converter_factory).

(** One link's repair. A failed splice leaves the plan with the splices made so
    far, so the error comes with it. *)
Definition repair_link (o : outcome) (pl : plan) (ins : list insertion)
    (lp : link_id * list property) : result (error * plan) (plan * list insertion) :=
  let '(link, ps) := lp in
  match plinks pl !! link with
  | None => Ok (pl, ins)
  | Some ends =>
    match pad_set pl (esrc ends), pad_set pl (edst ends) with
    | Some du, Some dd =>
      let '(up, down) := overlay_agreed o link (emedia ends) ps
                           (overlay_conflicts (resolved_sides o) link ps (du, dd)) in
      match factory (emedia ends) ps up down with
      | None => Ok (pl, ins)
      | Some spec =>
        let name := ("auto_" +:+ cfilter spec +:+ "_" +:+ pretty (N.of_nat (length ins)))%string in
        let f := cformats spec in
        match plan_splice pl link (NodeFormats (ninputs f) (noutputs f) (ties f) name) with
        | Err e => Err (e, pl)
        | Ok (node, tail, pl) =>
          Ok (pl, ins ++ [Insertion link node tail name (cfilter spec) (cargs spec) ps])
        end
      end
    | _, _ => Ok (pl, ins)
    end
  end.

Definition repair (o : outcome) (pl : plan) (ins : list insertion)
    : result (error * plan) (plan * list insertion) :=
  fold_left (fun acc lp => '(pl, ins) ← acc; repair_link o pl ins lp)
    (fold_left coalesce (conflicts o) []) (Ok (pl, ins)).

Definition round_bound (pl : plan) : Z := Z.min (sat_u 64 (Z.of_nat (length (plinks pl)) * 3 + 1)) (2 ^ 32 - 1).

(** The plan left behind and the conflicts reported, with the result. Out of
    fuel is no result: the bound on the rounds rules it out. *)
Fixpoint negotiate_loop (fuel : nat) (bound : Z) (mode : auto_convert) (pl : plan)
    (ins : list insertion) (round : Z) : option (plan * list conflict * result error assignment) :=
  match fuel with
  | O => None
  | S fuel =>
    match solve_once pl with
    | Err e => Some (pl, [], Err e)
    | Ok o =>
      match conflicts o with
      | [] => Some (pl, [], Ok (Assignment (link_formats o) ins round))
      | found =>
        match mode with
        | ConvertNone =>
          Some (pl, map (fun c => Conflict (clink c) (cproperty c) (cmedia c) (upstream c) (downstream c) true) found,
                Err (Unsupported "no common format on a filter link and auto-conversion is disabled"))
        | ConvertAll =>
          if bound <=? round
          then Some (pl, [], Err (Unsupported "format negotiation did not converge; a converter did not fix what it claimed to"))
          else
            match repair o pl ins with
            | Err (e, pl') => Some (pl', [], Err e)
            | Ok (pl', ins') =>
              if (length ins' =? length ins)%nat
              then Some (pl', found, Err (Unsupported "no common format on a filter link and no converter is available for it"))
              else negotiate_loop fuel bound mode pl' ins' (sat_u 32 (round + 1))
            end
        end
      end
    end
  end.

Definition negotiate (pl : plan) (mode : auto_convert)
    : option (plan * list conflict * result error assignment) :=
  negotiate_loop (S (Z.to_nat (round_bound pl))) (round_bound pl) mode pl [] 0.

End negotiate.

(** ** The union-find: which root a slot leads to *)

Inductive leads (par : list nat) : nat -> nat -> Prop :=
  | leads_root x : par !! x = Some x -> leads par x x
  | leads_up x y r : par !! x = Some y -> y <> x -> leads par y r -> leads par x r.

(** Parents are slots, and a parent's size is above its child's. *)
Definition uf_ok (n : nat) (u : union_find) : Prop :=
  length (parent u) = n /\ length (usize u) = n /\
  (forall x y, parent u !! x = Some y -> (y < n)%nat) /\
  (forall x y, parent u !! x = Some y -> y <> x ->
     (default 0 (usize u !! x) < default 0 (usize u !! y))%nat) /\
  (forall x, (x < n)%nat -> (1 <= default 0 (usize u !! x))%nat).

Lemma leads_det par x r : leads par x r -> forall s, leads par x s -> r = s.
Proof. induction 1 as [x Hx|x y r Hx Hn _ IH]; intros s Hs; inversion Hs; subst; simplify_eq; auto. Qed.

Lemma leads_fix par x r : leads par x r -> leads par r r.
Proof. induction 1; [by constructor|done]. Qed.

Lemma root_parent par x r : leads par x r -> par !! r = Some r.
Proof. by induction 1. Qed.

(** The slots above a size. *)
Definition above (sz : list nat) (n : nat) (k : nat) : nat :=
  length (List.filter (fun y => k <? default 0 (sz !! y))%nat (seq 0 n)).

Lemma count_le {A} (f g : A -> bool) (l : list A) :
  (forall x, f x = true -> g x = true) ->
  (length (List.filter f l) <= length (List.filter g l))%nat.
Proof.
  intros H. induction l as [|x l IH]; [done|]. cbn [List.filter].
  pose proof (H x). destruct (f x), (g x); cbn [length]; lia || naive_solver.
Qed.

Lemma count_lt {A} (f g : A -> bool) (l : list A) y :
  (forall x, f x = true -> g x = true) -> y ∈ l -> f y = false -> g y = true ->
  (length (List.filter f l) < length (List.filter g l))%nat.
Proof.
  intros H Hy Hf Hg. induction Hy as [y l|y x l Hy IH]; cbn [List.filter].
  - rewrite Hf, Hg. cbn [length]. pose proof (count_le f g l H). lia.
  - specialize (IH Hf Hg). pose proof (H x).
    destruct (f x), (g x); cbn [length]; lia || naive_solver.
Qed.

Lemma filter_all_true {A} (l : list A) : List.filter (fun _ => true) l = l.
Proof. induction l as [|x l IH]; [done|]. cbn. by rewrite IH. Qed.

Lemma above_lt sz n x y :
  (y < n)%nat -> (default 0 (sz !! x) < default 0 (sz !! y))%nat ->
  (above sz n (default 0 (sz !! y)) < above sz n (default 0 (sz !! x)))%nat.
Proof.
  intros Hy Hlt. apply (count_lt _ _ _ y).
  - intros z. rewrite !Nat.ltb_lt. lia.
  - apply elem_of_seq. lia.
  - apply Nat.ltb_ge. lia.
  - by apply Nat.ltb_lt.
Qed.

Lemma above_bound sz n x : (x < n)%nat -> (above sz n (default 0 (sz !! x)) < n)%nat.
Proof.
  intros Hx. unfold above. rewrite <- (length_seq n 0) at 2.
  rewrite <- (filter_all_true (seq 0 n)) at 2.
  apply (count_lt _ _ _ x); [done|apply elem_of_seq; lia|apply Nat.ltb_ge; lia|done].
Qed.

Section find.
Context (n : nat) (u : union_find) (Hu : uf_ok n u).

Lemma parent_lt x y : parent u !! x = Some y -> (x < n)%nat /\ (y < n)%nat.
Proof.
  destruct Hu as (Hl & _ & Hp & _). intros Hx. split; [|by eapply Hp].
  apply lookup_lt_Some in Hx. lia.
Qed.

Lemma leads_total k : forall x,
  (above (usize u) n (default 0 (usize u !! x)) < k)%nat -> (x < n)%nat -> exists r, leads (parent u) x r.
Proof.
  destruct Hu as (Hl & _ & Hp & Hs & _).
  induction k as [|k IH]; intros x Hk Hx; [lia|].
  destruct (parent u !! x) as [y|] eqn:Ey; [|apply lookup_ge_None in Ey; lia].
  destruct (decide (y = x)) as [->|Hn]; [exists x; by constructor|].
  pose proof (Hp _ _ Ey) as Hy. pose proof (Hs _ _ Ey Hn) as Hlt.
  pose proof (above_lt (usize u) n x y Hy Hlt).
  destruct (IH y) as [r Hr]; [lia|done|]. exists r. by eapply leads_up.
Qed.

Lemma leads_exists x : (x < n)%nat -> exists r, leads (parent u) x r.
Proof. intros Hx. apply (leads_total (S (above (usize u) n (default 0%nat (usize u !! x))))); lia. Qed.

Lemma leads_lt x r : leads (parent u) x r -> (x < n)%nat /\ (r < n)%nat.
Proof.
  induction 1 as [x Hx|x y r Hx _ _ IH]; [by apply parent_lt in Hx|].
  apply parent_lt in Hx. tauto.
Qed.

(** Pointing a slot at its grandparent moves no root. *)
Lemma halve_leads x y g z r :
  parent u !! x = Some y -> y <> x -> parent u !! y = Some g ->
  leads (parent u) z r -> leads (<[x := g]> (parent u)) z r.
Proof.
  intros Hx Hn Hy. assert (Hlen : (x < length (parent u))%nat) by (by eapply lookup_lt_Some).
  assert (Hgx : g <> x).
  { destruct Hu as (_ & _ & _ & Hs & _). intros ->. pose proof (Hs _ _ Hx Hn).
    pose proof (Hs _ _ Hy ltac:(done)). lia. }
  induction 1 as [z Hz|z w r Hz Hzw Hw IH].
  - apply leads_root. rewrite list_lookup_insert_ne; [done|]. intros ->. congruence.
  - destruct (decide (z = x)) as [->|Hne].
    + assert (w = y) as -> by congruence. apply leads_up with g; [by apply list_lookup_insert_eq|done|].
      inversion IH as [? Hr|? v ? Hv Hvn Hv']; subst.
      * rewrite list_lookup_insert_ne in Hr by congruence. assert (g = r) as -> by congruence. exact IH.
      * rewrite list_lookup_insert_ne in Hv by congruence. assert (g = v) as -> by congruence. exact Hv'.
    + apply leads_up with w; [by rewrite list_lookup_insert_ne|done|done].
Qed.

Lemma halve_ok x y g :
  parent u !! x = Some y -> y <> x -> parent u !! y = Some g ->
  uf_ok n (UnionFind (<[x := g]> (parent u)) (usize u)).
Proof.
  intros Hx Hn Hy. destruct Hu as (Hl & Hlu & Hp & Hs & H1).
  unfold uf_ok. cbn [parent usize]. split_and!; [by rewrite length_insert|done| | |done].
  - intros z w Hz. destruct (decide (z = x)) as [->|Hne].
    + rewrite list_lookup_insert_eq in Hz by (by eapply lookup_lt_Some). simplify_eq. by eapply Hp.
    + rewrite list_lookup_insert_ne in Hz by done. by eapply Hp.
  - intros z w Hz Hw. destruct (decide (z = x)) as [->|Hne].
    + rewrite list_lookup_insert_eq in Hz by (by eapply lookup_lt_Some). simplify_eq.
      pose proof (Hs _ _ Hx Hn). destruct (decide (w = y)) as [->|]; [done|].
      pose proof (Hs _ _ Hy ltac:(done)). lia.
    + rewrite list_lookup_insert_ne in Hz by done. by apply Hs.
Qed.

End find.

Lemma find_loop_spec fuel : forall n u x,
  uf_ok n u -> (x < n)%nat -> (above (usize u) n (default 0 (usize u !! x)) < fuel)%nat ->
  leads (parent u) x (fst (find_loop fuel (parent u) x)) /\
  uf_ok n (UnionFind (snd (find_loop fuel (parent u) x)) (usize u)) /\
  (forall z r, leads (parent u) z r -> leads (snd (find_loop fuel (parent u) x)) z r).
Proof.
  induction fuel as [|fuel IH]; intros n u x Hu Hx Hf; [lia|]. cbn [find_loop].
  pose proof Hu as (Hl & _ & Hp & Hs & _).
  destruct (parent u !! x) as [y|] eqn:Ey; [|apply lookup_ge_None in Ey; lia]. cbn [default from_option id].
  destruct (Nat.eqb_spec y x) as [->|Hn]; cbn [fst snd].
  { split_and!; [by constructor|by destruct u|done]. }
  pose proof (Hp _ _ Ey) as Hy.
  destruct (parent u !! y) as [g|] eqn:Eg; [|apply lookup_ge_None in Eg; lia]. cbn [default from_option id].
  pose proof (halve_ok n u Hu x y g Ey Hn Eg) as Hu'.
  pose proof (fun z r => halve_leads n u Hu x y g z r Ey Hn Eg) as Hh.
  pose proof (Hs _ _ Ey Hn) as Hlt. pose proof (Hp _ _ Eg) as Hg.
  assert (Hgm : (default 0 (usize u !! x) < default 0 (usize u !! g))%nat).
  { destruct (decide (g = y)) as [->|Hgy]; [done|]. pose proof (Hs _ _ Eg Hgy). lia. }
  pose proof (above_lt (usize u) n x g Hg Hgm).
  destruct (IH n (UnionFind (<[x:=g]> (parent u)) (usize u)) g Hu' Hg) as (H1 & H2 & H3);
    [cbn [usize]; lia|]. cbn [parent usize] in *.
  destruct (leads_exists n u Hu x Hx) as [r Hr].
  assert (Hgr : leads (parent u) g r).
  { inversion Hr as [? E|? y' ? E _ Hr']; subst; [congruence|]. assert (y' = y) as -> by congruence.
    inversion Hr' as [? E'|? g' ? E' _ Hr'']; subst; [assert (g = r) as -> by congruence; done|].
    by assert (g' = g) as -> by congruence. }
  split_and!; [|done|by auto].
  by rewrite (leads_det _ _ _ H1 _ (Hh _ _ Hgr)).
Qed.

(** Two union-finds with the same classes. *)
Definition same_roots (u u' : union_find) : Prop :=
  forall z r, leads (parent u) z r -> leads (parent u') z r.

Lemma find_spec n u x :
  uf_ok n u -> (x < n)%nat ->
  leads (parent u) x (fst (find u x)) /\ uf_ok n (snd (find u x)) /\ same_roots u (snd (find u x)).
Proof.
  intros Hu Hx. pose proof (above_bound (usize u) n x Hx) as Hb. unfold find.
  assert (Hl : length (parent u) = n) by apply Hu.
  pose proof (find_loop_spec (length (parent u)) n u x Hu Hx) as H. rewrite Hl in *. specialize (H Hb).
  by destruct (find_loop n (parent u) x).
Qed.

Lemma same_roots_back n u u' z r :
  uf_ok n u -> uf_ok n u' -> same_roots u u' -> leads (parent u') z r -> leads (parent u) z r.
Proof.
  intros Hu Hu' Hs Hz. destruct (leads_lt n u' Hu' z r Hz) as [Hlt _].
  destruct (leads_exists n u Hu z Hlt) as [s Hr]. by rewrite (leads_det _ _ _ Hz _ (Hs _ _ Hr)).
Qed.

Section attach.
Context (n : nat) (u : union_find) (Hu : uf_ok n u) (w l : nat).
Context (Hw : leads (parent u) w w) (Hl : leads (parent u) l l) (Hwl : w <> l).

Definition attached : union_find :=
  UnionFind (<[l := w]> (parent u)) (alter (Nat.add (default 0%nat (usize u !! l))) w (usize u)).

Lemma size_attached x :
  default 0%nat (usize attached !! x) =
    (if decide (x = w) then default 0%nat (usize u !! l) + default 0%nat (usize u !! w)
     else default 0%nat (usize u !! x))%nat.
Proof using Hu Hw Hwl.
  pose proof (leads_lt n u Hu w w Hw) as [Hlt _]. destruct Hu as (_ & Hlu & _). unfold attached. cbn [usize].
  destruct (decide (x = w)) as [->|Hne]; [|by rewrite list_lookup_alter_ne].
  rewrite list_lookup_alter_eq. destruct (usize u !! w) eqn:E; [done|]. apply lookup_ge_None in E. lia.
Qed.

Lemma attached_ok : uf_ok n attached.
Proof using Hu Hw Hl Hwl.
  pose proof (leads_lt n u Hu w w Hw) as [Hwn _]. pose proof (leads_lt n u Hu l l Hl) as [Hln _].
  pose proof Hu as (Hp & Hlu & Hlt & Hs & H1).
  unfold uf_ok. split_and!.
  - cbn. by rewrite length_insert.
  - cbn. by rewrite length_alter.
  - intros x y. cbn [parent attached]. destruct (decide (x = l)) as [->|Hne].
    + rewrite list_lookup_insert_eq by lia. by intros [= <-].
    + rewrite list_lookup_insert_ne by done. apply Hlt.
  - intros x y. cbn [parent attached]. rewrite !size_attached. destruct (decide (x = l)) as [->|Hne].
    + rewrite list_lookup_insert_eq by lia. intros [= <-] _.
      rewrite decide_False, decide_True by done. pose proof (H1 w Hwn). lia.
    + rewrite list_lookup_insert_ne by done. intros Hx Hyx. pose proof (Hs x y Hx Hyx).
      rewrite (decide_False (P := x = w)); [destruct (decide (y = w)) as [->|]; lia|].
      intros ->. pose proof (root_parent _ _ _ Hw). congruence.
  - intros x Hx. rewrite size_attached. destruct (decide (x = w)); [pose proof (H1 w Hwn); lia|by apply H1].
Qed.

Lemma attached_leads z r :
  leads (parent u) z r -> leads (parent attached) z (if decide (r = l) then w else r).
Proof using Hu Hw Hl Hwl.
  pose proof (leads_lt n u Hu l l Hl) as [Hln _]. assert (length (parent u) = n) by apply Hu.
  assert (Hww : leads (parent attached) w w).
  { apply leads_root. cbn [parent attached]. rewrite list_lookup_insert_ne by done. exact (root_parent _ _ _ Hw). }
  induction 1 as [z Hz|z y r Hz Hn Hy IH].
  - destruct (decide (z = l)) as [->|Hne].
    + apply leads_up with w; [|done|done]. by apply list_lookup_insert_eq; lia.
    + apply leads_root. cbn [parent attached]. by rewrite list_lookup_insert_ne.
  - apply leads_up with y; [|done|done]. cbn [parent attached]. rewrite list_lookup_insert_ne; [done|].
    intros ->. pose proof (root_parent _ _ _ Hl). congruence.
Qed.

End attach.

Lemma union_spec n u a b ra rb :
  uf_ok n u -> leads (parent u) a ra -> leads (parent u) b rb ->
  match union u a b with
  | (None, u') => ra = rb /\ uf_ok n u' /\ same_roots u u'
  | (Some w, u') =>
    ra <> rb /\ (w = ra \/ w = rb) /\ uf_ok n u' /\
    (forall z r, leads (parent u) z r ->
       leads (parent u') z (if decide (r = ra \/ r = rb) then w else r))
  end.
Proof.
  intros Hu Ha Hb. unfold union.
  destruct (leads_lt n u Hu a ra Ha) as [Hal _]. destruct (leads_lt n u Hu b rb Hb) as [Hbl _].
  pose proof (find_spec n u a Hu Hal) as (Fa & Hu1 & S1).
  destruct (find u a) as [ra' u1]. cbn [fst snd] in *. rewrite (leads_det _ _ _ Fa _ Ha).
  pose proof (find_spec n u1 b Hu1 Hbl) as (Fb & Hu2 & S2).
  destruct (find u1 b) as [rb' u2]. cbn [fst snd] in *. rewrite (leads_det _ _ _ Fb _ (S1 _ _ Hb)).
  assert (S : same_roots u u2) by (intros z r Hz; by apply S2, S1).
  destruct (Nat.eqb_spec ra rb) as [->|Hne]; [done|].
  assert (Ra : leads (parent u2) ra ra) by (eapply leads_fix, S, Ha).
  assert (Rb : leads (parent u2) rb rb) by (eapply leads_fix, S, Hb).
  assert (Hpick : forall (r l : nat), leads (parent u2) r r -> leads (parent u2) l l -> r <> l ->
    (r = ra /\ l = rb \/ r = rb /\ l = ra) ->
    ra <> rb /\ (r = ra \/ r = rb) /\ uf_ok n (attached u2 r l) /\
    (forall z s, leads (parent u) z s ->
       leads (parent (attached u2 r l)) z (if decide (s = ra \/ s = rb) then r else s))).
  { intros r l Hr Hl Hrl Hcase. split_and!; [done|destruct Hcase as [[-> _]|[-> _]]; [by left|by right]|by apply attached_ok|].
    intros z s Hz. pose proof (attached_leads n u2 Hu2 r l Hr Hl Hrl _ _ (S _ _ Hz)) as H.
    destruct (decide (s = l)) as [->|Hsl].
    - rewrite decide_True by (destruct Hcase as [[_ ->]|[_ ->]]; [by right|by left]). exact H.
    - destruct (decide (s = ra \/ s = rb)); [|exact H]. assert (s = r) as -> by (destruct Hcase as [[-> ->]|[-> ->]]; intuition congruence). exact H. }
  destruct (_ <? _)%nat; apply Hpick; first [done|congruence|by left|by right].
Qed.

(** ** Pads and slots *)

Definition before (ns : list node_formats) (j : nat) : nat := sum_list_with node_pads (take j ns).

Lemma offsets_spec ns : forall os k,
  fold_left (fun '(offsets, next) n =>
    (offsets ++ [(next, (next + length (ninputs n))%nat)], (next + node_pads n)%nat)) ns (os, k) =
  (os ++ imap (fun j n => (k + before ns j, k + before ns j + length (ninputs n))%nat) ns,
   (k + sum_list_with node_pads ns)%nat).
Proof.
  induction ns as [|n ns IH]; intros os k; cbn [fold_left imap sum_list_with].
  - by rewrite app_nil_r, Nat.add_0_r.
  - rewrite IH. f_equal; [|lia]. rewrite <- app_assoc. f_equal. cbn [app].
    f_equal; [unfold before; cbn; f_equal; lia|].
    apply imap_ext. intros j x _. unfold before. cbn. f_equal; lia.
Qed.

Lemma index_spec pl :
  index_plan pl = PadIndex
    (imap (fun j n => (before (nodes pl) j, before (nodes pl) j + length (ninputs n))%nat) (nodes pl))
    (sum_list_with node_pads (nodes pl)).
Proof. unfold index_plan. by rewrite offsets_spec. Qed.

Lemma length_node_slots n nf : length (node_slots n nf) = node_pads nf.
Proof. unfold node_slots, node_pads. by rewrite length_app, !length_imap. Qed.

Lemma node_slots_lookup n nf s pad d :
  node_slots n nf !! s = Some (pad, d) <->
  pnode pad = n /\ node_set nf (pdirection pad) (ppad pad) = Some d /\
  s = (match pdirection pad with Input => 0 | Output => length (ninputs nf) end + ppad pad)%nat.
Proof.
  unfold node_slots. rewrite lookup_app_Some, length_imap, !list_lookup_imap, !fmap_Some.
  destruct pad as [m [] i]; cbn [pnode pdirection ppad node_set]; split.
  - intros [(x & Hx & [= -> -> ->])|(_ & x & _ & [=])]. done.
  - intros (-> & Hd & ->). left. by exists d.
  - intros [(x & _ & [=])|(Hge & x & Hx & [= -> -> ->])]. split_and!; [done|done|lia].
  - intros (-> & Hd & ->). right. split; [lia|]. exists d. split; [by rewrite Nat.add_comm, Nat.add_sub|].
    by rewrite Nat.add_comm, Nat.add_sub.
Qed.

Lemma pads_lookup ns : forall k s pad d,
  concat (imap (fun n => node_slots (k + n)) ns) !! s = Some (pad, d) <->
  exists j nf, pnode pad = (k + j)%nat /\ ns !! j = Some nf /\
    node_set nf (pdirection pad) (ppad pad) = Some d /\
    s = (before ns j + (match pdirection pad with Input => 0 | Output => length (ninputs nf) end + ppad pad))%nat.
Proof.
  induction ns as [|n ns IH]; intros k s pad d; cbn [imap concat].
  { split; [done|]. by intros (j & nf & _ & [=] & _). }
  rewrite lookup_app_Some, length_node_slots, node_slots_lookup.
  rewrite (imap_ext (λ i, node_slots (k + S i)) (λ i, node_slots (S k + i)))
    by (intros; f_equal; lia).
  unfold compose. rewrite IH. split.
  - intros [(-> & Hd & ->)|(Hge & j & nf & Hn & Hj & Hd & Hs)].
    + exists 0%nat, n. split_and!; [lia|done|done|done].
    + exists (S j), nf. split_and!; [lia|done|done|]. unfold before. cbn. unfold before in Hs. lia.
  - intros ([|j] & nf & Hn & Hj & Hd & ->); [left|right].
    + injection Hj as ->. split_and!; [lia|done|done].
    + split; [unfold before; cbn; lia|]. exists j, nf. split_and!; [lia|done|done|].
      unfold before. cbn. lia.
Qed.

Lemma before_lt ns j nf d pad x :
  ns !! j = Some nf -> node_set nf d pad = Some x ->
  (before ns j + (match d with Input => 0 | Output => length (ninputs nf) end + pad) <
     sum_list_with node_pads ns)%nat.
Proof.
  intros Hj Hx. rewrite <- (take_drop_middle ns j nf Hj) at 2. unfold before.
  rewrite sum_list_with_app. cbn [sum_list_with]. unfold node_pads at 3.
  destruct d; apply lookup_lt_Some in Hx; lia.
Qed.

Lemma all_pads_lookup pl s pad d :
  all_pads pl !! s = Some (pad, d) <-> pad_set pl pad = Some d /\ slot_of (index_plan pl) pad = Some s.
Proof.
  unfold all_pads. rewrite (pads_lookup (nodes pl) 0). unfold pad_set, slot_of. rewrite index_spec. cbn [offsets total].
  rewrite list_lookup_imap. split.
  - intros (j & nf & Ej & Hj & Hd & ->). cbn [Nat.add] in Ej. rewrite Ej, Hj.
    cbn [mbind option_bind fmap option_fmap option_map].
    split; [done|]. pose proof (before_lt _ _ _ _ _ _ Hj Hd).
    destruct (pdirection pad); (rewrite (proj2 (Nat.ltb_lt _ _)) by lia); f_equal; lia.
  - destruct (nodes pl !! pnode pad) as [nf|] eqn:Hj; [|by intros [[=] _]].
    cbn [mbind option_bind fmap option_fmap option_map]. intros [Hd Hs].
    exists (pnode pad), nf. split_and!; [done|done|done|].
    destruct (pdirection pad); (destruct (_ <? _)%nat; [|done]); injection Hs as <-; lia.
Qed.

Lemma length_all_pads pl : length (all_pads pl) = total (index_plan pl).
Proof.
  rewrite index_spec. cbn [total]. unfold all_pads. generalize (nodes pl). intros ns.
  assert (H : forall k, length (concat (imap (fun n => node_slots (k + n)) ns)) = sum_list_with node_pads ns).
  { induction ns as [|n ns IH]; intros k; [done|]. cbn [imap concat sum_list_with].
    rewrite length_app, length_node_slots. f_equal. rewrite <- (IH (S k)). do 2 f_equal.
    apply imap_ext. intros i x _. unfold compose. f_equal. lia. }
  exact (H 0%nat).
Qed.

(** The cell a pad is seeded with. *)
Definition seeded (p : property) (ps : pad_ref * format_set) : option (format_set * provenance) :=
  Some (snd ps, if unconstrained (get_property (snd ps) p) then [] else record_node [] (pnode (fst ps))).

Lemma seed_fold i p ps : forall pre st,
  (forall j x, ps !! j = Some x -> slot_of i (fst x) = Some (length pre + j)%nat) ->
  length st = length ps ->
  fold_left (seed_pad i p) ps (pre ++ st) = pre ++ map (seeded p) ps.
Proof.
  induction ps as [|x ps IH]; intros pre st Hs Hl; [by destruct st|].
  destruct st as [|c st]; [done|]. cbn [fold_left map]. unfold seed_pad at 2.
  rewrite (Hs 0%nat x eq_refl), Nat.add_0_r.
  rewrite insert_app_r_alt by lia. rewrite Nat.sub_diag. cbn [insert list_insert].
  change (pre ++ ?y :: st) with (pre ++ [y] ++ st). rewrite app_assoc, IH.
  - by rewrite <- app_assoc.
  - intros j y Hj. rewrite (Hs (S j) y Hj), length_app. cbn. f_equal. lia.
  - cbn in Hl. lia.
Qed.

Lemma seed_spec pl p : seed pl (index_plan pl) p = map (seeded p) (all_pads pl).
Proof.
  unfold seed. apply (seed_fold _ _ _ []).
  - intros j [pad d] Hj. by apply all_pads_lookup in Hj as [_ ?].
  - by rewrite length_replicate, length_all_pads.
Qed.

(** ** What the graph demands

    Pads agree when ties and links force one value on them. *)

Inductive agree (pl : plan) (p : property) : pad_ref -> pad_ref -> Prop :=
  | agree_refl a : agree pl p a a
  | agree_sym a b : agree pl p a b -> agree pl p b a
  | agree_trans a b c : agree pl p a b -> agree pl p b c -> agree pl p a c
  | agree_tie n nf t d i d' i' :
    nodes pl !! n = Some nf -> t ∈ ties nf -> tproperty t = p ->
    (d, i) ∈ tpads t -> (d', i') ∈ tpads t ->
    agree pl p (PadRef n d i) (PadRef n d' i')
  | agree_link e : e ∈ plinks pl -> uses e p = true -> agree pl p (esrc e) (edst e).

(** Links and ties name pads that exist. *)
Definition plan_ok (pl : plan) : Prop :=
  (forall e, e ∈ plinks pl -> is_Some (pad_set pl (esrc e)) /\ is_Some (pad_set pl (edst e))) /\
  (forall n nf t d i, nodes pl !! n = Some nf -> t ∈ ties nf -> (d, i) ∈ tpads t ->
     is_Some (node_set nf d i)).

(** ** Classes and their constraints *)

Section classes.
Context (pl : plan) (p : property).

Definition decls : list format_set := snd <$> all_pads pl.

Definition says (d : format_set) (v : value_of p) : Prop := permits (get_property d p) v = true.

#[local] Instance says_dec d v : Decision (says d v).
Proof. unfold says. apply _. Defined.

(** The cell of a root holds what all the slots of its class permit. *)
Definition cells_ok (u : union_find) (st : cells) : Prop :=
  forall r, leads (parent u) r r ->
  exists s prov, st !! r = Some (Some (s, prov)) /\
    forall v,
      (says s v -> forall x d, leads (parent u) x r -> decls !! x = Some d -> says d v) /\
      (~ says s v -> exists x d, leads (parent u) x r /\ decls !! x = Some d /\ ~ says d v).

Definition joined (u : union_find) (x y : nat) : Prop :=
  exists r, leads (parent u) x r /\ leads (parent u) y r.

(** Progress: the classes only relate what [E], the demands of the graph,
    relates. *)
Definition progress (E : nat -> nat -> Prop) (u : union_find) (st : cells) : Prop :=
  uf_ok (length decls) u /\ cells_ok u st /\ (forall x y, joined u x y -> E x y).

Lemma joined_same u u' x y : same_roots u u' -> joined u x y -> joined u' x y.
Proof. intros S (r & Hx & Hy). exists r. by split; apply S. Qed.

Lemma progress_same E n u u' st :
  n = length decls -> progress E u st -> uf_ok n u' -> same_roots u u' -> progress E u' st.
Proof.
  intros -> (Hu & Hc & He) Hu' S.
  pose proof (fun z r => same_roots_back (length decls) u u' z r Hu Hu' S) as B.
  split_and!; [done| |].
  - intros r Hr. destruct (Hc r (B _ _ Hr)) as (s & prov & Hs & Hv). exists s, prov.
    split; [done|]. intros v. destruct (Hv v) as [H1 H2]. split.
    + intros Hsv x d Hx. apply H1; [done|by eapply B].
    + intros Hn. destruct (H2 Hn) as (x & d & Hx & Hd). exists x, d. split; [by apply S|done].
  - intros x y (r & Hx & Hy). apply He. exists r. split; by apply B.
Qed.

Definition refuted (E : nat -> nat -> Prop) (a : nat) : Prop :=
  forall v, exists x d, E a x /\ decls !! x = Some d /\ ~ says d v.

Lemma merged_says ls rs merged v :
  merge_property ls rs p = Some merged -> says merged v <-> says ls v /\ says rs v.
Proof.
  intros E. pose proof (merge_property_spec ls rs p v) as H. rewrite E in H.
  unfold says. rewrite H. apply andb_true_iff.
Qed.

Section merging.
Context (E : nat -> nat -> Prop).
Context (Esym : forall x y, E x y -> E y x) (Etrans : forall x y z, E x y -> E y z -> E x z).

(** What a merge leaves: the two slots joined, or proof that they cannot be. *)
Lemma join_spec u st a b :
  progress E u st -> (a < length decls)%nat -> (b < length decls)%nat -> E a b ->
  match join u st a b p with
  | (Ok o, u', st') =>
    progress E u' st' /\ (forall x y, joined u x y -> joined u' x y) /\ joined u' a b /\
    (forall rep, o = Some rep -> joined u' a rep)
  | (Err _, u', st') =>
    progress E u' st' /\ (forall x y, joined u x y -> joined u' x y) /\ refuted E a
  end.
Proof using Esym Etrans.
  intros Hp Ha Hb Eab. pose proof Hp as (Hu & _ & _). unfold join.
  pose proof (find_spec _ u a Hu Ha) as (Fa & Hu1 & S1).
  destruct (find u a) as [ra u1]. cbn [fst snd] in *.
  pose proof (progress_same E _ u u1 st eq_refl Hp Hu1 S1) as Hp1.
  pose proof (find_spec _ u1 b Hu1 Hb) as (Fb & Hu2 & S2).
  destruct (find u1 b) as [rb u2]. cbn [fst snd] in *. apply S1, S2 in Fa. apply S2 in Fb.
  pose proof (progress_same E _ u1 u2 st eq_refl Hp1 Hu2 S2) as Hp2.
  assert (Hmono : forall x y, joined u x y -> joined u2 x y).
  { intros x y H. by eapply joined_same, joined_same. }
  clear S1 S2 Hp1 Hu1 Hu u1. destruct (Nat.eqb_spec ra rb) as [->|Hne].
  { split_and!; [done|done|by exists rb|done]. }
  destruct Hp2 as (_ & Hc & He).
  destruct (Hc ra) as (ls & lp & Hla & Hls); [by eapply leads_fix|].
  destruct (Hc rb) as (rs & rp & Hlb & Hrs); [by eapply leads_fix|]. rewrite Hla, Hlb. cbn [mjoin option_join].
  destruct (merge_property ls rs p) as [merged|] eqn:Em.
  - pose proof (union_spec _ u2 a b ra rb Hu2 Fa Fb) as HU.
    destruct (union u2 a b) as [[w|] u3]; [|by destruct HU as [HU _]].
    destruct HU as (_ & Hw & Hu3 & Hl3).
    assert (Hback : forall z r, leads (parent u3) z r -> exists r', leads (parent u2) z r' /\
      r = if decide (r' = ra \/ r' = rb) then w else r').
    { intros z r Hz. destruct (leads_lt _ u3 Hu3 z r Hz) as [Hzn _].
      destruct (leads_exists _ u2 Hu2 z Hzn) as [r' Hr']. exists r'. split; [done|].
      exact (leads_det _ _ _ Hz _ (Hl3 _ _ Hr')). }
    assert (Hja : leads (parent u3) a w) by (pose proof (Hl3 _ _ Fa) as H; by rewrite decide_True in H by auto).
    assert (Hjb : leads (parent u3) b w) by (pose proof (Hl3 _ _ Fb) as H; by rewrite decide_True in H by auto).
    assert (Hww : leads (parent u3) w w) by (by eapply leads_fix).
    split_and!; [split_and!; [done| |]| | |].
    + intros r Hr. destruct (decide (r = w)) as [->|Hrw].
      * exists merged, (absorb lp rp). split.
        { apply list_lookup_insert_eq. destruct Hw as [->| ->]; by eapply lookup_lt_Some. }
        intros v. rewrite (merged_says ls rs merged v Em).
        destruct (Hls v) as [Hl1 Hl2], (Hrs v) as [Hr1 Hr2]. split.
        -- intros [Hv1 Hv2] x d Hx. destruct (Hback x w Hx) as (r' & Hr' & Ew).
           destruct (decide (r' = ra \/ r' = rb)) as [[-> | ->]|Hn]; [by apply Hl1|by apply Hr1|].
           subst r'. by destruct Hn.
        -- intros Hn. destruct (decide (says ls v)) as [Hv1|Hv1];
             [destruct Hr2 as (x & d & Hx & Hd); [tauto|]|destruct Hl2 as (x & d & Hx & Hd); [done|]];
             exists x, d; (split; [|done]); pose proof (Hl3 _ _ Hx) as H;
             by rewrite decide_True in H by auto.
      * destruct (Hback r r Hr) as (r' & Hr' & Ew).
        destruct (decide (r' = ra \/ r' = rb)) as [|Hn]; [done|]. subst r'.
        destruct (Hc r Hr') as (s & prov & Hs & Hv). exists s, prov.
        split; [by rewrite list_lookup_insert_ne|].
        intros v. destruct (Hv v) as [H1 H2]. split.
        -- intros Hsv x d Hx. apply H1; [done|].
           destruct (Hback x r Hx) as (r' & Hr'' & Ew'). destruct (decide (r' = ra \/ r' = rb)); [done|by subst].
        -- intros Hns. destruct (H2 Hns) as (x & d & Hx & Hd). exists x, d. split; [|done].
           pose proof (Hl3 _ _ Hx) as H'. by rewrite decide_False in H'.
    + assert (Hclass : forall z r, leads (parent u2) z r -> r = ra \/ r = rb -> E a z).
      { intros z r Hz [-> | ->]; [apply He; by exists ra|]. apply Etrans with b; [done|]. apply He. by exists rb. }
      intros x y (r & Hx & Hy). destruct (Hback x r Hx) as (rx & Hrx & Erx).
      destruct (Hback y r Hy) as (ry & Hry & Ery).
      destruct (decide (rx = ra \/ rx = rb)) as [Hx'|Hx'], (decide (ry = ra \/ ry = rb)) as [Hy'|Hy'].
      * apply Etrans with a; [apply Esym|]; by eapply Hclass.
      * subst ry. destruct Hy'. by rewrite Erx.
      * subst rx. destruct Hx'. by rewrite Ery.
      * subst. apply He. by exists ry.
    + intros x y Hxy. apply Hmono in Hxy as (r & Hx & Hy).
      exists (if decide (r = ra \/ r = rb) then w else r). split; by apply Hl3.
    + by exists w.
    + intros rep [= <-]. by exists w.
  - split_and!; [by split_and!|done|]. intros v.
    pose proof (merge_property_spec ls rs p v) as H. rewrite Em in H.
    assert (~ (says ls v /\ says rs v)) as Hno by (unfold says; intros [H1 H2]; by rewrite H1, H2 in H).
    destruct (decide (says ls v)) as [Hv1|Hv1].
    + destruct (Hrs v) as [_ H2]. destruct H2 as (x & d & Hx & Hd); [tauto|]. exists x, d.
      split; [|done]. apply Etrans with b; [done|]. apply He. by exists rb.
    + destruct (Hls v) as [_ H2]. destruct H2 as (x & d & Hx & Hd); [done|]. exists x, d.
      split; [|done]. apply He. by exists ra.
Qed.

End merging.

(** The slot of a pad. *)
Definition at_slot (x : nat) (pad : pad_ref) : Prop := fst <$> all_pads pl !! x = Some pad.

Definition demand (x y : nat) : Prop := exists a b, at_slot x a /\ at_slot y b /\ agree pl p a b.

Lemma demand_sym x y : demand x y -> demand y x.
Proof. intros (a & b & Ha & Hb & H). exists b, a. split_and!; [done..|by apply agree_sym]. Qed.

Lemma demand_trans x y z : demand x y -> demand y z -> demand x z.
Proof.
  intros (a & b & Ha & Hb & H) (b' & c & Hb' & Hc & H'). exists a, c. split_and!; [done..|].
  apply agree_trans with b; [done|]. unfold at_slot in *. by replace b with b' by congruence.
Qed.

Lemma length_decls : length decls = total (index_plan pl).
Proof. unfold decls. by rewrite length_fmap, length_all_pads. Qed.

Lemma slot_valid pad d :
  pad_set pl pad = Some d ->
  exists s, slot_of (index_plan pl) pad = Some s /\ at_slot s pad /\ decls !! s = Some d /\
    (s < length decls)%nat.
Proof.
  intros Hd. assert (exists s, all_pads pl !! s = Some (pad, d)) as [s Hs].
  { unfold pad_set in Hd. destruct (nodes pl !! pnode pad) as [nf|] eqn:En; [|done]. cbn in Hd.
    eexists. apply (pads_lookup (nodes pl) 0). by exists (pnode pad), nf. }
  exists s. pose proof Hs as [_ ?]%all_pads_lookup. unfold at_slot, decls. rewrite list_lookup_fmap, Hs.
  split_and!; [done..|]. rewrite length_fmap. by eapply lookup_lt_Some.
Qed.

Lemma at_slot_valid pad s :
  at_slot s pad -> exists d, pad_set pl pad = Some d /\ slot_of (index_plan pl) pad = Some s /\
    decls !! s = Some d /\ (s < length decls)%nat.
Proof.
  unfold at_slot. destruct (all_pads pl !! s) as [[pad' d]|] eqn:Hs; [|done]. intros [= ->].
  exists d. pose proof Hs as [? ?]%all_pads_lookup. unfold decls. rewrite list_lookup_fmap, Hs.
  split_and!; [done..|]. rewrite length_fmap. by eapply lookup_lt_Some.
Qed.

Lemma joined_trans u x y z : joined u x y -> joined u y z -> joined u x z.
Proof.
  intros (r & Hx & Hy) (s & Hy' & Hz). exists r. split; [done|].
  by rewrite (leads_det _ _ _ Hy _ Hy').
Qed.

Lemma joined_sym u x y : joined u x y -> joined u y x.
Proof. intros (r & Hx & Hy). by exists r. Qed.

Lemma progress_start : progress demand (uf_new (total (index_plan pl))) (seed pl (index_plan pl) p).
Proof.
  rewrite seed_spec, <- length_decls. set (n := length decls).
  assert (Hseq : forall x y, seq 0 n !! x = Some y -> y = x /\ (x < n)%nat).
  { intros x y Hx. apply lookup_seq in Hx. lia. }
  assert (Hlead : forall x r, leads (seq 0 n) x r -> x = r /\ (x < n)%nat).
  { intros x r Hx. inversion Hx as [? E|? y ? E Hn]; subst; apply Hseq in E; [done|]. naive_solver. }
  split_and!.
  - unfold uf_ok, uf_new. cbn [parent usize]. rewrite length_seq, length_replicate.
    split_and!; [done|done| | |].
    + intros x y Hx. apply Hseq in Hx as [-> ?]. done.
    + intros x y Hx Hn. by apply Hseq in Hx as [-> ?].
    + intros x Hx. by rewrite lookup_replicate_2.
  - intros r Hr. apply Hlead in Hr as [_ Hr]. unfold n, decls in Hr. rewrite length_fmap in Hr.
    apply lookup_lt_is_Some in Hr as [[pad d] Hr]. rewrite list_lookup_fmap, Hr.
    eexists d, _. split; [reflexivity|]. intros v.
    assert (Hd : decls !! r = Some d) by (unfold decls; by rewrite list_lookup_fmap, Hr). split.
    + intros Hv x d' Hx Hd'. apply Hlead in Hx as [-> _]. congruence.
    + intros Hv. exists r, d. split_and!; [|done|done]. apply leads_root. cbn.
      apply lookup_seq. split; [done|]. apply lookup_lt_Some in Hd. done.
  - intros x y (r & Hx & Hy). apply Hlead in Hx as [<- Hx], Hy as [<- _].
    unfold n, decls in Hx. rewrite length_fmap in Hx. apply lookup_lt_is_Some in Hx as [[pad d] Hx].
    exists pad, pad. unfold at_slot. rewrite Hx. split_and!; [done..|constructor].
Qed.

(** One tie. *)
Lemma tie_loop_spec n nf pads : forall u st anchor,
  nodes pl !! n = Some nf ->
  (forall d i, (d, i) ∈ pads -> is_Some (node_set nf d i)) ->
  progress demand u st -> (anchor < length decls)%nat ->
  (forall d i s, (d, i) ∈ pads -> at_slot s (PadRef n d i) -> demand anchor s) ->
  match tie_loop (index_plan pl) n p pads u st anchor with
  | Some (u', st') =>
    progress demand u' st' /\ (forall x y, joined u x y -> joined u' x y) /\
    (forall d i s, (d, i) ∈ pads -> at_slot s (PadRef n d i) -> joined u' anchor s)
  | None => refuted demand anchor
  end.
Proof.
  induction pads as [|[d i] pads IH]; intros u st anchor Hn Hok Hp Ha Hdem; cbn [tie_loop].
  { split_and!; [done..|]. intros d i s H. by apply not_elem_of_nil in H. }
  destruct (Hok d i) as [x Hx]; [by left|].
  assert (Hps : pad_set pl (PadRef n d i) = Some x) by (unfold pad_set; cbn; by rewrite Hn).
  destruct (slot_valid _ _ Hps) as (slot & Hs & Hat & _ & Hlt). rewrite Hs.
  assert (Hd : demand anchor slot) by (by eapply Hdem; [left|]).
  pose proof (join_spec demand demand_sym demand_trans u st anchor slot Hp Ha Hlt Hd) as HJ.
  assert (Hrest : forall d i, (d, i) ∈ pads -> is_Some (node_set nf d i)) by (intros; apply Hok; by right).
  assert (Hslot : forall s, at_slot s (PadRef n d i) -> s = slot).
  { intros s Hs'. destruct (at_slot_valid _ _ Hs') as (_ & _ & E & _). congruence. }
  assert (Hgo : forall u1 st1 anchor', progress demand u1 st1 -> (anchor' < length decls)%nat ->
    (forall x y, joined u x y -> joined u1 x y) -> joined u1 anchor slot -> joined u1 anchor anchor' ->
    match tie_loop (index_plan pl) n p pads u1 st1 anchor' with
    | Some (u', st') =>
      progress demand u' st' /\ (forall x y, joined u x y -> joined u' x y) /\
      (forall d' i' s, (d', i') ∈ (d, i) :: pads -> at_slot s (PadRef n d' i') -> joined u' anchor s)
    | None => refuted demand anchor
    end).
  { intros u1 st1 anchor' Hp1 Ha' Hmono Hj Hj'. pose proof Hp1 as (_ & _ & Hj2).
    assert (Hdem' : demand anchor anchor') by by apply Hj2.
    specialize (IH u1 st1 anchor' Hn Hrest Hp1 Ha').
    destruct (tie_loop _ _ _ pads u1 st1 anchor') as [[u' st']|].
    - destruct IH as (Hp' & Hm' & Hall).
      { intros d' i' s Hin Hs'. apply demand_trans with anchor; [by apply demand_sym|].
        by eapply Hdem; [right|]. }
      split_and!; [done|by auto|]. intros d' i' s Hin Hs'.
      apply elem_of_cons in Hin as [[= -> ->]|Hin].
      + apply Hslot in Hs' as ->. by apply Hm'.
      + apply joined_trans with anchor'; [by apply Hm'|by eapply Hall].
    - intros v. destruct IH with (v := v) as (x' & d' & Hx' & Hd').
      { intros d' i' s Hin Hs'. apply demand_trans with anchor; [by apply demand_sym|].
        by eapply Hdem; [right|]. }
      exists x', d'. split; [by eapply demand_trans|done]. }
  destruct (join u st anchor slot p) as [[[[rep|]|[]] u1] st1].
  - destruct HJ as (Hp1 & Hm & Hj & Hrep). specialize (Hrep rep eq_refl).
    apply Hgo; try done. destruct Hrep as (r & _ & Hr). destruct Hp1 as (Hu1 & _).
    apply (leads_lt _ u1 Hu1 _ _ Hr).
  - destruct HJ as (Hp1 & Hm & Hj & _). apply Hgo; try done.
    destruct Hj as (r & Hr & _). by exists r.
  - by destruct HJ as (_ & _ & HJ).
Qed.

End classes.

(** Every tied pad joined, or a pad that no value suits. *)
Lemma tie_pads_spec pl p n nf t u st :
  nodes pl !! n = Some nf -> t ∈ ties nf -> tproperty t = p ->
  (forall d i, (d, i) ∈ tpads t -> is_Some (node_set nf d i)) ->
  progress pl p (demand pl p) u st ->
  match tie_pads (index_plan pl) n p t (Some (u, st)) with
  | Some (u', st') =>
    progress pl p (demand pl p) u' st' /\ (forall x y, joined u x y -> joined u' x y) /\
    (forall d i d' i' s s', (d, i) ∈ tpads t -> (d', i') ∈ tpads t ->
       at_slot pl s (PadRef n d i) -> at_slot pl s' (PadRef n d' i') -> joined u' s s')
  | None => exists a, is_Some (decls pl !! a) /\ refuted pl p (demand pl p) a
  end.
Proof.
  intros Hn Ht Hpt Hok Hp. unfold tie_pads. cbn [mbind option_bind].
  destruct (tpads t) as [|[d i] pads] eqn:Et.
  { split_and!; [done..|]. intros d i d' i' s s' H. by apply not_elem_of_nil in H. }
  destruct (Hok d i) as [x Hx]; [by left|].
  assert (Hps : pad_set pl (PadRef n d i) = Some x) by (unfold pad_set; cbn; by rewrite Hn).
  destruct (slot_valid _ _ _ Hps) as (slot & Hs & Hat & Hdec & Hlt). rewrite Hs.
  assert (Hdem : forall d' i' s, (d', i') ∈ (d, i) :: pads -> at_slot pl s (PadRef n d' i') ->
    demand pl p slot s).
  { intros d' i' s Hin Hs'. exists (PadRef n d i), (PadRef n d' i'). split_and!; [done..|].
    apply agree_tie with nf t; [done..| |]; rewrite Et; [by left|done]. }
  pose proof (tie_loop_spec pl p n nf pads u st slot Hn) as H.
  destruct (tie_loop _ _ _ pads u st slot) as [[u' st']|].
  - destruct H as (Hp' & Hm & Hall); [intros; apply Hok; by right|done|done| |].
    { intros d' i' s Hin. apply Hdem. by right. }
    assert (Hto : forall d' i' s, (d', i') ∈ (d, i) :: pads -> at_slot pl s (PadRef n d' i') ->
      joined u' slot s).
    { intros d' i' s Hin Hs'. apply elem_of_cons in Hin as [[= -> ->]|Hin]; [|by eapply Hall].
      destruct (at_slot_valid _ _ _ Hs') as (_ & _ & E & _). replace s with slot by congruence.
      destruct Hp' as (Hu' & _). destruct (leads_exists _ u' Hu' slot Hlt) as [r Hr]. by exists r. }
    split_and!; [done..|]. intros d1 i1 d2 i2 s s' H1 H2 Hs1 Hs2.
    apply joined_trans with slot; [apply joined_sym; by apply (Hto d1 i1)|by apply (Hto d2 i2)].
  - exists slot. split; [by exists x|]. apply H; [intros; apply Hok; by right|done|done|].
    intros d' i' s Hin. apply Hdem. by right.
Qed.

Lemma tie_pads_None i n p t : tie_pads i n p t None = None.
Proof. done. Qed.

Lemma property_ties_in pl p n t :
  (n, t) ∈ property_ties pl p <-> exists nf, nodes pl !! n = Some nf /\ t ∈ ties nf /\ tproperty t = p.
Proof.
  unfold property_ties. rewrite list_elem_of_In, in_concat. split.
  - intros (l & Hin & Hl). apply list_elem_of_In, elem_of_lookup_imap in Hin as (n' & nf & -> & Hn).
    apply in_map_iff in Hl as (t' & [= -> ->] & Ht%filter_In).
    rewrite bool_decide_eq_true, <- list_elem_of_In in Ht. eauto.
  - intros (nf & Hn & Ht & Hp).
    exists (map (pair n) (List.filter (fun t => bool_decide (tproperty t = p)) (ties nf))). split.
    + apply list_elem_of_In, elem_of_lookup_imap. eauto.
    + apply in_map, filter_In. by rewrite bool_decide_eq_true, <- list_elem_of_In.
Qed.

Section pass.
Context (pl : plan) (Hpl : plan_ok pl) (p : property).
Local Abbreviation idx := (index_plan pl).

Definition tied (u : union_find) (nt : node_id * tie) : Prop :=
  forall d i d' i' s s', (d, i) ∈ tpads (snd nt) -> (d', i') ∈ tpads (snd nt) ->
    at_slot pl s (PadRef (fst nt) d i) -> at_slot pl s' (PadRef (fst nt) d' i') -> joined u s s'.

Definition clash (a : nat) : Prop := is_Some (decls pl !! a) /\ refuted pl p (demand pl p) a.

Lemma join_ties_loop ts : forall u st,
  (forall nt, nt ∈ ts -> nt ∈ property_ties pl p) ->
  progress pl p (demand pl p) u st ->
  match fold_left (fun acc '(n, t) => tie_pads idx n p t acc) ts (Some (u, st)) with
  | Some (u', st') =>
    progress pl p (demand pl p) u' st' /\ (forall x y, joined u x y -> joined u' x y) /\
    (forall nt, nt ∈ ts -> tied u' nt)
  | None => exists a, clash a
  end.
Proof using Hpl.
  induction ts as [|[n t] ts IH]; intros u st Hin Hp; cbn [fold_left].
  { split_and!; [done..|]. intros nt H. by apply not_elem_of_nil in H. }
  pose proof (proj1 (property_ties_in pl p n t) (Hin (n, t) ltac:(by left))) as (nf & Hn & Ht & Hpt).
  pose proof (tie_pads_spec pl p n nf t u st Hn Ht Hpt) as H.
  destruct (tie_pads idx n p t (Some (u, st))) as [[u1 st1]|].
  - destruct H as (Hp1 & Hm & Htied); [intros d i Hi; by eapply (proj2 Hpl)|done|].
    specialize (IH u1 st1). destruct (fold_left _ ts _) as [[u' st']|].
    + destruct IH as (Hp' & Hm' & Hall); [intros nt Hnt; apply Hin; by right|done|].
      split_and!; [done|by auto|]. intros nt [->|Hnt]%elem_of_cons; [|by apply Hall].
      intros d i d' i' s s' H1 H2 Hs Hs'. apply Hm'. by apply (Htied d i d' i').
    + apply IH; [intros nt Hnt; apply Hin; by right|done].
  - assert (E : fold_left (fun acc '(n, t) => tie_pads idx n p t acc) ts None = None).
    { clear. induction ts as [|[n t] ts IH]; [done|]. exact IH. }
    rewrite E. destruct H as (a & Ha); [intros d i Hi; by eapply (proj2 Hpl)|done|]. by exists a.
Qed.

Lemma build_side_same u st pad :
  progress pl p (demand pl p) u st -> is_Some (pad_set pl pad) ->
  progress pl p (demand pl p) (snd (build_side pl idx u st pad)) st /\
  same_roots u (snd (build_side pl idx u st pad)) /\
  spad (fst (build_side pl idx u st pad)) = pad.
Proof.
  intros Hp [d Hd]. destruct (slot_valid _ _ _ Hd) as (s & Hs & _ & _ & Hlt). unfold build_side. rewrite Hs.
  pose proof Hp as (Hu & _). pose proof (find_spec _ u s Hu Hlt) as (_ & Hu1 & S1).
  destruct (find u s) as [r u1]. cbn [snd] in *.
  destruct (default (set_default, []) (mjoin (st !! r))) as [set prov]. cbn [fst snd spad].
  split_and!; [|done|done]. by eapply progress_same.
Qed.

Lemma build_conflict_same u st link ends :
  progress pl p (demand pl p) u st -> is_Some (pad_set pl (esrc ends)) -> is_Some (pad_set pl (edst ends)) ->
  let '(c, u') := build_conflict pl idx u st link ends p in
  progress pl p (demand pl p) u' st /\ same_roots u u' /\
  cproperty c = p /\ clink c = link /\ spad (upstream c) = esrc ends.
Proof.
  intros Hp Hsrc Hdst. unfold build_conflict.
  pose proof (build_side_same u st (esrc ends) Hp Hsrc) as (Hp1 & S1 & E1).
  destruct (build_side pl idx u st (esrc ends)) as [up u1]. cbn [fst snd] in *.
  pose proof (build_side_same u1 st (edst ends) Hp1 Hdst) as (Hp2 & S2 & _).
  destruct (build_side pl idx u1 st (edst ends)) as [down u2]. cbn [fst snd] in *.
  split_and!; try done. intros z r Hz. by apply S2, S1.
Qed.

(** A reported conflict names a link on which no value suits every pad that
    must agree with its source. *)
Definition true_conflict (c : conflict) : Prop :=
  exists e a, plinks pl !! clink c = Some e /\ uses e (cproperty c) = true /\
    spad (upstream c) = esrc e /\ at_slot pl a (esrc e) /\
    refuted pl (cproperty c) (demand pl (cproperty c)) a.

Lemma join_link_spec s i e :
  plinks pl !! i = Some e -> progress pl p (demand pl p) (puf s) (pcells s) ->
  let s' := join_link pl idx p s (i, e) in
  progress pl p (demand pl p) (puf s') (pcells s') /\
  (forall x y, joined (puf s) x y -> joined (puf s') x y) /\
  exists found, pconflicts s' = pconflicts s ++ found /\
    (forall c, c ∈ found -> true_conflict c) /\
    (found = [] -> uses e p = true -> forall a b,
       at_slot pl a (esrc e) -> at_slot pl b (edst e) -> joined (puf s') a b).
Proof using Hpl.
  intros Hi Hp. unfold join_link. destruct (uses e p) eqn:Eu; cbn [negb].
  2: { split_and!; [done..|]. exists []. split_and!; [by rewrite app_nil_r|set_solver|done]. }
  assert (Hel : e ∈ plinks pl) by (by eapply list_elem_of_lookup_2).
  destruct (proj1 Hpl e Hel) as [[ds Hds] [dd Hdd]].
  destruct (slot_valid _ _ _ Hds) as (a & Ha & Hata & Hda & Hla).
  destruct (slot_valid _ _ _ Hdd) as (b & Hb & Hatb & Hdb & Hlb). rewrite Ha, Hb.
  assert (Hdem : demand pl p a b).
  { exists (esrc e), (edst e). split_and!; [done..|]. by apply agree_link. }
  pose proof (join_spec pl p (demand pl p) (demand_sym pl p) (demand_trans pl p)
                (puf s) (pcells s) a b Hp Hla Hlb Hdem) as HJ.
  destruct (join (puf s) (pcells s) a b p) as [[[o|[]] u1] st1].
  - destruct HJ as (Hp1 & Hm & Hj & _). cbn [puf pcells pconflicts]. split_and!; [done..|].
    exists []. split_and!; [by rewrite app_nil_r|set_solver|]. intros _ _ a' b' H1 H2.
    destruct (at_slot_valid _ _ _ H1) as (_ & _ & E1 & _). destruct (at_slot_valid _ _ _ H2) as (_ & _ & E2 & _).
    by replace a' with a by congruence; replace b' with b by congruence.
  - destruct HJ as (Hp1 & Hm & Href).
    pose proof (build_conflict_same u1 st1 i e Hp1 ltac:(eauto) ltac:(eauto)) as HB.
    destruct (build_conflict pl idx u1 st1 i e p) as [c u2].
    destruct HB as (Hp2 & S & Hcp & Hcl & Hcs). cbn [puf pcells pconflicts]. split_and!; [done| |].
    + intros x y Hxy. by eapply joined_same, Hm.
    + exists [c]. split_and!; [done| |done]. intros c' ->%list_elem_of_singleton.
      exists e, a. rewrite Hcp, Hcl. done.
Qed.

Lemma join_links_loop es : forall s,
  (forall i e, (i, e) ∈ es -> plinks pl !! i = Some e) ->
  progress pl p (demand pl p) (puf s) (pcells s) ->
  let s' := fold_left (join_link pl idx p) es s in
  progress pl p (demand pl p) (puf s') (pcells s') /\
  (forall x y, joined (puf s) x y -> joined (puf s') x y) /\
  exists found, pconflicts s' = pconflicts s ++ found /\
    (forall c, c ∈ found -> true_conflict c) /\
    (found = [] -> forall i e a b, (i, e) ∈ es -> uses e p = true ->
       at_slot pl a (esrc e) -> at_slot pl b (edst e) -> joined (puf s') a b).
Proof using Hpl.
  induction es as [|[i e] es IH]; intros s Hin Hp; cbn [fold_left].
  { split_and!; [done..|]. exists []. split_and!; [by rewrite app_nil_r|set_solver|set_solver]. }
  destruct (join_link_spec s i e (Hin i e ltac:(by left)) Hp) as (Hp1 & Hm1 & f1 & Hf1 & Hc1 & Hj1).
  destruct (IH (join_link pl idx p s (i, e)) ltac:(intros; apply Hin; by right) Hp1)
    as (Hp2 & Hm2 & f2 & Hf2 & Hc2 & Hj2).
  split_and!; [done|by auto|]. exists (f1 ++ f2). split_and!.
  - by rewrite Hf2, Hf1, app_assoc.
  - intros c [H|H]%elem_of_app; auto.
  - intros [-> ->]%app_eq_nil i' e' a b [[= -> ->]|H]%elem_of_cons Hu Ha Hb;
      [apply Hm2; by apply Hj1|by eapply Hj2].
Qed.

End pass.

(** ** Picking *)

Definition format_at (fs : list format_set) (i : link_id) : format_set := default set_default (fs !! i).

(** The answer for one property: one value per link, permitted by every pad
    that must agree with it, and the same on links that must agree. *)
Definition agreed (pl : plan) (p : property) (fs : list format_set) : Prop :=
  forall i e, plinks pl !! i = Some e -> uses e p = true ->
  exists v, get_property (format_at fs i) p = Some (Exact v) /\
    (forall pad d, agree pl p (esrc e) pad -> pad_set pl pad = Some d -> says p d v) /\
    (forall j e', plinks pl !! j = Some e' -> uses e' p = true -> agree pl p (esrc e) (esrc e') ->
       get_property (format_at fs j) p = Some (Exact v)).

Section pick.
Context (pl : plan) (Hpl : plan_ok pl) (p : property).
Local Abbreviation idx := (index_plan pl).
Local Abbreviation prog := (progress pl p (demand pl p)).

Lemma format_at_alter fs i j g :
  (i < length fs)%nat ->
  format_at (alter g i fs) j = if decide (i = j) then g (format_at fs j) else format_at fs j.
Proof.
  intros Hi. unfold format_at. destruct (decide (i = j)) as [<-|Hn].
  - rewrite list_lookup_alter_eq. destruct (fs !! i) eqn:E; [done|]. apply lookup_ge_None in E. lia.
  - by rewrite list_lookup_alter_ne.
Qed.

(** The value of a link is the one its class's cell picks. *)
Definition picked (u : union_find) (st : cells) (fs : list format_set) (i : link_id) (e : link_ends) : Prop :=
  exists a r set prov v, at_slot pl a (esrc e) /\ leads (parent u) a r /\
    st !! r = Some (Some (set, prov)) /\ first_of (get_property set p) = Some (Exact v) /\
    get_property (format_at fs i) p = Some (Exact v).

Lemma pick_loop st es : forall u out,
  NoDup es.*1 -> (forall i e, (i, e) ∈ es -> plinks pl !! i = Some e) ->
  length out = length (plinks pl) -> prog u st ->
  match fold_left (pick_link pl idx p st) es (Ok (u, out)) with
  | Ok (_, out') =>
    length out' = length out /\
    (forall i q, i ∉ es.*1 \/ q <> p ->
       get_property (format_at out' i) q = get_property (format_at out i) q) /\
    (forall i e, (i, e) ∈ es -> uses e p = true -> picked u st out' i e)
  | Err _ => True
  end.
Proof using Hpl.
  assert (Hfail : forall es er, fold_left (pick_link pl idx p st) es (Err er) = Err er)
    by (intros es'; induction es' as [|x es' IH]; intros er; [done|exact (IH er)]).
  induction es as [|[i e] es IH]; intros u out Hnd Hin Hlen Hp; cbn [fold_left].
  { split_and!; [done..|]. intros i e H. by apply not_elem_of_nil in H. }
  cbn [fmap list_fmap fst] in Hnd. apply NoDup_cons in Hnd as [Hi Hnd].
  assert (Hin' : forall i e, (i, e) ∈ es -> plinks pl !! i = Some e) by (intros; apply Hin; by right).
  assert (Hie : plinks pl !! i = Some e) by (apply Hin; by left).
  assert (Hil : (i < length out)%nat) by (rewrite Hlen; by eapply lookup_lt_Some).
  unfold pick_link at 2. cbn [mbind result_bind]. destruct (uses e p) eqn:Eu; cbn [negb].
  2: { specialize (IH u out Hnd Hin' Hlen Hp). destruct (fold_left _ es _) as [[u' out']|]; [|done].
       destruct IH as (Hl & Hsame & Hpick). split_and!; [done| |].
       - intros j q Hj. apply Hsame. cbn in Hj. set_solver.
       - intros j e' [[= -> ->]|H]%elem_of_cons Hu; [congruence|by apply Hpick]. }
  destruct (proj1 Hpl e ltac:(by eapply list_elem_of_lookup_2)) as [[d Hd] _].
  destruct (slot_valid _ _ _ Hd) as (a & Ha & Hat & _ & Hlt). rewrite Ha.
  pose proof Hp as (Hu & Hc & _). pose proof (find_spec _ u a Hu Hlt) as (Fa & Hu1 & S1).
  destruct (find u a) as [r u1]. cbn [fst snd] in *.
  destruct (Hc r ltac:(by eapply leads_fix)) as (set & prov & Hst & _). rewrite Hst. cbn [mjoin option_join].
  destruct (unconstrained (get_property (pick_format set p) p)) eqn:Un; [by rewrite Hfail|].
  unfold pick_format in Un. rewrite get_set_property in Un.
  destruct (first_of_exact _ Un) as [v Hv].
  pose proof (progress_same pl p (demand pl p) _ u u1 st eq_refl Hp Hu1 S1) as Hp1.
  assert (Hback : forall z s, leads (parent u1) z s -> leads (parent u) z s)
    by (intros z s Hz; by apply (same_roots_back _ u u1 z s Hu Hu1 S1)).
  specialize (IH u1 (alter (fun o => install o (pick_format set p) p) i out) Hnd Hin').
  rewrite length_alter in IH. specialize (IH Hlen Hp1).
  destruct (fold_left _ es _) as [[u' out']|]; [|done]. destruct IH as (Hl & Hsame & Hpick).
  split_and!; [done| |].
  - intros j q Hj. rewrite (Hsame j q) by (cbn in Hj; set_solver). rewrite format_at_alter by done.
    destruct (decide (i = j)) as [->|]; [|done]. unfold install. apply get_set_other.
    destruct Hj as [Hj|Hj]; [cbn in Hj; set_solver|congruence].
  - intros j e' [[= -> ->]|H]%elem_of_cons Hu'.
    + exists a, r, set, prov, v. split_and!; try done.
      rewrite (Hsame i p) by (by left). rewrite format_at_alter, decide_True by done.
      unfold install, pick_format. by rewrite get_set_property, get_set_property.
    + destruct (Hpick j e' H Hu') as (a' & r' & s' & pr' & v' & ? & Hr' & ?).
      exists a', r', s', pr', v'. split_and!; try tauto. by apply Hback.
Qed.

(** When every tie and link of the property is joined, pads that must agree are
    in one class. *)
Lemma agree_joined u a b :
  uf_ok (length (decls pl)) u ->
  (forall nt, nt ∈ property_ties pl p -> tied pl u nt) ->
  (forall i e a b, plinks pl !! i = Some e -> uses e p = true ->
     at_slot pl a (esrc e) -> at_slot pl b (edst e) -> joined u a b) ->
  agree pl p a b ->
  (forall s, at_slot pl s a -> exists s', at_slot pl s' b /\ joined u s s') /\
  (forall s', at_slot pl s' b -> exists s, at_slot pl s a /\ joined u s s').
Proof using Hpl.
  intros Hu Ht Hl. induction 1 as [a|a b _ [IH1 IH2]|a b c _ [IH1 IH2] _ [IH3 IH4]|n nf t d i d' i' Hn Hin Hp H1 H2|e He Hue].
  - assert (H : forall s, at_slot pl s a -> joined u s s).
    { intros s Hs. destruct (at_slot_valid _ _ _ Hs) as (_ & _ & _ & _ & Hlt).
      destruct (leads_exists _ u Hu s Hlt) as [r Hr]. by exists r. }
    split; intros s Hs; exists s; by auto.
  - split; intros s Hs; [destruct (IH2 s Hs) as (s' & ? & ?)|destruct (IH1 s Hs) as (s' & ? & ?)];
      exists s'; (split; [done|by apply joined_sym]).
  - split; intros s Hs.
    + destruct (IH1 s Hs) as (s' & Hs' & ?), (IH3 s' Hs') as (s'' & ? & ?).
      exists s''. split; [done|by eapply joined_trans].
    + destruct (IH4 s Hs) as (s' & Hs' & ?), (IH2 s' Hs') as (s'' & ? & ?).
      exists s''. split; [done|by eapply joined_trans].
  - assert (Hslot : forall d i, (d, i) ∈ tpads t -> exists s, at_slot pl s (PadRef n d i)).
    { intros d0 i0 H0. destruct (proj2 Hpl n nf t d0 i0 Hn Hin H0) as [x Hx].
      destruct (slot_valid pl (PadRef n d0 i0) x) as (s & _ & ? & _); [|by exists s].
      unfold pad_set. cbn. by rewrite Hn. }
    assert (Htie : tied pl u (n, t)) by (apply Ht, property_ties_in; eauto).
    split; intros s Hs; [destruct (Hslot _ _ H2) as [s' Hs']|destruct (Hslot _ _ H1) as [s' Hs']];
      exists s'; (split; [done|]); [by apply (Htie d i d' i')|by apply (Htie d i d' i')].
  - destruct (proj1 Hpl e He) as [[ds Hds] [dd Hdd]].
    destruct (slot_valid _ _ _ Hds) as (x & _ & Hx & _), (slot_valid _ _ _ Hdd) as (y & _ & Hy & _).
    apply list_elem_of_lookup in He as [j Hj].
    split; intros s Hs; [exists y|exists x]; (split; [done|]); by eapply Hl.
Qed.

(** Picking from joined classes answers the property. *)
Lemma picked_agreed u st fs :
  prog u st ->
  (forall nt, nt ∈ property_ties pl p -> tied pl u nt) ->
  (forall i e a b, plinks pl !! i = Some e -> uses e p = true ->
     at_slot pl a (esrc e) -> at_slot pl b (edst e) -> joined u a b) ->
  (forall i e, plinks pl !! i = Some e -> uses e p = true -> picked u st fs i e) ->
  agreed pl p fs.
Proof using Hpl.
  intros (Hu & Hc & _) Ht Hl Hpick i e Hi Hue.
  destruct (Hpick i e Hi Hue) as (a & r & set & prov & v & Ha & Hr & Hst & Hv & Hget).
  exists v. split_and!; [done| |].
  - intros pad d Hag Hd. destruct (agree_joined u _ _ Hu Ht Hl Hag) as [H1 _].
    destruct (H1 a Ha) as (s & Hs & r' & Hr1 & Hr2). rewrite (leads_det _ _ _ Hr1 _ Hr) in Hr2.
    destruct (Hc r ltac:(by eapply leads_fix)) as (set' & prov' & Hst' & Hcell).
    assert (set' = set) as -> by congruence. destruct (at_slot_valid _ _ _ Hs) as (d' & Hd' & _ & Hdec & _).
    apply (proj1 (Hcell v)) with s; [by apply first_of_spec|done|]. congruence.
  - intros j e' Hj Hue' Hag. destruct (agree_joined u _ _ Hu Ht Hl Hag) as [H1 _].
    destruct (Hpick j e' Hj Hue') as (a' & r' & set' & prov' & v' & Ha' & Hr' & Hst' & Hv' & Hget').
    destruct (H1 a Ha) as (s & Hs & r2 & Hr1 & Hr2). rewrite (leads_det _ _ _ Hr1 _ Hr) in Hr2.
    destruct (at_slot_valid _ _ _ Hs) as (_ & _ & E1 & _), (at_slot_valid _ _ _ Ha') as (_ & _ & E2 & _).
    assert (s = a') as -> by congruence. assert (r' = r) as -> by (by eapply leads_det).
    congruence.
Qed.

End pick.

(** ** Solving, once *)

Section once.
Context (pl : plan) (Hpl : plan_ok pl).
Local Abbreviation idx := (index_plan pl).

(** Failures of a pass: ties of one node that no value suits, or a property that
    nothing on a link's class pins. *)
Definition honest_failure (e : error) : Prop :=
  (exists p a, clash pl p a) \/
  e = Unsupported "format negotiation left a property unconstrained; nothing in the graph said what it carries".

Lemma pick_failure p st es : forall acc,
  (forall e, acc = Err e -> honest_failure e) ->
  forall e, fold_left (pick_link pl idx p st) es acc = Err e -> honest_failure e.
Proof.
  induction es as [|[i l] es IH]; intros acc Hacc e; [by apply Hacc|]. cbn [fold_left]. apply IH.
  intros e'. unfold pick_link. destruct acc as [[u out]|e0]; cbn [mbind result_bind];
    [|intros [= <-]; by apply Hacc].
  destruct (uses l p); [|done]. cbn [negb]. destruct (slot_of idx (esrc l)); [|done].
  destruct (find u n) as [r u']. destruct (mjoin (st !! r)) as [[set prov]|]; [|done].
  destruct (unconstrained _); [|done]. intros [= <-]. by right.
Qed.

Lemma enumerate_fst {A} (l : list A) : (enumerate l).*1 = seq 0 (length l).
Proof.
  apply list_eq. intros i. unfold enumerate. rewrite list_lookup_fmap, list_lookup_imap.
  destruct (l !! i) as [x|] eqn:E; cbn.
  - symmetry. apply lookup_seq. apply lookup_lt_Some in E. lia.
  - symmetry. apply lookup_ge_None. rewrite length_seq. by apply lookup_ge_None.
Qed.

Lemma enumerate_elem {A} (l : list A) i x : (i, x) ∈ enumerate l <-> l !! i = Some x.
Proof.
  unfold enumerate. rewrite elem_of_lookup_imap. split; [by intros (? & ? & [= -> ->] & ?)|eauto].
Qed.

Lemma solve_property_spec o p :
  length (link_formats o) = length (plinks pl) ->
  match solve_property pl idx (Ok o) p with
  | Ok o' =>
    length (link_formats o') = length (plinks pl) /\
    (forall i q, q <> p -> get_property (format_at (link_formats o') i) q =
                           get_property (format_at (link_formats o) i) q) /\
    exists found, conflicts o' = conflicts o ++ found /\
      (forall c, c ∈ found -> true_conflict pl c) /\
      (found = [] -> agreed pl p (link_formats o'))
  | Err e => honest_failure e
  end.
Proof using Hpl.
  intros Hlen. unfold solve_property. cbn [mbind result_bind].
  pose proof (join_ties_loop pl Hpl p (property_ties pl p) _ _ (fun nt H => H) (progress_start pl p)) as HT.
  unfold join_ties. destruct (fold_left _ (property_ties pl p) _) as [[u st]|].
  2: { left. destruct HT as [a Ha]. by exists p, a. }
  destruct HT as (Hp & _ & Htied).
  destruct (join_links_loop pl Hpl p (enumerate (plinks pl)) (Pass u st (conflicts o) (resolved_sides o)))
    as (Hp' & Hm & found & Hf & Hc & Hj); [by intros ?? ?%enumerate_elem|done|].
  cbn [puf pcells pconflicts] in *. fold (join_links pl idx p (Pass u st (conflicts o) (resolved_sides o))) in *.
  set (s := join_links _ _ _ _) in *.
  destruct (Nat.ltb_spec (length (conflicts o)) (length (pconflicts s))) as [Hlt|Hge].
  - cbn [link_formats conflicts]. split_and!; [done|done|]. exists found. split_and!; [done|done|].
    intros ->. rewrite Hf, app_nil_r in Hlt. lia.
  - assert (found = []) as -> by (rewrite Hf, length_app in Hge; destruct found; [done|cbn in Hge; lia]).
    pose proof (pick_loop pl Hpl p (pcells s) (enumerate (plinks pl)) (puf s) (link_formats o)) as HP.
    rewrite enumerate_fst in HP.
    specialize (HP (NoDup_seq _ _) ltac:(by intros ?? ?%enumerate_elem) Hlen Hp').
    pose proof (pick_failure p (pcells s) (enumerate (plinks pl)) (Ok (puf s, link_formats o))
                  ltac:(done)) as HF.
    destruct (fold_left _ (enumerate (plinks pl)) _) as [[u' out]|e]; cbn [mbind result_bind]; [|by apply HF].
    destruct HP as (Hl & Hsame & Hpick). cbn [link_formats conflicts].
    split_and!; [by rewrite Hl|by intros i q Hq; apply Hsame; right|].
    exists []. split_and!; [done|set_solver|]. intros _.
    apply (picked_agreed pl Hpl p (puf s) (pcells s)); [done| | |].
    + intros nt Hnt d i d' i' a b H1 H2 Ha Hb. apply Hm. by apply (Htied nt Hnt d i d' i').
    + intros i e a b Hi Hu Ha Hb. apply (Hj eq_refl i e); [by apply enumerate_elem|done..].
    + intros i e Hi Hu. apply Hpick; [by apply enumerate_elem|done].
Qed.

(** Agreement reads one property of each link. *)
Lemma agreed_ext p fs fs' :
  (forall i, get_property (format_at fs' i) p = get_property (format_at fs i) p) ->
  agreed pl p fs -> agreed pl p fs'.
Proof.
  intros E H i e Hi Hu. destruct (H i e Hi Hu) as (v & Hv & Hd & Hj). exists v.
  split_and!; [by rewrite E|done|]. intros j e' Hj' Hu' Ha. rewrite E. by eapply Hj.
Qed.

Lemma solve_fold ps : forall o,
  NoDup ps -> length (link_formats o) = length (plinks pl) ->
  match fold_left (solve_property pl idx) ps (Ok o) with
  | Ok o' =>
    (forall i q, q ∉ ps -> get_property (format_at (link_formats o') i) q =
                           get_property (format_at (link_formats o) i) q) /\
    exists found, conflicts o' = conflicts o ++ found /\
      (forall c, c ∈ found -> true_conflict pl c) /\
      (found = [] -> forall p, p ∈ ps -> agreed pl p (link_formats o'))
  | Err e => honest_failure e
  end.
Proof using Hpl.
  induction ps as [|p ps IH]; intros o Hnd Hlen; cbn [fold_left].
  { split; [done|]. exists []. split_and!; [by rewrite app_nil_r|set_solver|set_solver]. }
  apply NoDup_cons in Hnd as [Hp Hnd]. pose proof (solve_property_spec o p Hlen) as H1.
  destruct (solve_property pl idx (Ok o) p) as [o1|e].
  - destruct H1 as (Hl1 & Hs1 & f1 & Hf1 & Hc1 & Ha1). specialize (IH o1 Hnd Hl1).
    destruct (fold_left _ ps _) as [o'|e]; [|done]. destruct IH as (Hs2 & f2 & Hf2 & Hc2 & Ha2). split.
    + intros i q Hq. rewrite Hs2, Hs1; [done|..]; set_solver.
    + exists (f1 ++ f2). split_and!; [by rewrite Hf2, Hf1, app_assoc| |].
      * intros c [?|?]%elem_of_app; auto.
      * intros [-> ->]%app_eq_nil q [->|Hq]%elem_of_cons; [|by apply Ha2].
        apply agreed_ext with (link_formats o1); [|by apply Ha1]. intros i. by apply Hs2.
  - assert (E : forall ps, fold_left (solve_property pl idx) ps (Err e) = Err e)
      by (clear; intros ps; induction ps as [|x ps IH]; [done|exact IH]).
    by rewrite E.
Qed.

Lemma solve_once_spec :
  match solve_once pl with
  | Ok o =>
    (forall c, c ∈ conflicts o -> true_conflict pl c) /\
    (conflicts o = [] -> forall p, agreed pl p (link_formats o))
  | Err e => honest_failure e
  end.
Proof using Hpl.
  unfold solve_once.
  pose proof (solve_fold PROPERTIES (Outcome (replicate (length (plinks pl)) set_default) [] [])) as H.
  destruct (fold_left _ PROPERTIES _) as [o|e]; cbn [link_formats conflicts] in H.
  - destruct H as (_ & found & Hf & Hc & Ha);
      [repeat constructor; set_solver|by rewrite length_replicate|].
    rewrite Hf. split; [done|]. intros E p. apply Ha; [done|]. destruct p; unfold PROPERTIES; set_solver.
  - apply H; [repeat constructor; set_solver|by rewrite length_replicate].
Qed.

End once.

(** ** Repairing *)

Lemma pad_set_grow ns n ls ls' pad d :
  pad_set (Plan ns ls) pad = Some d -> pad_set (Plan (ns ++ [n]) ls') pad = Some d.
Proof.
  unfold pad_set. cbn [nodes]. destruct (ns !! pnode pad) as [nf|] eqn:E; [|done].
  by rewrite (lookup_app_l_Some _ _ _ _ E).
Qed.

Definition formats_ok (nf : node_formats) : Prop :=
  forall t d i, t ∈ ties nf -> (d, i) ∈ tpads t -> is_Some (node_set nf d i).

Lemma plan_splice_ok pl link nf node tail pl' :
  plan_ok pl -> formats_ok nf -> plan_splice pl link nf = Ok (node, tail, pl') -> plan_ok pl'.
Proof.
  intros [Hl Ht] Hf. unfold plan_splice.
  destruct ((length (ninputs nf) =? 1)%nat && (length (noutputs nf) =? 1)%nat) eqn:E1; [|done].
  apply andb_true_iff in E1 as [Ei%Nat.eqb_eq Eo%Nat.eqb_eq]. cbn [negb].
  destruct (plinks pl !! link) as [ends|] eqn:El; [|done]. cbn. intros [= <- <- <-].
  pose proof (Hl ends ltac:(by eapply list_elem_of_lookup_2)) as [[ds Hs] [dd Hd]].
  assert (Hin : is_Some (pad_set (Plan (nodes pl ++ [nf]) []) (pad_input (length (nodes pl)) 0))).
  { unfold pad_set. cbn. rewrite list_lookup_middle by done. cbn. apply lookup_lt_is_Some. lia. }
  assert (Hout : is_Some (pad_set (Plan (nodes pl ++ [nf]) []) (pad_output (length (nodes pl)) 0))).
  { unfold pad_set. cbn. rewrite list_lookup_middle by done. cbn. apply lookup_lt_is_Some. lia. }
  assert (Hgrow : forall ls pad, is_Some (pad_set pl pad) -> is_Some (pad_set (Plan (nodes pl ++ [nf]) ls) pad)).
  { intros ls pad [d Hd']. exists d. destruct pl as [ns ls0]. by eapply pad_set_grow. }
  split; cbn [plinks nodes].
  - intros e [He|He]%elem_of_app; [|apply list_elem_of_singleton in He as ->; split; [exact Hout|by apply Hgrow; exists dd]].
    apply list_elem_of_lookup in He as [j Hj]. destruct (decide (j = link)) as [->|Hn].
    + rewrite list_lookup_insert_eq in Hj by (by eapply lookup_lt_Some). injection Hj as <-.
      split; [by apply Hgrow; exists ds|exact Hin].
    + rewrite list_lookup_insert_ne in Hj by done.
      destruct (Hl e ltac:(by eapply list_elem_of_lookup_2)). by split; apply Hgrow.
  - intros n nf' t d i [Hn|[Hge Hn]]%lookup_app_Some; [by apply (Ht n)|].
    apply list_lookup_singleton_Some in Hn as [_ <-]. by apply Hf.
Qed.

Section negotiation.
Context (factory : converter_factory).
Context (Hfac : forall m ps up down spec, factory m ps up down = Some spec -> formats_ok (cformats spec)).

Lemma repair_link_ok o pl ins lp :
  plan_ok pl ->
  match repair_link factory o pl ins lp with
  | Ok (pl', ins') => plan_ok pl' /\ (pl' = pl /\ ins' = ins \/ (length ins < length ins')%nat)
  | Err (_, pl') => plan_ok pl'
  end.
Proof using Hfac.
  intros Hpl. destruct lp as [link ps]. unfold repair_link.
  destruct (plinks pl !! link) as [ends|]; [|by split; [|left]].
  destruct (pad_set pl (esrc ends)), (pad_set pl (edst ends)); try (by split; [|left]).
  destruct (overlay_agreed _ _ _ _ _) as [up down].
  destruct (factory _ _ _ _) as [spec|] eqn:Ef; [|by split; [|left]].
  destruct (plan_splice _ _ _) as [[[node tail] pl']|e] eqn:Es; [|done]. split.
  - eapply plan_splice_ok; [done| |done]. exact (Hfac _ _ _ _ _ Ef).
  - right. rewrite length_app. cbn. lia.
Qed.

Lemma repair_fold o lps : forall pl ins,
  plan_ok pl ->
  match fold_left (fun acc lp => '(pl, ins) ← acc; repair_link factory o pl ins lp) lps (Ok (pl, ins)) with
  | Ok (pl', ins') => plan_ok pl' /\ (pl' = pl /\ ins' = ins \/ (length ins < length ins')%nat)
  | Err (_, pl') => plan_ok pl'
  end.
Proof using Hfac.
  induction lps as [|lp lps IH]; intros pl ins Hpl; cbn [fold_left]; [by split; [|left]|].
  cbn [mbind result_bind]. pose proof (repair_link_ok o pl ins lp Hpl) as H1.
  destruct (repair_link factory o pl ins lp) as [[pl1 ins1]|[e pl1]].
  - destruct H1 as [Hp1 H1]. specialize (IH pl1 ins1 Hp1).
    destruct (fold_left _ lps _) as [[pl' ins']|[e pl']]; [|done]. destruct IH as [Hp' H2].
    split; [done|]. destruct H1 as [[-> ->]|H1], H2 as [[-> ->]|H2]; [by left|right; lia..].
  - assert (E : fold_left (fun acc lp => '(pl, ins) ← acc; repair_link factory o pl ins lp) lps
      (Err (e, pl1)) = Err (e, pl1)) by (clear; induction lps as [|x lps IH]; [done|exact IH]).
    by rewrite E.
Qed.

Lemma negotiate_loop_spec fuel : forall bound mode pl ins round,
  plan_ok pl -> 0 <= round <= bound -> bound < 2 ^ 32 -> bound - round < Z.of_nat fuel ->
  exists pl' cs r, negotiate_loop factory fuel bound mode pl ins round = Some (pl', cs, r) /\
    plan_ok pl' /\
    (forall a, r = Ok a -> cs = [] /\ forall p, agreed pl' p (alinks a)) /\
    (forall c, c ∈ cs -> true_conflict pl' c) /\
    (mode = ConvertNone -> pl' = pl).
Proof using Hfac.
  induction fuel as [|fuel IH]; intros bound mode pl ins round Hpl Hr Hb Hf; [lia|].
  cbn [negotiate_loop]. pose proof (solve_once_spec pl Hpl) as HS.
  destruct (solve_once pl) as [o|e].
  2: { eexists _, _, _. split; [reflexivity|]. split_and!; [done|done|set_solver|done]. }
  destruct HS as [Hc Ha]. destruct (conflicts o) as [|c0 cs0] eqn:Eo.
  { eexists _, _, _. split; [reflexivity|]. split_and!; [done| |set_solver|done].
    intros a [= <-]. split; [done|]. by apply Ha. }
  destruct mode.
  2: { eexists _, _, _. split; [reflexivity|]. split_and!; [done|done| |done].
       intros c. rewrite list_elem_of_In. intros Hin%in_map_iff.
       destruct Hin as (c' & <- & Hin). exact (Hc c' (proj2 (list_elem_of_In _ _) Hin)). }
  destruct (Z.leb_spec bound round).
  { eexists _, _, _. split; [reflexivity|]. split_and!; [done|done|set_solver|done]. }
  pose proof (repair_fold o (fold_left coalesce (conflicts o) []) pl ins Hpl) as HR. unfold repair.
  destruct (fold_left _ (fold_left coalesce (conflicts o) []) _) as [[pl' ins']|[e pl']].
  2: { eexists _, _, _. split; [reflexivity|]. split_and!; [done|done|set_solver|done]. }
  destruct HR as [Hpl' HR]. destruct (Nat.eqb_spec (length ins') (length ins)) as [El|Hn].
  { destruct HR as [[-> ->]|HR]; [|lia]. eexists _, _, _. split; [reflexivity|].
    by split_and!. }
  destruct (IH bound ConvertAll pl' ins' (sat_u 32 (round + 1)) Hpl') as (pl2 & cs & r & E & H1 & H2 & H3 & _);
    [rewrite sat_u_id; lia|done|rewrite sat_u_id; lia|].
  exists pl2, cs, r. by split_and!.
Qed.

End negotiation.

(** C29. Negotiation is sound and ends. Whatever converters the factory offers, it
    returns; on success every link carries, for each property of its medium, one
    value that each pad bound to it by ties and links declared it accepts, and
    links bound to each other carry the same one; and each conflict it reports
    is real: no value suits every pad bound to the source of the link it names. *)
Theorem negotiate_sound factory pl mode :
  plan_ok pl ->
  (forall m ps up down spec, factory m ps up down = Some spec -> formats_ok (cformats spec)) ->
  exists pl' cs r, negotiate factory pl mode = Some (pl', cs, r) /\
    (mode = ConvertNone -> pl' = pl) /\
    (forall a, r = Ok a -> cs = [] /\ forall p, agreed pl' p (alinks a)) /\
    (forall c, c ∈ cs -> exists e, plinks pl' !! clink c = Some e /\ esrc e = spad (upstream c) /\
       forall v, exists pad d, agree pl' (cproperty c) (esrc e) pad /\ pad_set pl' pad = Some d /\
         ~ says (cproperty c) d v).
Proof.
  intros Hpl Hfac. unfold negotiate.
  assert (Hb : 0 <= round_bound pl < 2 ^ 32) by (unfold round_bound, sat_u; lia).
  destruct (negotiate_loop_spec factory Hfac (S (Z.to_nat (round_bound pl))) (round_bound pl) mode pl [] 0)
    as (pl' & cs & r & E & _ & Ha & Hc & Hm); [done|lia|lia|lia|].
  exists pl', cs, r. split_and!; [done|done|done|]. intros c Hin.
  destruct (Hc c Hin) as (e & a & Hi & _ & Hs & Hat & Href). exists e. split_and!; [done|done|].
  intros v. destruct (Href v) as (x & d & (pa & pb & Hpa & Hpb & Hag) & Hd & Hn).
  exists pb, d. destruct (at_slot_valid _ _ _ Hpb) as (d' & Hd' & _ & Hdec & _).
  assert (esrc e = pa) as -> by (unfold at_slot in *; congruence).
  split_and!; [done|congruence|done].
Qed.

(** ** A concrete graph

    A source that only makes [Rgb24], a filter that keeps its format, a sink
    that wants planar video: one converter in front of the filter. *)

Definition plan_okb (pl : plan) : bool :=
  forallb (fun e => bool_decide (is_Some (pad_set pl (esrc e))) && bool_decide (is_Some (pad_set pl (edst e))))
    (plinks pl) &&
  forallb (fun nf => forallb (fun t => forallb (fun '(d, i) => bool_decide (is_Some (node_set nf d i)))
    (tpads t)) (ties nf)) (nodes pl).

Lemma plan_okb_ok pl : plan_okb pl = true -> plan_ok pl.
Proof.
  unfold plan_okb. rewrite andb_true_iff, !forallb_forall. intros [Hl Ht]. split.
  - intros e He%list_elem_of_In. specialize (Hl e He).
    by rewrite andb_true_iff, !bool_decide_eq_true in Hl.
  - intros n nf t d i Hn Hin Hi. apply list_elem_of_lookup_2, list_elem_of_In in Hn.
    specialize (Ht nf Hn). rewrite forallb_forall in Ht.
    specialize (Ht t (proj1 (list_elem_of_In _ _) Hin)). rewrite forallb_forall in Ht.
    specialize (Ht (d, i) (proj1 (list_elem_of_In _ _) Hi)). by apply bool_decide_eq_true in Ht.
Qed.

Definition demo : plan :=
  Plan [NodeFormats [] [video_exact Rgb24] [] "src"; passthrough 1 1 Video "keep";
        NodeFormats [video_list [Yuv420p; Yuv444p]] [] [] "sink"]
    [LinkEnds (pad_output 0 0) (pad_input 1 0) Video; LinkEnds (pad_output 1 0) (pad_input 2 0) Video].

Definition scale_factory : converter_factory :=
  fun _ _ up down => Some (ConverterSpec "scale" "" (converter_formats up down "")).

Example demo_converts :
  match negotiate scale_factory demo ConvertAll with
  | Some (pl, [], Ok a) =>
    map pixel_formats (alinks a) = map (fun f => Some (Exact f)) [Rgb24; Rgb24; Yuv420p] /\
    map iname (inserted a) = ["auto_scale_0"] /\ rounds a = 1 /\ length (nodes pl) = 4%nat
  | _ => False
  end.
Proof. vm_compute. done. Qed.

Example demo_conflicts :
  match negotiate scale_factory demo ConvertNone with
  | Some (_, [c], Err (Unsupported _)) => clink c = 1%nat /\ snarrowed (upstream c) = ["src"]
  | _ => False
  end.
Proof. vm_compute. done. Qed.

Lemma negotiate_sound_witness :
  plan_ok demo /\
  exists pl' cs r, negotiate scale_factory demo ConvertAll = Some (pl', cs, r) /\
    (ConvertAll = ConvertNone -> pl' = demo) /\
    (forall a, r = Ok a -> cs = [] /\ forall p, agreed pl' p (alinks a)) /\
    (forall c, c ∈ cs -> exists e, plinks pl' !! clink c = Some e /\ esrc e = spad (upstream c) /\
       forall v, exists pad d, agree pl' (cproperty c) (esrc e) pad /\ pad_set pl' pad = Some d /\
         ~ says (cproperty c) d v).
Proof.
  assert (H : plan_ok demo) by (apply plan_okb_ok; vm_compute; reflexivity).
  split; [exact H|]. apply (negotiate_sound scale_factory demo ConvertAll H).
  intros m ps up down spec [= <-] t d i Ht. by apply not_elem_of_nil in Ht.
Defined.
