(* ===== verification/FilterGraph.v ===== *)
(** * FilterGraph: the graph of filters, its construction and configuration

    [src/crates/filter/vaco-filter-core/src/sched.rs], up to the buffer calls:
    nodes and links in two arenas, connecting pads, runtime commands,
    negotiation mirrored into the graph, and the order nodes are configured in.
    [FilterRun] drives what is built here. A filter is a value of a type [F]
    behind the class [Filter]; the frame pool is left out. *)

From Stdlib Require Import ZArith Lia.
From stdpp Require Import prelude strings pretty.
From S2P Require Import Prelude Bits Rational Time Error PixFmt FilterFormat FilterLink FilterSolve.

Definition DEFAULT_STEP_BUDGET : Z := Z.shiftl 1 20.

Inductive kind : Type := KFilter | KSource | KSink.

#[export] Instance kind_eq_dec : EqDecision kind.
Proof. solve_decision. Defined.

Record pad : Type := Pad { padname : string; padmedia : media_type }.

Record filter_desc : Type := FilterDesc { dname : string; dinputs : list pad; doutputs : list pad }.

Record gnode {F : Type} : Type := GNode {
  nkind : kind;
  nfilter : option F;
  ndesc : filter_desc;
  nlabel : string;
  nformats : node_formats;
  declared : option link_format;
  nlinks : node_links;
  retired : bool;
  parked_at : option Z;
  self_driven : bool;
  last_run : Z }.
Arguments gnode : clear implicits.
Arguments GNode {F} _ _ _ _ _ _ _ _ _ _ _.

Record queued_command : Type := QueuedCommand {
  qat : timestamp; qbase : rational; qnode : node_id;
  qname : string; qvalue : string; qflags : Z }.

Inductive violation : Type :=
  | ProgressWithoutChange
  | NeedInputAtEof
  | EofWithOpenOutput
  | PushAfterClose
  | FrameFormatMismatch
  | ActivateAfterEof
  | FrameDroppedByBackpressure.

#[export] Instance violation_eq_dec : EqDecision violation.
Proof. solve_decision. Defined.

Record graph {P F : Type} : Type := Graph {
  gnodes : list (gnode F);
  glinks : list (link P);
  gconfigured : bool;
  step : Z;
  budget : Z;
  violations : list violation;
  last_conflict : option conflict;
  gcommands : list queued_command;
  node_labels : list node_view }.
Arguments graph : clear implicits.
Arguments Graph {P F} _ _ _ _ _ _ _ _ _.

(** Calls on the graph: state passing with an error that keeps the state. *)
Definition gm (P F A : Type) : Type := graph P F -> result error A * graph P F.

#[export] Instance gm_ret {P F} : MRet (gm P F) := fun A a g => (Ok a, g).
#[export] Instance gm_bind {P F} : MBind (gm P F) := fun A B k m g =>
  match m g with
  | (Ok a, g) => k a g
  | (Err e, g) => (Err e, g)
  end.

Section graph.
Context {P F : Type} `{Filter P F}.
Implicit Types (g : graph P F) (n : gnode F).
Local Abbreviation M := (gm P F).

Definition throw {A} (e : error) : M A := fun g => (Err e, g).
Definition gets {A} (f : graph P F -> A) : M A := fun g => (Ok (f g), g).
Definition put (f : graph P F -> graph P F) : M unit := fun g => (Ok tt, f g).
Definition lift {A} (r : result error A) : M A := fun g => (r, g).

Definition graph_new : graph P F := Graph [] [] false 0 DEFAULT_STEP_BUDGET [] None [] [].

Definition with_step_budget g (b : Z) : graph P F :=
  Graph (gnodes g) (glinks g) (gconfigured g) (step g) b (violations g) (last_conflict g)
    (gcommands g) (node_labels g).

Definition with_nodes (ns : list (gnode F)) g : graph P F :=
  Graph ns (glinks g) (gconfigured g) (step g) (budget g) (violations g) (last_conflict g)
    (gcommands g) (node_labels g).
Definition with_glinks (ls : list (link P)) g : graph P F :=
  Graph (gnodes g) ls (gconfigured g) (step g) (budget g) (violations g) (last_conflict g)
    (gcommands g) (node_labels g).
Definition with_commands (cs : list queued_command) g : graph P F :=
  Graph (gnodes g) (glinks g) (gconfigured g) (step g) (budget g) (violations g) (last_conflict g)
    cs (node_labels g).
Definition with_violations (vs : list violation) g : graph P F :=
  Graph (gnodes g) (glinks g) (gconfigured g) (step g) (budget g) vs (last_conflict g)
    (gcommands g) (node_labels g).
Definition with_step (s : Z) g : graph P F :=
  Graph (gnodes g) (glinks g) (gconfigured g) s (budget g) (violations g) (last_conflict g)
    (gcommands g) (node_labels g).
Definition with_conflict (c : option conflict) g : graph P F :=
  Graph (gnodes g) (glinks g) (gconfigured g) (step g) (budget g) (violations g) c
    (gcommands g) (node_labels g).
Definition with_configured (b : bool) g : graph P F :=
  Graph (gnodes g) (glinks g) b (step g) (budget g) (violations g) (last_conflict g)
    (gcommands g) (node_labels g).

(** [nodes.get_mut(id)] and [links.get_mut(id)], when there is one. *)
Definition on_node (id : node_id) (f : gnode F -> gnode F) g : graph P F :=
  with_nodes (alter f id (gnodes g)) g.
Definition on_link (id : link_id) (f : link P -> link P) g : graph P F :=
  with_glinks (modify (glinks g) id f) g.

Definition set_filter (f : option F) n : gnode F :=
  GNode (nkind n) f (ndesc n) (nlabel n) (nformats n) (declared n) (nlinks n) (retired n)
    (parked_at n) (self_driven n) (last_run n).
Definition set_declared (d : option link_format) n : gnode F :=
  GNode (nkind n) (nfilter n) (ndesc n) (nlabel n) (nformats n) d (nlinks n) (retired n)
    (parked_at n) (self_driven n) (last_run n).
Definition set_nlinks (f : node_links -> node_links) n : gnode F :=
  GNode (nkind n) (nfilter n) (ndesc n) (nlabel n) (nformats n) (declared n) (f (nlinks n))
    (retired n) (parked_at n) (self_driven n) (last_run n).
Definition set_sched (r : bool) (p : option Z) (s : bool) (l : Z) n : gnode F :=
  GNode (nkind n) (nfilter n) (ndesc n) (nlabel n) (nformats n) (declared n) (nlinks n) r p s l.
Definition set_retired (b : bool) n : gnode F :=
  set_sched b (parked_at n) (self_driven n) (last_run n) n.
Definition set_parked (p : option Z) n : gnode F :=
  set_sched (retired n) p (self_driven n) (last_run n) n.
Definition set_self_driven (b : bool) n : gnode F :=
  set_sched (retired n) (parked_at n) b (last_run n) n.

(** ** Building *)

Definition push_node (k : kind) (d : filter_desc) (f : node_formats) (label : string)
    (filter : option F) g : node_id * graph P F :=
  let id := length (gnodes g) in
  (id, Graph (gnodes g ++ [GNode k filter d label f None
                             (node_links_new (length (ninputs f)) (length (noutputs f)))
                             false None false 0])
         (glinks g) (gconfigured g) (step g) (budget g) (violations g) (last_conflict g)
         (gcommands g) (node_labels g ++ [NodeView id label (dname d)])).

Definition add (d : filter_desc) (f : node_formats) (filter : F) g : node_id * graph P F :=
  let label := if String.eqb (label f) "" then dname d +:+ "@" +:+ pretty (N.of_nat (length (gnodes g)))
               else label f in
  push_node KFilter d f label (Some filter) g.

Definition pads_for (media : media_type) : list pad :=
  match media with Audio => [Pad "default" Audio] | _ => [Pad "default" Video] end.

Definition source_desc (media : media_type) : filter_desc :=
  FilterDesc (if bool_decide (media = Audio) then "abuffer" else "buffer") [] (pads_for media).
Definition sink_desc (media : media_type) : filter_desc :=
  FilterDesc (if bool_decide (media = Audio) then "abuffersink" else "buffersink") (pads_for media) [].
Definition converter_desc (media : media_type) : filter_desc :=
  FilterDesc "auto_convert" (pads_for media) (pads_for media).

Definition add_source (label : string) (media : media_type) (f : node_formats) g : node_id * graph P F :=
  push_node KSource (source_desc media) f label None g.
Definition add_sink (label : string) (media : media_type) (f : node_formats) g : node_id * graph P F :=
  push_node KSink (sink_desc media) f label None g.

Definition get_node g (id : node_id) : result error (gnode F) :=
  ok_or (gnodes g !! id) (InvalidData "unknown filter node").

Definition pad_media g (id : node_id) (d : direction) (p : nat) : result error media_type :=
  n ← get_node g id;
  let pads := match d with Input => dinputs (ndesc n) | Output => doutputs (ndesc n) end in
  ok_or (padmedia <$> pads !! p) (InvalidData "filter has no such pad").

Definition connect (src : node_id) (src_pad : nat) (dst : node_id) (dst_pad : nat) : M link_id :=
  fun g =>
  (src_media ← lift (pad_media g src Output src_pad);
   dst_media ← lift (pad_media g dst Input dst_pad);
   ns ← lift (get_node g src);
   if bool_decide (is_Some (output (nlinks ns) src_pad))
   then throw (InvalidData "output pad is already connected; fan-out needs a split filter")
   else
     nd ← lift (get_node g dst);
     if bool_decide (is_Some (input (nlinks nd) dst_pad))
     then throw (InvalidData "input pad is already connected")
     else
       l ← lift (link_new (pad_output src src_pad) (pad_input dst dst_pad) src_media dst_media);
       let '(id, ls) := arena_push (glinks g) l in
       _ ← put (with_glinks ls);
       _ ← put (on_node src (set_nlinks (fun nl => set_output nl src_pad id)));
       _ ← put (on_node dst (set_nlinks (fun nl => set_input nl dst_pad id)));
       mret id) g.

(** ** Commands *)

Definition command_matches (target : string) n : bool :=
  bool_decide (nkind n = KFilter) &&
  (String.eqb target "all" || String.eqb target (dname (ndesc n)) || String.eqb target (nlabel n)).

Definition command_targets (target : string) (flags : Z) g : result error (list node_id) :=
  let all := fst <$> List.filter (fun '(_, n) => command_matches target n) (enumerate (gnodes g)) in
  let targets := if Z.land flags ONE_FLAG =? 0 then all else take 1 all in
  match targets with
  | [] => Err (OptionError "target" ("no filter matches `" +:+ target +:+ "`"))
  | _ => Ok targets
  end.

Definition send_command_to (id : node_id) (name value : string) (flags : Z) : M command_reply :=
  fun g =>
  match gnodes g !! id with
  | None => (Err (InvalidData "unknown filter node"), g)
  | Some n =>
    match nfilter n with
    | None => (Err (InvalidData "node is not a filter"), g)
    | Some f =>
      let '(r, f) := process_command f name value flags in
      let g := on_node id (set_filter (Some f)) g in
      match r with
      | Err e => (Err e, g)
      | Ok reply => (Ok reply, on_node id (set_parked None) g)
      end
    end
  end.

Fixpoint send_each (targets : list node_id) (name value : string) (flags : Z)
    (replies : list command_reply) (first_error : option error) g
    : list command_reply * option error * graph P F :=
  match targets with
  | [] => (replies, first_error, g)
  | id :: targets =>
    match send_command_to id name value flags g with
    | (Ok reply, g) => send_each targets name value flags (replies ++ [reply]) first_error g
    | (Err e, g) =>
      send_each targets name value flags replies
        (match first_error with None => Some e | some => some end) g
    end
  end.

Definition send_command (target name value : string) (flags : Z) : M (list command_reply) :=
  fun g =>
  match command_targets target flags g with
  | Err e => (Err e, g)
  | Ok targets =>
    let '(replies, first_error, g) := send_each targets name value flags [] None g in
    match replies with
    | [] => (Err (default (Unsupported "filter rejected the runtime command") first_error), g)
    | _ => (Ok replies, g)
    end
  end.

(** A queued command goes before the first one that is strictly later. *)
Fixpoint insert_command (c : queued_command) (cs : list queued_command) : list queued_command :=
  match cs with
  | [] => [c]
  | q :: cs =>
    if bool_decide (ts_compare (qat c) (qbase c) (qat q) (qbase q) = Some Lt) then c :: q :: cs
    else q :: insert_command c cs
  end.

Definition queue_command (at_ : timestamp) (base : rational) (target name value : string) (flags : Z)
    : M nat :=
  fun g =>
  match ts_compare at_ base at_ base with
  | None => (Err (InvalidData "queued command needs a finite timestamp and time base"), g)
  | Some _ =>
    match command_targets target flags g with
    | Err e => (Err e, g)
    | Ok targets =>
      let cs := fold_left (fun cs (id : node_id) => insert_command (QueuedCommand at_ base id name value flags) cs)
                  targets (gcommands g) in
      (Ok (length targets), with_commands cs g)
    end
  end.

Definition command_is_due g (c : queued_command) : bool :=
  match gnodes g !! qnode c with
  | None => false
  | Some n =>
    match (input (nlinks n) 0 ≫= (fun l => glinks g !! l)) ≫= peek with
    | None => false
    | Some f =>
      match ts_compare (fpts f) (fbase f) (qat c) (qbase c) with
      | Some Eq | Some Gt => true
      | _ => false
      end
    end
  end.

(** The first due command of a node, and the others. *)
Fixpoint take_due g (id : node_id) (cs : list queued_command)
    : option (queued_command * list queued_command) :=
  match cs with
  | [] => None
  | c :: cs =>
    if (qnode c =? id)%nat && command_is_due g c then Some (c, cs)
    else '(d, rest) ← take_due g id cs; Some (d, c :: rest)
  end.

(** Each turn removes a command, so there are at most as many as commands. *)
Fixpoint deliver_loop (fuel : nat) (id : node_id) : M unit :=
  fun g =>
  match fuel, take_due g id (gcommands g) with
  | S fuel, Some (c, rest) =>
    match send_command_to id (qname c) (qvalue c) (qflags c) (with_commands rest g) with
    | (Ok _, g) => deliver_loop fuel id g
    | (Err e, g) => (Err e, g)
    end
  | _, _ => (Ok tt, g)
  end.

Definition deliver_due_commands (id : node_id) : M unit :=
  fun g => deliver_loop (length (gcommands g)) id g.

Fixpoint dispatch_command_requests (requests : list command_request) : M unit :=
  match requests with
  | [] => mret tt
  | r :: requests =>
    _ ← send_command (ctarget r) (cname r) (carg r) (cflags r);
    dispatch_command_requests requests
  end.

(** ** Configuring *)

Definition set_source_format (id : node_id) (format : link_format) : M unit :=
  fun g =>
  (n ← lift (get_node g id);
   if bool_decide (nkind n <> KSource) then throw (InvalidData "node is not a buffer source")
   else put (on_node id (set_declared (Some format)))) g.

Definition check_connected g : result error unit :=
  fold_left (fun acc n =>
    _ ← acc;
    if bool_decide (None ∈ inputs (nlinks n)) then Err (InvalidData "an input pad is not connected")
    else if bool_decide (None ∈ outputs (nlinks n)) then Err (InvalidData "an output pad is not connected")
    else Ok tt) (gnodes g) (Ok tt).

Definition validate_configured g : result error unit :=
  if forallb (fun l => configured l && is_usable (format l)) (glinks g) then Ok tt
  else Err (InvalidData "a link was left without a usable format after configuration").

(** *** The order of configuration: Kahn's algorithm *)

(** [*d += 1] and [*d -= 1], on a [usize]. *)
Definition count_up (d : Z) : Z := wrap_u 64 (d + 1).
Definition count_down (d : Z) : Z := wrap_u 64 (d - 1).

Definition indegrees g : list Z :=
  fold_left (fun ds l => alter count_up (pnode (dst l)) ds) (glinks g) (replicate (length (gnodes g)) 0).

(** The ids in a list of pads, [iter().flatten()]. *)
Definition connected (pads : list (option link_id)) : list link_id := omap id pads.

Definition release (ls : list (link P)) (st : list Z * list node_id) (out : link_id) : list Z * list node_id :=
  let '(indegree, queue) := st in
  match ls !! out with
  | None => (indegree, queue)
  | Some l =>
    let d := pnode (dst l) in
    match indegree !! d with
    | None => (indegree, queue)
    | Some k => (<[d := count_down k]> indegree, if count_down k =? 0 then queue ++ [d] else queue)
    end
  end.

(** [None] is out of fuel. *)
Fixpoint topo_loop (fuel : nat) g (indegree : list Z) (queue order : list node_id)
    : option (list node_id) :=
  match queue with
  | [] => Some order
  | id :: queue =>
    match fuel with
    | O => None
    | S fuel =>
      let order := order ++ [id] in
      match gnodes g !! id with
      | None => topo_loop fuel g indegree queue order
      | Some n =>
        let '(indegree, queue) :=
          fold_left (release (glinks g)) (connected (outputs (nlinks n))) (indegree, queue) in
        topo_loop fuel g indegree queue order
      end
    end
  end.

Definition ready g (indegree : list Z) : list node_id :=
  List.filter (fun i => default 0 (indegree !! i) =? 0) (seq 0 (length (gnodes g))).

Definition topological_order g : option (result error (list node_id)) :=
  order ← topo_loop (length (gnodes g)) g (indegrees g) (ready g (indegrees g)) [];
  Some (if (length order =? length (gnodes g))%nat then Ok order
        else Err (InvalidData "filtergraph contains a cycle")).

(** Repoint a link at a converter and add the converter's link to the old
    consumer, as [plan_splice] does to the plan. *)
Definition resplice (id : link_id) (node : node_id) (m : media_type) : M unit :=
  fun g =>
  match glinks g !! id with
  | None => (Err (InvalidData "splice names an unknown link"), g)
  | Some existing =>
    let old_dst := dst existing in
    (tail ← lift (link_new (pad_output node 0) old_dst m m);
     head ← lift (link_new (src existing) (pad_input node 0) m m);
     let '(tail_id, ls) := arena_push (<[id := head]> (glinks g)) tail in
     _ ← put (with_glinks ls);
     _ ← put (on_node node (set_nlinks (fun nl => set_output (set_input nl 0 id) 0 tail_id)));
     put (on_node (pnode old_dst) (set_nlinks (fun nl => set_input nl (ppad old_dst) tail_id)))) g
  end.

(** The plan negotiation solves: the nodes with their labels, then the links. *)
Definition plan_of g : result error plan :=
  let ns := map (fun n => NodeFormats (ninputs (nformats n)) (noutputs (nformats n))
                            (ties (nformats n)) (nlabel n)) (gnodes g) in
  fold_left (fun acc l => pl ← acc; '(_, pl) ← plan_connect pl (src l) (dst l) (media l); Ok pl)
    (glinks g) (Ok (Plan ns [])).

Section configure.
(** The builder of converters may keep state: it sees how often it was called. *)
Context (build : nat -> converter_spec -> result error F).

Definition insert_converter (pl : plan) (k : nat) (ins : insertion) : M unit :=
  fun g =>
  let formats := default node_formats_default (nodes pl !! inode ins) in
  (f ← lift (build k (ConverterSpec (ifilter ins) (iargs ins) formats));
   let m := match glinks g !! ilink ins with Some l => media l | None => Video end in
   let '(node, g') := push_node KFilter (converter_desc m) formats (iname ins) (Some f) g in
   _ ← put (fun _ => g');
   resplice (ilink ins) node m) g.

Fixpoint insert_converters (pl : plan) (k : nat) (todo : list insertion) : M unit :=
  match todo with
  | [] => mret tt
  | i :: todo => _ ← insert_converter pl k i; insert_converters pl (S k) todo
  end.

(** What an output link inherits before its filter may override it. *)
Definition outgoing_format (inherited : option link_format) (m : media_type) (set : option format_set)
    : link_format :=
  let f := match inherited with
           | Some f => if bool_decide (format_media f = m) then f else unconfigured m
           | None => unconfigured m
           end in
  match set with Some s => apply_set f s | None => f end.

Definition configure_node (a : assignment) (id : node_id) : M unit :=
  fun g =>
  match gnodes g !! id with
  | None => (Ok tt, g)
  | Some n =>
    let inherited :=
      if bool_decide (nkind n = KSource) then declared n
      else format <$> (input (nlinks n) 0 ≫= fun l => glinks g !! l) in
    let ls := fold_left (fun ls pad =>
      match output (nlinks n) pad with
      | None => ls
      | Some l =>
        let m := match ls !! l with Some k => media k | None => Video end in
        modify ls l (fun k => set_format k (outgoing_format inherited m (assigned a l)))
      end) (seq 0 (length (outputs (nlinks n)))) (glinks g) in
    let g := with_glinks ls g in
    match nfilter n with
    | None => (Ok tt, g)
    | Some f =>
      let '((r, f), c) := exec (configure f) (context_new (glinks g) (nlinks n) (node_labels g) None) in
      (r, on_node id (set_filter (Some f)) (with_glinks (links c) g))
    end
  end.

Fixpoint configure_nodes (a : assignment) (ids : list node_id) : M unit :=
  match ids with
  | [] => mret tt
  | id :: ids => _ ← configure_node a id; configure_nodes a ids
  end.

(** The conflicts found come with the result; [None] is a loop out of fuel, which
    [topological_order] and [negotiate] rule out. *)
Definition configure_inner (factory : converter_factory) (mode : auto_convert) g
    : option (list conflict * (result error unit * graph P F)) :=
  match check_connected g with
  | Err e => Some ([], (Err e, g))
  | Ok _ =>
    match plan_of g with
    | Err e => Some ([], (Err e, g))
    | Ok pl =>
      '(pl, cs, r) ← negotiate factory pl mode;
      match r with
      | Err e => Some (cs, (Err e, g))
      | Ok a =>
        match insert_converters pl 0 (inserted a) g with
        | (Err e, g) => Some (cs, (Err e, g))
        | (Ok _, g) =>
          r ← topological_order g;
          match r with
          | Err e => Some (cs, (Err e, g))
          | Ok order =>
            Some (cs,
              match configure_nodes a order g with
              | (Err e, g) => (Err e, g)
              | (Ok _, g) =>
                match validate_configured g with
                | Err e => (Err e, g)
                | Ok _ => (Ok tt, with_configured true g)
                end
              end)
          end
        end
      end
    end
  end.

End configure.

Definition configure_graph g : option (result error unit * graph P F) :=
  '(cs, (r, g)) ← configure_inner (fun _ _ => Err (Unsupported "auto-conversion is disabled"))
                    no_conversion ConvertNone g;
  Some (r, with_conflict (head cs) g).

Definition configure_converting (factory : converter_factory)
    (build : nat -> converter_spec -> result error F) g
    : option (result error (list conflict) * graph P F) :=
  '(cs, (r, g)) ← configure_inner build factory ConvertAll g;
  Some (match r with Ok _ => Ok cs | Err e => Err e end, with_conflict (head cs) g).

End graph.

(** ** Counting *)

Lemma length_filter_split {A} (R P Q : A -> Prop)
    `{!forall x, Decision (R x), !forall x, Decision (P x), !forall x, Decision (Q x)} (l : list A) :
  (forall x, x ∈ l -> R x <-> P x \/ Q x) -> (forall x, x ∈ l -> P x -> Q x -> False) ->
  length (filter R l) = (length (filter P l) + length (filter Q l))%nat.
Proof.
  induction l as [|x l IH]; intros Hor Hno; [done|].
  specialize (IH ltac:(intros; apply Hor; by right) ltac:(intros y Hy; apply Hno; by right)).
  pose proof (Hor x ltac:(by left)). pose proof (Hno x ltac:(by left)).
  rewrite !filter_cons. destruct (decide (R x)), (decide (P x)), (decide (Q x)); cbn [length]; tauto || lia.
Qed.

Lemma NoDup_connected (pads : list (option link_id)) :
  (forall p q i, pads !! p = Some (Some i) -> pads !! q = Some (Some i) -> p = q) -> NoDup (connected pads).
Proof.
  induction pads as [|[i|] pads IH]; intros Hinj; [constructor| |].
  - cbn. constructor.
    + intros Hi. apply list_elem_of_omap in Hi as ([j|] & Hin & [= ->]). apply list_elem_of_lookup in Hin as [q Hq].
      by specialize (Hinj 0%nat (S q) i eq_refl Hq).
    + apply IH. intros p q j Hp Hq. specialize (Hinj (S p) (S q) j Hp Hq). lia.
  - cbn. apply IH. intros p q j Hp Hq. specialize (Hinj (S p) (S q) j Hp Hq). lia.
Qed.

Lemma connected_elem (pads : list (option link_id)) i :
  i ∈ connected pads <-> exists p, pads !! p = Some (Some i).
Proof.
  unfold connected. rewrite list_elem_of_omap. split.
  - intros ([j|] & Hin & [= ->]). by apply list_elem_of_lookup in Hin.
  - intros [p Hp]. exists (Some i). split; [by eapply list_elem_of_lookup_2|done].
Qed.

(** A list of numbers below [n] longer than [n] repeats one. *)
Lemma repeats (l : list nat) : ~ NoDup l -> exists i j x, (i < j)%nat /\ l !! i = Some x /\ l !! j = Some x.
Proof.
  induction l as [|x l IH]; intros Hn; [destruct Hn; constructor|].
  destruct (decide (x ∈ l)) as [[j Hj]%list_elem_of_lookup|Hx].
  - exists 0%nat, (S j), x. split_and!; [lia|done..].
  - destruct IH as (i & j & y & Hij & Hi & Hj); [intros Hd; apply Hn; by constructor|].
    exists (S i), (S j), y. split_and!; [lia|done..].
Qed.

Lemma NoDup_below (l : list nat) n : NoDup l -> (forall x, x ∈ l -> (x < n)%nat) -> (length l <= n)%nat.
Proof.
  intros Hd Hb. rewrite <- (length_seq n 0). apply submseteq_length, NoDup_submseteq; [done|].
  intros x Hx. apply elem_of_seq. specialize (Hb x Hx). lia.
Qed.

(** ** A graph that its operations built *)

Section wf.
Context {P F : Type}.
Implicit Types (g : graph P F).

(** Links and pads name each other. *)
Record graph_wf g : Prop := {
  wf_src : forall i l, glinks g !! i = Some l -> exists n, gnodes g !! pnode (src l) = Some n /\
    outputs (nlinks n) !! ppad (src l) = Some (Some i);
  wf_dst : forall i l, glinks g !! i = Some l -> exists n, gnodes g !! pnode (dst l) = Some n /\
    inputs (nlinks n) !! ppad (dst l) = Some (Some i);
  wf_out : forall id n p i, gnodes g !! id = Some n -> outputs (nlinks n) !! p = Some (Some i) ->
    exists l, glinks g !! i = Some l /\ src l = pad_output id p;
  wf_in : forall id n p i, gnodes g !! id = Some n -> inputs (nlinks n) !! p = Some (Some i) ->
    exists l, glinks g !! i = Some l /\ dst l = pad_input id p }.

(** Data flows from one node to the other. *)
Definition feeds g (a b : node_id) : Prop :=
  exists l, l ∈ glinks g /\ pnode (src l) = a /\ pnode (dst l) = b.

(** *** The order of configuration *)

Lemma count_up_small k : 0 <= k < 2 ^ 64 - 1 -> count_up k = k + 1.
Proof. intros H. unfold count_up. apply wrap_u_id. lia. Qed.

Section topo.
Context g (Hg : graph_wf g).
Local Abbreviation N := (length (gnodes g)).
Local Abbreviation ids := (seq 0 (length (glinks g))).

Definition from (i : link_id) : option node_id := pnode ∘ src <$> glinks g !! i.
Definition into (i : link_id) : option node_id := pnode ∘ dst <$> glinks g !! i.

(** The links into a node that do not come from one already placed. *)
Definition pending (order : list node_id) (d : node_id) (i : link_id) : Prop :=
  into i = Some d /\ exists s, from i = Some s /\ s ∉ order.

#[local] Instance pending_dec order d i : Decision (pending order d i).
Proof.
  unfold pending. destruct (decide (into i = Some d)); [|right; tauto].
  destruct (from i) as [s|] eqn:E; [|right; naive_solver].
  destruct (decide (s ∈ order)); [right; naive_solver|left; naive_solver].
Defined.

Definition waiting (order : list node_id) (d : node_id) : Z := Z.of_nat (length (filter (pending order d) ids)).

Definition into_count (outs : list link_id) (d : node_id) : Z :=
  Z.of_nat (length (filter (fun i => into i = Some d) outs)).

Lemma from_node i s : from i = Some s -> (s < N)%nat.
Proof using Hg.
  unfold from. destruct (glinks g !! i) as [l|] eqn:E; [|done]. intros [= <-].
  destruct (wf_src g Hg i l E) as (n & Hn & _). by eapply lookup_lt_Some.
Qed.

Lemma into_node i d : into i = Some d -> (d < N)%nat.
Proof using Hg.
  unfold into. destruct (glinks g !! i) as [l|] eqn:E; [|done]. intros [= <-].
  destruct (wf_dst g Hg i l E) as (n & Hn & _). by eapply lookup_lt_Some.
Qed.

Lemma id_in i : i ∈ ids <-> is_Some (glinks g !! i).
Proof. rewrite elem_of_seq, lookup_lt_is_Some. lia. Qed.

(** A node's outputs are the links that come from it, each once. *)
Lemma outs_spec id n :
  gnodes g !! id = Some n ->
  NoDup (connected (outputs (nlinks n))) /\
  (forall i, i ∈ connected (outputs (nlinks n)) <-> from i = Some id).
Proof using Hg.
  intros Hn. split.
  - apply NoDup_connected. intros p q i Hp Hq.
    destruct (wf_out g Hg id n p i Hn Hp) as (l & Hl & Es), (wf_out g Hg id n q i Hn Hq) as (l' & Hl' & Es').
    assert (l' = l) as -> by congruence. rewrite Es in Es'. by injection Es'.
  - intros i. rewrite connected_elem. unfold from. split.
    + intros [p Hp]. destruct (wf_out g Hg id n p i Hn Hp) as (l & -> & Es). cbn. by rewrite Es.
    + destruct (glinks g !! i) as [l|] eqn:E; [|done]. intros [= Es].
      destruct (wf_src g Hg i l E) as (n' & Hn' & Hp). rewrite Es in Hn'.
      assert (n' = n) as -> by congruence. by exists (ppad (src l)).
Qed.

Lemma waiting_split order id outs d :
  NoDup outs -> (forall i, i ∈ outs <-> from i = Some id) -> id ∉ order ->
  waiting order d = waiting (order ++ [id]) d + into_count outs d.
Proof using Hg.
  intros Hd Hin Hid. unfold waiting, into_count.
  rewrite (length_filter_split (pending order d) (pending (order ++ [id]) d)
             (fun i => into i = Some d /\ from i = Some id)).
  - rewrite Nat2Z.inj_add. f_equal. f_equal. apply Permutation_length, NoDup_Permutation.
    + apply NoDup_filter, NoDup_seq.
    + by apply NoDup_filter.
    + intros i. rewrite !list_elem_of_filter, id_in, Hin. unfold from, into. destruct (glinks g !! i); naive_solver.
  - intros i _. unfold pending. split.
    + intros (Hi & s & Hs & Hns). destruct (decide (s = id)) as [->|]; [by right|]. left.
      split; [done|]. exists s. split; [done|]. set_solver.
    + intros [(Hi & s & Hs & Hns)|[Hi Hs]]; (split; [done|]).
      * exists s. split; [done|]. set_solver.
      * by exists id.
  - intros i _ (_ & s & Hs & Hns) [_ Hs']. assert (s = id) as -> by congruence. set_solver.
Qed.

(** What the loop keeps. *)
Record kahn (indegree : list Z) (queue order : list node_id) : Prop := {
  kahn_nodup : NoDup (order ++ queue);
  kahn_below : forall d, d ∈ order ++ queue -> (d < N)%nat;
  kahn_degree : forall d, (d < N)%nat -> indegree !! d = Some (waiting order d);
  kahn_ready : forall d, (d < N)%nat -> d ∈ order ++ queue <-> waiting order d = 0;
  kahn_before : forall i s d o1 o2, from i = Some s -> into i = Some d ->
    order = o1 ++ d :: o2 -> s ∈ o1 }.

(** Releasing the outputs of a node already placed. *)
Lemma release_fold order outs : forall indegree queue w,
  (forall d, (d < N)%nat -> indegree !! d = Some (w d)) ->
  (forall d, into_count outs d <= w d < 2 ^ 64) ->
  (forall i, i ∈ outs -> is_Some (into i)) ->
  NoDup (order ++ queue) -> (forall d, d ∈ order ++ queue -> (d < N)%nat) ->
  (forall d, (d < N)%nat -> d ∈ order ++ queue <-> w d = 0) ->
  let '(indegree', queue') := fold_left (release (glinks g)) outs (indegree, queue) in
  (forall d, (d < N)%nat -> indegree' !! d = Some (w d - into_count outs d)) /\
  NoDup (order ++ queue') /\ (forall d, d ∈ order ++ queue' -> (d < N)%nat) /\
  (forall d, (d < N)%nat -> d ∈ order ++ queue' <-> w d - into_count outs d = 0).
Proof using Hg.
  induction outs as [|i outs IH]; intros indegree queue w Hdeg Hle Hsome Hd Hb Hr; cbn [fold_left].
  { unfold into_count. cbn. split_and!; [intros d ?|done..|intros d ?]; by rewrite Z.sub_0_r; auto. }
  destruct (Hsome i ltac:(by left)) as [d0 Hi]. pose proof (into_node i d0 Hi) as Hd0.
  assert (Hcons : forall d, into_count (i :: outs) d = (if decide (d = d0) then 1 else 0) + into_count outs d).
  { intros d. unfold into_count. rewrite filter_cons, Hi.
    destruct (decide (Some d0 = Some d)), (decide (d = d0)); cbn [length]; try congruence; lia. }
  assert (Hnn : forall d, 0 <= into_count outs d) by (intros; unfold into_count; lia).
  pose proof (Hle d0) as H0. rewrite Hcons, decide_True in H0 by done. pose proof (Hnn d0).
  unfold release at 2. unfold into in Hi. destruct (glinks g !! i) as [l|] eqn:El; [|done]. injection Hi as Hi.
  rewrite Hi, (Hdeg d0 Hd0). unfold count_down. rewrite wrap_u_id by lia.
  assert (Hlen : (d0 < length indegree)%nat) by (eapply lookup_lt_Some; by apply Hdeg).
  set (w' := fun d => w d - if decide (d = d0) then 1 else 0).
  assert (Hdeg' : forall d, (d < N)%nat -> <[d0 := w d0 - 1]> indegree !! d = Some (w' d)).
  { intros d Hdn. unfold w'. destruct (decide (d = d0)) as [->|Hne].
    - by rewrite list_lookup_insert_eq.
    - rewrite list_lookup_insert_ne by done. rewrite Hdeg by done. f_equal. lia. }
  assert (Hle' : forall d, into_count outs d <= w' d < 2 ^ 64).
  { intros d. pose proof (Hle d). rewrite Hcons in *. unfold w'. destruct (decide (d = d0)); lia. }
  assert (Hsome' : forall i, i ∈ outs -> is_Some (into i)) by (intros; apply Hsome; by right).
  assert (Hnot : d0 ∉ order ++ queue) by (rewrite (Hr d0 Hd0); lia).
  set (queue1 := if w d0 - 1 =? 0 then queue ++ [d0] else queue).
  specialize (IH (<[d0 := w d0 - 1]> indegree) queue1 w' Hdeg' Hle' Hsome').
  destruct (fold_left (release (glinks g)) outs _) as [indegree' queue']. destruct IH as (H1 & H2 & H3 & H4).
  - unfold queue1. destruct (_ =? 0); [|done]. rewrite app_assoc. apply NoDup_app.
    split_and!; [done| |apply NoDup_singleton]. intros x Hx ->%list_elem_of_singleton. done.
  - unfold queue1. intros d. destruct (_ =? 0); [|apply Hb]. rewrite app_assoc, elem_of_app, list_elem_of_singleton.
    intros [?| ->]; [by apply Hb|done].
  - intros d Hdn. unfold queue1, w'. destruct (decide (d = d0)) as [->|Hne].
    + destruct (Z.eqb_spec (w d0 - 1) 0) as [E|E]; [rewrite E; split; [done|set_solver]|].
      split; [done|lia].
    + rewrite Z.sub_0_r, <- (Hr d Hdn). destruct (_ =? 0); set_solver.
  - assert (Hsub : forall d, w' d - into_count outs d = w d - into_count (i :: outs) d).
    { intros d. rewrite Hcons. unfold w'. lia. }
    split_and!; [intros d Hdn; rewrite <- Hsub; by apply H1|done|done|].
    intros d Hdn. rewrite <- Hsub. by apply H4.
Qed.

Context (Hsmall : Z.of_nat (length (glinks g)) < 2 ^ 64).

Lemma waiting_range order d : 0 <= waiting order d < 2 ^ 64.
Proof using Hsmall.
  unfold waiting. pose proof (length_filter (pending order d) ids). rewrite length_seq in *. lia.
Qed.

(** Any list of the links from a node will do. *)
Lemma kahn_step_outs indegree id queue order outs :
  kahn indegree (id :: queue) order -> NoDup outs -> (forall i, i ∈ outs <-> from i = Some id) ->
  let '(indegree', queue') := fold_left (release (glinks g)) outs (indegree, queue) in
  kahn indegree' queue' (order ++ [id]).
Proof using Hg Hsmall.
  intros K Hdo Hin. pose proof (kahn_nodup _ _ _ K) as Hd.
  assert (Hid : id ∉ order) by (apply NoDup_app in Hd as (_ & Hx & _); intros Hio; apply (Hx id Hio); by left).
  assert (Happ : (order ++ [id]) ++ queue = order ++ id :: queue) by (by rewrite <- app_assoc).
  pose proof (release_fold (order ++ [id]) outs indegree queue (waiting order)) as R.
  destruct (fold_left _ _ _) as [indegree' queue']. destruct R as (H1 & H2 & H3 & H4).
  - apply (kahn_degree _ _ _ K).
  - intros d. pose proof (waiting_range order d) as Hw. rewrite (waiting_split order id outs d Hdo Hin Hid) in *.
    pose proof (waiting_range (order ++ [id]) d). lia.
  - intros i Hi. apply Hin in Hi. unfold from, into in *. destruct (glinks g !! i); [by eexists|done].
  - by rewrite Happ.
  - rewrite Happ. apply (kahn_below _ _ _ K).
  - rewrite Happ. apply (kahn_ready _ _ _ K).
  - assert (Hw : forall d, waiting (order ++ [id]) d = waiting order d - into_count outs d).
    { intros d. rewrite (waiting_split order id outs d Hdo Hin Hid). lia. }
    constructor; [done|done|intros d Hdn; by rewrite Hw; apply H1|intros d Hdn; rewrite Hw; by apply H4|].
    intros i s d o1 o2 Hs Hi E. destruct o2 as [|x o2] using rev_ind.
    + apply app_inj_tail in E as [<- <-].
      assert (Hz : waiting order id = 0).
      { apply (kahn_ready _ _ _ K); [eapply into_node; done|]. set_solver. }
      unfold waiting in Hz. destruct (decide (s ∈ order)) as [|Hns]; [done|].
      assert (Hp : i ∈ filter (pending order id) ids).
      { apply list_elem_of_filter. split; [split; [done|by exists s]|]. apply id_in.
        unfold from in Hs. destruct (glinks g !! i); [by eexists|done]. }
      destruct (filter (pending order id) ids); [by apply not_elem_of_nil in Hp|cbn in Hz; lia].
    + rewrite app_comm_cons, app_assoc in E. apply app_inj_tail in E as [E _].
      by apply (kahn_before _ _ _ K i s d o1 o2).
Qed.

Lemma kahn_step indegree id queue order n :
  kahn indegree (id :: queue) order -> gnodes g !! id = Some n ->
  let '(indegree', queue') :=
    fold_left (release (glinks g)) (connected (outputs (nlinks n))) (indegree, queue) in
  kahn indegree' queue' (order ++ [id]).
Proof using Hg Hsmall. intros K Hn. destruct (outs_spec id n Hn). by apply kahn_step_outs. Qed.

(** The queue may be taken in any order. *)
Lemma kahn_perm indegree queue queue' order : Permutation queue queue' -> kahn indegree queue order -> kahn indegree queue' order.
Proof using Type.
  intros Hp [K1 K2 K3 K4 K5]. constructor; [by rewrite <- Hp|intros d; rewrite <- Hp; apply K2|done|intros d; rewrite <- Hp; apply K4|done].
Qed.

Lemma topo_loop_spec fuel : forall indegree queue order,
  kahn indegree queue order -> (N <= fuel + length order)%nat ->
  exists result, topo_loop fuel g indegree queue order = Some result /\
    exists indegree', kahn indegree' [] result.
Proof using Hg Hsmall.
  induction fuel as [|fuel IH]; intros indegree queue order K Hf; destruct queue as [|id queue]; cbn [topo_loop].
  1,3: by exists order; split; [|exists indegree].
  - pose proof (NoDup_below _ N (kahn_nodup _ _ _ K) (kahn_below _ _ _ K)) as Hlen.
    rewrite length_app in Hlen. cbn in Hlen. lia.
  - pose proof (kahn_below _ _ _ K id ltac:(set_solver)) as Hid.
    destruct (gnodes g !! id) as [n|] eqn:Hn; [|apply lookup_ge_None in Hn; lia].
    pose proof (kahn_step indegree id queue order n K Hn) as K'.
    destruct (fold_left _ _ _) as [indegree' queue']. apply (IH _ _ _ K').
    rewrite length_app. cbn. lia.
Qed.

Lemma indegrees_fold up ls : (forall k, 0 <= k < 2 ^ 64 - 1 -> up k = k + 1) -> forall ds (w : nat -> Z),
  (forall d, (d < length ds)%nat -> ds !! d = Some (w d)) ->
  (forall d, 0 <= w d /\ w d + Z.of_nat (length ls) < 2 ^ 64) ->
  forall d, (d < length ds)%nat ->
  fold_left (fun ds (l : link P) => alter up (pnode (dst l)) ds) ls ds !! d =
  Some (w d + Z.of_nat (length (filter (fun l => pnode (dst l) = d) ls))).
Proof using.
  clear. intros Hup. induction ls as [|l ls IH]; intros ds w Hw Hr d Hd; cbn [fold_left].
  { rewrite Hw by done. f_equal. cbn. lia. }
  set (w' := fun d => w d + if decide (pnode (dst l) = d) then 1 else 0).
  rewrite (IH _ w'); rewrite ?length_alter; [|intros d' Hd'|intros d'|done].
  - f_equal. unfold w'. rewrite filter_cons. destruct (decide (pnode (dst l) = d)); cbn [length]; lia.
  - unfold w'. destruct (decide (pnode (dst l) = d')) as [->|Hne].
    + rewrite list_lookup_alter_eq, Hw by done. cbn. f_equal. specialize (Hr d').
      cbn [length] in Hr. apply Hup. lia.
    + rewrite list_lookup_alter_ne, Hw by done. f_equal. lia.
  - specialize (Hr d'). cbn [length] in Hr. unfold w'. destruct (decide _); lia.
Qed.

Lemma waiting_start d : waiting [] d = Z.of_nat (length (filter (fun l => pnode (dst l) = d) (glinks g))).
Proof using Hg.
  clear Hsmall. unfold waiting. f_equal.
  assert (Hgen : forall (ls : list (link P)) k,
    (forall i l, ls !! i = Some l -> into (k + i) = Some (pnode (dst l)) /\ is_Some (from (k + i))) ->
    length (filter (pending [] d) (seq k (length ls))) = length (filter (fun l => pnode (dst l) = d) ls)).
  { induction ls as [|l ls IH]; intros k Hin; [done|]. cbn [length seq]. rewrite !filter_cons.
    assert (IH' : length (filter (pending [] d) (seq (S k) (length ls))) = length (filter (fun l => pnode (dst l) = d) ls)).
    { apply IH. intros i l' Hi. replace (S k + i)%nat with (k + S i)%nat by lia. by apply Hin. }
    destruct (Hin 0%nat l eq_refl) as [Hi [s Hs]]. rewrite Nat.add_0_r in *.
    destruct (decide (pending [] d k)) as [Hp|Hp], (decide (pnode (dst l) = d)) as [He|He]; cbn [length]; rewrite ?IH'; try done.
    - destruct Hp as [Hp _]. congruence.
    - destruct Hp. split; [congruence|]. exists s. split; [done|set_solver]. }
  apply Hgen. intros i l Hl. unfold into, from. cbn [Nat.add]. by rewrite Hl.
Qed.

(** The counts of the links and the nodes without any. *)
Lemma kahn_start_at up indegree queue :
  (forall k, 0 <= k < 2 ^ 64 - 1 -> up k = k + 1) ->
  indegree = fold_left (fun ds (l : link P) => alter up (pnode (dst l)) ds) (glinks g) (replicate N 0) ->
  NoDup queue -> (forall d, d ∈ queue <-> (d < N)%nat /\ indegree !! d = Some 0) -> kahn indegree queue [].
Proof using Hg Hsmall.
  intros Hup -> Hnd Hq.
  assert (Hdeg : forall d, (d < N)%nat ->
    fold_left (fun ds (l : link P) => alter up (pnode (dst l)) ds) (glinks g) (replicate N 0) !! d = Some (waiting [] d)).
  { intros d Hd. rewrite (indegrees_fold up _ Hup _ (fun _ => 0)).
    - by rewrite waiting_start.
    - intros d' Hd'. rewrite length_replicate in Hd'. by apply lookup_replicate_2.
    - intros d'. split; [lia|]. by rewrite Z.add_0_l.
    - by rewrite length_replicate. }
  constructor; cbn [app]; [done|intros d [Hd _]%Hq; exact Hd|done| |].
  - intros d Hd. rewrite Hq, Hdeg by done. split; [by intros [_ [=]]|by intros ->].
  - intros i s d [] o2 _ _ [=].
Qed.

Lemma kahn_start : kahn (indegrees g) (ready g (indegrees g)) [].
Proof using Hg Hsmall.
  apply (kahn_start_at count_up); [apply count_up_small|done|..].
  - apply NoDup_ListNoDup, List.NoDup_filter, NoDup_ListNoDup, NoDup_seq.
  - intros d. unfold ready. rewrite list_elem_of_In, filter_In, <- list_elem_of_In, elem_of_seq.
    assert (Hlen : length (indegrees g) = N).
    { unfold indegrees. clear. generalize (replicate N 0), (length_replicate N 0). generalize N as n.
      induction (glinks g) as [|l ls IH]; intros n ds Hn; cbn; [done|]. apply IH. by rewrite length_alter. }
    destruct (indegrees g !! d) as [k|] eqn:E; cbn.
    + apply lookup_lt_Some in E. rewrite Z.eqb_eq. split; intros [H1 H2]; split; try lia; congruence.
    + split; [|by intros [_ [=]]]. intros [Hd _]. apply lookup_ge_None in E. lia.
Qed.

(** Nodes that never got ready feed each other in a circle. *)
Lemma no_progress_cycle indegree order :
  kahn indegree [] order -> length order <> N -> exists x, tc (feeds g) x x.
Proof using Hg Hsmall.
  intros K Hlen. pose proof (kahn_nodup _ _ _ K) as Hd. rewrite app_nil_r in Hd.
  assert (Hback : forall d, (d < N)%nat -> d ∉ order -> exists s, (s < N)%nat /\ (s ∉ order) /\ feeds g s d).
  { intros d Hdn Hout. assert (Hz : waiting order d <> 0).
    { rewrite <- (kahn_ready _ _ _ K d Hdn), app_nil_r. done. }
    unfold waiting in Hz. destruct (filter (pending order d) ids) as [|i rest] eqn:E; [done|].
    assert (Hp : i ∈ filter (pending order d) ids) by (rewrite E; by left).
    apply list_elem_of_filter in Hp as [(Hi & s & Hs & Hns) _]. exists s.
    split_and!; [by eapply from_node|done|]. unfold into, from in *.
    destruct (glinks g !! i) as [l|] eqn:El; [|done]. exists l.
    cbn in Hi, Hs.
    split; [by eapply list_elem_of_lookup_2|]. split; congruence. }
  assert (Hwalk : forall k d, (d < N)%nat -> d ∉ order -> exists w, length w = k /\
    Forall (fun x => (x < N)%nat) w /\
    forall i j x y, (i < j)%nat -> (d :: w) !! i = Some x -> (d :: w) !! j = Some y -> tc (feeds g) y x).
  { induction k as [|k IH]; intros d Hdn Hout.
    { exists []. split_and!; [done|constructor|]. intros [|i] [|j] x y Hij; cbn; try lia; done. }
    destruct (Hback d Hdn Hout) as (s & Hsn & Hsout & He).
    destruct (IH s Hsn Hsout) as (w & Hw & Hall & Hchain). exists (s :: w).
    split_and!; [by cbn; f_equal|by constructor|]. intros [|i] [|j] x y Hij Hx Hy; [lia| |lia|].
    - cbn in Hx. injection Hx as <-. destruct j as [|j].
      + cbn in Hy. injection Hy as <-. by apply tc_once.
      + apply tc_r with s; [apply (Hchain 0%nat (S j)); [lia|done|done]|done].
    - apply (Hchain i j); [lia|done|done]. }
  assert (exists d, (d < N)%nat /\ (d ∉ order)) as (d & Hdn & Hout).
  { destruct (decide (Exists (fun d => d ∉ order) (seq 0 N))) as [(d & Hin & Hout)%Exists_exists|Hn].
    - exists d. split; [apply elem_of_seq in Hin; lia|done].
    - destruct Hlen. apply Nat.le_antisymm.
      + apply NoDup_below; [done|]. intros x Hx. apply (kahn_below _ _ _ K). set_solver.
      + rewrite <- (length_seq N 0) at 1. apply submseteq_length, NoDup_submseteq; [apply NoDup_seq|].
        intros x Hx. destruct (decide (x ∈ order)); [done|]. destruct Hn. apply Exists_exists. eauto. }
  destruct (Hwalk N d Hdn Hout) as (w & Hw & Hall & Hchain).
  destruct (repeats (d :: w)) as (i & j & x & Hij & Hi & Hj).
  - intros Hnd. pose proof (NoDup_below (d :: w) N Hnd) as Hle. cbn in Hle. rewrite Hw in Hle.
    enough (S N <= N)%nat by lia. apply Hle. intros x [->|Hx]%elem_of_cons; [done|].
    by eapply Forall_forall in Hall.
  - exists x. by apply (Hchain i j).
Qed.

End topo.

(** *** Building keeps links and pads in step *)

Lemma lookup_snoc {A} (l : list A) (x : A) i y :
  (l ++ [x]) !! i = Some y <-> l !! i = Some y \/ (i = length l /\ y = x).
Proof.
  rewrite lookup_app_Some, list_lookup_singleton_Some. split.
  - intros [?|(Hge & Hi & <-)]; [by left|right]. split; [lia|done].
  - intros [?|[-> ->]]; [by left|right]. split_and!; lia || done.
Qed.

Lemma push_node_wf k d f label fl g : graph_wf g -> graph_wf (snd (push_node k d f label fl g)).
Proof.
  intros [Hs Hd Ho Hi]. unfold push_node. cbn [snd]. constructor; cbn [gnodes glinks].
  - intros i l Hl. destruct (Hs i l Hl) as (n & Hn & Hp). exists n. split; [|done].
    by apply lookup_snoc; left.
  - intros i l Hl. destruct (Hd i l Hl) as (n & Hn & Hp). exists n. split; [|done].
    by apply lookup_snoc; left.
  - intros id n p i [Hn|[-> ->]]%lookup_snoc Hp; [by eapply Ho|]. cbn in Hp.
    by apply lookup_replicate in Hp as [[=] _].
  - intros id n p i [Hn|[-> ->]]%lookup_snoc Hp; [by eapply Hi|]. cbn in Hp.
    by apply lookup_replicate in Hp as [[=] _].
Qed.

(** The descriptor shows no more pads than the formats made. *)
Definition pads_match g : Prop :=
  forall id n, gnodes g !! id = Some n ->
    (length (dinputs (ndesc n)) <= length (inputs (nlinks n)))%nat /\
    (length (doutputs (ndesc n)) <= length (outputs (nlinks n)))%nat.

Lemma output_lookup n p i : output n p = Some i <-> outputs n !! p = Some (Some i).
Proof. unfold output. destruct (outputs n !! p) as [[j|]|]; cbn; split; congruence. Qed.
Lemma input_lookup n p i : input n p = Some i <-> inputs n !! p = Some (Some i).
Proof. unfold input. destruct (inputs n !! p) as [[j|]|]; cbn; split; congruence. Qed.

(** Giving an output pad and an input pad a link. *)
Definition wire (s : node_id) (sp : nat) (d : node_id) (dp : nat) (k : link_id) g : graph P F :=
  on_node d (set_nlinks (fun nl => set_input nl dp k)) (on_node s (set_nlinks (fun nl => set_output nl sp k)) g).

Lemma wire_lookup s sp d dp k g id :
  gnodes (wire s sp d dp k g) !! id =
  set_nlinks (fun nl => NodeLinks (if decide (id = d) then <[dp := Some k]> (inputs nl) else inputs nl)
                                  (if decide (id = s) then <[sp := Some k]> (outputs nl) else outputs nl))
    <$> gnodes g !! id.
Proof.
  unfold wire, on_node. cbn [gnodes with_nodes]. rewrite !list_lookup_alter.
  repeat case_decide; subst; try done; destruct (gnodes g !! _) as [x|]; try done;
    unfold set_nlinks; cbn; repeat case_decide; try done; by destruct x as [? ? ? ? ? ? []].
Qed.

(** Two nodes, one pad each, given a fresh link. *)
Lemma connect_wf s sp d dp g i g' :
  graph_wf g -> pads_match g -> connect s sp d dp g = (Ok i, g') -> graph_wf g' /\ pads_match g'.
Proof.
  intros Hwf Hpm. unfold connect, pad_media, get_node, lift, throw, put, mbind, gm_bind.
  destruct (gnodes g !! s) as [ns|] eqn:Es; [|done]. cbn [ok_or mbind result_bind].
  destruct (doutputs (ndesc ns) !! sp) as [po|] eqn:Epo; [|done]. cbn [fmap option_fmap option_map ok_or].
  destruct (gnodes g !! d) as [nd|] eqn:Ed; [|done]. cbn [ok_or mbind result_bind].
  destruct (dinputs (ndesc nd) !! dp) as [pi|] eqn:Epi; [|done]. cbn [fmap option_fmap option_map ok_or].
  destruct (bool_decide_reflect (is_Some (output (nlinks ns) sp))) as [|Ho]; [done|].
  destruct (bool_decide_reflect (is_Some (input (nlinks nd) dp))) as [|Hi]; [done|].
  unfold link_new. destruct (bool_decide _); [done|]. unfold arena_push. cbn [mret gm_ret].
  set (l := Link _ _ _ _ _ _ _ _ _ _ _ _ _). set (k := length (glinks g)). intros [= <- <-].
  destruct (Hpm s ns Es) as [_ Hls], (Hpm d nd Ed) as [Hld _].
  apply lookup_lt_Some in Epo, Epi.
  apply eq_None_not_Some in Ho, Hi.
  change (graph_wf (wire s sp d dp k (with_glinks (glinks g ++ [l]) g)) /\
    pads_match (wire s sp d dp k (with_glinks (glinks g ++ [l]) g))).
  assert (Hout : outputs (nlinks ns) !! sp = Some None).
  { unfold output in Ho. destruct (outputs (nlinks ns) !! sp) as [[|]|] eqn:E; [done|done|].
    apply lookup_ge_None in E. lia. }
  assert (Hin : inputs (nlinks nd) !! dp = Some None).
  { unfold input in Hi. destruct (inputs (nlinks nd) !! dp) as [[|]|] eqn:E; [done|done|].
    apply lookup_ge_None in E. lia. }
  destruct Hwf as [Ws Wd Wo Wi].
  assert (Hlt : forall id n (p : nat) i, gnodes g !! id = Some n ->
    outputs (nlinks n) !! p = Some (Some i) \/ inputs (nlinks n) !! p = Some (Some i) -> (i < k)%nat).
  { intros id n p i Hn [Hp|Hp]; [destruct (Wo id n p i Hn Hp) as (x & Hx & _)|destruct (Wi id n p i Hn Hp) as (x & Hx & _)];
      by apply lookup_lt_Some in Hx. }
  split; [constructor|].
  - intros i x Hx. cbn [glinks wire on_node with_nodes with_glinks] in Hx.
    apply lookup_snoc in Hx as [Hx|[-> ->]].
    + destruct (Ws i x Hx) as (n & Hn & Hp). rewrite wire_lookup. cbn [gnodes with_glinks]. rewrite Hn.
      eexists. split; [reflexivity|]. cbn. destruct (decide (pnode (src x) = s)) as [E|]; [|done].
      rewrite list_lookup_insert_ne; [done|]. intros E'. rewrite <- E' in Hp. congruence.
    + rewrite wire_lookup. cbn. rewrite Es. eexists. split; [reflexivity|]. cbn.
      rewrite decide_True by done. apply list_lookup_insert_eq. by eapply lookup_lt_Some.
  - intros i x Hx. cbn [glinks wire on_node with_nodes with_glinks] in Hx.
    apply lookup_snoc in Hx as [Hx|[-> ->]].
    + destruct (Wd i x Hx) as (n & Hn & Hp). rewrite wire_lookup. cbn [gnodes with_glinks]. rewrite Hn.
      eexists. split; [reflexivity|]. cbn. destruct (decide (pnode (dst x) = d)) as [E|]; [|done].
      rewrite list_lookup_insert_ne; [done|]. intros E'. rewrite <- E' in Hp. congruence.
    + rewrite wire_lookup. cbn. rewrite Ed. eexists. split; [reflexivity|]. cbn.
      rewrite decide_True by done. apply list_lookup_insert_eq. by eapply lookup_lt_Some.
  - intros id n p i. rewrite wire_lookup. cbn [gnodes glinks wire on_node with_nodes with_glinks].
    destruct (gnodes g !! id) as [n0|] eqn:Hn; [|done]. intros [= <-]. cbn.
    destruct (decide (id = s)) as [->|].
    + rewrite list_lookup_insert. destruct (decide (sp = p /\ _)) as [[-> _]|Hno].
      * intros [= <-]. exists l. split; [apply lookup_snoc; by right|done].
      * intros Hp. destruct (Wo s n0 p i Hn Hp) as (x & Hx & E). exists x. split; [apply lookup_snoc; by left|done].
    + intros Hp. destruct (Wo id n0 p i Hn Hp) as (x & Hx & E). exists x. split; [apply lookup_snoc; by left|done].
  - intros id n p i. rewrite wire_lookup. cbn [gnodes glinks wire on_node with_nodes with_glinks].
    destruct (gnodes g !! id) as [n0|] eqn:Hn; [|done]. intros [= <-]. cbn.
    destruct (decide (id = d)) as [->|].
    + rewrite list_lookup_insert. destruct (decide (dp = p /\ _)) as [[-> _]|Hno].
      * intros [= <-]. exists l. split; [apply lookup_snoc; by right|done].
      * intros Hp. destruct (Wi d n0 p i Hn Hp) as (x & Hx & E). exists x. split; [apply lookup_snoc; by left|done].
    + intros Hp. destruct (Wi id n0 p i Hn Hp) as (x & Hx & E). exists x. split; [apply lookup_snoc; by left|done].
  - intros id n. rewrite wire_lookup. cbn [gnodes with_glinks].
    destruct (gnodes g !! id) as [n0|] eqn:Hn; [|done]. intros [= <-]. destruct (Hpm id n0 Hn) as [H1 H2]. cbn.
    destruct (decide (id = d)), (decide (id = s)); rewrite ?length_insert; done.
Qed.

(** A converter put into a link. *)
Definition spliced (c : gnode F) (id : link_id) (l0 : link P) (m : media_type) g : graph P F :=
  let new := length (gnodes g) in
  let made s d := Link s d m (unconfigured m) false [] DEFAULT_QUEUE_DEPTH None false TS_NONE false
                    stats_default 0 in
  with_nodes
    (alter (set_nlinks (fun nl => set_input nl (ppad (dst l0)) (length (glinks g)))) (pnode (dst l0))
       (alter (set_nlinks (fun nl => set_output (set_input nl 0 id) 0 (length (glinks g)))) new
          (gnodes g ++ [c])))
    (with_glinks (<[id := made (src l0) (pad_input new 0)]> (glinks g) ++
                  [made (pad_output new 0) (dst l0)]) g).

Lemma spliced_lookup c id l0 m g x :
  nlinks c = NodeLinks [None] [None] -> (pnode (dst l0) < length (gnodes g))%nat ->
  gnodes (spliced c id l0 m g) !! x =
  if decide (x = length (gnodes g)) then
    Some (set_nlinks (fun _ => NodeLinks [Some id] [Some (length (glinks g))]) c)
  else if decide (x = pnode (dst l0)) then
    set_nlinks (fun nl => set_input nl (ppad (dst l0)) (length (glinks g))) <$> gnodes g !! x
  else gnodes g !! x.
Proof.
  intros Hc Hlt. unfold spliced. cbn [gnodes with_nodes]. rewrite !list_lookup_alter.
  destruct (decide (x = length (gnodes g))) as [->|Hx].
  - rewrite decide_False by lia. rewrite decide_True by done. rewrite list_lookup_middle by done.
    cbn. unfold set_nlinks. by rewrite Hc.
  - rewrite (decide_False (P := length (gnodes g) = x)) by congruence.
    assert (E : (gnodes g ++ [c]) !! x = gnodes g !! x).
    { destruct (decide (x < length (gnodes g))%nat); [by rewrite lookup_app_l|].
      rewrite !lookup_ge_None_2; [done|lia|rewrite length_app; cbn; lia]. }
    destruct (decide (x = pnode (dst l0))) as [->|Hn].
    + rewrite decide_True by done. rewrite (decide_False (P := length (gnodes g) = _)) by congruence.
      by rewrite E.
    + by rewrite decide_False by congruence.
Qed.

Lemma spliced_wf c id l0 m g :
  graph_wf g -> glinks g !! id = Some l0 -> nlinks c = NodeLinks [None] [None] ->
  graph_wf (spliced c id l0 m g).
Proof.
  intros [Ws Wd Wo Wi] Hl Hc. pose proof (Wd id l0 Hl) as (nd & Hnd & Hpd).
  pose proof (lookup_lt_Some _ _ _ Hnd) as Hlt. pose proof (lookup_lt_Some _ _ _ Hl) as Hid.
  pose proof (fun x => spliced_lookup c id l0 m g x Hc Hlt) as L.
  set (N := length (gnodes g)) in *. set (k := length (glinks g)) in *.
  assert (Hk : forall i x, glinks (spliced c id l0 m g) !! i = Some x ->
    i = id /\ src x = src l0 /\ dst x = pad_input N 0 \/
    i = k /\ src x = pad_output N 0 /\ dst x = dst l0 \/
    i <> id /\ glinks g !! i = Some x).
  { intros i x. unfold spliced. cbn [glinks with_nodes with_glinks]. rewrite lookup_snoc, length_insert.
    intros [Hx|[-> ->]]; [|by right; left]. destruct (decide (i = id)) as [->|Hne].
    - left. rewrite list_lookup_insert_eq in Hx by done. by injection Hx as <-.
    - right; right. by rewrite list_lookup_insert_ne in Hx. }
  assert (Hold : forall i x, glinks g !! i = Some x -> (pnode (src x) <> N /\ pnode (dst x) <> N)).
  { intros i x Hx. destruct (Ws i x Hx) as (n1 & H1%lookup_lt_Some & _), (Wd i x Hx) as (n2 & H2%lookup_lt_Some & _).
    unfold N. split; intros E; rewrite E in *; lia. }
  constructor.
  - intros i x [(-> & Es & _)|[(-> & Es & _)|[Hne Hx]]]%Hk; rewrite Es || idtac; rewrite L.
    + destruct (Hold id l0 Hl) as [Hn _]. destruct (Ws id l0 Hl) as (n & Hn' & Hp). rewrite decide_False by done.
      destruct (decide _); rewrite Hn'; (eexists; split; [reflexivity|done]).
    + cbn. rewrite decide_True by done. by eexists.
    + destruct (Hold i x Hx) as [Hn _]. destruct (Ws i x Hx) as (n & Hn' & Hp). rewrite decide_False by done.
      destruct (decide _); rewrite Hn'; (eexists; split; [reflexivity|done]).
  - intros i x [(-> & _ & Es)|[(-> & _ & Es)|[Hne Hx]]]%Hk; rewrite Es || idtac; rewrite L.
    + cbn. rewrite decide_True by done. by eexists.
    + destruct (Hold id l0 Hl) as [_ Hn]. rewrite decide_False, decide_True by done. rewrite Hnd.
      eexists. split; [reflexivity|]. cbn. apply list_lookup_insert_eq. by eapply lookup_lt_Some.
    + destruct (Hold i x Hx) as [_ Hn]. destruct (Wd i x Hx) as (n & Hn' & Hp). rewrite decide_False by done.
      destruct (decide _) as [E|]; rewrite Hn'; (eexists; split; [reflexivity|]); [|done]. cbn.
      rewrite list_lookup_insert_ne; [done|]. intros E'.
      rewrite E in Hn'. rewrite <- E' in Hp. assert (n = nd) as -> by congruence. congruence.
  - intros x n p i. rewrite L. destruct (decide (x = N)) as [->|Hne].
    + intros [= <-]. cbn. destruct p as [|p]; [|done]. intros [= <-].
      eexists. unfold spliced. cbn [glinks with_nodes with_glinks].
      split; [apply lookup_snoc; right; split; [by rewrite length_insert|reflexivity]|reflexivity].
    + assert (Hgo : forall n0, gnodes g !! x = Some n0 -> outputs (nlinks n0) !! p = Some (Some i) ->
        exists l, glinks (spliced c id l0 m g) !! i = Some l /\ src l = pad_output x p).
      { intros n0 Hn0 Hp. destruct (Wo x n0 p i Hn0 Hp) as (y & Hy & Es).
        unfold spliced. cbn [glinks with_nodes with_glinks]. destruct (decide (i = id)) as [->|Hi].
        - eexists. split; [apply lookup_snoc; left; by apply list_lookup_insert_eq|]. cbn. congruence.
        - exists y. split; [apply lookup_snoc; left; by rewrite list_lookup_insert_ne|done]. }
      destruct (decide (x = pnode (dst l0))); [|by apply Hgo].
      destruct (gnodes g !! x) as [n0|]; [|done]. intros [= <-]. cbn. by apply Hgo.
  - intros x n p i. rewrite L. destruct (decide (x = N)) as [->|Hne].
    + intros [= <-]. cbn. destruct p as [|p]; [|done]. intros [= <-].
      eexists. unfold spliced. cbn [glinks with_nodes with_glinks].
      split; [apply lookup_snoc; left; by apply list_lookup_insert_eq|reflexivity].
    + assert (Hgo : forall n0, gnodes g !! x = Some n0 -> inputs (nlinks n0) !! p = Some (Some i) ->
        pad_input x p <> dst l0 ->
        exists l, glinks (spliced c id l0 m g) !! i = Some l /\ dst l = pad_input x p).
      { intros n0 Hn0 Hp Hpad. destruct (Wi x n0 p i Hn0 Hp) as (y & Hy & Es).
        unfold spliced. cbn [glinks with_nodes with_glinks]. destruct (decide (i = id)) as [->|Hi].
        - destruct Hpad. congruence.
        - exists y. split; [apply lookup_snoc; left; by rewrite list_lookup_insert_ne|done]. }
      destruct (decide (x = pnode (dst l0))) as [->|Hnd'].
      * rewrite Hnd. intros [= <-]. cbn. rewrite list_lookup_insert.
        destruct (decide (ppad (dst l0) = p /\ _)) as [[<- _]|Hno].
        -- intros [= <-]. eexists. split; [apply lookup_snoc; right; split; [by rewrite length_insert|reflexivity]|].
           cbn. destruct (Wi _ _ _ _ Hnd Hpd) as (y & Hy & Ey). congruence.
        -- intros Hp. apply (Hgo nd Hnd Hp). intros E. destruct Hno. split; [by rewrite <- E|].
           rewrite <- E. cbn. by eapply lookup_lt_Some.
      * intros Hn Hp. apply (Hgo n Hn Hp). intros E. destruct Hnd'. by rewrite <- E.
Qed.

(** A graph made by its own calls. The formats given for a node make at least
    the pads its descriptor shows. *)
Inductive built : graph P F -> Prop :=
  | built_new : built graph_new
  | built_node g k d f label fl :
    built g -> (length (dinputs d) <= length (ninputs f))%nat ->
    (length (doutputs d) <= length (noutputs f))%nat ->
    built (snd (push_node k d f label fl g))
  | built_connect g s sp d dp i g' :
    built g -> connect s sp d dp g = (Ok i, g') -> built g'
  | built_declare g id format :
    built g -> built (on_node id (set_declared (Some format)) g).

Lemma built_connected g s sp d dp i :
  built g -> fst (connect s sp d dp g) = Ok i -> built (snd (connect s sp d dp g)).
Proof.
  intros Hb E. apply (built_connect g s sp d dp i); [exact Hb|].
  by rewrite (surjective_pairing (connect s sp d dp g)), E.
Qed.

(** A declared format is no part of the wiring. *)
Lemma declare_lookup id format g x :
  gnodes (on_node id (set_declared format) g) !! x =
  (fun n => if decide (x = id) then set_declared format n else n) <$> gnodes g !! x.
Proof.
  unfold on_node. cbn [gnodes with_nodes]. destruct (decide (x = id)) as [->|Hx].
  - rewrite list_lookup_alter_eq. by destruct (gnodes g !! id).
  - rewrite list_lookup_alter_ne by done. by destruct (gnodes g !! x).
Qed.

Lemma declare_node id format g x n' : gnodes (on_node id (set_declared format) g) !! x = Some n' ->
  exists n, gnodes g !! x = Some n /\ nlinks n' = nlinks n /\ ndesc n' = ndesc n.
Proof.
  rewrite declare_lookup. intros (n & Hn & ->)%fmap_Some. exists n. by destruct (decide (x = id)).
Qed.

Lemma declare_wf id format g : graph_wf g -> graph_wf (on_node id (set_declared format) g).
Proof.
  assert (Hfwd : forall x n, gnodes g !! x = Some n ->
    exists n', gnodes (on_node id (set_declared format) g) !! x = Some n' /\ nlinks n' = nlinks n).
  { intros x n Hn. rewrite declare_lookup, Hn. eexists. split; [reflexivity|]. by destruct (decide (x = id)). }
  intros [Hs Hd Ho Hi]. constructor.
  - intros i l Hl. destruct (Hs i l Hl) as (n & Hn & Hp). destruct (Hfwd _ _ Hn) as (n1 & Hn1 & E). exists n1. by rewrite E.
  - intros i l Hl. destruct (Hd i l Hl) as (n & Hn & Hp). destruct (Hfwd _ _ Hn) as (n1 & Hn1 & E). exists n1. by rewrite E.
  - intros x n' p i (n & Hn & E & _)%declare_node. rewrite E. by apply Ho.
  - intros x n' p i (n & Hn & E & _)%declare_node. rewrite E. by apply Hi.
Qed.

Lemma built_wf g : built g -> graph_wf g /\ pads_match g.
Proof.
  induction 1 as [|g k d f label fl _ [IH1 IH2] Hi Ho|g s sp d dp i g' _ [IH1 IH2] Hc|g id format _ [IH1 IH2]].
  - split; [constructor; intros i; cbn; rewrite ?lookup_nil; try done; intros ? ?|intros id n];
      cbn; rewrite ?lookup_nil; done.
  - split; [by apply push_node_wf|]. intros id n. unfold push_node. cbn [snd gnodes].
    intros [Hn|[-> ->]]%lookup_snoc; [by eapply IH2|]. cbn. by rewrite !length_replicate.
  - by eapply connect_wf.
  - split; [by apply declare_wf|]. intros x n' (n & Hn & -> & ->)%declare_node. by apply (IH2 x).
Qed.

End wf.


(** A sink, then the source that feeds it. *)
Definition src_formats : node_formats := NodeFormats [] [set_default] [] "".
Definition sink_formats : node_formats := NodeFormats [set_default] [] [] "".
Definition two_nodes : graph unit unit := snd (add_source "in" Video src_formats (snd (add_sink "out" Video sink_formats graph_new))).
Definition two : graph unit unit := snd (connect 1 0 0 0 two_nodes).

Lemma two_built : built two.
Proof.
  apply (built_connected two_nodes 1 0 0 0 0%nat); [|reflexivity].
  apply built_node; [apply built_node; [apply built_new|cbn; lia..]|cbn; lia..].
Qed.

