(* ===== verification/FilterRun.v ===== *)
(** * FilterRun: driving a filter graph

    [src/crates/filter/vaco-filter-core/src/sched.rs], from the buffer calls on:
    feeding sources and draining sinks, choosing the node to run from the state
    of its links, running it, and saying why the graph stopped. The check of a
    sent frame's format is a debug build's; [apply], [park] and the others act on
    the graph as the methods of the same names do. *)

From Stdlib Require Import ZArith Lia.
From stdpp Require Import prelude strings.
From S2P Require Import Prelude Bits Rational Time Error PixFmt FilterFormat FilterLink FilterSolve FilterGraph.

Inductive priority : Type := Wanted | HasStatus | HasFrame | SelfDriven.

Definition priority_value (p : priority) : Z :=
  match p with Wanted => 1 | HasStatus => 2 | HasFrame => 3 | SelfDriven => 4 end.

Inductive run_progress : Type := Stepped | Quiescent.

Record stall : Type := Stall {
  stnode : node_id; stlabel : string; stlink : option link_id; queue_depth : Z; stclosed : bool }.

Inductive graph_status : Type :=
  | GEof
  | GNeedInput (sources : list node_id)
  | GHasOutput (sinks : list node_id)
  | GDeadlock (stalls : list stall)
  | GBudgetExhausted.

(** A claim to run: its priority, when the node last ran, and the node. *)
Abbreviation candidate := (priority * Z * node_id)%type.

Section run.
Context {P F : Type} `{Filter P F}.
Implicit Types (g : graph P F) (n : gnode F) (id : node_id).
Local Abbreviation M := (gm P F).

(** ** The ends of the graph *)

Definition source_link g id : result error link_id :=
  n ← get_node g id;
  if bool_decide (nkind n <> KSource) then Err (InvalidData "node is not a buffer source")
  else ok_or (output (nlinks n) 0) (InvalidData "source output is not connected").

Definition sink_link g id : result error link_id :=
  n ← get_node g id;
  if bool_decide (nkind n <> KSink) then Err (InvalidData "node is not a buffer sink")
  else ok_or (input (nlinks n) 0) (InvalidData "sink input is not connected").

(** Every failure hands the frame back. *)
Definition send id (f : frame P) g : result (rejected P) unit * graph P F :=
  match source_link g id with
  | Err e => (Err (e, f), g)
  | Ok l =>
    match glinks g !! l with
    | None => (Err (InvalidData "source has no output link", f), g)
    | Some k => let '(r, k) := push k f in (r, with_glinks (<[l := k]> (glinks g)) g)
    end
  end.

Definition source_wants g id : result error bool :=
  l ← source_link g id;
  Ok (match glinks g !! l with Some k => wanted k && negb (is_full k) | None => false end).

Definition close_source id (pts : timestamp) : M unit :=
  fun g =>
  match source_link g id with
  | Err e => (Err e, g)
  | Ok l => (Ok tt, on_link l (fun k => close k SEof pts) g)
  end.

Definition recv id : M (frame P) :=
  fun g =>
  match sink_link g id with
  | Err e => (Err e, g)
  | Ok l =>
    match glinks g !! l with
    | None => (Err (InvalidData "sink has no input link"), g)
    | Some k =>
      let store k := with_glinks (<[l := k]> (glinks g)) g in
      match pop k with
      | (Some f, k) => (Ok f, store (request k))
      | (None, k) =>
        match pop_status k with
        | (Some SEof, k) => (Err Eof, store k)
        | (Some SFailed, k) =>
          (Err (InvalidData "an upstream filter failed; the failure itself was returned by run_once"), store k)
        | (None, k) => (Err NeedMoreInput, store (request k))
        end
      end
    end
  end.

Definition sink_format g id : result error link_format :=
  l ← sink_link g id;
  ok_or (format <$> glinks g !! l) (InvalidData "sink has no input link").

(** ** What a node's links say *)

Definition node_inputs n : list link_id := connected (inputs (nlinks n)).
Definition node_outputs n : list link_id := connected (outputs (nlinks n)).
Definition node_ids n : list link_id := node_inputs n ++ node_outputs n.

Definition links_at g (ids : list link_id) : list (link P) := omap (fun l => glinks g !! l) ids.

(** The sum of the epochs of every link the node touches. *)
Definition node_epoch g id : Z :=
  match gnodes g !! id with
  | None => 0
  | Some n => epochs (links_at g (node_ids n))
  end.

(** Marks every input wanted; says whether all were at end of stream. *)
Definition request_inputs id g : bool * graph P F :=
  match gnodes g !! id with
  | None => (false, g)
  | Some n =>
    match node_inputs n with
    | [] => (false, g)
    | ids =>
      fold_left (fun '(all_eof, g) l =>
        match glinks g !! l with
        | None => (all_eof, g)
        | Some k => (all_eof && eof_seen k, on_link l request g)
        end) ids (true, g)
    end
  end.

(** The end time to forward, with its base: that of the first input there is. *)
Definition node_end_pts g id : timestamp * rational :=
  match gnodes g !! id with
  | None => (TS_NONE, UNDEFINED)
  | Some n =>
    match head (links_at g (node_inputs n)) with
    | Some l => (end_pts l, link_time_base l)
    | None => (TS_NONE, UNDEFINED)
    end
  end.

(** Closes every output; says whether any was open. *)
Definition close_outputs id g : bool * graph P F :=
  match gnodes g !! id with
  | None => (false, g)
  | Some n =>
    let '(pts, base) := node_end_pts g id in
    fold_left (fun '(any_open, g) l =>
      match glinks g !! l with
      | None => (any_open, g)
      | Some k =>
        if is_closed k then (any_open, g)
        else (true, on_link l (fun k => close k SEof (rescale_pts pts base (link_time_base k))) g)
      end) (node_outputs n) (false, g)
  end.

Definition fail_node id g : graph P F :=
  match gnodes g !! id with
  | None => g
  | Some n =>
    on_node id (set_retired true)
      (fold_left (fun g l => on_link l (fun k => close k SFailed TS_NONE) g) (node_outputs n) g)
  end.

Definition park id g : graph P F :=
  let e := node_epoch g id in
  on_node id (fun n => set_sched (retired n) (Some e) false (last_run n) n) g.

Definition violate (v : violation) g : graph P F := with_violations (violations g ++ [v]) g.

Definition apply_activity id (a : activity) (changed : bool) g : graph P F :=
  match a with
  | Progressed =>
    if changed then on_node id (fun n => set_sched (retired n) None true (last_run n) n) g
    else park id (violate ProgressWithoutChange g)
  | NeedInput =>
    let '(all_eof, g) := request_inputs id g in
    park id (if all_eof then violate NeedInputAtEof g else g)
  | Blocked => park id g
  | AEof =>
    let '(open, g) := close_outputs id g in
    on_node id (fun n => set_sched true None (self_driven n) (last_run n) n)
      (if open then violate EofWithOpenOutput g else g)
  end.

Definition drive_endpoint id (k : kind) g : graph P F :=
  let g :=
    match k, gnodes g !! id with
    | KSink, Some n =>
      fold_left (fun g l =>
        match glinks g !! l with
        | Some lk => if negb (is_closed lk) && (depth lk =? 0) then on_link l request g else g
        | None => g
        end) (node_inputs n) g
    | _, _ => g
    end in
  on_node id (set_self_driven false) g.

(** ** Choosing *)

Definition score g n : option priority :=
  if retired n then None
  else match nkind n with
  | KSource | KSink => None
  | KFilter =>
    let outs := links_at g (node_outputs n) in
    if existsb (fun l => is_full l && negb (is_closed l)) outs then None
    else if self_driven n then Some SelfDriven
    else
      let ins := links_at g (node_inputs n) in
      if existsb (fun l => 0 <? depth l) ins then Some HasFrame
      else if existsb (fun l => negb (0 <? depth l) && is_closed l) ins then Some HasStatus
      else if existsb wanted outs && bool_decide (inputs (nlinks n) = []) then Some Wanted
      else None
  end.

(** Highest priority, then ran longest ago, then lowest id. *)
Definition better (c b : candidate) : bool :=
  let '(p, r, i) := c in
  let '(bp, br, bi) := b in
  (priority_value bp <? priority_value p) ||
  ((priority_value p =? priority_value bp) && (r <? br)) ||
  ((priority_value p =? priority_value bp) && (r =? br) && (i <? bi)%nat).

Definition offer g (best : option candidate) (e : node_id * gnode F) : option candidate :=
  let '(id, n) := e in
  if bool_decide (parked_at n = Some (node_epoch g id)) then best
  else match score g n with
       | None => best
       | Some p =>
         let c := (p, last_run n, id) in
         match best with
         | None => Some c
         | Some b => if better c b then Some c else best
         end
       end.

Definition pick g : option node_id :=
  snd <$> fold_left (offer g) (enumerate (gnodes g)) None.

(** ** Running *)

Definition seen (c : context P) : list violation :=
  (if format_mismatch c then [FrameFormatMismatch] else []) ++
  (if push_after_close c then [PushAfterClose] else []) ++
  (if dropped_by_backpressure c then [FrameDroppedByBackpressure] else []).

Definition run_node id : M run_progress :=
  fun g =>
  match gnodes g !! id with
  | None => (Ok Quiescent, g)
  | Some n =>
    let g := on_node id (fun n => set_sched (retired n) (parked_at n) false (step g) n) g in
    if retired n then (Ok Stepped, violate ActivateAfterEof g)
    else
      match nfilter n with
      | None => (Ok Stepped, drive_endpoint id (nkind n) g)
      | Some f =>
        let before := epoch_sum (glinks g) in
        let '((outcome, f), c) :=
          exec (activate f) (context_new (glinks g) (nlinks n) (node_labels g) (Some [])) in
        let g := on_node id (set_filter (Some f)) (with_glinks (links c) g) in
        let g := with_violations (violations g ++ seen c) g in
        match outcome with
        | Err e => (Err e, fail_node id g)
        | Ok a =>
          (_ ← put (apply_activity id a (negb (before =? epoch_sum (glinks g))));
           _ ← dispatch_command_requests (default [] (commands c));
           mret Stepped) g
        end
      end
  end.

Definition run_once : M run_progress :=
  fun g =>
  match pick g with
  | None => (Ok Quiescent, g)
  | Some id =>
    (_ ← deliver_due_commands id;
     _ ← put (fun g => with_step (sat_u 64 (step g + 1)) g);
     run_node id) g
  end.

Definition sinks_at g : list (node_id * gnode F) :=
  List.filter (fun '(_, n) => bool_decide (nkind n = KSink)) (enumerate (gnodes g)).

Definition stalls g : list stall :=
  map (fun '(id, n) =>
    let waiting l := match glinks g !! l with Some k => negb (eof_seen k) | None => false end in
    let blocking := match List.find waiting (node_inputs n) with
                    | Some l => Some l
                    | None => head (node_inputs n)
                    end in
    let '(depth, closed) := match blocking ≫= fun l => glinks g !! l with
                            | Some k => (depth k, is_closed k)
                            | None => (0, false)
                            end in
    Stall id (nlabel n) blocking depth closed)
    (List.filter (fun '(_, n) => negb (retired n) && bool_decide (nkind n = KFilter))
       (enumerate (gnodes g))).

Definition classify g : graph_status :=
  let done := forallb (fun '(_, n) => forallb eof_seen (links_at g (node_inputs n))) (sinks_at g) in
  let has_output := fst <$> List.filter
    (fun '(_, n) => existsb (fun l => 0 <? depth l) (links_at g (node_inputs n))) (sinks_at g) in
  match has_output with
  | _ :: _ => GHasOutput has_output
  | [] =>
    if done && existsb (fun n => bool_decide (nkind n = KSink)) (gnodes g) then GEof
    else
      let waiting := fst <$> List.filter
        (fun '(_, n) => bool_decide (nkind n = KSource) &&
           existsb (fun l => negb (is_closed l)) (links_at g (node_outputs n))) (enumerate (gnodes g)) in
      match waiting with
      | _ :: _ => GNeedInput waiting
      | [] => GDeadlock (stalls g)
      end
  end.

(** [None] is out of fuel. *)
Fixpoint run_loop (fuel : nat) (start : Z) g : option (result error graph_status * graph P F) :=
  match fuel with
  | O => None
  | S fuel =>
    if budget g <=? sat_u 64 (step g - start) then Some (Ok GBudgetExhausted, g)
    else match run_once g with
         | (Err e, g) => Some (Err e, g)
         | (Ok Stepped, g) => run_loop fuel start g
         | (Ok Quiescent, g) => Some (Ok (classify g), g)
         end
  end.

Definition run g : option (result error graph_status * graph P F) :=
  run_loop (S (Z.to_nat (budget g))) (step g) g.

Definition graph_flush g : graph P F :=
  with_violations []
    (with_nodes (map (fun n => set_sched false None false (last_run n)
                                 (set_filter (flush <$> nfilter n) n)) (gnodes g))
       (with_glinks (map link_flush (glinks g)) g)).

End run.

(** ** What a call may change *)

Section evolution.
Context {P F : Type} `{Filter P F}.
Implicit Types (g : graph P F) (n : gnode F) (id : node_id).

(** A node keeps what it was built with, and stays retired. *)
Definition same_node n n' : Prop :=
  nkind n' = nkind n /\ ndesc n' = ndesc n /\ nlabel n' = nlabel n /\ nformats n' = nformats n /\
  nlinks n' = nlinks n /\ (retired n = true -> retired n' = true).

#[export] Instance same_node_preorder : PreOrder same_node.
Proof.
  split; [by intros n|]. intros n1 n2 n3 (? & ? & ? & ? & ? & ?) (? & ? & ? & ? & ? & ?).
  unfold same_node. split_and!; [congruence..|auto].
Qed.

(** Links move along their operations, nodes keep their wiring, violations are
    only added, and none says that a finished filter ran. *)
Record evolves g g' : Prop := {
  ev_links : arena_path (glinks g) (glinks g');
  ev_nodes : Forall2 same_node (gnodes g) (gnodes g');
  ev_budget : budget g' = budget g;
  ev_step : step g' = step g;
  ev_violations : exists vs, violations g' = violations g ++ vs /\ (ActivateAfterEof ∉ vs) }.

#[export] Instance evolves_preorder : PreOrder evolves.
Proof.
  split.
  - intros g. constructor; [reflexivity| |done|done|].
    + apply Forall2_same_length_lookup. split; [done|]. intros i x y Hx Hy.
      replace y with x by congruence. reflexivity.
    + exists []. split; [by rewrite app_nil_r|set_solver].
  - intros g1 g2 g3 [L1 N1 B1 S1 (v1 & V1 & A1)] [L2 N2 B2 S2 (v2 & V2 & A2)].
    constructor; [by etransitivity| |congruence|congruence|].
    + revert N1 N2. generalize (gnodes g1), (gnodes g2), (gnodes g3). intros a b c Hab.
      revert c. induction Hab as [|x y a b Hxy _ IH]; intros c Hbc; inversion Hbc; subst; constructor;
        [by etransitivity|by apply IH].
    + exists (v1 ++ v2). split; [by rewrite V2, V1, app_assoc|set_solver].
Qed.

Lemma nodes_refl (ns : list (gnode F)) : Forall2 same_node ns ns.
Proof. induction ns; constructor; [reflexivity|done]. Qed.

Lemma on_node_evolves id f g : (forall n, same_node n (f n)) -> evolves g (on_node id f g).
Proof.
  intros Hf. constructor; [reflexivity| |done|done|exists []; split; [by rewrite app_nil_r|set_solver]].
  cbn [gnodes on_node with_nodes]. apply Forall2_same_length_lookup. split; [by rewrite length_alter|].
  intros i x y Hx Hy. rewrite list_lookup_alter in Hy. destruct (decide (id = i)) as [->|].
  - rewrite Hx in Hy. injection Hy as <-. apply Hf.
  - replace y with x by congruence. reflexivity.
Qed.

Lemma on_node_at id f g n :
  gnodes g !! id = Some n -> same_node n (f n) -> evolves g (on_node id f g).
Proof.
  intros Hn Hf. constructor; [reflexivity| |done|done|exists []; split; [by rewrite app_nil_r|set_solver]].
  cbn [gnodes on_node with_nodes]. apply Forall2_same_length_lookup. split; [by rewrite length_alter|].
  intros i x y Hx Hy. rewrite list_lookup_alter in Hy. destruct (decide (id = i)) as [->|].
  - rewrite Hx in Hy. injection Hy as <-. by replace x with n by congruence.
  - replace y with x by congruence. reflexivity.
Qed.

Lemma with_glinks_evolves ls g : arena_path (glinks g) ls -> evolves g (with_glinks ls g).
Proof.
  intros Hp. constructor; [done|apply nodes_refl|done|done|exists []; split; [by rewrite app_nil_r|set_solver]].
Qed.

Lemma on_link_evolves id f g : (forall l, link_path l (f l)) -> evolves g (on_link id f g).
Proof. intros Hf. by apply with_glinks_evolves, modify_path. Qed.

Lemma with_commands_evolves cs g : evolves g (with_commands cs g).
Proof.
  constructor; [reflexivity|apply nodes_refl|done|done|exists []; split; [by rewrite app_nil_r|set_solver]].
Qed.

Lemma violations_evolves vs g : ActivateAfterEof ∉ vs -> evolves g (with_violations (violations g ++ vs) g).
Proof. intros Hv. constructor; [reflexivity|apply nodes_refl|done|done|by exists vs]. Qed.

Lemma violate_evolves v g : v <> ActivateAfterEof -> evolves g (violate v g).
Proof. intros Hv. apply violations_evolves. set_solver. Qed.

Lemma fold_evolves {B} (f : graph P F -> B -> graph P F) bs : forall g,
  (forall g b, evolves g (f g b)) -> evolves g (fold_left f bs g).
Proof.
  induction bs as [|b bs IH]; intros g Hf; [reflexivity|]. cbn [fold_left].
  etransitivity; [apply Hf|by apply IH].
Qed.

Lemma fold2_evolves {A B} (f : A * graph P F -> B -> A * graph P F) bs : forall a g,
  (forall a g b, evolves g (snd (f (a, g) b))) -> evolves g (snd (fold_left f bs (a, g))).
Proof.
  induction bs as [|b bs IH]; intros a g Hf; [reflexivity|]. cbn [fold_left].
  pose proof (Hf a g b) as H1. destruct (f (a, g) b) as [a1 g1]. etransitivity; [exact H1|by apply IH].
Qed.

(** *** Commands *)

Lemma send_command_to_evolves id name value flags g :
  evolves g (snd (send_command_to id name value flags g)).
Proof.
  unfold send_command_to. destruct (gnodes g !! id) as [n|]; [|reflexivity].
  destruct (nfilter n) as [f|]; [|reflexivity].
  destruct (process_command f name value flags) as [[r|e] f']; cbn [snd].
  - etransitivity; apply on_node_evolves; by intros [].
  - apply on_node_evolves. by intros [].
Qed.

Lemma send_each_evolves name value flags ids : forall replies e g,
  evolves g (snd (send_each ids name value flags replies e g)).
Proof.
  induction ids as [|id ids IH]; intros replies e g; [reflexivity|]. cbn [send_each].
  pose proof (send_command_to_evolves id name value flags g) as H1.
  destruct (send_command_to id name value flags g) as [[r|e'] g1]; cbn [snd] in H1;
    (etransitivity; [exact H1|apply IH]).
Qed.

Lemma send_command_evolves target name value flags g :
  evolves g (snd (send_command target name value flags g)).
Proof.
  unfold send_command. destruct (command_targets target flags g) as [ids|e]; [|reflexivity].
  pose proof (send_each_evolves name value flags ids [] None g) as H1.
  destruct (send_each ids name value flags [] None g) as [[replies e] g1]. by destruct replies.
Qed.

Lemma deliver_evolves fuel id : forall g, evolves g (snd (deliver_loop fuel id g)).
Proof.
  induction fuel as [|fuel IH]; intros g; [reflexivity|]. cbn [deliver_loop].
  destruct (take_due g id (gcommands g)) as [[c rest]|]; [|reflexivity].
  pose proof (send_command_to_evolves id (qname c) (qvalue c) (qflags c) (with_commands rest g)) as H1.
  destruct (send_command_to _ _ _ _ _) as [[r|e] g1]; cbn [snd] in *;
    (etransitivity; [apply with_commands_evolves|]); [|exact H1].
  etransitivity; [exact H1|apply IH].
Qed.

Lemma dispatch_evolves rs : forall g, evolves g (snd (dispatch_command_requests rs g)).
Proof.
  induction rs as [|r rs IH]; intros g; [reflexivity|]. cbn [dispatch_command_requests].
  unfold mbind, gm_bind.
  pose proof (send_command_evolves (ctarget r) (cname r) (carg r) (cflags r) g) as H1.
  destruct (send_command _ _ _ _ g) as [[x|e] g1]; [|exact H1]. etransitivity; [exact H1|apply IH].
Qed.

(** *** One activation *)

Lemma request_inputs_evolves id g : evolves g (snd (request_inputs id g)).
Proof.
  unfold request_inputs. destruct (gnodes g !! id) as [n|]; [|reflexivity].
  destruct (node_inputs n) as [|l ids]; [reflexivity|]. apply fold2_evolves. intros a g' b.
  destruct (glinks g' !! b); [|reflexivity]. apply on_link_evolves, path_request.
Qed.

Lemma close_outputs_evolves id g : evolves g (snd (close_outputs id g)).
Proof.
  unfold close_outputs. destruct (gnodes g !! id) as [n|]; [|reflexivity].
  destruct (node_end_pts g id) as [pts base]. apply fold2_evolves. intros a g' b.
  destruct (glinks g' !! b) as [k|]; [|reflexivity]. destruct (is_closed k); [reflexivity|].
  apply on_link_evolves. intros l. apply path_close.
Qed.

Lemma fail_node_evolves id g : evolves g (fail_node id g).
Proof.
  unfold fail_node. destruct (gnodes g !! id) as [n|]; [|reflexivity].
  etransitivity; [|apply on_node_evolves; by intros []]. apply fold_evolves.
  intros g' b. apply on_link_evolves. intros l. apply path_close.
Qed.

Lemma park_evolves id g : evolves g (park id g).
Proof. apply on_node_evolves. by intros []. Qed.

Lemma apply_evolves id a changed g : evolves g (apply_activity id a changed g).
Proof.
  destruct a; cbn [apply_activity].
  - destruct changed; [apply on_node_evolves; by intros []|].
    etransitivity; [|apply park_evolves]. by apply violate_evolves.
  - pose proof (request_inputs_evolves id g) as H1. destruct (request_inputs id g) as [all g1].
    etransitivity; [exact H1|]. etransitivity; [|apply park_evolves].
    destruct all; [by apply violate_evolves|reflexivity].
  - apply park_evolves.
  - pose proof (close_outputs_evolves id g) as H1. destruct (close_outputs id g) as [open g1].
    etransitivity; [exact H1|]. etransitivity; [|apply on_node_evolves; by intros []].
    destruct open; [by apply violate_evolves|reflexivity].
Qed.

Lemma drive_endpoint_evolves id k g : evolves g (drive_endpoint id k g).
Proof.
  unfold drive_endpoint. etransitivity; [|apply on_node_evolves; by intros []].
  destruct k; try reflexivity. destruct (gnodes g !! id); [|reflexivity]. apply fold_evolves.
  intros g' b. destruct (glinks g' !! b); [|reflexivity]. destruct (_ && _); [|reflexivity].
  apply on_link_evolves, path_request.
Qed.

Lemma seen_ok (c : context P) : ActivateAfterEof ∉ seen c.
Proof. unfold seen. destruct (format_mismatch c), (push_after_close c), (dropped_by_backpressure c); set_solver. Qed.

Lemma run_node_evolves id g :
  (forall n, gnodes g !! id = Some n -> retired n = false) -> evolves g (snd (run_node id g)).
Proof.
  intros Hr. unfold run_node. destruct (gnodes g !! id) as [n|] eqn:Hn; [|reflexivity].
  rewrite (Hr n eq_refl). etransitivity;
    [apply (on_node_evolves id (fun n => set_sched (retired n) (parked_at n) false (step g) n)); by intros []|].
  set (g0 := on_node id _ g). destruct (nfilter n) as [f|]; [|apply drive_endpoint_evolves].
  pose proof (exec_path (activate f) (context_new (glinks g0) (nlinks n) (node_labels g0) (Some []))) as (Hp & _ & _).
  destruct (exec _ _) as [[outcome f'] c]. cbn [snd] in Hp.
  etransitivity; [apply (with_glinks_evolves (links c)); exact Hp|].
  etransitivity; [apply (on_node_evolves id (set_filter (Some f'))); by intros []|].
  set (g1 := on_node id _ (with_glinks _ _)).
  etransitivity; [apply (violations_evolves (seen c)), seen_ok|]. set (g2 := with_violations _ _).
  destruct outcome as [a|e]; [|apply fail_node_evolves]. unfold put, mbind, gm_bind.
  etransitivity; [apply (apply_evolves id a (negb (epoch_sum (glinks g0) =? epoch_sum (glinks g2))))|].
  set (g3 := apply_activity _ _ _ _). pose proof (dispatch_evolves (default [] (commands c)) g3) as H1.
  destruct (dispatch_command_requests _ g3) as [[x|e] g4]; exact H1.
Qed.

(** *** Choosing *)

(** A node that may run, with its claim to. *)
Definition runnable g (c : candidate) : Prop :=
  exists n, gnodes g !! snd c = Some n /\ parked_at n <> Some (node_epoch g (snd c)) /\
    score g n = Some (fst (fst c)) /\ snd (fst c) = last_run n.

Lemma better_total c b : better c b = true \/ better b c = true \/ c = b.
Proof.
  destruct c as [[p r] i], b as [[q s] j]. unfold better.
  assert (Hpq : priority_value p = priority_value q -> p = q) by (destruct p, q; done).
  rewrite !orb_true_iff, !andb_true_iff, !Z.ltb_lt, !Z.eqb_eq, !Nat.ltb_lt.
  destruct (Z.lt_total (priority_value p) (priority_value q)) as [|[E|]]; [tauto| |tauto].
  destruct (Z.lt_total r s) as [|[E'|]]; [lia| |lia].
  destruct (Nat.lt_total i j) as [|[E''|]]; [lia| |lia]. right; right. subst. by rewrite (Hpq E).
Qed.

Lemma better_trans a b c : better a b = true -> better b c = true -> better a c = true.
Proof.
  destruct a as [[p r] i], b as [[q s] j], c as [[o t] k]. unfold better.
  rewrite !orb_true_iff, !andb_true_iff, !Z.ltb_lt, !Z.eqb_eq, !Nat.ltb_lt. lia.
Qed.

(** The best of the nodes seen so far. *)
Definition leads_all g (es : list (node_id * gnode F)) (best : option candidate) : Prop :=
  match best with
  | None => forall c, snd c ∈ es.*1 -> ~ runnable g c
  | Some b => snd b ∈ es.*1 /\ runnable g b /\
      forall c, snd c ∈ es.*1 -> runnable g c -> c = b \/ better b c = true
  end.

Lemma runnable_det g c c' : runnable g c -> runnable g c' -> snd c = snd c' -> c = c'.
Proof.
  destruct c as [[p r] i], c' as [[q s] j]. intros (n & Hn & _ & Hs & Hl) (n' & Hn' & _ & Hs' & Hl') E.
  cbn in *. subst j. assert (n' = n) as -> by congruence. congruence.
Qed.

Lemma offer_spec g es best id n :
  gnodes g !! id = Some n -> leads_all g es best -> leads_all g (es ++ [(id, n)]) (offer g best (id, n)).
Proof.
  intros Hn Hb. unfold offer.
  assert (Hin : forall c : candidate, snd c ∈ (es ++ [(id, n)]).*1 <-> snd c ∈ es.*1 \/ snd c = id).
  { intros c. rewrite fmap_app, elem_of_app. cbn. by rewrite list_elem_of_singleton. }
  assert (Hskip : (forall c, snd c = id -> ~ runnable g c) -> leads_all g (es ++ [(id, n)]) best).
  { intros Hno. destruct best as [b|]; cbn [leads_all] in *.
    - destruct Hb as (H1 & H2 & H3). split_and!; [apply Hin; by left|done|].
      intros c Hc Hr. apply Hin in Hc as [Hc|Hc]; [by apply H3|by destruct (Hno c Hc)].
    - intros c Hc. apply Hin in Hc as [Hc|Hc]; [by apply Hb|by apply Hno]. }
  destruct (bool_decide_reflect (parked_at n = Some (node_epoch g id))) as [Hp|Hp].
  { apply Hskip. intros c Hc (n' & Hn' & Hp' & _). rewrite Hc in *. congruence. }
  destruct (score g n) as [p|] eqn:Es.
  2: { apply Hskip. intros c Hc (n' & Hn' & _ & Hs & _). rewrite Hc in *. congruence. }
  assert (Hr : runnable g (p, last_run n, id)) by (by exists n).
  destruct best as [b|]; cbn [leads_all] in *.
  - destruct Hb as (H1 & H2 & H3). destruct (better (p, last_run n, id) b) eqn:Eb; cbn [leads_all].
    + split_and!; [apply Hin; by right|done|]. intros c Hc Hcr. apply Hin in Hc as [Hc|Hc].
      * right. destruct (H3 c Hc Hcr) as [->|]; [done|by eapply better_trans].
      * left. by eapply runnable_det.
    + split_and!; [apply Hin; by left|done|]. intros c Hc Hcr. apply Hin in Hc as [Hc|Hc]; [by apply H3|].
      assert (c = (p, last_run n, id)) as -> by by eapply runnable_det.
      destruct (better_total (p, last_run n, id) b) as [E|[E|E]]; [congruence|by right|by left].
  - split_and!; [apply Hin; by right|done|]. intros c Hc Hcr.
    apply Hin in Hc as [Hc|Hc]; [by destruct (Hb c Hc)|left; by eapply runnable_det].
Qed.

Lemma pick_fold g es : forall seen best,
  (forall i n, (i, n) ∈ es -> gnodes g !! i = Some n) -> leads_all g seen best ->
  leads_all g (seen ++ es) (fold_left (offer g) es best).
Proof.
  induction es as [|[i n] es IH]; intros seen best Hes Hb; cbn [fold_left]; [by rewrite app_nil_r|].
  replace (seen ++ (i, n) :: es) with ((seen ++ [(i, n)]) ++ es) by (by rewrite <- app_assoc).
  apply IH; [intros; apply Hes; by right|]. apply offer_spec; [apply Hes; by left|done].
Qed.

End evolution.

(** The scheduler runs the node with the best claim. [pick] is a runnable node
    than which every other runnable node has a lower priority, or an equal one
    and ran more recently, or as recently and has a higher number; and there is
    none only when no node is runnable. *)
Theorem pick_is_best {P F} (g : graph P F) :
  match pick g with
  | Some id => exists b, snd b = id /\ runnable g b /\
      forall c, runnable g c -> c = b \/ better b c = true
  | None => forall c, ~ runnable g c
  end.
Proof.
  assert (Hall : forall c : candidate, runnable g c -> snd c ∈ (enumerate (gnodes g)).*1).
  { intros c (n & Hn & _). rewrite enumerate_fst. apply elem_of_seq. apply lookup_lt_Some in Hn. lia. }
  pose proof (pick_fold g (enumerate (gnodes g)) [] None) as Hf. cbn [app] in Hf. unfold pick.
  destruct (fold_left (offer g) (enumerate (gnodes g)) None) as [b|]; cbn.
  - destruct Hf as (H1 & H2 & H3); [by intros ?? ?%enumerate_elem|intros c Hc; by apply not_elem_of_nil in Hc|].
    exists b. split_and!; [done|done|]. intros c Hc. apply H3; [by apply Hall|done].
  - intros c Hc. refine (Hf _ _ c (Hall c Hc) Hc); [by intros ?? ?%enumerate_elem|].
    intros c' Hc'. by apply not_elem_of_nil in Hc'.
Qed.

(** ** Running to the end *)

Section running.
Context {P F : Type} `{Filter P F}.
Implicit Types (g : graph P F) (n : gnode F) (id : node_id).

Lemma evolves_with_step s g g' : evolves g g' -> evolves (with_step s g) (with_step s g').
Proof. intros [L N B _ V]. by constructor. Qed.

(** Commands finish no filter. *)
Lemma send_command_to_retired i name value flags g :
  retired <$> gnodes (snd (send_command_to i name value flags g)) = retired <$> gnodes g.
Proof.
  assert (Hon : forall (f : gnode F -> gnode F) g, (forall n, retired (f n) = retired n) ->
    retired <$> gnodes (on_node i f g) = retired <$> gnodes g).
  { intros f g0 Hf. cbn. apply list_eq. intros j. rewrite !list_lookup_fmap, list_lookup_alter.
    destruct (decide (i = j)) as [->|]; [|done]. destruct (gnodes g0 !! j); cbn; [by rewrite Hf|done]. }
  unfold send_command_to. destruct (gnodes g !! i) as [n|]; [|done]. destruct (nfilter n); [|done].
  destruct (process_command f name value flags) as [[r|e] f']; cbn [snd].
  - by rewrite !Hon.
  - by rewrite Hon.
Qed.

Lemma deliver_retired fuel i : forall g,
  retired <$> gnodes (snd (deliver_loop fuel i g)) = retired <$> gnodes g.
Proof.
  induction fuel as [|fuel IH]; intros g; [done|]. cbn [deliver_loop].
  destruct (take_due g i (gcommands g)) as [[c rest]|]; [|done].
  pose proof (send_command_to_retired i (qname c) (qvalue c) (qflags c) (with_commands rest g)) as H1.
  destruct (send_command_to _ _ _ _ _) as [[r|e] g1]; [by rewrite IH|done].
Qed.

Lemma pick_node g i : pick g = Some i -> exists n p, gnodes g !! i = Some n /\ score g n = Some p.
Proof.
  unfold pick. pose proof (pick_fold g (enumerate (gnodes g)) [] None) as Hf.
  destruct (fold_left (offer g) (enumerate (gnodes g)) None) as [b|]; [|done]. cbn. intros [= <-].
  destruct Hf as (_ & (n & Hn & _ & Hs & _) & _);
    [by intros ?? ?%enumerate_elem|intros c Hc; by apply not_elem_of_nil in Hc|]. eauto.
Qed.

Lemma score_retired g n p : score g n = Some p -> retired n = false.
Proof. unfold score. by destruct (retired n). Qed.

(** What one turn does: nothing when no node may run; otherwise one node runs,
    and the graph evolves. *)
Lemma run_once_spec g :
  match run_once g with
  | (Ok Quiescent, g') => pick g = None /\ g' = g
  | (Ok Stepped, g') => step g' = sat_u 64 (step g + 1) /\ evolves (with_step (step g') g) g'
  | (Err _, g') => evolves (with_step (step g') g) g'
  end.
Proof.
  unfold run_once. destruct (pick g) as [i|] eqn:Ep; [|done].
  destruct (pick_node g i Ep) as (n & p & Hn & Hs). unfold deliver_due_commands, put, mbind, gm_bind.
  pose proof (deliver_evolves (length (gcommands g)) i g) as H1.
  pose proof (deliver_retired (length (gcommands g)) i g) as R1.
  destruct (deliver_loop (length (gcommands g)) i g) as [[u|e] g1]; cbn [snd] in *.
  2: { rewrite (ev_step _ _ H1). replace (with_step (step g) g) with g by (by destruct g). exact H1. }
  assert (Hr1 : exists n1, gnodes g1 !! i = Some n1 /\ retired n1 = false).
  { apply (f_equal (fun l => l !! i)) in R1. rewrite !list_lookup_fmap, Hn in R1. cbn in R1.
    rewrite (score_retired g n p Hs) in R1. destruct (gnodes g1 !! i) as [n1|]; [|done]. exists n1.
    split; [done|]. cbn in R1. congruence. }
  destruct Hr1 as (n1 & Hn1 & Hr1). set (s := sat_u 64 (step g1 + 1)).
  pose proof (run_node_evolves i (with_step s g1)) as H2.
  assert (Hq : fst (run_node i (with_step s g1)) <> Ok Quiescent).
  { unfold run_node. cbn [gnodes with_step]. rewrite Hn1, Hr1. destruct (nfilter n1); [|done].
    destruct (exec _ _) as [[[a|e] f'] c]; [|done]. unfold put, mbind, gm_bind, mret, gm_ret.
    destruct (dispatch_command_requests _ _) as [[x|e] g4]; done. }
  destruct (run_node i (with_step s g1)) as [r g2]. cbn [fst snd] in *.
  assert (H2' : evolves (with_step s g1) g2) by (apply H2; cbn; intros n' Hn'; congruence).
  assert (Hstep : step g2 = s) by (rewrite (ev_step _ _ H2'); done).
  assert (Hev : evolves (with_step (step g2) g) g2).
  { rewrite Hstep. etransitivity; [by apply (evolves_with_step s); exact H1|exact H2']. }
  destruct r as [[|]|e]; [|done|done]. split; [|done]. rewrite Hstep. unfold s. by rewrite (ev_step _ _ H1).
Qed.

Lemma evolves_steps g g1 g2 :
  evolves (with_step (step g1) g) g1 -> evolves (with_step (step g2) g1) g2 ->
  evolves (with_step (step g2) g) g2.
Proof.
  intros H1 H2. etransitivity; [|exact H2].
  exact (evolves_with_step (step g2) _ _ H1).
Qed.

Lemma run_loop_spec fuel : forall start g,
  0 <= start <= step g -> start + budget g < 2 ^ 64 -> 0 <= budget g ->
  step g <= start + budget g ->
  start + budget g - step g < Z.of_nat fuel ->
  exists r g', run_loop fuel start g = Some (r, g') /\ evolves (with_step (step g') g) g' /\
    match r with
    | Ok s => s = GBudgetExhausted /\ step g' = start + budget g \/
              s = classify g' /\ pick g' = None
    | Err _ => True
    end.
Proof.
  induction fuel as [|fuel IH]; intros start g Hs Hb H0 Hle Hf; [lia|]. cbn [run_loop].
  rewrite sat_u_id by lia.
  destruct (Z.leb_spec (budget g) (step g - start)) as [Hbl|Hbl].
  { exists (Ok GBudgetExhausted), g. split_and!; [done| |left; split; [done|lia]].
    replace (with_step (step g) g) with g by (by destruct g). reflexivity. }
  pose proof (run_once_spec g) as H1. destruct (run_once g) as [[[|]|e] g1].
  - destruct H1 as [Hst Hev]. rewrite sat_u_id in Hst by lia.
    pose proof (ev_budget _ _ Hev) as Hbud. cbn in Hbud.
    destruct (IH start g1) as (r & g' & E & Hev' & Hr); [lia..|].
    exists r, g'. split_and!; [done|by eapply evolves_steps|by rewrite Hbud in Hr].
  - destruct H1 as [Hp ->]. exists (Ok (classify g)), g. split_and!; [done| |by right].
    replace (with_step (step g) g) with g by (by destruct g). reflexivity.
  - by exists (Err e), g1.
Qed.

End running.

(** C31. [run] ends and says why. Whatever the filters do, it returns: after its
    budget of turns, or with a filter's or a command's error, or with the
    [classify] of a graph in which no node is runnable. On the way links moved
    only along their operations, nodes kept their wiring, and no filter ran
    after it had reported its end. *)
Theorem run_returns {P F} `{Filter P F} (g : graph P F) :
  0 <= step g -> 0 <= budget g -> step g + budget g < 2 ^ 64 ->
  exists r g', run g = Some (r, g') /\
    arena_path (glinks g) (glinks g') /\ Forall2 same_node (gnodes g) (gnodes g') /\
    (exists vs, violations g' = violations g ++ vs /\ (ActivateAfterEof ∉ vs)) /\
    match r with
    | Ok s => s = GBudgetExhausted /\ step g' = step g + budget g \/
              s = classify g' /\ forall c, ~ runnable g' c
    | Err _ => True
    end.
Proof.
  intros Hs H0 Hb. unfold run.
  destruct (run_loop_spec (S (Z.to_nat (budget g))) (step g) g) as (r & g' & E & Hev & Hr); [lia..|].
  exists r, g'. destruct Hev as [L N _ _ V]. split_and!; [done..|].
  destruct r as [s|e]; [|done]. destruct Hr as [|[-> Hp]]; [by left|right]. split; [done|].
  unfold pick in Hp. pose proof (pick_fold g' (enumerate (gnodes g')) [] None) as Hf.
  destruct (fold_left (offer g') _ None) as [b|]; [done|].
  intros c Hc. refine (Hf _ _ c _ Hc); [by intros ?? ?%enumerate_elem|intros c' Hc'; by apply not_elem_of_nil in Hc'|].
  destruct Hc as (n & Hn & _). cbn [app]. rewrite enumerate_fst. apply elem_of_seq.
  apply lookup_lt_Some in Hn. lia.
Qed.

(** ** Nothing is dropped *)

Section drops.
Context {P F : Type} `{Filter P F}.
Implicit Types (g : graph P F) (n : gnode F) (l : link P) (c : context P).

(** A program that pushes at most once to each output; [used] are the outputs it
    has pushed to. *)
Fixpoint modest {A} (used : list nat) (m : program P A) : Prop :=
  match m with
  | Done _ => True
  | Look k => forall c, modest used (k c)
  | Call o k =>
    match o return (reply o -> program P A) -> Prop with
    | PushOutput pad f => fun k => (pad ∉ used) /\ forall r, modest (pad :: used) (k r)
    | _ => fun k => forall r, modest used (k r)
    end k
  end.

(** A link that can take a frame, or never will again. *)
Definition roomy l : Prop := is_closed l = true \/ is_full l = false.

Lemma roomy_step l o : (forall f, o <> LPush f) -> roomy l -> roomy (snd (link_step l o)).
Proof.
  intros Ho [Hc|Hf].
  - left. apply is_closed_spec in Hc as [s Hs]. apply is_closed_spec. exists s.
    by apply (step_closed l o s).
  - destruct o as [f| | |s pts| |fm]; cbn [link_step]; [by destruct (Ho f)| | | | |by right].
    + right. unfold pop. destruct (queue l) as [|f q] eqn:Eq; cbn [snd]; [done|].
      unfold is_full, depth, bump. cbn [capacity queue]. rewrite latch_queue.
      rewrite (proj1 (proj2 (proj2 (latch_fields _)))). cbn [capacity queue set_stats set_queue].
      unfold is_full, depth in Hf. rewrite Eq, zlen_cons in Hf. lia.
    + right. unfold pop_status. destruct (negb _); [done|]. destruct (lstatus l); [|done].
      cbn [snd]. unfold is_full, depth, bump. cbn [capacity queue]. rewrite latch_queue.
      by rewrite (proj1 (proj2 (proj2 (latch_fields _)))).
    + left. cbn [snd]. unfold close. destruct (is_closed l) eqn:E; [done|].
      apply is_closed_spec. cbn [lstatus bump]. rewrite latch_status. by eexists.
    + right. cbn [snd]. unfold request. by destruct (wanted l).
Qed.

Definition keeps_room (a a' : list (link P)) : Prop := Forall2 (fun l l' => roomy l -> roomy l') a a'.

#[local] Instance keeps_room_preorder : PreOrder keeps_room.
Proof.
  split.
  - intros a. unfold keeps_room. by induction a; constructor.
  - intros a b d Hab. revert d. induction Hab as [|x y a b Hxy _ IH]; intros d Hbd;
      inversion Hbd; subst; constructor; [by auto|by apply IH].
Qed.

Lemma modify_room a i (f : link P -> link P) :
  (forall l, roomy l -> roomy (f l)) -> keeps_room a (modify a i f).
Proof.
  intros Hf. unfold modify, update. destruct (a !! i) as [l|] eqn:E; [|reflexivity]. cbn [snd].
  apply Forall2_same_length_lookup. split; [by rewrite length_insert|]. intros j x y Hx Hy.
  destruct (decide (j = i)) as [->|].
  - rewrite list_lookup_insert_eq in Hy by (by eapply lookup_lt_Some). injection Hy as <-.
    assert (x = l) as -> by congruence. apply Hf.
  - rewrite list_lookup_insert_ne in Hy by done. by replace y with x by congruence.
Qed.

Lemma update_room {A} a i (f : link P -> A * link P) :
  (forall l, roomy l -> roomy (snd (f l))) -> keeps_room a (snd (update a i f)).
Proof.
  intros Hf. assert (E : snd (update a i f) = modify a i (fun l => snd (f l))).
  { unfold modify, update. destruct (a !! i) as [l|]; [|done]. by destruct (f l). }
  rewrite E. by apply modify_room.
Qed.

Lemma roomy_close l s pts : roomy l -> roomy (close l s pts).
Proof. by apply (roomy_step l (LClose s pts)). Qed.
Lemma roomy_request l : roomy l -> roomy (request l).
Proof. by apply (roomy_step l LRequest). Qed.
Lemma roomy_pop l : roomy l -> roomy (snd (pop l)).
Proof. intros R. pose proof (roomy_step l LPop ltac:(done) R) as Hp. cbn in Hp. by destruct (pop l). Qed.
Lemma roomy_pop_status l : roomy l -> roomy (snd (pop_status l)).
Proof. intros R. pose proof (roomy_step l LPopStatus ltac:(done) R) as Hp. cbn in Hp. by destruct (pop_status l). Qed.

(** The operations other than a push. *)
Definition quiet_ctx c c' : Prop :=
  keeps_room (links c) (links c') /\ node c' = node c /\
  dropped_by_backpressure c' = dropped_by_backpressure c.

#[local] Instance quiet_preorder : PreOrder quiet_ctx.
Proof.
  split; [intros c; split_and!; [reflexivity|done..]|].
  intros c1 c2 c3 (? & ? & ?) (? & ? & ?). split_and!; [by etransitivity|congruence..].
Qed.

Lemma quiet_links c ls : keeps_room (links c) ls -> quiet_ctx c (with_links c ls).
Proof. by split. Qed.

Lemma fold_quiet {B} (f : context P -> B -> context P) bs : forall c,
  (forall c b, quiet_ctx c (f c b)) -> quiet_ctx c (fold_left f bs c).
Proof.
  induction bs as [|b bs IH]; intros c Hf; [reflexivity|]. cbn [fold_left].
  etransitivity; [apply Hf|by apply IH].
Qed.

Lemma request_input_quiet c pad : quiet_ctx c (request_input c pad).
Proof.
  unfold request_input. destruct (in_id c pad); [|reflexivity].
  apply quiet_links, modify_room, roomy_request.
Qed.

Lemma close_output_at_quiet c pad pts : quiet_ctx c (close_output_at c pad pts).
Proof.
  unfold close_output_at. destruct (out_id c pad); [|reflexivity].
  apply quiet_links, modify_room. intros l. apply roomy_close.
Qed.

Lemma step_quiet o c : (forall pad f, o <> PushOutput pad f) -> quiet_ctx c (snd (ctx_step o c)).
Proof.
  intros Ho. destruct o as [pad|pad|pad|pad f|pad pts|pad| | |pad fm|t a b fl]; cbn [ctx_step snd].
  - unfold take_input. destruct (in_id c pad) as [i|]; [|reflexivity].
    pose proof (update_room (links c) i pop roomy_pop) as Hu. destruct (update _ _ _). by apply quiet_links.
  - unfold take_input_status. destruct (in_id c pad) as [i|]; [|reflexivity].
    pose proof (update_room (links c) i pop_status roomy_pop_status) as Hu.
    destruct (update _ _ _). by apply quiet_links.
  - apply request_input_quiet.
  - by destruct (Ho pad f).
  - apply close_output_at_quiet.
  - apply close_output_at_quiet.
  - unfold close_all_outputs. destruct (closed_input_end c) as [pts base]. apply fold_quiet.
    clear c. intros c pad. destruct (out_id c pad); [|reflexivity].
    apply quiet_links, modify_room. intros l. apply roomy_close.
  - unfold forward_wanted. destruct (existsb _ _); [|reflexivity]. apply fold_quiet, request_input_quiet.
  - unfold set_output_link. destruct (out_id c pad); [|reflexivity].
    apply quiet_links, modify_room. intros l [?|?]; [by left|by right].
  - unfold ctx_send_command. by destruct (commands c).
Qed.

(** The outputs not pushed to yet lead to links with room. *)
Definition open_pads c (used : list nat) : Prop :=
  forall pad l, pad ∉ used -> out_link c pad = Some l -> roomy l.

Lemma quiet_open c c' used : quiet_ctx c c' -> open_pads c used -> open_pads c' used.
Proof.
  intros (Hk & Hn & _) Ho pad l' Hu. unfold open_pads, out_link, out_id in *. rewrite Hn.
  destruct (pad_u32 pad) as [p|] eqn:Ep; [|done]. cbn. destruct (output (node c) p) as [i|] eqn:Ei; [|done].
  cbn. intros Hl'. destruct (Forall2_lookup_r _ _ _ _ _ Hk Hl') as (l & Hl & Hroom).
  apply Hroom, (Ho pad); [done|]. rewrite Ep. cbn. by rewrite Ei.
Qed.

(** Distinct pads are distinct links. *)
Definition pads_apart (nl : node_links) : Prop :=
  forall p q i, output nl p = Some i -> output nl q = Some i -> p = q.

Lemma push_open c used pad f :
  pads_apart (node c) -> (pad ∉ used) -> open_pads c used ->
  let c' := snd (push_output c pad f) in
  open_pads c' (pad :: used) /\ node c' = node c /\
  dropped_by_backpressure c' = dropped_by_backpressure c.
Proof.
  intros Hapart Hpad Ho. unfold push_output.
  destruct (out_id c pad) as [i|] eqn:Ei; [|split_and!; try done; intros q l Hq; apply Ho; set_solver].
  destruct (links c !! i) as [l|] eqn:El; [|split_and!; try done; intros q l Hq; apply Ho; set_solver].
  assert (Hr : roomy l) by (apply (Ho pad); [done|unfold out_link; by rewrite Ei]).
  assert (Hnodrop : forall f' l', push l f <> (Err (OutputPending, f'), l')).
  { intros f' l'. unfold push. destruct Hr as [->|Hf]; [done|]. destruct (is_closed l); [done|].
    unfold is_full, depth in Hf. rewrite Hf. done. }
  assert (Hopen : forall l' c', node c' = node c -> links c' = <[i := l']> (links c) -> open_pads c' (pad :: used)).
  { intros l' c' Hn Hl q k Hq. unfold out_link, out_id. rewrite Hn, Hl.
    destruct (pad_u32 q) as [p|] eqn:Ep; [|done]. cbn. destruct (output (node c) p) as [j|] eqn:Ej; [|done].
    cbn. assert (j <> i).
    { intros ->. unfold out_id in Ei. destruct (pad_u32 pad) as [p'|] eqn:Ep'; [|done]. cbn in Ei.
      pose proof (Hapart p p' i Ej Ei) as Hpp. subst p'. unfold pad_u32 in Ep, Ep'.
      destruct (in_u 32 (Z.of_nat q)), (in_u 32 (Z.of_nat pad)); simplify_eq. set_solver. }
    rewrite list_lookup_insert_ne by done. intros Hk. apply (Ho q); [set_solver|].
    unfold out_link, out_id. rewrite Ep. cbn. by rewrite Ej. }
  destruct (push l f) as [[[]|[e f']] l'] eqn:Ep; cbn [snd].
  - split_and!; [by eapply Hopen|done..].
  - split_and!; [by eapply Hopen|done|]. cbn. destruct e; try done. by destruct (Hnodrop f' l').
Qed.

Lemma modest_exec {A} (m : program P A) : forall used c,
  modest used m -> pads_apart (node c) -> open_pads c used ->
  dropped_by_backpressure (snd (exec m c)) = dropped_by_backpressure c.
Proof.
  induction m as [a|k IH|o k IH]; intros used c Hm Ha Ho; cbn [exec]; [done|by apply (IH c used c)|].
  destruct o as [pad|pad|pad|pad f|pad pts|pad| | |pad fm|t a b fl]; cbn [modest] in Hm.
  4: { destruct Hm as [Hpad Hm]. pose proof (push_open c used pad f Ha Hpad Ho) as (H1 & H2 & H3).
       cbn [ctx_step]. destruct (push_output c pad f) as [r c1]. cbn [snd] in *.
       rewrite (IH r (pad :: used) c1 (Hm r)); [done|by rewrite H2|done]. }
  all: match goal with |- context [ctx_step ?o ?c0] =>
         pose proof (step_quiet o c0 ltac:(done)) as Hq; destruct (ctx_step o c0) as [r c1] end;
    cbn [snd] in Hq; pose proof (quiet_open _ _ _ Hq Ho); destruct Hq as (_ & Hn & Hd);
    rewrite (IH r used c1 (Hm r)); [done|by rewrite Hn|done].
Qed.

(** *** The graph stays wired *)

Lemma link_path_ends l l' : link_path l l' -> src l' = src l /\ dst l' = dst l.
Proof.
  intros [os <-]. revert l. induction os as [|o os IH]; intros l; [done|]. cbn [link_run].
  assert (Hs : src (snd (link_step l o)) = src l /\ dst (snd (link_step l o)) = dst l).
  { assert (Hl : forall l, src (latch_eof l) = src l /\ dst (latch_eof l) = dst l)
      by (intros l0; unfold latch_eof; by destruct (is_closed l0 && _)).
    destruct o as [f| | |s pts| |fm]; cbn [link_step].
    - unfold push. destruct (is_closed l); [done|]. by destruct (_ <=? _).
    - unfold pop. destruct (queue l); [done|]. cbn [snd bump src dst].
      match goal with |- context [latch_eof ?x] => destruct (Hl x) as [-> ->] end. done.
    - unfold pop_status. destruct (negb _); [done|]. destruct (lstatus l); [|done]. apply Hl.
    - unfold close. cbn [snd]. destruct (is_closed l); [done|]. cbn [bump src dst].
      match goal with |- context [latch_eof ?x] => destruct (Hl x) as [-> ->] end. done.
    - cbn. unfold request. by destruct (wanted l).
    - done. }
  destruct (link_step l o) as [e l1]. specialize (IH l1). destruct (link_run l1 os) as [es l2].
  cbn [snd] in *. destruct IH as [-> ->]. exact Hs.
Qed.

Lemma evolves_wf g g' : evolves g g' -> graph_wf g -> graph_wf g'.
Proof.
  intros [L N _ _ _] [Ws Wd Wo Wi]. constructor.
  - intros i l' Hl'. destruct (Forall2_lookup_r _ _ _ _ _ L Hl') as (l & Hl & [Es Ed]%link_path_ends).
    rewrite Es. destruct (Ws i l Hl) as (n & Hn & Hp).
    destruct (Forall2_lookup_l _ _ _ _ _ N Hn) as (n' & Hn' & Hs). exists n'. split; [done|].
    destruct Hs as (_ & _ & _ & _ & -> & _). done.
  - intros i l' Hl'. destruct (Forall2_lookup_r _ _ _ _ _ L Hl') as (l & Hl & [Es Ed]%link_path_ends).
    rewrite Ed. destruct (Wd i l Hl) as (n & Hn & Hp).
    destruct (Forall2_lookup_l _ _ _ _ _ N Hn) as (n' & Hn' & Hs). exists n'. split; [done|].
    destruct Hs as (_ & _ & _ & _ & -> & _). done.
  - intros i n' p k Hn' Hp. destruct (Forall2_lookup_r _ _ _ _ _ N Hn') as (n & Hn & Hs).
    destruct Hs as (_ & _ & _ & _ & E & _). rewrite E in Hp. destruct (Wo i n p k Hn Hp) as (l & Hl & Es).
    destruct (Forall2_lookup_l _ _ _ _ _ L Hl) as (l' & Hl' & [Es' Ed']%link_path_ends).
    exists l'. split; [done|congruence].
  - intros i n' p k Hn' Hp. destruct (Forall2_lookup_r _ _ _ _ _ N Hn') as (n & Hn & Hs).
    destruct Hs as (_ & _ & _ & _ & E & _). rewrite E in Hp. destruct (Wi i n p k Hn Hp) as (l & Hl & Es).
    destruct (Forall2_lookup_l _ _ _ _ _ L Hl) as (l' & Hl' & [Es' Ed']%link_path_ends).
    exists l'. split; [done|congruence].
Qed.

End drops.

(** *** No violation says a frame was lost *)

Section never_drops.
Context {P F : Type} `{Filter P F}.
Implicit Types (g : graph P F) (n : gnode F) (id : node_id).

(** Commands touch neither links nor the record of violations. *)
Definition calm g g' : Prop := glinks g' = glinks g /\ violations g' = violations g.

#[local] Instance calm_preorder : PreOrder calm.
Proof. split; [by split|]. intros g1 g2 g3 [? ?] [? ?]. split; congruence. Qed.

Lemma send_command_to_calm i name value flags g : calm g (snd (send_command_to i name value flags g)).
Proof.
  unfold send_command_to. destruct (gnodes g !! i) as [n|]; [|done]. destruct (nfilter n) as [f|]; [|done].
  by destruct (process_command f name value flags) as [[r|e] f'].
Qed.

Lemma send_each_calm name value flags ids : forall replies e g,
  calm g (snd (send_each ids name value flags replies e g)).
Proof.
  induction ids as [|i ids IH]; intros replies e g; [done|]. cbn [send_each].
  pose proof (send_command_to_calm i name value flags g) as H1.
  destruct (send_command_to i name value flags g) as [[r|e'] g1]; cbn [snd] in H1;
    (etransitivity; [exact H1|apply IH]).
Qed.

Lemma dispatch_calm rs : forall g, calm g (snd (dispatch_command_requests rs g)).
Proof.
  induction rs as [|r rs IH]; intros g; [done|]. cbn [dispatch_command_requests]. unfold mbind, gm_bind.
  assert (H1 : calm g (snd (send_command (ctarget r) (cname r) (carg r) (cflags r) g))).
  { unfold send_command. destruct (command_targets _ _ g) as [ids|e]; [|done].
    pose proof (send_each_calm (cname r) (carg r) (cflags r) ids [] None g) as H1.
    destruct (send_each _ _ _ _ _ _ g) as [[replies e] g1]. by destruct replies. }
  destruct (send_command _ _ _ _ g) as [[x|e] g1]; [|exact H1]. etransitivity; [exact H1|apply IH].
Qed.

Lemma deliver_calm fuel i : forall g, calm g (snd (deliver_loop fuel i g)).
Proof.
  induction fuel as [|fuel IH]; intros g; [done|]. cbn [deliver_loop].
  destruct (take_due g i (gcommands g)) as [[c rest]|]; [|done].
  pose proof (send_command_to_calm i (qname c) (qvalue c) (qflags c) (with_commands rest g)) as H1.
  destruct (send_command_to _ _ _ _ _) as [[r|e] g1]; cbn [snd] in H1; [|exact H1].
  assert (H2 : calm g g1) by exact H1. etransitivity; [exact H2|apply IH].
Qed.

Lemma fold2_violations {A B} (f : A * graph P F -> B -> A * graph P F) bs : forall a g,
  (forall a g b, violations (snd (f (a, g) b)) = violations g) ->
  violations (snd (fold_left f bs (a, g))) = violations g.
Proof.
  induction bs as [|b bs IH]; intros a g Hf; [done|]. cbn [fold_left].
  pose proof (Hf a g b) as H1. destruct (f (a, g) b) as [a1 g1]. by rewrite IH.
Qed.

Lemma apply_violations i a changed g :
  exists vs, violations (apply_activity i a changed g) = violations g ++ vs /\
    (FrameDroppedByBackpressure ∉ vs).
Proof.
  destruct a; cbn [apply_activity].
  - destruct changed; [exists []; split; [by rewrite app_nil_r|set_solver]|].
    exists [ProgressWithoutChange]. split; [done|set_solver].
  - assert (E : violations (snd (request_inputs i g)) = violations g).
    { unfold request_inputs. destruct (gnodes g !! i) as [n|]; [|done]. destruct (node_inputs n); [done|].
      apply fold2_violations. intros b g' k. by destruct (glinks g' !! k). }
    destruct (request_inputs i g) as [all g1]. cbn [snd] in E. exists (if all then [NeedInputAtEof] else []).
    destruct all; cbn; rewrite E; [split; [done|set_solver]|split; [by rewrite app_nil_r|set_solver]].
  - exists []. split; [by rewrite app_nil_r|set_solver].
  - assert (E : violations (snd (close_outputs i g)) = violations g).
    { unfold close_outputs. destruct (gnodes g !! i) as [n|]; [|done].
      destruct (node_end_pts g i) as [pts base]. apply fold2_violations. intros b g' k.
      destruct (glinks g' !! k) as [l|]; [|done]. by destruct (is_closed l). }
    destruct (close_outputs i g) as [open g1]. cbn [snd] in E. exists (if open then [EofWithOpenOutput] else []).
    destruct open; cbn; rewrite E; [split; [done|set_solver]|split; [by rewrite app_nil_r|set_solver]].
Qed.

Lemma fail_violations i g : violations (fail_node i g) = violations g.
Proof.
  unfold fail_node. destruct (gnodes g !! i) as [n|]; [|done]. cbn [violations on_node with_nodes].
  generalize (node_outputs n). intros ls. revert g. induction ls as [|l ls IH]; intros g; [done|].
  cbn [fold_left]. by rewrite IH.
Qed.

Lemma drive_violations i k g : violations (drive_endpoint i k g) = violations g.
Proof.
  unfold drive_endpoint. cbn [violations on_node with_nodes]. destruct k; [done|done|].
  destruct (gnodes g !! i) as [n|]; [|done]. generalize (node_inputs n). intros ls. revert g.
  induction ls as [|l ls IH]; intros g; [done|]. cbn [fold_left]. rewrite IH.
  destruct (glinks g !! l); [|done]. by destruct (_ && _).
Qed.

Lemma wf_apart g i n : graph_wf g -> gnodes g !! i = Some n -> pads_apart (nlinks n).
Proof.
  intros W Hn p q k Hp%output_lookup Hq%output_lookup.
  destruct (wf_out g W i n p k Hn Hp) as (l & Hl & E), (wf_out g W i n q k Hn Hq) as (l' & Hl' & E').
  assert (l' = l) as -> by congruence. rewrite E in E'. by injection E'.
Qed.

Lemma run_node_drops i g n :
  graph_wf g -> (forall s : F, modest [] (activate s)) ->
  gnodes g !! i = Some n -> retired n = false ->
  (forall l, l ∈ links_at g (node_outputs n) -> roomy l) ->
  exists vs, violations (snd (run_node i g)) = violations g ++ vs /\ (FrameDroppedByBackpressure ∉ vs).
Proof.
  intros W Hm Hn Hr Hroom. unfold run_node. rewrite Hn, Hr.
  set (g0 := on_node i _ g). destruct (nfilter n) as [f|].
  2: { exists []. split; [|set_solver]. cbn [snd]. by rewrite app_nil_r, drive_violations. }
  pose proof (modest_exec (activate f) [] (context_new (glinks g0) (nlinks n) (node_labels g0) (Some []))) as Hd.
  destruct (exec _ _) as [[outcome f'] c]. cbn [snd] in Hd.
  assert (Hnodrop : dropped_by_backpressure c = false).
  { rewrite Hd; [done|apply Hm|by eapply wf_apart|]. intros pad l _. unfold out_link, out_id. cbn.
    destruct (pad_u32 pad) as [p|]; [|done]. cbn. destruct (output (nlinks n) p) as [k|] eqn:Ek; [|done].
    cbn. intros Hl. apply Hroom. unfold links_at, node_outputs. apply list_elem_of_omap.
    exists k. split; [|done]. apply connected_elem. exists p. by apply output_lookup. }
  assert (Hseen : FrameDroppedByBackpressure ∉ seen c).
  { unfold seen. rewrite Hnodrop. destruct (format_mismatch c), (push_after_close c); set_solver. }
  set (g1 := with_violations _ _).
  assert (E1 : violations g1 = violations g ++ seen c) by done.
  destruct outcome as [a|e].
  2: { exists (seen c). cbn [snd]. by rewrite fail_violations. }
  unfold put, mbind, gm_bind. set (b := negb _).
  destruct (apply_violations i a b g1) as (vs & E2 & Hvs).
  pose proof (dispatch_calm (default [] (commands c)) (apply_activity i a b g1)) as [_ E3].
  exists (seen c ++ vs). split; [|set_solver]. rewrite app_assoc, <- E1, <- E2, <- E3.
  by destruct (dispatch_command_requests _ _) as [[x|e] g4].
Qed.

Lemma score_roomy g n p : score g n = Some p -> forall l, l ∈ links_at g (node_outputs n) -> roomy l.
Proof.
  unfold score. destruct (retired n); [done|]. destruct (nkind n); [|done|done].
  destruct (existsb _ (links_at g (node_outputs n))) eqn:E; [done|]. intros _ l Hl.
  unfold roomy. destruct (is_full l) eqn:Ef; [left|by right]. destruct (is_closed l) eqn:Ec; [done|].
  apply not_true_iff_false in E. destruct E. apply existsb_exists. exists l.
  split; [by apply list_elem_of_In|]. by rewrite Ef, Ec.
Qed.

Lemma run_once_drops g :
  graph_wf g -> (forall s : F, modest [] (activate s)) ->
  exists vs, violations (snd (run_once g)) = violations g ++ vs /\ (FrameDroppedByBackpressure ∉ vs).
Proof.
  intros W Hm. unfold run_once. destruct (pick g) as [i|] eqn:Ep.
  2: { exists []. split; [by rewrite app_nil_r|set_solver]. }
  destruct (pick_node g i Ep) as (n & p & Hn & Hs). unfold deliver_due_commands, put, mbind, gm_bind.
  pose proof (deliver_evolves (length (gcommands g)) i g) as H1.
  pose proof (deliver_calm (length (gcommands g)) i g) as [L1 V1].
  pose proof (deliver_retired (length (gcommands g)) i g) as R1.
  destruct (deliver_loop (length (gcommands g)) i g) as [[u|e] g1]; cbn [snd] in *.
  2: { exists []. split; [by rewrite app_nil_r|set_solver]. }
  destruct (Forall2_lookup_l _ _ _ _ _ (ev_nodes _ _ H1) Hn) as (n1 & Hn1 & Hsame).
  apply (f_equal (fun l => l !! i)) in R1. rewrite !list_lookup_fmap, Hn, Hn1 in R1. cbn in R1.
  destruct (run_node_drops i (with_step (sat_u 64 (step g1 + 1)) g1) n1) as (vs & E & Hvs).
  - apply (evolves_wf _ _ (evolves_with_step (sat_u 64 (step g1 + 1)) _ _ H1)).
    destruct W as [W1 W2 W3 W4]. by constructor.
  - done.
  - exact Hn1.
  - rewrite (score_retired g n p Hs) in R1. congruence.
  - unfold links_at, node_outputs. cbn [glinks with_step]. rewrite L1.
    destruct Hsame as (_ & _ & _ & _ & -> & _). by eapply score_roomy.
  - exists vs. split; [|done]. rewrite <- V1. cbn in E. rewrite <- E.
    by destruct (run_node i _) as [[[|]|e] g2].
Qed.

Lemma run_loop_drops fuel : forall start g r g',
  graph_wf g -> (forall s : F, modest [] (activate s)) -> run_loop fuel start g = Some (r, g') ->
  exists vs, violations g' = violations g ++ vs /\ (FrameDroppedByBackpressure ∉ vs).
Proof.
  induction fuel as [|fuel IH]; intros start g r g' W Hm; [done|]. cbn [run_loop].
  assert (Hnil : exists vs, violations g = violations g ++ vs /\ (FrameDroppedByBackpressure ∉ vs)).
  { exists []. split; [by rewrite app_nil_r|set_solver]. }
  destruct (_ <=? _); [by intros [= <- <-]|].
  destruct (run_once_drops g W Hm) as (v1 & E1 & H1). pose proof (run_once_spec g) as Hs.
  destruct (run_once g) as [[[|]|e] g1]; cbn [snd] in E1.
  - destruct Hs as [_ Hev]. intros Hrun.
    destruct (IH start g1 r g') as (v2 & E2 & H2); [|done|done|].
    + apply (evolves_wf _ _ Hev). destruct W as [W1 W2 W3 W4]. by constructor.
    + exists (v1 ++ v2). split; [by rewrite E2, E1, app_assoc|set_solver].
  - intros [= <- <-]. by exists v1.
  - intros [= <- <-]. by exists v1.
Qed.

End never_drops.


(** ** A parked node misses nothing *)

Section wakeup.
Context {P F : Type}.
Implicit Types (g : graph P F) (n : gnode F) (l : link P).

Definition same_view l l' : Prop := l' = set_stats (stats l') l.

Lemma same_view_trans l1 l2 l3 : same_view l1 l2 -> same_view l2 l3 -> same_view l1 l3.
Proof. unfold same_view. intros E1 E2. rewrite E2, E1. by destruct l1. Qed.

Lemma step_epoch_next l o :
  epoch (snd (link_step l o)) = epoch l \/ epoch (snd (link_step l o)) = wrap_u 64 (epoch l + 1).
Proof.
  destruct o as [f| | |s pts| |fm]; cbn [link_step].
  - unfold push. destruct (is_closed l); [by left|]. destruct (_ <=? _); [by left|by right].
  - unfold pop. destruct (queue l); [by left|]. right. cbn [snd bump epoch].
    by rewrite (proj2 (proj2 (proj2 (latch_fields _)))).
  - unfold pop_status. destruct (negb _); [by left|]. destruct (lstatus l); [|by left]. right.
    cbn [snd bump epoch]. by rewrite (proj2 (proj2 (proj2 (latch_fields _)))).
  - cbn [snd]. unfold close. destruct (is_closed l); [by left|]. right.
    cbn [bump epoch]. by rewrite (proj2 (proj2 (proj2 (latch_fields _)))).
  - cbn [snd]. unfold request. destruct (wanted l); [by left|by right].
  - by right.
Qed.

(** The epoch counts the moves a reader can see. *)
Lemma run_bumps os : forall l, 0 <= epoch l < 2 ^ 64 ->
  exists b, 0 <= b <= Z.of_nat (length os) /\ epoch (snd (link_run l os)) = wrap_u 64 (epoch l + b) /\
    (b = 0 -> same_view l (snd (link_run l os))).
Proof.
  induction os as [|o os IH]; intros l Hr.
  { exists 0. rewrite Z.add_0_r, wrap_u_id by done. split_and!; [done..|]. intros _. by destruct l. }
  cbn [link_run]. pose proof (step_epoch_next l o) as Hn. pose proof (step_epoch l o Hr) as Hs.
  destruct (link_step l o) as [e l1]. cbn [snd] in *.
  destruct (IH l1) as (b & Hb & He & Hv).
  { destruct Hn as [-> | ->]; [done|apply wrap_u_range; lia]. }
  destruct (link_run l1 os) as [es l2]. cbn [snd length] in *. destruct Hn as [Hn|Hn].
  - exists b. rewrite <- Hn. split_and!; [lia|lia|done|]. intros Hb0.
    eapply same_view_trans; [exact (Hs Hn)|by apply Hv].
  - exists (b + 1). split_and!; [lia|lia| |lia]. rewrite He, Hn. unfold wrap_u.
    rewrite Zplus_mod_idemp_l. f_equal. lia.
Qed.

Definition sum_epochs (ls : list (link P)) : Z := foldr (fun l s => epoch l + s) 0 ls.

Lemma epochs_sum ls : epochs ls = wrap_u 64 (sum_epochs ls).
Proof.
  unfold epochs. assert (Hacc : forall a, wrap_u 64 a = a ->
    fold_left (fun acc l => wrap_u 64 (acc + epoch l)) ls a = wrap_u 64 (a + sum_epochs ls)).
  { induction ls as [|l ls IH]; intros a Ha; cbn [fold_left sum_epochs foldr].
    - by rewrite Z.add_0_r.
    - rewrite IH; [unfold wrap_u; rewrite Zplus_mod_idemp_l; f_equal; unfold sum_epochs; lia|].
      unfold wrap_u. by rewrite Z.mod_mod. }
  by rewrite (Hacc 0 eq_refl).
Qed.

Lemma sum_epochs_at g i ids l :
  glinks g !! i = Some l ->
  sum_epochs (links_at g (i :: ids)) = epoch l + sum_epochs (links_at g ids).
Proof. intros Hl. unfold links_at. simpl. by rewrite Hl. Qed.

Lemma wrap_u_add_fixed a b : wrap_u 64 (a + b) = wrap_u 64 a -> 0 <= b < 2 ^ 64 -> b = 0.
Proof.
  unfold wrap_u. intros E Hb. rewrite <- (Z.mod_small b (2 ^ 64)) by done.
  replace b with ((a + b) - a) by lia. rewrite Zminus_mod, E, Z.sub_diag. done.
Qed.

(** Moving each link by fewer than 2^64 calls in all, the sum of the epochs comes
    back only if nothing moved. *)
Lemma links_bumps g g' (moves : link_id -> list (link_op P)) ids :
  (forall i l, glinks g !! i = Some l -> link_wf l /\ glinks g' !! i = Some (snd (link_run l (moves i)))) ->
  (forall i, i ∈ ids -> is_Some (glinks g !! i)) ->
  exists b, 0 <= b <= Z.of_nat (sum_list_with (fun i => length (moves i)) ids) /\
    wrap_u 64 (sum_epochs (links_at g' ids)) = wrap_u 64 (sum_epochs (links_at g ids) + b) /\
    (b = 0 -> forall i l, i ∈ ids -> glinks g !! i = Some l ->
       same_view l (snd (link_run l (moves i)))).
Proof.
  intros Hm. induction ids as [|i ids IH]; intros Hin.
  { exists 0. split_and!; [done..|]. intros _ i l Hi. by apply not_elem_of_nil in Hi. }
  destruct IH as (b & Hb & Hs & Hv); [intros; apply Hin; by right|].
  destruct (Hin i ltac:(by left)) as [l Hl]. destruct (Hm i l Hl) as [(_ & Hr & _) Hl'].
  destruct (run_bumps (moves i) l Hr) as (b1 & Hb1 & He & Hv1). exists (b1 + b).
  rewrite (sum_epochs_at g i ids l Hl), (sum_epochs_at g' i ids _ Hl'). cbn [sum_list_with].
  split_and!; [lia|lia| |].
  - rewrite He. unfold wrap_u in *. rewrite Zplus_mod_idemp_l, Z.add_comm, <- Zplus_mod_idemp_l, Hs, Zplus_mod_idemp_l.
    f_equal. lia.
  - intros Hb0 j k [->|Hj]%elem_of_cons Hk; [|apply Hv; [lia|done|done]].
    assert (k = l) as -> by congruence. apply Hv1. lia.
Qed.

(** Soundness of the wiring is a matter of the links' ends and the nodes' pads. *)
Lemma graph_wf_wiring g g' :
  map (fun l => (src l, dst l)) (glinks g') = map (fun l => (src l, dst l)) (glinks g) ->
  map nlinks (gnodes g') = map nlinks (gnodes g) -> graph_wf g -> graph_wf g'.
Proof.
  intros L N [Ws Wd Wo Wi].
  assert (HL : forall (h h' : graph P F), map (fun l => (src l, dst l)) (glinks h') = map (fun l => (src l, dst l)) (glinks h) ->
    forall i l', glinks h' !! i = Some l' -> exists l, glinks h !! i = Some l /\ src l' = src l /\ dst l' = dst l).
  { intros h h' E i l' Hl. apply (f_equal (fun x => x !! i)) in E. rewrite !list_lookup_fmap, Hl in E.
    destruct (glinks h !! i) as [l|]; [|discriminate E]. cbn in E. exists l. by injection E as -> ->. }
  assert (HN : forall (h h' : graph P F), map nlinks (gnodes h') = map nlinks (gnodes h) ->
    forall i n', gnodes h' !! i = Some n' -> exists n, gnodes h !! i = Some n /\ nlinks n' = nlinks n).
  { intros h h' E i n' Hn. apply (f_equal (fun x => x !! i)) in E. rewrite !list_lookup_fmap, Hn in E.
    destruct (gnodes h !! i) as [n|]; [|discriminate E]. cbn in E. exists n. by injection E as ->. }
  constructor.
  - intros i l' (l & Hl & -> & _)%(HL g g' L). destruct (Ws i l Hl) as (n & Hn & Hp).
    destruct (HN g' g (eq_sym N) _ _ Hn) as (n' & Hn' & E). exists n'. by rewrite <- E.
  - intros i l' (l & Hl & _ & ->)%(HL g g' L). destruct (Wd i l Hl) as (n & Hn & Hp).
    destruct (HN g' g (eq_sym N) _ _ Hn) as (n' & Hn' & E). exists n'. by rewrite <- E.
  - intros i n' p k (n & Hn & ->)%(HN g g' N) Hp. destruct (Wo i n p k Hn Hp) as (l & Hl & Es).
    destruct (HL g' g (eq_sym L) _ _ Hl) as (l' & Hl' & E & _). exists l'. by rewrite <- E.
  - intros i n' p k (n & Hn & ->)%(HN g g' N) Hp. destruct (Wi i n p k Hn Hp) as (l & Hl & Es).
    destruct (HL g' g (eq_sym L) _ _ Hl) as (l' & Hl' & _ & E). exists l'. by rewrite <- E.
Qed.

End wakeup.


(** ** A failure reaches the sinks *)

Section failure.
Context {P F : Type} `{Filter P F}.
Implicit Types (g : graph P F) (n : gnode F) (l : link P).

Definition failed l : link P := close l SFailed TS_NONE.

Lemma failed_closed l : is_closed (failed l) = true.
Proof.
  unfold failed, close. destruct (is_closed l) eqn:E; [done|].
  apply is_closed_spec. cbn [lstatus bump]. rewrite latch_status. by eexists.
Qed.

Lemma failed_failed l : failed (failed l) = failed l.
Proof. unfold failed at 1, close. by rewrite failed_closed. Qed.

Lemma modify_lookup (a : list (link P)) j h i :
  modify a j h !! i = if decide (i = j) then h <$> a !! i else a !! i.
Proof.
  unfold modify, update. destruct (decide (i = j)) as [->|Hne]; destruct (a !! j) as [l|] eqn:E; cbn [snd].
  - by rewrite list_lookup_insert_eq by (by eapply lookup_lt_Some).
  - by rewrite E.
  - by rewrite list_lookup_insert_ne by done.
  - done.
Qed.

Lemma fold_failed ids : forall g,
  gnodes (fold_left (fun g i => on_link i failed g) ids g) = gnodes g /\
  violations (fold_left (fun g i => on_link i failed g) ids g) = violations g /\
  forall i, glinks (fold_left (fun g i => on_link i failed g) ids g) !! i =
    if bool_decide (i ∈ ids) then failed <$> glinks g !! i else glinks g !! i.
Proof.
  induction ids as [|j ids IH]; intros g; cbn [fold_left]; [done|].
  destruct (IH (on_link j failed g)) as (-> & -> & IHl). split_and!; [done..|]. intros i. rewrite IHl.
  unfold on_link. cbn [glinks with_glinks]. rewrite modify_lookup. destruct (decide (i = j)) as [->|Hne].
  - rewrite (bool_decide_eq_true_2 (j ∈ j :: ids)) by set_solver.
    case_bool_decide; [|done]. destruct (glinks g !! j); [|done]. cbn. by rewrite failed_failed.
  - rewrite (bool_decide_ext (i ∈ j :: ids) (i ∈ ids)) by set_solver. done.
Qed.

End failure.

(** C34. A filter's failure is not lost. When a node's activation fails, the turn
    returns that error, the node never runs again, and each of its outputs that
    was still open is closed as failed, with its queue kept; a sink behind such
    an output, once the queue is empty, reports the failure and not an end. *)
Theorem failure_propagates {P F} `{Filter P F} (g : graph P F) id n f e f' c :
  gnodes g !! id = Some n -> retired n = false -> nfilter n = Some f ->
  exec (activate f) (context_new (glinks g) (nlinks n) (node_labels g) (Some [])) = ((Err e, f'), c) ->
  exists g', run_node id g = (Err e, g') /\
    (exists n', gnodes g' !! id = Some n' /\ retired n' = true /\ score g' n' = None) /\
    violations g' = violations g ++ seen c /\
    forall i l, i ∈ node_outputs n -> links c !! i = Some l -> is_closed l = false ->
      exists l', glinks g' !! i = Some l' /\ lstatus l' = Some SFailed /\ queue l' = queue l /\
        forall s, sink_link g' s = Ok i -> queue l = [] ->
          fst (recv s g') = Err (InvalidData "an upstream filter failed; the failure itself was returned by run_once").
Proof.
  intros Hn Hr Hf He. unfold run_node. rewrite Hn, Hr, Hf.
  cbn [glinks on_node with_nodes node_labels]. rewrite He. unfold fail_node.
  cbn [gnodes on_node with_nodes with_violations with_glinks].
  rewrite !list_lookup_alter_eq, Hn. cbn [fmap option_fmap option_map].
  match goal with |- context [fold_left ?h ?ids ?g0] =>
    change (fold_left h ids g0) with (fold_left (fun g i => on_link i failed g) ids g0);
    destruct (fold_failed ids g0) as (En & Ev & El); set (g1 := fold_left _ ids g0) in *
  end.
  cbn [gnodes glinks violations on_node with_nodes with_violations with_glinks] in En, Ev, El.
  change (node_outputs _) with (node_outputs n) in El.
  eexists. split; [reflexivity|]. cbn [glinks violations on_node with_nodes]. split_and!.
  - cbn [gnodes on_node with_nodes]. rewrite En, !list_lookup_alter_eq, Hn. cbn [fmap option_fmap option_map].
    eexists. split; [reflexivity|]. by split.
  - exact Ev.
  - intros i l Hi Hl Hc. rewrite El, bool_decide_eq_true_2, Hl by done. cbn [fmap option_fmap option_map].
    assert (Hfl : lstatus (failed l) = Some SFailed /\ queue (failed l) = queue l).
    { unfold failed, close. rewrite Hc. cbn [lstatus queue bump]. by rewrite latch_status, latch_queue. }
    destruct Hfl as [Hs Hq]. exists (failed l). split_and!; [done..|]. intros s Es Hq0.
    unfold recv. rewrite Es. cbn [glinks with_nodes]. rewrite El, bool_decide_eq_true_2, Hl by done.
    cbn [fmap option_fmap option_map]. unfold pop. rewrite Hq, Hq0. unfold pop_status. rewrite Hq, Hq0, Hs. done.
Qed.

(** ** A concrete graph

    A source, a filter and a sink. [Once] hands one frame on at a time and closes
    after its input; [Nine] pushes each frame it takes nine times over, one more
    than a link holds; [Bust] fails. *)

Inductive once : Type := Once.
Inductive nine : Type := Nine.
Inductive bust : Type := Bust.

Fixpoint pushes {A} (k : nat) (f : frame unit) (next : program unit A) : program unit A :=
  match k with
  | O => next
  | S k => Call (PushOutput 0 f) (fun _ => pushes k f next)
  end.

Definition toy_activate {T} (k : nat) (t : T) : program unit (result error activity * T) :=
  Call (TakeInput 0) (fun r : option (frame unit) =>
    match r with
    | Some f => pushes k f (Done (Ok Progressed, t))
    | None =>
      Call (TakeInputStatus 0) (fun r : option status =>
        match r with
        | Some _ => Call CloseAllOutputs (fun _ => Done (Ok AEof, t))
        | None => Done (Ok NeedInput, t)
        end)
    end).

Definition toy {T} (k : nat) : Filter unit T := {|
  activate := toy_activate k;
  configure := default_configure;
  flush := id;
  command_flags := default_command_flags;
  process_command := default_process_command default_command_flags default_command |}.

#[export] Instance once_filter : Filter unit once := toy 1.
#[export] Instance nine_filter : Filter unit nine := toy 9.
#[export] Instance bust_filter : Filter unit bust := {|
  activate := fun t => Done (Err (InvalidData "bust"), t);
  configure := default_configure;
  flush := id;
  command_flags := default_command_flags;
  process_command := default_process_command default_command_flags default_command |}.

Definition toy_desc : filter_desc := FilterDesc "toy" [Pad "in" Video] [Pad "out" Video].
Definition toy_formats : node_formats := NodeFormats [set_default] [set_default] [] "".
Definition toy_frame (pts : Z) : frame unit := Frame (DVideo Yuv420p 2 2) (Some pts) (Rational 1 25) tt.

Section toy.
Context {T : Type} `{Filter unit T} (t : T).

Definition toy_nodes : graph unit T :=
  snd (add_sink "out" Video sink_formats
    (snd (add toy_desc toy_formats t (snd (add_source "in" Video src_formats graph_new))))).
Definition toy_half : graph unit T := snd (connect 0 0 1 0 toy_nodes).
Definition toy_graph : graph unit T := snd (connect 1 0 2 0 toy_half).

Lemma toy_built : built toy_graph.
Proof using Type.
  assert (Hn : built toy_nodes).
  { unfold toy_nodes, add_sink, add, add_source.
    repeat (apply built_node; [|cbn; lia..]). apply built_new. }
  assert (Hh : built toy_half).
  { apply (built_connected _ _ _ _ _ 0%nat Hn). vm_compute; reflexivity. }
  apply (built_connected _ _ _ _ _ 1%nat Hh). vm_compute; reflexivity.
Qed.

(** Fed and closed through the graph's own calls, with a small budget. *)
Definition toy_fed (frames : list (frame unit)) : graph unit T :=
  let g := with_step_budget toy_graph 50 in
  let g := with_glinks (map (fun l => set_format l clock) (glinks g)) g in
  snd (close_source 0 (Some 3) (foldl (fun g f => snd (send 0 f g)) g frames)).
End toy.

(** Frames that fit pass in order and the end follows. *)
Example toy_pass :
  match run (toy_fed Once [toy_frame 1; toy_frame 2]) with
  | Some (r, g) =>
    r = Ok (GHasOutput [2%nat]) /\ violations g = [] /\
    (let '(f1, g) := recv 2 g in let '(f2, g) := recv 2 g in let '(f3, _) := recv 2 g in
     f1 = Ok (toy_frame 1) /\ f2 = Ok (toy_frame 2) /\ f3 = Err Eof)
  | None => False
  end.
Proof. vm_compute. repeat split. Qed.

(** The scheduler asks each open output for room for one frame; a filter that
    pushes more in one activation than the link holds loses the rest. *)
Example toy_flood_drops :
  match run (toy_fed Nine [toy_frame 1]) with
  | Some (_, g) => violations g = [FrameDroppedByBackpressure]
  | None => False
  end.
Proof. vm_compute. reflexivity. Qed.

(** The end of a node with an open input before a closed one is that of the open
    one, which has none. *)
Definition merge_desc : filter_desc := FilterDesc "merge" [Pad "a" Video; Pad "b" Video] [Pad "out" Video].
Definition merge_formats : node_formats := NodeFormats [set_default; set_default] [set_default] [] "".

Definition merge_graph : graph unit once :=
  let g := snd (add merge_desc merge_formats Once
    (snd (add_source "b" Video src_formats (snd (add_source "a" Video src_formats graph_new))))) in
  snd (connect 1 0 2 1 (snd (connect 0 0 2 0 g))).

Example end_of_first_input :
  let g := snd (close_source 1 (Some 5) merge_graph) in
  map is_closed (glinks g) = [false; true] /\ map end_pts (glinks g) = [TS_NONE; Some 5] /\
  fst (node_end_pts g 2) = TS_NONE.
Proof. vm_compute. repeat split. Qed.

Lemma run_returns_witness :
  exists g', run (toy_fed Once [toy_frame 1]) = Some (Ok (GHasOutput [2%nat]), g') /\
    forall c, ~ runnable g' c.
Proof.
  destruct (run_returns (toy_fed Once [toy_frame 1])) as (r & g' & E & _ & _ & _ & Hr).
  - vm_compute. discriminate.
  - vm_compute. discriminate.
  - vm_compute. reflexivity.
  - exists g'. assert (Er : (fst <$> run (toy_fed Once [toy_frame 1])) = Some (Ok (GHasOutput [2%nat]))).
    { vm_compute. reflexivity. }
    rewrite E in Er. cbn in Er. assert (r = Ok (GHasOutput [2%nat])) as -> by congruence.
    split; [exact E|]. destruct Hr as [[Hr _]|[_ Hr]]; [discriminate Hr|exact Hr].
Defined.

Lemma once_modest (s : once) : modest [] (activate s).
Proof.
  destruct s. cbn. intros [f|]; cbn.
  - split; [set_solver|done].
  - by intros [[]|].
Qed.


(** Two turns pass a frame and park the filter; sending another frame wakes it. *)
Definition toy_open : graph unit once :=
  with_glinks (map (fun l => set_format l clock) (glinks (toy_graph Once))) (toy_graph Once).
Definition toy_parked : graph unit once := snd (run_once (snd (run_once (snd (send 0 (toy_frame 1) toy_open))))).
Definition toy_woken : graph unit once := snd (send 0 (toy_frame 2) toy_parked).
Definition toy_moves (i : link_id) : list (link_op unit) :=
  match i with O => [LPush (toy_frame 2)] | _ => [] end.

Lemma toy_parked_wf : graph_wf toy_parked.
Proof.
  apply (graph_wf_wiring (toy_graph Once)); [| |exact (proj1 (built_wf _ (toy_built Once)))];
    vm_compute; reflexivity.
Qed.


Lemma failure_propagates_witness :
  exists g', run_node 1 (toy_graph Bust) = (Err (InvalidData "bust"), g') /\
    fst (recv 2 g') = Err (InvalidData "an upstream filter failed; the failure itself was returned by run_once").
Proof.
  destruct (gnodes (toy_graph Bust) !! 1%nat) as [n|] eqn:En; [|exfalso; vm_compute in En; discriminate En].
  assert (Hn : retired n = false /\ nfilter n = Some Bust /\ node_outputs n = [1%nat]).
  { vm_compute in En. injection En as <-. vm_compute. repeat split. }
  destruct Hn as (Hr & Hf & Ho).
  assert (He : forall c : context unit, exec (activate Bust) c = ((Err (InvalidData "bust"), Bust), c)).
  { intros c. cbn. reflexivity. }
  destruct (failure_propagates (toy_graph Bust) 1 n Bust (InvalidData "bust") Bust _ En Hr Hf (He _))
    as (g' & E & _ & _ & H).
  exists g'. split; [exact E|].
  destruct (glinks (toy_graph Bust) !! 1%nat) as [l|] eqn:El; [|exfalso; vm_compute in El; discriminate El].
  destruct (H 1%nat l) as (l' & _ & _ & _ & Hs).
  - rewrite Ho. left.
  - exact El.
  - vm_compute in El. injection El as <-. vm_compute. reflexivity.
  - apply Hs.
    + assert (Es : sink_link (snd (run_node 1 (toy_graph Bust))) 2 = Ok 1%nat) by (vm_compute; reflexivity).
      rewrite E in Es. exact Es.
    + vm_compute in El. injection El as <-. vm_compute. reflexivity.
Defined.
