(* ===== verification/GraphLex.v ===== *)
(** * GraphLex: the scanner of filter graph descriptions

    [src/crates/filter/vaco-filter-graph/src/lex.rs] and [span.rs]. Text is a
    list of Unicode scalar values and positions are byte offsets, as in Rust. The
    [&mut usize] every scanner advances is a cursor: the offset with the text
    from it on; it only moves by whole characters, so the text is always there.
    Unlike [Escape] the scanner accepts every text: an open quote runs to the
    end, a last backslash stands for itself, and each is recorded. *)

From Stdlib Require Import ZArith Lia.
From stdpp Require Import prelude strings.
From S2P Require Import Prelude.

(** ** Text *)

(** [char::len_utf8] and [str::len]. *)
Definition len_utf8 (c : Z) : Z :=
  if c <? 128 then 1 else if c <? 2048 then 2 else if c <? 65536 then 3 else 4.

Definition blen (s : rstr) : Z := foldr (fun c n => len_utf8 c + n) 0 s.

(** ** Spans *)

Record span : Type := Span { start : Z; stop : Z }.

#[export] Instance span_eq_dec : EqDecision span.
Proof. solve_decision. Defined.

Definition span_default : span := Span 0 0.

(** [Span::new], normalised. *)
Definition span_new (start stop : Z) : span :=
  if stop <? start then Span start start else Span start stop.

Definition span_at (at_ : Z) : span := Span at_ at_.
Definition span_len (s : span) : Z := sat_u 64 (stop s - start s).
Definition span_is_empty (s : span) : bool := span_len s =? 0.
Definition span_join (s o : span) : span := span_new (Z.min (start s) (start o)) (Z.max (stop s) (stop o)).

(** ** Stop sets *)

Abbreviation stop_set := Z.

Definition NONE : stop_set := 0.
Definition ARG : stop_set := 1.
Definition EQ : stop_set := 2.
Definition CHAIN : stop_set := 4.
Definition OPEN : stop_set := 8.
Definition CLOSE : stop_set := 16.
Definition LIST : stop_set := 32.
Definition SEMI : stop_set := 64.
Definition GRAPH : stop_set := Z.lor (Z.lor 4 8) 16.
Definition NAME : stop_set := Z.lor (Z.lor 2 4) 8.
Definition LABEL : stop_set := 16.

Definition stop_union (a b : stop_set) : stop_set := Z.lor a b.
Definition has (s o : stop_set) : bool := negb (Z.land s o =? 0).

Definition stops (s : stop_set) (c : Z) : bool :=
  if c =? 58 then has s ARG
  else if c =? 124 then has s LIST
  else if c =? 61 then has s EQ
  else if c =? 91 then has s OPEN
  else if c =? 93 then has s CLOSE
  else if c =? 44 then has s CHAIN
  else if c =? 59 then has s CHAIN || has s SEMI
  else false.

Definition stop_chars (s : stop_set) : rstr := filter (fun c => stops s c = true) (str ":|=[],;").

(** ** Tokens *)

Inductive quirk : Type := UnterminatedQuote | TrailingBackslash.

#[export] Instance quirk_eq_dec : EqDecision quirk.
Proof. solve_decision. Defined.

Record token : Type := Token { text : rstr; tspan : span; quirks : list (quirk * span) }.

Definition token_is_empty (t : token) : bool := bool_decide (text t = []).

(** The offset, and the text from there on. *)
Abbreviation cursor := (Z * rstr)%type.

Definition quote : Z := 39.
Definition backslash : Z := 92.

Definition is_ws (c : Z) : bool := (c =? 32) || (c =? 9) || (c =? 10) || (c =? 13).

Definition peek (at_ : cursor) : option Z := head (snd at_).

Fixpoint skip_from (at_ : Z) (s : rstr) : cursor :=
  match s with
  | c :: s' => if is_ws c then skip_from (at_ + len_utf8 c) s' else (at_, s)
  | [] => (at_, s)
  end.

Definition skip_ws (at_ : cursor) : cursor := skip_from (fst at_) (snd at_).

(** The loop of [next_token]: the text so far and how much of it the trim keeps
    (in characters), whether a quote is open, the quirk, and the cursor. *)
Record scanned : Type := Scanned {
  stext : rstr; skeep : nat; sopen : bool; squirks : list (quirk * span); sat : cursor }.

Fixpoint scan (set : stop_set) (in_quote : bool) (text : rstr) (keep : nat) (at_ : Z) (s : rstr)
    : scanned :=
  match s with
  | [] => Scanned text keep in_quote [] (at_, [])
  | c :: s' =>
    let next := at_ + len_utf8 c in
    if in_quote then
      if c =? quote then scan set false text keep next s'
      else scan set true (text ++ [c]) (length (text ++ [c])) next s'
    else if stops set c then Scanned text keep false [] (at_, s)
    else if c =? quote then scan set true text keep next s'
    else if c =? backslash then
      match s' with
      | n :: s'' => scan set false (text ++ [n]) (length (text ++ [n])) (next + len_utf8 n) s''
      | [] => Scanned (text ++ [backslash]) (length (text ++ [backslash])) false
                [(TrailingBackslash, span_new at_ next)] (next, [])
      end
    else scan set false (text ++ [c]) (if is_ws c then keep else length (text ++ [c])) next s'
  end.

Definition next_token (at_ : cursor) (set : stop_set) : token * cursor :=
  let '(start, s) := skip_ws at_ in
  let r := scan set false [] 0 start s in
  let quirks := squirks r ++ (if sopen r then [(UnterminatedQuote, span_new start (fst (sat r)))] else []) in
  (Token (take (skeep r) (stext r)) (span_new start (fst (sat r))) quirks, sat r).

(** ** Splitting *)

(** The pieces, still escaped; [piece] is the text from [start] to [at]. *)
Fixpoint split_loop (set : stop_set) (in_quote : bool) (start : Z) (piece : rstr) (at_ : Z) (s : rstr)
    : list (rstr * span) :=
  match s with
  | [] => [(piece, span_new start at_)]
  | c :: s' =>
    let next := at_ + len_utf8 c in
    if in_quote then split_loop set (negb (c =? quote)) start (piece ++ [c]) next s'
    else if c =? quote then split_loop set true start (piece ++ [c]) next s'
    else if c =? backslash then
      match s' with
      | n :: s'' => split_loop set false start (piece ++ [c; n]) (next + len_utf8 n) s''
      | [] => [(piece ++ [c], span_new start next)]
      end
    else if stops set c then (piece, span_new start at_) :: split_loop set false next [] next s'
    else split_loop set false start (piece ++ [c]) next s'
  end.

Definition split_raw (s : rstr) (set : stop_set) : list (rstr * span) := split_loop set false 0 [] 0 s.

Fixpoint once_loop (set : stop_set) (in_quote : bool) (piece s : rstr) : option (rstr * rstr) :=
  match s with
  | [] => None
  | c :: s' =>
    if in_quote then once_loop set (negb (c =? quote)) (piece ++ [c]) s'
    else if c =? quote then once_loop set true (piece ++ [c]) s'
    else if c =? backslash then
      match s' with
      | n :: s'' => once_loop set false (piece ++ [c; n]) s''
      | [] => None
      end
    else if stops set c then Some (piece, s')
    else once_loop set false (piece ++ [c]) s'
  end.

Definition split_once_raw (s : rstr) (set : stop_set) : option (rstr * rstr) := once_loop set false [] s.

Definition unescape (s : rstr) : rstr := text (fst (next_token (0, s) NONE)).

(** ** Escaping *)

(** [first] says that no character came before: the first and the last one are
    at an edge. *)
Fixpoint escape_from (set : stop_set) (first : bool) (s : rstr) : rstr :=
  match s with
  | [] => []
  | c :: s' =>
    let edge := first || bool_decide (s' = []) in
    (if (c =? backslash) || (c =? quote) || stops set c || (is_ws c && edge) then [backslash; c] else [c])
      ++ escape_from set false s'
  end.

Definition escape (s : rstr) (set : stop_set) : rstr := escape_from set true s.

Example escape_edges : escape (str " a,b ") GRAPH = str "\ a\,b\ ".
Proof. reflexivity. Qed.

(** ** Laws of the scanner *)

Lemma blen_app a b : blen (a ++ b) = blen a + blen b.
Proof. induction a as [|c a IH]; [done|]. cbn [blen foldr app]. fold (blen (a ++ b)) (blen a). lia. Qed.

Lemma len_utf8_pos c : 1 <= len_utf8 c <= 4.
Proof. unfold len_utf8. zbool. Qed.

Lemma blen_nonneg s : 0 <= blen s.
Proof. induction s as [|c s IH]; [done|]. cbn [blen foldr]. fold (blen s). pose proof (len_utf8_pos c). lia. Qed.

(** A character that a set stops on is none of the scanner's own. *)
Lemma stops_plain set c : stops set c = true -> c <> quote /\ c <> backslash /\ is_ws c = false.
Proof.
  unfold stops, is_ws, quote, backslash. intros H. split_and!; [intros ->; done..|].
  destruct (Z.eqb_spec c 32) as [->|]; [done|]. destruct (Z.eqb_spec c 9) as [->|]; [done|].
  destruct (Z.eqb_spec c 10) as [->|]; [done|]. by destruct (Z.eqb_spec c 13) as [->|].
Qed.

(** What a token ends at: the end of the text, or a character of the set. *)
Definition ends (set : stop_set) (s : rstr) : Prop :=
  match s with [] => True | c :: _ => stops set c = true end.

Lemma skip_from_stay at_ s : (forall c, head s = Some c -> is_ws c = false) -> skip_from at_ s = (at_, s).
Proof. destruct s as [|c s]; [done|]. intros H. cbn. by rewrite (H c eq_refl). Qed.

Lemma ends_no_ws set s : ends set s -> forall c, head s = Some c -> is_ws c = false.
Proof. destruct s as [|c s]; [done|]. intros H ? [= <-]. by apply (stops_plain set c). Qed.

(** [t] stops at nothing that [set] leaves bare. *)
Definition within (t set : stop_set) : Prop := forall c, stops t c = true -> stops set c = true.

Lemma within_refl set : within set set.
Proof. by intros c. Qed.

Lemma within_none set : within NONE set.
Proof.
  intros c. unfold stops, NONE, has. cbn [Z.land Z.eqb negb].
  by repeat (match goal with |- context [if ?b then _ else _] => destruct b end).
Qed.

Definition bare set first c : bool :=
  negb ((c =? backslash) || (c =? quote) || stops set c || (is_ws c && first)).

(** One character of an escaped text. *)
Lemma scan_escaped_char t set first c tx keep at_ rest : within t set ->
  let enc := if bare set first c then [c] else [backslash; c] in
  exists keep', scan t false tx keep at_ (enc ++ rest) = scan t false (tx ++ [c]) keep' (at_ + blen enc) rest /\
    (bare set first c = false \/ is_ws c = false -> keep' = length (tx ++ [c])).
Proof.
  intros Ht enc. unfold enc. destruct (bare set first c) eqn:E.
  - exists (if is_ws c then keep else length (tx ++ [c])). cbn [app scan]. unfold bare in E.
    apply negb_true_iff in E. apply orb_false_elim in E as [[[E1 E2]%orb_false_elim E3]%orb_false_elim E4].
    assert (stops t c = false) as ->.
    { destruct (stops t c) eqn:Et; [|done]. by rewrite (Ht c Et) in E3. }
    rewrite E1, E2. split; [f_equal; cbn [blen foldr]; lia|]. intros [[=]|H]. by rewrite H.
  - exists (length (tx ++ [c])). cbn [app scan].
    replace (stops t backslash) with false by done. change (backslash =? quote) with false.
    change (backslash =? backslash) with true. cbn iota. split; [|done].
    f_equal. cbn [blen foldr]. lia.
Qed.

Lemma escape_from_cons set first c s :
  escape_from set first (c :: s) =
  (if bare set (first || bool_decide (s = [])) c then [c] else [backslash; c]) ++ escape_from set false s.
Proof.
  cbn [escape_from]. unfold bare. by destruct (_ || _ || _ || _).
Qed.

(** Escaped text is scanned back, and the trim keeps all of it. *)
Lemma scan_escape_from t set s : within t set -> forall first tx keep at_ rest,
  scan t false tx keep at_ (escape_from set first s ++ rest)
  = scan t false (tx ++ s) (if bool_decide (s = []) then keep else length (tx ++ s))
      (at_ + blen (escape_from set first s)) rest.
Proof.
  intros Ht. induction s as [|c s IH]; intros first tx keep at_ rest.
  - cbn [escape_from app blen foldr]. by rewrite app_nil_r, Z.add_0_r.
  - rewrite escape_from_cons, <- app_assoc, blen_app, Z.add_assoc.
    destruct (scan_escaped_char t set (first || bool_decide (s = [])) c tx keep at_
      (escape_from set false s ++ rest) Ht) as (k & -> & Hk).
    rewrite IH, <- !app_assoc. cbn [app]. f_equal.
    case_bool_decide as E; [|done]. subst s. apply Hk. unfold bare.
    rewrite orb_true_r, andb_true_r. destruct (is_ws c); [left; by rewrite orb_true_r|by right].
Qed.

Lemma escape_head set s c : head (escape s set) = Some c -> is_ws c = false.
Proof.
  destruct s as [|x s]; [done|]. unfold escape. cbn [escape_from orb].
  destruct ((x =? backslash) || (x =? quote) || stops set x || (is_ws x && true)) eqn:E; cbn [head app].
  - by intros [= <-].
  - intros [= <-]. apply orb_false_elim in E as [_ E]. by rewrite andb_true_r in E.
Qed.

(** A token scanned from any spelling that the loop reads in full. *)
Lemma next_token_spelled set enc tx at_ rest :
  (forall c, head (enc ++ rest) = Some c -> is_ws c = false) ->
  (forall r, scan set false [] 0 at_ (enc ++ r) = scan set false tx (length tx) (at_ + blen enc) r) ->
  ends set rest ->
  next_token (at_, enc ++ rest) set
  = (Token tx (span_new at_ (at_ + blen enc)) [], (at_ + blen enc, rest)).
Proof.
  intros Hh Hs He. unfold next_token, skip_ws. cbn [fst snd]. rewrite skip_from_stay by done.
  rewrite Hs. assert (Hr : scan set false tx (length tx) (at_ + blen enc) rest
    = Scanned tx (length tx) false [] (at_ + blen enc, rest)).
  { destruct rest as [|c rest]; [done|]. cbn [scan]. cbn in He. by rewrite He. }
  rewrite Hr. cbn [stext skeep sopen squirks sat fst app]. by rewrite firstn_all.
Qed.

Lemma head_app_ws (a b : rstr) :
  (forall c, head a = Some c -> is_ws c = false) -> (forall c, head b = Some c -> is_ws c = false) ->
  forall c, head (a ++ b) = Some c -> is_ws c = false.
Proof. intros Ha Hb. by destruct a. Qed.

Lemma next_token_escape t set s at_ rest : within t set -> ends t rest ->
  next_token (at_, escape s set ++ rest) t
  = (Token s (span_new at_ (at_ + blen (escape s set))) [], (at_ + blen (escape s set), rest)).
Proof.
  intros Ht He. apply next_token_spelled; [|intros r|done].
  - apply head_app_ws; [intros c; apply escape_head|by eapply ends_no_ws].
  - unfold escape. rewrite scan_escape_from by done. cbn [app]. by case_bool_decide as E; [subst s|].
Qed.

Lemma unescape_escape set s : unescape (escape s set) = s.
Proof.
  unfold unescape. rewrite <- (app_nil_r (escape s set)).
  by rewrite next_token_escape by first [apply within_none|done].
Qed.

Lemma has_union a b o : has (stop_union a b) o = has a o || has b o.
Proof.
  unfold has, stop_union. rewrite Z.land_lor_distr_l.
  destruct (Z.eqb_spec (Z.land a o) 0) as [E|E], (Z.eqb_spec (Z.land b o) 0) as [E'|E'],
    (Z.eqb_spec (Z.lor (Z.land a o) (Z.land b o)) 0) as [E''|E'']; try done.
  - destruct E''. by rewrite E, E'.
  - by apply Z.lor_eq_0_iff in E'' as [].
  - by apply Z.lor_eq_0_iff in E'' as [].
  - by apply Z.lor_eq_0_iff in E'' as [].
Qed.

Lemma stops_union a b c : stops (stop_union a b) c = stops a c || stops b c.
Proof.
  unfold stops. rewrite !has_union.
  repeat match goal with |- context [if ?b then _ else _] => destruct b end; try done.
  by destruct (has a CHAIN), (has b CHAIN), (has a SEMI), (has b SEMI).
Qed.

Lemma within_union_l a b : within a (stop_union a b).
Proof. intros c Hc. by rewrite stops_union, Hc. Qed.

Lemma within_union_r a b : within b (stop_union a b).
Proof. intros c Hc. by rewrite stops_union, Hc, orb_true_r. Qed.

(** A splitter walks over escaped text. *)
Lemma split_loop_escape t set s : within t set -> forall first start piece at_ rest,
  split_loop t false start piece at_ (escape_from set first s ++ rest)
  = split_loop t false start (piece ++ escape_from set first s) (at_ + blen (escape_from set first s)) rest.
Proof.
  intros Ht. induction s as [|c s IH]; intros first start piece at_ rest.
  - cbn [escape_from app blen foldr]. by rewrite app_nil_r, Z.add_0_r.
  - rewrite escape_from_cons, <- app_assoc, blen_app, Z.add_assoc.
    destruct (bare set (first || bool_decide (s = [])) c) eqn:E.
    + unfold bare in E. apply negb_true_iff in E.
      apply orb_false_elim in E as [[[E1 E2]%orb_false_elim E3]%orb_false_elim _].
      assert (Et : stops t c = false).
      { destruct (stops t c) eqn:Et; [|done]. by rewrite (Ht c Et) in E3. }
      cbn [app split_loop]. rewrite E1, E2, Et, IH, <- app_assoc. f_equal. cbn [blen foldr]. lia.
    + cbn [app split_loop]. change (backslash =? quote) with false.
      change (backslash =? backslash) with true. cbn iota. rewrite IH, <- app_assoc. f_equal. cbn [blen foldr]. lia.
Qed.

Lemma once_loop_escape t set s : within t set -> forall first piece rest,
  once_loop t false piece (escape_from set first s ++ rest)
  = once_loop t false (piece ++ escape_from set first s) rest.
Proof.
  intros Ht. induction s as [|c s IH]; intros first piece rest.
  - cbn [escape_from app]. by rewrite app_nil_r.
  - rewrite escape_from_cons, <- app_assoc. destruct (bare set (first || bool_decide (s = [])) c) eqn:E.
    + unfold bare in E. apply negb_true_iff in E.
      apply orb_false_elim in E as [[[E1 E2]%orb_false_elim E3]%orb_false_elim _].
      assert (Et : stops t c = false).
      { destruct (stops t c) eqn:Et; [|done]. by rewrite (Ht c Et) in E3. }
      cbn [app once_loop]. by rewrite E1, E2, Et, IH, <- app_assoc.
    + cbn [app once_loop]. change (backslash =? quote) with false.
      change (backslash =? backslash) with true. cbn iota. by rewrite IH, <- app_assoc.
Qed.

(** Pieces joined by one separator. *)
Fixpoint join_with (c : Z) (pieces : list rstr) : rstr :=
  match pieces with
  | [] => []
  | [p] => p
  | p :: pieces => p ++ c :: join_with c pieces
  end.

(** A text the splitter walks over. *)
Definition walked t (p : rstr) : Prop := forall start piece at_ rest,
  split_loop t false start piece at_ (p ++ rest) = split_loop t false start (piece ++ p) (at_ + blen p) rest.

Lemma walked_escape t set s : within t set -> walked t (escape s set).
Proof. intros Ht start piece at_ rest. by apply split_loop_escape. Qed.

Lemma walked_app t a b : walked t a -> walked t b -> walked t (a ++ b).
Proof. intros Ha Hb start piece at_ rest. by rewrite <- app_assoc, Ha, Hb, <- app_assoc, blen_app, Z.add_assoc. Qed.

Lemma walked_char t c : c <> quote -> c <> backslash -> stops t c = false -> walked t [c].
Proof.
  intros E1%Z.eqb_neq E2%Z.eqb_neq E3 start piece at_ rest. cbn [app split_loop].
  rewrite E1, E2, E3. f_equal. cbn [blen foldr]. lia.
Qed.

Lemma split_raw_join t c pieces : stops t c = true -> pieces <> [] -> Forall (walked t) pieces ->
  map fst (split_raw (join_with c pieces) t) = pieces.
Proof.
  intros Hc Hne Hw. unfold split_raw.
  assert (Hgen : forall start at_, map fst (split_loop t false start [] at_ (join_with c pieces)) = pieces).
  { induction Hw as [|p pieces Hp Hw IH]; [done|]. intros start at_.
    destruct pieces as [|q pieces].
    - cbn [join_with]. rewrite <- (app_nil_r p) at 1. by rewrite Hp.
    - change (join_with c (p :: q :: pieces)) with (p ++ c :: join_with c (q :: pieces)). rewrite Hp.
      destruct (stops_plain t c Hc) as (N1 & N2 & _). apply Z.eqb_neq in N1, N2. cbn [split_loop app].
      rewrite N1, N2, Hc. cbn [map fst]. f_equal. by apply IH. }
  apply Hgen.
Qed.

Lemma split_once_escape t set c s rest : within t set -> stops t c = true ->
  split_once_raw (escape s set ++ c :: rest) t = Some (escape s set, rest).
Proof.
  intros Ht Hc. unfold split_once_raw, escape. rewrite once_loop_escape by done. cbn [app once_loop].
  destruct (stops_plain t c Hc) as (N1 & N2 & _). apply Z.eqb_neq in N1, N2. by rewrite N1, N2, Hc.
Qed.

Lemma split_once_absent t set s : within t set -> split_once_raw (escape s set) t = None.
Proof.
  intros Ht. unfold split_once_raw, escape. rewrite <- (app_nil_r (escape_from set true s)).
  by rewrite once_loop_escape.
Qed.

(** ** Where the scanner goes *)

(** A cursor inside a text: it only moves forward, over whole characters. *)
Definition onward (a b : cursor) : Prop :=
  exists taken, snd a = taken ++ snd b /\ fst b = fst a + blen taken.

#[export] Instance onward_preorder : PreOrder onward.
Proof.
  split; [intros a; exists []; cbn; split; [done|lia]|].
  intros a b c (t & Ht & Et) (u & Hu & Eu). exists (t ++ u). rewrite Ht, Hu, Eu, Et, blen_app.
  split; [by rewrite app_assoc|lia].
Qed.

Lemma onward_cons at_ c s : onward (at_, c :: s) (at_ + len_utf8 c, s).
Proof. exists [c]. cbn. split; [done|lia]. Qed.

Lemma onward_le a b : onward a b -> fst a <= fst b.
Proof. intros (t & _ & E). pose proof (blen_nonneg t). lia. Qed.

Lemma onward_length a b : onward a b -> (length (snd b) <= length (snd a))%nat.
Proof. intros (t & E & _). rewrite E, length_app. lia. Qed.

(** The last offset of the text is that of every cursor in it. *)
Lemma onward_end a b : onward a b -> fst b + blen (snd b) = fst a + blen (snd a).
Proof. intros (t & -> & ->). rewrite blen_app. lia. Qed.

Lemma skip_ws_onward a : onward a (skip_ws a).
Proof.
  destruct a as [at_ s]. unfold skip_ws. cbn [fst snd]. revert at_.
  induction s as [|c s IH]; intros at_; cbn [skip_from]; [reflexivity|].
  destruct (is_ws c); [|reflexivity]. etransitivity; [apply onward_cons|apply IH].
Qed.

Lemma scan_onward set n : forall s q tx keep at_, (length s <= n)%nat -> onward (at_, s) (sat (scan set q tx keep at_ s)).
Proof.
  induction n as [|n IH]; intros s q tx keep at_ Hn; [destruct s; [reflexivity|cbn in Hn; lia]|].
  destruct s as [|c s]; [reflexivity|]. cbn [length] in Hn. cbn [scan].
  assert (Hstep : forall q tx keep, onward (at_, c :: s) (sat (scan set q tx keep (at_ + len_utf8 c) s))).
  { intros. etransitivity; [apply onward_cons|apply IH; lia]. }
  destruct q; [by destruct (c =? quote)|]. destruct (stops set c); [reflexivity|].
  destruct (c =? quote); [done|]. destruct (c =? backslash); [|done].
  destruct s as [|x s]; [apply onward_cons|]. etransitivity; [apply onward_cons|].
  etransitivity; [apply onward_cons|]. apply IH. cbn [length] in Hn. lia.
Qed.

Lemma next_token_onward a set : onward a (snd (next_token a set)).
Proof.
  unfold next_token. pose proof (skip_ws_onward a) as H. destruct (skip_ws a) as [start s].
  cbn [snd]. etransitivity; [exact H|]. by apply (scan_onward set (length s)).
Qed.

(** A token with a text has taken a character. *)
Lemma scan_progress set q tx keep at_ s :
  stext (scan set q tx keep at_ s) = tx \/ (length (snd (sat (scan set q tx keep at_ s))) < length s)%nat.
Proof.
  destruct s as [|c s]; [by left|]. cbn [scan length].
  assert (Hstep : forall q tx keep at_ u, (length u <= length s)%nat -> (length (snd (sat (scan set q tx keep at_ u))) < S (length s))%nat).
  { intros q' tx' keep' at' u Hu. pose proof (onward_length _ _ (scan_onward set (length u) u q' tx' keep' at' ltac:(lia))) as H.
    cbn [snd] in H. lia. }
  destruct q; [right; destruct (c =? quote); by apply Hstep|]. destruct (stops set c); [by left|]. right.
  destruct (c =? quote); [by apply Hstep|]. destruct (c =? backslash); [|by apply Hstep].
  destruct s as [|x s]; [cbn; lia|]. apply Hstep. cbn [length]. lia.
Qed.

Lemma next_token_shorter a set : token_is_empty (fst (next_token a set)) = false ->
  (length (snd (snd (next_token a set))) < length (snd a))%nat.
Proof.
  unfold next_token, token_is_empty. pose proof (onward_length _ _ (skip_ws_onward a)) as Hs.
  destruct (skip_ws a) as [st s]. cbn [fst snd text] in *. intros Ht%bool_decide_eq_false.
  destruct (scan_progress set false [] 0 st s) as [E|E]; [|lia]. destruct Ht. by rewrite E, take_nil.
Qed.

(** ** Spans of a text *)

(** The span is the slice [mid], on character boundaries. *)
Definition covers (src : rstr) (s : span) (mid : rstr) : Prop :=
  exists pre post, src = pre ++ mid ++ post /\ start s = blen pre /\ stop s = blen pre + blen mid.

Definition in_text (src : rstr) (s : span) : Prop := exists mid, covers src s mid.

Definition inside (src : rstr) (a : cursor) : Prop := onward (0, src) a.

Lemma covers_between src a b mid : inside src a -> snd a = mid ++ snd b -> fst b = fst a + blen mid ->
  covers src (span_new (fst a) (fst b)) mid.
Proof.
  intros (pre & Ep & Ea) Em Eb. cbn [fst snd] in *. pose proof (blen_nonneg mid).
  exists pre, (snd b). unfold span_new. destruct (Z.ltb_spec (fst b) (fst a)); [lia|]. cbn [start stop].
  split; [by rewrite Ep, Em|lia].
Qed.

Lemma in_text_between src a b : inside src a -> onward a b -> in_text src (span_new (fst a) (fst b)).
Proof. intros Ha (mid & Em & Eb). exists mid. by apply covers_between. Qed.

Lemma covers_at src a : inside src a -> covers src (span_at (fst a)) [].
Proof.
  intros (pre & Ep & Ea). cbn [fst snd] in *. exists pre, (snd a). cbn [span_at start stop blen foldr]. split; [done|lia].
Qed.

Lemma inside_onward src a b : inside src a -> onward a b -> inside src b.
Proof. unfold inside. intros Ha Hb. etransitivity; [exact Ha|exact Hb]. Qed.

Lemma scan_quirks src set n : forall s q tx keep at_, (length s <= n)%nat -> inside src (at_, s) ->
  Forall (fun k => in_text src (snd k)) (squirks (scan set q tx keep at_ s)).
Proof.
  induction n as [|n IH]; intros s q tx keep at_ Hn Hi; [destruct s; [constructor|cbn in Hn; lia]|].
  destruct s as [|c s]; [constructor|]. cbn [length] in Hn. cbn [scan].
  pose proof (inside_onward _ _ _ Hi (onward_cons at_ c s)) as Hi'.
  assert (Hstep : forall q tx keep, Forall (fun k => in_text src (snd k)) (squirks (scan set q tx keep (at_ + len_utf8 c) s))).
  { intros. apply IH; [lia|done]. }
  destruct q; [by destruct (c =? quote)|]. destruct (stops set c); [constructor|].
  destruct (c =? quote); [done|]. destruct (c =? backslash); [|done].
  destruct s as [|x s].
  - constructor; [|constructor]. exact (in_text_between src (at_, [c]) _ Hi (onward_cons at_ c [])).
  - apply IH; [cbn [length] in Hn; lia|]. exact (inside_onward _ _ _ Hi' (onward_cons _ x s)).
Qed.

Lemma next_token_inside src a set : inside src a ->
  in_text src (tspan (fst (next_token a set))) /\
  Forall (fun k => in_text src (snd k)) (quirks (fst (next_token a set))) /\
  exists b, inside src b /\ start (tspan (fst (next_token a set))) = fst b.
Proof.
  intros Ha. unfold next_token. pose proof (inside_onward _ _ _ Ha (skip_ws_onward a)) as Hs.
  destruct (skip_ws a) as [st s]. cbn [fst tspan quirks].
  pose proof (scan_onward set (length s) s false [] 0 st ltac:(lia)) as Ho.
  pose proof (in_text_between _ _ _ Hs Ho) as Hspan. cbn [fst] in Hspan. split_and!; [done| |].
  - apply Forall_app. split; [by apply (scan_quirks src set (length s))|]. destruct (sopen _); [|constructor].
    by constructor.
  - exists (st, s). split; [done|]. unfold span_new. pose proof (onward_le _ _ Ho) as Hle. cbn [fst] in Hle.
    by destruct (Z.ltb_spec (fst (sat (scan set false [] 0 st s))) st); [lia|].
Qed.
