(* ===== verification/GraphAst.v ===== *)
(** * GraphAst: the syntax tree of filter graphs, its parser and its printer

    [src/crates/filter/vaco-filter-graph/src/ast.rs], and the error type of
    [error.rs] as far as the parser raises it. The parser is a flat loop over the
    scanner of [GraphLex]; each loop takes the characters left as its fuel, and
    [parse_returns] shows that it never runs out. The printer is the tree's
    [Display]. *)

From Stdlib Require Import ZArith Lia.
From stdpp Require Import prelude strings pretty.
From S2P Require Import Prelude GraphLex.

(** ** Errors *)

Inductive error_kind : Type :=
  | EmptyGraph
  | EmptyFilterName
  | EmptyLabel
  | UnterminatedLabel
  | TrailingGarbage (rest : rstr)
  | UnknownFilter (name : rstr) (suggestion : option rstr)
  | TooManyInputLabels (filter : rstr) (given has : nat)
  | TooManyOutputLabels (filter : rstr) (given has : nat)
  | DuplicateOutputLabel (label : rstr) (first : span)
  | DuplicateInstanceName (name : rstr)
  | PositionalAfterNamed (value : rstr)
  | UnconnectedInput (filter : rstr) (pad : nat)
  | UnconnectedOutput (filter : rstr) (pad : nat)
  | MediaMismatch (src dst : rstr)
  | Cycle (nodes : list rstr)
  | FilterFailed (filter detail : rstr)
  | PadCountMismatch (filter detail : rstr).

#[export] Instance error_kind_eq_dec : EqDecision error_kind.
Proof. solve_decision. Defined.

Record graph_error : Type := GraphError { ekind : error_kind; espan : span }.

(** ** The tree *)

Record label : Type := Label { lname : rstr; lspan : span }.

Record filter_spec : Type := FilterSpec {
  fname : rstr;
  finstance : option rstr;
  fargs : option rstr;
  finputs : list label;
  foutputs : list label;
  fspan : span;
  name_span : span;
  args_span : span }.

Record chain : Type := Chain { cfilters : list filter_spec; cspan : span }.

Record ast : Type := Ast {
  sws_flags : option rstr;
  chains : list chain;
  aquirks : list (quirk * span) }.

Record arg : Type := Arg { akey : option rstr; raw_value : rstr; aspan : span }.

Definition SWS_PREFIX : rstr := str "sws_flags=".

(** [Arg::value] and [Arg::list_values]. *)
Definition arg_value (a : arg) : rstr := unescape (raw_value a).
Definition list_values (a : arg) : list rstr := map (fun p => unescape (fst p)) (split_raw (raw_value a) LIST).

Definition instance_name (f : filter_spec) (index : nat) : rstr :=
  match finstance f with
  | None => str "Parsed_" ++ fname f ++ str "_" ++ str (pretty (N.of_nat index))
  | Some id => fname f ++ str "@" ++ id
  end.

Fixpoint arguments_loop (at_span : span) (seen_named : bool) (pieces : list (rstr * span))
    : result graph_error (list arg) :=
  match pieces with
  | [] => Ok []
  | (piece, span) :: pieces =>
    match split_once_raw piece EQ with
    | Some (k, v) =>
      rest ← arguments_loop at_span true pieces;
      Ok (Arg (Some (unescape k)) v span :: rest)
    | None =>
      if seen_named then Err (GraphError (PositionalAfterNamed (unescape piece)) at_span)
      else
        rest ← arguments_loop at_span false pieces;
        Ok (Arg None piece span :: rest)
    end
  end.

Definition arguments (f : filter_spec) : result graph_error (list arg) :=
  match fargs f with
  | None => Ok []
  | Some [] => Ok []
  | Some args => arguments_loop (args_span f) false (split_raw args ARG)
  end.

(** ** Parsing *)

(** [None] is out of fuel. *)
Abbreviation parsed A := (option (result graph_error (A * cursor * list (quirk * span)))).

Definition fail {A} (k : error_kind) (s : span) : parsed A := Some (Err (GraphError k s)).

(** The end of the text seen from a cursor, [src.len()]. *)
Definition src_len (at_ : cursor) : Z := fst at_ + blen (snd at_).

(** A cursor past its first character, [at.saturating_add(1)]. *)
Definition advance (at_ : cursor) : cursor := (fst at_ + 1, tail (snd at_)).

Fixpoint labels_loop (fuel : nat) (at_ : cursor) (qs : list (quirk * span)) (out : list label)
    : parsed (list label) :=
  match fuel with
  | O => None
  | S fuel =>
    let at_ := skip_ws at_ in
    if negb (bool_decide (peek at_ = Some 91)) then Some (Ok (out, at_, qs))
    else
      let open := fst at_ in
      let '(token, at_) := next_token (advance at_) LABEL in
      let qs := qs ++ quirks token in
      if negb (bool_decide (peek at_ = Some 93)) then fail UnterminatedLabel (span_new open (src_len at_))
      else
        let at_ := advance at_ in
        if token_is_empty token then fail EmptyLabel (span_new open (fst at_))
        else labels_loop fuel at_ qs (out ++ [Label (text token) (span_new open (fst at_))])
  end.

Definition parse_labels (at_ : cursor) (qs : list (quirk * span)) : parsed (list label) :=
  labels_loop (S (length (snd at_))) at_ qs [].

(** [str::split_once] at the first [@]. *)
Definition split_name (t : rstr) : rstr * option rstr :=
  match split_once 64 t with
  | Some (n, i) => (n, Some i)
  | None => (t, None)
  end.

(** Unicode's [White_Space], which [str::trim] removes. *)
Definition is_whitespace (c : Z) : bool :=
  ((9 <=? c) && (c <=? 13)) || (c =? 32) || (c =? 133) || (c =? 160) || (c =? 5760) ||
  ((8192 <=? c) && (c <=? 8202)) || (c =? 8232) || (c =? 8233) || (c =? 8239) || (c =? 8287) || (c =? 12288).

Fixpoint trim_start (s : rstr) : rstr :=
  match s with
  | c :: s' => if is_whitespace c then trim_start s' else s
  | [] => []
  end.

Definition trim (s : rstr) : rstr := rev (trim_start (rev (trim_start s))).

(** The text up to the first [,] or [;]. *)
Fixpoint until_separator (s : rstr) : rstr :=
  match s with
  | c :: s' => if (c =? 44) || (c =? 59) then [] else c :: until_separator s'
  | [] => []
  end.

(** The argument part of a filter. *)
Definition parse_args (at_ : cursor) (qs : list (quirk * span)) : option rstr * span * cursor * list (quirk * span) :=
  if bool_decide (peek at_ = Some 61) then
    let '(token, at_) := next_token (advance at_) GRAPH in
    (Some (text token), tspan token, at_, qs ++ quirks token)
  else (None, span_at (fst at_), at_, qs).

Definition parse_filter (at_ : cursor) (qs : list (quirk * span)) : parsed filter_spec :=
  let at_ := skip_ws at_ in
  let start := fst at_ in
  match parse_labels at_ qs with
  | None => None
  | Some (Err e) => Some (Err e)
  | Some (Ok (inputs, at_, qs)) =>
    let '(name_token, at_) := next_token at_ NAME in
    let qs := qs ++ quirks name_token in
    if token_is_empty name_token then fail EmptyFilterName (span_at (GraphLex.start (tspan name_token)))
    else
      let '(name, instance) := split_name (text name_token) in
      if bool_decide (name = []) then fail EmptyFilterName (span_at (GraphLex.start (tspan name_token)))
      else
        let '(args, args_span, at_, qs) := parse_args at_ qs in
        match parse_labels at_ qs with
        | None => None
        | Some (Err e) => Some (Err e)
        | Some (Ok (outputs, at_, qs)) =>
          let at_ := skip_ws at_ in
          match peek at_ with
          | None | Some 44 | Some 59 =>
            Some (Ok (FilterSpec name instance args inputs outputs (span_new start (fst at_))
                        (tspan name_token) args_span, at_, qs))
          | Some _ =>
            let garbage := until_separator (snd at_) in
            fail (TrailingGarbage (trim garbage)) (span_new (fst at_) (fst at_ + blen garbage))
          end
        end
  end.

Fixpoint filters_loop (fuel : nat) (at_ : cursor) (qs : list (quirk * span)) (out : list filter_spec)
    : parsed (list filter_spec) :=
  match fuel with
  | O => None
  | S fuel =>
    match parse_filter at_ qs with
    | None => None
    | Some (Err e) => Some (Err e)
    | Some (Ok (f, at_, qs)) =>
      let out := out ++ [f] in
      let at_ := skip_ws at_ in
      if negb (bool_decide (peek at_ = Some 44)) then Some (Ok (out, at_, qs))
      else
        let at_ := skip_ws (advance at_) in
        if bool_decide (snd at_ = []) then Some (Ok (out, at_, qs))
        else filters_loop fuel at_ qs out
    end
  end.

Definition parse_chain (at_ : cursor) (qs : list (quirk * span)) : parsed chain :=
  match filters_loop (S (length (snd at_))) at_ qs [] with
  | None => None
  | Some (Err e) => Some (Err e)
  | Some (Ok (fs, at_', qs)) => Some (Ok (Chain fs (span_new (fst at_) (fst at_')), at_', qs))
  end.

Fixpoint chains_loop (fuel : nat) (at_ : cursor) (qs : list (quirk * span)) (out : list chain)
    : parsed (list chain) :=
  match fuel with
  | O => None
  | S fuel =>
    match parse_chain at_ qs with
    | None => None
    | Some (Err e) => Some (Err e)
    | Some (Ok (c, at_, qs)) =>
      let out := out ++ [c] in
      let at_ := skip_ws at_ in
      if negb (bool_decide (peek at_ = Some 59)) then Some (Ok (out, at_, qs))
      else
        let at_ := skip_ws (advance at_) in
        if bool_decide (snd at_ = []) then Some (Ok (out, at_, qs))
        else chains_loop fuel at_ qs out
    end
  end.

(** [str::starts_with], with the text after the prefix. *)
Fixpoint strip (p s : rstr) : option rstr :=
  match p, s with
  | [], _ => Some s
  | x :: p, y :: s => if x =? y then strip p s else None
  | _, _ => None
  end.

(** The [sws_flags=] prefix, if the text starts with one. *)
Definition parse_prefix (at_ : cursor) : option rstr * cursor * list (quirk * span) :=
  match strip SWS_PREFIX (snd at_) with
  | None => (None, at_, [])
  | Some rest =>
    let '(token, at_) := next_token (fst at_ + blen SWS_PREFIX, rest) SEMI in
    (Some (text token), if bool_decide (peek at_ = Some 59) then advance at_ else at_, quirks token)
  end.

Definition parse (src : rstr) : option (result graph_error ast) :=
  let '(flags, at_, qs) := parse_prefix (skip_ws (0, src)) in
  let at_ := skip_ws at_ in
  if bool_decide (snd at_ = []) then Some (Err (GraphError EmptyGraph (span_at (fst at_))))
  else
    match chains_loop (S (length (snd at_))) at_ qs [] with
    | None => None
    | Some (Err e) => Some (Err e)
    | Some (Ok (cs, at_, qs)) =>
      let at_ := skip_ws at_ in
      if negb (bool_decide (snd at_ = []))
      then Some (Err (GraphError (TrailingGarbage (snd at_)) (span_new (fst at_) (src_len at_))))
      else if bool_decide (cs = []) then Some (Err (GraphError EmptyGraph (span_at 0)))
      else Some (Ok (Ast flags cs qs))
    end.

(** ** Printing *)

Definition print_labels (ls : list label) : rstr :=
  concat (map (fun l => str "[" ++ escape (lname l) LABEL ++ str "]") ls).

(** A first filter that would read as the prefix. *)
Definition collides_with_prefix (a : ast) (i j : nat) (f : filter_spec) : bool :=
  bool_decide (i = 0%nat) && bool_decide (j = 0%nat) && bool_decide (sws_flags a = None) &&
  bool_decide (finputs f = []) && bool_decide (finstance f = None) &&
  bool_decide (is_Some (fargs f)) && bool_decide (fname f = str "sws_flags").

Definition print_filter (collides : bool) (f : filter_spec) : rstr :=
  print_labels (finputs f) ++
  (if collides then str "\" else []) ++
  escape (fname f) NAME ++
  (match finstance f with Some id => str "@" ++ escape id NAME | None => [] end) ++
  (match fargs f with Some args => str "=" ++ escape args GRAPH | None => [] end) ++
  print_labels (foutputs f).

Definition print_chain (a : ast) (ic : nat * chain) : rstr :=
  join_with 44 (imap (fun j f => print_filter (collides_with_prefix a (fst ic) j f) f) (cfilters (snd ic))).

Definition print (a : ast) : rstr :=
  (match sws_flags a with Some flags => SWS_PREFIX ++ escape flags SEMI ++ str ";" | None => [] end) ++
  join_with 59 (imap (fun i c => print_chain a (i, c)) (chains a)).

(** [Ast::without_spans]. *)
Definition label_without_span (l : label) : label := Label (lname l) span_default.

Definition filter_without_spans (f : filter_spec) : filter_spec :=
  FilterSpec (fname f) (finstance f) (fargs f) (map label_without_span (finputs f))
    (map label_without_span (foutputs f)) span_default span_default span_default.

Definition without_spans (a : ast) : ast :=
  Ast (sws_flags a) (map (fun c => Chain (map filter_without_spans (cfilters c)) span_default) (chains a)) [].

Example parse_example :
  match parse (str " [0:v] scale@big = w=1\:2:h='a,b' [out] , null ; [out]sink;") with
  | Some (Ok a) => Some (print a, length (chains a), aquirks a)
  | _ => None
  end = Some (str "[0:v]scale@big=w=1:2:h=a\,b[out],null;[out]sink", 2%nat, []).
Proof. vm_compute. reflexivity. Qed.

(** ** What the parser can produce *)

Definition label_ok (l : label) : Prop := lname l <> [].

Definition spec_ok (f : filter_spec) : Prop :=
  fname f <> [] /\ (64 ∉ fname f) /\ Forall label_ok (finputs f) /\ Forall label_ok (foutputs f).

Definition chain_ok (c : chain) : Prop := cfilters c <> [] /\ Forall spec_ok (cfilters c).

Definition ast_ok (a : ast) : Prop := chains a <> [] /\ Forall chain_ok (chains a).

(** ** The parser on printed text *)

Lemma split_once_app sep a b : sep ∉ a -> split_once sep (a ++ sep :: b) = Some (a, b).
Proof.
  induction a as [|c a IH]; intros Ha; cbn [app split_once].
  - by rewrite Z.eqb_refl.
  - rewrite IH by set_solver. destruct (Z.eqb_spec c sep) as [->|]; [set_solver|done].
Qed.

Lemma split_once_missing sep a : sep ∉ a -> split_once sep a = None.
Proof.
  induction a as [|c a IH]; intros Ha; cbn [split_once]; [done|].
  rewrite IH by set_solver. destruct (Z.eqb_spec c sep) as [->|]; [set_solver|done].
Qed.

(** A text that no space starts. *)
Definition tight (s : rstr) : Prop := forall c, head s = Some c -> is_ws c = false.

Lemma skip_ws_tight at_ s : tight s -> skip_ws (at_, s) = (at_, s).
Proof. intros H. unfold skip_ws. by apply skip_from_stay. Qed.

Lemma after_filter rest : ends CHAIN rest -> rest = [] \/ exists c s, rest = c :: s /\ (c = 44 \/ c = 59).
Proof.
  destruct rest as [|c rest]; [by left|]. intros H. right. exists c, rest. split; [done|]. cbn in H.
  unfold stops in H.
  repeat match type of H with context [if ?x =? ?y then _ else _] => destruct (Z.eqb_spec x y); [try done; auto|] end.
  done.
Qed.

Lemma ends_within t set s : within t set -> ends t s -> ends set s.
Proof. intros Ht. destruct s as [|c s]; [done|]. apply Ht. Qed.

Lemma chain_in_graph : within CHAIN GRAPH.
Proof. intros c. unfold stops. by repeat case_match. Qed.
Lemma chain_in_name : within CHAIN NAME.
Proof. intros c. unfold stops. by repeat case_match. Qed.

Lemma print_labels_cons l ls : print_labels (l :: ls) = 91 :: escape (lname l) LABEL ++ 93 :: print_labels ls.
Proof. unfold print_labels. cbn. by rewrite <- app_assoc. Qed.

Lemma labels_print ls : forall fuel at_ rest qs out,
  Forall label_ok ls -> (length ls < fuel)%nat -> tight rest -> head rest <> Some 91 ->
  exists ls', labels_loop fuel (at_, print_labels ls ++ rest) qs out
    = Some (Ok (out ++ ls', (at_ + blen (print_labels ls), rest), qs)) /\
    map label_without_span ls' = map label_without_span ls.
Proof.
  induction ls as [|l ls IH]; intros fuel at_ rest qs out Hok Hf Ht Hb; (destruct fuel as [|fuel]; [cbn in Hf; lia|]).
  - exists []. cbn [print_labels map concat app labels_loop blen foldr]. rewrite skip_ws_tight by done.
    unfold peek. cbn [snd]. rewrite bool_decide_eq_false_2 by done. cbn [negb]. by rewrite app_nil_r, Z.add_0_r.
  - apply Forall_cons in Hok as [Hl Hok]. cbn [length] in Hf.
    rewrite print_labels_cons. cbn [labels_loop app]. rewrite skip_ws_tight by by intros ? [= <-].
    unfold peek at 1. cbn [snd head]. rewrite bool_decide_eq_true_2 by done. cbn [negb fst].
    unfold advance at 1. cbn [fst snd tail]. rewrite <- app_assoc. cbn [app].
    rewrite (next_token_escape LABEL LABEL); [|apply within_refl|reflexivity].
    cbn [quirks]. rewrite app_nil_r. unfold peek at 1. cbn [snd head]. rewrite bool_decide_eq_true_2 by done.
    cbn [negb]. unfold token_is_empty. cbn [text]. rewrite bool_decide_eq_false_2 by done.
    unfold advance. cbn [fst snd tail].
    destruct (IH fuel (at_ + 1 + blen (escape (lname l) LABEL) + 1) rest qs
      (out ++ [Label (lname l) (span_new at_ (at_ + 1 + blen (escape (lname l) LABEL) + 1))]))
      as (ls' & -> & Hs); [done|lia|done..|].
    eexists (_ :: ls'). rewrite <- app_assoc. split.
    + cbn [app]. do 5 f_equal. cbn [blen foldr]. fold (blen (escape (lname l) LABEL ++ 93 :: print_labels ls)).
      rewrite blen_app. cbn [blen foldr]. fold (blen (print_labels ls)). change (len_utf8 91) with 1.
      change (len_utf8 93) with 1. lia.
    + cbn [map]. by rewrite Hs.
Qed.

Lemma parse_labels_print ls at_ rest qs :
  Forall label_ok ls -> tight rest -> head rest <> Some 91 ->
  exists ls', parse_labels (at_, print_labels ls ++ rest) qs
    = Some (Ok (ls', (at_ + blen (print_labels ls), rest), qs)) /\
    map label_without_span ls' = map label_without_span ls.
Proof.
  intros Hok Ht Hb. unfold parse_labels.
  destruct (labels_print ls (S (length (print_labels ls ++ rest))) at_ rest qs []) as (ls' & E & Hs); [done| |done..|].
  - rewrite length_app. assert (H : (length ls <= length (print_labels ls))%nat); [|lia].
    clear. induction ls as [|l ls IH]; [done|]. rewrite print_labels_cons. cbn [length]. rewrite length_app. cbn [length]. lia.
  - by exists ls'.
Qed.

Lemma head_labels ls rest c : head (print_labels ls ++ rest) = Some c -> c = 91 \/ head rest = Some c.
Proof. destruct ls as [|l ls]; [by right|]. rewrite print_labels_cons. intros [= <-]. by left. Qed.

Lemma ends_labels set ls rest : stops set 91 = true -> ends set rest -> ends set (print_labels ls ++ rest).
Proof. intros H Hr. destruct ls as [|l ls]; [done|]. by rewrite print_labels_cons. Qed.

Lemma print_filter_nonempty b f : spec_ok f -> print_filter b f <> [].
Proof.
  intros (Hn & _) E. unfold print_filter in E. apply app_eq_nil in E as [_ E]. apply app_eq_nil in E as [_ E].
  apply app_eq_nil in E as [E _]. destruct (fname f) as [|c n]; [done|]. unfold escape in E.
  rewrite escape_from_cons in E. by destruct (bare _ _ _).
Qed.

(** The scanner over the name part: a backslash before a letter, the name, and
    the instance after an [@]. *)
Lemma scan_name t set s tx keep at_ r : within t set -> s <> [] ->
  scan t false tx keep at_ (escape s set ++ r)
  = scan t false (tx ++ s) (length (tx ++ s)) (at_ + blen (escape s set)) r.
Proof. intros Ht Hs. unfold escape. rewrite scan_escape_from by done. by rewrite bool_decide_eq_false_2. Qed.

Definition name_text (f : filter_spec) : rstr :=
  fname f ++ match finstance f with Some id => str "@" ++ id | None => [] end.

Definition name_part (collides : bool) (f : filter_spec) : rstr :=
  (if collides then str "\" else []) ++ escape (fname f) NAME ++
  match finstance f with Some id => str "@" ++ escape id NAME | None => [] end.

Lemma scan_name_part collides f at_ r : fname f <> [] ->
  (collides = true -> fname f = str "sws_flags") ->
  scan NAME false [] 0 at_ (name_part collides f ++ r)
  = scan NAME false (name_text f) (length (name_text f)) (at_ + blen (name_part collides f)) r.
Proof.
  intros Hn Hc. unfold name_part, name_text.
  assert (Hname : forall q, scan NAME false [] 0 at_ (((if collides then str "\" else []) ++ escape (fname f) NAME) ++ q)
    = scan NAME false (fname f) (length (fname f))
        (at_ + blen ((if collides then str "\" else []) ++ escape (fname f) NAME)) q).
  { intros q. destruct collides; cbn [app]; [|rewrite scan_name; [done|apply within_refl|done]].
    rewrite (Hc eq_refl).
    change ((str "\" ++ escape (str "sws_flags") NAME) ++ q)
      with (92 :: 115 :: escape_from NAME false (str "ws_flags") ++ q).
    cbn [scan]. change (stops NAME 92) with false. change (92 =? quote) with false.
    change (92 =? backslash) with true. cbn iota. rewrite scan_escape_from by apply within_refl.
    change (blen (str "\" ++ escape (str "sws_flags") NAME)) with 10.
    change (blen (escape_from NAME false (str "ws_flags"))) with 8.
    change (len_utf8 92) with 1. change (len_utf8 115) with 1. cbn [app]. f_equal. lia. }
  destruct (finstance f) as [id|].
  2: { rewrite !app_nil_r. apply Hname. }
  set (pre := (if collides then str "\" else []) ++ escape (fname f) NAME) in *.
  rewrite (app_assoc (if collides then str "\" else []) (escape (fname f) NAME)). fold pre.
  change (str "@" ++ escape id NAME) with (64 :: escape id NAME). change (str "@" ++ id) with (64 :: id).
  rewrite <- app_assoc, Hname, blen_app. cbn [app scan].
  change (stops NAME 64) with false. change (64 =? quote) with false. change (64 =? backslash) with false.
  change (is_ws 64) with false. cbn iota.
  change (blen (64 :: escape id NAME)) with (1 + blen (escape id NAME)). change (len_utf8 64) with 1.
  destruct id as [|c id].
  - cbn [escape escape_from app blen foldr]. f_equal. lia.
  - rewrite scan_name; [|apply within_refl|done]. rewrite <- !app_assoc. cbn [app]. f_equal. lia.
Qed.

Lemma name_part_tight collides f rest : fname f <> [] -> tight (name_part collides f ++ rest).
Proof.
  intros Hn c. unfold name_part. destruct collides; [by intros [= <-]|]. cbn [app].
  rewrite <- app_assoc. destruct (escape (fname f) NAME) as [|x s] eqn:E.
  - destruct (fname f) as [|y n]; [done|]. unfold escape in E. rewrite escape_from_cons in E. by destruct (bare _ _ _).
  - intros [= <-]. apply (escape_head NAME (fname f)). by rewrite E.
Qed.

Lemma filter_print collides f at_ rest qs :
  spec_ok f -> ends CHAIN rest -> (collides = true -> fname f = str "sws_flags") ->
  exists f', parse_filter (at_, print_filter collides f ++ rest) qs
    = Some (Ok (f', (at_ + blen (print_filter collides f), rest), qs)) /\
    filter_without_spans f' = filter_without_spans f.
Proof.
  intros (Hn & Hat & Hi & Ho) He Hc.
  assert (Hrest : tight rest) by (intros c; by eapply (ends_no_ws CHAIN)).
  assert (Hrest' : head rest <> Some 91 /\ head rest <> Some 61).
  { destruct (after_filter rest He) as [->|(c & s & -> & [->| ->])]; done. }
  destruct Hrest' as [Hb Heq].
  set (opt := match fargs f with Some args => str "=" ++ escape args GRAPH | None => [] end).
  assert (Etext : print_filter collides f = print_labels (finputs f) ++ name_part collides f ++ opt ++ print_labels (foutputs f)).
  { unfold print_filter, name_part, opt. by rewrite <- !app_assoc. }
  rewrite Etext, <- !app_assoc. unfold parse_filter.
  assert (Htight : tight (name_part collides f ++ opt ++ print_labels (foutputs f) ++ rest)) by by apply name_part_tight.
  rewrite skip_ws_tight.
  2: { intros c [->|Hh]%head_labels; [done|by apply Htight]. }
  destruct (parse_labels_print (finputs f) at_ _ qs Hi Htight) as (ins & -> & Hins).
  { intros Hh. pose proof (name_part_tight collides f) as _. revert Hh. unfold name_part.
    destruct collides; [done|]. cbn [app]. destruct (fname f) as [|c n] eqn:En; [done|].
    unfold escape. rewrite escape_from_cons. cbn [orb]. destruct (bare NAME true c) eqn:Eb; [|done].
    cbn [app head]. intros [= ->]. done. }
  cbn iota zeta. rewrite (next_token_spelled NAME _ (name_text f)); [|done|intros r; by apply scan_name_part|].
  2: { unfold opt. destruct (fargs f); [done|]. cbn [app]. apply ends_labels; [done|].
       exact (ends_within CHAIN NAME rest chain_in_name He). }
  cbn [quirks text tspan GraphLex.start]. unfold token_is_empty. cbn [text]. rewrite app_nil_r.
  assert (Hsplit : split_name (name_text f) = (fname f, finstance f)).
  { unfold split_name, name_text. destruct (finstance f) as [id|].
    - change (str "@" ++ id) with (64 :: id). by rewrite split_once_app.
    - by rewrite app_nil_r, split_once_missing. }
  rewrite Hsplit, bool_decide_eq_false_2; [|unfold name_text; by destruct (fname f)].
  rewrite bool_decide_eq_false_2 by done.
  set (at1 := at_ + blen (print_labels (finputs f)) + blen (name_part collides f)).
  assert (Hargs : exists sp, parse_args (at1, opt ++ print_labels (foutputs f) ++ rest) qs
    = (fargs f, sp, (at1 + blen opt, print_labels (foutputs f) ++ rest), qs)).
  { unfold opt, parse_args. destruct (fargs f) as [args|].
    - change (str "=" ++ escape args GRAPH) with (61 :: escape args GRAPH). unfold peek, advance. cbn [snd fst head tail app].
      rewrite bool_decide_eq_true_2 by done. rewrite (next_token_escape GRAPH GRAPH); [|apply within_refl|].
      2: { apply ends_labels; [done|]. exact (ends_within CHAIN GRAPH rest chain_in_graph He). }
      cbn [text tspan quirks]. rewrite app_nil_r. eexists. do 3 f_equal.
      change (blen (61 :: escape args GRAPH)) with (1 + blen (escape args GRAPH)). lia.
    - cbn [app]. rewrite bool_decide_eq_false_2; [|by intros [|]%head_labels]. eexists. cbn [blen foldr].
      by rewrite Z.add_0_r. }
  destruct Hargs as [sp ->].
  destruct (parse_labels_print (foutputs f) (at1 + blen opt) rest qs Ho Hrest Hb) as (outs & -> & Houts).
  cbn iota zeta. rewrite skip_ws_tight by done. unfold peek. cbn [snd fst].
  eexists (FilterSpec _ _ _ ins outs _ _ _). split.
  - assert (Eend : at1 + blen opt + blen (print_labels (foutputs f))
      = at_ + blen (print_labels (finputs f) ++ name_part collides f ++ opt ++ print_labels (foutputs f))).
    { unfold at1. rewrite !blen_app. lia. }
    rewrite <- Eend. destruct (after_filter rest He) as [->|(c & s & -> & [->| ->])]; cbn [head]; reflexivity.
  - unfold filter_without_spans. cbn. by rewrite Hins, Houts.
Qed.

(** Filters with whether each is written with the backslash. *)
Definition clear_of_prefix (bf : bool * filter_spec) : Prop :=
  spec_ok (snd bf) /\ (fst bf = true -> fname (snd bf) = str "sws_flags").

Definition print_filters (fs : list (bool * filter_spec)) : rstr :=
  join_with 44 (map (fun bf => print_filter (fst bf) (snd bf)) fs).

Lemma print_filter_tight b f rest : spec_ok f -> tight (print_filter b f ++ rest).
Proof.
  intros (Hn & _) c. unfold print_filter. rewrite <- app_assoc. intros [->|Hh]%head_labels; [done|].
  rewrite <- app_assoc in Hh. revert Hh. rewrite <- (app_assoc (escape _ _)), (app_assoc (if b then _ else _)). intros Hh.
  destruct b; [by injection Hh as <-|]. cbn [app] in Hh. destruct (escape (fname f) NAME) as [|x s] eqn:E.
  - destruct (fname f) as [|y n]; [done|]. unfold escape in E. rewrite escape_from_cons in E. by destruct (bare _ _ _).
  - injection Hh as <-. apply (escape_head NAME (fname f)). by rewrite E.
Qed.

Lemma print_filters_cons b f g fs :
  print_filters ((b, f) :: g :: fs) = print_filter b f ++ 44 :: print_filters (g :: fs).
Proof. done. Qed.

Lemma print_filters_tight fs rest : fs <> [] -> Forall clear_of_prefix fs -> tight (print_filters fs ++ rest).
Proof.
  intros Hne Hok. destruct fs as [|[b f] fs]; [done|]. apply Forall_cons in Hok as [[Hf _] _]. cbn [snd] in Hf.
  destruct fs as [|g fs]; [by apply print_filter_tight|].
  rewrite print_filters_cons, <- app_assoc. by apply print_filter_tight.
Qed.

Lemma print_filters_length fs : Forall clear_of_prefix fs -> (length fs <= length (print_filters fs))%nat.
Proof.
  induction fs as [|[b f] fs IH]; intros Hok; [cbn; lia|]. apply Forall_cons in Hok as [[Hf _] Hok]. cbn [snd] in Hf.
  specialize (IH Hok). pose proof (print_filter_nonempty b f Hf) as Hne.
  assert (1 <= length (print_filter b f))%nat by (destruct (print_filter b f); [done|cbn; lia]).
  destruct fs as [|g fs]; [cbn [length print_filters map join_with fst snd]; lia|].
  rewrite print_filters_cons, length_app. cbn [length] in *. lia.
Qed.

Lemma filters_print fs : forall fuel at_ rest qs out,
  fs <> [] -> Forall clear_of_prefix fs -> (length fs < S fuel)%nat -> (rest = [] \/ head rest = Some 59) ->
  exists fs', filters_loop fuel (at_, print_filters fs ++ rest) qs out
    = Some (Ok (out ++ fs', (at_ + blen (print_filters fs), rest), qs)) /\
    map filter_without_spans fs' = map (fun bf => filter_without_spans (snd bf)) fs.
Proof.
  induction fs as [|[b f] fs IH]; intros fuel at_ rest qs out Hne Hok Hf Hr; [done|].
  destruct fuel as [|fuel]; [cbn in Hf; lia|]. apply Forall_cons in Hok as [[Hs Hc] Hok]. cbn [fst snd] in Hs, Hc.
  assert (He : ends CHAIN rest) by (destruct Hr as [->|Hr]; [done|by destruct rest; [|injection Hr as ->]]).
  assert (Ht : tight rest) by (intros c; by eapply (ends_no_ws CHAIN)).
  cbn [filters_loop]. destruct fs as [|g fs].
  - destruct (filter_print b f at_ rest qs Hs He Hc) as (f' & E & Hw).
    change (print_filters [(b, f)]) with (print_filter b f). rewrite E. cbn iota zeta.
    rewrite skip_ws_tight by done. unfold peek. cbn [snd].
    rewrite bool_decide_eq_false_2; [|by destruct Hr as [->|Hr]; [|rewrite Hr]].
    exists [f']. cbn [map snd]. by rewrite Hw.
  - rewrite print_filters_cons, <- app_assoc. cbn [app].
    destruct (filter_print b f at_ (44 :: print_filters (g :: fs) ++ rest) qs Hs eq_refl Hc) as (f' & E & Hw).
    rewrite E. cbn iota zeta. rewrite skip_ws_tight by by intros ? [= <-]. unfold peek, advance. cbn [snd fst head tail].
    rewrite bool_decide_eq_true_2 by done. cbn [negb].
    rewrite skip_ws_tight by by apply print_filters_tight. cbn [snd].
    rewrite bool_decide_eq_false_2.
    2: { intros [E0 _]%app_eq_nil. pose proof (print_filters_length (g :: fs) Hok) as Hl. rewrite E0 in Hl. cbn in Hl. lia. }
    destruct (IH fuel (at_ + blen (print_filter b f) + 1) rest qs (out ++ [f'])) as (fs' & -> & Hws); [done|done|cbn in *; lia|done|].
    exists (f' :: fs'). rewrite <- app_assoc. cbn [app map snd]. rewrite Hw, Hws. split; [|done].
    rewrite blen_app. do 5 f_equal. change (blen (44 :: print_filters (g :: fs))) with (1 + blen (print_filters (g :: fs))). lia.
Qed.

Definition print_chains (css : list (list (bool * filter_spec))) : rstr := join_with 59 (map print_filters css).

Definition chain_clear (fs : list (bool * filter_spec)) : Prop := fs <> [] /\ Forall clear_of_prefix fs.

Lemma print_chains_cons c d css : print_chains (c :: d :: css) = print_filters c ++ 59 :: print_chains (d :: css).
Proof. done. Qed.

Lemma print_chains_tight css rest : css <> [] -> Forall chain_clear css -> tight (print_chains css ++ rest).
Proof.
  intros Hne Hok. destruct css as [|c css]; [done|]. apply Forall_cons in Hok as [[Hn Hc] _].
  destruct css as [|d css]; [by apply print_filters_tight|].
  rewrite print_chains_cons, <- app_assoc. by apply print_filters_tight.
Qed.

Lemma print_chains_start css : css <> [] -> Forall chain_clear css -> tight (print_chains css).
Proof. intros Hn Hc. rewrite <- (app_nil_r (print_chains css)). by apply print_chains_tight. Qed.

Lemma print_chains_length css : Forall chain_clear css -> (length css <= length (print_chains css))%nat.
Proof.
  induction css as [|c css IH]; intros Hok; [cbn; lia|]. apply Forall_cons in Hok as [[Hn Hc] Hok].
  specialize (IH Hok). pose proof (print_filters_length c Hc) as Hl.
  assert (1 <= length c)%nat by (destruct c; [done|cbn; lia]).
  destruct css as [|d css]; [cbn [length print_chains map join_with]; lia|].
  rewrite print_chains_cons, length_app. cbn [length] in *. lia.
Qed.

Definition chain_shape (c : chain) : chain := Chain (map filter_without_spans (cfilters c)) span_default.

Lemma chain_print fs at_ rest qs : chain_clear fs -> (rest = [] \/ head rest = Some 59) ->
  exists c, parse_chain (at_, print_filters fs ++ rest) qs = Some (Ok (c, (at_ + blen (print_filters fs), rest), qs)) /\
    chain_shape c = chain_shape (Chain (map snd fs) span_default).
Proof.
  intros [Hn Hc] Hr. unfold parse_chain.
  destruct (filters_print fs (S (length (print_filters fs ++ rest))) at_ rest qs []) as (fs' & E & Hw); [done|done| |done|].
  { rewrite length_app. pose proof (print_filters_length fs Hc). lia. }
  cbn [snd]. rewrite E. eexists. split; [reflexivity|]. unfold chain_shape. cbn [cfilters app].
  by rewrite Hw, map_map.
Qed.

Lemma chains_print css : forall fuel at_ qs out,
  css <> [] -> Forall chain_clear css -> (length css < S fuel)%nat ->
  exists cs, chains_loop fuel (at_, print_chains css) qs out = Some (Ok (out ++ cs, (at_ + blen (print_chains css), []), qs)) /\
    map chain_shape cs = map (fun fs => chain_shape (Chain (map snd fs) span_default)) css.
Proof.
  induction css as [|c css IH]; intros fuel at_ qs out Hne Hok Hf; [done|].
  destruct fuel as [|fuel]; [cbn in Hf; lia|]. apply Forall_cons in Hok as [Hc Hok]. cbn [chains_loop].
  destruct css as [|d css].
  - destruct (chain_print c at_ [] qs Hc (or_introl eq_refl)) as (c' & E & Hw).
    change (print_chains [c]) with (print_filters c). rewrite app_nil_r in E. rewrite E.
    cbn iota zeta. rewrite skip_ws_tight by done. unfold peek. cbn [snd head].
    rewrite bool_decide_eq_false_2 by done. exists [c']. cbn [map]. by rewrite Hw.
  - rewrite print_chains_cons.
    destruct (chain_print c at_ (59 :: print_chains (d :: css)) qs Hc (or_intror eq_refl)) as (c' & E & Hw).
    rewrite E. cbn iota zeta. rewrite skip_ws_tight by by intros ? [= <-]. unfold peek, advance. cbn [snd fst head tail].
    rewrite bool_decide_eq_true_2 by done. cbn [negb].
    rewrite skip_ws_tight.
    2: { by apply print_chains_start. }
    cbn [snd]. rewrite bool_decide_eq_false_2.
    2: { intros E0. pose proof (print_chains_length (d :: css) Hok) as Hl. rewrite E0 in Hl. cbn in Hl. lia. }
    destruct (IH fuel (at_ + blen (print_filters c) + 1) qs (out ++ [c'])) as (cs & -> & Hws); [done|done|cbn in *; lia|].
    exists (c' :: cs). rewrite <- app_assoc. cbn [app map]. rewrite Hw, Hws. split; [|done].
    rewrite blen_app. do 5 f_equal. change (blen (59 :: print_chains (d :: css))) with (1 + blen (print_chains (d :: css))). lia.
Qed.

(** ** The prefix *)

(** No text but the prefix itself, escaped as a name, starts like it. *)
Lemma strip_escaped p s : forall first X,
  Forall (fun c => c <> backslash) p ->
  strip (p ++ [61]) (escape_from NAME first s ++ X) <> None ->
  exists q, p = s ++ q /\ strip (q ++ [61]) X <> None.
Proof.
  revert p. induction s as [|c s IH]; intros p first X Hp Hs; [by exists p|].
  rewrite escape_from_cons, <- app_assoc in Hs. destruct (bare NAME _ c) eqn:Eb.
  - cbn [app] in Hs. destruct p as [|x p].
    + cbn [app strip] in Hs. destruct (Z.eqb_spec 61 c) as [<-|]; [vm_compute in Eb; discriminate Eb|done].
    + apply Forall_cons in Hp as [_ Hp]. cbn [app strip] in Hs. destruct (Z.eqb_spec x c) as [->|]; [|done].
      destruct (IH p false X Hp Hs) as (q & -> & Hq). by exists q.
  - cbn [app] in Hs. destruct p as [|x p]; [done|]. apply Forall_cons in Hp as [Hx _].
    cbn [app strip] in Hs. by destruct (Z.eqb_spec x backslash).
Qed.

Lemma strip_prefix_head q X : strip (q ++ [61]) X <> None -> exists c, head X = Some c /\ (c = 61 /\ q = [] \/ c ∈ q).
Proof.
  destruct X as [|c X]; [by destruct q|]. intros Hs. exists c. split; [done|]. destruct q as [|x q]; cbn [app strip] in Hs.
  - destruct (Z.eqb_spec 61 c) as [<-|]; [by left|done].
  - destruct (Z.eqb_spec x c) as [->|]; [right; by left|done].
Qed.

Lemma first_not_prefix b f rest : spec_ok f -> ends CHAIN rest ->
  (b = false -> finputs f = [] -> finstance f = None -> is_Some (fargs f) -> fname f <> str "sws_flags") ->
  strip SWS_PREFIX (print_filter b f ++ rest) = None.
Proof.
  intros (Hn & _) He Hb. destruct (strip SWS_PREFIX (print_filter b f ++ rest)) as [r|] eqn:E; [exfalso|done].
  unfold print_filter in E. destruct (finputs f) as [|l ls]; [|by rewrite print_labels_cons in E].
  destruct b; [done|]. cbn [print_labels map concat app] in E.
  rewrite <- app_assoc in E.
  change SWS_PREFIX with (str "sws_flags" ++ [61]) in E. unfold escape at 1 in E.
  edestruct (strip_escaped (str "sws_flags") (fname f) true) as (q & Hq & Hs); [|by rewrite E|].
  { vm_compute. repeat (constructor; [discriminate|]). constructor. }
  assert (Hletters : forall c, c ∈ q -> c ∈ str "sws_flags") by (intros c Hc; rewrite Hq; set_solver).
  apply strip_prefix_head in Hs as (c & Hc & Hcq).
  assert (Hbad : forall c, c ∈ q -> c <> 64 /\ c <> 91 /\ c <> 44 /\ c <> 59 /\ c <> 61).
  { intros x Hx%Hletters. repeat (apply elem_of_cons in Hx as [->|Hx]; [done|]). by apply not_elem_of_nil in Hx. }
  destruct (finstance f) as [id|].
  { injection Hc as <-. destruct Hcq as [[? _]|Hcq]; [done|]. by destruct (Hbad 64 Hcq). }
  destruct (fargs f) as [args|]; cbn [app] in Hc.
  - injection Hc as <-. destruct Hcq as [[_ ->]|Hcq]; [|by destruct (Hbad 61 Hcq) as (_ & _ & _ & _ & ?)].
    rewrite app_nil_r in Hq. by apply (Hb eq_refl eq_refl eq_refl).
  - apply head_labels in Hc as [->|Hc].
    + destruct Hcq as [[? _]|Hcq]; [done|]. by destruct (Hbad 91 Hcq) as (_ & ? & _).
    + destruct (after_filter rest He) as [->|(x & s & -> & Hx)]; [done|]. injection Hc as ->.
      destruct Hcq as [[-> _]|Hcq]; [by destruct Hx|]. destruct (Hbad c Hcq) as (_ & _ & ? & ? & _). by destruct Hx.
Qed.

(** ** Round trip *)

Definition tagged (a : ast) : list (list (bool * filter_spec)) :=
  imap (fun i c => imap (fun j f => (collides_with_prefix a i j f, f)) (cfilters c)) (chains a).

Lemma print_tagged a :
  print a = (match sws_flags a with Some flags => SWS_PREFIX ++ escape flags SEMI ++ str ";" | None => [] end)
            ++ print_chains (tagged a).
Proof.
  unfold print. f_equal. unfold print_chains, tagged. f_equal.
  change (map print_filters) with (fmap (M := list) print_filters). rewrite fmap_imap.
  apply imap_ext. intros i c _. unfold print_chain, print_filters, compose. cbn [fst snd]. f_equal.
  change (map (fun bf : bool * filter_spec => print_filter (fst bf) (snd bf)))
    with (fmap (M := list) (fun bf : bool * filter_spec => print_filter (fst bf) (snd bf))).
  rewrite fmap_imap. by apply imap_ext.
Qed.

Lemma map_imap {A B C} (f : B -> C) (g : nat -> A -> B) (h : A -> C) l :
  (forall i x, f (g i x) = h x) -> map f (imap g l) = map h l.
Proof.
  intros E. change (map f) with (fmap (M := list) f). rewrite fmap_imap.
  apply list_eq. intros i. rewrite list_lookup_imap. change (map h l) with (h <$> l). rewrite list_lookup_fmap.
  destruct (l !! i) as [x|]; [|done]. cbn. by rewrite <- (E i x).
Qed.

Lemma tagged_shape a : map (fun fs => chain_shape (Chain (map snd fs) span_default)) (tagged a) = map chain_shape (chains a).
Proof.
  apply map_imap. intros i c. unfold chain_shape. cbn [cfilters]. do 2 f_equal.
  rewrite (map_imap snd _ (fun f => f)) by done. apply map_id.
Qed.

Lemma tagged_clear a : ast_ok a -> tagged a <> [] /\ Forall chain_clear (tagged a).
Proof.
  intros [Hn Hc]. unfold tagged. split; [by destruct (chains a)|].
  apply Forall_lookup. intros i fs. rewrite list_lookup_imap. destruct (chains a !! i) as [c|] eqn:E; [|done].
  intros [= <-]. destruct (Forall_lookup_1 _ _ _ _ Hc E) as [Hne Hf]. split; [by destruct (cfilters c)|].
  apply Forall_lookup. intros j bf. rewrite list_lookup_imap. destruct (cfilters c !! j) as [f|] eqn:Ef; [|done].
  intros [= <-]. split; [by eapply Forall_lookup_1|]. cbn [fst snd]. unfold collides_with_prefix.
  intros H. by apply andb_true_iff in H as [_ H%bool_decide_eq_true].
Qed.

Lemma strip_app p s : strip p (p ++ s) = Some s.
Proof. induction p as [|c p IH]; [done|]. cbn [app strip]. by rewrite Z.eqb_refl. Qed.

Lemma prefix_print a : ast_ok a -> exists at_,
  parse_prefix (skip_ws (0, print a)) = (sws_flags a, (at_, print_chains (tagged a)), []).
Proof.
  intros Hok. destruct (tagged_clear a Hok) as [Hn Hc]. rewrite print_tagged. unfold parse_prefix.
  destruct (sws_flags a) as [flags|] eqn:Ef.
  - rewrite skip_ws_tight by by intros ? [= <-]. rewrite <- app_assoc. cbn [snd fst]. rewrite strip_app.
    rewrite <- app_assoc. rewrite (next_token_escape SEMI SEMI); [|apply within_refl|reflexivity].
    unfold peek, advance. cbn [snd fst app head tail str]. rewrite bool_decide_eq_true_2 by done.
    by eexists.
  - rewrite app_nil_l, skip_ws_tight by by apply print_chains_start. cbn [snd].
    assert (strip SWS_PREFIX (print_chains (tagged a)) = None) as ->; [|by eexists].
    unfold tagged in *. destruct Hok as [Hne Hok]. destruct (chains a) as [|c cs]; [done|].
    apply Forall_cons in Hok as [[Hf Hs] _]. cbn [imap] in *. destruct (cfilters c) as [|f fs]; [done|].
    apply Forall_cons in Hs as [Hs _]. cbn [imap].
    assert (Hfirst : forall b tl css, exists rest,
      print_chains (((b, f) :: tl) :: css) = print_filter b f ++ rest /\ ends CHAIN rest).
    { intros b tl css.
      assert (H1 : exists rest, print_filters ((b, f) :: tl) = print_filter b f ++ rest /\ ends CHAIN rest).
      { destruct tl as [|g tl]; [exists []; by rewrite app_nil_r|]. rewrite print_filters_cons. by eexists. }
      destruct H1 as (rest & E & He). destruct css as [|d css]; [by exists rest|].
      rewrite print_chains_cons, E, <- app_assoc. eexists. split; [reflexivity|]. by destruct rest. }
    edestruct Hfirst as (rest & -> & He). apply first_not_prefix; [done|done|].
    unfold collides_with_prefix. rewrite Ef. intros Hb Hi Hin Ha Hname.
    rewrite !bool_decide_eq_true_2 in Hb by done. done.
Qed.

(** ** Every outcome of the parser *)

Section outcomes.
Context (src : rstr).

(** An error is justified by the text its span covers. *)
Definition justified (e : graph_error) : Prop :=
  match ekind e with
  | EmptyGraph | EmptyFilterName => covers src (espan e) []
  | EmptyLabel => exists mid, covers src (espan e) (91 :: mid ++ [93])
  | UnterminatedLabel => exists mid, covers src (espan e) (91 :: mid) /\ stop (espan e) = blen src
  | TrailingGarbage t => exists mid, covers src (espan e) mid /\ t = trim mid /\ mid <> []
  | _ => False
  end.

Definition marks_ok (qs : list (quirk * span)) : Prop := Forall (fun k => in_text src (snd k)) qs.

Definition label_placed (l : label) : Prop := exists mid, covers src (lspan l) (91 :: mid ++ [93]).

Definition spec_placed (f : filter_spec) : Prop :=
  in_text src (fspan f) /\ in_text src (name_span f) /\ in_text src (args_span f) /\
  Forall label_placed (finputs f) /\ Forall label_placed (foutputs f).

Definition chain_placed (c : chain) : Prop := in_text src (cspan c) /\ Forall spec_placed (cfilters c).

(** From a cursor inside the text, an outcome: never out of fuel. *)
Definition outcome {A} (a : cursor) (r : parsed A) (ok : A -> cursor -> Prop) : Prop :=
  match r with
  | None => False
  | Some (Err e) => justified e
  | Some (Ok (x, b, qs)) => onward a b /\ marks_ok qs /\ ok x b
  end.

Lemma inside_end a : inside src a -> src_len a = blen src.
Proof. intros H. apply onward_end in H. cbn [fst snd] in H. unfold src_len. lia. Qed.

Lemma advance_onward a c : peek a = Some c -> len_utf8 c = 1 -> onward a (advance a).
Proof.
  destruct a as [at_ [|x s]]; [done|]. intros [= ->] Hl. unfold advance. cbn [fst snd tail]. rewrite <- Hl.
  apply onward_cons.
Qed.

Lemma advance_shorter a c : peek a = Some c -> S (length (snd (advance a))) = length (snd a).
Proof. by destruct a as [at_ [|x s]]. Qed.

(** The text between an opening bracket and a cursor behind its closing one. *)
Lemma bracketed a b : peek a = Some 91 -> onward (advance a) b -> peek b = Some 93 ->
  exists mid, snd a = (91 :: mid ++ [93]) ++ snd (advance b) /\ fst (advance b) = fst a + blen (91 :: mid ++ [93]).
Proof.
  destruct a as [x [|c s]]; [done|]. destruct b as [y [|d t]]; [done|]. intros [= ->] (mid & E & Ey) [= ->].
  unfold advance in *. cbn [fst snd tail] in *. exists mid. subst s y. split; [cbn; by rewrite <- app_assoc|].
  change (blen (91 :: mid ++ [93])) with (1 + blen (mid ++ [93])). rewrite blen_app.
  change (blen [93]) with 1. lia.
Qed.

Lemma labels_outcome fuel : forall a qs out,
  inside src a -> marks_ok qs -> Forall label_ok out -> Forall label_placed out -> (length (snd a) < fuel)%nat ->
  outcome a (labels_loop fuel a qs out) (fun ls _ => Forall label_ok ls /\ Forall label_placed ls).
Proof.
  induction fuel as [|fuel IH]; intros a qs out Ha Hq Ho Hp Hf; [lia|]. cbn [labels_loop].
  pose proof (skip_ws_onward a) as Hs. set (a1 := skip_ws a) in *.
  pose proof (inside_onward _ _ _ Ha Hs) as Ha1.
  destruct (bool_decide_reflect (peek a1 = Some 91)) as [Hb|Hb]; cbn [negb]; [|by split_and!].
  pose proof (advance_onward a1 91 Hb eq_refl) as Hadv. pose proof (inside_onward _ _ _ Ha1 Hadv) as Ha2.
  pose proof (next_token_inside src (advance a1) LABEL Ha2) as (_ & Hquirks & _).
  pose proof (next_token_onward (advance a1) LABEL) as Ht.
  destruct (next_token (advance a1) LABEL) as [token a3]. cbn [fst snd] in Hquirks, Ht.
  assert (Ha3 : onward a1 a3) by (etransitivity; [exact Hadv|exact Ht]).
  destruct (bool_decide_reflect (peek a3 = Some 93)) as [Hc|Hc]; cbn [negb].
  2: { cbn [outcome fail justified ekind espan]. destruct a1 as [x [|c s]]; [done|]. injection Hb as ->.
       assert (Hend : onward (x, 91 :: s) (x + blen (91 :: s), [])) by (exists (91 :: s); by rewrite app_nil_r).
       pose proof (inside_end _ Ha1) as Hl. rewrite (inside_end a3 (inside_onward _ _ _ Ha1 Ha3)), <- Hl.
       exists s. cbn [fst]. split.
       - apply (covers_between src (x, 91 :: s) (x + blen (91 :: s), [])); [done|by rewrite app_nil_r|done].
       - unfold src_len in *. cbn [fst snd] in *. unfold span_new.
         pose proof (blen_nonneg (91 :: s)). destruct (Z.ltb_spec (x + blen (91 :: s)) x); [lia|]. cbn [stop]. lia. }
  destruct (bracketed a1 a3 Hb Ht Hc) as (mid & Em & Efst).
  pose proof (covers_between src a1 (advance a3) _ Ha1 Em Efst) as Hcov.
  unfold token_is_empty. case_bool_decide as He; [cbn [outcome fail justified ekind espan]; by exists mid|].
  pose proof (advance_onward a3 93 Hc eq_refl) as Hadv3. pose proof (advance_shorter a1 91 Hb) as Hlen.
  apply onward_length in Hs as Hs', Ht as Ht', Hadv3 as Hadv3'.
  assert (Hfin : onward a (advance a3)) by (etransitivity; [exact Hs|etransitivity; [exact Ha3|exact Hadv3]]).
  specialize (IH (advance a3) (qs ++ quirks token) (out ++ [Label (text token) (span_new (fst a1) (fst (advance a3)))])).
  assert (Hout : outcome (advance a3) (labels_loop fuel (advance a3) (qs ++ quirks token)
    (out ++ [Label (text token) (span_new (fst a1) (fst (advance a3)))]))
    (fun ls _ => Forall label_ok ls /\ Forall label_placed ls)).
  { apply IH; [by apply (inside_onward _ _ _ Ha)|by apply Forall_app|..|lia].
    - apply Forall_app. split; [done|]. by repeat constructor.
    - apply Forall_app. split; [done|]. constructor; [by exists mid|constructor]. }
  destruct (labels_loop _ _ _ _) as [[[[ls b] qs']|e]|]; cbn [outcome] in *; [|done..].
  destruct Hout as (H1 & H2 & H3). split; [by etransitivity|done].
Qed.

Lemma parse_labels_outcome a qs : inside src a -> marks_ok qs ->
  outcome a (parse_labels a qs) (fun ls _ => Forall label_ok ls /\ Forall label_placed ls).
Proof. intros Ha Hq. apply labels_outcome; [done|done|constructor|constructor|lia]. Qed.

Lemma until_separator_split s : exists rest, s = until_separator s ++ rest.
Proof.
  induction s as [|c s [rest IH]]; [by exists []|]. cbn [until_separator].
  destruct (_ || _); [by exists (c :: s)|]. exists rest. cbn [app]. by rewrite <- IH.
Qed.

Lemma split_name_ok t : t <> [] -> fst (split_name t) = [] \/ (fst (split_name t) <> [] /\ (64 ∉ fst (split_name t))).
Proof.
  intros Ht. unfold split_name. assert (H : forall u, match split_once 64 u with Some (n, _) => 64 ∉ n | None => 64 ∉ u end).
  { induction u as [|c u IH]; [cbn; set_solver|]. cbn [split_once].
    destruct (Z.eqb_spec c 64) as [->|Hc]; [set_solver|]. destruct (split_once 64 u) as [[n i]|]; set_solver. }
  specialize (H t). destruct (split_once 64 t) as [[n i]|]; cbn [fst]; [|by right].
  destruct n; [by left|by right].
Qed.

Lemma parse_args_inside a qs : inside src a -> marks_ok qs ->
  let '(args, sp, b, qs') := parse_args a qs in onward a b /\ marks_ok qs' /\ in_text src sp.
Proof.
  intros Ha Hq. unfold parse_args. case_bool_decide as Hb.
  - pose proof (advance_onward a 61 Hb eq_refl) as Hadv. pose proof (inside_onward _ _ _ Ha Hadv) as Ha2.
    pose proof (next_token_inside src (advance a) GRAPH Ha2) as (Hspan & Hquirks & _).
    pose proof (next_token_onward (advance a) GRAPH) as Ht.
    destruct (next_token (advance a) GRAPH) as [token b]. cbn [fst snd] in *.
    split_and!; [by etransitivity|by apply Forall_app|done].
  - split_and!; [reflexivity|done|]. exists []. by apply covers_at.
Qed.

Lemma parse_filter_outcome a qs : inside src a -> marks_ok qs ->
  outcome a (parse_filter a qs) (fun f b => spec_ok f /\ spec_placed f /\ (snd b = [] \/ peek b = Some 44 \/ peek b = Some 59) /\
    (length (snd b) < length (snd a))%nat).
Proof.
  intros Ha Hq. unfold parse_filter. pose proof (skip_ws_onward a) as Hs0. set (a0 := skip_ws a) in *.
  pose proof (inside_onward _ _ _ Ha Hs0) as Ha0.
  pose proof (parse_labels_outcome a0 qs Ha0 Hq) as H1.
  destruct (parse_labels a0 qs) as [[[[ins a1] q1]|e]|]; cbn [outcome] in H1; [|done..].
  destruct H1 as (Hs1 & Hq1 & Hi & Hip). pose proof (inside_onward _ _ _ Ha0 Hs1) as Ha1.
  pose proof (next_token_inside src a1 NAME Ha1) as (Hname & Hquirks & at_ & Hat & Hstart).
  pose proof (next_token_onward a1 NAME) as Hs2. pose proof (next_token_shorter a1 NAME) as Hless.
  destruct (next_token a1 NAME) as [name a2]. cbn [fst snd] in *.
  assert (Hempty : justified (GraphError EmptyFilterName (span_at (GraphLex.start (tspan name))))).
  { cbn [justified ekind espan]. rewrite Hstart. by apply covers_at. }
  destruct (token_is_empty name) eqn:Ee; [exact Hempty|]. specialize (Hless eq_refl).
  unfold token_is_empty in Ee. apply bool_decide_eq_false in Ee. pose proof (split_name_ok (text name) Ee) as Hsplit.
  destruct (split_name (text name)) as [n inst]. cbn [fst] in Hsplit.
  case_bool_decide as Hn; [exact Hempty|]. destruct Hsplit as [Hsplit|[_ Hsplit]]; [done|].
  pose proof (inside_onward _ _ _ Ha1 Hs2) as Ha2.
  pose proof (parse_args_inside a2 (q1 ++ quirks name) Ha2 ltac:(by apply Forall_app)) as H3.
  destruct (parse_args a2 (q1 ++ quirks name)) as [[[args sp] a3] q3]. destruct H3 as (Hs3 & Hq3 & Hsp).
  pose proof (inside_onward _ _ _ Ha2 Hs3) as Ha3.
  pose proof (parse_labels_outcome a3 q3 Ha3 Hq3) as H4.
  destruct (parse_labels a3 q3) as [[[[outs a4] q4]|e]|]; cbn [outcome] in H4; [|done..].
  destruct H4 as (Hs4 & Hq4 & Ho & Hop). pose proof (inside_onward _ _ _ Ha3 Hs4) as Ha4.
  pose proof (skip_ws_onward a4) as Hs5. set (a5 := skip_ws a4) in *.
  pose proof (inside_onward _ _ _ Ha4 Hs5) as Ha5.
  assert (Hall : onward a0 a5) by (etransitivity; [exact Hs1|]; etransitivity; [exact Hs2|]; etransitivity; [exact Hs3|]; by etransitivity).
  assert (Hdone : (snd a5 = [] \/ peek a5 = Some 44 \/ peek a5 = Some 59) ->
    outcome a (Some (Ok (FilterSpec n inst args ins outs (span_new (fst a0) (fst a5)) (tspan name) sp, a5, q4)))
      (fun f b => spec_ok f /\ spec_placed f /\ (snd b = [] \/ peek b = Some 44 \/ peek b = Some 59) /\
        (length (snd b) < length (snd a))%nat)).
  { intros Hend. cbn [outcome]. split; [by etransitivity|]. split; [done|]. split; [by split_and!|].
    split; [split_and!; [by apply in_text_between|done|done|done|done]|]. split; [done|].
    apply onward_length in Hs0, Hs1, Hs3, Hs4, Hs5. lia. }
  assert (Hgarbage : forall c, peek a5 = Some c -> c <> 44 -> c <> 59 ->
    justified (GraphError (TrailingGarbage (trim (until_separator (snd a5))))
      (span_new (fst a5) (fst a5 + blen (until_separator (snd a5)))))).
  { intros c Hc N1 N2. cbn [justified ekind espan]. exists (until_separator (snd a5)). split; [|split; [done|]].
    - destruct (until_separator_split (snd a5)) as [rest Er].
      apply (covers_between src a5 (fst a5 + blen (until_separator (snd a5)), rest)); [done|done|done].
    - destruct a5 as [x [|y s]]; [done|]. injection Hc as ->. cbn [snd until_separator].
      by rewrite (proj2 (Z.eqb_neq c 44) N1), (proj2 (Z.eqb_neq c 59) N2). }
  destruct (peek a5) as [c|] eqn:Ep.
  - destruct (decide (c = 44)) as [->|N1]; [apply Hdone; auto|]. destruct (decide (c = 59)) as [->|N2]; [apply Hdone; auto|].
    specialize (Hgarbage c eq_refl N1 N2). clear -Hgarbage N1 N2.
    repeat (match goal with |- outcome _ (match ?p with _ => _ end) _ => destruct p end; try done).
  - apply Hdone. left. by destruct a5 as [x [|y s]].
Qed.

Lemma filters_outcome fuel : forall a qs out,
  inside src a -> marks_ok qs -> Forall spec_ok out -> Forall spec_placed out -> (length (snd a) < fuel)%nat ->
  outcome a (filters_loop fuel a qs out) (fun fs b => fs <> [] /\ Forall spec_ok fs /\ Forall spec_placed fs /\
    (snd b = [] \/ peek b = Some 59) /\ (length (snd b) < length (snd a))%nat).
Proof.
  induction fuel as [|fuel IH]; intros a qs out Ha Hq Ho Hp Hf; [lia|]. cbn [filters_loop].
  pose proof (parse_filter_outcome a qs Ha Hq) as H1.
  destruct (parse_filter a qs) as [[[[f a1] q1]|e]|]; cbn [outcome] in H1; [|done..].
  destruct H1 as (Hs1 & Hq1 & Hok & Hpl & Hend & Hless).
  pose proof (skip_ws_onward a1) as Hs2. set (a2 := skip_ws a1) in *.
  assert (Ea2 : a2 = a1).
  { unfold a2. destruct a1 as [x s]. apply skip_ws_tight. intros c Hc. cbn [snd peek] in Hend. unfold peek in Hend. cbn [snd] in Hend.
    destruct Hend as [->|[Hx|Hx]]; [done|rewrite Hc in Hx; by injection Hx as ->..]. }
  clearbody a2. subst a2. pose proof (inside_onward _ _ _ Ha Hs1) as Ha1.
  assert (Ho' : Forall spec_ok (out ++ [f])) by (apply Forall_app; by split; [|constructor]).
  assert (Hp' : Forall spec_placed (out ++ [f])) by (apply Forall_app; by split; [|constructor]).
  case_bool_decide as Hc; cbn [negb].
  2: { split; [done|]. split; [done|]. split; [by destruct out|]. split_and!; [done..|by destruct Hend as [?|[?|?]]; auto|done]. }
  pose proof (advance_onward a1 44 Hc eq_refl) as Hadv. pose proof (skip_ws_onward (advance a1)) as Hs3.
  set (a3 := skip_ws (advance a1)) in *.
  assert (Hs13 : onward a1 a3) by (by etransitivity). pose proof (inside_onward _ _ _ Ha1 Hs13) as Ha3.
  apply onward_length in Hs13 as Hl13. assert (Hs : onward a a3) by (by etransitivity).
  case_bool_decide as He.
  - split; [done|]. split; [done|]. split; [by destruct out|]. split_and!; [done..|by left|lia].
  - specialize (IH a3 q1 (out ++ [f]) Ha3 Hq1 Ho' Hp' ltac:(lia)).
    destruct (filters_loop fuel a3 q1 (out ++ [f])) as [[[[fs b] q]|e]|]; cbn [outcome] in *; [|done..].
    destruct IH as (I1 & I2 & I3 & I4 & I5 & I6 & I7). split; [by etransitivity|]. split_and!; [done..|lia].
Qed.

Lemma chains_outcome fuel : forall a qs out,
  inside src a -> marks_ok qs -> Forall chain_ok out -> Forall chain_placed out -> (length (snd a) < fuel)%nat ->
  outcome a (chains_loop fuel a qs out) (fun cs b => cs <> [] /\ Forall chain_ok cs /\ Forall chain_placed cs /\ snd b = []).
Proof.
  induction fuel as [|fuel IH]; intros a qs out Ha Hq Ho Hp Hf; [lia|]. cbn [chains_loop]. unfold parse_chain.
  pose proof (filters_outcome (S (length (snd a))) a qs [] Ha Hq ltac:(constructor) ltac:(constructor) ltac:(lia)) as H1.
  destruct (filters_loop _ a qs []) as [[[[fs a1] q1]|e]|]; cbn [outcome] in H1; [|done..].
  destruct H1 as (Hs1 & Hq1 & Hne & Hok & Hpl & Hend & Hless).
  pose proof (inside_onward _ _ _ Ha Hs1) as Ha1.
  set (c := Chain fs (span_new (fst a) (fst a1))).
  assert (Ho' : Forall chain_ok (out ++ [c])) by (apply Forall_app; split; [done|by repeat constructor]).
  assert (Hp' : Forall chain_placed (out ++ [c])).
  { apply Forall_app; split; [done|]. constructor; [|constructor]. split; [by apply in_text_between|done]. }
  assert (Ea2 : skip_ws a1 = a1).
  { destruct a1 as [x s]. apply skip_ws_tight. intros d Hd. unfold peek in Hend. cbn [snd] in Hend.
    destruct Hend as [->|Hx]; [done|]. rewrite Hd in Hx. by injection Hx as ->. }
  rewrite Ea2. case_bool_decide as Hc; cbn [negb].
  2: { split; [done|]. split; [done|]. split_and!; [by destruct out|done..|by destruct Hend]. }
  pose proof (advance_onward a1 59 Hc eq_refl) as Hadv. pose proof (skip_ws_onward (advance a1)) as Hs3.
  set (a3 := skip_ws (advance a1)) in *.
  assert (Hs13 : onward a1 a3) by (by etransitivity). pose proof (inside_onward _ _ _ Ha1 Hs13) as Ha3.
  apply onward_length in Hs13 as Hl13. assert (Hs : onward a a3) by (by etransitivity).
  case_bool_decide as He.
  - split; [done|]. split; [done|]. by split_and!; [destruct out|..].
  - specialize (IH a3 q1 (out ++ [c]) Ha3 Hq1 Ho' Hp' ltac:(lia)).
    destruct (chains_loop fuel a3 q1 (out ++ [c])) as [[[[cs b] q]|e]|]; cbn [outcome] in *; [|done..].
    destruct IH as (I1 & I2 & I3). by split; [etransitivity|].
Qed.

Lemma strip_split p : forall s r, strip p s = Some r -> s = p ++ r.
Proof.
  induction p as [|c p IH]; intros s r; [by intros [= ->]|]. destruct s as [|d s]; [done|]. cbn [strip].
  destruct (Z.eqb_spec c d) as [->|]; [|done]. intros ->%IH. done.
Qed.

Lemma parse_prefix_outcome a : inside src a ->
  let '(_, b, qs) := parse_prefix a in inside src b /\ marks_ok qs.
Proof.
  intros Ha. unfold parse_prefix. destruct (strip SWS_PREFIX (snd a)) as [rest|] eqn:E; [|by split; [|constructor]].
  apply strip_split in E. assert (Hs : onward a (fst a + blen SWS_PREFIX, rest)) by by exists SWS_PREFIX.
  pose proof (inside_onward _ _ _ Ha Hs) as Ha1.
  pose proof (next_token_inside src (fst a + blen SWS_PREFIX, rest) SEMI Ha1) as (_ & Hq & _).
  pose proof (next_token_onward (fst a + blen SWS_PREFIX, rest) SEMI) as Ht.
  destruct (next_token _ SEMI) as [token b]. cbn [fst snd] in *. split; [|done].
  pose proof (inside_onward _ _ _ Ha1 Ht) as Hb. case_bool_decide as Hp; [|done].
  by apply (inside_onward _ _ _ Hb), (advance_onward b 59).
Qed.

Lemma parse_outcome :
  match parse src with
  | None => False
  | Some (Err e) => justified e
  | Some (Ok a) => ast_ok a /\ Forall chain_placed (chains a) /\ marks_ok (aquirks a)
  end.
Proof.
  unfold parse. assert (H0 : inside src (0, src)) by (unfold inside; reflexivity).
  pose proof (inside_onward _ _ _ H0 (skip_ws_onward (0, src))) as H1.
  pose proof (parse_prefix_outcome _ H1) as Hp. destruct (parse_prefix _) as [[flags a1] qs]. destruct Hp as [Ha1 Hq].
  pose proof (inside_onward _ _ _ Ha1 (skip_ws_onward a1)) as Ha. set (a := skip_ws a1) in *.
  case_bool_decide as He; [by apply covers_at|].
  pose proof (chains_outcome (S (length (snd a))) a qs [] Ha Hq ltac:(constructor) ltac:(constructor) ltac:(lia)) as Hc.
  destruct (chains_loop _ a qs []) as [[[[cs b] q]|e]|]; cbn [outcome] in Hc; [|done..].
  destruct Hc as (Hs & Hqs & Hne & Hok & Hpl & Hend). destruct b as [y s]. cbn [snd] in Hend. subst s.
  change (skip_ws (y, [])) with (y, [] : rstr). cbn [snd]. rewrite bool_decide_eq_true_2 by done. cbn [negb].
  rewrite bool_decide_eq_false_2 by done. done.
Qed.

End outcomes.

(** C36. The parser answers every text. It returns for every text, a tree or an
    error: in a tree no filter is nameless and no label empty, and every span,
    of the tree, of the oddities recorded or of the error, is a slice of the
    text on character boundaries: a label's runs from its bracket to its
    bracket, and an error's is what the error speaks of. *)
Theorem parse_returns src :
  exists r, parse src = Some r /\
    match r with
    | Ok a => ast_ok a /\ Forall (chain_placed src) (chains a) /\ marks_ok src (aquirks a)
    | Err e => justified src e
    end.
Proof. pose proof (parse_outcome src) as H. destruct (parse src) as [r|]; [by exists r|done]. Qed.

(** C37. Printing a filter graph and parsing it gives the graph back. Every tree
    that the parser returns, and every tree whose names and labels are as the
    parser makes them, is printed to a text that parses, with nothing unusual
    recorded, to the same tree up to positions. *)
Theorem graph_roundtrip a :
  (exists src, parse src = Some (Ok a)) \/ ast_ok a ->
  exists a', parse (print a) = Some (Ok a') /\ without_spans a' = without_spans a /\ aquirks a' = [].
Proof.
  intros Ha. assert (Hok : ast_ok a).
  { destruct Ha as [[src E]|Ha]; [|done]. pose proof (parse_outcome src) as Hp. rewrite E in Hp. exact (proj1 Hp). }
  destruct (tagged_clear a Hok) as [Hn Hc]. destruct (prefix_print a Hok) as [at_ Ep].
  unfold parse. rewrite Ep. cbn iota zeta. rewrite skip_ws_tight.
  2: { by apply print_chains_start. }
  cbn [snd]. pose proof (print_chains_length (tagged a) Hc) as Hl.
  rewrite bool_decide_eq_false_2.
  2: { intros E. rewrite E in Hl. destruct (tagged a); [done|cbn in Hl; lia]. }
  destruct (chains_print (tagged a) (S (length (print_chains (tagged a)))) at_ [] []) as (cs & -> & Hs); [done|done|lia|].
  cbn iota zeta. rewrite skip_ws_tight by done. cbn [snd app].
  rewrite bool_decide_eq_true_2 by done. cbn [negb].
  rewrite tagged_shape in Hs. rewrite bool_decide_eq_false_2.
  2: { intros ->. destruct Hok as [Hne _]. by destruct (chains a). }
  eexists. split; [reflexivity|]. split; [|done]. unfold without_spans. cbn [sws_flags chains].
  unfold chain_shape in Hs. by rewrite Hs.
Qed.

Lemma graph_roundtrip_witness :
  exists a, parse (str "[0:v]scale@big=w=1:h='a,b'[out],null;[out]sink") = Some (Ok a) /\
    exists a', parse (print a) = Some (Ok a') /\ without_spans a' = without_spans a /\ aquirks a' = [].
Proof.
  destruct (parse (str "[0:v]scale@big=w=1:h='a,b'[out],null;[out]sink")) as [[a|e]|] eqn:E;
    [|vm_compute in E; discriminate E..].
  exists a. split; [reflexivity|]. apply graph_roundtrip. left. eexists. exact E.
Defined.
