(* ===== verification/GraphSuggest.v ===== *)
(** * GraphSuggest: the filter name an unknown one was meant for

    [suggest] and [edit_distance] of
    [src/crates/filter/vaco-filter-graph/src/error.rs]. The distance is computed
    row by row in two vectors; [suggest_is_closest] says in terms of edits what
    the name it returns is. *)

From Stdlib Require Import ZArith Lia.
From stdpp Require Import prelude strings.
From S2P Require Import Prelude FilterFormat GraphLex.

Definition USIZE_MAX : Z := 2 ^ 64 - 1.

(** One cell of the current row: [j] is its column less one. *)
Definition ed_cell (ca : Z) (prev cur : list Z) (jc : nat * Z) : list Z :=
  let '(j, cb) := jc in
  let cost := if ca =? cb then 0 else 1 in
  let del := default USIZE_MAX (prev !! S j) in
  let ins := default USIZE_MAX (cur !! j) in
  let sub := default USIZE_MAX (prev !! j) in
  let best := Z.min (Z.min (sat_u 64 (del + 1)) (sat_u 64 (ins + 1))) (sat_u 64 (sub + cost)) in
  <[S j := best]> cur.

Definition ed_row (b : rstr) (i : nat) (ca : Z) (prev cur : list Z) : list Z :=
  fold_left (ed_cell ca prev) (enumerate b) (<[0%nat := Z.of_nat i + 1]> cur).

(** [mem::swap] after each row. *)
Definition ed_step (b : rstr) (rows : list Z * list Z) (ic : nat * Z) : list Z * list Z :=
  let '(prev, cur) := rows in
  let '(i, ca) := ic in
  (ed_row b i ca prev cur, prev).

Definition edit_distance (a b : rstr) : Z :=
  let prev := map Z.of_nat (seq 0 (S (length b))) in
  let cur := replicate (S (length b)) 0 in
  default 0 (last (fst (fold_left (ed_step b) (enumerate a) (prev, cur)))).

(** [clamp(1, 3)] of half the characters. *)
Definition suggest_budget (name : rstr) : Z := Z.min 3 (Z.max 1 (Z.of_nat (length name) / 2)).

Definition closer (name : rstr) (best : option (Z * rstr)) (candidate : rstr) : option (Z * rstr) :=
  let d := edit_distance name candidate in
  if (d <=? suggest_budget name) && match best with None => true | Some (bd, _) => d <? bd end
  then Some (d, candidate) else best.

Definition suggest (name : rstr) (known : list rstr) : option rstr :=
  snd <$> fold_left (closer name) known None.

Example suggest_scale : suggest (str "scael") [str "crop"; str "scale"; str "overlay"] = Some (str "scale").
Proof. vm_compute. reflexivity. Qed.

(** ** Edits *)

(** [n] edits of single characters make [b] of [a]. *)
Inductive edits : rstr -> rstr -> Z -> Prop :=
  | edits_done : edits [] [] 0
  | edits_delete a b x n : edits a b n -> edits (a ++ [x]) b (n + 1)
  | edits_insert a b y n : edits a b n -> edits a (b ++ [y]) (n + 1)
  | edits_keep a b x n : edits a b n -> edits (a ++ [x]) (b ++ [x]) n
  | edits_change a b x y n : edits a b n -> edits (a ++ [x]) (b ++ [y]) (n + 1).

(** The recursion behind the table, on the reversed texts. *)
Fixpoint lev (a : rstr) : rstr -> Z :=
  match a with
  | [] => fun b => Z.of_nat (length b)
  | x :: a' =>
    fix lev_b (b : rstr) : Z :=
      match b with
      | [] => Z.of_nat (length a)
      | y :: b' => Z.min (Z.min (lev a' b + 1) (lev_b b' + 1)) (lev a' b' + (if x =? y then 0 else 1))
      end
  end.

Lemma lev_cons x a y b : lev (x :: a) (y :: b) =
  Z.min (Z.min (lev a (y :: b) + 1) (lev (x :: a) b + 1)) (lev a b + (if x =? y then 0 else 1)).
Proof. done. Qed.

Lemma lev_nil_r a : lev a [] = Z.of_nat (length a).
Proof. by destruct a. Qed.

Lemma lev_range a : forall b, 0 <= lev a b <= Z.of_nat (length a + length b).
Proof.
  induction a as [|x a IHa]; intros b; [cbn; lia|]. induction b as [|y b IHb]; [rewrite lev_nil_r; cbn [length]; lia|].
  rewrite lev_cons. pose proof (IHa b) as H1. pose proof (IHa (y :: b)) as H2. cbn [length] in *. destruct (x =? y); lia.
Qed.

Lemma lev_delete x a b : lev (x :: a) b <= lev a b + 1.
Proof. destruct b as [|y b]; [rewrite !lev_nil_r; cbn [length]; lia|]. rewrite lev_cons. lia. Qed.

Lemma lev_insert a y b : lev a (y :: b) <= lev a b + 1.
Proof. destruct a as [|x a]; [cbn [lev length]; lia|]. rewrite lev_cons. lia. Qed.

Lemma lev_least a b n : edits a b n -> lev (rev a) (rev b) <= n.
Proof.
  induction 1 as [|a b x n _ IH|a b y n _ IH|a b x n _ IH|a b x y n _ IH]; [done|rewrite !rev_unit..].
  - pose proof (lev_delete x (rev a) (rev b)). lia.
  - pose proof (lev_insert (rev a) y (rev b)). lia.
  - rewrite lev_cons, Z.eqb_refl. lia.
  - rewrite lev_cons. destruct (x =? y); lia.
Qed.

Lemma edits_nil_l b : edits [] (rev b) (Z.of_nat (length b)).
Proof.
  induction b as [|y b IH]; [constructor|]. cbn [rev length]. rewrite Nat2Z.inj_succ. by constructor.
Qed.

Lemma edits_nil_r a : edits (rev a) [] (Z.of_nat (length a)).
Proof.
  induction a as [|y a IH]; [constructor|]. cbn [rev length]. rewrite Nat2Z.inj_succ. by constructor.
Qed.

Lemma lev_reached a : forall b, edits (rev a) (rev b) (lev a b).
Proof.
  induction a as [|x a IHa]; intros b; [apply edits_nil_l|].
  induction b as [|y b IHb]; [rewrite lev_nil_r; apply (edits_nil_r (x :: a))|]. rewrite lev_cons.
  assert (Hd : edits (rev (x :: a)) (rev (y :: b)) (lev a (y :: b) + 1)) by (apply edits_delete, IHa).
  assert (Hi : edits (rev (x :: a)) (rev (y :: b)) (lev (x :: a) b + 1)) by (apply edits_insert, IHb).
  assert (Hs : edits (rev (x :: a)) (rev (y :: b)) (lev a b + (if x =? y then 0 else 1))).
  { cbn [rev]. destruct (Z.eqb_spec x y) as [->|]; [|by apply edits_change].
    rewrite Z.add_0_r. by apply edits_keep. }
  by destruct (Z.min_spec (Z.min (lev a (y :: b) + 1) (lev (x :: a) b + 1)) (lev a b + (if x =? y then 0 else 1)))
    as [[_ ->]|[_ ->]]; [destruct (Z.min_spec (lev a (y :: b) + 1) (lev (x :: a) b + 1)) as [[_ ->]|[_ ->]]|].
Qed.

(** ** The table *)

Lemma enumerate_zip {A} (l : list A) : enumerate l = zip (seq 0 (length l)) l.
Proof.
  unfold enumerate. apply list_eq. intros i. rewrite list_lookup_imap, lookup_zip_with.
  destruct (l !! i) as [x|] eqn:E; cbn.
  - by rewrite lookup_seq_lt by by eapply lookup_lt_Some.
  - by destruct (seq 0 (length l) !! i).
Qed.

Section table.
Context (b : rstr).

(** The cell of a prefix of the first text and [j] characters of the second. *)
Definition cell (p : rstr) (j : nat) : Z := lev (rev p) (rev (take j b)).

Definition row (p : rstr) : list Z := map (cell p) (seq 0 (S (length b))).

Lemma row_lookup p j : (j <= length b)%nat -> row p !! j = Some (cell p j).
Proof.
  intros Hj. unfold row. change (map (cell p)) with (fmap (M := list) (cell p)).
  rewrite list_lookup_fmap, lookup_seq_lt by lia. done.
Qed.

Lemma cell_range p j : 0 <= cell p j <= Z.of_nat (length p + length b).
Proof.
  unfold cell. pose proof (lev_range (rev p) (rev (take j b))) as H. rewrite !length_rev, length_take in H. lia.
Qed.

Lemma cell_step p x j y : b !! j = Some y ->
  cell (p ++ [x]) (S j) =
  Z.min (Z.min (cell p (S j) + 1) (cell (p ++ [x]) j + 1)) (cell p j + (if x =? y then 0 else 1)).
Proof.
  intros Hy. unfold cell. by rewrite (take_S_r _ _ _ Hy), !rev_unit, lev_cons.
Qed.

(** Up to column [j] the current row is that of the prefix. *)
Definition filled (p : rstr) (j : nat) (cur : list Z) : Prop :=
  length cur = S (length b) /\ forall k, (k <= j)%nat -> cur !! k = Some (cell p k).

Lemma row_loop p x : Z.of_nat (length p + length b) + 1 < 2 ^ 64 ->
  forall k j cur, (j + k = length b)%nat -> filled (p ++ [x]) j cur ->
    fold_left (ed_cell x (row p)) (zip (seq j k) (drop j b)) cur = row (p ++ [x]).
Proof.
  intros Hs. induction k as [|k IH]; intros j cur Hjk [Hl Hc].
  - cbn [seq zip zip_with fold_left]. apply list_eq. intros i. destruct (decide (i <= length b)%nat) as [Hi|Hi].
    + rewrite row_lookup, Hc by lia. done.
    + rewrite !lookup_ge_None_2; [done|unfold row; rewrite length_map, length_seq; lia|lia].
  - destruct (b !! j) as [y|] eqn:Hy; [|apply lookup_ge_None in Hy; lia].
    rewrite (drop_S _ _ _ Hy). cbn [seq zip zip_with fold_left]. apply IH; [lia|].
    unfold ed_cell. rewrite !row_lookup, (Hc j) by lia. cbn [default from_option id].
    pose proof (cell_range p j). pose proof (cell_range p (S j)). pose proof (cell_range (p ++ [x]) j) as H1.
    rewrite length_app in H1. cbn [length] in H1.
    split; [by rewrite length_insert|]. intros i Hi. destruct (decide (i = S j)) as [->|Hne].
    + rewrite list_lookup_insert_eq by lia. f_equal. rewrite (cell_step p x j y Hy).
      unfold sat_u. destruct (x =? y); lia.
    + rewrite list_lookup_insert_ne by lia. apply Hc. lia.
Qed.

Lemma ed_row_spec p x cur : Z.of_nat (length p + length b) + 1 < 2 ^ 64 -> length cur = S (length b) ->
  ed_row b (length p) x (row p) cur = row (p ++ [x]).
Proof.
  intros Hs Hl. unfold ed_row. rewrite enumerate_zip.
  pose proof (row_loop p x Hs (length b) 0 (<[0%nat := Z.of_nat (length p) + 1]> cur) eq_refl) as H.
  rewrite drop_0 in H. apply H. split; [by rewrite length_insert|]. intros k Hk. replace k with 0%nat by lia.
  rewrite list_lookup_insert_eq by lia. unfold cell. rewrite take_0, lev_nil_r, length_rev, length_app. cbn [length].
  f_equal. lia.
Qed.

Lemma table_loop s : forall p cur, Z.of_nat (length p + length s + length b) < 2 ^ 64 -> length cur = S (length b) ->
  fst (fold_left (ed_step b) (zip (seq (length p) (length s)) s) (row p, cur)) = row (p ++ s).
Proof.
  induction s as [|x s IH]; intros p cur Hs Hl; [by rewrite app_nil_r|]. cbn [length seq zip zip_with fold_left ed_step] in *.
  rewrite ed_row_spec by lia. pose proof (IH (p ++ [x]) (row p)) as H. rewrite length_app in H. cbn [length] in H.
  replace (S (length p)) with (length p + 1)%nat by lia. rewrite H; [by rewrite <- app_assoc|lia|].
  unfold row. by rewrite length_map, length_seq.
Qed.

End table.

Lemma edit_distance_lev a b : Z.of_nat (length a + length b) < 2 ^ 64 -> edit_distance a b = lev (rev a) (rev b).
Proof.
  intros Hs. unfold edit_distance. rewrite enumerate_zip.
  assert (E : map Z.of_nat (seq 0 (S (length b))) = row b []).
  { unfold row. apply map_ext_in. intros j Hj%in_seq. unfold cell. cbn [rev lev]. rewrite length_rev, length_take. lia. }
  pose proof (table_loop b a [] (replicate (S (length b)) 0)) as H. cbn [length app] in H.
  rewrite E, H; [|lia|by rewrite length_replicate]. clear E H.
  rewrite last_lookup. unfold row at 1. rewrite length_map, length_seq. cbn [pred]. rewrite row_lookup by done.
  cbn [default from_option id]. unfold cell. by rewrite firstn_all.
Qed.

Lemma closer_fold name known : forall best,
  (forall d s, best = Some (d, s) -> d = edit_distance name s /\ d <= suggest_budget name) ->
  match fold_left (closer name) known best with
  | None => best = None /\ forall k, k ∈ known -> suggest_budget name < edit_distance name k
  | Some (d, s) =>
    d = edit_distance name s /\ d <= suggest_budget name /\ (best = Some (d, s) \/ s ∈ known) /\
    (forall d' s', best = Some (d', s') -> d <= d') /\ forall k, k ∈ known -> d <= edit_distance name k
  end.
Proof.
  induction known as [|k known IH]; intros best Hb; cbn [fold_left].
  - destruct best as [[d s]|]; [|split; [done|set_solver]]. destruct (Hb d s eq_refl) as [E Hd].
    split_and!; [done|done|by left|by intros d' s' [= <- <-]|set_solver].
  - set (dk := edit_distance name k).
    assert (Hc : closer name best k = Some (dk, k) /\ dk <= suggest_budget name /\ (forall d s, best = Some (d, s) -> dk < d) \/
      closer name best k = best /\ (suggest_budget name < dk \/ exists d s, best = Some (d, s) /\ d <= dk)).
    { unfold closer. fold dk. destruct (Z.leb_spec dk (suggest_budget name)) as [Hk|Hk]; cbn [andb]; [|right; auto].
      destruct best as [[bd bs]|]; [|by left]. destruct (Z.ltb_spec dk bd) as [Hd|Hd]; [left|right].
      - split_and!; [done|done|]. by intros d s [= <- <-].
      - split; [done|]. right. by exists bd, bs. }
    destruct Hc as [(Ec & Hk & Hless)|(Ec & Hk)]; rewrite Ec.
    + specialize (IH (Some (dk, k)) ltac:(by intros d s [= <- <-])).
      destruct (fold_left (closer name) known (Some (dk, k))) as [[d s]|]; [|by destruct IH].
      destruct IH as (E & Hd & Hin & Hle & Hall). specialize (Hle dk k eq_refl). split_and!; [done|done| | |].
      * right. destruct Hin as [[= <- <-]|Hin]; set_solver.
      * intros d' s' Hs. specialize (Hless d' s' Hs). lia.
      * intros k' [->|Hk']%elem_of_cons; [done|by apply Hall].
    + specialize (IH best Hb). destruct (fold_left (closer name) known best) as [[d s]|].
      * destruct IH as (E & Hd & Hin & Hle & Hall). split_and!; [done|done| |done|].
        -- destruct Hin as [Hin|Hin]; [by left|right; set_solver].
        -- intros k' [->|Hk']%elem_of_cons; [|by apply Hall]. fold dk.
           destruct Hk as [Hk|(d' & s' & Hs & Hk)]; [lia|]. specialize (Hle d' s' Hs). lia.
      * destruct IH as [-> Hall]. split; [done|]. intros k' [->|Hk']%elem_of_cons; [|by apply Hall].
        destruct Hk as [Hk|(d' & s' & [=] & _)]. done.
Qed.

(** The suggestion is the closest name. [suggest] returns a known name that
    the fewest single-character edits make of the unknown one, at most half its
    characters and three, at least one; and none only when every known name
    takes more. *)
Theorem suggest_is_closest name known :
  (forall k, k ∈ known -> Z.of_nat (length name + length k) < 2 ^ 64) ->
  match suggest name known with
  | Some s => s ∈ known /\ exists n, edits name s n /\ n <= suggest_budget name /\
      forall k m, k ∈ known -> edits name k m -> n <= m
  | None => forall k m, k ∈ known -> edits name k m -> suggest_budget name < m
  end.
Proof.
  intros Hs. unfold suggest.
  assert (Hm : forall k m, k ∈ known -> edits name k m -> edit_distance name k <= m).
  { intros k m Hk He. rewrite edit_distance_lev by by apply Hs. by apply lev_least. }
  pose proof (closer_fold name known None ltac:(done)) as H.
  destruct (fold_left (closer name) known None) as [[d s]|]; cbn.
  - destruct H as (E & Hd & [|Hin] & _ & Hall); [done|]. split; [done|]. exists d. split_and!; [|done|].
    + rewrite E, edit_distance_lev by by apply Hs. pose proof (lev_reached (rev name) (rev s)) as Hr.
      by rewrite !rev_involutive in Hr.
    + intros k m Hk He. specialize (Hall k Hk). specialize (Hm k m Hk He). lia.
  - destruct H as [_ Hall]. intros k m Hk He. specialize (Hall k Hk). specialize (Hm k m Hk He). lia.
Qed.

Lemma suggest_is_closest_witness :
  exists n, edits (str "scael") (str "scale") n /\ n <= 2.
Proof.
  assert (H : forall k, k ∈ [str "crop"; str "scale"] -> Z.of_nat (length (str "scael") + length k) < 2 ^ 64).
  { intros k Hk. repeat (apply elem_of_cons in Hk as [->|Hk]; [vm_compute; reflexivity|]). by apply not_elem_of_nil in Hk. }
  pose proof (suggest_is_closest (str "scael") [str "crop"; str "scale"] H) as Hc.
  assert (E : suggest (str "scael") [str "crop"; str "scale"] = Some (str "scale")) by (vm_compute; reflexivity).
  rewrite E in Hc. destruct Hc as (_ & n & He & Hn & _). exists n. split; [exact He|exact Hn].
Defined.
