(* ===== verification/GraphBuild.v ===== *)
(** * GraphBuild: from the syntax tree to the filter graph

    [src/crates/filter/vaco-filter-graph/src/build.rs] and [registry.rs]:
    instantiation of filters from a registry, the resolution of labels and of the
    unlabelled pads within a chain, the pads left open, and the check for cycles.
    The graph is that of [FilterGraph], built by its own calls; what a registry
    makes of a request is a parameter. *)

From Stdlib Require Import ZArith Lia Ascii String.
From stdpp Require Import prelude strings pretty.
From S2P Require Import Prelude Error FilterFormat FilterLink FilterSolve FilterGraph GraphLex GraphAst GraphSuggest.

(** ** Text of the graph: UTF-8 *)

Definition utf8_bytes (c : Z) : list Z :=
  if c <? 128 then [c]
  else if c <? 2048 then [192 + c / 64; 128 + c mod 64]
  else if c <? 65536 then [224 + c / 4096; 128 + c / 64 mod 64; 128 + c mod 64]
  else [240 + c / 262144; 128 + c / 4096 mod 64; 128 + c / 64 mod 64; 128 + c mod 64].

Definition to_string (s : rstr) : string :=
  string_of_list_ascii (map (fun b => ascii_of_N (Z.to_N b)) (concat (map utf8_bytes s))).

(** The characters of a well-formed string. *)
Fixpoint chars_of (s : list Z) : rstr :=
  match s with
  | [] => []
  | a :: s1 =>
    if a <? 128 then a :: chars_of s1
    else match s1 with
    | [] => []
    | b :: s2 =>
      if a <? 224 then (a - 192) * 64 + (b - 128) :: chars_of s2
      else match s2 with
      | [] => []
      | c :: s3 =>
        if a <? 240 then (a - 224) * 4096 + (b - 128) * 64 + (c - 128) :: chars_of s3
        else match s3 with
        | [] => []
        | d :: s4 => (a - 240) * 262144 + (b - 128) * 4096 + (c - 128) * 64 + (d - 128) :: chars_of s4
        end
      end
    end
  end.

Definition of_string (s : string) : rstr := chars_of (map (fun a => Z.of_N (N_of_ascii a)) (list_ascii_of_string s)).

Definition nat_text (n : nat) : rstr := str (pretty (N.of_nat n)).

Definition media_text (m : media_type) : rstr :=
  str match m with
      | Video => "Video" | Audio => "Audio" | Subtitle => "Subtitle" | Data => "Data" | Attachment => "Attachment"
      end.

(** ** The registry *)

Record instantiate : Type := Instantiate {
  rname : rstr; rinstance : rstr; rargs : option rstr; rarguments : list arg }.

Definition named (r : instantiate) (key : rstr) : option rstr :=
  arg_value <$> List.find (fun a => bool_decide (akey a = Some key)) (rarguments r).

Definition positional (r : instantiate) (n : nat) : option rstr :=
  arg_value <$> List.filter (fun a => bool_decide (akey a = None)) (rarguments r) !! n.

Record registry {F : Type} : Type := Registry {
  names : list rstr;
  contains : rstr -> bool;
  create : instantiate -> result rstr (filter_desc * node_formats * F) }.
Arguments registry : clear implicits.
Arguments Registry {F} _ _ _.

(** The trait's default [contains]. *)
Definition default_contains (ns : list rstr) (name : rstr) : bool := bool_decide (name ∈ ns).

(** ** The built graph *)

Record open_pad : Type := OpenPad {
  olabel : option rstr; onode : node_id; opad : nat; omedia : media_type; ospan : span }.

Record node_info : Type := NodeInfo { iid : node_id; iinstance : rstr; ifilter : rstr; ispan : span }.

Record built_graph {P F : Type} : Type := BuiltGraph {
  bgraph : graph P F;
  bnodes : list node_info;
  open_inputs : list open_pad;
  open_outputs : list open_pad;
  sws_opts : rstr;
  swr_opts : rstr }.
Arguments built_graph : clear implicits.
Arguments BuiltGraph {P F} _ _ _ _ _ _.

Record pending : Type := Pending {
  wlabel : rstr; wnode : node_id; wpad : nat; wmedia : media_type; wspan : span }.

(** The locals of [build]. *)
Record building {P F : Type} : Type := Building {
  graph_of : graph P F;
  infos : list node_info;
  descs : list filter_desc;
  open_out : list pending;
  open_in : list pending;
  unlabelled_in : list open_pad;
  unlabelled_out : list open_pad;
  instance_names : list rstr;
  index : nat }.
Arguments building : clear implicits.
Arguments Building {P F} _ _ _ _ _ _ _ _ _.

Section build.
Context {P F : Type}.
(** [std::io::Error]'s [Display]. *)
Context (io_text : Z -> rstr).
Context (reg : registry F).
Implicit Types (st : building P F) (g : graph P F).

Definition error_text (e : error) : rstr :=
  match e with
  | InvalidData w => str "invalid data: " ++ str w
  | UnexpectedEof => str "unexpected end of input"
  | Eof => str "end of stream"
  | NeedMoreInput => str "more input required"
  | OutputPending => str "output must be drained first"
  | Unsupported w => str "unsupported: " ++ str w
  | LimitExceeded l r c => str l ++ str " limit exceeded: requested " ++ str (pretty r) ++ str ", cap " ++ str (pretty c)
  | OptionError n d => str "option `" ++ of_string n ++ str "`: " ++ of_string d
  | Io code => str "io: " ++ io_text code
  | NotSeekable => str "stream is not seekable"
  | Cancelled => str "cancelled"
  end.

(** [Graph::label]. *)
Definition graph_label g (id : node_id) : rstr :=
  match gnodes g !! id with Some n => of_string (nlabel n) | None => str "<unknown>" end.

Definition with_graph (g : graph P F) st : building P F :=
  Building g (infos st) (descs st) (open_out st) (open_in st) (unlabelled_in st) (unlabelled_out st)
    (instance_names st) (index st).
Definition with_open_out (l : list pending) st : building P F :=
  Building (graph_of st) (infos st) (descs st) l (open_in st) (unlabelled_in st) (unlabelled_out st)
    (instance_names st) (index st).
Definition with_open_in (l : list pending) st : building P F :=
  Building (graph_of st) (infos st) (descs st) (open_out st) l (unlabelled_in st) (unlabelled_out st)
    (instance_names st) (index st).
Definition with_unlabelled_in (l : list open_pad) st : building P F :=
  Building (graph_of st) (infos st) (descs st) (open_out st) (open_in st) l (unlabelled_out st)
    (instance_names st) (index st).
Definition with_unlabelled_out (l : list open_pad) st : building P F :=
  Building (graph_of st) (infos st) (descs st) (open_out st) (open_in st) (unlabelled_in st) l
    (instance_names st) (index st).

(** [Descs]. *)
Definition counts st (id : node_id) : nat * nat :=
  match descs st !! id with Some d => (length (dinputs d), length (doutputs d)) | None => (0%nat, 0%nat) end.
Definition input_media st (id : node_id) (p : nat) : media_type :=
  default Video (padmedia <$> (descs st !! id ≫= fun d => dinputs d !! p)).
Definition output_media st (id : node_id) (p : nat) : media_type :=
  default Video (padmedia <$> (descs st !! id ≫= fun d => doutputs d !! p)).

Definition pad_count_detail (d : filter_desc) (f : node_formats) : rstr :=
  str "descriptor says " ++ nat_text (length (dinputs d)) ++ str "in/" ++ nat_text (length (doutputs d)) ++
  str "out, formats say " ++ nat_text (length (ninputs f)) ++ str "in/" ++ nat_text (length (noutputs f)) ++ str "out".

Definition instantiate_filter (f : filter_spec) (instance : rstr) st : result graph_error (node_id * building P F) :=
  if negb (contains reg (fname f))
  then Err (GraphError (UnknownFilter (fname f) (suggest (fname f) (names reg))) (name_span f))
  else
    args ← arguments f;
    match create reg (Instantiate (fname f) instance (fargs f) args) with
    | Err detail => Err (GraphError (FilterFailed instance detail) (fspan f))
    | Ok (d, fs, filter) =>
      if negb (bool_decide (length (dinputs d) = length (ninputs fs) /\ length (doutputs d) = length (noutputs fs)))
      then Err (GraphError (PadCountMismatch instance (pad_count_detail d fs)) (fspan f))
      else
        let fs := NodeFormats (ninputs fs) (noutputs fs) (ties fs) (to_string instance) in
        let '(id, g) := add d fs filter (graph_of st) in
        Ok (id, Building g (infos st) (descs st ++ [d]) (open_out st) (open_in st) (unlabelled_in st)
                  (unlabelled_out st) (instance_names st) (index st))
    end.

Definition link (src : pending) (dst_node : node_id) (dst_pad : nat) (dst_label : rstr) (sp : span) st
    : result graph_error (building P F) :=
  let want := input_media st dst_node dst_pad in
  if bool_decide (want <> wmedia src) then
    Err (GraphError (MediaMismatch
      (graph_label (graph_of st) (wnode src) ++ str " output " ++ nat_text (wpad src) ++ str " (" ++ media_text (wmedia src) ++ str ")")
      (dst_label ++ str " input " ++ nat_text dst_pad ++ str " (" ++ media_text want ++ str ")")) sp)
  else
    match connect (wnode src) (wpad src) dst_node dst_pad (graph_of st) with
    | (Err e, _) => Err (GraphError (FilterFailed dst_label (error_text e)) sp)
    | (Ok _, g) => Ok (with_graph g st)
    end.

(** [position] and [remove] of the first pad of a label. *)
Fixpoint take_label (l : rstr) (ps : list pending) : option (pending * list pending) :=
  match ps with
  | [] => None
  | p :: ps =>
    if bool_decide (wlabel p = l) then Some (p, ps)
    else '(q, rest) ← take_label l ps; Some (q, p :: rest)
  end.

(** Labelled inputs take pads from 0. *)
Fixpoint label_inputs (node : node_id) (instance : rstr) (pad : nat) (ls : list label) st
    : result graph_error (building P F) :=
  match ls with
  | [] => Ok st
  | l :: ls =>
    match take_label (lname l) (open_out st) with
    | Some (src, rest) =>
      st ← link src node pad instance (lspan l) (with_open_out rest st);
      label_inputs node instance (S pad) ls st
    | None =>
      label_inputs node instance (S pad) ls
        (with_open_in (open_in st ++ [Pending (lname l) node pad (input_media st node pad) (lspan l)]) st)
    end
  end.

Abbreviation carried_pad := (node_id * nat * media_type)%type.

(** The carried outputs fill the input pads that remain, in order; with the
    pads and the carried outputs left. *)
Fixpoint fill_carried (f : filter_spec) (node : node_id) (instance : rstr) (n_in pad : nat)
    (carried : list carried_pad) st : result graph_error (nat * list carried_pad * building P F) :=
  match carried with
  | [] => Ok (pad, [], st)
  | (src_node, src_pad, media) :: rest =>
    if (pad <? n_in)%nat then
      let want := input_media st node pad in
      if bool_decide (want <> media) then
        Err (GraphError (MediaMismatch
          (graph_label (graph_of st) src_node ++ str " (" ++ media_text media ++ str ")")
          (instance ++ str " input " ++ nat_text pad ++ str " (" ++ media_text want ++ str ")")) (fspan f))
      else
        match connect src_node src_pad node pad (graph_of st) with
        | (Err e, _) => Err (GraphError (FilterFailed (fname f) (error_text e)) (fspan f))
        | (Ok _, g) => fill_carried f node instance n_in (S pad) rest (with_graph g st)
        end
    else Ok (pad, carried, st)
  end.

Definition open_of (sp : span) (c : carried_pad) : open_pad :=
  let '(n, p, m) := c in OpenPad None n p m sp.

(** Labelled outputs take pads from 0. *)
Fixpoint label_outputs (node : node_id) (instance : rstr) (pad : nat) (ls : list label) st
    : result graph_error (building P F) :=
  match ls with
  | [] => Ok st
  | l :: ls =>
    let media := output_media st node pad in
    match take_label (lname l) (open_in st) with
    | Some (dst, rest) =>
      st ← link (Pending (lname l) node pad media (lspan l)) (wnode dst) (wpad dst) instance (lspan l)
             (with_open_in rest st);
      label_outputs node instance (S pad) ls st
    | None =>
      match List.find (fun p => bool_decide (wlabel p = lname l)) (open_out st) with
      | Some first => Err (GraphError (DuplicateOutputLabel (lname l) (wspan first)) (lspan l))
      | None =>
        label_outputs node instance (S pad) ls
          (with_open_out (open_out st ++ [Pending (lname l) node pad media (lspan l)]) st)
      end
    end
  end.

(** One filter of a chain: the outputs it carries on. *)
Definition build_filter (f : filter_spec) (carried : list carried_pad) st
    : result graph_error (list carried_pad * building P F) :=
  let instance := instance_name f (index st) in
  if bool_decide (is_Some (finstance f)) && bool_decide (instance ∈ instance_names st)
  then Err (GraphError (DuplicateInstanceName instance) (name_span f))
  else
    let st := Building (graph_of st) (infos st) (descs st) (open_out st) (open_in st) (unlabelled_in st)
                (unlabelled_out st) (instance_names st ++ [instance]) (index st) in
    '(node, st) ← instantiate_filter f instance st;
    let '(n_in, n_out) := counts st node in
    let st := Building (graph_of st) (infos st ++ [NodeInfo node instance (fname f) (fspan f)]) (descs st)
                (open_out st) (open_in st) (unlabelled_in st) (unlabelled_out st) (instance_names st)
                (S (index st)) in
    if (n_in <? length (finputs f))%nat
    then Err (GraphError (TooManyInputLabels (fname f) (length (finputs f)) n_in) (fspan f))
    else if (n_out <? length (foutputs f))%nat
    then Err (GraphError (TooManyOutputLabels (fname f) (length (foutputs f)) n_out) (fspan f))
    else
      st ← label_inputs node instance 0 (finputs f) st;
      '(pad, rest, st) ← fill_carried f node instance n_in (length (finputs f)) carried st;
      let st := with_unlabelled_out (unlabelled_out st ++ map (open_of (fspan f)) rest) st in
      let st := with_unlabelled_in (unlabelled_in st ++
                  map (fun p => OpenPad None node p (input_media st node p) (fspan f)) (seq pad (n_in - pad))) st in
      st ← label_outputs node instance 0 (foutputs f) st;
      Ok (map (fun p => (node, p, output_media st node p)) (seq (length (foutputs f)) (n_out - length (foutputs f))), st).

Fixpoint build_filters (fs : list filter_spec) (carried : list carried_pad) st
    : result graph_error (list carried_pad * building P F) :=
  match fs with
  | [] => Ok (carried, st)
  | f :: fs => '(carried, st) ← build_filter f carried st; build_filters fs carried st
  end.

Fixpoint build_chains (cs : list chain) st : result graph_error (building P F) :=
  match cs with
  | [] => Ok st
  | c :: cs =>
    '(carried, st) ← build_filters (cfilters c) [] st;
    build_chains cs (with_unlabelled_out (unlabelled_out st ++ map (open_of (cspan c)) carried) st)
  end.

(** ** Cycles *)

Definition count_more (d : Z) : Z := sat_u 64 (d + 1).
Definition count_less (d : Z) : Z := sat_u 64 (d - 1).

Definition edges_of g : list Z * list (list nat) :=
  fold_left (fun '(indegree, edges) l =>
    (alter count_more (pnode (dst l)) indegree, alter (fun e => e ++ [pnode (dst l)]) (pnode (src l)) edges))
    (glinks g) (replicate (length (gnodes g)) 0, replicate (length (gnodes g)) []).

Definition drop_edge (s : list Z * list nat) (d : nat) : list Z * list nat :=
  let '(indegree, queue) := s in
  match indegree !! d with
  | None => (indegree, queue)
  | Some k => (<[d := count_less k]> indegree, if count_less k =? 0 then queue ++ [d] else queue)
  end.

(** The stack is popped at its end. [None] is out of fuel. *)
Fixpoint acyclic_loop (fuel : nat) (edges : list (list nat)) (indegree : list Z) (queue : list nat) (seen : nat)
    : option (nat * list Z) :=
  match last queue with
  | None => Some (seen, indegree)
  | Some i =>
    match fuel with
    | O => None
    | S fuel =>
      let '(indegree, queue) := fold_left drop_edge (default [] (edges !! i)) (indegree, removelast queue) in
      acyclic_loop fuel edges indegree queue (S seen)
    end
  end.

Definition check_acyclic g (nodes : list node_info) : option (result graph_error unit) :=
  let n := length (gnodes g) in
  let '(indegree, edges) := edges_of g in
  '(seen, indegree) ← acyclic_loop n edges indegree (List.filter (fun i => bool_decide (indegree !! i = Some 0)) (seq 0 n)) 0;
  Some (if (seen =? n)%nat then Ok tt
        else
          let involved := omap (fun i => iinstance <$> nodes !! i)
                            (List.filter (fun i => 0 <? default 0 (indegree !! i)) (seq 0 n)) in
          let sp := match involved with
                    | [] => span_default
                    | _ => default span_default (ispan <$> nodes !! 0%nat)
                    end in
          Err (GraphError (Cycle involved) sp)).

Definition pending_pad (p : pending) : open_pad := OpenPad (Some (wlabel p)) (wnode p) (wpad p) (wmedia p) (wspan p).

Definition build (a : ast) : option (result graph_error (built_graph P F)) :=
  match build_chains (chains a) (Building graph_new [] [] [] [] [] [] [] 0) with
  | Err e => Some (Err e)
  | Ok st =>
    r ← check_acyclic (graph_of st) (infos st);
    Some (_ ← r;
      Ok (BuiltGraph (graph_of st) (infos st)
            (map pending_pad (open_in st) ++ unlabelled_in st)
            (map pending_pad (open_out st) ++ unlabelled_out st)
            (default [] (sws_flags a)) []))
  end.

Definition with_bgraph (g : graph P F) (b : built_graph P F) : built_graph P F :=
  BuiltGraph g (bnodes b) (open_inputs b) (open_outputs b) (sws_opts b) (swr_opts b).

(** A failure leaves the new node in the graph. *)
Definition attach_source (k : nat) (fs : node_formats) (format : link_format) (b : built_graph P F)
    : result error node_id * built_graph P F :=
  match open_inputs b !! k with
  | None => (Err (InvalidData "no such open input pad"), b)
  | Some open =>
    let label := default "in"%string (to_string <$> olabel open) in
    let '(src, g) := add_source label (omedia open) fs (bgraph b) in
    match set_source_format src format g with
    | (Err e, g) => (Err e, with_bgraph g b)
    | (Ok _, g) =>
      match connect src 0 (onode open) (opad open) g with
      | (Err e, g) => (Err e, with_bgraph g b)
      | (Ok _, g) => (Ok src, BuiltGraph g (bnodes b) (delete k (open_inputs b)) (open_outputs b) (sws_opts b) (swr_opts b))
      end
    end
  end.

Definition attach_sink (k : nat) (fs : node_formats) (b : built_graph P F) : result error node_id * built_graph P F :=
  match open_outputs b !! k with
  | None => (Err (InvalidData "no such open output pad"), b)
  | Some open =>
    let label := default "out"%string (to_string <$> olabel open) in
    let '(sink, g) := add_sink label (omedia open) fs (bgraph b) in
    match connect (onode open) (opad open) sink 0 g with
    | (Err e, g) => (Err e, with_bgraph g b)
    | (Ok _, g) => (Ok sink, BuiltGraph g (bnodes b) (open_inputs b) (delete k (open_outputs b)) (sws_opts b) (swr_opts b))
    end
  end.

Definition parse_and_build (src : rstr) : option (result graph_error (built_graph P F)) :=
  r ← parse src;
  match r with Err e => Some (Err e) | Ok a => build a end.

End build.

(** ** Pads accounted for *)

Abbreviation pad_key := (nat * nat)%type.

Section accounting.
Context {P F : Type}.
Implicit Types (g : graph P F) (n : gnode F) (st : building P F).

Definition free_in g (x : pad_key) : Prop :=
  exists n, gnodes g !! fst x = Some n /\ inputs (nlinks n) !! snd x = Some None.
Definition free_out g (x : pad_key) : Prop :=
  exists n, gnodes g !! fst x = Some n /\ outputs (nlinks n) !! snd x = Some None.

Definition media_in (ds : list filter_desc) (x : pad_key) : option media_type :=
  padmedia <$> (ds !! fst x ≫= fun d => dinputs d !! snd x).
Definition media_out (ds : list filter_desc) (x : pad_key) : option media_type :=
  padmedia <$> (ds !! fst x ≫= fun d => doutputs d !! snd x).

(** The descriptors beside the graph, and nodes with as many pads as they show. *)
Record kept g (ds : list filter_desc) : Prop := {
  kept_built : built g;
  kept_descs : map ndesc (gnodes g) = ds;
  kept_in : forall id n, gnodes g !! id = Some n -> length (inputs (nlinks n)) = length (dinputs (ndesc n));
  kept_out : forall id n, gnodes g !! id = Some n -> length (outputs (nlinks n)) = length (doutputs (ndesc n)) }.

Lemma kept_desc g ds id n : kept g ds -> gnodes g !! id = Some n -> ds !! id = Some (ndesc n).
Proof.
  intros [_ <- _ _] Hn. change (map ndesc) with (fmap (M := list) (ndesc (F := F))). by rewrite list_lookup_fmap, Hn.
Qed.

Lemma wire_free_in s sp d dp k g x : free_in g (d, dp) ->
  free_in (wire s sp d dp k g) x <-> free_in g x /\ x <> (d, dp).
Proof.
  intros (nd & Hd & Hdp). cbn [fst snd] in *. unfold free_in. destruct x as [id p]. cbn [fst snd]. rewrite wire_lookup. split.
  - intros (n & Hn & Hp). apply fmap_Some in Hn as (n0 & Hn & ->). cbn in Hp.
    destruct (decide (id = d)) as [->|Hne]; [|split; [by exists n0|congruence]].
    rewrite list_lookup_insert in Hp. destruct (decide (dp = p /\ _)) as [|Hno]; [done|]. split; [by exists n0|].
    intros [= ->]. destruct Hno. split; [done|]. assert (n0 = nd) as -> by congruence. by eapply lookup_lt_Some.
  - intros [(n & Hn & Hp) Hne]. rewrite Hn. eexists. split; [reflexivity|]. cbn.
    destruct (decide (id = d)) as [->|]; [|done]. rewrite list_lookup_insert_ne; [done|]. intros ->. done.
Qed.

Lemma wire_free_out s sp d dp k g x : free_out g (s, sp) ->
  free_out (wire s sp d dp k g) x <-> free_out g x /\ x <> (s, sp).
Proof.
  intros (ns & Hs & Hsp). cbn [fst snd] in *. unfold free_out. destruct x as [id p]. cbn [fst snd]. rewrite wire_lookup. split.
  - intros (n & Hn & Hp). apply fmap_Some in Hn as (n0 & Hn & ->). cbn in Hp.
    destruct (decide (id = s)) as [->|Hne]; [|split; [by exists n0|congruence]].
    rewrite list_lookup_insert in Hp. destruct (decide (sp = p /\ _)) as [|Hno]; [done|]. split; [by exists n0|].
    intros [= ->]. destruct Hno. split; [done|]. assert (n0 = ns) as -> by congruence. by eapply lookup_lt_Some.
  - intros [(n & Hn & Hp) Hne]. rewrite Hn. eexists. split; [reflexivity|]. cbn.
    destruct (decide (id = s)) as [->|]; [|done]. rewrite list_lookup_insert_ne; [done|]. intros ->. done.
Qed.

(** Two free pads of one medium can always be connected. *)
Lemma connect_free g ds s sp d dp m :
  kept g ds -> free_out g (s, sp) -> free_in g (d, dp) -> media_out ds (s, sp) = Some m -> media_in ds (d, dp) = Some m ->
  exists i g', connect s sp d dp g = (Ok i, g') /\ kept g' ds /\ length (glinks g') = S (length (glinks g)) /\
    (forall x, free_in g' x <-> free_in g x /\ x <> (d, dp)) /\
    (forall x, free_out g' x <-> free_out g x /\ x <> (s, sp)).
Proof.
  intros K Hso Hdi Hms Hmd. pose proof Hso as (ns & Hs & Hsp). pose proof Hdi as (nd & Hd & Hdp). cbn [fst snd] in *.
  unfold media_out, media_in in Hms, Hmd. cbn [fst snd] in *.
  rewrite (kept_desc g ds s ns K Hs) in Hms. rewrite (kept_desc g ds d nd K Hd) in Hmd.
  cbn [mbind option_bind] in Hms, Hmd.
  apply fmap_Some in Hms as (po & Hpo & Em), Hmd as (pi & Hpi & Em').
  assert (Hconn : exists g', connect s sp d dp g = (Ok (length (glinks g)), g') /\
    exists l, g' = wire s sp d dp (length (glinks g)) (with_glinks (glinks g ++ [l]) g)).
  { unfold connect, pad_media, get_node, lift, throw, put, mbind, gm_bind.
    rewrite Hs. cbn [ok_or mbind result_bind]. rewrite Hpo. cbn [fmap option_fmap option_map ok_or].
    rewrite Hd. cbn [ok_or mbind result_bind]. rewrite Hpi. cbn [fmap option_fmap option_map ok_or].
    rewrite bool_decide_eq_false_2.
    2: { unfold output. rewrite Hsp. by intros [? [=]]. }
    rewrite bool_decide_eq_false_2.
    2: { unfold input. rewrite Hdp. by intros [? [=]]. }
    unfold link_new. rewrite bool_decide_eq_false_2 by congruence. unfold arena_push. cbn [mret gm_ret].
    eexists. split; [reflexivity|]. eexists. reflexivity. }
  destruct Hconn as (g' & Hc & l & ->). do 2 eexists. split; [exact Hc|]. destruct K as [Kb Kd Ki Ko].
  split; [constructor|split_and!].
  - by eapply built_connect.
  - rewrite <- Kd. change (map ndesc) with (fmap (M := list) (ndesc (F := F))). apply list_eq. intros id.
    rewrite !list_lookup_fmap, wire_lookup. cbn [gnodes with_glinks]. by destruct (gnodes g !! id).
  - intros id n. rewrite wire_lookup. cbn [gnodes with_glinks]. destruct (gnodes g !! id) as [n0|] eqn:E; [|done].
    intros [= <-]. cbn. rewrite <- (Ki id n0 E). by destruct (decide (id = d)); rewrite ?length_insert.
  - intros id n. rewrite wire_lookup. cbn [gnodes with_glinks]. destruct (gnodes g !! id) as [n0|] eqn:E; [|done].
    intros [= <-]. cbn. rewrite <- (Ko id n0 E). by destruct (decide (id = s)); rewrite ?length_insert.
  - cbn. rewrite length_app. cbn. lia.
  - intros x. exact (wire_free_in s sp d dp _ (with_glinks (glinks g ++ [l]) g) x Hdi).
  - intros x. exact (wire_free_out s sp d dp _ (with_glinks (glinks g ++ [l]) g) x Hso).
Qed.

(** A list of the pads with a property, each once. *)
Definition lists (l : list pad_key) (f : pad_key -> Prop) : Prop := NoDup l /\ forall x, x ∈ l <-> f x.

#[export] Instance lists_proper f : Proper (Permutation ==> iff) (fun l => lists l f).
Proof. intros l l' E. unfold lists. setoid_rewrite E. done. Qed.

Lemma lists_perm l l' f : Permutation l l' -> lists l f -> lists l' f.
Proof. intros E. by apply (lists_proper f). Qed.

Lemma lists_remove x l f f' : lists (x :: l) f -> (forall y, f' y <-> f y /\ y <> x) -> lists l f'.
Proof.
  intros [Hd Hin] Hf. apply NoDup_cons in Hd as [Hx Hd]. split; [done|]. intros y. rewrite Hf, <- Hin. set_solver.
Qed.

Lemma lists_app l l' f f' : lists l f -> (forall x, x ∈ l' -> ~ f x) -> NoDup l' ->
  (forall x, f' x <-> f x \/ x ∈ l') -> lists (l ++ l') f'.
Proof.
  intros [Hd Hin] Hno Hd' Hf. split.
  - apply NoDup_app. split_and!; [done|intros x Hx%Hin Hx'; by apply (Hno x)|done].
  - intros x. by rewrite elem_of_app, Hin, Hf.
Qed.

Definition wkey (p : pending) : pad_key := (wnode p, wpad p).
Definition okey (o : open_pad) : pad_key := (onode o, opad o).
Definition ckey (c : nat * nat * media_type) : pad_key := fst c.

Definition ins st : list pad_key := map wkey (open_in st) ++ map okey (unlabelled_in st).
Definition outs st : list pad_key := map wkey (open_out st) ++ map okey (unlabelled_out st).

(** What [build] keeps, with the pads still to be placed. *)
Record inv st (todo_in todo_out : list pad_key) : Prop := {
  inv_kept : kept (graph_of st) (descs st);
  inv_in : lists (ins st ++ todo_in) (free_in (graph_of st));
  inv_out : lists (outs st ++ todo_out) (free_out (graph_of st));
  inv_open_in : Forall (fun p => media_in (descs st) (wkey p) = Some (wmedia p)) (open_in st);
  inv_open_out : Forall (fun p => media_out (descs st) (wkey p) = Some (wmedia p)) (open_out st);
  inv_unl_in : Forall (fun o => media_in (descs st) (okey o) = Some (omedia o)) (unlabelled_in st);
  inv_unl_out : Forall (fun o => media_out (descs st) (okey o) = Some (omedia o)) (unlabelled_out st);
  inv_count : (length (glinks (graph_of st)) + length (ins st ++ todo_in))%nat = sum_list_with (fun d => length (dinputs d)) (descs st);
  inv_infos : map iid (infos st) = seq 0 (length (descs st));
  inv_size : length (gnodes (graph_of st)) = length (descs st) }.

Definition pads_from (node a b : nat) : list pad_key := map (pair node) (seq a (b - a)).

Lemma pads_from_cons node a b : (a < b)%nat -> pads_from node a b = (node, a) :: pads_from node (S a) b.
Proof. intros H. unfold pads_from. replace (b - a)%nat with (S (b - S a)) by lia. done. Qed.

Lemma take_label_perm l ps p rest : take_label l ps = Some (p, rest) -> Permutation ps (p :: rest) /\ wlabel p = l.
Proof.
  revert p rest. induction ps as [|q ps IH]; intros p rest; [done|]. cbn [take_label].
  case_bool_decide as E; [by intros [= <- <-]|]. destruct (take_label l ps) as [[q' r]|]; [|done].
  intros [= <- <-]. destruct (IH q' r eq_refl) as [-> El]. split; [|done]. apply Permutation_swap.
Qed.


(** An operation that only moves pads between the lists. *)
Lemma inv_move st st' ti ti' to to' : inv st ti to ->
  graph_of st' = graph_of st -> descs st' = descs st -> infos st' = infos st ->
  Permutation (ins st ++ ti) (ins st' ++ ti') -> Permutation (outs st ++ to) (outs st' ++ to') ->
  Forall (fun p => media_in (descs st) (wkey p) = Some (wmedia p)) (open_in st') ->
  Forall (fun p => media_out (descs st) (wkey p) = Some (wmedia p)) (open_out st') ->
  Forall (fun o => media_in (descs st) (okey o) = Some (omedia o)) (unlabelled_in st') ->
  Forall (fun o => media_out (descs st) (okey o) = Some (omedia o)) (unlabelled_out st') ->
  inv st' ti' to'.
Proof.
  intros [K1 K2 K3 K4 K5 K6 K7 K8 K9 K10] Eg Ed Ei Pi Po H1 H2 H3 H4. split; rewrite ?Eg, ?Ed, ?Ei; try done.
  - by apply (lists_perm (ins st ++ ti)).
  - by apply (lists_perm (outs st ++ to)).
  - by rewrite <- Pi.
Qed.

Lemma free_in_media g ds x : kept g ds -> free_in g x -> is_Some (media_in ds x).
Proof.
  intros K (n & Hn & Hp). unfold media_in. rewrite (kept_desc g ds _ _ K Hn). cbn [mbind option_bind].
  apply fmap_is_Some, lookup_lt_is_Some. rewrite <- (kept_in _ _ K _ _ Hn). by eapply lookup_lt_Some.
Qed.

Lemma free_out_media g ds x : kept g ds -> free_out g x -> is_Some (media_out ds x).
Proof.
  intros K (n & Hn & Hp). unfold media_out. rewrite (kept_desc g ds _ _ K Hn). cbn [mbind option_bind].
  apply fmap_is_Some, lookup_lt_is_Some. rewrite <- (kept_out _ _ K _ _ Hn). by eapply lookup_lt_Some.
Qed.

Lemma input_media_eq st id p : input_media st id p = default Video (media_in (descs st) (id, p)).
Proof. done. Qed.
Lemma output_media_eq st id p : output_media st id p = default Video (media_out (descs st) (id, p)).
Proof. done. Qed.

Lemma todo_in_media st ti to x : inv st ti to -> x ∈ ti ->
  media_in (descs st) x = Some (input_media st (fst x) (snd x)).
Proof.
  intros I Hx. rewrite input_media_eq, <- surjective_pairing.
  destruct (free_in_media _ _ x (inv_kept _ _ _ I)) as [m ->]; [|done].
  apply (proj2 (inv_in _ _ _ I)). set_solver.
Qed.

Lemma todo_out_media st ti to x : inv st ti to -> x ∈ to ->
  media_out (descs st) x = Some (output_media st (fst x) (snd x)).
Proof.
  intros I Hx. rewrite output_media_eq, <- surjective_pairing.
  destruct (free_out_media _ _ x (inv_kept _ _ _ I)) as [m ->]; [|done].
  apply (proj2 (inv_out _ _ _ I)). set_solver.
Qed.

(** Connecting two pads of the lists to be placed. *)
Lemma inv_connect st ti to s sp d dp m : inv st ((d, dp) :: ti) ((s, sp) :: to) ->
  media_out (descs st) (s, sp) = Some m -> media_in (descs st) (d, dp) = Some m ->
  exists i g', connect s sp d dp (graph_of st) = (Ok i, g') /\ inv (with_graph g' st) ti to.
Proof.
  intros I Hs Hd. destruct I as [K1 K2 K3 K4 K5 K6 K7 K8 K9 K10].
  assert (K2' : lists ((d, dp) :: (ins st ++ ti)) (free_in (graph_of st))).
  { revert K2. apply lists_perm. symmetry. apply Permutation_middle. }
  assert (K3' : lists ((s, sp) :: (outs st ++ to)) (free_out (graph_of st))).
  { revert K3. apply lists_perm. symmetry. apply Permutation_middle. }
  destruct (connect_free (graph_of st) (descs st) s sp d dp m K1) as (i & g' & Hc & K & Hl & Hi & Ho); [..|done|done|].
  - apply K3'. set_solver.
  - apply K2'. set_solver.
  - exists i, g'. split; [exact Hc|]. split; try done.
    + by apply (lists_remove (d, dp) _ (free_in (graph_of st))).
    + by apply (lists_remove (s, sp) _ (free_out (graph_of st))).
    + cbn [graph_of with_graph descs]. rewrite Hl, <- K8. change (ins (with_graph g' st)) with (ins st). rewrite !length_app. cbn. lia.
    + cbn [graph_of with_graph descs]. pose proof (kept_descs _ _ K) as <-. by rewrite length_map.
Qed.

End accounting.

(** ** Every step keeps the pads accounted for *)

Section steps.
Context {P F : Type} (io_text : Z -> rstr) (reg : registry F).
Implicit Types (g : graph P F) (st : building P F).

(** What an error says is so; cycles aside. *)
Definition caused (e : graph_error) : Prop :=
  match ekind e with
  | UnknownFilter n s => contains reg n = false /\ s = suggest n (names reg)
  | PositionalAfterNamed _ => exists f, arguments f = Err e
  | FilterFailed i d => exists r, create reg r = Err d /\ rinstance r = i
  | PadCountMismatch i _ => exists r d fs fl, create reg r = Ok (d, fs, fl) /\ rinstance r = i /\
      (length (dinputs d) <> length (ninputs fs) \/ length (doutputs d) <> length (noutputs fs))
  | TooManyInputLabels _ given has | TooManyOutputLabels _ given has => (has < given)%nat
  | MediaMismatch _ _ | DuplicateOutputLabel _ _ | DuplicateInstanceName _ => True
  | _ => False
  end.

Definition keeps {A} (r : result graph_error A) (Q : A -> Prop) : Prop :=
  match r with Ok a => Q a | Err e => caused e end.

Lemma keeps_bind {A B} (r : result graph_error A) (k : A -> result graph_error B) Q R :
  keeps r Q -> (forall a, Q a -> keeps (k a) R) -> keeps (r ≫= k) R.
Proof. destruct r as [a|e]; cbn; [|done]. intros HQ Hk. by apply Hk. Qed.

Lemma keeps_weaken {A} (r : result graph_error A) (Q R : A -> Prop) :
  keeps r Q -> (forall a, Q a -> R a) -> keeps r R.
Proof. destruct r; cbn; [|done]. intros HQ Hk. by apply Hk. Qed.

Lemma arguments_caused f e : arguments f = Err e -> caused e.
Proof.
  intros H. unfold caused. assert (exists v, ekind e = PositionalAfterNamed v) as [v ->]; [|by exists f].
  revert H. unfold arguments. destruct (fargs f) as [[|c s]|]; [done| |done]. generalize (split_raw (c :: s) ARG), false.
  intros ps. induction ps as [|[p sp] ps IH]; intros b; cbn [arguments_loop]; [done|].
  destruct (split_once_raw p EQ) as [[k v]|].
  - destruct (arguments_loop (args_span f) true ps) eqn:E; cbn; [done|]. intros [= <-]. by apply (IH true).
  - destruct b; [intros [= <-]; by eexists|].
    destruct (arguments_loop (args_span f) false ps) eqn:E; cbn; [done|]. intros [= <-]. by apply (IH false).
Qed.

(** Steps after a node was made: descriptors and node list stay. *)
Definition same st st' : Prop := descs st' = descs st /\ infos st' = infos st.

Lemma link_keeps src dn dp lbl sp st ti to : inv st ((dn, dp) :: ti) (wkey src :: to) ->
  media_out (descs st) (wkey src) = Some (wmedia src) ->
  keeps (link io_text src dn dp lbl sp st) (fun st' => exists g', st' = with_graph g' st /\ inv st' ti to).
Proof.
  intros I Hm. unfold link. case_bool_decide as Hw; [done|].
  destruct (inv_connect st ti to (wnode src) (wpad src) dn dp (wmedia src) I Hm) as (i & g' & -> & I').
  - rewrite (todo_in_media st _ _ (dn, dp) I) by set_solver. cbn [fst snd]. by f_equal.
  - cbn [keeps]. by exists g'.
Qed.

Lemma label_inputs_keeps node inst ls : forall pad n_in st to, (pad + length ls <= n_in)%nat ->
  inv st (pads_from node pad n_in) to ->
  keeps (label_inputs io_text node inst pad ls st) (fun st' =>
    inv st' (pads_from node (pad + length ls) n_in) to /\ same st st').
Proof.
  induction ls as [|l ls IH]; intros pad n_in st to Hle I; cbn [label_inputs length] in *.
  { rewrite Nat.add_0_r. by split. }
  rewrite pads_from_cons in I by lia. replace (pad + S (length ls))%nat with (S pad + length ls)%nat by lia.
  destruct (take_label (lname l) (open_out st)) as [[src rest]|] eqn:E.
  - apply take_label_perm in E as [E _]. pose proof (inv_open_out _ _ _ I) as Hm. rewrite E in Hm. apply Forall_cons in Hm as [Hm Hr].
    eapply keeps_bind.
    + apply (link_keeps src node pad inst (lspan l) _ (pads_from node (S pad) n_in) to); [|exact Hm].
      eapply inv_move; try exact I; try done; try apply I.
      unfold outs. cbn [open_out unlabelled_out with_open_out]. rewrite E. cbn [map]. solve_Permutation.
    + intros st' (g' & -> & I'). eapply keeps_weaken; [apply (IH (S pad) n_in _ to); [lia|exact I']|]. intros st' [H1 H2]. by split.
  - eapply keeps_weaken.
    + apply (IH (S pad) n_in _ to); [lia|]. eapply inv_move; try exact I; try done; try apply I.
      * unfold ins. cbn [open_in unlabelled_in with_open_in]. rewrite map_app. cbn [map]. unfold wkey at 3. cbn [wnode wpad]. solve_Permutation.
      * cbn [open_in with_open_in]. apply Forall_app. split; [apply I|]. apply Forall_singleton. unfold wkey. cbn [wnode wpad wmedia].
        rewrite (todo_in_media st _ _ (node, pad) I) by set_solver. done.
    + intros st' [H1 H2]. by split.
Qed.

Definition carried_ok st (carried : list (nat * nat * media_type)) : Prop :=
  Forall (fun c => media_out (descs st) (ckey c) = Some (snd c)) carried.

Lemma fill_carried_keeps f node inst n_in carried : forall pad st ti to, 
  inv st (pads_from node pad n_in ++ ti) (map ckey carried ++ to) -> carried_ok st carried ->
  keeps (fill_carried io_text f node inst n_in pad carried st) (fun r =>
    inv (snd r) (pads_from node (fst (fst r)) n_in ++ ti) (map ckey (snd (fst r)) ++ to) /\
    carried_ok (snd r) (snd (fst r)) /\ same st (snd r)).
Proof.
  induction carried as [|[[sn sp] m] carried IH]; intros pad st ti to I Hc; cbn [fill_carried].
  { cbn [keeps fst snd]. by split. }
  case Nat.ltb_spec; intros Hlt; [|by cbn [keeps fst snd]; split].
  apply Forall_cons in Hc as [Hm Hc]. case_bool_decide as Hw; [done|].
  rewrite pads_from_cons in I by lia.
  destruct (inv_connect st (pads_from node (S pad) n_in ++ ti) (map ckey carried ++ to) sn sp node pad m I Hm) as (i & g' & -> & I').
  - rewrite (todo_in_media st _ _ (node, pad) I) by set_solver. by f_equal.
  - eapply keeps_weaken; [apply (IH (S pad) (with_graph g' st) ti to I' Hc)|]. intros r (H1 & H2 & H3). by split.
Qed.

Lemma label_outputs_keeps node inst ls : forall pad n_out st, (pad + length ls <= n_out)%nat ->
  inv st [] (pads_from node pad n_out) ->
  keeps (label_outputs io_text node inst pad ls st) (fun st' =>
    inv st' [] (pads_from node (pad + length ls) n_out) /\ same st st').
Proof.
  induction ls as [|l ls IH]; intros pad n_out st Hle I; cbn [label_outputs length] in *.
  { rewrite Nat.add_0_r. by split. }
  rewrite pads_from_cons in I by lia. replace (pad + S (length ls))%nat with (S pad + length ls)%nat by lia.
  assert (Hm : media_out (descs st) (node, pad) = Some (output_media st node pad))
    by (rewrite (todo_out_media st _ _ (node, pad) I) by set_solver; done).
  destruct (take_label (lname l) (open_in st)) as [[dst rest]|] eqn:E.
  - apply take_label_perm in E as [E _]. pose proof (inv_open_in _ _ _ I) as Ho. rewrite E in Ho. apply Forall_cons in Ho as [Ho Hr].
    eapply keeps_bind.
    + apply (link_keeps _ _ _ _ _ _ [] (pads_from node (S pad) n_out)); [|exact Hm].
      eapply inv_move; try exact I; try done; try apply I.
      unfold ins. cbn [open_in unlabelled_in with_open_in]. rewrite E. cbn [map]. solve_Permutation.
    + intros st' (g' & -> & I'). eapply keeps_weaken; [apply (IH (S pad) n_out); [lia|exact I']|]. intros st' [H1 H2]. by split.
  - destruct (List.find _ _); [done|]. eapply keeps_weaken.
    + apply (IH (S pad) n_out); [lia|]. eapply inv_move; try exact I; try done; try apply I.
      * unfold outs. cbn [open_out unlabelled_out with_open_out]. rewrite map_app. cbn [map]. unfold wkey at 3. cbn [wnode wpad]. solve_Permutation.
      * cbn [open_out with_open_out]. apply Forall_app. split; [apply I|]. apply Forall_singleton. exact Hm.
    + intros st' [H1 H2]. by split.
Qed.

(** A new node's pads are free. *)
Lemma lookup_snoc_pads {A} (ns : list (gnode F)) (f : node_links -> list (option A)) nd k x :
  f (nlinks nd) = replicate k None ->
  (exists n, (ns ++ [nd]) !! fst x = Some n /\ f (nlinks n) !! snd x = Some None) <->
  (exists n, ns !! fst x = Some n /\ f (nlinks n) !! snd x = Some None) \/ x ∈ pads_from (length ns) 0 k.
Proof.
  intros Hf. unfold pads_from. rewrite Nat.sub_0_r. change (map (pair (length ns))) with (fmap (M := list) (B := pad_key) (pair (length ns))).
  rewrite list_elem_of_fmap. setoid_rewrite elem_of_seq. destruct x as [id p]; cbn [fst snd]. split.
  - intros (n & [Hn|[-> ->]]%lookup_snoc & Hp); [left; by exists n|]. right. rewrite Hf in Hp. apply lookup_replicate in Hp.
    exists p. split; [done|]. lia.
  - intros [(n & Hn & Hp)|(q & [= -> ->] & Hq)]; [exists n|exists nd]; (split; [apply lookup_snoc; auto|]); [done|].
    rewrite Hf. apply lookup_replicate. split; [done|lia].
Qed.

Lemma pads_from_NoDup node a b : NoDup (pads_from node a b).
Proof. unfold pads_from. apply (NoDup_fmap_2 (pair node)), NoDup_seq. Qed.

Lemma pads_from_new node n k (x : nat * nat) : x ∈ pads_from node 0 k -> (n <= node)%nat -> ~ (fst x < n)%nat.
Proof.
  unfold pads_from. change (map (pair node)) with (fmap (M := list) (B := pad_key) (pair node)). rewrite list_elem_of_fmap. intros (p & -> & _). cbn. lia.
Qed.

Lemma media_in_app ds ds' x m : media_in ds x = Some m -> media_in (ds ++ ds') x = Some m.
Proof.
  unfold media_in. destruct (ds !! fst x) as [d|] eqn:E; [|done]. by rewrite (lookup_app_l_Some _ _ _ _ E).
Qed.

Lemma media_out_app ds ds' x m : media_out ds x = Some m -> media_out (ds ++ ds') x = Some m.
Proof.
  unfold media_out. destruct (ds !! fst x) as [d|] eqn:E; [|done]. by rewrite (lookup_app_l_Some _ _ _ _ E).
Qed.

(** A node with the pads its descriptor shows. *)
Lemma push_kept k d f label fl g ds : kept g ds ->
  length (dinputs d) = length (ninputs f) -> length (doutputs d) = length (noutputs f) ->
  let g' := snd (push_node k d f label fl g) in
  kept g' (ds ++ [d]) /\
  (forall x, free_in g' x <-> free_in g x \/ x ∈ pads_from (length (gnodes g)) 0 (length (dinputs d))) /\
  (forall x, free_out g' x <-> free_out g x \/ x ∈ pads_from (length (gnodes g)) 0 (length (doutputs d))).
Proof.
  intros K Hi Ho. unfold push_node. cbn [snd]. split; [split; cbn [gnodes]|split].
  - change (Graph _ _ _ _ _ _ _ _ _) with (snd (push_node k d f label fl g)). apply built_node; [apply K|lia|lia].
  - rewrite map_app, (kept_descs _ _ K). done.
  - intros i n [Hn|[-> ->]]%lookup_snoc; [by apply (kept_in _ _ K i)|]. cbn. by rewrite length_replicate.
  - intros i n [Hn|[-> ->]]%lookup_snoc; [by apply (kept_out _ _ K i)|]. cbn. by rewrite length_replicate.
  - intros x. apply (lookup_snoc_pads _ inputs). cbn. by rewrite <- Hi.
  - intros x. apply (lookup_snoc_pads _ outputs). cbn. by rewrite <- Ho.
Qed.

Lemma lists_push l (f f' : pad_key -> Prop) (ns : list (gnode F)) k :
  lists l f -> (forall x, f x -> (fst x < length ns)%nat) ->
  (forall x, f' x <-> f x \/ x ∈ pads_from (length ns) 0 k) -> lists (l ++ pads_from (length ns) 0 k) f'.
Proof.
  intros Hl Hb Hf. apply (lists_app _ _ f); [done| |apply pads_from_NoDup|done].
  intros x Hx Hx'. exact (pads_from_new _ (length ns) _ x Hx (le_n _) (Hb x Hx')).
Qed.

Lemma free_in_below g x : free_in g x -> (fst x < length (gnodes g))%nat.
Proof. intros (n & Hn%lookup_lt_Some & _). done. Qed.
Lemma free_out_below g x : free_out g x -> (fst x < length (gnodes g))%nat.
Proof. intros (n & Hn%lookup_lt_Some & _). done. Qed.

Lemma add_keeps d fs fl st to info : inv st [] to ->
  length (dinputs d) = length (ninputs fs) -> length (doutputs d) = length (noutputs fs) ->
  iid info = length (gnodes (graph_of st)) ->
  inv (Building (snd (add d fs fl (graph_of st))) (infos st ++ [info]) (descs st ++ [d]) (open_out st) (open_in st)
         (unlabelled_in st) (unlabelled_out st) (instance_names st) (S (index st)))
    (pads_from (length (gnodes (graph_of st))) 0 (length (dinputs d)))
    (to ++ pads_from (length (gnodes (graph_of st))) 0 (length (doutputs d))).
Proof.
  intros [K1 K2 K3 K4 K5 K6 K7 K8 K9 K10] Hi Ho Hid. unfold add. set (lbl := if String.eqb _ _ then _ else _).
  destruct (push_kept KFilter d fs lbl (Some fl) _ _ K1 Hi Ho) as (Hk & Hfi & Hfo).
  split; cbn [graph_of infos descs open_in open_out unlabelled_in unlabelled_out]; rewrite ?app_nil_r in *.
  - exact Hk.
  - unfold ins. cbn [open_in unlabelled_in]. fold (ins st). by eapply lists_push; [exact K2|apply free_in_below|].
  - unfold outs. cbn [open_out unlabelled_out]. fold (outs st). rewrite app_assoc.
    by eapply lists_push; [exact K3|apply free_out_below|].
  - by eapply Forall_impl; [exact K4|intros p; apply media_in_app].
  - by eapply Forall_impl; [exact K5|intros p; apply media_out_app].
  - by eapply Forall_impl; [exact K6|intros p; apply media_in_app].
  - by eapply Forall_impl; [exact K7|intros p; apply media_out_app].
  - unfold push_node. cbn [snd glinks]. unfold ins. cbn [open_in unlabelled_in]. fold (ins st).
    rewrite sum_list_with_app, <- K8, length_app. unfold pads_from. rewrite length_map, length_seq. cbn. lia.
  - rewrite map_app, K9, length_app, seq_app. cbn. by rewrite Hid, <- K10.
  - unfold push_node. cbn [snd gnodes]. rewrite !length_app. cbn. lia.
Qed.

Definition created (d : filter_desc) : Prop := exists r fs fl, create reg r = Ok (d, fs, fl).

Lemma instantiate_keeps f inst st to : inv st [] to ->
  keeps (instantiate_filter reg f inst st) (fun r =>
    let '(id, st') := r in
    infos st' = infos st /\ (exists d, descs st' = descs st ++ [d] /\ created d) /\
    forall info, iid info = id ->
      inv (Building (graph_of st') (infos st' ++ [info]) (descs st') (open_out st') (open_in st')
             (unlabelled_in st') (unlabelled_out st') (instance_names st') (S (index st')))
        (pads_from id 0 (fst (counts st' id))) (to ++ pads_from id 0 (snd (counts st' id)))).
Proof.
  intros I. unfold instantiate_filter. destruct (contains reg (fname f)) eqn:Ec; [|by split]. cbn [negb].
  destruct (arguments f) as [args|e] eqn:Ea; cbn [mbind result_bind]; [|by eapply arguments_caused].
  destruct (create reg _) as [[[d fs] fl]|detail] eqn:Er; [|by eexists].
  case_bool_decide as Hl; cbn [negb].
  2: { cbn. do 4 eexists. split; [exact Er|]. split; [done|]. destruct (decide (length (dinputs d) = length (ninputs fs))); [right|by left]. tauto. }
  destruct Hl as [Hi Ho]. set (fs' := NodeFormats _ _ _ _).
  rewrite (surjective_pairing (add d fs' fl (graph_of st))). cbn [keeps descs infos graph_of open_out open_in unlabelled_in unlabelled_out instance_names index].
  split; [done|]. split; [exists d; split; [done|]; by do 3 eexists|]. intros info Hid.
  change (fst (add d fs' fl (graph_of st))) with (length (gnodes (graph_of st))) in *.
  unfold counts. cbn [descs]. assert (E : (descs st ++ [d]) !! length (gnodes (graph_of st)) = Some d)
    by (rewrite (inv_size _ _ _ I), lookup_app_r, Nat.sub_diag by lia; done).
  rewrite E. cbn [fst snd].
  by apply add_keeps.
Qed.

Lemma okey_open_of sp carried : map okey (map (open_of sp) carried) = map ckey carried.
Proof. rewrite map_map. apply map_ext. by intros [[n p] m]. Qed.

(** Carried outputs left open. *)
Lemma leave_out sp carried st ti to : inv st ti (map ckey carried ++ to) -> carried_ok st carried ->
  inv (with_unlabelled_out (unlabelled_out st ++ map (open_of sp) carried) st) ti to.
Proof.
  intros I Hc. eapply inv_move; try exact I; try done; try apply I.
  - unfold outs. cbn [open_out unlabelled_out with_unlabelled_out]. rewrite map_app, okey_open_of. solve_Permutation.
  - cbn [unlabelled_out with_unlabelled_out]. apply Forall_app. split; [apply I|]. apply Forall_map.
    eapply Forall_impl; [exact Hc|]. by intros [[n p] m].
Qed.

(** Input pads left open. *)
Lemma leave_in sp node a b st to : inv st (pads_from node a b) to ->
  inv (with_unlabelled_in (unlabelled_in st ++
         map (fun p => OpenPad None node p (input_media st node p) sp) (seq a (b - a))) st) [] to.
Proof.
  intros I. eapply inv_move; try exact I; try done; try apply I.
  - unfold ins. cbn [open_in unlabelled_in with_unlabelled_in]. rewrite map_app, map_map.
    change (map _ (seq a (b - a))) with (pads_from node a b). solve_Permutation.
  - cbn [unlabelled_in with_unlabelled_in]. apply Forall_app. split; [apply I|]. apply Forall_map, Forall_forall.
    intros p Hp. change (okey _) with (node, p). unfold compose. cbn [omedia].
    rewrite (todo_in_media st _ _ (node, p) I); [done|]. by apply (list_elem_of_fmap_2 (pair node)).
Qed.

Lemma build_filter_keeps f carried st : inv st [] (map ckey carried) -> carried_ok st carried ->
  keeps (build_filter io_text reg f carried st) (fun r =>
    inv (snd r) [] (map ckey (fst r)) /\ carried_ok (snd r) (fst r) /\
    (exists d, descs (snd r) = descs st ++ [d] /\ created d) /\
    map ifilter (infos (snd r)) = map ifilter (infos st) ++ [fname f]).
Proof.
  intros I Hc. unfold build_filter. destruct (_ && _); [done|]. set (inst := instance_name f (index st)).
  set (st0 := Building _ _ _ _ _ _ _ _ _).
  eapply keeps_bind; [apply (instantiate_keeps f inst st0 (map ckey carried)); by eapply inv_move; try apply I|].
  intros [node st1] (Hinf & (d & Hd & Hcr) & Hinv).
  specialize (Hinv (NodeInfo node inst (fname f) (fspan f)) eq_refl). destruct (counts st1 node) as [n_in n_out]. cbn [fst snd] in Hinv.
  match type of Hinv with inv ?s _ _ => set (st2 := s) in * end.
  case Nat.ltb_spec; intros Hin; [done|]. case Nat.ltb_spec; intros Hon; [done|].
  assert (Hc2 : carried_ok st2 carried).
  { eapply Forall_impl; [exact Hc|]. intros c Hm. change (descs st2) with (descs st1). rewrite Hd. by apply media_out_app. }
  eapply keeps_bind; [by apply (label_inputs_keeps node inst (finputs f) 0 n_in st2 (map ckey carried ++ pads_from node 0 n_out))|].
  intros st3 [I3 [Hd3 Hi3]]. rewrite <- (app_nil_r (pads_from node _ n_in)) in I3.
  eapply keeps_bind; [apply (fill_carried_keeps f node inst n_in carried _ st3 [] _ I3); unfold carried_ok; by rewrite Hd3|].
  intros [[pad rest] st4] (I4 & Hc4 & [Hd4 Hi4]). cbn [fst snd] in *. rewrite app_nil_r in I4.
  eapply keeps_bind; [apply (label_outputs_keeps node inst (foutputs f) 0 n_out); [lia|]; by apply leave_in, leave_out|].
  intros st5 [I5 [Hd5 Hi5]]. cbn [keeps fst snd]. split_and!.
  - eapply inv_move; try exact I5; try done; try apply I5. by rewrite map_map.
  - apply Forall_map, Forall_forall. intros p Hp. unfold compose, ckey. cbn [fst snd].
    rewrite (todo_out_media st5 _ _ (node, p) I5); [done|]. by apply (list_elem_of_fmap_2 (pair node)).
  - exists d. split; [|done]. rewrite Hd5. cbn [descs with_unlabelled_in with_unlabelled_out]. by rewrite Hd4, Hd3.
  - rewrite Hi5. cbn [infos with_unlabelled_in with_unlabelled_out]. rewrite Hi4, Hi3. cbn [infos st2].
    rewrite map_app, Hinf. done.
Qed.

Lemma build_filters_keeps fs : forall carried st, inv st [] (map ckey carried) -> carried_ok st carried ->
  keeps (build_filters io_text reg fs carried st) (fun r =>
    inv (snd r) [] (map ckey (fst r)) /\ carried_ok (snd r) (fst r) /\
    (exists ds, descs (snd r) = descs st ++ ds /\ Forall created ds) /\
    map ifilter (infos (snd r)) = map ifilter (infos st) ++ map fname fs).
Proof.
  induction fs as [|f fs IH]; intros carried st I Hc; cbn [build_filters].
  { cbn. split_and!; try done; [exists []|]; by rewrite app_nil_r. }
  eapply keeps_bind; [by apply build_filter_keeps|]. intros [c1 st1] (I1 & Hc1 & (d & Hd & Hcr) & Hn). cbn [fst snd] in *.
  eapply keeps_weaken; [by apply IH|]. intros [c2 st2] (I2 & Hc2 & (ds & Hd2 & Hcr2) & Hn2). cbn [fst snd] in *.
  split_and!; try done.
  - exists (d :: ds). rewrite Hd2, Hd, <- app_assoc. split; [done|]. by constructor.
  - rewrite Hn2, Hn, <- app_assoc. done.
Qed.

Lemma build_chains_keeps cs : forall st, inv st [] [] ->
  keeps (build_chains io_text reg cs st) (fun st' =>
    inv st' [] [] /\ (exists ds, descs st' = descs st ++ ds /\ Forall created ds) /\
    map ifilter (infos st') = map ifilter (infos st) ++ map fname (concat (map cfilters cs))).
Proof.
  induction cs as [|c cs IH]; intros st I; cbn [build_chains].
  { cbn. split_and!; try done; [exists []|]; by rewrite app_nil_r. }
  eapply keeps_bind; [apply build_filters_keeps; [done|by apply Forall_nil]|].
  intros [carried st1] (I1 & Hc1 & (ds & Hd & Hcr) & Hn). cbn [fst snd] in *.
  eapply keeps_weaken; [apply IH, leave_out; [by rewrite app_nil_r|done]|].
  intros st2 (I2 & (ds2 & Hd2 & Hcr2) & Hn2). cbn [descs infos with_unlabelled_out] in *. split_and!; try done.
  - exists (ds ++ ds2). rewrite Hd2, Hd, <- app_assoc. split; [done|]. by apply Forall_app.
  - rewrite Hn2, Hn, <- app_assoc. cbn [map concat]. by rewrite map_app.
Qed.

Lemma inv_new : inv (Building (P := P) (F := F) graph_new [] [] [] [] [] [] [] 0) [] [].
Proof.
  split; try done; try apply Forall_nil; [split; try done; by constructor|..].
  - split; [constructor|]. intros [id p]. cbn. split; [set_solver|]. by intros (n & Hn & _).
  - split; [constructor|]. intros [id p]. cbn. split; [set_solver|]. by intros (n & Hn & _).
Qed.

End steps.

(** ** The check for cycles *)

Section cycles.
Context {P F : Type} (g : graph P F) (Hg : graph_wf g) (Hsmall : Z.of_nat (length (glinks g)) < 2 ^ 64).
Local Abbreviation N := (length (gnodes g)).

Definition outs_from (i : nat) : list nat := filter (fun k => from g k = Some i) (seq 0 (length (glinks g))).

Lemma outs_from_spec i : NoDup (outs_from i) /\ forall k, k ∈ outs_from i <-> from g k = Some i.
Proof using Type.
  unfold outs_from. split; [apply NoDup_filter, NoDup_seq|]. intros k. rewrite list_elem_of_filter, (id_in g). split; [by intros [? _]|].
  intros H. split; [done|]. unfold from in H. destruct (glinks g !! k); [by eexists|done].
Qed.

(** The destinations of the links from a node. *)
Definition dests (i : nat) : list nat := omap (into g) (outs_from i).

Lemma dests_links i : dests i = map (fun l => pnode (dst l)) (filter (fun l => pnode (src l) = i) (glinks g)).
Proof using Type.
  unfold dests, outs_from.
  assert (Hgen : forall (ls : list (FilterLink.link P)) k,
    (forall j l, ls !! j = Some l -> glinks g !! (k + j)%nat = Some l) ->
    omap (into g) (filter (fun k => from g k = Some i) (seq k (length ls))) =
    map (fun l => pnode (dst l)) (filter (fun l => pnode (src l) = i) ls)).
  { induction ls as [|l ls IH]; intros k Hin; [done|]. cbn [length seq]. rewrite !filter_cons.
    assert (Hl : glinks g !! k = Some l) by (rewrite <- (Hin 0%nat l eq_refl); f_equal; lia).
    assert (IH' : omap (into g) (filter (fun k => from g k = Some i) (seq (S k) (length ls))) =
      map (fun l => pnode (dst l)) (filter (fun l => pnode (src l) = i) ls)).
    { apply IH. intros j l' Hj. rewrite <- (Hin (S j) l' Hj). f_equal. lia. }
    assert (Hf : from g k = Some (pnode (src l))) by (unfold from; by rewrite Hl).
    destruct (decide (pnode (src l) = i)) as [Heq|Hne].
    - rewrite decide_True by congruence. cbn [omap list_omap map]. unfold into at 1. rewrite Hl, <- IH'. done.
    - by rewrite decide_False by congruence. }
  apply Hgen. done.
Qed.

Lemma edges_of_spec :
  fst (edges_of g) = fold_left (fun ds (l : FilterLink.link P) => alter count_more (pnode (dst l)) ds) (glinks g) (replicate N 0) /\
  forall i, (i < N)%nat -> snd (edges_of g) !! i = Some (dests i).
Proof using Type.
  setoid_rewrite dests_links. unfold edges_of.
  assert (Hgen : forall (ls : list (FilterLink.link P)) (ds : list Z) (es : list (list nat)),
    let r := fold_left (fun '(indegree, edges) l =>
      (alter count_more (pnode (dst l)) indegree, alter (fun e => e ++ [pnode (dst l)]) (pnode (src l)) edges)) ls (ds, es) in
    fst r = fold_left (fun ds (l : FilterLink.link P) => alter count_more (pnode (dst l)) ds) ls ds /\
    forall i, snd r !! i = (fun e => e ++ map (fun l => pnode (dst l)) (filter (fun l => pnode (src l) = i) ls)) <$> es !! i).
  { induction ls as [|l ls IH]; intros ds es; cbn [fold_left].
    - split; [done|]. intros i. cbn. destruct (es !! i); cbn; by rewrite ?app_nil_r.
    - destruct (IH (alter count_more (pnode (dst l)) ds) (alter (fun e => e ++ [pnode (dst l)]) (pnode (src l)) es)) as [H1 H2].
      split; [exact H1|]. intros i. rewrite H2, filter_cons. destruct (decide (pnode (src l) = i)) as [->|Hne].
      + rewrite list_lookup_alter_eq. destruct (es !! i); [|done]. cbn [fmap option_fmap option_map map]. by rewrite <- app_assoc.
      + by rewrite list_lookup_alter_ne. }
  destruct (Hgen (glinks g) (replicate N 0) (replicate N [])) as [H1 H2]. split; [exact H1|].
  intros i Hi. rewrite H2, lookup_replicate_2 by done. done.
Qed.

(** Dropping the edges is releasing the links, while the counts last. *)
Lemma drop_release outs : forall indegree queue w,
  (forall d, (d < N)%nat -> indegree !! d = Some (w d)) -> (forall d, into_count g outs d <= w d < 2 ^ 64) ->
  (forall i, i ∈ outs -> is_Some (into g i)) ->
  fold_left drop_edge (omap (into g) outs) (indegree, queue) = fold_left (release (glinks g)) outs (indegree, queue).
Proof using Hg.
  induction outs as [|i outs IH]; intros indegree queue w Hdeg Hle Hsome; [done|].
  destruct (Hsome i ltac:(by left)) as [d0 Hi]. pose proof (into_node g Hg i d0 Hi) as Hd0.
  assert (Hcons : forall d, into_count g (i :: outs) d = (if decide (d = d0) then 1 else 0) + into_count g outs d).
  { intros d. unfold into_count. rewrite filter_cons, Hi.
    destruct (decide (Some d0 = Some d)), (decide (d = d0)); cbn [length]; try congruence; lia. }
  assert (Hnn : forall d, 0 <= into_count g outs d) by (intros; unfold into_count; lia).
  pose proof (Hle d0) as H0. rewrite Hcons, decide_True in H0 by done. pose proof (Hnn d0).
  cbn [omap list_omap]. rewrite Hi. cbn [fold_left]. unfold release at 2, drop_edge at 2.
  unfold into in Hi. destruct (glinks g !! i) as [l|]; [|done]. injection Hi as ->. rewrite (Hdeg d0 Hd0).
  assert (E : count_down (w d0) = count_less (w d0)).
  { unfold count_down, count_less, sat_u. rewrite wrap_u_id by lia. lia. }
  rewrite E. assert (Hv : count_less (w d0) = w d0 - 1) by (rewrite <- E; unfold count_down; apply wrap_u_id; lia).
  apply (IH _ _ (fun d => w d - if decide (d = d0) then 1 else 0)).
  - intros d Hd. rewrite Hv. destruct (decide (d = d0)) as [->|Hne].
    + apply list_lookup_insert_eq. eapply lookup_lt_Some. by apply Hdeg.
    + rewrite list_lookup_insert_ne, Hdeg by done. f_equal. lia.
  - intros d. pose proof (Hle d) as Hd. rewrite Hcons in Hd. destruct (decide (d = d0)); lia.
  - intros j Hj. apply Hsome. by right.
Qed.

Lemma acyclic_loop_spec fuel edges : (forall i, (i < N)%nat -> edges !! i = Some (dests i)) ->
  forall indegree queue order, kahn g indegree queue order -> (N <= fuel + length order)%nat ->
  exists order' indegree', acyclic_loop fuel edges indegree queue (length order) = Some (length order', indegree') /\
    kahn g indegree' [] order'.
Proof using Hg Hsmall.
  intros He. induction fuel as [|fuel IH]; intros indegree queue order K Hf; cbn [acyclic_loop];
    (destruct (last queue) as [i|] eqn:El; [|apply last_None in El as ->; by exists order, indegree]);
    apply last_Some in El as [rest ->].
  - pose proof (NoDup_below _ N (kahn_nodup _ _ _ _ K) (kahn_below _ _ _ _ K)) as Hlen.
    rewrite !length_app in Hlen. cbn in Hlen. lia.
  - apply (kahn_perm g _ _ (i :: rest)) in K; [|by rewrite Permutation_app_comm].
    pose proof (kahn_below _ _ _ _ K i ltac:(set_solver)) as Hi.
    assert (Hid : i ∉ order).
    { pose proof (kahn_nodup _ _ _ _ K) as Hd. apply NoDup_app in Hd as (_ & Hx & _). intros Hio. apply (Hx i Hio). by left. }
    destruct (outs_from_spec i) as [Hnd Hout]. rewrite removelast_last, (He i Hi). cbn [from_option].
    pose proof (kahn_step_outs g Hg Hsmall indegree i rest order (outs_from i) K Hnd Hout) as K'.
    change (id (dests i)) with (omap (into g) (outs_from i)). rewrite (drop_release _ _ _ (waiting g order)); [|apply (kahn_degree _ _ _ _ K)|..].
    + destruct (fold_left (release (glinks g)) _ _) as [indegree' queue'].
      replace (S (length order)) with (length (order ++ [i])) by (rewrite length_app; cbn; lia).
      apply (IH _ _ _ K'). rewrite length_app. cbn. lia.
    + intros d. pose proof (waiting_range g Hsmall order d). pose proof (waiting_range g Hsmall (order ++ [i]) d).
      rewrite (waiting_split g Hg order i (outs_from i) d Hnd Hout Hid) in *. lia.
    + intros k Hk. apply Hout in Hk. unfold from, into in *. destruct (glinks g !! k); [by eexists|done].
Qed.

(** What is placed comes after all that leads to it. *)
Lemma placed_after indegree order a b : kahn g indegree [] order -> tc (feeds g) a b ->
  forall o1 o2, order = o1 ++ b :: o2 -> a ∈ o1.
Proof using Type.
  intros K. assert (Hone : forall a b, feeds g a b -> forall o1 o2, order = o1 ++ b :: o2 -> a ∈ o1).
  { intros x y (l & [i Hl]%list_elem_of_lookup & <- & <-) o1 o2.
    apply (kahn_before _ _ _ _ K i); [unfold from|unfold into]; by rewrite Hl. }
  induction 1 as [a b H|a c b H Hcb IH]; intros o1 o2 E; [by eapply Hone|].
  specialize (IH o1 o2 E). apply list_elem_of_split in IH as (p & q & ->).
  rewrite <- app_assoc in E. cbn in E. apply elem_of_app. left. exact (Hone a c H _ _ E).
Qed.

Lemma circle_not_placed indegree order x : kahn g indegree [] order -> tc (feeds g) x x -> x ∉ order.
Proof using Type.
  intros K Ht (o1 & o2 & E)%list_elem_of_split. pose proof (placed_after _ _ x x K Ht o1 o2 E) as Hx.
  pose proof (kahn_nodup _ _ _ _ K) as Hd. rewrite app_nil_r, E in Hd. apply NoDup_app in Hd as (_ & Hd & _).
  apply (Hd x Hx). by left.
Qed.

Lemma feeds_below a b : feeds g a b -> (b < N)%nat.
Proof using Hg.
  intros (l & [i Hl]%list_elem_of_lookup & _ & <-). apply (into_node g Hg i). unfold into. by rewrite Hl.
Qed.

Lemma circle_below x y : tc (feeds g) x y -> (y < N)%nat.
Proof using Hg. induction 1; [by eapply feeds_below|done]. Qed.

Lemma check_acyclic_exact nodes : exists r, check_acyclic g nodes = Some r /\
  match r with
  | Ok _ => forall x, ~ tc (feeds g) x x
  | Err e => exists named, ekind e = Cycle named /\ (exists x, tc (feeds g) x x) /\
      forall x n, tc (feeds g) x x -> nodes !! x = Some n -> iinstance n ∈ named
  end.
Proof using Hg Hsmall.
  unfold check_acyclic. destruct edges_of_spec as [Hi He]. destruct (edges_of g) as [indegree edges]. cbn [fst snd] in *.
  set (queue := List.filter _ _).
  assert (K : kahn g indegree queue []).
  { apply (kahn_start_at g Hg Hsmall count_more); [|done|..].
    - intros k Hk. unfold count_more, sat_u. lia.
    - apply NoDup_ListNoDup, List.NoDup_filter, NoDup_ListNoDup, NoDup_seq.
    - intros d. unfold queue. rewrite list_elem_of_In, filter_In, <- list_elem_of_In, elem_of_seq, bool_decide_eq_true.
      split; intros [? ?]; split; try done; lia. }
  destruct (acyclic_loop_spec N edges He indegree queue [] K) as (order & ind & E & K'); [cbn; lia|].
  cbn [length] in E. rewrite E. cbn [mbind option_bind].
  eexists. split; [reflexivity|]. destruct (Nat.eqb_spec (length order) N) as [Hn|Hn].
  - intros x Hx. apply (circle_not_placed _ _ x K' Hx). pose proof (kahn_nodup _ _ _ _ K') as Hd. rewrite app_nil_r in Hd.
    assert (Hp : Permutation order (seq 0 N)).
    { apply submseteq_length_Permutation; [|by rewrite length_seq, Hn]. apply NoDup_submseteq; [done|].
      intros y Hy. apply elem_of_seq. pose proof (kahn_below _ _ _ _ K' y). rewrite app_nil_r in *. naive_solver lia. }
    rewrite Hp. apply elem_of_seq. apply circle_below in Hx. lia.
  - eexists. split; [reflexivity|]. split; [by eapply no_progress_cycle|]. intros x n Hx Hnx.
    apply list_elem_of_omap. exists x. rewrite Hnx. split; [|done].
    pose proof (circle_below _ _ Hx) as Hlt.
    rewrite list_elem_of_In, filter_In, <- list_elem_of_In, elem_of_seq. split; [lia|].
    rewrite (kahn_degree _ _ _ _ K' x Hlt). cbn [default from_option id]. apply Z.ltb_lt.
    pose proof (waiting_range g Hsmall order x). pose proof (kahn_ready _ _ _ _ K' x Hlt) as Hr. rewrite app_nil_r in Hr.
    enough (waiting g order x <> 0) by lia. rewrite <- Hr. by eapply circle_not_placed.
Qed.

End cycles.

(** ** The result of building *)

Section result.
Context {P F : Type} (io_text : Z -> rstr) (reg : registry F).

Definition filters_of (a : ast) : list filter_spec := concat (map cfilters (chains a)).

(** What a graph leaves open is listed: each free pad once, with its medium. *)
Definition accounted (b : built_graph P F) : Prop :=
  let g := bgraph b in
  kept g (map ndesc (gnodes g)) /\
  lists (map okey (open_inputs b)) (free_in g) /\ lists (map okey (open_outputs b)) (free_out g) /\
  Forall (fun o => pad_media g (onode o) Input (opad o) = Ok (omedia o)) (open_inputs b) /\
  Forall (fun o => pad_media g (onode o) Output (opad o) = Ok (omedia o)) (open_outputs b).

(** No circle, the filters written as nodes, and every pad accounted for. *)
Definition complete (a : ast) (b : built_graph P F) : Prop :=
  let g := bgraph b in
  (forall x, ~ tc (feeds g) x x) /\
  map iid (bnodes b) = seq 0 (length (gnodes g)) /\ map ifilter (bnodes b) = map fname (filters_of a) /\
  accounted b.

Definition circular (a : ast) (e : graph_error) : Prop :=
  exists st named, build_chains io_text reg (chains a) (Building graph_new [] [] [] [] [] [] [] 0) = Ok st /\
    ekind e = Cycle named /\ (exists x, tc (feeds (graph_of (P := P) st)) x x) /\
    forall x n, tc (feeds (graph_of st)) x x -> infos st !! x = Some n -> iinstance n ∈ named.

Lemma pad_media_in (g : graph P F) ds id p m : kept g ds ->
  pad_media g id Input p = Ok m <-> media_in ds (id, p) = Some m.
Proof.
  intros K. unfold pad_media, get_node, media_in. cbn [fst snd]. destruct (gnodes g !! id) as [n|] eqn:En.
  - rewrite (kept_desc g ds _ _ K En). cbn. destruct (dinputs (ndesc n) !! p); cbn; split; congruence.
  - apply lookup_ge_None in En. rewrite (lookup_ge_None_2 ds); [done|]. by rewrite <- (kept_descs _ _ K), length_map.
Qed.

Lemma pad_media_out (g : graph P F) ds id p m : kept g ds ->
  pad_media g id Output p = Ok m <-> media_out ds (id, p) = Some m.
Proof.
  intros K. unfold pad_media, get_node, media_out. cbn [fst snd]. destruct (gnodes g !! id) as [n|] eqn:En.
  - rewrite (kept_desc g ds _ _ K En). cbn. destruct (doutputs (ndesc n) !! p); cbn; split; congruence.
  - apply lookup_ge_None in En. rewrite (lookup_ge_None_2 ds); [done|]. by rewrite <- (kept_descs _ _ K), length_map.
Qed.

Lemma pads_media (g : graph P F) ds b : kept g ds -> bgraph b = g ->
  Forall (fun o => media_in ds (okey o) = Some (omedia o)) (open_inputs b) ->
  Forall (fun o => media_out ds (okey o) = Some (omedia o)) (open_outputs b) ->
  lists (map okey (open_inputs b)) (free_in g) -> lists (map okey (open_outputs b)) (free_out g) -> accounted b.
Proof.
  intros K Eg Hi Ho Li Lo. unfold accounted. rewrite Eg. split_and!; try done; [by rewrite (kept_descs _ _ K)|..].
  - eapply Forall_impl; [exact Hi|]. intros o. by apply pad_media_in.
  - eapply Forall_impl; [exact Ho|]. intros o. by apply pad_media_out.
Qed.

Lemma sum_bound ds : Forall (fun d => Z.of_nat (length (dinputs d)) < 2 ^ 32) ds -> 
  Z.of_nat (sum_list_with (fun d => length (dinputs d)) ds) <= Z.of_nat (length ds) * 2 ^ 32.
Proof. induction 1; cbn [sum_list_with length]; lia. Qed.

Lemma okey_pending ps : map okey (map pending_pad ps) = map wkey ps.
Proof. rewrite map_map. by apply map_ext. Qed.


(** *** Attaching ends *)

Lemma declare_kept id format (g : graph P F) ds : kept g ds ->
  let g' := on_node id (set_declared (Some format)) g in
  kept g' ds /\ (forall x, free_in g' x <-> free_in g x) /\ (forall x, free_out g' x <-> free_out g x).
Proof.
  intros [K1 K2 K3 K4]. split_and!; [split|..].
  - by apply built_declare.
  - rewrite <- K2. change (map ndesc) with (fmap (M := list) (ndesc (F := F))). apply list_eq. intros x.
    rewrite !list_lookup_fmap, declare_lookup. destruct (gnodes g !! x); [|done]. cbn. by destruct (decide _).
  - intros x n' (n & Hn & -> & ->)%declare_node. by apply (K3 x).
  - intros x n' (n & Hn & -> & ->)%declare_node. by apply (K4 x).
  - intros x. unfold free_in. rewrite declare_lookup. split.
    + intros (n' & (n & Hn & ->)%fmap_Some & Hp). exists n. split; [done|]. by destruct (decide _).
    + intros (n & -> & Hp). eexists. split; [reflexivity|]. by destruct (decide _).
  - intros x. unfold free_out. rewrite declare_lookup. split.
    + intros (n' & (n & Hn & ->)%fmap_Some & Hp). exists n. split; [done|]. by destruct (decide _).
    + intros (n & -> & Hp). eexists. split; [reflexivity|]. by destruct (decide _).
Qed.

Lemma lists_delete k (os : list open_pad) o f f' : lists (map okey os) f -> os !! k = Some o ->
  (forall x, f' x <-> f x /\ x <> okey o) -> lists (map okey (delete k os)) f'.
Proof.
  intros L Ho Hf. apply (lists_remove (okey o) _ f); [|exact Hf]. revert L. apply lists_perm.
  change (okey o :: map okey (delete k os)) with (map okey (o :: delete k os)). by rewrite <- (delete_Permutation os k o).
Qed.

Lemma lists_same l (f f' : nat * nat -> Prop) : lists l f -> (forall x, f' x <-> f x) -> lists l f'.
Proof. intros [Hd Hi] Hf. split; [done|]. intros x. by rewrite Hf. Qed.

Lemma end_pads m : m = Video \/ m = Audio -> pads_for m = [Pad "default" m].
Proof. by intros [-> | ->]. Qed.

(** The one pad of a new end. *)
Lemma fresh_pad (g : graph P F) (f : nat * nat -> Prop) x : (forall y, f y -> (fst y < length (gnodes g))%nat) ->
  (f x \/ x ∈ pads_from (length (gnodes g)) 0 1) /\ x <> (length (gnodes g), 0%nat) <-> f x.
Proof.
  intros Hb. unfold pads_from. cbn. rewrite list_elem_of_singleton. split; [tauto|]. intros Hx. split; [by left|].
  intros ->. specialize (Hb _ Hx). cbn in Hb. lia.
Qed.

Lemma source_connects (g : graph P F) ds x m fs label format : kept g ds -> m = Video \/ m = Audio ->
  ninputs fs = [] -> length (noutputs fs) = 1%nat -> free_in g x -> media_in ds x = Some m ->
  let id := length (gnodes g) in
  let g1 := snd (add_source label m fs g) in
  let g2 := on_node id (set_declared (Some format)) g1 in
  set_source_format id format g1 = (Ok tt, g2) /\
  exists i g3, connect id 0 (fst x) (snd x) g2 = (Ok i, g3) /\ kept g3 (ds ++ [source_desc m]) /\
    (forall y, free_in g3 y <-> free_in g y /\ y <> x) /\ (forall y, free_out g3 y <-> free_out g y).
Proof.
  intros K Hm Hfi Hfo Hx Hmx id g1 g2.
  destruct (push_kept KSource (source_desc m) fs label None g ds K) as (K1 & I1 & O1).
  { cbn. by rewrite Hfi. } { cbn. by rewrite (end_pads _ Hm), Hfo. }
  change (snd (push_node _ _ _ _ _ _)) with g1 in *. fold id in I1, O1. cbn [dinputs doutputs source_desc] in I1, O1. rewrite (end_pads m Hm) in O1.
  cbn [length] in I1, O1.
  destruct (declare_kept id format g1 _ K1) as (K2 & I2 & O2). fold g2 in K2, I2, O2. split.
  - unfold set_source_format, get_node, lift, throw, put, mbind, gm_bind.
    assert (E : exists n, gnodes g1 !! id = Some n /\ nkind n = KSource).
    { eexists. split; [by apply list_lookup_middle|done]. }
    destruct E as (n & -> & Hn). cbn [ok_or]. by rewrite bool_decide_eq_false_2 by (rewrite Hn; tauto).
  - destruct x as [d dp]. destruct (connect_free g2 (ds ++ [source_desc m]) id 0 d dp m K2) as (i & g3 & Hc & K3 & _ & I3 & O3).
    + apply O2, O1. right. by left.
    + apply I2, I1. by left.
    + unfold media_out. cbn [fst snd]. rewrite list_lookup_middle by (rewrite <- (kept_descs _ _ K), length_map; done).
      cbn. by rewrite (end_pads _ Hm).
    + by apply media_in_app.
    + exists i, g3. split_and!; [exact Hc|exact K3|..].
      * intros y. rewrite I3, I2, I1. unfold pads_from. cbn. set_solver.
      * intros y. rewrite O3, O2, O1. apply (fresh_pad g (free_out g)). apply free_out_below.
Qed.

Lemma sink_connects (g : graph P F) ds x m fs label : kept g ds -> m = Video \/ m = Audio ->
  length (ninputs fs) = 1%nat -> noutputs fs = [] -> free_out g x -> media_out ds x = Some m ->
  let id := length (gnodes g) in
  let g1 := snd (add_sink label m fs g) in
  exists i g2, connect (fst x) (snd x) id 0 g1 = (Ok i, g2) /\ kept g2 (ds ++ [sink_desc m]) /\
    (forall y, free_in g2 y <-> free_in g y) /\ (forall y, free_out g2 y <-> free_out g y /\ y <> x).
Proof.
  intros K Hm Hfi Hfo Hx Hmx id g1.
  destruct (push_kept KSink (sink_desc m) fs label None g ds K) as (K1 & I1 & O1).
  { cbn. by rewrite (end_pads _ Hm), Hfi. } { cbn. by rewrite Hfo. }
  change (snd (push_node _ _ _ _ _ _)) with g1 in *. fold id in I1, O1. cbn [dinputs doutputs sink_desc] in I1, O1. rewrite (end_pads m Hm) in I1.
  cbn [length] in I1, O1. destruct x as [s sp].
  destruct (connect_free g1 (ds ++ [sink_desc m]) s sp id 0 m K1) as (i & g2 & Hc & K2 & _ & I2 & O2).
  - apply O1. by left.
  - apply I1. right. by left.
  - by apply media_out_app.
  - unfold media_in. cbn [fst snd]. rewrite list_lookup_middle by (rewrite <- (kept_descs _ _ K), length_map; done).
    cbn. by rewrite (end_pads _ Hm).
  - exists i, g2. split_and!; [exact Hc|exact K2|..].
    + intros y. rewrite I2, I1. apply (fresh_pad g (free_in g)). apply free_in_below.
    + intros y. rewrite O2, O1. unfold pads_from. cbn. set_solver.
Qed.

(** Attaching a buffer end closes a pad and leaves the rest accounted for.
    For a video or audio pad among those left open, and formats with the one pad
    of a buffer, [attach_source] and [attach_sink] succeed: the new node is
    connected to that pad, exactly that entry leaves the list, and the two lists
    still hold every pad without a link once, with its medium. *)
Theorem attach_closes (b : built_graph P F) k open fs format : accounted b ->
  omedia open = Video \/ omedia open = Audio ->
  (open_inputs b !! k = Some open -> ninputs fs = [] -> length (noutputs fs) = 1%nat ->
    exists b', attach_source k fs format b = (Ok (length (gnodes (bgraph b))), b') /\ accounted b' /\
      open_inputs b' = delete k (open_inputs b) /\ open_outputs b' = open_outputs b) /\
  (open_outputs b !! k = Some open -> length (ninputs fs) = 1%nat -> noutputs fs = [] ->
    exists b', attach_sink k fs b = (Ok (length (gnodes (bgraph b))), b') /\ accounted b' /\
      open_inputs b' = open_inputs b /\ open_outputs b' = delete k (open_outputs b)).
Proof.
  intros (K & Li & Lo & Fi & Fo) Hm. set (ds := map ndesc (gnodes (bgraph b))) in *.
  assert (Mi : Forall (fun o => media_in ds (okey o) = Some (omedia o)) (open_inputs b))
    by (eapply Forall_impl; [exact Fi|]; intros o; by apply pad_media_in).
  assert (Mo : Forall (fun o => media_out ds (okey o) = Some (omedia o)) (open_outputs b))
    by (eapply Forall_impl; [exact Fo|]; intros o; by apply pad_media_out).
  assert (Grow : forall d, Forall (fun o => media_in (ds ++ [d]) (okey o) = Some (omedia o)) (open_inputs b) /\
    Forall (fun o => media_out (ds ++ [d]) (okey o) = Some (omedia o)) (open_outputs b)).
  { intros d. split; (eapply Forall_impl; [eassumption|]); intros o; [apply media_in_app|apply media_out_app]. }
  split; intros Hk Hfi Hfo; pose proof (list_elem_of_lookup_2 _ _ _ Hk) as Hin.
  - assert (Hx : free_in (bgraph b) (okey open)) by (apply Li; by apply (list_elem_of_fmap_2 okey)).
    assert (Hmx : media_in ds (okey open) = Some (omedia open)) by (by eapply Forall_forall in Mi).
    destruct (source_connects (bgraph b) ds (okey open) (omedia open) fs (default "in"%string (to_string <$> olabel open)) format
      K Hm Hfi Hfo Hx Hmx) as (Es & i & g3 & Ec & K3 & I3 & O3).
    unfold attach_source. rewrite Hk. rewrite (surjective_pairing (add_source _ _ _ _)).
    change (fst (add_source _ _ _ _)) with (length (gnodes (bgraph b))). rewrite Es. cbn [okey fst snd] in Ec. rewrite Ec.
    eexists. split; [reflexivity|]. split; [|done]. destruct (Grow (source_desc (omedia open))) as [Gi Go].
    apply (pads_media g3 _ _ K3); cbn [bgraph open_inputs open_outputs]; [done|by apply Forall_delete|done|..].
    + by eapply lists_delete.
    + by eapply lists_same.
  - assert (Hx : free_out (bgraph b) (okey open)) by (apply Lo; by apply (list_elem_of_fmap_2 okey)).
    assert (Hmx : media_out ds (okey open) = Some (omedia open)) by (by eapply Forall_forall in Mo).
    destruct (sink_connects (bgraph b) ds (okey open) (omedia open) fs (default "out"%string (to_string <$> olabel open))
      K Hm Hfi Hfo Hx Hmx) as (i & g3 & Ec & K3 & I3 & O3).
    unfold attach_sink. rewrite Hk. rewrite (surjective_pairing (add_sink _ _ _ _)).
    change (fst (add_sink _ _ _ _)) with (length (gnodes (bgraph b))). cbn [okey fst snd] in Ec. rewrite Ec.
    eexists. split; [reflexivity|]. split; [|done]. destruct (Grow (sink_desc (omedia open))) as [Gi Go].
    apply (pads_media g3 _ _ K3); cbn [bgraph open_inputs open_outputs]; [done|done|by apply Forall_delete|..].
    + by eapply lists_same.
    + by eapply lists_delete.
Qed.

End result.

(** ** A small registry *)

Definition video_pad : pad := Pad "default" Video.
Definition shape (i o : nat) : filter_desc * node_formats * unit :=
  (FilterDesc "toy" (replicate i video_pad) (replicate o video_pad),
   NodeFormats (replicate i set_default) (replicate o set_default) [] "", tt).

Definition toy_names : list rstr := [str "null"; str "color"; str "overlay"; str "split"].
Definition toy_registry : registry unit :=
  Registry toy_names (default_contains toy_names) (fun r =>
    if bool_decide (rname r = str "null") then Ok (shape 1 1)
    else if bool_decide (rname r = str "color") then Ok (shape 0 1)
    else if bool_decide (rname r = str "overlay") then Ok (shape 2 1)
    else if bool_decide (rname r = str "split") then Ok (shape 1 2)
    else Err (str "no such filter")).

Definition toy_build (s : string) : option (result graph_error (built_graph unit unit)) :=
  parse_and_build (fun _ => []) toy_registry (str s).

(** The links of a graph, and its open pads. *)
Definition wires (r : option (result graph_error (built_graph unit unit))) :=
  match r with
  | Some (Ok b) => Some (map (fun l => (pnode (src l), ppad (src l), (pnode (dst l), ppad (dst l)))) (glinks (bgraph b)),
                         map okey (open_inputs b), map okey (open_outputs b))
  | _ => None
  end.

(** The labelled stream takes the first pad of the overlay, the carried one the second. *)
Example labels_before_carried : wires (toy_build "color[x];color,[x]overlay") =
  Some ([(0, 0, (2, 0)); (1, 0, (2, 1))], [], [(2, 0)])%nat.
Proof. vm_compute. reflexivity. Qed.

(** A label may be read before it is written; what nothing writes stays open. *)
Example forward_reference : wires (toy_build "[a]null[out];[0:v]null[a]") =
  Some ([(1, 0, (0, 0))], [(1, 0)], [(0, 0)])%nat.
Proof. vm_compute. reflexivity. Qed.

(** The same tag on filters of two names is accepted. *)
Example one_tag_two_filters : wires (toy_build "null@a,split@a") =
  Some ([(0, 0, (1, 0))], [(0, 0)], [(1, 0); (1, 1)])%nat.
Proof. vm_compute. reflexivity. Qed.

(** A circle is reported at the first filter of the description, which need not
    be part of it. *)
Example cycle_span_is_first : toy_build "color;[a]null[a]" =
  Some (Err (GraphError (Cycle [str "Parsed_null_1"]) (Span 0 5))).
Proof. vm_compute. reflexivity. Qed.

Definition toy_ast : ast :=
  match parse (str "[in]split[a],[a]overlay;null") with Some (Ok a) => a | _ => Ast None [] [] end.

Lemma toy_small r d fs fl : create toy_registry r = Ok (d, fs, fl) -> Z.of_nat (length (dinputs d)) < 2 ^ 32.
Proof. cbn [create toy_registry]. repeat case_bool_decide; intros [= <- <- <-]; vm_compute; reflexivity. Qed.


Definition ends_b : built_graph unit unit :=
  match build (P := unit) (fun _ => []) toy_registry toy_ast with
  | Some (Ok b) => b
  | _ => BuiltGraph graph_new [] [] [] [] []
  end.

Lemma ends_accounted : accounted ends_b.
Proof.
  pose proof (build_chains_keeps (fun _ => []) toy_registry (chains toy_ast) _ (inv_new (P := unit))) as Hk.
  destruct (build_chains (fun _ => []) toy_registry (chains toy_ast) _) as [st|e] eqn:E; [|vm_compute in E; discriminate E].
  destruct Hk as (I & _ & _). pose proof (inv_in _ _ _ I) as Hi. pose proof (inv_out _ _ _ I) as Ho. rewrite app_nil_r in Hi, Ho.
  assert (Eb : ends_b = BuiltGraph (graph_of st) (infos st) (map pending_pad (open_in st) ++ unlabelled_in st)
            (map pending_pad (open_out st) ++ unlabelled_out st) [] []).
  { vm_compute in E. injection E as <-. vm_compute. reflexivity. }
  rewrite Eb. clear E Eb.
  apply (pads_media (graph_of st) (descs st) _ (inv_kept _ _ _ I)); cbn [bgraph open_inputs open_outputs];
      rewrite ?map_app, ?okey_pending; try done; apply Forall_app; split; try apply Forall_map; apply I.
Qed.

Lemma attach_closes_witness :
  exists b', attach_source 0 src_formats clock ends_b = (Ok 3%nat, b') /\
    accounted b' /\ map okey (open_inputs b') = [(2, 0)]%nat /\ length (open_outputs b') = 2%nat.
Proof.
  assert (H : exists open, open_inputs ends_b !! 0%nat = Some open /\ omedia open = Video).
  { vm_compute. eexists. split; reflexivity. }
  destruct H as (open & Hk & Hm).
  destruct (proj1 (attach_closes ends_b 0 open src_formats clock
    ends_accounted (or_introl Hm)) Hk eq_refl eq_refl) as (b' & E & Ha & Hi & Ho).
  exists b'. split; [exact E|]. split; [exact Ha|]. rewrite Hi, Ho. vm_compute. split; reflexivity.
Defined.
