(* ===== verification/OggPage.v ===== *)
(** * OggPage: the checksum and the pages of Ogg

    [src/crates/format/vaco-demux-ogg/src/crc.rs] and [page.rs]: the table-driven
    CRC-32 of RFC 3533, the page header with its segment table, and the runs of
    lacing values a table describes. Nothing here reads or allocates: the pages
    are cut by [OggDemux] and made by [OggMux]. *)

From Stdlib Require Import ZArith Lia.
From stdpp Require Import prelude strings.
From S2P Require Import Prelude Bits Error.

(** ** The checksum *)

Definition POLY : Z := 79764919.
Definition INIT : Z := 0.

(** One turn of the loop of [table_entry]. *)
Definition shift_step (crc : Z) : Z :=
  if negb (Z.land crc 2147483648 =? 0) then Z.lxor (wrap_u 32 (Z.shiftl crc 1)) POLY
  else wrap_u 32 (Z.shiftl crc 1).

Definition table_entry (byte : Z) : Z := Nat.iter 8 shift_step (Z.shiftl byte 24).

Definition build_table : list Z := map (fun i => table_entry (Z.of_nat i)) (seq 0 256).

Definition TABLE : list Z := Eval vm_compute in build_table.

Definition crc_step (crc b : Z) : Z :=
  let idx := Z.lxor (wrap_u 8 (Z.shiftr crc 24)) b in
  Z.lxor (wrap_u 32 (Z.shiftl crc 8)) (default 0 (TABLE !! Z.to_nat idx)).

Definition crc32_update (crc : Z) (data : list Z) : Z := fold_left crc_step data crc.

Definition crc32 (data : list Z) : Z := crc32_update INIT data.

(** ** Pages *)

Definition CAPTURE_PATTERN : list Z := [79; 103; 103; 83].
Definition FIXED_HEADER_LEN : Z := 27.
Definition CHECKSUM_OFFSET : Z := 22.
Definition MAX_SEGMENTS : Z := 255.
Definition CONTINUATION_VALUE : Z := 255.
Definition MAX_BODY_LEN : Z := MAX_SEGMENTS * CONTINUATION_VALUE.
Definition MAX_PAGE_LEN : Z := FIXED_HEADER_LEN + MAX_SEGMENTS + MAX_BODY_LEN.
Definition SUPPORTED_VERSION : Z := 0.
Definition GRANULE_UNSET : Z := -1.

(** [OggHeaderFlags] as bits. *)
Definition CONTINUED : Z := 1.
Definition BOS : Z := 2.
Definition EOS : Z := 4.
Definition from_bits_truncate (b : Z) : Z := Z.land b 7.
Definition contains (flags f : Z) : bool := Z.land flags f =? f.

Record page_header : Type := OggPageHeader {
  version : Z; hflags : Z; granule_position : Z; serial : Z; sequence : Z; checksum : Z; segments : list Z }.

Definition granule (h : page_header) : option Z :=
  if granule_position h =? GRANULE_UNSET then None else Some (granule_position h).

Definition body_len (segments : list Z) : Z := fold_right Z.add 0 segments.
Definition total_len (h : page_header) : Z := FIXED_HEADER_LEN + zlen (segments h) + body_len (segments h).

Definition parse_header (data : list Z) : result error (page_header * Z) :=
  fixed ← ok_or (get_range data 0 FIXED_HEADER_LEN) UnexpectedEof;
  capture ← ok_or (get_range fixed 0 4) UnexpectedEof;
  if bool_decide (capture <> CAPTURE_PATTERN) then Err (InvalidData "not an Ogg page: bad capture pattern")
  else
    version ← ok_or (fixed !! 4%nat) UnexpectedEof;
    if negb (version =? SUPPORTED_VERSION) then Err (Unsupported "Ogg stream structure version")
    else
      flags ← ok_or (fixed !! 5%nat) UnexpectedEof;
      granule ← ok_or (get_range fixed 6 14) UnexpectedEof;
      serial ← ok_or (get_range fixed 14 18) UnexpectedEof;
      sequence ← ok_or (get_range fixed 18 22) UnexpectedEof;
      checksum ← ok_or (get_range fixed CHECKSUM_OFFSET (CHECKSUM_OFFSET + 4)) UnexpectedEof;
      n ← ok_or (fixed !! 26%nat) UnexpectedEof;
      let table_end := FIXED_HEADER_LEN + n in
      segments ← ok_or (get_range data FIXED_HEADER_LEN table_end) UnexpectedEof;
      Ok (OggPageHeader version (from_bits_truncate flags) (wrap_i 64 (le_value granule)) (le_value serial)
            (le_value sequence) (le_value checksum) segments, table_end).

Definition verify_checksum (page : list Z) : result error bool :=
  before ← ok_or (get_range page 0 CHECKSUM_OFFSET) UnexpectedEof;
  after ← ok_or (get_from page (CHECKSUM_OFFSET + 4)) UnexpectedEof;
  stored ← ok_or (get_range page CHECKSUM_OFFSET (CHECKSUM_OFFSET + 4)) UnexpectedEof;
  Ok (crc32_update (crc32_update (crc32 before) [0; 0; 0; 0]) after =? le_value stored).

Record packet_span : Type := PacketSpan { start : Z; stop : Z; complete : bool }.

(** The loop of [packet_spans]; [last] is what [i == last] asks. *)
Fixpoint spans_from (run_start pos : Z) (segments : list Z) : list packet_span :=
  match segments with
  | [] => []
  | v :: rest =>
    let pos := pos + v in
    if v <? CONTINUATION_VALUE then PacketSpan run_start pos true :: spans_from pos pos rest
    else match rest with
         | [] => [PacketSpan run_start pos false]
         | _ => spans_from run_start pos rest
         end
  end.

Definition packet_spans (segments : list Z) : list packet_span := spans_from 0 0 segments.

(** ** The checksum is a polynomial remainder *)

Abbreviation word32 x := (0 <= x < 2 ^ 32).

Lemma shift_step_alt x : word32 x ->
  shift_step x = Z.lxor (wrap_u 32 (2 * x)) (if Z.testbit x 31 then POLY else 0).
Proof.
  intros Hx. unfold shift_step. rewrite Z.shiftl_mul_pow2, Z.mul_comm by lia. change (2 ^ 1) with 2.
  assert (E : Z.land x 2147483648 = if Z.testbit x 31 then 2147483648 else 0).
  { change 2147483648 with (2 ^ 31). apply Z.bits_inj'. intros n Hn. rewrite Z.land_spec, Z.pow2_bits_eqb by lia.
    destruct (Z.eqb_spec 31 n) as [<-|Hne].
    - rewrite andb_true_r. destruct (Z.testbit x 31); [by rewrite Z.pow2_bits_true|by rewrite Z.testbit_0_l].
    - rewrite andb_false_r. destruct (Z.testbit x 31); [|by rewrite Z.testbit_0_l].
      rewrite Z.pow2_bits_false by lia. done. }
  rewrite E. destruct (Z.testbit x 31); [done|]. cbn. by rewrite Z.lxor_0_r.
Qed.

Lemma lxor_word x y : word32 x -> word32 y -> word32 (Z.lxor x y).
Proof.
  intros Hx Hy. split; [apply Z.lxor_nonneg; lia|].
  assert (E : Z.lxor x y = wrap_u 32 (Z.lxor x y)).
  { unfold wrap_u. rewrite <- Z.land_ones by lia. apply Z.bits_inj'. intros n Hn. rewrite Z.land_spec, Z.testbit_ones_nonneg, !Z.lxor_spec by lia.
    destruct (Z.ltb_spec n 32); [by rewrite andb_true_r|].
    rewrite <- (Z.mod_small x (2 ^ 32)), <- (Z.mod_small y (2 ^ 32)), !Z.mod_pow2_bits_high by lia. done. }
  rewrite E. apply Z.mod_pos_bound. lia.
Qed.

Lemma wrap_lxor x y : wrap_u 32 (Z.lxor x y) = Z.lxor (wrap_u 32 x) (wrap_u 32 y).
Proof.
  unfold wrap_u. rewrite <- !Z.land_ones by lia. apply Z.bits_inj'. intros n Hn.
  rewrite Z.lxor_spec, !Z.land_spec, Z.lxor_spec. by destruct (Z.testbit x n), (Z.testbit y n), (Z.testbit (Z.ones 32) n).
Qed.

Lemma shift_step_word x : word32 x -> word32 (shift_step x).
Proof.
  intros Hx. rewrite shift_step_alt by done. apply lxor_word; [apply Z.mod_pos_bound; lia|].
  unfold POLY. destruct (Z.testbit x 31); lia.
Qed.

(** A step is linear. *)
Lemma shift_step_lxor x y : word32 x -> word32 y -> shift_step (Z.lxor x y) = Z.lxor (shift_step x) (shift_step y).
Proof.
  intros Hx Hy. rewrite !shift_step_alt by (try apply lxor_word; done). rewrite Z.lxor_spec.
  rewrite <- !(Z.mul_comm _ 2), <- !(Z.shiftl_mul_pow2 _ 1), Z.shiftl_lxor, wrap_lxor by lia.
  set (a := wrap_u 32 (Z.shiftl x 1)). set (b := wrap_u 32 (Z.shiftl y 1)).
  destruct (Z.testbit x 31), (Z.testbit y 31); cbn [xorb]; rewrite ?Z.lxor_0_r.
  - rewrite !Z.lxor_assoc. f_equal. by rewrite (Z.lxor_comm POLY), Z.lxor_assoc, Z.lxor_nilpotent, Z.lxor_0_r.
  - by rewrite !Z.lxor_assoc, (Z.lxor_comm POLY).
  - by rewrite Z.lxor_assoc.
  - done.
Qed.

(** A step is injective: its lowest bit tells what left at the top. *)
Lemma shift_step_inj x y : word32 x -> word32 y -> shift_step x = shift_step y -> x = y.
Proof.
  intros Hx Hy E. rewrite !shift_step_alt in E by done.
  assert (Hbit : forall n, Z.testbit (wrap_u 32 (2 * x)) n = xorb (Z.testbit (wrap_u 32 (2 * y)) n)
     (Z.testbit (Z.lxor (if Z.testbit y 31 then POLY else 0) (if Z.testbit x 31 then POLY else 0)) n)).
  { intros n. assert (E' : wrap_u 32 (2 * x) = Z.lxor (Z.lxor (wrap_u 32 (2 * y)) (if Z.testbit y 31 then POLY else 0)) (if Z.testbit x 31 then POLY else 0)).
    { by rewrite <- E, Z.lxor_assoc, Z.lxor_nilpotent, Z.lxor_0_r. }
    by rewrite E', Z.lxor_assoc, !Z.lxor_spec. }
  assert (Hlow : forall z, Z.testbit (wrap_u 32 (2 * z)) 0 = false).
  { intros z. unfold wrap_u. rewrite Z.mod_pow2_bits_low, Z.testbit_even_0 by lia. done. }
  assert (Htop : Z.testbit x 31 = Z.testbit y 31).
  { specialize (Hbit 0). rewrite !Hlow in Hbit. by destruct (Z.testbit x 31), (Z.testbit y 31). }
  apply Z.bits_inj'. intros n Hn. destruct (Z.eqb_spec n 31) as [->|]; [done|].
  destruct (Z.ltb_spec n 31).
  - specialize (Hbit (n + 1)). rewrite Htop, Z.lxor_nilpotent, Z.testbit_0_l, xorb_false_r in Hbit.
    unfold wrap_u in Hbit. rewrite !Z.mod_pow2_bits_low in Hbit by lia. by rewrite !Z.add_1_r, !Z.testbit_even_succ in Hbit by lia.
  - rewrite <- (Z.mod_small x (2 ^ 32)), <- (Z.mod_small y (2 ^ 32)), !Z.mod_pow2_bits_high by lia. done.
Qed.

(** Eight turns, the register moved past one byte. *)
Definition shift8 (x : Z) : Z := Nat.iter 8 shift_step x.

Lemma shift8_word x : word32 x -> word32 (shift8 x).
Proof. intros Hx. unfold shift8. do 8 (rewrite Nat.iter_succ; apply shift_step_word). done. Qed.

Lemma shift8_lxor x y : word32 x -> word32 y -> shift8 (Z.lxor x y) = Z.lxor (shift8 x) (shift8 y).
Proof.
  intros Hx Hy. unfold shift8. generalize 8%nat. intros k.
  enough (H : Nat.iter k shift_step (Z.lxor x y) = Z.lxor (Nat.iter k shift_step x) (Nat.iter k shift_step y) /\
    word32 (Nat.iter k shift_step x) /\ word32 (Nat.iter k shift_step y)) by tauto.
  induction k as [|k (IH & H1 & H2)]; [done|]. cbn [Nat.iter nat_rect]. change (nat_rect _ ?a (fun _ => ?f) k) with (Nat.iter k f a).
  rewrite IH. split; [by apply shift_step_lxor|]. split; by apply shift_step_word.
Qed.

Lemma shift8_inj x y : word32 x -> word32 y -> shift8 x = shift8 y -> x = y.
Proof.
  intros Hx Hy. unfold shift8. generalize 8%nat. intros k.
  assert (Hw : forall k z, word32 z -> word32 (Nat.iter k shift_step z)).
  { clear. intros k z Hz. induction k as [|k IH]; [done|]. cbn. by apply shift_step_word. }
  induction k as [|k IH]; [done|]. cbn [Nat.iter nat_rect]. change (nat_rect _ ?a (fun _ => ?f) k) with (Nat.iter k f a).
  intros E. apply IH, shift_step_inj; by try apply Hw.
Qed.

(** While the top bit stays clear a turn doubles. *)
Lemma shift_step_double x : 0 <= x < 2 ^ 31 -> shift_step x = 2 * x.
Proof.
  intros Hx. rewrite shift_step_alt by lia. assert (E : Z.testbit x 31 = false).
  { rewrite <- (Z.mod_small x (2 ^ 31)) by lia. by apply Z.mod_pow2_bits_high. }
  rewrite E, Z.lxor_0_r. apply wrap_u_id. lia.
Qed.

Lemma shift8_small x : 0 <= x < 2 ^ 24 -> shift8 x = Z.shiftl x 8.
Proof.
  intros Hx. assert (H : forall k, (k <= 8)%nat -> Nat.iter k shift_step x = 2 ^ Z.of_nat k * x).
  { induction k as [|k IH]; intros Hk; [cbn; lia|]. rewrite Nat.iter_succ, IH by lia.
    assert (2 ^ Z.of_nat k <= 2 ^ 7) by (apply Z.pow_le_mono_r; lia). assert (0 < 2 ^ Z.of_nat k) by (apply Z.pow_pos_nonneg; lia).
    rewrite shift_step_double by nia. rewrite Nat2Z.inj_succ, Z.pow_succ_r by lia. lia. }
  unfold shift8. rewrite H, Z.shiftl_mul_pow2 by lia. lia.
Qed.

Lemma TABLE_lookup i : 0 <= i < 256 -> TABLE !! Z.to_nat i = Some (shift8 (Z.shiftl i 24)).
Proof.
  intros Hi. change TABLE with build_table. unfold build_table.
  change (map ?f ?l) with (fmap (M := list) f l). rewrite list_lookup_fmap, lookup_seq_lt by lia.
  cbn [fmap option_fmap option_map]. f_equal. unfold table_entry, shift8. by rewrite Nat.add_0_l, Z2Nat.id by lia.
Qed.

(** One step of the table is eight turns of the register. *)
Lemma crc_step_spec crc b : word32 crc -> 0 <= b < 256 -> crc_step crc b = shift8 (Z.lxor crc (Z.shiftl b 24)).
Proof.
  intros Hc Hb. unfold crc_step. set (hi := Z.shiftr crc 24). set (lo := wrap_u 24 crc).
  assert (Hhi : 0 <= hi < 256).
  { unfold hi. rewrite Z.shiftr_div_pow2 by lia. split; [apply Z.div_pos; lia|apply Z.div_lt_upper_bound; lia]. }
  rewrite (wrap_u_id 8 hi) by lia.
  assert (Hidx : 0 <= Z.lxor hi b < 256).
  { split; [apply Z.lxor_nonneg; lia|]. change 256 with (2 ^ 8). apply Z.log2_lt_cancel. rewrite Z.log2_pow2 by lia.
    eapply Z.le_lt_trans; [by apply Z.log2_lxor; lia|]. apply Z.max_lub_lt.
    - destruct (Z.eqb_spec hi 0) as [->|]; [done|]. apply Z.log2_lt_pow2; lia.
    - destruct (Z.eqb_spec b 0) as [->|]; [done|]. apply Z.log2_lt_pow2; lia. }
  rewrite TABLE_lookup by done. cbn [default from_option id].
  assert (Hlo : 0 <= lo < 2 ^ 24) by (apply Z.mod_pos_bound; lia).
  assert (Ecrc : crc = Z.lxor (Z.shiftl hi 24) lo).
  { apply Z.bits_inj'. intros n Hn. rewrite Z.lxor_spec, Z.shiftl_spec by lia. unfold hi, lo, wrap_u.
    destruct (Z.ltb_spec n 24).
    - rewrite Z.mod_pow2_bits_low by lia. rewrite (Z.testbit_neg_r _ (n - 24)) by lia. by destruct (Z.testbit crc n).
    - rewrite Z.mod_pow2_bits_high, Z.shiftr_spec by lia. replace (n - 24 + 24) with n by lia. by rewrite xorb_false_r. }
  assert (Ew : Z.lxor crc (Z.shiftl b 24) = Z.lxor (Z.shiftl (Z.lxor hi b) 24) lo).
  { rewrite Z.shiftl_lxor. rewrite Ecrc at 1. by rewrite !Z.lxor_assoc, (Z.lxor_comm lo). }
  assert (Hw : word32 (Z.shiftl (Z.lxor hi b) 24)) by (rewrite Z.shiftl_mul_pow2 by lia; lia).
  rewrite Ew, shift8_lxor, (shift8_small lo), (Z.lxor_comm (shift8 _)) by lia. f_equal.
  unfold lo, wrap_u. rewrite !Z.shiftl_mul_pow2 by lia. change (2 ^ 32) with (2 ^ 24 * 2 ^ 8).
  rewrite <- (Z.mul_mod_distr_r crc (2 ^ 24) (2 ^ 8)) by lia. done.
Qed.

(** *** Bit by bit *)

(** The remainder of the message, a bit at a time. *)
Definition bit_step (crc : Z) (bit : bool) : Z := shift_step (Z.lxor crc (if bit then 2 ^ 31 else 0)).

Abbreviation is_bytes l := (Forall (fun b => 0 <= b < 256) l).

Lemma bits_lxor l : forall c d, word32 c -> word32 d ->
  fold_left bit_step l (Z.lxor c d) = Z.lxor (Nat.iter (length l) shift_step c) (fold_left bit_step l d) /\
  word32 (Nat.iter (length l) shift_step c).
Proof.
  induction l as [|b l IH]; intros c d Hc Hd; [done|]. cbn [fold_left length].
  assert (Hb : word32 (if b then 2 ^ 31 else 0)) by (destruct b; lia).
  assert (E : bit_step (Z.lxor c d) b = Z.lxor (shift_step c) (bit_step d b)).
  { unfold bit_step. rewrite Z.lxor_assoc. apply shift_step_lxor; [done|by apply lxor_word]. }
  rewrite E, Nat.iter_succ_r. apply IH; [by apply shift_step_word|]. by apply shift_step_word, lxor_word.
Qed.

Lemma byte_bits b : 0 <= b < 256 -> fold_left bit_step (bits_of 8 b) 0 = shift8 (Z.shiftl b 24).
Proof.
  intros Hb. assert (H : forallb (fun i => fold_left bit_step (bits_of 8 (Z.of_nat i)) 0 =? shift8 (Z.shiftl (Z.of_nat i) 24)) (seq 0 256) = true)
    by (vm_compute; reflexivity).
  rewrite forallb_forall in H. specialize (H (Z.to_nat b)). rewrite in_seq, Z2Nat.id, Z.eqb_eq in H by lia. apply H. lia.
Qed.

Lemma crc_step_bits c b : word32 c -> 0 <= b < 256 -> crc_step c b = fold_left bit_step (bits_of 8 b) c.
Proof.
  intros Hc Hb. assert (Hw : word32 (Z.shiftl b 24)) by (rewrite Z.shiftl_mul_pow2 by lia; lia).
  rewrite crc_step_spec, shift8_lxor, <- byte_bits by done.
  rewrite <- (Z.lxor_0_r c) at 2. by rewrite (proj1 (bits_lxor (bits_of 8 b) c 0 Hc ltac:(lia))).
Qed.

Lemma crc_step_word c b : word32 c -> 0 <= b < 256 -> word32 (crc_step c b).
Proof.
  intros Hc Hb. rewrite crc_step_spec by done. apply shift8_word, lxor_word; [done|]. rewrite Z.shiftl_mul_pow2 by lia. lia.
Qed.

Lemma crc_word l : forall c, word32 c -> is_bytes l -> word32 (crc32_update c l).
Proof.
  induction l as [|b l IH]; intros c Hc Hl; [done|]. apply Forall_cons in Hl as [Hb Hl]. apply IH; [by apply crc_step_word|done].
Qed.

Lemma crc_app c l k : crc32_update c (l ++ k) = crc32_update (crc32_update c l) k.
Proof. apply fold_left_app. Qed.

Lemma crc_bits l : forall c, word32 c -> is_bytes l -> crc32_update c l = fold_left bit_step (bits_of_bytes l) c.
Proof.
  induction l as [|b l IH]; intros c Hc Hl; [done|]. apply Forall_cons in Hl as [Hb Hl].
  change (bits_of_bytes (b :: l)) with (bits_of 8 b ++ bits_of_bytes l). rewrite fold_left_app, <- crc_step_bits by done.
  apply IH; [by apply crc_step_word|done].
Qed.

(** *** Short changes are seen *)

Lemma crc_inj l : forall c d, word32 c -> word32 d -> is_bytes l -> crc32_update c l = crc32_update d l -> c = d.
Proof.
  induction l as [|b l IH]; intros c d Hc Hd Hl E; [done|]. apply Forall_cons in Hl as [Hb Hl].
  apply IH in E; [|by apply crc_step_word..|done]. rewrite !crc_step_spec in E by done.
  assert (Hw : word32 (Z.shiftl b 24)) by (rewrite Z.shiftl_mul_pow2 by lia; lia).
  apply shift8_inj in E; [|by apply lxor_word..].
  assert (H : Z.lxor (Z.lxor c (Z.shiftl b 24)) (Z.shiftl b 24) = Z.lxor (Z.lxor d (Z.shiftl b 24)) (Z.shiftl b 24)) by by rewrite E.
  by rewrite !Z.lxor_assoc, Z.lxor_nilpotent, !Z.lxor_0_r in H.
Qed.

Lemma shift8_iter_shift k : forall y, (k <= 3)%nat -> 0 <= y < 2 ^ (32 - 8 * Z.of_nat k) ->
  Nat.iter k shift8 y = y * 2 ^ (8 * Z.of_nat k) /\ word32 (y * 2 ^ (8 * Z.of_nat k)).
Proof.
  induction k as [|k IH]; intros y Hk Hy; [cbn; lia|].
  assert (Hp : 2 ^ (32 - 8 * Z.of_nat k) = 2 ^ (32 - 8 * Z.of_nat (S k)) * 2 ^ 8) by (rewrite <- Z.pow_add_r by lia; f_equal; lia).
  assert (Hq : 2 ^ (32 - 8 * Z.of_nat (S k)) <= 2 ^ 24) by (apply Z.pow_le_mono_r; lia).
  rewrite Nat.iter_succ_r, (shift8_small y), Z.shiftl_mul_pow2 by lia.
  destruct (IH (y * 2 ^ 8)) as [E Hw]; [lia|lia|]. rewrite E.
  replace (8 * Z.of_nat (S k)) with (8 + 8 * Z.of_nat k) by lia. rewrite Z.pow_add_r, Z.mul_assoc in * by lia. done.
Qed.

Lemma shift8_iter_lxor k x y : word32 x -> word32 y ->
  Nat.iter k shift8 (Z.lxor x y) = Z.lxor (Nat.iter k shift8 x) (Nat.iter k shift8 y) /\
  word32 (Nat.iter k shift8 x) /\ word32 (Nat.iter k shift8 y).
Proof.
  intros Hx Hy. induction k as [|k (IH & H1 & H2)]; [done|]. rewrite !Nat.iter_succ, IH.
  split; [by apply shift8_lxor|]. split; by apply shift8_word.
Qed.

Lemma shift8_iter_inj k x y : word32 x -> word32 y -> Nat.iter k shift8 x = Nat.iter k shift8 y -> x = y.
Proof.
  intros Hx Hy. induction k as [|k IH]; [done|]. rewrite !Nat.iter_succ. intros E. apply IH.
  destruct (shift8_iter_lxor k x y Hx Hy) as (_ & H1 & H2). by apply shift8_inj.
Qed.

Lemma lxor_disjoint a b n : 0 <= n -> 0 <= b < 2 ^ n -> Z.lxor (a * 2 ^ n) b = a * 2 ^ n + b.
Proof.
  intros Hn Hb. rewrite <- Z.add_nocarry_lxor; [done|]. apply Z.bits_inj'. intros m Hm.
  rewrite Z.land_spec, Z.testbit_0_l. destruct (Z.ltb_spec m n).
  - by rewrite Z.mul_pow2_bits_low.
  - rewrite <- (Z.mod_small b (2 ^ n)), Z.mod_pow2_bits_high, andb_false_r by lia. done.
Qed.

(** Up to four bytes enter the register as one word. *)
Lemma crc_short l : forall c, word32 c -> is_bytes l -> (length l <= 4)%nat ->
  crc32_update c l = Nat.iter (length l) shift8 (Z.lxor c (be_value l * 2 ^ (32 - 8 * zlen l))) /\
  word32 (be_value l * 2 ^ (32 - 8 * zlen l)).
Proof.
  induction l as [|b l IH] using rev_ind; intros c Hc Hl Hlen; [by rewrite Z.lxor_0_r|].
  apply Forall_app in Hl as [Hl Hb]. apply Forall_cons in Hb as [Hb _]. rewrite length_app in *. cbn [length] in *.
  destruct (IH c Hc Hl) as [E Hw]; [lia|]. rewrite crc_app, E, Nat.add_1_r, Nat.iter_succ.
  set (n := length l) in *. assert (Hn : zlen l = Z.of_nat n) by done. rewrite Hn in *.
  set (y := b * 2 ^ (24 - 8 * Z.of_nat n)). set (x := be_value l * 2 ^ (32 - 8 * Z.of_nat n)) in *.
  assert (Hp : 2 ^ (32 - 8 * Z.of_nat n) = 2 ^ 8 * 2 ^ (24 - 8 * Z.of_nat n)) by (rewrite <- Z.pow_add_r by lia; f_equal; lia).
  assert (Hpos : 0 < 2 ^ (24 - 8 * Z.of_nat n)) by (apply Z.pow_pos_nonneg; lia).
  assert (Hy : 0 <= y < 2 ^ (32 - 8 * Z.of_nat n)) by (unfold y; rewrite Hp; nia).
  destruct (shift8_iter_shift n y) as [Ey Hyw]; [lia|done|].
  assert (Eb : Z.shiftl b 24 = Nat.iter n shift8 y).
  { rewrite Ey. unfold y. rewrite <- Z.mul_assoc, <- Z.pow_add_r, Z.shiftl_mul_pow2 by lia. do 2 f_equal. lia. }
  assert (Hy32 : word32 y).
  { assert (2 ^ (32 - 8 * Z.of_nat n) <= 2 ^ 32) by (apply Z.pow_le_mono_r; lia). lia. }
  assert (Exy : be_value (l ++ [b]) * 2 ^ (32 - 8 * zlen (l ++ [b])) = Z.lxor x y).
  { unfold x. rewrite (lxor_disjoint (be_value l) y) by lia. rewrite zlen_app, Hn, be_value_app. cbn [fold_left].
    change (zlen [b]) with 1. replace (32 - 8 * (Z.of_nat n + 1)) with (24 - 8 * Z.of_nat n) by lia. rewrite Hp. unfold y. change (2 ^ 8) with 256. ring. }
  rewrite Exy. split; [|by apply lxor_word].
  cbn [crc32_update fold_left]. unfold crc32_update. cbn [fold_left].
  destruct (shift8_iter_lxor n (Z.lxor c x) y) as (El & H1 & H2); [by apply lxor_word|done|].
  rewrite crc_step_spec by done. by rewrite Eb, <- El, Z.lxor_assoc.
Qed.

Lemma be_value_inj l k : is_bytes l -> is_bytes k -> length l = length k -> be_value l = be_value k -> l = k.
Proof. intros Hl Hk E Ev. by rewrite <- (be_bytes_be_value l), <- (be_bytes_be_value k), E, Ev. Qed.

Lemma le_value_inj l k : is_bytes l -> is_bytes k -> length l = length k -> le_value l = le_value k -> l = k.
Proof.
  intros Hl Hk E Ev. rewrite <- (rev_involutive l), <- (rev_involutive k), !le_value_rev in Ev.
  rewrite <- (rev_involutive l), <- (rev_involutive k). f_equal.
  apply be_value_inj; [by rewrite <- (Permutation_rev l)|by rewrite <- (Permutation_rev k)|by rewrite !length_rev|done].
Qed.

(** A change within four bytes changes the checksum, whatever comes before and after. *)
Lemma crc_burst c w w' q : word32 c -> is_bytes w -> is_bytes w' -> is_bytes q -> length w = length w' -> (length w <= 4)%nat ->
  crc32_update c (w ++ q) = crc32_update c (w' ++ q) -> w = w'.
Proof.
  intros Hc Hw Hw' Hq E Hlen Ec. rewrite !crc_app in Ec. apply crc_inj in Ec; [|by apply crc_word..|done].
  destruct (crc_short w c Hc Hw Hlen) as [E1 W1]. destruct (crc_short w' c Hc Hw') as [E2 W2]; [lia|].
  rewrite E1, E2, E in Ec. apply shift8_iter_inj in Ec; [|by apply lxor_word..].
  assert (Ex : be_value w * 2 ^ (32 - 8 * zlen w) = be_value w' * 2 ^ (32 - 8 * zlen w')).
  { set (x := be_value w * _) in *. set (x' := be_value w' * _) in *.
    assert (H : Z.lxor c (Z.lxor c x) = Z.lxor c (Z.lxor c x')) by by rewrite Ec.
    by rewrite <- !Z.lxor_assoc, Z.lxor_nilpotent, !Z.lxor_0_l in H. }
  apply be_value_inj; [done..|]. unfold zlen in Ex. rewrite E in Ex. apply Z.mul_reg_r in Ex; [done|].
  apply Z.pow_nonzero; lia.
Qed.

(** ** Reading a page's own bytes *)

Lemma verify_split before stored after : zlen before = 22 -> zlen stored = 4 ->
  verify_checksum (before ++ stored ++ after) = Ok (crc32 (before ++ [0; 0; 0; 0] ++ after) =? le_value stored).
Proof.
  intros Hb Hs. unfold verify_checksum, CHECKSUM_OFFSET.
  pose proof (get_range_mid [] before (stored ++ after) 0 22 eq_refl Hb) as H0. cbn [app] in H0. rewrite H0. cbn [ok_or mbind result_bind].
  rewrite app_assoc, (get_from_at (before ++ stored)) by (rewrite zlen_app; lia). cbn [ok_or mbind result_bind].
  rewrite <- app_assoc, get_range_mid by lia. cbn [ok_or mbind result_bind].
  unfold crc32. by rewrite !crc_app.
Qed.

Lemma verify_long page b : verify_checksum page = Ok b -> exists before stored after,
  page = before ++ stored ++ after /\ zlen before = 22 /\ zlen stored = 4.
Proof.
  unfold verify_checksum. intros H. assert (Hlen : 26 <= zlen page).
  { destruct (get_range page 0 CHECKSUM_OFFSET); [|discriminate H].
    destruct (get_from page (CHECKSUM_OFFSET + 4)) as [k|] eqn:E; [|discriminate H]. apply get_from_Some in E. unfold CHECKSUM_OFFSET in E. lia. }
  exists (take 22 page), (take 4 (drop 22 page)), (drop 4 (drop 22 page)).
  rewrite !take_drop. unfold zlen in *. rewrite !length_take, length_drop. split; [done|lia].
Qed.

Lemma app_split {A} (a b c d : list A) : a ++ b = c ++ d -> (length a <= length c)%nat -> exists m, c = a ++ m /\ b = m ++ d.
Proof.
  intros E Hl. exists (drop (length a) c). assert (Ea : a = take (length a) c).
  { apply (f_equal (take (length a))) in E. rewrite take_app_length, take_app_le in E by done. done. }
  split; [rewrite Ea at 1; by rewrite take_drop|].
  apply (app_inv_head a). rewrite app_assoc. rewrite E. f_equal. rewrite Ea at 1. by rewrite take_drop.
Qed.


(** A page with a body of three bytes, the first two of them damaged. *)
Definition demo_head : list Z :=
  [79; 103; 103; 83; 0; 0; 1; 0; 0; 0; 0; 0; 0; 0; 0; 0; 0; 0; 1; 0; 0; 0; 129; 152; 149; 99; 1; 3].

