(* ===== verification/OggTime.v ===== *)
(** * OggTime: which codec an Ogg stream carries, and when its packets are

    [src/crates/format/vaco-demux-ogg/src/codec.rs] and [granule.rs]: the codec named
    by a stream's first packet and the fields of that packet the demuxer needs, the
    comments of a comment header, the packing of header packets into one blob, the meaning of a granule position per codec, and
    the timeline that spreads a page's granule position over the packets completed on
    it. A registered parser is its [packet_duration]. *)

From Stdlib Require Import ZArith Lia.
From stdpp Require Import prelude strings.
From S2P Require Import Prelude Bits Rational OggPage.

(** ** Identification headers *)

Module Codec.

Inductive ogg_codec : Type := Opus | Vorbis | Flac | Theora | Speex | Unknown.

#[export] Instance ogg_codec_eq_dec : EqDecision ogg_codec.
Proof. solve_decision. Defined.

Definition name (c : ogg_codec) : list Z :=
  match c with
  | Opus => str "opus" | Vorbis => str "vorbis" | Flac => str "flac"
  | Theora => str "theora" | Speex => str "speex" | Unknown => str "unknown"
  end.

Definition starts_with (p l : list Z) : bool := bool_decide (take (length p) l = p).

(** A type byte, then a signature. *)
Definition is_typed (ty : Z) (sig packet : list Z) : bool :=
  bool_decide (head packet = Some ty) && bool_decide (get_range packet 1 (1 + zlen sig) = Some sig).

Definition identify (bos_packet : list Z) : ogg_codec :=
  if starts_with (str "OpusHead") bos_packet then Opus
  else if is_typed 1 (str "vorbis") bos_packet then Vorbis
  else if is_typed 128 (str "theora") bos_packet then Theora
  else if is_typed 127 (str "FLAC") bos_packet then Flac
  else if bool_decide (get_range bos_packet 0 8 = Some (str "Speex   ")) then Speex
  else Unknown.

Record opus_ident : Type := OpusIdent { channel_count : Z; pre_skip : Z }.

Definition parse_opus_head (packet : list Z) : option opus_ident :=
  if negb (starts_with (str "OpusHead") packet) then None
  else
    channel_count ← packet !! 9%nat;
    pre_skip ← get_range packet 10 12;
    Some (OpusIdent channel_count (le_value pre_skip)).

Record vorbis_ident : Type := VorbisIdent { channels : Z; sample_rate : Z; blocksize_0 : Z; blocksize_1 : Z }.

Definition parse_vorbis_ident (packet : list Z) : option vorbis_ident :=
  if negb (is_typed 1 (str "vorbis") packet) then None
  else
    channels ← packet !! 11%nat;
    sample_rate ← get_range packet 12 16;
    bs_byte ← packet !! 28%nat;
    let bs0 := Z.land bs_byte 15 in
    let bs1 := Z.land (Z.shiftr bs_byte 4) 15 in
    if (31 <? bs0) || (31 <? bs1) then None
    else Some (VorbisIdent channels (le_value sample_rate) (Z.shiftl 1 bs0) (Z.shiftl 1 bs1)).

Record theora_ident : Type := TheoraIdent {
  width : Z; height : Z; fps_numerator : Z; fps_denominator : Z; granule_shift : Z }.

Definition read_u24_be (data : list Z) (at_ : Z) : option Z := b ← get_range data at_ (at_ + 3); Some (be_value b).

Definition parse_theora_ident (packet : list Z) : option theora_ident :=
  if negb (is_typed 128 (str "theora") packet) then None
  else
    picw ← read_u24_be packet (7 + 7);
    pich ← read_u24_be packet (7 + 10);
    frn ← get_range packet (7 + 15) (7 + 19);
    frd ← get_range packet (7 + 19) (7 + 23);
    packed ← get_range packet (7 + 33) (7 + 35);
    let granule_shift := Z.land (Z.shiftr (be_value packed) 5) 31 in
    if be_value frd =? 0 then None
    else Some (TheoraIdent picw pich (be_value frn) (be_value frd) granule_shift).

Record speex_ident : Type := SpeexIdent {
  rate : Z; schannels : Z; frame_size : Z; frames_per_packet : Z; extra_headers : Z }.

(** The [i]-th little-endian field of a Speex header. *)
Definition speex_field (packet : list Z) (i : Z) : option Z :=
  let at_ := 28 + i * 4 in b ← get_range packet at_ (at_ + 4); Some (le_value b).

Definition parse_speex_ident (packet : list Z) : option speex_ident :=
  if bool_decide (get_range packet 0 8 <> Some (str "Speex   ")) then None
  else
    rate ← speex_field packet 2;
    channels ← speex_field packet 5;
    frame_size ← speex_field packet 7;
    frames_per_packet ← speex_field packet 9;
    extra_headers ← speex_field packet 11;
    Some (SpeexIdent rate channels frame_size frames_per_packet extra_headers).

Definition parse_flac_header_count (packet : list Z) : option Z :=
  if negb (is_typed 127 (str "FLAC") packet) then None
  else b ← get_range packet 7 9; Some (be_value b).

Record flac_ident : Type := FlacIdent {
  frate : Z; fchannels : Z; bits_per_sample : Z; total_samples : Z }.

Definition parse_flac_streaminfo (packet : list Z) : option flac_ident :=
  if negb (is_typed 127 (str "FLAC") packet) then None
  else
    info ← get_range packet 17 (17 + 34);
    packed ← get_range info 10 18;
    let bits := be_value packed in
    sample_rate ← checked_u 32 (Z.land (Z.shiftr bits 44) 1048575);
    channels ← checked_u 8 (Z.land (Z.shiftr bits 41) 7);
    bits_per_sample ← checked_u 8 (Z.land (Z.shiftr bits 36) 31);
    Some (FlacIdent sample_rate (sat_u 8 (channels + 1)) (sat_u 8 (bits_per_sample + 1)) (Z.land bits 68719476735)).

Definition total_header_packets (codec : ogg_codec) (bos_packet : list Z) : Z :=
  match codec with
  | Opus => 2
  | Vorbis | Theora => 3
  | Speex =>
    let extra := match parse_speex_ident bos_packet with Some s => extra_headers s | None => 0 end in
    sat_u 32 (2 + Z.min extra 1024)
  | Flac => sat_u 32 (1 + default 0 (parse_flac_header_count bos_packet))
  | Unknown => 1
  end.

(** ** Comments *)

Definition VORBIS_COMMENT_MAGIC : list Z := 3 :: str "vorbis".
Definition OPUS_COMMENT_MAGIC : list Z := str "OpusTags".
Definition MAX_COMMENTS : Z := 4096.

Definition take_length_prefixed (data : list Z) : option (list Z * list Z) :=
  len ← get_range data 0 4;
  end_ ← checked_u 64 (4 + le_value len);
  value ← get_range data 4 end_;
  rest ← get_from data end_;
  Some (value, rest).

Definition to_ascii_lowercase (s : list Z) : list Z := map (fun c => if (65 <=? c) && (c <=? 90) then c + 32 else c) s.

Fixpoint comments_loop (count : nat) (rest : list Z) : list (list Z * list Z) :=
  match count with
  | O => []
  | S count =>
    match take_length_prefixed rest with
    | None => []
    | Some (entry, next) =>
      let more := comments_loop count next in
      if utf8 entry then
        match split_once 61 entry with
        | Some (key, value) => (to_ascii_lowercase key, value) :: more
        | None => more
        end
      else more
    end
  end.

Definition parse_comment_header (packet magic : list Z) : list (list Z * list Z) :=
  if negb (starts_with magic packet) then []
  else
    match take_length_prefixed (drop (length magic) packet) with
    | None => []
    | Some (_, rest) =>
      match get_range rest 0 4 with
      | None => []
      | Some count_bytes =>
        comments_loop (Z.to_nat (Z.min (le_value count_bytes) MAX_COMMENTS)) (default [] (get_from rest 4))
      end
    end.

(** *** Several headers in one blob *)

(** The lacing of a length before the headers. *)
Definition lace (n : Z) : list Z := replicate (Z.to_nat (n / 255)) 255 ++ [n mod 255].

Definition pack_xiph_headers (headers : list (list Z)) : list Z :=
  let count := zlen headers in
  [if in_u 8 (sat_u 64 (count - 1)) then sat_u 64 (count - 1) else 255] ++
  concat (map (fun h => lace (zlen h)) (take (Z.to_nat (sat_u 64 (count - 1))) headers)) ++ concat headers.

(** One laced length; the sum saturates. *)
Fixpoint unlace (len : Z) (cursor : list Z) : option (Z * list Z) :=
  match cursor with
  | [] => None
  | b :: rest => let len := sat_u 64 (len + b) in if b =? 255 then unlace len rest else Some (len, rest)
  end.

Fixpoint unlace_all (n : nat) (cursor : list Z) : option (list Z * list Z) :=
  match n with
  | O => Some ([], cursor)
  | S n => '(len, cursor) ← unlace 0 cursor; '(lens, cursor) ← unlace_all n cursor; Some (len :: lens, cursor)
  end.

Fixpoint split_lens (lens : list Z) (cursor : list Z) : option (list (list Z)) :=
  match lens with
  | [] => Some [cursor]
  | len :: lens =>
    if zlen cursor <? len then None
    else hs ← split_lens lens (drop (Z.to_nat len) cursor); Some (take (Z.to_nat len) cursor :: hs)
  end.

Definition split_xiph_headers (data : list Z) : option (list (list Z)) :=
  match data with
  | [] => None
  | count_minus_one :: cursor => '(lens, cursor) ← unlace_all (Z.to_nat count_minus_one) cursor; split_lens lens cursor
  end.

End Codec.

(** ** Granule positions *)

Inductive granule_mapping : Type :=
  | SampleCount
  | OpusGranule (pre_skip : Z)
  | VorbisGranule (nominal : Z)
  | SpeexGranule (samples_per_packet : Z)
  | TheoraGranule (granule_shift : Z).

Definition from_bos (codec : Codec.ogg_codec) (bos_packet : list Z) : granule_mapping :=
  match codec with
  | Codec.Opus => match Codec.parse_opus_head bos_packet with Some h => OpusGranule (Codec.pre_skip h) | None => SampleCount end
  | Codec.Vorbis =>
    match Codec.parse_vorbis_ident bos_packet with Some v => VorbisGranule (Z.shiftr (Codec.blocksize_1 v) 1) | None => SampleCount end
  | Codec.Speex =>
    match Codec.parse_speex_ident bos_packet with
    | Some s => SpeexGranule (sat_i 64 (Codec.frame_size s * Z.max (Codec.frames_per_packet s) 1))
    | None => SampleCount
    end
  | Codec.Theora =>
    match Codec.parse_theora_ident bos_packet with Some t => TheoraGranule (Codec.granule_shift t) | None => SampleCount end
  | Codec.Flac | Codec.Unknown => SampleCount
  end.

Definition timestamp (m : granule_mapping) (granule : Z) : option Z :=
  if granule =? GRANULE_UNSET then None
  else Some
    match m with
    | SampleCount | VorbisGranule _ | SpeexGranule _ => granule
    | OpusGranule pre_skip => sat_i 64 (granule - pre_skip)
    | TheoraGranule granule_shift =>
      let shift := Z.min granule_shift 62 in
      let g := Z.max granule 0 in
      let mask := Z.shiftl 1 shift - 1 in
      sat_i 64 (Z.shiftr g shift + Z.land g mask)
    end.

Definition initial_cursor (m : granule_mapping) : Z :=
  match m with
  | OpusGranule pre_skip => - pre_skip
  | VorbisGranule nominal => - nominal
  | SampleCount | SpeexGranule _ | TheoraGranule _ => 0
  end.

Definition fixed_duration (m : granule_mapping) : option Z :=
  match m with
  | VorbisGranule nominal => Some nominal
  | SpeexGranule samples_per_packet => Some samples_per_packet
  | TheoraGranule _ => Some 1
  | SampleCount | OpusGranule _ => None
  end.

Definition opus_time_base : rational := Rational 1 48000.

Record timeline : Type := GranuleTimeline { cursor : Z; started : bool }.

Definition timeline_new : timeline := GranuleTimeline 0 false.

Definition planned_cursor (m : granule_mapping) (t : timeline) : Z := if started t then cursor t else initial_cursor m.

(** Packets one after the other, and the cursor behind them. *)
Fixpoint lay (cursor : Z) (nominal_durations : list Z) : list (Z * Z) * Z :=
  match nominal_durations with
  | [] => ([], cursor)
  | d :: ds =>
    let d := Z.max d 0 in
    let r := lay (sat_i 64 (cursor + d)) ds in ((cursor, d) :: fst r, snd r)
  end.

(** The last packet ends where the page says. *)
Definition snap (target : Z) (out : list (Z * Z)) (cursor : Z) : list (Z * Z) * Z :=
  match last out with
  | None => (out, cursor)
  | Some (pts, d) =>
    let start_of_last := sat_i 64 (cursor - d) in
    let corrected := Z.max (sat_i 64 (target - start_of_last)) 0 in
    (removelast out ++ [(pts, corrected)], Z.max target start_of_last)
  end.

Definition assign (m : granule_mapping) (page_granule : Z) (nominal_durations : list Z) (t : timeline)
    : list (Z * Z) * timeline :=
  let '(out, c) := lay (planned_cursor m t) nominal_durations in
  let '(out, c) := match timestamp m page_granule with Some target => snap target out c | None => (out, c) end in
  (out, GranuleTimeline c true).

Definition nominal_duration (m : granule_mapping) (parser : option (list Z -> option rational)) (time_base : rational)
    (payload : list Z) : option Z :=
  match fixed_duration m with
  | Some fixed => Some fixed
  | None =>
    parser ← parser;
    r ← parser payload;
    if negb (is_defined r) || (num time_base =? 0) then None
    else
      let n := num r * den time_base in
      let d := den r * num time_base in
      if d =? 0 then None
      else
        let half := Z.shiftr (Z.abs d) 1 in
        let ticks := if Bool.eqb (0 <=? n) (0 <=? d) then (Z.abs n + half) / Z.abs d else - ((Z.abs n + half) / Z.abs d) in
        checked_i 64 ticks
  end.

(** ** The timeline *)

(** Packets end to end: each begins where the one before ended. *)
Fixpoint tiles (from : Z) (out : list (Z * Z)) (to : Z) : Prop :=
  match out with
  | [] => from = to
  | (pts, d) :: out => pts = from /\ 0 <= d /\ tiles (from + d) out to
  end.

Fixpoint total (ds : list Z) : Z := match ds with [] => 0 | d :: ds => Z.max d 0 + total ds end.

Lemma total_nonneg ds : 0 <= total ds.
Proof. induction ds; cbn; lia. Qed.

Lemma total_app a b : total (a ++ b) = total a + total b.
Proof. induction a; cbn; lia. Qed.

Lemma tiles_app a l1 l2 c : tiles a (l1 ++ l2) c <-> exists b, tiles a l1 b /\ tiles b l2 c.
Proof.
  revert a. induction l1 as [|[p d] l1 IH]; intros a; cbn.
  - split; [by exists a|]. by intros (b & -> & H).
  - rewrite IH. split; [by intros (-> & Hd & b & H1 & H2); exists b|]. by intros (b & (-> & Hd & H1) & H2); split_and!; eauto.
Qed.

Lemma tiles_le a l b : tiles a l b -> a <= b.
Proof. revert a. induction l as [|[p d] l IH]; intros a; cbn; [lia|]. intros (_ & Hd & H). apply IH in H. lia. Qed.

Lemma lay_tiles ds : forall c, - 2 ^ 63 <= c -> c + total ds < 2 ^ 63 -> tiles c (fst (lay c ds)) (c + total ds) /\ snd (lay c ds) = c + total ds.
Proof.
  induction ds as [|d ds IH]; intros c Hc Ht; cbn [lay fst snd tiles total] in *; [split; [lia|by rewrite Z.add_0_r]|].
  pose proof (total_nonneg ds) as Hn. rewrite sat_i_id by lia.
  destruct (IH (c + Z.max d 0)) as [H1 H2]; [lia|lia|]. rewrite H2. rewrite <- Z.add_assoc in H1. split; [|lia]. split_and!; [done|lia|done].
Qed.

Lemma snap_tiles target a out p d c : last out = Some (p, d) -> tiles a out c -> - 2 ^ 63 <= a -> c < 2 ^ 63 -> - 2 ^ 63 <= target - p < 2 ^ 63 ->
  tiles a (fst (snap target out c)) (snd (snap target out c)) /\ snd (snap target out c) = Z.max target p.
Proof.
  intros Hl Ht Ha Hc Hr. unfold snap. rewrite Hl. apply last_Some in Hl as [l ->]. rewrite removelast_last.
  apply tiles_app in Ht as (b & H1 & -> & Hd & Hbc). pose proof (tiles_le _ _ _ H1). cbn in Hbc.
  rewrite (sat_i_id 64 (c - d)) by lia. replace (c - d) with b by lia. rewrite sat_i_id by lia. cbn [fst snd]. split; [|done].
  apply tiles_app. exists b. split; [done|]. cbn. lia.
Qed.

(** What [from_bos] makes. *)
Definition mapping_ok (m : granule_mapping) : Prop :=
  match m with
  | SampleCount => True
  | OpusGranule p => 0 <= p < 2 ^ 16
  | VorbisGranule n => 0 <= n < 2 ^ 31
  | SpeexGranule s => 0 <= s < 2 ^ 63
  | TheoraGranule s => 0 <= s < 32
  end.

Lemma land_ones_range a n : 0 <= n -> 0 <= Z.land a (Z.ones n) < 2 ^ n.
Proof. intros Hn. rewrite Z.land_ones by done. apply Z.mod_pos_bound. lia. Qed.

Lemma from_bos_ok c bos : is_bytes bos -> mapping_ok (from_bos c bos).
Proof.
  intros Hb. assert (Hle : forall a b k, get_range bos a b = Some k -> 0 <= le_value k < 256 ^ (b - a)).
  { intros a b k Hk. pose proof (get_range_Some _ _ _ _ Hk) as (_ & _ & <-). apply le_value_range. by eapply get_range_Forall. }
  destruct c; cbn [from_bos]; try done.
  - unfold Codec.parse_opus_head. destruct (negb _); [done|]. destruct (bos !! 9%nat); [|done].
    destruct (get_range bos 10 12) as [k|] eqn:E; [|done]. exact (Hle _ _ _ E).
  - unfold Codec.parse_vorbis_ident. destruct (negb _); [done|]. destruct (bos !! 11%nat); [|done]. destruct (get_range bos 12 16); [|done].
    destruct (bos !! 28%nat) as [bs|]; [|done]. cbn [mbind option_bind]. destruct (_ || _); [done|]. cbn [mapping_ok Codec.blocksize_1].
    pose proof (land_ones_range (Z.shiftr bs 4) 4 ltac:(lia)) as H. change (Z.ones 4) with 15 in H. rewrite Z.shiftl_1_l, Z.shiftr_div_pow2 by lia.
    pose proof (Z.pow_le_mono_r 2 (Z.land (Z.shiftr bs 4) 15) 15 ltac:(lia) ltac:(lia)).
    assert (0 < 2 ^ Z.land (Z.shiftr bs 4) 15) by (apply Z.pow_pos_nonneg; lia). change (2 ^ 1) with 2.
    split; [apply Z.div_pos; lia|]. apply Z.div_lt_upper_bound; [lia|]. change (2 ^ 15) with 32768 in *. lia.
  - destruct (Codec.parse_theora_ident bos) as [t|] eqn:E; [|done]. unfold Codec.parse_theora_ident in E. destruct (negb _) in E; [done|].
    repeat match type of E with mbind _ ?o = _ => destruct o; [|discriminate E]; cbn [mbind option_bind] in E end.
    destruct (_ =? 0) in E; [done|]. injection E as <-. cbn. change 31 with (Z.ones 5). apply (land_ones_range _ 5). lia.
  - destruct (Codec.parse_speex_ident bos) as [t|] eqn:E; [|done]. cbn [mapping_ok]. unfold Codec.parse_speex_ident in E.
    destruct (bool_decide _) in E; [done|].
    repeat match type of E with mbind _ ?o = _ => destruct o eqn:?; [|discriminate E]; cbn [mbind option_bind] in E end.
    injection E as <-. cbn [Codec.frame_size Codec.frames_per_packet].
    assert (Hf : forall i v, Codec.speex_field bos i = Some v -> 0 <= v).
    { intros i v Hv. unfold Codec.speex_field in Hv. destruct (get_range _ _ _) as [k|] eqn:Ek; [|done]. injection Hv as <-. by apply (Hle _ _ _ Ek). }
    pose proof (sat_i_range 64 (z1 * Z.max z2 1) ltac:(lia)) as Hr. split; [|apply Hr].
    assert (0 <= z1 * Z.max z2 1) by (apply Z.mul_nonneg_nonneg; [by eapply Hf|lia]). unfold sat_i. lia.
Qed.

Lemma timestamp_range m g t : mapping_ok m -> - 2 ^ 61 < g < 2 ^ 61 -> timestamp m g = Some t -> - 2 ^ 61 - 2 ^ 16 <= t < 2 ^ 61.
Proof.
  intros Hm Hg. unfold timestamp. destruct (g =? GRANULE_UNSET); [done|]. intros [= <-].
  destruct m as [|p|n|s|k]; cbn [mapping_ok] in Hm; try lia; [rewrite sat_i_id; lia|].
  rewrite Z.min_l by lia. set (v := Z.max g 0). rewrite Z.shiftr_div_pow2, Z.shiftl_1_l by lia.
  replace (2 ^ k - 1) with (Z.ones k) by (rewrite Z.ones_equiv; lia). rewrite Z.land_ones by lia. assert (Hp : 0 < 2 ^ k) by (apply Z.pow_pos_nonneg; lia).
  pose proof (Z.div_mod v (2 ^ k) ltac:(lia)) as E. pose proof (Z.mod_pos_bound v (2 ^ k) Hp).
  assert (0 <= v / 2 ^ k) by (apply Z.div_pos; unfold v; lia). assert (v / 2 ^ k <= 2 ^ k * (v / 2 ^ k)) by nia.
  rewrite sat_i_id; unfold v in *; lia.
Qed.

Lemma initial_range m : mapping_ok m -> - 2 ^ 31 < initial_cursor m <= 0.
Proof. destruct m; cbn; lia. Qed.

(** One page, from a cursor that is not at the ends of the range. *)
Lemma assign_tiles m g ds t : mapping_ok m -> - 2 ^ 61 < g < 2 ^ 61 ->
  - 2 ^ 31 < planned_cursor m t -> planned_cursor m t + total ds < 2 ^ 62 ->
  tiles (planned_cursor m t) (fst (assign m g ds t)) (cursor (snd (assign m g ds t))) /\ started (snd (assign m g ds t)) = true /\
  cursor (snd (assign m g ds t)) <= Z.max (2 ^ 61) (planned_cursor m t + total ds) /\
  (forall target, timestamp m g = Some target -> ds <> [] -> planned_cursor m t + total (removelast ds) <= target ->
    cursor (snd (assign m g ds t)) = target).
Proof.
  intros Hm Hg Hlo Hhi. unfold assign. pose proof (lay_tiles ds (planned_cursor m t) ltac:(lia) ltac:(lia)) as [Ht Hc].
  destruct (lay (planned_cursor m t) ds) as [out c] eqn:El. cbn [fst snd] in Ht, Hc. subst c. pose proof (total_nonneg ds).
  destruct (timestamp m g) as [target|] eqn:Et.
  2: { cbn [fst snd cursor started]. split_and!; [done|done|lia|]. by intros target [=]. }
  destruct (decide (ds = [])) as [->|Hne].
  { cbn in El. injection El as <-. cbn. split_and!; [lia|done|lia|]. by intros ? _ []. }
  pose proof (timestamp_range m g target Hm Hg Et) as Htr. apply exists_last in Hne as (ds' & d & ->).
  assert (Hlast : forall c, last (fst (lay c (ds' ++ [d]))) = Some (snd (lay c ds'), Z.max d 0)).
  { clear. induction ds' as [|e ds' IH]; intros c; [done|]. cbn [app lay fst snd]. rewrite last_cons, IH. done. }
  specialize (Hlast (planned_cursor m t)). rewrite El in Hlast. cbn [fst] in Hlast. rewrite total_app in *. cbn [total] in *.
  pose proof (total_nonneg ds'). destruct (lay_tiles ds' (planned_cursor m t)) as [_ Hp]; [lia|lia|]. rewrite Hp in Hlast.
  destruct (snap_tiles target _ out _ _ _ Hlast Ht) as [Hs Hc]; [lia..|]. destruct (snap target out _) as [out' c'].
  cbn [fst snd cursor started] in *. subst c'. split_and!; [done|done|lia|]. intros target' [= <-] _ Hfit. rewrite removelast_last in Hfit. lia.
Qed.

(** The pages of a stream, one after the other. *)
Fixpoint assign_all (m : granule_mapping) (pages : list (Z * list Z)) (t : timeline) : list (list (Z * Z)) * timeline :=
  match pages with
  | [] => ([], t)
  | (g, ds) :: pages =>
    let '(out, t) := assign m g ds t in
    let r := assign_all m pages t in (out :: fst r, snd r)
  end.

Lemma assign_all_app m p q : forall t, assign_all m (p ++ q) t =
  (fst (assign_all m p t) ++ fst (assign_all m q (snd (assign_all m p t))), snd (assign_all m q (snd (assign_all m p t)))).
Proof.
  induction p as [|[g ds] p IH]; intros t; cbn [app assign_all fst snd]; [by destruct (assign_all m q t)|].
  destruct (assign m g ds t) as [out t']. by rewrite IH.
Qed.

Definition durations (pages : list (Z * list Z)) : Z := total (concat (map snd pages)).

Lemma durations_app p q : durations (p ++ q) = durations p + durations q.
Proof. unfold durations. by rewrite map_app, concat_app, total_app. Qed.

Lemma durations_cons g ds pages : durations ((g, ds) :: pages) = total ds + durations pages.
Proof. apply total_app. Qed.

(** What the pages say, and what the estimates add up to, is far from the ends of [i64]. *)
Definition in_range (pages : list (Z * list Z)) : Prop :=
  Forall (fun p => - 2 ^ 61 < fst p < 2 ^ 61) pages /\ durations pages < 2 ^ 61.

Lemma assign_all_tiles m pages : mapping_ok m -> forall t, in_range pages ->
  - 2 ^ 31 < planned_cursor m t -> planned_cursor m t + durations pages < 2 ^ 62 ->
  tiles (planned_cursor m t) (concat (fst (assign_all m pages t))) (planned_cursor m (snd (assign_all m pages t))) /\
  planned_cursor m (snd (assign_all m pages t)) <= Z.max (2 ^ 61 + durations pages) (planned_cursor m t + durations pages).
Proof.
  intros Hm. induction pages as [|[g ds] pages IH]; intros t [Hg Hsum] Hlo Hhi.
  { cbn. pose proof (total_nonneg (concat [])). split; [done|]. unfold durations. cbn. lia. }
  apply Forall_cons in Hg as [Hg Hgs]. rewrite durations_cons in *. pose proof (total_nonneg ds).
  assert (0 <= durations pages) by apply total_nonneg. cbn [fst assign_all] in *.
  destruct (assign_tiles m g ds t Hm Hg Hlo) as (Ht & Hst & Hle & _); [lia|].
  destruct (assign m g ds t) as [out t']. cbn [fst snd] in *. assert (Ep : planned_cursor m t' = cursor t') by (unfold planned_cursor; by rewrite Hst).
  pose proof (tiles_le _ _ _ Ht). destruct (IH t') as [IH1 IH2]; [by split; [done|lia]|lia|lia|].
  split; [|lia]. cbn [concat]. apply tiles_app. exists (cursor t'). split; [done|]. by rewrite <- Ep.
Qed.

(** C39. The packets of an Ogg stream tile its timeline. For any codec named by any
    first packet, any sequence of pages with any granule positions and any estimates
    of the packets' durations (within 2^61), the time stamps given out start at the
    codec's start, every packet begins exactly where the one before it ended and no
    duration is negative; and a page on which a packet ends leaves the timeline
    exactly at the time its granule position says, whatever the estimates were, as
    long as the packets before the last one do not reach beyond it already (see
    [drift_accumulates] for when they do). *)
Theorem timeline_tiles codec bos pages : let m := from_bos codec bos in is_bytes bos -> in_range pages ->
  tiles (initial_cursor m) (concat (fst (assign_all m pages timeline_new))) (planned_cursor m (snd (assign_all m pages timeline_new))) /\
  forall pre g ds post target, pages = pre ++ (g, ds) :: post -> timestamp m g = Some target -> ds <> [] ->
    planned_cursor m (snd (assign_all m pre timeline_new)) + total (removelast ds) <= target ->
    planned_cursor m (snd (assign_all m (pre ++ [(g, ds)]) timeline_new)) = target.
Proof.
  intros m Hb Hr. assert (Hm : mapping_ok m) by (by apply from_bos_ok). pose proof (initial_range m Hm) as Hi.
  assert (Hp : planned_cursor m timeline_new = initial_cursor m) by done. split.
  - pose proof (assign_all_tiles m pages Hm timeline_new Hr) as H. rewrite Hp in H. destruct Hr. apply H; lia.
  - intros pre g ds post target -> Hts Hne Hfit. destruct Hr as [Hg Hs]. apply Forall_app in Hg as [Hg1 Hg2]. apply Forall_cons in Hg2 as [Hg Hg2].
    rewrite durations_app, durations_cons in Hs. assert (0 <= durations pre) by apply total_nonneg. assert (0 <= durations post) by apply total_nonneg.
    pose proof (total_nonneg ds). destruct (assign_all_tiles m pre Hm timeline_new) as [T1 T2]; [split; [done|lia]|lia|rewrite Hp; lia|].
    rewrite Hp in T1, T2. pose proof (tiles_le _ _ _ T1). rewrite assign_all_app. cbn [snd assign_all].
    set (t := snd (assign_all m pre timeline_new)) in *.
    destruct (assign_tiles m g ds t Hm Hg) as (_ & Hst & _ & Hland); [lia|lia|]. destruct (assign m g ds t) as [out t']. cbn [fst snd] in *.
    unfold planned_cursor. rewrite Hst. by apply Hland.
Qed.

(** An Opus stream of two pages: the last frame is cut to what the granule says. *)
Definition demo_opus_head : list Z := str "OpusHead" ++ [1; 1; 56; 1; 0; 0; 0; 0; 0; 0; 0].
Definition demo_pages : list (Z * list Z) := [(GRANULE_UNSET, []); (1920, [960; 960]); (2232, [960])].

Lemma timeline_tiles_witness :
  fst (assign_all (from_bos Codec.Opus demo_opus_head) demo_pages timeline_new) = [[]; [(-312, 960); (648, 960)]; [(1608, 312)]] /\
  planned_cursor (from_bos Codec.Opus demo_opus_head) (snd (assign_all (from_bos Codec.Opus demo_opus_head) demo_pages timeline_new)) = 1920.
Proof.
  split; [vm_compute; reflexivity|].
  refine (proj2 (timeline_tiles Codec.Opus demo_opus_head demo_pages _ _) [(GRANULE_UNSET, []); (1920, [960; 960])] 2232 [960] [] 1920 eq_refl eq_refl _ _).
  - apply (bool_decide_unpack _). vm_compute. exact I.
  - split; [apply (bool_decide_unpack _); vm_compute; exact I|]. vm_compute. reflexivity.
  - discriminate.
  - vm_compute. discriminate.
Defined.

(** ** Findings *)

(** A Vorbis stream that switched to short blocks: the estimate for all but the last
    packet of a page alone goes past the page's granule position. Nothing pulls the
    timeline back, and it is further off after every page. *)
Example drift_accumulates :
  map (fun n => let page k := (5632 * k, replicate 44 1024) in
    cursor (snd (assign_all (VorbisGranule 1024) (map (fun k => page (Z.of_nat k)) (seq 1 n)) timeline_new)) - 5632 * Z.of_nat n) [1; 2; 3]%nat =
  [37376; 75776; 114176].
Proof. vm_compute. reflexivity. Qed.

(** The fields of a Speex header numbered from one: the frames per packet are read
    from the tenth and the extra headers from the twelfth, where the comment over the
    code names the eleventh and the thirteenth. *)
Example speex_ordinals :
  let header := str "Speex   " ++ replicate 20 0 ++ concat (map (fun i => le_bytes 4 (Z.of_nat i)) (seq 1 13)) in
  Codec.parse_speex_ident header = Some (Codec.SpeexIdent 3 6 8 10 12).
Proof. vm_compute. reflexivity. Qed.
