(* ===== verification/OggMux.v ===== *)
(** * OggMux: packets into Ogg pages

    [src/crates/format/vaco-mux-ogg/src/writer.rs] and [headers.rs], the page under
    construction of each stream, the granule position it is stamped with, and the
    muxer's header, packets and trailer. The sink takes every byte: [out] is what
    it was given. Of a packet and of the codec's parameters the fields the muxer
    reads are kept. *)

From Stdlib Require Import ZArith Lia.
From stdpp Require Import prelude strings.
From S2P Require Import Prelude Bits Rational OggPage OggTime Time Error.

Definition PREFERRED_PAGE_BODY : Z := 4096.

(** ** Header packets *)

Definition VENDOR : list Z := str "vaco".

Definition opus_tags : list Z := str "OpusTags" ++ le_bytes 4 (zlen VENDOR) ++ VENDOR ++ le_bytes 4 0.

Definition bad_streaminfo : error := InvalidData "FLAC STREAMINFO extradata must be exactly 34 bytes".

Definition strip_bytes (p l : list Z) : option (list Z) :=
  if bool_decide (take (length p) l = p) then Some (drop (length p) l) else None.

Definition streaminfo_payload_from_extradata (extradata : list Z) : result error (list Z) :=
  if zlen extradata =? 34 then Ok extradata
  else
    body ← ok_or (strip_bytes (str "fLaC") extradata) bad_streaminfo;
    match get_range body 0 4 with
    | Some [b0; b1; b2; b3] =>
      if negb (Z.land b0 127 =? 0) then Err (InvalidData "FLAC extradata's first metadata block is not STREAMINFO")
      else if negb (Z.lor (Z.lor (Z.shiftl b1 16) (Z.shiftl b2 8)) b3 =? 34) then Err bad_streaminfo
      else ok_or (get_range body 4 38) bad_streaminfo
    | _ => Err bad_streaminfo
    end.

Definition flac_first_packet (streaminfo : list Z) : result error (list Z) :=
  if negb (zlen streaminfo =? 34) then Err bad_streaminfo
  else Ok ([127] ++ str "FLAC" ++ [1; 0] ++ be_bytes 2 1 ++ str "fLaC" ++ [0] ++ [0; 0; 34] ++ streaminfo).

Definition flac_comment_block : list Z :=
  let payload := le_bytes 4 (zlen VENDOR) ++ VENDOR ++ le_bytes 4 0 in
  [132] ++ be_bytes 3 (zlen payload) ++ payload.

(** ** The page under construction *)

Record page_builder : Type := PageBuilder { bsegments : list Z; bbody : list Z }.

Definition builder_empty : page_builder := PageBuilder [] [].
Definition is_empty (b : page_builder) : bool := bool_decide (bsegments b = []).

(** [room] counts the lacing values the table has left: none is the loop's exit. *)
Fixpoint push_loop (room : nat) (payload : list Z) (consumed : Z) (b : page_builder) : (Z * bool) * page_builder :=
  match room with
  | O => ((consumed, false), b)
  | S room =>
    let remaining := sat_u 64 (zlen payload - consumed) in
    if CONTINUATION_VALUE <=? remaining then
      let b := PageBuilder (bsegments b ++ [CONTINUATION_VALUE]) (bbody b) in
      match get_range payload consumed (consumed + CONTINUATION_VALUE) with
      | None => ((consumed, false), b)
      | Some chunk => push_loop room payload (consumed + CONTINUATION_VALUE) (PageBuilder (bsegments b) (bbody b ++ chunk))
      end
    else
      match checked_u 8 remaining with
      | None => ((consumed, false), b)
      | Some last =>
        ((zlen payload, true),
         PageBuilder (bsegments b ++ [last]) (bbody b ++ default [] (get_from payload consumed)))
      end
  end.

Definition push_packet (payload : list Z) (b : page_builder) : (Z * bool) * page_builder :=
  push_loop (Z.to_nat (MAX_SEGMENTS - zlen (bsegments b))) payload 0 b.

(** ** The muxer *)

Record stream_state : Type := StreamState {
  sserial : Z;
  stime_base : rational;
  header_packets : list (list Z);
  ssequence : Z;
  builder : page_builder;
  granule_cursor : Z;
  last_duration_ticks_hint : Z;
  terminated_this_page : bool;
  pending_continued : bool;
  sheader_written : bool;
  eos_written : bool;
  ever_flushed : bool }.

Record muxer : Type := OggMuxer {
  out : list Z; streams : list stream_state; header_written : bool; trailer_written : bool }.

Definition muxer_new : muxer := OggMuxer [] [] false false.

Inductive codec_id : Type := Opus | Flac | Vorbis | OtherCodec.

Record codec_parameters : Type := CodecParameters {
  codec : option codec_id; extradata : option (list Z); sample_rate : option Z }.

Record packet : Type := Packet {
  stream_index : Z; payload : list Z; duration_ts : option Z; duration : Time.duration }.

Definition set_streams (ss : list stream_state) (m : muxer) : muxer :=
  OggMuxer (out m) ss (header_written m) (trailer_written m).
Definition set_stream (i : nat) (st : stream_state) (m : muxer) : muxer := set_streams (<[i := st]> (streams m)) m.
Definition set_header (m : muxer) : muxer := OggMuxer (out m) (streams m) true (trailer_written m).
Definition set_trailer (m : muxer) : muxer := OggMuxer (out m) (streams m) (header_written m) true.

Definition set_builder (b : page_builder) (st : stream_state) : stream_state :=
  StreamState (sserial st) (stime_base st) (header_packets st) (ssequence st) b (granule_cursor st)
    (last_duration_ticks_hint st) (terminated_this_page st) (pending_continued st) (sheader_written st)
    (eos_written st) (ever_flushed st).

(** A packet ended in the page: the running total moves. *)
Definition add_ticks (stated : Z) (st : stream_state) : stream_state :=
  let hint := if 0 <? stated then stated else last_duration_ticks_hint st in
  StreamState (sserial st) (stime_base st) (header_packets st) (ssequence st) (builder st)
    (sat_i 64 (granule_cursor st + hint)) hint true (pending_continued st) (sheader_written st)
    (eos_written st) (ever_flushed st).

(** The page leaves the builder. *)
Definition turn_page (continues_next : bool) (st : stream_state) : stream_state :=
  StreamState (sserial st) (stime_base st) (header_packets st) (ssequence st) builder_empty (granule_cursor st)
    (last_duration_ticks_hint st) false continues_next (sheader_written st) (eos_written st) (ever_flushed st).

Definition bump_sequence (st : stream_state) : stream_state :=
  StreamState (sserial st) (stime_base st) (header_packets st) (wrap_u 32 (ssequence st + 1)) (builder st)
    (granule_cursor st) (last_duration_ticks_hint st) (terminated_this_page st) (pending_continued st)
    (sheader_written st) (eos_written st) true.

Definition mark_header (st : stream_state) : stream_state :=
  StreamState (sserial st) (stime_base st) (header_packets st) (ssequence st) (builder st) (granule_cursor st)
    (last_duration_ticks_hint st) (terminated_this_page st) (pending_continued st) true (eos_written st) (ever_flushed st).

Definition mark_eos (st : stream_state) : stream_state :=
  StreamState (sserial st) (stime_base st) (header_packets st) (ssequence st) (builder st) (granule_cursor st)
    (last_duration_ticks_hint st) (terminated_this_page st) (pending_continued st) (sheader_written st) true (ever_flushed st).

(** The bytes of a page: the checksum is taken with its field zero. *)
Definition page_bytes (flags granule serial sequence : Z) (segments body : list Z) : list Z :=
  let head := CAPTURE_PATTERN ++ [SUPPORTED_VERSION; flags] ++ le_bytes 8 granule ++ le_bytes 4 serial ++ le_bytes 4 sequence in
  let tail := [zlen segments] ++ segments ++ body in
  head ++ le_bytes 4 (crc32 (head ++ le_bytes 4 0 ++ tail)) ++ tail.

Definition write_page (i : nat) (flags granule : Z) (segments body : list Z) (m : muxer) : result error unit * muxer :=
  match streams m !! i with
  | None => (Ok tt, m)
  | Some st =>
    if negb (in_u 8 (zlen segments)) then (Err (InvalidData "page has too many segments"), m)
    else
      (Ok tt, OggMuxer (out m ++ page_bytes flags granule (sserial st) (ssequence st) segments body)
                (<[i := bump_sequence st]> (streams m)) (header_written m) (trailer_written m))
  end.

Definition flush_page (i : nat) (eos continues_next force : bool) (m : muxer) : result error unit * muxer :=
  match streams m !! i with
  | None => (Ok tt, m)
  | Some st =>
    if is_empty (builder st) && negb force then (Ok tt, m)
    else
      let granule := if terminated_this_page st then granule_cursor st else GRANULE_UNSET in
      let flags := Z.lor (if eos then EOS else 0) (if pending_continued st then CONTINUED else 0) in
      write_page i flags granule (bsegments (builder st)) (bbody (builder st)) (set_stream i (turn_page continues_next st) m)
  end.

Definition stream_headers (p : codec_parameters) : result error (rational * list (list Z)) :=
  let sample_rate_base :=
    match r ← sample_rate p; if 0 <? r then checked_i 32 r else None with
    | Some rate => Rational 1 rate
    | None => Rational 1 1
    end in
  match codec p with
  | Some Opus =>
    e ← ok_or (extradata p) (InvalidData "Opus needs OpusHead extradata");
    Ok (Rational 1 48000, [e; opus_tags])
  | Some Flac =>
    e ← ok_or (extradata p) (InvalidData "FLAC needs STREAMINFO extradata");
    streaminfo ← streaminfo_payload_from_extradata e;
    first ← flac_first_packet streaminfo;
    Ok (sample_rate_base, [first; flac_comment_block])
  | Some Vorbis =>
    e ← ok_or (extradata p) (InvalidData "Vorbis needs identification/comment/setup extradata");
    hs ← ok_or (hs ← Codec.split_xiph_headers e; if zlen hs =? 3 then Some hs else None)
           (InvalidData "Vorbis extradata must be 3 Xiph-packed header packets");
    Ok (sample_rate_base, hs)
  | _ => Ok (sample_rate_base, match extradata p with Some e => [e] | None => [] end)
  end.

Definition add_stream (p : codec_parameters) (m : muxer) : result error Z * muxer :=
  if header_written m then (Err (InvalidData "streams must be added before the header is written"), m)
  else
    match checked_u 32 (zlen (streams m)) with
    | None => (Err (InvalidData "too many streams"), m)
    | Some serial =>
      match stream_headers p with
      | Err e => (Err e, m)
      | Ok (time_base, headers) =>
        (Ok serial, set_streams (streams m ++
          [StreamState serial time_base headers 0 builder_empty 0 0 false false false false false]) m)
      end
    end.

(** The header packets of one stream, each on a page of its own. *)
Fixpoint write_headers (i : nat) (first : bool) (packets : list (list Z)) (m : muxer) : result error unit * muxer :=
  match packets with
  | [] => (Ok tt, m)
  | packet :: packets =>
    match streams m !! i with
    | None => write_headers i false packets m
    | Some st =>
      let '(_, b) := push_packet packet (builder st) in
      match write_page i (if first then BOS else 0) GRANULE_UNSET (bsegments b) (bbody b)
              (set_stream i (set_builder builder_empty st) m) with
      | (Err e, m) => (Err e, m)
      | (Ok _, m) => write_headers i false packets m
      end
    end
  end.

Fixpoint write_all_headers (idx : list nat) (m : muxer) : result error unit * muxer :=
  match idx with
  | [] => (Ok tt, m)
  | i :: idx =>
    match write_headers i true (default [] (header_packets <$> streams m !! i)) m with
    | (Err e, m) => (Err e, m)
    | (Ok _, m) =>
      write_all_headers idx (match streams m !! i with Some st => set_stream i (mark_header st) m | None => m end)
    end
  end.

Definition write_header (m : muxer) : result error unit * muxer :=
  if header_written m then (Err (InvalidData "header written twice"), m)
  else write_all_headers (seq 0 (length (streams m))) (set_header m).

(** [None] is out of fuel. *)
Fixpoint write_loop (fuel i : nat) (stated : Z) (payload : list Z) (m : muxer) : option (result error unit * muxer) :=
  match fuel with
  | O => None
  | S fuel =>
    match streams m !! i with
    | None => Some (Err (InvalidData "packet names an unknown stream"), m)
    | Some st =>
      let '((consumed, terminated), b) := push_packet payload (builder st) in
      let st := set_builder b st in
      let st := if (terminated : bool) then add_ticks stated st else st in
      let m := set_stream i st m in
      let full_body := PREFERRED_PAGE_BODY <=? zlen (bbody b) in
      let table_full := MAX_SEGMENTS <=? zlen (bsegments b) in
      match get_from payload consumed with
      | None => Some (Ok tt, m)
      | Some rest =>
        match (if negb terminated || full_body || table_full then flush_page i false (negb terminated) false m else (Ok tt, m)) with
        | (Err e, m) => Some (Err e, m)
        | (Ok _, m) => if bool_decide (rest = []) then Some (Ok tt, m) else write_loop fuel i stated rest m
        end
      end
    end
  end.

Definition stated_ticks (p : packet) (time_base : rational) : Z :=
  Z.max (default 0 (match duration_ts p with Some t => Some t | None => to_ticks (duration p) time_base end)) 0.

Definition write_packet (p : packet) (m : muxer) : option (result error unit * muxer) :=
  if negb (header_written m) then Some (Err (InvalidData "packet written before the header"), m)
  else
    let i := Z.to_nat (stream_index p) in
    match streams m !! i with
    | None => Some (Err (InvalidData "packet names an unknown stream"), m)
    | Some st => write_loop (S (length (payload p))) i (stated_ticks p (stime_base st)) (payload p) m
    end.

Fixpoint flush_all (idx : list nat) (m : muxer) : result error unit * muxer :=
  match idx with
  | [] => (Ok tt, m)
  | i :: idx =>
    let force := default false (negb ∘ ever_flushed <$> streams m !! i) in
    match flush_page i true false force m with
    | (Err e, m) => (Err e, m)
    | (Ok _, m) => flush_all idx (match streams m !! i with Some st => set_stream i (mark_eos st) m | None => m end)
    end
  end.

Definition write_trailer (m : muxer) : result error unit * muxer :=
  if negb (header_written m) then (Err (InvalidData "trailer written before the header"), m)
  else if trailer_written m then (Err (InvalidData "trailer written twice"), m)
  else flush_all (seq 0 (length (streams m))) (set_trailer m).
