(* ===== verification/OggDemux.v ===== *)
(** * OggDemux: pages back into packets

    [src/crates/format/vaco-demux-ogg/src/demux.rs]: cutting pages from a source,
    the search for the next page after a damaged one, and the reassembly of each
    logical stream's packets across pages, under a budget. The source is a buffer
    with a position. Of a logical stream the fields that reassembly reads are here;
    the rest of it, and what becomes of a completed packet, is in [OggRead]. *)

From Stdlib Require Import ZArith Lia.
From stdpp Require Import prelude strings.
From S2P Require Import Prelude Bits Error Limits OggPage.

Definition MAX_RESYNC_BYTES : Z := Z.shiftl 1 20.
Definition MAX_RESYNC_ATTEMPTS : nat := Z.to_nat 4096.
Definition MAX_PACKET_BYTES : Z := Z.shiftl 32 20.

Record demux_stats : Type := OggDemuxStats {
  crc_failures : Z; resync_bytes : Z; dangling_continuations : Z; oversized_packets : Z; sequence_gaps : Z }.

Definition stats_default : demux_stats := OggDemuxStats 0 0 0 0 0.

(** The fields of a stream that reassembly reads. *)
Record logical_stream : Type := LogicalStream {
  lserial : Z; lpending : list Z; pending_open : bool; last_sequence : option Z; leos : bool }.

Record demuxer : Type := OggDemuxer {
  data : list Z; pos : Z; logical : list logical_stream; dbudget : budget; deof : bool; stats : demux_stats }.

Definition demuxer_new (data : list Z) (l : limits) : demuxer := OggDemuxer data 0 [] (Limits.new l) false stats_default.

Definition set_pos (p : Z) (d : demuxer) : demuxer :=
  OggDemuxer (data d) p (logical d) (dbudget d) (deof d) (stats d).
Definition set_logical (ls : list logical_stream) (d : demuxer) : demuxer :=
  OggDemuxer (data d) (pos d) ls (dbudget d) (deof d) (stats d).
Definition set_budget (b : budget) (d : demuxer) : demuxer :=
  OggDemuxer (data d) (pos d) (logical d) b (deof d) (stats d).
Definition set_eof (d : demuxer) : demuxer :=
  OggDemuxer (data d) (pos d) (logical d) (dbudget d) true (stats d).
Definition set_stats (s : demux_stats) (d : demuxer) : demuxer :=
  OggDemuxer (data d) (pos d) (logical d) (dbudget d) (deof d) s.

Definition count_crc (s : demux_stats) : demux_stats :=
  OggDemuxStats (sat_u 64 (crc_failures s + 1)) (resync_bytes s) (dangling_continuations s) (oversized_packets s) (sequence_gaps s).
Definition count_resync (n : Z) (s : demux_stats) : demux_stats :=
  OggDemuxStats (crc_failures s) (sat_u 64 (resync_bytes s + n)) (dangling_continuations s) (oversized_packets s) (sequence_gaps s).
Definition count_dangling (s : demux_stats) : demux_stats :=
  OggDemuxStats (crc_failures s) (resync_bytes s) (sat_u 64 (dangling_continuations s + 1)) (oversized_packets s) (sequence_gaps s).
Definition count_oversized (s : demux_stats) : demux_stats :=
  OggDemuxStats (crc_failures s) (resync_bytes s) (dangling_continuations s) (sat_u 64 (oversized_packets s + 1)) (sequence_gaps s).
Definition count_gap (s : demux_stats) : demux_stats :=
  OggDemuxStats (crc_failures s) (resync_bytes s) (dangling_continuations s) (oversized_packets s) (sat_u 64 (sequence_gaps s + 1)).

(** [IoContext::read_exact] on a source in memory. *)
Definition read_exact (n : Z) (d : demuxer) : result error (list Z) * demuxer :=
  match get_range (data d) (pos d) (pos d + n) with
  | Some chunk => (Ok chunk, set_pos (pos d + n) d)
  | None => (Err UnexpectedEof, set_pos (zlen (data d)) d)
  end.

(** ** The next page *)

Inductive scan_result : Type := Found (at_ : Z) | TooFar (at_ : Z) | ScanEof.

Fixpoint scan (limit : Z) (window rest : list Z) (at_ : Z) : scan_result :=
  if bool_decide (window = CAPTURE_PATTERN) then Found at_
  else
    let at_ := at_ + 1 in
    if limit <=? at_ then TooFar at_
    else match rest with
         | [] => ScanEof
         | next :: rest => scan limit (tail window ++ [next]) rest at_
         end.

Definition resync_from (after : Z) (d : demuxer) : result error unit * demuxer :=
  let from := sat_u 64 (after + 1) in
  let limit := sat_u 64 (from + MAX_RESYNC_BYTES) in
  match read_exact 4 (set_pos from d) with
  | (Err _, d) => (Err Eof, set_eof d)
  | (Ok window, d) =>
    match scan limit window (default [] (get_from (data d) (pos d))) from with
    | Found at_ => (Ok tt, set_stats (count_resync (at_ - from) (stats d)) (set_pos at_ d))
    | TooFar at_ => (Err (InvalidData "no Ogg page found within the resync window"), set_pos (at_ + 3) d)
    | ScanEof => (Err Eof, set_eof (set_pos (zlen (data d)) d))
    end
  end.

Definition charge_bytes (n : Z) (d : demuxer) : result error unit * demuxer :=
  match charge (dbudget d) n with
  | Err e => (Err (from_limit e), d)
  | Ok b => (Ok tt, set_budget b d)
  end.
Definition release_bytes (n : Z) (d : demuxer) : demuxer := set_budget (release (dbudget d) n) d.

(** One turn of the loop of [read_one_page]: a page, or another turn. *)
Definition read_attempt (d : demuxer) : result error (option (page_header * list Z)) * demuxer :=
  let p := pos d in
  let again d := match resync_from p d with (Err e, d) => (Err e, d) | (Ok _, d) => (Ok None, d) end in
  match read_exact FIXED_HEADER_LEN d with
  | (Err UnexpectedEof, d) => (Err Eof, set_eof d)
  | (Err e, d) => (Err e, d)
  | (Ok fixed, d) =>
    if bool_decide (get_range fixed 0 4 <> Some CAPTURE_PATTERN) then again d
    else
      match read_exact (default 0 (fixed !! 26%nat)) d with
      | (Err _, d) => (Err Eof, set_eof d)
      | (Ok segs, d) =>
        match parse_header (fixed ++ segs) with
        | Err _ => again d
        | Ok (header, _) =>
          let len := body_len (segments header) in
          match charge_bytes len d with
          | (Err e, d) => (Err e, d)
          | (Ok _, d) =>
            match read_exact len d with
            | (Err _, d) => (Err Eof, set_eof (release_bytes len d))
            | (Ok body, d) =>
              let d := release_bytes len d in
              match verify_checksum (fixed ++ segs ++ body) with
              | Ok true => (Ok (Some (header, body)), d)
              | _ => again (set_stats (count_crc (stats d)) d)
              end
            end
          end
        end
      end
  end.

Fixpoint read_attempts (n : nat) (d : demuxer) : result error (page_header * list Z) * demuxer :=
  match n with
  | O => (Err (InvalidData "too many consecutive invalid Ogg pages"), d)
  | S n =>
    match read_attempt d with
    | (Err e, d) => (Err e, d)
    | (Ok (Some page), d) => (Ok page, d)
    | (Ok None, d) => read_attempts n d
    end
  end.

Definition read_one_page (d : demuxer) : result error (page_header * list Z) * demuxer :=
  read_attempts MAX_RESYNC_ATTEMPTS d.

(** ** Reassembly *)

Definition logical_index (serial : Z) (d : demuxer) : option nat :=
  fst <$> list_find (fun l => lserial l = serial) (logical d).

Definition on_logical (i : nat) (f : logical_stream -> logical_stream) (d : demuxer) : demuxer :=
  set_logical (alter f i (logical d)) d.

(** [begin_logical_stream]: what it leaves in [logical]. *)
Definition begin_logical_stream (h : page_header) (d : demuxer) : nat * demuxer :=
  (length (logical d), set_logical (logical d ++ [LogicalStream (serial h) [] false None false]) d).

Definition check_sequence_gap (i : nat) (sequence : Z) (d : demuxer) : demuxer :=
  match logical d !! i with
  | None => d
  | Some l =>
    let gap := match last_sequence l with Some prev => negb (sequence =? wrap_u 32 (prev + 1)) | None => false end in
    let d := if gap then set_stats (count_gap (stats d)) d else d in
    on_logical i (fun l => LogicalStream (lserial l) (lpending l) (pending_open l) (Some sequence) (leos l)) d
  end.

Definition set_pending (p : list Z) (open : bool) (l : logical_stream) : logical_stream :=
  LogicalStream (lserial l) p open (last_sequence l) (leos l).

Definition discard_pending (i : nat) (d : demuxer) : demuxer :=
  match logical d !! i with
  | None => d
  | Some l => release_bytes (zlen (lpending l)) (on_logical i (set_pending [] false) d)
  end.

Definition append_pending (i : nat) (chunk : list Z) (d : demuxer) : result error unit * demuxer :=
  match charge_bytes (zlen chunk) d with
  | (Err e, d) => (Err e, d)
  | (Ok _, d) =>
    match logical d !! i with
    | None => (Ok tt, d)
    | Some l =>
      if MAX_PACKET_BYTES <? sat_u 64 (zlen (lpending l) + zlen chunk) then
        let d := on_logical i (set_pending [] false) d in
        let d := release_bytes (zlen chunk) (release_bytes (zlen (lpending l)) d) in
        (Ok tt, set_stats (count_oversized (stats d)) d)
      else (Ok tt, on_logical i (fun l => set_pending (lpending l ++ chunk) (pending_open l) l) d)
    end
  end.

Definition take_pending (i : nat) (d : demuxer) : option (list Z) * demuxer :=
  match logical d !! i with
  | None => (None, d)
  | Some l => (Some (lpending l), release_bytes (zlen (lpending l)) (on_logical i (set_pending [] false) d))
  end.

(** The spans after a continued one. *)
Fixpoint take_spans (i : nat) (body : list Z) (spans : list packet_span) (completed : list (list Z)) (d : demuxer)
    : result error (list (list Z)) * demuxer :=
  match spans with
  | [] => (Ok completed, d)
  | s :: spans =>
    let chunk := default [] (get_range body (start s) (stop s)) in
    if complete s then take_spans i body spans (completed ++ [chunk]) d
    else
      match append_pending i chunk d with
      | (Err e, d) => (Err e, d)
      | (Ok _, d) => take_spans i body spans completed (on_logical i (fun l => set_pending (lpending l) true l) d)
      end
  end.

(** The span a page begins with. *)
Definition lead_span (i : nat) (continuing : bool) (body : list Z) (spans : list packet_span) (d : demuxer)
    : result error (list packet_span * list (list Z)) * demuxer :=
  match spans with
  | [] => (Ok (spans, []), d)
  | first :: rest =>
    let has_pending := default false (pending_open <$> logical d !! i) in
    let d := if Bool.eqb continuing has_pending then d
             else discard_pending i (set_stats (count_dangling (stats d)) d) in
    if continuing && has_pending then
      match append_pending i (default [] (get_range body (start first) (stop first))) d with
      | (Err e, d) => (Err e, d)
      | (Ok _, d) =>
        if complete first then
          let '(p, d) := take_pending i d in
          (Ok (rest, match p with Some p => [p] | None => [] end), d)
        else (Ok (rest, []), d)
      end
    else (Ok (spans, []), d)
  end.

(** The packets a page completes for its stream. *)
Definition stream_packets (i : nat) (h : page_header) (body : list Z) (d : demuxer) : result error (list (list Z)) * demuxer :=
  let d := check_sequence_gap i (sequence h) d in
  match lead_span i (contains (hflags h) CONTINUED) body (packet_spans (segments h)) d with
  | (Err e, d) => (Err e, d)
  | (Ok (spans, completed), d) => take_spans i body spans completed d
  end.

Definition end_of_stream (i : nat) (h : page_header) (d : demuxer) : demuxer :=
  if contains (hflags h) EOS then
    on_logical i (fun l => LogicalStream (lserial l) (lpending l) (pending_open l) (last_sequence l) true) d
  else d.

(** ** Reading ends *)

Definition inside (d : demuxer) : Prop := 0 <= pos d <= zlen (data d) /\ buffer (data d).

(** The source stays and the position moves on, by [n] at least. *)
Definition ahead (n : Z) (d d' : demuxer) : Prop := data d' = data d /\ inside d' /\ pos d + n <= pos d'.

Lemma ahead_trans n d d' d'' m : ahead n d d' -> ahead m d' d'' -> ahead (n + m) d d''.
Proof. intros (E & H & L) (E' & H' & L'). split_and!; [congruence|done|lia]. Qed.

(** What an error leaves: a recoverable one is past a byte at least. *)
Definition grade (e : error) : Z := if is_recoverable e then 1 else 0.

Lemma ahead_weaken n m d d' : ahead n d d' -> m <= n -> ahead m d d'.
Proof. intros (E & H & L) Hm. split_and!; [done..|lia]. Qed.

(** Changes that leave source and position alone. *)
Definition still (d d' : demuxer) : Prop := data d' = data d /\ pos d' = pos d.

Lemma still_inside d d' : still d d' -> inside d -> inside d'.
Proof. unfold inside. by intros [-> ->]. Qed.

Lemma still_ahead d d' : still d d' -> inside d -> ahead 0 d d'.
Proof. intros H Hi. split_and!; [apply H|by eapply still_inside|]. destruct H as [_ ->]. lia. Qed.

Lemma still_trans d d' d'' : still d d' -> still d' d'' -> still d d''.
Proof. intros [E1 E2] [E3 E4]. split; congruence. Qed.

Lemma read_exact_spec n d : inside d -> 0 <= n ->
  match read_exact n d with
  | (Ok chunk, d') => ahead n d d' /\ zlen chunk = n /\ get_range (data d) (pos d) (pos d + n) = Some chunk /\ pos d' = pos d + n
  | (Err e, d') => e = UnexpectedEof /\ data d' = data d /\ inside d' /\ pos d <= pos d'
  end.
Proof.
  intros [Hp Hl] Hn. unfold read_exact. destruct (get_range _ _ _) as [chunk|] eqn:E.
  - unfold get_range in E. destruct (_ && _) eqn:B in E; [|done]. breflect. injection E as <-.
    split_and!; [split_and!; [done|split; cbn; [lia|done]|cbn; lia]| |done|done].
    unfold zlen in *. rewrite length_take, length_drop. lia.
  - split_and!; [done|done|split; cbn; [lia|done]|cbn; lia].
Qed.

Lemma scan_bounds limit window rest at_ : match scan limit window rest at_ with
  | Found a => at_ <= a <= at_ + zlen rest | TooFar a => at_ < a <= at_ + 1 + zlen rest | ScanEof => True end.
Proof.
  revert window at_. induction rest as [|b rest IH]; intros window at_; cbn [scan];
    (case_bool_decide; [match goal with |- context [zlen ?l] => pose proof (zlen_nonneg l) end; lia|]); (case Z.leb_spec; intros).
  - unfold zlen. cbn. lia.
  - done.
  - rewrite zlen_cons. pose proof (zlen_nonneg rest). lia.
  - specialize (IH (tail window ++ [b]) (at_ + 1)). rewrite zlen_cons. destruct (scan _ _ _ _); lia.
Qed.

Lemma resync_ahead after d : inside d -> 0 <= after < zlen (data d) ->
  match resync_from after d with
  | (Ok _, d') => data d' = data d /\ inside d' /\ after + 1 <= pos d'
  | (Err e, d') => data d' = data d /\ inside d' /\ after + 1 <= pos d'
  end.
Proof.
  intros [Hp Hb] Ha. pose proof Hb as [_ Hl]. unfold resync_from. rewrite (sat_u_id 64 (after + 1)) by lia.
  assert (Hi : inside (set_pos (after + 1) d)) by (split; cbn; [lia|done]).
  pose proof (read_exact_spec 4 _ Hi ltac:(lia)) as Hr. destruct (read_exact 4 _) as [[w|e] d1].
  2: { destruct Hr as (_ & Hd & Hi1 & Hp1). cbn [set_pos set_eof data pos] in *. split_and!; [done|exact Hi1|lia]. }
  destruct Hr as ((Hd & Hi1 & Hp1) & _ & _ & Epos). cbn [set_pos data pos] in *.
  destruct (get_from (data d1) (pos d1)) as [rest|] eqn:Er.
  2: { unfold get_from in Er. destruct (_ && _) eqn:B in Er; [done|]. destruct Hi1 as [Hi1 _]. apply andb_false_iff in B as [B|B]; apply Z.leb_gt in B; lia. }
  apply get_from_Some in Er as [_ ->]. cbn [from_option id].
  pose proof (scan_bounds (sat_u 64 (after + 1 + MAX_RESYNC_BYTES)) w (drop (Z.to_nat (pos d1)) (data d1)) (after + 1)) as Hs.
  rewrite zlen_drop in Hs by apply Hi1. destruct Hi1 as [Hi1 Hl1].
  destruct (scan _ _ _ _) as [a|a|]; cbn [set_stats set_pos set_eof data pos]; (split_and!; [done|split; cbn; [rewrite ?Hd in *; lia|done]|rewrite ?Hd in *; lia]).
Qed.

Lemma charge_still n d : still d (snd (charge_bytes n d)).
Proof. unfold charge_bytes. by destruct (charge _ _). Qed.

Lemma body_len_nonneg l : is_bytes l -> 0 <= body_len l.
Proof. induction 1; cbn; [done|]. unfold body_len in *. lia. Qed.

Lemma fixed_count fixed : is_bytes fixed -> 0 <= default 0 (fixed !! 26%nat) < 256.
Proof. intros H. destruct (fixed !! 26%nat) as [n|] eqn:E; cbn; [|lia]. exact (Forall_lookup_1 _ _ _ _ H E). Qed.

Lemma parse_header_segments l h n : parse_header l = Ok (h, n) -> get_range l FIXED_HEADER_LEN n = Some (segments h).
Proof.
  unfold parse_header.
  repeat match goal with
  | |- mbind _ ?r = _ -> _ => destruct r eqn:?; cbn [mbind result_bind]; [|discriminate]
  | |- (if ?b then _ else _) = _ -> _ => destruct b; [discriminate|]
  end.
  intros [= <- <-]. cbn [segments]. by match goal with H : ok_or (get_range l FIXED_HEADER_LEN ?e) _ = Ok ?x |- _ =>
    destruct (get_range l FIXED_HEADER_LEN e); [injection H as <-|discriminate H] end.
Qed.

(** A turn of the reader gets past where it started, or says the end. *)
Lemma read_attempt_ahead d : inside d ->
  match read_attempt d with
  | (Ok _, d') => ahead 1 d d'
  | (Err e, d') => ahead (grade e) d d'
  end.
Proof.
  intros Hi. pose proof Hi as [Hp0 [Hb0 _]]. unfold read_attempt.
  assert (Hagain : forall d2, data d2 = data d -> inside d2 -> pos d + 27 <= pos d2 ->
    match (match resync_from (pos d) d2 with (Err e, d0) => (Err e, d0) | (Ok _, d0) => (Ok None, d0) end : result error (option (page_header * list Z)) * demuxer) with
    | (Ok _, d') => ahead 1 d d'
    | (Err e, d') => ahead (grade e) d d' end).
  { intros d2 Hd2 Hi2 Hp2. pose proof (resync_ahead (pos d) d2 Hi2) as H.
    destruct (resync_from (pos d) d2) as [[u|e] d3].
    - destruct H as (E & H & L); [destruct Hi2; lia|]. split_and!; [congruence|done|lia].
    - destruct H as (E & H & L); [destruct Hi2; lia|]. split_and!; [congruence|done|unfold grade; destruct (is_recoverable e); lia]. }
  assert (Hend : forall d2, data d2 = data d -> inside d2 -> pos d <= pos d2 -> ahead (grade Eof) d (set_eof d2)) by (intros; split_and!; cbn; [done..|lia]).
  pose proof (read_exact_spec FIXED_HEADER_LEN d Hi ltac:(done)) as H1.
  destruct (read_exact FIXED_HEADER_LEN d) as [[fixed|e] d1]; [|destruct H1 as (-> & E1 & I1 & L1); by apply Hend].
  destruct H1 as ((E1 & I1 & L1) & _ & G1 & _). unfold FIXED_HEADER_LEN in L1. pose proof (get_range_Forall _ _ _ _ _ Hb0 G1) as Hfb.
  case_bool_decide; [by apply Hagain|]. pose proof (fixed_count fixed Hfb) as Hn.
  pose proof (read_exact_spec _ d1 I1 (proj1 Hn)) as H2.
  destruct (read_exact _ d1) as [[segs|e] d2]; [|destruct H2 as (_ & E2 & I2 & L2); apply Hend; [congruence|done|lia]]. destruct H2 as ((E2 & I2 & L2) & _ & G2 & _).
  assert (Hsb : is_bytes segs) by (eapply get_range_Forall; [|exact G2]; by rewrite E1).
  destruct (parse_header _) as [[h n]|e] eqn:Eh; [|apply Hagain; [congruence|done|lia]].
  assert (Hh : is_bytes (segments h)).
  { apply parse_header_segments in Eh. eapply get_range_Forall; [|exact Eh]. by apply Forall_app. }
  pose proof (charge_still (body_len (segments h)) d2) as Hst.
  destruct (charge_bytes _ d2) as [[u|e] d3] eqn:Ec.
  2: { pose proof (still_inside _ _ Hst I2). cbn [snd] in Hst. destruct Hst as [Es Ep].
    assert (grade e = 0) as -> by (unfold charge_bytes in Ec; destruct (charge _ _) as [|le]; [done|]; injection Ec as <- <-; by destruct le).
    split_and!; [congruence|done|lia]. }
  cbn [snd] in Hst. pose proof (still_inside _ _ Hst I2) as I3. destruct Hst as [E3 P3].
  pose proof (read_exact_spec _ d3 I3 (body_len_nonneg _ Hh)) as H4.
  destruct (read_exact _ d3) as [[body|e] d4].
  2: { destruct H4 as (_ & E4 & I4 & L4). apply (Hend (release_bytes _ d4)); [cbn; congruence|done|cbn; lia]. }
  destruct H4 as ((E4 & I4 & L4) & _).
  pose proof (body_len_nonneg _ Hh).
  assert (Hgo : data d4 = data d /\ pos d + 27 <= pos d4) by (split; [congruence|lia]).
  destruct (verify_checksum _) as [[|]|e]; [|apply Hagain; [apply Hgo|exact I4|apply Hgo]..].
  split_and!; cbn; [apply Hgo|done|lia].
Qed.

Lemma read_attempts_ahead n : forall d, inside d ->
  match read_attempts n d with
  | (Ok _, d') => ahead 1 d d'
  | (Err e, d') => n <> O -> ahead (grade e) d d'
  end.
Proof.
  induction n as [|n IH]; intros d Hi; [done|]. cbn [read_attempts]. pose proof (read_attempt_ahead d Hi) as H.
  destruct (read_attempt d) as [[[page|]|e] d1]; [done| |by intros _].
  destruct n as [|n]; [by intros _|]. specialize (IH d1 (proj1 (proj2 H))).
  destruct (read_attempts (S n) d1) as [[page|e] d2].
  - eapply ahead_weaken; [by eapply ahead_trans|lia].
  - intros _. eapply ahead_weaken; [eapply ahead_trans; [exact H|by apply IH]|lia].
Qed.

Lemma append_still i chunk d : still d (snd (append_pending i chunk d)).
Proof.
  unfold append_pending. pose proof (charge_still (zlen chunk) d) as H. destruct (charge_bytes _ _) as [[u|e] d1]; [|done].
  destruct (logical d1 !! i); [|done]. by destruct (_ <? _).
Qed.

Lemma take_spans_still i body spans : forall completed d, still d (snd (take_spans i body spans completed d)).
Proof.
  induction spans as [|s spans IH]; intros completed d; cbn [take_spans]; [done|]. destruct (complete s); [apply IH|].
  pose proof (append_still i (default [] (get_range body (start s) (stop s))) d) as H.
  destruct (append_pending _ _ _) as [[u|e] d1]; [|done]. eapply still_trans; [exact H|].
  eapply still_trans; [|apply IH]. done.
Qed.

Lemma discard_still i d : still d (discard_pending i d).
Proof. unfold discard_pending. by destruct (logical d !! i). Qed.

Lemma take_pending_still i d : still d (snd (take_pending i d)).
Proof. unfold take_pending. by destruct (logical d !! i). Qed.

Lemma lead_span_still i c body spans d : still d (snd (lead_span i c body spans d)).
Proof.
  unfold lead_span. destruct spans as [|first rest]; [done|]. set (hp := default false _).
  set (d1 := if Bool.eqb c hp then d else _).
  assert (H1 : still d d1) by (unfold d1; destruct (Bool.eqb c hp); [done|apply (discard_still i (set_stats _ d))]).
  destruct (c && hp); [|done].
  pose proof (append_still i (default [] (get_range body (start first) (stop first))) d1) as H2.
  destruct (append_pending _ _ _) as [[u|e] d2]; [|by eapply still_trans].
  destruct (complete first); [|by eapply still_trans].
  pose proof (take_pending_still i d2) as H3. destruct (take_pending i d2) as [p d3].
  eapply still_trans; [exact H1|]. by eapply still_trans.
Qed.

Lemma check_sequence_still i q d : still d (check_sequence_gap i q d).
Proof. unfold check_sequence_gap. destruct (logical d !! i) as [l|]; [|done]. by destruct (last_sequence l) as [p|]; [destruct (negb _)|]. Qed.

Lemma stream_packets_still i h body d : still d (snd (stream_packets i h body d)).
Proof.
  unfold stream_packets. pose proof (check_sequence_still i (sequence h) d) as H2. set (d3 := check_sequence_gap _ _ _) in *.
  pose proof (lead_span_still i (contains (hflags h) CONTINUED) body (packet_spans (segments h)) d3) as H3.
  destruct (lead_span _ _ _ _ _) as [[[spans completed]|e] d4]; cbn [snd] in *; [|by eapply still_trans].
  eapply still_trans; [by eapply still_trans|]. apply take_spans_still.
Qed.

Lemma end_of_stream_still i h d : still d (end_of_stream i h d).
Proof. unfold end_of_stream. by destruct (contains _ _). Qed.

(** A page is past where the reader stood, and so is the place where it gives up on one. *)
Lemma page_ahead d : inside d ->
  match read_one_page d with
  | (Ok _, d') => ahead 1 d d'
  | (Err e, d') => ahead (grade e) d d'
  end.
Proof.
  intros Hi. unfold read_one_page. pose proof (read_attempts_ahead MAX_RESYNC_ATTEMPTS d Hi) as H.
  destruct (read_attempts _ d) as [[page|e] d1]; [done|]. by apply H.
Qed.
