(* ===== verification/OggRead.v ===== *)
(** * OggRead: the Ogg demuxer

    [src/crates/format/vaco-demux-ogg/src/demux.rs], on the pages and packets of
    [OggDemux]: streams and what their headers say, the time stamps of packets,
    opening, reading, seeking, and the search of the file's tail for durations. A
    logical stream of the code is an entry of [logical] and the entry of [infos] at
    the same index; of a stream's parameters the channel layout is left out. The
    source is in memory: it can be sought, or acts as a pipe ([seekable] false). The
    allocator and the provider of parsers are parameters. *)

From Stdlib Require Import ZArith Lia.
From stdpp Require Import prelude strings.
From S2P Require Import Prelude Bits Rational Time Error Limits PixFmt Media OggPage OggTime OggDemux.

Definition MAX_HEADER_SCAN_BYTES : Z := Z.shiftl 8 20.
Definition TAIL_SCAN_WINDOW : Z := Z.shiftl 256 10.

(** ** Streams *)

Inductive media_type : Type := Audio | Video | Data.
Inductive codec_id : Type := IdOpus | IdVorbis | IdFlac | IdTheora.
Inductive sample_fmt : Type := S16 | S32 | F32P.

Record audio_parameters : Type := AudioParameters {
  sample_rate : Z; initial_padding : Z; bits_per_raw_sample : option Z; sformat : option sample_fmt }.

Record video_parameters : Type := VideoParameters {
  vwidth : Z; vheight : Z; coded_width : Z; coded_height : Z; frame_rate : rational }.

Record codec_parameters : Type := CodecParameters {
  media : media_type; codec : option codec_id; extradata : option (list Z);
  audio : option audio_parameters; video : option video_parameters }.

Record stream : Type := Stream {
  index : Z; time_base : rational; params : codec_parameters; metadata : list (list Z * list Z);
  sduration_ts : option Z }.

Definition set_extradata (e : list Z) (s : stream) : stream :=
  let p := params s in
  Stream (index s) (time_base s) (CodecParameters (media p) (codec p) (Some e) (audio p) (video p)) (metadata s) (sduration_ts s).

Fixpoint metadata_put (key value : list Z) (m : list (list Z * list Z)) : list (list Z * list Z) :=
  match m with
  | [] => [(key, value)]
  | (k, v) :: m =>
    if bool_decide (Codec.to_ascii_lowercase k = Codec.to_ascii_lowercase key) then (k, value) :: m
    else (k, v) :: metadata_put key value m
  end.

Definition metadata_set (kv : list Z * list Z) (s : stream) : stream :=
  Stream (index s) (time_base s) (params s) (metadata_put (fst kv) (snd kv) (metadata s)) (sduration_ts s).

Definition set_duration_ts (ticks : Z) (s : stream) : stream :=
  Stream (index s) (time_base s) (params s) (metadata s) (if 0 <=? ticks then Some ticks else None).

Definition safe_rational (n d : Z) : rational :=
  if d =? 0 then ONE
  else match checked_i 32 n, checked_i 32 d with Some n, Some d => Rational n d | _, _ => ONE end.

Definition describe (c : Codec.ogg_codec) (bos : list Z) : media_type * rational * codec_parameters :=
  match c with
  | Codec.Opus =>
    let ident := Codec.parse_opus_head bos in
    (Audio, opus_time_base, CodecParameters Audio (Some IdOpus) (Some bos)
      (Some (AudioParameters (Z.abs (den opus_time_base)) (default 0 (Codec.pre_skip <$> ident)) None (Some F32P))) None)
  | Codec.Vorbis =>
    let ident := Codec.parse_vorbis_ident bos in
    let rate := default 0 (Codec.sample_rate <$> ident) in
    (Audio, safe_rational 1 rate, CodecParameters Audio (Some IdVorbis) (Some bos)
      (Some (AudioParameters rate (default 0 ((fun v => Z.shiftr (Codec.blocksize_1 v) 1) <$> ident)) None (Some F32P))) None)
  | Codec.Flac =>
    let info := Codec.parse_flac_streaminfo bos in
    let rate := default 0 (Codec.frate <$> info) in
    (Audio, safe_rational 1 rate, CodecParameters Audio (Some IdFlac) (Some bos)
      (Some (AudioParameters rate 0 (Codec.bits_per_sample <$> info)
        ((fun i => if 16 <? Codec.bits_per_sample i then S32 else S16) <$> info))) None)
  | Codec.Speex =>
    let ident := Codec.parse_speex_ident bos in
    let rate := default 0 (Codec.rate <$> ident) in
    (Audio, safe_rational 1 rate, CodecParameters Audio None (Some bos) (Some (AudioParameters rate 0 None None)) None)
  | Codec.Theora =>
    let ident := Codec.parse_theora_ident bos in
    let rate := match ident with Some t => safe_rational (Codec.fps_numerator t) (Codec.fps_denominator t) | None => safe_rational 0 1 end in
    let w := default 0 (Codec.width <$> ident) in
    let h := default 0 (Codec.height <$> ident) in
    (Video, if is_defined rate && negb (is_zero rate) then inverse rate else ONE,
      CodecParameters Video (Some IdTheora) (Some bos) None (Some (VideoParameters w h w h rate)))
  | Codec.Unknown => (Data, ONE, CodecParameters Data None None None None)
  end.

(** A parser's [packet_duration], once it was given the first packet. *)
Definition parser : Type := list Z -> option rational.

(** The rest of a logical stream. *)
Record stream_info : Type := StreamInfo {
  istream_index : Z; icodec : Codec.ogg_codec; imapping : granule_mapping; itimeline : timeline;
  itime_base : rational; header_total : Z; header_seen : Z; header_bytes : list (list Z); iparser : option parser }.

Definition set_seen (n : Z) (f : stream_info) : stream_info :=
  StreamInfo (istream_index f) (icodec f) (imapping f) (itimeline f) (itime_base f) (header_total f) n (header_bytes f) (iparser f).
Definition set_header_bytes (h : list (list Z)) (f : stream_info) : stream_info :=
  StreamInfo (istream_index f) (icodec f) (imapping f) (itimeline f) (itime_base f) (header_total f) (header_seen f) h (iparser f).
Definition set_timeline (t : timeline) (f : stream_info) : stream_info :=
  StreamInfo (istream_index f) (icodec f) (imapping f) t (itime_base f) (header_total f) (header_seen f) (header_bytes f) (iparser f).

(** A packet, with the exact duration it carries beside. *)
Record timed_packet : Type := TimedPacket { packet_of : Media.packet; pduration_ts : Z }.

Record reader : Type := OggDemuxer' {
  core : demuxer; infos : list stream_info; rstreams : list stream; queue : list timed_packet }.

Definition set_core (d : demuxer) (r : reader) : reader := OggDemuxer' d (infos r) (rstreams r) (queue r).
Definition on_info (i : nat) (f : stream_info -> stream_info) (r : reader) : reader :=
  OggDemuxer' (core r) (alter f i (infos r)) (rstreams r) (queue r).
Definition on_stream (i : Z) (f : stream -> stream) (r : reader) : reader :=
  OggDemuxer' (core r) (infos r) (alter f (Z.to_nat i) (rstreams r)) (queue r).
Definition set_queue (q : list timed_packet) (r : reader) : reader := OggDemuxer' (core r) (infos r) (rstreams r) q.

(** What a provider gives for Opus, from the first packet. *)
Definition provider : Type := option (list Z -> parser).

(** The first packet of a page, or what there is of it. *)
Definition bos_bytes (h : page_header) (body : list Z) : list Z :=
  match packet_spans (segments h) with
  | s :: _ => default [] (get_range body (start s) (stop s))
  | [] => []
  end.

Definition begin_stream (parsers : provider) (h : page_header) (body : list Z) (r : reader) : nat * reader :=
  let bos := bos_bytes h body in
  let c := Codec.identify bos in
  let '(m, tb, p) := describe c bos in
  let n := zlen (rstreams r) in
  let stream_index := if in_u 32 n then n else 2 ^ 32 - 1 in
  let parser := match c with Codec.Opus => (fun parser_for => parser_for bos) <$> parsers | _ => None end in
  let '(i, d) := begin_logical_stream h (core r) in
  (i, OggDemuxer' d
    (infos r ++ [StreamInfo stream_index c (from_bos c bos) timeline_new tb (Codec.total_header_packets c bos) 0 [] parser])
    (rstreams r ++ [Stream stream_index tb p [] None]) (queue r)).

(** ** Headers and data *)

(** One header packet: the [n]-th of its stream. *)
Definition take_header (i : nat) (f : stream_info) (bytes : list Z) (r : reader) : reader :=
  let n := header_seen f in
  let r := on_info i (set_seen (sat_u 32 (n + 1))) r in
  let magic := match icodec f with
               | Codec.Vorbis => Some Codec.VORBIS_COMMENT_MAGIC
               | Codec.Opus => Some Codec.OPUS_COMMENT_MAGIC
               | _ => None end in
  let r := match magic with
           | Some magic =>
             if n =? 1 then on_stream (istream_index f) (fun s => fold_left (fun s kv => metadata_set kv s) (Codec.parse_comment_header bytes magic) s) r
             else r
           | None => r end in
  match icodec f with
  | Codec.Vorbis | Codec.Theora =>
    let headers := header_bytes f ++ [bytes] in
    if sat_u 32 (n + 1) =? header_total f then
      on_stream (istream_index f) (set_extradata (Codec.pack_xiph_headers headers)) (on_info i (set_header_bytes []) r)
    else on_info i (set_header_bytes headers) r
  | _ => r
  end.

(** The packets that are not headers. *)
Fixpoint classify (i : nat) (completed : list (list Z)) (r : reader) : list (list Z) * reader :=
  match completed with
  | [] => ([], r)
  | bytes :: completed =>
    match infos r !! i with
    | None => classify i completed r
    | Some f =>
      if header_seen f <? header_total f then classify i completed (take_header i f bytes r)
      else let '(data, r) := classify i completed r in (bytes :: data, r)
    end
  end.

Definition len_i64 (l : list Z) : Z := if in_i 64 (zlen l) then zlen l else 2 ^ 63 - 1.

(** The estimates of the durations of a page's packets. *)
Definition nominal_durations (f : stream_info) (page_granule : Z) (data : list (list Z)) : list Z :=
  let total_bytes := fold_right Z.add 0 (map len_i64 data) in
  let fallback_delta := (fun target => sat_i 64 (target - planned_cursor (imapping f) (itimeline f))) <$> OggTime.timestamp (imapping f) page_granule in
  map (fun b =>
    match nominal_duration (imapping f) (iparser f) (itime_base f) b with
    | Some d => d
    | None =>
      match fallback_delta with
      | None => 0
      | Some delta =>
        if total_bytes <=? 0 then Z.max (Z.quot delta (Z.max (zlen data) 1)) 0
        else Z.max (Z.quot (sat_i 64 (delta * len_i64 b)) total_bytes) 0
      end
    end) data.

Definition KEY : Z := 1.

Section reader.
Context (allowed : Z -> bool) (addr : Z -> Z).

(** The packets leave, as many as there is memory for. *)
Fixpoint emit (f : stream_info) (key : bool -> bool) (data : list (list Z)) (assigned : list (Z * Z)) (r : reader) : reader :=
  match data, assigned with
  | bytes :: data, (pts, dur) :: assigned =>
    match packet_from_slice allowed addr (dbudget (core r)) bytes with
    | (Err _, b) => emit f key data assigned (set_core (set_budget b (core r)) r)
    | (Ok p, b) =>
      let p := Packet (pdata p) (plen p) (istream_index f) (Some pts) (Some pts)
                 (default DUR_ZERO (to_duration (Some dur) (itime_base f))) (ppos p)
                 (if key (bool_decide (assigned = [])) then KEY else 0) in
      emit f key data assigned (set_queue (queue r ++ [TimedPacket p dur]) (set_core (set_budget b (core r)) r))
    end
  | _, _ => r
  end.

(** Whether a packet is a keyframe, of the last one on the page or another. *)
Definition is_key (f : stream_info) (page_granule : Z) (is_last : bool) : bool :=
  match imapping f with
  | TheoraGranule granule_shift =>
    let theora_mask := sat_i 64 (Z.shiftl 1 (Z.min granule_shift 62) - 1) in
    is_last && negb (page_granule =? GRANULE_UNSET) && (Z.land page_granule theora_mask =? 0)
  | _ => true
  end.

Definition classify_and_emit (i : nat) (page_granule : Z) (completed : list (list Z)) (r : reader) : reader :=
  let '(data, r) := classify i completed r in
  match data, infos r !! i with
  | [], _ | _, None => r
  | _, Some f =>
    let '(assigned, t) := assign (imapping f) page_granule (nominal_durations f page_granule data) (itimeline f) in
    emit f (is_key f page_granule) data assigned (on_info i (set_timeline t) r)
  end.

Definition pump_one_page (parsers : provider) (r : reader) : result error unit * reader :=
  match read_one_page (core r) with
  | (Err e, d) => (Err e, set_core d r)
  | (Ok (h, body), d) =>
    let r := set_core d r in
    let '(i, r) := match logical_index (serial h) d with Some i => (i, r) | None => begin_stream parsers h body r end in
    match stream_packets i h body (core r) with
    | (Err e, d) => (Err e, set_core d r)
    | (Ok completed, d) =>
      let r := classify_and_emit i (granule_position h) completed (set_core d r) in
      (Ok tt, set_core (end_of_stream i h (core r)) r)
    end
  end.

(** ** Opening *)

Definition headers_complete (r : reader) : bool :=
  bool_decide (infos r <> []) && forallb (fun f => header_total f <=? header_seen f) (infos r).

(** [None] is out of fuel. *)
Fixpoint open_loop (fuel : nat) (parsers : provider) (from : Z) (r : reader) : option (result error unit * reader) :=
  match fuel with
  | O => None
  | S fuel =>
    if (MAX_HEADER_SCAN_BYTES <=? sat_u 64 (pos (core r) - from)) || headers_complete r then Some (Ok tt, r)
    else
      match pump_one_page parsers r with
      | (Ok _, r) => open_loop fuel parsers from r
      | (Err Eof, r) => Some (Ok tt, r)
      | (Err e, r) => if is_recoverable e then open_loop fuel parsers from r else Some (Err e, r)
      end
  end.

(** The last granule position of each serial number, in the order first seen. *)
Fixpoint note_granule (s g : Z) (seen : list (Z * Z)) : list (Z * Z) :=
  match seen with
  | [] => [(s, g)]
  | (s', g') :: seen => if s' =? s then (s', g) :: seen else (s', g') :: note_granule s g seen
  end.

(** Every capture pattern of the buffer, from left to right; a match is stepped over. *)
Fixpoint tail_granules (skip : nat) (buf : list Z) (seen : list (Z * Z)) : list (Z * Z) :=
  match buf with
  | [] => seen
  | _ :: rest =>
    match skip with
    | S skip => tail_granules skip rest seen
    | O =>
      if bool_decide (take 4 buf = CAPTURE_PATTERN) then
        let seen := match parse_header buf with
                    | Ok (h, _) => match granule h with Some g => note_granule (serial h) g seen | None => seen end
                    | Err _ => seen end in
        tail_granules 3 rest seen
      else tail_granules O rest seen
    end
  end.

Definition set_tail_duration (r : reader) (sg : Z * Z) : reader :=
  match logical_index (fst sg) (core r) with
  | None => r
  | Some i =>
    match infos r !! i with
    | None => r
    | Some f =>
      match rstreams r !! Z.to_nat (istream_index f) with
      | None => r
      | Some s => match sduration_ts s with None => on_stream (istream_index f) (set_duration_ts (snd sg)) r | Some _ => r end
      end
    end
  end.

Definition scan_tail_for_durations (seekable : bool) (r : reader) : reader :=
  if negb seekable then r
  else
    let size := zlen (data (core r)) in
    let window := Z.min TAIL_SCAN_WINDOW size in
    let '(buf, b) := match alloc allowed (dbudget (core r)) 1 window with
                     | (Ok _, b) => (default [] (get_from (data (core r)) (sat_u 64 (size - window))), b)
                     | (Err _, b) => ([], b) end in
    fold_left set_tail_duration (tail_granules O buf []) (set_core (set_budget b (core r)) r).

Definition reader_new (file : list Z) (l : limits) : reader := OggDemuxer' (demuxer_new file l) [] [] [].

Definition open_with_limits (fuel : nat) (seekable : bool) (parsers : provider) (file : list Z) (l : limits)
    : option (result error reader) :=
  '(res, r) ← open_loop fuel parsers 0 (reader_new file l);
  Some
    match res with
    | Err e => Err e
    | Ok _ =>
      if bool_decide (rstreams r = []) then Err (InvalidData "no Ogg logical bitstream found")
      else Ok (scan_tail_for_durations seekable r)
    end.

(** ** Reading *)

Fixpoint read_packet (fuel : nat) (r : reader) : option (result error timed_packet * reader) :=
  match queue r with
  | p :: q => Some (Ok p, set_queue q r)
  | [] =>
    if deof (core r) then Some (Err Eof, r)
    else
      match fuel with
      | O => None
      | S fuel =>
        match pump_one_page None r with
        | (Ok _, r) => read_packet fuel r
        | (Err Eof, r) =>
          let r := set_core (set_eof (core r)) r in
          if bool_decide (queue r = []) then Some (Err Eof, r) else read_packet fuel r
        | (Err e, r) => if is_recoverable e then read_packet fuel r else Some (Err e, r)
        end
      end
  end.

Inductive seek_target : Type :=
  | Timestamp (stream_index : Z) (ts : Time.timestamp)
  | Byte (pos : Z)
  | Frame (stream_index frame : Z).

Definition seek (seekable : bool) (target : seek_target) (r : reader) : result error unit * reader :=
  match target with
  | Byte p =>
    if negb seekable then (Err NotSeekable, r)
    else
      let d := set_pos p (core r) in
      let d := OggDemuxer (OggDemux.data d) (pos d) (map (set_pending [] false) (logical d)) (dbudget d) false (stats d) in
      (Ok tt, OggDemuxer' d (infos r) (rstreams r) [])
  | _ => (Err (Unsupported "Ogg timestamp seeking"), r)
  end.

(** Packets until the error that ends them. [None] is out of fuel. *)
Fixpoint read_all (n fuel : nat) (r : reader) : option (list timed_packet * error * reader) :=
  match n with
  | O => None
  | S n =>
    match read_packet fuel r with
    | None => None
    | Some (Err e, r) => Some ([], e, r)
    | Some (Ok p, r) => '(ps, e, r) ← read_all n fuel r; Some (p :: ps, e, r)
    end
  end.

(** ** Reading ends *)

Lemma take_header_core i f bytes r : core (take_header i f bytes r) = core r.
Proof.
  unfold take_header. destruct (icodec f); try done; destruct (header_seen f =? 1); destruct (sat_u 32 (header_seen f + 1) =? header_total f); done.
Qed.

Lemma classify_core i completed : forall r, core (snd (classify i completed r)) = core r.
Proof.
  induction completed as [|bytes completed IH]; intros r; cbn [classify]; [done|]. destruct (infos r !! i) as [f|]; [|apply IH].
  destruct (header_seen f <? header_total f).
  - rewrite IH. apply take_header_core.
  - specialize (IH r). by destruct (classify i completed r).
Qed.

Lemma emit_still f key data : forall assigned r, still (core r) (core (emit f key data assigned r)).
Proof.
  induction data as [|bytes data IH]; intros [|[pts dur] assigned] r; cbn [emit]; [done..|].
  destruct (packet_from_slice _ _ _ _) as [[p|e] b]; (eapply still_trans; [|apply IH]); done.
Qed.

Lemma classify_and_emit_still i g completed r : still (core r) (core (classify_and_emit i g completed r)).
Proof.
  unfold classify_and_emit. pose proof (classify_core i completed r) as E. destruct (classify i completed r) as [data r1]. cbn [snd] in E.
  rewrite <- E. destruct data as [|b data]; [done|]. destruct (infos r1 !! i) as [f|]; [|done].
  destruct (assign _ _ _ _) as [assigned t]. apply (emit_still f _ (b :: data) assigned (on_info i (set_timeline t) r1)).
Qed.

Lemma begin_stream_core parsers h body r : still (core r) (core (snd (begin_stream parsers h body r))).
Proof. unfold begin_stream. by destruct (describe _ _) as [[m tb] p]. Qed.

Lemma grade_le e : 0 <= grade e <= 1.
Proof. unfold grade. destruct (is_recoverable e); lia. Qed.

Lemma pump_ahead parsers r : inside (core r) ->
  match pump_one_page parsers r with
  | (Ok _, r') => ahead 1 (core r) (core r')
  | (Err e, r') => ahead (grade e) (core r) (core r')
  end.
Proof.
  intros Hi. unfold pump_one_page. pose proof (page_ahead (core r) Hi) as H.
  destruct (read_one_page (core r)) as [[[h body]|e] d]; [|exact H]. clear Hi.
  set (ir := match logical_index (serial h) d with Some i => _ | None => _ end).
  assert (H1 : still d (core (snd ir))) by (unfold ir; destruct (logical_index _ _); [done|apply (begin_stream_core parsers h body (set_core d r))]).
  destruct ir as [i r1]. cbn [snd] in H1. pose proof (stream_packets_still i h body (core r1)) as H2.
  assert (Hall : forall d', still d d' -> ahead 1 (core r) d').
  { intros d' H4. eapply ahead_weaken; [eapply ahead_trans; [exact H|apply still_ahead; [exact H4|apply H]]|lia]. }
  destruct (stream_packets i h body (core r1)) as [[completed|e] d2]; cbn [snd] in H2.
  2: { eapply ahead_weaken; [apply Hall; by eapply still_trans|apply grade_le]. }
  apply Hall. eapply still_trans; [exact H1|]. eapply still_trans; [exact H2|]. cbn [set_core core].
  eapply still_trans; [|apply end_of_stream_still].
  exact (classify_and_emit_still i (granule_position h) completed (set_core d2 r1)).
Qed.

Lemma pump_error_queue parsers r e r' : pump_one_page parsers r = (Err e, r') -> queue r' = queue r.
Proof.
  unfold pump_one_page. destruct (read_one_page (core r)) as [[[h body]|e'] d]; [|by intros [= _ <-]].
  set (ir := match logical_index (serial h) d with Some i => _ | None => _ end).
  assert (H1 : queue (snd ir) = queue r).
  { unfold ir. destruct (logical_index _ _); [done|]. unfold begin_stream. by destruct (describe _ _) as [[m tb] p]. }
  destruct ir as [i r1]. cbn [snd] in H1. destruct (stream_packets i h body (core r1)) as [[completed|e'] d2]; [done|].
  by intros [= _ <-].
Qed.

(** The bytes a reader has before it. *)
Definition left (r : reader) : Z := zlen (OggDemux.data (core r)) - pos (core r).

Lemma left_ahead n r r' : ahead n (core r) (core r') -> left r' <= left r - n.
Proof. intros (E & _ & L). unfold left. rewrite E. lia. Qed.

(** What a stretch of the run leaves. *)
Definition after (r r' : reader) : Prop := inside (core r') /\ left r' <= left r.

Lemma after_ahead n r r' r'' : ahead n (core r) (core r') -> 0 <= n -> after r' r'' -> after r r''.
Proof. intros H Hn [H1 H2]. pose proof (left_ahead _ _ _ H). split; [done|lia]. Qed.

Lemma open_loop_returns parsers from fuel : forall r, inside (core r) -> left r < Z.of_nat fuel ->
  exists res r', open_loop fuel parsers from r = Some (res, r') /\ after r r'.
Proof.
  induction fuel as [|fuel IH]; intros r Hi Hf; [destruct Hi; unfold left in Hf; lia|]. cbn [open_loop].
  destruct (_ || _); [exists (Ok tt), r; split; [done|]; split; [done|lia]|].
  pose proof (pump_ahead parsers r Hi) as H. destruct (pump_one_page parsers r) as [[[]|e] r1].
  - destruct (IH r1 (proj1 (proj2 H))) as (res & r2 & -> & Hr); [apply left_ahead in H; lia|].
    exists res, r2. split; [done|]. by eapply after_ahead.
  - pose proof (grade_le e). assert (Hstop : after r r1) by (split; [apply H|apply left_ahead in H; lia]).
    unfold grade in H. destruct (is_recoverable e) eqn:Er.
    + destruct (IH r1 (proj1 (proj2 H))) as (res & r2 & E & Hr); [apply left_ahead in H; lia|].
      exists res, r2. split; [by destruct e|]. by eapply after_ahead.
    + exists (match e with Eof => Ok tt | _ => Err e end), r1. split; [by destruct e|done].
Qed.

Lemma read_packet_returns fuel : forall r, inside (core r) -> left r < Z.of_nat fuel ->
  exists res r', read_packet fuel r = Some (res, r') /\ after r r' /\
    match res with
    | Err e => is_recoverable e = false
    | Ok p => queue r = p :: queue r' /\ core r' = core r \/ left r' < left r
    end.
Proof.
  induction fuel as [|fuel IH]; intros r Hi Hf; [destruct Hi; unfold left in Hf; lia|]. cbn [read_packet].
  destruct (queue r) as [|p q] eqn:Eq.
  2: { exists (Ok p), (set_queue q r). split; [done|]. split; [split; [done|unfold left; cbn; lia]|]. by left. }
  destruct (deof (core r)) eqn:Ed; [exists (Err Eof), r; split_and!; [done|by split|done]|].
  pose proof (pump_ahead None r Hi) as H. destruct (pump_one_page None r) as [[[]|e] r1] eqn:Ep.
  - pose proof (left_ahead _ _ _ H) as Hl. destruct (IH r1 (proj1 (proj2 H))) as (res & r2 & -> & Ha & Hr); [lia|].
    exists res, r2. split; [done|]. split; [by eapply after_ahead|]. destruct Ha. destruct res; [right; lia|done].
  - pose proof (left_ahead _ _ _ H) as Hl. pose proof (grade_le e). unfold grade in H. destruct (is_recoverable e) eqn:Er.
    + unfold grade in Hl. rewrite Er in Hl. destruct (IH r1 (proj1 (proj2 H))) as (res & r2 & E & Ha & Hr); [lia|].
      exists res, r2. split; [by destruct e|]. split; [by eapply after_ahead|]. destruct Ha. destruct res; [right; lia|done].
    + destruct (decide (e = Eof)) as [->|Hne]; [|exists (Err e), r1; split; [by destruct e|]; split; [split; [apply H|lia]|done]].
      pose proof (pump_error_queue None r Eof r1 Ep) as Hq. rewrite Eq in Hq. cbn [set_core queue]. rewrite Hq, bool_decide_eq_true_2 by done.
      eexists (Err Eof), _. split; [reflexivity|]. split; [split; [apply H|]|done].
      change (left r1 <= left r). lia.
Qed.

Lemma read_all_returns fuel : forall k r, inside (core r) -> left r < Z.of_nat fuel -> left r < Z.of_nat k ->
  exists n ps e r', read_all n fuel r = Some (ps, e, r') /\ is_recoverable e = false.
Proof.
  induction k as [|k IH]; intros r Hi Hf Hk; [destruct Hi; unfold left in Hk; lia|].
  remember (queue r) as q eqn:Eq. revert r Eq Hi Hf Hk. induction q as [|p q IHq]; intros r Eq Hi Hf Hk;
    destruct (read_packet_returns fuel r Hi Hf) as (res & r1 & E & [Hi1 Hl1] & Hres).
  - destruct res as [p|e]; [|exists 1%nat, [], e, r1; cbn [read_all]; by rewrite E].
    destruct Hres as [[Hq _]|Hlt]; [by rewrite <- Eq in Hq|].
    destruct (IH r1 Hi1) as (n & ps & e & r2 & E2 & He); [lia|lia|]. exists (S n), (p :: ps), e, r2. cbn [read_all]. rewrite E, E2. done.
  - destruct res as [p'|e]; [|exists 1%nat, [], e, r1; cbn [read_all]; by rewrite E].
    assert (H : exists n ps e r2, read_all n fuel r1 = Some (ps, e, r2) /\ is_recoverable e = false).
    { destruct Hres as [[Hq _]|Hlt]; [|apply IH; done || lia]. apply IHq; [rewrite <- Eq in Hq; congruence|done|lia|lia]. }
    destruct H as (n & ps & e & r2 & E2 & He). exists (S n), (p' :: ps), e, r2. cbn [read_all]. by rewrite E, E2.
Qed.

Lemma scan_tail_core seekable r : still (core r) (core (scan_tail_for_durations seekable r)).
Proof.
  unfold scan_tail_for_durations. destruct seekable; [|done]. cbn [negb].
  assert (H : forall l r0, core (fold_left set_tail_duration l r0) = core r0).
  { induction l as [|sg l IH]; intros r0; [done|]. cbn [fold_left]. rewrite IH. unfold set_tail_duration.
    destruct (logical_index _ _); [|done]. destruct (infos r0 !! n); [|done]. destruct (rstreams r0 !! _); [|done]. by destruct (sduration_ts _). }
  destruct (alloc _ _ _ _) as [[x|e] b]; by rewrite H.
Qed.


End reader.

