(* ===== verification/OggRound.v ===== *)
(** * OggRound: what the Ogg muxer writes, the demuxer reads back

    The lacing values of a stream's pages, laid end to end, spell its packets
    ([carve]); the demuxer's reassembly computes that over pages however they cut
    the packets, and the muxer writes pages that spell what it was given. A packet
    that fills the segment table to its end is the exception, and is a finding. *)

From Stdlib Require Import ZArith Lia.
From stdpp Require Import prelude strings.
From S2P Require Import Prelude Bits Rational Time Error Limits OggPage OggTime OggMux OggDemux OggRead.

(** ** What lacing values spell *)

(** The packets completed, and the one left open. *)
Fixpoint carve (acc : option (list Z)) (segs body : list Z) : list (list Z) * option (list Z) :=
  match segs with
  | [] => ([], acc)
  | v :: segs =>
    let chunk := default [] acc ++ take (Z.to_nat v) body in
    let rest := drop (Z.to_nat v) body in
    if v <? CONTINUATION_VALUE then (chunk :: fst (carve None segs rest), snd (carve None segs rest))
    else carve (Some chunk) segs rest
  end.

Lemma carve_app acc s1 b1 s2 b2 : is_bytes s1 -> body_len s1 = zlen b1 ->
  carve acc (s1 ++ s2) (b1 ++ b2) =
  (fst (carve acc s1 b1) ++ fst (carve (snd (carve acc s1 b1)) s2 b2), snd (carve (snd (carve acc s1 b1)) s2 b2)).
Proof.
  revert acc b1. induction s1 as [|v s1 IH]; intros acc b1 Hs Hl.
  - cbn in Hl. destruct b1; [|unfold zlen in Hl; cbn in Hl; lia]. cbn. by destruct (carve acc s2 b2).
  - apply Forall_cons in Hs as [Hv Hs]. change (v + body_len s1 = zlen b1) in Hl. pose proof (body_len_nonneg s1 Hs).
    cbn [carve app]. unfold zlen in Hl. rewrite take_app_le, drop_app_le by lia.
    assert (Hl' : body_len s1 = zlen (drop (Z.to_nat v) b1)) by (unfold zlen; rewrite length_drop; lia).
    destruct (v <? CONTINUATION_VALUE); [|by apply IH]. rewrite (IH None) by done. done.
Qed.

(** What was open joins the first run. *)
Lemma carve_prepend p segs : forall q body, carve (Some (p ++ q)) segs body =
  match carve (Some q) segs body with
  | (c :: cs, o) => ((p ++ c) :: cs, o)
  | ([], Some t) => ([], Some (p ++ t))
  | ([], None) => ([], None)
  end.
Proof.
  induction segs as [|v segs IH]; intros q body; [done|]. cbn [carve from_option default id].
  destruct (v <? CONTINUATION_VALUE); [by rewrite <- app_assoc|]. rewrite <- app_assoc. apply IH.
Qed.

Lemma carve_none segs body : segs <> [] -> carve None segs body = carve (Some []) segs body.
Proof. by destruct segs. Qed.

Lemma carve_some_open segs : forall q body, carve (Some q) segs body <> ([], None).
Proof.
  induction segs as [|v segs IH]; intros q body; cbn [carve]; [done|]. destruct (v <? CONTINUATION_VALUE); [done|apply IH].
Qed.

Lemma carve_length segs : forall acc body, is_bytes segs -> body_len segs = zlen body ->
  (sum_list_with length (fst (carve acc segs body)) + length (default [] (snd (carve acc segs body))) = length (default [] acc) + length body)%nat.
Proof.
  induction segs as [|v segs IH]; intros acc body Hs Hl.
  - cbn in Hl. destruct body; [cbn; lia|unfold zlen in Hl; cbn in Hl; lia].
  - apply Forall_cons in Hs as [Hv Hs]. change (v + body_len segs = zlen body) in Hl. pose proof (body_len_nonneg segs Hs).
    unfold zlen in Hl. cbn [carve]. assert (Hl' : body_len segs = zlen (drop (Z.to_nat v) body)) by (unfold zlen; rewrite length_drop; lia).
    destruct (v <? CONTINUATION_VALUE); cbn [fst snd sum_list_with];
      [pose proof (IH None _ Hs Hl') as E|pose proof (IH (Some (default [] acc ++ take (Z.to_nat v) body)) _ Hs Hl') as E];
      cbn [default from_option id] in *; rewrite ?length_app, ?length_take, ?length_drop in *; cbn [length] in *; lia.
Qed.

(** *** The runs of a segment table *)

Definition slice (body : list Z) (a b : Z) : list Z := take (Z.to_nat (b - a)) (drop (Z.to_nat a) body).

Lemma slice_range body a b : 0 <= a <= b -> b <= zlen body -> get_range body a b = Some (slice body a b).
Proof.
  intros Ha Hb. unfold get_range. destruct (_ && _) eqn:E; [done|].
  apply andb_false_iff in E as [E|E]; [apply andb_false_iff in E as [E|E]|]; apply Z.leb_gt in E; lia.
Qed.

Lemma slice_app body a b c : 0 <= a <= b -> b <= c -> slice body a b ++ slice body b c = slice body a c.
Proof.
  intros Ha Hb. unfold slice. replace (Z.to_nat (c - a)) with (Z.to_nat (b - a) + Z.to_nat (c - b))%nat by lia.
  rewrite <- take_take_drop, drop_drop. do 3 f_equal. lia.
Qed.

Definition run_of (body : list Z) (s : packet_span) : list Z * bool := (default [] (get_range body (start s) (stop s)), complete s).

Definition runs (cs : list (list Z)) (o : option (list Z)) : list (list Z * bool) :=
  map (fun c => (c, true)) cs ++ match o with Some t => [(t, false)] | None => [] end.

Lemma spans_carve body segs : forall rs p, is_bytes segs -> segs <> [] -> 0 <= rs <= p -> p + body_len segs <= zlen body ->
  map (run_of body) (spans_from rs p segs) =
  runs (fst (carve (Some (slice body rs p)) segs (drop (Z.to_nat p) body)))
       (snd (carve (Some (slice body rs p)) segs (drop (Z.to_nat p) body))).
Proof.
  induction segs as [|v segs IH]; intros rs p Hs Hne Hrs Hlen; [done|]. apply Forall_cons in Hs as [Hv Hs].
  change (p + (v + body_len segs) <= zlen body) in Hlen. pose proof (body_len_nonneg segs Hs).
  cbn [spans_from carve from_option default id].
  assert (Et : slice body rs p ++ take (Z.to_nat v) (drop (Z.to_nat p) body) = slice body rs (p + v)).
  { rewrite <- (slice_app body rs p (p + v)) by lia. f_equal. unfold slice. f_equal. lia. }
  assert (Ed : drop (Z.to_nat v) (drop (Z.to_nat p) body) = drop (Z.to_nat (p + v)) body) by (rewrite drop_drop; f_equal; lia).
  rewrite Et, Ed. assert (Hr : forall b, run_of body (PacketSpan rs (p + v) b) = (slice body rs (p + v), b)).
  { intros b. unfold run_of. cbn [start stop complete]. by rewrite slice_range by lia. }
  case Z.ltb_spec; intros Hlt; cbn [map fst snd].
  - rewrite Hr. unfold runs. cbn [map app]. f_equal. destruct segs as [|v' segs]; [done|].
    rewrite (IH (p + v) (p + v)), carve_none by (done || lia). unfold runs. unfold slice. by rewrite Z.sub_diag.
  - destruct segs as [|v' segs]; [cbn [map carve]; by rewrite Hr|]. apply IH; done || lia.
Qed.

Lemma packet_spans_carve body segs : is_bytes segs -> body_len segs = zlen body ->
  map (run_of body) (packet_spans segs) = runs (fst (carve None segs body)) (snd (carve None segs body)).
Proof.
  intros Hs Hl. unfold packet_spans. destruct (decide (segs = [])) as [->|Hne]; [done|].
  rewrite (spans_carve body segs 0 0) by (done || lia). unfold slice. cbn [Z.to_nat Z.sub take drop Z.opp Z.add].
  by rewrite carve_none.
Qed.

(** ** Reassembly of one page *)

Section reassembly.
Context (lim : limits) (W : Z).

Abbreviation held c d := (in_order lim c (Free (dbudget d))).

Lemma charge_fits b n c : in_order lim c (Free b) -> 0 <= n <= max_alloc_single lim -> c + n <= max_alloc_total lim ->
  exists b', charge b n = Ok b' /\ in_order lim (c + n) (Free b').
Proof.
  intros Hi Hn Hc. destruct (charge b n) as [b'|e] eqn:E; [exists b'; split; [done|]; eapply charge_in_order; [exact Hi|lia|exact E]|].
  exfalso. destruct Hi as (Ha & Hp & Hpe & Hco). unfold charge in E.
  assert (Ec : check b n = Ok tt) by (apply check_ok; [done|lia|rewrite Hp; lia]). by rewrite Ec in E.
Qed.

(** The demuxer with one stream and the budget changed. *)
Definition with_stream (i : nat) (l : logical_stream) (b : budget) (d : demuxer) : demuxer :=
  OggDemuxer (data d) (pos d) (<[i := l]> (logical d)) b (deof d) (stats d).

Lemma on_logical_at i f l d : logical d !! i = Some l -> on_logical i f d = with_stream i (f l) (dbudget d) d.
Proof.
  intros H. unfold on_logical, set_logical, with_stream. f_equal. apply list_eq. intros j. destruct (decide (i = j)) as [<-|Hne].
  - rewrite list_lookup_alter_eq, H, list_lookup_insert_eq; [done|]. by eapply lookup_lt_Some.
  - by rewrite list_lookup_alter_ne, list_lookup_insert_ne.
Qed.

Lemma with_stream_twice i l l' b b' d : with_stream i l' b' (with_stream i l b d) = with_stream i l' b' d.
Proof. unfold with_stream. cbn. by rewrite list_insert_insert_eq. Qed.

Lemma with_stream_at i l l0 b d : logical d !! i = Some l0 -> logical (with_stream i l b d) !! i = Some l.
Proof. intros H. cbn. apply list_lookup_insert_eq. by eapply lookup_lt_Some. Qed.

Lemma append_fits i l chunk c d : logical d !! i = Some l -> held c d -> zlen chunk <= max_alloc_single lim ->
  c + zlen chunk <= max_alloc_total lim -> zlen (lpending l) + zlen chunk <= MAX_PACKET_BYTES ->
  exists b, append_pending i chunk d = (Ok tt, with_stream i (set_pending (lpending l ++ chunk) (pending_open l) l) b d) /\
    in_order lim (c + zlen chunk) (Free b).
Proof.
  intros Hl Hc Hs Ht Hm. pose proof (zlen_nonneg chunk). pose proof (zlen_nonneg (lpending l)).
  destruct (charge_fits (dbudget d) (zlen chunk) c Hc) as (b & Eb & Hb); [lia..|]. exists b. split; [|done].
  unfold append_pending, charge_bytes. rewrite Eb. cbn [logical set_budget]. rewrite Hl.
  assert (MAX_PACKET_BYTES < 2 ^ 64) by (by vm_compute). rewrite sat_u_id by lia.
  destruct (Z.ltb_spec MAX_PACKET_BYTES (zlen (lpending l) + zlen chunk)); [lia|].
  by rewrite (on_logical_at i _ l (set_budget b d) Hl).
Qed.

(** The open packet of a stream. *)
Definition open_of (l : logical_stream) : option (list Z) := if pending_open l then Some (lpending l) else None.
Definition tidy (l : logical_stream) : Prop := pending_open l = false -> lpending l = [].

Lemma tidy_pending l : tidy l -> lpending l = default [] (open_of l).
Proof. unfold tidy, open_of. destruct (pending_open l); [done|]. intros H. by apply H. Qed.

Definition opened (o : option (list Z)) (l : logical_stream) : logical_stream :=
  set_pending (default [] o) (bool_decide (is_Some o)) l.

Lemma opened_open o l : open_of (opened o l) = o /\ tidy (opened o l).
Proof. unfold open_of, opened, tidy. by destruct o. Qed.

(** The runs after the first: complete ones, then at most one left open. *)
Lemma take_spans_runs i l body cs o : forall spans done d c,
  map (run_of body) spans = runs cs o -> logical d !! i = Some l -> held c d ->
  (forall t, o = Some t -> zlen t <= max_alloc_single lim /\ c + zlen t <= max_alloc_total lim /\ zlen (lpending l) + zlen t <= MAX_PACKET_BYTES) ->
  exists b, take_spans i body spans done d =
    (Ok (done ++ cs), match o with Some t => with_stream i (set_pending (lpending l ++ t) true l) b d | None => d end) /\
    in_order lim (c + zlen (default [] o)) (Free (match o with Some _ => b | None => dbudget d end)).
Proof.
  induction cs as [|ch cs IH]; intros spans done d c Hr Hl Hc Ho.
  - destruct o as [t|].
    + destruct spans as [|s [|]]; try done. injection Hr as Hch Hcm. cbn [take_spans].
      change (complete s = false) in Hcm. change (default [] (get_range body (start s) (stop s)) = t) in Hch. rewrite Hcm, Hch.
      destruct (Ho t eq_refl) as (H1 & H2 & H3). destruct (append_fits i l t c d Hl Hc H1 H2 H3) as (b & -> & Hb).
      exists b. split; [|done]. rewrite (on_logical_at i _ _ _ (with_stream_at i _ l b d Hl)), with_stream_twice, app_nil_r. done.
    + destruct spans; [|done]. exists (dbudget d). cbn [take_spans]. rewrite app_nil_r. split; [done|].
      change (zlen (default [] None)) with 0. by rewrite Z.add_0_r.
  - destruct spans as [|s spans]; [done|]. injection Hr as Hch Hcm Hr. cbn [take_spans].
    change (complete s = true) in Hcm. change (default [] (get_range body (start s) (stop s)) = ch) in Hch. rewrite Hcm, Hch.
    destruct (IH spans (done ++ [ch]) d c Hr Hl Hc Ho) as (b & -> & Hb). exists b. split; [|done]. by rewrite <- app_assoc.
Qed.

Lemma with_stream_same i l d : logical d !! i = Some l -> with_stream i l (dbudget d) d = d.
Proof. intros H. unfold with_stream. rewrite list_insert_id by done. by destruct d. Qed.

Lemma opened_same l : tidy l -> opened (open_of l) l = l.
Proof.
  intros H. unfold opened, open_of. unfold tidy in H. destruct l as [s p [|] q e]; cbn in *; [done|]. by rewrite H.
Qed.

Lemma release_held c n b : in_order lim c (Free b) -> 0 <= n <= c -> in_order lim (c - n) (Free (release b n)).
Proof. intros Hi Hn. pose proof (release_in_order lim c b n Hi ltac:(lia)) as H. by rewrite Z.max_r in H by lia. Qed.

(** One page of a stream: its packets come out as the lacing spells them. *)
Lemma assemble i l segs body c d :
  logical d !! i = Some l -> tidy l -> held c d -> zlen (lpending l) <= c -> is_bytes segs -> body_len segs = zlen body ->
  zlen body <= max_alloc_single lim -> c + zlen body <= max_alloc_total lim ->
  let r := carve (open_of l) segs body in
  Forall (fun p => zlen p <= MAX_PACKET_BYTES) (fst r) -> zlen (default [] (snd r)) <= MAX_PACKET_BYTES ->
  exists spans done d1 b, lead_span i (bool_decide (is_Some (open_of l))) body (packet_spans segs) d = (Ok (spans, done), d1) /\
    take_spans i body spans done d1 = (Ok (fst r), with_stream i (opened (snd r) l) b d) /\
    in_order lim (c - zlen (lpending l) + zlen (default [] (snd r))) (Free b).
Proof.
  intros Hl Ht Hc Hp Hs Hb Hsg Htot r Hcs Ho. pose proof (packet_spans_carve body segs Hs Hb) as Hr.
  pose proof (carve_length segs None body Hs Hb) as Hlen. set (r0 := carve None segs body) in *.
  assert (Hpiece : forall x : list Z, (length x <= length body)%nat -> zlen x <= max_alloc_single lim /\ c + zlen x <= max_alloc_total lim).
  { intros x Hx. unfold zlen in *. lia. }
  cbn in Hlen.
  assert (Hhas : default false (pending_open <$> logical d !! i) = bool_decide (is_Some (open_of l))).
  { rewrite Hl. unfold open_of. cbn. by destruct (pending_open l). }
  destruct (decide (segs = [])) as [->|Hne].
  { exists [], [], d, (dbudget d). cbn in r. subst r. cbn [fst snd]. split; [done|].
    rewrite opened_same, with_stream_same by done. split; [done|]. rewrite (tidy_pending l Ht).
    replace (c - _ + _) with c by lia. done. }
  assert (Hspans : packet_spans segs <> []).
  { intros E. rewrite E in Hr. cbn in Hr. unfold runs in Hr. destruct (fst r0) eqn:E1; [|done]. destruct (snd r0) eqn:E2; [done|].
    apply (carve_some_open segs [] body). rewrite <- carve_none by done. fold r0. by rewrite (surjective_pairing r0), E1, E2. }
  unfold lead_span. destruct (packet_spans segs) as [|first spans] eqn:Esp; [done|]. rewrite Hhas, Bool.eqb_reflx.
  destruct (open_of l) as [P|] eqn:Eo; rewrite ?bool_decide_eq_true_2 by done.
  - assert (Er : carve (Some P) segs body = match r0 with
        | (c :: cs, o) => ((P ++ c) :: cs, o) | ([], Some t) => ([], Some (P ++ t)) | ([], None) => ([], None) end).
    { unfold r0. rewrite carve_none by done. rewrite <- (app_nil_r P) at 1. apply carve_prepend. }
    assert (Hpe : lpending l = P) by (rewrite (tidy_pending l Ht), Eo; done).
    assert (Hop : pending_open l = true) by (revert Eo; unfold open_of; by destruct (pending_open l)).
    cbn [andb]. subst r. rewrite Er in *. clear Er. clearbody r0. destruct r0 as [[|ch cs] o]; cbn [fst snd] in *.
    + destruct o as [t|]; [|cbn in Hr; discriminate]. destruct spans as [|s2 spans]; [|discriminate]. injection Hr as Hch Hcm.
      change (default [] (get_range body (start first) (stop first)) = t) in Hch. change (complete first = false) in Hcm. rewrite Hch, Hcm.
      cbn [snd default from_option id] in *. cbn in Hlen. destruct (Hpiece t) as [H1 H2]; [lia|].
      destruct (append_fits i l t c d Hl Hc H1 H2) as (b & -> & Hb'); [rewrite Hpe; rewrite zlen_app in Ho; lia|].
      do 4 eexists. split; [reflexivity|]. cbn [take_spans fst snd default from_option id]. split.
      * rewrite Hpe, Hop. done.
      * rewrite Hpe, zlen_app. replace (c - zlen P + (zlen P + zlen t)) with (c + zlen t) by lia. exact Hb'.
    + injection Hr as Hch Hcm Hr.
      change (default [] (get_range body (start first) (stop first)) = ch) in Hch. change (complete first = true) in Hcm. rewrite Hch, Hcm.
      cbn [sum_list_with] in Hlen. apply Forall_cons in Hcs as [Hc1 Hcs]. rewrite zlen_app in Hc1.
      destruct (Hpiece ch) as [H1 H2]; [lia|].
      destruct (append_fits i l ch c d Hl Hc H1 H2) as (b & -> & Hb'); [rewrite Hpe; lia|].
      set (l1 := set_pending _ _ l). unfold take_pending. rewrite (with_stream_at i l1 l b d Hl).
      rewrite (on_logical_at i _ l1 _ (with_stream_at i l1 l b d Hl)), with_stream_twice. cbn [lpending l1 set_pending].
      set (l2 := set_pending [] false l1). cbn [dbudget with_stream].
      set (d2 := release_bytes _ _).
      assert (Ed2 : d2 = with_stream i l2 (release b (zlen (lpending l ++ ch))) d) by done.
      assert (Hc2 : in_order lim (c - zlen P) (Free (release b (zlen (lpending l ++ ch))))).
      { rewrite Hpe, zlen_app. replace (c - zlen P) with (c + zlen ch - (zlen P + zlen ch)) by lia.
        apply release_held; [done|]. pose proof (zlen_nonneg P). pose proof (zlen_nonneg ch). rewrite <- Hpe in *. lia. }
      assert (Hl2 : logical d2 !! i = Some l2) by (rewrite Ed2; by eapply with_stream_at).
      destruct (take_spans_runs i l2 body cs o spans [lpending l ++ ch] d2 (c - zlen P) Hr Hl2) as (b2 & E & Hb2).
      { by rewrite Ed2. }
      { intros t Et. subst o. cbn in Hlen. destruct (Hpiece t) as [H3 H4]; [lia|]. pose proof (zlen_nonneg P). cbn in *. split_and!; [done|lia|change (lpending l2) with (@nil Z); unfold zlen at 1; cbn; lia]. }
      rewrite Hpe in E.
      destruct o as [t|]; do 4 eexists; (split; [reflexivity|]); rewrite Hpe, E; cbn [fst snd app default from_option id] in *; rewrite Ed2 in *.
      * rewrite with_stream_twice. split; [reflexivity|exact Hb2].
      * split; [reflexivity|exact Hb2].
  - rewrite bool_decide_eq_false_2 by (by intros []). cbn [andb].
    assert (Hpe : lpending l = []) by (rewrite (tidy_pending l Ht), Eo; done).
    destruct (take_spans_runs i l body (fst r0) (snd r0) (first :: spans) [] d c Hr Hl Hc) as (b & E & Hb').
    { intros t Et. rewrite Et in Hlen. cbn in Hlen. destruct (Hpiece t) as [H1 H2]; [lia|]. split_and!; [done|done|].
      fold r0 in r. subst r. rewrite Et in Ho. rewrite Hpe. change (zlen t <= MAX_PACKET_BYTES) in Ho. change (zlen (@nil Z)) with 0. lia. }
    fold r0 in r. subst r. rewrite Hpe. change (zlen (@nil Z)) with 0. rewrite Z.sub_0_r. rewrite Hpe in E. cbn [app] in E.
    destruct (snd r0) as [t|]; do 4 eexists; (split; [reflexivity|]); rewrite E; cbn [default from_option id] in *.
    + split; [reflexivity|exact Hb'].
    + rewrite <- Eo, opened_same by done. split; [by rewrite with_stream_same|exact Hb'].
Qed.

(** *** A written page is read *)

Record page : Type := Page {
  pserial : Z; pflags : Z; pgranule : Z; psequence : Z; psegments : list Z; pbody : list Z }.

Definition bytes_of (p : page) : list Z :=
  page_bytes (pflags p) (pgranule p) (pserial p) (psequence p) (psegments p) (pbody p).

Record page_fits (p : page) : Prop := {
  fits_serial : 0 <= pserial p < 2 ^ 32;
  fits_flags : 0 <= pflags p < 8;
  fits_granule : - 2 ^ 63 <= pgranule p < 2 ^ 63;
  fits_sequence : 0 <= psequence p < 2 ^ 32;
  fits_table : zlen (psegments p) <= 255;
  fits_segments : is_bytes (psegments p);
  fits_body : is_bytes (pbody p);
  fits_len : body_len (psegments p) = zlen (pbody p) }.

Lemma body_small p : page_fits p -> zlen (pbody p) <= MAX_BODY_LEN.
Proof.
  intros [_ _ _ _ Ht Hs _ <-]. unfold MAX_BODY_LEN, MAX_SEGMENTS, CONTINUATION_VALUE.
  assert (H : body_len (psegments p) <= 255 * zlen (psegments p)); [|lia].
  clear Ht. induction Hs as [|x l Hx Hl IH]; [done|]. rewrite zlen_cons. change (body_len (x :: l)) with (x + body_len l). lia.
Qed.

Definition head_of (p : page) : list Z :=
  CAPTURE_PATTERN ++ [SUPPORTED_VERSION; pflags p] ++ le_bytes 8 (pgranule p) ++ le_bytes 4 (pserial p) ++ le_bytes 4 (psequence p).
Definition sum_of (p : page) : list Z :=
  le_bytes 4 (crc32 (head_of p ++ le_bytes 4 0 ++ [zlen (psegments p)] ++ psegments p ++ pbody p)).
Definition fixed_of (p : page) : list Z := head_of p ++ sum_of p ++ [zlen (psegments p)].

Lemma bytes_of_split p : bytes_of p = fixed_of p ++ psegments p ++ pbody p.
Proof. unfold bytes_of, page_bytes, fixed_of, sum_of, head_of. by rewrite <- !app_assoc. Qed.

Lemma head_length p : zlen (head_of p) = 22.
Proof. unfold head_of, zlen. rewrite !length_app, !length_le_bytes. done. Qed.

Lemma sum_length p : zlen (sum_of p) = 4.
Proof. unfold sum_of, zlen. by rewrite length_le_bytes. Qed.

Lemma fixed_length p : zlen (fixed_of p) = FIXED_HEADER_LEN.
Proof. unfold fixed_of. rewrite !zlen_app, head_length, sum_length. done. Qed.

Lemma le_bytes_bytes n v : is_bytes (le_bytes n v).
Proof.
  unfold le_bytes. rewrite <- Permutation_rev. induction n as [|n IH]; cbn; [done|]. constructor; [apply Z.mod_pos_bound; lia|done].
Qed.

Lemma page_verifies p : page_fits p -> verify_checksum (bytes_of p) = Ok true.
Proof.
  intros [Hse Hfl Hgr Hsq Ht Hs Hb Hl]. rewrite bytes_of_split. unfold fixed_of. rewrite <- !app_assoc.
  rewrite verify_split by (apply head_length || apply sum_length). f_equal. apply Z.eqb_eq.
  unfold sum_of. rewrite le_value_le_bytes. change (256 ^ Z.of_nat 4) with (2 ^ 32). symmetry. apply Z.mod_small.
  apply crc_word; [done|]. repeat first [apply le_bytes_bytes|assumption|apply Forall_app; split].
  - unfold CAPTURE_PATTERN. repeat constructor; lia.
  - unfold SUPPORTED_VERSION. repeat constructor; lia.
  - repeat constructor; lia.
  - pose proof (zlen_nonneg (psegments p)). repeat constructor; lia.
Qed.

Lemma land7 f : 0 <= f < 8 -> from_bits_truncate f = f.
Proof. intros H. unfold from_bits_truncate. change 7 with (Z.ones 3). rewrite Z.land_ones by lia. apply Z.mod_small. lia. Qed.

Definition header_of (p : page) : page_header :=
  OggPageHeader SUPPORTED_VERSION (pflags p) (pgranule p) (pserial p) (psequence p) (le_value (sum_of p)) (psegments p).

Lemma page_parses p : page_fits p ->
  parse_header (fixed_of p ++ psegments p) = Ok (header_of p, FIXED_HEADER_LEN + zlen (psegments p)).
Proof.
  intros [Hse Hfl Hgr Hsq Ht Hs Hb Hl]. unfold parse_header.
  pose proof (get_range_mid [] (fixed_of p) (psegments p) 0 FIXED_HEADER_LEN eq_refl (fixed_length p)) as H0. cbn [app] in H0. rewrite H0.
  cbn [ok_or mbind result_bind].
  set (tail := sum_of p ++ [zlen (psegments p)]).
  assert (Ef : fixed_of p = CAPTURE_PATTERN ++ [SUPPORTED_VERSION; pflags p] ++ le_bytes 8 (pgranule p) ++ le_bytes 4 (pserial p) ++ le_bytes 4 (psequence p) ++ tail).
  { unfold fixed_of, head_of. by rewrite <- !app_assoc. }
  assert (Hcut : forall a b c i j, fixed_of p = a ++ b ++ c -> zlen a = i -> zlen b = j - i -> get_range (fixed_of p) i j = Some b).
  { intros a b c i j -> Ha Hb'. by apply get_range_mid. }
  rewrite (Hcut [] CAPTURE_PATTERN ([SUPPORTED_VERSION; pflags p] ++ le_bytes 8 (pgranule p) ++ le_bytes 4 (pserial p) ++ le_bytes 4 (psequence p) ++ tail) 0 4 Ef eq_refl eq_refl).
  cbn [ok_or mbind result_bind]. rewrite bool_decide_eq_false_2 by tauto.
  assert (Hle : forall n v, zlen (le_bytes n v) = Z.of_nat n) by (intros; unfold zlen; by rewrite length_le_bytes).
  assert (E4 : fixed_of p !! 4%nat = Some SUPPORTED_VERSION) by (by rewrite Ef). assert (E5 : fixed_of p !! 5%nat = Some (pflags p)) by (by rewrite Ef).
  rewrite E4. cbn [ok_or mbind result_bind]. change (negb (SUPPORTED_VERSION =? SUPPORTED_VERSION)) with false. cbv iota.
  rewrite E5. cbn [ok_or mbind result_bind].
  rewrite (Hcut (CAPTURE_PATTERN ++ [SUPPORTED_VERSION; pflags p]) (le_bytes 8 (pgranule p)) (le_bytes 4 (pserial p) ++ le_bytes 4 (psequence p) ++ tail) 6 14);
    [|by rewrite Ef, <- !app_assoc|done|by rewrite Hle]. cbn [ok_or mbind result_bind].
  rewrite (Hcut (CAPTURE_PATTERN ++ [SUPPORTED_VERSION; pflags p] ++ le_bytes 8 (pgranule p)) (le_bytes 4 (pserial p)) (le_bytes 4 (psequence p) ++ tail) 14 18);
    [|by rewrite Ef, <- !app_assoc|rewrite !zlen_app, Hle; done|by rewrite Hle]. cbn [ok_or mbind result_bind].
  rewrite (Hcut (CAPTURE_PATTERN ++ [SUPPORTED_VERSION; pflags p] ++ le_bytes 8 (pgranule p) ++ le_bytes 4 (pserial p)) (le_bytes 4 (psequence p)) tail 18 22);
    [|by rewrite Ef, <- !app_assoc|rewrite !zlen_app, !Hle; done|by rewrite Hle]. cbn [ok_or mbind result_bind].
  rewrite (Hcut (head_of p) (sum_of p) [zlen (psegments p)] CHECKSUM_OFFSET (CHECKSUM_OFFSET + 4)); [|done|apply head_length|by rewrite sum_length].
  cbn [ok_or mbind result_bind].
  assert (E26 : fixed_of p !! 26%nat = Some (zlen (psegments p))).
  { unfold fixed_of. rewrite app_assoc. pose proof (head_length p) as Hh. pose proof (sum_length p) as Hsm. unfold zlen in Hh, Hsm.
    apply list_lookup_middle. rewrite length_app. lia. }
  rewrite E26. cbn [ok_or mbind result_bind].
  pose proof (get_range_mid (fixed_of p) (psegments p) [] FIXED_HEADER_LEN (FIXED_HEADER_LEN + zlen (psegments p)) (fixed_length p)) as H1.
  rewrite app_nil_r in H1. rewrite H1 by lia. cbn [ok_or mbind result_bind]. unfold header_of.
  rewrite land7, !le_value_le_bytes by done. change (256 ^ Z.of_nat 8) with (2 ^ 64). change (256 ^ Z.of_nat 4) with (2 ^ 32).
  rewrite !(Z.mod_small _ (2 ^ 32)) by done. assert (Ew : wrap_i 64 (pgranule p mod 2 ^ 64) = pgranule p).
  { unfold wrap_i. change (2 ^ (64 - 1)) with (2 ^ 63). rewrite Zplus_mod_idemp_l, Z.mod_small; lia. }
  by rewrite Ew.
Qed.

Lemma read_exact_at d pre chunk post : data d = pre ++ chunk ++ post -> pos d = zlen pre ->
  read_exact (zlen chunk) d = (Ok chunk, set_pos (zlen pre + zlen chunk) d).
Proof.
  intros Hd Hp. unfold read_exact. rewrite Hd, Hp. rewrite get_range_mid by lia. done.
Qed.

(** The reader finds the page written at its position. *)
Lemma read_page d pre p post c : page_fits p -> data d = pre ++ bytes_of p ++ post -> pos d = zlen pre ->
  held c d -> zlen (pbody p) <= max_alloc_single lim -> c + zlen (pbody p) <= max_alloc_total lim ->
  exists b, read_one_page d = (Ok (header_of p, pbody p),
      OggDemuxer (data d) (zlen pre + zlen (bytes_of p)) (logical d) b (deof d) (stats d)) /\ in_order lim c (Free b).
Proof.
  intros Hf Hd Hp Hc Hs Ht. pose proof Hf as [Hse Hfl Hgr Hsq Htb Hsg Hb Hl]. rewrite bytes_of_split in Hd. rewrite <- !app_assoc in Hd.
  unfold read_one_page. destruct MAX_RESYNC_ATTEMPTS as [|n] eqn:En.
  { apply (f_equal Z.of_nat) in En. unfold MAX_RESYNC_ATTEMPTS in En. rewrite Z2Nat.id in En by done. discriminate En. }
  cbn [read_attempts]. unfold read_attempt.
  rewrite <- (fixed_length p), (read_exact_at d pre (fixed_of p) (psegments p ++ pbody p ++ post) Hd Hp). 
  assert (Hcap : get_range (fixed_of p) 0 4 = Some CAPTURE_PATTERN).
  { unfold fixed_of, head_of. rewrite <- !app_assoc.
    match goal with |- get_range (?a ++ ?b) 0 4 = _ => pose proof (get_range_mid [] a b 0 4 eq_refl eq_refl) as H; exact H end. }
  rewrite bool_decide_eq_false_2 by (rewrite Hcap; tauto).
  assert (E26 : fixed_of p !! 26%nat = Some (zlen (psegments p))).
  { unfold fixed_of. rewrite app_assoc. pose proof (head_length p) as Hh. pose proof (sum_length p) as Hsm. unfold zlen in Hh, Hsm.
    apply list_lookup_middle. rewrite length_app. lia. }
  rewrite E26. cbn [default from_option id].
  assert (Hd1 : data (set_pos (zlen pre + zlen (fixed_of p)) d) = (pre ++ fixed_of p) ++ psegments p ++ pbody p ++ post) by (cbn [data set_pos]; rewrite Hd, <- app_assoc; reflexivity).
  rewrite (read_exact_at _ _ _ _ Hd1) by (cbn [pos set_pos]; by rewrite zlen_app).
  rewrite page_parses by done. cbn [segments header_of]. rewrite Hl.
  destruct (charge_fits (dbudget d) (zlen (pbody p)) c Hc) as (b & Eb & Hb1); [pose proof (zlen_nonneg (pbody p)); lia|done|].
  unfold charge_bytes. cbn [dbudget set_pos]. rewrite Eb. cbn [set_budget data pos logical deof stats].
  match goal with |- context [read_exact _ ?d2] => assert (Hd2 : data d2 = ((pre ++ fixed_of p) ++ psegments p) ++ pbody p ++ post) by (cbn [data set_budget set_pos]; rewrite Hd, <- !app_assoc; reflexivity) end.
  rewrite (read_exact_at _ _ _ _ Hd2) by (cbn [pos set_budget set_pos]; by rewrite !zlen_app).
  rewrite <- bytes_of_split, page_verifies by done.
  exists (release b (zlen (pbody p))). split.
  - assert (El : zlen ((pre ++ fixed_of p) ++ psegments p) + zlen (pbody p) = zlen pre + zlen (bytes_of p))
      by (rewrite bytes_of_split, !zlen_app; lia).
    unfold release_bytes, set_budget, set_pos. cbn [data pos logical deof stats dbudget]. by rewrite El.
  - replace c with (c + zlen (pbody p) - zlen (pbody p)) by lia. apply release_held; [done|].
    pose proof (zlen_nonneg (pbody p)). destruct Hc as (Ha & _ & _ & Hc). destruct Ha. lia.
Qed.

(** *** Pages in a file *)

(** What a reader knows of a stream: the packet left open, the last number, the
    packets completed, the first packet of its first page. *)
Record view : Type := View { vopen : option (list Z); vlast : option Z; vdone : list (list Z); vbos : option (list Z) }.

Definition unseen : view := View None None [] None.
Definition nothing : Z -> view := fun _ => unseen.

Definition absorb (v : Z -> view) (p : page) : Z -> view := fun s =>
  if s =? pserial p then
    let r := carve (vopen (v s)) (psegments p) (pbody p) in
    View (snd r) (Some (psequence p)) (vdone (v s) ++ fst r) (Some (default (bos_bytes (header_of p) (pbody p)) (vbos (v s))))
  else v s.

Definition page_ok (v : Z -> view) (p : page) : Prop :=
  let w := v (pserial p) in
  let r := carve (vopen w) (psegments p) (pbody p) in
  page_fits p /\ contains (pflags p) CONTINUED = bool_decide (is_Some (vopen w)) /\
  (forall q, vlast w = Some q -> psequence p = wrap_u 32 (q + 1)) /\
  Forall (fun x => zlen x <= MAX_PACKET_BYTES) (fst r) /\ zlen (default [] (snd r)) <= MAX_PACKET_BYTES.

Fixpoint pages_ok (v : Z -> view) (ps : list page) : Prop :=
  match ps with
  | [] => True
  | p :: ps => page_ok v p /\ pages_ok (absorb v p) ps
  end.

Definition pend_sum (ls : list logical_stream) : Z := Z.of_nat (sum_list_with (length ∘ lpending) ls).

(** What the packets handed over keep charged, next to what is pending: nothing gives
    it back. A packet costs its bytes and 127 more, and the file has a lacing value
    for each; [W] is what was allocated besides. *)
Record agrees (d : demuxer) (v : Z -> view) (k : Z) : Prop := {
  ag_serials : NoDup (map lserial (logical d));
  ag_tidy : Forall tidy (logical d);
  ag_known : forall l, l ∈ logical d -> open_of l = vopen (v (lserial l)) /\ last_sequence l = vlast (v (lserial l));
  ag_unknown : forall s, s ∉ map lserial (logical d) -> v s = unseen;
  ag_held : held (pend_sum (logical d) + k) d;
  ag_charged : 0 <= k;
  ag_pos : pend_sum (logical d) + k <= W + 128 * pos d }.

Lemma sum_insert {A} (f : A -> nat) (l : list A) i x y : l !! i = Some x ->
  (sum_list_with f (<[i := y]> l) + f x = sum_list_with f l + f y)%nat.
Proof.
  revert i. induction l as [|z l IH]; intros [|i]; [done|done|..].
  - intros [= ->]. cbn. lia.
  - intros H. specialize (IH i H). change (<[S i := y]> (z :: l)) with (z :: <[i := y]> l). cbn [sum_list_with]. lia.
Qed.

Lemma pend_sum_insert ls i l l' : ls !! i = Some l ->
  pend_sum (<[i := l']> ls) = pend_sum ls - zlen (lpending l) + zlen (lpending l').
Proof. intros H. pose proof (sum_insert (length ∘ lpending) ls i l l' H) as E. unfold pend_sum, zlen. cbn in E. lia. Qed.

Lemma map_insert_same {A B} (f : A -> B) (l : list A) i x y : l !! i = Some x -> f y = f x -> map f (<[i := y]> l) = map f l.
Proof.
  revert i. induction l as [|z l IH]; intros [|i]; [done|done|..].
  - cbn. by intros [= ->] ->.
  - intros H E. change (<[S i := y]> (z :: l)) with (z :: <[i := y]> l). cbn [map]. by rewrite (IH i).
Qed.

Lemma serial_unique ls i j l l' : NoDup (map lserial ls) -> ls !! i = Some l -> ls !! j = Some l' -> lserial l = lserial l' -> i = j.
Proof.
  intros Hd Hi Hj E. apply (NoDup_lookup (map lserial ls) i j (lserial l)); [done|..];
    change (map lserial) with (fmap (M := list) lserial); rewrite list_lookup_fmap; [by rewrite Hi|by rewrite Hj, E].
Qed.

(** Replacing the state of one stream. *)
Lemma agrees_update d v k p i l l' b d' : agrees d v k -> logical d !! i = Some l -> lserial l = pserial p ->
  lserial l' = lserial l -> tidy l' -> open_of l' = vopen (absorb v p (pserial p)) -> last_sequence l' = Some (psequence p) ->
  logical d' = <[i := l']> (logical d) -> dbudget d' = b ->
  in_order lim (pend_sum (<[i := l']> (logical d)) + k) (Free b) -> pend_sum (<[i := l']> (logical d)) + k <= W + 128 * pos d' ->
  agrees d' (absorb v p) k.
Proof.
  intros [A1 A2 A3 A4 A5 A6 A7] Hl Es Es' Ht Eo Eq El Eb Hb Hp. pose proof (map_insert_same lserial (logical d) i l l' Hl Es') as Em.
  split; rewrite ?El, ?Em; rewrite ?Eb; try done.
  - by apply Forall_insert.
  - intros m [j Hj]%list_elem_of_lookup. destruct (decide (i = j)) as [<-|Hne].
    + rewrite list_lookup_insert_eq in Hj by (by eapply lookup_lt_Some). injection Hj as <-. rewrite Es', Es. split; [done|].
      rewrite Eq. unfold absorb. by rewrite Z.eqb_refl.
    + rewrite list_lookup_insert_ne in Hj by done. unfold absorb. destruct (Z.eqb_spec (lserial m) (pserial p)) as [E|].
      * destruct Hne. apply (serial_unique (logical d) i j l m A1 Hl Hj). congruence.
      * apply A3. by eapply list_elem_of_lookup_2.
  - intros s Hs. unfold absorb. destruct (Z.eqb_spec s (pserial p)) as [->|]; [|by apply A4].
    destruct Hs. rewrite <- Es. change (map lserial) with (fmap (M := list) lserial). apply list_elem_of_fmap_2. by eapply list_elem_of_lookup_2.
Qed.

(** A stream that starts. *)
Lemma agrees_begin d v k h : agrees d v k -> serial h ∉ map lserial (logical d) -> agrees (snd (begin_logical_stream h d)) v k.
Proof.
  intros [A1 A2 A3 A4 A5 A6 A7] Hnew. unfold begin_logical_stream. cbn [snd].
  assert (Es : pend_sum (logical d ++ [LogicalStream (serial h) [] false None false]) = pend_sum (logical d)).
  { unfold pend_sum. rewrite sum_list_with_app. cbn. lia. }
  split; cbn [logical set_logical dbudget pos]; rewrite ?map_app, ?Es; try done.
  - cbn [map lserial]. apply NoDup_app. split_and!; [done| |apply NoDup_singleton]. intros x Hx ->%list_elem_of_singleton. done.
  - apply Forall_app. split; [done|]. by apply Forall_singleton.
  - intros l [Hl|Hl]%elem_of_app; [by apply A3|]. apply list_elem_of_singleton in Hl as ->. cbn. by rewrite (A4 _ Hnew).
  - intros x Hx. apply A4. set_solver.
Qed.

(** Changing the budget, or the end-of-stream flag. *)
Lemma agrees_budget d v k b k' : agrees d v k -> in_order lim (pend_sum (logical d) + k') (Free b) -> 0 <= k' ->
  pend_sum (logical d) + k' <= W + 128 * pos d -> agrees (set_budget b d) v k'.
Proof. intros [A1 A2 A3 A4 A5 A6 A7] Hb Hk Hp. by split. Qed.

Lemma agrees_eos d v k i h : agrees d v k -> agrees (end_of_stream i h d) v k.
Proof.
  intros A. unfold end_of_stream. destruct (contains _ _); [|done]. destruct (logical d !! i) as [l|] eqn:Hl.
  2: { assert (E : on_logical i (fun l => LogicalStream (lserial l) (lpending l) (pending_open l) (last_sequence l) true) d = d).
    { unfold on_logical, set_logical. replace (alter _ i (logical d)) with (logical d); [by destruct d|]. apply list_eq. intros j.
      destruct (decide (i = j)) as [<-|Hne]; [by rewrite list_lookup_alter_eq, Hl|by rewrite list_lookup_alter_ne]. }
    by rewrite E. }
  rewrite (on_logical_at i _ l d Hl). destruct A as [A1 A2 A3 A4 A5 A6 A7].
  split; cbn [with_stream logical dbudget pos]; rewrite ?(map_insert_same lserial _ _ _ _ Hl) by done; try done.
  - apply Forall_insert; [done|]. exact (Forall_lookup_1 _ _ _ _ A2 Hl).
  - intros m Hm. apply list_elem_of_lookup in Hm as [j Hj]. apply list_lookup_insert_Some in Hj as [(<- & <- & _)|[_ Hj]].
    + exact (A3 l ltac:(by eapply list_elem_of_lookup_2)).
    + exact (A3 m ltac:(by eapply list_elem_of_lookup_2)).
  - rewrite (pend_sum_insert _ _ _ _ Hl). cbn [lpending]. by replace (_ - _ + _ + k) with (pend_sum (logical d) + k) by lia.
  - rewrite (pend_sum_insert _ _ _ _ Hl). cbn [lpending]. lia.
Qed.

Lemma no_gap i q l d : logical d !! i = Some l -> (forall p, last_sequence l = Some p -> q = wrap_u 32 (p + 1)) ->
  check_sequence_gap i q d = with_stream i (LogicalStream (lserial l) (lpending l) (pending_open l) (Some q) (leos l)) (dbudget d) d.
Proof.
  intros Hl Hq. unfold check_sequence_gap. rewrite Hl.
  assert (E : match last_sequence l with Some prev => negb (q =? wrap_u 32 (prev + 1)) | None => false end = false).
  { destruct (last_sequence l) as [p|]; [|done]. rewrite (Hq p eq_refl). by rewrite Z.eqb_refl. }
  rewrite E. by rewrite (on_logical_at i _ l d Hl).
Qed.

(** What packets cost. *)
Fixpoint cost (ps : list (list Z)) : Z := match ps with [] => 0 | p :: ps => zlen p + 127 + cost ps end.

Lemma packets_cost_nonneg ps : 0 <= cost ps.
Proof. induction ps as [|p ps IH]; cbn; [done|]. pose proof (zlen_nonneg p). lia. Qed.

Lemma carve_cost segs acc body : is_bytes segs -> body_len segs = zlen body ->
  cost (fst (carve acc segs body)) + zlen (default [] (snd (carve acc segs body))) <= zlen (default [] acc) + zlen body + 127 * zlen segs.
Proof.
  intros Hs Hl. pose proof (carve_length segs acc body Hs Hl) as H.
  assert (Hn : forall acc body, (length (fst (carve acc segs body)) <= length segs)%nat).
  { clear. induction segs as [|v segs IH]; intros acc body; cbn [carve]; [done|]. destruct (v <? CONTINUATION_VALUE); cbn [fst length].
    - specialize (IH None (drop (Z.to_nat v) body)). lia.
    - specialize (IH (Some (default [] acc ++ take (Z.to_nat v) body)) (drop (Z.to_nat v) body)). lia. }
  specialize (Hn acc body). destruct (carve acc segs body) as [cs o]. cbn [fst snd] in *.
  assert (Hc : cost cs = Z.of_nat (sum_list_with length cs) + 127 * zlen cs).
  { clear. induction cs as [|c cs IH]; [done|]. cbn [sum_list_with cost]. rewrite IH, zlen_cons. unfold zlen. lia. }
  rewrite Hc. unfold zlen in *. lia.
Qed.

(** One page of a stream the reader has: its packets come out, and there is room for
    them. *)
Lemma stream_step d v k p i l : agrees d v k -> page_ok v p -> logical d !! i = Some l -> lserial l = pserial p ->
  MAX_BODY_LEN <= max_alloc_single lim -> W + 129 * zlen (data d) <= max_alloc_total lim -> pos d <= zlen (data d) ->
  pend_sum (logical d) + k + zlen (pbody p) + 127 * zlen (psegments p) <= W + 128 * pos d ->
  let completed := fst (carve (vopen (v (pserial p))) (psegments p) (pbody p)) in
  exists d', stream_packets i (header_of p) (pbody p) d = (Ok completed, d') /\ agrees d' (absorb v p) k /\
    data d' = data d /\ pos d' = pos d /\ stats d' = stats d /\ deof d' = deof d /\ map lserial (logical d') = map lserial (logical d) /\
    pend_sum (logical d') + k + cost completed <= W + 128 * pos d.
Proof.
  intros A (Hf & Hcont & Hseq & Hdone & Hopen) Hl Es Hsg Htot Hpos Hroom completed.
  pose proof (body_small p Hf) as Hbig.
  destruct (ag_known _ _ _ A l ltac:(by eapply list_elem_of_lookup_2)) as [Ho Hq]. rewrite Es in Ho, Hq.
  unfold stream_packets. cbn [header_of sequence hflags segments].
  rewrite (no_gap i (psequence p) l d Hl) by (intros q Eq; apply Hseq; congruence).
  set (l1 := LogicalStream _ _ _ _ _). set (d3 := with_stream i l1 (dbudget d) d).
  assert (Hl3 : logical d3 !! i = Some l1) by (by eapply with_stream_at).
  assert (Ht1 : tidy l1) by (pose proof (ag_tidy _ _ _ A) as Ht; eapply Forall_lookup_1 in Ht; [|exact Hl]; exact Ht).
  assert (Ho1 : open_of l1 = vopen (v (pserial p))) by (rewrite <- Ho; done).
  pose proof (ag_held _ _ _ A) as Hh. pose proof (ag_charged _ _ _ A) as Hk.
  assert (Hls : zlen (lpending l) <= pend_sum (logical d)).
  { pose proof (sum_insert (length ∘ lpending) (logical d) i l (LogicalStream 0 [] false None false) Hl) as E. unfold pend_sum, zlen. cbn in E. lia. }
  pose proof (zlen_nonneg (psegments p)). pose proof (zlen_nonneg (data d)).
  destruct (assemble i l1 (psegments p) (pbody p) (pend_sum (logical d) + k) d3 Hl3 Ht1 Hh) as (spans & done & d4 & b & El & Et & Hb);
    [cbn [l1 lpending]; lia|apply Hf|apply Hf|lia|lia|by rewrite Ho1|by rewrite Ho1|].
  rewrite Ho1 in El, Et, Hb. rewrite Hcont, El, Et. fold completed. set (r := carve _ _ _) in *.
  set (l2 := opened (snd r) l1) in *. assert (Ew : with_stream i l2 b d3 = with_stream i l2 b d) by (unfold d3; by rewrite with_stream_twice).
  rewrite Ew. exists (with_stream i l2 b d). split; [done|].
  pose proof (pend_sum_insert (logical d) i l l2 Hl) as Esum. cbn [l2 opened set_pending lpending] in Esum.
  pose proof (carve_cost (psegments p) (vopen (v (pserial p))) (pbody p) ltac:(apply Hf) ltac:(apply Hf)) as Hcost. fold r in Hcost.
  assert (El1 : lpending l = default [] (vopen (v (pserial p)))) by (rewrite <- Ho1; exact (tidy_pending l1 Ht1)). rewrite <- El1 in Hcost.
  pose proof (packets_cost_nonneg (fst r)) as Hcn.
  cbn [with_stream data pos stats deof logical]. split_and!; try done.
  - apply (agrees_update d v k p i l l2 b _ A Hl Es eq_refl); try reflexivity.
    + apply (opened_open (snd r) l1).
    + unfold absorb. rewrite Z.eqb_refl. exact (proj1 (opened_open (snd r) l1)).
    + cbn [logical with_stream]. rewrite Esum. cbn [l1 lpending] in Hb. by replace (_ - _ + _ + k) with (pend_sum (logical d) + k - zlen (lpending l) + zlen (default [] (snd r))) by lia.
    + cbn [logical pos with_stream]. rewrite Esum. lia.
  - apply (map_insert_same lserial _ _ l); done.
  - rewrite Esum. subst completed. lia.
Qed.

(** *** A whole file *)

Definition absorb_all (v : Z -> view) (ps : list page) : Z -> view := fold_left absorb ps v.

Lemma absorb_all_app v ps qs : absorb_all v (ps ++ qs) = absorb_all (absorb_all v ps) qs.
Proof. apply fold_left_app. Qed.

Lemma pages_ok_app ps : forall v qs, pages_ok v (ps ++ qs) <-> pages_ok v ps /\ pages_ok (absorb_all v ps) qs.
Proof.
  induction ps as [|p ps IH]; intros v qs; [cbn; tauto|]. cbn [app pages_ok]. rewrite IH.
  change (absorb_all v (p :: ps)) with (absorb_all (absorb v p) ps). tauto.
Qed.

(** Streams in the order of their first pages. *)
Definition note_serial (order : list Z) (p : page) : list Z := if decide (pserial p ∈ order) then order else order ++ [pserial p].
Definition serials (ps : list page) : list Z := fold_left note_serial ps [].

Lemma serials_snoc ps p : serials (ps ++ [p]) = note_serial (serials ps) p.
Proof. unfold serials. by rewrite fold_left_app. Qed.

Lemma agrees_start file : limits_ok lim -> 0 <= W -> agrees (demuxer_new file lim) nothing 0.
Proof.
  intros Hl HW. split; cbn; try done; [apply NoDup_nil_2|set_solver| |unfold pend_sum; cbn; lia].
  split_and!; [by apply new_accounts|done..].
Qed.

End reassembly.
