(* ===== verification/OggReplay.v ===== *)
(** * OggReplay: the demuxer reads a file of well-formed pages

    On pages that follow each other the way [OggRound.pages_ok] asks, opening and
    reading hand over, stream by stream, the packets that the lacing spells after the
    stream's headers, and nothing is counted as damage. *)

From Stdlib Require Import ZArith Lia.
From stdpp Require Import prelude strings.
From S2P Require Import Prelude Bits Rational Time Error Limits PixFmt Media OggPage OggTime OggDemux OggRead OggRound.

(** ** What the timeline and the classification leave alone *)

Lemma lay_length ds : forall c, length (fst (lay c ds)) = length ds.
Proof. induction ds as [|d ds IH]; intros c; cbn [lay fst length]; [done|]. by rewrite IH. Qed.

Lemma assign_length m g ds t : length (fst (assign m g ds t)) = length ds.
Proof.
  unfold assign. pose proof (lay_length ds (planned_cursor m t)) as H. destruct (lay _ ds) as [out c]. cbn [fst] in H.
  destruct (OggTime.timestamp m g) as [target|]; [|done]. unfold snap. destruct (last out) as [[p d]|] eqn:El; [|done].
  apply last_Some in El as [l ->]. cbn [fst]. by rewrite removelast_last, length_app in *.
Qed.

Lemma nominal_length f g data : length (nominal_durations f g data) = length data.
Proof. unfold nominal_durations. by rewrite length_map. Qed.

(** What was handed over for the stream of an index. *)
Definition sent (i : nat) (ps : list timed_packet) : list (list Z) :=
  map (fun p => payload (packet_of p)) (filter (fun p => stream_index (packet_of p) = Z.of_nat i) ps).

Lemma sent_app i ps qs : sent i (ps ++ qs) = sent i ps ++ sent i qs.
Proof. unfold sent. by rewrite filter_app, map_app. Qed.

Lemma sent_all i j ps data : map (fun p => payload (packet_of p)) ps = data -> Forall (fun p => stream_index (packet_of p) = Z.of_nat j) ps ->
  sent i ps = if decide (i = j) then data else [].
Proof.
  intros <- H. unfold sent. induction H as [|p ps Hp Hps IH]; [by destruct (decide _)|]. rewrite filter_cons. cbn [map].
  destruct (decide (stream_index (packet_of p) = Z.of_nat i)) as [E|E]; cbn [map]; rewrite IH; destruct (decide (i = j)); try done; lia.
Qed.

Lemma total_header_range c bos : is_bytes bos -> 1 <= Codec.total_header_packets c bos < 2 ^ 32.
Proof.
  intros Hb. unfold Codec.total_header_packets. destruct c; try lia.
  - assert (0 <= default 0 (Codec.parse_flac_header_count bos)).
    { unfold Codec.parse_flac_header_count. destruct (negb _); [done|]. destruct (get_range bos 7 9) as [k|] eqn:E; [|done]. cbn.
      pose proof (be_value_range k ltac:(by eapply get_range_Forall)). lia. }
    unfold sat_u. lia.
  - destruct (Codec.parse_speex_ident bos) as [s|] eqn:E; [|unfold sat_u; lia]. assert (0 <= Codec.extra_headers s).
    { unfold Codec.parse_speex_ident in E. destruct (bool_decide _) in E; [done|].
      repeat match type of E with mbind _ ?o = _ => destruct o eqn:?; [|discriminate E]; cbn [mbind option_bind] in E end.
      injection E as <-. cbn. match goal with H : Codec.speex_field bos 11 = Some ?x |- _ => unfold Codec.speex_field in H; destruct (get_range bos (28 + 11 * 4) _) as [k|] eqn:Ek; [|done]; injection H as <- end.
      apply le_value_range. by eapply get_range_Forall. }
    unfold sat_u. lia.
Qed.

(** A stream's info, apart from what its headers gathered. *)
Definition same_info (seen : Z) (f f' : stream_info) : Prop :=
  istream_index f' = istream_index f /\ header_total f' = header_total f /\ header_seen f' = seen.

Lemma take_header_spec i f bytes r : infos r !! i = Some f -> 0 <= header_seen f < 2 ^ 32 - 1 ->
  exists f', infos (take_header i f bytes r) = <[i := f']> (infos r) /\ same_info (header_seen f + 1) f f' /\
    queue (take_header i f bytes r) = queue r /\ core (take_header i f bytes r) = core r /\
    length (rstreams (take_header i f bytes r)) = length (rstreams r).
Proof.
  intros Hi Hs. pose proof (take_header_core i f bytes r) as Hc.
  assert (Halter : forall g (r0 : reader) f0, infos r0 !! i = Some f0 -> infos (on_info i g r0) = <[i := g f0]> (infos r0)).
  { intros g r0 f0 H0. cbn. apply list_eq. intros j. destruct (decide (i = j)) as [<-|Hne].
    - rewrite list_lookup_alter_eq, H0, list_lookup_insert_eq; [done|by eapply lookup_lt_Some].
    - by rewrite list_lookup_alter_ne, list_lookup_insert_ne. }
  set (r1 := on_info i (set_seen (sat_u 32 (header_seen f + 1))) r).
  assert (H1 : infos r1 = <[i := set_seen (header_seen f + 1) f]> (infos r)) by (unfold r1; rewrite (Halter _ _ _ Hi), sat_u_id by lia; done).
  assert (Hi1 : infos r1 !! i = Some (set_seen (header_seen f + 1) f)) by (rewrite H1; apply list_lookup_insert_eq; by eapply lookup_lt_Some).
  assert (Hon : forall n g r0, infos (on_stream n g r0) = infos r0 /\ queue (on_stream n g r0) = queue r0 /\ length (rstreams (on_stream n g r0)) = length (rstreams r0)).
  { intros n g r0. cbn. by rewrite length_alter. }
  set (r2 := match (match icodec f with Codec.Vorbis => Some Codec.VORBIS_COMMENT_MAGIC | Codec.Opus => Some Codec.OPUS_COMMENT_MAGIC | _ => None end) with
    | Some magic => if header_seen f =? 1 then on_stream (istream_index f) (fun s => fold_left (fun s kv => metadata_set kv s) (Codec.parse_comment_header bytes magic) s) r1 else r1
    | None => r1 end).
  assert (H2 : infos r2 = infos r1 /\ queue r2 = queue r /\ length (rstreams r2) = length (rstreams r)).
  { unfold r2. destruct (match icodec f with Codec.Opus => _ | _ => _ end); [|done]. destruct (header_seen f =? 1); [exact (Hon _ _ r1)|done]. }
  assert (Et : take_header i f bytes r = match icodec f with
    | Codec.Vorbis | Codec.Theora =>
      if sat_u 32 (header_seen f + 1) =? header_total f then
        on_stream (istream_index f) (set_extradata (Codec.pack_xiph_headers (header_bytes f ++ [bytes]))) (on_info i (set_header_bytes []) r2)
      else on_info i (set_header_bytes (header_bytes f ++ [bytes])) r2
    | _ => r2 end) by (unfold r2, r1, take_header; by destruct (icodec f)).
  rewrite Et in Hc |- *. destruct H2 as (H2 & Hq2 & Hl2). rewrite <- H2 in Hi1.
  destruct (icodec f); try (eexists; rewrite H2, H1; by split_and!);
    (destruct (_ =? header_total f);
      [destruct (Hon (istream_index f) (set_extradata (Codec.pack_xiph_headers (header_bytes f ++ [bytes]))) (on_info i (set_header_bytes []) r2)) as (-> & -> & ->)|];
      eexists; rewrite (Halter _ _ _ Hi1), H2, H1, list_insert_insert_eq; by split_and!).
Qed.

Lemma classify_spec i completed : forall r f, infos r !! i = Some f -> 0 <= header_seen f <= header_total f -> header_total f < 2 ^ 32 ->
  exists r' f', classify i completed r = (drop (Z.to_nat (header_total f - header_seen f)) completed, r') /\
    infos r' = <[i := f']> (infos r) /\ same_info (Z.min (header_total f) (header_seen f + zlen completed)) f f' /\
    queue r' = queue r /\ core r' = core r /\ length (rstreams r') = length (rstreams r).
Proof.
  induction completed as [|bytes completed IH]; intros r f Hi Hs Ht; cbn [classify].
  - exists r, f. rewrite drop_nil, list_insert_id by done. split_and!; try done. split_and!; try done. change (zlen (@nil (list Z))) with 0. lia.
  - rewrite Hi. pose proof (zlen_nonneg completed). rewrite zlen_cons. case Z.ltb_spec; intros Hlt.
    + destruct (take_header_spec i f bytes r Hi ltac:(lia)) as (f1 & E1 & (S1 & S2 & S3) & Hq & Hc & Hl).
      destruct (IH (take_header i f bytes r) f1) as (r2 & f2 & -> & E2 & (S4 & S5 & S6) & Hq2 & Hc2 & Hl2);
        [rewrite E1; apply list_lookup_insert_eq; by eapply lookup_lt_Some|lia|lia|].
      exists r2, f2. rewrite E2, E1, list_insert_insert_eq. split.
      { f_equal. rewrite S2, S3. replace (Z.to_nat (header_total f - header_seen f)) with (S (Z.to_nat (header_total f - (header_seen f + 1)))) by lia. done. }
      split_and!; try done; [split_and!; try congruence; rewrite S6, S2, S3; lia|congruence..].
    + destruct (IH r f Hi Hs Ht) as (r2 & f2 & E & E2 & S' & Hq2 & Hc2 & Hl2). rewrite E.
      exists r2, f2. replace (header_total f - header_seen f) with 0 in * by lia. split; [done|]. split_and!; try done.
      destruct S' as (S4 & S5 & S6). split_and!; try done. rewrite S6. lia.
Qed.

Section replay.
Context (lim : limits) (allowed : Z -> bool) (addr : Z -> Z).
Hypothesis Hallowed : forall n, allowed n = true.
Hypothesis Hsingle : MAX_PACKET_BYTES + 127 <= max_alloc_single lim.

Lemma emit_sent f key data : forall assigned r c, length assigned = length data -> in_order lim c (Free (dbudget (core r))) ->
  Forall (fun x => zlen x <= MAX_PACKET_BYTES) data -> c + cost data <= max_alloc_total lim ->
  exists b qs, emit allowed addr f key data assigned r = OggDemuxer' (set_budget b (core r)) (infos r) (rstreams r) (queue r ++ qs) /\
    in_order lim (c + cost data) (Free b) /\ map (fun p => payload (packet_of p)) qs = data /\
    Forall (fun p => stream_index (packet_of p) = istream_index f) qs.
Proof.
  induction data as [|bytes data IH]; intros [|[pts dur] assigned] r c Hlen Hc Hs Ht; try done.
  - exists (dbudget (core r)), []. cbn [emit cost]. rewrite app_nil_r, Z.add_0_r. split_and!; try done. by destruct r as [[] ? ? ?].
  - apply Forall_cons in Hs as [Hb Hs]. cbn [emit cost] in *. pose proof (packets_cost_nonneg data).
    destruct (packet_from_slice_fits allowed addr lim c (dbudget (core r)) bytes Hc) as (p & b & -> & Hb' & Hp); [lia|lia|done|].
    set (p' := Packet _ _ _ _ _ _ _ _). set (r1 := set_queue _ _).
    destruct (IH assigned r1 (c + (zlen bytes + 127))) as (b2 & qs & -> & Hb2 & Hm & Hi); [by injection Hlen|done|done|lia|].
    exists b2, (TimedPacket p' dur :: qs). split; [cbn [r1 set_queue set_core core infos rstreams queue]; by rewrite <- app_assoc|].
    split; [by rewrite Z.add_assoc|]. split; [cbn [map packet_of]; f_equal; [exact Hp|done]|]. by constructor.
Qed.

Lemma classify_and_emit_sent i g completed r f c : infos r !! i = Some f -> 0 <= header_seen f <= header_total f -> header_total f < 2 ^ 32 ->
  in_order lim c (Free (dbudget (core r))) -> Forall (fun x => zlen x <= MAX_PACKET_BYTES) completed -> c + cost completed <= max_alloc_total lim ->
  let data := drop (Z.to_nat (header_total f - header_seen f)) completed in
  exists b qs f' r', classify_and_emit allowed addr i g completed r = r' /\ core r' = set_budget b (core r) /\
    infos r' = <[i := f']> (infos r) /\ length (rstreams r') = length (rstreams r) /\ queue r' = queue r ++ qs /\
    same_info (Z.min (header_total f) (header_seen f + zlen completed)) f f' /\ in_order lim (c + cost data) (Free b) /\ cost data <= cost completed /\
    map (fun p => payload (packet_of p)) qs = data /\ Forall (fun p => stream_index (packet_of p) = istream_index f) qs.
Proof.
  intros Hi Hs Ht Hc Hsz Htot data. unfold classify_and_emit.
  destruct (classify_spec i completed r f Hi Hs Ht) as (r1 & f1 & -> & E1 & S1 & Hq1 & Hc1 & Hl1). fold data.
  assert (Hcost : cost data <= cost completed).
  { unfold data. generalize (Z.to_nat (header_total f - header_seen f)) as n. clear. induction completed as [|x l IH]; intros [|n]; cbn [drop cost]; try lia.
    specialize (IH n). pose proof (zlen_nonneg x). lia. }
  assert (Hdata : Forall (fun x => zlen x <= MAX_PACKET_BYTES) data) by (by apply Forall_drop).
  assert (Hi1 : infos r1 !! i = Some f1) by (rewrite E1; apply list_lookup_insert_eq; by eapply lookup_lt_Some). rewrite Hi1.
  destruct data as [|x data'] eqn:Ed.
  { exists (dbudget (core r)), [], f1, r1. rewrite app_nil_r, Z.add_0_r, Hc1. split_and!; try done. by destruct (core r). }
  rewrite <- Ed in *.
  pose proof (assign_length (imapping f1) g (nominal_durations f1 g data) (itimeline f1)) as Hal. rewrite nominal_length in Hal.
  destruct (assign _ _ _ _) as [assigned t]. cbn [fst] in Hal. set (r2 := on_info i (set_timeline t) r1).
  destruct (emit_sent f1 (is_key f1 g) data assigned r2 c Hal) as (b & qs & -> & Hb & Hm & Hix); [cbn; by rewrite Hc1|done|lia|].
  exists b, qs, (set_timeline t f1). eexists. split; [reflexivity|]. cbn [r2 on_info core infos rstreams queue]. rewrite Hc1, Hq1, Hl1.
  split_and!; try done.
  - apply list_eq. intros j. destruct (decide (i = j)) as [<-|Hne].
    + rewrite list_lookup_alter_eq, Hi1, list_lookup_insert_eq; [done|by eapply lookup_lt_Some].
    + by rewrite list_lookup_alter_ne, E1, !list_lookup_insert_ne.
  - destruct S1 as (S1 & _). by rewrite <- S1.
Qed.

(** ** The reader follows the pages *)

(** The headers of a stream, by its first packet. *)
Definition headers_due (w : view) : nat :=
  match vbos w with Some bos => Z.to_nat (Codec.total_header_packets (Codec.identify bos) bos) | None => O end.

(** The packets of a stream that are not headers. *)
Definition due (w : view) : list (list Z) := drop (headers_due w) (vdone w).

(** [popped] was handed over. *)
Record tracks (W : Z) (r : reader) (v : Z -> view) (k : Z) (order : list Z) (popped : list timed_packet) : Prop := {
  tr_core : agrees lim W (core r) v k;
  tr_order : map lserial (logical (core r)) = order;
  tr_range : Forall (fun s => 0 <= s < 2 ^ 32) order;
  tr_infos : length (infos r) = length order;
  tr_streams : length (rstreams r) = length order;
  tr_info : forall i s f, order !! i = Some s -> infos r !! i = Some f ->
    istream_index f = Z.of_nat i /\ 1 <= header_total f < 2 ^ 32 /\ headers_due (v s) = Z.to_nat (header_total f) /\
    header_seen f = Z.min (header_total f) (zlen (vdone (v s)));
  tr_sent : forall i, sent i (popped ++ queue r) = match order !! i with Some s => due (v s) | None => [] end }.

Lemma range_short (l : list Z) n : 0 <= n -> NoDup l -> Forall (fun s => 0 <= s < n) l -> zlen l <= n.
Proof.
  intros Hn Hd Hr. assert (H : l ⊆+ seqZ 0 n).
  { apply NoDup_submseteq; [done|]. intros x Hx. apply elem_of_seqZ. eapply Forall_forall in Hr; [|exact Hx]. lia. }
  apply submseteq_length in H. rewrite length_seqZ in H. unfold zlen. lia.
Qed.

Lemma tracks_ext W r v v' k order popped : (forall s, v s = v' s) -> tracks W r v k order popped -> tracks W r v' k order popped.
Proof.
  intros E [[A1 A2 A3 A4 A5 A6 A7] T2 T3 T4 T5 T6 T7]. split; try done.
  - split; try done; [intros l Hl; rewrite <- E; by apply A3|intros s Hs; rewrite <- E; by apply A4].
  - intros i s f Hs Hf. rewrite <- E. by apply T6.
  - intros i. rewrite T7. destruct (order !! i); [by rewrite E|done].
Qed.

(** The first packet of a stream is noted when its first page is seen. *)
Definition greet (v : Z -> view) (p : page) : Z -> view := fun s =>
  if s =? pserial p then
    View (vopen (v s)) (vlast (v s)) (vdone (v s)) (Some (default (bos_bytes (header_of p) (pbody p)) (vbos (v s))))
  else v s.

Lemma absorb_greet v p s : absorb (greet v p) p s = absorb v p s.
Proof. unfold absorb, greet. by destruct (s =? pserial p). Qed.

Lemma greet_ok v p : page_ok v p -> page_ok (greet v p) p.
Proof. unfold page_ok, greet. by rewrite Z.eqb_refl. Qed.

Lemma greet_other v p s : s <> pserial p -> greet v p s = v s.
Proof. intros H. unfold greet. by destruct (Z.eqb_spec s (pserial p)). Qed.

Lemma agrees_greet W d v k p : agrees lim W d v k -> pserial p ∈ map lserial (logical d) -> agrees lim W d (greet v p) k.
Proof.
  intros [A1 A2 A3 A4 A5 A6 A7] Hin. split; try done.
  - intros l Hl. specialize (A3 l Hl). unfold greet. destruct (Z.eqb_spec (lserial l) (pserial p)) as [E|]; [|done]. by rewrite E in A3 |- *.
  - intros s Hs. rewrite greet_other; [by apply A4|]. by intros ->.
Qed.

Lemma bos_is_bytes p : page_fits p -> is_bytes (bos_bytes (header_of p) (pbody p)).
Proof.
  intros Hf. unfold bos_bytes. destruct (packet_spans _) as [|s l]; [constructor|].
  destruct (get_range _ _ _) as [b|] eqn:E; [|constructor]. eapply get_range_Forall; [|exact E]. apply Hf.
Qed.

Lemma lserials_lookup d i l : logical d !! i = Some l -> map lserial (logical d) !! i = Some (lserial l).
Proof. intros H. change (map lserial) with (fmap (M := list) lserial). by rewrite list_lookup_fmap, H. Qed.

(** Finding the stream of a page, or starting it. *)
Lemma greet_tracks W parsers r v k order popped p : tracks W r v k order popped -> page_fits p ->
  exists i l r2, match logical_index (serial (header_of p)) (core r) with
                 | Some i => (i, r) | None => begin_stream parsers (header_of p) (pbody p) r end = (i, r2) /\
    logical (core r2) !! i = Some l /\ lserial l = pserial p /\ tracks W r2 (greet v p) k (note_serial order p) popped /\
    still (core r) (core r2) /\ stats (core r2) = stats (core r) /\ deof (core r2) = deof (core r) /\
    pend_sum (logical (core r2)) = pend_sum (logical (core r)).
Proof.
  intros [T1 T2 T3 T4 T5 T6 T7] Hf. cbn [header_of serial]. unfold logical_index.
  destruct (list_find (fun l => lserial l = pserial p) (logical (core r))) as [[i l]|] eqn:E; cbn [fmap option_fmap option_map fst].
  - apply list_find_Some in E as (Hl & Es & _). exists i, l, r. split; [done|]. split; [done|]. split; [done|].
    pose proof (lserials_lookup _ _ _ Hl) as Hls. rewrite Es, T2 in Hls. assert (Hin : pserial p ∈ order) by (by eapply list_elem_of_lookup_2).
    unfold note_serial. rewrite decide_True by done. split; [|done].
    assert (Hdef : forall s f j, order !! j = Some s -> infos r !! j = Some f -> vbos (v s) = None -> False).
    { intros s f j Hs Hj Hb. destruct (T6 j s f Hs Hj) as (_ & Hr & Hd & _). unfold headers_due in Hd. rewrite Hb in Hd. lia. }
    assert (Hbos : forall s f j, order !! j = Some s -> infos r !! j = Some f -> greet v p s = v s).
    { intros s f j Hs Hj. unfold greet. destruct (s =? pserial p); [|done]. destruct (v s) as [a b c [d|]] eqn:Ev; [done|].
      exfalso. apply (Hdef s f j Hs Hj). by rewrite Ev. }
    split; try done.
    + apply agrees_greet; [done|]. by rewrite T2.
    + intros j s f Hs Hj. rewrite (Hbos s f j Hs Hj). by apply T6.
    + intros j. rewrite T7. destruct (order !! j) as [s|] eqn:Ej; [|done]. destruct (lookup_lt_is_Some_2 (infos r) j) as [f Hj].
      { rewrite T4. by eapply lookup_lt_Some. }
      by rewrite (Hbos s f j Ej Hj).
  - apply list_find_None in E.
    assert (Hnew : pserial p ∉ order).
    { rewrite <- T2. change (map lserial) with (fmap (M := list) lserial). intros (l & El & Hin)%list_elem_of_fmap. eapply Forall_forall in E; [|exact Hin]. by apply E. }
    assert (Hlen : length (logical (core r)) = length order) by (rewrite <- T2, length_map; done).
    unfold begin_stream. destruct (describe _ _) as [[m tb] par]. unfold begin_logical_stream. cbn [header_of serial].
    set (bos := bos_bytes _ _). set (r2 := OggDemuxer' _ _ _ _).
    eexists _, _, r2. split; [reflexivity|]. cbn [r2 core infos rstreams queue]. split; [by apply list_lookup_middle|]. split; [done|].
    assert (Hv : v (pserial p) = unseen) by (apply (ag_unknown _ _ _ _ _ T1); by rewrite T2).
    assert (Hg : greet v p (pserial p) = View None None [] (Some bos)) by (unfold greet; by rewrite Z.eqb_refl, Hv).
    split; [|cbn [set_logical logical stats deof]; split_and!; try done; unfold pend_sum; rewrite sum_list_with_app; cbn; lia].
    unfold note_serial. rewrite decide_False by done.
    assert (Hbs : is_bytes bos) by (by apply bos_is_bytes). pose proof (total_header_range (Codec.identify bos) bos Hbs) as Htr.
    assert (Hsh : zlen order < 2 ^ 32).
    { assert (Hd : NoDup (order ++ [pserial p])).
      { apply NoDup_app. split_and!; [rewrite <- T2; apply T1|by intros x Hx ->%list_elem_of_singleton|apply NoDup_singleton]. }
      apply (range_short _ (2 ^ 32)) in Hd; [|lia|apply Forall_app; split; [done|]; apply Forall_cons; split; [apply Hf|constructor]].
      rewrite zlen_app in Hd. change (zlen [pserial p]) with 1 in Hd. lia. }
    split; cbn [r2 core infos rstreams queue].
    + apply agrees_greet; [|cbn [set_logical logical]; rewrite map_app; apply elem_of_app; right; by left].
      apply (agrees_begin lim W (core r) v k (header_of p) T1). by rewrite T2.
    + cbn [set_logical logical]. rewrite map_app, T2. done.
    + apply Forall_app. split; [done|]. apply Forall_cons. split; [apply Hf|constructor].
    + rewrite !length_app, T4. done.
    + rewrite !length_app, T5. done.
    + intros j s f Hs Hj. destruct (decide (j = length order)) as [->|Hne].
      * rewrite list_lookup_middle in Hs by done. rewrite list_lookup_middle in Hj by done. injection Hs as <-. injection Hj as <-.
        cbn [istream_index header_total header_seen]. rewrite Hg. unfold headers_due. cbn [vbos vdone].
        assert (Ein : in_u 32 (zlen (rstreams r)) = true).
        { apply in_u_spec. unfold zlen in *. rewrite T5. lia. }
        rewrite Ein. split; [unfold zlen; by rewrite T5|]. split; [done|]. split; [done|]. change (zlen (@nil (list Z))) with 0. lia.
      * apply lookup_snoc_Some in Hs as [[Hlt Hs]|[-> _]]; [|done]. rewrite lookup_app_l in Hj by (by rewrite T4).
        rewrite greet_other; [by apply T6|]. intros ->. destruct Hnew. by eapply list_elem_of_lookup_2.
    + intros j. rewrite T7. destruct (decide (j = length order)) as [->|Hne].
      * rewrite list_lookup_middle by done. rewrite lookup_ge_None_2 by done. rewrite Hg. symmetry. apply drop_nil.
      * destruct (order !! j) as [s|] eqn:Ej.
        -- rewrite lookup_app_l by (by eapply lookup_lt_Some). rewrite Ej, greet_other; [done|]. intros ->. destruct Hnew. by eapply list_elem_of_lookup_2.
        -- rewrite lookup_ge_None_2; [done|]. apply lookup_ge_None in Ej. rewrite length_app. cbn. lia.
Qed.

Lemma end_of_stream_serials i h d : map lserial (logical (end_of_stream i h d)) = map lserial (logical d).
Proof.
  unfold end_of_stream. destruct (contains _ _); [|done]. unfold on_logical. cbn [set_logical logical]. generalize (logical d) as ls.
  intros ls. revert i. induction ls as [|l ls IH]; intros [|i]; cbn [alter list_alter map lserial]; [done..|]. by rewrite <- (IH i).
Qed.

Lemma end_of_stream_stats i h d : stats (end_of_stream i h d) = stats d.
Proof. unfold end_of_stream. by destruct (contains _ _). Qed.

Lemma end_of_stream_deof i h d : deof (end_of_stream i h d) = deof d.
Proof. unfold end_of_stream. by destruct (contains _ _). Qed.

(** What the packets a page completes do to a stream of the reader. *)
Lemma tracks_absorb W r v k k' order popped p i f f' r' completed : tracks W r v k order popped ->
  order !! i = Some (pserial p) -> infos r !! i = Some f -> is_Some (vbos (v (pserial p))) ->
  completed = fst (carve (vopen (v (pserial p))) (psegments p) (pbody p)) ->
  agrees lim W (core r') (absorb v p) k' -> map lserial (logical (core r')) = map lserial (logical (core r)) ->
  infos r' = <[i := f']> (infos r) -> same_info (Z.min (header_total f) (header_seen f + zlen completed)) f f' ->
  length (rstreams r') = length (rstreams r) -> (exists qs, queue r' = queue r ++ qs /\
    map (fun p => payload (packet_of p)) qs = drop (Z.to_nat (header_total f - header_seen f)) completed /\
    Forall (fun p => stream_index (packet_of p) = istream_index f) qs) ->
  tracks W r' (absorb v p) k' order popped.
Proof.
  intros [T1 T2 T3 T4 T5 T6 T7] Ho Hf [bos Hbos] Hc A El Ei (S1 & S2 & S3) Er (qs & Eq & Hm & Hx).
  destruct (T6 i _ f Ho Hf) as (F1 & F2 & F3 & F4).
  assert (Hown : absorb v p (pserial p) = View (snd (carve (vopen (v (pserial p))) (psegments p) (pbody p))) (Some (psequence p))
      (vdone (v (pserial p)) ++ completed) (Some bos)) by (unfold absorb; rewrite Z.eqb_refl, Hbos, Hc; done).
  assert (Hother : forall j s, order !! j = Some s -> j <> i -> absorb v p s = v s).
  { intros j s Hj Hne. unfold absorb. destruct (Z.eqb_spec s (pserial p)) as [->|]; [|done]. destruct Hne.
    eapply NoDup_lookup; [|exact Hj|exact Ho]. rewrite <- T2. apply T1. }
  assert (Hdue : headers_due (absorb v p (pserial p)) = headers_due (v (pserial p))) by (unfold headers_due; rewrite Hown, Hbos; done).
  split; rewrite ?Ei, ?length_insert, ?Er; try done.
  - by rewrite El.
  - intros j s g Hj Hg. apply list_lookup_insert_Some in Hg as [(<- & <- & _)|[Hne Hg]].
    + rewrite Ho in Hj. injection Hj as <-. rewrite Hdue, S1, S2, S3, Hown. cbn [vdone]. rewrite zlen_app.
      pose proof (zlen_nonneg completed). split_and!; try done; try lia.
    + rewrite (Hother j s Hj) by done. by apply T6.
  - intros j. rewrite Eq, app_assoc, sent_app, T7, (sent_all j i qs _ Hm) by (by rewrite F1 in Hx).
    destruct (decide (j = i)) as [->|Hne].
    + rewrite Ho. unfold due. rewrite Hdue, Hown. cbn [vdone]. rewrite drop_app. do 2 f_equal. unfold zlen in F4. lia.
    + rewrite app_nil_r. destruct (order !! j) as [s|] eqn:Ej; [|done]. by rewrite (Hother j s Ej).
Qed.

(** One page of a file: the reader follows. *)
Lemma pump_follows W parsers r v k order popped pre p post : tracks W r v k order popped -> page_ok v p ->
  data (core r) = pre ++ bytes_of p ++ post -> pos (core r) = zlen pre -> W + 129 * zlen (data (core r)) <= max_alloc_total lim ->
  exists r' k', pump_one_page allowed addr parsers r = (Ok tt, r') /\ tracks W r' (absorb v p) k' (note_serial order p) popped /\
    data (core r') = data (core r) /\ pos (core r') = zlen (pre ++ bytes_of p) /\ stats (core r') = stats (core r) /\
    deof (core r') = deof (core r).
Proof.
  intros T Hok Hd Hp Htot. pose proof Hok as (Hf & _). pose proof T as [A T2 T3 T4 T5 T6 T7].
  assert (Hbig : MAX_BODY_LEN <= MAX_PACKET_BYTES) by (by vm_compute).
  pose proof (ag_pos _ _ _ _ _ A) as Hpos. pose proof (zlen_nonneg (psegments p)) as Hn1. pose proof (zlen_nonneg (pbody p)) as Hn2.
  pose proof (zlen_nonneg pre) as Hn3. pose proof (zlen_nonneg post) as Hn4.
  assert (Hlen : zlen (bytes_of p) = 27 + zlen (psegments p) + zlen (pbody p)).
  { rewrite bytes_of_split, !zlen_app, fixed_length. unfold FIXED_HEADER_LEN. lia. }
  assert (Hroom : zlen pre + zlen (bytes_of p) <= zlen (data (core r))) by (rewrite Hd, !zlen_app; lia).
  destruct (read_page lim (core r) pre p post (pend_sum (logical (core r)) + k) Hf Hd Hp (ag_held _ _ _ _ _ A)) as (b1 & Er & Hb1);
    [pose proof (body_small p Hf); lia|lia|].
  unfold pump_one_page. rewrite Er. set (d1 := OggDemuxer _ _ _ _ _ _).
  assert (T' : tracks W (set_core d1 r) v k order popped).
  { split; try done. destruct A as [A1 A2 A3 A4 A5 A6 A7]. split; try done. cbn [d1 set_core core pos logical]. lia. }
  destruct (greet_tracks W parsers (set_core d1 r) v k order popped p T' Hf) as (i & l & r2 & Eg & Hl & Es & T2' & [Hdd Hpp] & Hst & Heof & Hps).
  cbn [set_core core] in Eg, Hdd, Hpp, Hst, Heof, Hps. rewrite Eg. clear Eg. cbn [d1 data pos stats deof logical] in Hdd, Hpp, Hst, Heof, Hps.
  pose proof T2' as [B1 B2 B3 B4 B5 B6 B7].
  destruct (stream_step lim W (core r2) (greet v p) k p i l B1 (greet_ok v p Hok) Hl Es) as (d2 & E2 & A2 & Hd2 & Hp2 & Hs2 & He2 & Hl2 & Hc2);
    [lia|by rewrite Hdd|by rewrite Hdd, Hpp|rewrite Hpp, Hps; lia|].
  rewrite E2. set (completed := fst _) in *.
  assert (Ho : note_serial order p !! i = Some (pserial p)) by (rewrite <- B2, (lserials_lookup _ _ _ Hl); by f_equal).
  destruct (lookup_lt_is_Some_2 (infos r2) i) as [f Hfi]; [rewrite B4; by eapply lookup_lt_Some|].
  destruct (B6 i _ f Ho Hfi) as (F1 & F2 & F3 & F4). pose proof (zlen_nonneg (vdone (greet v p (pserial p)))) as Hn5.
  pose proof (ag_pos _ _ _ _ _ A2) as Hpos2. pose proof (ag_charged _ _ _ _ _ A2) as Hk2.
  destruct (classify_and_emit_sent i (granule_position (header_of p)) completed (set_core d2 r2) f (pend_sum (logical d2) + k) Hfi)
    as (b3 & qs & f' & r3 & -> & Ec3 & Ei3 & Er3 & Eq3 & Sf & Hb3 & Hcost & Hm & Hx);
    [lia|lia|apply A2| |rewrite Hpp in Hc2; lia|].
  { apply (greet_ok v p Hok). }
  cbn [set_core core infos rstreams queue] in Ec3, Ei3, Er3, Eq3. set (data := drop _ completed) in *.
  pose proof (packets_cost_nonneg data) as Hcn. rewrite Ec3.
  pose proof (agrees_eos lim W _ _ _ i (header_of p) (agrees_budget lim W d2 _ k b3 (k + cost data) A2
    ltac:(rewrite Z.add_assoc; exact Hb3) ltac:(lia) ltac:(rewrite Hp2; lia))) as A3.
  set (r4 := set_core _ r3). exists r4, (k + cost data). split; [done|].
  pose proof (end_of_stream_still i (header_of p) (set_budget b3 d2)) as [Hd4 Hp4].
  split; [|cbn [r4 set_core core]; rewrite Hd4, Hp4, end_of_stream_stats, end_of_stream_deof; cbn [set_budget OggDemux.data pos stats deof];
    rewrite Hd2, Hp2, Hs2, He2, zlen_app; done].
  apply (tracks_ext W r4 (absorb (greet v p) p)); [apply absorb_greet|].
  apply (tracks_absorb W r2 (greet v p) k (k + cost data) (note_serial order p) popped p i f f' r4 completed T2' Ho Hfi); try done.
  - unfold greet. rewrite Z.eqb_refl. by eexists.
  - cbn [r4 set_core core]. rewrite end_of_stream_serials. exact Hl2.
  - by exists qs.
Qed.

(** ** A whole file *)

Context (file : list Z).

(** The reader is [ps] pages from the end of a file whose streams, in the order [O],
    carry [V]. *)
Record running (W : Z) (r : reader) (popped : list timed_packet) (V : Z -> view) (O : list Z)
    (v : Z -> view) (k : Z) (order : list Z) (ps : list page) (pre : list Z) : Prop := {
  rn_tracks : tracks W r v k order popped;
  rn_pages : pages_ok v ps;
  rn_data : data (core r) = pre ++ concat (map bytes_of ps);
  rn_pos : pos (core r) = zlen pre;
  rn_stats : stats (core r) = stats_default;
  rn_eof : deof (core r) = true -> ps = [];
  rn_views : forall s, absorb_all v ps s = V s;
  rn_order : fold_left note_serial ps order = O;
  rn_file : data (core r) = file;
  rn_room : W + 129 * zlen file <= max_alloc_total lim }.

Definition runs_on (W : Z) (r : reader) (popped : list timed_packet) (V : Z -> view) (O : list Z) : Prop :=
  exists v k order ps pre, running W r popped V O v k order ps pre.

Lemma tracks_eof W r v k order popped : tracks W r v k order popped -> tracks W (set_core (set_eof (core r)) r) v k order popped.
Proof. intros [[A1 A2 A3 A4 A5 A6 A7] T2 T3 T4 T5 T6 T7]. split; try done. Qed.

Lemma runs_on_eof W r popped V O : runs_on W r popped V O -> deof (core r) = true ->
  forall i, sent i (popped ++ queue r) = match O !! i with Some s => due (V s) | None => [] end.
Proof.
  intros (v & k & order & ps & pre & [H1 H2 H3 H4 H5 H6 H7 H8 Hfl H9]) He i. rewrite (H6 He) in *. cbn in H7, H8. subst O.
  rewrite (tr_sent _ _ _ _ _ _ H1). destruct (order !! i); [unfold due, headers_due; by rewrite H7|done].
Qed.

Lemma file_end parsers r : pos (core r) = zlen (data (core r)) -> pump_one_page allowed addr parsers r = (Err Eof, set_core (set_eof (core r)) r).
Proof.
  intros Hp. unfold pump_one_page, read_one_page. destruct MAX_RESYNC_ATTEMPTS as [|n] eqn:En.
  { apply (f_equal Z.of_nat) in En. unfold MAX_RESYNC_ATTEMPTS in En. rewrite Z2Nat.id in En by done. discriminate En. }
  cbn [read_attempts]. unfold read_attempt, read_exact. unfold get_range.
  assert (E : (0 <=? pos (core r)) && (pos (core r) <=? pos (core r) + FIXED_HEADER_LEN) && (pos (core r) + FIXED_HEADER_LEN <=? zlen (data (core r))) = false).
  { rewrite Hp. apply andb_false_iff. right. apply Z.leb_gt. unfold FIXED_HEADER_LEN. lia. }
  rewrite E. do 3 f_equal. unfold set_pos. rewrite <- Hp. by destruct (core r).
Qed.

Lemma note_serial_some order p : note_serial order p <> [].
Proof. unfold note_serial. case_decide as H; [by intros ->; apply not_elem_of_nil in H|]. by destruct order. Qed.

(** A turn of the reader: the next page, or the end. *)
Lemma turn W parsers r popped V O : runs_on W r popped V O -> exists r', runs_on W r' popped V O /\
  (pump_one_page allowed addr parsers r = (Ok tt, r') /\ rstreams r' <> [] \/
   pump_one_page allowed addr parsers r = (Err Eof, r') /\ r' = set_core (set_eof (core r)) r).
Proof.
  intros (v & k & order & ps & pre & [H1 H2 H3 H4 H5 H6 H7 H8 Hfl H9]). destruct ps as [|p ps].
  - exists (set_core (set_eof (core r)) r). split.
    + exists v, k, order, [], pre. split; try done. by apply tracks_eof.
    + right. split; [|done]. apply file_end. rewrite H3, H4. cbn. by rewrite app_nil_r.
  - destruct H2 as [Hok Hrest]. cbn [map concat] in H3.
    destruct (pump_follows W parsers r v k order popped pre p _ H1 Hok H3 H4 ltac:(by rewrite Hfl)) as (r' & k' & E & T & Ed & Ep & Es & Ee).
    exists r'. split.
    + exists (absorb v p), k', (note_serial order p), ps, (pre ++ bytes_of p). split; try done; rewrite ?Ed, ?Es, ?Ee; try done.
      * by rewrite H3, <- app_assoc.
      * intros He. by specialize (H6 He).
    + left. split; [done|]. intros E0. pose proof (tr_streams _ _ _ _ _ _ T) as El. rewrite E0 in El.
      apply (note_serial_some order p). by destruct (note_serial order p).
Qed.

Lemma opens W parsers from fuel : forall r res r' popped V O, runs_on W r popped V O -> open_loop allowed addr fuel parsers from r = Some (res, r') ->
  res = Ok tt /\ runs_on W r' popped V O /\ (rstreams r <> [] -> rstreams r' <> []).
Proof.
  induction fuel as [|fuel IH]; intros r res r' popped V O Hr; [done|]. cbn [open_loop].
  destruct (_ || _); [by intros [= <- <-]|]. destruct (turn W parsers r popped V O Hr) as (r1 & Hr1 & [[-> Hs]|[-> ->]]).
  - intros E. destruct (IH r1 res r' popped V O Hr1 E) as (H1 & H2 & H3). split_and!; [done|done|]. intros _. by apply H3.
  - by intros [= <- <-].
Qed.

Lemma scan_keeps l : forall r, let r' := fold_left set_tail_duration l r in
  core r' = core r /\ infos r' = infos r /\ queue r' = queue r /\ length (rstreams r') = length (rstreams r).
Proof.
  induction l as [|sg l IH]; intros r; [done|]. cbn [fold_left]. destruct (IH (set_tail_duration r sg)) as (-> & -> & -> & ->).
  unfold set_tail_duration. destruct (logical_index _ _) as [i|]; [|done]. destruct (infos r !! i); [|done].
  destruct (rstreams r !! _); [|done]. destruct (sduration_ts _); [done|]. cbn. by rewrite length_alter.
Qed.

Lemma tracks_same W r r' v k order popped : tracks W r v k order popped -> core r' = core r -> infos r' = infos r -> queue r' = queue r ->
  length (rstreams r') = length (rstreams r) -> tracks W r' v k order popped.
Proof. intros [T1 T2 T3 T4 T5 T6 T7] E1 E2 E3 E4. split; rewrite ?E1, ?E2, ?E3, ?E4; done. Qed.

(** The window the tail was read into stays charged. *)
Lemma scans seekable r popped V O : runs_on 0 r popped V O -> TAIL_SCAN_WINDOW + 129 * zlen file <= max_alloc_total lim ->
  runs_on TAIL_SCAN_WINDOW (scan_tail_for_durations allowed seekable r) popped V O.
Proof.
  intros (v & k & order & ps & pre & [H1 H2 H3 H4 H5 H6 H7 H8 Hfl H9]) Ht. pose proof (ag_pos _ _ _ _ _ (tr_core _ _ _ _ _ _ H1)) as Hpos.
  pose proof (zlen_nonneg (data (core r))) as Hn. assert (Hw : 0 <= TAIL_SCAN_WINDOW <= MAX_PACKET_BYTES) by (by vm_compute).
  assert (Hin : pos (core r) <= zlen (data (core r))) by (rewrite H3, H4, zlen_app; pose proof (zlen_nonneg (concat (map bytes_of ps))); lia).
  rewrite Hfl in Hn, Hin. unfold scan_tail_for_durations. destruct seekable; cbn [negb].
  2: { exists v, k, order, ps, pre. split; try done. destruct H1 as [[A1 A2 A3 A4 A5 A6 A7] T2 T3 T4 T5 T6 T7].
       split; try done. split; try done. lia. }
  rewrite Hfl. set (window := Z.min _ _). destruct (alloc_fits allowed lim (pend_sum (logical (core r)) + k) (dbudget (core r)) window) as (b & -> & Hb);
    [apply H1|unfold window; lia|unfold window; lia|apply Hallowed|].
  destruct (scan_keeps (tail_granules 0 (default [] (get_from file (sat_u 64 (zlen file - window)))) [])
    (set_core (set_budget b (core r)) r)) as (E1 & E2 & E3 & E4).
  exists v, (k + window), order, ps, pre. split; rewrite ?E1; try done.
  eapply tracks_same; [|exact E1|exact E2|exact E3|exact E4].
  destruct H1 as [[A1 A2 A3 A4 A5 A6 A7] T2 T3 T4 T5 T6 T7]. split; try done. split; try done; cbn [set_core core set_budget logical pos dbudget].
  - rewrite Z.add_assoc. exact Hb.
  - unfold window. lia.
  - unfold window. lia.
Qed.

Lemma runs_on_pop W r popped V O p q : runs_on W r popped V O -> queue r = p :: q -> runs_on W (set_queue q r) (popped ++ [p]) V O.
Proof.
  intros (v & k & order & ps & pre & [H1 H2 H3 H4 H5 H6 H7 H8 Hfl H9]) Eq. exists v, k, order, ps, pre. split; try done.
  destruct H1 as [T1 T2 T3 T4 T5 T6 T7]. split; try done. intros i. rewrite <- T7, Eq, <- app_assoc. done.
Qed.

Lemma reads W fuel : forall r res r' popped V O, runs_on W r popped V O -> read_packet allowed addr fuel r = Some (res, r') ->
  match res with
  | Ok p => runs_on W r' (popped ++ [p]) V O
  | Err e => e = Eof /\ stats (core r') = stats_default /\ forall i, sent i popped = match O !! i with Some s => due (V s) | None => [] end
  end.
Proof.
  induction fuel as [|fuel IH]; intros r res r' popped V O Hr; cbn [read_packet]; (destruct (queue r) as [|p q] eqn:Eq; [|intros [= <- <-]; by apply runs_on_pop]).
  - destruct (deof (core r)) eqn:Ed; [|done]. intros [= <- <-]. pose proof (runs_on_eof _ _ _ _ _ Hr Ed) as H. rewrite Eq, app_nil_r in H.
    split_and!; [done| |exact H]. by destruct Hr as (v & k & order & ps & pre & [? ? ? ? ? ? ? ? ? ?]).
  - destruct (deof (core r)) eqn:Ed.
    { intros [= <- <-]. pose proof (runs_on_eof _ _ _ _ _ Hr Ed) as H. rewrite Eq, app_nil_r in H.
      split_and!; [done| |exact H]. by destruct Hr as (v & k & order & ps & pre & [? ? ? ? ? ? ? ? ? ?]). }
    destruct (turn W None r popped V O Hr) as (r1 & Hr1 & [[-> _]|[-> ->]]); [by apply IH|].
    cbn [set_core queue core]. rewrite Eq, bool_decide_eq_true_2 by done. intros [= <- <-].
    pose proof (runs_on_eof _ _ _ _ _ Hr1 eq_refl) as H. cbn [set_core queue] in H. rewrite Eq, app_nil_r in H.
    split_and!; [done| |exact H]. by destruct Hr as (v & k & order & ps & pre & [? ? ? ? ? ? ? ? ? ?]).
Qed.

Lemma reads_all W fuel n : forall r ps e r' popped V O, runs_on W r popped V O -> read_all allowed addr n fuel r = Some (ps, e, r') ->
  e = Eof /\ stats (core r') = stats_default /\ forall i, sent i (popped ++ ps) = match O !! i with Some s => due (V s) | None => [] end.
Proof.
  induction n as [|n IH]; intros r ps e r' popped V O Hr; [done|]. cbn [read_all].
  destruct (read_packet allowed addr fuel r) as [[res r1]|] eqn:E; [|done]. pose proof (reads W fuel r res r1 popped V O Hr E) as H.
  destruct res as [p|e1].
  - destruct (read_all allowed addr n fuel r1) as [[[qs e1] r2]|] eqn:E2; [|done]. intros [= <- <- <-].
    destruct (IH r1 qs e1 r2 _ V O H E2) as (-> & Hs & Hi). split_and!; [done|done|]. intros i. by rewrite <- Hi, <- app_assoc.
  - intros [= <- <- <-]. rewrite app_nil_r. exact H.
Qed.

Lemma page_is_bytes p : page_fits p -> is_bytes (bytes_of p).
Proof.
  intros [? ? ? ? ? ? ? ?]. rewrite bytes_of_split. unfold fixed_of, head_of, sum_of. pose proof (zlen_nonneg (psegments p)).
  repeat first [apply le_bytes_bytes|assumption|apply Forall_app; split].
  - unfold CAPTURE_PATTERN. repeat constructor; lia.
  - unfold SUPPORTED_VERSION. repeat constructor; lia.
  - repeat constructor; lia.
Qed.

Lemma pages_are_bytes ps : forall v, pages_ok v ps -> is_bytes (concat (map bytes_of ps)).
Proof.
  induction ps as [|p ps IH]; intros v; [constructor|]. intros [[Hf _] H]. cbn [map concat]. apply Forall_app. split; [by apply page_is_bytes|by eapply IH].
Qed.

(** Opening a file of such pages, and reading to the end. *)
Lemma replay seekable parsers ps : limits_ok lim -> pages_ok nothing ps -> ps <> [] -> file = concat (map bytes_of ps) ->
  TAIL_SCAN_WINDOW + 129 * zlen file <= max_alloc_total lim ->
  exists r n qs r', open_with_limits allowed addr (S (length file)) seekable parsers file lim = Some (Ok r) /\
    read_all allowed addr n (S (length file)) r = Some (qs, Eof, r') /\ stats (core r') = stats_default /\
    forall i, sent i qs = match serials ps !! i with Some s => due (absorb_all nothing ps s) | None => [] end.
Proof.
  intros Hl Hok Hne Hfile Ht. assert (HW : 0 <= TAIL_SCAN_WINDOW) by (by vm_compute).
  assert (Hbuf : buffer file) by (split; [rewrite Hfile; by eapply pages_are_bytes|destruct Hl; lia]).
  set (r0 := reader_new file lim). assert (Hi : inside (core r0)) by (split; [split; [done|apply zlen_nonneg]|done]).
  assert (Hleft : left r0 = zlen file) by (unfold left; cbn; lia).
  assert (H0 : runs_on 0 r0 [] (absorb_all nothing ps) (serials ps)).
  { exists nothing, 0, [], ps, []. split; try done; [|lia]. split; try done. by apply agrees_start. }
  destruct (open_loop_returns allowed addr parsers 0 (S (length file)) r0 Hi) as (res & r & E & [Hi1 Hl1]); [unfold zlen in Hleft; lia|].
  destruct (opens 0 parsers 0 _ r0 res r [] _ _ H0 E) as (-> & H1 & _).
  assert (Hsome : rstreams r <> []).
  { cbn [open_loop] in E. change (_ || _) with false in E. destruct (turn 0 parsers r0 [] _ _ H0) as (r1 & Hr1 & [[E1 Hs1]|[E1 ->]]); rewrite E1 in E.
    - destruct (opens 0 parsers 0 _ r1 _ r [] _ _ Hr1 E) as (_ & _ & H). by apply H.
    - injection E as <-. destruct Hr1 as (v & k & order & ps' & pre & [T _ _ _ _ He _ Ho _ _]). exfalso.
      rewrite (He eq_refl) in Ho. pose proof (tr_streams _ _ _ _ _ _ T) as Hs. cbn in Hs, Ho. destruct order; [|done]. cbn in Ho.
      destruct ps as [|p ps]; [done|]. symmetry in Ho. revert Ho. clear. unfold serials. cbn [fold_left].
      assert (H : note_serial [] p <> []) by apply note_serial_some. revert H. generalize (note_serial [] p). induction ps as [|q ps IH]; intros l Hl; [done|].
      apply IH, note_serial_some. }
  unfold open_with_limits. fold r0. rewrite E. cbn [mbind option_bind]. rewrite bool_decide_eq_false_2 by done.
  pose proof (scans seekable r [] _ _ H1 Ht) as H2. pose proof (scan_tail_core allowed seekable r) as Hs.
  set (r2 := scan_tail_for_durations _ _ _) in *.
  assert (Hll : left r2 = left r) by (unfold left; by destruct Hs as [-> ->]).
  destruct (read_all_returns allowed addr (S (length file)) (S (length file)) r2) as (n & qs & e & r' & E2 & _);
    [by eapply still_inside|unfold zlen in *; lia|unfold zlen in *; lia|].
  destruct (reads_all TAIL_SCAN_WINDOW _ n r2 qs e r' [] _ _ H2 E2) as (-> & Hst & Hsent). by exists r2, n, qs, r'.
Qed.

End replay.
