(* ===== verification/OggFile.v ===== *)
(** * OggFile: the file the Ogg muxer writes

    The muxer's run keeps an invariant: what it has written is whole pages a reader
    can follow, and the lacing of those pages and of each page under construction
    spells the packets each stream was given. With [OggRound] it closes the loop:
    a file the muxer wrote is read back packet for packet. *)

From Stdlib Require Import ZArith Lia.
From stdpp Require Import prelude strings.
From S2P Require Import Prelude Bits Rational Time Error Limits OggPage OggTime OggDemux OggRead OggRound OggReplay OggMux.

(** ** Lacing one packet *)

Record builder_fits (b : page_builder) : Prop := {
  bf_table : zlen (bsegments b) <= 255;
  bf_segments : is_bytes (bsegments b);
  bf_body : is_bytes (bbody b);
  bf_len : body_len (bsegments b) = zlen (bbody b) }.

Definition room (b : page_builder) : Z := MAX_SEGMENTS - zlen (bsegments b).

Definition spelled (acc : option (list Z)) (b : page_builder) : list (list Z) * option (list Z) := carve acc (bsegments b) (bbody b).

Lemma body_len_app a b : body_len (a ++ b) = body_len a + body_len b.
Proof. unfold body_len. rewrite foldr_app. induction a as [|x a IH]; cbn; [done|]. rewrite IH. lia. Qed.

(** One more lacing value, and the bytes it covers. *)
Lemma spelled_lace acc b v chunk : builder_fits b -> 0 <= v < 256 -> zlen chunk = v -> zlen (bsegments b) < 255 -> is_bytes chunk ->
  let b' := PageBuilder (bsegments b ++ [v]) (bbody b ++ chunk) in
  builder_fits b' /\ room b' = room b - 1 /\
  spelled acc b' = let '(cs, o) := spelled acc b in
    if v <? 255 then (cs ++ [default [] o ++ chunk], None) else (cs, Some (default [] o ++ chunk)).
Proof.
  intros [Ht Hs Hb Hl] Hv Hc Hroom Hcb b'. split_and!.
  - split; cbn [bsegments bbody b'].
    + rewrite zlen_app. change (zlen [v]) with 1. lia.
    + apply Forall_app. split; [done|]. by constructor.
    + by apply Forall_app.
    + rewrite body_len_app, zlen_app. cbn. lia.
  - unfold room. cbn [bsegments b']. rewrite zlen_app. change (zlen [v]) with 1. lia.
  - unfold spelled. cbn [bsegments bbody b']. rewrite carve_app by done. destruct (carve acc _ _) as [cs o].
    cbn [fst snd carve]. rewrite take_ge by (unfold zlen in Hc; lia). unfold CONTINUATION_VALUE.
    destruct (v <? 255); cbn [fst snd]; [done|by rewrite app_nil_r].
Qed.

Lemma push_loop_spells acc payload : is_bytes payload -> zlen payload < 2 ^ 64 -> forall n consumed b,
  builder_fits b -> room b = Z.of_nat n -> 0 <= consumed <= zlen payload ->
  let '(cs, o) := spelled acc b in
  let rest := drop (Z.to_nat consumed) payload in
  exists b', builder_fits b' /\
  if zlen payload - consumed <? 255 * Z.of_nat n then
    push_loop n payload consumed b = ((zlen payload, true), b') /\ spelled acc b' = (cs ++ [default [] o ++ rest], None)
  else
    push_loop n payload consumed b = ((consumed + 255 * Z.of_nat n, false), b') /\ room b' = 0 /\
    spelled acc b' = (cs, match n with O => o | S _ => Some (default [] o ++ take (255 * n) rest) end).
Proof.
  intros Hp H64. induction n as [|n IH]; intros consumed b Hb Hr Hc.
  - destruct (spelled acc b) as [cs o] eqn:E. exists b. split; [done|].
    destruct (Z.ltb_spec (zlen payload - consumed) (255 * Z.of_nat 0)); [lia|]. split_and!; [cbn; by rewrite Z.add_0_r|done|done].
  - cbn [push_loop]. rewrite sat_u_id by lia. unfold CONTINUATION_VALUE.
    assert (Hroom : zlen (bsegments b) < 255) by (unfold room, MAX_SEGMENTS in Hr; lia).
    assert (Hcut : forall k, 0 <= k -> consumed + k <= zlen payload ->
      get_range payload consumed (consumed + k) = Some (take (Z.to_nat k) (drop (Z.to_nat consumed) payload)) /\
      zlen (take (Z.to_nat k) (drop (Z.to_nat consumed) payload)) = k).
    { intros k Hk Hkp. split; [|unfold zlen in *; rewrite length_take, length_drop; lia].
      rewrite slice_range by lia. unfold slice. do 2 f_equal. lia. }
    destruct (Z.leb_spec 255 (zlen payload - consumed)) as [Hge|Hlt].
    + destruct (Hcut 255) as [-> Hz]; [lia|lia|]. set (chunk := take _ _) in *. cbn [bsegments bbody].
      destruct (spelled_lace acc b 255 chunk Hb) as (Hb1 & Hr1 & Es); [lia|done|lia|by apply Forall_take, Forall_drop|].
      cbn zeta in Hb1, Hr1, Es. set (b1 := PageBuilder _ _) in *.
      specialize (IH (consumed + 255) b1 Hb1). destruct (spelled acc b) as [cs o]. cbv iota beta in Es. rewrite Es in IH. change (255 <? 255) with false in IH. cbv iota beta in IH.
      destruct IH as (b' & Hb' & IH); [lia|lia|]. exists b'. split; [done|].
      replace (Z.to_nat (consumed + 255)) with (Z.to_nat consumed + 255)%nat in IH by lia. rewrite <- drop_drop in IH.
      set (rest := drop (Z.to_nat consumed) payload) in *.
      replace (zlen payload - consumed <? 255 * Z.of_nat (S n)) with (zlen payload - (consumed + 255) <? 255 * Z.of_nat n)
        by (destruct (Z.ltb_spec (zlen payload - (consumed + 255)) (255 * Z.of_nat n)), (Z.ltb_spec (zlen payload - consumed) (255 * Z.of_nat (S n))); lia).
      assert (Ech : chunk = take 255 rest) by done. rewrite Ech in IH. cbn [default from_option id] in IH.
      destruct (zlen payload - (consumed + 255) <? 255 * Z.of_nat n).
      * destruct IH as [-> ->]. split; [done|]. do 3 f_equal. by rewrite <- app_assoc, take_drop.
      * destruct IH as (-> & -> & ->). split_and!; [do 2 f_equal; lia|done|]. f_equal.
        destruct n as [|n]; [done|]. f_equal. rewrite <- app_assoc. f_equal.
        replace (255 * S (S n))%nat with (255 + 255 * S n)%nat by lia. by rewrite take_take_drop.
    + assert (Ein : checked_u 8 (zlen payload - consumed) = Some (zlen payload - consumed)).
      { unfold checked_u, in_u. destruct (_ && _) eqn:E; [done|]. apply andb_false_iff in E as [E|E]; [apply Z.leb_gt in E|apply Z.ltb_ge in E]; lia. }
      rewrite Ein. rewrite get_from_drop by lia. cbn [default from_option id]. set (rest := drop _ _).
      assert (Hz : zlen rest = zlen payload - consumed) by (unfold rest; by rewrite zlen_drop by lia).
      destruct (spelled_lace acc b (zlen payload - consumed) rest Hb) as (Hb1 & _ & Es); [lia|done|lia|by apply Forall_drop|].
      cbn zeta in Hb1, Es. destruct (spelled acc b) as [cs o]. cbv iota beta in Es. eexists. split; [exact Hb1|].
      destruct (Z.ltb_spec (zlen payload - consumed) (255 * Z.of_nat (S n))); [|lia]. split; [done|].
      rewrite Es. destruct (Z.ltb_spec (zlen payload - consumed) 255); [done|lia].
Qed.

Lemma push_packet_spells acc payload b : builder_fits b -> is_bytes payload -> zlen payload < 2 ^ 64 ->
  let '(cs, o) := spelled acc b in
  exists b', builder_fits b' /\
  if zlen payload <? 255 * room b then
    push_packet payload b = ((zlen payload, true), b') /\ spelled acc b' = (cs ++ [default [] o ++ payload], None)
  else
    push_packet payload b = ((255 * room b, false), b') /\ room b' = 0 /\
    (1 <= room b -> spelled acc b' = (cs, Some (default [] o ++ take (Z.to_nat (255 * room b)) payload))).
Proof.
  intros Hb Hp H64. pose proof (bf_table _ Hb) as Ht. assert (Hr : room b = Z.of_nat (Z.to_nat (room b))) by (unfold room, MAX_SEGMENTS; lia).
  pose proof (push_loop_spells acc payload Hp H64 (Z.to_nat (room b)) 0 b Hb Hr) as H. destruct (spelled acc b) as [cs o].
  destruct H as (b' & Hb' & H); [pose proof (zlen_nonneg payload); lia|]. exists b'. split; [done|]. rewrite <- Hr, Z.sub_0_r in H.
  change (push_loop (Z.to_nat (room b)) payload 0 b) with (push_packet payload b) in H. destruct (_ <? _); [done|]. destruct H as (-> & Hr' & Es). split_and!; [do 2 f_equal; lia|done|].
  intros H1. rewrite Es. destruct (Z.to_nat (room b)) eqn:En; [lia|]. do 3 f_equal. rewrite drop_0. f_equal. lia.
Qed.

(** ** The invariant *)

(** One stream: [w] is what a reader of the pages so far knows of it, [g] the packets
    it was given, complete and begun. *)
Record stream_inv (w : view) (i : nat) (st : stream_state) (g : list (list Z) * option (list Z)) : Prop := {
  si_serial : sserial st = Z.of_nat i;
  si_sequence : 0 <= ssequence st < 2 ^ 32;
  si_follows : forall q, vlast w = Some q -> ssequence st = wrap_u 32 (q + 1);
  si_granule : - 2 ^ 63 <= granule_cursor st < 2 ^ 63;
  si_continued : pending_continued st = bool_decide (is_Some (vopen w));
  si_builder : builder_fits (builder st);
  si_spells : (vdone w ++ fst (spelled (vopen w) (builder st)), snd (spelled (vopen w) (builder st))) = g;
  si_done : Forall (fun x => zlen x <= MAX_PACKET_BYTES) (fst g);
  si_begun : zlen (default [] (snd g)) <= MAX_PACKET_BYTES;
  si_bos : vbos w = head (vdone w);
  si_begins : vdone w = [] -> vopen w = None }.

(** The first [rd] streams have begun, one after the other. *)
Record written (m : muxer) (pages : list page) (G : nat -> list (list Z) * option (list Z)) (rd : nat) : Prop := {
  wr_out : out m = concat (map bytes_of pages);
  wr_ok : pages_ok nothing pages;
  wr_few : zlen (streams m) <= 2 ^ 32;
  wr_streams : forall i st, streams m !! i = Some st -> stream_inv (absorb_all nothing pages (Z.of_nat i)) i st (G i);
  wr_order : serials pages = seqZ 0 (Z.of_nat rd);
  wr_some : forall i, (i < rd)%nat -> fst (G i) <> [] }.

(** What one stream was given, replaced. *)
Definition given (i : nat) (g : list (list Z) * option (list Z)) (G : nat -> list (list Z) * option (list Z)) :=
  fun j => if decide (j = i) then g else G j.

Lemma given_eq i g G : given i g G i = g.
Proof. unfold given. by rewrite decide_True. Qed.

Lemma given_ne i j g G : j <> i -> given i g G j = G j.
Proof. intros H. unfold given. by rewrite decide_False. Qed.

Lemma written_ext m pages G G' rd : (forall i, G i = G' i) -> written m pages G rd -> written m pages G' rd.
Proof. intros E [? ? ? H ? Hs]. split; [done..| |done|]; [intros i st Hi|intros i Hi]; rewrite <- E; [by apply H|by apply Hs]. Qed.

Lemma zlen_insert {A} (l : list A) i x : zlen (<[i := x]> l) = zlen l.
Proof. unfold zlen. by rewrite length_insert. Qed.

Lemma lookup_inserted {A} (l : list A) i j x y : <[i := x]> l !! j = Some y -> i = j /\ y = x \/ i <> j /\ l !! j = Some y.
Proof. intros H. apply list_lookup_insert_Some in H as [(-> & -> & _)|[Hne H]]; [by left|by right]. Qed.

Lemma written_stream m pages G rd i st' g : written m pages G rd ->
  stream_inv (absorb_all nothing pages (Z.of_nat i)) i st' g -> (i < rd -> fst g <> [])%nat ->
  written (set_stream i st' m) pages (given i g G) rd.
Proof.
  intros [H1 H2 H3 H4 H5 H6] Hi Hg. split; cbn [set_stream set_streams out streams]; [done|done|by rewrite zlen_insert| |done|].
  - intros j st Hj. apply lookup_inserted in Hj as [[<- ->]|[Hne Hj]]; [by rewrite given_eq|rewrite given_ne by done; by apply H4].
  - intros j Hj. unfold given. case_decide as E; [subst j; by apply Hg|by apply H6].
Qed.

(** The first packet of a stream's first page. *)
Lemma bos_bytes_carve p c cs : page_fits p -> fst (carve None (psegments p) (pbody p)) = c :: cs -> bos_bytes (header_of p) (pbody p) = c.
Proof.
  intros Hf E. pose proof (packet_spans_carve (pbody p) (psegments p) (fits_segments _ Hf) (fits_len _ Hf)) as H. rewrite E in H.
  unfold bos_bytes. cbn [segments header_of]. destruct (packet_spans _) as [|x xs]; [done|]. by injection H as H _ _.
Qed.

(** A page leaves, and a reader has what the builder had. *)
Lemma emit m pages G rd i st st' flags granule h t : written m pages G rd -> streams m !! i = Some st ->
  0 <= flags < 8 -> contains flags CONTINUED = pending_continued st -> - 2 ^ 63 <= granule < 2 ^ 63 ->
  sserial st' = sserial st -> ssequence st' = wrap_u 32 (ssequence st + 1) -> granule_cursor st' = granule_cursor st ->
  builder st' = builder_empty -> pending_continued st' = bool_decide (is_Some (snd (G i))) ->
  fst (G i) <> [] -> (i <= rd)%nat ->
  exists pages', written (OggMuxer (out m ++ page_bytes flags granule (sserial st) (ssequence st) (bsegments (builder st)) (bbody (builder st)))
    (<[i := st']> (streams m)) h t) pages' G (max rd (S i)).
Proof.
  intros [H1 H2 H3 H4 H5 H6] Hi Hfl Hc Hg Es Eq Eg Eb Ep Hne Hrd. destruct (H4 i st Hi) as [I1 I2 I3 I4 I5 I6 I7 I8 I9 I10 I11].
  pose proof I6 as [B1 B2 B3 B4].
  set (p := Page (Z.of_nat i) flags granule (ssequence st) (bsegments (builder st)) (bbody (builder st))). exists (pages ++ [p]).
  set (v := absorb_all nothing pages) in *. assert (Hlt : Z.of_nat i < 2 ^ 32) by (apply lookup_lt_Some in Hi; unfold zlen in H3; lia).
  assert (Hsp : carve (vopen (v (pserial p))) (psegments p) (pbody p) = spelled (vopen (v (Z.of_nat i))) (builder st)) by done.
  assert (Eg0 : fst (G i) = vdone (v (Z.of_nat i)) ++ fst (spelled (vopen (v (Z.of_nat i))) (builder st)) /\
    snd (G i) = snd (spelled (vopen (v (Z.of_nat i))) (builder st))) by (by rewrite <- I7).
  destruct Eg0 as [Eg1 Eg2].
  assert (Hfits : page_fits p) by (split; cbn [p pserial pflags pgranule psequence psegments pbody]; lia || done).
  split; cbn [out streams].
  - rewrite map_app, concat_app, H1. cbn [map concat]. rewrite app_nil_r. unfold bytes_of. cbn [p pserial pflags pgranule psequence psegments pbody]. by rewrite I1.
  - apply pages_ok_app. split; [done|]. split; [|done]. fold v. split; [done|]. split; [|split; [|rewrite Hsp; split]].
    + cbn [p pflags pserial]. by rewrite Hc.
    + exact I3.
    + rewrite Eg1 in I8. by apply Forall_app in I8 as [_ I8].
    + by rewrite <- Eg2.
  - by rewrite zlen_insert.
  - rewrite absorb_all_app. fold v. change (absorb_all v [p]) with (absorb v p). intros j stj Hj.
    apply lookup_inserted in Hj as [[<- ->]|[Hnj Hj]].
    + assert (Ea : absorb v p (Z.of_nat i) = View (snd (G i)) (Some (ssequence st)) (fst (G i)) (head (fst (G i)))).
      { unfold absorb. cbn [pserial p]. rewrite Z.eqb_refl. rewrite Eg1, Eg2. f_equal. rewrite I10.
        destruct (vdone (v (Z.of_nat i))) as [|x xs] eqn:Ed; [|done]. cbn [app head default from_option id]. rewrite (I11 eq_refl).
        rewrite Eg1, (I11 eq_refl) in Hne. cbn [app] in Hne. destruct (fst (spelled None (builder st))) as [|c cs] eqn:Ec; [done|].
        cbn [head]. f_equal. by apply (bos_bytes_carve p c cs). }
      rewrite Ea. split; cbn [vopen vlast vdone vbos]; rewrite ?Es, ?Eq, ?Eg, ?Eb; try done.
      * apply wrap_u_range; lia.
      * by intros q [= <-].
      * unfold spelled. cbn. rewrite app_nil_r. by destruct (G i).
    + assert (Ea : absorb v p (Z.of_nat j) = v (Z.of_nat j)).
      { unfold absorb. cbn [pserial p]. destruct (Z.eqb_spec (Z.of_nat j) (Z.of_nat i)); [lia|done]. }
      rewrite Ea. by apply H4.
  - rewrite serials_snoc, H5. unfold note_serial. cbn [pserial p]. case_decide as Hin.
    + apply elem_of_seqZ in Hin. f_equal. lia.
    + assert (i = rd) as -> by (apply Nat.le_antisymm; [done|]; apply Nat.nlt_ge; intros H; apply Hin, elem_of_seqZ; lia).
      replace (Z.of_nat (max rd (S rd))) with (Z.of_nat rd + 1) by lia. by rewrite seqZ_app, Z.add_0_l by lia.
  - intros j Hj. destruct (decide (j = i)) as [->|Hnj]; [done|]. apply H6. lia.
Qed.

Lemma contains_continued (a : Z) (c : bool) : a = BOS \/ a = EOS \/ a = 0 -> contains (Z.lor a (if c then CONTINUED else 0)) CONTINUED = c.
Proof. by intros [->|[->| ->]]; destruct c. Qed.

Lemma flags_range (a : Z) (c : bool) : a = BOS \/ a = EOS \/ a = 0 -> 0 <= Z.lor a (if c then CONTINUED else 0) < 8.
Proof. by intros [->|[->| ->]]; destruct c. Qed.

Lemma write_page_out i flags granule segs body m st : streams m !! i = Some st -> zlen segs <= 255 ->
  write_page i flags granule segs body m =
  (Ok tt, OggMuxer (out m ++ page_bytes flags granule (sserial st) (ssequence st) segs body)
            (<[i := bump_sequence st]> (streams m)) (header_written m) (trailer_written m)).
Proof.
  intros Hi Hs. unfold write_page. rewrite Hi. assert (E : in_u 8 (zlen segs) = true).
  { unfold in_u. apply andb_true_iff. split; [apply Z.leb_le|apply Z.ltb_lt]; [apply zlen_nonneg|lia]. }
  by rewrite E.
Qed.

(** The page's own flush: a continuation is announced when a packet is open. *)
Lemma flush_written i eos cn force m pages G rd st : written m pages G rd -> streams m !! i = Some st -> (i < rd)%nat ->
  cn = bool_decide (is_Some (snd (G i))) -> is_empty (builder st) && negb force = false ->
  exists m' pages' st', flush_page i eos cn force m = (Ok tt, m') /\ written m' pages' G rd /\ streams m' = <[i := st']> (streams m) /\
    builder st' = builder_empty /\ header_written m' = header_written m /\ trailer_written m' = trailer_written m.
Proof.
  intros Hw Hi Hrd Hcn Hf. destruct (wr_streams _ _ _ _ Hw i st Hi) as [I1 I2 I3 I4 I5 I6 I7 I8 I9 I10 I11].
  unfold flush_page. rewrite Hi, Hf.
  assert (Hi' : streams (set_stream i (turn_page cn st) m) !! i = Some (turn_page cn st)) by (cbn; apply list_lookup_insert_eq; by eapply lookup_lt_Some).
  rewrite (write_page_out _ _ _ _ _ _ _ Hi' (bf_table _ I6)). cbn [set_stream set_streams out streams header_written trailer_written].
  rewrite list_insert_insert_eq. set (st' := bump_sequence (turn_page cn st)).
  set (flags := Z.lor _ _). set (granule := if terminated_this_page st then _ else _).
  destruct (emit m pages G rd i st st' flags granule (header_written m) (trailer_written m) Hw Hi) as (pages' & Hw'); try done.
  - apply flags_range. destruct eos; tauto.
  - apply contains_continued. destruct eos; tauto.
  - unfold granule. by destruct (terminated_this_page st).
  - by apply (wr_some _ _ _ _ Hw).
  - lia.
  - rewrite Nat.max_l in Hw' by lia. eexists _, pages', st'. split; [reflexivity|]. by split_and!.
Qed.

(** ** Packets *)

(** Filling the table exactly loses a packet's end: there is no room for the short
    lacing value that says so, and nothing is left to write on the next page. *)
Definition ends_kept (room len : Z) : bool := (len <? 255 * room) || negb ((len - 255 * room) mod (255 * 255) =? 0).

Lemma ends_kept_next r len : ends_kept r len = true -> 255 * r <= len -> 0 < len - 255 * r /\ ends_kept 255 (len - 255 * r) = true.
Proof.
  unfold ends_kept. intros [H|H]%orb_true_iff Hlen; [apply Z.ltb_lt in H; lia|]. apply negb_true_iff, Z.eqb_neq in H.
  assert (Hpos : 0 < len - 255 * r) by (destruct (Z.eq_dec (len - 255 * r) 0) as [E|]; [by rewrite E in H|lia]). split; [done|].
  apply orb_true_iff. destruct (Z.ltb_spec (len - 255 * r) (255 * 255)); [by left|right]. apply negb_true_iff, Z.eqb_neq.
  replace (len - 255 * r - 255 * 255) with (len - 255 * r + (-1) * (255 * 255)) by lia. by rewrite Z.mod_add.
Qed.

(** No length but zero is a multiple of 255: no packet fills a table exactly. *)
Lemma no_multiple_kept r len : 1 <= r -> len = 0 \/ len mod 255 <> 0 -> ends_kept r len = true.
Proof.
  intros Hr H. unfold ends_kept. destruct (Z.ltb_spec len (255 * r)); [done|]. cbn. apply negb_true_iff, Z.eqb_neq. intros E.
  apply Z.div_exact in E; [|done]. destruct H as [->|H]; [lia|]. apply H.
  replace len with (255 * (r + 255 * ((len - 255 * r) / (255 * 255)))) by lia. by rewrite Z.mul_comm, Z.mod_mul.
Qed.

Lemma room_empty : room builder_empty = 255.
Proof. done. Qed.

(** The packet ended, or a piece of it, in the page under construction. *)
Lemma pushed m pages G rd i st b' g (ended : bool) stated : written m pages G rd -> streams m !! i = Some st -> builder_fits b' ->
  (i < rd -> fst g <> [])%nat ->
  (let v := absorb_all nothing pages (Z.of_nat i) in (vdone v ++ fst (spelled (vopen v) b'), snd (spelled (vopen v) b')) = g) ->
  Forall (fun x => zlen x <= MAX_PACKET_BYTES) (fst g) -> zlen (default [] (snd g)) <= MAX_PACKET_BYTES ->
  let st' := if ended then add_ticks stated (set_builder b' st) else set_builder b' st in
  written (set_stream i st' m) pages (given i g G) rd /\ builder st' = b'.
Proof.
  intros Hw Hi Hb Hs Hg Hd Ho st'. destruct (wr_streams _ _ _ _ Hw i st Hi) as [I1 I2 I3 I4 I5 I6 I7 I8 I9 I10 I11].
  split; [|unfold st'; by destruct ended]. apply written_stream; [done| |done].
  split; unfold st'; destruct ended; cbn [add_ticks set_builder sserial ssequence granule_cursor pending_continued builder]; try done.
  exact (sat_i_range 64 _ eq_refl).
Qed.

Lemma given_given i g g' G j : given i g (given i g' G) j = given i g G j.
Proof. unfold given. by destruct (decide (j = i)). Qed.

(** The last piece: the packet ends in the page under construction. *)
Lemma loop_ends i stated fuel rest m pages G rd st : written m pages G rd -> streams m !! i = Some st -> (i < rd)%nat -> is_bytes rest ->
  zlen (default [] (snd (G i))) + zlen rest <= MAX_PACKET_BYTES -> zlen rest < 255 * room (builder st) ->
  exists m' pages' st', write_loop (S fuel) i stated rest m = Some (Ok tt, m') /\
    written m' pages' (given i (fst (G i) ++ [default [] (snd (G i)) ++ rest], None) G) rd /\
    streams m' = <[i := st']> (streams m) /\ 1 <= room (builder st') /\
    header_written m' = header_written m /\ trailer_written m' = trailer_written m.
Proof.
  intros Hw Hi Hrd Hb Hmax Hfit. destruct (wr_streams _ _ _ _ Hw i st Hi) as [I1 I2 I3 I4 I5 I6 I7 I8 I9 I10 I11].
  pose proof (wr_some _ _ _ _ Hw i Hrd) as Hsome.
  set (w := absorb_all nothing pages (Z.of_nat i)) in *. assert (Hin : (i < length (streams m))%nat) by (by eapply lookup_lt_Some).
  assert (H64 : zlen rest < 2 ^ 64) by (pose proof (zlen_nonneg (default [] (snd (G i)))); assert (MAX_PACKET_BYTES < 2 ^ 64) by done; lia).
  pose proof (push_packet_spells (vopen w) rest (builder st) I6 Hb H64) as Hp. destruct (spelled (vopen w) (builder st)) as [cs o] eqn:Esp.
  cbn [fst snd] in I7. rewrite <- I7 in *. cbn [fst snd] in *. destruct Hp as (b' & Hb' & Hp). cbn [write_loop]. rewrite Hi.
  destruct (Z.ltb_spec (zlen rest) (255 * room (builder st))); [|lia]. destruct Hp as [-> Esp']. cbn zeta iota.
  destruct (pushed m pages G rd i st b' (vdone w ++ cs ++ [default [] o ++ rest], None) true stated Hw Hi Hb') as [Hw1 Eb1].
  { intros _. cbn [fst]. by destruct (vdone w), cs. }
  { cbn zeta. fold w. by rewrite Esp'. }
  { cbn [fst]. rewrite app_assoc. apply Forall_app. split; [done|]. apply Forall_cons. split; [by rewrite zlen_app|constructor]. }
  { done. }
  set (st1 := add_ticks stated (set_builder b' st)) in *. cbn iota in Hw1, Eb1. set (m1 := set_stream i st1 m) in *.
  assert (Hi1 : streams m1 !! i = Some st1) by (by apply list_lookup_insert_eq).
  rewrite get_from_drop by (pose proof (zlen_nonneg rest); lia). assert (Ee : drop (Z.to_nat (zlen rest)) rest = []) by (apply drop_ge; unfold zlen; lia).
  rewrite Ee, bool_decide_eq_true_2 by done. rewrite app_assoc in Hw1. change (negb true) with false. cbn [orb].
  destruct (_ || _) eqn:Efl.
  - destruct (flush_written i false false false m1 pages _ rd st1 Hw1 Hi1 Hrd) as (m2 & pages2 & st2 & -> & Hw2 & Es2 & Eb2 & Eh2 & Et2).
    + by rewrite given_eq.
    + rewrite Eb1. apply andb_false_iff. left. apply bool_decide_eq_false. intros E0.
      assert (Ebody : bbody b' = []). { pose proof (bf_len _ Hb') as E. rewrite E0 in E. destruct (bbody b'); [done|unfold zlen in E; cbn in E; lia]. }
      rewrite E0, Ebody in Efl. discriminate Efl.
    + exists m2, pages2, st2. split; [done|]. split; [done|]. rewrite Es2, Eb2. cbn [m1 set_stream set_streams streams].
      rewrite list_insert_insert_eq. split_and!; [done|by rewrite room_empty|exact Eh2|exact Et2].
  - exists m1, pages, st1. split; [done|]. split; [done|]. split; [done|]. rewrite Eb1. apply orb_false_iff in Efl as [_ Efl].
    apply Z.leb_gt in Efl. split_and!; [unfold room; lia|done..].
Qed.

(** A piece that fills the table: the page leaves, and announces that the packet goes on. *)
Lemma loop_turns i stated fuel rest m pages G rd st : written m pages G rd -> streams m !! i = Some st -> (i < rd)%nat -> is_bytes rest ->
  zlen (default [] (snd (G i))) + zlen rest <= MAX_PACKET_BYTES -> 1 <= room (builder st) -> 255 * room (builder st) < zlen rest ->
  let filled := Z.to_nat (255 * room (builder st)) in
  exists m' pages' st', write_loop (S fuel) i stated rest m = write_loop fuel i stated (drop filled rest) m' /\
    written m' pages' (given i (fst (G i), Some (default [] (snd (G i)) ++ take filled rest)) G) rd /\
    streams m' = <[i := st']> (streams m) /\ builder st' = builder_empty /\
    header_written m' = header_written m /\ trailer_written m' = trailer_written m.
Proof.
  intros Hw Hi Hrd Hb Hmax Hroom Hlong filled. destruct (wr_streams _ _ _ _ Hw i st Hi) as [I1 I2 I3 I4 I5 I6 I7 I8 I9 I10 I11].
  pose proof (wr_some _ _ _ _ Hw i Hrd) as Hsome.
  set (w := absorb_all nothing pages (Z.of_nat i)) in *. assert (Hin : (i < length (streams m))%nat) by (by eapply lookup_lt_Some).
  assert (H64 : zlen rest < 2 ^ 64) by (pose proof (zlen_nonneg (default [] (snd (G i)))); assert (MAX_PACKET_BYTES < 2 ^ 64) by done; lia).
  pose proof (push_packet_spells (vopen w) rest (builder st) I6 Hb H64) as Hp. destruct (spelled (vopen w) (builder st)) as [cs o] eqn:Esp.
  cbn [fst snd] in I7. rewrite <- I7 in *. cbn [fst snd] in *. destruct Hp as (b' & Hb' & Hp). cbn [write_loop]. rewrite Hi.
  destruct (Z.ltb_spec (zlen rest) (255 * room (builder st))); [lia|]. destruct Hp as (-> & Hr' & Esp'). specialize (Esp' Hroom). cbn zeta iota.
  fold filled in Esp'. assert (Htake : zlen (take filled rest) <= zlen rest) by (unfold zlen; rewrite length_take; lia).
  destruct (pushed m pages G rd i st b' (vdone w ++ cs, Some (default [] o ++ take filled rest)) false stated Hw Hi Hb') as [Hw1 Eb1].
  { intros _. exact Hsome. }
  { cbn zeta. fold w. by rewrite Esp'. }
  { done. }
  { cbn [snd default from_option id]. rewrite zlen_app. lia. }
  cbn iota in Hw1, Eb1. set (st1 := set_builder b' st) in *. set (m1 := set_stream i st1 m) in *.
  assert (Hi1 : streams m1 !! i = Some st1) by (by apply list_lookup_insert_eq).
  rewrite get_from_drop by lia. fold filled. change (negb false) with true. cbn [orb].
  destruct (flush_written i false true false m1 pages _ rd st1 Hw1 Hi1 Hrd) as (m2 & pages2 & st2 & -> & Hw2 & Es2 & Eb2 & Eh2 & Et2).
  { by rewrite given_eq. }
  { rewrite Eb1. apply andb_false_iff. left. apply bool_decide_eq_false. intros E0. unfold room in Hr'. by rewrite E0 in Hr'. }
  rewrite bool_decide_eq_false_2.
  - exists m2, pages2, st2. split; [done|]. split; [done|]. rewrite Es2. cbn [m1 set_stream set_streams streams].
    by rewrite list_insert_insert_eq.
  - intros E0. assert (E : zlen (drop filled rest) = zlen rest - 255 * room (builder st)) by (apply zlen_drop; lia).
    rewrite E0 in E. unfold zlen at 1 in E. cbn in E. lia.
Qed.

Lemma write_loop_written i stated rd fuel : (i < rd)%nat -> forall rest m pages G st, written m pages G rd -> streams m !! i = Some st ->
  1 <= room (builder st) -> is_bytes rest -> zlen (default [] (snd (G i))) + zlen rest <= MAX_PACKET_BYTES ->
  ends_kept (room (builder st)) (zlen rest) = true -> (length rest < fuel)%nat ->
  exists m' pages' st', write_loop fuel i stated rest m = Some (Ok tt, m') /\
    written m' pages' (given i (fst (G i) ++ [default [] (snd (G i)) ++ rest], None) G) rd /\
    streams m' = <[i := st']> (streams m) /\ 1 <= room (builder st') /\
    header_written m' = header_written m /\ trailer_written m' = trailer_written m.
Proof.
  intros Hrd. induction fuel as [|fuel IH]; intros rest m pages G st Hw Hi Hroom Hb Hmax Hk Hf; [lia|].
  destruct (Z.ltb_spec (zlen rest) (255 * room (builder st))) as [Hfit|Hlong]; [by apply (loop_ends i stated fuel rest m pages G rd st)|].
  destruct (ends_kept_next _ _ Hk Hlong) as [Hleft Hk'].
  destruct (loop_turns i stated fuel rest m pages G rd st) as (m2 & pages2 & st2 & -> & Hw2 & Es2 & Eb2 & Eh2 & Et2); [done..|lia|].
  set (filled := Z.to_nat (255 * room (builder st))) in *.
  assert (Hll : zlen (drop filled rest) = zlen rest - 255 * room (builder st)) by (apply zlen_drop; lia).
  assert (Hsz : zlen rest = zlen (take filled rest) + zlen (drop filled rest)) by (by rewrite <- zlen_app, take_drop).
  assert (Hi2 : streams m2 !! i = Some st2) by (rewrite Es2; apply list_lookup_insert_eq; by eapply lookup_lt_Some).
  destruct (IH (drop filled rest) m2 pages2 _ st2 Hw2 Hi2) as (m3 & pages3 & st3 & -> & Hw3 & Es3 & Hr3 & Eh3 & Et3).
  - by rewrite Eb2, room_empty.
  - by apply Forall_drop.
  - rewrite given_eq. cbn [snd default from_option id]. rewrite zlen_app. lia.
  - by rewrite Eb2, room_empty, Hll.
  - unfold zlen in Hll, Hlong. lia.
  - exists m3, pages3, st3. split; [done|]. split.
    { eapply written_ext; [|exact Hw3]. intros j. rewrite given_given, given_eq. cbn [fst snd default from_option id].
      by rewrite <- app_assoc, take_drop. }
    rewrite Es3, Es2, list_insert_insert_eq. split_and!; [done..|exact (eq_trans Eh3 Eh2)|exact (eq_trans Et3 Et2)].
Qed.

(** Every page under construction has room, and no packet is begun. *)
Definition calm (m : muxer) (G : nat -> list (list Z) * option (list Z)) : Prop :=
  forall i st, streams m !! i = Some st -> 1 <= room (builder st) /\ snd (G i) = None.

Definition packet_fits (n : nat) (p : packet) : Prop :=
  0 <= stream_index p < Z.of_nat n /\ is_bytes (payload p) /\ zlen (payload p) <= MAX_PACKET_BYTES.

#[export] Instance packet_fits_dec n p : Decision (packet_fits n p).
Proof. unfold packet_fits. apply _. Defined.

Lemma write_packet_written p m pages G rd st : written m pages G rd -> (length (streams m) <= rd)%nat -> calm m G -> header_written m = true ->
  packet_fits (length (streams m)) p -> streams m !! Z.to_nat (stream_index p) = Some st ->
  ends_kept (room (builder st)) (zlen (payload p)) = true ->
  let G' := given (Z.to_nat (stream_index p)) (fst (G (Z.to_nat (stream_index p))) ++ [payload p], None) G in
  exists m' pages', write_packet p m = Some (Ok tt, m') /\ written m' pages' G' rd /\ calm m' G' /\
    header_written m' = true /\ trailer_written m' = trailer_written m /\ length (streams m') = length (streams m).
Proof.
  intros Hw Hrd Hc Hh (Hi & Hb & Hm) Hst Hk G'. destruct (Hc _ _ Hst) as [Hr Ho]. unfold write_packet. rewrite Hh, Hst. cbn [negb].
  destruct (write_loop_written (Z.to_nat (stream_index p)) (stated_ticks p (stime_base st)) rd (S (length (payload p))) ltac:(apply lookup_lt_Some in Hst; lia) (payload p) m pages G st)
    as (m' & pages' & st' & -> & Hw' & Es & Hr' & Eh & Et); [done|done|done|done|by rewrite Ho|done|lia|].
  rewrite Ho in Hw'. exists m', pages'. split; [done|]. split; [exact Hw'|]. split; [|rewrite Eh, Et, Es, length_insert; done].
  intros j stj Hj. rewrite Es in Hj. apply lookup_inserted in Hj as [[<- ->]|[Hne Hj]]; unfold G'.
  - by rewrite given_eq.
  - rewrite given_ne by done. by apply (Hc j stj).
Qed.

(** Packets in the order they are written. *)
Fixpoint write_packets (ps : list packet) (m : muxer) : option (result error unit * muxer) :=
  match ps with
  | [] => Some (Ok tt, m)
  | p :: ps => match write_packet p m with Some (Ok _, m) => write_packets ps m | r => r end
  end.

(** No packet of the run fills its segment table exactly. *)
Fixpoint kept (ps : list packet) (m : muxer) : bool :=
  match ps with
  | [] => true
  | p :: ps =>
    match streams m !! Z.to_nat (stream_index p) with
    | Some st => ends_kept (room (builder st)) (zlen (payload p))
    | None => false
    end &&
    match write_packet p m with Some (Ok _, m) => kept ps m | _ => false end
  end.

Definition payloads (i : nat) (ps : list packet) : list (list Z) :=
  map payload (filter (fun p => stream_index p = Z.of_nat i) ps).

Lemma payloads_cons i p ps : payloads i (p :: ps) = (if decide (stream_index p = Z.of_nat i) then [payload p] else []) ++ payloads i ps.
Proof. unfold payloads. rewrite filter_cons. by destruct (decide _). Qed.

Lemma write_packets_written rd ps : forall m pages G, written m pages G rd -> (length (streams m) <= rd)%nat -> calm m G -> header_written m = true ->
  Forall (packet_fits (length (streams m))) ps -> kept ps m = true ->
  exists m' pages' G', write_packets ps m = Some (Ok tt, m') /\ written m' pages' G' rd /\ calm m' G' /\
    header_written m' = true /\ trailer_written m' = trailer_written m /\ length (streams m') = length (streams m) /\
    forall i, fst (G' i) = fst (G i) ++ payloads i ps.
Proof.
  induction ps as [|p ps IH]; intros m pages G Hw Hrd Hc Hh Hf Hk.
  - exists m, pages, G. split_and!; try done. intros i. by rewrite app_nil_r.
  - apply Forall_cons in Hf as [Hp Hf]. cbn [kept] in Hk. apply andb_true_iff in Hk as [Hk1 Hk2].
    destruct (streams m !! Z.to_nat (stream_index p)) as [st|] eqn:Hst; [|done].
    destruct (write_packet_written p m pages G rd st Hw Hrd Hc Hh Hp Hst Hk1) as (m1 & pages1 & E1 & Hw1 & Hc1 & Hh1 & Ht1 & El1).
    cbn [write_packets]. rewrite E1 in Hk2 |- *. rewrite <- El1 in Hf.
    destruct (IH m1 pages1 _ Hw1 ltac:(by rewrite El1) Hc1 Hh1 Hf Hk2) as (m2 & pages2 & G2 & E2 & Hw2 & Hc2 & Hh2 & Ht2 & El2 & HG).
    exists m2, pages2, G2. split_and!; try done; [congruence|congruence|]. intros i. rewrite HG, payloads_cons.
    destruct Hp as [Hp _]. case_decide as Ei.
    + assert (E : Z.to_nat (stream_index p) = i) by lia. rewrite E, given_eq. cbn [fst]. by rewrite <- app_assoc.
    + rewrite given_ne by lia. done.
Qed.

(** ** Header packets *)

(** A header packet ends on the page it begins: the code asserts it in debug builds only. *)
Definition header_fits (h : list Z) : Prop := is_bytes h /\ zlen h < 255 * 255.

#[export] Instance header_fits_dec h : Decision (header_fits h).
Proof. unfold header_fits. apply _. Defined.

Lemma empty_open w i st g : stream_inv w i st g -> builder st = builder_empty -> g = (vdone w, vopen w).
Proof. intros I E. pose proof (si_spells _ _ _ _ I) as H. rewrite E in H. cbn in H. by rewrite app_nil_r in H. Qed.

Lemma write_headers_written i hs : forall first m pages G rd st, written m pages G rd -> (i <= rd)%nat -> streams m !! i = Some st ->
  builder st = builder_empty -> snd (G i) = None -> Forall header_fits hs ->
  exists m' pages' st', write_headers i first hs m = (Ok tt, m') /\ written m' pages' (given i (fst (G i) ++ hs, None) G) (if decide (hs = []) then rd else max rd (S i)) /\
    streams m' = <[i := st']> (streams m) /\ builder st' = builder_empty /\
    header_written m' = header_written m /\ trailer_written m' = trailer_written m.
Proof.
  induction hs as [|h hs IH]; intros first m pages G rd st Hw Hrd Hi Eb Ho Hf.
  - exists m, pages, st. split; [done|]. rewrite list_insert_id by done. split_and!; try done.
    eapply written_ext; [|exact Hw]. intros j. unfold given. case_decide as E; [subst j|done]. rewrite app_nil_r, <- Ho. by destruct (G i).
  - apply Forall_cons in Hf as [[Hhb Hhl] Hf]. cbn [write_headers]. rewrite Hi.
    assert (Hin : (i < length (streams m))%nat) by (by eapply lookup_lt_Some).
    pose proof (wr_streams _ _ _ _ Hw i st Hi) as Inv. set (w := absorb_all nothing pages (Z.of_nat i)) in *.
    pose proof (empty_open _ _ _ _ Inv Eb) as Eg. rewrite Eg in Ho. cbn [snd] in Ho.
    assert (H64 : zlen h < 2 ^ 64) by lia.
    pose proof (push_packet_spells (vopen w) h (builder st) (si_builder _ _ _ _ Inv) Hhb H64) as Hp.
    assert (Esp : spelled (vopen w) (builder st) = ([], None)) by (rewrite Eb, Ho; done). rewrite Esp in Hp.
    destruct Hp as (b' & Hb' & Hp). rewrite Eb, room_empty in Hp. rewrite (proj2 (Z.ltb_lt (zlen h) (255 * 255)) Hhl) in Hp.
    destruct Hp as [Epush Esp']. rewrite Eb, Epush. cbn zeta iota.
    destruct (pushed m pages G rd i st b' (vdone w ++ [h], None) false 0 Hw Hi Hb') as [Hw1 Eb1].
    { intros _. cbn [fst]. by destruct (vdone w). }
    { cbn zeta. fold w. by rewrite Esp'. }
    { cbn [fst]. apply Forall_app. split; [pose proof (si_done _ _ _ _ Inv) as H; by rewrite Eg in H|]. apply Forall_cons. split; [|constructor].
      assert (255 * 255 < MAX_PACKET_BYTES) by done. lia. }
    { done. }
    cbn iota in Hw1, Eb1. set (m0 := set_stream i (set_builder builder_empty st) m).
    assert (Hi0 : streams m0 !! i = Some (set_builder builder_empty st)) by (by apply list_lookup_insert_eq).
    rewrite (write_page_out _ _ _ _ _ _ _ Hi0 (bf_table _ Hb')). cbn [m0 set_stream set_streams streams out header_written trailer_written].
    rewrite list_insert_insert_eq. set (st' := bump_sequence (set_builder builder_empty st)).
    set (st1 := set_builder b' st) in *. set (m1 := set_stream i st1 m) in *.
    assert (Hi1 : streams m1 !! i = Some st1) by (by apply list_lookup_insert_eq).
    assert (Epc : pending_continued st = false) by (rewrite (si_continued _ _ _ _ Inv), Ho; done).
    destruct (emit m1 pages _ rd i st1 st' (if first then BOS else 0) GRANULE_UNSET (header_written m) (trailer_written m) Hw1 Hi1) as (pages2 & Hw2);
      try done; [by destruct first|change (pending_continued st1) with (pending_continued st); rewrite Epc; by destruct first
        |rewrite given_eq; exact Epc|rewrite given_eq; cbn [fst]; by destruct (vdone w)|].
    cbn [m1 set_stream set_streams streams out] in Hw2. rewrite list_insert_insert_eq in Hw2.
    change (sserial (set_builder builder_empty st)) with (sserial st1). change (ssequence (set_builder builder_empty st)) with (ssequence st1).
    change b' with (builder st1). set (m2 := OggMuxer _ _ _ _) in *.
    assert (Hi2 : streams m2 !! i = Some st') by (by apply list_lookup_insert_eq).
    destruct (IH false m2 pages2 _ _ st' Hw2 ltac:(lia) Hi2 eq_refl) as (m3 & pages3 & st3 & -> & Hw3 & Es3 & Eb3 & Eh3 & Et3); [by rewrite given_eq|done|].
    exists m3, pages3, st3. split; [done|]. split.
    { rewrite decide_False by done. replace (max rd (S i)) with (if decide (hs = []) then max rd (S i) else max (max rd (S i)) (S i)) by (case_decide; lia).
      eapply written_ext; [|exact Hw3]. intros j. rewrite given_given, given_eq, Eg. cbn [fst]. by rewrite <- app_assoc. }
    rewrite Es3. cbn [m2 streams]. rewrite list_insert_insert_eq. by split_and!.
Qed.

Lemma restated m pages G rd i st st' : written m pages G rd -> streams m !! i = Some st ->
  sserial st' = sserial st -> ssequence st' = ssequence st -> granule_cursor st' = granule_cursor st ->
  pending_continued st' = pending_continued st -> builder st' = builder st -> written (set_stream i st' m) pages G rd.
Proof.
  intros Hw Hi E1 E2 E3 E4 E5. destruct (wr_streams _ _ _ _ Hw i st Hi) as [I1 I2 I3 I4 I5 I6 I7 I8 I9 I10 I11].
  eapply written_ext; [|apply (written_stream m pages G rd i st' (G i) Hw)].
  - intros j. unfold given. by case_decide as E; [subst j|].
  - split; rewrite ?E1, ?E2, ?E3, ?E4, ?E5; done.
  - apply (wr_some _ _ _ _ Hw).
Qed.

(** What every stream is given before the packets: its headers. *)
Definition headers_of (ss : list stream_state) (i : nat) : list (list Z) := default [] (header_packets <$> ss !! i).

Lemma all_headers_written n : forall k m pages G, written m pages G k -> calm m G ->
  (forall i, i ∈ seq k n -> exists st, streams m !! i = Some st /\ builder st = builder_empty /\ fst (G i) = [] /\
    Forall header_fits (header_packets st) /\ header_packets st <> []) ->
  exists m' pages' G', write_all_headers (seq k n) m = (Ok tt, m') /\ written m' pages' G' (k + n) /\ calm m' G' /\
    header_written m' = header_written m /\ trailer_written m' = trailer_written m /\ length (streams m') = length (streams m) /\
    forall i, fst (G' i) = if decide (i ∈ seq k n) then headers_of (streams m) i else fst (G i).
Proof.
  induction n as [|n IH]; intros k m pages G Hw Hc Hi; cbn [seq] in *.
  - rewrite Nat.add_0_r. by exists m, pages, G.
  - destruct (Hi k) as (st & Hst & Eb & Eg & Hf & Hne); [by left|]. cbn [write_all_headers].
    assert (Hni : k ∉ seq (S k) n) by (rewrite elem_of_seq; lia).
    rewrite Hst. cbn [fmap option_fmap option_map default from_option id].
    destruct (write_headers_written k (header_packets st) true m pages G k st Hw (le_n k) Hst Eb (proj2 (Hc _ _ Hst)) Hf)
      as (m1 & pages1 & st1 & -> & Hw1 & Es1 & Eb1 & Eh1 & Et1). rewrite decide_False, Nat.max_r in Hw1 by (done || lia).
    assert (Hi1 : streams m1 !! k = Some st1) by (rewrite Es1; apply list_lookup_insert_eq; by eapply lookup_lt_Some). rewrite Hi1.
    pose proof (restated _ _ _ _ k st1 (mark_header st1) Hw1 Hi1 eq_refl eq_refl eq_refl eq_refl eq_refl) as Hw2.
    set (m2 := set_stream k _ m1) in *. assert (Es2 : streams m2 = <[k := mark_header st1]> (streams m)) by (cbn; by rewrite Es1, list_insert_insert_eq).
    destruct (IH (S k) m2 pages1 _ Hw2) as (m3 & pages3 & G3 & -> & Hw3 & Hc3 & Eh3 & Et3 & El3 & HG).
    + intros j stj Hj. rewrite Es2 in Hj. apply lookup_inserted in Hj as [[<- ->]|[Hnj Hj]].
      * rewrite given_eq. split; [|done]. change (builder (mark_header st1)) with (builder st1). by rewrite Eb1, room_empty.
      * rewrite given_ne by done. by apply (Hc j stj).
    + intros j Hj. assert (Hnj : j <> k) by (intros ->; done). destruct (Hi j) as (stj & Hstj & H); [by right|]. exists stj.
      rewrite Es2, list_lookup_insert_ne, given_ne by done. done.
    + exists m3, pages3, G3. rewrite Nat.add_succ_r. split; [done|]. split; [done|]. split; [done|]. rewrite Eh3, Et3, El3, Es2, length_insert.
      split_and!; [done..|]. intros j. rewrite HG, Es2. unfold headers_of. destruct (decide (j = k)) as [->|Hnj].
      * rewrite decide_False, decide_True, given_eq, Eg, Hst by (done || by left). done.
      * rewrite given_ne, list_lookup_insert_ne by done. apply decide_ext. rewrite elem_of_cons. tauto.
Qed.

(** ** The trailer *)

Lemma flush_all_written rd idx : forall m pages G, written m pages G rd -> (length (streams m) <= rd)%nat -> calm m G ->
  exists m' pages', flush_all idx m = (Ok tt, m') /\ written m' pages' G rd /\ length (streams m') = length (streams m) /\
    forall j st', streams m' !! j = Some st' -> j ∈ idx \/ (builder <$> streams m !! j) = Some builder_empty -> builder st' = builder_empty.
Proof.
  induction idx as [|i idx IH]; intros m pages G Hw Hrd Hc; cbn [flush_all].
  - exists m, pages. split_and!; [done|done|done|]. intros j st' Hj [H|H]; [by apply elem_of_nil in H|]. rewrite Hj in H. by injection H.
  - destruct (streams m !! i) as [st|] eqn:Hst.
    + cbn [fmap option_fmap option_map default from_option id compose]. set (force := negb _).
      assert (H : exists m1 pages1 st1, flush_page i true false force m = (Ok tt, m1) /\ written m1 pages1 G rd /\
        streams m1 = <[i := st1]> (streams m) /\ builder st1 = builder_empty).
      { destruct (is_empty (builder st) && negb force) eqn:E.
        - exists m, pages, st. unfold flush_page. rewrite Hst, E, list_insert_id by done. split_and!; [done..|].
          apply andb_true_iff in E as [E _]. apply bool_decide_eq_true in E. pose proof (bf_len _ (si_builder _ _ _ _ (wr_streams _ _ _ _ Hw i st Hst))) as El.
          destruct (builder st) as [segs body]. cbn in E, El. subst segs. destruct body; [done|unfold zlen in El; cbn in El; lia].
        - destruct (flush_written i true false force m pages G rd st Hw Hst ltac:(apply lookup_lt_Some in Hst; lia)) as (m1 & pages1 & st1 & ? & ? & ? & ? & _); [|done|by exists m1, pages1, st1].
          by rewrite (proj2 (Hc _ _ Hst)). }
      destruct H as (m1 & pages1 & st1 & -> & Hw1 & Es1 & Eb1).
      assert (Hi1 : streams m1 !! i = Some st1) by (rewrite Es1; apply list_lookup_insert_eq; by eapply lookup_lt_Some). rewrite Hi1.
      pose proof (restated _ _ _ _ i st1 (mark_eos st1) Hw1 Hi1 eq_refl eq_refl eq_refl eq_refl eq_refl) as Hw2.
      set (m2 := set_stream i _ m1) in *. assert (Es2 : streams m2 = <[i := mark_eos st1]> (streams m)) by (cbn; by rewrite Es1, list_insert_insert_eq).
      destruct (IH m2 pages1 G Hw2) as (m3 & pages3 & -> & Hw3 & El3 & HE); [by rewrite Es2, length_insert| |].
      { intros j stj Hj. rewrite Es2 in Hj. apply lookup_inserted in Hj as [[<- ->]|[Hne Hj]]; [|by apply (Hc j stj)].
        split; [|by apply (Hc i st)]. change (builder (mark_eos st1)) with (builder st1). by rewrite Eb1, room_empty. }
      exists m3, pages3. split; [done|]. split; [done|]. split; [by rewrite El3, Es2, length_insert|].
      intros j st' Hj Hor. apply (HE j st' Hj). destruct (decide (j = i)) as [->|Hne].
      * right. rewrite Es2, list_lookup_insert_eq by (by eapply lookup_lt_Some). cbn. by rewrite <- Eb1.
      * rewrite Es2, list_lookup_insert_ne by done. destruct Hor as [H|H]; [|by right]. apply elem_of_cons in H as [|H]; [done|by left].
    + assert (E : flush_page i true false (default false (negb ∘ ever_flushed <$> None)) m = (Ok tt, m)) by (unfold flush_page; by rewrite Hst).
      rewrite E, Hst. destruct (IH m pages G Hw Hrd Hc) as (m3 & pages3 & -> & Hw3 & El3 & HE).
      exists m3, pages3. split_and!; try done. intros j st' Hj Hor. apply (HE j st' Hj). destruct Hor as [H|H]; [|by right].
      apply elem_of_cons in H as [->|H]; [|by left]. exfalso. apply lookup_lt_Some in Hj. apply lookup_ge_None in Hst. lia.
Qed.

(** ** The whole file *)

Fixpoint add_streams (cps : list codec_parameters) (m : muxer) : result error muxer :=
  match cps with
  | [] => Ok m
  | cp :: cps => match add_stream cp m with (Ok _, m) => add_streams cps m | (Err e, _) => Err e end
  end.

Definition mux_file (ps : list packet) (m : muxer) : option (result error unit * muxer) :=
  match write_header m with
  | (Err e, m) => Some (Err e, m)
  | (Ok _, m) => match write_packets ps m with Some (Ok _, m) => Some (write_trailer m) | r => r end
  end.

(** A muxer to which only streams were added. *)
Record fresh (m : muxer) : Prop := {
  fr_out : out m = [];
  fr_header : header_written m = false;
  fr_trailer : trailer_written m = false;
  fr_few : zlen (streams m) <= 2 ^ 32;
  fr_streams : forall i st, streams m !! i = Some st ->
    exists tb hs, st = StreamState (Z.of_nat i) tb hs 0 builder_empty 0 0 false false false false false }.

Lemma add_streams_fresh cps : forall m m', fresh m -> add_streams cps m = Ok m' -> fresh m'.
Proof.
  induction cps as [|cp cps IH]; intros m m' Hf E; cbn [add_streams] in E; [by injection E as <-|].
  destruct Hf as [F1 F2 F3 F4 F5]. unfold add_stream in E. rewrite F2 in E.
  destruct (checked_u 32 (zlen (streams m))) as [s|] eqn:Es; [|done]. destruct (stream_headers cp) as [[tb hs]|e]; [|done].
  eapply IH; [|exact E]. unfold checked_u, in_u in Es. destruct (_ && _) eqn:Eb in Es; [|done]. injection Es as <-.
  apply andb_true_iff in Eb as [_ Eb]. apply Z.ltb_lt in Eb. split; cbn [set_streams out header_written trailer_written streams]; try done.
  - rewrite zlen_app. change (zlen [_]) with 1. lia.
  - intros i st Hi. apply lookup_app_Some in Hi as [Hi|[Hi Hs]]; [by apply F5|].
    destruct (i - length (streams m))%nat eqn:Ei; [|done]. injection Hs as <-. assert (i = length (streams m)) as -> by lia. by exists tb, hs.
Qed.

Lemma fresh_written m : fresh m -> written (set_header m) [] (fun _ => ([], None)) 0 /\ calm (set_header m) (fun _ => ([], None)).
Proof.
  intros [F1 F2 F3 F4 F5]. split.
  - split; cbn [set_header out streams]; try done; [|intros i Hi; lia]. intros i st Hi. destruct (F5 i st Hi) as (tb & hs & ->).
    by split.
  - intros i st Hi. by destruct (F5 i st Hi) as (tb & hs & ->).
Qed.

(** The demuxer takes as many headers off a stream as the muxer put there: its codec
    is told by the first. *)
Definition headers_counted (hs : list (list Z)) : Prop :=
  match hs with h :: _ => Codec.total_header_packets (Codec.identify h) h = zlen hs | [] => False end.

#[export] Instance headers_counted_dec hs : Decision (headers_counted hs).
Proof. destruct hs; cbn; apply _. Defined.

(** The muxer's run: it succeeds, and its pages spell each stream's packets. *)
Lemma mux_file_written cps m0 ps : add_streams cps muxer_new = Ok m0 ->
  Forall (fun st => Forall header_fits (header_packets st) /\ header_packets st <> []) (streams m0) ->
  Forall (packet_fits (length (streams m0))) ps -> kept ps (snd (write_header m0)) = true ->
  exists m pages, mux_file ps m0 = Some (Ok tt, m) /\ out m = concat (map bytes_of pages) /\ pages_ok nothing pages /\
    serials pages = seqZ 0 (zlen (streams m0)) /\
    forall i, (i < length (streams m0))%nat -> let w := absorb_all nothing pages (Z.of_nat i) in
      vdone w = headers_of (streams m0) i ++ payloads i ps /\ vbos w = head (vdone w).
Proof.
  intros Ea Hh Hp Hk. assert (Hf : fresh m0) by (by eapply add_streams_fresh; [|exact Ea]; split).
  destruct (fresh_written m0 Hf) as [Hw0 Hc0]. unfold mux_file, write_header in *. rewrite (fr_header _ Hf) in *.
  destruct (all_headers_written (length (streams m0)) 0 (set_header m0) [] _ Hw0 Hc0) as (m1 & pages1 & G1 & E1 & Hw1 & Hc1 & Eh1 & Et1 & El1 & HG1).
  - intros i Hi. apply elem_of_seq in Hi. destruct (lookup_lt_is_Some_2 (streams m0) i) as [st Hst]; [lia|]. exists st. split; [done|].
    pose proof (Forall_lookup_1 _ _ _ _ Hh Hst) as [H1 H2]. destruct (fr_streams _ Hf i st Hst) as (tb & hs & ->). by split_and!.
  - rewrite E1 in *. cbn [snd] in Hk. cbn [set_header streams] in El1. rewrite <- El1 in Hp. change (0 + length (streams m0))%nat with (length (streams m0)) in Hw1.
    destruct (write_packets_written _ ps m1 pages1 G1 Hw1 ltac:(by rewrite El1) Hc1 Eh1 Hp Hk) as (m2 & pages2 & G2 & -> & Hw2 & Hc2 & Eh2 & Et2 & El2 & HG2).
    unfold write_trailer. rewrite Eh2, Et2, Et1. change (trailer_written (set_header m0)) with (trailer_written m0). rewrite (fr_trailer _ Hf). cbn [negb].
    destruct (flush_all_written (length (streams m0)) (seq 0 (length (streams m2))) (set_trailer m2) pages2 G2) as (m3 & pages3 & -> & Hw3 & El3 & HE).
    { destruct Hw2. by split. }
    { cbn [set_trailer streams]. lia. }
    { exact Hc2. }
    exists m3, pages3. split; [done|]. destruct Hw3 as [W1 W2 W3 W4 W5 W6]. split; [done|]. split; [done|]. split; [done|]. intros i Hi. set (w := absorb_all nothing pages3 (Z.of_nat i)).
    cbn [set_trailer streams] in El3, HE. destruct (lookup_lt_is_Some_2 (streams m3) i) as [st Hst]; [lia|].
    assert (Hin : i ∈ seq 0 (length (streams m2))) by (apply elem_of_seq; lia). split; [|exact (si_bos _ _ _ _ (W4 i st Hst))].
    pose proof (empty_open _ _ _ _ (W4 i st Hst) (HE i st Hst (or_introl Hin))) as Eg. assert (E : fst (G2 i) = vdone w) by (by rewrite Eg).
    rewrite <- E, HG2, HG1, decide_True by (apply elem_of_seq; lia). done.
Qed.

Lemma payloads_none n i ps : Forall (packet_fits n) ps -> (n <= i)%nat -> payloads i ps = [].
Proof.
  intros Hp Hi. induction Hp as [|p ps [H _] Hp IH]; [done|]. rewrite payloads_cons, IH, decide_False by lia. done.
Qed.


(** ** Runs *)

(** An Opus stream and one of another codec, interleaved: empty packets, a packet on
    the 255 boundary, and one that a page boundary cuts. *)
Definition demo_params : list codec_parameters :=
  [CodecParameters (Some Opus) (Some (str "OpusHead" ++ [1; 2; 56; 1; 128; 187; 0; 0; 0; 0; 0])) (Some 48000);
   CodecParameters (Some OtherCodec) (Some [1; 2; 3]) None].

Definition demo_packets : list packet :=
  [Packet 0 (replicate 255 7) (Some 960) DUR_ZERO; Packet 1 [] None DUR_ZERO; Packet 1 (replicate 3000 9) (Some 5) DUR_ZERO;
   Packet 0 [1; 2; 3] None DUR_ZERO; Packet 1 (replicate 2000 4) None DUR_ZERO; Packet 0 [] (Some 960) DUR_ZERO].

Definition demo_muxer : muxer := match add_streams demo_params muxer_new with Ok m => m | Err _ => muxer_new end.


(** One stream of another codec with the header [1]. *)
Definition plain_muxer : muxer :=
  match add_streams [CodecParameters (Some OtherCodec) (Some [1]) None] muxer_new with Ok m => m | Err _ => muxer_new end.

Definition plain_packet (payload : list Z) : packet := Packet 0 payload (Some 1) DUR_ZERO.

(** What the demuxer hands over for stream 0 of a file. *)
Definition read_back_with (lim : limits) (file : list Z) : option (list (list Z) * demux_stats) :=
  res ← open_with_limits (fun _ => true) (fun _ => 0) (S (length file)) true None file lim;
  match res with
  | Err _ => None
  | Ok r => '(ps, _, r) ← read_all (fun _ => true) (fun _ => 0) (S (length file)) (S (length file)) r; Some (sent 0 ps, stats (core r))
  end.
Definition read_back (file : list Z) : option (list (list Z)) := fst <$> read_back_with permissive file.

(** After 254 empty packets a packet of 255 bytes takes the last lacing value of the
    table, as a 255 that says it goes on. Nothing is left of it to write, the page is
    flushed as one that is continued, and no zero follows: the next packet is read as
    its rest, and the last packet of a file would be lost. *)
Example lost_end :
  kept (replicate 254 (plain_packet []) ++ [plain_packet (replicate 255 7); plain_packet [1; 2; 3]]) (snd (write_header plain_muxer)) = false /\
  (r ← mux_file (replicate 254 (plain_packet []) ++ [plain_packet (replicate 255 7); plain_packet [1; 2; 3]]) plain_muxer; read_back (out (snd r))) =
  Some (replicate 254 [] ++ [replicate 255 7 ++ [1; 2; 3]]).
Proof. split; vm_compute; reflexivity. Qed.

(** When the last packet filled its page the trailer has nothing to flush: it writes
    no page with the end-of-stream flag, and records that it did. *)
Example trailer_without_eos :
  (r ← write_packets [plain_packet (replicate 4096 7)] (snd (write_header plain_muxer));
   Some (bool_decide (out (snd (write_trailer (snd r))) = out (snd r)), map eos_written (streams (snd (write_trailer (snd r)))))) =
  Some (true, [true]).
Proof. vm_compute. reflexivity. Qed.

(** A stream of another codec without extradata has no header packet, and the demuxer
    takes its first packet for one. *)
Example first_packet_lost :
  (m0 ← match add_streams [CodecParameters (Some OtherCodec) None None] muxer_new with Ok m => Some m | Err _ => None end;
   r ← mux_file [plain_packet [1; 2; 3]; plain_packet [4; 5]] m0; read_back (out (snd r))) = Some [[4; 5]].
Proof. vm_compute. reflexivity. Qed.

(** The end of a packet whose beginning was never seen is handed over as a packet. *)
Example fragment_is_emitted :
  read_back_with permissive (page_bytes BOS GRANULE_UNSET 0 2 [1] [9] ++ page_bytes CONTINUED 5 0 3 [3; 2] [1; 2; 3; 8; 9]) =
  Some ([[1; 2; 3]; [8; 9]], OggDemuxStats 0 0 1 0 0).
Proof. vm_compute. reflexivity. Qed.

(** A damaged lacing value that claims more bytes than the file has left ends it: the
    checksum is not looked at, and the good pages after it are not found. *)
Example damage_hides_the_rest :
  let first := page_bytes BOS GRANULE_UNSET 0 0 [1] [1] in
  let second := page_bytes 0 1 0 1 [3] [1; 2; 3] in
  let third := page_bytes 0 2 0 2 [2] [8; 9] in
  read_back (first ++ <[27%nat := 255]> second ++ third) = Some [] /\ read_back (first ++ <[28%nat := 255]> second ++ third) = Some [[8; 9]] /\
  read_back (first ++ second ++ third) = Some [[1; 2; 3]; [8; 9]].
Proof. split_and!; vm_compute; reflexivity. Qed.

(** What a packet cost is never given back: of four packets of one byte the last is
    dropped under a limit of 450 bytes, and nothing says so. *)
Example budget_runs_out :
  (r ← mux_file (map plain_packet [[1]; [2]; [3]; [4]]) plain_muxer; read_back_with (with_caps permissive 450 450 1000 None) (out (snd r))) =
  Some ([[1]; [2]; [3]], stats_default).
Proof. vm_compute. reflexivity. Qed.
